(* ===== verification/_CoqProject ===== *)
-Q . S2P
Prelude.v
Interner.v
VmSelectors.v
MethodTable.v
Lexer.v
CNumbers.v
Ast.v
AstWf.v
Parser.v
ParserTotal.v
Bytecode.v
Compiler.v
CompilerInv.v
CompilerRules.v
CompilerScope.v
CompilerSteps.v
CompilerExpr.v
CompilerBlocks.v
CompilerCalls.v
CompilerSafe.v
CompilerFinal.v
CompilerMethod.v
CompilerProperties.v
OpenUpvalues.v
Boxes.v
TValue.v
TypeMask.v
Doubles.v
Values.v
Primitives.v
Arith.v
Loops.v
Objects.v
Cloning.v
Symbols.v
Machine.v
Closures.v
Calls.v
Sends.v
Operators.v
LibCalls.v
Interp.v
Runs.v
Throw.v
Loading.v
TokenText.v
ParserWf.v
Frontend.v
LoadingInv.v
Inheritance.v
LoadingProps.v
Metaclasses.v
Main.v
SortingNet.v
Automata.v
AutomataMasks.v
AutomataInv.v
AutomataTable.v
AutomataTotal.v
AutomataClosure.v
AutomataProps.v
MinCost.v
Ring.v
SpdsList.v
OsrExitMap.v
OsrEvents.v
OsrExitMapProps.v
BitVec.v
ControlFlow.v
Blocks.v
Captures.v
CapturesProps.v
Liveness.v
LiveInfo.v
LiveSpec.v
LiveLoop.v
LiveProps.v
LiveResult.v
