(* ===== verification/Prelude.v ===== *)
(** * DSOM: a verified model of a Smalltalk virtual machine

    DSOM runs programs in SOM, a small Smalltalk.  A class file is tokenized
    ([runtime/som_lexer.cpp]), parsed into a tree ([som_parser.h], [som_ast.h]) and
    its methods and blocks are compiled to register bytecode
    ([som_compile_file.cpp], [drt/bytecode_builder.h]).  Classes keep their methods
    in a cuckoo hash table ([som_class.cpp]); selectors, symbols and globals are
    interned ([string_interner.h], [vm.h]).  The bytecodes
    ([annotated/bytecodes/]) work on NaN-boxed values ([drt/tvalue.h]) in the slots
    of stack frames, on closures with open upvalues ([runtime_utils.h]), and on the
    primitives written in C++ ([annotated/builtin_libs/]).  The file names in this
    library are relative to [src/].

    ** Files

    Generic: [Prelude] has the outcomes of an operation ([result], [error]), the
    state-and-error monad [M] all stateful code is written in, and the triple [wp]
    with its tactics.  A C++ loop that is not structural takes fuel and fails with
    [OutOfFuel]; theorems state how much is enough.

    Front end.
    - [Interner]: [StringInterner], globals, [GetUniquedString].  [VmSelectors]:
      the interning of well-known selectors at start-up and the range tests on them.
    - [Lexer]: [som_lexer.cpp].  [CNumbers]: [strtoll], [strtod].  [Ast], [AstWf]:
      the tree and what the compiler needs of it.  [Parser], [ParserTotal]:
      [som_parser.h] over an interface to the lexer ([TokenSource]).
    - [Bytecode]: the bytecodes and their builder.  [Compiler]: the compilation of
      methods and blocks.  [CompilerInv] has the invariant of its stores,
      [CompilerRules], [CompilerScope], [CompilerSteps] the rules of its operations,
      [CompilerExpr], [CompilerBlocks], [CompilerCalls] those of its functions,
      [CompilerSafe], [CompilerFinal], [CompilerMethod] the induction and the final
      pass; the claims are in [CompilerProperties].
    - [TokenText], [ParserWf], [Frontend]: the texts of tokens fit their kinds, a parsed
      class is well formed, and its methods compile.
    - [MethodTable]: the method dictionary, [SOMClass::Create], [GetMethod].
      [Primitives]: the table of primitives by class and selector.

    Values and objects.
    - [TValue], [TypeMask]: boxing, type tests and type masks.  [Doubles]: IEEE
      arithmetic.  [Values]: values, objects, allocation.
    - [Arith]: number primitives and operator fast paths.  [Loops]: branches and
      counting loops.  [Objects], [Cloning]: arrays, strings, fields, copies of array
      literals.  [Symbols]: symbols and the shared one-character strings.

    Execution.
    - [OpenUpvalues], [Boxes]: the list of open upvalues of a coroutine and the
      boxes it implements.  [Machine], [Closures]: code blocks, function objects, the
      creation of closures and access to upvalues.
    - [Calls], [Sends]: method lookup with the caches of call sites, trivial methods,
      sends, globals, [doesNotUnderstand:arguments:].  [Operators]: the bytecodes of
      operators.  [LibCalls]: library functions that call back.
    - [Interp]: frames, one step of the machine, non-local return.  [Runs]: caches
      cannot be observed in a run.  [Throw]: where a non-local return ends.

    Whole programs.
    - [Loading]: [SOMCompileFile], the rest of [SOMClass::Create], the bootstrap of the
      class hierarchy.  [LoadingInv] has the invariant of the loaded classes and the rules
      of the operations, [Inheritance] the chain of superclasses; the claims are in
      [LoadingProps] and [Metaclasses].
    - [Main]: [standalone/main.cpp], from the command line to [System>>initialize:].

    Parts of the compilers that do not depend on generated code.
    - [SortingNet]: [drt/sorting_network.h].  [Ring], [SpdsList]: circular lists and the
      intrusive lists of [runtime/spds_doubly_linked_list.h].
    - [Automata]: [deegen/typemask_overapprox_automata_generator.cpp] and the run of its
      tables ([drt/dfg_typemask_overapprox_automata.h]).  [AutomataMasks],
      [AutomataInv], [AutomataTable], [AutomataTotal], [AutomataClosure] have its
      lemmas, one file per phase; the claims are in [AutomataProps] and, for candidates
      with costs, in [MinCost].
    - [OsrExitMap]: [drt/dfg_osr_exit_map_builder.h], the events from which the values of
      all slots at an exit of optimized code are found again.  [OsrEvents] has the
      invariant of the builder; the claims are in [OsrExitMapProps].
    - [BitVec]: [drt/bit_vector_utils.h].  [ControlFlow]:
      [drt/dfg_control_flow_and_upvalue_analysis.cpp], the basic blocks of a function and the
      locals captured in them, over a record of what the generated decoder says of a
      bytecode; [Blocks] shows which blocks are found and has the paths through the code,
      [Captures] the invariant of the queue of blocks; the claims are in [CapturesProps].
    - [Liveness]: [drt/dfg_bytecode_liveness.cpp], the locals that are live at each bytecode.
      [LiveInfo] has the tables and masks of a block, [LiveSpec] liveness on paths and what
      a bytecode uses and defines, [LiveLoop] the rounds with their epochs, [LiveProps]
      the graph and why its solution is liveness; the claim is in [LiveResult].

    ** How the model corresponds to the code

    - A failed [Assert], [TestAssert] or [ReleaseAssert] is [AssertFailed], an
      [abort()] is [Aborted] with its message, and what C++ leaves undefined (access
      outside an object, signed overflow, division by zero, a conversion out of
      range) is [UndefinedBehaviour].  Assertions are checked as in a test build,
      except in [MethodTable] where [testbuild] chooses.
    - Objects the code links by pointers live in lists and are named by index:
      upvalues, heap objects, function objects, translation contexts, classes.  A
      stack slot is its index from the start of the stack, so comparisons of pointers
      into the stack are comparisons of indices.  The slots of a frame header hold no
      value ([None]); the headers are a list of records.
    - 32-bit and 64-bit integers are [Z] with their wrap-around or their overflow
      written out; bytecode slots and ordinals are [nat].  A double is a
      [spec_float] of precision 53 and maximal exponent 1024.

    Parameters stand for what is not in the sources: [HashString] (vendored XXH3),
    the lengths and constants of encoded bytecodes ([bcLength], [bcConstants], which
    the build generates), the types in object headers ([pointerType], in [TValue]),
    the addresses in boxed pointers, the number of entries a call site keeps
    ([capacity]), and the library functions outside the model
    ([pr_other_primitive]: files, time, printing, number formatting and parsing,
    reflection).  The theorems hold for all of them, under the hypotheses they name.

    ** What is shown

    - Front end: interning is a bijection and global slots read back; the selector
      tests mean what they say; lexing and parsing end on every input and never read
      outside the line; the method table implements a finite map, and a created
      class finds its own methods and its superclass's.
    - Compiler: it ends on every well-formed method and stops only for errors of the
      SOM program; its code names existing slots and upvalues, and branches into the code
      or to its end; each upvalue leads to a slot of an enclosing frame, which the final
      pass checks; an expression writes only scratch slots and variables in scope; [self]
      is never written.
    - Values: boxing is injective and its tests tell kinds apart; type masks agree
      with type checks, except for the NaNs other than the usual one; operators agree with the primitives they
      inline, with the exact inputs on which integer division is undefined; counting
      loops visit what [to:] would enumerate; arrays read back; array literals are
      copied deeply; symbols made of equal strings are one object, whatever is done to the
      heap in between.
    - Execution: open upvalues are boxes; closures see the variables of the functions
      around them; sends dispatch by class, and caches cannot be observed in a whole
      run; a non-local return ends in the method the block was written in, or sends
      [escapedBlock:].
    - Whole programs: all code ever loaded is safe; a loaded class has what its file says
      and inherits the rest, its class is linked to that of its superclass; loading ends
      unless the files inherit in a circle; a program runs [initialize:] on its arguments
      once the bootstrap has succeeded, and discards its value.
      [Main] runs small programs from their files to their results, and with one of them
      shows a fault in the closing of upvalues.
    - Compilers: sorting networks sort; intrusive lists are lists; an automaton gives each
      type mask a best covering item, and is made for every list of distinct masks within
      the bounds of its tables; replaying the events of a basic block gives the values
      of its slots at every exit, but for a signed comparison of exit numbers that fails
      from 32768 exits on.
    - Analyses of bytecode: the blocks are a partition of the bytecodes that can be reached,
      with the successors control can go to; a local is reported captured, or live, exactly
      when a path says so; both fixpoints end and no assertion fails.  This is under
      hypotheses on the code ([code_ok], [closures_ok], [accesses_ok]): bytecodes are
      where the index says and branch to bytecodes, a closure that captures is not the last
      of its block, upvalues are closed by the last bytecode of a block and before the
      function is left.  The closing bytecode that the SOM compiler emits before a return is
      not last in its block, so for a function with captured locals an assertion fails in a
      test build; this and a closure that is overlooked are examples in [CapturesProps].

    ** Fuel

    The parser needs two units more than the length of the file, the compiler the size of
    the tree of the method, [find_home] one more than the number of frames,
    [is_ancestor] the number of contexts, [DeepCloneConstantArray] one more than the
    number of objects, [SOMCompileFile] the length of the chain of superclasses.  [run]
    takes one unit per step; programs need not end.  The closure of a list of masks needs
    one round more than the 501 items it may have, the traversal of nodes one unit per
    item and edge, a run over an automaton one per bit of the mask, the binary search
    of the replayer one per event, a list one per node.  The traversal of
    blocks needs one unit more than there are starts, the analysis of captures one per block
    and one per local of each block, and the rounds of liveness two more than that, since a
    round after the first needs a head that has grown.

    ** Not modelled

    The rest of the baseline and optimizing compilers ([drt/dfg_*]), which works on node classes and
    code stencils that the build generates; the code generators in [deegen/],
    which produce the interpreter from the definitions modelled here, with the automata
    printed as C++ code; the JIT memory allocator, arenas, memory
    mapping and stack overflow checks; interpreter tier-up counters; debug names and
    the variadic flag of code blocks; the cross checks inside [InternString]. *)
From stdpp Require Export base list gmap strings fin_maps.
From stdpp Require Import options.
From Stdlib Require Export ZArith Lia.

(** ** Outcomes

    The program stops in four ways besides returning: a failed assertion
    ([assert], [TestAssert], [ReleaseAssert]), an explicit [abort()] with its
    message, a read or write outside an object (undefined behaviour in C++), and,
    for the model only, exhausted fuel. *)
Inductive error : Type :=
  | AssertFailed (what : string)
  | Aborted (msg : string)
  | UndefinedBehaviour (what : string)
  | OutOfFuel.

#[export] Instance error_eq_dec : EqDecision error.
Proof. solve_decision. Defined.

Inductive result (A : Type) : Type :=
  | Ok (a : A)
  | Err (e : error).
Arguments Ok {A} a.
Arguments Err {A} e.

#[export] Instance result_ret : MRet result := fun A a => Ok a.
#[export] Instance result_bind : MBind result := fun A B f m =>
  match m with Ok a => f a | Err e => Err e end.

#[export] Instance result_fmap : FMap result := fun A B f m =>
  match m with Ok a => Ok (f a) | Err e => Err e end.

(** ** The state-and-error monad the stateful components are written in *)
Definition M (S A : Type) : Type := S -> result (A * S).

#[export] Instance M_ret {S} : MRet (M S) := fun A a s => Ok (a, s).
#[export] Instance M_bind {S} : MBind (M S) := fun A B f m s =>
  match m s with Ok (a, s') => f a s' | Err e => Err e end.

Section operations.
Context {S A : Type}.

Definition get_st : M S S := fun s => Ok (s, s).
Definition put_st (s : S) : M S unit := fun _ => Ok (tt, s).
Definition gets (f : S -> A) : M S A := fun s => Ok (f s, s).
Definition modify (f : S -> S) : M S unit := fun s => Ok (tt, f s).
Definition fail (e : error) : M S A := fun _ => Err e.
Definition lift_result (r : result A) : M S A := fun s =>
  match r with Ok a => Ok (a, s) | Err e => Err e end.
End operations.

Definition check {S} (b : bool) (e : error) : M S unit := if b then mret tt else fail e.

Declare Scope dsom_scope.
Delimit Scope dsom_scope with dsom.
Definition when {S} (b : bool) (m : M S unit) : M S unit := if b then m else mret tt.
Open Scope dsom_scope.

(** ** Weakest preconditions

    [wp E m Q s]: from [s], [m] returns into [Q] or stops with an error allowed
    by [E].  With [E := fun _ => False] it is total correctness, with
    [E := no_fuel_error] it says the fuel is enough. *)
Definition wp {S A} (E : error -> Prop) (m : M S A) (Q : A -> S -> Prop) (s : S) : Prop :=
  match m s with Ok (a, s') => Q a s' | Err e => E e end.

Arguments wp : simpl never.

Definition any_error : error -> Prop := fun _ => True.
Definition no_fuel_error : error -> Prop := fun e => e <> OutOfFuel.

Create HintDb dsom.

Section wp_rules.
Context {S : Type} (E : error -> Prop).

Lemma wp_ret {A} (a : A) Q (s : S) : Q a s -> wp E (mret a) Q s.
Proof. done. Qed.

Lemma wp_bind {A B} (m : M S A) (f : A -> M S B) Q s :
  wp E m (fun a => wp E (f a) Q) s -> wp E (m ≫= f) Q s.
Proof. unfold wp, mbind, M_bind. by destruct (m s) as [[a s']|e]. Qed.

Lemma wp_bind_inv {A B} (m : M S A) (f : A -> M S B) Q s :
  wp E (m ≫= f) Q s -> wp E m (fun a => wp E (f a) Q) s.
Proof. unfold wp, mbind, M_bind. by destruct (m s) as [[a s']|e]. Qed.

Lemma wp_mono {A} (m : M S A) (Q Q' : A -> S -> Prop) s :
  wp E m Q s -> (forall a s', Q a s' -> Q' a s') -> wp E m Q' s.
Proof. unfold wp. destruct (m s) as [[a s']|e]; eauto. Qed.

Lemma wp_conj {A} (m : M S A) (Q Q' : A -> S -> Prop) s :
  wp E m Q s -> wp E m Q' s -> wp E m (fun a s' => Q a s' /\ Q' a s') s.
Proof. unfold wp. destruct (m s) as [[a s']|e]; eauto. Qed.

Lemma wp_get Q (s : S) : Q s s -> wp E get_st Q s.
Proof. done. Qed.

Lemma wp_put Q (s s' : S) : Q tt s' -> wp E (put_st s') Q s.
Proof. done. Qed.

Lemma wp_gets {A} (f : S -> A) Q (s : S) : Q (f s) s -> wp E (gets f) Q s.
Proof. done. Qed.

Lemma wp_modify (f : S -> S) Q (s : S) : Q tt (f s) -> wp E (modify f) Q s.
Proof. done. Qed.

Lemma wp_fail {A} e (Q : A -> S -> Prop) s : E e -> wp E (fail e) Q s.
Proof. done. Qed.

Lemma wp_check b e (Q : unit -> S -> Prop) s :
  (b = true -> Q tt s) -> (b = false -> E e) -> wp E (check b e) Q s.
Proof. destruct b; unfold check; simpl; [intros H _; by apply H|intros _ H; by apply H]. Qed.

Lemma wp_lift_result {A} (r : result A) Q (s : S) :
  match r with Ok a => Q a s | Err e => E e end -> wp E (lift_result r) Q s.
Proof. by destruct r. Qed.

Lemma wp_if {A} (b : bool) (m1 m2 : M S A) Q s :
  (b = true -> wp E m1 Q s) -> (b = false -> wp E m2 Q s) ->
  wp E (if b then m1 else m2) Q s.
Proof. destruct b; eauto. Qed.
End wp_rules.

Lemma wp_error_mono {S A} (E E' : error -> Prop) (m : M S A) Q s :
  (forall e, E e -> E' e) -> wp E m Q s -> wp E' m Q s.
Proof. unfold wp. destruct (m s) as [[a s']|e]; eauto. Qed.

Lemma wp_ok {S A} E (m : M S A) Q s a s' : wp E m Q s -> m s = Ok (a, s') -> Q a s'.
Proof. unfold wp. intros H Hm. by rewrite Hm in H. Qed.

Lemma wp_total {S A} (m : M S A) Q s :
  wp (fun _ => False) m Q s -> exists a s', m s = Ok (a, s') /\ Q a s'.
Proof. unfold wp. destruct (m s) as [[a s']|e]; [|done]. eauto. Qed.

Lemma no_fuel_assert w : no_fuel_error (AssertFailed w).
Proof. done. Qed.
Lemma no_fuel_aborted w : no_fuel_error (Aborted w).
Proof. done. Qed.
Lemma no_fuel_ub w : no_fuel_error (UndefinedBehaviour w).
Proof. done. Qed.
Lemma any_error_ok e : any_error e.
Proof. exact I. Qed.

#[export] Hint Resolve no_fuel_assert no_fuel_aborted no_fuel_ub any_error_ok : dsom.

(** One step of symbolic execution, and its iteration. *)
Ltac wp_step :=
  match goal with
  | |- wp _ (_ ≫= _) _ _ => apply wp_bind
  | |- wp _ (mret _) _ _ => apply wp_ret
  | |- wp _ get_st _ _ => apply wp_get
  | |- wp _ (put_st _) _ _ => apply wp_put
  | |- wp _ (gets _) _ _ => apply wp_gets
  | |- wp _ (modify _) _ _ => apply wp_modify
  | |- wp _ (fail _) _ _ => apply wp_fail; auto with dsom
  | |- wp _ (check _ _) _ _ => apply wp_check; [intros ?|intros _; auto with dsom]
  | |- wp _ (lift_result _) _ _ => apply wp_lift_result
  | |- wp _ (if ?b then _ else _) _ _ => apply wp_if; intros ?
  end.
Ltac wp_steps := repeat (wp_step; simpl).

(** ** Generic lemmas shared by the components *)

Lemma lookup_app_Some_l {A} (l k : list A) i x : l !! i = Some x -> (l ++ k) !! i = Some x.
Proof. intros H. rewrite lookup_app_l; [done|by eapply lookup_lt_Some]. Qed.

Lemma list_lookup_snoc_Some {A} (l : list A) x i y :
  (l ++ [x]) !! i = Some y <-> l !! i = Some y \/ (i = length l /\ y = x).
Proof.
  destruct (decide (i < length l)) as [Hi|Hi].
  - rewrite lookup_app_l by done. split; [auto|intros [?|[-> _]]; [done|lia]].
  - rewrite lookup_app_r by lia. rewrite list_lookup_singleton_Some. split.
    + intros [Hi' ->]. right. split; [lia|done].
    + intros [H|[-> ->]]; [by apply lookup_lt_Some in H|split; [lia|done]].
Qed.
