(* ===== verification/Interner.v ===== *)
(** * The string interner and the global-variable table

    Models [runtime/string_interner.h] ([StringInterner]) and the part of
    [runtime/vm.h] that numbers SOM globals ([GetSlotForGlobal],
    [GetSlotForGlobalNoCreate], [GetUniquedString]).  [HashString] is the
    vendored XXH3 hash; every theorem holds for any hash function. *)
From S2P Require Import Prelude.

Section with_hash.
Context (HashString : string -> Z).

(** [m_map] is keyed by string contents; [m_list] holds the string and its hash
    at its ordinal.  The arena that owns the characters is not observable. *)
Record StringInterner : Type := mk_interner {
  m_map : gmap string nat;
  m_list : list (string * Z)
}.

Definition empty_interner : StringInterner := mk_interner ∅ [].

Definition InternString (str : string) (it : StringInterner) : nat * StringInterner :=
  match m_map it !! str with
  | None =>
      let count := size (m_map it) in
      let hash := HashString str in
      (count, mk_interner (<[str := count]> (m_map it)) (m_list it ++ [(str, hash)]))
  | Some ord => (ord, it)
  end.

Definition Get (ord : nat) (it : StringInterner) : result string :=
  match m_list it !! ord with
  | Some (key, _) => Ok key
  | None => Err (AssertFailed "ord < m_list.size()")
  end.

Definition GetHash (ord : nat) (it : StringInterner) : result Z :=
  match m_list it !! ord with
  | Some (_, hash) => Ok hash
  | None => Err (AssertFailed "ord < m_list.size()")
  end.

(** ** Invariant: the map and the list are inverse to each other *)
Definition interner_wf (it : StringInterner) : Prop :=
  size (m_map it) = length (m_list it) /\
  (forall s i, m_map it !! s = Some i <-> m_list it !! i = Some (s, HashString s)) /\
  (forall i s h, m_list it !! i = Some (s, h) -> h = HashString s).

(** Later states only append to the list, so ordinals handed out stay valid. *)
Definition interner_le (it it' : StringInterner) : Prop :=
  m_list it `prefix_of` m_list it'.

#[global] Instance interner_le_preorder : PreOrder interner_le.
Proof. unfold interner_le. split; intros ?*; [done|]. intros; by etrans. Qed.

Lemma empty_interner_wf : interner_wf empty_interner.
Proof. repeat split; simpl; try done; intros; by rewrite ?lookup_empty, ?lookup_nil in *. Qed.

Lemma InternString_wf s it : interner_wf it -> interner_wf (InternString s it).2.
Proof.
  intros (Hsz & Hbij & Hh). unfold InternString.
  destruct (m_map it !! s) as [i|] eqn:Hs; simpl; [done|].
  split_and!; simpl.
  - rewrite map_size_insert_None, length_app by done. simpl. lia.
  - intros s' i. rewrite list_lookup_snoc_Some, <-Hbij.
    destruct (decide (s = s')) as [<-|Hne].
    + rewrite lookup_insert_eq, Hs. split.
      * intros [= <-]. right. by rewrite Hsz.
      * intros [[=]|[-> _]]. by rewrite Hsz.
    + rewrite lookup_insert_ne by done. split; [by left|].
      intros [?|[_ [= -> ?]]]; done.
  - intros i s' h. rewrite list_lookup_snoc_Some. intros [?|[_ [= -> ->]]]; [eauto|done].
Qed.

Lemma InternString_le s it : interner_le it (InternString s it).2.
Proof.
  unfold InternString, interner_le. destruct (m_map it !! s); simpl; [done|by eexists].
Qed.

Lemma InternString_lookup s it :
  interner_wf it -> m_list (InternString s it).2 !! (InternString s it).1 = Some (s, HashString s).
Proof.
  intros (Hsz & Hbij & Hh). unfold InternString.
  destruct (m_map it !! s) as [i|] eqn:Hs; simpl; [by apply Hbij|].
  apply list_lookup_snoc_Some. right. by rewrite Hsz.
Qed.

Lemma interner_le_lookup it it' i p :
  interner_le it it' -> m_list it !! i = Some p -> m_list it' !! i = Some p.
Proof. intros Hle Hi. by eapply prefix_lookup_Some. Qed.

Lemma interner_lookup_inj it i j s h h' :
  interner_wf it -> m_list it !! i = Some (s, h) -> m_list it !! j = Some (s, h') -> i = j.
Proof.
  intros (_ & Hbij & Hh) Hi Hj.
  pose proof (Hh _ _ _ Hi) as ->. pose proof (Hh _ _ _ Hj) as ->.
  apply Hbij in Hi. apply Hbij in Hj. congruence.
Qed.

(** ** Globals *)
Record SOMUniquedString : Type := mk_uniqued { m_id : Z; m_hash : Z }.

Definition u32 (z : Z) : Z := (z `mod` 2 ^ 32)%Z.

(** [static_cast<uint32_t>(hash)]: the half of the hash kept next to an id. *)
Definition hash32 (hash : Z) : Z := u32 hash.

Definition GetUniquedString (str : string) (it : StringInterner)
    : result (SOMUniquedString * StringInterner) :=
  let '(ord, it') := InternString str it in
  hash ← GetHash ord it';
  Ok (mk_uniqued (u32 (Z.of_nat ord)) (hash32 hash), it').

(** The globals vector holds [None] for [TValue::CreateImpossibleValue()], the
    value of a slot that was allocated but never assigned. *)
Record Globals (V : Type) : Type := mk_globals {
  g_interner : StringInterner;
  m_globalIdxMap : gmap nat nat;
  m_globalStringIdWithIndex : list nat;
  m_globalsVec : list (option V)
}.
Arguments mk_globals {V}.
Arguments g_interner {V}.
Arguments m_globalIdxMap {V}.
Arguments m_globalStringIdWithIndex {V}.
Arguments m_globalsVec {V}.

Definition GetSlotForGlobalNoCreate {V} (name : string) (g : Globals V) : option nat * Globals V :=
  let '(ord, it) := InternString name (g_interner g) in
  (m_globalIdxMap g !! ord,
   mk_globals it (m_globalIdxMap g) (m_globalStringIdWithIndex g) (m_globalsVec g)).

Definition GetSlotForGlobal {V} (name : string) (g : Globals V) : nat * Globals V :=
  let '(ord, it) := InternString name (g_interner g) in
  match m_globalIdxMap g !! ord with
  | None =>
      let vec := m_globalsVec g ++ [None] in
      let idx := length vec - 1 in
      (idx, mk_globals it (<[ord := idx]> (m_globalIdxMap g))
              (m_globalStringIdWithIndex g ++ [ord]) vec)
  | Some idx =>
      (idx, mk_globals it (m_globalIdxMap g) (m_globalStringIdWithIndex g) (m_globalsVec g))
  end.

Definition VM_GetGlobal {V} (idx : nat) (g : Globals V) : result (option V) :=
  match m_globalsVec g !! idx with
  | Some v => Ok v
  | None => Err (AssertFailed "idx < m_globalsVec.size()")
  end.

(** [system_globalput]: the slot is created when missing, then written. *)
Definition SetGlobal {V} (name : string) (v : V) (g : Globals V) : Globals V :=
  let '(slot, g') := GetSlotForGlobal name g in
  mk_globals (g_interner g') (m_globalIdxMap g') (m_globalStringIdWithIndex g')
    (<[slot := Some v]> (m_globalsVec g')).

(** [system_global]: [None] stands for the [nil] that is returned for a global
    that does not exist or was never assigned. *)
Definition LookupGlobal {V} (name : string) (g : Globals V) : result (option V * Globals V) :=
  let '(slot, g') := GetSlotForGlobalNoCreate name g in
  match slot with
  | None => Ok (None, g')
  | Some idx => v ← VM_GetGlobal idx g'; Ok (v, g')
  end.

Definition globals_wf {V} (g : Globals V) : Prop :=
  interner_wf (g_interner g) /\
  length (m_globalStringIdWithIndex g) = length (m_globalsVec g) /\
  (forall ord idx, m_globalIdxMap g !! ord = Some idx <->
                   m_globalStringIdWithIndex g !! idx = Some ord) /\
  (forall ord idx, m_globalIdxMap g !! ord = Some idx -> ord < length (m_list (g_interner g))).

Lemma Get_lookup i s h it : m_list it !! i = Some (s, h) -> Get i it = Ok s.
Proof. unfold Get. by intros ->. Qed.

Lemma GetHash_lookup i s h it : m_list it !! i = Some (s, h) -> GetHash i it = Ok h.
Proof. unfold GetHash. by intros ->. Qed.

Lemma Get_Ok_lookup i s it : Get i it = Ok s -> exists h, m_list it !! i = Some (s, h).
Proof. unfold Get. destruct (m_list it !! i) as [[k h]|]; intros [= ->]; eauto. Qed.

(** Interning a string that already has an ordinal changes nothing. *)
Lemma InternString_known s i h it :
  interner_wf it -> m_list it !! i = Some (s, h) -> InternString s it = (i, it).
Proof.
  intros (Hsz & Hbij & Hh) Hi. pose proof (Hh _ _ _ Hi) as ->.
  apply Hbij in Hi. unfold InternString. by rewrite Hi.
Qed.

Lemma InternString_known_later s it it' :
  interner_wf it -> interner_wf it' -> interner_le (InternString s it).2 it' ->
  InternString s it' = ((InternString s it).1, it').
Proof.
  intros Hwf Hwf' Hle. eapply InternString_known; [done|].
  eapply interner_le_lookup; [exact Hle|]. by apply InternString_lookup.
Qed.

Lemma GetUniquedString_eq s it :
  interner_wf it ->
  GetUniquedString s it =
    Ok (mk_uniqued (u32 (Z.of_nat (InternString s it).1)) (hash32 (HashString s)),
        (InternString s it).2).
Proof.
  intros Hwf. unfold GetUniquedString.
  pose proof (InternString_lookup s it Hwf) as Hl.
  destruct (InternString s it) as [ord it'] eqn:E; simpl in *.
  by rewrite (GetHash_lookup _ _ _ _ Hl).
Qed.

(** ** The globals table *)
Lemma empty_globals_wf {V} it : interner_wf it -> globals_wf (@mk_globals V it ∅ [] []).
Proof.
  intros Hwf. by split_and!.
Qed.

Lemma GetSlotForGlobal_wf {V} name (g : Globals V) :
  globals_wf g -> globals_wf (GetSlotForGlobal name g).2.
Proof.
  intros (Hwf & Hlen & Hbij & Hord). unfold GetSlotForGlobal.
  pose proof (InternString_wf name _ Hwf) as Hwf'.
  pose proof (InternString_le name (g_interner g)) as Hle.
  pose proof (InternString_lookup name _ Hwf) as Hlk.
  destruct (InternString name (g_interner g)) as [ord it] eqn:E; simpl in *.
  assert (Hb : forall o i, m_globalIdxMap g !! o = Some i -> o < length (m_list it)).
  { intros o i Ho. apply Hord in Ho. pose proof (prefix_length _ _ Hle). lia. }
  destruct (m_globalIdxMap g !! ord) as [idx|] eqn:Eo; simpl; split_and!; simpl; try done.
  - rewrite !length_app. simpl. lia.
  - intros o i. rewrite list_lookup_snoc_Some, length_app. simpl.
    destruct (decide (ord = o)) as [<-|Hne].
    + rewrite lookup_insert_eq. split.
      * intros [= <-]. right. split; [lia|done].
      * intros [Hi|[-> _]]; [|f_equal; lia]. apply Hbij in Hi. congruence.
    + rewrite lookup_insert_ne by done. rewrite Hbij. split; [by left|].
      intros [?|[_ ?]]; [done|congruence].
  - intros o i. destruct (decide (ord = o)) as [<-|Hne].
    + intros _. by eapply lookup_lt_Some.
    + rewrite lookup_insert_ne by done. apply Hb.
Qed.

(** What the table holds for a name: the abstract specification. *)
Definition global_value {V} (name : string) (g : Globals V) : option V :=
  ord ← m_map (g_interner g) !! name;
  idx ← m_globalIdxMap g !! ord;
  mjoin (m_globalsVec g !! idx).

Lemma LookupGlobal_value {V} name (g : Globals V) :
  globals_wf g -> exists g', LookupGlobal name g = Ok (global_value name g, g').
Proof.
  intros (Hwf & Hlen & Hbij & Hord).
  unfold LookupGlobal, GetSlotForGlobalNoCreate, global_value, InternString.
  destruct (m_map (g_interner g) !! name) as [ord|] eqn:Em; simpl.
  - destruct (m_globalIdxMap g !! ord) as [idx|] eqn:Eo; simpl; [|by eauto].
    unfold VM_GetGlobal. simpl. apply Hbij, lookup_lt_Some in Eo. rewrite Hlen in Eo.
    destruct (lookup_lt_is_Some_2 _ _ Eo) as [v ->]. simpl. eauto.
  - destruct (m_globalIdxMap g !! size (m_map (g_interner g))) as [idx|] eqn:Eo; simpl; [|by eauto].
    apply Hord in Eo. destruct Hwf as [Hsz _]. lia.
Qed.

Lemma SetGlobal_wf {V} name v (g : Globals V) :
  globals_wf g -> globals_wf (SetGlobal name v g).
Proof.
  intros Hg. pose proof (GetSlotForGlobal_wf name g Hg) as (H1 & H2 & H3 & H4).
  unfold SetGlobal. destruct (GetSlotForGlobal name g) as [slot g'].
  split_and!; simpl in *; try done. by rewrite length_insert.
Qed.

(** The slot of a name, after it has been created. *)
Lemma GetSlotForGlobal_slot {V} name (g : Globals V) :
  globals_wf g ->
  let '(slot, g') := GetSlotForGlobal name g in
  exists ord, m_map (g_interner g') !! name = Some ord /\
    m_globalIdxMap g' !! ord = Some slot /\ slot < length (m_globalsVec g').
Proof.
  intros Hg. pose proof (GetSlotForGlobal_wf name g Hg) as (H1 & H2 & H3 & H4).
  destruct Hg as (Hwf & Hlen & Hbij & Hord). unfold GetSlotForGlobal in *.
  pose proof (InternString_wf name _ Hwf) as Hwf'.
  pose proof (InternString_lookup name _ Hwf) as Hlk.
  destruct (InternString name (g_interner g)) as [ord it] eqn:E; simpl in *.
  assert (Hm : m_map it !! name = Some ord) by (destruct Hwf' as (_ & Hb & _); by apply Hb).
  destruct (m_globalIdxMap g !! ord) as [idx|] eqn:Eo; simpl in *; exists ord; split_and!; try done.
  - apply Hbij, lookup_lt_Some in Eo. lia.
  - by rewrite lookup_insert_eq.
  - rewrite length_app. simpl. lia.
Qed.

Lemma GetSlotForGlobal_le {V} name (g : Globals V) :
  interner_le (g_interner g) (g_interner (GetSlotForGlobal name g).2).
Proof.
  unfold GetSlotForGlobal. pose proof (InternString_le name (g_interner g)) as H.
  destruct (InternString name (g_interner g)) as [ord it]. by destruct (m_globalIdxMap g !! ord).
Qed.

(** Creating a slot does not change what any name denotes. *)
Lemma GetSlotForGlobal_value {V} name name' (g : Globals V) :
  globals_wf g -> global_value name' (GetSlotForGlobal name g).2 = global_value name' g.
Proof.
  intros (Hwf & Hlen & Hbij & Hord). unfold GetSlotForGlobal, global_value.
  destruct (InternString name (g_interner g)) as [ord it] eqn:E.
  assert (Hmap : m_map it !! name' = m_map (g_interner g) !! name' \/
                 (name = name' /\ m_map (g_interner g) !! name' = None /\
                  m_map it !! name' = Some ord /\ m_globalIdxMap g !! ord = None)).
  { unfold InternString in E. destruct (m_map (g_interner g) !! name) eqn:Em.
    - injection E as <- <-. by left.
    - injection E as <- <-. simpl. destruct (decide (name = name')) as [<-|Hne].
      + right. split_and!; try done; [apply lookup_insert_eq|].
        destruct (m_globalIdxMap g !! size (m_map (g_interner g))) eqn:Eo; [|done].
        apply Hord in Eo. destruct Hwf as [Hsz _]. lia.
      + left. by rewrite lookup_insert_ne. }
  destruct (m_globalIdxMap g !! ord) as [idx|] eqn:Eo; simpl.
  - destruct Hmap as [->|(_ & _ & _ & [=])]; done.
  - destruct Hmap as [->|(<- & Hn & -> & _)].
    + destruct (m_map (g_interner g) !! name') as [o|]; simpl; [|done].
      destruct (decide (ord = o)) as [<-|Hne].
      * rewrite lookup_insert_eq, Eo. simpl. rewrite length_app. simpl.
        replace (length (m_globalsVec g) + 1 - 1) with (length (m_globalsVec g)) by lia.
        by rewrite list_lookup_middle.
      * rewrite lookup_insert_ne by done.
        destruct (m_globalIdxMap g !! o) as [i|] eqn:Ei; simpl; [|done].
        rewrite lookup_app_l; [done|]. apply Hbij, lookup_lt_Some in Ei. lia.
    + rewrite Hn. simpl. rewrite lookup_insert_eq. simpl. rewrite length_app. simpl.
      replace (length (m_globalsVec g) + 1 - 1) with (length (m_globalsVec g)) by lia.
      by rewrite list_lookup_middle.
Qed.

Lemma SetGlobal_value {V} name name' v (g : Globals V) :
  globals_wf g ->
  global_value name' (SetGlobal name v g) =
    if decide (name = name') then Some v else global_value name' g.
Proof.
  intros Hg. rewrite <-(GetSlotForGlobal_value name name' g Hg).
  pose proof (GetSlotForGlobal_wf name g Hg) as (Hwf & Hlen & Hbij & Hord).
  pose proof (GetSlotForGlobal_slot name g Hg) as Hs.
  unfold SetGlobal, global_value. destruct (GetSlotForGlobal name g) as [slot g']; simpl in *.
  destruct Hs as (ord & Hm & Ho & Hlt).
  case_decide as Hd.
  - subst name'. rewrite Hm. simpl. rewrite Ho. simpl. by rewrite list_lookup_insert_eq.
  - destruct (m_map (g_interner g') !! name') as [o|] eqn:Em; simpl; [|done].
    destruct (m_globalIdxMap g' !! o) as [i|] eqn:Ei; simpl; [|done].
    destruct (decide (slot = i)) as [<-|Hne]; [|by rewrite list_lookup_insert_ne].
    exfalso. apply Hbij in Ho. apply Hbij in Ei.
    assert (o = ord) as -> by congruence. destruct Hwf as (_ & Hb & _).
    apply Hb in Hm. apply Hb in Em. congruence.
Qed.

(** ** Properties *)

(** C22: interning is a bijection between strings and ordinals that later
    interning never disturbs.  From a well-formed interner, [InternString s]
    leaves a well-formed interner that extends the old one, the ordinal it
    returns reads back as [s] with [s]'s hash, no other ordinal does, and
    interning [s] again in any later state returns the same ordinal and
    changes nothing. *)
Theorem InternString_bijective s it :
  interner_wf it ->
  let '(ord, it') := InternString s it in
  interner_wf it' /\ interner_le it it' /\
  Get ord it' = Ok s /\ GetHash ord it' = Ok (HashString s) /\
  (forall ord', Get ord' it' = Ok s -> ord' = ord) /\
  (forall it'', interner_wf it'' -> interner_le it' it'' -> InternString s it'' = (ord, it'')).
Proof.
  intros Hwf. pose proof (InternString_wf s it Hwf) as Hwf'.
  pose proof (InternString_le s it) as Hle.
  pose proof (InternString_lookup s it Hwf) as Hlk.
  pose proof (InternString_known_later s it) as Hk.
  destruct (InternString s it) as [ord it'] eqn:E; simpl in *. split_and!; try done.
  - by eapply Get_lookup.
  - by eapply GetHash_lookup.
  - intros ord' [h Hg]%Get_Ok_lookup. by eapply interner_lookup_inj.
  - intros it'' Hwf'' Hle'. by apply Hk.
Qed.

(** The globals table is a finite map.  [system global: n'] after
    [system global: n put: v] returns [v] when the names agree and what it
    returned before otherwise, never fails an assertion, and the table stays
    well formed. *)
Theorem SetGlobal_LookupGlobal {V} name name' (v : V) (g : Globals V) :
  globals_wf g ->
  globals_wf (SetGlobal name v g) /\
  exists r g1 g2,
    LookupGlobal name' g = Ok (r, g1) /\
    LookupGlobal name' (SetGlobal name v g) =
      Ok (if decide (name = name') then Some v else r, g2).
Proof.
  intros Hg. pose proof (SetGlobal_wf name v g Hg) as Hg'. split; [done|].
  destruct (LookupGlobal_value name' g Hg) as [g1 H1].
  destruct (LookupGlobal_value name' _ Hg') as [g2 H2].
  exists (global_value name' g), g1, g2. split; [done|]. by rewrite H2, SetGlobal_value.
Qed.
End with_hash.

Arguments mk_globals {V}.
Arguments g_interner {V}.
Arguments m_globalIdxMap {V}.
Arguments m_globalStringIdWithIndex {V}.
Arguments m_globalsVec {V}.
Arguments InternString : simpl never.

Lemma InternString_bijective_witness :
  interner_wf (fun s => Z.of_nat (String.length s)) empty_interner /\
  let '(ord, it') := InternString (fun s => Z.of_nat (String.length s)) "foo" empty_interner in
  Get ord it' = Ok "foo".
Proof.
  split; [apply empty_interner_wf|].
  pose proof (InternString_bijective (fun s => Z.of_nat (String.length s)) "foo"
    empty_interner (empty_interner_wf _)) as H.
  destruct (InternString _ "foo" empty_interner) as [ord it']. apply H.
Defined.

Lemma SetGlobal_LookupGlobal_witness :
  let g := @mk_globals Z empty_interner ∅ [] [] in
  globals_wf (fun _ => 0%Z) (SetGlobal (fun _ => 0%Z) "x" 5%Z g).
Proof.
  exact (proj1 (SetGlobal_LookupGlobal (fun _ => 0%Z) "x" "x" 5%Z (mk_globals empty_interner ∅ [] [])
    (empty_globals_wf _ _ (empty_interner_wf _)))).
Defined.
