(* ===== verification/VmSelectors.v ===== *)
(** * The selectors the VM knows by number

    Models the interning of well-known selectors in [runtime/vm.cpp]
    ([VM::InitializeVMGlobalData]) and the range tests over them in
    [runtime/vm.h] ([IsSelectorArithmeticOperator],
    [IsSelectorInlinableControlFlow], [IsSelectorSpecializableUnaryOperator]).
    The compiler classifies a message send by these tests. *)
From S2P Require Import Prelude Interner.

Record VMStrings : Type := mk_vm_strings {
  v_unknownGlobalHandler : SOMUniquedString;
  v_doesNotUnderstandHandler : SOMUniquedString;
  v_escapedBlockHandler : SOMUniquedString;
  v_strOperatorPlus : SOMUniquedString;
  v_strOperatorMinus : SOMUniquedString;
  v_strOperatorStar : SOMUniquedString;
  v_strOperatorSlashSlash : SOMUniquedString;
  v_strOperatorPercent : SOMUniquedString;
  v_strOperatorAnd : SOMUniquedString;
  v_strOperatorEqual : SOMUniquedString;
  v_strOperatorLessThan : SOMUniquedString;
  v_strOperatorLessEqual : SOMUniquedString;
  v_strOperatorGreaterThan : SOMUniquedString;
  v_strOperatorGreaterEqual : SOMUniquedString;
  v_strOperatorUnequal : SOMUniquedString;
  v_strOperatorTildeUnequal : SOMUniquedString;
  v_strOperatorLeftShift : SOMUniquedString;
  v_strOperatorRightShift : SOMUniquedString;
  v_strOperatorBitwiseXor : SOMUniquedString;
  v_strOperatorSlash : SOMUniquedString;
  v_strOperatorEqualEqual : SOMUniquedString;
  v_stringIdForWhileTrue : nat;
  v_stringIdForWhileFalse : nat;
  v_stringIdForIfTrueIfFalse : nat;
  v_stringIdForIfFalseIfTrue : nat;
  v_stringIdForIfNilIfNotNil : nat;
  v_stringIdForIfNotNilIfNil : nat;
  v_stringIdForIfTrue : nat;
  v_stringIdForIfFalse : nat;
  v_stringIdForIfNil : nat;
  v_stringIdForIfNotNil : nat;
  v_stringIdForOperatorAnd : nat;
  v_stringIdForOperatorOr : nat;
  v_stringIdForMethodAnd : nat;
  v_stringIdForMethodOr : nat;
  v_stringIdForToDo : nat;
  v_stringIdForDowntoDo : nat;
  v_strOperatorLogicalAnd : SOMUniquedString;
  v_strOperatorLogicalOr : SOMUniquedString;
  v_strOperatorKeywordAnd : SOMUniquedString;
  v_strOperatorKeywordOr : SOMUniquedString;
  v_strOperatorValueColon : SOMUniquedString;
  v_strOperatorAtColon : SOMUniquedString;
  v_strOperatorCharAtColon : SOMUniquedString;
  v_strOperatorAbs : SOMUniquedString;
  v_strOperatorSqrt : SOMUniquedString;
  v_strOperatorIsNil : SOMUniquedString;
  v_strOperatorNotNil : SOMUniquedString;
  v_strOperatorValue : SOMUniquedString;
  v_strOperatorNot : SOMUniquedString;
  v_strOperatorLength : SOMUniquedString;
  v_strOperatorAtPut : SOMUniquedString;
  v_strOperatorValueWith : SOMUniquedString
}.

Section with_hash.
Context (HashString : string -> Z).

Definition uniq (s : string) : M StringInterner SOMUniquedString := GetUniquedString HashString s.
Definition intern (s : string) : M StringInterner nat := fun it => Ok (InternString HashString s it).

(** [ReleaseAssert(a == b + k)]. *)
Definition contiguous (a b k : Z) : M StringInterner unit :=
  check (a =? b + k)%Z (AssertFailed "selector ordinals are contiguous").

Definition InitializeStrings : M StringInterner VMStrings :=
  m_unknownGlobalHandler ← uniq "unknownGlobal:";
  m_doesNotUnderstandHandler ← uniq "doesNotUnderstand:arguments:";
  m_escapedBlockHandler ← uniq "escapedBlock:";
  m_strOperatorPlus ← uniq "+";
  m_strOperatorMinus ← uniq "-";
  contiguous (m_id m_strOperatorMinus) (m_id m_strOperatorPlus) 1 ;;
  m_strOperatorStar ← uniq "*";
  contiguous (m_id m_strOperatorStar) (m_id m_strOperatorMinus) 1 ;;
  m_strOperatorSlashSlash ← uniq "//";
  contiguous (m_id m_strOperatorSlashSlash) (m_id m_strOperatorStar) 1 ;;
  m_strOperatorPercent ← uniq "%";
  contiguous (m_id m_strOperatorPercent) (m_id m_strOperatorSlashSlash) 1 ;;
  m_strOperatorAnd ← uniq "&";
  contiguous (m_id m_strOperatorAnd) (m_id m_strOperatorPercent) 1 ;;
  m_strOperatorEqual ← uniq "=";
  contiguous (m_id m_strOperatorEqual) (m_id m_strOperatorAnd) 1 ;;
  m_strOperatorLessThan ← uniq "<";
  contiguous (m_id m_strOperatorLessThan) (m_id m_strOperatorEqual) 1 ;;
  m_strOperatorLessEqual ← uniq "<=";
  contiguous (m_id m_strOperatorLessEqual) (m_id m_strOperatorLessThan) 1 ;;
  m_strOperatorGreaterThan ← uniq ">";
  contiguous (m_id m_strOperatorGreaterThan) (m_id m_strOperatorLessEqual) 1 ;;
  m_strOperatorGreaterEqual ← uniq ">=";
  contiguous (m_id m_strOperatorGreaterEqual) (m_id m_strOperatorGreaterThan) 1 ;;
  m_strOperatorUnequal ← uniq "<>";
  contiguous (m_id m_strOperatorUnequal) (m_id m_strOperatorGreaterEqual) 1 ;;
  m_strOperatorTildeUnequal ← uniq "~=";
  contiguous (m_id m_strOperatorTildeUnequal) (m_id m_strOperatorUnequal) 1 ;;
  m_strOperatorLeftShift ← uniq "<<";
  contiguous (m_id m_strOperatorLeftShift) (m_id m_strOperatorTildeUnequal) 1 ;;
  m_strOperatorRightShift ← uniq ">>>";
  contiguous (m_id m_strOperatorRightShift) (m_id m_strOperatorLeftShift) 1 ;;
  m_strOperatorBitwiseXor ← uniq "bitXor:";
  contiguous (m_id m_strOperatorBitwiseXor) (m_id m_strOperatorRightShift) 1 ;;
  m_strOperatorSlash ← uniq "/";
  contiguous (m_id m_strOperatorSlash) (m_id m_strOperatorBitwiseXor) 1 ;;
  m_strOperatorEqualEqual ← uniq "==";
  contiguous (m_id m_strOperatorEqualEqual) (m_id m_strOperatorSlash) 1 ;;
  contiguous (m_id m_strOperatorEqualEqual) (m_id m_strOperatorPlus) 17 ;;
  m_stringIdForWhileTrue ← intern "whileTrue:";
  m_stringIdForWhileFalse ← intern "whileFalse:";
  contiguous (Z.of_nat m_stringIdForWhileFalse) (Z.of_nat m_stringIdForWhileTrue) 1 ;;
  m_stringIdForIfTrueIfFalse ← intern "ifTrue:ifFalse:";
  contiguous (Z.of_nat m_stringIdForIfTrueIfFalse) (Z.of_nat m_stringIdForWhileFalse) 1 ;;
  m_stringIdForIfFalseIfTrue ← intern "ifFalse:ifTrue:";
  contiguous (Z.of_nat m_stringIdForIfFalseIfTrue) (Z.of_nat m_stringIdForIfTrueIfFalse) 1 ;;
  m_stringIdForIfNilIfNotNil ← intern "ifNil:ifNotNil:";
  contiguous (Z.of_nat m_stringIdForIfNilIfNotNil) (Z.of_nat m_stringIdForIfFalseIfTrue) 1 ;;
  m_stringIdForIfNotNilIfNil ← intern "ifNotNil:ifNil:";
  contiguous (Z.of_nat m_stringIdForIfNotNilIfNil) (Z.of_nat m_stringIdForIfNilIfNotNil) 1 ;;
  m_stringIdForIfTrue ← intern "ifTrue:";
  contiguous (Z.of_nat m_stringIdForIfTrue) (Z.of_nat m_stringIdForIfNotNilIfNil) 1 ;;
  m_stringIdForIfFalse ← intern "ifFalse:";
  contiguous (Z.of_nat m_stringIdForIfFalse) (Z.of_nat m_stringIdForIfTrue) 1 ;;
  m_stringIdForIfNil ← intern "ifNil:";
  contiguous (Z.of_nat m_stringIdForIfNil) (Z.of_nat m_stringIdForIfFalse) 1 ;;
  m_stringIdForIfNotNil ← intern "ifNotNil:";
  contiguous (Z.of_nat m_stringIdForIfNotNil) (Z.of_nat m_stringIdForIfNil) 1 ;;
  m_stringIdForOperatorAnd ← intern "&&";
  contiguous (Z.of_nat m_stringIdForOperatorAnd) (Z.of_nat m_stringIdForIfNotNil) 1 ;;
  m_stringIdForOperatorOr ← intern "||";
  contiguous (Z.of_nat m_stringIdForOperatorOr) (Z.of_nat m_stringIdForOperatorAnd) 1 ;;
  m_stringIdForMethodAnd ← intern "and:";
  contiguous (Z.of_nat m_stringIdForMethodAnd) (Z.of_nat m_stringIdForOperatorOr) 1 ;;
  m_stringIdForMethodOr ← intern "or:";
  contiguous (Z.of_nat m_stringIdForMethodOr) (Z.of_nat m_stringIdForMethodAnd) 1 ;;
  m_stringIdForToDo ← intern "to:do:";
  contiguous (Z.of_nat m_stringIdForToDo) (Z.of_nat m_stringIdForMethodOr) 1 ;;
  m_stringIdForDowntoDo ← intern "downTo:do:";
  contiguous (Z.of_nat m_stringIdForDowntoDo) (Z.of_nat m_stringIdForToDo) 1 ;;
  contiguous (Z.of_nat m_stringIdForDowntoDo) (Z.of_nat m_stringIdForWhileTrue) 15 ;;
  m_strOperatorLogicalAnd ← uniq "&&";
  m_strOperatorLogicalOr ← uniq "||";
  m_strOperatorKeywordAnd ← uniq "and:";
  m_strOperatorKeywordOr ← uniq "or:";
  m_strOperatorValueColon ← uniq "value:";
  m_strOperatorAtColon ← uniq "at:";
  m_strOperatorCharAtColon ← uniq "charAt:";
  m_strOperatorAbs ← uniq "abs";
  m_strOperatorSqrt ← uniq "sqrt";
  contiguous (m_id m_strOperatorSqrt) (m_id m_strOperatorAbs) 1 ;;
  m_strOperatorIsNil ← uniq "isNil";
  contiguous (m_id m_strOperatorIsNil) (m_id m_strOperatorSqrt) 1 ;;
  m_strOperatorNotNil ← uniq "notNil";
  contiguous (m_id m_strOperatorNotNil) (m_id m_strOperatorIsNil) 1 ;;
  m_strOperatorValue ← uniq "value";
  contiguous (m_id m_strOperatorValue) (m_id m_strOperatorNotNil) 1 ;;
  m_strOperatorNot ← uniq "not";
  contiguous (m_id m_strOperatorNot) (m_id m_strOperatorValue) 1 ;;
  m_strOperatorLength ← uniq "length";
  contiguous (m_id m_strOperatorLength) (m_id m_strOperatorNot) 1 ;;
  m_strOperatorAtPut ← uniq "at:put:";
  m_strOperatorValueWith ← uniq "value:with:";
  mret (mk_vm_strings 
    m_unknownGlobalHandler m_doesNotUnderstandHandler m_escapedBlockHandler
    m_strOperatorPlus m_strOperatorMinus m_strOperatorStar
    m_strOperatorSlashSlash m_strOperatorPercent m_strOperatorAnd
    m_strOperatorEqual m_strOperatorLessThan m_strOperatorLessEqual
    m_strOperatorGreaterThan m_strOperatorGreaterEqual m_strOperatorUnequal
    m_strOperatorTildeUnequal m_strOperatorLeftShift m_strOperatorRightShift
    m_strOperatorBitwiseXor m_strOperatorSlash m_strOperatorEqualEqual
    m_stringIdForWhileTrue m_stringIdForWhileFalse m_stringIdForIfTrueIfFalse
    m_stringIdForIfFalseIfTrue m_stringIdForIfNilIfNotNil m_stringIdForIfNotNilIfNil
    m_stringIdForIfTrue m_stringIdForIfFalse m_stringIdForIfNil
    m_stringIdForIfNotNil m_stringIdForOperatorAnd m_stringIdForOperatorOr
    m_stringIdForMethodAnd m_stringIdForMethodOr m_stringIdForToDo
    m_stringIdForDowntoDo m_strOperatorLogicalAnd m_strOperatorLogicalOr
    m_strOperatorKeywordAnd m_strOperatorKeywordOr m_strOperatorValueColon
    m_strOperatorAtColon m_strOperatorCharAtColon m_strOperatorAbs
    m_strOperatorSqrt m_strOperatorIsNil m_strOperatorNotNil
    m_strOperatorValue m_strOperatorNot m_strOperatorLength
    m_strOperatorAtPut m_strOperatorValueWith).
End with_hash.

(** ** The range tests of [vm.h] *)
Definition IsSelectorArithmeticOperator (vm : VMStrings) (ord : nat) : bool :=
  ((m_id (v_strOperatorPlus vm) <=? Z.of_nat ord) &&
   (Z.of_nat ord <=? m_id (v_strOperatorEqualEqual vm)))%Z.

Definition IsSelectorInlinableControlFlow (vm : VMStrings) (ord : nat) : bool :=
  (v_stringIdForWhileTrue vm <=? ord) && (ord <=? v_stringIdForDowntoDo vm).

Definition IsSelectorSpecializableUnaryOperator (vm : VMStrings) (ord : nat) : bool :=
  ((m_id (v_strOperatorAbs vm) <=? Z.of_nat ord) &&
   (Z.of_nat ord <=? m_id (v_strOperatorLength vm)))%Z.

(** ** Specification: the selectors each test stands for *)
Definition arithmetic_selectors : list string :=
  ["+"; "-"; "*"; "//"; "%"; "&"; "="; "<"; "<="; ">"; ">="; "<>"; "~="; "<<"; ">>>";
   "bitXor:"; "/"; "=="].
Definition control_flow_selectors : list string :=
  ["whileTrue:"; "whileFalse:"; "ifTrue:ifFalse:"; "ifFalse:ifTrue:"; "ifNil:ifNotNil:";
   "ifNotNil:ifNil:"; "ifTrue:"; "ifFalse:"; "ifNil:"; "ifNotNil:"; "&&"; "||"; "and:"; "or:";
   "to:do:"; "downTo:do:"].
Definition unary_selectors : list string :=
  ["abs"; "sqrt"; "isNil"; "notNil"; "value"; "not"; "length"].

(** All strings interned during start-up, in order. *)
Definition startup_strings : list string :=
  ["unknownGlobal:"; "doesNotUnderstand:arguments:"; "escapedBlock:"] ++ arithmetic_selectors ++
  control_flow_selectors ++ ["value:"; "at:"; "charAt:"] ++ unary_selectors ++ ["at:put:"; "value:with:"].

(** The ordinal of a start-up string. *)
Definition ordinal (s : string) : nat :=
  match list_find (s =.) startup_strings with Some (i, _) => i | None => length startup_strings end.

Section proofs.
Context (HashString : string -> Z).

Definition uniqued (s : string) : SOMUniquedString :=
  mk_uniqued (Z.of_nat (ordinal s)) (hash32 (HashString s)).

Definition started_strings : VMStrings :=
  mk_vm_strings
    (uniqued "unknownGlobal:")
    (uniqued "doesNotUnderstand:arguments:")
    (uniqued "escapedBlock:")
    (uniqued "+")
    (uniqued "-")
    (uniqued "*")
    (uniqued "//")
    (uniqued "%")
    (uniqued "&")
    (uniqued "=")
    (uniqued "<")
    (uniqued "<=")
    (uniqued ">")
    (uniqued ">=")
    (uniqued "<>")
    (uniqued "~=")
    (uniqued "<<")
    (uniqued ">>>")
    (uniqued "bitXor:")
    (uniqued "/")
    (uniqued "==")
    (ordinal "whileTrue:")
    (ordinal "whileFalse:")
    (ordinal "ifTrue:ifFalse:")
    (ordinal "ifFalse:ifTrue:")
    (ordinal "ifNil:ifNotNil:")
    (ordinal "ifNotNil:ifNil:")
    (ordinal "ifTrue:")
    (ordinal "ifFalse:")
    (ordinal "ifNil:")
    (ordinal "ifNotNil:")
    (ordinal "&&")
    (ordinal "||")
    (ordinal "and:")
    (ordinal "or:")
    (ordinal "to:do:")
    (ordinal "downTo:do:")
    (uniqued "&&")
    (uniqued "||")
    (uniqued "and:")
    (uniqued "or:")
    (uniqued "value:")
    (uniqued "at:")
    (uniqued "charAt:")
    (uniqued "abs")
    (uniqued "sqrt")
    (uniqued "isNil")
    (uniqued "notNil")
    (uniqued "value")
    (uniqued "not")
    (uniqued "length")
    (uniqued "at:put:")
    (uniqued "value:with:").

(** A state in which the start-up has run and possibly more strings have been interned. *)
Definition vm_started (vm : VMStrings) (it : StringInterner) : Prop :=
  interner_wf HashString it /\
  exists it0, InitializeStrings HashString empty_interner = Ok (vm, it0) /\ interner_le it0 it.

Definition interner_holds (names : list string) (it : StringInterner) : Prop :=
  interner_wf HashString it /\ m_list it = (fun s => (s, HashString s)) <$> names.

Lemma interner_holds_lookup names it i s :
  interner_holds names it -> names !! i = Some s -> m_list it !! i = Some (s, HashString s).
Proof.
  intros [_ Hl] Hi. by rewrite Hl, list_lookup_fmap, Hi.
Qed.

Lemma InternString_fresh s names it :
  interner_holds names it -> s ∉ names ->
  (InternString HashString s it).1 = length names /\
  interner_holds (names ++ [s]) (InternString HashString s it).2.
Proof.
  intros [Hwf Hl] Hs. pose proof (InternString_wf HashString s it Hwf) as Hwf'.
  destruct Hwf as (Hsz & Hb & Hh). revert Hwf'. unfold InternString.
  destruct (m_map it !! s) as [i|] eqn:Em; simpl; intros Hwf'.
  - exfalso. apply Hb in Em. rewrite Hl in Em.
    apply list_lookup_fmap_Some in Em as (s' & Hs' & Hs''). simplify_eq.
    apply Hs. by eapply list_elem_of_lookup_2.
  - split; [by rewrite Hsz, Hl, length_fmap|]. split; [done|]. simpl.
    by rewrite Hl, fmap_app.
Qed.

Lemma interner_holds_empty : interner_holds [] empty_interner.
Proof. split; [apply empty_interner_wf|done]. Qed.

Section steps.
Context (E : error -> Prop).

Lemma wp_intern_fresh s names it Q :
  interner_holds names it -> bool_decide (s ∉ names) = true ->
  (forall it', interner_holds (names ++ [s]) it' -> Q (length names) it') ->
  wp E (intern HashString s) Q it.
Proof.
  intros Hn Hs%bool_decide_eq_true HQ. unfold wp, intern.
  destruct (InternString_fresh s names it Hn Hs) as [Ho Hh].
  destruct (InternString HashString s it) as [o it']; simpl in *. subst o. by apply HQ.
Qed.

Lemma wp_uniq_fresh s names it Q :
  interner_holds names it -> bool_decide (s ∉ names) = true ->
  (forall it', interner_holds (names ++ [s]) it' ->
     Q (mk_uniqued (u32 (Z.of_nat (length names))) (hash32 (HashString s))) it') ->
  wp E (uniq HashString s) Q it.
Proof.
  intros Hn Hs%bool_decide_eq_true HQ. unfold wp, uniq.
  rewrite GetUniquedString_eq by apply Hn.
  destruct (InternString_fresh s names it Hn Hs) as [Ho Hh].
  destruct (InternString HashString s it) as [o it']; simpl in *. subst o. by apply HQ.
Qed.

Lemma wp_uniq_known s i names it Q :
  interner_holds names it -> names !! i = Some s ->
  Q (mk_uniqued (u32 (Z.of_nat i)) (hash32 (HashString s))) it ->
  wp E (uniq HashString s) Q it.
Proof.
  intros Hn Hi HQ. unfold wp, uniq. rewrite GetUniquedString_eq by apply Hn.
  by rewrite (InternString_known _ _ _ _ _ (proj1 Hn) (interner_holds_lookup _ _ _ _ Hn Hi)).
Qed.
End steps.

Ltac startup_step :=
  match goal with
  | |- wp _ (_ ≫= _) _ _ => apply wp_bind
  | |- wp _ (contiguous _ _ _) _ _ => apply wp_check; [intros _|cbn [m_id]; by vm_compute]
  | H : interner_holds _ ?it |- wp _ (intern _ _) _ ?it =>
      eapply wp_intern_fresh; [exact H|vm_compute; reflexivity|]; clear H; intros ? H; cbn [app] in H
  | H : interner_holds _ ?it |- wp _ (uniq _ _) _ ?it =>
      eapply wp_uniq_fresh; [exact H|vm_compute; reflexivity|]; clear H; intros ? H; cbn [app] in H
  | H : interner_holds _ ?it |- wp _ (uniq _ ?s) _ ?it =>
      apply (wp_uniq_known _ s (ordinal s) _ it _ H); [reflexivity|]
  end.

Lemma InitializeStrings_wp :
  wp (fun _ => False) (InitializeStrings HashString)
    (fun vm it => vm = started_strings /\ interner_holds startup_strings it) empty_interner.
Proof.
  pose proof interner_holds_empty as H. unfold InitializeStrings.
  repeat startup_step. apply wp_ret. split; [reflexivity|done].
Qed.

Lemma vm_started_strings vm it :
  vm_started vm it ->
  vm = started_strings /\
  (forall i s, startup_strings !! i = Some s -> m_list it !! i = Some (s, HashString s)).
Proof.
  intros (Hwf & it0 & Hrun & Hle). pose proof (wp_ok _ _ _ _ _ _ InitializeStrings_wp Hrun) as [-> Hn].
  split; [done|]. intros i s Hs. eapply interner_le_lookup; [exact Hle|].
  by eapply interner_holds_lookup.
Qed.

(** A range of ordinals is a set of strings. *)
Lemma range_selector it lo names ord s h :
  interner_wf HashString it ->
  (forall i n, names !! i = Some n -> m_list it !! (lo + i) = Some (n, HashString n)) ->
  m_list it !! ord = Some (s, h) ->
  lo <= ord < lo + length names <-> s ∈ names.
Proof.
  intros Hwf Hnames Hord. split.
  - intros [Hlo Hhi]. destruct (lookup_lt_is_Some_2 names (ord - lo)) as [n Hn]; [lia|].
    pose proof (Hnames _ _ Hn) as Hn'. replace (lo + (ord - lo)) with ord in Hn' by lia.
    rewrite Hn' in Hord. injection Hord as <- _. by eapply list_elem_of_lookup_2.
  - intros [i Hi]%list_elem_of_lookup. pose proof (Hnames _ _ Hi) as Hi'.
    pose proof (interner_lookup_inj HashString _ _ _ _ _ _ Hwf Hord Hi') as ->.
    apply lookup_lt_Some in Hi. lia.
Qed.

Lemma startup_slice vm it lo names :
  vm_started vm it -> take (length names) (drop lo startup_strings) = names ->
  forall i n, names !! i = Some n -> m_list it !! (lo + i) = Some (n, HashString n).
Proof.
  intros Hvm Hslice i n Hi. apply (vm_started_strings vm it Hvm).
  rewrite <-Hslice in Hi. rewrite lookup_take, lookup_drop in Hi. by case_decide.
Qed.

(** The range tests recognise exactly their selectors.  Start-up interns
    the well-known selectors without failing any of its contiguity assertions,
    and in any later interner a valid ordinal passes each range test of [vm.h]
    exactly when its string is one of the selectors that test stands for. *)
Theorem selector_ranges_correct :
  (exists vm it0, InitializeStrings HashString empty_interner = Ok (vm, it0) /\ vm_started vm it0) /\
  (forall vm it ord s, vm_started vm it -> Get ord it = Ok s ->
    IsSelectorArithmeticOperator vm ord = bool_decide (s ∈ arithmetic_selectors) /\
    IsSelectorInlinableControlFlow vm ord = bool_decide (s ∈ control_flow_selectors) /\
    IsSelectorSpecializableUnaryOperator vm ord = bool_decide (s ∈ unary_selectors)).
Proof.
  split.
  - destruct (wp_total _ _ _ InitializeStrings_wp) as (vm & it0 & E & -> & Hwf & _).
    exists started_strings, it0. split; [exact E|]. split; [exact Hwf|].
    exists it0. split; [exact E|reflexivity].
  - intros vm it ord s Hvm [h Hs]%Get_Ok_lookup.
    pose proof (proj1 Hvm) as Hwf. pose proof (vm_started_strings _ _ Hvm) as [-> _].
    pose proof (range_selector it 3 arithmetic_selectors _ _ _ Hwf
      (startup_slice _ _ 3 arithmetic_selectors Hvm eq_refl) Hs) as Ha.
    pose proof (range_selector it 21 control_flow_selectors _ _ _ Hwf
      (startup_slice _ _ 21 control_flow_selectors Hvm eq_refl) Hs) as Hc.
    pose proof (range_selector it 40 unary_selectors _ _ _ Hwf
      (startup_slice _ _ 40 unary_selectors Hvm eq_refl) Hs) as Hu.
    split_and!; apply eq_bool_prop_intro; rewrite bool_decide_spec.
    + rewrite <-Ha. unfold IsSelectorArithmeticOperator.
      change (m_id (v_strOperatorPlus started_strings)) with 3%Z.
      change (m_id (v_strOperatorEqualEqual started_strings)) with 20%Z.
      simpl length. rewrite andb_True, !Is_true_true, !Z.leb_le. lia.
    + rewrite <-Hc. unfold IsSelectorInlinableControlFlow.
      change (v_stringIdForWhileTrue started_strings) with 21.
      change (v_stringIdForDowntoDo started_strings) with 36.
      simpl length. rewrite andb_True, !Is_true_true, !Nat.leb_le. lia.
    + rewrite <-Hu. unfold IsSelectorSpecializableUnaryOperator.
      change (m_id (v_strOperatorAbs started_strings)) with 40%Z.
      change (m_id (v_strOperatorLength started_strings)) with 46%Z.
      simpl length. rewrite andb_True, !Is_true_true, !Z.leb_le. lia.
Qed.
End proofs.
