(* ===== verification/MethodTable.v ===== *)
(** * Method dictionaries

    Models the cuckoo hash table that [runtime/som_class.cpp] builds for each
    class ([SimpleCuckooHashTable]), the class construction that uses it
    ([SOMClass::Create]) and the lookup of [runtime/som_class.h]
    ([SOMClass::GetMethod]).  [testbuild] is the [TESTBUILD] macro: it decides
    whether [TestAssert] checks anything.  Keys are interned string ids; [F] is
    the type of method objects and [None] the null [GeneralHeapPointer]. *)
From S2P Require Import Prelude Interner.

(** [static_cast<uint32_t>(-1)], the id of an empty slot. *)
Definition x_emptyId : Z := 2 ^ 32 - 1.

Section table.
Context {F : Type} (testbuild : bool) (hash64 : Z -> Z).

Record MethodHtEntry : Type := mk_entry { ht_id : Z; ht_data : option F }.
Definition emptyEntry : MethodHtEntry := mk_entry x_emptyId None.

Notation Table := (list MethodHtEntry).

Definition emptyTable : Table := [emptyEntry].

Inductive InsertionResult : Type := Inserted | Found | Failed.

(** Reads and writes of [m_data], whose bounds the code does not check. *)
Definition at_slot (i : nat) : M Table MethodHtEntry := fun t =>
  match t !! i with Some e => Ok (e, t) | None => Err (UndefinedBehaviour "m_data[i]") end.
Definition set_slot (i : nat) (e : MethodHtEntry) : M Table unit := fun t =>
  if decide (i < length t) then Ok (tt, <[i := e]> t) else Err (UndefinedBehaviour "m_data[i]").

(** [GetHash]: the two slots of a key in a table of [size] entries. *)
Definition slot_of (size : nat) (hash : Z) : nat := Z.to_nat (Z.land hash (Z.of_nat size - 1)).
Definition GetHashSlots (key : Z) : M Table (nat * nat) := fun t =>
  let hash := hash64 key in
  Ok ((slot_of (length t) hash, slot_of (length t) (Z.shiftr hash 16)), t).

(** The [while (true)] of [TryInsert]; [rounds] counts down from 30. *)
Fixpoint evict (rounds : nat) (key : Z) (value : option F) (victimPosition : nat)
    : M Table (InsertionResult * Z * option F) :=
  match rounds with
  | O => mret (Failed, key, value)
  | S rounds' =>
      victim ← at_slot victimPosition;
      set_slot victimPosition (mk_entry key value) ;;
      '(h1, h2) ← GetHashSlots (ht_id victim);
      let '(h1, h2) := if h1 =? victimPosition then (h2, h1) else (h1, h2) in
      check (negb testbuild || (h2 =? victimPosition)) (AssertFailed "h2 == victimPosition") ;;
      e1 ← at_slot h1;
      if (ht_id e1 =? x_emptyId)%Z then
        set_slot h1 victim ;;
        mret (Inserted, key, value)
      else
        evict rounds' (ht_id victim) (ht_data victim) h1
  end.

(** Returns the result and the updated in/out parameters [key] and [value]. *)
Definition TryInsert (key : Z) (value : option F) : M Table (InsertionResult * Z * option F) :=
  '(h1, h2) ← GetHashSlots key;
  e1 ← at_slot h1;
  if (ht_id e1 =? key)%Z then set_slot h1 (mk_entry (ht_id e1) value) ;; mret (Found, key, value)
  else
    e2 ← at_slot h2;
    if (ht_id e2 =? key)%Z then set_slot h2 (mk_entry (ht_id e2) value) ;; mret (Found, key, value)
    else if (ht_id e1 =? x_emptyId)%Z then set_slot h1 (mk_entry key value) ;; mret (Inserted, key, value)
    else if (ht_id e2 =? x_emptyId)%Z then set_slot h2 (mk_entry key value) ;; mret (Inserted, key, value)
    else evict 30 key value h1.

#[global] Instance insertion_result_eq_dec : EqDecision InsertionResult.
Proof. solve_decision. Defined.

(** The re-insertion loop of [Resize]. *)
Fixpoint reinsert (old : Table) : M Table unit :=
  match old with
  | [] => mret tt
  | e :: old' =>
      (if (ht_id e =? x_emptyId)%Z then mret tt
       else
         '(res, _, _) ← TryInsert (ht_id e) (ht_data e);
         check (negb testbuild || bool_decide (res = Inserted))
           (AssertFailed "res == InsertionResult::Inserted")) ;;
      reinsert old'
  end.

Definition Resize : M Table unit :=
  t ← get_st;
  check (Z.of_nat (length t) <=? 32768)%Z (AssertFailed "m_data.size() <= 32768") ;;
  put_st (replicate (length t * 2) emptyEntry) ;;
  reinsert t.

Fixpoint Insert_loop (fuel : nat) (resized : bool) (key : Z) (value : option F)
    : M Table InsertionResult :=
  match fuel with
  | O => fail OutOfFuel
  | S fuel' =>
      '(res, key', value') ← TryInsert key value;
      check (negb testbuild || negb resized || bool_decide (res = Inserted))
        (AssertFailed "resized implies res == InsertionResult::Inserted") ;;
      if decide (res = Failed) then Resize ;; Insert_loop fuel' true key' value'
      else mret res
  end.

(** A table has at most 2^16 slots and every retry doubles it, so 18 rounds are
    enough ([Insert_terminates]). *)
Definition Insert (key : Z) (value : option F) : M Table InsertionResult :=
  Insert_loop 18 false key value.

(** ** Classes *)
Record MethInfo : Type := mk_methinfo { m_stringId : Z; m_fnObj : F }.

Record SOMClass : Type := mk_class {
  c_fields : list Z;          (* string ids of all fields, inherited ones first *)
  c_methods : list MethInfo;  (* the method array, in declaration order *)
  c_methodHtMask : Z;
  c_methodHt : Table
}.
Definition c_numFields (c : SOMClass) : nat := length (c_fields c).

Definition x_bootstrapClassesMethodHtSize : nat := 128.

(** [methodHt.CloneFrom(superClass->m_methodHt[0 .. mask])]. *)
Definition CloneFrom (superClass : option SOMClass) : Table :=
  match superClass with
  | None => emptyTable
  | Some sc => take (Z.to_nat (c_methodHtMask sc + 1)) (c_methodHt sc)
  end.

Fixpoint insertMethods (methods : list MethInfo) : M Table unit :=
  match methods with
  | [] => mret tt
  | it :: methods' => Insert (m_stringId it) (Some (m_fnObj it)) ;; insertMethods methods'
  end.

Definition Create (superClass : option SOMClass) (methods : list MethInfo) (fields : list Z)
    (preallocated : bool) : result SOMClass :=
  '(_, methodHt) ← insertMethods methods (CloneFrom superClass);
  if preallocated && negb (length methodHt =? x_bootstrapClassesMethodHtSize)
  then Err (Aborted "Unexpected method hash table size for pre-allocated system class!")
  else
    let superFields := match superClass with None => [] | Some sc => c_fields sc end in
    if testbuild && negb (Z.of_nat (length methodHt) <=? 65535)%Z
    then Err (AssertFailed "methodHt.m_data.size() <= 65535")
    else
      Ok (mk_class (superFields ++ fields) methods (Z.of_nat (length methodHt) - 1) methodHt).

(** [SOMClass::GetMethod]: the hash is only its low 32 bits here. *)
Definition GetMethod (self : SOMClass) (name : SOMUniquedString) : result (option F) :=
  let slot1 := Z.to_nat (Z.land (m_hash name) (c_methodHtMask self)) in
  let slot2 := Z.to_nat (Z.land (Z.shiftr (m_hash name) 16) (c_methodHtMask self)) in
  match c_methodHt self !! slot1 with
  | None => Err (UndefinedBehaviour "m_methodHt[slot1]")
  | Some e1 =>
      if (ht_id e1 =? m_id name)%Z then Ok (ht_data e1)
      else
        match c_methodHt self !! slot2 with
        | None => Err (UndefinedBehaviour "m_methodHt[slot2]")
        | Some e2 => if (ht_id e2 =? m_id name)%Z then Ok (ht_data e2) else Ok None
        end
  end.

(** ** Invariant and abstract contents *)
Definition occupies (t : Table) (i : nat) (k : Z) (v : option F) : Prop :=
  t !! i = Some (mk_entry k v) /\ k <> x_emptyId.

Definition is_slot (size : nat) (k : Z) (i : nat) : Prop :=
  i = slot_of size (hash64 k) \/ i = slot_of size (Z.shiftr (hash64 k) 16).

Definition table_size (n : nat) : Prop := exists j, j <= 16 /\ n = 2 ^ j.

(** [t] holds the finite map [m]: every entry sits in one of its key's two
    slots, no key occurs twice, and the entries are the bindings of [m]. *)
Record represents (t : Table) (m : gmap Z (option F)) : Prop := {
  rep_size : table_size (length t);
  rep_slot : forall i k v, occupies t i k v -> is_slot (length t) k i;
  rep_uniq : forall i j k v w, occupies t i k v -> occupies t j k w -> i = j;
  rep_map : forall k v, m !! k = Some v <-> exists i, occupies t i k v
}.

Lemma land_size j (h : Z) : Z.land h (Z.of_nat (2 ^ j) - 1) = (h `mod` 2 ^ Z.of_nat j)%Z.
Proof.
  rewrite Nat2Z.inj_pow. change (Z.of_nat 2) with 2%Z.
  rewrite <-Z.land_ones by lia. f_equal. rewrite Z.ones_equiv. lia.
Qed.

Lemma slot_of_lt n h : table_size n -> slot_of n h < n.
Proof.
  intros (j & _ & ->). unfold slot_of. rewrite land_size.
  pose proof (Z.mod_pos_bound h (2 ^ Z.of_nat j)).
  pose proof (Nat2Z.inj_pow 2 j) as Hp. change (Z.of_nat 2) with 2%Z in Hp. lia.
Qed.

Lemma is_slot_lt n k i : table_size n -> is_slot n k i -> i < n.
Proof. intros Hn [->| ->]; by apply slot_of_lt. Qed.

Lemma table_size_pos n : table_size n -> 1 <= n <= 2 ^ 16.
Proof.
  intros (j & Hj & ->). split; [by apply Nat.neq_0_lt_0, Nat.pow_nonzero|].
  by apply Nat.pow_le_mono_r.
Qed.

Lemma represents_not_empty t m : represents t m -> m !! x_emptyId = None.
Proof.
  intros R. destruct (m !! x_emptyId) as [v|] eqn:E; [|done].
  apply (rep_map _ _ R) in E as (i & _ & Hne). done.
Qed.

Lemma represents_lookup t m i e :
  represents t m -> t !! i = Some e -> ht_id e <> x_emptyId -> m !! ht_id e = Some (ht_data e).
Proof. intros R Hi Hne. apply (rep_map _ _ R). exists i. by destruct e. Qed.

Lemma represents_absent t m k e1 e2 :
  represents t m -> k <> x_emptyId ->
  t !! slot_of (length t) (hash64 k) = Some e1 ->
  t !! slot_of (length t) (Z.shiftr (hash64 k) 16) = Some e2 ->
  ht_id e1 <> k -> ht_id e2 <> k -> m !! k = None.
Proof.
  intros R Hk H1 H2 Hn1 Hn2. destruct (m !! k) as [v|] eqn:E; [|done].
  apply (rep_map _ _ R) in E as (i & Hi). exfalso.
  destruct (rep_slot _ _ R _ _ _ Hi) as [->| ->]; destruct Hi as [Hi _]; simplify_eq; done.
Qed.

(** The one way the table changes: slot [i] receives [k]. *)
Lemma represents_set t m i e k v :
  represents t m -> t !! i = Some e -> k <> x_emptyId -> is_slot (length t) k i ->
  (forall j w, occupies t j k w -> j = i) ->
  represents (<[i := mk_entry k v]> t) (<[k := v]> (delete (ht_id e) m)).
Proof.
  intros R Hi Hk Hs Huniq. pose proof (lookup_lt_Some _ _ _ Hi) as Hlt.
  assert (Hocc : forall j k' w, occupies (<[i := mk_entry k v]> t) j k' w <->
            (j = i /\ k' = k /\ w = v) \/ (j <> i /\ occupies t j k' w)).
  { intros j k' w. unfold occupies. destruct (decide (i = j)) as [<-|Hne].
    - rewrite list_lookup_insert_eq by done. naive_solver.
    - rewrite list_lookup_insert_ne by done. naive_solver. }
  split.
  - rewrite length_insert. apply R.
  - intros j k' w. rewrite Hocc, length_insert. intros [(-> & -> & _)|[_ Hj]]; [done|].
    by eapply rep_slot.
  - intros j j' k' w w'. rewrite !Hocc.
    intros [(-> & -> & ->)|[Hj Hj']] [(-> & ? & ->)|[Hj2 Hj2']]; subst; try done.
    + symmetry. by eapply Huniq.
    + by eapply Huniq.
    + by eapply rep_uniq.
  - intros k' w. setoid_rewrite Hocc. destruct (decide (k = k')) as [<-|Hne].
    + rewrite lookup_insert_eq. split; [intros [= <-]; exists i; by left|].
      intros (j & [(_ & _ & ->)|[Hj Hj']]); [done|]. by apply Huniq in Hj'.
    + rewrite lookup_insert_ne by done. rewrite lookup_delete_Some.
      rewrite (rep_map _ _ R). split.
      * intros [Hne' (j & Hj)]. exists j. right. split; [|done]. intros ->.
        destruct Hj as [Hj _]. by simplify_eq.
      * intros (j & [(_ & -> & _)|[Hj Hj']]); [done|]. split; [|by exists j].
        intros Heq. destruct e as [ek ev]; simpl in *. subst ek. apply Hj.
        eapply (rep_uniq _ _ R); [exact Hj'|]. split; [exact Hi|apply Hj'].
Qed.

Lemma represents_fill t m i e k v :
  represents t m -> t !! i = Some e -> ht_id e = x_emptyId -> k <> x_emptyId ->
  is_slot (length t) k i -> m !! k = None ->
  represents (<[i := mk_entry k v]> t) (<[k := v]> m).
Proof.
  intros R Hi He Hk Hs Hm.
  pose proof (represents_set t m i e k v R Hi Hk Hs) as H.
  rewrite He, (delete_id m) in H by (by eapply represents_not_empty). apply H.
  intros j w Hj. exfalso. assert (m !! k = Some w) by (apply (rep_map _ _ R); eauto). congruence.
Qed.

Lemma represents_update t m i e v :
  represents t m -> t !! i = Some e -> ht_id e <> x_emptyId ->
  represents (<[i := mk_entry (ht_id e) v]> t) (<[ht_id e := v]> m).
Proof.
  intros R Hi He. assert (Hocc : occupies t i (ht_id e) (ht_data e)) by (by destruct e).
  rewrite <-insert_delete_eq. apply represents_set; try done; [by eapply rep_slot|].
  intros j w Hj. by eapply rep_uniq.
Qed.

Lemma represents_evict t m i e k v :
  represents t m -> t !! i = Some e -> k <> x_emptyId -> is_slot (length t) k i -> m !! k = None ->
  represents (<[i := mk_entry k v]> t) (<[k := v]> (delete (ht_id e) m)).
Proof.
  intros R Hi Hk Hs Hm. apply represents_set; try done.
  intros j w Hj. exfalso. assert (m !! k = Some w) by (apply (rep_map _ _ R); eauto). congruence.
Qed.

(** ** Insertion *)
Section wp_table.
Context (E : error -> Prop).

Lemma wp_at_slot i e Q (t : Table) : t !! i = Some e -> Q e t -> wp E (at_slot i) Q t.
Proof. intros Hi HQ. unfold wp, at_slot. by rewrite Hi. Qed.

Lemma wp_set_slot i e Q (t : Table) :
  i < length t -> Q tt (<[i := e]> t) -> wp E (set_slot i e) Q t.
Proof. intros Hi HQ. unfold wp, set_slot. by rewrite decide_True. Qed.

Lemma wp_GetHashSlots k Q (t : Table) :
  Q (slot_of (length t) (hash64 k), slot_of (length t) (Z.shiftr (hash64 k) 16)) t ->
  wp E (GetHashSlots k) Q t.
Proof. done. Qed.
End wp_table.

(** [k'], [v'] is the binding that an unsuccessful insertion leaves out. *)
Definition left_out (m : gmap Z (option F)) (t' : Table) (k' : Z) (v' : option F) : Prop :=
  k' <> x_emptyId /\ exists m', represents t' m' /\ m' !! k' = None /\ <[k' := v']> m' = m.

Definition insert_post (m : gmap Z (option F)) (k : Z) (v : option F) (size : nat)
    (r : InsertionResult * Z * option F) (t' : Table) : Prop :=
  let '(res, k', v') := r in
  length t' = size /\
  match res with
  | Found => is_Some (m !! k) /\ represents t' (<[k := v]> m)
  | Inserted => m !! k = None /\ represents t' (<[k := v]> m)
  | Failed => m !! k = None /\ left_out (<[k := v]> m) t' k' v'
  end.

Lemma slot_entry t m k i :
  represents t m -> is_slot (length t) k i -> exists e, t !! i = Some e.
Proof. intros R Hs. apply lookup_lt_is_Some_2, (is_slot_lt _ k); [apply R|done]. Qed.

Lemma evict_spec rounds t m k v vp e :
  represents t m -> k <> x_emptyId -> m !! k = None -> is_slot (length t) k vp ->
  t !! vp = Some e -> ht_id e <> x_emptyId ->
  wp (fun _ => False) (evict rounds k v vp)
    (fun '(res, k', v') t' => length t' = length t /\
       match res with
       | Found => False
       | Inserted => represents t' (<[k := v]> m)
       | Failed => left_out (<[k := v]> m) t' k' v'
       end) t.
Proof.
  revert t m k v vp e. induction rounds as [|rounds IH];
    intros t m k v vp e R Hk Hm Hs Hvp He; simpl evict.
  { apply wp_ret. split; [done|]. split; [done|]. by exists m. }
  pose proof (lookup_lt_Some _ _ _ Hvp) as Hlt.
  apply wp_bind, (wp_at_slot _ _ e); [done|].
  apply wp_bind, wp_set_slot; [done|]. apply wp_bind, wp_GetHashSlots.
  rewrite length_insert.
  set (s1 := slot_of (length t) (hash64 (ht_id e))).
  set (s2 := slot_of (length t) (Z.shiftr (hash64 (ht_id e)) 16)).
  pose proof (represents_evict t m vp e k v R Hvp Hk Hs Hm) as R'.
  pose proof (represents_lookup _ _ _ _ R Hvp He) as Hme.
  assert (Hke : k <> ht_id e) by congruence.
  assert (Hback : <[ht_id e := ht_data e]> (<[k := v]> (delete (ht_id e) m)) = <[k := v]> m).
  { rewrite insert_insert_ne by congruence. by rewrite insert_delete_eq, (insert_id m (ht_id e)). }
  assert (Habs : <[k := v]> (delete (ht_id e) m) !! ht_id e = None).
  { rewrite lookup_insert_ne by done. apply lookup_delete_eq. }
  assert (Hvs : vp = s1 \/ vp = s2).
  { eapply (rep_slot _ _ R vp (ht_id e) (ht_data e)). by destruct e. }
  assert (exists h1, (if s1 =? vp then (s2, s1) else (s1, s2)) = (h1, vp) /\
            is_slot (length t) (ht_id e) h1) as (h1 & -> & Hh1).
  { destruct (Nat.eqb_spec s1 vp) as [->|Hne]; [exists s2; split; [done|by right]|].
    destruct Hvs as [|<-]; [done|]. exists s1; split; [done|by left]. }
  apply wp_bind, wp_check; [intros _|by rewrite Nat.eqb_refl, orb_true_r].
  destruct (slot_entry _ _ (ht_id e) h1 R') as (e1 & He1); [by rewrite length_insert|].
  apply wp_bind, (wp_at_slot _ _ e1); [done|]. apply wp_if; intros Hem.
  - apply Z.eqb_eq in Hem. apply wp_bind, wp_set_slot; [by eapply lookup_lt_Some|].
    apply wp_ret. rewrite !length_insert. split; [done|]. rewrite <-Hback.
    destruct e as [ek ev]; simpl in *. eapply represents_fill; try done. by rewrite length_insert.
  - apply Z.eqb_neq in Hem. rewrite <-Hback.
    eapply wp_mono; [eapply (IH _ _ _ _ _ e1 R'); try done; by rewrite length_insert|].
    intros [[res k'] v'] t'. by rewrite length_insert.
Qed.

Lemma TryInsert_spec t m k v :
  represents t m -> k <> x_emptyId ->
  wp (fun _ => False) (TryInsert k v) (insert_post m k v (length t)) t.
Proof.
  intros R Hk. unfold TryInsert. apply wp_bind, wp_GetHashSlots.
  set (h1 := slot_of (length t) (hash64 k)). set (h2 := slot_of (length t) (Z.shiftr (hash64 k) 16)).
  destruct (slot_entry t m k h1 R) as (e1 & H1); [by left|].
  destruct (slot_entry t m k h2 R) as (e2 & H2); [by right|].
  pose proof (lookup_lt_Some _ _ _ H1). pose proof (lookup_lt_Some _ _ _ H2).
  apply wp_bind, (wp_at_slot _ _ e1); [done|]. apply wp_if; intros E1.
  { apply Z.eqb_eq in E1. apply wp_bind, wp_set_slot; [done|]. apply wp_ret.
    split; [by rewrite length_insert|]. rewrite <-E1 in *.
    split; [|by apply represents_update]. rewrite (represents_lookup _ _ _ _ R H1); done. }
  apply wp_bind, (wp_at_slot _ _ e2); [done|]. apply wp_if; intros E2.
  { apply Z.eqb_eq in E2. apply wp_bind, wp_set_slot; [done|]. apply wp_ret.
    split; [by rewrite length_insert|]. rewrite <-E2 in *.
    split; [|by apply represents_update]. rewrite (represents_lookup _ _ _ _ R H2); done. }
  apply Z.eqb_neq in E1, E2. pose proof (represents_absent t m k e1 e2 R Hk H1 H2 E1 E2) as Hm.
  apply wp_if; intros F1.
  { apply Z.eqb_eq in F1. apply wp_bind, wp_set_slot; [done|]. apply wp_ret.
    split; [by rewrite length_insert|]. split; [done|].
    eapply represents_fill; try done. by left. }
  apply wp_if; intros F2.
  { apply Z.eqb_eq in F2. apply wp_bind, wp_set_slot; [done|]. apply wp_ret.
    split; [by rewrite length_insert|]. split; [done|].
    eapply represents_fill; try done. by right. }
  apply Z.eqb_neq in F1.
  eapply wp_mono; [eapply (evict_spec 30 t m k v h1 e1); try done; by left|].
  intros [[[] k'] v'] t'; simpl; intros [? ?]; done.
Qed.

(** ** Resizing *)
Fixpoint entries_map (l : Table) : gmap Z (option F) :=
  match l with
  | [] => ∅
  | e :: l' => if decide (ht_id e = x_emptyId) then entries_map l'
               else <[ht_id e := ht_data e]> (entries_map l')
  end.

Definition unique_keys (l : Table) : Prop :=
  forall i j k v w, occupies l i k v -> occupies l j k w -> i = j.

Lemma unique_keys_tail e l : unique_keys (e :: l) -> unique_keys l.
Proof. intros H i j k v w Hi Hj. enough (S i = S j) by lia. by eapply H. Qed.

Lemma entries_map_lookup l k v :
  unique_keys l -> entries_map l !! k = Some v <-> exists i, occupies l i k v.
Proof.
  induction l as [|e l IH]; intros Hu; simpl.
  { rewrite lookup_empty. split; [done|]. intros (i & Hi & _). by rewrite lookup_nil in Hi. }
  specialize (IH (unique_keys_tail _ _ Hu)).
  assert (Htail : (exists i, occupies l i k v) <-> exists i, occupies (e :: l) (S i) k v) by done.
  case_decide as He.
  - rewrite IH, Htail. split; [intros [i Hi]; eauto|].
    intros [[|i] Hi]; [|eauto]. destruct Hi as [Hi Hk]. simpl in Hi. by simplify_eq/=.
  - destruct (decide (ht_id e = k)) as [<-|Hne].
    + rewrite lookup_insert_eq. split.
      * intros [= <-]. exists 0. split; [by destruct e|done].
      * intros [i Hi]. assert (i = 0) as ->.
        { apply (Hu _ _ (ht_id e) v (ht_data e)); [done|]. split; [by destruct e|done]. }
        destruct Hi as [Hi _]. destruct e. by simplify_eq/=.
    + rewrite lookup_insert_ne, IH, Htail by done. split; [intros [i Hi]; eauto|].
      intros [[|i] Hi]; [|eauto]. destruct Hi as [Hi Hk]. simpl in Hi. by simplify_eq/=.
Qed.

Lemma represents_entries_map t m : represents t m -> entries_map t = m.
Proof.
  intros R. apply map_eq. intros k. apply option_eq. intros v.
  rewrite entries_map_lookup; [|exact (rep_uniq _ _ R)]. by rewrite <-(rep_map _ _ R).
Qed.

(** What survives of [m]: all of it in a test build, whose assertion stops the
    program otherwise; some of it in a release build. *)
Definition retained (m m' : gmap Z (option F)) : Prop :=
  m' ⊆ m /\ (testbuild = true -> m' = m).

Lemma retained_refl m : retained m m.
Proof. done. Qed.

Lemma left_out_subseteq m t k v : left_out m t k v -> exists m', represents t m' /\ m' ⊆ m.
Proof. intros (_ & m' & R & Hn & <-). exists m'. split; [done|]. by apply insert_subseteq. Qed.

Lemma reinsert_spec l t m :
  unique_keys l -> represents t m -> map_disjoint (entries_map l) m ->
  wp no_fuel_error (reinsert l)
    (fun _ t' => length t' = length t /\
       exists m', represents t' m' /\ retained (entries_map l ∪ m) m') t.
Proof.
  revert t m. induction l as [|e l IH]; intros t m Hu R Hd; simpl reinsert.
  { apply wp_ret. split; [done|]. exists m. simpl. rewrite map_empty_union. done. }
  simpl in *. pose proof (unique_keys_tail _ _ Hu) as Hu'. apply wp_bind.
  case_decide as He.
  { rewrite (proj2 (Z.eqb_eq _ _) He). by apply wp_ret, IH. }
  rewrite (proj2 (Z.eqb_neq _ _) He). apply map_disjoint_insert_l in Hd as [Hm Hd].
  assert (Hnl : entries_map l !! ht_id e = None).
  { destruct (entries_map l !! ht_id e) as [v|] eqn:El; [|done].
    apply entries_map_lookup in El as [i Hi]; [|done].
    assert (Some (S i) = Some 0); [f_equal|done].
    apply (Hu _ _ (ht_id e) v (ht_data e)); [done|]. split; [by destruct e|done]. }
  apply wp_bind. eapply wp_mono.
  { eapply wp_error_mono; [|by apply (TryInsert_spec t m)]. done. }
  intros [[res k'] v'] t' [Hlen Hres]. rewrite Hm in Hres.
  apply wp_check; [intros Hck|intros _; by auto with dsom].
  assert (exists m', represents t' m' /\ m' ⊆ <[ht_id e := ht_data e]> m /\
            (testbuild = true -> m' = <[ht_id e := ht_data e]> m)) as (m' & R' & Hsub & Htb).
  { destruct res; destruct Hres as [Hn Hres].
    - eexists. split; [exact Hres|done].
    - by destruct Hn.
    - destruct (left_out_subseteq _ _ _ _ Hres) as (m' & ? & ?). exists m'.
      split_and!; try done. intros Htb. by rewrite Htb in Hck. }
  eapply wp_mono; [apply (IH t' m'); try done|].
  { eapply map_disjoint_weaken_r; [|exact Hsub]. by apply map_disjoint_insert_r_2. }
  simpl. intros _ t'' (Hlen' & m'' & R'' & Hsub' & Htb'). split; [congruence|].
  exists m''. split; [done|].
  rewrite <-insert_union_l, insert_union_r by done. split.
  - etrans; [exact Hsub'|]. by apply map_union_mono_l.
  - intros Ht. by rewrite (Htb' Ht), (Htb Ht).
Qed.

Lemma table_size_double n : table_size n -> (Z.of_nat n <= 32768)%Z -> table_size (n * 2).
Proof.
  intros (j & Hj & ->) Hle. exists (S j). split; [|rewrite Nat.pow_succ_r'; lia].
  destruct (decide (j = 16)) as [->|]; [|lia]. rewrite Nat2Z.inj_pow in Hle. by vm_compute in Hle.
Qed.

Lemma represents_blank n : table_size n -> represents (replicate n emptyEntry) ∅.
Proof.
  intros Hn. assert (H : forall i k v, ~ occupies (replicate n emptyEntry) i k v).
  { intros i k v [Hi Hk]. apply lookup_replicate in Hi as [Hi _]. injection Hi as -> _. done. }
  split; [by rewrite length_replicate|naive_solver..|].
  intros k v. rewrite lookup_empty. naive_solver.
Qed.

Lemma Resize_spec t m :
  represents t m ->
  wp no_fuel_error Resize
    (fun _ t' => length t' = length t * 2 /\ (Z.of_nat (length t) <= 32768)%Z /\
       exists m', represents t' m' /\ retained m m') t.
Proof.
  intros R. unfold Resize. apply wp_bind, wp_get.
  apply wp_bind, wp_check; [intros Hle%Z.leb_le|by auto with dsom].
  apply wp_bind, wp_put.
  pose proof (represents_blank _ (table_size_double _ (rep_size _ _ R) Hle)) as Rb.
  eapply wp_mono; [apply (reinsert_spec t _ ∅); try done|].
  { exact (rep_uniq _ _ R). }
  { apply map_disjoint_empty_r. }
  intros _ t' [Hlen H]. rewrite length_replicate in Hlen.
  rewrite map_union_empty, (represents_entries_map _ _ R) in H. done.
Qed.

(** ** The retry loop *)
Lemma Insert_loop_spec fuel resized t m k v :
  represents t m -> k <> x_emptyId -> 2 ^ 16 < length t * 2 ^ fuel ->
  wp no_fuel_error (Insert_loop fuel resized k v)
    (fun _ t' => length t <= length t' /\
       exists m', represents t' m' /\ retained (<[k := v]> m) m') t.
Proof.
  revert resized t m k v. induction fuel as [|fuel IH]; intros resized t m k v R Hk Hlen.
  { pose proof (table_size_pos _ (rep_size _ _ R)). rewrite Nat.pow_0_r in Hlen. lia. }
  simpl Insert_loop. apply wp_bind. eapply wp_mono.
  { eapply wp_error_mono; [|by apply (TryInsert_spec t m)]. done. }
  intros [[res k'] v'] t' [Hlen' Hres]. apply wp_bind, wp_check; [intros Hck|by auto with dsom].
  destruct (decide (res = Failed)) as [Hres'|Hres'].
  - subst res. destruct Hres as [_ Hlo]. unfold left_out in Hlo.
    destruct Hlo as (Hk' & m' & R' & Hn & Hm'). apply wp_bind.
    eapply wp_mono; [by apply (Resize_spec t' m')|].
    simpl. intros _ t'' (Hlen'' & Hle & m'' & R'' & Hsub & Htb).
    eapply wp_mono; [apply (IH true t'' m'' k' v' R'' Hk')|].
    { rewrite Hlen'', Hlen', <-Nat.mul_assoc, <-Nat.pow_succ_r'. done. }
    simpl. intros _ t3 (Hl3 & m3 & R3 & Hsub3 & Htb3). split; [lia|]. exists m3. split; [done|].
    split.
    + rewrite <-Hm'. etrans; [exact Hsub3|]. by apply insert_mono.
    + intros Ht. by rewrite (Htb3 Ht), (Htb Ht).
  - apply wp_ret. split; [lia|]. exists (<[k := v]> m). split; [|done].
    destruct res; [apply Hres|apply Hres|done].
Qed.

Lemma Insert_spec t m k v :
  represents t m -> k <> x_emptyId ->
  wp no_fuel_error (Insert k v)
    (fun _ t' => length t <= length t' /\
       exists m', represents t' m' /\ retained (<[k := v]> m) m') t.
Proof.
  intros R Hk. apply Insert_loop_spec; try done.
  pose proof (table_size_pos _ (rep_size _ _ R)) as [Hpos _].
  apply (Nat.lt_le_trans _ (1 * 2 ^ 18)); [|by apply Nat.mul_le_mono_r].
  rewrite Nat.mul_1_l. apply Nat.pow_lt_mono_r; lia.
Qed.

(** ** Classes *)
Record class_represents (c : SOMClass) (m : gmap Z (option F)) : Prop := {
  cls_mask : c_methodHtMask c = (Z.of_nat (length (c_methodHt c)) - 1)%Z;
  cls_table : represents (c_methodHt c) m
}.
Definition class_wf (c : SOMClass) : Prop := exists m, class_represents c m.

(** A name as the VM builds it: its id is a valid ordinal and its hash is the
    low half of the interned hash. *)
Definition valid_name (name : SOMUniquedString) : Prop :=
  m_id name <> x_emptyId /\ m_hash name = hash32 (hash64 (m_id name)).

Lemma slot1_hash32 n h :
  table_size n -> Z.to_nat (Z.land (hash32 h) (Z.of_nat n - 1)) = slot_of n h.
Proof.
  intros (j & Hj & ->). unfold slot_of, hash32, u32. f_equal. rewrite !land_size.
  apply Z.mod_mod_divide. exists (2 ^ (32 - Z.of_nat j))%Z.
  rewrite <-Z.pow_add_r by lia. f_equal. lia.
Qed.

Lemma slot2_hash32 n h :
  table_size n ->
  Z.to_nat (Z.land (Z.shiftr (hash32 h) 16) (Z.of_nat n - 1)) = slot_of n (Z.shiftr h 16).
Proof.
  intros (j & Hj & ->). unfold slot_of, hash32, u32. f_equal.
  rewrite !land_size, <-!Z.land_ones by lia. apply Z.bits_inj'. intros i Hi.
  rewrite !Z.land_spec, !Z.shiftr_spec, !Z.land_spec by done.
  destruct (decide (i < Z.of_nat j)%Z).
  - rewrite (Z.ones_spec_low 32) by lia. by rewrite andb_true_r.
  - rewrite (Z.ones_spec_high (Z.of_nat j)) by lia. by rewrite !andb_false_r.
Qed.

Lemma GetMethod_spec c m name :
  class_represents c m -> valid_name name -> GetMethod c name = Ok (mjoin (m !! m_id name)).
Proof.
  intros [Hmask R] [Hid Hhash]. unfold GetMethod. rewrite Hhash, Hmask.
  pose proof (rep_size _ _ R) as Hn. rewrite slot1_hash32, slot2_hash32 by done.
  destruct (slot_entry _ _ (m_id name) _ R (or_introl eq_refl)) as [e1 H1].
  destruct (slot_entry _ _ (m_id name) _ R (or_intror eq_refl)) as [e2 H2].
  rewrite H1, H2. destruct (Z.eqb_spec (ht_id e1) (m_id name)) as [E1|E1].
  { rewrite <-E1 in *. by rewrite (represents_lookup _ _ _ _ R H1). }
  destruct (Z.eqb_spec (ht_id e2) (m_id name)) as [E2|E2].
  { rewrite <-E2 in *. by rewrite (represents_lookup _ _ _ _ R H2). }
  by rewrite (represents_absent _ _ _ _ _ R Hid H1 H2).
Qed.

(** The methods a class declares: the last declaration of a name wins. *)
Fixpoint declared (methods : list MethInfo) (id : Z) : option F :=
  match methods with
  | [] => None
  | it :: methods' =>
      match declared methods' id with
      | Some f => Some f
      | None => if decide (m_stringId it = id) then Some (m_fnObj it) else None
      end
  end.

Definition methods_map (m : gmap Z (option F)) (methods : list MethInfo) : gmap Z (option F) :=
  foldl (fun m it => <[m_stringId it := Some (m_fnObj it)]> m) m methods.

Lemma methods_map_lookup methods m id :
  methods_map m methods !! id =
    match declared methods id with Some f => Some (Some f) | None => m !! id end.
Proof.
  revert m. induction methods as [|it methods IH]; intros m; simpl; [done|].
  unfold methods_map in *. simpl. rewrite IH.
  destruct (declared methods id); [done|]. rewrite lookup_insert. by case_decide.
Qed.

Lemma methods_map_mono methods m m' : m ⊆ m' -> methods_map m methods ⊆ methods_map m' methods.
Proof.
  revert m m'. induction methods as [|it methods IH]; intros m m' Hs; simpl; [done|].
  apply IH. by apply insert_mono.
Qed.

Definition valid_methods (methods : list MethInfo) : Prop :=
  Forall (fun it => m_stringId it <> x_emptyId) methods.

Lemma insertMethods_spec methods t m :
  represents t m -> valid_methods methods ->
  wp no_fuel_error (insertMethods methods)
    (fun _ t' => exists m', represents t' m' /\ retained (methods_map m methods) m') t.
Proof.
  revert t m. induction methods as [|it methods IH]; intros t m R Hv; simpl.
  { apply wp_ret. by exists m. }
  apply Forall_cons in Hv as [Hid Hv]. apply wp_bind.
  eapply wp_mono; [by apply (Insert_spec t m)|]. simpl.
  intros _ t' (_ & m' & R' & Hsub & Htb). eapply wp_mono; [by apply (IH t' m')|]. simpl.
  intros _ t'' (m'' & R'' & Hsub' & Htb'). exists m''. split; [done|]. split.
  - etrans; [exact Hsub'|]. by apply methods_map_mono.
  - intros Ht. rewrite (Htb' Ht), (Htb Ht). done.
Qed.

Definition superclass_wf (sc : option SOMClass) : Prop :=
  match sc with None => True | Some c => class_wf c end.

Lemma emptyTable_represents : represents emptyTable ∅.
Proof. apply (represents_blank 1). by exists 0; split; [lia|]. Qed.

Lemma CloneFrom_represents sc m :
  match sc with None => m = ∅ | Some c => class_represents c m end ->
  represents (CloneFrom sc) m.
Proof.
  destruct sc as [c|]; simpl; [intros [Hmask R]|intros ->; apply emptyTable_represents].
  rewrite Hmask, take_ge; [done|lia].
Qed.

(** Lookup in the superclass, where there is one. *)
Definition inherited (sc : option SOMClass) (name : SOMUniquedString) : result (option F) :=
  match sc with None => Ok None | Some c => GetMethod c name end.

Lemma inherited_spec sc :
  superclass_wf sc ->
  exists m, represents (CloneFrom sc) m /\
    forall name, valid_name name -> inherited sc name = Ok (mjoin (m !! m_id name)).
Proof.
  destruct sc as [c|]; simpl.
  - intros [m Hc]. exists m. split; [by apply (CloneFrom_represents (Some c))|].
    intros name Hn. by apply GetMethod_spec.
  - intros _. exists ∅. split; [by apply (CloneFrom_represents None)|].
    intros name _. by rewrite lookup_empty.
Qed.

Lemma Create_spec sc methods fields pre :
  superclass_wf sc -> valid_methods methods ->
  match Create sc methods fields pre with
  | Err e => e <> OutOfFuel
  | Ok c => exists m m', class_represents c m' /\ retained (methods_map m methods) m' /\
      c_fields c = match sc with None => [] | Some s => c_fields s end ++ fields /\
      forall name, valid_name name -> inherited sc name = Ok (mjoin (m !! m_id name))
  end.
Proof.
  intros Hsc Hv. destruct (inherited_spec sc Hsc) as (m & R & Hinh). unfold Create.
  pose proof (insertMethods_spec methods _ m R Hv) as Hwp. unfold wp in Hwp.
  destruct (insertMethods methods (CloneFrom sc)) as [[[] t]|e]; simpl; [|done].
  destruct Hwp as (m' & R' & Hret).
  destruct (_ && _); [done|]. destruct (_ && _); [done|]. exists m, m'. by split_and!.
Qed.

(** ** Properties *)

(** C23: method lookup is inheritance with override.  Creating a class from a
    well-formed superclass never loops for lack of fuel; when it succeeds the
    class is well formed, its fields are the superclass's followed by its own,
    and looking up any name the VM can form yields the class's own last
    declaration of it, or else what the superclass answers.  In a release build,
    where re-insertion is not checked, a lookup may instead miss, but it never
    yields another method. *)
Theorem Create_lookup_override sc methods fields pre :
  superclass_wf sc -> valid_methods methods ->
  match Create sc methods fields pre with
  | Err e => e <> OutOfFuel
  | Ok c =>
      class_wf c /\
      c_fields c = match sc with None => [] | Some s => c_fields s end ++ fields /\
      forall name, valid_name name ->
        exists up r, inherited sc name = Ok up /\ GetMethod c name = Ok r /\
          let expected := match declared methods (m_id name) with Some f => Some f | None => up end in
          (r = expected \/ (testbuild = false /\ r = None))
  end.
Proof.
  intros Hsc Hv. pose proof (Create_spec sc methods fields pre Hsc Hv) as H.
  destruct (Create sc methods fields pre) as [c|e]; [|done].
  destruct H as (m & m' & Hc & [Hsub Htb] & Hf & Hinh). split_and!; [by exists m'|done|].
  intros name Hn. exists (mjoin (m !! m_id name)), (mjoin (m' !! m_id name)).
  split; [by apply Hinh|]. split; [by apply GetMethod_spec|]. simpl.
  pose proof (methods_map_lookup methods m (m_id name)) as Hlk.
  destruct testbuild.
  { left. rewrite (Htb eq_refl), Hlk. by destruct (declared methods (m_id name)). }
  destruct (m' !! m_id name) as [v|] eqn:Em; simpl; [|by right].
  left. pose proof (lookup_weaken _ _ _ _ Em Hsub) as Hw. rewrite Hlk in Hw.
  destruct (declared methods (m_id name)); simplify_eq/=; [done|]. by rewrite Hw.
Qed.

(** C24: insertion into the cuckoo table implements insertion into a finite map
    and terminates.  From a table holding [m], [Insert] returns or stops on an
    assertion, within the 18 rounds the size limit allows; in a test build the
    table then holds exactly [m] with the key bound to the new value, in a
    release build some of those bindings. *)
Theorem Insert_refines_map t m k v :
  represents t m -> k <> x_emptyId ->
  match Insert k v t with
  | Err e => e <> OutOfFuel
  | Ok (_, t') => length t <= length t' /\ exists m', represents t' m' /\
      m' ⊆ <[k := v]> m /\ (testbuild = true -> m' = <[k := v]> m)
  end.
Proof.
  intros R Hk. pose proof (Insert_spec t m k v R Hk) as H. unfold wp in H.
  destruct (Insert k v t) as [[res t']|e]; [|done]. exact H.
Qed.
End table.

Lemma valid_methods_small {F} (l : list (@MethInfo F)) :
  forallb (fun it => m_stringId it <? 1000)%Z l = true -> valid_methods l.
Proof.
  intros Hl. apply Forall_forall. intros it Hit. rewrite forallb_forall in Hl.
  apply list_elem_of_In, Hl, Z.ltb_lt in Hit. unfold x_emptyId. lia.
Qed.

(** ** A release build can lose a method

    Slots of the example's keys: key [j <= 40] hashes to slots [j] and [j + 1],
    keys 100 to 104 to the pairs below. *)
Definition example_hash (k : Z) : Z :=
  (let pair h1 h2 := h1 + h2 * 2 ^ 16 in
   if k <=? 40 then pair k (k + 1)
   else if k =? 100 then pair 127 127
   else if k =? 101 then pair 63 63
   else if k =? 102 then pair 0 126
   else if k =? 103 then pair 126 125
   else pair 191 191)%Z.

Definition example_methods : list MethInfo :=
  (fun k => mk_methinfo k true) <$> ([100; 101]%Z ++ (Z.of_nat <$> seq 0 41) ++ [102; 103; 104]%Z).

Definition example_name (k : Z) : SOMUniquedString := mk_uniqued k (hash32 (example_hash k)).

(** C25: a class built by a release build can lose a method it declares.  For
    the hash above the 46 valid example methods declare key 29, [Create] succeeds
    in a release build, and yet looking up key 29 misses: the re-insertion loop
    of [Resize] gave up on it after 30 evictions and dropped it.  A test build
    stops on its assertion instead. *)
Theorem release_Create_loses_method :
  valid_methods example_methods /\ valid_name example_hash (example_name 29) /\
  declared example_methods 29 = Some true /\
  (exists c, Create false example_hash None example_methods [] false = Ok c /\
             GetMethod c (example_name 29) = Ok None) /\
  (exists what, Create true example_hash None example_methods [] false = Err (AssertFailed what)).
Proof.
  split_and!.
  - by apply valid_methods_small.
  - split; [by vm_compute|reflexivity].
  - reflexivity.
  - destruct (Create false example_hash None example_methods [] false) as [c|e] eqn:E.
    + exists c. split; [done|].
      assert (H : match Create false example_hash None example_methods [] false with
        | Ok c => GetMethod c (example_name 29) = Ok None | Err _ => False end)
        by (vm_compute; reflexivity). by rewrite E in H.
    + exfalso. assert (H : match Create false example_hash None example_methods [] false with
        | Ok c => True | Err _ => False end) by (vm_compute; exact I). by rewrite E in H.
  - eexists. vm_compute. reflexivity.
Qed.

Lemma Create_lookup_override_witness :
  let hash k := (k * 7919)%Z in
  let base := Create true hash None [mk_methinfo 1 "a"; mk_methinfo 2 "b"] [10%Z] false in
  match base with
  | Ok b => match Create true hash (Some b) [mk_methinfo 2 "c"] [11%Z] false with
            | Ok c => class_wf hash c /\ c_fields c = [10; 11]%Z
            | Err _ => False end
  | Err _ => False
  end.
Proof.
  intros hash base.
  pose proof (Create_lookup_override true hash None [mk_methinfo 1 "a"; mk_methinfo 2 "b"] [10%Z] false
    I ltac:(by apply valid_methods_small)) as H1.
  fold base in H1. destruct base as [b|e] eqn:Eb; [|by vm_compute in Eb].
  destruct H1 as (Hb & Hbf & _).
  pose proof (Create_lookup_override true hash (Some b) [mk_methinfo 2 "c"] [11%Z] false
    Hb ltac:(by apply valid_methods_small)) as H2.
  destruct (Create true hash (Some b) [mk_methinfo 2 "c"] [11%Z] false) as [c|e] eqn:Ec.
  - destruct H2 as (Hc & Hcf & _). split; [exact Hc|]. by rewrite Hcf, Hbf.
  - vm_compute in Eb. injection Eb as <-. by vm_compute in Ec.
Defined.

Lemma Insert_refines_map_witness :
  let hash k := (k * 7919)%Z in
  match Insert true hash 5 (Some 3) emptyTable with
  | Err _ => False
  | Ok (_, t') => exists m', represents hash t' m' /\ m' = <[5%Z := Some 3]> ∅
  end.
Proof.
  intros hash.
  pose proof (Insert_refines_map true hash emptyTable ∅ 5 (Some 3) (emptyTable_represents hash)
    ltac:(by vm_compute)) as H.
  destruct (Insert true hash 5 (Some 3) emptyTable) as [[res t']|e] eqn:E; [|by vm_compute in E].
  destruct H as (_ & m' & R & _ & Ht). exists m'. split; [exact R|by apply Ht].
Defined.
