(* ===== verification/Lexer.v ===== *)
(** * The lexer

    Models [runtime/som_lexer.h] and [runtime/som_lexer.cpp].  The input stream
    is the list of characters not yet read and its [good()] flag; [std::getline]
    is written out.  [buf[i]] is the character at [i], the terminating zero at
    [i = buf.length()], and undefined behaviour beyond.  The character classes
    are those of the C locale.  [assert] is checked. *)
From S2P Require Import Prelude.
From Stdlib Require Import Ascii.

Inductive Symbol : Type :=
  | NONE | Integer | Double | Not | And | Or | Star | Div | Mod | Plus | Minus | Equal | More
  | Less | Comma | At | Per | NewBlock | EndBlock | Colon | Period | Exit | Assign | NewTerm
  | EndTerm | Pound | Primitive | Separator | STString | Identifier | Keyword
  | KeywordSequence | OperatorSequence.

#[export] Instance Symbol_eq_dec : EqDecision Symbol.
Proof. solve_decision. Defined.

Notation chars := (list ascii).

Definition chr (n : nat) : ascii := ascii_of_nat n.
Definition code (c : ascii) : nat := nat_of_ascii c.
Definition eqc (a b : ascii) : bool := Ascii.eqb a b.
Arguments eqc : simpl never.

(** The classes of the C locale.  A byte from 128 on is a negative [char], which these
    functions of C do not allow; here it is in no class, as in glibc's tables. *)
Definition isspace (c : ascii) : bool := (code c =? 32) || ((9 <=? code c) && (code c <=? 13)).
Definition isdigit (c : ascii) : bool := (48 <=? code c) && (code c <=? 57).
Definition isalpha (c : ascii) : bool :=
  ((65 <=? code c) && (code c <=? 90)) || ((97 <=? code c) && (code c <=? 122)).
Definition isalnum (c : ascii) : bool := isalpha c || isdigit c.

Definition c_quote : ascii := chr 34.      (* double quote, the comment delimiter *)
Definition c_apos : ascii := chr 39.       (* apostrophe, the string delimiter *)
Definition c_backslash : ascii := chr 92.
Definition c_zero : ascii := chr 0.
Definition c_newline : ascii := chr 10.

(** ** State *)
Record LexerState : Type := mk_state {
  lineNumber : nat;
  bufp : nat;
  sym : Symbol;
  symc : ascii;
  text : chars;
  startBufp : nat
}.

Definition initial_state : LexerState := mk_state 0 0 NONE c_zero [] 0.

Record istream : Type := mk_istream { rest : chars; good : bool }.

Record Lexer : Type := mk_lexer {
  infile : istream;
  peekDone : bool;
  state : LexerState;
  stateAfterPeek : LexerState;
  buf : chars
}.

Definition new_lexer (file : chars) : Lexer :=
  mk_lexer (mk_istream file true) false initial_state initial_state [].

Definition set_state (f : LexerState -> LexerState) : M Lexer unit :=
  modify (fun lx => mk_lexer (infile lx) (peekDone lx) (f (state lx)) (stateAfterPeek lx) (buf lx)).

(** [LexerState::incPtr]. *)
Definition incPtr (val : nat) : M Lexer unit :=
  set_state (fun s => mk_state (lineNumber s) (bufp s + val) (sym s) (symc s) (text s) (bufp s + val)).

Definition set_sym (x : Symbol) : M Lexer unit :=
  set_state (fun s => mk_state (lineNumber s) (bufp s) x (symc s) (text s) (startBufp s)).
Definition set_symc (c : ascii) : M Lexer unit :=
  set_state (fun s => mk_state (lineNumber s) (bufp s) (sym s) c (text s) (startBufp s)).
Definition set_text (t : chars) : M Lexer unit :=
  set_state (fun s => mk_state (lineNumber s) (bufp s) (sym s) (symc s) t (startBufp s)).
Definition append_text (c : ascii) : M Lexer unit :=
  set_state (fun s => mk_state (lineNumber s) (bufp s) (sym s) (symc s) (text s ++ [c]) (startBufp s)).
Definition set_startBufp : M Lexer unit :=
  set_state (fun s => mk_state (lineNumber s) (bufp s) (sym s) (symc s) (text s) (bufp s)).

(** [buf[i]] *)
Definition char_at (l : chars) (i : nat) : result ascii :=
  match l !! i with
  | Some c => Ok c
  | None => if i =? length l then Ok c_zero else Err (UndefinedBehaviour "buf[i]")
  end.

(** [_BC], [buf[state.bufp + k]] and [EOB] *)
Definition bc_at (k : nat) : M Lexer ascii := fun lx =>
  match char_at (buf lx) (bufp (state lx) + k) with Ok c => Ok (c, lx) | Err e => Err e end.
Definition _BC : M Lexer ascii := bc_at 0.
Definition EOB : M Lexer bool := gets (fun lx => length (buf lx) <=? bufp (state lx)).

(** ** Reading lines *)

(** The characters before the first newline, and what follows it if there is one. *)
Fixpoint split_line (l : chars) : chars * option chars :=
  match l with
  | [] => ([], None)
  | c :: l' =>
      if eqc c c_newline then ([], Some l')
      else let '(line, more) := split_line l' in (c :: line, more)
  end.

(** [std::getline]: reaching the end of the file clears [good()]. *)
Definition getline (f : istream) : chars * istream :=
  match split_line (rest f) with
  | (line, Some more) => (line, mk_istream more true)
  | (line, None) => (line, mk_istream [] false)
  end.

(** Returns whether a line was read ([false] is the code's [-1]). *)
Definition fillBuffer : M Lexer bool := fun lx =>
  if negb (good (infile lx)) then Ok (false, lx)
  else
    let '(line, f) := getline (infile lx) in
    let s := state lx in
    Ok (true, mk_lexer f (peekDone lx)
      (mk_state (lineNumber s + 1) 0 (sym s) (symc s) (text s) (startBufp s))
      (stateAfterPeek lx) line).

(** [while (EOB) if (fillBuffer() == -1) return;]: false when the input is exhausted. *)
Fixpoint fillWhileEOB (fuel : nat) : M Lexer bool :=
  e ← EOB;
  if negb e then mret true
  else
    match fuel with
    | O => fail OutOfFuel
    | S fuel' => r ← fillBuffer; if (r : bool) then fillWhileEOB fuel' else mret false
    end.

(** ** Basic lexing *)
Fixpoint skipWhiteSpace (fuel : nat) : M Lexer unit :=
  c ← _BC;
  if negb (isspace c) then mret tt
  else
    match fuel with
    | O => fail OutOfFuel
    | S fuel' =>
        incPtr 1 ;;
        more ← fillWhileEOB fuel';
        if (more : bool) then skipWhiteSpace fuel' else mret tt
    end.

(** The [do ... while] of [skipComment]; true when the closing quote was found. *)
Fixpoint skipCommentBody (fuel : nat) : M Lexer bool :=
  match fuel with
  | O => fail OutOfFuel
  | S fuel' =>
      incPtr 1 ;;
      more ← fillWhileEOB fuel';
      if negb more then mret false
      else c ← _BC; if eqc c c_quote then mret true else skipCommentBody fuel'
  end.

Definition skipComment (fuel : nat) : M Lexer unit :=
  c ← _BC;
  if eqc c c_quote then
    closed ← skipCommentBody fuel;
    if (closed : bool) then incPtr 1 else mret tt
  else mret tt.

Definition op_chars : chars :=
  ["~"; "&"; "|"; "*"; "/"; c_backslash; "+"; "="; ">"; "<"; ","; "@"; "%"; "-"]%char.
Definition _ISOP (c : ascii) : bool := existsb (eqc c) op_chars.

Definition SEPARATOR : chars := ["-"; "-"; "-"; "-"]%char.
Definition PRIMITIVE : chars := ["p"; "r"; "i"; "m"; "i"; "t"; "i"; "v"; "e"]%char.

(** The body of [_MATCH(C, S)] once [_BC == C]. *)
Definition take_single (y : Symbol) : M Lexer unit :=
  c ← _BC; set_sym y ;; set_symc c ;; set_text [c] ;; incPtr 1.

Fixpoint lexNumberLoop (fuel : nat) (sawDecimalMark : bool) : M Lexer unit :=
  match fuel with
  | O => fail OutOfFuel
  | S fuel' =>
      c ← _BC; append_text c ;; incPtr 1 ;;
      saw ← (if sawDecimalMark then mret true
             else
               c1 ← _BC;
               if negb (eqc "." c1) then mret false
               else
                 lx ← get_st;
                 if negb (bufp (state lx) + 1 <? length (buf lx)) then mret false
                 else
                   c2 ← bc_at 1;
                   if isdigit c2 then
                     set_sym Double ;; append_text c1 ;; incPtr 1 ;; mret true
                   else mret false);
      c3 ← _BC;
      if isdigit c3 then lexNumberLoop fuel' saw else mret tt
  end.

Definition lexNumber (fuel : nat) : M Lexer unit :=
  set_sym Integer ;; set_symc c_zero ;; set_text [] ;; lexNumberLoop fuel false.

Definition escape_char (c : ascii) : option ascii :=
  if eqc c "t" then Some (chr 9)
  else if eqc c "b" then Some (chr 8)
  else if eqc c "n" then Some (chr 10)
  else if eqc c "r" then Some (chr 13)
  else if eqc c "f" then Some (chr 12)
  else if eqc c "0" then Some (chr 0)
  else if eqc c c_apos then Some c_apos
  else if eqc c c_backslash then Some c_backslash
  else None.

Definition lexEscapeChar : M Lexer unit :=
  e ← EOB;
  check (negb e) (AssertFailed "!EOB") ;;
  current ← _BC;
  (match escape_char current with
   | Some c => append_text c
   | None => fail (AssertFailed "unknown escape character")
   end) ;;
  incPtr 1.

Definition lexStringChar : M Lexer unit :=
  c ← _BC;
  if eqc c c_backslash then incPtr 1 ;; lexEscapeChar
  else append_text c ;; incPtr 1.

(** The inner loop of [lexString], which keeps the line breaks. *)
Fixpoint fillWhileEOB_newline (fuel : nat) : M Lexer bool :=
  e ← EOB;
  if negb e then mret true
  else
    match fuel with
    | O => fail OutOfFuel
    | S fuel' =>
        r ← fillBuffer;
        if (r : bool) then append_text c_newline ;; fillWhileEOB_newline fuel' else mret false
    end.

(** True when the closing apostrophe was found. *)
Fixpoint lexStringLoop (fuel : nat) : M Lexer bool :=
  c ← _BC;
  if eqc c c_apos then mret true
  else
    match fuel with
    | O => fail OutOfFuel
    | S fuel' =>
        more ← fillWhileEOB_newline fuel';
        if negb more then mret false
        else
          c' ← _BC;
          (if negb (eqc c' c_apos) then lexStringChar else mret tt) ;;
          lexStringLoop fuel'
    end.

Definition lexString (fuel : nat) : M Lexer unit :=
  set_sym STString ;; set_symc c_zero ;; set_text [] ;; incPtr 1 ;;
  closed ← lexStringLoop fuel;
  if (closed : bool) then incPtr 1 else mret tt.

(** [while (p(_BC)) { text += _BC; incPtr(); }] *)
Fixpoint takeWhile (fuel : nat) (p : ascii -> bool) : M Lexer unit :=
  c ← _BC;
  if negb (p c) then mret tt
  else match fuel with O => fail OutOfFuel | S fuel' => append_text c ;; incPtr 1 ;; takeWhile fuel' p end.

Definition single_op (c : ascii) : option Symbol :=
  if eqc c "~" then Some Not else if eqc c "&" then Some And else if eqc c "|" then Some Or
  else if eqc c "*" then Some Star else if eqc c "/" then Some Div
  else if eqc c c_backslash then Some Mod
  else if eqc c "+" then Some Plus else if eqc c "=" then Some Equal else if eqc c ">" then Some More
  else if eqc c "<" then Some Less else if eqc c "," then Some Comma else if eqc c "@" then Some At
  else if eqc c "%" then Some Per else if eqc c "-" then Some Minus else None.

Definition lexOperator (fuel : nat) : M Lexer unit :=
  next ← bc_at 1;
  if _ISOP next then
    set_sym OperatorSequence ;; set_symc c_zero ;; set_text [] ;; takeWhile fuel _ISOP
  else
    c ← _BC;
    match single_op c with Some y => take_single y | None => mret tt end.

Definition hasMoreInput (fuel : nat) : M Lexer bool := fillWhileEOB fuel.

(** [buf.substr(state.bufp, n)] *)
Definition substr (n : nat) : M Lexer chars :=
  gets (fun lx => take n (drop (bufp (state lx)) (buf lx))).

Definition nextWordInBufferIsPrimitive : M Lexer bool :=
  w ← substr (length PRIMITIVE);
  if negb (bool_decide (PRIMITIVE = w)) then mret false
  else
    lx ← get_st;
    if length (buf lx) <=? bufp (state lx) + length PRIMITIVE then mret true
    else c ← bc_at (length PRIMITIVE); mret (negb (isalnum c)).

Definition isIdentChar (c : ascii) : bool := isalpha c || isdigit c || eqc c "_".
Definition isKeywordChar (c : ascii) : bool := isalpha c || eqc c ":".

(** The [do ... while] at the start of [GetSym]: false when there is no more input. *)
Fixpoint skipToToken (fuel : nat) : M Lexer bool :=
  match fuel with
  | O => fail OutOfFuel
  | S fuel' =>
      more ← hasMoreInput fuel';
      if negb more then mret false
      else
        skipWhiteSpace fuel' ;;
        skipComment fuel' ;;
        e ← EOB;
        if (e : bool) then skipToToken fuel'
        else c ← _BC; if isspace c || eqc c c_quote then skipToToken fuel' else mret true
  end.

Definition lexIdentifier (fuel : nat) : M Lexer unit :=
  set_text [] ;; set_symc c_zero ;;
  takeWhile fuel isIdentChar ;;
  set_sym Identifier ;;
  c ← _BC;
  if eqc c ":" then
    set_sym Keyword ;; incPtr 1 ;; append_text ":"%char ;;
    c' ← _BC;
    if isalpha c' then set_sym KeywordSequence ;; takeWhile fuel isKeywordChar else mret tt
  else mret tt.

Definition lexColon : M Lexer unit :=
  next ← bc_at 1;
  if eqc next "=" then
    incPtr 2 ;; set_sym Assign ;; set_symc c_zero ;; set_text [":"; "="]%char
  else
    incPtr 1 ;; set_sym Colon ;; set_symc ":" ;; set_text [":"]%char.

Definition lexMinus (fuel : nat) : M Lexer unit :=
  w ← substr (length SEPARATOR);
  if bool_decide (w = SEPARATOR) then
    set_text [] ;; takeWhile fuel (eqc "-") ;; set_sym Separator
  else lexOperator fuel.

(** The token at [_BC]: the [else if] chain of [GetSym]. *)
Definition lexToken (fuel : nat) : M Lexer unit :=
  c ← _BC;
  if eqc c c_apos then lexString fuel
  else if eqc c "[" then take_single NewBlock
  else if eqc c "]" then take_single EndBlock
  else if eqc c ":" then lexColon
  else if eqc c "(" then take_single NewTerm
  else if eqc c ")" then take_single EndTerm
  else if eqc c "#" then take_single Pound
  else if eqc c "^" then take_single Exit
  else if eqc c "." then take_single Period
  else if eqc c "-" then lexMinus fuel
  else if _ISOP c then lexOperator fuel
  else
    p ← nextWordInBufferIsPrimitive;
    if (p : bool) then
      incPtr (length PRIMITIVE) ;; set_sym Primitive ;; set_symc c_zero ;; set_text PRIMITIVE
    else if isalpha c then lexIdentifier fuel
    else if isdigit c then lexNumber fuel
    else set_sym NONE ;; set_symc c ;; set_text [c].

(** Characters left to read, counting a line end as one: the fuel. *)
Definition remaining (lx : Lexer) : nat :=
  length (rest (infile lx)) + (length (buf lx) - bufp (state lx)) +
  (if good (infile lx) then 1 else 0).

Definition GetSym_fuel (fuel : nat) : M Lexer Symbol :=
  lx ← get_st;
  if peekDone lx then
    put_st (mk_lexer (infile lx) false (stateAfterPeek lx) (stateAfterPeek lx) (buf lx)) ;;
    mret (sym (stateAfterPeek lx))
  else
    more ← skipToToken fuel;
    if negb more then
      set_sym NONE ;; set_symc c_zero ;; set_text [] ;; mret NONE
    else
      set_startBufp ;;
      lexToken fuel ;;
      gets (fun lx => sym (state lx)).

Definition GetSym : M Lexer Symbol := fun lx => GetSym_fuel (2 + remaining lx) lx.

Definition Peek : M Lexer Symbol := fun lx =>
  let old := state lx in
  if peekDone lx then Err (AssertFailed "Cannot Peek twice!")
  else
    match GetSym lx with
    | Err e => Err e
    | Ok (nextSym, lx') =>
        Ok (nextSym, mk_lexer (infile lx') true old (state lx') (buf lx'))
    end.

Definition GetText (lx : Lexer) : chars := text (state lx).
Definition GetNextText (lx : Lexer) : chars := text (stateAfterPeek lx).
Definition GetCurrentLineNumber (lx : Lexer) : nat := lineNumber (state lx).
(** [size_t] arithmetic: it wraps around when the text is longer than the column. *)
Definition GetCurrentColumn (lx : Lexer) : Z :=
  ((Z.of_nat (startBufp (state lx)) + 1 - Z.of_nat (length (text (state lx)))) `mod` 2 ^ 64)%Z.

(** ** Safety and termination

    A state is well formed when the position the next [GetSym] starts from lies
    within the buffer or at its end. *)
Definition in_buffer (lx : Lexer) : Prop := bufp (state lx) <= length (buf lx).
Definition has_char (lx : Lexer) : Prop := bufp (state lx) < length (buf lx).

(** The lexer after any pending [Peek] has been consumed. *)
Definition settled (lx : Lexer) : Lexer :=
  if peekDone lx
  then mk_lexer (infile lx) false (stateAfterPeek lx) (stateAfterPeek lx) (buf lx) else lx.

Definition lexer_wf (lx : Lexer) : Prop := in_buffer (settled lx).
Definition left_to_read (lx : Lexer) : nat := remaining (settled lx).

(** The two assertions of [lexEscapeChar] are the only way lexing can stop. *)
Definition escape_error (e : error) : Prop :=
  e = AssertFailed "!EOB" \/ e = AssertFailed "unknown escape character".

(** [lx'] is a later position of the same run. *)
Record advances (n : nat) (lx lx' : Lexer) : Prop := {
  adv_in : in_buffer lx';
  adv_rem : remaining lx' + n <= remaining lx;
  adv_peek : peekDone lx' = peekDone lx
}.

Lemma advances_refl lx : in_buffer lx -> advances 0 lx lx.
Proof. by split; [|lia|]. Qed.

Lemma advances_trans n m lx lx' lx'' :
  advances n lx lx' -> advances m lx' lx'' -> advances (n + m) lx lx''.
Proof. intros [] []. split; [done|lia|congruence]. Qed.

Lemma advances_weaken n m lx lx' : m <= n -> advances n lx lx' -> advances m lx lx'.
Proof. intros Hle []. split; [done|lia|done]. Qed.

Lemma char_at_lt l i : i < length l -> exists c, char_at l i = Ok c /\ l !! i = Some c.
Proof.
  intros Hi. unfold char_at. destruct (lookup_lt_is_Some_2 l i Hi) as [c Hc].
  rewrite Hc. eauto.
Qed.

Lemma char_at_end l : char_at l (length l) = Ok c_zero.
Proof. unfold char_at. rewrite lookup_ge_None_2 by done. by rewrite Nat.eqb_refl. Qed.

(** The character at offset [k], zero at the end of the buffer. *)
Definition peek_char (lx : Lexer) (k : nat) : ascii :=
  default c_zero (buf lx !! (bufp (state lx) + k)).

Lemma peek_char_lt lx k :
  peek_char lx k <> c_zero -> bufp (state lx) + k < length (buf lx).
Proof.
  unfold peek_char. intros H. destruct (buf lx !! _) as [c|] eqn:E; [|done].
  by eapply lookup_lt_Some.
Qed.

Lemma peek_char_true (p : ascii -> bool) lx k :
  p c_zero = false -> p (peek_char lx k) = true -> bufp (state lx) + k < length (buf lx).
Proof. intros Hz Hp. apply peek_char_lt. intros Heq. by rewrite Heq, Hz in Hp. Qed.

Section lexer_wp.
Context (E : error -> Prop).

Lemma wp_bc_at k Q lx :
  bufp (state lx) + k <= length (buf lx) -> Q (peek_char lx k) lx -> wp E (bc_at k) Q lx.
Proof.
  intros Hk HQ. unfold wp, bc_at, char_at, peek_char in *.
  destruct (buf lx !! (bufp (state lx) + k)) as [c|] eqn:Ec; simpl; [done|].
  apply lookup_ge_None in Ec. by rewrite (proj2 (Nat.eqb_eq _ _)) by lia.
Qed.

Lemma wp_BC Q lx : in_buffer lx -> Q (peek_char lx 0) lx -> wp E _BC Q lx.
Proof. intros Hin HQ. apply wp_bc_at; [unfold in_buffer in *; lia|done]. Qed.

Lemma wp_EOB Q lx : Q (length (buf lx) <=? bufp (state lx)) lx -> wp E EOB Q lx.
Proof. done. Qed.

Lemma wp_set_state f Q lx :
  Q tt (mk_lexer (infile lx) (peekDone lx) (f (state lx)) (stateAfterPeek lx) (buf lx)) ->
  wp E (set_state f) Q lx.
Proof. done. Qed.
End lexer_wp.

(** Side conditions on positions. *)
Ltac lex_arith :=
  unfold in_buffer, has_char, remaining in *; simpl in *; lia.
Ltac lex_adv := split; [lex_arith|lex_arith|first [done|simpl in *; congruence]].

Lemma split_line_length l line more :
  split_line l = (line, more) ->
  length l = length line + match more with Some r => S (length r) | None => 0 end.
Proof.
  revert line more. induction l as [|c l IH]; simpl; intros line more.
  { by intros [= <- <-]. }
  destruct (eqc c c_newline); [by intros [= <- <-]|].
  destruct (split_line l) as [line' more'] eqn:E. intros [= <- <-].
  specialize (IH _ _ eq_refl). simpl. lia.
Qed.

Section lexer_specs.
Context (E : error -> Prop).

Lemma fillBuffer_spec lx :
  in_buffer lx -> ~ has_char lx ->
  wp E fillBuffer (fun r lx' => if r : bool then advances 1 lx lx' /\ bufp (state lx') = 0
                                else lx' = lx) lx.
Proof.
  intros Hin Hno. unfold wp, fillBuffer. destruct (good (infile lx)) eqn:Eg; simpl; [|done].
  unfold getline. destruct (split_line (rest (infile lx))) as [line [more|]] eqn:El;
    apply split_line_length in El; simpl; (split; [|done]); split; try done;
    unfold in_buffer, has_char, remaining in *; rewrite ?Eg; simpl; lia.
Qed.

Lemma fillWhileEOB_spec fuel lx :
  in_buffer lx -> remaining lx < fuel ->
  wp E (fillWhileEOB fuel)
    (fun more lx' => advances 0 lx lx' /\
       if more : bool then has_char lx' /\ (has_char lx -> lx' = lx) else ~ has_char lx') lx.
Proof.
  revert lx. induction fuel as [|fuel IH]; intros lx Hin Hf; [lia|]. simpl.
  apply wp_bind, wp_EOB. destruct (Nat.leb_spec (length (buf lx)) (bufp (state lx))) as [He|He]; simpl.
  - apply wp_bind. eapply wp_mono; [apply fillBuffer_spec; [done|lex_arith]|].
    intros [] lx' Hr; simpl.
    + destruct Hr as [[Hin' Hrem Hpk] Hz]. eapply wp_mono; [apply IH; [done|lia]|].
      simpl. intros more lx'' [Hadv Hm]. split.
      * destruct Hadv. split; [done|lia|congruence].
      * destruct more; [|done]. split; [apply Hm|]. intros. lex_arith.
    + apply wp_ret. subst. split; [by apply advances_refl|]. lex_arith.
  - apply wp_ret. split; [by apply advances_refl|]. split; [lex_arith|done].
Qed.

Lemma skipWhiteSpace_spec fuel lx :
  in_buffer lx -> remaining lx < fuel ->
  wp E (skipWhiteSpace fuel)
    (fun _ lx' => (lx' = lx /\ isspace (peek_char lx 0) = false) \/ advances 1 lx lx') lx.
Proof.
  revert lx. induction fuel as [|fuel IH]; intros lx Hin Hf; [lia|]. simpl.
  apply wp_bind, wp_BC; [done|]. destruct (isspace (peek_char lx 0)) eqn:Es; simpl.
  - pose proof (peek_char_true isspace lx 0 eq_refl Es).
    apply wp_bind, wp_set_state. simpl. apply wp_bind.
    eapply wp_mono; [apply fillWhileEOB_spec; lex_arith|].
    simpl. intros [] lx' [[Hin' Hr Hp] Hm].
    + eapply wp_mono; [apply IH; [done|lex_arith]|].
      intros _ lx'' [[-> _]|[Hin'' Hr' Hp']]; right; (split; [done|lex_arith|]); simpl in *; congruence.
    + apply wp_ret. right. split; [done|lex_arith|done].
  - apply wp_ret. by left.
Qed.

Lemma skipCommentBody_spec fuel lx :
  has_char lx -> remaining lx < fuel ->
  wp E (skipCommentBody fuel)
    (fun closed lx' => advances 1 lx lx' /\ (closed = true -> has_char lx')) lx.
Proof.
  revert lx. induction fuel as [|fuel IH]; intros lx Hin Hf; [lex_arith|]. simpl.
  apply wp_bind, wp_set_state, wp_bind.
  eapply wp_mono; [apply fillWhileEOB_spec; lex_arith|].
  simpl. intros [] lx' [[Hin' Hr Hp] Hm]; simpl.
  - apply wp_bind, wp_BC; [done|]. destruct (eqc _ _).
    + apply wp_ret. split; [split; [done|lex_arith|done]|]. intros _. apply Hm.
    + eapply wp_mono; [apply IH; [apply Hm|lex_arith]|].
      intros closed lx'' [[Hin'' Hr' Hp'] Hc]. split; [|done]. split; [done|lex_arith|].
      simpl in *; congruence.
  - apply wp_ret. split; [|done]. split; [done|lex_arith|done].
Qed.

Lemma skipComment_spec fuel lx :
  in_buffer lx -> remaining lx < fuel ->
  wp E (skipComment fuel)
    (fun _ lx' => (lx' = lx /\ eqc (peek_char lx 0) c_quote = false) \/ advances 1 lx lx') lx.
Proof.
  intros Hin Hf. unfold skipComment. apply wp_bind, wp_BC; [done|].
  destruct (eqc (peek_char lx 0) c_quote) eqn:Eq; [|apply wp_ret; by left].
  pose proof (peek_char_true (fun c => eqc c c_quote) lx 0 eq_refl Eq).
  apply wp_bind. eapply wp_mono; [apply skipCommentBody_spec; [lex_arith|done]|].
  simpl. intros [] lx' [[Hin' Hr Hp] Hc].
  - unfold incPtr. apply wp_set_state. right. specialize (Hc eq_refl). split; [lex_arith|lex_arith|done].
  - apply wp_ret. right. by split.
Qed.

Definition at_token (lx : Lexer) : Prop :=
  has_char lx /\ isspace (peek_char lx 0) = false /\ eqc (peek_char lx 0) c_quote = false.

Lemma skipToToken_spec fuel lx :
  in_buffer lx -> remaining lx + 1 < fuel ->
  wp E (skipToToken fuel)
    (fun more lx' => advances 0 lx lx' /\
       if more : bool then at_token lx' else ~ has_char lx') lx.
Proof.
  revert lx. induction fuel as [|fuel IH]; intros lx Hin Hf; [lia|]. simpl.
  apply wp_bind. unfold hasMoreInput. eapply wp_mono; [apply fillWhileEOB_spec; [done|lia]|].
  intros [] lx1 [[Hin1 Hr1 Hp1] Hm]; simpl; [|by apply wp_ret].
  destruct Hm as [Hc1 _]. apply wp_bind.
  eapply wp_mono; [apply skipWhiteSpace_spec; [done|lia]|]. simpl. intros _ lx2 H2.
  assert (advances 0 lx1 lx2) as [Hin2 Hr2 Hp2].
  { destruct H2 as [[-> _]|H2]; [by apply advances_refl|by eapply advances_weaken; [|exact H2]; lia]. }
  apply wp_bind. eapply wp_mono; [apply skipComment_spec; [done|lia]|]. simpl. intros _ lx3 H3.
  assert (advances 0 lx2 lx3) as [Hin3 Hr3 Hp3].
  { destruct H3 as [[-> _]|H3]; [by apply advances_refl|by eapply advances_weaken; [|exact H3]; lia]. }
  assert (Hagain : remaining lx3 < remaining lx -> wp E (skipToToken fuel)
    (fun more lx' => advances 0 lx lx' /\ if more : bool then at_token lx' else ~ has_char lx') lx3).
  { intros Hlt. eapply wp_mono; [apply IH; [done|lia]|]. intros more lx4 [[] Hm]. split; [|done].
    split; [done|lia|congruence]. }
  apply wp_bind, wp_EOB. destruct (Nat.leb_spec (length (buf lx3)) (bufp (state lx3))) as [He|He].
  { apply Hagain. destruct H2 as [[-> Hs]|[]]; [|lia]. destruct H3 as [[-> Hq]|[]]; [lex_arith|lia]. }
  apply wp_bind, wp_BC; [done|]. destruct (isspace _ || eqc _ _) eqn:Eor.
  { apply Hagain. destruct H2 as [[-> Hs]|[]]; [|lia]. destruct H3 as [[-> Hq]|[]]; [|lia].
    by rewrite Hs, Hq in Eor. }
  apply wp_ret. apply orb_false_elim in Eor as [Es Eq]. split; [split; [done|lia|congruence]|].
  split_and!; [lex_arith|done|done].
Qed.

(** [takeWhile] with a predicate that rejects the terminating zero. *)
Lemma takeWhile_spec p fuel lx :
  p c_zero = false -> in_buffer lx -> remaining lx < fuel ->
  wp E (takeWhile fuel p)
    (fun _ lx' => advances 0 lx lx' /\ sym (state lx') = sym (state lx) /\
       (p (peek_char lx 0) = true -> advances 1 lx lx')) lx.
Proof.
  intros Hz. revert lx. induction fuel as [|fuel IH]; intros lx Hin Hf; [lia|]. simpl.
  apply wp_bind, wp_BC; [done|]. destruct (p (peek_char lx 0)) eqn:Ep; simpl.
  - pose proof (peek_char_true p lx 0 Hz Ep).
    apply wp_bind, wp_set_state, wp_bind, wp_set_state. simpl.
    eapply wp_mono; [apply IH; lex_arith|]. simpl. intros _ lx' ([Hin' Hr Hp] & Hs & _).
    split_and!; [|done|intros _]; (split; [done|lex_arith|done]).
  - apply wp_ret. split_and!; [by apply advances_refl|done|done].
Qed.

Lemma lexNumberLoop_spec fuel saw lx :
  isdigit (peek_char lx 0) = true -> remaining lx < fuel ->
  wp E (lexNumberLoop fuel saw) (fun _ lx' => advances 1 lx lx') lx.
Proof.
  revert saw lx. induction fuel as [|fuel IH]; intros saw lx Hd Hf; [lia|]. simpl.
  pose proof (peek_char_true isdigit lx 0 eq_refl Hd) as Hlt.
  apply wp_bind, wp_BC; [lex_arith|]. apply wp_bind, wp_set_state, wp_bind, wp_set_state. simpl.
  apply wp_bind.
  match goal with |- wp _ _ _ ?l => set (lx1 := l) end.
  assert (advances 1 lx lx1) as [Hin1 Hr1 Hp1] by (unfold lx1; lex_adv).
  assert (Hcont : forall saw' lx2, advances 0 lx1 lx2 ->
    wp E (c3 ← _BC; if isdigit c3 then lexNumberLoop fuel saw' else mret tt)
      (fun _ lx' => advances 1 lx lx') lx2).
  { intros saw' lx2 [Hin2 Hr2 Hp2]. apply wp_bind, wp_BC; [done|].
    destruct (isdigit (peek_char lx2 0)) eqn:Ed; [|apply wp_ret; split; [done|lia|congruence]].
    eapply wp_mono; [apply IH; [done|lia]|]. intros _ lx3 [Hin3 Hr3 Hp3].
    split; [done|lia|congruence]. }
  pose proof (Hcont false lx1 (advances_refl _ Hin1)) as Hsame.
  destruct saw; [by apply wp_ret, Hcont, advances_refl|].
  apply wp_bind, wp_BC; [done|].
  destruct (eqc "." (peek_char lx1 0)) eqn:Edot; simpl;
    [|apply wp_ret, Hsame].
  apply wp_bind, wp_get.
  destruct (Nat.ltb_spec (bufp (state lx1) + 1) (length (buf lx1))) as [Hlt1|]; simpl;
    [|apply wp_ret, Hsame].
  apply wp_bind, wp_bc_at; [lia|].
  destruct (isdigit (peek_char lx1 1)); [|apply wp_ret, Hsame].
  apply wp_bind, wp_set_state, wp_bind, wp_set_state, wp_bind, wp_set_state. simpl.
  apply wp_ret, Hcont. unfold lx1 in *. lex_adv.
Qed.

Lemma fillWhileEOB_newline_spec fuel lx :
  in_buffer lx -> remaining lx < fuel ->
  wp E (fillWhileEOB_newline fuel)
    (fun more lx' => (if more : bool then has_char lx' else in_buffer lx') /\ peekDone lx' = peekDone lx /\
       remaining lx' <= remaining lx /\
       (has_char lx -> lx' = lx) /\
       (~ has_char lx -> more = true -> remaining lx' < remaining lx)) lx.
Proof.
  revert lx. induction fuel as [|fuel IH]; intros lx Hin Hf; [lia|]. simpl.
  apply wp_bind, wp_EOB. destruct (Nat.leb_spec (length (buf lx)) (bufp (state lx))) as [He|He]; simpl.
  - apply wp_bind. eapply wp_mono; [apply fillBuffer_spec; [done|lex_arith]|].
    intros [] lx' Hr; simpl.
    + destruct Hr as [[Hin' Hrem Hpk] Hz]. apply wp_bind, wp_set_state.
      eapply wp_mono; [apply IH; lex_arith|].
      simpl. intros more lx'' (Hm & Hp & Hr & _). split; [done|]. split; [simpl in *; congruence|].
      unfold remaining, has_char in *; simpl in *. split_and!; lia.
    + apply wp_ret. subst. unfold has_char in *. split_and!; try done; lia.
  - apply wp_ret. unfold has_char. split_and!; try done; lia.
Qed.
End lexer_specs.

Lemma lexStringChar_spec lx :
  has_char lx -> wp escape_error lexStringChar (fun _ lx' => advances 1 lx lx') lx.
Proof.
  intros Hc. unfold lexStringChar. apply wp_bind, wp_BC; [lex_arith|].
  destruct (eqc _ _).
  - apply wp_bind, wp_set_state. simpl. unfold lexEscapeChar.
    apply wp_bind, wp_EOB. simpl.
    destruct (Nat.leb_spec (length (buf lx)) (bufp (state lx) + 1)) as [He|He]; simpl;
      apply wp_bind.
    { apply wp_fail. by left. }
    apply wp_ret, wp_bind, wp_BC; [lex_arith|]. apply wp_bind.
    destruct (escape_char _) as [c|]; [|apply wp_fail; by right].
    apply wp_set_state. unfold incPtr. apply wp_set_state. simpl. lex_adv.
  - apply wp_bind, wp_set_state. unfold incPtr. apply wp_set_state. simpl. lex_adv.
Qed.

Lemma lexStringLoop_spec fuel lx :
  in_buffer lx -> remaining lx + 1 < fuel ->
  wp escape_error (lexStringLoop fuel)
    (fun closed lx' => advances 0 lx lx' /\ (closed = true -> has_char lx')) lx.
Proof.
  revert lx. induction fuel as [|fuel IH]; intros lx Hin Hf; [lia|]. simpl.
  apply wp_bind, wp_BC; [done|]. destruct (eqc (peek_char lx 0) c_apos) eqn:Eq.
  { apply wp_ret. split; [by apply advances_refl|]. intros _.
    pose proof (peek_char_true (fun c => eqc c c_apos) lx 0 eq_refl Eq). lex_arith. }
  apply wp_bind. eapply wp_mono; [apply fillWhileEOB_newline_spec; [done|lia]|]. simpl.
  intros more lx1 (Hm & Hp1 & Hr1 & Hsame & Hless). destruct more; simpl.
  2: { apply wp_ret. split; [split; [done|lia|done]|done]. }
  apply wp_bind, wp_BC; [lex_arith|]. apply wp_bind.
  assert (Hrec : forall lx2, in_buffer lx2 -> peekDone lx2 = peekDone lx ->
    remaining lx2 < remaining lx ->
    wp escape_error (lexStringLoop fuel)
      (fun closed lx' => advances 0 lx lx' /\ (closed = true -> has_char lx')) lx2).
  { intros lx2 Hin2 Hp2 Hr2. eapply wp_mono; [apply IH; [done|lia]|].
    intros closed lx'' [[Hin'' Hr' Hp'] Hcl]. split; [split; [done|lia|congruence]|done]. }
  destruct (eqc (peek_char lx1 0) c_apos) eqn:Eq1; simpl.
  - apply wp_ret, Hrec; [lex_arith|done|]. apply Hless; [|done]. intros Hc.
    rewrite (Hsame Hc) in Eq1. congruence.
  - eapply wp_mono; [by apply lexStringChar_spec|]. intros _ lx2 [Hin2 Hr2 Hp2].
    apply Hrec; [done|congruence|lia].
Qed.

Lemma lexString_spec fuel lx :
  has_char lx -> remaining lx < fuel ->
  wp escape_error (lexString fuel) (fun _ lx' => advances 1 lx lx') lx.
Proof.
  intros Hc Hf. unfold lexString. do 4 apply wp_bind, wp_set_state. simpl. apply wp_bind.
  eapply wp_mono; [apply lexStringLoop_spec; lex_arith|]. simpl.
  intros [] lx' [[Hin Hr Hp] Hcl].
  - specialize (Hcl eq_refl). unfold incPtr. apply wp_set_state. lex_adv.
  - apply wp_ret. lex_adv.
Qed.

Section lexer_specs2.
Context (E : error -> Prop).

Lemma take_single_spec y lx :
  has_char lx -> wp E (take_single y) (fun _ lx' => advances 1 lx lx') lx.
Proof.
  intros Hc. unfold take_single. apply wp_bind, wp_BC; [lex_arith|].
  do 3 apply wp_bind, wp_set_state. unfold incPtr. apply wp_set_state. simpl. lex_adv.
Qed.

Lemma ISOP_single c : _ISOP c = true -> is_Some (single_op c).
Proof. destruct c as [[][][][][][][][]]; vm_compute; intros [=]; eauto. Qed.

Lemma lexOperator_spec fuel lx :
  _ISOP (peek_char lx 0) = true -> remaining lx < fuel ->
  wp E (lexOperator fuel) (fun _ lx' => advances 1 lx lx') lx.
Proof.
  intros Hop Hf. pose proof (peek_char_true _ISOP lx 0 eq_refl Hop) as Hlt.
  unfold lexOperator. apply wp_bind, wp_bc_at; [lia|]. destruct (_ISOP (peek_char lx 1)).
  - do 3 apply wp_bind, wp_set_state. simpl.
    eapply wp_mono; [apply takeWhile_spec; [done|lex_arith|lex_arith]|].
    simpl. intros _ lx' (_ & _ & H). destruct (H Hop) as [Hin Hr Hp]. lex_adv.
  - apply wp_bind, wp_BC; [lex_arith|]. destruct (ISOP_single _ Hop) as [y ->].
    apply take_single_spec. lex_arith.
Qed.

Lemma lexIdentifier_spec fuel lx :
  isalpha (peek_char lx 0) = true -> remaining lx < fuel ->
  wp E (lexIdentifier fuel) (fun _ lx' => advances 1 lx lx') lx.
Proof.
  intros Ha Hf. pose proof (peek_char_true isalpha lx 0 eq_refl Ha) as Hlt.
  unfold lexIdentifier. do 2 apply wp_bind, wp_set_state. simpl. apply wp_bind.
  eapply wp_mono; [apply takeWhile_spec; [done|lex_arith|lex_arith]|].
  simpl. intros _ lx1 (_ & _ & H).
  assert (advances 1 lx lx1) as [Hin1 Hr1 Hp1].
  { destruct H as [Hin Hr Hp]; [|lex_adv]. unfold isIdentChar, peek_char in *. simpl. by rewrite Ha. }
  apply wp_bind, wp_set_state. simpl. apply wp_bind, wp_BC; [lex_arith|].
  destruct (eqc _ ":") eqn:Ecol; [|apply wp_ret; lex_adv].
  pose proof (peek_char_true (fun c => eqc c ":") _ 0 eq_refl Ecol).
  do 3 apply wp_bind, wp_set_state. simpl. apply wp_bind, wp_BC; [lex_arith|].
  match goal with |- wp _ (if ?b then _ else _) _ _ => destruct b eqn:Ea' end; [|apply wp_ret; lex_adv].
  apply wp_bind, wp_set_state. simpl.
  eapply wp_mono; [apply takeWhile_spec; [done|lex_arith|lex_arith]|].
  simpl. intros _ lx' ([Hin Hr Hp] & _ & _). lex_adv.
Qed.

Lemma lexMinus_spec fuel lx :
  eqc (peek_char lx 0) "-" = true -> remaining lx < fuel ->
  wp E (lexMinus fuel) (fun _ lx' => advances 1 lx lx') lx.
Proof.
  intros Hm Hf. pose proof (peek_char_true (fun c => eqc c "-") lx 0 eq_refl Hm) as Hlt.
  unfold lexMinus, substr. apply wp_bind, wp_gets. case_bool_decide.
  - apply wp_bind, wp_set_state. simpl. apply wp_bind.
    eapply wp_mono; [apply takeWhile_spec; [done|lex_arith|lex_arith]|].
    simpl. intros _ lx1 (_ & _ & H'). unfold set_sym. apply wp_set_state.
    destruct H' as [Hin Hr Hp]; [|lex_adv]. unfold peek_char in *. simpl in *.
    unfold eqc in *. by rewrite Ascii.eqb_sym.
  - apply lexOperator_spec; [|done]. apply Ascii.eqb_eq in Hm. by rewrite Hm.
Qed.

Lemma lexColon_spec lx :
  has_char lx -> wp E lexColon (fun _ lx' => advances 1 lx lx') lx.
Proof.
  intros Hc. unfold lexColon. apply wp_bind, wp_bc_at; [lex_arith|].
  destruct (eqc _ "=") eqn:He.
  - pose proof (peek_char_true (fun c => eqc c "=") lx 1 eq_refl He).
    do 3 apply wp_bind, wp_set_state. unfold set_text. apply wp_set_state. simpl. lex_adv.
  - do 3 apply wp_bind, wp_set_state. unfold set_text. apply wp_set_state. simpl. lex_adv.
Qed.

Lemma nextWord_spec lx :
  in_buffer lx ->
  wp E nextWordInBufferIsPrimitive
    (fun p lx' => lx' = lx /\ (p = true -> bufp (state lx) + length PRIMITIVE <= length (buf lx))) lx.
Proof.
  intros Hin. unfold nextWordInBufferIsPrimitive, substr. apply wp_bind, wp_gets.
  case_bool_decide as Hw; simpl negb; [|by apply wp_ret].
  apply (f_equal length) in Hw. rewrite length_take, length_drop in Hw.
  apply wp_bind, wp_get. destruct (Nat.leb_spec (length (buf lx)) (bufp (state lx) + length PRIMITIVE)).
  - apply wp_ret. split; [done|]. intros _. unfold in_buffer in *. lia.
  - apply wp_bind, wp_bc_at; [lia|]. apply wp_ret. split; [done|]. intros _. lia.
Qed.
End lexer_specs2.

Lemma lexToken_spec fuel lx :
  has_char lx -> remaining lx < fuel ->
  wp escape_error (lexToken fuel)
    (fun _ lx' => advances 1 lx lx' \/ (advances 0 lx lx' /\ sym (state lx') = NONE)) lx.
Proof.
  intros Hc Hf. unfold lexToken.
  assert (Hmono : forall m, wp escape_error m (fun _ : unit => advances 1 lx) lx ->
    wp escape_error m (fun _ lx' => advances 1 lx lx' \/ (advances 0 lx lx' /\ sym (state lx') = NONE)) lx).
  { intros m Hm. eapply wp_mono; [exact Hm|]. by left. }
  apply wp_bind, wp_BC; [lex_arith|].
  destruct (eqc _ c_apos); [by apply Hmono, lexString_spec|].
  repeat (match goal with |- context [take_single _] =>
    match goal with |- wp _ (if eqc _ ":" then _ else _) _ _ => fail 1 | _ => idtac end;
    destruct (eqc (peek_char lx 0) _); [by apply Hmono, take_single_spec|] end).
  destruct (eqc _ ":"); [by apply Hmono, lexColon_spec|].
  repeat (match goal with |- context [take_single _] =>
    destruct (eqc (peek_char lx 0) _); [by apply Hmono, take_single_spec|] end).
  destruct (eqc _ "-") eqn:Em; [by apply Hmono, lexMinus_spec|].
  destruct (_ISOP _) eqn:Eop; [by apply Hmono, lexOperator_spec|].
  apply wp_bind. eapply wp_mono; [apply nextWord_spec; lex_arith|].
  intros p lx' [-> Hp]. destruct p.
  { apply Hmono. specialize (Hp eq_refl). simpl in Hp. do 3 apply wp_bind, wp_set_state.
    unfold set_text. apply wp_set_state. simpl. lex_adv. }
  destruct (isalpha _) eqn:Ea; [by apply Hmono, lexIdentifier_spec|].
  destruct (isdigit _) eqn:Ed.
  { apply Hmono. unfold lexNumber. do 3 apply wp_bind, wp_set_state. simpl.
    eapply wp_mono; [apply lexNumberLoop_spec; [exact Ed|lex_arith]|].
    simpl. intros _ lx' [Hin Hr Hp']. lex_adv. }
  do 2 apply wp_bind, wp_set_state. unfold set_text. apply wp_set_state. simpl.
  right. split; [lex_adv|done].
Qed.

(** What is left of the input, the pending peeked token included: a bound on the
    number of tokens still to come. *)
Definition tokens_left (lx : Lexer) : nat :=
  left_to_read lx +
  (if peekDone lx && negb (bool_decide (sym (stateAfterPeek lx) = NONE)) then 1 else 0).

Definition GetSym_post (lx : Lexer) (y : Symbol) (lx' : Lexer) : Prop :=
  lexer_wf lx' /\ peekDone lx' = false /\ y = sym (state lx') /\
  tokens_left lx' <= tokens_left lx /\
  (y <> NONE -> tokens_left lx' < tokens_left lx).

Lemma wp_GetSym E Q lx : wp E (GetSym_fuel (2 + remaining lx)) Q lx -> wp E GetSym Q lx.
Proof. unfold wp, GetSym. done. Qed.

Lemma GetSym_spec lx : lexer_wf lx -> wp escape_error GetSym (GetSym_post lx) lx.
Proof.
  unfold GetSym_post, lexer_wf, tokens_left, left_to_read, settled. intros Hwf.
  apply wp_GetSym.
  unfold GetSym_fuel. apply wp_bind, wp_get. destruct (peekDone lx) eqn:Epk.
  - apply wp_bind, wp_put, wp_ret. simpl. split_and!; try done; [lia|].
    intros Hne. rewrite bool_decide_false by done. simpl. unfold remaining; simpl. lia.
  - apply wp_bind. eapply wp_mono; [apply skipToToken_spec; [done|lia]|].
    intros [] lx1 [[Hin1 Hr1 Hp1] Hm]; simpl.
    + apply wp_bind, wp_set_state. simpl. apply wp_bind.
      destruct Hm as (Hc & _). eapply wp_mono.
      { apply lexToken_spec; [lex_arith|]. unfold remaining in *; simpl; lia. }
      simpl. intros _ lx2 Hadv. apply wp_gets.
      assert (advances 0 lx1 lx2 /\ (sym (state lx2) <> NONE -> remaining lx2 < remaining lx1)) as [[Hin2 Hr2 Hp2] Hlt].
      { destruct Hadv as [[Hin Hr Hp]|[[Hin Hr Hp] Hs]]; (split; [split; [done|lex_arith|done]|]);
          intros ?; [lex_arith|done]. }
      assert (peekDone lx2 = false) as Hpf by congruence. rewrite Hpf. simpl.
      split_and!; try done; [lia|]. intros Hne. specialize (Hlt Hne). lia.
    + do 3 apply wp_bind, wp_set_state. apply wp_ret. simpl.
      assert (peekDone lx1 = false) as Hpf by congruence. rewrite Hpf. simpl.
      split_and!; try done. unfold remaining in *; simpl in *. lia.
Qed.

Lemma Peek_spec lx :
  lexer_wf lx -> peekDone lx = false ->
  wp escape_error Peek (fun y lx' => lexer_wf lx' /\ peekDone lx' = true /\
    y = sym (stateAfterPeek lx') /\ state lx' = state lx /\ tokens_left lx' <= tokens_left lx) lx.
Proof.
  intros Hwf Hpk. pose proof (GetSym_spec lx Hwf) as H. unfold wp, Peek in *. rewrite Hpk.
  destruct (GetSym lx) as [[y lx']|e]; [|done].
  destruct H as (Hwf' & Hp' & -> & Hle & Hlt). simpl.
  unfold lexer_wf, settled, tokens_left, left_to_read, settled in *.
  rewrite Hp', Hpk in *. simpl in *. split_and!; try done.
  case_bool_decide as Hn; simpl; [|specialize (Hlt Hn)]; unfold remaining in *; simpl in *; lia.
Qed.

Lemma new_lexer_wf file : lexer_wf (new_lexer file).
Proof. unfold lexer_wf, in_buffer. simpl. lia. Qed.

(** All the tokens of a file: what a reader that calls [GetSym] until [NONE] sees. *)
Fixpoint lex_all (fuel : nat) (lx : Lexer) : result (list (Symbol * chars)) :=
  match GetSym lx with
  | Err e => Err e
  | Ok (y, lx') =>
      if bool_decide (y = NONE) then Ok []
      else match fuel with
           | O => Err OutOfFuel
           | S fuel' => rest ← lex_all fuel' lx'; mret ((y, GetText lx') :: rest)
           end
  end.

(** C26: on every file, calling [GetSym] until it returns [NONE] ends after at
    most as many tokens as the file has characters (plus one), and never reads
    outside the line buffer; the only way it can stop is one of the two
    assertions of [lexEscapeChar]. *)
Theorem lexing_terminates_safely (file : chars) :
  match lex_all (2 + length file) (new_lexer file) with
  | Ok tokens => length tokens <= 2 + length file
  | Err e => escape_error e
  end.
Proof.
  assert (Hgen : forall fuel lx, lexer_wf lx -> tokens_left lx <= fuel ->
    match lex_all fuel lx with
    | Ok tokens => length tokens <= fuel
    | Err e => escape_error e
    end).
  { induction fuel as [|fuel IH]; intros lx Hwf Hle; simpl;
      pose proof (GetSym_spec lx Hwf) as H; unfold wp in H;
      destruct (GetSym lx) as [[y lx']|e]; try done;
      destruct H as (Hwf' & _ & _ & _ & Hlt); case_bool_decide as Hn; simpl; try lia;
      specialize (Hlt Hn); [lia|].
    specialize (IH lx' Hwf' ltac:(lia)). destruct (lex_all fuel lx'); simpl; [lia|done]. }
  apply Hgen; [apply new_lexer_wf|].
  unfold tokens_left, left_to_read, remaining, settled, new_lexer. simpl. lia.
Qed.

(** [Peek] is transparent: the token it returns is the one the next [GetSym]
    returns, the current token's text is untouched meanwhile, [GetNextText] is the
    text [GetText] has afterwards, and the lexer ends in the same place as
    without the [Peek]. *)
Theorem Peek_then_GetSym (lx : Lexer) (y : Symbol) (lx1 : Lexer) :
  peekDone lx = false -> Peek lx = Ok (y, lx1) ->
  GetText lx1 = GetText lx /\ GetCurrentLineNumber lx1 = GetCurrentLineNumber lx /\
  Peek lx1 = Err (AssertFailed "Cannot Peek twice!") /\
  exists lx2 lx2', GetSym lx = Ok (y, lx2) /\ GetSym lx1 = Ok (y, lx2') /\
    GetNextText lx1 = GetText lx2 /\
    infile lx2' = infile lx2 /\ state lx2' = state lx2 /\ buf lx2' = buf lx2 /\
    peekDone lx2' = false.
Proof.
  intros Hpk. unfold Peek at 1. rewrite Hpk.
  destruct (GetSym lx) as [[y' lx2]|e] eqn:EG; [|done]. intros [= -> <-].
  split_and!; [done|done|done|]. exists lx2. eexists. split; [done|].
  assert (y = sym (state lx2)) as ->.
  { revert EG. unfold GetSym, GetSym_fuel, mbind, M_bind, get_st. rewrite Hpk.
    destruct (skipToToken _ lx) as [[[] lxa]|]; simpl; [| |done].
    - destruct (lexToken _ _) as [[[] lxb]|]; [|done]. by intros [= <- <-].
    - by intros [= <- <-]. }
  done.
Qed.

Definition sample_lexer : Lexer := new_lexer [chr 97; chr 58; " "; chr 34; "x"; chr 34; "1"; "."; "5"]%char.

Lemma Peek_then_GetSym_witness :
  peekDone sample_lexer = false /\
  (exists lx1, Peek sample_lexer = Ok (Keyword, lx1)) /\
  exists lx1, GetText lx1 = GetText sample_lexer /\ GetNextText lx1 = [chr 97; chr 58].
Proof.
  split; [reflexivity|]. split; [eexists; vm_compute; reflexivity|].
  destruct (Peek sample_lexer) as [[y lx1]|] eqn:E; [|discriminate E].
  exists lx1. destruct (Peek_then_GetSym sample_lexer y lx1 eq_refl E)
    as (Ht & _ & _ & lx2 & lx2' & H2 & _ & Hn & _).
  split; [exact Ht|]. rewrite Hn. clear -H2. vm_compute in H2.
  injection H2 as _ <-. reflexivity.
Defined.
