(* ===== verification/CNumbers.v ===== *)
(** * Numbers as the C library reads them

    The parts of the C library the parser calls: [strtoll] in base 10,
    [strtod], and the conversions between integer widths.  A double is a
    [spec_float] of precision 53 and maximal exponent 1024 (IEEE binary64).
    Parsing functions return the value and the characters not consumed;
    [pEnd == str + length] is that nothing is left. *)
From S2P Require Import Prelude Lexer.
From Stdlib Require Export SpecFloat.
From Stdlib Require Import Ascii.
From Stdlib Require String.

Notation list_ascii_of_string := String.list_ascii_of_string.
Notation string_of_list_ascii := String.string_of_list_ascii.

Definition int32_min : Z := (- 2 ^ 31)%Z.
Definition int32_max : Z := (2 ^ 31 - 1)%Z.
Definition fits_int32 (z : Z) : bool := (int32_min <=? z)%Z && (z <=? int32_max)%Z.

(** Conversion of a wider integer to [int32_t]. *)
Definition to_int32 (z : Z) : Z := ((z + 2 ^ 31) `mod` 2 ^ 32 - 2 ^ 31)%Z.

Lemma to_int32_range z : fits_int32 (to_int32 z) = true.
Proof.
  unfold fits_int32, to_int32, int32_min, int32_max.
  pose proof (Z.mod_pos_bound (z + 2 ^ 31) (2 ^ 32) ltac:(lia)).
  apply andb_true_intro. split; apply Z.leb_le; lia.
Qed.

Lemma to_int32_id z : fits_int32 z = true -> to_int32 z = z.
Proof.
  unfold fits_int32, to_int32, int32_min, int32_max. intros H.
  apply andb_prop in H as [H1 H2]. apply Z.leb_le in H1, H2.
  rewrite Z.mod_small; lia.
Qed.

Definition llong_max : Z := (2 ^ 63 - 1)%Z.
Definition llong_min : Z := (- 2 ^ 63)%Z.

Definition digit_value (c : ascii) : Z := Z.of_nat (code c - 48).

Fixpoint skip_spaces (l : chars) : chars :=
  match l with c :: l' => if isspace c then skip_spaces l' else l | [] => [] end.

(** An optional sign: whether it is a minus, and what follows it. *)
Definition take_sign (l : chars) : bool * chars :=
  match l with
  | c :: l' => if eqc c "-" then (true, l') else if eqc c "+" then (false, l') else (false, l)
  | [] => (false, [])
  end.

(** The longest prefix of digits and the rest. *)
Fixpoint take_digits (l : chars) : chars * chars :=
  match l with
  | c :: l' => if isdigit c then let '(ds, r) := take_digits l' in (c :: ds, r) else ([], l)
  | [] => ([], [])
  end.

Definition digits_value (ds : chars) : Z :=
  fold_left (fun acc c => (acc * 10 + digit_value c)%Z) ds 0%Z.

(** Value, unconsumed characters, and whether [errno] is set to [ERANGE]. *)
Definition strtoll10 (str : chars) : Z * chars * bool :=
  let '(neg, l) := take_sign (skip_spaces str) in
  let '(ds, r) := take_digits l in
  match ds with
  | [] => (0%Z, str, false)
  | _ =>
      let v := if neg : bool then (- digits_value ds)%Z else digits_value ds in
      if (v <? llong_min)%Z then (llong_min, r, true)
      else if (llong_max <? v)%Z then (llong_max, r, true)
      else (v, r, false)
  end.

(** ** [strtod] *)
Notation double := spec_float.
Definition d_prec : Z := 53.
Definition d_emax : Z := 1024.
Definition d_zero : double := S754_zero false.
Definition d_sub : double -> double -> double := SFsub d_prec d_emax.
Definition d_neg (d : double) : double := SFopp d.

(** [m * 10 ^ e], rounded once to nearest even. *)
Definition decimal_double (m : Z) (e : Z) : double :=
  match m with
  | Zpos p =>
      if (0 <=? e)%Z then binary_normalize d_prec d_emax (m * 10 ^ e) 0 false
      else SFdiv d_prec d_emax (S754_finite false p 0) (S754_finite false (Z.to_pos (10 ^ (- e))) 0)
  | _ => d_zero
  end.

Definition tolower (c : ascii) : ascii :=
  if (65 <=? code c) && (code c <=? 90) then chr (code c + 32) else c.

(** [word] at the start of [l], ignoring case. *)
Fixpoint take_word (word l : chars) : option chars :=
  match word, l with
  | [], _ => Some l
  | w :: word', c :: l' => if eqc w (tolower c) then take_word word' l' else None
  | _ :: _, [] => None
  end.

(** The optional exponent part introduced by [mark]: its value and the rest. *)
Definition take_exponent (mark : ascii) (l : chars) : Z * chars :=
  match l with
  | c :: l' =>
      if eqc (tolower c) mark then
        let '(neg, l'') := take_sign l' in
        let '(ds, r) := take_digits l'' in
        match ds with
        | [] => (0%Z, l)
        | _ => (if neg : bool then (- digits_value ds)%Z else digits_value ds, r)
        end
      else (0%Z, l)
  | [] => (0%Z, [])
  end.

(** [.] and what follows it, when there is one. *)
Definition take_point (l : chars) : option chars :=
  match l with c :: l' => if eqc c "." then Some l' else None | [] => None end.

Definition strtod_decimal (l : chars) : option (double * chars) :=
  let '(ds, r) := take_digits l in
  let '(fs, r') := match take_point r with
                   | Some r1 => take_digits r1
                   | None => ([], r)
                   end in
  match ds ++ fs with
  | [] => None
  | _ =>
      let '(e, rest) := take_exponent "e" r' in
      Some (decimal_double (digits_value (ds ++ fs)) (e - Z.of_nat (length fs)), rest)
  end.

Definition hex_digit (c : ascii) : option Z :=
  if isdigit c then Some (digit_value c)
  else let n := code (tolower c) in
       if (97 <=? n) && (n <=? 102) then Some (Z.of_nat (n - 87)) else None.

Fixpoint take_hex (l : chars) : list Z * chars :=
  match l with
  | c :: l' => match hex_digit c with
               | Some d => let '(ds, r) := take_hex l' in (d :: ds, r)
               | None => ([], l)
               end
  | [] => ([], [])
  end.

Definition strtod_hex (l : chars) : option (double * chars) :=
  let '(ds, r) := take_hex l in
  let '(fs, r') := match take_point r with Some r1 => take_hex r1 | None => ([], r) end in
  match ds ++ fs with
  | [] => None
  | _ =>
      let '(e, rest) := take_exponent "p" r' in
      let m := fold_left (fun acc d => (acc * 16 + d)%Z) (ds ++ fs) 0%Z in
      Some (binary_normalize d_prec d_emax m (e - 4 * Z.of_nat (length fs)) false, rest)
  end.

(** The characters allowed between the parentheses of [nan(...)]. *)
Fixpoint take_nan_payload (l : chars) : option chars :=
  match l with
  | c :: l' => if eqc c ")" then Some l'
               else if isalnum c || eqc c "_" then take_nan_payload l' else None
  | [] => None
  end.

Definition strtod_special (l : chars) : option (double * chars) :=
  match take_word (list_ascii_of_string "inf") l with
  | Some r => Some (S754_infinity false, default r (take_word (list_ascii_of_string "inity") r))
  | None =>
      match take_word (list_ascii_of_string "nan") l with
      | Some r =>
          let r' := match r with
                    | c :: r1 => if eqc c "(" then default r (take_nan_payload r1) else r
                    | [] => []
                    end in
          Some (S754_nan, r')
      | None => None
      end
  end.

Definition strtod_unsigned (l : chars) : option (double * chars) :=
  match strtod_special l with
  | Some v => Some v
  | None =>
      match (match take_word ["0"; "x"]%char l with Some r => strtod_hex r | None => None end) with
      | Some v => Some v
      | None => strtod_decimal l
      end
  end.

Definition strtod (str : chars) : double * chars :=
  let '(neg, l) := take_sign (skip_spaces str) in
  match strtod_unsigned l with
  | Some (d, r) => (if neg : bool then d_neg d else d, r)
  | None => (d_zero, str)
  end.

(** 1.5, 0.1 and overflow, as [strtod] gives them. *)
Example strtod_examples :
  strtod (list_ascii_of_string "1.5") = (S754_finite false 6755399441055744 (-52), []) /\
  strtod (list_ascii_of_string "0.1") = (S754_finite false 7205759403792794 (-56), []) /\
  strtod (list_ascii_of_string "-2.5e3x") = (S754_finite true 5497558138880000 (-41), ["x"%char]) /\
  strtod (list_ascii_of_string "0x1.8p1") = (S754_finite false 6755399441055744 (-51), []) /\
  strtod (list_ascii_of_string "inf)") = (S754_infinity false, [")"%char]) /\
  strtod (list_ascii_of_string "abc") = (d_zero, list_ascii_of_string "abc") /\
  fst (strtod (list_ascii_of_string "1e400")) = S754_infinity false.
Proof. vm_compute. repeat split. Qed.

Lemma take_digits_all ds r :
  forallb isdigit ds = true ->
  match r with c :: _ => isdigit c = false | [] => True end ->
  take_digits (ds ++ r) = (ds, r).
Proof.
  induction ds as [|c ds IH]; simpl; intros Hds Hr.
  - destruct r as [|c r]; [done|]. simpl. by rewrite Hr.
  - apply andb_prop in Hds as [Hc Hds]. by rewrite Hc, IH.
Qed.

(** The value of a string of decimal digits is at least zero. *)
Lemma digits_value_nonneg ds : (0 <= digits_value ds)%Z.
Proof.
  assert (H : forall acc, (0 <= acc)%Z ->
    (0 <= fold_left (fun acc c => (acc * 10 + digit_value c)%Z) ds acc)%Z).
  { induction ds as [|c ds IH]; simpl; intros acc Hacc; [done|].
    apply IH. unfold digit_value. lia. }
  by apply H.
Qed.
