(* ===== verification/Ast.v ===== *)
(** * Abstract syntax

    Models [runtime/som_ast.h]: the nodes the parser builds and the compiler
    consumes.  A node is a value; the kind tag and the downcasts ([As]) are the
    inductive type and its matches.  A string or symbol is its ordinal in the
    interner ([m_globalOrd]); a double is an IEEE binary64 value. *)
From S2P Require Import Prelude CNumbers.

Inductive AstExpr : Type :=
  | AstArray (m_elements : list AstExpr)
  | AstString (m_globalOrd : nat)
  | AstSymbol (m_globalOrd : nat)
  | AstInteger (m_value : Z)
  | AstDouble (m_value : double)
  | AstVariableUse (m_name : string)
  | AstNestedBlock (m_params m_locals : list string) (m_body : list AstExpr)
  | AstAssignation (m_lhs : list string) (m_rhs : AstExpr)
  | AstReturn (m_retVal : AstExpr)
  | AstUnaryCall (m_selector : nat) (m_receiver : AstExpr)
  | AstBinaryCall (m_selector : nat) (m_receiver m_argument : AstExpr)
  | AstKeywordCall (m_selector : nat) (m_receiver : AstExpr) (m_arguments : list AstExpr).

Definition IsNonArrayLiteral (e : AstExpr) : bool :=
  match e with AstString _ | AstSymbol _ | AstInteger _ | AstDouble _ => true | _ => false end.

Definition IsLiteral (e : AstExpr) : bool :=
  match e with AstArray _ => true | _ => IsNonArrayLiteral e end.

Definition IsCall (e : AstExpr) : bool :=
  match e with AstUnaryCall _ _ | AstBinaryCall _ _ _ | AstKeywordCall _ _ _ => true | _ => false end.

Definition IsPrimary (e : AstExpr) : bool :=
  IsLiteral e || match e with AstVariableUse _ | AstNestedBlock _ _ _ => true | _ => false end.

Inductive AstMethodKind : Type := MK_Unary | MK_Binary | MK_Keyword | MK_Unknown.

#[export] Instance AstMethodKind_eq_dec : EqDecision AstMethodKind.
Proof. solve_decision. Defined.

Record AstMethod : Type := mk_ast_method {
  m_kind : AstMethodKind;
  m_isPrimitive : bool;
  m_selectorName : nat;
  am_params : list string;
  am_locals : list string;
  am_body : list AstExpr
}.

(** [C] is the type of compiled classes the superclass link points to; [None] is [nullptr]. *)
Record AstClass (C : Type) : Type := mk_ast_class {
  ac_name : nat;
  ac_superClass : option C;
  m_instanceFields : list string;
  m_classFields : list string;
  m_instanceMethods : list AstMethod;
  m_classMethods : list AstMethod
}.
Arguments mk_ast_class {C}.
Arguments ac_name {C}.
Arguments ac_superClass {C}.
Arguments m_instanceFields {C}.
Arguments m_classFields {C}.
Arguments m_instanceMethods {C}.
Arguments m_classMethods {C}.

(** ** Structural induction through the lists of children *)
Section induction.
Context (P : AstExpr -> Prop).
Context (HArray : forall es, Forall P es -> P (AstArray es)).
Context (HString : forall o, P (AstString o)).
Context (HSymbol : forall o, P (AstSymbol o)).
Context (HInteger : forall z, P (AstInteger z)).
Context (HDouble : forall d, P (AstDouble d)).
Context (HVar : forall x, P (AstVariableUse x)).
Context (HBlock : forall ps ls body, Forall P body -> P (AstNestedBlock ps ls body)).
Context (HAssign : forall xs e, P e -> P (AstAssignation xs e)).
Context (HReturn : forall e, P e -> P (AstReturn e)).
Context (HUnary : forall s e, P e -> P (AstUnaryCall s e)).
Context (HBinary : forall s e1 e2, P e1 -> P e2 -> P (AstBinaryCall s e1 e2)).
Context (HKeyword : forall s e es, P e -> Forall P es -> P (AstKeywordCall s e es)).

Fixpoint AstExpr_nested_ind (e : AstExpr) : P e :=
  let all := fix all es : Forall P es :=
    match es with
    | [] => List.Forall_nil P
    | e :: es' => List.Forall_cons _ e es' (AstExpr_nested_ind e) (all es')
    end in
  match e with
  | AstArray es => HArray es (all es)
  | AstString o => HString o
  | AstSymbol o => HSymbol o
  | AstInteger z => HInteger z
  | AstDouble d => HDouble d
  | AstVariableUse x => HVar x
  | AstNestedBlock ps ls body => HBlock ps ls body (all body)
  | AstAssignation xs e => HAssign xs e (AstExpr_nested_ind e)
  | AstReturn e => HReturn e (AstExpr_nested_ind e)
  | AstUnaryCall s e => HUnary s e (AstExpr_nested_ind e)
  | AstBinaryCall s e1 e2 => HBinary s e1 e2 (AstExpr_nested_ind e1) (AstExpr_nested_ind e2)
  | AstKeywordCall s e es => HKeyword s e es (AstExpr_nested_ind e) (all es)
  end.
End induction.

(** Number of nodes: the measure of the passes over the tree. *)
Fixpoint ast_size (e : AstExpr) : nat :=
  let sum := fix sum es := match es with [] => 0 | e :: es' => ast_size e + sum es' end in
  match e with
  | AstArray es => S (sum es)
  | AstString _ | AstSymbol _ | AstInteger _ | AstDouble _ | AstVariableUse _ => 1
  | AstNestedBlock _ _ body => S (sum body)
  | AstAssignation _ e => S (ast_size e)
  | AstReturn e => S (ast_size e)
  | AstUnaryCall _ e => S (ast_size e)
  | AstBinaryCall _ e1 e2 => S (ast_size e1 + ast_size e2)
  | AstKeywordCall _ e es => S (ast_size e + sum es)
  end.

Fixpoint ast_list_size (es : list AstExpr) : nat :=
  match es with [] => 0 | e :: es' => ast_size e + ast_list_size es' end.

Lemma ast_size_pos e : 0 < ast_size e.
Proof. destruct e; simpl; lia. Qed.

(** A literal contains only literals: what [ParseLiteral] and the constant
    builder of the compiler agree on. *)
Fixpoint literal_tree (e : AstExpr) : bool :=
  match e with
  | AstArray es => (fix all es := match es with [] => true | e :: es' => literal_tree e && all es' end) es
  | AstString _ | AstSymbol _ | AstInteger _ | AstDouble _ => true
  | _ => false
  end.
