(* ===== verification/AstWf.v ===== *)
(** * Well-formed syntax trees

    What the compiler relies on in a tree: every selector is an interned name
    with as many arguments as the call has, a [^] stands only in front of a
    statement of a method or block body, and a literal array holds literals. *)
From S2P Require Import Prelude Interner VmSelectors Lexer CNumbers Ast.
From Stdlib Require Import Ascii.

Fixpoint colons (s : string) : nat :=
  match s with
  | String.EmptyString => 0
  | String.String c s' => (if eqc c ":"%char then 1 else 0) + colons s'
  end.

(** A keyword selector takes an argument per colon, an identifier none, an operator one. *)
Definition selector_arity (name : string) : nat :=
  match name with
  | String.String c _ => if isalpha c then colons name else 1
  | String.EmptyString => 0
  end.

Section wf.
Context (it : StringInterner).

Definition call_ok (sel n : nat) : bool :=
  match Get sel it with Ok name => selector_arity name =? n | Err _ => false end.

Fixpoint wf_expr (e : AstExpr) : bool :=
  match e with
  | AstArray _ => literal_tree e
  | AstString _ | AstSymbol _ | AstInteger _ | AstDouble _ | AstVariableUse _ => true
  | AstNestedBlock _ _ body =>
      (fix all (es : list AstExpr) : bool :=
         match es with
         | [] => true
         | AstReturn e :: es' => wf_expr e && all es'
         | e :: es' => wf_expr e && all es'
         end) body
  | AstAssignation _ rhs => wf_expr rhs
  | AstReturn _ => false
  | AstUnaryCall sel receiver => call_ok sel 0 && wf_expr receiver
  | AstBinaryCall sel receiver arg => call_ok sel 1 && wf_expr receiver && wf_expr arg
  | AstKeywordCall sel receiver args =>
      call_ok sel (length args) && wf_expr receiver &&
      (fix all (es : list AstExpr) : bool :=
         match es with [] => true | e :: es' => wf_expr e && all es' end) args
  end.

Definition wf_stmt (e : AstExpr) : bool :=
  match e with AstReturn e' => wf_expr e' | _ => wf_expr e end.

Definition wf_body (body : list AstExpr) : bool := forallb wf_stmt body.
Definition wf_method (m : AstMethod) : bool := wf_body (am_body m).

Lemma wf_block ps ls body : wf_expr (AstNestedBlock ps ls body) = wf_body body.
Proof. simpl. induction body as [|e body IH]; [done|]. simpl. rewrite <-IH. by destruct e. Qed.

Lemma wf_keyword sel r args :
  wf_expr (AstKeywordCall sel r args) = call_ok sel (length args) && wf_expr r && forallb wf_expr args.
Proof. reflexivity. Qed.

(** ** The arities of the selectors the compiler treats specially *)
Lemma call_ok_arity sel n name : Get sel it = Ok name -> call_ok sel n = true -> n = selector_arity name.
Proof. unfold call_ok. intros -> H%Nat.eqb_eq. done. Qed.

Context (HashString : string -> Z) (vm : VMStrings) (Hvm : vm_started HashString vm it).

Lemma call_ok_startup sel n i name :
  call_ok sel n = true -> sel = i -> startup_strings !! i = Some name -> n = selector_arity name.
Proof using Hvm.
  intros Hok -> Hn. destruct (vm_started_strings _ _ _ Hvm) as [_ Hs].
  eapply call_ok_arity; [|exact Hok]. eapply Get_lookup. exact (Hs i name Hn).
Qed.
End wf.
