(* ===== verification/Parser.v ===== *)
(** * The parser

    Models [runtime/som_parser.h].  The parser reads tokens through an
    interface ([TokenSource]: [GetSym], [Peek], [GetText] ...) that the lexer
    of [Lexer.v] implements, and interns strings in a world [W] it shares with
    the VM.  [while] loops and the recursion over nested expressions take fuel;
    [parse_total] shows how much is enough.

    Arena allocation has no counterpart: a node is built when its fields are
    known.  [m_currentBlock] and [AstNestedBlock::m_parent] are written but
    never read anywhere in the program, and are left out, as are the warnings
    printed to stderr. *)
From S2P Require Import Prelude Lexer CNumbers Ast.
From stdpp Require Import pretty.
From Stdlib Require Import Ascii.
From Stdlib Require String.

(** ** Interfaces *)
Class TokenSource (L : Type) := {
  ts_GetSym : M L Symbol;
  ts_Peek : M L Symbol;
  ts_GetText : L -> string;
  ts_GetPeekDone : L -> bool;
  ts_GetCurrentLineNumber : L -> nat;
  ts_GetCurrentColumn : L -> Z
}.

#[export] Instance lexer_source : TokenSource Lexer := {
  ts_GetSym := GetSym;
  ts_Peek := Lexer.Peek;
  ts_GetText lx := string_of_list_ascii (GetText lx);
  ts_GetPeekDone := peekDone;
  ts_GetCurrentLineNumber := GetCurrentLineNumber;
  ts_GetCurrentColumn := GetCurrentColumn
}.

(** What the parser needs of the VM: the interner. *)
Class ParserWorld (W : Type) := {
  w_InternString : string -> W -> nat * W;
  w_Get : nat -> W -> result string
}.

(** ** Symbol tables *)
Definition singleOpSyms : list Symbol :=
  [Not; And; Or; Star; Div; Mod; Plus; Equal; More; Less; Comma; At; Per; Minus; NONE].
Definition binaryOpSyms : list Symbol :=
  [Or; Comma; Minus; Equal; Not; And; Or; Star; Div; Mod; Plus; Equal; More; Less; Comma; At; Per; NONE].
Definition keywordSelectorSyms : list Symbol := [Keyword; KeywordSequence; NONE].
Definition identOrPrimitiveSyms : list Symbol := [Identifier; Primitive; NONE].

(** The enumerator's value, [static_cast<int>(sym)]. *)
Definition symbol_index (y : Symbol) : nat :=
  match y with
  | NONE => 0 | Integer => 1 | Double => 2 | Not => 3 | And => 4 | Or => 5 | Star => 6 | Div => 7
  | Mod => 8 | Plus => 9 | Minus => 10 | Equal => 11 | More => 12 | Less => 13 | Comma => 14
  | At => 15 | Per => 16 | NewBlock => 17 | EndBlock => 18 | Colon => 19 | Period => 20
  | Exit => 21 | Assign => 22 | NewTerm => 23 | EndTerm => 24 | Pound => 25 | Primitive => 26
  | Separator => 27 | STString => 28 | Identifier => 29 | Keyword => 30 | KeywordSequence => 31
  | OperatorSequence => 32
  end.

Definition symnames : list string :=
  ["NONE"; "Integer"; "Not"; "And"; "Or"; "Star"; "Div"; "Mod"; "Plus"; "Minus"; "Equal"; "More";
   "Less"; "Comma"; "At"; "Per"; "NewBlock"; "EndBlock"; "Colon"; "Period"; "Exit"; "Assign";
   "NewTerm"; "EndTerm"; "Pound"; "Primitive"; "Separator"; "STString"; "Identifier"; "Keyword";
   "KeywordSequence"; "OperatorSequence"]%string.

(** [symnames[y]]: the array has one name fewer than there are symbols. *)
Definition symname (y : Symbol) : result string :=
  match symnames !! symbol_index y with
  | Some s => Ok s
  | None => Err (UndefinedBehaviour "symnames[sym]")
  end.

(** [str.replace(str.find(pattern), strlen(pattern), replacement)], when found. *)
Definition ReplacePattern (str pattern replacement : string) : string :=
  match String.index 0 pattern str with
  | None => str
  | Some pos =>
      String.substring 0 pos str +:+ replacement +:+
      String.substring (pos + String.length pattern)
        (String.length str - (pos + String.length pattern)) str
  end.

(** The scan of a [NONE]-terminated array. *)
Fixpoint in_symbols (ss : list Symbol) (y : Symbol) : bool :=
  match ss with
  | [] => false
  | s :: ss' =>
      if bool_decide (s = NONE) then false
      else if bool_decide (s = y) then true else in_symbols ss' y
  end.

(** ** The parser object *)
Record Parser (L W : Type) : Type := mk_parser {
  m_lexer : L;
  m_world : W;
  m_curSym : Symbol;
  m_curText : string;
  m_nextSym : Symbol
}.
Arguments mk_parser {L W}.
Arguments m_lexer {L W}.
Arguments m_world {L W}.
Arguments m_curSym {L W}.
Arguments m_curText {L W}.
Arguments m_nextSym {L W}.

Section parser.
Context {L W : Type} `{!TokenSource L} `{!ParserWorld W} (m_fileName : string).
Notation P := (Parser L W).

Definition the_curSym : M P Symbol := gets m_curSym.
Definition the_curText : M P string := gets m_curText.
Definition cur_is (y : Symbol) : M P bool := gets (fun p => bool_decide (m_curSym p = y)).

Definition InternString_p (s : string) : M P nat := fun p =>
  let '(ord, w) := w_InternString s (m_world p) in
  Ok (ord, mk_parser (m_lexer p) w (m_curSym p) (m_curText p) (m_nextSym p)).

(** Proceed to the next symbol. *)
Definition Eat : M P unit := fun p =>
  match ts_GetSym (m_lexer p) with
  | Ok (y, lx) => Ok (tt, mk_parser lx (m_world p) y (ts_GetText lx) (m_nextSym p))
  | Err e => Err e
  end.

Definition Peek : M P Symbol := fun p =>
  if negb (ts_GetPeekDone (m_lexer p)) then
    match ts_Peek (m_lexer p) with
    | Ok (y, lx) => Ok (y, mk_parser lx (m_world p) (m_curSym p) (m_curText p) y)
    | Err e => Err e
    end
  else Ok (m_nextSym p, p).

(** The message [ParseError] prints before it aborts. *)
Definition ParseError_message (p : P) (msg expected : string) : result string :=
  let msgWithMeta := ("%(file)s:%(line)d:%(column)d: error: " +:+ msg)%string in
  name ← symname (m_curSym p);
  let found :=
    if bool_decide (m_curSym p = Integer) || (symbol_index STString <=? symbol_index (m_curSym p))
    then (name +:+ " (" +:+ m_curText p +:+ ")")%string else name in
  let m1 := ReplacePattern msgWithMeta "%(file)s" m_fileName in
  let m2 := ReplacePattern m1 "%(line)d" (pretty (ts_GetCurrentLineNumber (m_lexer p))) in
  let m3 := ReplacePattern m2 "%(column)d" (pretty (ts_GetCurrentColumn (m_lexer p))) in
  let m4 := ReplacePattern m3 "%(expected)s" expected in
  Ok (ReplacePattern m4 "%(found)s" found).

Definition ParseError {A} (msg expected : string) : M P A := fun p =>
  match ParseError_message p msg expected with
  | Ok s => Err (Aborted s)
  | Err e => Err e
  end.

Definition ParseError_sym {A} (msg : string) (expected : Symbol) : M P A :=
  expectedStr ← lift_result (symname expected);
  ParseError msg expectedStr.

Definition Accept (y : Symbol) : M P bool :=
  b ← cur_is y;
  if (b : bool) then Eat ;; mret true else mret false.

Definition IsOneOf (ss : list Symbol) : M P bool := gets (fun p => in_symbols ss (m_curSym p)).

Definition AcceptOneOf (ss : list Symbol) : M P bool :=
  b ← IsOneOf ss;
  if (b : bool) then Eat ;; mret true else mret false.

Definition Expect (y : Symbol) : M P unit :=
  b ← Accept y;
  if (b : bool) then mret tt
  else ParseError_sym "Unexpected symbol. Expected %(expected)s, but found %(found)s
" y.

Fixpoint join_symnames (first : bool) (ss : list Symbol) : result string :=
  match ss with
  | [] => Ok ""%string
  | s :: ss' =>
      if bool_decide (s = NONE) then Ok ""%string
      else
        name ← symname s;
        rest ← join_symnames false ss';
        Ok ((if first then "" else ", ") +:+ name +:+ rest)%string
  end.

Definition ExpectOneOf (ss : list Symbol) : M P unit :=
  b ← AcceptOneOf ss;
  if (b : bool) then mret tt
  else
    expectedStr ← lift_result (join_symnames true ss);
    ParseError "Unexpected symbol. Expected one of %(expected)s, but found %(found)s
" expectedStr.

(** ** Literals *)

(** [ParseInteger(str, 10, shouldNegate)]: the value of the node. *)
Definition integer_of_text (str : string) (shouldNegate : bool) : result Z :=
  let '(i, pEnd, rangeError) := strtoll10 (list_ascii_of_string str) in
  match pEnd with
  | _ :: _ => Err (AssertFailed "invalid integer representation in source code: should not reach here")
  | [] =>
      let i := if rangeError : bool then 0%Z else i in
      let i := if shouldNegate then (- i)%Z else i in
      Ok (to_int32 i)
  end.

Definition ParseInteger (shouldNegate : bool) : M P AstExpr :=
  str ← the_curText;
  v ← lift_result (integer_of_text str shouldNegate);
  Expect Integer ;;
  mret (AstInteger v).

Definition ParseDouble (shouldNegate : bool) : M P AstExpr :=
  str ← the_curText;
  let '(d, pEnd) := strtod (list_ascii_of_string str) in
  check (bool_decide (pEnd = [])) (AssertFailed "pEnd == m_curText.data() + m_curText.length()") ;;
  let d := if shouldNegate then d_sub d_zero d else d in
  Expect Double ;;
  mret (AstDouble d).

Definition ParseNumber_sign (shouldNegate : bool) : M P AstExpr :=
  b ← cur_is Integer;
  if (b : bool) then ParseInteger shouldNegate else ParseDouble shouldNegate.

Definition ParseNumber : M P AstExpr :=
  b ← cur_is Minus;
  if (b : bool) then Eat ;; ParseNumber_sign true else ParseNumber_sign false.

Definition ParseString : M P AstExpr :=
  str ← the_curText;
  ord ← InternString_p str;
  Expect STString ;;
  mret (AstString ord).

Definition ParseUnarySelector : M P nat :=
  str ← the_curText;
  ord ← InternString_p str;
  ExpectOneOf identOrPrimitiveSyms ;;
  mret ord.

Definition ParseBinarySelector : M P nat :=
  str ← the_curText;
  ord ← InternString_p str;
  a ← AcceptOneOf singleOpSyms;
  b ← (if (a : bool) then mret true else Accept OperatorSequence);
  (if (b : bool) then mret tt else Expect NONE) ;;
  mret ord.

Definition ParseKeywordSelector : M P nat :=
  str ← the_curText;
  ord ← InternString_p str;
  ExpectOneOf keywordSelectorSyms ;;
  mret ord.

(** [m_curSym == OperatorSequence || IsOneOf(ss)] *)
Definition cur_operator (ss : list Symbol) : M P bool :=
  a ← cur_is OperatorSequence;
  if (a : bool) then mret true else IsOneOf ss.

Definition ParseSelector : M P nat :=
  a ← cur_operator singleOpSyms;
  if (a : bool) then ParseBinarySelector
  else
    b ← IsOneOf keywordSelectorSyms;
    if (b : bool) then ParseKeywordSelector else ParseUnarySelector.

Definition ParseSymbol : M P AstExpr :=
  Expect Pound ;;
  b ← cur_is STString;
  if (b : bool) then
    str ← the_curText;
    ord ← InternString_p str;
    Expect STString ;;
    mret (AstSymbol ord)
  else
    ord ← ParseSelector;
    mret (AstSymbol ord).

(** The elements up to the closing parenthesis; [lit] is [ParseLiteral]. *)
Fixpoint ParseArrayElements (lit : M P AstExpr) (fuel : nat) : M P (list AstExpr) :=
  b ← cur_is EndTerm;
  if (b : bool) then mret []
  else match fuel with
       | O => fail OutOfFuel
       | S fuel' => e ← lit; es ← ParseArrayElements lit fuel'; mret (e :: es)
       end.

Definition ParseArray (lit : M P AstExpr) (fuel : nat) : M P AstExpr :=
  Expect Pound ;;
  Expect NewTerm ;;
  es ← ParseArrayElements lit fuel;
  Expect EndTerm ;;
  mret (AstArray es).

Fixpoint ParseLiteral (fuel : nat) : M P AstExpr :=
  match fuel with
  | O => fail OutOfFuel
  | S fuel' =>
      b ← cur_is Pound;
      if (b : bool) then
        y ← Peek;
        if bool_decide (y = NewTerm) then ParseArray (ParseLiteral fuel') fuel' else ParseSymbol
      else
        s ← cur_is STString;
        if (s : bool) then ParseString else ParseNumber
  end.

(** ** Variables, parameters and locals *)
Definition ParseVariable : M P string :=
  res ← the_curText;
  ExpectOneOf identOrPrimitiveSyms ;;
  mret res.

(** The [do ... while] of [ParseParameters]; [args] are the names seen so far. *)
Fixpoint ParseParametersLoop (args : list string) (fuel : nat) : M P (list string) :=
  match fuel with
  | O => fail OutOfFuel
  | S fuel' =>
      Expect Colon ;;
      argName ← ParseVariable;
      (if bool_decide (argName ∈ args) then ParseError "Duplicate arguments!" "" else mret tt) ;;
      again ← cur_is Colon;
      if (again : bool) then
        rest ← ParseParametersLoop (argName :: args) fuel'; mret (argName :: rest)
      else mret [argName]
  end.
Definition ParseParameters (fuel : nat) : M P (list string) := ParseParametersLoop [] fuel.

Fixpoint ParseLocalsLoop (args : list string) (fuel : nat) : M P (list string) :=
  b ← IsOneOf identOrPrimitiveSyms;
  if negb b then mret []
  else match fuel with
       | O => fail OutOfFuel
       | S fuel' =>
           argName ← ParseVariable;
           (if bool_decide (argName ∈ args) then ParseError "Duplicate locals!" "" else mret tt) ;;
           rest ← ParseLocalsLoop (argName :: args) fuel';
           mret (argName :: rest)
       end.

Definition ParseLocals (fuel : nat) : M P (list string) :=
  b ← Accept Or;
  if (b : bool) then
    res ← ParseLocalsLoop [] fuel;
    Expect Or ;;
    mret res
  else mret [].

(** ** Expressions

    [expr] is [ParseExpr] for the nested occurrences. *)
Section expressions.
Context (expr : M P AstExpr) (fuel : nat).

Definition ParseNestedTerm : M P AstExpr :=
  Expect NewTerm ;;
  res ← expr;
  Expect EndTerm ;;
  mret res.

Fixpoint ParseBlockExprs (n : nat) : M P (list AstExpr) :=
  y ← the_curSym;
  if bool_decide (y = EndTerm) || bool_decide (y = EndBlock) then mret []
  else
    r ← Accept Exit;
    if (r : bool) then
      retVal ← expr;
      _ ← Accept Period;
      mret [AstReturn retVal]
    else
      e ← expr;
      p ← Accept Period;
      if negb p then mret [e]
      else match n with
           | O => fail OutOfFuel
           | S n' => rest ← ParseBlockExprs n'; mret (e :: rest)
           end.

Definition ParseNestedBlock : M P AstExpr :=
  Expect NewBlock ;;
  c ← cur_is Colon;
  params ← (if (c : bool) then ps ← ParseParameters fuel; Expect Or ;; mret ps else mret []);
  locals ← ParseLocals fuel;
  body ← ParseBlockExprs fuel;
  Expect EndBlock ;;
  mret (AstNestedBlock params locals body).

Definition ParsePrimary : M P AstExpr :=
  v ← IsOneOf identOrPrimitiveSyms;
  if (v : bool) then name ← ParseVariable; mret (AstVariableUse name)
  else
    t ← cur_is NewTerm;
    if (t : bool) then ParseNestedTerm
    else
      b ← cur_is NewBlock;
      if (b : bool) then ParseNestedBlock else ParseLiteral fuel.

Definition ParseUnaryMessage (primary : AstExpr) : M P AstExpr :=
  method ← ParseUnarySelector;
  mret (AstUnaryCall method primary).

(** [while (IsOneOf(identOrPrimitiveSyms)) op = ParseUnaryMessage(op);] *)
Fixpoint unaryMessages (n : nat) (op : AstExpr) : M P AstExpr :=
  b ← IsOneOf identOrPrimitiveSyms;
  if negb b then mret op
  else match n with
       | O => fail OutOfFuel
       | S n' => op' ← ParseUnaryMessage op; unaryMessages n' op'
       end.

Definition ParseBinaryOperand : M P AstExpr :=
  op ← ParsePrimary;
  unaryMessages fuel op.

Definition ParseBinaryMessage (primary : AstExpr) : M P AstExpr :=
  method ← ParseBinarySelector;
  op ← ParseBinaryOperand;
  mret (AstBinaryCall method primary op).

(** [while (m_curSym == OperatorSequence || IsOneOf(binaryOpSyms)) op = ParseBinaryMessage(op);] *)
Fixpoint binaryMessages (n : nat) (op : AstExpr) : M P AstExpr :=
  b ← cur_operator binaryOpSyms;
  if negb b then mret op
  else match n with
       | O => fail OutOfFuel
       | S n' => op' ← ParseBinaryMessage op; binaryMessages n' op'
       end.

Definition ParseKeyword : M P string :=
  s ← the_curText;
  Expect Keyword ;;
  mret s.

Definition ParseKeywordMessageOperand : M P AstExpr :=
  op ← ParseBinaryOperand;
  binaryMessages fuel op.

(** [while (m_curSym == Keyword)] of [ParseKeywordMessage] *)
Fixpoint keywordArguments (n : nat) (kw : string) : M P (string * list AstExpr) :=
  b ← cur_is Keyword;
  if negb b then mret (kw, [])
  else match n with
       | O => fail OutOfFuel
       | S n' =>
           k ← ParseKeyword;
           e ← ParseKeywordMessageOperand;
           r ← keywordArguments n' (kw +:+ k)%string;
           mret (r.1, e :: r.2)
       end.

Definition ParseKeywordMessage (primary : AstExpr) : M P AstExpr :=
  kw ← ParseKeyword;
  e ← ParseKeywordMessageOperand;
  r ← keywordArguments fuel kw;
  selector ← InternString_p r.1;
  mret (AstKeywordCall selector primary (e :: r.2)).

Definition ParseEvaluation : M P AstExpr :=
  primary ← ParsePrimary;
  primary ← unaryMessages fuel primary;
  primary ← binaryMessages fuel primary;
  k ← cur_is Keyword;
  if (k : bool) then ParseKeywordMessage primary else mret primary.

Definition ParseOneAssignment : M P string :=
  res ← ParseVariable;
  Expect Assign ;;
  mret res.

Fixpoint ParseAssignments (n : nat) : M P (list string) :=
  b ← IsOneOf identOrPrimitiveSyms;
  if negb b then mret []
  else match n with
       | O => fail OutOfFuel
       | S n' =>
           x ← ParseOneAssignment;
           y ← Peek;
           if bool_decide (y = Assign) then xs ← ParseAssignments n'; mret (x :: xs)
           else mret [x]
       end.

Definition ParseAssignation : M P AstExpr :=
  lhs ← ParseAssignments fuel;
  rhs ← ParseEvaluation;
  mret (AstAssignation lhs rhs).

Definition ParseExpr_body : M P AstExpr :=
  y ← Peek;
  if bool_decide (y = Assign) then ParseAssignation else ParseEvaluation.
End expressions.

Fixpoint ParseExpr (fuel : nat) : M P AstExpr :=
  match fuel with
  | O => fail OutOfFuel
  | S fuel' => ParseExpr_body (ParseExpr fuel') fuel
  end.

(** ** Methods and classes *)
Definition ParseUnaryMethodPattern : M P (AstMethodKind * nat * list string) :=
  s ← ParseUnarySelector;
  mret (MK_Unary, s, []).

Definition ParseBinaryMethodPattern : M P (AstMethodKind * nat * list string) :=
  s ← ParseBinarySelector;
  v ← ParseVariable;
  mret (MK_Binary, s, [v]).

Fixpoint keywordParameters (fuel : nat) (kw : string) : M P (string * list string) :=
  match fuel with
  | O => fail OutOfFuel
  | S fuel' =>
      k ← ParseKeyword;
      v ← ParseVariable;
      again ← cur_is Keyword;
      if (again : bool) then
        r ← keywordParameters fuel' (kw +:+ k)%string; mret (r.1, v :: r.2)
      else mret ((kw +:+ k)%string, [v])
  end.

Definition ParseKeywordMethodPattern (fuel : nat) : M P (AstMethodKind * nat * list string) :=
  r ← keywordParameters fuel "";
  s ← InternString_p r.1;
  mret (MK_Keyword, s, r.2).

Definition ParseMethodPattern (fuel : nat) : M P (AstMethodKind * nat * list string) :=
  b ← IsOneOf identOrPrimitiveSyms;
  if (b : bool) then ParseUnaryMethodPattern
  else
    k ← cur_is Keyword;
    if (k : bool) then ParseKeywordMethodPattern fuel else ParseBinaryMethodPattern.

Definition ParseMethod (fuel : nat) : M P AstMethod :=
  pat ← ParseMethodPattern fuel;
  let '(kind, selectorName, params) := pat in
  Expect Equal ;;
  prim ← Accept Primitive;
  if (prim : bool) then mret (mk_ast_method kind true selectorName params [] [])
  else
    Expect NewTerm ;;
    locals ← ParseLocals fuel;
    body ← ParseBlockExprs (ParseExpr fuel) fuel;
    Expect EndTerm ;;
    mret (mk_ast_method kind false selectorName params locals body).

(** The loop condition of [ParseMethods]. *)
Definition startsMethod : M P bool :=
  a ← IsOneOf identOrPrimitiveSyms;
  if (a : bool) then mret true
  else
    k ← cur_is Keyword;
    if (k : bool) then mret true else cur_operator binaryOpSyms.

Fixpoint ParseMethods (fuel : nat) : M P (list AstMethod) :=
  b ← startsMethod;
  if negb b then mret []
  else match fuel with
       | O => fail OutOfFuel
       | S fuel' => m ← ParseMethod fuel; ms ← ParseMethods fuel'; mret (m :: ms)
       end.

(** [SOMCompileFile] compiles another file, in the same world. *)
Context {C : Type} (SOMCompileFile : string -> M W C).

Definition compile_superclass (name : string) : M P (option C) := fun p =>
  match SOMCompileFile name (m_world p) with
  | Ok (c, w) => Ok (Some c, mk_parser (m_lexer p) w (m_curSym p) (m_curText p) (m_nextSym p))
  | Err e => Err e
  end.

Definition parseSuperclass (className : nat) : M P (option C) :=
  i ← cur_is Identifier;
  if (i : bool) then
    t ← the_curText;
    sup ← (if negb (bool_decide (t = "nil"%string)) then compile_superclass t
           else
             name ← (fun p => lift_result (w_Get className (m_world p)) p);
             check (bool_decide (name = "Object"%string))
               (AssertFailed "res->m_name->Get(m_symbolInterner) == Object") ;;
             mret None);
    Expect Identifier ;;
    mret sup
  else compile_superclass "Object".

Definition ParseClass (fuel : nat) : M P (AstClass C) :=
  t ← the_curText;
  className ← InternString_p t;
  Expect Identifier ;;
  Expect Equal ;;
  superClass ← parseSuperclass className;
  Expect NewTerm ;;
  instanceFields ← ParseLocals fuel;
  instanceMethods ← ParseMethods fuel;
  sep ← Accept Separator;
  cls ← (if (sep : bool) then
           classFields ← ParseLocals fuel;
           classMethods ← ParseMethods fuel;
           mret (classFields, classMethods)
         else mret ([], []));
  Expect EndTerm ;;
  mret (mk_ast_class className superClass instanceFields cls.1 instanceMethods cls.2).
End parser.

(** The constructor: the first symbol is read at once. *)
Definition new_parser {L W} `{!TokenSource L} (lx : L) (w : W) : result (Parser L W) :=
  match Eat (mk_parser lx w NONE "" NONE) with
  | Ok (_, p) => Ok p
  | Err e => Err e
  end.
