(* ===== verification/ParserTotal.v ===== *)
(** * The parser always terminates

    The parser of [Parser.v] on any token source that satisfies
    [TokenSourceLaws]: with fuel above the number of tokens left it either
    returns, having consumed tokens, or stops with one of the errors the source
    has.  The laws are proved for the lexer. *)
From S2P Require Import Prelude Interner Lexer CNumbers Ast Parser.
From Stdlib Require Import Ascii.
From Stdlib Require String.

(** What the parser relies on: [ts_left] bounds the tokens still to come. *)
Class TokenSourceLaws (L : Type) `{!TokenSource L} := {
  ts_wf : L -> Prop;
  ts_left : L -> nat;
  ts_error : error -> Prop;
  ts_GetSym_spec lx : ts_wf lx ->
    wp ts_error ts_GetSym (fun y lx' => ts_wf lx' /\ ts_left lx' <= ts_left lx /\
                                        (y <> NONE -> ts_left lx' < ts_left lx)) lx;
  ts_Peek_spec lx : ts_wf lx -> ts_GetPeekDone lx = false ->
    wp ts_error ts_Peek (fun _ lx' => ts_wf lx' /\ ts_left lx' <= ts_left lx) lx
}.

#[export] Instance lexer_laws : TokenSourceLaws Lexer.
Proof.
  refine {| ts_wf := lexer_wf; ts_left := tokens_left; ts_error := escape_error |}.
  - intros lx Hwf. eapply wp_mono; [by apply GetSym_spec|].
    intros y lx' (Hwf' & _ & _ & Hle & Hlt). done.
  - intros lx Hwf Hpk. eapply wp_mono; [by apply Peek_spec|].
    intros y lx' (Hwf' & _ & _ & _ & Hle). done.
Defined.

(** The ways the parser itself stops: a reported syntax error, the
    [ReleaseAssert]s on numbers, and the name lookup of the error report. *)
Definition parse_error (e : error) : Prop :=
  (exists msg, e = Aborted msg) \/
  e = AssertFailed "invalid integer representation in source code: should not reach here" \/
  e = AssertFailed "pEnd == m_curText.data() + m_curText.length()" \/
  e = UndefinedBehaviour "symnames[sym]".

Lemma parse_error_not_fuel e : parse_error e -> e <> OutOfFuel.
Proof. by intros [[? ->]|[->|[->| ->]]]. Qed.

Section total.
Context {L W : Type} `{!TokenSource L} `{!TokenSourceLaws L} `{!ParserWorld W} (m_fileName : string).
(** The errors of the callbacks. *)
Context (X : error -> Prop).
Notation P := (Parser L W).

Definition stops (e : error) : Prop := ts_error e \/ parse_error e \/ X e.

Definition parser_wf (p : P) : Prop := ts_wf (m_lexer p).

(** Tokens left, the current one included. *)
Definition left_p (p : P) : nat :=
  ts_left (m_lexer p) + (if bool_decide (m_curSym p = NONE) then 0 else 1).

Definition consumes (k : nat) (p p' : P) : Prop := parser_wf p' /\ left_p p' + k <= left_p p.

(** With fewer than [n] tokens left, [m] returns after consuming [k], or stops. *)
Definition spec (n k : nat) {A} (m : M P A) : Prop :=
  forall p, parser_wf p -> left_p p < n -> wp stops m (fun _ p' => consumes k p p') p.

Lemma spec_mono n n' k k' {A} (m : M P A) : n' <= n -> k' <= k -> spec n k m -> spec n' k' m.
Proof.
  intros Hn Hk H p Hp Hl. eapply wp_mono; [apply H; [done|lia]|].
  intros a p' [? ?]. split; [done|lia].
Qed.

Lemma spec_bind n k K {A B} (m : M P A) (f : A -> M P B) :
  spec n k m -> (forall a, spec (n - k) (K - k) (f a)) -> spec n K (m ≫= f).
Proof.
  intros Hm Hf p Hp Hl. apply wp_bind. eapply wp_mono; [by apply Hm|].
  intros a p' [Hp' Hc]. eapply wp_mono; [apply Hf; [done|lia]|].
  intros b p'' [Hp'' Hc']. split; [done|lia].
Qed.

Lemma spec_ret n {A} (a : A) : spec n 0 (mret a).
Proof. intros p Hp _. apply wp_ret. split; [done|lia]. Qed.

Lemma spec_gets n {A} (f : P -> A) : spec n 0 (gets f).
Proof. intros p Hp _. apply wp_gets. split; [done|lia]. Qed.

Lemma spec_if n k {A} (b : bool) (m1 m2 : M P A) : spec n k m1 -> spec n k m2 -> spec n k (if b then m1 else m2).
Proof. by destruct b. Qed.

Lemma spec_fail n k {A} e : stops e -> spec n k (fail e : M P A).
Proof. intros He p _ _. by apply wp_fail. Qed.

Lemma symname_stops y : match symname y with Ok _ => True | Err e => stops e end.
Proof. destruct y; simpl; try done. right. left. unfold parse_error. naive_solver. Qed.

Lemma spec_ParseError n k {A} msg ex : spec n k (ParseError m_fileName msg ex : M P A).
Proof.
  intros p _ _. unfold wp, ParseError, ParseError_message.
  pose proof (symname_stops (m_curSym p)). destruct (symname _); simpl; [|done].
  right. left. left. eauto.
Qed.

Lemma spec_lift_symname n y : spec n 0 (lift_result (symname y) : M P string).
Proof.
  intros p Hp _. apply wp_lift_result. pose proof (symname_stops y).
  destruct (symname y); [split; [done|lia]|done].
Qed.

Lemma spec_ParseError_sym n k {A} msg y : spec n k (ParseError_sym m_fileName msg y : M P A).
Proof.
  unfold ParseError_sym. eapply spec_bind; [apply spec_lift_symname|].
  intros s. apply spec_ParseError.
Qed.

Lemma spec_join n first ss : spec n 0 (lift_result (join_symnames first ss) : M P string).
Proof.
  intros p Hp _. apply wp_lift_result.
  assert (H : match join_symnames first ss with Ok _ => True | Err e => stops e end).
  { revert first. induction ss as [|y ss IH]; intros first; simpl; [done|].
    case_bool_decide; [done|]. pose proof (symname_stops y).
    destruct (symname y); simpl; [|done]. specialize (IH false).
    by destruct (join_symnames false ss). }
  destruct (join_symnames first ss); [split; [done|lia]|done].
Qed.

Lemma spec_InternString n s : spec n 0 (InternString_p s : M P nat).
Proof.
  intros p Hp _. unfold wp, InternString_p. destruct (w_InternString s (m_world p)).
  split; [done|]. unfold left_p. simpl. lia.
Qed.

(** Eating the current token consumes it unless the input has ended. *)
Lemma wp_Eat p : parser_wf p ->
  wp stops Eat (fun _ p' => consumes (if bool_decide (m_curSym p = NONE) then 0 else 1) p p') p.
Proof.
  intros Hp. pose proof (ts_GetSym_spec _ Hp) as H. unfold wp, Eat in *.
  destruct (ts_GetSym (m_lexer p)) as [[y lx]|e]; [|by left].
  destruct H as (Hwf & Hle & Hlt). split; [done|]. unfold left_p. simpl.
  destruct (decide (y = NONE)) as [->|Hne].
  - rewrite (bool_decide_true (NONE = NONE)) by done. case_bool_decide; lia.
  - rewrite (bool_decide_false (y = NONE)) by done. specialize (Hlt Hne). case_bool_decide; lia.
Qed.

Lemma spec_Eat n : spec n 0 (Eat : M P unit).
Proof.
  intros p Hp _. eapply wp_mono; [by apply wp_Eat|]. intros _ p' [? ?]. split; [done|lia].
Qed.

Lemma spec_Peek n : spec n 0 (Parser.Peek : M P Symbol).
Proof.
  intros p Hp _. unfold wp, Parser.Peek. destruct (ts_GetPeekDone (m_lexer p)) eqn:E; simpl.
  { split; [done|lia]. }
  pose proof (ts_Peek_spec _ Hp E) as H. unfold wp in H.
  destruct (ts_Peek (m_lexer p)) as [[y lx]|e]; [|by left].
  destruct H as (Hwf & Hle). split; [done|]. unfold left_p. simpl. lia.
Qed.

Lemma spec_Accept n y : spec n 0 (Accept y : M P bool).
Proof.
  unfold Accept. eapply spec_bind; [apply spec_gets|]. intros b. apply spec_if; [|apply spec_ret].
  eapply spec_bind; [apply spec_Eat|]. intros _. apply spec_ret.
Qed.

Lemma spec_AcceptOneOf n ss : spec n 0 (AcceptOneOf ss : M P bool).
Proof.
  unfold AcceptOneOf. eapply spec_bind; [apply spec_gets|]. intros b. apply spec_if; [|apply spec_ret].
  eapply spec_bind; [apply spec_Eat|]. intros _. apply spec_ret.
Qed.

Lemma spec_Expect n y : spec n 0 (Expect m_fileName y : M P unit).
Proof.
  unfold Expect. eapply spec_bind; [apply spec_Accept|]. intros b.
  apply spec_if; [apply spec_ret|apply spec_ParseError_sym].
Qed.

(** An accepted token other than [NONE] is consumed. *)
Lemma spec_eat_when n (m : M P unit) (f : P -> bool) :
  (forall p, f p = true -> m_curSym p <> NONE) -> (forall n', spec n' 1 m) ->
  spec n 1 (b ← (b ← gets f; if (b : bool) then Eat ;; mret true else mret false);
            if (b : bool) then mret tt else m).
Proof.
  intros Hf Hm p Hp Hl. apply wp_bind, wp_bind, wp_gets. destruct (f p) eqn:Ef.
  - apply wp_bind. eapply wp_mono; [by apply wp_Eat|]. rewrite bool_decide_false by auto.
    intros _ p' H. by apply wp_ret, wp_ret.
  - apply wp_ret. by apply (Hm n).
Qed.

Lemma spec_Expect1 n y : y <> NONE -> spec n 1 (Expect m_fileName y : M P unit).
Proof.
  intros Hy. unfold Expect, Accept, cur_is. apply spec_eat_when.
  - intros p Hp%bool_decide_eq_true. congruence.
  - intros n'. apply spec_ParseError_sym.
Qed.

Lemma in_symbols_not_NONE ss y : in_symbols ss y = true -> y <> NONE.
Proof.
  induction ss as [|s ss IH]; simpl; [done|]. repeat case_bool_decide; try done; congruence.
Qed.

Lemma spec_ExpectOneOf n ss : spec n 1 (ExpectOneOf m_fileName ss : M P unit).
Proof.
  unfold ExpectOneOf, AcceptOneOf, IsOneOf. apply spec_eat_when.
  - intros p. apply in_symbols_not_NONE.
  - intros n'. eapply spec_bind; [apply spec_join|]. intros s. apply spec_ParseError.
Qed.

Lemma spec_strtoll n str neg : spec n 0 (lift_result (integer_of_text str neg) : M P Z).
Proof.
  intros p Hp _. apply wp_lift_result. unfold integer_of_text.
  destruct (strtoll10 _) as [[i [|c pEnd]] r]; [split; [done|lia]|].
  right. left. unfold parse_error. naive_solver.
Qed.

Lemma spec_check_pEnd n b :
  spec n 0 (check b (AssertFailed "pEnd == m_curText.data() + m_curText.length()") : M P unit).
Proof.
  destruct b; [apply spec_ret|]. apply spec_fail. right. left. unfold parse_error. naive_solver.
Qed.
End total.

(** ** Automation: one step per bind, guided by the specifications *)
Create HintDb parse.
#[export] Hint Resolve spec_ret spec_gets spec_fail spec_ParseError spec_ParseError_sym
  spec_InternString spec_Eat spec_Peek spec_Accept spec_AcceptOneOf spec_ExpectOneOf
  spec_strtoll spec_check_pEnd : parse.
#[export] Hint Extern 1 (spec _ _ _ (Expect _ _)) => (apply spec_Expect1; discriminate) : parse.
#[export] Hint Extern 2 (spec _ _ _ (Expect _ _)) => (apply spec_Expect) : parse.
#[export] Hint Extern 1 (_ <= _) => lia : parse.
#[export] Hint Extern 1 (_ < _) => lia : parse.

Ltac spec_steps :=
  repeat match goal with
  | |- spec _ _ _ (mret _) => eapply spec_mono; [reflexivity| |apply spec_ret]; lia
  | |- spec _ _ _ (if _ then _ else _) => apply spec_if
  | |- spec _ _ _ (_ ≫= _) => eapply spec_bind; [solve [eauto with parse]|intros ?; simpl]
  | |- spec _ _ _ (let '(_, _) := ?x in _) => destruct x
  end.
(** The remaining calls in tail position. *)
Ltac spec_tail :=
  solve [eauto with parse | eapply spec_mono; [reflexivity| |solve [eauto with parse]]; lia].
Ltac spec_auto := spec_steps; try spec_tail.

Section total_functions.
Context {L W : Type} `{!TokenSource L} `{!TokenSourceLaws L} `{!ParserWorld W} (m_fileName : string)
  (X : error -> Prop).
Notation P := (Parser L W).
Notation spec n k m := (@spec L W _ _ X n k _ m).

Lemma spec_ParseInteger n neg : spec n 1 (ParseInteger m_fileName neg).
Proof. unfold ParseInteger, the_curText. spec_auto. Qed.
Lemma spec_ParseDouble n neg : spec n 1 (ParseDouble m_fileName neg).
Proof.
  unfold ParseDouble, the_curText. eapply spec_bind; [apply spec_gets|]. intros str.
  destruct (strtod _). spec_auto.
Qed.

#[local] Hint Resolve spec_ParseInteger spec_ParseDouble : parse.

Lemma spec_ParseNumber_sign n neg : spec n 1 (ParseNumber_sign m_fileName neg).
Proof. unfold ParseNumber_sign, cur_is. spec_auto. Qed.
#[local] Hint Resolve spec_ParseNumber_sign : parse.

Lemma spec_ParseNumber n : spec n 1 (ParseNumber m_fileName).
Proof. unfold ParseNumber, cur_is. spec_auto. Qed.
Lemma spec_ParseString n : spec n 1 (ParseString m_fileName).
Proof. unfold ParseString, the_curText. spec_auto. Qed.
Lemma spec_ParseUnarySelector n : spec n 1 (ParseUnarySelector m_fileName).
Proof. unfold ParseUnarySelector, the_curText. spec_auto. Qed.
Lemma spec_ParseBinarySelector n : spec n 0 (ParseBinarySelector m_fileName).
Proof.
  unfold ParseBinarySelector, the_curText. spec_steps.
  eapply (spec_bind _ _ 0); [apply spec_if; spec_auto|]. intros b. simpl.
  eapply (spec_bind _ _ 0); [apply spec_if; spec_auto|]. intros ?. spec_auto.
Qed.
Lemma spec_ParseKeywordSelector n : spec n 1 (ParseKeywordSelector m_fileName).
Proof. unfold ParseKeywordSelector, the_curText. spec_auto. Qed.
Lemma spec_cur_operator n ss : spec n 0 (cur_operator ss).
Proof. unfold cur_operator, cur_is, IsOneOf. spec_auto. Qed.
#[local] Hint Resolve spec_ParseNumber spec_ParseString spec_ParseUnarySelector
  spec_ParseBinarySelector spec_ParseKeywordSelector spec_cur_operator : parse.

Lemma spec_ParseSelector n : spec n 0 (ParseSelector m_fileName).
Proof. unfold ParseSelector, IsOneOf. spec_auto. Qed.
#[local] Hint Resolve spec_ParseSelector : parse.

Lemma spec_ParseSymbol n : spec n 1 (ParseSymbol m_fileName).
Proof. unfold ParseSymbol, cur_is, the_curText. spec_auto. Qed.
#[local] Hint Resolve spec_ParseSymbol : parse.

(** Loops: a call on at least [n] fuel with fewer than [n] tokens left. *)
Lemma spec_ParseArrayElements lit N m :
  spec N 1 lit -> m <= N -> spec m 0 (ParseArrayElements lit m).
Proof.
  intros Hlit. induction m as [|m IH]; intros Hm; [intros p _ Hl; lia|].
  simpl. unfold cur_is. spec_steps.
  eapply spec_bind; [eapply spec_mono; [|reflexivity|exact Hlit]; lia|]. intros e.
  eapply spec_bind; [eapply spec_mono; [|reflexivity|apply IH]; lia|]. intros es. spec_auto.
Qed.

Lemma spec_ParseLiteral m n : n <= m -> spec n 1 (ParseLiteral m_fileName m).
Proof.
  revert n. induction m as [|m IH]; intros n Hn; [intros p _ Hl; lia|].
  simpl. unfold cur_is. spec_steps; try spec_tail.
  unfold ParseArray. spec_steps.
  eapply (spec_bind _ _ 0); [|intros; spec_auto].
  eapply spec_mono; [| |apply (spec_ParseArrayElements _ m)]; [lia|lia|by apply IH|lia].
Qed.
#[local] Hint Resolve spec_ParseLiteral : parse.

Lemma spec_ParseVariable n : spec n 1 (ParseVariable m_fileName).
Proof. unfold ParseVariable, the_curText. spec_auto. Qed.
#[local] Hint Resolve spec_ParseVariable : parse.

Lemma spec_dup n b msg : spec n 0 (if b : bool then ParseError m_fileName msg "" else mret tt).
Proof. spec_auto. Qed.
#[local] Hint Resolve spec_dup : parse.

Lemma spec_ParseParametersLoop args m n : n <= m -> spec n 1 (ParseParametersLoop m_fileName args m).
Proof.
  revert args n. induction m as [|m IH]; intros args n Hn; [intros p _ Hl; lia|].
  simpl. unfold cur_is. spec_auto. 
Qed.
Lemma spec_ParseLocalsLoop args m n : n <= m -> spec n 0 (ParseLocalsLoop m_fileName args m).
Proof.
  revert args n. induction m as [|m IH]; intros args n Hn; [intros p _ Hl; lia|].
  simpl. unfold IsOneOf. spec_auto.
Qed.
#[local] Hint Resolve spec_ParseParametersLoop spec_ParseLocalsLoop : parse.

Lemma spec_ParseLocals m n : n <= m -> spec n 0 (ParseLocals m_fileName m).
Proof. intros Hn. unfold ParseLocals. spec_auto. Qed.
#[local] Hint Resolve spec_ParseLocals : parse.

Lemma spec_ParseUnaryMessage n e : spec n 1 (ParseUnaryMessage m_fileName e).
Proof. unfold ParseUnaryMessage. spec_auto. Qed.
#[local] Hint Resolve spec_ParseUnaryMessage : parse.

Lemma spec_unaryMessages m n e : n <= m -> spec n 0 (unaryMessages m_fileName m e).
Proof.
  revert n e. induction m as [|m IH]; intros n e Hn; [intros p _ Hl; lia|].
  simpl. unfold IsOneOf. spec_auto.
Qed.
Lemma spec_ParseKeyword n : spec n 1 (ParseKeyword m_fileName).
Proof. unfold ParseKeyword, the_curText. spec_auto. Qed.
Lemma spec_ParseOneAssignment n : spec n 1 (ParseOneAssignment m_fileName).
Proof. unfold ParseOneAssignment. spec_auto. Qed.
#[local] Hint Resolve spec_unaryMessages spec_ParseKeyword spec_ParseOneAssignment : parse.

Lemma spec_ParseAssignments m n : n <= m -> spec n 0 (ParseAssignments m_fileName m).
Proof.
  revert n. induction m as [|m IH]; intros n Hn; [intros p _ Hl; lia|].
  simpl. unfold IsOneOf. spec_auto.
Qed.
#[local] Hint Resolve spec_ParseAssignments : parse.

(** The functions over [ParseExpr], given that the nested occurrences meet
    their specification on less fuel. *)
Section with_expr.
Context (N fuel : nat) (expr : M P AstExpr).
Context (Hexpr : forall n, n <= N -> spec n 1 expr) (Hfuel : fuel = S N).
#[local] Hint Resolve Hexpr : parse.

Lemma spec_ParseNestedTerm n : n <= fuel -> spec n 1 (ParseNestedTerm m_fileName expr).
Proof. intros Hn. unfold ParseNestedTerm. spec_auto. Qed.

Lemma spec_ParseBlockExprs m n : n <= m -> n <= N -> spec n 0 (ParseBlockExprs expr m).
Proof.
  revert n. induction m as [|m IH]; intros n Hn HN; [intros p _ Hl; lia|].
  simpl. unfold the_curSym. spec_auto.
Qed.
#[local] Hint Resolve spec_ParseNestedTerm spec_ParseBlockExprs : parse.

Lemma spec_block_params n :
  n <= N -> forall c : bool,
  spec n 0 (if c then ps ← ParseParameters m_fileName fuel; Expect m_fileName Or ;; mret ps else mret []).
Proof. intros Hn c. unfold ParseParameters. spec_auto. Qed.
#[local] Hint Resolve spec_block_params : parse.

Lemma spec_ParseNestedBlock n : n <= fuel -> spec n 1 (ParseNestedBlock m_fileName expr fuel).
Proof. intros Hn. unfold ParseNestedBlock, cur_is. spec_auto. Qed.
#[local] Hint Resolve spec_ParseNestedBlock : parse.

Lemma spec_ParsePrimary n : n <= fuel -> spec n 1 (ParsePrimary m_fileName expr fuel).
Proof. intros Hn. unfold ParsePrimary, cur_is, IsOneOf. spec_auto. Qed.

#[local] Hint Resolve spec_ParsePrimary : parse.


Lemma spec_ParseBinaryOperand n : n <= fuel -> spec n 1 (ParseBinaryOperand m_fileName expr fuel).
Proof. intros Hn. unfold ParseBinaryOperand. spec_auto. Qed.
#[local] Hint Resolve spec_ParseBinaryOperand : parse.

Lemma spec_ParseBinaryMessage n e : n <= fuel -> spec n 1 (ParseBinaryMessage m_fileName expr fuel e).
Proof. intros Hn. unfold ParseBinaryMessage. spec_auto. Qed.
#[local] Hint Resolve spec_ParseBinaryMessage : parse.

Lemma spec_binaryMessages m n e :
  n <= m -> n <= fuel -> spec n 0 (binaryMessages m_fileName expr fuel m e).
Proof.
  revert n e. induction m as [|m IH]; intros n e Hn Hf; [intros p _ Hl; lia|].
  simpl. spec_auto.
Qed.

#[local] Hint Resolve spec_binaryMessages : parse.

Lemma spec_ParseKeywordMessageOperand n :
  n <= fuel -> spec n 1 (ParseKeywordMessageOperand m_fileName expr fuel).
Proof. intros Hn. unfold ParseKeywordMessageOperand. spec_auto. Qed.
#[local] Hint Resolve spec_ParseKeywordMessageOperand : parse.

Lemma spec_keywordArguments m n kw :
  n <= m -> n <= fuel -> spec n 0 (keywordArguments m_fileName expr fuel m kw).
Proof.
  revert n kw. induction m as [|m IH]; intros n kw Hn Hf; [intros p _ Hl; lia|].
  simpl. unfold cur_is. spec_auto.
Qed.
#[local] Hint Resolve spec_keywordArguments : parse.

Lemma spec_ParseKeywordMessage n e :
  n <= fuel -> spec n 1 (ParseKeywordMessage m_fileName expr fuel e).
Proof. intros Hn. unfold ParseKeywordMessage. spec_auto. Qed.
#[local] Hint Resolve spec_ParseKeywordMessage : parse.

Lemma spec_ParseEvaluation n : n <= fuel -> spec n 1 (ParseEvaluation m_fileName expr fuel).
Proof. intros Hn. unfold ParseEvaluation, cur_is. spec_auto. Qed.

#[local] Hint Resolve spec_ParseEvaluation : parse.


Lemma spec_ParseExpr_body n : n <= fuel -> spec n 1 (ParseExpr_body m_fileName expr fuel).
Proof. intros Hn. unfold ParseExpr_body, ParseAssignation. spec_auto. Qed.
End with_expr.

Lemma spec_ParseExpr m n : n <= m -> spec n 1 (ParseExpr m_fileName m).
Proof.
  revert n. induction m as [|m IH]; intros n Hn; [intros p _ Hl; lia|].
  simpl. apply (spec_ParseExpr_body m); [|done|done]. auto.
Qed.
#[local] Hint Resolve spec_ParseExpr : parse.

Lemma spec_method_body n fuel : n <= fuel -> spec n 0 (ParseBlockExprs (ParseExpr m_fileName fuel) fuel).
Proof. intros Hn. eapply (spec_ParseBlockExprs fuel (S fuel)); [|done..]. auto with parse. Qed.
#[local] Hint Resolve spec_method_body : parse.

Lemma spec_keywordParameters m n kw : n <= m -> spec n 1 (keywordParameters m_fileName m kw).
Proof.
  revert n kw. induction m as [|m IH]; intros n kw Hn; [intros p _ Hl; lia|].
  simpl. unfold cur_is. spec_auto.
Qed.
#[local] Hint Resolve spec_keywordParameters : parse.

Lemma spec_ParseMethodPattern m n : n <= m -> spec n 1 (ParseMethodPattern m_fileName m).
Proof.
  intros Hn. unfold ParseMethodPattern, IsOneOf, cur_is, ParseUnaryMethodPattern,
    ParseBinaryMethodPattern, ParseKeywordMethodPattern. spec_auto.
Qed.
#[local] Hint Resolve spec_ParseMethodPattern : parse.

Lemma spec_ParseMethod m n : n <= m -> spec n 1 (ParseMethod m_fileName m).
Proof. intros Hn. unfold ParseMethod. spec_auto. Qed.
#[local] Hint Resolve spec_ParseMethod : parse.

Lemma spec_startsMethod n : spec n 0 startsMethod.
Proof. unfold startsMethod, IsOneOf, cur_is. spec_auto. Qed.
#[local] Hint Resolve spec_startsMethod : parse.

Lemma spec_ParseMethods m n : n <= m -> spec n 0 (ParseMethods m_fileName m).
Proof.
  revert n. induction m as [|m IH]; intros n Hn; [intros p _ Hl; lia|].
  simpl. spec_auto.
Qed.
#[local] Hint Resolve spec_ParseMethods : parse.

Lemma spec_world_call n {A B} (f : W -> result (A * W)) (g : A -> B) :
  (forall w e, f w = Err e -> X e) ->
  spec n 0 (fun p : P => match f (m_world p) with
                     | Ok (a, w) => Ok (g a, mk_parser (m_lexer p) w (m_curSym p) (m_curText p) (m_nextSym p))
                     | Err e => Err e
                     end).
Proof.
  intros Hf p Hp _. unfold wp. destruct (f (m_world p)) as [[a w]|e] eqn:E.
  - split; [done|]. unfold left_p. simpl. lia.
  - right. right. by eapply Hf.
Qed.

Section class.
Context {C : Type} (SOMCompileFile : string -> M W C).
Context (Hcompile : forall s w e, SOMCompileFile s w = Err e -> X e).
Context (Hname : forall o w e, w_Get o w = Err e -> X e).
Context (Hnil : X (AssertFailed "res->m_name->Get(m_symbolInterner) == Object")).

Lemma spec_compile_superclass n s : spec n 0 (compile_superclass SOMCompileFile s).
Proof. apply spec_world_call. apply Hcompile. Qed.
#[local] Hint Resolve spec_compile_superclass : parse.

Lemma spec_parseSuperclass n c : spec n 0 (parseSuperclass m_fileName SOMCompileFile c).
Proof.
  unfold parseSuperclass, cur_is, the_curText. spec_steps; [|spec_tail].
  eapply (spec_bind _ _ 0); [|intros; spec_auto]. apply spec_if; [spec_tail|].
  eapply (spec_bind _ _ 0).
  - intros p Hp _. unfold wp, lift_result. destruct (w_Get c (m_world p)) eqn:E; [split; [done|lia]|].
    right. right. by eapply Hname.
  - intros name. eapply (spec_bind _ _ 0); [|intros; spec_auto].
    unfold check. apply spec_if; [spec_auto|]. apply spec_fail. by right; right.
Qed.
#[local] Hint Resolve spec_parseSuperclass : parse.

Lemma spec_class_side n fuel (b : bool) : n <= fuel ->
  spec n 0 (if b then classFields ← ParseLocals m_fileName fuel;
                      classMethods ← ParseMethods m_fileName fuel;
                      mret (classFields, classMethods) else mret ([], [])).
Proof. intros Hn. spec_auto. Qed.
#[local] Hint Resolve spec_class_side : parse.

Lemma spec_ParseClass n fuel : n <= fuel -> spec n 1 (ParseClass m_fileName SOMCompileFile fuel).
Proof. intros Hn. unfold ParseClass, the_curText. spec_auto. Qed.
End class.
End total_functions.

(** The ways [ParseClass] can stop on a file. *)
Definition class_error {W C} `{!ParserWorld W} (SOMCompileFile : string -> M W C) (e : error) : Prop :=
  escape_error e \/ parse_error e \/
  (exists name w, SOMCompileFile name w = Err e) \/ (exists ord w, w_Get ord w = Err e) \/
  e = AssertFailed "res->m_name->Get(m_symbolInterner) == Object".

(** The parser a file starts with: its first token is read. *)
Lemma new_parser_start {W} `{!ParserWorld W} (file : chars) (w : W) :
  match new_parser (new_lexer file) w with
  | Err e => escape_error e
  | Ok p => parser_wf p /\ left_p p < 2 + length file
  end.
Proof.
  pose proof (GetSym_spec _ (new_lexer_wf file)) as H.
  unfold new_parser, Eat. simpl ts_GetSym. unfold wp in H.
  destruct (GetSym (new_lexer file)) as [[y lx]|e]; [|done].
  destruct H as (Hwf & _ & _ & Hle & Hlt). split; [done|].
  assert (Hnew : tokens_left (new_lexer file) <= 1 + length file).
  { unfold tokens_left, left_to_read, remaining, settled, new_lexer. simpl. lia. }
  unfold left_p. simpl. case_bool_decide as Hn; [lia|]. specialize (Hlt Hn). lia.
Qed.

(** C20: parsing a class file of [n] characters terminates: with fuel [2 + n] the
    parser returns a class or stops, and it stops only by a reported syntax
    error, one of its assertions, an error of the superclass's compilation, or
    the out-of-range read of [symnames] while it reports a syntax error. *)
Theorem ParseClass_terminates {W C} `{!ParserWorld W} (className : string)
    (SOMCompileFile : string -> M W C) (file : chars) (w : W) :
  match new_parser (new_lexer file) w with
  | Err e => escape_error e
  | Ok p =>
      match ParseClass className SOMCompileFile (2 + length file) p with
      | Ok (_, p') => left_p p' < left_p p
      | Err e => class_error SOMCompileFile e
      end
  end.
Proof.
  pose proof (new_parser_start file w) as Hp.
  destruct (new_parser (new_lexer file) w) as [p|e]; [|done]. destruct Hp as [Hwf Hleft].
  set (X e := (exists name w, SOMCompileFile name w = Err e) \/ (exists ord w, w_Get ord w = Err e) \/
    e = AssertFailed "res->m_name->Get(m_symbolInterner) == Object").
  pose proof (spec_ParseClass className X SOMCompileFile) as Hspec.
  specialize (Hspec ltac:(unfold X; eauto) ltac:(unfold X; eauto) ltac:(unfold X; eauto)).
  specialize (Hspec (2 + length file) (2 + length file) ltac:(lia) p Hwf Hleft).
  unfold wp in Hspec. destruct (ParseClass _ _ _ p) as [[c p']|e].
  - destruct Hspec as [_ Hc]. lia.
  - destruct Hspec as [He|[He|He]]; unfold class_error; [by left|by right; left|by right; right].
Qed.
