(* ===== verification/Bytecode.v ===== *)
(** * Bytecode and its builder

    The bytecodes the compiler emits and the builder that collects them
    ([drt/bytecode_builder.h], [drt/bytecode_builder_utils.h]).  The encoding of
    each bytecode is generated when the program is built: its length and the
    constants it puts in the constant table are parameters ([bcLength],
    [bcConstants]).  A branch operand is [None] until [SetBranchTarget] fills it. *)
From S2P Require Import Prelude Interner CNumbers.
#[local] Set Default Proof Using "Type".

(** A constant operand.  Objects are named by what makes them one object: an
    interned string or symbol by its ordinal, a literal array by its allocation,
    a code block by the translation context that produced it. *)
Inductive Cst : Type :=
  | CstDouble (d : double)
  | CstInt32 (z : Z)
  | CstBool (b : bool)
  | CstNil
  | CstInternedString (ord : nat)
  | CstInternedSymbol (ord : nat)
  | CstArray (addr : nat)
  | CstUnlinkedCodeBlock (ucb : nat)
  | CstSelector (meth : SOMUniquedString)
  | CstClass (cls : nat).

#[export] Instance double_eq_dec : EqDecision double.
Proof. solve_decision. Defined.
#[export] Instance SOMUniquedString_eq_dec : EqDecision SOMUniquedString.
Proof. solve_decision. Defined.
#[export] Instance Cst_eq_dec : EqDecision Cst.
Proof. solve_decision. Defined.

(** [LocalOrCstWrapper] *)
Inductive Operand : Type := OLocal (slot : nat) | OCst (c : Cst).

Inductive BranchCond : Type := IfTrue | IfFalse | IfNil | IfNotNil.

Inductive BinaryOperator : Type :=
  | OperatorPlus | OperatorMinus | OperatorStar | OperatorSlashSlash | OperatorPercent
  | OperatorAnd | OperatorEqual | OperatorLessThan | OperatorLessEqual | OperatorGreaterThan
  | OperatorGreaterEqual | OperatorUnequal | OperatorTildeUnequal | OperatorLeftShift
  | OperatorRightShift | OperatorBitwiseXor | OperatorSlash | OperatorEqualEqual
  | OperatorLogicalAnd | OperatorLogicalOr | OperatorKeywordAnd | OperatorKeywordOr
  | OperatorValueColon | OperatorAtColon | OperatorCharAtColon.

Inductive UnaryOperator : Type :=
  | OperatorAbs | OperatorSqrt | OperatorIsNil | OperatorNotNil | OperatorValue | OperatorNot
  | OperatorLength.

Inductive TernaryOperator : Type := OperatorAtPut | OperatorValueWith.

(** One bytecode; [br] is the branch operand, relative to the bytecode's position. *)
Inductive Bytecode : Type :=
  | BcMov (input : Operand) (output : nat)
  | BcSOMArrayDup (src : Cst) (output : nat)
  | BcUpvalueGetMutable (ord output : nat)
  | BcUpvalueGetImmutable (ord output : nat)
  | BcUpvaluePut (ord : nat) (value : Operand)
  | BcUpvalueClose (base : nat)
  | BcSOMGetField (base index output : nat)
  | BcSOMPutField (base index : nat) (value : Operand)
  | BcSOMGlobalGet (self index output : nat)
  | BcBranchIf (c : BranchCond) (cond : nat) (br : option Z)
  | BcStoreNilAndBranchIf (c : BranchCond) (cond output : nat) (br : option Z)
  | BcCopyAndBranchIf (c : BranchCond) (cond output : nat) (br : option Z)
  | BcBranch (br : option Z)
  | BcBranchLoopHint (br : option Z)
  | BcCheckForLoopStartCond (downto : bool) (val limit output : nat) (br : option Z)
  | BcForLoopStep (downto : bool) (base : nat) (br : option Z)
  | BcBinaryOperator (op : BinaryOperator) (lhs rhs : Operand) (output : nat)
  | BcUnaryOperator (op : UnaryOperator) (operand output : nat)
  | BcTernaryOperator (op : TernaryOperator) (operand : nat) (arg1 arg2 : Operand) (output : nat)
  | BcSOMCall (base : nat) (meth : Cst) (numArgs output : nat)
  | BcSOMSelfCall (base self : nat) (meth : Cst) (numArgs output : nat)
  | BcSOMSuperCall (base self : nat) (superClass meth : Cst) (numArgs output : nat)
  | BcRet (retStart numRet : nat)
  | BcSOMThrow (value : nat)
  | BcRangeFillNils (base numToPut : nat)
  | BcNewClosure (unlinkedCb : Cst) (output : nat).

(** The branch operand, when the bytecode has one. *)
Definition branch_operand (bc : Bytecode) : option (option Z) :=
  match bc with
  | BcBranchIf _ _ br | BcStoreNilAndBranchIf _ _ _ br | BcCopyAndBranchIf _ _ _ br
  | BcBranch br | BcBranchLoopHint br | BcCheckForLoopStartCond _ _ _ _ br
  | BcForLoopStep _ _ br => Some br
  | _ => None
  end.

Definition with_branch (br : option Z) (bc : Bytecode) : Bytecode :=
  match bc with
  | BcBranchIf c cond _ => BcBranchIf c cond br
  | BcStoreNilAndBranchIf c cond out _ => BcStoreNilAndBranchIf c cond out br
  | BcCopyAndBranchIf c cond out _ => BcCopyAndBranchIf c cond out br
  | BcBranch _ => BcBranch br
  | BcBranchLoopHint _ => BcBranchLoopHint br
  | BcCheckForLoopStartCond d v l out _ => BcCheckForLoopStartCond d v l out br
  | BcForLoopStep d base _ => BcForLoopStep d base br
  | _ => bc
  end.

(** ** The builder: the bytecodes with their positions, and the constant table *)
Record BytecodeBuilder : Type := mk_builder {
  code : list (nat * Bytecode);
  curLength : nat;
  m_constantTable : list Cst
}.

Definition new_builder : BytecodeBuilder := mk_builder [] 0 [].

Section builder.
Context (bcLength : Bytecode -> nat) (bcConstants : Bytecode -> list Cst).

(** The table as a list in insertion order: the position of a constant already
    present, or a new last position. *)
Fixpoint index_of (c : Cst) (t : list Cst) : option nat :=
  match t with
  | [] => None
  | c' :: t' => if bool_decide (c = c') then Some 0 else S <$> index_of c t'
  end.

Definition InsertConstantIntoTable (cst : Cst) (t : list Cst) : Z * list Cst :=
  match index_of cst t with
  | Some ord => (- Z.of_nat ord - 1, t)%Z
  | None => (- Z.of_nat (length t) - 1, t ++ [cst])%Z
  end.

Definition GetConstantFromConstantTable (ord : Z) (t : list Cst) : result Cst :=
  if (0 <=? ord)%Z then Err (AssertFailed "ord < 0")
  else match t !! Z.to_nat (- (ord + 1)) with
       | Some c => Ok c
       | None => Err (AssertFailed "static_cast<size_t>(ord) < m_constantTable.size()")
       end.

(** The generated [Create...] functions: append, and register the constants. *)
Definition create (bc : Bytecode) (b : BytecodeBuilder) : BytecodeBuilder :=
  mk_builder (code b ++ [(curLength b, bc)]) (curLength b + bcLength bc)
    (fold_left (fun t c => (InsertConstantIntoTable c t).2) (bcConstants bc) (m_constantTable b)).

Definition GetCurLength (b : BytecodeBuilder) : nat := curLength b.

Definition at_position (pos : nat) (f : Bytecode -> Bytecode) (b : BytecodeBuilder) : BytecodeBuilder :=
  mk_builder ((fun p => if p.1 =? pos then (p.1, f p.2) else p) <$> code b) (curLength b) (m_constantTable b).

Definition bytecode_at (pos : nat) (b : BytecodeBuilder) : option Bytecode :=
  snd <$> List.find (fun p => p.1 =? pos) (code b).

Definition SetBranchTargetOffset (pos : nat) (off : Z) (b : BytecodeBuilder) : BytecodeBuilder :=
  at_position pos (with_branch (Some off)) b.

(** False when the distance does not fit [int16_t]. *)
Definition SetBranchTarget (bcPos destBcPos : nat) (b : BytecodeBuilder) : bool * BytecodeBuilder :=
  let diff := (Z.of_nat destBcPos - Z.of_nat bcPos)%Z in
  if ((diff <? - 2 ^ 15) || (2 ^ 15 - 1 <? diff))%Z then (false, b)
  else (true, SetBranchTargetOffset bcPos diff b).

(** [ReplaceBytecode<UpvalueGetImmutable>] over an [UpvalueGetMutable]: the two
    have the same length, so nothing moves. *)
Definition ReplaceBytecode (pos : nat) (bc : Bytecode) (b : BytecodeBuilder) : BytecodeBuilder :=
  at_position pos (fun _ => bc) b.

(** The target a filled branch goes to. *)
Definition GetBranchTarget (p : nat * Bytecode) : option Z :=
  match branch_operand p.2 with
  | Some (Some off) => Some (Z.of_nat p.1 + off)%Z
  | _ => None
  end.

(** ** Invariant: the positions are the running sum of the lengths *)
Fixpoint laid_out (pos : nat) (l : list (nat * Bytecode)) (fin : nat) : Prop :=
  match l with
  | [] => pos = fin
  | (p, bc) :: l' => p = pos /\ laid_out (pos + bcLength bc) l' fin
  end.

Definition builder_wf (b : BytecodeBuilder) : Prop := laid_out 0 (code b) (curLength b).

(** A position where a bytecode starts, or the end of the code. *)
Definition boundary (b : BytecodeBuilder) (pos : nat) : Prop :=
  pos = curLength b \/ pos ∈ (code b).*1.

Lemma laid_out_app pos l1 l2 fin :
  laid_out pos (l1 ++ l2) fin <-> exists mid, laid_out pos l1 mid /\ laid_out mid l2 fin.
Proof.
  clear bcConstants. revert pos. induction l1 as [|[p bc] l1 IH]; intros pos; simpl.
  - split; [eauto|]. by intros (mid & <- & ?).
  - rewrite IH. naive_solver.
Qed.

Lemma create_wf bc b : builder_wf b -> builder_wf (create bc b).
Proof. unfold builder_wf. intros H. simpl. apply laid_out_app. eexists. split; [exact H|done]. Qed.

Lemma laid_out_map f pos l fin :
  (forall q bc, bcLength (f (q, bc)).2 = bcLength bc /\ (f (q, bc)).1 = q) ->
  laid_out pos l fin -> laid_out pos (f <$> l) fin.
Proof.
  intros Hf. revert pos. induction l as [|[p bc] l IH]; intros pos; simpl; [done|].
  intros [-> H]. specialize (Hf pos bc) as [Hl Hp]. destruct (f (pos, bc)) as [p' bc'].
  simpl in *. subst p'. rewrite Hl. auto.
Qed.

Lemma at_position_wf pos f b :
  (forall bc, bcLength (f bc) = bcLength bc) -> builder_wf b -> builder_wf (at_position pos f b).
Proof.
  intros Hf. unfold builder_wf. simpl. apply laid_out_map. intros q bc. simpl.
  destruct (q =? pos); simpl; auto.
Qed.

Lemma at_position_positions pos f b : (code (at_position pos f b)).*1 = (code b).*1.
Proof.
  simpl. rewrite <-list_fmap_compose. apply list_fmap_ext. intros _ [p bc] _. simpl.
  by destruct (p =? pos).
Qed.

Lemma boundary_at_position pos f b q : boundary (at_position pos f b) q <-> boundary b q.
Proof. unfold boundary. by rewrite at_position_positions. Qed.

Lemma boundary_create bc b q : boundary b q -> boundary (create bc b) q.
Proof.
  unfold boundary. simpl. rewrite fmap_app, elem_of_app. simpl.
  intros [->|H]; right; [right; set_solver|by left].
Qed.

Lemma boundary_end b : boundary b (GetCurLength b).
Proof. by left. Qed.

Lemma index_of_lookup c t i : index_of c t = Some i -> t !! i = Some c.
Proof.
  revert i. induction t as [|c' t IH]; intros i; simpl; [done|]. case_bool_decide.
  - intros [= <-]. by subst.
  - destruct (index_of c t) as [j|]; simpl; [|done]. intros [= <-]. by apply IH.
Qed.

Lemma index_of_None c t : index_of c t = None -> c ∉ t.
Proof.
  induction t as [|c' t IH]; simpl; [set_solver|]. case_bool_decide; [done|].
  destruct (index_of c t); simpl; [done|]. intros _. apply not_elem_of_cons. auto.
Qed.
End builder.

(** The constant table: inserting a constant returns an index that reads
    the constant back, indices handed out earlier still read what they did, and
    the table never holds a constant twice. *)
Theorem InsertConstantIntoTable_correct (cst : Cst) (t : list Cst) :
  let '(ord, t') := InsertConstantIntoTable cst t in
  GetConstantFromConstantTable ord t' = Ok cst /\
  (forall ord' c, GetConstantFromConstantTable ord' t = Ok c -> GetConstantFromConstantTable ord' t' = Ok c) /\
  (NoDup t -> NoDup t').
Proof.
  unfold InsertConstantIntoTable, GetConstantFromConstantTable.
  destruct (index_of cst t) as [i|] eqn:E.
  - apply index_of_lookup in E. split_and!; [|auto|done].
    rewrite (proj2 (Z.leb_gt _ _)) by lia.
    replace (Z.to_nat (- (- Z.of_nat i - 1 + 1))) with i by lia. by rewrite E.
  - apply index_of_None in E. split_and!.
    + rewrite (proj2 (Z.leb_gt _ _)) by lia.
      replace (Z.to_nat (- (- Z.of_nat (length t) - 1 + 1))) with (length t) by lia.
      by rewrite list_lookup_middle.
    + intros ord' c. destruct (0 <=? ord')%Z; [done|].
      destruct (t !! Z.to_nat (- (ord' + 1))) eqn:Et; [|done]. intros [= ->].
      by rewrite (lookup_app_l_Some _ _ _ _ Et).
    + intros Hn. apply NoDup_app. split_and!; [done| |apply NoDup_singleton]. set_solver.
Qed.
