(* ===== verification/Compiler.v ===== *)
(** * The compiler

    Models the translation of methods and blocks to bytecode in
    [runtime/som_compile_file.cpp].  The objects the C++ code allocates and
    links by pointer ([LocalVarInfo], [BlockTranslationContext],
    [TranslationContext], literal arrays) live in stores of the state and are
    named by their index; a translation context and the [UnlinkedCodeBlock] it
    fills share their index.  A slot or ordinal whose C++ value is
    [static_cast<uint32_t>(-1)] is [None].  Every [TestAssert], [Assert] and
    [abort] of the code is a [check] or [fail].

    The recursion over the tree goes through [compile], [CompileExpression] and
    the [Compile...Call] functions on a child node; it takes fuel, and the
    depth of the tree is enough. *)
From S2P Require Import Prelude Interner VmSelectors CNumbers Ast Bytecode.

Record LocalVarInfo : Type := mk_var {
  var_bctx : nat;
  m_slotOrd : nat;
  m_isUsed : bool;
  m_isWritten : bool;
  m_isImmutable : bool
}.

Definition new_LocalVarInfo (bctx slotOrd : nat) : LocalVarInfo := mk_var bctx slotOrd false false true.

Definition NotifyUse (v : LocalVarInfo) : LocalVarInfo :=
  mk_var (var_bctx v) (m_slotOrd v) true (m_isWritten v) (m_isImmutable v).

Definition NotifyWrite (isInDefiningBlock : bool) (v : LocalVarInfo) : LocalVarInfo :=
  mk_var (var_bctx v) (m_slotOrd v) (m_isUsed v) true
    (if m_isUsed v || negb isInDefiningBlock then false else m_isImmutable v).

Record UVInfo : Type := mk_uvinfo {
  m_isParentLocal : bool;
  m_parentLocalSlot : option nat;
  m_parentUpvalueOrd : option nat;
  m_varInfo : option nat
}.

Record BlockTranslationContext : Type := mk_bctx {
  m_startSlot : nat;
  m_lexicalParent : option nat;
  m_owningContext : nat;
  m_trueParent : option nat;
  m_hasCapturedLocal : bool;
  m_containsThrowableBlocks : bool;
  m_blockMayThrow : bool;
  m_returnValueMayBeDiscarded : bool;
  m_returnValueSlot : option nat;
  m_uvs : list UVInfo;
  m_uvOrdMap : gmap nat nat
}.

(** The two constructors; the first makes the context its own owner. *)
Definition new_block_context (self : nat) (lexicalParent trueParent : option nat) : BlockTranslationContext :=
  mk_bctx 0 lexicalParent self trueParent false false false false None [] ∅.
Definition new_inlined_context (startSlot : nat) (lexicalParent : option nat) (owningContext : nat)
    (trueParent : option nat) : BlockTranslationContext :=
  mk_bctx startSlot lexicalParent owningContext trueParent false false false false None [] ∅.

Definition IsInlined (self : nat) (b : BlockTranslationContext) : bool := negb (m_owningContext b =? self).
Definition IsInlinedIntoTopLevelMethod (b : BlockTranslationContext) : bool :=
  bool_decide (m_trueParent b = None).
Definition IsTopLevelMethod (self : nat) (b : BlockTranslationContext) : bool :=
  bool_decide (m_trueParent b = None) && (m_owningContext b =? self).
Definition MustEmitUpvalueCloseBeforeReturn (b : BlockTranslationContext) : bool :=
  m_hasCapturedLocal b || m_containsThrowableBlocks b.
Definition MustMutablyCaptureSelf (b : BlockTranslationContext) : bool :=
  m_containsThrowableBlocks b || m_blockMayThrow b.

Inductive SOMDetailEntityType : Type :=
  | SOM_Object | SOM_Method | SOM_BlockNoArg | SOM_BlockNoArgImmSelf | SOM_BlockOneArg
  | SOM_BlockOneArgImmSelf | SOM_BlockTwoArgs | SOM_BlockTwoArgsImmSelf | SOM_Array | SOM_String.

Inductive SOMMethodLookupResultKind : Type :=
  | SOM_MethodNotFound | SOM_NormalMethod | SOM_LiteralReturn | SOM_GlobalReturn | SOM_SelfReturn
  | SOM_Getter | SOM_Setter | SOM_CallBaseNotObject.

(** [m_trivialFnInfo]: nothing, a literal's bits, or an index. *)
Inductive TrivialFnInfo : Type := TfNone | TfLiteral (c : Cst) | TfIndex (i : nat).

(** The fields of [UpvalueMetadata] and of [UnlinkedCodeBlock] the compiler fills. *)
Record UpvalueMetadata : Type := mk_uvmeta { uv_isImmutable : bool; uv_isParentLocal : bool; uv_slot : nat }.

Record UnlinkedCodeBlock : Type := mk_ucb {
  m_parent : option nat;
  m_numFixedArguments : nat;
  m_fnKind : SOMDetailEntityType;
  m_trivialFnType : SOMMethodLookupResultKind;
  m_trivialFnInfo : TrivialFnInfo;
  m_stackFrameNumSlots : nat;
  m_upvalueInfo : list UpvalueMetadata
}.

(** [UnlinkedCodeBlock::Create] *)
Definition new_ucb : UnlinkedCodeBlock := mk_ucb None 0 SOM_Method SOM_NormalMethod TfNone 0 [].

(** [m_results] is the store of contexts itself: every context is appended to it
    when it is created. *)
Record TranslationContext : Type := mk_ctx {
  m_historyTopSlot : nat;
  m_builder : BytecodeBuilder;
  m_allUpvalueGetBytecodes : list nat;
  m_resultUcb : UnlinkedCodeBlock;
  m_resultBCtx : option nat
}.

Definition new_context : TranslationContext := mk_ctx 0 new_builder [] new_ucb None.

(** What is fixed during the compilation of one method. *)
Record CompileEnv : Type := mk_env {
  e_vm : VMStrings;
  m_fieldMap : gmap string nat;
  m_isSelfObject : bool;
  m_superClass : option nat
}.

Section compiler.
Context (HashString : string -> Z).
(** Values of globals; the length and the constants of each encoded bytecode. *)
Context {V : Type} (bcLength : Bytecode -> nat) (bcConstants : Bytecode -> list Cst).

Record CState : Type := mk_cstate {
  cs_globals : Globals V;
  cs_vars : list LocalVarInfo;
  cs_bctxs : list BlockTranslationContext;
  cs_ctxs : list TranslationContext;
  m_localVarMap : gmap string (list nat);   (* innermost last *)
  cs_arrays : list (list Cst)
}.

Notation C := (M CState).

Definition dangling : error := UndefinedBehaviour "dangling pointer".

Definition lookup_or {A} (f : CState -> list A) (i : nat) : C A := fun s =>
  match f s !! i with Some a => Ok (a, s) | None => Err dangling end.
Definition the_var : nat -> C LocalVarInfo := lookup_or cs_vars.
Definition the_bctx : nat -> C BlockTranslationContext := lookup_or cs_bctxs.
Definition the_ctx : nat -> C TranslationContext := lookup_or cs_ctxs.

Definition upd_var (i : nat) (f : LocalVarInfo -> LocalVarInfo) : C unit :=
  modify (fun s => mk_cstate (cs_globals s) (alter f i (cs_vars s)) (cs_bctxs s) (cs_ctxs s)
                     (m_localVarMap s) (cs_arrays s)).
Definition upd_bctx (i : nat) (f : BlockTranslationContext -> BlockTranslationContext) : C unit :=
  modify (fun s => mk_cstate (cs_globals s) (cs_vars s) (alter f i (cs_bctxs s)) (cs_ctxs s)
                     (m_localVarMap s) (cs_arrays s)).
Definition upd_ctx (i : nat) (f : TranslationContext -> TranslationContext) : C unit :=
  modify (fun s => mk_cstate (cs_globals s) (cs_vars s) (cs_bctxs s) (alter f i (cs_ctxs s))
                     (m_localVarMap s) (cs_arrays s)).
Definition new_var (v : LocalVarInfo) : C nat := fun s =>
  Ok (length (cs_vars s), mk_cstate (cs_globals s) (cs_vars s ++ [v]) (cs_bctxs s) (cs_ctxs s)
                            (m_localVarMap s) (cs_arrays s)).
(** A new block context is built knowing its own address. *)
Definition new_bctx (mk : nat -> BlockTranslationContext) : C nat := fun s =>
  let i := length (cs_bctxs s) in
  Ok (i, mk_cstate (cs_globals s) (cs_vars s) (cs_bctxs s ++ [mk i]) (cs_ctxs s)
           (m_localVarMap s) (cs_arrays s)).
Definition new_ctx (c : TranslationContext) : C nat := fun s =>
  Ok (length (cs_ctxs s), mk_cstate (cs_globals s) (cs_vars s) (cs_bctxs s) (cs_ctxs s ++ [c])
                            (m_localVarMap s) (cs_arrays s)).
Definition set_localVarMap (m : gmap string (list nat)) : C unit :=
  modify (fun s => mk_cstate (cs_globals s) (cs_vars s) (cs_bctxs s) (cs_ctxs s) m (cs_arrays s)).

Definition set_hasCapturedLocal (b : BlockTranslationContext) : BlockTranslationContext :=
  mk_bctx (m_startSlot b) (m_lexicalParent b) (m_owningContext b) (m_trueParent b) true
    (m_containsThrowableBlocks b) (m_blockMayThrow b) (m_returnValueMayBeDiscarded b)
    (m_returnValueSlot b) (m_uvs b) (m_uvOrdMap b).
Definition set_containsThrowableBlocks (b : BlockTranslationContext) : BlockTranslationContext :=
  mk_bctx (m_startSlot b) (m_lexicalParent b) (m_owningContext b) (m_trueParent b)
    (m_hasCapturedLocal b) true (m_blockMayThrow b) (m_returnValueMayBeDiscarded b)
    (m_returnValueSlot b) (m_uvs b) (m_uvOrdMap b).
Definition set_blockMayThrow (b : BlockTranslationContext) : BlockTranslationContext :=
  mk_bctx (m_startSlot b) (m_lexicalParent b) (m_owningContext b) (m_trueParent b)
    (m_hasCapturedLocal b) (m_containsThrowableBlocks b) true (m_returnValueMayBeDiscarded b)
    (m_returnValueSlot b) (m_uvs b) (m_uvOrdMap b).
Definition set_returnValue (discard : bool) (slot : nat) (b : BlockTranslationContext) : BlockTranslationContext :=
  mk_bctx (m_startSlot b) (m_lexicalParent b) (m_owningContext b) (m_trueParent b)
    (m_hasCapturedLocal b) (m_containsThrowableBlocks b) (m_blockMayThrow b) discard
    (Some slot) (m_uvs b) (m_uvOrdMap b).
Definition push_uv (uv : UVInfo) (b : BlockTranslationContext) : BlockTranslationContext :=
  mk_bctx (m_startSlot b) (m_lexicalParent b) (m_owningContext b) (m_trueParent b)
    (m_hasCapturedLocal b) (m_containsThrowableBlocks b) (m_blockMayThrow b)
    (m_returnValueMayBeDiscarded b) (m_returnValueSlot b) (m_uvs b ++ [uv])
    (match m_varInfo uv with
     | Some var => <[var := length (m_uvs b)]> (m_uvOrdMap b)
     | None => m_uvOrdMap b
     end).

Definition set_topSlot (slot : nat) (c : TranslationContext) : TranslationContext :=
  mk_ctx slot (m_builder c) (m_allUpvalueGetBytecodes c) (m_resultUcb c) (m_resultBCtx c).
Definition set_builder (f : BytecodeBuilder -> BytecodeBuilder) (c : TranslationContext) : TranslationContext :=
  mk_ctx (m_historyTopSlot c) (f (m_builder c)) (m_allUpvalueGetBytecodes c) (m_resultUcb c) (m_resultBCtx c).
Definition push_upvalueGet (pos : nat) (c : TranslationContext) : TranslationContext :=
  mk_ctx (m_historyTopSlot c) (m_builder c) (m_allUpvalueGetBytecodes c ++ [pos]) (m_resultUcb c) (m_resultBCtx c).
Definition set_ucb (f : UnlinkedCodeBlock -> UnlinkedCodeBlock) (c : TranslationContext) : TranslationContext :=
  mk_ctx (m_historyTopSlot c) (m_builder c) (m_allUpvalueGetBytecodes c) (f (m_resultUcb c)) (m_resultBCtx c).
Definition set_resultBCtx (bid : nat) (c : TranslationContext) : TranslationContext :=
  mk_ctx (m_historyTopSlot c) (m_builder c) (m_allUpvalueGetBytecodes c) (m_resultUcb c) (Some bid).
Definition set_fnKind (k : SOMDetailEntityType) (u : UnlinkedCodeBlock) : UnlinkedCodeBlock :=
  mk_ucb (m_parent u) (m_numFixedArguments u) k (m_trivialFnType u) (m_trivialFnInfo u)
    (m_stackFrameNumSlots u) (m_upvalueInfo u).
Definition set_block_ucb (parent nargs : nat) (u : UnlinkedCodeBlock) : UnlinkedCodeBlock :=
  mk_ucb (Some parent) nargs (m_fnKind u) (m_trivialFnType u) (m_trivialFnInfo u)
    (m_stackFrameNumSlots u) (m_upvalueInfo u).
Definition set_trivial (k : SOMMethodLookupResultKind) (i : TrivialFnInfo) (u : UnlinkedCodeBlock) : UnlinkedCodeBlock :=
  mk_ucb (m_parent u) (m_numFixedArguments u) (m_fnKind u) k i
    (m_stackFrameNumSlots u) (m_upvalueInfo u).
Definition set_frame (slots : nat) (uvs : list UpvalueMetadata) (u : UnlinkedCodeBlock) : UnlinkedCodeBlock :=
  mk_ucb (m_parent u) (m_numFixedArguments u) (m_fnKind u) (m_trivialFnType u) (m_trivialFnInfo u) slots uvs.

(** [UpdateTopSlot] *)
Definition UpdateTopSlot (cid slot : nat) : C unit :=
  upd_ctx cid (fun c => set_topSlot (max (m_historyTopSlot c) slot) c).

Definition emit (cid : nat) (bc : Bytecode) : C unit :=
  upd_ctx cid (set_builder (create bcLength bcConstants bc)).

Definition curLen (cid : nat) : C nat :=
  c ← the_ctx cid; mret (GetCurLength (m_builder c)).

Definition too_far : error :=
  Aborted "[ERROR] Branch exceeded bytecode maximum branch distance, function is too long.".

(** [if (!SetBranchTarget(...)) abort();] *)
Definition setBranch (cid loc target : nat) : C unit :=
  c ← the_ctx cid;
  let '(ok, b) := SetBranchTarget loc target (m_builder c) in
  check ok too_far ;;
  upd_ctx cid (set_builder (fun _ => b)).

(** [SafeIntegerCast<uint16_t>] *)
Definition uint16 (n : nat) : C nat :=
  check (Z.of_nat n <? 2 ^ 16)%Z (AssertFailed "IntegerCanBeRepresentedIn<uint16_t>(src)") ;; mret n.

(** ** Upvalues *)

(** [AddUpvalue]: the ordinal of [var] among the upvalues of the function whose
    context is [this].  The recursion goes to the enclosing function. *)
Fixpoint AddUpvalue (fuel : nat) (this var : nat) : C nat :=
  match fuel with
  | O => fail OutOfFuel
  | S fuel' =>
      me ← the_bctx this;
      check (negb (IsInlined this me)) (AssertFailed "!IsInlined()") ;;
      v ← the_var var;
      upd_bctx (var_bctx v) set_hasCapturedLocal ;;
      def ← the_bctx (var_bctx v);
      let defContext := m_owningContext def in
      check (negb (this =? defContext)) (AssertFailed "this != defContext") ;;
      check (negb (bool_decide (m_trueParent me = None))) (AssertFailed "m_trueParent != nullptr") ;;
      match m_uvOrdMap me !! var with
      | Some ord => mret ord
      | None =>
          match m_trueParent me with
          | None => fail dangling
          | Some parent =>
              uv ← (if parent =? defContext
                    then mret (mk_uvinfo true (Some (m_slotOrd v)) None (Some var))
                    else
                      parentUvOrd ← AddUpvalue fuel' parent var;
                      mret (mk_uvinfo false None (Some parentUvOrd) (Some var)));
              upd_bctx this (push_uv uv) ;;
              me' ← the_bctx this;
              mret (length (m_uvs me') - 1)
          end
      end
  end.

Definition AddUpvalue_top (this var : nat) : C nat := fun s =>
  AddUpvalue (S (length (cs_bctxs s))) this var s.

(** ** Constants *)
Definition CreateConstantNonArray (node : AstExpr) : result Cst :=
  match node with
  | AstDouble d => Ok (CstDouble d)
  | AstInteger z => Ok (CstInt32 z)
  | AstString ord => Ok (CstInternedString ord)
  | AstSymbol ord => Ok (CstInternedSymbol ord)
  | _ => Err (AssertFailed "node->IsNonArrayLiteral()")
  end.

(** The array is allocated before its elements are built. *)
Definition alloc_array : C nat := fun s =>
  Ok (length (cs_arrays s), mk_cstate (cs_globals s) (cs_vars s) (cs_bctxs s) (cs_ctxs s)
                              (m_localVarMap s) (cs_arrays s ++ [[]])).
Definition push_element (addr : nat) (c : Cst) : C unit :=
  modify (fun s => mk_cstate (cs_globals s) (cs_vars s) (cs_bctxs s) (cs_ctxs s) (m_localVarMap s)
                     (alter (fun l => l ++ [c]) addr (cs_arrays s))).

Fixpoint CreateConstant (node : AstExpr) : C Cst :=
  match node with
  | AstArray elements =>
      r ← alloc_array;
      (fix fill (es : list AstExpr) : C unit :=
         match es with
         | [] => mret tt
         | e :: es' => v ← CreateConstant e; push_element r v ;; fill es'
         end) elements ;;
      mret (CstArray r)
  | _ => lift_result (CreateConstantNonArray node)
  end.

Definition CreateConstantArray (node : AstExpr) : C Cst := CreateConstant node.

(** ** Variables *)
Inductive VarUseKind : Type := VuLocal | VuUpvalue | VuField | VuGlobal | VuFalseTrueNil.
Record VarResolveResult : Type := mk_vr { vr_kind : VarUseKind; vr_ord : nat }.

Definition GetTValueForFalseTrueNil (vr : VarResolveResult) : result Cst :=
  match vr_kind vr, vr_ord vr with
  | VuFalseTrueNil, 0 => Ok (CstBool false)
  | VuFalseTrueNil, 1 => Ok (CstBool true)
  | VuFalseTrueNil, 2 => Ok CstNil
  | VuFalseTrueNil, _ => Err (AssertFailed "m_ord == 2")
  | _, _ => Err (AssertFailed "m_kind == VarUseKind::FalseTrueNil")
  end.

Inductive VarResolveMode : Type := ForRead | ForWrite | DryRun.
#[export] Instance VarResolveMode_eq_dec : EqDecision VarResolveMode.
Proof. solve_decision. Defined.

Definition GetSlotForGlobal_c (name : string) : C nat := fun s =>
  let '(slot, g) := GetSlotForGlobal HashString name (cs_globals s) in
  Ok (slot, mk_cstate g (cs_vars s) (cs_bctxs s) (cs_ctxs s) (m_localVarMap s) (cs_arrays s)).

(** [m_localVarMap[name].back()] *)
Definition innermost (name : string) : C (option nat) :=
  gets (fun s => m_localVarMap s !! name ≫= fun l => last l).

Definition resolve_local (bid var : nat) (mode : VarResolveMode) : C VarResolveResult :=
  v ← the_var var;
  (match mode with
   | ForRead => upd_var var NotifyUse
   | ForWrite => upd_var var (NotifyWrite (bid =? var_bctx v))
   | DryRun => mret tt
   end) ;;
  v ← the_var var;
  def ← the_bctx (var_bctx v);
  b ← the_bctx bid;
  if negb (m_owningContext def =? m_owningContext b) then
    check (negb (bool_decide (mode = ForWrite)) || negb (m_isImmutable v))
      (AssertFailed "mode == ForWrite implies !var->m_isImmutable") ;;
    uvOrd ← AddUpvalue_top (m_owningContext b) var;
    mret (mk_vr VuUpvalue uvOrd)
  else mret (mk_vr VuLocal (m_slotOrd v)).

Definition resolve_nonlocal (env : CompileEnv) (name : string) (mode : VarResolveMode) : C VarResolveResult :=
  match m_fieldMap env !! name with
  | Some ord => mret (mk_vr VuField ord)
  | None =>
      if bool_decide (mode = ForWrite) then
        fail (Aborted ("Write to undefined variable/field " +:+ name +:+ " is not allowed!"))
      else if bool_decide (name = "false"%string) then mret (mk_vr VuFalseTrueNil 0)
      else if bool_decide (name = "true"%string) then mret (mk_vr VuFalseTrueNil 1)
      else if bool_decide (name = "nil"%string) then mret (mk_vr VuFalseTrueNil 2)
      else slot ← GetSlotForGlobal_c name; mret (mk_vr VuGlobal slot)
  end.

Definition is_self_or_super (name : string) : bool :=
  bool_decide (name = "self"%string) || bool_decide (name = "super"%string).

Definition ResolveVariable (env : CompileEnv) (bid : nat) (name : string) (mode : VarResolveMode)
    : C VarResolveResult :=
  if is_self_or_super name then
    if bool_decide (mode = ForWrite) then fail (Aborted "Write to 'self' or 'super' is not allowed!")
    else mret (mk_vr VuLocal 0)
  else
    var ← innermost name;
    match var with
    | Some v => resolve_local bid v mode
    | None => resolve_nonlocal env name mode
    end.

Definition is_kind (k : VarUseKind) (vr : VarResolveResult) : bool :=
  match k, vr_kind vr with
  | VuLocal, VuLocal | VuUpvalue, VuUpvalue | VuField, VuField | VuGlobal, VuGlobal
  | VuFalseTrueNil, VuFalseTrueNil => true
  | _, _ => false
  end.

Definition IsVariableResolvedToLocal (env : CompileEnv) (bid : nat) (name : string) : C bool :=
  vr ← ResolveVariable env bid name DryRun; mret (is_kind VuLocal vr).
Definition IsVariableResolvedToGlobal (env : CompileEnv) (bid : nat) (name : string) : C bool :=
  vr ← ResolveVariable env bid name DryRun; mret (is_kind VuGlobal vr).
Definition IsVariableResolvedToFalseTrueNil (env : CompileEnv) (bid : nat) (name : string) : C bool :=
  vr ← ResolveVariable env bid name DryRun; mret (is_kind VuFalseTrueNil vr).
Definition IsVariableResolvedToLocalOrFalseTrueNil (env : CompileEnv) (bid : nat) (name : string) : C bool :=
  vr ← ResolveVariable env bid name DryRun; mret (is_kind VuLocal vr || is_kind VuFalseTrueNil vr).

(** The slot, when the expression is a variable that resolves to a local. *)
Definition DetectTrivialLocalVarUse (env : CompileEnv) (bid : nat) (expr : AstExpr) : C (option nat) :=
  match expr with
  | AstVariableUse name =>
      l ← IsVariableResolvedToLocal env bid name;
      if (l : bool) then
        vr ← ResolveVariable env bid name ForRead;
        check (is_kind VuLocal vr) (AssertFailed "vr.m_kind == VarUseKind::Local") ;;
        mret (Some (vr_ord vr))
      else mret None
  | _ => mret None
  end.

Definition DetectTrivialLocalVarOrConstantUse (env : CompileEnv) (bid : nat) (expr : AstExpr)
    : C (option Operand) :=
  if IsNonArrayLiteral expr then
    c ← lift_result (CreateConstantNonArray expr); mret (Some (OCst c))
  else
    match expr with
    | AstVariableUse name =>
        l ← IsVariableResolvedToLocalOrFalseTrueNil env bid name;
        if (l : bool) then
          vr ← ResolveVariable env bid name ForRead;
          if is_kind VuLocal vr then mret (Some (OLocal (vr_ord vr)))
          else c ← lift_result (GetTValueForFalseTrueNil vr); mret (Some (OCst c))
        else mret None
    | _ => mret None
    end.

Definition CompileAstLiteral (cid : nat) (node : AstExpr) (destSlot : nat) : C unit :=
  UpdateTopSlot cid destSlot ;;
  check (IsLiteral node) (AssertFailed "node->IsLiteral()") ;;
  match node with
  | AstArray _ => tv ← CreateConstantArray node; emit cid (BcSOMArrayDup tv destSlot)
  | _ => tv ← lift_result (CreateConstantNonArray node); emit cid (BcMov (OCst tv) destSlot)
  end.

(** The test-build check that the slot is not that of [true], [false] or [nil]. *)
Definition check_global_name (ord : nat) : C unit := fun s =>
  match m_globalStringIdWithIndex (cs_globals s) !! ord with
  | None => Err (AssertFailed "vr.m_ord < vm->m_globalStringIdWithIndex.size()")
  | Some id =>
      match Get id (g_interner (cs_globals s)) with
      | Err e => Err e
      | Ok name =>
          check (negb (bool_decide (name ∈ ["false"; "true"; "nil"]%string)))
            (AssertFailed "globalName is not false, true or nil") s
      end
  end.

Definition CompileVarUse (env : CompileEnv) (cid bid : nat) (name : string) (destSlot : nat) : C unit :=
  UpdateTopSlot cid destSlot ;;
  vr ← ResolveVariable env bid name ForRead;
  match vr_kind vr with
  | VuLocal => emit cid (BcMov (OLocal (vr_ord vr)) destSlot)
  | VuUpvalue =>
      pos ← curLen cid;
      upd_ctx cid (push_upvalueGet pos) ;;
      ord ← uint16 (vr_ord vr);
      emit cid (BcUpvalueGetMutable ord destSlot)
  | VuField => ord ← uint16 (vr_ord vr); emit cid (BcSOMGetField 0 ord destSlot)
  | VuGlobal =>
      check_global_name (vr_ord vr) ;;
      ord ← uint16 (vr_ord vr);
      emit cid (BcSOMGlobalGet 0 ord destSlot)
  | VuFalseTrueNil =>
      c ← lift_result (GetTValueForFalseTrueNil vr);
      emit cid (BcMov (OCst c) destSlot)
  end.

Definition EmitAssignValueToLhs (cid : nat) (vr : VarResolveResult) (valToPut : Operand) : C unit :=
  match vr_kind vr with
  | VuLocal => emit cid (BcMov valToPut (vr_ord vr))
  | VuUpvalue => ord ← uint16 (vr_ord vr); emit cid (BcUpvaluePut ord valToPut)
  | VuField => ord ← uint16 (vr_ord vr); emit cid (BcSOMPutField 0 ord valToPut)
  | _ => fail (AssertFailed "put global should not happen here!")
  end.

(** [for (VariableInfo& vi : node->m_lhs)]: resolve for writing and assign. *)
Fixpoint assign_all (env : CompileEnv) (cid bid : nat) (lhs : list string) (val : Operand) : C unit :=
  match lhs with
  | [] => mret tt
  | x :: lhs' =>
      vr ← ResolveVariable env bid x ForWrite;
      EmitAssignValueToLhs cid vr val ;;
      assign_all env cid bid lhs' val
  end.

(** The first left-hand side that resolves to a local: the resolution stops there. *)
Fixpoint first_local (env : CompileEnv) (bid : nat) (i : nat) (lhs : list string) : C (option nat) :=
  match lhs with
  | [] => mret None
  | x :: lhs' =>
      l ← IsVariableResolvedToLocal env bid x;
      if (l : bool) then mret (Some i) else first_local env bid (S i) lhs'
  end.

Definition ReceiverIsSelf (e : AstExpr) : bool :=
  match e with AstVariableUse x => bool_decide (x = "self"%string) | _ => false end.
Definition ReceiverIsSuper (e : AstExpr) : bool :=
  match e with AstVariableUse x => bool_decide (x = "super"%string) | _ => false end.

Inductive SOMReceiverKind : Type := RcvNormal | RcvObjectSelf | RcvSuper.
#[export] Instance SOMReceiverKind_eq_dec : EqDecision SOMReceiverKind.
Proof. solve_decision. Defined.

Definition receiver_kind (env : CompileEnv) (receiver : AstExpr) : SOMReceiverKind :=
  if ReceiverIsSelf receiver && m_isSelfObject env then RcvObjectSelf
  else if ReceiverIsSuper receiver then RcvSuper
  else RcvNormal.

Definition x_numSlotsForStackFrameHeader : nat := 4.

(** ** Local variables *)
Definition InstallLocalVariable (bid : nat) (name : string) (slot : nat) : C unit :=
  vi ← new_var (new_LocalVarInfo bid slot);
  s ← get_st;
  set_localVarMap (<[name := default [] (m_localVarMap s !! name) ++ [vi]]> (m_localVarMap s)).

Fixpoint install_all (bid : nat) (names : list string) (slot : nat) : C nat :=
  match names with
  | [] => mret slot
  | x :: names' => InstallLocalVariable bid x slot ;; install_all bid names' (S slot)
  end.

(** Returns the first free slot. *)
Definition InstallLocalVariables (cid bid : nat) (params locals : list string) (startSlot : nat) : C nat :=
  slot ← install_all bid params startSlot;
  (if 0 <? length locals
   then n ← uint16 (length locals); emit cid (BcRangeFillNils slot n) else mret tt) ;;
  install_all bid locals slot.

Definition UninstallLocalVariable (bid : nat) (name : string) : C unit :=
  s ← get_st;
  match m_localVarMap s !! name with
  | None => fail (AssertFailed "it != ctx.m_localVarMap.end()")
  | Some l =>
      match last l with
      | None => fail (AssertFailed "!it->second.empty()")
      | Some var =>
          v ← the_var var;
          check (var_bctx v =? bid) (AssertFailed "it->second.back()->m_bctx == &bctx") ;;
          set_localVarMap (<[name := take (length l - 1) l]> (m_localVarMap s))
      end
  end.

Fixpoint uninstall_all (bid : nat) (names : list string) : C unit :=
  match names with
  | [] => mret tt
  | x :: names' => UninstallLocalVariable bid x ;; uninstall_all bid names'
  end.

Definition UninstallLocalVariables (bid : nat) (params locals : list string) : C unit :=
  uninstall_all bid (rev locals) ;; uninstall_all bid (rev params).

(** ** Expressions and statements

    [compile cid bid node clobberSlot destSlot isTopLevel] is the compilation of a
    child node: [CompileExpression], or for a call the [Compile...Call] function
    with its [isTopLevel] flag. *)
Section with_compile.
Context (env : CompileEnv).
Context (compile : nat -> nat -> AstExpr -> nat -> nat -> bool -> C unit).

Definition CompileAssignation (cid bid : nat) (lhs : list string) (rhs : AstExpr)
    (clobberSlot destSlot : nat) : C unit :=
  UpdateTopSlot cid destSlot ;;
  compile cid bid rhs clobberSlot destSlot false ;;
  assign_all env cid bid lhs (OLocal destSlot).

(** The assignments of [CompileTopLevelAssignation] to the left-hand sides other
    than [skip]. *)
Fixpoint assign_others (cid bid : nat) (skip i : nat) (lhs : list string) (val : Operand) : C unit :=
  match lhs with
  | [] => mret tt
  | x :: lhs' =>
      (if i =? skip then mret tt
       else vr ← ResolveVariable env bid x ForWrite; EmitAssignValueToLhs cid vr val) ;;
      assign_others cid bid skip (S i) lhs' val
  end.

Definition CompileTopLevelAssignation (cid bid : nat) (lhs : list string) (rhs : AstExpr)
    (clobberSlot : nat) : C unit :=
  trivial ← DetectTrivialLocalVarOrConstantUse env bid rhs;
  match trivial with
  | Some val => assign_all env cid bid lhs val
  | None =>
      lhsLocalOrd ← first_local env bid 0 lhs;
      match lhsLocalOrd with
      | Some ord =>
          match lhs !! ord with
          | None => fail dangling
          | Some x =>
              vr ← ResolveVariable env bid x ForWrite;
              check (is_kind VuLocal vr) (AssertFailed "vr.m_kind == VarUseKind::Local") ;;
              compile cid bid rhs clobberSlot (vr_ord vr) false ;;
              assign_others cid bid ord 0 lhs (OLocal (vr_ord vr))
          end
      | None => CompileAssignation cid bid lhs rhs clobberSlot clobberSlot
      end
  end.

Definition CompileReturn (cid bid : nat) (node : AstExpr) (clobberSlot : nat) : C unit :=
  compile cid bid node clobberSlot clobberSlot false ;;
  b ← the_bctx bid;
  (if MustEmitUpvalueCloseBeforeReturn b then emit cid (BcUpvalueClose 0) else mret tt) ;;
  emit cid (BcRet clobberSlot 1).

Definition CompileThrow (cid bid : nat) (node : AstExpr) (clobberSlot : nat) : C unit :=
  upd_bctx bid set_blockMayThrow ;;
  compile cid bid node clobberSlot clobberSlot false ;;
  emit cid (BcSOMThrow clobberSlot).

(** [ShouldCompileThrowIntoReturn], [ReturnValueMayBeDiscarded],
    [GetReturnValueSlotForInlinedBlock], with their assertions. *)
Definition ShouldCompileThrowIntoReturn (bid : nat) : C bool :=
  b ← the_bctx bid;
  check (negb (IsTopLevelMethod bid b)) (AssertFailed "!IsTopLevelMethod()") ;;
  mret (IsInlinedIntoTopLevelMethod b).
Definition ReturnValueMayBeDiscarded (bid : nat) : C bool :=
  b ← the_bctx bid;
  check (IsInlined bid b) (AssertFailed "IsInlined()") ;;
  mret (m_returnValueMayBeDiscarded b).
Definition GetReturnValueSlotForInlinedBlock (bid : nat) : C nat :=
  b ← the_bctx bid;
  check (IsInlined bid b) (AssertFailed "IsInlined()") ;;
  match m_returnValueSlot b with
  | Some slot => mret slot
  | None => fail (AssertFailed "m_returnValueSlot != static_cast<uint32_t>(-1)")
  end.

(** The empty block or method. *)
Definition CompileEmptyBody (cid bid : nat) : C unit :=
  b ← the_bctx bid;
  if negb (IsTopLevelMethod bid b) then
    if IsInlined bid b then
      discard ← ReturnValueMayBeDiscarded bid;
      if (discard : bool) then mret tt
      else slot ← GetReturnValueSlotForInlinedBlock bid; emit cid (BcMov (OCst CstNil) slot)
    else emit cid (BcMov (OCst CstNil) 0) ;; emit cid (BcRet 0 1)
  else emit cid (BcRet 0 1).

(** Whether the value expression of an inlined block has no effect and its value is not wanted. *)
Definition value_discardable (bid : nat) (expr : AstExpr) : C bool :=
  discard ← ReturnValueMayBeDiscarded bid;
  if negb discard then mret false
  else if IsLiteral expr then mret true
  else match expr with
       | AstVariableUse x => g ← IsVariableResolvedToGlobal env bid x; mret (negb g)
       | AstNestedBlock _ _ _ => mret true
       | _ => mret false
       end.

(** The last statement of a block: its value is the block's. *)
Definition CompileBlockValue (cid bid : nat) (expr : AstExpr) (clobberSlot : nat) : C unit :=
  b ← the_bctx bid;
  if IsInlined bid b then
    (if MustEmitUpvalueCloseBeforeReturn b then emit cid (BcUpvalueClose (m_startSlot b)) else mret tt) ;;
    skip ← value_discardable bid expr;
    if (skip : bool) then mret tt
    else slot ← GetReturnValueSlotForInlinedBlock bid; compile cid bid expr clobberSlot slot false
  else CompileReturn cid bid expr clobberSlot.

(** A statement whose value is dropped. *)
Definition CompileStatement (cid bid : nat) (expr : AstExpr) (clobberSlot : nat) : C unit :=
  match expr with
  | AstAssignation lhs rhs => CompileTopLevelAssignation cid bid lhs rhs clobberSlot
  | AstUnaryCall _ _ | AstBinaryCall _ _ _ | AstKeywordCall _ _ _ =>
      compile cid bid expr clobberSlot clobberSlot true
  | _ => compile cid bid expr clobberSlot clobberSlot false
  end.

(** The loop over the statements; returns [shouldReturnSelf]. *)
Fixpoint CompileStatements (cid bid : nat) (body : list AstExpr) (clobberSlot : nat) : C bool :=
  match body with
  | [] => mret false
  | AstReturn retVal :: _ =>
      b ← the_bctx bid;
      (if negb (IsTopLevelMethod bid b) then
         r ← ShouldCompileThrowIntoReturn bid;
         if (r : bool) then CompileReturn cid bid retVal clobberSlot
         else CompileThrow cid bid retVal clobberSlot
       else CompileReturn cid bid retVal clobberSlot) ;;
      mret false
  | [expr] =>
      b ← the_bctx bid;
      if negb (IsTopLevelMethod bid b) then
        CompileBlockValue cid bid expr clobberSlot ;; mret false
      else CompileStatement cid bid expr clobberSlot ;; mret true
  | expr :: body' =>
      CompileStatement cid bid expr clobberSlot ;;
      CompileStatements cid bid body' clobberSlot
  end.

Definition CompileBlockBody (cid bid : nat) (body : list AstExpr) (clobberSlot : nat) : C unit :=
  match body with
  | [] => CompileEmptyBody cid bid
  | _ =>
      shouldReturnSelf ← CompileStatements cid bid body clobberSlot;
      if (shouldReturnSelf : bool) then
        b ← the_bctx bid;
        check (IsTopLevelMethod bid b) (AssertFailed "bctx.IsTopLevelMethod()") ;;
        (if MustEmitUpvalueCloseBeforeReturn b then emit cid (BcUpvalueClose 0) else mret tt) ;;
        emit cid (BcRet 0 1)
      else mret tt
  end.

(** [if (newBCtx->m_blockMayThrow || newBCtx->m_containsThrowableBlocks) ...] *)
Definition propagate_throw (bid newBCtx : nat) : C unit :=
  nb ← the_bctx newBCtx;
  if m_blockMayThrow nb || m_containsThrowableBlocks nb
  then upd_bctx bid set_containsThrowableBlocks else mret tt.

Definition InlineBlock (cid bid : nat) (params locals : list string) (body : list AstExpr)
    (frameStartSlot destSlot : nat) (mayDiscardReturnValue : bool) : C unit :=
  UpdateTopSlot cid destSlot ;;
  UpdateTopSlot cid frameStartSlot ;;
  check (length params <=? 2) (AssertFailed "block->m_params.size() <= 2") ;;
  b ← the_bctx bid;
  newBCtx ← new_bctx (fun _ => new_inlined_context frameStartSlot (Some bid) (m_owningContext b) (m_trueParent b));
  nb ← the_bctx newBCtx;
  check (IsInlined newBCtx nb) (AssertFailed "newBCtx->IsInlined()") ;;
  upd_bctx newBCtx (set_returnValue mayDiscardReturnValue destSlot) ;;
  firstFreeSlot ← InstallLocalVariables cid newBCtx params locals frameStartSlot;
  UpdateTopSlot cid firstFreeSlot ;;
  CompileBlockBody cid newBCtx body firstFreeSlot ;;
  UninstallLocalVariables newBCtx params locals ;;
  nb ← the_bctx newBCtx;
  check ((length (m_uvs nb) =? 0) && bool_decide (m_uvOrdMap nb = ∅))
    (AssertFailed "newBCtx->m_uvs.size() == 0 && newBCtx->m_uvOrdMap.size() == 0") ;;
  propagate_throw bid newBCtx.

Definition block_fnKind (nparams : nat) (selfMutable : bool) : result SOMDetailEntityType :=
  match nparams with
  | 0 => Ok (if selfMutable then SOM_BlockNoArg else SOM_BlockNoArgImmSelf)
  | 1 => Ok (if selfMutable then SOM_BlockOneArg else SOM_BlockOneArgImmSelf)
  | 2 => Ok (if selfMutable then SOM_BlockTwoArgs else SOM_BlockTwoArgsImmSelf)
  | _ => Err (AssertFailed "block->m_params.size() == 2")
  end.

Definition CompileNewBlock (cid bid : nat) (params locals : list string) (body : list AstExpr)
    (destSlot : nat) : C unit :=
  UpdateTopSlot cid destSlot ;;
  newCtx ← new_ctx new_context;
  upd_ctx newCtx (set_ucb (set_block_ucb cid (length params + 1))) ;;
  check (length params <=? 2) (AssertFailed "block->m_params.size() <= 2") ;;
  b ← the_bctx bid;
  newBCtx ← new_bctx (fun self => new_block_context self (Some bid) (Some (m_owningContext b)));
  upd_bctx newBCtx (push_uv (mk_uvinfo true (Some 0) None None)) ;;
  upd_ctx newCtx (set_resultBCtx newBCtx) ;;
  firstFreeSlot ← InstallLocalVariables newCtx newBCtx params locals 1;
  upd_ctx newCtx (set_topSlot firstFreeSlot) ;;
  CompileBlockBody newCtx newBCtx body firstFreeSlot ;;
  UninstallLocalVariables newBCtx params locals ;;
  propagate_throw bid newBCtx ;;
  nb ← the_bctx newBCtx;
  kind ← lift_result (block_fnKind (length params) (MustMutablyCaptureSelf nb));
  upd_ctx newCtx (set_ucb (set_fnKind kind)) ;;
  emit cid (BcNewClosure (CstUnlinkedCodeBlock newCtx) destSlot).

(** ** Message sends *)

(** The slot of a receiver: its own when it is a local, otherwise [slot], into
    which it is compiled. *)
Definition local_or_compile (cid bid : nat) (e : AstExpr) (slot : nat) : C nat :=
  l ← DetectTrivialLocalVarUse env bid e;
  match l with
  | Some condSlot => mret condSlot
  | None => compile cid bid e slot slot false ;; mret slot
  end.

Definition compile_branch_if (cid : nat) (br : Bytecode) : C nat :=
  loc ← curLen cid; emit cid br ;; mret loc.

Definition branch_to_here (cid loc : nat) : C unit :=
  here ← curLen cid; setBranch cid loc here.

(** The end of [ifTrue:], [and:] and their like: the jump over the block lands
    here, after an explicit else branch that moves [elseValue] to the result if
    it could not be stored early. *)
Definition finish_branch (cid branchBcLoc : nat) (needExplicitElseBranch : bool) (elseValue : Operand)
    (destSlot : nat) : C unit :=
  if negb needExplicitElseBranch then branch_to_here cid branchBcLoc
  else
    elseBrLoc ← curLen cid;
    emit cid (BcBranch None) ;;
    branch_to_here cid branchBcLoc ;;
    emit cid (BcMov elseValue destSlot) ;;
    branch_to_here cid elseBrLoc.

(** [ifTrue:], [ifFalse:], [ifNil:], [ifNotNil:] with a block argument. *)
Definition inline_if_one (cid bid : nat) (receiver : AstExpr) (methId : nat) (args : list AstExpr)
    (clobberSlot destSlot : nat) (isTopLevel : bool) : C bool :=
  let vm := e_vm env in
  if negb ((methId =? v_stringIdForIfTrue vm) || (methId =? v_stringIdForIfFalse vm) ||
           (methId =? v_stringIdForIfNil vm) || (methId =? v_stringIdForIfNotNil vm)) then mret false
  else
    check (length args =? 1) (AssertFailed "args.size() == 1") ;;
    match args with
    | AstNestedBlock [] locals body :: _ =>
        condSlot ← local_or_compile cid bid receiver clobberSlot;
        let isBool := (methId =? v_stringIdForIfFalse vm) || (methId =? v_stringIdForIfTrue vm) in
        let c := if methId =? v_stringIdForIfFalse vm then IfTrue
                 else if methId =? v_stringIdForIfTrue vm then IfFalse
                 else if methId =? v_stringIdForIfNil vm then IfNotNil
                 else IfNil in
        (if isBool || (methId =? v_stringIdForIfNil vm) then mret tt
         else check (methId =? v_stringIdForIfNotNil vm) (AssertFailed "methId == vm->m_stringIdForIfNotNil")) ;;
        let plain := isTopLevel || (negb isBool && (condSlot =? destSlot)) in
        let needExplicitElseBranch := negb plain && negb (clobberSlot <=? destSlot) in
        branchBcLoc ← compile_branch_if cid
          (if plain || needExplicitElseBranch then BcBranchIf c condSlot None
           else if isBool then BcStoreNilAndBranchIf c condSlot destSlot None
           else BcCopyAndBranchIf c condSlot destSlot None);
        InlineBlock cid bid [] locals body clobberSlot destSlot isTopLevel ;;
        finish_branch cid branchBcLoc needExplicitElseBranch
          (if isBool then OCst CstNil else OLocal condSlot) destSlot ;;
        mret true
    | _ => mret false
    end.

(** [ifTrue:ifFalse:] and its like with two block arguments. *)
Definition inline_if_two (cid bid : nat) (receiver : AstExpr) (methId : nat) (args : list AstExpr)
    (clobberSlot destSlot : nat) (isTopLevel : bool) : C bool :=
  let vm := e_vm env in
  if negb ((methId =? v_stringIdForIfTrueIfFalse vm) || (methId =? v_stringIdForIfFalseIfTrue vm) ||
           (methId =? v_stringIdForIfNilIfNotNil vm) || (methId =? v_stringIdForIfNotNilIfNil vm)) then mret false
  else
    check (length args =? 2) (AssertFailed "args.size() == 2") ;;
    match args with
    | AstNestedBlock [] locals1 body1 :: AstNestedBlock [] locals2 body2 :: _ =>
        condSlot ← local_or_compile cid bid receiver clobberSlot;
        let c := if methId =? v_stringIdForIfTrueIfFalse vm then IfFalse
                 else if methId =? v_stringIdForIfFalseIfTrue vm then IfTrue
                 else if methId =? v_stringIdForIfNilIfNotNil vm then IfNotNil
                 else IfNil in
        branchBcLoc ← compile_branch_if cid (BcBranchIf c condSlot None);
        InlineBlock cid bid [] locals1 body1 clobberSlot destSlot isTopLevel ;;
        elseBranchBcLoc ← compile_branch_if cid (BcBranch None);
        branch_to_here cid branchBcLoc ;;
        InlineBlock cid bid [] locals2 body2 clobberSlot destSlot false ;;
        branch_to_here cid elseBranchBcLoc ;;
        mret true
    | _ => mret false
    end.

(** [and:], [or:], [&&], [||] with a block argument. *)
Definition inline_and_or (cid bid : nat) (receiver : AstExpr) (methId : nat) (args : list AstExpr)
    (clobberSlot destSlot : nat) (isTopLevel : bool) : C bool :=
  let vm := e_vm env in
  if negb ((methId =? v_stringIdForMethodAnd vm) || (methId =? v_stringIdForMethodOr vm) ||
           (methId =? v_stringIdForOperatorAnd vm) || (methId =? v_stringIdForOperatorOr vm)) then mret false
  else
    check (length args =? 1) (AssertFailed "args.size() == 1") ;;
    match args with
    | AstNestedBlock [] locals body :: _ =>
        condSlot ← local_or_compile cid bid receiver clobberSlot;
        let isAnd := (methId =? v_stringIdForMethodAnd vm) || (methId =? v_stringIdForOperatorAnd vm) in
        let c := if isAnd then IfFalse else IfTrue in
        let plain := (condSlot =? destSlot) || isTopLevel in
        let needExplicitElseBranch := negb plain && negb (clobberSlot <=? destSlot) in
        branchBcLoc ← compile_branch_if cid
          (if plain || needExplicitElseBranch then BcBranchIf c condSlot None
           else BcCopyAndBranchIf c condSlot destSlot None);
        InlineBlock cid bid [] locals body clobberSlot destSlot isTopLevel ;;
        finish_branch cid branchBcLoc needExplicitElseBranch (OLocal condSlot) destSlot ;;
        mret true
    | _ => mret false
    end.

(** [whileTrue:], [whileFalse:] between two blocks. *)
Definition inline_while (cid bid : nat) (receiver : AstExpr) (methId : nat) (args : list AstExpr)
    (clobberSlot destSlot : nat) (isTopLevel : bool) : C bool :=
  let vm := e_vm env in
  if negb ((methId =? v_stringIdForWhileTrue vm) || (methId =? v_stringIdForWhileFalse vm)) then mret false
  else
    check (length args =? 1) (AssertFailed "args.size() == 1") ;;
    match receiver, args with
    | AstNestedBlock [] locals1 body1, AstNestedBlock [] locals2 body2 :: _ =>
        loopBeginOffset ← curLen cid;
        InlineBlock cid bid [] locals1 body1 clobberSlot clobberSlot false ;;
        checkCondOffset ← compile_branch_if cid
          (BcBranchIf (if methId =? v_stringIdForWhileTrue vm then IfFalse else IfTrue) clobberSlot None);
        InlineBlock cid bid [] locals2 body2 clobberSlot clobberSlot true ;;
        endBranchBcLoc ← compile_branch_if cid (BcBranchLoopHint None);
        setBranch cid endBranchBcLoc loopBeginOffset ;;
        branch_to_here cid checkCondOffset ;;
        (if negb isTopLevel then emit cid (BcMov (OCst CstNil) destSlot) else mret tt) ;;
        mret true
    | _, _ => mret false
    end.

(** [to:do:], [downTo:do:] with a one-argument block. *)
Definition inline_to_do (cid bid : nat) (receiver : AstExpr) (methId : nat) (args : list AstExpr)
    (clobberSlot destSlot : nat) (isTopLevel : bool) : C bool :=
  let vm := e_vm env in
  if negb ((methId =? v_stringIdForToDo vm) || (methId =? v_stringIdForDowntoDo vm)) then mret false
  else
    check (length args =? 2) (AssertFailed "args.size() == 2") ;;
    match args with
    | limit :: AstNestedBlock [p] locals body :: _ =>
        compile cid bid receiver clobberSlot clobberSlot false ;;
        (if negb isTopLevel then emit cid (BcMov (OLocal clobberSlot) (clobberSlot + 1)) else mret tt) ;;
        let clobberSlot := if negb isTopLevel then clobberSlot + 1 else clobberSlot in
        compile cid bid limit (clobberSlot + 1) (clobberSlot + 1) false ;;
        UpdateTopSlot cid (clobberSlot + 2) ;;
        let downto := negb (methId =? v_stringIdForToDo vm) in
        loopStartOffset ← compile_branch_if cid
          (BcCheckForLoopStartCond downto clobberSlot (clobberSlot + 1) (clobberSlot + 2) None);
        bodyStartOffset ← curLen cid;
        InlineBlock cid bid [p] locals body (clobberSlot + 2) (clobberSlot + 2) true ;;
        loopCheckOffset ← compile_branch_if cid (BcForLoopStep downto clobberSlot None);
        setBranch cid loopCheckOffset bodyStartOffset ;;
        branch_to_here cid loopStartOffset ;;
        (if negb isTopLevel && negb (clobberSlot - 1 =? destSlot)
         then emit cid (BcMov (OLocal (clobberSlot - 1)) destSlot) else mret tt) ;;
        mret true
    | _ => mret false
    end.

(** The first of several attempts that handles the call. *)
Fixpoint first_handled (attempts : list (C bool)) : C bool :=
  match attempts with
  | [] => mret false
  | m :: rest => b ← m; if (b : bool) then mret true else first_handled rest
  end.

Definition inline_control_flow (cid bid : nat) (receiver : AstExpr) (methId : nat) (args : list AstExpr)
    (clobberSlot destSlot : nat) (isTopLevel : bool) : C bool :=
  first_handled
    [inline_if_one cid bid receiver methId args clobberSlot destSlot isTopLevel;
     inline_if_two cid bid receiver methId args clobberSlot destSlot isTopLevel;
     inline_and_or cid bid receiver methId args clobberSlot destSlot isTopLevel;
     inline_while cid bid receiver methId args clobberSlot destSlot isTopLevel;
     inline_to_do cid bid receiver methId args clobberSlot destSlot isTopLevel].

Definition is_uniq (sel : nat) (u : SOMUniquedString) : bool := (Z.of_nat sel =? m_id u)%Z.

(** A literal operand of the wrong kind makes the fast path useless. *)
Definition integer_ok (e : AstExpr) : bool :=
  negb (IsLiteral e) || match e with AstInteger _ => true | _ => false end.
Definition number_ok (e : AstExpr) : bool :=
  negb (IsLiteral e) || match e with AstInteger _ | AstDouble _ => true | _ => false end.
Definition comparable_ok (e : AstExpr) : bool := negb (IsLiteral e) || IsNonArrayLiteral e.

Definition resolves_to_constant (bid : nat) (e : AstExpr) : C bool :=
  match e with
  | AstVariableUse x => IsVariableResolvedToFalseTrueNil env bid x
  | _ => mret false
  end.

(** [shouldSkip] *)
Definition skip_arithmetic (bid : nat) (receiver arg : AstExpr) (sel : nat) : C bool :=
  let vm := e_vm env in
  if is_uniq sel (v_strOperatorEqualEqual vm) then mret false
  else
    let ok :=
      if is_uniq sel (v_strOperatorAnd vm) || is_uniq sel (v_strOperatorLeftShift vm) ||
         is_uniq sel (v_strOperatorRightShift vm) || is_uniq sel (v_strOperatorBitwiseXor vm)
      then integer_ok receiver && integer_ok arg
      else if is_uniq sel (v_strOperatorEqual vm)
      then comparable_ok receiver && comparable_ok arg
      else number_ok receiver && number_ok arg in
    if negb ok then mret true
    else
      a ← resolves_to_constant bid receiver;
      b ← resolves_to_constant bid arg;
      mret (a || b).

Definition arithmetic_operators (vm : VMStrings) : list (SOMUniquedString * BinaryOperator) :=
  [(v_strOperatorPlus vm, OperatorPlus); (v_strOperatorMinus vm, OperatorMinus);
   (v_strOperatorStar vm, OperatorStar); (v_strOperatorSlashSlash vm, OperatorSlashSlash);
   (v_strOperatorPercent vm, OperatorPercent); (v_strOperatorAnd vm, OperatorAnd);
   (v_strOperatorEqual vm, OperatorEqual); (v_strOperatorLessThan vm, OperatorLessThan);
   (v_strOperatorLessEqual vm, OperatorLessEqual); (v_strOperatorGreaterThan vm, OperatorGreaterThan);
   (v_strOperatorGreaterEqual vm, OperatorGreaterEqual); (v_strOperatorUnequal vm, OperatorUnequal);
   (v_strOperatorTildeUnequal vm, OperatorTildeUnequal); (v_strOperatorLeftShift vm, OperatorLeftShift);
   (v_strOperatorRightShift vm, OperatorRightShift); (v_strOperatorBitwiseXor vm, OperatorBitwiseXor);
   (v_strOperatorSlash vm, OperatorSlash); (v_strOperatorEqualEqual vm, OperatorEqualEqual)].

(** The other binary operators, and whether the right operand may be a constant. *)
Definition other_binary_operators (vm : VMStrings) : list (SOMUniquedString * BinaryOperator) :=
  [(v_strOperatorLogicalAnd vm, OperatorLogicalAnd); (v_strOperatorKeywordAnd vm, OperatorKeywordAnd);
   (v_strOperatorLogicalOr vm, OperatorLogicalOr); (v_strOperatorKeywordOr vm, OperatorKeywordOr);
   (v_strOperatorValueColon vm, OperatorValueColon); (v_strOperatorAtColon vm, OperatorAtColon);
   (v_strOperatorCharAtColon vm, OperatorCharAtColon)].

Definition unary_operators (vm : VMStrings) : list (SOMUniquedString * UnaryOperator) :=
  [(v_strOperatorAbs vm, OperatorAbs); (v_strOperatorSqrt vm, OperatorSqrt);
   (v_strOperatorIsNil vm, OperatorIsNil); (v_strOperatorNotNil vm, OperatorNotNil);
   (v_strOperatorValue vm, OperatorValue); (v_strOperatorNot vm, OperatorNot);
   (v_strOperatorLength vm, OperatorLength)].

Definition ternary_operators (vm : VMStrings) : list (SOMUniquedString * TernaryOperator) :=
  [(v_strOperatorAtPut vm, OperatorAtPut); (v_strOperatorValueWith vm, OperatorValueWith)].

(** The [else if] chain on the selector. *)
Fixpoint select_operator {A} (sel : nat) (l : list (SOMUniquedString * A)) : option A :=
  match l with
  | [] => None
  | (u, op) :: l' => if is_uniq sel u then Some op else select_operator sel l'
  end.

(** An operand: a local or constant as it is, anything else compiled to the next
    free slot. *)
Definition operand_or_compile (cid bid : nat) (e : AstExpr) (slot : nat) : C (Operand * nat) :=
  r ← DetectTrivialLocalVarOrConstantUse env bid e;
  match r with
  | Some o => mret (o, slot)
  | None => compile cid bid e slot slot false ;; mret (OLocal slot, S slot)
  end.

Definition slot_or_compile (cid bid : nat) (e : AstExpr) (slot : nat) : C (nat * nat) :=
  r ← DetectTrivialLocalVarUse env bid e;
  match r with
  | Some l => mret (l, slot)
  | None => compile cid bid e slot slot false ;; mret (slot, S slot)
  end.

Definition arithmetic_call (cid bid : nat) (receiver : AstExpr) (sel : nat) (args : list AstExpr)
    (clobberSlot destSlot : nat) : C bool :=
  let vm := e_vm env in
  check (length args =? 1) (AssertFailed "args.size() == 1") ;;
  match args with
  | arg :: _ =>
      shouldSkip ← skip_arithmetic bid receiver arg sel;
      if (shouldSkip : bool) then mret false
      else
        l ← operand_or_compile cid bid receiver clobberSlot;
        r ← operand_or_compile cid bid arg l.2;
        UpdateTopSlot cid r.2 ;;
        match select_operator sel (arithmetic_operators vm) with
        | Some op => emit cid (BcBinaryOperator op l.1 r.1 destSlot) ;; mret true
        | None => fail (AssertFailed "selectorStringId == vm->m_strOperatorEqualEqual.m_id")
        end
  | [] => fail dangling
  end.

Definition other_binary_call (cid bid : nat) (receiver : AstExpr) (sel : nat) (args : list AstExpr)
    (clobberSlot destSlot : nat) : C bool :=
  let vm := e_vm env in
  match args, select_operator sel (other_binary_operators vm) with
  | [arg], Some op =>
      l ← slot_or_compile cid bid receiver clobberSlot;
      r ← (if is_uniq sel (v_strOperatorValueColon vm) || is_uniq sel (v_strOperatorAtColon vm) ||
              is_uniq sel (v_strOperatorCharAtColon vm)
           then operand_or_compile cid bid arg l.2
           else r ← slot_or_compile cid bid arg l.2; mret (OLocal r.1, r.2));
      UpdateTopSlot cid r.2 ;;
      emit cid (BcBinaryOperator op (OLocal l.1) r.1 destSlot) ;;
      mret true
  | _, _ => mret false
  end.

Definition unary_operator_call (cid bid : nat) (receiver : AstExpr) (sel : nat) (args : list AstExpr)
    (clobberSlot destSlot : nat) : C bool :=
  let vm := e_vm env in
  match args with
  | [] =>
      if negb (IsSelectorSpecializableUnaryOperator vm sel) then mret false
      else
        lhsSlot ← local_or_compile cid bid receiver clobberSlot;
        match select_operator sel (unary_operators vm) with
        | Some op => emit cid (BcUnaryOperator op lhsSlot destSlot) ;; mret true
        | None => fail (AssertFailed "selectorStringId == vm->m_strOperatorLength.m_id")
        end
  | _ => mret false
  end.

Definition ternary_call (cid bid : nat) (receiver : AstExpr) (sel : nat) (args : list AstExpr)
    (clobberSlot destSlot : nat) : C bool :=
  match args, select_operator sel (ternary_operators (e_vm env)) with
  | [e1; e2], Some op =>
      o ← slot_or_compile cid bid receiver clobberSlot;
      a1 ← operand_or_compile cid bid e1 o.2;
      a2 ← operand_or_compile cid bid e2 a1.2;
      UpdateTopSlot cid a2.2 ;;
      emit cid (BcTernaryOperator op o.1 a1.1 a2.1 destSlot) ;;
      mret true
  | _, _ => mret false
  end.

Fixpoint compile_args (cid bid : nat) (args : list AstExpr) (slot : nat) : C unit :=
  match args with
  | [] => mret tt
  | e :: args' => compile cid bid e slot slot false ;; compile_args cid bid args' (S slot)
  end.

Definition selector_constant (sel : nat) : C Cst := fun s =>
  match GetHash sel (g_interner (cs_globals s)) with
  | Ok h => Ok (CstSelector (mk_uniqued (u32 (Z.of_nat sel)) (hash32 h)), s)
  | Err e => Err e
  end.

(** The ordinary call: arguments above the frame header, then the call bytecode. *)
Definition general_call (cid bid : nat) (receiver : AstExpr) (sel : nat) (args : list AstExpr)
    (clobberSlot destSlot : nat) : C unit :=
  let rcvKind := receiver_kind env receiver in
  let argBase := clobberSlot + x_numSlotsForStackFrameHeader in
  (if bool_decide (rcvKind = RcvNormal) then compile cid bid receiver argBase argBase false else mret tt) ;;
  compile_args cid bid args (argBase + 1) ;;
  meth ← selector_constant sel;
  match rcvKind with
  | RcvNormal =>
      n ← uint16 (length args + 1); emit cid (BcSOMCall clobberSlot meth n destSlot)
  | RcvObjectSelf =>
      n ← uint16 (length args + 1); emit cid (BcSOMSelfCall clobberSlot 0 meth n destSlot)
  | RcvSuper =>
      match m_superClass env with
      | None => fail (AssertFailed "ctx.m_superClass != nullptr")
      | Some cls =>
          n ← uint16 (length args + 1);
          emit cid (BcSOMSuperCall clobberSlot 0 (CstClass cls) meth n destSlot)
      end
  end.

(** The selector is tried as control flow, as an arithmetic operator, as another
    operator, in this order, unless the receiver is [super]. *)
Definition specialized_call (cid bid : nat) (receiver : AstExpr) (sel : nat) (args : list AstExpr)
    (clobberSlot destSlot : nat) (isTopLevel : bool) : C bool :=
  let vm := e_vm env in
  first_handled
    [(if IsSelectorInlinableControlFlow vm sel
      then inline_control_flow cid bid receiver sel args clobberSlot destSlot isTopLevel
      else mret false);
     (if IsSelectorArithmeticOperator vm sel
      then arithmetic_call cid bid receiver sel args clobberSlot destSlot
      else mret false);
     other_binary_call cid bid receiver sel args clobberSlot destSlot;
     unary_operator_call cid bid receiver sel args clobberSlot destSlot;
     ternary_call cid bid receiver sel args clobberSlot destSlot].

Definition CompileSOMCall (cid bid : nat) (receiver : AstExpr) (sel : nat) (args : list AstExpr)
    (clobberSlot destSlot : nat) (isTopLevel : bool) : C unit :=
  UpdateTopSlot cid destSlot ;;
  UpdateTopSlot cid (clobberSlot + x_numSlotsForStackFrameHeader + length args) ;;
  handled ← (if bool_decide (receiver_kind env receiver = RcvSuper) then mret false
             else specialized_call cid bid receiver sel args clobberSlot destSlot isTopLevel);
  if (handled : bool) then mret tt
  else general_call cid bid receiver sel args clobberSlot destSlot.

Definition CompileExpression_body (cid bid : nat) (node : AstExpr) (clobberSlot destSlot : nat)
    (isTopLevel : bool) : C unit :=
  match node with
  | AstArray _ | AstString _ | AstSymbol _ | AstInteger _ | AstDouble _ =>
      CompileAstLiteral cid node destSlot
  | AstVariableUse x => CompileVarUse env cid bid x destSlot
  | AstAssignation lhs rhs => CompileAssignation cid bid lhs rhs clobberSlot destSlot
  | AstNestedBlock params locals body => CompileNewBlock cid bid params locals body destSlot
  | AstUnaryCall sel receiver => CompileSOMCall cid bid receiver sel [] clobberSlot destSlot isTopLevel
  | AstBinaryCall sel receiver arg => CompileSOMCall cid bid receiver sel [arg] clobberSlot destSlot isTopLevel
  | AstKeywordCall sel receiver args => CompileSOMCall cid bid receiver sel args clobberSlot destSlot isTopLevel
  | AstReturn _ => fail (AssertFailed "node->IsCall()")
  end.
End with_compile.

Fixpoint compile (fuel : nat) (env : CompileEnv) (cid bid : nat) (node : AstExpr)
    (clobberSlot destSlot : nat) (isTopLevel : bool) : C unit :=
  match fuel with
  | O => fail OutOfFuel
  | S fuel' => CompileExpression_body env (compile fuel' env) cid bid node clobberSlot destSlot isTopLevel
  end.

Definition CompileExpression (fuel : nat) (env : CompileEnv) (cid bid : nat) (node : AstExpr)
    (clobberSlot destSlot : nat) : C unit :=
  compile fuel env cid bid node clobberSlot destSlot false.

(** ** Methods *)

(** Each method is compiled with its own contexts and variable map. *)
Definition begin_method : C unit :=
  modify (fun s => mk_cstate (cs_globals s) [] [] [] ∅ (cs_arrays s)).

(** The triviality of a body that is one statement. *)
Definition trivial_return (env : CompileEnv) (bid : nat) (stmt : AstExpr)
    : C (SOMMethodLookupResultKind * TrivialFnInfo) :=
  match stmt with
  | AstReturn val =>
      if IsNonArrayLiteral val then
        c ← lift_result (CreateConstantNonArray val); mret (SOM_LiteralReturn, TfLiteral c)
      else
        match val with
        | AstVariableUse x =>
            vr ← ResolveVariable env bid x DryRun;
            match vr_kind vr with
            | VuLocal => mret (if is_self_or_super x then (SOM_SelfReturn, TfNone) else (SOM_NormalMethod, TfNone))
            | VuField => mret (SOM_Getter, TfIndex (vr_ord vr))
            | VuGlobal => mret (SOM_GlobalReturn, TfIndex (vr_ord vr))
            | VuFalseTrueNil =>
                c ← lift_result (GetTValueForFalseTrueNil vr); mret (SOM_LiteralReturn, TfLiteral c)
            | VuUpvalue => fail (AssertFailed "unexpected")
            end
        | _ => mret (SOM_NormalMethod, TfNone)
        end
  | _ => mret (SOM_NormalMethod, TfNone)
  end.

(** [setterStmt]: a single assignment, possibly followed by [^ self]. *)
Definition setter_statement (body : list AstExpr) : option (list string * AstExpr) :=
  match body with
  | [AstAssignation lhs rhs] => Some (lhs, rhs)
  | [AstAssignation lhs rhs; AstReturn (AstVariableUse x)] =>
      if is_self_or_super x then Some (lhs, rhs) else None
  | _ => None
  end.

(** The field set by a setter of parameter [param], when the body is one. *)
Definition setter_field (env : CompileEnv) (bid : nat) (param : string) (body : list AstExpr) : C (option nat) :=
  match setter_statement body with
  | Some ([x], rhs) =>
      vr ← ResolveVariable env bid x DryRun;
      mret (match vr_kind vr, rhs with
            | VuField, AstVariableUse y => if bool_decide (y = param) then Some (vr_ord vr) else None
            | _, _ => None
            end)
  | _ => mret None
  end.

Definition method_triviality (env : CompileEnv) (bid : nat) (meth : AstMethod)
    : C (SOMMethodLookupResultKind * TrivialFnInfo) :=
  triviality ← (match am_body meth with
                | [] => mret (SOM_SelfReturn, TfNone)
                | [stmt] => trivial_return env bid stmt
                | _ => mret (SOM_NormalMethod, TfNone)
                end);
  match am_params meth with
  | [param] =>
      field ← setter_field env bid param (am_body meth);
      mret (match field with Some i => (SOM_Setter, TfIndex i) | None => triviality end)
  | _ => mret triviality
  end.

(** ** The final pass over the code blocks of a method *)
Definition is_block_kind (k : SOMDetailEntityType) : bool :=
  match k with
  | SOM_BlockNoArg | SOM_BlockNoArgImmSelf | SOM_BlockOneArg | SOM_BlockOneArgImmSelf
  | SOM_BlockTwoArgs | SOM_BlockTwoArgsImmSelf => true
  | _ => false
  end.
Definition is_imm_self_kind (k : SOMDetailEntityType) : bool :=
  match k with
  | SOM_BlockNoArgImmSelf | SOM_BlockOneArgImmSelf | SOM_BlockTwoArgsImmSelf => true
  | _ => false
  end.

Definition upvalue_metadata (kind : SOMDetailEntityType) (i : nat) (info : UVInfo) : C UpvalueMetadata :=
  if i =? 0 then
    check (is_block_kind kind) (AssertFailed "ucb->m_fnKind is a block kind") ;;
    mret (mk_uvmeta (is_imm_self_kind kind) true 0)
  else
    match m_varInfo info with
    | None => fail dangling
    | Some var =>
        v ← the_var var;
        match (if m_isParentLocal info then m_parentLocalSlot info else m_parentUpvalueOrd info) with
        | None => fail (AssertFailed "uv.m_slot != static_cast<uint32_t>(-1)")
        | Some slot => mret (mk_uvmeta (m_isImmutable v) (m_isParentLocal info) slot)
        end
    end.

Fixpoint all_upvalue_metadata (kind : SOMDetailEntityType) (i : nat) (uvs : list UVInfo)
    : C (list UpvalueMetadata) :=
  match uvs with
  | [] => mret []
  | info :: uvs' =>
      m ← upvalue_metadata kind i info;
      ms ← all_upvalue_metadata kind (S i) uvs';
      mret (m :: ms)
  end.

(** [UpvalueGetMutable] of an upvalue found immutable becomes [UpvalueGetImmutable]. *)
Fixpoint finalize_upvalue_gets (cid : nat) (uvs : list UpvalueMetadata) (offsets : list nat) : C unit :=
  match offsets with
  | [] => mret tt
  | off :: offsets' =>
      c ← the_ctx cid;
      match bytecode_at off (m_builder c) with
      | Some (BcUpvalueGetMutable ord output) =>
          match uvs !! ord with
          | None => fail (AssertFailed "ord < ucb->m_numUpvalues")
          | Some uv =>
              (if uv_isImmutable uv
               then upd_ctx cid (set_builder (ReplaceBytecode off (BcUpvalueGetImmutable ord output)))
               else mret tt) ;;
              finalize_upvalue_gets cid uvs offsets'
          end
      | _ => fail (AssertFailed "bw.GetBytecodeKind(offset) == BCKind::UpvalueGetMutable")
      end
  end.

Definition too_many_constants : error := Aborted "[LOCKDOWN] Bytecode contains too many constants.".

Definition finalize_context (cid : nat) : C unit :=
  c ← the_ctx cid;
  match m_resultBCtx c with
  | None => fail dangling
  | Some bid =>
      b ← the_bctx bid;
      uvs ← all_upvalue_metadata (m_fnKind (m_resultUcb c)) 0 (m_uvs b);
      upd_ctx cid (set_ucb (set_frame (m_historyTopSlot c + 1) uvs)) ;;
      finalize_upvalue_gets cid uvs (m_allUpvalueGetBytecodes c) ;;
      c ← the_ctx cid;
      check (length (m_constantTable (m_builder c)) <? 32767) too_many_constants
  end.

Fixpoint for_each (f : nat -> C unit) (ids : list nat) : C unit :=
  match ids with
  | [] => mret tt
  | i :: ids' => f i ;; for_each f ids'
  end.

(** The test-build check of every upvalue against the enclosing function. *)
Definition upvalue_in_parent (parent : UnlinkedCodeBlock) (uv : UpvalueMetadata) : bool :=
  if uv_isParentLocal uv then uv_slot uv <? m_stackFrameNumSlots parent
  else uv_slot uv <? length (m_upvalueInfo parent).

Definition check_upvalues (cid : nat) : C unit :=
  c ← the_ctx cid;
  let ucb := m_resultUcb c in
  match m_upvalueInfo ucb with
  | [] => mret tt
  | _ =>
      match m_parent ucb with
      | None => fail (AssertFailed "ucb->m_parent != nullptr")
      | Some p =>
          pc ← the_ctx p;
          check (forallb (upvalue_in_parent (m_resultUcb pc)) (m_upvalueInfo ucb))
            (AssertFailed "uv.m_slot is in the frame or the upvalues of the parent")
      end
  end.

Definition check_map_empty : C unit := fun s =>
  check (bool_decide (map_Forall (fun _ l => l = []) (m_localVarMap s)))
    (AssertFailed "it.second.empty()") s.

Definition CompileMethod (fuel : nat) (env : CompileEnv) (meth : AstMethod) : C unit :=
  begin_method ;;
  cid ← new_ctx new_context;
  bid ← new_bctx (fun self => new_block_context self None None);
  upd_ctx cid (set_resultBCtx bid) ;;
  firstFreeSlot ← InstallLocalVariables cid bid (am_params meth) (am_locals meth) 1;
  upd_ctx cid (set_topSlot firstFreeSlot) ;;
  t ← method_triviality env bid meth;
  (match t.1 with SOM_NormalMethod => mret tt | k => upd_ctx cid (set_ucb (set_trivial k t.2)) end) ;;
  CompileBlockBody env (compile fuel env) cid bid (am_body meth) firstFreeSlot ;;
  UninstallLocalVariables bid (am_params meth) (am_locals meth) ;;
  check_map_empty ;;
  b ← the_bctx bid;
  check (length (m_uvs b) =? 0) (AssertFailed "bctx->m_uvs.size() == 0") ;;
  s ← get_st;
  for_each finalize_context (seq 0 (length (cs_ctxs s))) ;;
  for_each check_upvalues (seq 0 (length (cs_ctxs s))) ;;
  c ← the_ctx cid;
  check (length (m_upvalueInfo (m_resultUcb c)) =? 0) (AssertFailed "cb->m_numUpvalues == 0").
End compiler.
