(* ===== verification/CompilerInv.v ===== *)
(** * The invariant of the compiler

    What the compiler's stores satisfy at every point of a compilation ([Inv]),
    how they may change ([ext], and [stab] for what later steps may rely on),
    and the rules of the primitive operations.  [CompilerSafe.v] goes through
    the compiler's functions with these. *)
From S2P Require Import Prelude Interner VmSelectors CNumbers Ast Bytecode Compiler.
#[local] Set Default Proof Using "Type".

(** ** Operands *)
Definition operand_ok (top : nat) (o : Operand) : Prop :=
  match o with OLocal n => n <= top | OCst _ => True end.

(** Every slot a bytecode names lies within a frame whose last slot is [top],
    every upvalue among [nuv]. *)
Definition bc_ok (top nuv : nat) (bc : Bytecode) : Prop :=
  match bc with
  | BcMov i o => operand_ok top i /\ o <= top
  | BcSOMArrayDup _ o => o <= top
  | BcUpvalueGetMutable ord o | BcUpvalueGetImmutable ord o => ord < nuv /\ o <= top
  | BcUpvaluePut ord v => ord < nuv /\ operand_ok top v
  | BcUpvalueClose base => base <= top
  | BcSOMGetField b _ o => b <= top /\ o <= top
  | BcSOMPutField b _ v => b <= top /\ operand_ok top v
  | BcSOMGlobalGet self _ o => self <= top /\ o <= top
  | BcBranchIf _ c _ => c <= top
  | BcStoreNilAndBranchIf _ c o _ | BcCopyAndBranchIf _ c o _ => c <= top /\ o <= top
  | BcBranch _ | BcBranchLoopHint _ => True
  | BcCheckForLoopStartCond _ v l o _ => v <= top /\ l <= top /\ o <= top
  | BcForLoopStep _ b _ => b + 2 <= top
  | BcBinaryOperator _ l r o => operand_ok top l /\ operand_ok top r /\ o <= top
  | BcUnaryOperator _ x o => x <= top /\ o <= top
  | BcTernaryOperator _ x a b o => x <= top /\ operand_ok top a /\ operand_ok top b /\ o <= top
  | BcSOMCall base _ n o => base + x_numSlotsForStackFrameHeader + n <= S top /\ o <= top
  | BcSOMSelfCall base self _ n o | BcSOMSuperCall base self _ _ n o =>
      base + x_numSlotsForStackFrameHeader + n <= S top /\ self <= top /\ o <= top
  | BcRet base n => base + n <= S top
  | BcSOMThrow v => v <= top
  | BcRangeFillNils base n => base + n <= S top
  | BcNewClosure _ o => o <= top
  end.

(** The slots a bytecode may write; a call may use everything above its base. *)
Definition bc_writes (bc : Bytecode) (n : nat) : Prop :=
  match bc with
  | BcMov _ o | BcSOMArrayDup _ o | BcUpvalueGetMutable _ o | BcUpvalueGetImmutable _ o
  | BcSOMGetField _ _ o | BcSOMGlobalGet _ _ o | BcStoreNilAndBranchIf _ _ o _
  | BcCopyAndBranchIf _ _ o _ | BcCheckForLoopStartCond _ _ _ o _ | BcBinaryOperator _ _ _ o
  | BcUnaryOperator _ _ o | BcTernaryOperator _ _ _ _ o | BcNewClosure _ o => n = o
  | BcSOMCall base _ _ o | BcSOMSelfCall base _ _ _ o | BcSOMSuperCall base _ _ _ _ o =>
      base <= n \/ n = o
  | BcForLoopStep _ base _ => n = base \/ n = base + 2
  | BcRangeFillNils base k => base <= n < base + k
  | BcUpvaluePut _ _ | BcUpvalueClose _ | BcSOMPutField _ _ _ | BcBranchIf _ _ _ | BcBranch _
  | BcBranchLoopHint _ | BcRet _ _ | BcSOMThrow _ => False
  end.

(** A filled branch operand leads to the start of a bytecode or the end of the code. *)
Definition branch_ok (b : BytecodeBuilder) (e : nat * Bytecode) : Prop :=
  match branch_operand e.2 with
  | None => True
  | Some None => False
  | Some (Some off) =>
      (- 2 ^ 15 <= off < 2 ^ 15)%Z /\ exists q, boundary b q /\ (Z.of_nat e.1 + off = Z.of_nat q)%Z
  end.

Lemma operand_ok_mono top top' o : top <= top' -> operand_ok top o -> operand_ok top' o.
Proof. destruct o; simpl; [lia|done]. Qed.

Lemma bc_ok_mono top top' nuv nuv' bc :
  top <= top' -> nuv <= nuv' -> bc_ok top nuv bc -> bc_ok top' nuv' bc.
Proof.
  intros Ht Hn. destruct bc; simpl; intros; destruct_and?; split_and?; try lia;
    eauto using operand_ok_mono.
Qed.

Lemma bc_ok_with_branch top nuv br bc : bc_ok top nuv bc -> bc_ok top nuv (with_branch br bc).
Proof. by destruct bc. Qed.
Lemma bc_writes_with_branch br bc n : bc_writes (with_branch br bc) n <-> bc_writes bc n.
Proof. by destruct bc. Qed.
Lemma branch_operand_with_branch br bc :
  branch_operand (with_branch br bc) = match branch_operand bc with Some _ => Some br | None => None end.
Proof. by destruct bc. Qed.

(** ** The stores without the flags that only grow *)
Definition erase_b (b : BlockTranslationContext) : BlockTranslationContext :=
  mk_bctx (m_startSlot b) (m_lexicalParent b) (m_owningContext b) (m_trueParent b) false false false
    (m_returnValueMayBeDiscarded b) (m_returnValueSlot b) (m_uvs b) (m_uvOrdMap b).
Definition erase_v (v : LocalVarInfo) : LocalVarInfo := new_LocalVarInfo (var_bctx v) (m_slotOrd v).

Section stores.
Context {V : Type}.
Implicit Types s : @CState V.

Definition Bs s : list BlockTranslationContext := erase_b <$> cs_bctxs s.
Definition Vs s : list LocalVarInfo := erase_v <$> cs_vars s.
Definition scope s (x : string) : list nat := default [] (m_localVarMap s !! x).
End stores.

(** One function encloses the next. *)
Definition enclosed_in (B : list BlockTranslationContext) (o p : nat) : Prop :=
  exists b, B !! o = Some b /\ m_trueParent b = Some p.
Definition encloses (B : list BlockTranslationContext) : nat -> nat -> Prop := rtc (enclosed_in B).

(** ** The invariant of the block contexts *)

(** An upvalue other than [self] reaches its variable: in the enclosing frame, or
    through an upvalue of the enclosing function for the same variable. *)
Definition uv_ok (B : list BlockTranslationContext) (vs : list LocalVarInfo)
    (b : BlockTranslationContext) (uv : UVInfo) : Prop :=
  exists v x p, m_varInfo uv = Some v /\ vs !! v = Some x /\ m_trueParent b = Some p /\
    if m_isParentLocal uv then
      m_parentLocalSlot uv = Some (m_slotOrd x) /\
      exists d, B !! var_bctx x = Some d /\ m_owningContext d = p
    else
      exists j pb uv', m_parentUpvalueOrd uv = Some j /\ 0 < j /\ B !! p = Some pb /\
        m_uvs pb !! j = Some uv' /\ m_varInfo uv' = Some v.

Record bctx_ok (B : list BlockTranslationContext) (vs : list LocalVarInfo) (i : nat)
    (b : BlockTranslationContext) : Prop := {
  bo_le : m_owningContext b <= i;
  bo_owner : exists o, B !! m_owningContext b = Some o /\ m_owningContext o = m_owningContext b /\
                       m_trueParent o = m_trueParent b;
  bo_parent p : m_trueParent b = Some p -> p < m_owningContext b /\
                  exists pb, B !! p = Some pb /\ m_owningContext pb = p;
  bo_inlined : m_owningContext b <> i ->
                 m_uvs b = [] /\ m_uvOrdMap b = ∅ /\ is_Some (m_returnValueSlot b);
  bo_top : m_trueParent b = None -> m_uvs b = [] /\ m_uvOrdMap b = ∅;
  bo_self : m_owningContext b = i -> m_trueParent b <> None -> 0 < length (m_uvs b);
  bo_ord v n : m_uvOrdMap b !! v = Some n ->
                 0 < n /\ exists uv, m_uvs b !! n = Some uv /\ m_varInfo uv = Some v;
  bo_uvs n uv : 0 < n -> m_uvs b !! n = Some uv -> uv_ok B vs b uv
}.

Definition binv (B : list BlockTranslationContext) (vs : list LocalVarInfo) : Prop :=
  forall i b, B !! i = Some b -> bctx_ok B vs i b.

Definition vinv (B : list BlockTranslationContext) (vs : list LocalVarInfo) : Prop :=
  forall v x, vs !! v = Some x -> 0 < m_slotOrd x /\ is_Some (B !! var_bctx x).

(** A translation context compiles the function of one owning block context; the
    frame is large enough for the variables, results and code of that function. *)
Record ctx_ok (bcLength : Bytecode -> nat) (B : list BlockTranslationContext) (vs : list LocalVarInfo)
    (cs : list TranslationContext) (i : nat) (c : TranslationContext) (o : nat)
    (b : BlockTranslationContext) : Prop := {
  co_bctx : m_resultBCtx c = Some o;
  co_lookup : B !! o = Some b;
  co_owner : m_owningContext b = o;
  co_parent p : m_trueParent b = Some p -> exists pc c', m_parent (m_resultUcb c) = Some pc /\ pc < i /\
                  cs !! pc = Some c' /\ m_resultBCtx c' = Some p;
  co_top : m_trueParent b = None -> i = 0;
  co_wf : builder_wf bcLength (m_builder c);
  co_code : Forall (fun e => bc_ok (m_historyTopSlot c) (length (m_uvs b)) e.2) (code (m_builder c));
  co_gets : Forall (fun off => exists ord out, (off, BcUpvalueGetMutable ord out) ∈ code (m_builder c))
              (m_allUpvalueGetBytecodes c);
  co_nodup : NoDup (m_allUpvalueGetBytecodes c);
  co_vars v x d : vs !! v = Some x -> B !! var_bctx x = Some d -> m_owningContext d = o ->
                    m_slotOrd x <= m_historyTopSlot c;
  co_slots j b' : B !! j = Some b' -> m_owningContext b' = o ->
                    m_startSlot b' <= m_historyTopSlot c /\
                    forall r, m_returnValueSlot b' = Some r -> r <= m_historyTopSlot c
}.

Definition cinv (bcLength : Bytecode -> nat) (B : list BlockTranslationContext) (vs : list LocalVarInfo)
    (cs : list TranslationContext) : Prop :=
  forall i c, cs !! i = Some c -> exists o b, ctx_ok bcLength B vs cs i c o b.

(** ** How the stores grow *)
Definition same_b (b b' : BlockTranslationContext) : Prop :=
  m_startSlot b' = m_startSlot b /\ m_owningContext b' = m_owningContext b /\
  m_trueParent b' = m_trueParent b /\ m_returnValueSlot b' = m_returnValueSlot b /\
  m_returnValueMayBeDiscarded b' = m_returnValueMayBeDiscarded b /\ m_uvs b `prefix_of` m_uvs b'.

Definition grows (B B' : list BlockTranslationContext) : Prop :=
  forall i b, B !! i = Some b -> exists b', B' !! i = Some b' /\ same_b b b'.

#[global] Instance same_b_preorder : PreOrder same_b.
Proof.
  split; [by intros b; unfold same_b|]. intros a b c (?&?&?&?&?&?) (?&?&?&?&?&?).
  unfold same_b. split_and!; try congruence. by etrans.
Qed.

#[global] Instance grows_preorder : PreOrder grows.
Proof.
  split.
  - intros B i b Hb. exists b. by split.
  - intros B1 B2 B3 H12 H23 i b Hb. destruct (H12 i b Hb) as (b2 & H2 & Hs2).
    destruct (H23 i b2 H2) as (b3 & H3 & Hs3). exists b3. split; [done|]. by etrans.
Qed.

Lemma uv_ok_grows B B' vs vs' b b' uv :
  grows B B' -> vs `prefix_of` vs' -> m_trueParent b' = m_trueParent b ->
  uv_ok B vs b uv -> uv_ok B' vs' b' uv.
Proof.
  intros HB Hvs Hp (v & x & p & Hv & Hx & Hp' & Hk). exists v, x, p.
  split_and!; [done|by eapply prefix_lookup_Some|congruence|].
  destruct (m_isParentLocal uv).
  - destruct Hk as [Hs (d & Hd & Ho)]. split; [done|].
    destruct (HB _ _ Hd) as (d' & Hd' & _ & Ho' & _). exists d'. split; [done|congruence].
  - destruct Hk as (j & pb & uv' & Hj & Hj0 & Hpb & Hu & Hi).
    destruct (HB _ _ Hpb) as (pb' & Hpb' & _ & _ & _ & _ & _ & Hpre).
    exists j, pb', uv'. split_and!; try done. by eapply prefix_lookup_Some.
Qed.

Lemma encloses_grows B B' o p : grows B B' -> encloses B o p -> encloses B' o p.
Proof.
  intros HB. induction 1 as [|a b c (ba & Hb & Ht) _ IH]; [done|].
  destruct (HB _ _ Hb) as (ba' & Hb' & _ & _ & Ht' & _).
  eapply rtc_l; [|exact IH]. exists ba'. split; [done|congruence].
Qed.

Lemma grows_snoc B b : grows B (B ++ [b]).
Proof. intros i b' Hi. exists b'. split; [by apply lookup_app_Some_l|done]. Qed.

Section invariant.
Context (HashString : string -> Z) {V : Type} (bcLength : Bytecode -> nat).
(** The strings interned before the compilation: every selector of the tree is one. *)
Context (known : nat).
Implicit Types s : @CState V.

Record Inv s : Prop := {
  inv_b : binv (Bs s) (Vs s);
  inv_v : vinv (Bs s) (Vs s);
  inv_c : cinv bcLength (Bs s) (Vs s) (cs_ctxs s);
  inv_inj : NoDup (m_resultBCtx <$> cs_ctxs s);
  inv_scope x v : v ∈ scope s x -> is_Some (Vs s !! v);
  inv_globals : globals_wf HashString (cs_globals s);
  inv_known : known <= length (m_list (g_interner (cs_globals s)))
}.

(** The code of the current context grows by bytecodes that write only slots in
    [W] and whose branches are filled, except those at the pending positions [P]. *)
Definition code_ext (W P : nat -> Prop) (b b' : BytecodeBuilder) : Prop :=
  curLength b <= curLength b' /\
  exists new, code b' = code b ++ new /\
    Forall (fun e => curLength b <= e.1 /\ (forall n, bc_writes e.2 n -> W n) /\
                     (branch_ok b' e \/ P e.1)) new.

Definition same_ucb (u u' : UnlinkedCodeBlock) : Prop :=
  m_parent u' = m_parent u /\ m_fnKind u' = m_fnKind u.
#[global] Instance same_ucb_preorder : PreOrder same_ucb.
Proof. split; [by intros u|]. intros u1 u2 u3 [] []. split; congruence. Qed.

Definition ctx_ext (current : bool) (W P : nat -> Prop) (c c' : TranslationContext) : Prop :=
  m_resultBCtx c' = m_resultBCtx c /\ same_ucb (m_resultUcb c) (m_resultUcb c') /\
  m_historyTopSlot c <= m_historyTopSlot c' /\
  if current then code_ext W P (m_builder c) (m_builder c') else m_builder c' = m_builder c.

(** A context whose block has been compiled. *)
Definition finished (c : TranslationContext) : Prop :=
  is_block_kind (m_fnKind (m_resultUcb c)) = true /\
  Forall (branch_ok (m_builder c)) (code (m_builder c)).

Record ext (cid : nat) (W P : nat -> Prop) s s' : Prop := {
  ext_b : grows (Bs s) (Bs s');
  ext_v : Vs s `prefix_of` Vs s';
  ext_c i c : cs_ctxs s !! i = Some c ->
                exists c', cs_ctxs s' !! i = Some c' /\ ctx_ext (i =? cid) W P c c';
  ext_len : length (cs_ctxs s) <= length (cs_ctxs s');
  ext_new i c' : length (cs_ctxs s) <= i -> cs_ctxs s' !! i = Some c' -> finished c';
  ext_scope x : scope s' x = scope s x;
  ext_interner : interner_le (g_interner (cs_globals s)) (g_interner (cs_globals s'))
}.

(** What later steps rely on. *)
Record stab s s' : Prop := {
  st_b : grows (Bs s) (Bs s');
  st_v : Vs s `prefix_of` Vs s';
  st_c i c : cs_ctxs s !! i = Some c -> exists c', cs_ctxs s' !! i = Some c' /\
               m_resultBCtx c' = m_resultBCtx c /\ m_historyTopSlot c <= m_historyTopSlot c' /\
               (forall q, boundary (m_builder c) q -> boundary (m_builder c') q);
  st_scope x : scope s' x = scope s x
}.

(** Context [cid] is compiling the function that block [bid] belongs to, and every
    variable in scope belongs to that function or to one around it. *)
Definition here (cid bid : nat) s : Prop :=
  exists b c, Bs s !! bid = Some b /\ cs_ctxs s !! cid = Some c /\
    m_resultBCtx c = Some (m_owningContext b) /\
    forall x v vi, v ∈ scope s x -> Vs s !! v = Some vi ->
      exists d, Bs s !! var_bctx vi = Some d /\
                encloses (Bs s) (m_owningContext b) (m_owningContext d).

(** Facts that hold from then on. *)
Definition topge (cid n : nat) s : Prop :=
  forall c, cs_ctxs s !! cid = Some c -> n <= m_historyTopSlot c.
Definition bnd (cid q : nat) s : Prop :=
  forall c, cs_ctxs s !! cid = Some c -> boundary (m_builder c) q.
Definition opnd (cid : nat) (o : Operand) s : Prop :=
  match o with OLocal n => topge cid n s | OCst _ => True end.
Definition uvge (bid ord : nat) s : Prop :=
  forall b o, Bs s !! bid = Some b -> Bs s !! m_owningContext b = Some o -> ord < length (m_uvs o).

(** The slots of the variables of the current function that are in scope. *)
Definition in_scope (bid : nat) s (n : nat) : Prop :=
  exists x v vi b d, v ∈ scope s x /\ Vs s !! v = Some vi /\ m_slotOrd vi = n /\
    Bs s !! bid = Some b /\ Bs s !! var_bctx vi = Some d /\ m_owningContext d = m_owningContext b.

(** ** [stab] and [ext] compose *)
#[global] Instance stab_preorder : PreOrder stab.
Proof.
  split.
  - intros s. split; [reflexivity|done| |done]. intros i c Hc. by exists c.
  - intros s1 s2 s3 [HB HV HC HS] [HB' HV' HC' HS']. split.
    + by etrans.
    + by etrans.
    + intros i c Hc. destruct (HC i c Hc) as (c2 & Hc2 & ? & ? & ?).
      destruct (HC' i c2 Hc2) as (c3 & Hc3 & ? & ? & ?).
      exists c3. split_and!; try done; [congruence|lia|auto].
    + intros x. by rewrite HS'.
Qed.

Lemma laid_out_first pos l fin :
  laid_out bcLength pos l fin -> pos = fin \/ pos ∈ l.*1.
Proof. destruct l as [|[p bc] l]; simpl; [by left|]. intros [-> _]. right. by left. Qed.

Lemma code_ext_boundary W P b b' q :
  builder_wf bcLength b -> builder_wf bcLength b' -> code_ext W P b b' ->
  boundary b q -> boundary b' q.
Proof.
  intros Hwf Hwf' (_ & new & Hnew & _). unfold boundary. rewrite Hnew, fmap_app.
  unfold builder_wf in Hwf, Hwf'. rewrite Hnew in Hwf'.
  apply laid_out_app in Hwf' as (mid & Hmid & Hrest).
  assert (mid = curLength b) as ->.
  { clear -Hwf Hmid. revert Hwf Hmid. generalize 0. induction (code b) as [|[p bc] l IH];
      simpl; intros pos; [congruence|]. intros [_ H1] [_ H2]. eauto. }
  intros [->|Hq]; [|right; apply elem_of_app; by left].
  destruct (laid_out_first _ _ _ Hrest) as [->|Hin]; [by left|].
  right. apply elem_of_app. by right.
Qed.

Lemma branch_ok_mono b b' e :
  (forall q, boundary b q -> boundary b' q) -> branch_ok b e -> branch_ok b' e.
Proof.
  unfold branch_ok. intros H. destruct (branch_operand e.2) as [[off|]|]; try done.
  intros [Hr (q & Hq & He)]. split; [done|]. eauto.
Qed.

Lemma code_ext_refl W P b : code_ext W P b b.
Proof. split; [done|]. exists []. rewrite app_nil_r. done. Qed.

Lemma code_ext_weaken (W W' P P' : nat -> Prop) b b' :
  (forall n, W n -> W' n) -> (forall p, P p -> P' p) -> code_ext W P b b' -> code_ext W' P' b b'.
Proof.
  intros HW HP (Hl & new & Hn & Hf). split; [done|]. exists new. split; [done|].
  eapply Forall_impl; [exact Hf|]. naive_solver.
Qed.

Lemma code_ext_trans W P P' b1 b2 b3 :
  builder_wf bcLength b2 -> builder_wf bcLength b3 ->
  code_ext W P b1 b2 -> code_ext W P' b2 b3 -> code_ext W (fun p => P p \/ P' p) b1 b3.
Proof.
  intros Hw2 Hw3 (Hl1 & n1 & Hn1 & Hf1) H23. pose proof H23 as (Hl2 & n2 & Hn2 & Hf2).
  split; [lia|]. exists (n1 ++ n2). split; [by rewrite Hn2, Hn1, app_assoc|].
  apply Forall_app. split; eapply Forall_impl; try eassumption; simpl.
  - intros e (? & ? & Hb). split_and!; [done|done|]. destruct Hb; [left|tauto].
    eapply branch_ok_mono; [|done]. intros q. by eapply code_ext_boundary.
  - intros e (? & ? & Hb). split_and!; [lia|done|tauto].
Qed.

Lemma ctx_wf s i c : Inv s -> cs_ctxs s !! i = Some c -> builder_wf bcLength (m_builder c).
Proof. intros HI Hc. destruct (inv_c s HI i c Hc) as (o & b & H). apply H. Qed.

Lemma ext_refl cid W P s : ext cid W P s s.
Proof.
  split; try done.
  - intros i c Hc. exists c. split; [done|]. unfold ctx_ext. split_and!; try done.
    destruct (i =? cid); [apply code_ext_refl|done].
  - intros i c' Hle Hc. apply lookup_lt_Some in Hc. lia.
Qed.

Lemma ext_weaken cid (W W' P P' : nat -> Prop) s s' :
  (forall n, W n -> W' n) -> (forall p, P p -> P' p) -> ext cid W P s s' -> ext cid W' P' s s'.
Proof.
  intros HW HP [HB HV HC HL HN HS HG]. split; try done.
  intros i c Hc. destruct (HC i c Hc) as (c' & Hc' & H1 & H2 & H3 & H4). exists c'. split; [done|].
  unfold ctx_ext. split_and!; try done. destruct (i =? cid); [|done].
  by eapply code_ext_weaken.
Qed.

Lemma ext_stab cid W P s s' : Inv s -> Inv s' -> ext cid W P s s' -> stab s s'.
Proof.
  intros HI HI' [HB HV HC HL HN HS HG]. split; try done.
  intros i c Hc. destruct (HC i c Hc) as (c' & Hc' & H1 & H2 & H3 & H4). exists c'.
  split_and!; try done. intros q. destruct (i =? cid).
  - eapply code_ext_boundary; [exact (ctx_wf _ _ _ HI Hc)|exact (ctx_wf _ _ _ HI' Hc')|exact H4].
  - by rewrite H4.
Qed.

Lemma ext_trans cid W P P' s1 s2 s3 :
  cid < length (cs_ctxs s1) -> Inv s2 -> Inv s3 -> ext cid W P s1 s2 -> ext cid W P' s2 s3 ->
  ext cid W (fun p => P p \/ P' p) s1 s3.
Proof.
  intros Hcid HI2 HI3 [HB HV HC HL HN HS HG] H23. pose proof H23 as [HB' HV' HC' HL' HN' HS' HG'].
  split.
  - by etrans.
  - by etrans.
  - intros i c Hc. destruct (HC i c Hc) as (c2 & Hc2 & ? & ? & ? & Hk).
    destruct (HC' i c2 Hc2) as (c3 & Hc3 & ? & ? & ? & Hk').
    exists c3. split; [done|]. unfold ctx_ext. split_and!; [congruence|by etrans|lia|].
    destruct (i =? cid).
    + eapply code_ext_trans; [exact (ctx_wf _ _ _ HI2 Hc2)|exact (ctx_wf _ _ _ HI3 Hc3)|exact Hk|exact Hk'].
    + congruence.
  - lia.
  - intros i c3 Hi Hc3. destruct (decide (length (cs_ctxs s2) <= i)); [eauto|].
    destruct (lookup_lt_is_Some_2 (cs_ctxs s2) i) as [c2 Hc2]; [lia|].
    destruct (HC' i c2 Hc2) as (c3' & Hc3' & ? & Hu & ? & Hk).
    assert (c3' = c3) as -> by congruence.
    destruct (HN i c2 Hi Hc2) as [Hf1 Hf2]. unfold finished. rewrite (proj2 Hu). split; [done|].
    rewrite (proj2 (Nat.eqb_neq i cid)) in Hk by lia. by rewrite Hk.
  - intros x. by rewrite HS'.
  - by etrans.
Qed.

(** ** What [stab] keeps *)
Lemma here_lt cid bid s : here cid bid s -> cid < length (cs_ctxs s).
Proof. intros (b & c & _ & Hc & _). by eapply lookup_lt_Some. Qed.

Lemma Vs_stable s s' v vi :
  stab s s' -> is_Some (Vs s !! v) -> Vs s' !! v = Some vi -> Vs s !! v = Some vi.
Proof.
  intros Hst [vi' Hv] Hv'. pose proof (prefix_lookup_Some _ _ _ _ Hv (st_v _ _ Hst)). congruence.
Qed.

Lemma here_stab cid bid s s' : Inv s -> stab s s' -> here cid bid s -> here cid bid s'.
Proof.
  intros HI Hst (b & c & Hb & Hc & Hr & Hvis).
  destruct (st_b _ _ Hst _ _ Hb) as (b' & Hb' & _ & Ho & _).
  destruct (st_c _ _ Hst _ _ Hc) as (c' & Hc' & Hr' & _).
  exists b', c'. split_and!; [done|done|congruence|].
  intros x v vi. rewrite (st_scope _ _ Hst). intros Hin Hv.
  apply (Vs_stable s) in Hv; [|done|by eapply inv_scope].
  destruct (Hvis x v vi Hin Hv) as (d & Hd & He).
  destruct (st_b _ _ Hst _ _ Hd) as (d' & Hd' & _ & Ho' & _). exists d'. split; [done|].
  rewrite Ho, Ho'. eapply encloses_grows; [apply Hst|done].
Qed.

Lemma in_scope_stab bid s s' n :
  Inv s -> stab s s' -> is_Some (Bs s !! bid) -> in_scope bid s' n -> in_scope bid s n.
Proof.
  intros HI Hst [b0 Hb0] (x & v & vi & b & d & Hin & Hv & Hn & Hb & Hd & Ho).
  rewrite (st_scope _ _ Hst) in Hin. apply (Vs_stable s) in Hv; [|done|by eapply inv_scope].
  destruct (inv_v s HI _ _ Hv) as [_ [d0 Hd0]].
  destruct (st_b _ _ Hst _ _ Hb0) as (b' & Hb' & _ & Hbo & _).
  destruct (st_b _ _ Hst _ _ Hd0) as (d' & Hd' & _ & Hdo & _).
  exists x, v, vi, b0, d0. split_and!; try done. congruence.
Qed.

Lemma topge_stab cid n s s' : stab s s' -> cid < length (cs_ctxs s) -> topge cid n s -> topge cid n s'.
Proof.
  intros Hst Hlt H c' Hc'. destruct (lookup_lt_is_Some_2 _ _ Hlt) as [c Hc].
  destruct (st_c _ _ Hst _ _ Hc) as (c'' & Hc'' & _ & Ht & _). specialize (H c Hc).
  assert (c'' = c') as -> by congruence. lia.
Qed.

Lemma bnd_stab cid q s s' : stab s s' -> cid < length (cs_ctxs s) -> bnd cid q s -> bnd cid q s'.
Proof.
  intros Hst Hlt H c' Hc'. destruct (lookup_lt_is_Some_2 _ _ Hlt) as [c Hc].
  destruct (st_c _ _ Hst _ _ Hc) as (c'' & Hc'' & _ & _ & Hb). specialize (H c Hc).
  assert (c'' = c') as -> by congruence. auto.
Qed.

Lemma opnd_stab cid o s s' : stab s s' -> cid < length (cs_ctxs s) -> opnd cid o s -> opnd cid o s'.
Proof. destruct o; [apply topge_stab|done]. Qed.

Lemma uvge_stab bid ord s s' :
  Inv s -> stab s s' -> is_Some (Bs s !! bid) -> uvge bid ord s -> uvge bid ord s'.
Proof.
  intros HI Hst [b Hb] H b' o' Hb' Ho'.
  destruct (bo_owner _ _ _ _ (inv_b s HI _ _ Hb)) as (o & Ho & _).
  specialize (H b o Hb Ho).
  destruct (st_b _ _ Hst _ _ Hb) as (b2 & Hb2 & _ & Hbo & _). assert (b2 = b') as -> by congruence.
  destruct (st_b _ _ Hst _ _ Ho) as (o2 & Ho2 & _ & _ & _ & _ & _ & Hpre).
  assert (o2 = o') as -> by congruence. apply prefix_length in Hpre. lia.
Qed.

(** ** Points of a compilation

    [at_ cid bid W P s0 s]: since [s0], the compilation in [cid], [bid] has
    written only slots in [W] and has the branches at [P] to fill. *)
Definition at_ (cid bid : nat) (W P : nat -> Prop) s0 s : Prop :=
  Inv s /\ here cid bid s /\ ext cid W P s0 s /\ stab s0 s.

Definition none : nat -> Prop := fun _ => False.

Lemma at_refl cid bid W P s : Inv s -> here cid bid s -> at_ cid bid W P s s.
Proof. intros HI Hh. split_and!; [done|done|apply ext_refl|done]. Qed.

Lemma at_weaken cid bid (W W' P P' : nat -> Prop) s0 s :
  (forall n, W n -> W' n) -> (forall p, P p -> P' p) ->
  at_ cid bid W P s0 s -> at_ cid bid W' P' s0 s.
Proof. intros HW HP (?&?&?&?). split_and!; try done. by eapply ext_weaken. Qed.

Lemma at_trans cid bid W P P' s1 s2 s3 :
  at_ cid bid W P s1 s2 -> at_ cid bid W P' s2 s3 ->
  cid < length (cs_ctxs s1) -> at_ cid bid W (fun p => P p \/ P' p) s1 s3.
Proof.
  intros (HI2 & Hh2 & He12 & Hs12) (HI3 & Hh3 & He23 & Hs23) Hcid.
  split_and!; [done|done|exact (ext_trans _ _ _ _ _ _ _ Hcid HI2 HI3 He12 He23)|by etrans].
Qed.

(** Sequencing: run a step that starts at [s], after reaching [s] from [s0]. *)
Lemma wp_seq E {A B} cid bid W P P' s0 s (m : M (@CState V) A) (f : A -> M (@CState V) B)
    (Q : A -> @CState V -> Prop) (R : B -> @CState V -> Prop) :
  at_ cid bid W P s0 s -> cid < length (cs_ctxs s0) ->
  wp E m (fun a s' => at_ cid bid W P' s s' /\ Q a s') s ->
  (forall a s', at_ cid bid W (fun p => P p \/ P' p) s0 s' -> stab s s' -> Q a s' -> wp E (f a) R s') ->
  wp E (m ≫= f) R s.
Proof.
  intros Hat Hlt Hm Hf. apply wp_bind. eapply wp_mono; [exact Hm|].
  intros a s' [Hat' HQ]. apply Hf; [|apply Hat'|done]. by eapply at_trans.
Qed.
End invariant.
