(* ===== verification/CompilerRules.v ===== *)
(** * Rules of the compiler's primitive operations

    Emission, branch targets, slots, flags, upvalues and variable resolution:
    each keeps the invariant of [CompilerInv.v] and moves forward in the sense of
    [at_]. *)
From S2P Require Import Prelude Interner VmSelectors CNumbers Ast Bytecode Compiler CompilerInv.
#[local] Set Default Proof Using "Type*".

(** What the encoding guarantees: a bytecode has at least its opcode, filling a
    branch operand does not change the length, and the two upvalue reads have the
    same length (the [SameLengthConstraint] of their definitions). *)
Class EncodingLaws (bcLength : Bytecode -> nat) : Prop := {
  bcLength_pos bc : 0 < bcLength bc;
  bcLength_branch br bc : bcLength (with_branch br bc) = bcLength bc;
  bcLength_upvalue ord out : bcLength (BcUpvalueGetImmutable ord out) = bcLength (BcUpvalueGetMutable ord out)
}.

(** The only ways the compilation of a method can stop: a reported error, an
    operand beyond 16 bits, a block with more than two parameters, or a [super]
    send in a class without superclass. *)
Definition compile_error (hasSuper : bool) (e : error) : Prop :=
  (exists msg, e = Aborted msg) \/
  e = AssertFailed "IntegerCanBeRepresentedIn<uint16_t>(src)" \/
  e = AssertFailed "block->m_params.size() <= 2" \/
  (hasSuper = false /\ e = AssertFailed "ctx.m_superClass != nullptr").

Lemma fmap_alter_same {A B} (g : A -> B) (f : A -> A) i (l : list A) :
  (forall a, g (f a) = g a) -> g <$> alter f i l = g <$> l.
Proof.
  intros Hf. apply list_eq. intros j. rewrite !list_lookup_fmap, list_lookup_alter.
  case_decide as Hij; [subst j|done]. destruct (l !! i); simpl; [by rewrite Hf|done].
Qed.

Section rules.
Context (HashString : string -> Z) {V : Type} (bcLength : Bytecode -> nat) (bcConstants : Bytecode -> list Cst).
Context `{!EncodingLaws bcLength} (known : nat) (hasSuper : bool).
Implicit Types s : @CState V.

Notation E := (compile_error hasSuper).
Notation Inv := (Inv HashString bcLength known).
Notation at_ := (at_ HashString bcLength known).

Lemma aborted_allowed msg : E (Aborted msg).
Proof. left. eauto. Qed.

Lemma wp_lookup_or {A} E' (f : @CState V -> list A) i a Q s :
  f s !! i = Some a -> Q a s -> wp E' (lookup_or f i) Q s.
Proof. intros Hi HQ. unfold wp, lookup_or. by rewrite Hi. Qed.

Lemma wp_curLen_eq E' cid c Q s :
  cs_ctxs s !! cid = Some c -> Q (curLength (m_builder c)) s -> wp E' (@curLen V cid) Q s.
Proof. intros Hc HQ. apply wp_bind. eapply wp_lookup_or; [exact Hc|]. by apply wp_ret. Qed.

(** ** Steps that change no store the invariant looks at *)
Record same_stores s s' : Prop := {
  ss_b : Bs s' = Bs s;
  ss_v : Vs s' = Vs s;
  ss_c : cs_ctxs s' = cs_ctxs s;
  ss_scope x : scope s' x = scope s x;
  ss_globals : globals_wf HashString (cs_globals s) -> globals_wf HashString (cs_globals s');
  ss_interner : interner_le (g_interner (cs_globals s)) (g_interner (cs_globals s'))
}.

Lemma here_same cid bid s s' :
  Bs s' = Bs s -> Vs s' = Vs s -> cs_ctxs s' = cs_ctxs s -> (forall x, scope s' x = scope s x) ->
  here cid bid s -> here cid bid s'.
Proof.
  intros HB HV HC HS (b & c & Hb & Hc & Hr & Hvis). exists b, c. rewrite HB, HC.
  split_and!; [done|done|done|]. intros x v vi. rewrite HS, HV. eauto.
Qed.

Lemma Inv_same s s' : same_stores s s' -> Inv s -> Inv s'.
Proof.
  intros [HB HV HC HS HG HI] [Ib Iv Ic Ij Is Ig Ik]. split; rewrite ?HB, ?HV, ?HC; try done.
  - intros x v. rewrite HS. apply Is.
  - by apply HG.
  - apply prefix_length in HI. lia.
Qed.

Lemma at_same cid bid W s s' : same_stores s s' -> Inv s -> here cid bid s -> at_ cid bid W none s s'.
Proof.
  intros Hs HI Hh. pose proof (Inv_same _ _ Hs HI) as HI'. destruct Hs as [HB HV HC HS HG HIn].
  split_and!; [done|by eapply here_same| |].
  - split; rewrite ?HB, ?HV, ?HC; try done.
    + intros i c Hc. exists c. split; [done|]. unfold ctx_ext. split_and!; try done.
      destruct (i =? cid); [apply code_ext_refl|done].
    + intros i c' Hi Hc. apply lookup_lt_Some in Hc. lia.
  - split; rewrite ?HB, ?HV, ?HC; try done. intros i c Hc. by exists c.
Qed.

Lemma same_stores_upd_bctx s i f :
  (forall b, erase_b (f b) = erase_b b) ->
  same_stores s (mk_cstate (cs_globals s) (cs_vars s) (alter f i (cs_bctxs s)) (cs_ctxs s)
                   (m_localVarMap s) (cs_arrays s)).
Proof. intros Hf. split; try done. unfold Bs. simpl. by apply fmap_alter_same. Qed.

Lemma same_stores_upd_var s i f :
  (forall v, erase_v (f v) = erase_v v) ->
  same_stores s (mk_cstate (cs_globals s) (alter f i (cs_vars s)) (cs_bctxs s) (cs_ctxs s)
                   (m_localVarMap s) (cs_arrays s)).
Proof. intros Hf. split; try done. unfold Vs. simpl. by apply fmap_alter_same. Qed.

Lemma wp_upd_flag cid bid W i f s :
  Inv s -> here cid bid s -> (forall b, erase_b (f b) = erase_b b) ->
  wp E (upd_bctx i f) (fun _ s' => at_ cid bid W none s s' /\ True) s.
Proof. intros HI Hh Hf. apply wp_modify. split; [|done]. exact (at_same _ _ _ _ _ (same_stores_upd_bctx s i f Hf) HI Hh). Qed.

(** ** Updating the current translation context *)
Definition with_ctxs (f : list TranslationContext -> list TranslationContext) s : CState :=
  mk_cstate (cs_globals s) (cs_vars s) (cs_bctxs s) (f (cs_ctxs s)) (m_localVarMap s) (cs_arrays s).

Lemma Inv_alter_ctx cid f s :
  Inv s ->
  (forall c o b, cs_ctxs s !! cid = Some c -> ctx_ok bcLength (Bs s) (Vs s) (cs_ctxs s) cid c o b ->
     m_resultBCtx (f c) = m_resultBCtx c /\ m_parent (m_resultUcb (f c)) = m_parent (m_resultUcb c) /\
     m_historyTopSlot c <= m_historyTopSlot (f c) /\ builder_wf bcLength (m_builder (f c)) /\
     Forall (fun e => bc_ok (m_historyTopSlot (f c)) (length (m_uvs b)) e.2) (code (m_builder (f c))) /\
     Forall (fun off => exists ord out, (off, BcUpvalueGetMutable ord out) ∈ code (m_builder (f c)))
       (m_allUpvalueGetBytecodes (f c)) /\ NoDup (m_allUpvalueGetBytecodes (f c))) ->
  Inv (with_ctxs (alter f cid) s).
Proof.
  intros [Ib Iv Ic Ij Is Ig Ik] Hf. split; try done; simpl.
  2: { replace (m_resultBCtx <$> alter f cid (cs_ctxs s)) with (m_resultBCtx <$> cs_ctxs s); [done|].
    apply list_eq. intros j. rewrite !list_lookup_fmap, list_lookup_alter. case_decide; [subst j|done].
    destruct (cs_ctxs s !! cid) as [c|] eqn:Hc; simpl; [|done]. destruct (Ic cid c Hc) as (o & b & H).
    destruct (Hf c o b eq_refl H) as [-> _]. done. }
  intros i c. rewrite list_lookup_alter. case_decide as Hi; [subst i|].
  - destruct (cs_ctxs s !! cid) as [c0|] eqn:Hc0; simpl; [|done]. intros [= <-].
    destruct (Ic cid c0 Hc0) as (o & b & H). destruct (Hf c0 o b eq_refl H) as (H1&H2&H3&H4&H5&H6&H7).
    exists o, b. destruct H. split; try done; try congruence.
    + intros p Hp. destruct (co_parent p Hp) as (pc & c' & Hpar & Hlt & Hc' & Hr').
      exists pc, c'. split_and!; [congruence|done| |done].
      by rewrite list_lookup_alter_ne by lia.
    + intros v x d Hv Hd Ho. specialize (co_vars v x d Hv Hd Ho). lia.
    + intros j b' Hb' Ho. destruct (co_slots j b' Hb' Ho) as [? Hr]. split; [lia|].
      intros r Hr'. specialize (Hr r Hr'). lia.
  - intros Hc. destruct (Ic i c Hc) as (o & b & H). exists o, b. destruct H. split; try done.
    intros p Hp. destruct (co_parent p Hp) as (pc & c' & Hpar & Hlt & Hc' & Hr').
    destruct (decide (cid = pc)) as [<-|Hne].
    + exists cid, (f c'). rewrite list_lookup_alter_eq, Hc'.
      destruct (Ic cid c' Hc') as (o' & b0 & H').
      destruct (Hf c' o' b0 Hc' H') as (H1&_). split_and!; try done. congruence.
    + exists pc, c'. rewrite list_lookup_alter_ne by done. done.
Qed.

Lemma here_alter_ctx cid bid f s :
  (forall c, m_resultBCtx (f c) = m_resultBCtx c) ->
  here cid bid s -> here cid bid (with_ctxs (alter f cid) s).
Proof.
  intros Hf (b & c & Hb & Hc & Hr & Hvis). exists b, (f c). split_and!; try done.
  - simpl. by rewrite list_lookup_alter_eq, Hc.
  - by rewrite Hf.
Qed.

Lemma ext_alter_ctx cid W P f s :
  (forall c, cs_ctxs s !! cid = Some c -> ctx_ext true W P c (f c)) ->
  ext cid W P s (with_ctxs (alter f cid) s).
Proof.
  intros Hf. split; try done; simpl.
  - intros i c Hc. rewrite list_lookup_alter. case_decide as Hi; [subst i|].
    + rewrite Hc. exists (f c). split; [done|]. rewrite Nat.eqb_refl. by apply Hf.
    + exists c. split; [done|]. rewrite (proj2 (Nat.eqb_neq i cid)) by done. by split_and!.
  - by rewrite length_alter.
  - intros i c' Hi Hc. apply lookup_lt_Some in Hc. rewrite length_alter in Hc. lia.
Qed.

Lemma at_alter_ctx cid bid W P f s :
  Inv s -> here cid bid s ->
  (forall c, m_resultBCtx (f c) = m_resultBCtx c) ->
  (forall c o b, cs_ctxs s !! cid = Some c -> ctx_ok bcLength (Bs s) (Vs s) (cs_ctxs s) cid c o b ->
     ctx_ext true W P c (f c) /\ builder_wf bcLength (m_builder (f c)) /\
     Forall (fun e => bc_ok (m_historyTopSlot (f c)) (length (m_uvs b)) e.2) (code (m_builder (f c))) /\
     Forall (fun off => exists ord out, (off, BcUpvalueGetMutable ord out) ∈ code (m_builder (f c)))
       (m_allUpvalueGetBytecodes (f c)) /\ NoDup (m_allUpvalueGetBytecodes (f c))) ->
  at_ cid bid W P s (with_ctxs (alter f cid) s).
Proof.
  intros HI Hh Hr Hf.
  assert (HI' : Inv (with_ctxs (alter f cid) s)).
  { apply Inv_alter_ctx; [done|]. intros c o b Hc Hok.
    destruct (Hf c o b Hc Hok) as ((H1 & [H2 _] & H3 & _) & H4 & H5 & H6). by rewrite H2. }
  assert (He : ext cid W P s (with_ctxs (alter f cid) s)).
  { apply ext_alter_ctx. intros c Hc. destruct (inv_c _ _ _ _ HI cid c Hc) as (o & b & Hok).
    by destruct (Hf c o b Hc Hok). }
  split_and!; [done|by apply here_alter_ctx|done|exact (ext_stab _ _ _ _ _ _ _ _ HI HI' He)].
Qed.

Lemma wp_UpdateTopSlot cid bid W n s :
  Inv s -> here cid bid s ->
  wp E (UpdateTopSlot cid n) (fun _ s' => at_ cid bid W none s s' /\ topge cid n s') s.
Proof.
  intros HI Hh. apply wp_modify. split.
  - apply (at_alter_ctx cid bid W none (fun c => set_topSlot (max (m_historyTopSlot c) n) c)); try done.
    intros c o b Hc []. simpl. split_and!; try done.
    + unfold ctx_ext. simpl. split_and!; try done; [lia|]. apply code_ext_refl.
    + eapply Forall_impl; [exact co_code|]. intros e. apply bc_ok_mono; lia.
  - intros c. simpl. rewrite list_lookup_alter_eq. destruct (cs_ctxs s !! cid); simpl; [|done].
    intros [= <-]. simpl. lia.
Qed.

(** ** Emission *)

(** The operands are in the current frame and among the current upvalues. *)
Definition bcs (cid bid : nat) (bc : Bytecode) s : Prop :=
  forall c b o, cs_ctxs s !! cid = Some c -> Bs s !! bid = Some b ->
    Bs s !! m_owningContext b = Some o -> bc_ok (m_historyTopSlot c) (length (m_uvs o)) bc.

Lemma at_create cid bid (W P : nat -> Prop) bc f s :
  Inv s -> here cid bid s ->
  (forall c, set_builder (create bcLength bcConstants bc) c = f c) ->
  (forall n, bc_writes bc n -> W n) -> bcs cid bid bc s ->
  (branch_operand bc = None \/ forall c, cs_ctxs s !! cid = Some c -> P (curLength (m_builder c))) ->
  at_ cid bid W P s (with_ctxs (alter f cid) s).
Proof.
  intros HI Hh Hfe HW Hbc HP. apply at_alter_ctx; try done.
  { intros c. by rewrite <-Hfe. }
  intros c o b Hc Hok. rewrite <-Hfe. destruct Hok. simpl.
  destruct Hh as (hb & hc & Hb & Hc' & Hr & _). assert (hc = c) as -> by congruence.
  assert (o = m_owningContext hb) as -> by congruence.
  split_and!; try done.
  - unfold ctx_ext. simpl. split_and!; try done. split; [simpl; lia|].
    exists [(curLength (m_builder c), bc)]. split; [done|].
    apply Forall_singleton. simpl. split_and!; [lia|done|].
    destruct HP as [HP|HP]; [left; unfold branch_ok; simpl; by rewrite HP|right; by apply HP].
  - by apply create_wf.
  - simpl. apply Forall_app. split; [done|]. apply Forall_singleton. simpl.
    by apply (Hbc c hb b).
  - eapply Forall_impl; [exact co_gets|]. intros off (ord & out & Hin). exists ord, out. simpl.
    apply elem_of_app. by left.
Qed.

Lemma wp_emit cid bid W bc s :
  Inv s -> here cid bid s -> branch_operand bc = None ->
  (forall n, bc_writes bc n -> W n) -> bcs cid bid bc s ->
  wp E (emit bcLength bcConstants cid bc) (fun _ s' => at_ cid bid W none s s' /\ True) s.
Proof.
  intros HI Hh Hbr HW Hbc. apply wp_modify. split; [|done].
  eapply (at_create _ _ _ _ bc); try done. by left.
Qed.

(** The position of a branch lies in the code emitted since [s0]. *)
Definition from (cid loc : nat) s0 : Prop :=
  forall c, cs_ctxs s0 !! cid = Some c -> curLength (m_builder c) <= loc.

Lemma wp_curLen cid bid s :
  Inv s -> here cid bid s ->
  wp E (curLen cid) (fun q s' => s' = s /\ bnd cid q s /\ from cid q s) s.
Proof.
  intros HI (b & c & Hb & Hc & _). eapply wp_curLen_eq; [exact Hc|]. split; [done|]. split.
  - intros c' Hc'. assert (c' = c) as -> by congruence. by left.
  - intros c' Hc'. assert (c' = c) as -> by congruence. done.
Qed.

Lemma from_ext cid W P s0 s loc :
  ext cid W P s0 s -> from cid loc s -> from cid loc s0.
Proof.
  intros He Hf c Hc. destruct (ext_c _ _ _ _ _ He _ _ Hc) as (c' & Hc' & _ & _ & _ & Hk).
  rewrite Nat.eqb_refl in Hk. destruct Hk as [Hk _]. specialize (Hf c' Hc'). lia.
Qed.

Lemma wp_compile_branch_if cid bid W bc s :
  Inv s -> here cid bid s -> (forall n, bc_writes bc n -> W n) -> bcs cid bid bc s ->
  wp E (compile_branch_if bcLength bcConstants cid bc)
    (fun loc s' => at_ cid bid W (fun p => p = loc) s s' /\ from cid loc s /\ bnd cid loc s) s.
Proof.
  intros HI Hh HW Hbc. pose proof Hh as (b & c & Hb & Hc & _). apply wp_bind.
  eapply wp_curLen_eq; [exact Hc|]. apply wp_bind, wp_modify, wp_ret.
  split_and!.
  - eapply (at_create _ _ _ _ bc); try done. right. intros c' Hc'. congruence.
  - intros c' Hc'. assert (c' = c) as -> by congruence. done.
  - intros c' Hc'. assert (c' = c) as -> by congruence. by left.
Qed.

Lemma laid_out_lt pos l fin e : laid_out bcLength pos l fin -> e ∈ l -> e.1 < fin.
Proof.
  revert pos. induction l as [|[p bc] l IH]; simpl; intros pos; [set_solver|].
  intros [-> Hl] [->|Hin]%elem_of_cons; [|by eapply IH]. simpl. clear IH.
  pose proof (bcLength_pos bc). remember (pos + bcLength bc) as q. assert (pos < q) as Hlt by lia.
  clear Heqq. revert q Hl Hlt. induction l as [|[p' bc'] l IH]; simpl; intros q; [by intros ->|].
  intros [-> Hl] Hlt. eapply IH; [exact Hl|]. lia.
Qed.

Lemma fmap_at_before (loc : nat) f b :
  builder_wf bcLength b -> curLength b <= loc ->
  (fun p : nat * Bytecode => if p.1 =? loc then (p.1, f p.2) else p) <$> code b = code b.
Proof.
  intros Hwf Hle. apply list_eq. intros i. rewrite list_lookup_fmap.
  destruct (code b !! i) as [e|] eqn:He; simpl; [|done].
  pose proof (laid_out_lt _ _ _ _ Hwf (list_elem_of_lookup_2 _ _ _ He)) as Hlt.
  by rewrite (proj2 (Nat.eqb_neq _ _)) by lia.
Qed.

(** Filling the branch at [loc]. *)
Lemma at_setBranch cid bid (W P : nat -> Prop) loc target b2 s0 s c :
  Inv s0 -> at_ cid bid W P s0 s -> cid < length (cs_ctxs s0) -> from cid loc s0 -> bnd cid target s ->
  cs_ctxs s !! cid = Some c -> SetBranchTarget loc target (m_builder c) = (true, b2) ->
  let s' := with_ctxs (alter (set_builder (fun _ => b2)) cid) s in
  at_ cid bid W (fun p => p <> loc /\ P p) s0 s' /\ stab s s'.
Proof.
  intros HI0 (HI & Hh & He & Hst) Hlt Hfrom Hbnd Hc Hset.
  unfold SetBranchTarget in Hset.
  destruct ((_ <? _) || _)%Z eqn:Hrange; [done|]. injection Hset as <-.
  apply orb_false_elim in Hrange as [Hr1 Hr2]. apply Z.ltb_ge in Hr1, Hr2.
  set (diff := (Z.of_nat target - Z.of_nat loc)%Z) in *.
  unfold SetBranchTargetOffset. set (b2 := at_position loc _ _).
  assert (Hbd : forall q, boundary b2 q <-> boundary (m_builder c) q) by (intros; apply boundary_at_position).
  assert (HI' : Inv (with_ctxs (alter (set_builder (fun _ => b2)) cid) s)).
  { apply Inv_alter_ctx; [done|]. intros c' o b Hc' Hok. assert (c' = c) as -> by congruence.
    destruct Hok. simpl. split_and!; try done.
    - apply at_position_wf; [intros; apply bcLength_branch|done].
    - apply Forall_fmap. eapply Forall_impl; [exact co_code|]. intros [p bc]. simpl.
      destruct (p =? loc); simpl; [apply bc_ok_with_branch|done].
    - eapply Forall_impl; [exact co_gets|]. intros off (ord & out & Hin). exists ord, out.
      apply list_elem_of_fmap. exists (off, BcUpvalueGetMutable ord out). split; [|done].
      simpl. by destruct (off =? loc). }
  assert (Hstab : stab s (with_ctxs (alter (set_builder (fun _ => b2)) cid) s)).
  { split; try done. intros i ci Hci. simpl. rewrite list_lookup_alter. case_decide as Hi; [subst i|].
    - rewrite Hci. assert (ci = c) as -> by congruence. eexists. split; [done|]. simpl.
      split_and!; try done. intros q. apply Hbd.
    - exists ci. done. }
  split; [|done]. split_and!; [done|by apply here_alter_ctx| |by etrans].
  destruct He as [HB HV HC HL HN HS HG]. split; try done; simpl; [| |].
  - intros i c0 Hc0. destruct (HC i c0 Hc0) as (c' & Hc' & Hx).
    rewrite list_lookup_alter. case_decide as Hi; [subst i|].
    2: { exists c'. split; [done|]. by rewrite (proj2 (Nat.eqb_neq i cid)) in * by done. }
    destruct Hx as (H1 & H2 & H3 & H4). rewrite Hc'. assert (c' = c) as -> by congruence. eexists. split; [done|].
    rewrite Nat.eqb_refl in *. unfold ctx_ext. simpl. split_and!; try done.
    destruct H4 as (Hle & new & Hnew & Hf). split; [done|].
    exists ((fun p => if p.1 =? loc then (p.1, with_branch (Some diff) p.2) else p) <$> new).
    split.
    + simpl. rewrite Hnew, fmap_app. f_equal.
      apply fmap_at_before; [exact (ctx_wf _ _ _ _ _ _ HI0 Hc0)|by apply Hfrom].
    + apply Forall_fmap. eapply Forall_impl; [exact Hf|]. intros [p bc] (Hp & HW & Hb). simpl in *.
      destruct (Nat.eqb_spec p loc) as [->|Hne]; simpl.
      * split_and!; [done|intros n; rewrite bc_writes_with_branch; apply HW|]. left.
        unfold branch_ok. simpl. rewrite branch_operand_with_branch.
        destruct (branch_operand bc); [|done]. split; [lia|]. exists target. split; [|lia].
        apply Hbd. by apply Hbnd.
      * split_and!; [done|done|]. destruct Hb as [Hb|Hb]; [left|by right].
        eapply branch_ok_mono; [|exact Hb]. intros q. apply Hbd.
  - by rewrite length_alter.
  - intros i c' Hi. rewrite list_lookup_alter_ne by lia. eauto.
Qed.

(** ** Steps that only add upvalues *)
Record bstep s s' : Prop := {
  bs_b : grows (Bs s) (Bs s');
  bs_len : length (Bs s') = length (Bs s);
  bs_binv : binv (Bs s') (Vs s');
  bs_v : Vs s' = Vs s;
  bs_c : cs_ctxs s' = cs_ctxs s;
  bs_scope x : scope s' x = scope s x;
  bs_globals : cs_globals s' = cs_globals s
}.

Lemma grows_back B B' i b' :
  grows B B' -> length B' = length B -> B' !! i = Some b' -> exists b, B !! i = Some b /\ same_b b b'.
Proof.
  intros HB Hlen Hi. pose proof (lookup_lt_Some _ _ _ Hi) as Hlt. rewrite Hlen in Hlt.
  destruct (lookup_lt_is_Some_2 _ _ Hlt) as [b Hb]. exists b. split; [done|].
  destruct (HB _ _ Hb) as (b2 & Hb2 & Hs). congruence.
Qed.

Lemma ctx_ok_grows B B' vs cs i c o b :
  grows B B' -> length B' = length B -> vinv B vs ->
  ctx_ok bcLength B vs cs i c o b -> exists b', ctx_ok bcLength B' vs cs i c o b'.
Proof.
  intros HB Hlen Hv []. destruct (HB _ _ co_lookup) as (b' & Hb' & Hs).
  pose proof Hs as (_ & Ho & Ht & _ & _ & Hpre). exists b'. split; try done.
  - congruence.
  - intros p Hp. apply co_parent. congruence.
  - intros Hn. apply co_top. congruence.
  - eapply Forall_impl; [exact co_code|]. intros e. apply bc_ok_mono; [done|].
    by apply prefix_length.
  - intros v x d Hvx Hd Hod. destruct (grows_back _ _ _ _ HB Hlen Hd) as (d0 & Hd0 & _ & Ho0 & _).
    eapply co_vars; [done|done|congruence].
  - intros j b2 Hb2 Ho2. destruct (grows_back _ _ _ _ HB Hlen Hb2) as (b0 & Hb0 & Hs0 & Ho0 & _ & Hr0 & _).
    rewrite Hs0, Hr0. eapply co_slots; [done|congruence].
Qed.

Lemma Inv_bstep s s' : Inv s -> bstep s s' -> Inv s'.
Proof.
  intros [Ib Iv Ic Ij Is Ig Ik] [HB HL Hb HV HC HS HG]. split; rewrite ?HV, ?HC, ?HG; try done.
  - by rewrite HV in Hb.
  - intros v x Hx. destruct (Iv v x Hx) as [H1 [b Hb']]. split; [done|].
    destruct (HB _ _ Hb') as (b' & H2 & _). eauto.
  - intros i c Hc. destruct (Ic i c Hc) as (o & b & Hok).
    destruct (ctx_ok_grows _ _ _ _ _ _ _ _ HB HL Iv Hok) as (b' & Hok'). eauto.
  - intros x v. rewrite HS. apply Is.
Qed.

Lemma bstep_refl s : Inv s -> bstep s s.
Proof. intros HI. split; try done. apply HI. Qed.

Lemma bstep_trans s1 s2 s3 : bstep s1 s2 -> bstep s2 s3 -> bstep s1 s3.
Proof.
  intros [HB HL Hb HV HC HS HG] [HB' HL' Hb' HV' HC' HS' HG']. split; try congruence.
  - by etrans.
  - done.
Qed.

Lemma bstep_stab s s' : bstep s s' -> stab s s'.
Proof.
  intros [HB HL Hb HV HC HS HG]. split; rewrite ?HV, ?HC; try done. intros i c Hc. by exists c.
Qed.

Lemma at_bstep cid bid W s s' : Inv s -> here cid bid s -> bstep s s' -> at_ cid bid W none s s'.
Proof.
  intros HI Hh Hs. pose proof (Inv_bstep _ _ HI Hs) as HI'. pose proof (bstep_stab _ _ Hs) as Hst.
  split_and!; [done|exact (here_stab _ _ _ _ _ _ _ HI Hst Hh)| |done].
  destruct Hs as [HB HL Hb HV HC HS HG]. split; rewrite ?HV, ?HC, ?HG; try done.
  - intros i c Hc. exists c. split; [done|]. unfold ctx_ext. split_and!; try done.
    destruct (i =? cid); [apply code_ext_refl|done].
  - intros i c' Hi Hc. apply lookup_lt_Some in Hc. lia.
Qed.

Lemma bstep_flag s i f :
  Inv s -> (forall b, erase_b (f b) = erase_b b) ->
  bstep s (mk_cstate (cs_globals s) (cs_vars s) (alter f i (cs_bctxs s)) (cs_ctxs s)
             (m_localVarMap s) (cs_arrays s)).
Proof.
  intros HI Hf. split; try done; unfold Bs; simpl; rewrite (fmap_alter_same erase_b) by done; try done.
  apply HI.
Qed.

Lemma bctx_ok_grows B B' vs vs' i b :
  grows B B' -> vs `prefix_of` vs' -> bctx_ok B vs i b -> bctx_ok B' vs' i b.
Proof.
  intros HB Hvs []. split; try done.
  - destruct bo_owner as (o & Ho & Hoo & Ht). destruct (HB _ _ Ho) as (o' & Ho' & _ & Hoo' & Ht' & _).
    exists o'. split_and!; [done|congruence|congruence].
  - intros p Hp. destruct (bo_parent p Hp) as (Hlt & pb & Hpb & Hpo). split; [done|].
    destruct (HB _ _ Hpb) as (pb' & Hpb' & _ & Hpo' & _). exists pb'. split; [done|congruence].
  - intros n uv Hn Huv. exact (uv_ok_grows _ _ _ _ _ _ _ HB Hvs eq_refl (bo_uvs n uv Hn Huv)).
Qed.

Lemma Bs_push_uv s s' uv i :
  cs_bctxs s' = alter (push_uv uv) i (cs_bctxs s) -> Bs s' = alter (push_uv uv) i (Bs s).
Proof. intros H. unfold Bs. rewrite H. apply list_fmap_alter, Forall_true. intros b. by destruct b. Qed.

Lemma grows_push_uv uv i B : grows B (alter (push_uv uv) i B).
Proof.
  intros j b Hb. rewrite list_lookup_alter. case_decide as Hi; [subst j|by exists b].
  rewrite Hb. eexists. split; [done|]. unfold same_b. simpl. split_and!; try done. by eexists.
Qed.

Lemma bctx_ok_push_uv B vs i b uv v :
  B !! i = Some b -> m_owningContext b = i -> m_trueParent b <> None ->
  m_varInfo uv = Some v -> uv_ok B vs b uv ->
  bctx_ok B vs i b -> bctx_ok (alter (push_uv uv) i B) vs i (push_uv uv b).
Proof.
  intros Hb Ho Ht Hv Huv Hok. pose proof (grows_push_uv uv i B) as HB.
  pose proof (bctx_ok_grows _ _ _ _ _ _ HB (reflexivity vs) Hok) as [].
  assert (Hself : 0 < length (m_uvs b)) by auto.
  split; simpl; try done.
  - intros _ _. rewrite length_app. simpl. lia.
  - intros v' n. rewrite Hv. destruct (decide (v = v')) as [<-|Hne].
    + rewrite lookup_insert_eq. intros [= <-]. split; [done|]. exists uv.
      by rewrite list_lookup_middle.
    + rewrite lookup_insert_ne by done. intros Hn. destruct (bo_ord v' n Hn) as (? & uv' & Hl & Hi).
      split; [done|]. exists uv'. split; [by apply lookup_app_Some_l|done].
  - intros n uv' Hn. rewrite list_lookup_snoc_Some. intros [Hl|[-> ->]]; [by eapply bo_uvs|].
    exact (uv_ok_grows _ _ _ _ _ _ _ HB (reflexivity vs) eq_refl Huv).
Qed.

Lemma bstep_push_uv s i b uv v :
  Inv s -> Bs s !! i = Some b -> m_owningContext b = i -> m_trueParent b <> None ->
  m_varInfo uv = Some v -> uv_ok (Bs s) (Vs s) b uv ->
  bstep s (mk_cstate (cs_globals s) (cs_vars s) (alter (push_uv uv) i (cs_bctxs s)) (cs_ctxs s)
             (m_localVarMap s) (cs_arrays s)).
Proof.
  intros HI Hb Ho Ht Hv Huv. set (s' := mk_cstate _ _ _ _ _ _).
  pose proof (Bs_push_uv s s' uv i eq_refl) as HBs.
  split; rewrite ?HBs; try done.
  - apply grows_push_uv.
  - by rewrite length_alter.
  - intros j b'. rewrite list_lookup_alter. case_decide as Hi; [subst j|].
    + rewrite Hb. intros [= <-]. eapply bctx_ok_push_uv; try done. exact (inv_b _ _ _ _ HI _ _ Hb).
    + intros Hj. eapply bctx_ok_grows; [apply grows_push_uv|done|exact (inv_b _ _ _ _ HI _ _ Hj)].
Qed.

(** ** [AddUpvalue] *)
Lemma lookup_Bs s i b : Bs s !! i = Some b -> exists b0, cs_bctxs s !! i = Some b0 /\ b = erase_b b0.
Proof. unfold Bs. rewrite list_lookup_fmap_Some. naive_solver. Qed.
Lemma lookup_Vs s i v : Vs s !! i = Some v -> exists v0, cs_vars s !! i = Some v0 /\ v = erase_v v0.
Proof. unfold Vs. rewrite list_lookup_fmap_Some. naive_solver. Qed.
Lemma lookup_Bs' s i b0 : cs_bctxs s !! i = Some b0 -> Bs s !! i = Some (erase_b b0).
Proof. unfold Bs. intros H. by rewrite list_lookup_fmap, H. Qed.

Lemma encloses_step B o p : encloses B o p -> o <> p -> exists q, enclosed_in B o q /\ encloses B q p.
Proof. intros [|]%rtc_inv; [done|]. naive_solver. Qed.

(** The new upvalue: its variable is a local of the enclosing function, or an
    upvalue of it that the recursive call returns. *)
Lemma uv_ok_parent_local s b x var d p :
  Vs s !! var = Some x -> Bs s !! var_bctx x = Some d -> m_trueParent b = Some p -> m_owningContext d = p ->
  uv_ok (Bs s) (Vs s) b (mk_uvinfo true (Some (m_slotOrd x)) None (Some var)).
Proof. intros Hx Hd Hp Ho. exists var, x, p. simpl. split_and!; try done. by exists d. Qed.

Lemma uv_ok_parent_upvalue s b x var p pb ord uv :
  Vs s !! var = Some x -> m_trueParent b = Some p -> Bs s !! p = Some pb -> 0 < ord ->
  m_uvs pb !! ord = Some uv -> m_varInfo uv = Some var ->
  uv_ok (Bs s) (Vs s) b (mk_uvinfo false None (Some ord) (Some var)).
Proof. intros. exists var, x, p. simpl. split_and!; try done. by exists ord, pb, uv. Qed.

Definition captured (this var ord : nat) s : Prop :=
  0 < ord /\ exists b uv, Bs s !! this = Some b /\ m_uvs b !! ord = Some uv /\ m_varInfo uv = Some var.

Lemma wp_push_uv E' this var b uv s :
  Inv s -> Bs s !! this = Some b -> m_owningContext b = this -> m_trueParent b <> None ->
  m_varInfo uv = Some var -> uv_ok (Bs s) (Vs s) b uv ->
  wp E' (upd_bctx this (push_uv uv) ;; me' ← the_bctx this; mret (length (m_uvs me') - 1))
    (fun ord s' => bstep s s' /\ captured this var ord s') s.
Proof.
  intros HI Hb Ho Ht Hv Huv. pose proof (bstep_push_uv _ _ _ _ _ HI Hb Ho Ht Hv Huv) as Hstep.
  destruct (lookup_Bs _ _ _ Hb) as (b0 & Hb0 & ->).
  apply wp_bind, wp_modify, wp_bind. eapply wp_lookup_or; [simpl; by rewrite list_lookup_alter_eq, Hb0|].
  apply wp_ret. split; [exact Hstep|].
  pose proof (bo_self _ _ _ _ (inv_b _ _ _ _ HI _ _ Hb) Ho Ht) as Hpos. simpl in *.
  rewrite length_app. simpl. split; [lia|]. exists (push_uv uv (erase_b b0)), uv. split_and!; [|simpl|done].
  - erewrite (Bs_push_uv s) by done. by rewrite list_lookup_alter_eq, Hb.
  - replace (length (m_uvs b0) + 1 - 1) with (length (m_uvs b0)) by lia. by rewrite list_lookup_middle.
Qed.

Lemma wp_AddUpvalue E' fuel this var s b x d :
  Inv s -> Bs s !! this = Some b -> m_owningContext b = this ->
  Vs s !! var = Some x -> Bs s !! var_bctx x = Some d ->
  encloses (Bs s) this (m_owningContext d) -> this <> m_owningContext d -> this < fuel ->
  wp E' (AddUpvalue fuel this var) (fun ord s' => bstep s s' /\ captured this var ord s') s.
Proof.
  revert this s b x d. induction fuel as [|fuel IH]; intros this s b x d HI Hb Ho Hx Hd He Hne Hlt; [lia|].
  destruct (encloses_step _ _ _ He Hne) as (p & (b' & Hb' & Hp) & Hep). assert (b' = b) as -> by congruence.
  destruct (lookup_Bs _ _ _ Hb) as (me & Hme & ->). destruct (lookup_Vs _ _ _ Hx) as (v & Hv & ->).
  cbn [AddUpvalue]. apply wp_bind. eapply wp_lookup_or; [exact Hme|]. apply wp_bind, wp_check.
  2: { unfold IsInlined. simpl in Ho. rewrite Ho, Nat.eqb_refl. done. }
  intros _. apply wp_bind. eapply wp_lookup_or; [exact Hv|]. apply wp_bind, wp_modify.
  set (s1 := mk_cstate _ _ _ _ _ _).
  assert (H1 : bstep s s1) by (by apply bstep_flag).
  pose proof (Inv_bstep _ _ HI H1) as HI1.
  assert (HB1 : Bs s1 = Bs s) by (by apply (fmap_alter_same erase_b)).
  assert (HV1 : Vs s1 = Vs s) by done.
  rewrite <-HB1 in Hb, Hd, Hep. rewrite <-HV1 in Hx.
  destruct (lookup_Bs _ _ _ Hd) as (def & Hdef & ->). apply wp_bind.
  eapply wp_lookup_or; [exact Hdef|]. simpl in Ho, Hp, Hne, Hep.
  apply wp_bind, wp_check; [intros _|by rewrite (proj2 (Nat.eqb_neq _ _) Hne)].
  apply wp_bind, wp_check; [intros _|by rewrite Hp].
  destruct (m_uvOrdMap me !! var) as [ord|] eqn:Eord.
  { apply wp_ret. split; [done|]. pose proof (inv_b _ _ _ _ HI1 _ _ Hb) as Hok.
    destruct (bo_ord _ _ _ _ Hok var ord Eord) as (? & uv & ? & ?). split; [done|]. eauto. }
  rewrite Hp. apply wp_bind.
  apply wp_mono with (Q := fun uv s2 => bstep s1 s2 /\ m_varInfo uv = Some var /\
    forall b2, Bs s2 !! this = Some b2 -> m_trueParent b2 = Some p -> uv_ok (Bs s2) (Vs s2) b2 uv).
  - apply wp_if.
    + intros Hpe%Nat.eqb_eq. apply wp_ret. split_and!; [by apply bstep_refl|done|].
      intros b2 Hb2 Hp2. exact (uv_ok_parent_local s1 b2 _ var _ p Hx Hd Hp2 (eq_sym Hpe)).
    + intros Hpe%Nat.eqb_neq. apply wp_bind.
      destruct (bo_parent _ _ _ _ (inv_b _ _ _ _ HI1 _ _ Hb) p Hp) as (Hlt' & pb & Hpb & Hpo). simpl in Hlt'.
      eapply wp_mono; [exact (IH p s1 pb _ _ HI1 Hpb Hpo Hx Hd Hep Hpe ltac:(lia))|].
      intros j s2 [H2 (Hj & pb2 & uv & Hpb2 & Huv & Hvi)]. apply wp_ret. split_and!; [done|done|].
      intros b2 Hb2 Hp2. eapply uv_ok_parent_upvalue; try done. by rewrite (bs_v _ _ H2).
  - intros uv s2 (H2 & Hvi & Hok). destruct (bs_b _ _ H2 _ _ Hb) as (b2 & Hb2 & Hs2).
    destruct Hs2 as (_ & Ho2 & Ht2 & _). simpl in Ho2, Ht2.
    eapply wp_mono; [apply (wp_push_uv E' this var b2)|].
    + exact (Inv_bstep _ _ HI1 H2).
    + done.
    + congruence.
    + congruence.
    + done.
    + apply Hok; [done|congruence].
    + intros ord s3 [H3 Hc]. split; [|done]. eapply bstep_trans; [exact H1|]. by eapply bstep_trans.
Qed.

Lemma wp_AddUpvalue_top E' this var s b x d :
  Inv s -> Bs s !! this = Some b -> m_owningContext b = this ->
  Vs s !! var = Some x -> Bs s !! var_bctx x = Some d ->
  encloses (Bs s) this (m_owningContext d) -> this <> m_owningContext d ->
  wp E' (AddUpvalue_top this var) (fun ord s' => bstep s s' /\ captured this var ord s') s.
Proof.
  intros HI Hb Ho Hx Hd He Hne.
  refine (wp_AddUpvalue E' (S (length (cs_bctxs s))) this var s b x d HI Hb Ho Hx Hd He Hne _).
  apply lookup_lt_Some in Hb. unfold Bs in Hb. rewrite length_fmap in Hb. lia.
Qed.

(** ** Variable resolution *)
Definition same_fn (bid v : nat) s : bool :=
  match Vs s !! v, Bs s !! bid with
  | Some vi, Some b =>
      match Bs s !! var_bctx vi with Some d => m_owningContext d =? m_owningContext b | None => false end
  | _, _ => false
  end.

(** The kind a name resolves to: it does not depend on the mode. *)
Definition var_kind (env : CompileEnv) (bid : nat) (x : string) s : VarUseKind :=
  if is_self_or_super x then VuLocal
  else match last (scope s x) with
       | Some v => if same_fn bid v s then VuLocal else VuUpvalue
       | None =>
           if m_fieldMap env !! x then VuField
           else if bool_decide (x ∈ ["false"; "true"; "nil"]%string) then VuFalseTrueNil else VuGlobal
       end.

Lemma last_scope s x : m_localVarMap s !! x ≫= (fun l => last l) = last (scope s x).
Proof. unfold scope. by destruct (m_localVarMap s !! x). Qed.

Lemma here_var cid bid s x v :
  Inv s -> here cid bid s -> v ∈ scope s x ->
  exists b vi d, Bs s !! bid = Some b /\ Vs s !! v = Some vi /\ Bs s !! var_bctx vi = Some d /\
    encloses (Bs s) (m_owningContext b) (m_owningContext d) /\
    same_fn bid v s = (m_owningContext d =? m_owningContext b).
Proof.
  intros HI (b & c & Hb & Hc & Hr & Hvis) Hin. destruct (inv_scope _ _ _ _ HI x v Hin) as [vi Hvi].
  destruct (Hvis x v vi Hin Hvi) as (d & Hd & He). exists b, vi, d. split_and!; try done.
  unfold same_fn. by rewrite Hvi, Hb, Hd.
Qed.

Lemma same_fn_stab cid bid s s' x v :
  Inv s -> here cid bid s -> stab s s' -> v ∈ scope s x -> same_fn bid v s' = same_fn bid v s.
Proof.
  intros HI Hh Hst Hin. destruct (here_var _ _ _ _ _ HI Hh Hin) as (b & vi & d & Hb & Hvi & Hd & _ & ->).
  unfold same_fn. rewrite (prefix_lookup_Some _ _ _ _ Hvi (st_v _ _ Hst)).
  destruct (st_b _ _ Hst _ _ Hb) as (b' & -> & _ & -> & _).
  by destruct (st_b _ _ Hst _ _ Hd) as (d' & -> & _ & -> & _).
Qed.

Lemma var_kind_stab env cid bid x s s' :
  Inv s -> here cid bid s -> stab s s' -> var_kind env bid x s' = var_kind env bid x s.
Proof.
  intros HI Hh Hst. unfold var_kind. rewrite (st_scope _ _ Hst).
  destruct (is_self_or_super x); [done|]. destruct (last (scope s x)) as [v|] eqn:Hl; [|done].
  apply last_Some_elem_of in Hl. by rewrite (same_fn_stab cid bid s s' x v).
Qed.

Lemma in_scope_topge cid bid s n : Inv s -> here cid bid s -> in_scope bid s n -> topge cid n s.
Proof.
  intros HI (b & c & Hb & Hc & Hr & _) (x & v & vi & b' & d & Hin & Hv & <- & Hb' & Hd & Ho) c' Hc'.
  assert (c' = c) as -> by congruence. destruct (inv_c _ _ _ _ HI _ _ Hc) as (o & bo & Hok).
  destruct Hok. eapply co_vars; [done|done|congruence].
Qed.

Lemma in_scope_pos bid s n : Inv s -> in_scope bid s n -> 0 < n.
Proof.
  intros HI (x & v & vi & b & d & Hin & Hv & <- & Hb & Hd & Ho). by apply (inv_v _ _ _ _ HI _ _ Hv).
Qed.

Lemma bstep_var_flag s i f :
  Inv s -> (forall v, erase_v (f v) = erase_v v) ->
  bstep s (mk_cstate (cs_globals s) (alter f i (cs_vars s)) (cs_bctxs s) (cs_ctxs s)
             (m_localVarMap s) (cs_arrays s)).
Proof.
  intros HI Hf. split; try done; unfold Vs; simpl; rewrite (fmap_alter_same erase_v) by done; try done.
  apply HI.
Qed.

Lemma captured_uvge bid s b var ord :
  Bs s !! bid = Some b -> captured (m_owningContext b) var ord s -> uvge bid ord s.
Proof.
  intros Hb (_ & o & uv & Ho & Huv & _) b' o' Hb' Ho'. assert (b' = b) as -> by congruence.
  assert (o' = o) as -> by congruence. by eapply lookup_lt_Some.
Qed.

(** The flags a resolution sets: a write from another function makes the variable mutable. *)
Lemma wp_resolve_flags bid var v mode s :
  Inv s -> cs_vars s !! var = Some v ->
  wp E (match mode with
        | ForRead => upd_var var NotifyUse
        | ForWrite => upd_var var (NotifyWrite (bid =? var_bctx v))
        | DryRun => mret tt
        end)
    (fun _ s' => bstep s s' /\ exists v', cs_vars s' !! var = Some v' /\ erase_v v' = erase_v v /\
       (mode = ForWrite -> bid <> var_bctx v -> m_isImmutable v' = false)) s.
Proof.
  intros HI Hv. destruct mode.
  - apply wp_modify. split; [by apply bstep_var_flag|]. exists (NotifyUse v).
    simpl. by rewrite list_lookup_alter_eq, Hv.
  - apply wp_modify. split; [by apply bstep_var_flag|]. exists (NotifyWrite (bid =? var_bctx v) v).
    simpl. rewrite list_lookup_alter_eq, Hv. split_and!; try done.
    intros _ Hne. rewrite (proj2 (Nat.eqb_neq _ _) Hne). simpl. by rewrite orb_true_r.
  - apply wp_ret. split; [by apply bstep_refl|]. by exists v.
Qed.

Lemma wp_resolve_local cid bid x v mode s :
  Inv s -> here cid bid s -> v ∈ scope s x ->
  wp E (resolve_local bid v mode) (fun vr s' => bstep s s' /\
    if same_fn bid v s then vr_kind vr = VuLocal /\ in_scope bid s (vr_ord vr)
    else vr_kind vr = VuUpvalue /\ uvge bid (vr_ord vr) s') s.
Proof.
  intros HI Hh Hin.
  destruct (here_var _ _ _ _ _ HI Hh Hin) as (b & vi & d & Hb & Hvi & Hd & He & Hsf).
  destruct (lookup_Vs _ _ _ Hvi) as (v0 & Hv0 & Hev). apply wp_bind. eapply wp_lookup_or; [exact Hv0|].
  apply wp_bind. eapply wp_mono; [exact (wp_resolve_flags _ _ _ _ _ HI Hv0)|].
  intros _ s1 [H1 (v1 & Hv1 & Hev1 & Him)]. pose proof (Inv_bstep _ _ HI H1) as HI1.
  apply wp_bind. eapply wp_lookup_or; [exact Hv1|].
  destruct (bs_b _ _ H1 _ _ Hd) as (d1 & Hd1 & Hds). destruct (bs_b _ _ H1 _ _ Hb) as (b1 & Hb1 & Hbs).
  destruct Hds as (_ & Hdo & _), Hbs as (_ & Hbo & _).
  assert (Hvb : var_bctx v1 = var_bctx vi) by (rewrite Hev; change (var_bctx (erase_v v0)) with (var_bctx v0);
    change (var_bctx v1) with (var_bctx (erase_v v1)); by rewrite Hev1).
  destruct (lookup_Bs _ _ _ Hd1) as (d1' & Hd1' & ->). destruct (lookup_Bs _ _ _ Hb1) as (b1' & Hb1' & ->).
  rewrite <-Hvb in Hd1'. apply wp_bind. eapply wp_lookup_or; [exact Hd1'|].
  apply wp_bind. eapply wp_lookup_or; [exact Hb1'|]. simpl in Hdo, Hbo. rewrite Hdo, Hbo, Hsf.
  destruct (Nat.eqb_spec (m_owningContext d) (m_owningContext b)) as [Heq|Hne]; simpl.
  - apply wp_ret. split; [done|]. split; [done|]. exists x, v, vi, b, d. split_and!; try done.
    simpl. rewrite Hev. change (m_slotOrd (erase_v v0)) with (m_slotOrd v0).
    change (m_slotOrd v1) with (m_slotOrd (erase_v v1)). by rewrite Hev1.
  - apply wp_bind, wp_check.
    + intros _. destruct (bo_owner _ _ _ _ (inv_b _ _ _ _ HI _ _ Hb)) as (o & Ho & Hoo & _).
      destruct (bs_b _ _ H1 _ _ Ho) as (o1 & Ho1 & _ & Hoo1 & _).
      assert (Hx1 : Vs s1 !! v = Some vi) by (by rewrite (bs_v _ _ H1)).
      assert (He1 : encloses (Bs s1) (m_owningContext b) (m_owningContext (erase_b d1'))).
      { simpl. rewrite Hdo. eapply encloses_grows; [exact (bs_b _ _ H1)|done]. }
      assert (Hne1 : m_owningContext b <> m_owningContext (erase_b d1')) by (simpl; congruence).
      apply wp_bind. eapply wp_mono;
        [exact (wp_AddUpvalue_top E _ v s1 o1 vi _ HI1 Ho1 (eq_trans Hoo1 Hoo) Hx1 Hd1 He1 Hne1)|].
      intros ord s2 [H2 Hc]. apply wp_ret. split; [by eapply bstep_trans|]. split; [done|].
      destruct (bs_b _ _ H2 _ _ Hb1) as (b2 & Hb2 & _ & Hbo2 & _).
      eapply captured_uvge; [exact Hb2|]. rewrite Hbo2. simpl. by rewrite Hbo.
    + intros Hc. destruct (bool_decide_reflect (mode = ForWrite)) as [->|]; [|done].
      rewrite Him in Hc; [done|done|]. intros ->. apply Hne.
      assert (vi.(var_bctx) = var_bctx v0) as Hx by (by rewrite Hev). rewrite Hx in Hd. congruence.
Qed.

Definition constant_names : list string := ["false"; "true"; "nil"]%string.

(** The slot of a global that is not one of the constants. *)
Definition global_slot (ord : nat) s : Prop :=
  exists id name, m_globalStringIdWithIndex (cs_globals s) !! ord = Some id /\
    Get id (g_interner (cs_globals s)) = Ok name /\ name ∉ constant_names.

Definition resolved (env : CompileEnv) (cid bid : nat) (x : string) (mode : VarResolveMode)
    (vr : VarResolveResult) s s' : Prop :=
  vr_kind vr = var_kind env bid x s /\
  match vr_kind vr with
  | VuLocal => topge cid (vr_ord vr) s' /\ ((vr_ord vr = 0 /\ mode <> ForWrite) \/ in_scope bid s (vr_ord vr))
  | VuUpvalue => uvge bid (vr_ord vr) s'
  | VuField => m_fieldMap env !! x = Some (vr_ord vr)
  | VuGlobal => mode <> ForWrite /\ global_slot (vr_ord vr) s'
  | VuFalseTrueNil => mode <> ForWrite /\ vr_ord vr <= 2
  end.

Lemma wp_GetSlotForGlobal_c cid bid W name s :
  Inv s -> here cid bid s -> name ∉ constant_names ->
  wp E (GetSlotForGlobal_c HashString name) (fun slot s' => at_ cid bid W none s s' /\ global_slot slot s') s.
Proof.
  intros HI Hh Hn. unfold wp, GetSlotForGlobal_c.
  pose proof (inv_globals _ _ _ _ HI) as Hwf.
  pose proof (GetSlotForGlobal_wf HashString name _ Hwf) as Hwf'.
  pose proof (GetSlotForGlobal_slot HashString name _ Hwf) as Hslot.
  pose proof (GetSlotForGlobal_le HashString name (cs_globals s)) as Hle.
  destruct (GetSlotForGlobal HashString name (cs_globals s)) as [slot g]. simpl in *. split.
  - apply at_same; [|done|done]. by split.
  - destruct Hslot as (ord & Hm & Ho & _). destruct Hwf' as ((_ & Hbij & _) & _ & Hidx & _).
    exists ord, name. split_and!; [by apply Hidx|simpl|done].
    eapply Get_lookup. by apply Hbij.
Qed.

Lemma wp_resolve_nonlocal env cid bid W x mode s :
  Inv s -> here cid bid s -> is_self_or_super x = false -> last (scope s x) = None ->
  wp E (resolve_nonlocal HashString env x mode)
    (fun vr s' => at_ cid bid W none s s' /\ resolved env cid bid x mode vr s s') s.
Proof.
  intros HI Hh Hss Hl.
  assert (Hk : var_kind env bid x s = if m_fieldMap env !! x then VuField
    else if bool_decide (x ∈ constant_names) then VuFalseTrueNil else VuGlobal).
  { unfold var_kind. by rewrite Hss, Hl. }
  unfold resolve_nonlocal, resolved. rewrite Hk.
  destruct (m_fieldMap env !! x) as [ord|]; [apply wp_ret; split; [by apply at_refl|done]|].
  apply wp_if; [intros _; apply wp_fail, aborted_allowed|]. intros Hm%bool_decide_eq_false.
  assert (Hc : forall i c, constant_names !! i = Some c -> x = c -> i <= 2 ->
    wp E (mret (mk_vr VuFalseTrueNil i)) (fun vr s' => at_ cid bid W none s s' /\
      vr_kind vr = (if bool_decide (x ∈ constant_names) then VuFalseTrueNil else VuGlobal) /\
      match vr_kind vr with
      | VuLocal => topge cid (vr_ord vr) s' /\ ((vr_ord vr = 0 /\ mode <> ForWrite) \/ in_scope bid s (vr_ord vr))
      | VuUpvalue => uvge bid (vr_ord vr) s'
      | VuField => None = Some (vr_ord vr)
      | VuGlobal => mode <> ForWrite /\ global_slot (vr_ord vr) s'
      | VuFalseTrueNil => mode <> ForWrite /\ vr_ord vr <= 2
      end) s).
  { intros i c Hi -> Hle. apply wp_ret. split; [by apply at_refl|]. simpl.
    rewrite bool_decide_true by (by eapply list_elem_of_lookup_2). done. }
  apply wp_if; [intros Hx%bool_decide_eq_true; by apply (Hc 0 "false"%string); [..|lia]|].
  intros H0%bool_decide_eq_false.
  apply wp_if; [intros Hx%bool_decide_eq_true; by apply (Hc 1 "true"%string); [..|lia]|].
  intros H1%bool_decide_eq_false.
  apply wp_if; [intros Hx%bool_decide_eq_true; by apply (Hc 2 "nil"%string)|].
  intros H2%bool_decide_eq_false. clear Hc.
  assert (Hn : x ∉ constant_names) by (unfold constant_names; set_solver).
  apply wp_bind. eapply wp_mono; [exact (wp_GetSlotForGlobal_c cid bid W x s HI Hh Hn)|].
  intros slot s' [Hat Hs]. apply wp_ret. split; [done|]. by rewrite bool_decide_false.
Qed.

(** [ResolveVariable] in any mode. *)
Lemma wp_ResolveVariable env cid bid W x mode s :
  Inv s -> here cid bid s ->
  wp E (ResolveVariable HashString env bid x mode)
    (fun vr s' => at_ cid bid W none s s' /\ resolved env cid bid x mode vr s s') s.
Proof.
  intros HI Hh. unfold ResolveVariable. apply wp_if; intros Hss.
  - apply wp_if; [intros _; apply wp_fail, aborted_allowed|]. intros Hm%bool_decide_eq_false.
    apply wp_ret. split; [by apply at_refl|]. unfold resolved, var_kind. rewrite Hss. simpl.
    split; [done|]. split; [intros c _; lia|by left].
  - apply wp_bind, wp_gets. rewrite last_scope. destruct (last (scope s x)) as [v|] eqn:Hl.
    + pose proof (last_Some_elem_of _ _ Hl) as Hin.
      eapply wp_mono; [exact (wp_resolve_local cid bid x v mode s HI Hh Hin)|].
      intros vr s' [Hs Hr]. pose proof (at_bstep cid bid W _ _ HI Hh Hs) as Hat. split; [done|].
      unfold resolved, var_kind. rewrite Hss, Hl. destruct (same_fn bid v s); destruct Hr as [-> Hr].
      * split; [done|]. split; [|by right]. destruct Hat as (_ & _ & _ & Hst).
        eapply topge_stab; [exact Hst|by eapply here_lt|by eapply in_scope_topge].
      * done.
    + by apply wp_resolve_nonlocal.
Qed.
End rules.
