(* ===== verification/CompilerScope.v ===== *)
(** * Rules for local variables and for the contexts of blocks

    Installing the variables of a block opens a scope in the variable map and
    uninstalling them closes it again; a block is compiled in a context of its
    own or inlined into the one around it. *)
From S2P Require Import Prelude Interner VmSelectors CNumbers Ast Bytecode Compiler CompilerInv CompilerRules.
#[local] Set Default Proof Using "Type*".

(** The scopes after the variables [names], numbered from [v], are pushed. *)
Fixpoint push_scopes (f : string -> list nat) (v : nat) (names : list string) : string -> list nat :=
  match names with
  | [] => f
  | x :: names' => push_scopes (fun y => if decide (y = x) then f y ++ [v] else f y) (S v) names'
  end.

Fixpoint new_vars (bid slot : nat) (names : list string) : list LocalVarInfo :=
  match names with
  | [] => []
  | _ :: names' => new_LocalVarInfo bid slot :: new_vars bid (S slot) names'
  end.

Lemma push_scopes_app f v l1 l2 :
  push_scopes f v (l1 ++ l2) = push_scopes (push_scopes f v l1) (v + length l1) l2.
Proof.
  revert f v. induction l1 as [|x l1 IH]; intros f v; simpl; [by rewrite Nat.add_0_r|].
  rewrite IH. by replace (S v + length l1) with (v + S (length l1)) by lia.
Qed.

Lemma push_scopes_ext f g v names x :
  (forall y, f y = g y) -> push_scopes f v names x = push_scopes g v names x.
Proof.
  revert f g v. induction names as [|a names IH]; intros f g v Hfg; simpl; [done|].
  apply IH. intros y. by rewrite Hfg.
Qed.

Lemma push_scopes_elem f v names x w :
  w ∈ push_scopes f v names x -> w ∈ f x \/ v <= w < v + length names.
Proof.
  revert f v. induction names as [|y names IH]; intros f v; simpl; [by left|].
  intros [H|H]%IH; [|right; lia]. destruct (decide (x = y)); [|by left].
  apply elem_of_app in H as [H|H%list_elem_of_singleton]; [by left|right; lia].
Qed.

Lemma length_new_vars bid slot names : length (new_vars bid slot names) = length names.
Proof. revert slot. by induction names; intros slot; simpl; [|f_equal]. Qed.

Lemma new_vars_app bid slot l1 l2 :
  new_vars bid slot (l1 ++ l2) = new_vars bid slot l1 ++ new_vars bid (slot + length l1) l2.
Proof.
  revert slot. induction l1 as [|x l1 IH]; intros slot; simpl; [by rewrite Nat.add_0_r|].
  rewrite IH. by replace (S slot + length l1) with (slot + S (length l1)) by lia.
Qed.

Lemma new_vars_lookup bid slot names i v :
  new_vars bid slot names !! i = Some v -> v = new_LocalVarInfo bid (slot + i) /\ i < length names.
Proof.
  revert slot i. induction names as [|x names IH]; intros slot i; simpl; [done|].
  destruct i as [|i]; simpl; [intros [= <-]; rewrite Nat.add_0_r; split; [done|lia]|].
  intros [-> Hi]%IH. replace (S slot + i) with (slot + S i) by lia. split; [done|lia].
Qed.

Lemma list_alter_alter {A} (f g f' g' : A -> A) i (l : list A) :
  (forall a, f (g a) = f' (g' a)) -> alter f i (alter g i l) = alter f' i (alter g' i l).
Proof.
  intros H. revert i. induction l as [|a l IH]; intros i; [done|].
  destruct i as [|i]; simpl; [by rewrite H|]. f_equal. apply IH.
Qed.

Section scope.
Context {V : Type}.
Implicit Types s : @CState V.

Definition with_map (m : gmap string (list nat)) s : CState :=
  mk_cstate (cs_globals s) (cs_vars s) (cs_bctxs s) (cs_ctxs s) m (cs_arrays s).

Lemma scope_insert m x l s y :
  scope (with_map (<[x := l]> m) s) y = if decide (y = x) then l else scope (with_map m s) y.
Proof.
  unfold scope. simpl. destruct (decide (y = x)) as [->|Hne]; [by rewrite lookup_insert_eq|].
  by rewrite lookup_insert_ne by done.
Qed.

(** The state after [install_all]. *)
Definition installed (bid slot : nat) (names : list string) (m : gmap string (list nat)) s : CState :=
  mk_cstate (cs_globals s) (cs_vars s ++ new_vars bid slot names) (cs_bctxs s) (cs_ctxs s) m (cs_arrays s).

Definition scope_of (m : gmap string (list nat)) (x : string) : list nat := default [] (m !! x).

Lemma wp_install_all E bid names slot s Q :
  (forall m, (forall x, scope_of m x = push_scopes (scope_of (m_localVarMap s)) (length (cs_vars s)) names x) ->
     Q (slot + length names) (installed bid slot names m s)) ->
  wp E (install_all bid names slot) Q s.
Proof.
  revert slot s. induction names as [|x names IH]; intros slot s HQ; simpl.
  - apply wp_ret. specialize (HQ (m_localVarMap s) (fun _ => eq_refl)). unfold installed in HQ.
    simpl in HQ. rewrite Nat.add_0_r, app_nil_r in HQ. by destruct s.
  - apply wp_bind. unfold InstallLocalVariable. apply wp_bind. unfold wp, new_var. unfold mbind, M_bind, get_st.
    fold (@wp (@CState V) nat E (install_all bid names (S slot)) Q
      (mk_cstate (cs_globals s) (cs_vars s ++ [new_LocalVarInfo bid slot]) (cs_bctxs s) (cs_ctxs s)
         (<[x := default [] (m_localVarMap s !! x) ++ [length (cs_vars s)]]> (m_localVarMap s)) (cs_arrays s))).
    apply IH. intros m Hm. simpl in Hm. rewrite length_app in Hm. simpl in Hm.
    unfold installed. simpl. rewrite <-app_assoc. simpl.
    replace (S (slot + length names)) with (slot + length (x :: names)) by (simpl; lia).
    apply HQ. intros y. rewrite Hm, Nat.add_1_r. simpl.
    apply push_scopes_ext. intros z. unfold scope_of. simpl.
    case_decide as Hz; [subst z; by rewrite lookup_insert_eq|by rewrite lookup_insert_ne by done].
Qed.

Lemma wp_uninstall_one E bid x f v vi s :
  (forall y, scope s y = if decide (y = x) then f y ++ [v] else f y) ->
  Vs s !! v = Some vi -> var_bctx vi = bid ->
  wp E (UninstallLocalVariable bid x)
    (fun _ s' => exists m, s' = with_map m s /\ forall y, scope s' y = f y) s.
Proof.
  intros Hs Hv Hb. apply wp_bind, wp_get. pose proof (Hs x) as Hx. rewrite decide_True in Hx by done.
  unfold scope in Hx. destruct (m_localVarMap s !! x) as [l|] eqn:Hl; simpl in Hx; [|by destruct (f x)].
  subst l. rewrite last_snoc. destruct (lookup_Vs _ _ _ Hv) as (v0 & Hv0 & ->). apply wp_bind.
  eapply wp_lookup_or; [exact Hv0|]. apply wp_bind, wp_check; [intros _|].
  2: { simpl in Hb. by rewrite Hb, Nat.eqb_refl. }
  apply wp_modify. eexists. split; [done|]. intros y. rewrite length_app. simpl.
  replace (length (f x) + 1 - 1) with (length (f x)) by lia. rewrite take_app_length.
  unfold scope. simpl. specialize (Hs y). case_decide as Hy; [subst y; by rewrite lookup_insert_eq|].
  by rewrite lookup_insert_ne by done.
Qed.

(** Uninstalling in reverse order closes the scope that installing opened. *)
Lemma wp_uninstall_all E bid names f v s :
  (forall x, scope s x = push_scopes f v names x) ->
  (forall i, i < length names -> exists vi, Vs s !! (v + i) = Some vi /\ var_bctx vi = bid) ->
  wp E (uninstall_all bid (rev names))
    (fun _ s' => exists m, s' = with_map m s /\ forall x, scope s' x = f x) s.
Proof.
  revert s. induction names as [|x names IH] using rev_ind; intros s Hs Hv; simpl.
  - apply wp_ret. exists (m_localVarMap s). split; [by destruct s|]. apply Hs.
  - rewrite rev_app_distr. simpl. apply wp_bind.
    destruct (Hv (length names)) as (vi & Hvi & Hb); [rewrite length_app; simpl; lia|].
    eapply wp_mono; [apply (wp_uninstall_one E bid x (push_scopes f v names) (v + length names) vi s)|]; [|exact Hvi|exact Hb|].
    { intros y. by rewrite Hs, push_scopes_app. }
    intros _ s1 (m & -> & Hs1). eapply wp_mono; [apply IH|].
    + exact Hs1.
    + intros i Hi. apply Hv. rewrite length_app. simpl. lia.
    + intros _ s2 (m2 & -> & Hs2). exists m2. by split.
Qed.

Lemma wp_UninstallLocalVariables E bid params locals f v s :
  (forall x, scope s x = push_scopes f v (params ++ locals) x) ->
  (forall i, i < length (params ++ locals) -> exists vi, Vs s !! (v + i) = Some vi /\ var_bctx vi = bid) ->
  wp E (UninstallLocalVariables bid params locals)
    (fun _ s' => exists m, s' = with_map m s /\ forall x, scope s' x = f x) s.
Proof.
  intros Hs Hv. rewrite length_app in Hv. apply wp_bind.
  eapply wp_mono; [apply (wp_uninstall_all E bid locals (push_scopes f v params) (v + length params))|].
  - intros x. by rewrite Hs, push_scopes_app.
  - intros i Hi. rewrite <-Nat.add_assoc. apply Hv. lia.
  - intros _ s1 (m & -> & Hs1). eapply wp_mono; [apply (wp_uninstall_all E bid params f v)|].
    + exact Hs1.
    + intros i Hi. apply Hv. lia.
    + intros _ s2 (m2 & -> & Hs2). exists m2. by split.
Qed.
End scope.

Section scope_rules.
Context (HashString : string -> Z) {V : Type} (bcLength : Bytecode -> nat) (bcConstants : Bytecode -> list Cst).
Context `{!EncodingLaws bcLength} (known : nat) (hasSuper : bool).
Implicit Types s : @CState V.

Notation E := (compile_error hasSuper).
Notation Inv := (Inv HashString bcLength known).
Notation at_ := (at_ HashString bcLength known).

(** The code that fills the locals with [nil]. *)
Definition fill_nils (base n : nat) (c : TranslationContext) : TranslationContext :=
  if 0 <? n then set_builder (create bcLength bcConstants (BcRangeFillNils base n)) c else c.

Definition installed_code (cid bid start : nat) (params locals : list string)
    (m : gmap string (list nat)) s : CState :=
  mk_cstate (cs_globals s) (cs_vars s ++ new_vars bid start (params ++ locals)) (cs_bctxs s)
    (alter (fill_nils (start + length params) (length locals)) cid (cs_ctxs s)) m (cs_arrays s).

Lemma alter_fill_nils_0 base (cid : nat) (l : list TranslationContext) : alter (fill_nils base 0) cid l = l.
Proof. apply list_alter_id. done. Qed.

Lemma wp_uint16 n Q s : Q n s -> wp E (@uint16 V n) Q s.
Proof.
  intros HQ. apply wp_bind, wp_check; [intros _; by apply wp_ret|]. intros _. right. by left.
Qed.

Lemma wp_InstallLocalVariables cid bid params locals start s Q :
  (forall m, (forall x, scope_of m x =
       push_scopes (scope_of (m_localVarMap s)) (length (cs_vars s)) (params ++ locals) x) ->
     Q (start + length (params ++ locals)) (installed_code cid bid start params locals m s)) ->
  wp E (InstallLocalVariables bcLength bcConstants cid bid params locals start) Q s.
Proof.
  intros HQ. apply wp_bind, wp_install_all. intros m1 Hm1. apply wp_bind.
  apply wp_mono with (Q := fun _ s' => s' =
    mk_cstate (cs_globals s) (cs_vars s ++ new_vars bid start params) (cs_bctxs s)
      (alter (fill_nils (start + length params) (length locals)) cid (cs_ctxs s)) m1 (cs_arrays s)).
  - apply wp_if; intros Hl.
    + apply wp_bind, wp_uint16, wp_modify. unfold fill_nils. by rewrite Hl.
    + apply wp_ret. apply Nat.ltb_ge in Hl. destruct locals; [|simpl in Hl; lia].
      by rewrite alter_fill_nils_0.
  - intros _ s1 ->. apply wp_install_all. simpl. intros m Hm. unfold installed. simpl.
    rewrite <-app_assoc, <-new_vars_app, <-Nat.add_assoc, <-length_app. apply HQ.
    intros x. rewrite Hm, length_app, length_new_vars, push_scopes_app. by apply push_scopes_ext.
Qed.

(** ** Changing the variable map *)
Lemma Inv_with_map m s :
  Inv s -> (forall x v, v ∈ scope_of m x -> is_Some (Vs s !! v)) -> Inv (with_map m s).
Proof. intros [] Hm. by split. Qed.

Lemma ext_with_map cid W P m1 m2 s1 s2 :
  (forall x, scope_of m2 x = scope_of m1 x) ->
  ext cid W P s1 s2 -> ext cid W P (with_map m1 s1) (with_map m2 s2).
Proof. intros Hm []. by split. Qed.

(** Back in the scopes of [m], after a passage in other scopes. *)
Lemma at_rescope cid cid' bid W P m1 m2 s1 s2 :
  Inv (with_map m1 s1) -> here cid' bid (with_map m1 s1) -> ext cid W P s1 s2 -> Inv s2 ->
  (forall x, scope_of m2 x = scope_of m1 x) ->
  Inv (with_map m2 s2) /\ here cid' bid (with_map m2 s2) /\
  ext cid W P (with_map m1 s1) (with_map m2 s2) /\ stab (with_map m1 s1) (with_map m2 s2).
Proof.
  intros HI1 Hh He HI2 Hm. pose proof (ext_with_map _ _ _ m1 m2 _ _ Hm He) as He'.
  assert (HI2' : Inv (with_map m2 s2)).
  { apply Inv_with_map; [done|]. intros x v. rewrite Hm. intros Hin.
    destruct (inv_scope _ _ _ _ HI1 x v Hin) as [vi Hvi]. exists vi.
    eapply prefix_lookup_Some; [exact Hvi|]. exact (ext_v _ _ _ _ _ He). }
  pose proof (ext_stab _ _ _ _ _ _ _ _ HI1 HI2' He') as Hst.
  split_and!; [done| |done|done]. exact (here_stab _ _ _ _ _ _ _ HI1 Hst Hh).
Qed.

(** ** New variables *)
Definition add_vars (new : list LocalVarInfo) s : CState :=
  mk_cstate (cs_globals s) (cs_vars s ++ new) (cs_bctxs s) (cs_ctxs s) (m_localVarMap s) (cs_arrays s).

Lemma uv_ok_Vs B vs vs' b uv : vs `prefix_of` vs' -> uv_ok B vs b uv -> uv_ok B vs' b uv.
Proof. intros Hvs. by apply uv_ok_grows. Qed.

Lemma ctx_unique s i j c c' :
  Inv s -> cs_ctxs s !! i = Some c -> cs_ctxs s !! j = Some c' -> m_resultBCtx c = m_resultBCtx c' -> i = j.
Proof.
  intros HI Hi Hj Heq. eapply (NoDup_lookup _ i j); [exact (inv_inj _ _ _ _ HI)|..];
    rewrite list_lookup_fmap, ?Hi, ?Hj; simpl; [done|by rewrite Heq].
Qed.

Lemma at_add_vars cid nb W new s :
  Inv s -> here cid nb s ->
  (forall v, v ∈ new -> var_bctx v = nb /\ 0 < m_slotOrd v /\ topge cid (m_slotOrd v) s) ->
  at_ cid nb W none s (add_vars new s).
Proof.
  intros HI Hh Hnew.
  assert (HVs : Vs (add_vars new s) = Vs s ++ (erase_v <$> new)) by (unfold Vs; simpl; by rewrite fmap_app).
  assert (Hpre : Vs s `prefix_of` Vs (add_vars new s)) by (rewrite HVs; by eexists).
  pose proof Hh as (b & c & Hb & Hc & Hr & _).
  assert (Hv : forall v x, Vs (add_vars new s) !! v = Some x -> Vs s !! v = Some x \/
     (var_bctx x = nb /\ 0 < m_slotOrd x /\ topge cid (m_slotOrd x) s)).
  { intros v x. rewrite HVs, lookup_app_Some. intros [H|[_ H]]; [by left|right].
    rewrite list_lookup_fmap in H. destruct (new !! _) as [v0|] eqn:H0; simpl in H; [|done].
    injection H as <-. apply list_elem_of_lookup_2 in H0. exact (Hnew _ H0). }
  assert (HI' : Inv (add_vars new s)).
  { destruct HI as [Ib Iv Ic Ij Is Ig Ik]. split; try done.
    - intros i bi Hi. eapply bctx_ok_grows; [reflexivity|exact Hpre|exact (Ib _ _ Hi)].
    - intros v x [H|(<- & Hp & _)]%Hv; [exact (Iv _ _ H)|]. split; [done|]. by exists b.
    - intros i ci Hi. destruct (Ic i ci Hi) as (o & bo & Hok). exists o, bo. destruct Hok. split; try done.
      intros v x d [H|(Hx & _ & Ht)]%Hv Hd Ho; [by eapply co_vars|]. rewrite Hx in Hd.
      assert (i = cid) as -> by (eapply (ctx_unique s); [by split|done|done|]; rewrite Hr, co_bctx;
        f_equal; assert (Bs s !! nb = Some d) by done; congruence).
      by apply Ht.
    - intros x v Hin. destruct (Is x v Hin) as [vi Hvi]. exists vi. by eapply prefix_lookup_Some. }
  assert (He : ext cid W none s (add_vars new s)).
  { pose proof (ext_refl cid W none s) as []. split; try done. }
  pose proof (ext_stab _ _ _ _ _ _ _ _ HI HI' He) as Hst.
  split_and!; [done| |done|done]. exact (here_stab _ _ _ _ _ _ _ HI Hst Hh).
Qed.

(** ** Opening a scope *)
Record opened (cid nb : nat) (W : nat -> Prop) (names : list string) (start first : nat) s s' : Prop := {
  op_first : first = start + length names;
  op_Inv : Inv s';
  op_here : here cid nb s';
  op_top : topge cid first s';
  op_at : at_ cid nb W none s (with_map (m_localVarMap s) s');
  op_scope x : scope s' x = push_scopes (scope s) (length (Vs s)) names x;
  op_vars i : i < length names -> exists vi, Vs s' !! (length (Vs s) + i) = Some vi /\
                var_bctx vi = nb /\ m_slotOrd vi = start + i
}.

Lemma at_fill_nils cid nb (W : nat -> Prop) base n s :
  Inv s -> here cid nb s -> (forall i, base <= i -> W i) -> topge cid (base + n) s ->
  at_ cid nb W none s (with_ctxs (alter (fill_nils base n) cid) s).
Proof.
  intros HI Hh HW Ht. unfold fill_nils. destruct (0 <? n).
  - eapply (at_create _ _ _ _ _ _ _ _ (BcRangeFillNils base n)); try done.
    + intros i [Hi _]. by apply HW.
    + intros c b o Hc _ _. specialize (Ht c Hc). simpl. lia.
    + by left.
  - unfold with_ctxs. rewrite list_alter_id by done. destruct s. by apply at_refl.
Qed.

Lemma at_raise_top cid nb W g n s :
  Inv s -> here cid nb s ->
  (forall c, cs_ctxs s !! cid = Some c -> m_historyTopSlot c <= g (m_historyTopSlot c) /\ n <= g (m_historyTopSlot c)) ->
  let s' := with_ctxs (alter (fun c => set_topSlot (g (m_historyTopSlot c)) c) cid) s in
  at_ cid nb W none s s' /\ topge cid n s'.
Proof.
  intros HI Hh Hg s'. split.
  - apply at_alter_ctx; try done. intros c o b Hc []. pose proof (Hg c Hc). simpl.
    split_and!; try done.
    + unfold ctx_ext. simpl. split_and!; try done; [lia|apply code_ext_refl].
    + eapply Forall_impl; [exact co_code|]. intros e. apply bc_ok_mono; lia.
  - intros c. simpl. rewrite list_lookup_alter_eq. destruct (cs_ctxs s !! cid) as [c0|]; simpl; [|done].
    intros [= <-]. simpl. by apply Hg.
Qed.

Lemma at_trans_none cid bid W s1 s2 s3 :
  at_ cid bid W none s1 s2 -> at_ cid bid W none s2 s3 -> cid < length (cs_ctxs s1) ->
  at_ cid bid W none s1 s3.
Proof.
  intros H12 H23 Hlt. eapply at_weaken; [| |exact (at_trans _ _ _ _ _ _ _ _ _ _ _ H12 H23 Hlt)]; [done|].
  intros p [H|H]; exact H.
Qed.

(** The variables of a block with the frame slots raised over them. *)
Lemma at_new_scope cid nb (W : nat -> Prop) g params locals start s :
  Inv s -> here cid nb s -> 0 < start -> (forall n, start <= n -> W n) ->
  (forall c, cs_ctxs s !! cid = Some c ->
     m_historyTopSlot c <= g (m_historyTopSlot c) /\ start + length (params ++ locals) <= g (m_historyTopSlot c)) ->
  let s' := add_vars (new_vars nb start (params ++ locals))
    (with_ctxs (fun l => alter (fun c => set_topSlot (g (m_historyTopSlot c)) c) cid
       (alter (fill_nils (start + length params) (length locals)) cid l)) s) in
  at_ cid nb W none s s' /\ topge cid (start + length (params ++ locals)) s'.
Proof.
  intros HI Hh H0 HW Hg s'. pose proof (here_lt _ _ _ Hh) as Hlt.
  destruct (at_raise_top cid nb W g _ s HI Hh Hg) as [Ha Hta]. set (sa := with_ctxs _ s) in Ha, Hta.
  assert (Hb : at_ cid nb W none sa (with_ctxs (alter (fill_nils (start + length params) (length locals)) cid) sa)).
  { apply at_fill_nils; [apply Ha|apply Ha|intros i Hi; apply HW; lia|].
    by rewrite <-Nat.add_assoc, <-length_app. }
  set (sb := with_ctxs _ sa) in Hb.
  assert (Hlta : cid < length (cs_ctxs sa)) by (simpl; by rewrite length_alter).
  assert (Htb : topge cid (start + length (params ++ locals)) sb).
  { eapply topge_stab; [apply Hb|exact Hlta|exact Hta]. }
  assert (Hc : at_ cid nb W none sb (add_vars (new_vars nb start (params ++ locals)) sb)).
  { apply at_add_vars; [apply Hb|apply Hb|]. intros v [i Hi]%list_elem_of_lookup_1.
    destruct (new_vars_lookup _ _ _ _ _ Hi) as [-> Hlen]. simpl. split_and!; [done|lia|].
    intros c Hcc. specialize (Htb c Hcc). lia. }
  assert (Hs : s' = add_vars (new_vars nb start (params ++ locals)) sb).
  { unfold s', sb, sa, add_vars, with_ctxs. simpl. f_equal. apply list_alter_alter.
    intros c. unfold fill_nils. by destruct (0 <? length locals). }
  rewrite Hs. split.
  - eapply at_trans_none; [exact Ha| |done]. by eapply at_trans_none.
  - eapply topge_stab; [apply Hc|simpl; by rewrite length_alter|exact Htb].
Qed.

Lemma wp_open_scope cid nb (W : nat -> Prop) g params locals start s :
  Inv s -> here cid nb s -> 0 < start -> (forall n, start <= n -> W n) ->
  (forall n c, cs_ctxs s !! cid = Some c ->
     m_historyTopSlot c <= g n (m_historyTopSlot c) /\ n <= g n (m_historyTopSlot c)) ->
  wp E (InstallLocalVariables bcLength bcConstants cid nb params locals start)
    (fun first => wp E (upd_ctx cid (fun c => set_topSlot (g first (m_historyTopSlot c)) c))
       (fun _ s' => opened cid nb W (params ++ locals) start first s s')) s.
Proof.
  intros HI Hh H0 HW Hg. apply wp_InstallLocalVariables. intros m Hm. apply wp_modify.
  set (first := start + length (params ++ locals)).
  destruct (at_new_scope cid nb W (g first) params locals start s HI Hh H0 HW (Hg first)) as [Hat Ht].
  set (s' := add_vars _ _) in Hat, Ht.
  assert (Hlen : length (cs_vars s) = length (Vs s)) by (unfold Vs; by rewrite length_fmap).
  rewrite Hlen in Hm.
  assert (Hvars : forall i, i < length (params ++ locals) -> exists vi,
    Vs s' !! (length (Vs s) + i) = Some vi /\ var_bctx vi = nb /\ m_slotOrd vi = start + i).
  { intros i Hi. destruct (lookup_lt_is_Some_2 (new_vars nb start (params ++ locals)) i) as [v Hv];
      [by rewrite length_new_vars|].
    exists (erase_v v). destruct (new_vars_lookup _ _ _ _ _ Hv) as [-> _]. split; [|done].
    unfold Vs, s'. simpl. rewrite fmap_app. rewrite lookup_app_r by (rewrite !length_fmap; lia).
    rewrite !length_fmap, Nat.add_comm, Nat.add_sub, list_lookup_fmap, Hv. done. }
  assert (Hscope : forall x v, v ∈ scope_of m x -> v ∈ scope s x \/
    exists i, i < length (params ++ locals) /\ v = length (Vs s) + i).
  { intros x v. rewrite Hm. intros [Hin|Hin]%push_scopes_elem; [by left|right].
    exists (v - length (Vs s)). lia. }
  pose proof Hat as (HI' & Hh' & He & Hst).
  change (opened cid nb W (params ++ locals) start first s (with_map m s')). split; try done.
  - apply Inv_with_map; [done|]. intros x v [Hin|(i & Hi & ->)]%Hscope.
    + destruct (inv_scope _ _ _ _ HI x v Hin) as [vi Hvi]. exists vi.
      eapply prefix_lookup_Some; [exact Hvi|apply Hst].
    + destruct (Hvars i Hi) as (vi & Hvi & _). by exists vi.
  - destruct Hh' as (b & c & Hb & Hc & Hr & Hvis). exists b, c. split_and!; try done.
    intros x v vi [Hin|(i & Hi & ->)]%Hscope Hvi; [by eapply (Hvis x)|].
    destruct (Hvars i Hi) as (vi' & Hvi' & Hnb & _). assert (vi = vi') as -> by (unfold Vs in *; simpl in *; congruence).
    exists b. rewrite Hnb. by split.
Qed.

Lemma opened_in_scope cid nb W names start first s s' n :
  Inv s -> here cid nb s -> opened cid nb W names start first s s' ->
  in_scope nb s' n -> in_scope nb s n \/ start <= n.
Proof.
  intros HI Hh [] (x & v & vi & b & d & Hin & Hvi & <- & Hb & Hd & Ho).
  rewrite op_scope0 in Hin. apply push_scopes_elem in Hin as [Hin|Hin].
  - left. assert (H : in_scope nb (with_map (m_localVarMap s) s') (m_slotOrd vi))
      by (exists x, v, vi, b, d; by split_and!).
    eapply in_scope_stab; [exact HI|apply op_at0| |exact H].
    destruct Hh as (b0 & ? & Hb0 & _). by exists b0.
  - right. destruct (op_vars0 (v - length (Vs s))) as (vi' & Hvi' & _ & Hs); [lia|].
    replace (length (Vs s) + (v - length (Vs s))) with v in Hvi' by lia.
    assert (vi' = vi) as -> by congruence. lia.
Qed.

(** ** New contexts *)
Definition add_bctx (nb : BlockTranslationContext) s : CState :=
  mk_cstate (cs_globals s) (cs_vars s) (cs_bctxs s ++ [nb]) (cs_ctxs s) (m_localVarMap s) (cs_arrays s).

Lemma Bs_add_bctx nb s : Bs (add_bctx nb s) = Bs s ++ [erase_b nb].
Proof. unfold Bs. simpl. by rewrite fmap_app. Qed.

Lemma length_Bs s : length (Bs s) = length (cs_bctxs s).
Proof. unfold Bs. by rewrite length_fmap. Qed.

Lemma Inv_add_bctx nb s :
  Inv s -> bctx_ok (Bs s ++ [erase_b nb]) (Vs s) (length (Bs s)) (erase_b nb) ->
  (forall i c, cs_ctxs s !! i = Some c -> m_resultBCtx c = Some (m_owningContext nb) ->
     m_startSlot nb <= m_historyTopSlot c /\
     forall r, m_returnValueSlot nb = Some r -> r <= m_historyTopSlot c) ->
  Inv (add_bctx nb s).
Proof.
  intros [Ib Iv Ic Ij Is Ig Ik] Hok Hslots.
  split; try done; rewrite ?Bs_add_bctx; change (Vs (add_bctx nb s)) with (Vs s).
  - intros i b [Hi|[-> ->]]%list_lookup_snoc_Some; [|done].
    eapply bctx_ok_grows; [apply grows_snoc|done|exact (Ib _ _ Hi)].
  - intros v x Hx. destruct (Iv v x Hx) as [? [b Hb]]. split; [done|]. exists b.
    by apply lookup_app_Some_l.
  - intros i c Hc. destruct (Ic i c Hc) as (o & b & H). exists o, b. destruct H. split; try done.
    + by apply lookup_app_Some_l.
    + intros v x d Hx Hd Ho. destruct (Iv v x Hx) as [_ [d0 Hd0]].
      pose proof (lookup_app_Some_l _ [erase_b nb] _ _ Hd0). eapply co_vars; [done|done|congruence].
    + intros j b' [Hj|[-> ->]]%list_lookup_snoc_Some Ho; [by eapply co_slots|].
      apply (Hslots i c Hc). rewrite co_bctx. simpl in Ho. congruence.
Qed.

Lemma at_add_bctx cid bid W nb s :
  Inv s -> here cid bid s -> Inv (add_bctx nb s) -> at_ cid bid W none s (add_bctx nb s).
Proof.
  intros HI Hh HI'.
  assert (He : ext cid W none s (add_bctx nb s)).
  { pose proof (ext_refl cid W none s) as []. split; try done. rewrite Bs_add_bctx. apply grows_snoc. }
  pose proof (ext_stab _ _ _ _ _ _ _ _ HI HI' He) as Hst.
  split_and!; [done| |done|done]. exact (here_stab _ _ _ _ _ _ _ HI Hst Hh).
Qed.

Lemma alter_length {A} (f : A -> A) (l : list A) x : alter f (length l) (l ++ [x]) = l ++ [f x].
Proof. induction l as [|y l IH]; simpl; [done|]. by f_equal. Qed.

Lemma wp_new_bctx E' mk Q s :
  Q (length (cs_bctxs s)) (add_bctx (mk (length (cs_bctxs s))) s) -> wp E' (new_bctx mk) Q s.
Proof. done. Qed.

Lemma wp_the_new_bctx E' b Q s :
  Q b (add_bctx b s) -> wp E' (the_bctx (length (cs_bctxs s))) Q (add_bctx b s).
Proof. intros HQ. eapply wp_lookup_or; [by apply list_lookup_middle|done]. Qed.

Lemma wp_upd_new_bctx E' f b Q s :
  Q tt (add_bctx (f b) s) -> wp E' (upd_bctx (length (cs_bctxs s)) f) Q (add_bctx b s).
Proof. intros HQ. apply wp_modify. unfold add_bctx. simpl. by rewrite alter_length. Qed.

(** The context of an inlined block. *)
Definition inlined_context (bid start dest : nat) (discard : bool) (b : BlockTranslationContext)
    : BlockTranslationContext :=
  set_returnValue discard dest
    (new_inlined_context start (Some bid) (m_owningContext b) (m_trueParent b)).

Lemma at_add_inlined cid bid W start dest discard b s :
  Inv s -> here cid bid s -> cs_bctxs s !! bid = Some b -> topge cid start s -> topge cid dest s ->
  let s' := add_bctx (inlined_context bid start dest discard b) s in
  at_ cid bid W none s s' /\ here cid (length (cs_bctxs s)) s' /\ m_owningContext b < length (cs_bctxs s).
Proof.
  intros HI Hh Hb Hts Htd s'. pose proof (lookup_Bs' _ _ _ Hb) as HB.
  pose proof Hh as (b0 & c & Hb0 & Hc & Hr & Hvis). assert (b0 = erase_b b) as -> by congruence.
  destruct (bo_owner _ _ _ _ (inv_b _ _ _ _ HI _ _ HB)) as (o & Ho & Hoo & Hot). simpl in *.
  pose proof (lookup_lt_Some _ _ _ Ho) as Hlt.
  assert (HI' : Inv s').
  { apply Inv_add_bctx; [done| |].
    - pose proof (bo_parent _ _ _ _ (inv_b _ _ _ _ HI _ _ HB)) as Hbp. split; simpl; try done.
      + lia.
      + exists o. split_and!; [by apply lookup_app_Some_l|done|done].
      + intros p Hp. destruct (Hbp p Hp) as (? & pb & Hpb & ?). split; [done|]. exists pb.
        split; [by apply lookup_app_Some_l|done].
      + lia.
    - intros i ci Hci Hri. simpl in Hri.
      assert (i = cid) as -> by (eapply (ctx_unique s); [exact HI|exact Hci|exact Hc|congruence]).
      split; [by apply Hts|]. intros r. simpl. intros [= <-]. by apply Htd. }
  split; [by apply at_add_bctx|]. rewrite <-length_Bs. split; [|done].
  exists (erase_b (inlined_context bid start dest discard b)), c. unfold s'. rewrite Bs_add_bctx.
  split_and!; [by rewrite list_lookup_middle|done|done|].
  intros x v vi Hin Hvi. destruct (Hvis x v vi Hin Hvi) as (d & Hd & He). exists d.
  split; [by apply lookup_app_Some_l|]. eapply encloses_grows; [apply grows_snoc|exact He].
Qed.

(** The contexts of a block compiled on its own. *)
Definition block_context (self bid : nat) (b : BlockTranslationContext) : BlockTranslationContext :=
  push_uv (mk_uvinfo true (Some 0) None None) (new_block_context self (Some bid) (Some (m_owningContext b))).
Definition block_translation (cid nparams self : nat) : TranslationContext :=
  set_resultBCtx self (set_ucb (set_block_ucb cid (nparams + 1)) new_context).

Definition add_ctx (c : TranslationContext) s : CState :=
  mk_cstate (cs_globals s) (cs_vars s) (cs_bctxs s) (cs_ctxs s ++ [c]) (m_localVarMap s) (cs_arrays s).

Lemma wp_new_ctx E' c Q s : Q (length (cs_ctxs s)) (add_ctx c s) -> wp E' (new_ctx c) Q s.
Proof. done. Qed.

Lemma wp_upd_new_ctx E' f c Q s :
  Q tt (add_ctx (f c) s) -> wp E' (upd_ctx (length (cs_ctxs s)) f) Q (add_ctx c s).
Proof. intros HQ. apply wp_modify. unfold add_ctx. simpl. by rewrite alter_length. Qed.

Lemma Inv_add_block cid bid nparams b s :
  Inv s -> here cid bid s -> cs_bctxs s !! bid = Some b ->
  let self := length (cs_bctxs s) in
  let s' := add_ctx (block_translation cid nparams self) (add_bctx (block_context self bid b) s) in
  Inv s' /\ here (length (cs_ctxs s)) self s'.
Proof.
  intros HI Hh Hb self s'. pose proof (lookup_Bs' _ _ _ Hb) as HB.
  pose proof Hh as (b0 & c & Hb0 & Hc & Hr & Hvis). assert (b0 = erase_b b) as -> by congruence.
  destruct (bo_owner _ _ _ _ (inv_b _ _ _ _ HI _ _ HB)) as (o & Ho & Hoo & Hot). simpl in Hoo, Hot, Hr.
  pose proof (lookup_lt_Some _ _ _ Ho) as Hlt. simpl in Hlt.
  assert (Hold : forall i d, Bs s !! i = Some d -> m_owningContext d < length (Bs s)).
  { intros i d Hd. pose proof (lookup_lt_Some _ _ _ Hd).
    pose proof (bo_le _ _ _ _ (inv_b _ _ _ _ HI _ _ Hd)). lia. }
  assert (Hself : self = length (Bs s)) by (by rewrite length_Bs).
  assert (Hfresh : forall i ci, cs_ctxs s !! i = Some ci -> m_resultBCtx ci <> Some self).
  { intros i ci Hci Heq. destruct (inv_c _ _ _ _ HI i ci Hci) as (oi & bi & Hok).
    pose proof (co_lookup _ _ _ _ _ _ _ _ Hok) as Hl%lookup_lt_Some.
    rewrite (co_bctx _ _ _ _ _ _ _ _ Hok) in Heq. injection Heq as ->. lia. }
  assert (HI1 : Inv (add_bctx (block_context self bid b) s)).
  { apply Inv_add_bctx; [done| |].
    - rewrite <-Hself. split; simpl; try done.
      + eexists. split; [rewrite Hself; by apply list_lookup_middle|done].
      + intros p [= <-]. split; [lia|]. exists o. split; [by apply lookup_app_Some_l|done].
      + lia.
      + intros [|n] uv; [lia|done].
    - intros i ci Hci Hri. by destruct (Hfresh i ci Hci). }
  assert (Hbs : Bs s' !! self = Some (erase_b (block_context self bid b))).
  { change (Bs s') with (Bs (add_bctx (block_context self bid b) s)). rewrite Bs_add_bctx, Hself.
    by apply list_lookup_middle. }
  split.
  - destruct HI1 as [Ib Iv Ic Ij Is Ig Ik]. split; try done.
    + simpl. intros i ci [Hci|[-> ->]]%list_lookup_snoc_Some.
      * destruct (Ic i ci Hci) as (oi & bi & Hok). exists oi, bi. destruct Hok. split; try done.
        intros p Hp. destruct (co_parent p Hp) as (pc & c' & ? & ? & Hc' & ?). exists pc, c'.
        split_and!; try done. by apply lookup_app_Some_l.
      * exists self, (erase_b (block_context self bid b)). split; try done.
        -- intros p [= <-]. exists cid, c. split_and!; [done|by eapply lookup_lt_Some|by apply lookup_app_Some_l|done].
        -- constructor.
        -- intros v x d Hx Hd Hod. exfalso. destruct (inv_v _ _ _ _ HI v x Hx) as [_ [d0 Hd0]].
           pose proof (Hold _ _ Hd0). change (Bs s') with (Bs (add_bctx (block_context self bid b) s)) in Hd.
           rewrite Bs_add_bctx in Hd. rewrite (lookup_app_Some_l _ _ _ _ Hd0) in Hd. injection Hd as <-. lia.
        -- intros j b' Hj Hoj. change (Bs s') with (Bs (add_bctx (block_context self bid b) s)) in Hj.
           rewrite Bs_add_bctx in Hj. apply list_lookup_snoc_Some in Hj as [Hj|[-> ->]]; [|done].
           pose proof (Hold _ _ Hj). lia.
    + simpl. rewrite fmap_app. apply NoDup_app. split_and!; [done| |apply NoDup_singleton].
      intros r Hin1 ->%list_elem_of_singleton. apply list_elem_of_fmap in Hin1 as (ci & Heq & Hin1).
      apply list_elem_of_lookup_1 in Hin1 as [i Hi]. by apply (Hfresh i ci Hi).
  - exists (erase_b (block_context self bid b)), (block_translation cid nparams self).
    split_and!; [done|by apply list_lookup_middle|done|].
    intros x v vi Hin Hvi. destruct (Hvis x v vi Hin Hvi) as (d & Hd & He). exists d.
    change (Bs s') with (Bs (add_bctx (block_context self bid b) s)). rewrite Bs_add_bctx.
    split; [by apply lookup_app_Some_l|]. simpl in He. eapply rtc_l.
    + eexists. split; [simpl; rewrite Hself; by apply list_lookup_middle|done].
    + eapply encloses_grows; [apply grows_snoc|exact He].
Qed.

Lemma at_none_trans cid bid W P s0 s s' :
  at_ cid bid W P s0 s -> cid < length (cs_ctxs s0) -> at_ cid bid W none s s' -> at_ cid bid W P s0 s'.
Proof.
  intros Hat Hlt Hat'. eapply at_weaken; [| |exact (at_trans _ _ _ _ _ _ _ _ _ _ _ Hat Hat' Hlt)]; [done|].
  intros p [H|[]]. exact H.
Qed.

(** Closing the scope brings back the scopes before it was opened. *)
Lemma wp_close_scope E' cid nb (W : nat -> Prop) params locals start first s s1 s2 :
  cid < length (cs_ctxs s) -> opened cid nb W (params ++ locals) start first s s1 ->
  at_ cid nb W none s1 s2 ->
  wp E' (UninstallLocalVariables nb params locals) (fun _ s3 => at_ cid nb W none s s3) s2.
Proof.
  intros Hlt Hop (HI2 & Hh2 & He2 & Hst2). destruct Hop as [Hf HI1 Hh1 Ht1 Hat1 Hsc1 Hv1].
  eapply wp_mono; [apply (wp_UninstallLocalVariables E' nb params locals (scope s) (length (Vs s)))|].
  - intros x. by rewrite (st_scope _ _ Hst2).
  - intros i Hi. destruct (Hv1 i Hi) as (vi & Hvi & Hb & _). exists vi. split; [|done].
    eapply prefix_lookup_Some; [exact Hvi|apply Hst2].
  - intros _ s3 (m & -> & Hm). eapply at_none_trans; [exact Hat1|exact Hlt|].
    eapply at_rescope; [apply Hat1|apply Hat1|exact He2|exact HI2|exact Hm].
Qed.

(** A block's body runs in the scope of its variables. *)
Lemma wp_scoped {A} cid nb (W : nat -> Prop) g params locals start (body : nat -> M (@CState V) unit)
    (k : M (@CState V) A) (Q : A -> @CState V -> Prop) s :
  Inv s -> here cid nb s -> 0 < start -> (forall n, start <= n -> W n) ->
  (forall n c, cs_ctxs s !! cid = Some c ->
     m_historyTopSlot c <= g n (m_historyTopSlot c) /\ n <= g n (m_historyTopSlot c)) ->
  (forall first s1, opened cid nb W (params ++ locals) start first s s1 ->
     wp E (body first) (fun _ s2 => at_ cid nb W none s1 s2) s1) ->
  (forall s', at_ cid nb W none s s' -> wp E k Q s') ->
  wp E (first ← InstallLocalVariables bcLength bcConstants cid nb params locals start;
        upd_ctx cid (fun c => set_topSlot (g first (m_historyTopSlot c)) c) ;;
        body first ;; UninstallLocalVariables nb params locals ;; k) Q s.
Proof.
  intros HI Hh H0 HW Hg Hbody Hk. pose proof (here_lt _ _ _ Hh) as Hlt.
  apply wp_bind. eapply wp_mono; [exact (wp_open_scope cid nb W g params locals start s HI Hh H0 HW Hg)|].
  intros first s0 H1. apply wp_bind. eapply wp_mono; [exact H1|]. intros [] s1 Hop.
  apply wp_bind. eapply wp_mono; [exact (Hbody first s1 Hop)|]. intros [] s2 Hat2.
  apply wp_bind. eapply wp_mono; [exact (wp_close_scope E cid nb W params locals start first s s1 s2 Hlt Hop Hat2)|].
  intros [] s3. apply Hk.
Qed.

(** ** A block compiled in its own context *)
Lemma finished_block (W : nat -> Prop) c c' kind :
  is_block_kind kind = true -> code (m_builder c) = [] ->
  ctx_ext true W none c c' -> finished (set_ucb (set_fnKind kind) c').
Proof.
  intros Hk Hc (_ & _ & _ & (_ & new & Hnew & Hf)). split; [done|]. simpl. rewrite Hnew, Hc. simpl.
  eapply Forall_impl; [exact Hf|]. intros e (_ & _ & [Hb|[]]). exact Hb.
Qed.

Lemma at_finish_block cid bid (W W' : nat -> Prop) nparams b kind s s' :
  Inv s -> here cid bid s -> is_block_kind kind = true ->
  let newCtx := length (cs_ctxs s) in
  let self := length (cs_bctxs s) in
  at_ newCtx self W none
    (add_ctx (block_translation cid nparams self) (add_bctx (block_context self bid b) s)) s' ->
  at_ cid bid W' none s (with_ctxs (alter (set_ucb (set_fnKind kind)) newCtx) s').
Proof.
  intros HI Hh Hk newCtx self (HI' & _ & [HB HV HC HL HN HS HG] & _).
  set (c0 := block_translation cid nparams self) in *. simpl in HL. rewrite length_app in HL. simpl in HL.
  set (f := set_ucb (set_fnKind kind)).
  assert (HI2 : Inv (with_ctxs (alter f newCtx) s')).
  { apply Inv_alter_ctx; [exact _|exact HI'|]. intros c o bo _ []. by split_and!. }
  assert (He : ext cid W' none s (with_ctxs (alter f newCtx) s')).
  { split; simpl; try done.
    - etrans; [|exact HB]. change (Bs (add_ctx c0 (add_bctx (block_context self bid b) s)))
        with (Bs (add_bctx (block_context self bid b) s)). rewrite Bs_add_bctx. apply grows_snoc.
    - intros i c Hc. pose proof (lookup_lt_Some _ _ _ Hc) as Hi. fold newCtx in Hi.
      destruct (HC i c) as (c' & Hc' & H1 & H2 & H3 & H4); [simpl; by apply lookup_app_Some_l|].
      rewrite (proj2 (Nat.eqb_neq i newCtx)) in H4 by lia. exists c'.
      rewrite list_lookup_alter_ne by lia. split; [done|]. unfold ctx_ext. split_and!; try done.
      destruct (i =? cid); [|done]. rewrite H4. apply code_ext_refl.
    - rewrite length_alter. lia.
    - intros i c' Hi. fold newCtx in Hi. rewrite list_lookup_alter. case_decide as Heq.
      + subst i. destruct (HC newCtx c0) as (c1 & Hc1 & Hx); [simpl; by apply list_lookup_middle|].
        rewrite Hc1. intros [= <-]. rewrite Nat.eqb_refl in Hx.
        by apply (finished_block W c0).
      + apply HN. simpl. rewrite length_app. simpl. fold newCtx. lia. }
  pose proof (ext_stab _ _ _ _ _ _ _ _ HI HI2 He) as Hst.
  split_and!; [done| |done|done]. exact (here_stab _ _ _ _ _ _ _ HI Hst Hh).
Qed.
End scope_rules.
