(* ===== verification/CompilerSteps.v ===== *)
(** * One step of the compiler at a time

    The rules of the earlier files in the form the proofs of the compiler's
    functions use: from a point reached from [s0] ([at_]), a primitive operation
    leads to another such point, about which the continuation is asked. *)
From S2P Require Import Prelude Interner VmSelectors CNumbers Ast Bytecode Compiler CompilerInv CompilerRules CompilerScope.
#[local] Set Default Proof Using "Type*".

Section steps.
Context (HashString : string -> Z) {V : Type} (bcLength : Bytecode -> nat) (bcConstants : Bytecode -> list Cst).
Context `{!EncodingLaws bcLength} (known : nat) (hasSuper : bool).
Implicit Types s : @CState V.

Notation E := (compile_error hasSuper).
Notation Inv := (Inv HashString bcLength known).
Notation at_ := (at_ HashString bcLength known).

Section from_s0.
Context (cid bid : nat) (W P : nat -> Prop) (s0 s : @CState V).
Context (Hat : at_ cid bid W P s0 s) (Hlt : cid < length (cs_ctxs s0)).

Lemma at_Inv : Inv s.
Proof using Hat. apply Hat. Qed.
Lemma at_here : here cid bid s.
Proof using Hat. apply Hat. Qed.
Lemma at_lt : cid < length (cs_ctxs s).
Proof using Hat. exact (here_lt _ _ _ at_here). Qed.

Lemma run {A} (m : M (@CState V) A) (Q R : A -> @CState V -> Prop) :
  wp E m (fun a s' => at_ cid bid W none s s' /\ Q a s') s ->
  (forall a s', at_ cid bid W P s0 s' -> stab s s' -> Q a s' -> R a s') ->
  wp E m R s.
Proof.
  intros Hm HR. eapply wp_mono; [exact Hm|]. intros a s' [Hat' HQ]. apply HR; [|apply Hat'|done].
  by eapply at_none_trans.
Qed.

Lemma run_top n (R : unit -> @CState V -> Prop) :
  (forall s', at_ cid bid W P s0 s' -> stab s s' -> topge cid n s' -> R tt s') ->
  wp E (UpdateTopSlot cid n) R s.
Proof.
  intros HR. eapply run; [exact (wp_UpdateTopSlot HashString bcLength known hasSuper cid bid W n s at_Inv at_here)|].
  intros [] s' H1 H2 H3. by apply HR.
Qed.

Lemma run_emit bc (R : unit -> @CState V -> Prop) :
  branch_operand bc = None -> (forall n, bc_writes bc n -> W n) -> bcs cid bid bc s ->
  (forall s', at_ cid bid W P s0 s' -> stab s s' -> R tt s') ->
  wp E (emit bcLength bcConstants cid bc) R s.
Proof.
  intros Hbr HW Hbc HR.
  eapply run; [exact (wp_emit HashString bcLength bcConstants known hasSuper cid bid W bc s
    at_Inv at_here Hbr HW Hbc)|].
  intros [] s' H1 H2 _. by apply HR.
Qed.

Lemma run_flag i f (R : unit -> @CState V -> Prop) :
  (forall b, erase_b (f b) = erase_b b) ->
  (forall s', at_ cid bid W P s0 s' -> stab s s' -> R tt s') ->
  wp E (upd_bctx i f) R s.
Proof.
  intros Hf HR. eapply run; [exact (wp_upd_flag HashString bcLength known hasSuper cid bid W i f s
    at_Inv at_here Hf)|].
  intros [] s' H1 H2 _. by apply HR.
Qed.

Lemma run_resolve env x mode (R : VarResolveResult -> @CState V -> Prop) :
  (forall vr s', at_ cid bid W P s0 s' -> stab s s' -> resolved env cid bid x mode vr s s' -> R vr s') ->
  wp E (ResolveVariable HashString env bid x mode) R s.
Proof.
  intros HR. eapply run; [exact (wp_ResolveVariable HashString bcLength known hasSuper env cid bid W x mode s
    at_Inv at_here)|]. exact HR.
Qed.

Lemma run_bctx i (R : BlockTranslationContext -> @CState V -> Prop) b :
  Bs s !! i = Some b -> (forall b0, cs_bctxs s !! i = Some b0 -> b = erase_b b0 -> R b0 s) ->
  wp E (the_bctx i) R s.
Proof.
  intros Hb HR. destruct (lookup_Bs _ _ _ Hb) as (b0 & Hb0 & ->). eapply wp_lookup_or; [exact Hb0|].
  by apply HR.
Qed.

Lemma run_here (R : BlockTranslationContext -> @CState V -> Prop) :
  (forall b0, cs_bctxs s !! bid = Some b0 -> R b0 s) -> wp E (the_bctx bid) R s.
Proof.
  intros HR. destruct at_here as (b & c & Hb & _). eapply run_bctx; [exact Hb|]. intros b0 Hb0 _. by apply HR.
Qed.

Lemma run_curLen (R : nat -> @CState V -> Prop) :
  (forall q, bnd cid q s -> from cid q s0 -> R q s) -> wp E (curLen cid) R s.
Proof.
  intros HR. eapply wp_mono; [exact (wp_curLen HashString bcLength known hasSuper cid bid s at_Inv at_here)|].
  intros q s' (-> & Hb & Hf). apply HR; [done|]. eapply from_ext; [apply Hat|exact Hf].
Qed.

Lemma run_branch bc (R : nat -> @CState V -> Prop) :
  (forall n, bc_writes bc n -> W n) -> bcs cid bid bc s ->
  (forall loc s', at_ cid bid W (fun p => P p \/ p = loc) s0 s' -> stab s s' -> from cid loc s0 ->
     bnd cid loc s -> R loc s') ->
  wp E (compile_branch_if bcLength bcConstants cid bc) R s.
Proof.
  intros HW Hbc HR.
  eapply wp_mono; [exact (wp_compile_branch_if HashString bcLength bcConstants known hasSuper cid bid W bc s
    at_Inv at_here HW Hbc)|].
  intros loc s' (Hat' & Hf & Hb). apply HR; [|apply Hat'| |done].
  - exact (at_trans _ _ _ _ _ _ _ _ _ _ _ Hat Hat' Hlt).
  - eapply from_ext; [apply Hat|exact Hf].
Qed.

Lemma run_setBranch loc target (R : unit -> @CState V -> Prop) :
  Inv s0 -> from cid loc s0 -> bnd cid target s ->
  (forall s', at_ cid bid W (fun p => p <> loc /\ P p) s0 s' -> stab s s' -> R tt s') ->
  wp E (setBranch cid loc target) R s.
Proof.
  intros HI0 Hf Hb HR. destruct at_here as (b & c & _ & Hc & _). apply wp_bind.
  eapply wp_lookup_or; [exact Hc|]. destruct (SetBranchTarget loc target (m_builder c)) as [ok b2] eqn:Hset.
  apply wp_bind, wp_check; [intros ->|intros _; apply aborted_allowed]. apply wp_modify.
  destruct (at_setBranch HashString bcLength known cid bid W P loc target b2 s0 s c HI0 Hat Hlt Hf Hb Hc Hset)
    as [Hat' Hst']. by apply HR.
Qed.

Lemma run_to_here loc (R : unit -> @CState V -> Prop) :
  Inv s0 -> from cid loc s0 ->
  (forall s', at_ cid bid W (fun p => p <> loc /\ P p) s0 s' -> stab s s' -> R tt s') ->
  wp E (branch_to_here cid loc) R s.
Proof.
  intros HI0 Hf HR. apply wp_bind, run_curLen. intros q Hq _. by apply run_setBranch.
Qed.
End from_s0.

Lemma run_uint16 n (R : nat -> @CState V -> Prop) s : R n s -> wp E (uint16 n) R s.
Proof. apply wp_uint16. Qed.

Lemma run_check b e (R : unit -> @CState V -> Prop) s :
  b = true -> R tt s -> wp E (check b e) R s.
Proof. intros -> HR. by apply wp_check. Qed.
End steps.
