(* ===== verification/CompilerExpr.v ===== *)
(** * Rules for literals, variables and assignments *)
From S2P Require Import Prelude Interner VmSelectors CNumbers Ast AstWf Bytecode Compiler CompilerInv CompilerRules CompilerScope CompilerSteps.
#[local] Set Default Proof Using "Type*".

(** From a state to a later one: the facts that persist. *)
Lemma opnd_ok {V} cid o (s : @CState V) c :
  opnd cid o s -> cs_ctxs s !! cid = Some c -> operand_ok (m_historyTopSlot c) o.
Proof. destruct o as [n|]; [|done]. intros H Hc. exact (H c Hc). Qed.

Ltac at_inv s := match goal with H : CompilerInv.at_ _ _ _ _ _ _ _ _ s |- _ => exact (proj1 H) end.
Ltac at_here s := match goal with H : CompilerInv.at_ _ _ _ _ _ _ _ _ s |- _ => exact (proj1 (proj2 H)) end.
Ltac at_lt s := refine (here_lt _ _ _ _); at_here s.

Ltac solve_bcs :=
  let c := fresh "c" in let b := fresh "b" in let o := fresh "o" in
  let Hc := fresh "Hc" in let Hb := fresh "Hb" in let Ho := fresh "Ho" in
  intros c b o Hc Hb Ho; simpl; unfold x_numSlotsForStackFrameHeader;
  repeat match goal with
  | H : opnd _ ?x _ |- _ => apply (opnd_ok _ _ _ _ H) in Hc as ?Hop; clear H
  | H : topge _ _ _ |- _ => specialize (H c Hc)
  | H : uvge _ _ _ |- _ => specialize (H b o Hb Ho)
  end; split_and?; solve [done | lia].

Section spec.
Context (HashString : string -> Z) {V : Type} (bcLength : Bytecode -> nat) (bcConstants : Bytecode -> list Cst).
Context `{!EncodingLaws bcLength} (known : nat) (env : CompileEnv).
Implicit Types s : @CState V.

Notation E := (compile_error (bool_decide (is_Some (m_superClass env)))).
Notation Inv := (Inv HashString bcLength known).
Notation at_ := (at_ HashString bcLength known).

(** ** What the compilation of an expression may rely on and must ensure *)

(** The code may write from [clobber] up and to the variables in scope. *)
Definition vars_ok (bid : nat) (W : nat -> Prop) s : Prop := forall n, in_scope bid s n -> W n.
Definition slots_ok (bid : nat) (W : nat -> Prop) (clobber : nat) s : Prop :=
  0 < clobber /\ (forall n, clobber <= n -> W n) /\ vars_ok bid W s.

Definition compile_spec (compile : nat -> nat -> AstExpr -> nat -> nat -> bool -> M (@CState V) unit)
    (e : AstExpr) : Prop :=
  forall cid bid (W : nat -> Prop) clobber dest top s,
    Inv s -> here cid bid s -> slots_ok bid W clobber s -> W dest ->
    wp E (compile cid bid e clobber dest top)
      (fun _ s' => at_ cid bid W none s s' /\ topge cid dest s') s.

Lemma vars_ok_stab cid bid W s s' :
  Inv s -> here cid bid s -> stab s s' -> vars_ok bid W s -> vars_ok bid W s'.
Proof.
  intros HI (b & c & Hb & _) Hst Hs n Hn. apply Hs.
  eapply in_scope_stab; [exact HI|exact Hst| |exact Hn]. by exists b.
Qed.

Lemma slots_ok_stab cid bid W clobber s s' :
  Inv s -> here cid bid s -> stab s s' -> slots_ok bid W clobber s -> slots_ok bid W clobber s'.
Proof. intros HI Hh Hst (H0 & HW & Hs). split_and!; [done|done|]. by eapply vars_ok_stab. Qed.

Lemma slots_ok_up bid W clobber clobber' s :
  clobber <= clobber' -> slots_ok bid W clobber s -> slots_ok bid W clobber' s.
Proof. intros Hle (H0 & HW & Hs). split_and!; [lia| |done]. intros n Hn. apply HW. lia. Qed.

Lemma slots_ok_W bid W clobber n s : slots_ok bid W clobber s -> clobber <= n -> W n.
Proof. intros (_ & HW & _). apply HW. Qed.

Lemma here_bctx cid bid s : here cid bid s -> is_Some (Bs s !! bid).
Proof. intros (b & c & Hb & _). by exists b. Qed.

End spec.

(** Move what is known at [s] to [s'], given [stab s s']. *)
Ltac carry_by lem Hst :=
  lazymatch type of Hst with stab ?s ?s' =>
    eapply lem; try exact Hst; try at_inv s; try at_here s; try eassumption; try at_lt s; exact _
  end.
Ltac carry Hst :=
  lazymatch type of Hst with stab ?s ?s' =>
    repeat match goal with
    | H : topge ?cid ?n s |- _ => apply (topge_stab cid n s s' Hst) in H; [|at_lt s]
    | H : bnd ?cid ?n s |- _ => apply (bnd_stab cid n s s' Hst) in H; [|at_lt s]
    | H : opnd ?cid ?n s |- _ => apply (opnd_stab cid n s s' Hst) in H; [|at_lt s]
    | H : vars_ok ?bid ?W s |- _ =>
        let H' := fresh in assert (H' : vars_ok bid W s') by carry_by vars_ok_stab Hst; clear H; rename H' into H
    | H : slots_ok ?bid ?W ?n s |- _ =>
        let H' := fresh in assert (H' : slots_ok bid W n s') by carry_by slots_ok_stab Hst; clear H; rename H' into H
    end
  end.

Section expr.
Context (HashString : string -> Z) {V : Type} (bcLength : Bytecode -> nat) (bcConstants : Bytecode -> list Cst).
Context `{!EncodingLaws bcLength} (known : nat) (env : CompileEnv).
Implicit Types s : @CState V.

Notation E := (compile_error (bool_decide (is_Some (m_superClass env)))).
Notation Inv := (Inv HashString bcLength known).
Notation at_ := (at_ HashString bcLength known).
#[local] Notation run_top H L := (CompilerSteps.run_top HashString bcLength known _ _ _ _ _ _ _ H L).
#[local] Notation run_emit H L := (CompilerSteps.run_emit HashString bcLength bcConstants known _ _ _ _ _ _ _ H L).
#[local] Notation run_resolve H L := (CompilerSteps.run_resolve HashString bcLength known _ _ _ _ _ _ _ H L).
#[local] Notation run_curLen H L := (CompilerSteps.run_curLen HashString bcLength known _ _ _ _ _ _ _ H L).
#[local] Notation run H L := (CompilerSteps.run HashString bcLength known _ _ _ _ _ _ _ H L).

(** ** Constants *)
Definition with_arrays (arrays : list (list Cst)) s : CState :=
  mk_cstate (cs_globals s) (cs_vars s) (cs_bctxs s) (cs_ctxs s) (m_localVarMap s) arrays.

Lemma at_with_arrays cid bid W arrays s :
  Inv s -> here cid bid s -> at_ cid bid W none s (with_arrays arrays s).
Proof. intros HI Hh. eapply at_same; [exact _|by split|done|done]. Qed.

Lemma CreateConstantNonArray_ok e : IsNonArrayLiteral e = true -> exists c, CreateConstantNonArray e = Ok c.
Proof. destruct e; simpl; try done; eauto. Qed.

(** Building a constant succeeds and only allocates arrays. *)
Lemma wp_CreateConstant E' e s :
  literal_tree e = true ->
  wp E' (CreateConstant e) (fun _ s' => exists arrays, s' = with_arrays arrays s) s.
Proof.
  revert s. induction e as [es IH|o|o|z|d|x|ps ls body _|xs e _|e _|sel e _|sel e1 e2 _ _|sel e es _ _]
    using AstExpr_nested_ind; intros s Hl; try done.
  2-5: apply wp_ret; exists (cs_arrays s); by destruct s.
  cbn [CreateConstant]. apply wp_bind. unfold wp at 1, alloc_array. apply wp_bind.
  eapply wp_mono with (Q := fun _ s' => exists arrays, s' = with_arrays arrays s);
    [|intros _ s' [arrays ->]; apply wp_ret; by exists arrays].
  simpl in Hl. remember (mk_cstate _ _ _ _ _ _) as s1 eqn:Hs1.
  assert (H1 : exists arrays, s1 = with_arrays arrays s) by (subst s1; by eexists).
  clear Hs1. revert s1 H1 Hl. induction IH as [|e es He _ IHes]; intros s1 [arrays ->] Hl.
  - apply wp_ret. by eexists.
  - apply andb_true_iff in Hl as [Hl1 Hl2]. apply wp_bind. eapply wp_mono; [exact (He _ Hl1)|].
    intros c s2 [arrays2 ->]. apply wp_bind, wp_modify. apply IHes; [by eexists|done].
Qed.

Lemma wp_CompileAstLiteral cid bid (W : nat -> Prop) e dest s :
  Inv s -> here cid bid s -> IsLiteral e = true -> literal_tree e = true -> W dest ->
  wp E (CompileAstLiteral bcLength bcConstants cid e dest)
    (fun _ s' => at_ cid bid W none s s' /\ topge cid dest s') s.
Proof.
  intros HI Hh Hlit Htree HW. pose proof (here_lt _ _ _ Hh) as Hlt.
  pose proof (at_refl _ _ _ cid bid W none s HI Hh) as Hat0.
  apply wp_bind, (run_top Hat0 Hlt). intros s1 Hat1 _ Ht.
  apply wp_bind, run_check; [done|].
  assert (Hemit : forall bc s2, at_ cid bid W none s s2 -> topge cid dest s2 ->
    (exists c, bc = BcSOMArrayDup c dest) \/ (exists c, bc = BcMov (OCst c) dest) ->
    wp E (emit bcLength bcConstants cid bc) (fun _ s' => at_ cid bid W none s s' /\ topge cid dest s') s2).
  { intros bc s2 Hat2 Ht2 Hbc. apply (run_emit Hat2 Hlt).
    - by destruct Hbc as [[c ->]|[c ->]].
    - by destruct Hbc as [[c ->]|[c ->]]; intros n ->.
    - destruct Hbc as [[c ->]|[c ->]]; solve_bcs.
    - intros s3 Hat3 Hst3. carry Hst3. by split. }
  destruct (IsNonArrayLiteral e) eqn:En.
  - destruct (CreateConstantNonArray_ok e En) as [c Hc]. destruct e; try done;
      apply wp_bind, wp_lift_result; rewrite Hc; apply Hemit; eauto.
  - destruct e; try done. apply wp_bind. eapply wp_mono; [by apply wp_CreateConstant|].
    intros c s2 [arrays ->]. apply Hemit; [|done|by eauto].
    eapply at_none_trans; [exact _|exact Hat1|exact Hlt|]. apply at_with_arrays; apply Hat1.
Qed.

(** ** Variable uses *)

Lemma get_offset_fresh cid c s :
  Inv s -> cs_ctxs s !! cid = Some c -> curLength (m_builder c) ∉ m_allUpvalueGetBytecodes c.
Proof.
  intros HI Hc Hin. destruct (inv_c _ _ _ _ HI _ _ Hc) as (o & b & Hok).
  pose proof (co_gets _ _ _ _ _ _ _ _ Hok) as Hg. rewrite Forall_forall in Hg.
  destruct (Hg _ Hin) as (ord & out & Hcode).
  pose proof (laid_out_lt _ _ _ _ _ (co_wf _ _ _ _ _ _ _ _ Hok) Hcode). simpl in *. lia.
Qed.

(** Reading an upvalue also records where, for the final pass. *)
Lemma run_upvalue_get cid bid (W : nat -> Prop) P ord dest s0 s (R : unit -> @CState V -> Prop) :
  at_ cid bid W P s0 s -> cid < length (cs_ctxs s0) -> W dest -> topge cid dest s -> uvge bid ord s ->
  (forall s', at_ cid bid W P s0 s' -> stab s s' -> R tt s') ->
  wp E (pos ← curLen cid; upd_ctx cid (push_upvalueGet pos) ;; ord ← uint16 ord;
        emit bcLength bcConstants cid (BcUpvalueGetMutable ord dest)) R s.
Proof.
  intros Hat Hlt HW Ht Hu HR. pose proof Hat as (HI & Hh & _). pose proof Hh as (b & c & Hb & Hc & _).
  set (bc := BcUpvalueGetMutable ord dest).
  assert (H1 : at_ cid bid W none s (with_ctxs (alter (set_builder (create bcLength bcConstants bc)) cid) s)).
  { eapply (at_create _ _ _ _ _ _ _ _ bc); try done; [by intros n ->|solve_bcs|by left]. }
  set (s1 := with_ctxs _ s) in H1.
  assert (H2 : at_ cid bid W none s1 (with_ctxs (alter (push_upvalueGet (curLength (m_builder c))) cid) s1)).
  { apply at_alter_ctx; [exact _|apply H1|apply H1|done|]. intros c1 o b1 Hc1 []. simpl in Hc1.
    rewrite list_lookup_alter_eq, Hc in Hc1. injection Hc1 as <-. split_and!; try done.
    - unfold ctx_ext. split_and!; try done. apply code_ext_refl.
    - simpl. apply Forall_app. split; [done|]. apply Forall_singleton. exists ord, dest. simpl.
      apply elem_of_app. right. by apply list_elem_of_singleton.
    - simpl. apply NoDup_app. split_and!; [done| |apply NoDup_singleton].
      intros off Hin ->%list_elem_of_singleton. by apply (get_offset_fresh cid c s). }
  assert (Hlt1 : cid < length (cs_ctxs s)) by exact (here_lt _ _ _ Hh).
  pose proof (at_trans_none _ _ _ _ _ _ _ _ _ H1 H2 Hlt1) as H12.
  apply wp_bind. eapply wp_curLen_eq; [exact Hc|]. apply wp_bind, wp_modify, wp_bind, wp_uint16, wp_modify.
  assert (Hs : with_ctxs (alter (push_upvalueGet (curLength (m_builder c))) cid) s1 =
    with_ctxs (fun l => alter (set_builder (create bcLength bcConstants bc)) cid
                 (alter (push_upvalueGet (curLength (m_builder c))) cid l)) s).
  { unfold with_ctxs, s1. simpl. f_equal. by apply list_alter_alter. }
  rewrite Hs in H12. apply HR; [|apply H12]. by eapply at_none_trans.
Qed.

Lemma run_check_global_name ord s (R : unit -> @CState V -> Prop) :
  global_slot ord s -> R tt s -> wp E (check_global_name ord) R s.
Proof.
  intros (id & name & Hid & Hg & Hn) HR. unfold wp, check_global_name. rewrite Hid, Hg.
  unfold constant_names in Hn. by rewrite bool_decide_false.
Qed.

Lemma GetTValueForFalseTrueNil_ok vr :
  vr_kind vr = VuFalseTrueNil -> vr_ord vr <= 2 -> exists c, GetTValueForFalseTrueNil vr = Ok c.
Proof.
  destruct vr as [k ord]. simpl. intros -> H. unfold GetTValueForFalseTrueNil. simpl.
  destruct ord as [|[|[|]]]; eauto. lia.
Qed.

Lemma wp_CompileVarUse cid bid (W : nat -> Prop) x dest s :
  Inv s -> here cid bid s -> W dest ->
  wp E (CompileVarUse HashString bcLength bcConstants env cid bid x dest)
    (fun _ s' => at_ cid bid W none s s' /\ topge cid dest s') s.
Proof.
  intros HI Hh HW. pose proof (here_lt _ _ _ Hh) as Hlt.
  pose proof (at_refl _ _ _ cid bid W none s HI Hh) as Hat0.
  apply wp_bind, (run_top Hat0 Hlt). intros s1 Hat1 _ Ht.
  apply wp_bind, (run_resolve Hat1 Hlt). intros vr s2 Hat2 Hst2 [_ Hr]. carry Hst2.
  assert (Hend : forall bc, branch_operand bc = None -> (forall n, bc_writes bc n -> n = dest) ->
    bcs cid bid bc s2 ->
    wp E (emit bcLength bcConstants cid bc) (fun _ s' => at_ cid bid W none s s' /\ topge cid dest s') s2).
  { intros bc Hbr Hw Hbc. apply (run_emit Hat2 Hlt); [done|by intros n ->%Hw|done|].
    intros s3 Hat3 Hst3. carry Hst3. by split. }
  destruct (vr_kind vr) eqn:Hk.
  - destruct Hr as [Htl _]. apply Hend; [done..|solve_bcs].
  - apply (run_upvalue_get cid bid W none _ _ s s2); try done. intros s3 Hat3 Hst3. carry Hst3. by split.
  - apply wp_bind, wp_uint16, Hend; [done..|solve_bcs].
  - apply wp_bind, run_check_global_name; [by apply Hr|]. apply wp_bind, wp_uint16, Hend; [done..|solve_bcs].
  - destruct Hr as [_ Hle]. destruct (GetTValueForFalseTrueNil_ok vr Hk Hle) as [c Hc].
    apply wp_bind, wp_lift_result. rewrite Hc. apply Hend; [done..|solve_bcs].
Qed.

Lemma is_kind_true k vr : is_kind k vr = true -> vr_kind vr = k.
Proof. unfold is_kind. by destruct k, (vr_kind vr). Qed.

(** A dry run tells the kind the real resolution finds. *)
Lemma run_IsVariableResolvedTo cid bid (W : nat -> Prop) P f x s0 s (R : bool -> @CState V -> Prop) :
  at_ cid bid W P s0 s -> cid < length (cs_ctxs s0) ->
  (forall r s', at_ cid bid W P s0 s' -> stab s s' ->
     (exists vr, r = f vr /\ vr_kind vr = var_kind env bid x s') -> R r s') ->
  wp E (vr ← ResolveVariable HashString env bid x DryRun; mret (f vr)) R s.
Proof.
  intros Hat Hlt HR. apply wp_bind, (run_resolve Hat Hlt). intros vr s1 Hat1 Hst1 [Hk _].
  apply wp_ret. apply HR; [done|done|]. exists vr. split; [done|].
  rewrite Hk. symmetry. eapply var_kind_stab; [exact _|apply Hat|apply Hat|done].
Qed.

Lemma wp_DetectTrivialLocalVarUse cid bid (W : nat -> Prop) e s :
  Inv s -> here cid bid s ->
  wp E (DetectTrivialLocalVarUse HashString env bid e)
    (fun r s' => at_ cid bid W none s s' /\ match r with Some n => topge cid n s' | None => True end) s.
Proof.
  intros HI Hh. pose proof (here_lt _ _ _ Hh) as Hlt.
  pose proof (at_refl _ _ _ cid bid W none s HI Hh) as Hat0.
  destruct e; try by apply wp_ret.
  apply wp_bind, (run_IsVariableResolvedTo cid bid W none _ _ s); [done|done|].
  intros r s1 Hat1 _ (vr0 & -> & Hk0). apply wp_if; intros Hr; [|by apply wp_ret].
  apply is_kind_true in Hr. apply wp_bind, (run_resolve Hat1 Hlt). intros vr s2 Hat2 _ [Hk Hv].
  rewrite <-Hk0, Hr in Hk. rewrite Hk in Hv. apply wp_bind, run_check.
  { unfold is_kind. by rewrite Hk. }
  apply wp_ret. split; [done|apply Hv].
Qed.

Lemma wp_DetectTrivialLocalVarOrConstantUse cid bid (W : nat -> Prop) e s :
  Inv s -> here cid bid s ->
  wp E (DetectTrivialLocalVarOrConstantUse HashString env bid e)
    (fun r s' => at_ cid bid W none s s' /\ match r with Some o => opnd cid o s' | None => True end) s.
Proof.
  intros HI Hh. pose proof (here_lt _ _ _ Hh) as Hlt.
  pose proof (at_refl _ _ _ cid bid W none s HI Hh) as Hat0.
  apply wp_if; intros Hn.
  { destruct (CreateConstantNonArray_ok e Hn) as [c Hc]. apply wp_bind, wp_lift_result. rewrite Hc.
    by apply wp_ret. }
  destruct e; try by apply wp_ret.
  apply wp_bind, (run_IsVariableResolvedTo cid bid W none _ _ s); [done|done|].
  intros r s1 Hat1 _ (vr0 & -> & Hk0). apply wp_if; intros Hr; [|by apply wp_ret].
  apply wp_bind, (run_resolve Hat1 Hlt). intros vr s2 Hat2 _ [Hk Hv]. rewrite <-Hk0 in Hk.
  apply wp_if; intros Hl.
  - apply is_kind_true in Hl. rewrite Hl in Hv. apply wp_ret. split; [done|apply Hv].
  - apply orb_true_iff in Hr as [Hr|Hr]; apply is_kind_true in Hr; rewrite Hr in Hk; rewrite Hk in Hv.
    + unfold is_kind in Hl. by rewrite Hk in Hl.
    + destruct (GetTValueForFalseTrueNil_ok vr Hk (proj2 Hv)) as [c Hc].
      apply wp_bind, wp_lift_result. rewrite Hc. by apply wp_ret.
Qed.

(** ** Assignments *)
Lemma run_EmitAssignValueToLhs cid bid (W : nat -> Prop) P x vr val s0 s1 s (R : unit -> @CState V -> Prop) :
  at_ cid bid W P s0 s -> cid < length (cs_ctxs s0) -> vars_ok bid W s1 -> opnd cid val s ->
  resolved env cid bid x ForWrite vr s1 s ->
  (forall s', at_ cid bid W P s0 s' -> stab s s' -> R tt s') ->
  wp E (EmitAssignValueToLhs bcLength bcConstants cid vr val) R s.
Proof.
  intros Hat Hlt HW Ho [_ Hr] HR. unfold EmitAssignValueToLhs.
  destruct (vr_kind vr); [| | |by destruct Hr..].
  - destruct Hr as [Ht [[_ ?]|Hin]]; [done|]. apply (run_emit Hat Hlt); [done|intros n ->; by apply HW|solve_bcs|done].
  - apply wp_bind, wp_uint16, (run_emit Hat Hlt); [done..|solve_bcs|done].
  - apply wp_bind, wp_uint16, (run_emit Hat Hlt); [done..| |done]. 
    assert (topge cid 0 s) by (intros ? _; lia). solve_bcs.
Qed.

Lemma wp_assign_all cid bid (W : nat -> Prop) lhs val s :
  Inv s -> here cid bid s -> vars_ok bid W s -> opnd cid val s ->
  wp E (assign_all HashString bcLength bcConstants env cid bid lhs val)
    (fun _ s' => at_ cid bid W none s s' /\ True) s.
Proof.
  intros HI Hh HW Ho. pose proof (here_lt _ _ _ Hh) as Hlt.
  pose proof (at_refl _ _ _ cid bid W none s HI Hh) as Hat. revert Hat HW Ho.
  generalize s at 2 3 4 6 as s1. induction lhs as [|x lhs IH]; intros s1 Hat HW Ho; [by apply wp_ret|].
  apply wp_bind, (run_resolve Hat Hlt). intros vr s2 Hat2 Hst2 Hr.
  pose proof (opnd_stab _ _ _ _ Hst2 (at_lt _ _ _ _ _ _ _ _ _ Hat) Ho) as Ho2.
  apply wp_bind. apply (run_EmitAssignValueToLhs cid bid W none x vr val s s1 s2); try done.
  intros s3 Hat3 Hst3. carry Hst3. pose proof (transitivity Hst2 Hst3) as Hst. carry Hst. by apply IH.
Qed.
End expr.
