(* ===== verification/CompilerBlocks.v ===== *)
(** * Rules for statements, bodies and blocks *)
From S2P Require Import Prelude Interner VmSelectors CNumbers Ast AstWf Bytecode Compiler CompilerInv CompilerRules CompilerScope CompilerSteps CompilerExpr.
#[local] Set Default Proof Using "Type*".

(** What a block context must know for its body to be compiled: where the result
    of an inlined block goes, and that slot 0 of a block of its own may be written. *)
Definition body_ok {V} (bid : nat) (W : nat -> Prop) (s : @CState V) : Prop :=
  forall b, Bs s !! bid = Some b ->
    (m_owningContext b <> bid -> exists r, m_returnValueSlot b = Some r /\ W r) /\
    (m_owningContext b = bid -> m_trueParent b <> None -> W 0).

Section blocks.
Context (HashString : string -> Z) {V : Type} (bcLength : Bytecode -> nat) (bcConstants : Bytecode -> list Cst).
Context `{!EncodingLaws bcLength} (known : nat) (env : CompileEnv).
Context (compile : nat -> nat -> AstExpr -> nat -> nat -> bool -> M (@CState V) unit).
Implicit Types s : @CState V.

Notation E := (compile_error (bool_decide (is_Some (m_superClass env)))).
Notation Inv := (Inv HashString bcLength known).
Notation at_ := (at_ HashString bcLength known).
#[local] Notation run_top H L := (CompilerSteps.run_top HashString bcLength known _ _ _ _ _ _ _ H L).
#[local] Notation run_emit H L := (CompilerSteps.run_emit HashString bcLength bcConstants known _ _ _ _ _ _ _ H L).
#[local] Notation run_resolve H L := (CompilerSteps.run_resolve HashString bcLength known _ _ _ _ _ _ _ H L).
#[local] Notation run_flag H L := (CompilerSteps.run_flag HashString bcLength known _ _ _ _ _ _ _ H L).
#[local] Notation run_here H L := (CompilerSteps.run_here HashString bcLength known _ _ _ _ _ _ _ H L).
#[local] Notation run H L := (CompilerSteps.run HashString bcLength known _ _ _ _ _ _ _ H L).
#[local] Notation good := (compile_spec HashString bcLength known env compile).

Lemma body_ok_stab cid bid W s s' :
  here cid bid s -> stab s s' -> body_ok bid W s -> body_ok bid W s'.
Proof using Type.
  intros (b & c & Hb & _) Hst H b' Hb'. destruct (st_b _ _ Hst _ _ Hb) as (b2 & Hb2 & _ & Ho & Ht & Hr & _).
  assert (b2 = b') as -> by congruence. rewrite Ho, Ht, Hr. by apply H.
Qed.

(** The slots of a block context lie in the frame. *)
Lemma block_slots cid bid s b :
  Inv s -> here cid bid s -> Bs s !! bid = Some b ->
  topge cid (m_startSlot b) s /\ forall r, m_returnValueSlot b = Some r -> topge cid r s.
Proof.
  intros HI (b' & c & Hb' & Hc & Hr & _) Hb. assert (b' = b) as -> by congruence.
  destruct (inv_c _ _ _ _ HI _ _ Hc) as (o & bo & Hok).
  assert (o = m_owningContext b) as -> by (pose proof (co_bctx _ _ _ _ _ _ _ _ Hok); congruence).
  destruct (co_slots _ _ _ _ _ _ _ _ Hok bid b Hb eq_refl) as [Hs Hrs].
  split; [|intros r Hrr]; intros c' Hc'; assert (c' = c) as -> by congruence; [done|by apply Hrs].
Qed.

Lemma run_compile cid bid (W : nat -> Prop) P e clobber dest top s0 s (R : unit -> @CState V -> Prop) :
  at_ cid bid W P s0 s -> cid < length (cs_ctxs s0) -> good e -> slots_ok bid W clobber s -> W dest ->
  (forall s', at_ cid bid W P s0 s' -> stab s s' -> topge cid dest s' -> R tt s') ->
  wp E (compile cid bid e clobber dest top) R s.
Proof.
  intros Hat Hlt Hg Hs HW HR. apply (run Hat Hlt) with (Q := fun _ s' => topge cid dest s').
  - apply Hg; [apply Hat|apply Hat|done|done].
  - intros [] s'. apply HR.
Qed.

(** ** Assignments as statements *)
Lemma wp_assign_others cid bid (W : nat -> Prop) P skip i lhs val s0 s :
  at_ cid bid W P s0 s -> cid < length (cs_ctxs s0) -> vars_ok bid W s -> opnd cid val s ->
  wp E (assign_others HashString bcLength bcConstants env cid bid skip i lhs val)
    (fun _ s' => at_ cid bid W P s0 s') s.
Proof.
  revert i s. induction lhs as [|x lhs IH]; intros i s Hat Hlt HW Ho; [by apply wp_ret|].
  apply wp_bind, wp_if; intros _.
  - apply wp_ret. by apply IH.
  - apply wp_bind, (run_resolve Hat Hlt). intros vr s1 Hat1 Hst1 Hr.
    pose proof (opnd_stab _ _ _ _ Hst1 (at_lt _ _ _ _ _ _ _ _ _ Hat) Ho) as Ho1.
    eapply run_EmitAssignValueToLhs; [exact _|exact Hat1|exact Hlt|exact HW|exact Ho1|exact Hr|].
    intros s2 Hat2 Hst2. carry Hst2. pose proof (transitivity Hst1 Hst2) as Hst. carry Hst. by apply IH.
Qed.

Lemma run_assign_all cid bid (W : nat -> Prop) P lhs val s0 s (R : unit -> @CState V -> Prop) :
  at_ cid bid W P s0 s -> cid < length (cs_ctxs s0) -> vars_ok bid W s -> opnd cid val s ->
  (forall s', at_ cid bid W P s0 s' -> stab s s' -> R tt s') ->
  wp E (assign_all HashString bcLength bcConstants env cid bid lhs val) R s.
Proof.
  intros Hat Hlt HW Ho HR. apply (run Hat Hlt) with (Q := fun _ _ => True).
  - apply wp_assign_all; [exact _|apply Hat|apply Hat|done|done].
  - intros [] s' ? ? _. by apply HR.
Qed.

Lemma wp_CompileAssignation cid bid (W : nat -> Prop) lhs rhs clobber dest s :
  Inv s -> here cid bid s -> good rhs -> slots_ok bid W clobber s -> W dest ->
  wp E (CompileAssignation HashString bcLength bcConstants env compile cid bid lhs rhs clobber dest)
    (fun _ s' => at_ cid bid W none s s' /\ topge cid dest s') s.
Proof.
  intros HI Hh Hg Hs HW. pose proof (here_lt _ _ _ Hh) as Hlt.
  pose proof (at_refl _ _ _ cid bid W none s HI Hh) as Hat0.
  apply wp_bind, (run_top Hat0 Hlt). intros s1 Hat1 Hst1 _. carry Hst1.
  apply wp_bind. eapply run_compile; [exact Hat1|exact Hlt|exact Hg|exact Hs|done|].
  intros s2 Hat2 Hst2 Ht. carry Hst2.
  eapply run_assign_all; [exact Hat2|exact Hlt|apply Hs|done|]. intros s3 Hat3 Hst3. carry Hst3. by split.
Qed.

(** The first left-hand side found is a local, and stays one. *)
Lemma wp_first_local cid bid (W : nat -> Prop) P i lhs s0 s :
  at_ cid bid W P s0 s -> cid < length (cs_ctxs s0) ->
  wp E (first_local HashString env bid i lhs)
    (fun r s' => at_ cid bid W P s0 s' /\ stab s s' /\ match r with
       | Some ord => exists x, lhs !! (ord - i) = Some x /\ i <= ord /\ var_kind env bid x s' = VuLocal
       | None => True end) s.
Proof.
  revert i s. induction lhs as [|x lhs IH]; intros i s Hat Hlt; [by apply wp_ret|].
  apply wp_bind. eapply run_IsVariableResolvedTo; [exact _|exact Hat|exact Hlt|].
  intros r s1 Hat1 Hst1 (vr & -> & Hk). apply wp_if; intros Hr.
  - apply is_kind_true in Hr. apply wp_ret. split; [done|]. split; [done|]. exists x.
    rewrite Nat.sub_diag. split_and!; [done|done|congruence].
  - eapply wp_mono; [by apply IH|]. intros [ord|] s2 (Hat2 & Hst2 & H); (split; [done|]); (split; [by etrans|]); [|done].
    destruct H as (y & Hy & Hle & Hky). exists y. split_and!; [|lia|done].
    by replace (ord - i) with (S (ord - S i)) by lia.
Qed.

Lemma wp_CompileTopLevelAssignation cid bid (W : nat -> Prop) lhs rhs clobber s :
  Inv s -> here cid bid s -> good rhs -> slots_ok bid W clobber s ->
  wp E (CompileTopLevelAssignation HashString bcLength bcConstants env compile cid bid lhs rhs clobber)
    (fun _ s' => at_ cid bid W none s s') s.
Proof.
  intros HI Hh Hg Hs. pose proof (here_lt _ _ _ Hh) as Hlt.
  pose proof (at_refl _ _ _ cid bid W none s HI Hh) as Hat0.
  apply wp_bind. eapply (run Hat0 Hlt); [by apply wp_DetectTrivialLocalVarOrConstantUse|].
  intros r s1 Hat1 Hst1 Hr. carry Hst1. destruct r as [val|].
  { eapply run_assign_all; [exact Hat1|exact Hlt|apply Hs|done|]. auto. }
  apply wp_bind. eapply wp_mono; [by eapply wp_first_local|]. intros r s2 (Hat2 & Hst2 & Hl). carry Hst2.
  destruct r as [ord|].
  - destruct Hl as (x & Hx & _ & Hk). rewrite Nat.sub_0_r in Hx. rewrite Hx.
    apply wp_bind, (run_resolve Hat2 Hlt). intros vr s3 Hat3 Hst3 [Hkv Hv]. rewrite Hk in Hkv. rewrite Hkv in Hv.
    destruct Hv as [Ht [[_ ?]|Hin]]; [done|]. apply wp_bind, run_check; [unfold is_kind; by rewrite Hkv|].
    assert (HWv : W (vr_ord vr)) by (by apply Hs). carry Hst3.
    apply wp_bind. eapply run_compile; [exact Hat3|exact Hlt|exact Hg|exact Hs|exact HWv|].
    intros s4 Hat4 Hst4 _. carry Hst4. eapply wp_mono; [eapply wp_assign_others; [exact Hat4|exact Hlt|apply Hs|exact Ht]|].
    done.
  - eapply (run Hat2 Hlt).
    + apply wp_CompileAssignation; [apply Hat2|apply Hat2|done|exact Hs|by eapply slots_ok_W].
    + by intros [] s3 Hat3 _ _.
Qed.

(** ** Returns *)
Lemma wp_CompileReturn cid bid (W : nat -> Prop) P e clobber s0 s :
  at_ cid bid W P s0 s -> cid < length (cs_ctxs s0) -> good e -> slots_ok bid W clobber s ->
  wp E (CompileReturn bcLength bcConstants compile cid bid e clobber) (fun _ s' => at_ cid bid W P s0 s') s.
Proof.
  intros Hat Hlt Hg Hs. apply wp_bind.
  eapply run_compile; [exact Hat|exact Hlt|exact Hg|exact Hs|by eapply slots_ok_W|].
  intros s1 Hat1 Hst1 Ht. carry Hst1. apply wp_bind, (run_here Hat1 Hlt). intros b0 Hb0.
  assert (Hret : forall s2, at_ cid bid W P s0 s2 -> topge cid clobber s2 ->
    wp E (emit bcLength bcConstants cid (BcRet clobber 1)) (fun _ s' => at_ cid bid W P s0 s') s2).
  { intros s2 Hat2 Ht2. apply (run_emit Hat2 Hlt); [done|done|solve_bcs|done]. }
  apply wp_bind, wp_if; intros _.
  - apply (run_emit Hat1 Hlt); [done|done|solve_bcs|]. intros s2 Hat2 Hst2. carry Hst2. by apply Hret.
  - apply wp_ret. by apply Hret.
Qed.

Lemma wp_CompileThrow cid bid (W : nat -> Prop) P e clobber s0 s :
  at_ cid bid W P s0 s -> cid < length (cs_ctxs s0) -> good e -> slots_ok bid W clobber s ->
  wp E (CompileThrow bcLength bcConstants compile cid bid e clobber) (fun _ s' => at_ cid bid W P s0 s') s.
Proof.
  intros Hat Hlt Hg Hs. apply wp_bind, (run_flag Hat Hlt); [done|]. intros s1 Hat1 Hst1. carry Hst1.
  apply wp_bind. eapply run_compile; [exact Hat1|exact Hlt|exact Hg|exact Hs|by eapply slots_ok_W|].
  intros s2 Hat2 Hst2 Ht. apply (run_emit Hat2 Hlt); [done|done|solve_bcs|done].
Qed.

(** ** Bodies *)
Lemma IsInlined_erase bid b : IsInlined bid (erase_b b) = IsInlined bid b.
Proof. done. Qed.

Lemma IsInlined_true bid b : IsInlined bid b = true -> m_owningContext b <> bid.
Proof. intros H%negb_true_iff. by apply Nat.eqb_neq. Qed.

Lemma run_ReturnValueMayBeDiscarded cid bid (W : nat -> Prop) P b s0 s (R : bool -> @CState V -> Prop) :
  at_ cid bid W P s0 s -> cid < length (cs_ctxs s0) -> cs_bctxs s !! bid = Some b -> IsInlined bid b = true ->
  (forall r, R r s) -> wp E (ReturnValueMayBeDiscarded bid) R s.
Proof.
  intros Hat Hlt Hb Hin HR. apply wp_bind. eapply wp_lookup_or; [exact Hb|].
  apply wp_bind, run_check; [done|]. by apply wp_ret.
Qed.

(** The slot an inlined block leaves its value in. *)
Lemma run_GetReturnValueSlot cid bid (W : nat -> Prop) P b s0 s (R : nat -> @CState V -> Prop) :
  at_ cid bid W P s0 s -> cid < length (cs_ctxs s0) -> cs_bctxs s !! bid = Some b -> IsInlined bid b = true ->
  body_ok bid W s -> (forall r, W r -> topge cid r s -> R r s) ->
  wp E (GetReturnValueSlotForInlinedBlock bid) R s.
Proof.
  intros Hat Hlt Hb Hin Hok HR. apply wp_bind. eapply wp_lookup_or; [exact Hb|].
  apply wp_bind, run_check; [done|]. pose proof (lookup_Bs' _ _ _ Hb) as HB.
  destruct (Hok _ HB) as [Hr _]. destruct (Hr (IsInlined_true _ _ Hin)) as (r & Hrs & HW).
  destruct (block_slots cid bid s _ (at_Inv _ _ _ _ _ _ _ _ _ Hat) (at_here _ _ _ _ _ _ _ _ _ Hat) HB) as [_ Hsl].
  simpl in Hrs. rewrite Hrs. apply wp_ret. apply HR; [done|by apply Hsl].
Qed.

Lemma wp_CompileEmptyBody cid bid (W : nat -> Prop) s :
  Inv s -> here cid bid s -> body_ok bid W s ->
  wp E (CompileEmptyBody bcLength bcConstants cid bid) (fun _ s' => at_ cid bid W none s s') s.
Proof.
  intros HI Hh Hok. pose proof (here_lt _ _ _ Hh) as Hlt.
  pose proof (at_refl _ _ _ cid bid W none s HI Hh) as Hat0.
  assert (Ht0 : forall s', topge cid 0 s') by (intros s' c _; lia).
  apply wp_bind, (run_here Hat0 Hlt). intros b Hb. destruct (IsTopLevelMethod bid b) eqn:Htop; simpl.
  { pose proof (Ht0 s). apply (run_emit Hat0 Hlt); [done|done|solve_bcs|done]. }
  apply wp_if; intros Hin.
  - apply wp_bind. eapply run_ReturnValueMayBeDiscarded; [exact Hat0|exact Hlt|exact Hb|done|]. intros d.
    apply wp_if; intros _; [by apply wp_ret|].
    apply wp_bind. eapply run_GetReturnValueSlot; [exact Hat0|exact Hlt|exact Hb|done|done|]. intros r HW Ht.
    apply (run_emit Hat0 Hlt); [done|by intros n ->|solve_bcs|done].
  - destruct (Hok _ (lookup_Bs' _ _ _ Hb)) as [_ HW0]. apply negb_false_iff, Nat.eqb_eq in Hin.
    assert (W 0) as HW.
    { apply HW0; [done|]. simpl. intros Hnt. unfold IsTopLevelMethod in Htop.
      by rewrite Hnt, Hin, Nat.eqb_refl in Htop. }
    pose proof (Ht0 s). apply wp_bind, (run_emit Hat0 Hlt); [done|by intros n ->|solve_bcs|].
    intros s1 Hat1 _. pose proof (Ht0 s1). apply (run_emit Hat1 Hlt); [done|done|solve_bcs|done].
Qed.

Lemma run_value_discardable cid bid (W : nat -> Prop) P b e s0 s (R : bool -> @CState V -> Prop) :
  at_ cid bid W P s0 s -> cid < length (cs_ctxs s0) -> cs_bctxs s !! bid = Some b -> IsInlined bid b = true ->
  (forall r s', at_ cid bid W P s0 s' -> stab s s' -> R r s') ->
  wp E (value_discardable HashString env bid e) R s.
Proof.
  intros Hat Hlt Hb Hin HR. apply wp_bind.
  eapply run_ReturnValueMayBeDiscarded; [exact Hat|exact Hlt|exact Hb|done|]. intros d.
  apply wp_if; intros _; [apply wp_ret; by apply HR|].
  apply wp_if; intros _; [apply wp_ret; by apply HR|].
  destruct e; try (apply wp_ret; by apply HR).
  apply wp_bind. eapply run_IsVariableResolvedTo; [exact _|exact Hat|exact Hlt|].
  intros r s1 Hat1 Hst1 _. apply wp_ret. by apply HR.
Qed.

Lemma wp_CompileBlockValue cid bid (W : nat -> Prop) P e clobber s0 s :
  at_ cid bid W P s0 s -> cid < length (cs_ctxs s0) -> good e -> slots_ok bid W clobber s -> body_ok bid W s ->
  wp E (CompileBlockValue HashString bcLength bcConstants env compile cid bid e clobber)
    (fun _ s' => at_ cid bid W P s0 s') s.
Proof.
  intros Hat Hlt Hg Hs Hok. apply wp_bind, (run_here Hat Hlt). intros b Hb.
  apply wp_if; intros Hin; [|by apply wp_CompileReturn].
  assert (Hrest : forall s1, at_ cid bid W P s0 s1 -> stab s s1 ->
    wp E (skip ← value_discardable HashString env bid e;
          if (skip : bool) then mret tt
          else slot ← GetReturnValueSlotForInlinedBlock bid; compile cid bid e clobber slot false)
      (fun _ s' => at_ cid bid W P s0 s') s1).
  { intros s1 Hat1 Hst1. pose proof (body_ok_stab _ _ _ _ _ (at_here _ _ _ _ _ _ _ _ _ Hat) Hst1 Hok) as Hok1.
    carry Hst1. destruct (st_b _ _ Hst1 _ _ (lookup_Bs' _ _ _ Hb)) as (b1' & HB1 & _ & Ho1 & _).
    destruct (lookup_Bs _ _ _ HB1) as (b1 & Hb1 & ->).
    assert (Hin1 : IsInlined bid b1 = true) by (unfold IsInlined in *; simpl in Ho1; by rewrite Ho1).
    apply wp_bind. eapply run_value_discardable; [exact Hat1|exact Hlt|exact Hb1|done|].
    intros skip s2 Hat2 Hst2. pose proof (body_ok_stab _ _ _ _ _ (at_here _ _ _ _ _ _ _ _ _ Hat1) Hst2 Hok1) as Hok2.
    carry Hst2. apply wp_if; intros _; [by apply wp_ret|].
    destruct (st_b _ _ Hst2 _ _ HB1) as (b2' & HB2 & _ & Ho2 & _).
    destruct (lookup_Bs _ _ _ HB2) as (b2 & Hb2 & ->).
    assert (Hin2 : IsInlined bid b2 = true) by (unfold IsInlined in *; simpl in *; by rewrite Ho2).
    apply wp_bind. eapply run_GetReturnValueSlot; [exact Hat2|exact Hlt|exact Hb2|done|done|]. intros r HW _.
    eapply run_compile; [exact Hat2|exact Hlt|exact Hg|exact Hs|exact HW|]. auto. }
  apply wp_bind, wp_if; intros _.
  - destruct (block_slots cid bid s _ (at_Inv _ _ _ _ _ _ _ _ _ Hat) (at_here _ _ _ _ _ _ _ _ _ Hat)
      (lookup_Bs' _ _ _ Hb)) as [Hstart _].
    apply (run_emit Hat Hlt); [done|done|solve_bcs|]. intros s1 Hat1 Hst1. by apply Hrest.
  - apply wp_ret. by apply Hrest.
Qed.

(** The parts of a statement are compiled as they should be. *)
Definition good_stmt (e : AstExpr) : Prop :=
  match e with
  | AstReturn e' => good e'
  | AstAssignation _ rhs => good e /\ good rhs
  | _ => good e
  end.

Lemma good_stmt_expr e : good_stmt e -> (forall e', e <> AstReturn e') -> good e.
Proof. destruct e; simpl; try done; [by intros [? _]|]. intros _ H. by destruct (H e). Qed.

Lemma wp_CompileStatement cid bid (W : nat -> Prop) P e clobber s0 s :
  at_ cid bid W P s0 s -> cid < length (cs_ctxs s0) -> good_stmt e -> (forall e', e <> AstReturn e') ->
  slots_ok bid W clobber s ->
  wp E (CompileStatement HashString bcLength bcConstants env compile cid bid e clobber)
    (fun _ s' => at_ cid bid W P s0 s' /\ stab s s') s.
Proof.
  intros Hat Hlt Hg Hne Hs. pose proof (good_stmt_expr e Hg Hne) as Hge.
  assert (Hcompile : forall top, wp E (compile cid bid e clobber clobber top)
      (fun _ s' => at_ cid bid W P s0 s' /\ stab s s') s).
  { intros top. eapply run_compile; [exact Hat|exact Hlt|exact Hge|exact Hs|by eapply slots_ok_W|]. auto. }
  destruct e; try exact (Hcompile true); try exact (Hcompile false).
  apply (run Hat Hlt) with (Q := fun _ _ => True).
  - eapply wp_mono; [apply wp_CompileTopLevelAssignation; [apply Hat|apply Hat|by destruct Hg|exact Hs]|]. auto.
  - auto.
Qed.

Definition is_top (bid : nat) s : Prop :=
  forall b, cs_bctxs s !! bid = Some b -> IsTopLevelMethod bid b = true.

Lemma is_top_stab bid b s s' :
  stab s s' -> cs_bctxs s !! bid = Some b -> IsTopLevelMethod bid b = true -> is_top bid s'.
Proof.
  intros Hst Hb Ht b' Hb'. destruct (st_b _ _ Hst _ _ (lookup_Bs' _ _ _ Hb)) as (b2 & Hb2 & _ & Ho & Htp & _).
  rewrite (lookup_Bs' _ _ _ Hb') in Hb2. injection Hb2 as <-. simpl in *.
  unfold IsTopLevelMethod in *. by rewrite Ho, Htp.
Qed.

Lemma CompileStatements_cons cid bid e body clobber :
  (forall e', e <> AstReturn e') ->
  CompileStatements HashString bcLength bcConstants env compile cid bid (e :: body) clobber =
    match body with
    | [] =>
        b ← the_bctx bid;
        if negb (IsTopLevelMethod bid b) then
          CompileBlockValue HashString bcLength bcConstants env compile cid bid e clobber ;; mret false
        else CompileStatement HashString bcLength bcConstants env compile cid bid e clobber ;; mret true
    | _ =>
        CompileStatement HashString bcLength bcConstants env compile cid bid e clobber ;;
        CompileStatements HashString bcLength bcConstants env compile cid bid body clobber
    end.
Proof. intros Hne. destruct e, body; try done; by destruct (Hne e). Qed.

Lemma is_return e : {e' | e = AstReturn e'} + {forall e', e <> AstReturn e'}.
Proof. destruct e; try (by right). left. by eexists. Qed.

Lemma wp_return_statement cid bid (W : nat -> Prop) P e clobber s0 s :
  at_ cid bid W P s0 s -> cid < length (cs_ctxs s0) -> good e -> slots_ok bid W clobber s ->
  wp E (b ← the_bctx bid;
        (if negb (IsTopLevelMethod bid b) then
           r ← ShouldCompileThrowIntoReturn bid;
           if (r : bool) then CompileReturn bcLength bcConstants compile cid bid e clobber
           else CompileThrow bcLength bcConstants compile cid bid e clobber
         else CompileReturn bcLength bcConstants compile cid bid e clobber) ;;
        mret false)
    (fun (r : bool) s' => at_ cid bid W P s0 s' /\ (r = true -> is_top bid s')) s.
Proof.
  intros Hat Hlt Hg Hs. apply wp_bind, (run_here Hat Hlt). intros b Hb. apply wp_bind.
  apply wp_mono with (Q := fun _ s' => at_ cid bid W P s0 s'); [|intros [] s' Hat'; by apply wp_ret].
  apply wp_if; intros Ht; [|by apply wp_CompileReturn].
  apply wp_bind, wp_bind. eapply wp_lookup_or; [exact Hb|]. apply wp_bind, run_check; [done|]. apply wp_ret.
  apply wp_if; intros _; [by apply wp_CompileReturn|by apply wp_CompileThrow].
Qed.

Lemma wp_CompileStatements cid bid (W : nat -> Prop) P body clobber s0 s :
  at_ cid bid W P s0 s -> cid < length (cs_ctxs s0) -> Forall good_stmt body ->
  slots_ok bid W clobber s -> body_ok bid W s ->
  wp E (CompileStatements HashString bcLength bcConstants env compile cid bid body clobber)
    (fun (r : bool) s' => at_ cid bid W P s0 s' /\ (r = true -> is_top bid s')) s.
Proof.
  intros Hat Hlt Hg. revert s Hat. induction Hg as [|e body He Hg IH]; intros s Hat Hs Hok; [by apply wp_ret|].
  destruct (is_return e) as [[e' ->]|Hne]; [by apply wp_return_statement|].
  rewrite CompileStatements_cons by done. destruct body as [|e2 body].
  - apply wp_bind, (run_here Hat Hlt). intros b Hb. apply wp_if; intros Ht.
    + apply wp_bind. eapply wp_mono; [apply wp_CompileBlockValue; [exact Hat|exact Hlt|by apply good_stmt_expr|done|done]|].
      intros [] s1 Hat1. by apply wp_ret.
    + apply negb_false_iff in Ht. apply wp_bind.
      eapply wp_mono; [apply wp_CompileStatement; [exact Hat|exact Hlt|done|done|done]|].
      intros [] s1 [Hat1 Hst1]. apply wp_ret. split; [done|]. intros _. by eapply is_top_stab.
  - apply wp_bind. eapply wp_mono; [apply wp_CompileStatement; [exact Hat|exact Hlt|done|done|done]|].
    intros [] s1 [Hat1 Hst1]. pose proof (body_ok_stab _ _ _ _ _ (at_here _ _ _ _ _ _ _ _ _ Hat) Hst1 Hok).
    carry Hst1. by apply IH.
Qed.

Lemma wp_CompileBlockBody cid bid (W : nat -> Prop) body clobber s :
  Inv s -> here cid bid s -> Forall good_stmt body -> slots_ok bid W clobber s -> body_ok bid W s ->
  wp E (CompileBlockBody HashString bcLength bcConstants env compile cid bid body clobber)
    (fun _ s' => at_ cid bid W none s s') s.
Proof.
  intros HI Hh Hg Hs Hok. pose proof (here_lt _ _ _ Hh) as Hlt.
  pose proof (at_refl _ _ _ cid bid W none s HI Hh) as Hat0.
  destruct body as [|e body]; [by apply wp_CompileEmptyBody|]. unfold CompileBlockBody.
  apply wp_bind. eapply wp_mono; [by apply wp_CompileStatements|]. intros r s1 [Hat1 Ht].
  apply wp_if; intros Hr; [|by apply wp_ret].
  apply wp_bind, (run_here Hat1 Hlt). intros b Hb. apply wp_bind, run_check; [by apply Ht|].
  assert (Hret : forall s2, at_ cid bid W none s s2 ->
    wp E (emit bcLength bcConstants cid (BcRet 0 1)) (fun _ s' => at_ cid bid W none s s') s2).
  { intros s2 Hat2. apply (run_emit Hat2 Hlt); [done|done|solve_bcs|done]. }
  apply wp_bind, wp_if; intros _; [|apply wp_ret; by apply Hret].
  assert (topge cid 0 s1) by (intros c _; lia).
  apply (run_emit Hat1 Hlt); [done|done|solve_bcs|]. intros s2 Hat2 _. by apply Hret.
Qed.

(** ** Blocks *)
Lemma in_scope_same_owner b1 b2 x y n s :
  Bs s !! b1 = Some x -> Bs s !! b2 = Some y -> m_owningContext x = m_owningContext y ->
  in_scope b1 s n -> in_scope b2 s n.
Proof.
  intros Hx Hy Ho (z & v & vi & b & d & Hin & Hv & Hn & Hb & Hd & Hod).
  exists z, v, vi, y, d. split_and!; try done. congruence.
Qed.

Lemma run_propagate_throw cid bid (W : nat -> Prop) P target nb b s0 s (R : unit -> @CState V -> Prop) :
  at_ cid bid W P s0 s -> cid < length (cs_ctxs s0) -> Bs s !! nb = Some b ->
  (forall s', at_ cid bid W P s0 s' -> stab s s' -> R tt s') ->
  wp E (propagate_throw target nb) R s.
Proof.
  intros Hat Hlt Hb HR. destruct (lookup_Bs _ _ _ Hb) as (b0 & Hb0 & ->). apply wp_bind.
  eapply wp_lookup_or; [exact Hb0|]. apply wp_if; intros _.
  - by apply (run_flag Hat Hlt).
  - apply wp_ret. by apply HR.
Qed.

(** The context of an inlined block after its variables are installed. *)
Lemma inlined_ready cid bid (W : nat -> Prop) names start first dest discard b s0 s s1 :
  at_ cid bid W none s0 s -> cs_bctxs s !! bid = Some b ->
  topge cid start s -> topge cid dest s -> slots_ok bid W start s -> W dest ->
  let nb := length (cs_bctxs s) in
  let s' := add_bctx (inlined_context bid start dest discard b) s in
  opened HashString bcLength known cid nb W names start first s' s1 ->
  slots_ok nb W first s1 /\ body_ok nb W s1.
Proof.
  intros (HI & Hh & _) Hb Hts Htd (H0 & HW & Hv) HWd nb s' Hop.
  destruct (at_add_inlined HashString bcLength known cid bid W start dest discard b s HI Hh Hb Hts Htd)
    as (Hat' & Hh' & Hlt').
  assert (Hnb : Bs s' !! nb = Some (erase_b (inlined_context bid start dest discard b))).
  { unfold s'. rewrite Bs_add_bctx. apply list_lookup_middle. unfold nb. by rewrite length_Bs. }
  pose proof Hop as [Hf _ _ _ Hat1 _ _]. split.
  - split_and!; [lia|intros n Hn; apply HW; lia|]. intros n Hin.
    apply (opened_in_scope HashString bcLength known cid nb W names start first s' s1) in Hin as [Hin|Hn];
      [|by apply HW|apply Hat'|done|done].
    apply Hv. destruct (st_b _ _ (proj2 (proj2 (proj2 Hat'))) _ _ (lookup_Bs' _ _ _ Hb)) as (b' & Hb' & _ & Ho' & _).
    eapply (in_scope_stab HashString bcLength known bid s s'); [exact HI|apply Hat'|by eexists; apply lookup_Bs'|].
    eapply in_scope_same_owner; [exact Hnb|exact Hb'|symmetry; exact Ho'|exact Hin].
  - intros b1 Hb1. destruct Hat1 as (_ & _ & _ & Hst1).
    destruct (st_b _ _ Hst1 _ _ Hnb) as (b2 & Hb2 & _ & Ho2 & _ & Hr2 & _).
    change (Bs s1 !! nb = Some b2) in Hb2. assert (b2 = b1) as -> by congruence. rewrite Ho2, Hr2. simpl. split.
    + intros _. by exists dest.
    + intros Heq. unfold nb in Heq. lia.
Qed.

Lemma no_upvalues_of_inlined s nb b :
  Inv s -> Bs s !! nb = Some b -> m_owningContext b <> nb -> m_uvs b = [] /\ m_uvOrdMap b = ∅.
Proof.
  intros HI Hb Hne. destruct (bo_inlined _ _ _ _ (inv_b _ _ _ _ HI _ _ Hb) Hne) as (H1 & H2 & _). done.
Qed.

Lemma run_InlineBlock cid bid (W : nat -> Prop) P params locals body start dest discard s0 s
    (R : unit -> @CState V -> Prop) :
  at_ cid bid W P s0 s -> cid < length (cs_ctxs s0) -> Forall good_stmt body ->
  slots_ok bid W start s -> W dest ->
  (forall s', at_ cid bid W P s0 s' -> stab s s' -> topge cid dest s' -> R tt s') ->
  wp E (InlineBlock HashString bcLength bcConstants env compile cid bid params locals body start dest discard) R s.
Proof.
  intros Hat Hlt Hg Hs HWd HR.
  apply (run Hat Hlt) with (Q := fun _ s' => topge cid dest s'); [|intros [] s'; apply HR].
  clear HR. destruct Hat as (HI & Hh & _). clear s0 Hlt P. pose proof (here_lt _ _ _ Hh) as Hlt.
  pose proof (at_refl _ _ _ cid bid W none s HI Hh) as Hat0.
  apply wp_bind, (run_top Hat0 Hlt). intros s1 Hat1 Hst1 Htd. carry Hst1.
  apply wp_bind, (run_top Hat1 Hlt). intros s2 Hat2 Hst2 Hts. carry Hst2.
  apply wp_bind, wp_check; [intros _|by intros _; right; right; left].
  apply wp_bind, (run_here Hat2 Hlt). intros b Hb. apply wp_bind.
  destruct (at_add_inlined HashString bcLength known cid bid W start dest discard b s2
    (at_Inv _ _ _ _ _ _ _ _ _ Hat2) (at_here _ _ _ _ _ _ _ _ _ Hat2) Hb Hts Htd) as (Hat3 & Hh3 & Ho).
  apply wp_new_bctx. apply wp_bind, wp_the_new_bctx. apply wp_bind, run_check.
  { unfold IsInlined. simpl. by rewrite (proj2 (Nat.eqb_neq _ _)) by lia. }
  apply wp_bind, wp_upd_new_bctx. fold (inlined_context bid start dest discard b).
  set (nb := length (cs_bctxs s2)) in *.
  set (s3 := add_bctx (inlined_context bid start dest discard b) s2) in *.
  apply (wp_scoped HashString bcLength bcConstants known _ cid nb W (fun n t => max t n)).
  - apply Hat3.
  - exact Hh3.
  - apply Hs.
  - apply Hs.
  - intros n c _. lia.
  - intros first s4 Hop. pose proof Hop as [_ HI4 Hh4 _ _ _ _].
    destruct (inlined_ready cid bid W _ start first dest discard b s s2 s4 Hat2 Hb Hts Htd Hs HWd Hop) as [Hs4 Hok4].
    by apply wp_CompileBlockBody.
  - intros s5 Hat5. pose proof Hat5 as (HI5 & Hh5 & He5 & Hst5).
    assert (Hnb : Bs s3 !! nb = Some (erase_b (inlined_context bid start dest discard b))).
    { unfold s3. rewrite Bs_add_bctx. apply list_lookup_middle. unfold nb. by rewrite length_Bs. }
    destruct (st_b _ _ Hst5 _ _ Hnb) as (b5 & Hb5 & _ & Ho5 & _). simpl in Ho5.
    assert (Hne : m_owningContext b5 <> nb) by (rewrite Ho5; lia).
    destruct (no_upvalues_of_inlined _ _ _ HI5 Hb5 Hne) as [Hu1 Hu2].
    assert (Hat' : at_ cid bid W none s s5).
    { assert (H35 : at_ cid bid W none s3 s5).
      { split_and!; [done| |done|done]. eapply here_stab; [apply Hat3|exact Hst5|apply Hat3]. }
      eapply at_none_trans; [exact _| |exact Hlt|exact H35]. eapply at_none_trans; [exact _|exact Hat2|exact Hlt|exact Hat3]. }
    assert (Htd5 : topge cid dest s5).
    { eapply topge_stab; [exact (transitivity (proj2 (proj2 (proj2 Hat3))) Hst5)| |exact Htd].
      exact (at_lt _ _ _ _ _ _ _ _ _ Hat2). }
    destruct (lookup_Bs _ _ _ Hb5) as (b5' & Hb5' & ->).
    apply wp_bind. eapply wp_lookup_or; [exact Hb5'|]. apply wp_bind, run_check.
    { simpl in Hu1, Hu2. rewrite Hu1, Hu2. by rewrite bool_decide_true. }
    eapply run_propagate_throw; [exact Hat'|exact Hlt|exact Hb5|]. intros s6 Hat6 Hst6. carry Hst6. by split.
Qed.

Lemma block_fnKind_ok n m : n <= 2 -> exists k, block_fnKind n m = Ok k /\ is_block_kind k = true.
Proof. intros H. destruct n as [|[|[|n]]]; [..|lia]; destruct m; by eexists. Qed.

Lemma new_block_ready cid bid nparams names first b s s1 :
  let nb := length (cs_bctxs s) in
  let newCtx := length (cs_ctxs s) in
  let s' := add_ctx (block_translation cid nparams nb) (add_bctx (block_context nb bid b) s) in
  opened HashString bcLength known newCtx nb (fun _ => True) names 1 first s' s1 ->
  slots_ok nb (fun _ => True) first s1 /\ body_ok nb (fun _ => True) s1.
Proof.
  intros nb newCtx s' [Hf _ _ _ (_ & _ & _ & Hst) _ _]. split; [split_and!; [lia|done|done]|].
  intros b1 Hb1. split; [|done]. intros Hne. destruct Hne.
  assert (Hnb : Bs s' !! nb = Some (erase_b (block_context nb bid b))).
  { change (Bs s') with (Bs (add_bctx (block_context nb bid b) s)). rewrite Bs_add_bctx.
    apply list_lookup_middle. unfold nb. by rewrite length_Bs. }
  destruct (st_b _ _ Hst _ _ Hnb) as (b2 & Hb2 & _ & Ho2 & _).
  change (Bs s1 !! nb = Some b2) in Hb2. assert (b2 = b1) as -> by congruence. by rewrite Ho2.
Qed.

Lemma wp_CompileNewBlock cid bid (W : nat -> Prop) params locals body dest s :
  Inv s -> here cid bid s -> Forall good_stmt body -> W dest ->
  wp E (CompileNewBlock HashString bcLength bcConstants env compile cid bid params locals body dest)
    (fun _ s' => at_ cid bid W none s s' /\ topge cid dest s') s.
Proof.
  intros HI Hh Hg HW. pose proof (here_lt _ _ _ Hh) as Hlt.
  pose proof (at_refl _ _ _ cid bid W none s HI Hh) as Hat0.
  apply wp_bind, (run_top Hat0 Hlt). intros s1 Hat1 _ Ht. pose proof Hat1 as (HI1 & Hh1 & _).
  pose proof Hh1 as (b0 & c & Hb0 & Hc & _ & _). destruct (lookup_Bs _ _ _ Hb0) as (b & Hb & ->).
  apply wp_bind, wp_new_ctx, wp_bind, wp_upd_new_ctx, wp_bind, wp_check; [intros Hp|by intros _; right; right; left].
  apply Nat.leb_le in Hp. apply wp_bind. eapply wp_lookup_or; [exact Hb|]. apply wp_bind, wp_new_bctx.
  apply wp_bind, wp_upd_new_bctx.
  set (nb := length (cs_bctxs s1)). set (newCtx := length (cs_ctxs s1)).
  change (length (cs_bctxs (add_ctx _ s1))) with nb. fold (block_context nb bid b).
  match goal with |- wp _ _ _ (add_bctx ?x (add_ctx ?y s1)) =>
    change (add_bctx x (add_ctx y s1)) with (add_ctx y (add_bctx x s1)) end.
  change newCtx with (length (cs_ctxs (add_bctx (block_context nb bid b) s1))).
  apply wp_bind, wp_upd_new_ctx. fold (block_translation cid (length params) nb).
  change (length (cs_ctxs (add_bctx (block_context nb bid b) s1))) with newCtx.
  destruct (Inv_add_block HashString bcLength known cid bid (length params) b s1 HI1 Hh1 Hb) as [HI2 Hh2].
  fold nb newCtx in HI2, Hh2.
  set (s2 := add_ctx (block_translation cid (length params) nb) (add_bctx (block_context nb bid b) s1)) in *.
  apply (wp_scoped HashString bcLength bcConstants known _ newCtx nb (fun _ => True) (fun n _ => n)); try done; [lia| | |].
  - intros n c' Hc'. simpl in Hc'. unfold newCtx in Hc'. rewrite list_lookup_middle in Hc' by done.
    injection Hc' as <-. simpl. lia.
  - intros first s3 Hop. pose proof Hop as [_ HI3 Hh3 _ _ _ _].
    destruct (new_block_ready cid bid _ _ first b s1 s3 Hop). by apply wp_CompileBlockBody.
  - intros s3 Hat3. pose proof (here_lt _ _ _ Hh2) as Hlt2.
    assert (Hnb : Bs s2 !! nb = Some (erase_b (block_context nb bid b))).
    { change (Bs s2) with (Bs (add_bctx (block_context nb bid b) s1)). rewrite Bs_add_bctx.
      apply list_lookup_middle. unfold nb. by rewrite length_Bs. }
    destruct (st_b _ _ (proj2 (proj2 (proj2 Hat3))) _ _ Hnb) as (b3 & Hb3 & _).
    apply wp_bind. eapply run_propagate_throw; [exact Hat3|exact Hlt2|exact Hb3|]. intros s4 Hat4 Hst4.
    destruct (st_b _ _ Hst4 _ _ Hb3) as (b4 & Hb4 & _). destruct (lookup_Bs _ _ _ Hb4) as (b4' & Hb4' & ->).
    apply wp_bind. eapply wp_lookup_or; [exact Hb4'|]. apply wp_bind, wp_lift_result.
    destruct (block_fnKind_ok (length params) (MustMutablyCaptureSelf b4') Hp) as (kind & -> & Hk).
    apply wp_bind, wp_modify.
    pose proof (at_finish_block HashString bcLength known cid bid (fun _ => True) W (length params) b kind s1 s4
      HI1 Hh1 Hk Hat4) as Hat5. fold newCtx in Hat5. set (s5 := with_ctxs _ s4) in Hat5.
    pose proof (proj2 (proj2 (proj2 Hat5))) as Hst5. carry Hst5.
    pose proof (at_none_trans HashString bcLength known _ _ _ _ _ _ _ Hat1 Hlt Hat5) as Hat6.
    apply (run_emit Hat6 Hlt); [done|by intros n ->|solve_bcs|]. intros s6 Hat7 Hst7. carry Hst7. by split.
Qed.
End blocks.
