(* ===== verification/CompilerCalls.v ===== *)
(** * Rules for message sends *)
From S2P Require Import Prelude Interner VmSelectors CNumbers Ast AstWf Bytecode Compiler CompilerInv CompilerRules CompilerScope CompilerSteps CompilerExpr CompilerBlocks.
#[local] Set Default Proof Using "Type*".

(** ** The selectors treated specially *)
Section selectors.
Context (HashString : string -> Z) (vm : VMStrings) (it : StringInterner).
Context (Hvm : vm_started HashString vm it).

Lemma call_ok_name name sel n :
  call_ok it sel n = true -> sel = ordinal name -> name ∈ startup_strings -> n = selector_arity name.
Proof.
  intros Hok -> Hin. eapply (call_ok_startup it HashString vm Hvm _ _ (ordinal name)); [exact Hok|done|].
  unfold ordinal. destruct (list_find (name =.) startup_strings) as [[i x]|] eqn:Hf.
  - apply list_find_Some in Hf as (Hi & <- & _). exact Hi.
  - apply list_find_None in Hf. rewrite Forall_forall in Hf. by destruct (Hf name Hin).
Qed.

Lemma arity_of sel n names k :
  call_ok it sel n = true -> existsb (fun name => sel =? ordinal name) names = true ->
  forallb (fun name => bool_decide (name ∈ startup_strings) && (selector_arity name =? k)) names = true -> n = k.
Proof.
  intros Hok (name & Hin & Heq%Nat.eqb_eq)%existsb_exists Hall.
  rewrite forallb_forall in Hall. specialize (Hall name Hin).
  apply andb_true_iff in Hall as [Hs%bool_decide_eq_true Ha%Nat.eqb_eq].
  rewrite <-Ha. by eapply call_ok_name.
Qed.

(** An ordinal in a range of the start-up strings is one of them. *)
Lemma in_range (sel lo len : nat) :
  lo <= sel < lo + len -> exists i, i < len /\ sel = lo + i.
Proof. intros H. exists (sel - lo). lia. Qed.
End selectors.

Lemma wp_branch_inline {V} bcLength bcConstants E cid bc {A} (k : nat -> M (@CState V) A) R s :
  wp E (compile_branch_if bcLength bcConstants cid bc) (fun loc => wp E (k loc) R) s ->
  wp E (loc ← curLen cid; emit bcLength bcConstants cid bc ;; k loc) R s.
Proof.
  unfold compile_branch_if. intros H. apply wp_bind_inv in H. apply wp_bind. eapply wp_mono; [exact H|].
  intros loc s1 H1. apply wp_bind_inv in H1. apply wp_bind. eapply wp_mono; [exact H1|]. by intros [] s2.
Qed.

Section calls.
Context (HashString : string -> Z) {V : Type} (bcLength : Bytecode -> nat) (bcConstants : Bytecode -> list Cst).
Context `{!EncodingLaws bcLength} (known : nat) (env : CompileEnv).
Context (compile : nat -> nat -> AstExpr -> nat -> nat -> bool -> M (@CState V) unit).
Implicit Types s : @CState V.

Notation E := (compile_error (bool_decide (is_Some (m_superClass env)))).
Notation Inv := (Inv HashString bcLength known).
Notation at_ := (at_ HashString bcLength known).
#[local] Notation run_top H L := (CompilerSteps.run_top HashString bcLength known _ _ _ _ _ _ _ H L).
#[local] Notation run_emit H L := (CompilerSteps.run_emit HashString bcLength bcConstants known _ _ _ _ _ _ _ H L).
#[local] Notation run_branch H L := (CompilerSteps.run_branch HashString bcLength bcConstants known _ _ _ _ _ _ _ H L).
#[local] Notation run_setBranch H L := (CompilerSteps.run_setBranch HashString bcLength known _ _ _ _ _ _ _ H L).
#[local] Notation run_to_here H L := (CompilerSteps.run_to_here HashString bcLength known _ _ _ _ _ _ _ H L).
#[local] Notation run_curLen H L := (CompilerSteps.run_curLen HashString bcLength known _ _ _ _ _ _ _ H L).
#[local] Notation run H L := (CompilerSteps.run HashString bcLength known _ _ _ _ _ _ _ H L).
#[local] Notation good := (compile_spec HashString bcLength known env compile).
#[local] Notation good_stmt := (good_stmt HashString bcLength known env compile).

(** A receiver or argument: compiled as an expression, or inlined when it is a block. *)
Definition good_child (e : AstExpr) : Prop :=
  good e /\ match e with AstNestedBlock _ _ body => Forall good_stmt body | _ => True end.

Section operands.
Context (cid bid : nat) (W P : nat -> Prop) (s0 s : @CState V).
Context (Hat : at_ cid bid W P s0 s) (Hlt : cid < length (cs_ctxs s0)).

Lemma run_local_or_compile e slot (R : nat -> @CState V -> Prop) :
  good e -> slots_ok bid W slot s ->
  (forall n s', at_ cid bid W P s0 s' -> stab s s' -> topge cid n s' -> R n s') ->
  wp E (local_or_compile HashString env compile cid bid e slot) R s.
Proof.
  intros Hg Hs HR. apply wp_bind.
  eapply (run Hat Hlt); [apply wp_DetectTrivialLocalVarUse; [exact _|apply Hat|apply Hat]|].
  intros r s1 Hat1 Hst1 Hr. carry Hst1. destruct r as [n|]; [apply wp_ret; by apply HR|].
  apply wp_bind. eapply run_compile; [exact _|exact Hat1|exact Hlt|exact Hg|exact Hs|by eapply slots_ok_W|].
  intros s2 Hat2 Hst2 Ht. apply wp_ret. apply HR; [done|by etrans|done].
Qed.

Lemma run_operand_or_compile e slot (R : Operand * nat -> @CState V -> Prop) :
  good e -> slots_ok bid W slot s ->
  (forall o slot' s', at_ cid bid W P s0 s' -> stab s s' -> opnd cid o s' -> slots_ok bid W slot' s' ->
     slot <= slot' -> R (o, slot') s') ->
  wp E (operand_or_compile HashString env compile cid bid e slot) R s.
Proof.
  intros Hg Hs HR. apply wp_bind.
  eapply (run Hat Hlt); [apply wp_DetectTrivialLocalVarOrConstantUse; [exact _|apply Hat|apply Hat]|].
  intros r s1 Hat1 Hst1 Hr. carry Hst1. destruct r as [o|]; [apply wp_ret; by apply HR|].
  apply wp_bind. eapply run_compile; [exact _|exact Hat1|exact Hlt|exact Hg|exact Hs|by eapply slots_ok_W|].
  intros s2 Hat2 Hst2 Ht. carry Hst2. apply wp_ret.
  apply HR; [done|by etrans|done|by eapply slots_ok_up; [|exact Hs]; lia|lia].
Qed.

Lemma run_slot_or_compile e slot (R : nat * nat -> @CState V -> Prop) :
  good e -> slots_ok bid W slot s ->
  (forall l slot' s', at_ cid bid W P s0 s' -> stab s s' -> topge cid l s' -> slots_ok bid W slot' s' ->
     slot <= slot' -> R (l, slot') s') ->
  wp E (slot_or_compile HashString env compile cid bid e slot) R s.
Proof.
  intros Hg Hs HR. apply wp_bind.
  eapply (run Hat Hlt); [apply wp_DetectTrivialLocalVarUse; [exact _|apply Hat|apply Hat]|].
  intros r s1 Hat1 Hst1 Hr. carry Hst1. destruct r as [o|]; [apply wp_ret; by apply HR|].
  apply wp_bind. eapply run_compile; [exact _|exact Hat1|exact Hlt|exact Hg|exact Hs|by eapply slots_ok_W|].
  intros s2 Hat2 Hst2 Ht. carry Hst2. apply wp_ret.
  apply HR; [done|by etrans|done|by eapply slots_ok_up; [|exact Hs]; lia|lia].
Qed.

Lemma run_inline params locals body start dest discard (R : unit -> @CState V -> Prop) :
  good_child (AstNestedBlock params locals body) -> slots_ok bid W start s -> W dest ->
  (forall s', at_ cid bid W P s0 s' -> stab s s' -> topge cid dest s' -> R tt s') ->
  wp E (InlineBlock HashString bcLength bcConstants env compile cid bid params locals body start dest discard) R s.
Proof. intros [_ Hg] Hs HW HR. by eapply run_InlineBlock. Qed.

(** The branch over an inlined block is filled at its end. *)
Lemma run_finish_branch loc explicit o dest (R : unit -> @CState V -> Prop) :
  Inv s0 -> from cid loc s0 -> W dest -> topge cid dest s -> opnd cid o s ->
  (forall s', at_ cid bid W (fun p => p <> loc /\ P p) s0 s' -> stab s s' -> R tt s') ->
  wp E (finish_branch bcLength bcConstants cid loc explicit o dest) R s.
Proof.
  intros HI0 Hf HW Ht Ho HR. apply wp_if; intros _; [by apply (run_to_here Hat Hlt)|].
  apply wp_branch_inline, (run_branch Hat Hlt); [done|solve_bcs|].
  intros loc2 s1 Hat1 Hst1 Hf2 _. carry Hst1. apply wp_bind, (run_to_here Hat1 Hlt); [done|done|].
  intros s2 Hat2 Hst2. carry Hst2. apply wp_bind, (run_emit Hat2 Hlt); [done|by intros n ->|solve_bcs|].
  intros s3 Hat3 Hst3. apply (run_to_here Hat3 Hlt); [done|done|]. intros s4 Hat4 Hst4.
  apply HR; [|by do 3 (etrans; [eassumption|])].
  eapply at_weaken; [| |exact Hat4]; [done|]. intros p (Hne & Hne' & [Hp|Hp]); [by split|congruence].
Qed.
End operands.

(** ** A call being compiled *)
Context (it : StringInterner) (Hvm : vm_started HashString (e_vm env) it).

Section call.
Context (cid bid : nat) (W : nat -> Prop) (receiver : AstExpr) (sel : nat) (args : list AstExpr).
Context (clobber dest : nat).

Record call_at s : Prop := {
  ca_Inv : Inv s;
  ca_here : here cid bid s;
  ca_slots : slots_ok bid W clobber s;
  ca_dest : topge cid dest s;
  ca_frame : topge cid (clobber + x_numSlotsForStackFrameHeader + length args) s
}.

Context (Hreceiver : good_child receiver) (Hargs : Forall good_child args).
Context (Hsel : call_ok it sel (length args) = true) (HWdest : W dest).

Lemma call_at_stab s s' : call_at s -> at_ cid bid W none s s' -> call_at s'.
Proof using EncodingLaws0.
  intros [HI Hh Hs Hd Hf] (HI' & Hh' & _ & Hst). split; [done|done| | |].
  - eapply slots_ok_stab; [exact _|exact HI|exact Hh|exact Hst|exact Hs].
  - eapply topge_stab; [exact Hst|by eapply here_lt|done].
  - eapply topge_stab; [exact Hst|by eapply here_lt|done].
Qed.

(** Attempts in turn, each leaving the call as it found it. *)
Lemma wp_first_handled l s :
  (forall m, m ∈ l -> forall s', call_at s' -> wp E m (fun _ s2 => at_ cid bid W none s' s2) s') ->
  call_at s -> wp E (first_handled l) (fun _ s' => at_ cid bid W none s s') s.
Proof.
  intros Hl Hc. assert (Hat : at_ cid bid W none s s) by (apply at_refl; apply Hc).
  pose proof (here_lt _ _ _ (ca_here _ Hc)) as Hlt. revert Hl Hc Hat. generalize s at 1 3 5 as s1.
  induction l as [|m l IH]; intros s1 Hl Hc Hat; [by apply wp_ret|].
  apply wp_bind. eapply wp_mono; [apply (Hl m); [by left|exact Hc]|]. intros b s2 Hat2.
  pose proof (at_none_trans HashString bcLength known _ _ _ _ _ _ _ Hat Hlt Hat2) as Hat'.
  apply wp_if; intros _; [by apply wp_ret|]. apply IH; [|by eapply call_at_stab|done].
  intros m' Hm'. apply Hl. by right.
Qed.

Lemma nargs_of names k :
  existsb (fun name => sel =? ordinal name) names = true ->
  forallb (fun name => bool_decide (name ∈ startup_strings) && (selector_arity name =? k)) names = true ->
  length args = k.
Proof. by apply (arity_of HashString (e_vm env) it Hvm). Qed.

Lemma vm_strings : e_vm env = started_strings HashString.
Proof using Hvm. by destruct (vm_started_strings _ _ _ Hvm) as [-> _]. Qed.

Lemma wp_inline_if_one top s :
  call_at s ->
  wp E (inline_if_one HashString bcLength bcConstants env compile cid bid receiver sel args clobber dest top)
    (fun _ s' => at_ cid bid W none s s') s.
Proof.
  intros [HI Hh Hs Hd Hf]. pose proof (here_lt _ _ _ Hh) as Hlt.
  pose proof (at_refl _ _ _ cid bid W none s HI Hh) as Hat0. unfold inline_if_one.
  apply wp_if; intros Hm; [by apply wp_ret|]. apply negb_false_iff in Hm.
  apply wp_bind, run_check.
  { apply Nat.eqb_eq, (nargs_of ["ifTrue:"; "ifFalse:"; "ifNil:"; "ifNotNil:"]%string); [|reflexivity].
    rewrite vm_strings in Hm. etrans; [|exact Hm]. unfold existsb. by rewrite orb_false_r, !orb_assoc. }
  pose proof Hargs as Hgood. destruct args as [|a rest]; [by apply wp_ret|].
  destruct a as [| | | | | |params locals body| | | | |]; try by apply wp_ret.
  destruct params; [|by apply wp_ret]. apply Forall_cons in Hgood as [Hgood _].
  apply wp_bind, (run_local_or_compile cid bid W none s s Hat0 Hlt); [apply Hreceiver|exact Hs|].
  intros condSlot s1 Hat1 Hst1 Hcond. carry Hst1. apply wp_bind.
  apply wp_mono with (Q := fun _ s' => s' = s1).
  { apply wp_if; intros Hb; [by apply wp_ret|]. apply run_check; [|done].
    apply orb_false_iff in Hb as [[Hb1 Hb2]%orb_false_iff Hb3]. rewrite Hb1, Hb2, Hb3 in Hm. exact Hm. }
  intros _ ? ->. apply wp_bind, (run_branch Hat1 Hlt).
  { repeat case_match; intros n; simpl; intros; subst; done. }
  { repeat case_match; solve_bcs. }
  intros loc s2 Hat2 Hst2 Hfrom _. carry Hst2.
  apply wp_bind, (run_inline cid bid W _ s s2 Hat2 Hlt); [done|exact Hs|exact HWdest|].
  intros s3 Hat3 Hst3 _. carry Hst3.
  apply wp_bind, (run_finish_branch cid bid W _ s s3 Hat3 Hlt); [done|done|done|done|by case_match|].
  intros s4 Hat4 Hst4. apply wp_ret. eapply at_weaken; [| |exact Hat4]; [done|].
  by intros p [Hne [[]|Hp]].
Qed.

Lemma wp_inline_if_two top s :
  call_at s ->
  wp E (inline_if_two HashString bcLength bcConstants env compile cid bid receiver sel args clobber dest top)
    (fun _ s' => at_ cid bid W none s s') s.
Proof.
  intros [HI Hh Hs Hd Hf]. pose proof (here_lt _ _ _ Hh) as Hlt.
  pose proof (at_refl _ _ _ cid bid W none s HI Hh) as Hat0. unfold inline_if_two.
  apply wp_if; intros Hm; [by apply wp_ret|]. apply negb_false_iff in Hm.
  apply wp_bind, run_check.
  { apply Nat.eqb_eq, (nargs_of ["ifTrue:ifFalse:"; "ifFalse:ifTrue:"; "ifNil:ifNotNil:"; "ifNotNil:ifNil:"]%string);
      [|reflexivity].
    rewrite vm_strings in Hm. etrans; [|exact Hm]. unfold existsb. by rewrite orb_false_r, !orb_assoc. }
  pose proof Hargs as Hgood. destruct args as [|a rest]; [by apply wp_ret|].
  destruct a as [| | | | | |params1 locals1 body1| | | | |]; try by apply wp_ret.
  destruct params1; [|by apply wp_ret]. apply Forall_cons in Hgood as [Hgood1 Hgood].
  destruct rest as [|a rest]; [by apply wp_ret|].
  destruct a as [| | | | | |params2 locals2 body2| | | | |]; try by apply wp_ret.
  destruct params2; [|by apply wp_ret]. apply Forall_cons in Hgood as [Hgood2 _].
  apply wp_bind, (run_local_or_compile cid bid W none s s Hat0 Hlt); [apply Hreceiver|exact Hs|].
  intros condSlot s1 Hat1 Hst1 Hcond. carry Hst1.
  apply wp_bind, (run_branch Hat1 Hlt); [done|solve_bcs|]. intros loc s2 Hat2 Hst2 Hfrom _. carry Hst2.
  apply wp_bind, (run_inline cid bid W _ s s2 Hat2 Hlt); [done|exact Hs|exact HWdest|].
  intros s3 Hat3 Hst3 _. carry Hst3.
  apply wp_bind, (run_branch Hat3 Hlt); [done|solve_bcs|]. intros loc2 s4 Hat4 Hst4 Hfrom2 _. carry Hst4.
  apply wp_bind, (run_to_here Hat4 Hlt); [done|done|]. intros s5 Hat5 Hst5. carry Hst5.
  apply wp_bind, (run_inline cid bid W _ s s5 Hat5 Hlt); [done|exact Hs|exact HWdest|].
  intros s6 Hat6 Hst6 _. apply wp_bind, (run_to_here Hat6 Hlt); [done|done|]. intros s7 Hat7 _.
  apply wp_ret. eapply at_weaken; [| |exact Hat7]; [done|]. intros p (? & ? & [[[]|?]|?]); congruence.
Qed.

Lemma wp_inline_and_or top s :
  call_at s ->
  wp E (inline_and_or HashString bcLength bcConstants env compile cid bid receiver sel args clobber dest top)
    (fun _ s' => at_ cid bid W none s s') s.
Proof.
  intros [HI Hh Hs Hd Hf]. pose proof (here_lt _ _ _ Hh) as Hlt.
  pose proof (at_refl _ _ _ cid bid W none s HI Hh) as Hat0. unfold inline_and_or.
  apply wp_if; intros Hm; [by apply wp_ret|]. apply negb_false_iff in Hm.
  apply wp_bind, run_check.
  { apply Nat.eqb_eq, (nargs_of ["and:"; "or:"; "&&"; "||"]%string); [|reflexivity].
    rewrite vm_strings in Hm. etrans; [|exact Hm]. unfold existsb. by rewrite orb_false_r, !orb_assoc. }
  pose proof Hargs as Hgood. destruct args as [|a rest]; [by apply wp_ret|].
  destruct a as [| | | | | |params locals body| | | | |]; try by apply wp_ret.
  destruct params; [|by apply wp_ret]. apply Forall_cons in Hgood as [Hgood _].
  apply wp_bind, (run_local_or_compile cid bid W none s s Hat0 Hlt); [apply Hreceiver|exact Hs|].
  intros condSlot s1 Hat1 Hst1 Hcond. carry Hst1. apply wp_bind, (run_branch Hat1 Hlt).
  { repeat case_match; intros n; simpl; intros; subst; done. }
  { repeat case_match; solve_bcs. }
  intros loc s2 Hat2 Hst2 Hfrom _. carry Hst2.
  apply wp_bind, (run_inline cid bid W _ s s2 Hat2 Hlt); [done|exact Hs|exact HWdest|].
  intros s3 Hat3 Hst3 _. carry Hst3.
  apply wp_bind, (run_finish_branch cid bid W _ s s3 Hat3 Hlt); [done|done|done|done|done|].
  intros s4 Hat4 Hst4. apply wp_ret. eapply at_weaken; [| |exact Hat4]; [done|].
  by intros p [Hne [[]|Hp]].
Qed.

Lemma wp_inline_while top s :
  call_at s ->
  wp E (inline_while HashString bcLength bcConstants env compile cid bid receiver sel args clobber dest top)
    (fun _ s' => at_ cid bid W none s s') s.
Proof.
  intros [HI Hh Hs Hd Hf]. pose proof (here_lt _ _ _ Hh) as Hlt.
  pose proof (at_refl _ _ _ cid bid W none s HI Hh) as Hat0. unfold inline_while.
  apply wp_if; intros Hm; [by apply wp_ret|]. apply negb_false_iff in Hm.
  apply wp_bind, run_check.
  { apply Nat.eqb_eq, (nargs_of ["whileTrue:"; "whileFalse:"]%string); [|reflexivity].
    rewrite vm_strings in Hm. etrans; [|exact Hm]. unfold existsb. by rewrite orb_false_r, ?orb_assoc. }
  pose proof Hargs as Hgood. pose proof Hreceiver as Hgood0.
  destruct receiver as [| | | | | |params1 locals1 body1| | | | |]; try by apply wp_ret.
  destruct params1; [|by apply wp_ret].
  destruct args as [|a rest]; [by apply wp_ret|].
  destruct a as [| | | | | |params2 locals2 body2| | | | |]; try by apply wp_ret.
  destruct params2; [|by apply wp_ret]. apply Forall_cons in Hgood as [Hgood _].
  apply wp_bind, (run_curLen Hat0 Hlt). intros loopBegin Hbegin _.
  assert (HWc : W clobber) by (by eapply slots_ok_W).
  apply wp_bind, (run_inline cid bid W _ s s Hat0 Hlt); [done|exact Hs|exact HWc|].
  intros s1 Hat1 Hst1 Htc. carry Hst1.
  apply wp_bind, (run_branch Hat1 Hlt); [done|solve_bcs|]. intros loc s2 Hat2 Hst2 Hfrom _. carry Hst2.
  apply wp_bind, (run_inline cid bid W _ s s2 Hat2 Hlt); [done|exact Hs|exact HWc|].
  intros s3 Hat3 Hst3 _. carry Hst3.
  apply wp_bind, (run_branch Hat3 Hlt); [done|solve_bcs|]. intros loc2 s4 Hat4 Hst4 Hfrom2 _. carry Hst4.
  apply wp_bind, (run_setBranch Hat4 Hlt); [done|done|done|]. intros s5 Hat5 Hst5. carry Hst5.
  apply wp_bind, (run_to_here Hat5 Hlt); [done|done|]. intros s6 Hat6 Hst6. carry Hst6.
  assert (Hat7 : at_ cid bid W none s s6).
  { eapply at_weaken; [| |exact Hat6]; [done|]. intros p (? & ? & [[[]|?]|?]); congruence. }
  apply wp_bind, wp_if; intros _; [|by do 2 apply wp_ret].
  apply (run_emit Hat7 Hlt); [done|by intros n ->|solve_bcs|]. intros s8 Hat8 _. by apply wp_ret.
Qed.

Lemma wp_inline_to_do top s :
  call_at s ->
  wp E (inline_to_do HashString bcLength bcConstants env compile cid bid receiver sel args clobber dest top)
    (fun _ s' => at_ cid bid W none s s') s.
Proof.
  intros [HI Hh Hs Hd Hf]. pose proof (here_lt _ _ _ Hh) as Hlt.
  pose proof (at_refl _ _ _ cid bid W none s HI Hh) as Hat0. unfold inline_to_do.
  apply wp_if; intros Hm; [by apply wp_ret|]. apply negb_false_iff in Hm.
  assert (Hn : length args = 2).
  { apply (nargs_of ["to:do:"; "downTo:do:"]%string); [|reflexivity].
    rewrite vm_strings in Hm. etrans; [|exact Hm]. unfold existsb. by rewrite orb_false_r, ?orb_assoc. }
  apply wp_bind, run_check; [by apply Nat.eqb_eq|].
  pose proof Hargs as Hgood. destruct args as [|limit rest]; [by apply wp_ret|].
  apply Forall_cons in Hgood as [Hlimit Hgood]. destruct rest as [|a rest]; [by apply wp_ret|].
  destruct a as [| | | | | |params locals body| | | | |]; try by apply wp_ret.
  destruct params as [|param [|]]; [by apply wp_ret| |by apply wp_ret]. apply Forall_cons in Hgood as [Hgood _].
  unfold x_numSlotsForStackFrameHeader in Hf. rewrite Hn in Hf.
  assert (HW : forall n, clobber <= n -> W n) by (intros n Hn'; by eapply slots_ok_W).
  apply wp_bind. eapply run_compile; [exact _|exact Hat0|exact Hlt|apply Hreceiver|exact Hs|by apply HW|].
  intros s1 Hat1 Hst1 Htc. carry Hst1. apply wp_bind.
  apply wp_mono with (Q := fun _ s' => at_ cid bid W none s s' /\ stab s1 s').
  { apply wp_if; intros _; [|by apply wp_ret].
    apply (run_emit Hat1 Hlt); [done|intros n ->; apply HW; lia|solve_bcs|done]. }
  intros [] s2 [Hat2 Hst2]. carry Hst2.
  set (base := if negb top then clobber + 1 else clobber).
  assert (Hbase : clobber <= base <= clobber + 1) by (unfold base; case_match; lia).
  apply wp_bind. eapply (run_compile HashString bcLength known env compile cid bid W); [exact Hat2|exact Hlt|apply Hlimit|
    by eapply slots_ok_up; [|exact Hs]; lia|apply HW; lia|].
  intros s3 Hat3 Hst3 _. carry Hst3. apply wp_bind, (run_top Hat3 Hlt). intros s4 Hat4 Hst4 Ht2. carry Hst4.
  apply wp_bind, (run_branch Hat4 Hlt); [intros n ->; apply HW; lia|solve_bcs|].
  intros loc s5 Hat5 Hst5 Hfrom _. carry Hst5. apply wp_bind, (run_curLen Hat5 Hlt). intros bodyStart Hbody _.
  apply wp_bind, (run_inline cid bid W _ s s5 Hat5 Hlt); [done|by eapply slots_ok_up; [|exact Hs]; lia|apply HW; lia|].
  intros s6 Hat6 Hst6 _. carry Hst6.
  apply wp_bind, (run_branch Hat6 Hlt); [intros n [->| ->]; apply HW; lia|solve_bcs|].
  intros loc2 s7 Hat7 Hst7 Hfrom2 _. carry Hst7.
  apply wp_bind, (run_setBranch Hat7 Hlt); [done|done|done|]. intros s8 Hat8 Hst8. carry Hst8.
  apply wp_bind, (run_to_here Hat8 Hlt); [done|done|]. intros s9 Hat9 Hst9. carry Hst9.
  assert (Hat10 : at_ cid bid W none s s9).
  { eapply at_weaken; [| |exact Hat9]; [done|]. intros p (? & ? & [[[]|?]|?]); congruence. }
  apply wp_bind, wp_if; intros _; [|by do 2 apply wp_ret].
  apply (run_emit Hat10 Hlt); [done|by intros n ->|solve_bcs|]. intros s11 Hat11 _. by apply wp_ret.
Qed.

Lemma wp_inline_control_flow top s :
  call_at s ->
  wp E (inline_control_flow HashString bcLength bcConstants env compile cid bid receiver sel args clobber dest top)
    (fun _ s' => at_ cid bid W none s s') s.
Proof.
  intros Hc. apply wp_first_handled; [|done]. intros m Hm s' Hc'.
  repeat (apply elem_of_cons in Hm as [->|Hm]); [..|by apply elem_of_nil in Hm].
  - by apply wp_inline_if_one.
  - by apply wp_inline_if_two.
  - by apply wp_inline_and_or.
  - by apply wp_inline_while.
  - by apply wp_inline_to_do.
Qed.

(** ** Operators *)
Lemma arithmetic_selector :
  IsSelectorArithmeticOperator (e_vm env) sel = true ->
  length args = 1 /\ exists op, select_operator sel (arithmetic_operators (e_vm env)) = Some op.
Proof.
  intros H. rewrite vm_strings in *. apply andb_true_iff in H as [H1%Z.leb_le H2%Z.leb_le].
  change (m_id (v_strOperatorPlus (started_strings HashString))) with 3%Z in H1.
  change (m_id (v_strOperatorEqualEqual (started_strings HashString))) with 20%Z in H2.
  split.
  - apply (nargs_of arithmetic_selectors); [|reflexivity].
    destruct (in_range sel 3 18) as (i & Hi & ->); [lia|].
    do 18 (destruct i as [|i]; [reflexivity|]). lia.
  - destruct (in_range sel 3 18) as (i & Hi & ->); [lia|].
    do 18 (destruct i as [|i]; [by eexists|]). lia.
Qed.

Lemma run_resolves_to_constant P e s0 s (R : bool -> @CState V -> Prop) :
  at_ cid bid W P s0 s -> cid < length (cs_ctxs s0) ->
  (forall r s', at_ cid bid W P s0 s' -> stab s s' -> R r s') ->
  wp E (resolves_to_constant HashString env bid e) R s.
Proof using EncodingLaws0.
  intros Hat Hlt HR. destruct e; try (apply wp_ret; by apply HR).
  eapply run_IsVariableResolvedTo; [exact _|exact Hat|exact Hlt|]. intros r s' H1 H2 _. by apply HR.
Qed.

Lemma run_skip_arithmetic P e1 e2 s0 s (R : bool -> @CState V -> Prop) :
  at_ cid bid W P s0 s -> cid < length (cs_ctxs s0) ->
  (forall r s', at_ cid bid W P s0 s' -> stab s s' -> R r s') ->
  wp E (skip_arithmetic HashString env bid e1 e2 sel) R s.
Proof using EncodingLaws0.
  intros Hat Hlt HR. apply wp_if; intros _; [apply wp_ret; by apply HR|].
  apply wp_if; intros _; [apply wp_ret; by apply HR|].
  apply wp_bind. eapply run_resolves_to_constant; [exact Hat|exact Hlt|]. intros a s1 Hat1 Hst1.
  apply wp_bind. eapply run_resolves_to_constant; [exact Hat1|exact Hlt|]. intros b s2 Hat2 Hst2.
  apply wp_ret. apply HR; [done|by etrans].
Qed.

Lemma wp_arithmetic_call s :
  IsSelectorArithmeticOperator (e_vm env) sel = true -> call_at s ->
  wp E (arithmetic_call HashString bcLength bcConstants env compile cid bid receiver sel args clobber dest)
    (fun _ s' => at_ cid bid W none s s') s.
Proof.
  intros Hm [HI Hh Hs Hd Hf]. pose proof (here_lt _ _ _ Hh) as Hlt.
  pose proof (at_refl _ _ _ cid bid W none s HI Hh) as Hat0.
  destruct (arithmetic_selector Hm) as (Hn & op & Hop). unfold arithmetic_call. cbv zeta.
  apply wp_bind, run_check; [by apply Nat.eqb_eq|]. pose proof Hargs as Hgood.
  destruct args as [|arg rest]; [done|]. apply Forall_cons in Hgood as [Hgood _].
  apply wp_bind. eapply run_skip_arithmetic; [exact Hat0|exact Hlt|]. intros skip s1 Hat1 Hst1. carry Hst1.
  apply wp_if; intros _; [by apply wp_ret|].
  apply wp_bind, (run_operand_or_compile cid bid W none s s1 Hat1 Hlt); [apply Hreceiver|exact Hs|].
  intros l slot1 s2 Hat2 Hst2 Hl Hs2 Hle1. carry Hst2.
  apply wp_bind, (run_operand_or_compile cid bid W none s s2 Hat2 Hlt); [apply Hgood|exact Hs2|].
  intros r slot2 s3 Hat3 Hst3 Hr Hs3 Hle2. carry Hst3. cbn [fst snd].
  apply wp_bind, (run_top Hat3 Hlt). intros s4 Hat4 Hst4 _. carry Hst4. rewrite Hop.
  apply wp_bind, (run_emit Hat4 Hlt); [done|by intros n ->|solve_bcs|]. intros s5 Hat5 _. by apply wp_ret.
Qed.

Lemma wp_other_binary_call s :
  call_at s ->
  wp E (other_binary_call HashString bcLength bcConstants env compile cid bid receiver sel args clobber dest)
    (fun _ s' => at_ cid bid W none s s') s.
Proof.
  intros [HI Hh Hs Hd Hf]. pose proof (here_lt _ _ _ Hh) as Hlt.
  pose proof (at_refl _ _ _ cid bid W none s HI Hh) as Hat0. unfold other_binary_call.
  pose proof Hargs as Hgood. destruct args as [|arg [|]]; try by apply wp_ret.
  apply Forall_cons in Hgood as [Hgood _].
  destruct (select_operator sel (other_binary_operators (e_vm env))) as [op|]; [|by apply wp_ret].
  apply wp_bind, (run_slot_or_compile cid bid W none s s Hat0 Hlt); [apply Hreceiver|exact Hs|].
  intros l slot1 s1 Hat1 Hst1 Hl Hs1 Hle1. carry Hst1. apply wp_bind. simpl.
  assert (Hend : forall o slot2 s2, at_ cid bid W none s s2 -> stab s1 s2 -> opnd cid o s2 ->
    wp E (UpdateTopSlot cid slot2 ;; emit bcLength bcConstants cid (BcBinaryOperator op (OLocal l) o dest) ;; mret true)
      (fun _ s' => at_ cid bid W none s s') s2).
  { intros o slot2 s2 Hat2 Hst2 Ho. carry Hst2. apply wp_bind, (run_top Hat2 Hlt). intros s3 Hat3 Hst3 _. carry Hst3.
    apply wp_bind, (run_emit Hat3 Hlt); [done|by intros n ->|solve_bcs|]. intros s4 Hat4 _. by apply wp_ret. }
  apply wp_if; intros _.
  - apply (run_operand_or_compile cid bid W none s s1 Hat1 Hlt); [apply Hgood|exact Hs1|].
    intros o slot2 s2 Hat2 Hst2 Ho _ _. by apply Hend.
  - apply wp_bind, (run_slot_or_compile cid bid W none s s1 Hat1 Hlt); [apply Hgood|exact Hs1|].
    intros r slot2 s2 Hat2 Hst2 Hr _ _. apply wp_ret. by apply Hend.
Qed.

Lemma unary_selector :
  IsSelectorSpecializableUnaryOperator (e_vm env) sel = true ->
  exists op, select_operator sel (unary_operators (e_vm env)) = Some op.
Proof using Hvm.
  clear Hsel Hargs. intros H. rewrite vm_strings in *. apply andb_true_iff in H as [H1%Z.leb_le H2%Z.leb_le].
  change (m_id (v_strOperatorAbs (started_strings HashString))) with 40%Z in H1.
  change (m_id (v_strOperatorLength (started_strings HashString))) with 46%Z in H2.
  destruct (in_range sel 40 7) as (i & Hi & ->); [lia|].
  do 7 (destruct i as [|i]; [by eexists|]). lia.
Qed.

Lemma wp_unary_operator_call s :
  call_at s ->
  wp E (unary_operator_call HashString bcLength bcConstants env compile cid bid receiver sel args clobber dest)
    (fun _ s' => at_ cid bid W none s s') s.
Proof.
  intros [HI Hh Hs Hd Hf]. pose proof (here_lt _ _ _ Hh) as Hlt.
  pose proof (at_refl _ _ _ cid bid W none s HI Hh) as Hat0. unfold unary_operator_call.
  destruct args; [|by apply wp_ret]. apply wp_if; intros Hm; [by apply wp_ret|]. apply negb_false_iff in Hm.
  destruct (unary_selector Hm) as [op Hop].
  apply wp_bind, (run_local_or_compile cid bid W none s s Hat0 Hlt); [apply Hreceiver|exact Hs|].
  intros l s1 Hat1 Hst1 Hl. carry Hst1. cbv zeta. rewrite Hop.
  apply wp_bind, (run_emit Hat1 Hlt); [done|by intros n ->|solve_bcs|]. intros s2 Hat2 _. by apply wp_ret.
Qed.

Lemma wp_ternary_call s :
  call_at s ->
  wp E (ternary_call HashString bcLength bcConstants env compile cid bid receiver sel args clobber dest)
    (fun _ s' => at_ cid bid W none s s') s.
Proof.
  intros [HI Hh Hs Hd Hf]. pose proof (here_lt _ _ _ Hh) as Hlt.
  pose proof (at_refl _ _ _ cid bid W none s HI Hh) as Hat0. unfold ternary_call.
  pose proof Hargs as Hgood. destruct args as [|e1 [|e2 [|]]]; try by apply wp_ret.
  apply Forall_cons in Hgood as [Hgood1 Hgood]. apply Forall_cons in Hgood as [Hgood2 _].
  destruct (select_operator sel (ternary_operators (e_vm env))) as [op|]; [|by apply wp_ret].
  apply wp_bind, (run_slot_or_compile cid bid W none s s Hat0 Hlt); [apply Hreceiver|exact Hs|].
  intros l slot1 s1 Hat1 Hst1 Hl Hs1 _. carry Hst1. simpl.
  apply wp_bind, (run_operand_or_compile cid bid W none s s1 Hat1 Hlt); [apply Hgood1|exact Hs1|].
  intros o1 slot2 s2 Hat2 Hst2 Ho1 Hs2 _. carry Hst2.
  apply wp_bind, (run_operand_or_compile cid bid W none s s2 Hat2 Hlt); [apply Hgood2|exact Hs2|].
  intros o2 slot3 s3 Hat3 Hst3 Ho2 Hs3 _. carry Hst3. cbn [fst snd].
  apply wp_bind, (run_top Hat3 Hlt). intros s4 Hat4 Hst4 _. carry Hst4.
  apply wp_bind, (run_emit Hat4 Hlt); [done|by intros n ->|solve_bcs|]. intros s5 Hat5 _. by apply wp_ret.
Qed.

Lemma wp_specialized_call top s :
  call_at s ->
  wp E (specialized_call HashString bcLength bcConstants env compile cid bid receiver sel args clobber dest top)
    (fun _ s' => at_ cid bid W none s s') s.
Proof.
  intros Hc. apply wp_first_handled; [|done]. intros m Hm s' Hc'.
  assert (Hno : wp E (mret false) (fun _ s2 => at_ cid bid W none s' s2) s')
    by (apply wp_ret, at_refl; apply Hc').
  repeat (apply elem_of_cons in Hm as [->|Hm]); [..|by apply elem_of_nil in Hm].
  - apply wp_if; intros _; [by apply wp_inline_control_flow|done].
  - apply wp_if; intros Ha; [by apply wp_arithmetic_call|done].
  - by apply wp_other_binary_call.
  - by apply wp_unary_operator_call.
  - by apply wp_ternary_call.
Qed.

(** ** The ordinary call *)
Lemma run_selector_constant s (R : Cst -> @CState V -> Prop) :
  call_at s -> known = length (m_list it) -> (forall c, R c s) -> wp E (selector_constant sel) R s.
Proof using Hsel.
  intros Hc Hk HR. unfold wp, selector_constant.
  assert (Hlt : sel < length (m_list (g_interner (cs_globals s)))).
  { pose proof (inv_known _ _ _ _ (ca_Inv _ Hc)) as Hk'. rewrite Hk in Hk'.
    unfold call_ok, Get in Hsel. destruct (m_list it !! sel) as [p|] eqn:Hl; [|done].
    apply lookup_lt_Some in Hl. lia. }
  destruct (lookup_lt_is_Some_2 _ _ Hlt) as [[name h] Hl]. rewrite (GetHash_lookup _ _ _ _ Hl). apply HR.
Qed.

Lemma wp_compile_args slot l s0 s :
  at_ cid bid W none s0 s -> cid < length (cs_ctxs s0) -> Forall good_child l -> slots_ok bid W slot s ->
  wp E (compile_args compile cid bid l slot) (fun _ s' => at_ cid bid W none s0 s' /\ stab s s') s.
Proof using EncodingLaws0.
  intros Hat Hlt Hg. revert slot s Hat. induction Hg as [|e l He _ IH]; intros slot s Hat Hs; [by apply wp_ret|].
  apply wp_bind. eapply run_compile; [exact _|exact Hat|exact Hlt|apply He|exact Hs|by eapply slots_ok_W|].
  intros s1 Hat1 Hst1 _. carry Hst1. eapply wp_mono; [apply IH; [done|]|].
  - eapply slots_ok_up; [|exact Hs]. lia.
  - intros [] s2 [Hat2 Hst2]. split; [done|by etrans].
Qed.

Lemma wp_general_call s :
  call_at s -> known = length (m_list it) ->
  wp E (general_call bcLength bcConstants env compile cid bid receiver sel args clobber dest)
    (fun _ s' => at_ cid bid W none s s') s.
Proof.
  intros Hc Hk. pose proof Hc as [HI Hh Hs Hd Hf]. pose proof (here_lt _ _ _ Hh) as Hlt.
  pose proof (at_refl _ _ _ cid bid W none s HI Hh) as Hat0.
  assert (Hup : forall n s', clobber <= n -> slots_ok bid W clobber s' -> slots_ok bid W n s')
    by (intros; by eapply slots_ok_up).
  unfold general_call. set (argBase := clobber + x_numSlotsForStackFrameHeader). apply wp_bind.
  apply wp_mono with (Q := fun _ s' => at_ cid bid W none s s').
  { apply wp_if; intros _; [|by apply wp_ret].
    eapply run_compile; [exact _|exact Hat0|exact Hlt|apply Hreceiver|apply Hup; [lia|exact Hs]| |done].
    eapply slots_ok_W; [exact Hs|lia]. }
  intros [] s1 Hat1. pose proof (call_at_stab _ _ Hc Hat1) as [_ _ Hs1 Hd1 Hf1].
  apply wp_bind. eapply wp_mono; [apply (wp_compile_args (argBase + 1) args s s1 Hat1 Hlt Hargs)|].
  { apply Hup; [lia|exact Hs1]. }
  intros [] s2 [Hat2 Hst2]. pose proof (call_at_stab _ _ Hc Hat2) as Hc2. apply wp_bind.
  apply run_selector_constant; [done|done|]. intros meth. destruct Hc2 as [_ _ Hs2 Hd2 Hf2].
  assert (HWc : forall n, clobber <= n \/ n = dest -> W n).
  { intros n [Hn| ->]; [by eapply slots_ok_W|done]. }
  assert (Hend : forall bc, branch_operand bc = None -> (forall n, bc_writes bc n -> W n) -> bcs cid bid bc s2 ->
    wp E (n ← uint16 (length args + 1); emit bcLength bcConstants cid bc) (fun _ s' => at_ cid bid W none s s') s2).
  { intros bc Hbr HW Hbcs. apply wp_bind, wp_uint16, (run_emit Hat2 Hlt); done. }
  assert (Hb : forall bc, branch_operand bc = None -> (forall n, bc_writes bc n -> clobber <= n \/ n = dest) ->
    bcs cid bid bc s2 -> wp E (n ← uint16 (length args + 1); emit bcLength bcConstants cid bc)
      (fun _ s' => at_ cid bid W none s s') s2).
  { intros bc Hbr HW Hbcs. apply Hend; [done| |done]. intros n Hn. by apply HWc, HW. }
  unfold x_numSlotsForStackFrameHeader in *. destruct (receiver_kind env receiver).
  - apply wp_bind, wp_uint16, (run_emit Hat2 Hlt); [done|exact HWc|solve_bcs|done].
  - apply wp_bind, wp_uint16, (run_emit Hat2 Hlt); [done|exact HWc|solve_bcs|done].
  - destruct (m_superClass env) as [cls|] eqn:Hsuper.
    + apply wp_bind, wp_uint16, (run_emit Hat2 Hlt); [done|exact HWc|solve_bcs|done].
    + apply wp_fail. right. right. right. done.
Qed.
End call.

Lemma wp_CompileSOMCall cid bid (W : nat -> Prop) receiver sel args clobber dest top s :
  known = length (m_list it) ->
  good_child receiver -> Forall good_child args -> call_ok it sel (length args) = true ->
  Inv s -> here cid bid s -> slots_ok bid W clobber s -> W dest ->
  wp E (CompileSOMCall HashString bcLength bcConstants env compile cid bid receiver sel args clobber dest top)
    (fun _ s' => at_ cid bid W none s s' /\ topge cid dest s') s.
Proof.
  intros Hk Hrcv Hargs Hsel HI Hh Hs HW. pose proof (here_lt _ _ _ Hh) as Hlt.
  pose proof (at_refl _ _ _ cid bid W none s HI Hh) as Hat0.
  apply wp_bind, (run_top Hat0 Hlt). intros s1 Hat1 Hst1 Hd. carry Hst1.
  apply wp_bind, (run_top Hat1 Hlt). intros s2 Hat2 Hst2 Hf. carry Hst2.
  assert (Hc : call_at cid bid W args clobber dest s2) by (split; [apply Hat2|apply Hat2|done..]).
  apply wp_bind. apply wp_mono with (Q := fun _ s' => at_ cid bid W none s2 s').
  { apply wp_if; intros _; [apply wp_ret, at_refl; apply Hat2|]. by apply wp_specialized_call. }
  intros handled s3 Hat3. pose proof (call_at_stab _ _ _ _ _ _ _ _ Hc Hat3) as Hc3.
  pose proof (at_none_trans HashString bcLength known _ _ _ _ _ _ _ Hat2 Hlt Hat3) as Hat3'.
  apply wp_if; intros _; [apply wp_ret; split; [done|apply Hc3]|].
  eapply wp_mono; [by apply wp_general_call|]. intros [] s4 Hat4. split.
  - eapply at_none_trans; [exact _|exact Hat3'|exact Hlt|exact Hat4].
  - apply (call_at_stab _ _ _ _ _ _ _ _ Hc3 Hat4).
Qed.
End calls.
