(* ===== verification/CompilerSafe.v ===== *)
(** * The compiler is safe

    The induction over the syntax tree that puts the rules together, and the
    properties of the compilation of expressions. *)
From S2P Require Import Prelude Interner VmSelectors CNumbers Ast AstWf Bytecode Compiler CompilerInv CompilerRules CompilerScope CompilerSteps CompilerExpr CompilerBlocks CompilerCalls.
#[local] Set Default Proof Using "Type*".

Section safe.
Context (HashString : string -> Z) {V : Type} (bcLength : Bytecode -> nat) (bcConstants : Bytecode -> list Cst).
Context `{!EncodingLaws bcLength} (env : CompileEnv).
Context (it : StringInterner) (Hvm : vm_started HashString (e_vm env) it).
Implicit Types s : @CState V.

Notation known := (length (m_list it)).
Notation compile := (compile HashString bcLength bcConstants).
Notation good f := (compile_spec (V:=V) HashString bcLength known env (compile f env)).
Notation good_stmt f := (good_stmt (V:=V) HashString bcLength known env (compile f env)).
Notation good_child f := (good_child (V:=V) HashString bcLength known env (compile f env)).

Lemma ast_size_block ps ls body : ast_size (AstNestedBlock ps ls body) = S (ast_list_size body).
Proof. reflexivity. Qed.
Lemma ast_size_keyword sel e es : ast_size (AstKeywordCall sel e es) = S (ast_size e + ast_list_size es).
Proof. reflexivity. Qed.

Section step.
Context (fuel : nat) (IH : forall e, wf_expr it e = true -> ast_size e <= fuel -> good fuel e).

Lemma good_stmts body :
  wf_body it body = true -> ast_list_size body <= fuel -> Forall (good_stmt fuel) body.
Proof.
  induction body as [|e body IHb]; intros Hwf Hsz; [constructor|].
  apply andb_true_iff in Hwf as [He Hwf]. simpl in Hsz.
  constructor; [|apply IHb; [done|lia]].
  destruct e; try (apply IH; [exact He|lia]).
  - split; apply IH; simpl in *; try done; lia.
  - apply IH; simpl in *; [done|lia].
Qed.

Lemma good_children e : wf_expr it e = true -> ast_size e <= fuel -> good_child fuel e.
Proof.
  intros Hwf Hsz. split; [by apply IH|]. destruct e; try done.
  rewrite wf_block in Hwf. rewrite ast_size_block in Hsz. apply good_stmts; [done|lia].
Qed.

Lemma good_args args :
  forallb (wf_expr it) args = true -> ast_list_size args <= fuel -> Forall (good_child fuel) args.
Proof.
  induction args as [|e args IHa]; intros Hwf Hsz; [constructor|].
  apply andb_true_iff in Hwf as [He Hwf]. simpl in Hsz.
  constructor; [apply good_children; [done|lia]|apply IHa; [done|lia]].
Qed.

Lemma compile_step e : wf_expr it e = true -> ast_size e <= S fuel -> good (S fuel) e.
Proof.
  intros Hwf Hsz cid bid W clobber dest top s HI Hh Hs HW. cbn [Compiler.compile].
  destruct e; cbn [CompileExpression_body].
  1-5: by apply wp_CompileAstLiteral.
  - by apply wp_CompileVarUse.
  - rewrite wf_block in Hwf. rewrite ast_size_block in Hsz.
    apply wp_CompileNewBlock; [exact _|done|done|apply good_stmts; [done|lia]|done].
  - apply wp_CompileAssignation; [exact _|done|done|apply IH; simpl in *; [done|lia]|done|done].
  - done.
  - simpl in Hwf, Hsz. apply andb_true_iff in Hwf as [Hc Hr].
    eapply wp_CompileSOMCall; [exact _|exact Hvm|done|apply good_children; [done|lia]|constructor|done..].
  - simpl in Hwf, Hsz. apply andb_true_iff in Hwf as [[Hc Hr]%andb_true_iff Ha].
    eapply wp_CompileSOMCall; [exact _|exact Hvm|done|apply good_children; [done|lia]| |done..].
    constructor; [apply good_children; [done|lia]|constructor].
  - rewrite wf_keyword in Hwf. rewrite ast_size_keyword in Hsz.
    apply andb_true_iff in Hwf as [[Hc Hr]%andb_true_iff Ha].
    eapply wp_CompileSOMCall; [exact _|exact Hvm|done|apply good_children; [done|lia]|apply good_args; [done|lia]|done..].
Qed.
End step.

(** With the size of the tree as fuel, the compilation of an expression does what
    [compile_spec] says. *)
Lemma compile_good fuel e : wf_expr it e = true -> ast_size e <= fuel -> good fuel e.
Proof.
  revert e. induction fuel as [|fuel IH]; intros e Hwf Hsz; [pose proof (ast_size_pos e); lia|].
  by apply compile_step.
Qed.
End safe.
