(* ===== verification/CompilerFinal.v ===== *)
(** * The final pass over the code blocks of a method

    Upvalue metadata, frame sizes, and the upvalue reads that turn out to be of
    immutable upvalues ([finalize_context]), then the checks of the test build. *)
From S2P Require Import Prelude Interner VmSelectors CNumbers Ast AstWf Bytecode Compiler CompilerInv CompilerRules CompilerScope.
#[local] Set Default Proof Using "Type*".

Section final.
Context {V : Type} (bcLength : Bytecode -> nat) `{!EncodingLaws bcLength} (hasSuper : bool).
Implicit Types s : @CState V.

Notation E := (compile_error hasSuper).

(** ** Replacing a bytecode by one of the same length *)
Lemma laid_out_ge pos l fin e : laid_out bcLength pos l fin -> e ∈ l -> pos <= e.1.
Proof.
  revert pos. induction l as [|[p bc] l IH]; simpl; intros pos; [set_solver|].
  intros [-> Hl] [->|Hin]%elem_of_cons; [done|]. specialize (IH _ Hl Hin). lia.
Qed.

Lemma laid_out_find pos l fin p bc :
  laid_out bcLength pos l fin -> (p, bc) ∈ l -> List.find (fun e => e.1 =? p) l = Some (p, bc).
Proof.
  revert pos. induction l as [|[p' bc'] l IH]; simpl; intros pos; [set_solver|].
  intros [-> Hl] [[= <- <-]|Hin]%elem_of_cons; [by rewrite Nat.eqb_refl|].
  pose proof (laid_out_ge _ _ _ _ Hl Hin) as Hge. simpl in Hge. pose proof (bcLength_pos bc').
  rewrite (proj2 (Nat.eqb_neq _ _)) by lia. by eapply IH.
Qed.

Lemma bytecode_at_in p bc b : builder_wf bcLength b -> (p, bc) ∈ code b -> bytecode_at p b = Some bc.
Proof. intros Hwf Hin. unfold bytecode_at. by erewrite laid_out_find. Qed.

Lemma laid_out_unique pos l fin p bc bc' :
  laid_out bcLength pos l fin -> (p, bc) ∈ l -> (p, bc') ∈ l -> bc = bc'.
Proof.
  intros Hl H1 H2. pose proof (laid_out_find _ _ _ _ _ Hl H1) as E1.
  rewrite (laid_out_find _ _ _ _ _ Hl H2) in E1. congruence.
Qed.

Lemma laid_out_replace pos l fin p bc :
  (forall bc0, (p, bc0) ∈ l -> bcLength bc = bcLength bc0) -> laid_out bcLength pos l fin ->
  laid_out bcLength pos ((fun e : nat * Bytecode => if e.1 =? p then (e.1, bc) else e) <$> l) fin.
Proof.
  revert pos. induction l as [|[p' bc'] l IH]; simpl; intros pos Hlen; [done|]. intros [-> Hl].
  destruct (Nat.eqb_spec pos p) as [->|Hne]; simpl; (split; [done|]).
  - rewrite (Hlen bc') by (by left). apply IH; [|done]. intros bc0 H0. apply Hlen. by right.
  - apply IH; [|done]. intros bc0 H0. apply Hlen. by right.
Qed.

(** What the final pass keeps true of a context's code. *)
Record code_ok (W : nat -> Prop) (top nuv : nat) (offsets : list nat) (b : BytecodeBuilder) : Prop := {
  ck_wf : builder_wf bcLength b;
  ck_code : Forall (fun e => bc_ok top nuv e.2) (code b);
  ck_writes : Forall (fun e => forall n, bc_writes e.2 n -> W n) (code b);
  ck_branch : Forall (branch_ok b) (code b);
  ck_gets : Forall (fun off => exists ord out, (off, BcUpvalueGetMutable ord out) ∈ code b) offsets;
  ck_nodup : NoDup offsets
}.

Lemma code_ok_replace W top nuv off offsets ord out b :
  code_ok W top nuv (off :: offsets) b -> (off, BcUpvalueGetMutable ord out) ∈ code b ->
  code_ok W top nuv offsets (ReplaceBytecode off (BcUpvalueGetImmutable ord out) b).
Proof.
  intros [Hwf Hc Hw Hbr Hg Hn] Hin. apply NoDup_cons in Hn as [Hni Hn]. apply Forall_cons in Hg as [_ Hg].
  assert (Hb : forall q, boundary (ReplaceBytecode off (BcUpvalueGetImmutable ord out) b) q <-> boundary b q)
    by (intros; apply boundary_at_position).
  assert (Hop : bc_ok top nuv (BcUpvalueGetMutable ord out)) by (rewrite Forall_forall in Hc; exact (Hc _ Hin)).
  split; try done.
  - unfold builder_wf. simpl. apply laid_out_replace; [|exact Hwf]. intros bc0 H0. rewrite bcLength_upvalue.
    f_equal. eapply laid_out_unique; [exact Hwf|exact Hin|exact H0].
  - simpl. apply Forall_fmap. eapply Forall_impl; [exact Hc|]. intros [p bc]. simpl.
    destruct (p =? off); [|done]. intros _. exact Hop.
  - simpl. apply Forall_fmap. apply Forall_forall. intros [p bc] Hp. rewrite Forall_forall in Hw. simpl.
    destruct (p =? off); [exact (Hw _ Hin)|exact (Hw _ Hp)].
  - simpl. apply Forall_fmap. eapply Forall_impl; [exact Hbr|]. intros [p bc]. simpl.
    destruct (p =? off); simpl; [done|]. apply branch_ok_mono. intros q. apply Hb.
  - apply Forall_forall. intros o Hino. rewrite Forall_forall in Hg.
    destruct (Hg o Hino) as (ord' & out' & Ho). exists ord', out'. simpl. apply list_elem_of_fmap.
    exists (o, BcUpvalueGetMutable ord' out'). split; [|done]. simpl.
    rewrite (proj2 (Nat.eqb_neq _ _)); [done|]. intros ->. done.
Qed.

Lemma code_ok_tail W top nuv off offsets b :
  code_ok W top nuv (off :: offsets) b -> code_ok W top nuv offsets b.
Proof.
  intros [Hwf Hc Hw Hbr Hg Hn]. apply NoDup_cons in Hn as [_ Hn]. by apply Forall_cons in Hg as [_ Hg].
Qed.

(** ** Upvalue metadata *)

(** Where an upvalue is found in the enclosing function. *)
Definition uv_place (n : nat) (uv : UVInfo) (m : UpvalueMetadata) : Prop :=
  if n =? 0 then uv_isParentLocal m = true /\ uv_slot m = 0
  else uv_isParentLocal m = m_isParentLocal uv /\
       (if m_isParentLocal uv then m_parentLocalSlot uv else m_parentUpvalueOrd uv) = Some (uv_slot m).

Definition uv_readable s (uv : UVInfo) : Prop :=
  exists v, m_varInfo uv = Some v /\ is_Some (cs_vars s !! v) /\
    is_Some (if m_isParentLocal uv then m_parentLocalSlot uv else m_parentUpvalueOrd uv).

Lemma wp_all_upvalue_metadata kind i uvs s :
  (uvs <> [] -> i = 0 -> is_block_kind kind = true) ->
  (forall n uv, uvs !! n = Some uv -> 0 < i + n -> uv_readable s uv) ->
  wp E (all_upvalue_metadata kind i uvs)
    (fun ms s' => s' = s /\ length ms = length uvs /\
       forall n uv m, uvs !! n = Some uv -> ms !! n = Some m -> uv_place (i + n) uv m) s.
Proof.
  revert i. induction uvs as [|uv uvs IH]; intros i Hk Hr; [by apply wp_ret|].
  apply wp_bind. apply wp_mono with (Q := fun m s' => s' = s /\ uv_place i uv m).
  - unfold upvalue_metadata, uv_place. destruct (Nat.eqb_spec i 0) as [->|Hne].
    + apply wp_bind, wp_check; [intros _; by apply wp_ret|]. by rewrite Hk.
    + destruct (Hr 0 uv eq_refl ltac:(lia)) as (v & Hv & [x Hx] & [slot Hs]). rewrite Hv.
      apply wp_bind. eapply wp_lookup_or; [exact Hx|]. rewrite Hs. by apply wp_ret.
  - intros m ? [-> Hm]. apply wp_bind. eapply wp_mono; [apply (IH (S i))|].
    + lia.
    + intros n uv' Hn _. apply (Hr (S n)); [done|lia].
    + intros ms ? (-> & Hl & Hms). apply wp_ret. split_and!; [done|simpl; congruence|].
      intros [|n] uv' m'; simpl; [intros [= <-] [= <-]; by rewrite Nat.add_0_r|].
      intros H1 H2. rewrite <-Nat.add_succ_comm. by apply Hms.
Qed.

(** ** Reads of immutable upvalues *)
Definition put_ctx (cid : nat) (c : TranslationContext) s : CState :=
  with_ctxs (fun l => <[cid := c]> l) s.

Lemma wp_upd_ctx E' cid f c Q s :
  cs_ctxs s !! cid = Some c -> Q tt (put_ctx cid (f c) s) -> wp E' (upd_ctx cid f) Q s.
Proof.
  intros Hc HQ. apply wp_modify. unfold put_ctx, with_ctxs in HQ.
  replace (alter f cid (cs_ctxs s)) with (<[cid := f c]> (cs_ctxs s)); [done|].
  apply list_eq. intros j. rewrite list_lookup_alter. case_decide as Hj.
  - subst j. rewrite Hc. simpl. apply list_lookup_insert_eq. by eapply lookup_lt_Some.
  - by rewrite list_lookup_insert_ne.
Qed.

Lemma put_ctx_twice cid c c' s : put_ctx cid c' (put_ctx cid c s) = put_ctx cid c' s.
Proof. unfold put_ctx, with_ctxs. simpl. by rewrite list_insert_insert_eq. Qed.

Lemma put_ctx_lookup cid c c0 s : cs_ctxs s !! cid = Some c0 -> cs_ctxs (put_ctx cid c s) !! cid = Some c.
Proof. intros H. simpl. apply list_lookup_insert_eq. by eapply lookup_lt_Some. Qed.

Lemma put_ctx_same cid c s : cs_ctxs s !! cid = Some c -> put_ctx cid c s = s.
Proof. intros H. unfold put_ctx, with_ctxs. rewrite list_insert_id by done. by destruct s. Qed.

Lemma set_builder_same c : set_builder (fun _ => m_builder c) c = c.
Proof. by destruct c. Qed.

Lemma wp_finalize_upvalue_gets W cid uvs offsets top c s :
  cs_ctxs s !! cid = Some c -> code_ok W top (length uvs) offsets (m_builder c) ->
  wp E (finalize_upvalue_gets cid uvs offsets)
    (fun _ s' => exists b', s' = put_ctx cid (set_builder (fun _ => b') c) s /\ code_ok W top (length uvs) [] b') s.
Proof.
  revert c s. induction offsets as [|off offsets IH]; intros c s Hc Hok.
  - apply wp_ret. exists (m_builder c). split; [|done]. by rewrite set_builder_same, put_ctx_same.
  - apply wp_bind. eapply wp_lookup_or; [exact Hc|].
    pose proof (ck_gets _ _ _ _ _ Hok) as Hg. apply Forall_cons in Hg as [(ord & out & Hin) _].
    rewrite (bytecode_at_in _ _ _ (ck_wf _ _ _ _ _ Hok) Hin).
    pose proof (ck_code _ _ _ _ _ Hok) as Hcode. rewrite Forall_forall in Hcode.
    destruct (Hcode _ Hin) as [Hord _]. destruct (lookup_lt_is_Some_2 _ _ Hord) as [uv Huv]. rewrite Huv.
    apply wp_bind, wp_if; intros _.
    + eapply wp_upd_ctx; [exact Hc|]. eapply wp_mono; [eapply IH; [by eapply put_ctx_lookup|]|].
      * by eapply code_ok_replace.
      * intros [] s' (b' & -> & Hb'). exists b'. split; [|done]. by rewrite put_ctx_twice.
    + apply wp_ret. apply IH; [done|]. by eapply code_ok_tail.
Qed.

(** ** One code block *)
Record finalized (W : nat -> Prop) (c : TranslationContext) (uvs : list UVInfo) (c' : TranslationContext) : Prop := {
  fz_bctx : m_resultBCtx c' = m_resultBCtx c;
  fz_ucb : same_ucb (m_resultUcb c) (m_resultUcb c');
  fz_frame : m_stackFrameNumSlots (m_resultUcb c') = m_historyTopSlot c + 1;
  fz_len : length (m_upvalueInfo (m_resultUcb c')) = length uvs;
  fz_place n uv m : uvs !! n = Some uv -> m_upvalueInfo (m_resultUcb c') !! n = Some m -> uv_place n uv m;
  fz_code : code_ok W (m_historyTopSlot c) (length uvs) [] (m_builder c')
}.

Lemma wp_finalize_context W cid bid b c s :
  cs_ctxs s !! cid = Some c -> m_resultBCtx c = Some bid -> cs_bctxs s !! bid = Some b ->
  (m_uvs b <> [] -> is_block_kind (m_fnKind (m_resultUcb c)) = true) ->
  (forall n uv, m_uvs b !! n = Some uv -> 0 < n -> uv_readable s uv) ->
  code_ok W (m_historyTopSlot c) (length (m_uvs b)) (m_allUpvalueGetBytecodes c) (m_builder c) ->
  wp E (finalize_context cid)
    (fun _ s' => exists c', s' = put_ctx cid c' s /\ finalized W c (m_uvs b) c') s.
Proof.
  intros Hc Hbid Hb Hk Hr Hok. apply wp_bind. eapply wp_lookup_or; [exact Hc|]. rewrite Hbid.
  apply wp_bind. eapply wp_lookup_or; [exact Hb|]. apply wp_bind.
  eapply wp_mono; [apply wp_all_upvalue_metadata; [by intros ? _; apply Hk|exact Hr]|].
  intros ms ? (-> & Hl & Hms). apply wp_bind. eapply wp_upd_ctx; [exact Hc|].
  set (c1 := set_ucb _ c). assert (Hc1 : cs_ctxs (put_ctx cid c1 s) !! cid = Some c1) by (by eapply put_ctx_lookup).
  apply wp_bind. eapply wp_mono.
  { eapply wp_finalize_upvalue_gets; [exact Hc1|]. rewrite Hl. exact Hok. }
  intros [] s2 (b' & -> & Hb'). rewrite put_ctx_twice.
  apply wp_bind. eapply wp_lookup_or; [by eapply put_ctx_lookup|].
  apply wp_check; [intros _|intros _; apply aborted_allowed].
  eexists. split; [done|]. rewrite Hl in Hb'. by split.
Qed.
End final.
