(* ===== verification/CompilerMethod.v ===== *)
(** * The compiler is correct on methods

    [CompileMethod] on a well-formed method, with the size of its body as fuel,
    stops only with one of the errors a SOM program can cause, and otherwise leaves
    code blocks whose operands, branches and upvalues are all in place. *)
From S2P Require Import Prelude Interner VmSelectors CNumbers Ast AstWf Bytecode Compiler CompilerInv CompilerRules CompilerScope CompilerSteps CompilerExpr CompilerBlocks CompilerCalls CompilerSafe CompilerFinal.
#[local] Set Default Proof Using "Type*".

Section method.
Context (HashString : string -> Z) {V : Type} (bcLength : Bytecode -> nat) (bcConstants : Bytecode -> list Cst).
Context `{!EncodingLaws bcLength} (env : CompileEnv).
Context (it : StringInterner) (Hvm : vm_started HashString (e_vm env) it).
Implicit Types s : @CState V.

Notation known := (length (m_list it)).
Notation E := (compile_error (bool_decide (is_Some (m_superClass env)))).
Notation Inv := (Inv HashString bcLength known).
Notation at_ := (at_ HashString bcLength known).
#[local] Notation run H L := (CompilerSteps.run HashString bcLength known _ _ _ _ _ _ _ H L).
#[local] Notation run_resolve H L := (CompilerSteps.run_resolve HashString bcLength known _ _ _ _ _ _ _ H L).

(** ** The start of a method *)
Definition method_start (g : Globals V) (arrays : list (list Cst)) : CState :=
  mk_cstate g [] [new_block_context 0 None None] [set_resultBCtx 0 new_context] ∅ arrays.

Lemma Inv_method_start g arrays :
  globals_wf HashString g -> g_interner g = it ->
  Inv (method_start g arrays) /\ here 0 0 (method_start g arrays).
Proof.
  intros Hg Hit. split.
  - split; try done.
    + intros [|i] b; simpl; [|done]. intros [= <-]. split; simpl; try done. by eexists.
    + intros [|i] c; simpl; [|done]. intros [= <-]. exists 0, (erase_b (new_block_context 0 None None)).
      split; try done; simpl; [constructor|]. intros [|j] b'; simpl; [|done]. by intros [= <-].
    + apply NoDup_singleton.
    + intros x v Hin. by apply elem_of_nil in Hin.
    + simpl. by rewrite Hit.
  - eexists _, _. split_and!; [done..|]. intros x v vi Hin. by apply elem_of_nil in Hin.
Qed.

(** In the context of a method, no variable is captured. *)
Lemma method_no_upvalue cid bid b x s :
  Inv s -> here cid bid s -> Bs s !! bid = Some b -> m_owningContext b = bid -> m_trueParent b = None ->
  var_kind env bid x s <> VuUpvalue.
Proof.
  intros HI Hh Hb Ho Ht. unfold var_kind. destruct (is_self_or_super x); [done|].
  destruct (last (scope s x)) as [v|] eqn:Hl; [|by repeat case_match].
  apply last_Some_elem_of in Hl.
  destruct (here_var HashString bcLength known cid bid s x v HI Hh Hl) as (b' & vi & d & Hb' & Hvi & Hd & He & ->).
  assert (b' = b) as -> by congruence. destruct (Nat.eqb_spec (m_owningContext d) (m_owningContext b)); [done|].
  exfalso. destruct (encloses_step _ _ _ He ltac:(congruence)) as (p & (b2 & Hb2 & Hp) & _).
  rewrite Ho in Hb2. assert (b2 = b) as -> by congruence. congruence.
Qed.

Section triviality.
Context (cid bid : nat) (W : nat -> Prop) (s0 : @CState V) (Hlt : cid < length (cs_ctxs s0)).

(** The context of the method. *)
Definition method_ctx s : Prop :=
  exists b, Bs s !! bid = Some b /\ m_owningContext b = bid /\ m_trueParent b = None.

Lemma method_ctx_stab s s' : stab s s' -> method_ctx s -> method_ctx s'.
Proof using Type.
  intros Hst (b & Hb & Ho & Ht). destruct (st_b _ _ Hst _ _ Hb) as (b' & Hb' & _ & Ho' & Ht' & _).
  exists b'. split_and!; congruence.
Qed.

Lemma wp_trivial_return stmt s :
  at_ cid bid W none s0 s -> method_ctx s ->
  wp E (trivial_return HashString env bid stmt) (fun _ s' => at_ cid bid W none s0 s' /\ stab s s') s.
Proof.
  intros Hat (b & Hb & Ho & Ht). destruct stmt; try by apply wp_ret.
  unfold trivial_return. apply wp_if; intros Hn.
  { destruct (CreateConstantNonArray_ok stmt Hn) as [c Hc]. apply wp_bind, wp_lift_result. rewrite Hc. by apply wp_ret. }
  destruct stmt; try by apply wp_ret.
  apply wp_bind, (run_resolve Hat Hlt). intros vr s1 Hat1 Hst1 [Hk Hv].
  pose proof (method_no_upvalue cid bid b m_name s (proj1 Hat) (proj1 (proj2 Hat)) Hb Ho Ht) as Hnu.
  destruct (vr_kind vr) eqn:Hkind; try by apply wp_ret.
  destruct (GetTValueForFalseTrueNil_ok vr Hkind (proj2 Hv)) as [c Hc].
  apply wp_bind, wp_lift_result. rewrite Hc. by apply wp_ret.
Qed.

Lemma wp_method_triviality meth s :
  at_ cid bid W none s0 s -> method_ctx s ->
  wp E (method_triviality HashString env bid meth) (fun _ s' => at_ cid bid W none s0 s' /\ stab s s') s.
Proof.
  intros Hat Hm. apply wp_bind.
  apply wp_mono with (Q := fun _ s' => at_ cid bid W none s0 s' /\ stab s s').
  { destruct (am_body meth) as [|stmt [|]]; try by apply wp_ret. by apply wp_trivial_return. }
  intros t s1 [Hat1 Hst1]. destruct (am_params meth) as [|param [|]]; try by apply wp_ret.
  apply wp_bind. unfold setter_field.
  destruct (setter_statement (am_body meth)) as [[[|x [|]] rhs]|]; try (apply wp_ret; by apply wp_ret).
  apply wp_bind, (run_resolve Hat1 Hlt). intros vr s2 Hat2 Hst2 _. apply wp_ret, wp_ret.
  split; [done|by etrans].
Qed.
End triviality.

(** ** Before the final pass *)

(** The code of a method writes every slot but that of [self]. *)
Definition may_write (i : nat) (n : nat) : Prop := i = 0 -> 0 < n.

Definition ready s : Prop :=
  forall i c, cs_ctxs s !! i = Some c -> exists bid b,
    m_resultBCtx c = Some bid /\ cs_bctxs s !! bid = Some b /\
    code_ok bcLength (may_write i) (m_historyTopSlot c) (length (m_uvs b)) (m_allUpvalueGetBytecodes c) (m_builder c) /\
    (m_uvs b <> [] -> is_block_kind (m_fnKind (m_resultUcb c)) = true) /\
    (forall n uv, m_uvs b !! n = Some uv -> 0 < n -> uv_readable s uv).

Lemma uv_ok_readable b uv s : Inv s -> uv_ok (Bs s) (Vs s) b uv -> uv_readable s uv.
Proof.
  intros HI (v & x & p & Hv & Hx & Hp & Hk). destruct (lookup_Vs _ _ _ Hx) as (x0 & Hx0 & _).
  exists v. split_and!; [done|by eexists|]. destruct (m_isParentLocal uv).
  - destruct Hk as [-> _]. by eexists.
  - by destruct Hk as (j & pb & uv' & -> & _).
Qed.

Lemma at_ready g arrays s : at_ 0 0 (fun n => 0 < n) none (method_start g arrays) s -> ready s.
Proof.
  intros (HI & _ & He & _) i c Hc. destruct (inv_c _ _ _ _ HI i c Hc) as (o & b & Hok).
  destruct (lookup_Bs _ _ _ (co_lookup _ _ _ _ _ _ _ _ Hok)) as (b0 & Hb0 & ->).
  pose proof (inv_b _ _ _ _ HI _ _ (co_lookup _ _ _ _ _ _ _ _ Hok)) as Hbok.
  exists o, b0. split_and!; [apply Hok|done| | |].
  - assert (Hbr : Forall (fun e => (forall n, bc_writes e.2 n -> may_write i n) /\ branch_ok (m_builder c) e)
      (code (m_builder c))).
    { destruct i as [|i].
      - destruct (ext_c _ _ _ _ _ He 0 (set_resultBCtx 0 new_context) eq_refl) as (c' & Hc' & _ & _ & _ & _ & new & Hnew & Hf).
        assert (c' = c) as -> by congruence. rewrite Hnew. simpl.
        eapply Forall_impl; [exact Hf|]. intros e (_ & Hw & [?|[]]). split; [|done]. intros n Hn _. by apply Hw.
      - destruct (ext_new _ _ _ _ _ He (S i) c) as [_ H]; [simpl; lia|done|].
        eapply Forall_impl; [exact H|]. by intros e. }
    apply Forall_and in Hbr as [Hw Hbr]. destruct Hok. by split.
  - intros Hu. destruct i as [|i].
    + destruct Hu. destruct (ext_b _ _ _ _ _ He 0 _ eq_refl) as (b1 & Hb1 & _ & Ho1 & Ht1 & _).
      destruct (ext_c _ _ _ _ _ He 0 (set_resultBCtx 0 new_context) eq_refl) as (c' & Hc' & Hr & _).
      assert (c' = c) as -> by congruence.
      pose proof (co_bctx _ _ _ _ _ _ _ _ Hok) as Ho. rewrite Hr in Ho. injection Ho as <-.
      rewrite (lookup_Bs' _ _ _ Hb0) in Hb1. injection Hb1 as <-. by destruct (bo_top _ _ _ _ Hbok Ht1).
    + by destruct (ext_new _ _ _ _ _ He (S i) c) as [H _]; [simpl; lia|done|].
  - intros n uv Huv Hn. eapply uv_ok_readable; [exact HI|]. by eapply (bo_uvs _ _ _ _ Hbok).
Qed.

(** ** The passes over all contexts *)
Definition finalized_upto (k : nat) s s' : Prop :=
  cs_bctxs s' = cs_bctxs s /\ cs_vars s' = cs_vars s /\ cs_globals s' = cs_globals s /\ length (cs_ctxs s') = length (cs_ctxs s) /\
  forall i c, cs_ctxs s !! i = Some c -> exists c', cs_ctxs s' !! i = Some c' /\
    if i <? k then exists bid b, m_resultBCtx c = Some bid /\ cs_bctxs s !! bid = Some b /\
                                 finalized bcLength (may_write i) c (m_uvs b) c'
    else c' = c.

Lemma finalized_upto_0 s : finalized_upto 0 s s.
Proof. split_and!; try done. intros i c Hc. by exists c. Qed.

Lemma wp_finalize_one k s s' :
  ready s -> finalized_upto k s s' -> k < length (cs_ctxs s) ->
  wp E (finalize_context k) (fun _ s2 => finalized_upto (S k) s s2) s'.
Proof.
  intros Hr (HB & HV & HG & HL & HC) Hk. destruct (lookup_lt_is_Some_2 _ _ Hk) as [c Hc].
  destruct (HC k c Hc) as (c' & Hc' & Hx). rewrite Nat.ltb_irrefl in Hx. subst c'.
  destruct (Hr k c Hc) as (bid & b & Hbid & Hb & Hok & Hkind & Hread).
  eapply wp_mono; [apply (wp_finalize_context bcLength _ (may_write k) k bid b c s')|]; try done.
  - by rewrite HB.
  - intros n uv Huv Hn. destruct (Hread n uv Huv Hn) as (v & Hv & Hvs & Hs). exists v. by rewrite HV.
  - intros [] s2 (c' & -> & Hf). split_and!; [done|done|done|simpl; by rewrite length_insert|].
    intros i ci Hci. simpl. destruct (decide (i = k)) as [->|Hne].
    + assert (ci = c) as -> by congruence. exists c'.
      rewrite list_lookup_insert_eq by (by eapply lookup_lt_Some). split; [done|].
      rewrite (proj2 (Nat.ltb_lt k (S k))) by lia. by exists bid, b.
    + rewrite list_lookup_insert_ne by done. destruct (HC i ci Hci) as (ci' & Hci' & Hx). exists ci'.
      split; [done|]. destruct (Nat.ltb_spec i k), (Nat.ltb_spec i (S k)); try done; lia.
Qed.

Lemma wp_finalize_all n k s s' :
  ready s -> finalized_upto k s s' -> k + n <= length (cs_ctxs s) ->
  wp E (for_each finalize_context (seq k n)) (fun _ s2 => finalized_upto (k + n) s s2) s'.
Proof.
  revert k s'. induction n as [|n IH]; intros k s' Hr Hf Hle; simpl.
  - apply wp_ret. by rewrite Nat.add_0_r.
  - apply wp_bind. eapply wp_mono; [apply wp_finalize_one; [done|done|lia]|]. intros [] s2 Hf2.
    rewrite <-Nat.add_succ_comm. apply IH; [done|done|lia].
Qed.

(** ** The result *)
Record compiled (cs : list TranslationContext) (i : nat) (c : TranslationContext) : Prop := {
  cd_layout : builder_wf bcLength (m_builder c);
  cd_operands : Forall (fun e => bc_ok (m_stackFrameNumSlots (m_resultUcb c) - 1)
                                   (length (m_upvalueInfo (m_resultUcb c))) e.2) (code (m_builder c));
  cd_branches : Forall (branch_ok (m_builder c)) (code (m_builder c));
  cd_method : i = 0 -> m_upvalueInfo (m_resultUcb c) = [] /\
                       Forall (fun e => ~ bc_writes e.2 0) (code (m_builder c));
  cd_block : i <> 0 -> is_block_kind (m_fnKind (m_resultUcb c)) = true /\
    exists p pc, m_parent (m_resultUcb c) = Some p /\ p < i /\ cs !! p = Some pc /\
      forallb (upvalue_in_parent (m_resultUcb pc)) (m_upvalueInfo (m_resultUcb c)) = true
}.

Lemma final_lookup s s' i c' :
  finalized_upto (length (cs_ctxs s)) s s' -> cs_ctxs s' !! i = Some c' ->
  exists c bid b, cs_ctxs s !! i = Some c /\ m_resultBCtx c = Some bid /\ cs_bctxs s !! bid = Some b /\
    finalized bcLength (may_write i) c (m_uvs b) c'.
Proof.
  intros (_ & _ & _ & HL & HC) Hc'. pose proof (lookup_lt_Some _ _ _ Hc') as Hi. rewrite HL in Hi.
  destruct (lookup_lt_is_Some_2 _ _ Hi) as [c Hc]. destruct (HC i c Hc) as (c2 & Hc2 & Hx).
  rewrite (proj2 (Nat.ltb_lt _ _) Hi) in Hx. assert (c2 = c') as -> by congruence.
  destruct Hx as (bid & b & ? & ? & ?). by exists c, bid, b.
Qed.

(** An upvalue's place exists in the enclosing function. *)
Lemma uv_in_parent B vs pc pb n uv m x0 cp cs' :
  ctx_ok bcLength B vs cs' pc x0 (m_owningContext pb) pb ->
  (forall b, m_trueParent b = Some (m_owningContext pb) -> 0 < n -> uv_ok B vs b uv ->
     uv_place n uv m -> B !! m_owningContext pb = Some pb ->
     m_stackFrameNumSlots cp = m_historyTopSlot x0 + 1 -> length (m_upvalueInfo cp) = length (m_uvs pb) ->
     upvalue_in_parent cp m = true).
Proof.
  intros Hok b Hp Hn (v & x & p & Hv & Hx & Hp' & Hk) Hpl Hpb Hfr Hlen. assert (p = m_owningContext pb) as -> by congruence.
  unfold uv_place in Hpl. rewrite (proj2 (Nat.eqb_neq n 0)) in Hpl by lia. destruct Hpl as [Hloc Hslot].
  unfold upvalue_in_parent. rewrite Hloc. destruct (m_isParentLocal uv).
  - destruct Hk as [Hs (d & Hd & Ho)]. rewrite Hs in Hslot. injection Hslot as <-.
    apply Nat.ltb_lt. pose proof (co_vars _ _ _ _ _ _ _ _ Hok v x d Hx Hd Ho). lia.
  - destruct Hk as (j & pb' & uv' & Hj & _ & Hpb' & Hu & _). rewrite Hj in Hslot. injection Hslot as <-.
    apply Nat.ltb_lt. assert (pb' = pb) as -> by congruence. apply lookup_lt_Some in Hu. lia.
Qed.

Lemma final_parent s s' i c' :
  Inv s -> finalized_upto (length (cs_ctxs s)) s s' -> cs_ctxs s' !! i = Some c' -> i <> 0 ->
  exists p cp, m_parent (m_resultUcb c') = Some p /\ p < i /\ cs_ctxs s' !! p = Some cp /\
    forallb (upvalue_in_parent (m_resultUcb cp)) (m_upvalueInfo (m_resultUcb c')) = true.
Proof.
  intros HI Hf Hc' Hi. destruct (final_lookup _ _ _ _ Hf Hc') as (c & bid & b & Hc & Hbid & Hb & Hfz).
  destruct (inv_c _ _ _ _ HI i c Hc) as (o & bo & Hok).
  assert (o = bid) as -> by (pose proof (co_bctx _ _ _ _ _ _ _ _ Hok); congruence).
  pose proof (lookup_Bs' _ _ _ Hb) as HB. assert (bo = erase_b b) as ->
    by (pose proof (co_lookup _ _ _ _ _ _ _ _ Hok); congruence).
  destruct (m_trueParent b) as [p|] eqn:Hp; [|by destruct Hi; apply (co_top _ _ _ _ _ _ _ _ Hok)].
  destruct (co_parent _ _ _ _ _ _ _ _ Hok p Hp) as (pc & cp0 & Hpar & Hlt & Hcp0 & Hrp).
  destruct Hf as (HfB & HfV & HfG & HfL & HfC). destruct (HfC pc cp0 Hcp0) as (cp & Hcp & _).
  destruct (final_lookup s s' pc cp) as (cp1 & pbid & pb & Hcp1 & Hpbid & Hpb & Hpfz); [by split_and!|done|].
  assert (cp1 = cp0) as -> by congruence. assert (pbid = p) as -> by congruence.
  destruct (inv_c _ _ _ _ HI pc cp0 Hcp0) as (po & pbo & Hpok).
  assert (po = p) as -> by (pose proof (co_bctx _ _ _ _ _ _ _ _ Hpok); congruence).
  pose proof (lookup_Bs' _ _ _ Hpb) as HPB. assert (pbo = erase_b pb) as ->
    by (pose proof (co_lookup _ _ _ _ _ _ _ _ Hpok); congruence).
  pose proof (co_owner _ _ _ _ _ _ _ _ Hpok) as Hpo. simpl in Hpo.
  exists pc, cp. split_and!; [by rewrite (proj1 (fz_ucb _ _ _ _ _ Hfz))|done|done|].
  apply forallb_forall. intros m [n Hm]%list_elem_of_In%list_elem_of_lookup.
  pose proof (lookup_lt_Some _ _ _ Hm) as Hn. rewrite (fz_len _ _ _ _ _ Hfz) in Hn.
  destruct (lookup_lt_is_Some_2 _ _ Hn) as [uv Huv]. pose proof (fz_place _ _ _ _ _ Hfz n uv m Huv Hm) as Hpl.
  pose proof (fz_frame _ _ _ _ _ Hpfz) as Hfr. pose proof (fz_len _ _ _ _ _ Hpfz) as Hlen.
  destruct (decide (n = 0)) as [->|Hn0].
  - destruct Hpl as [H1 H2]. unfold upvalue_in_parent. rewrite H1, H2. apply Nat.ltb_lt. lia.
  - rewrite <-Hpo in Hpok. eapply (uv_in_parent _ _ _ (erase_b pb) _ _ _ _ _ _ Hpok (erase_b b)); try done.
    + simpl. congruence.
    + lia.
    + eapply (bo_uvs _ _ _ _ (inv_b _ _ _ _ HI _ _ HB)); [|exact Huv]. lia.
    + simpl. congruence.
Qed.

Lemma method_context W g arrays s c :
  at_ 0 0 W none (method_start g arrays) s -> cs_ctxs s !! 0 = Some c ->
  m_resultBCtx c = Some 0 /\ exists b, cs_bctxs s !! 0 = Some b /\ m_uvs b = [] /\
    m_owningContext b = 0 /\ m_trueParent b = None.
Proof.
  intros (HI & _ & He & _) Hc. destruct (ext_c _ _ _ _ _ He 0 (set_resultBCtx 0 new_context) eq_refl) as (c' & Hc' & Hr & _).
  assert (c' = c) as -> by congruence. split; [done|].
  destruct (ext_b _ _ _ _ _ He 0 _ eq_refl) as (b & Hb & _ & Ho & Ht & _).
  destruct (lookup_Bs _ _ _ Hb) as (b0 & Hb0 & ->). exists b0.
  destruct (bo_top _ _ _ _ (inv_b _ _ _ _ HI _ _ Hb) Ht) as [Hu _]. by split_and!.
Qed.

Lemma final_method s s' c' g arrays W :
  at_ 0 0 W none (method_start g arrays) s -> finalized_upto (length (cs_ctxs s)) s s' ->
  cs_ctxs s' !! 0 = Some c' -> m_upvalueInfo (m_resultUcb c') = [].
Proof.
  intros Hat Hf Hc'. destruct (final_lookup _ _ _ _ Hf Hc') as (c & bid & b & Hc & Hbid & Hb & Hfz).
  destruct (method_context _ _ _ _ _ Hat Hc) as (Hr & b0 & Hb0 & Hu & _).
  assert (bid = 0) as -> by congruence. assert (b0 = b) as -> by congruence.
  apply nil_length_inv. by rewrite (fz_len _ _ _ _ _ Hfz), Hu.
Qed.

Lemma wp_check_upvalues s s' g arrays W i :
  at_ 0 0 W none (method_start g arrays) s -> finalized_upto (length (cs_ctxs s)) s s' ->
  i < length (cs_ctxs s') -> wp E (check_upvalues i) (fun _ s2 => s2 = s') s'.
Proof.
  intros Hat Hf Hi. destruct (lookup_lt_is_Some_2 _ _ Hi) as [c Hc].
  apply wp_bind. eapply wp_lookup_or; [exact Hc|]. cbv zeta. destruct (decide (i = 0)) as [->|Hne].
  - rewrite (final_method _ _ _ _ _ _ Hat Hf Hc). by apply wp_ret.
  - destruct (final_parent s s' i c (proj1 Hat) Hf Hc Hne) as (p & cp & Hp & _ & Hcp & Hall).
    destruct (m_upvalueInfo (m_resultUcb c)) as [|m ms] eqn:Hu; [by apply wp_ret|]. rewrite Hp.
    apply wp_bind. eapply wp_lookup_or; [exact Hcp|]. by apply wp_check; [|intros H; congruence].
Qed.

Lemma wp_check_all s s' g arrays W k n :
  at_ 0 0 W none (method_start g arrays) s -> finalized_upto (length (cs_ctxs s)) s s' ->
  k + n <= length (cs_ctxs s') -> wp E (for_each check_upvalues (seq k n)) (fun _ s2 => s2 = s') s'.
Proof.
  intros Hat Hf. revert k. induction n as [|n IH]; intros k Hle; simpl; [by apply wp_ret|].
  apply wp_bind. eapply wp_mono; [eapply wp_check_upvalues; [exact Hat|exact Hf|lia]|]. intros [] ? ->. apply IH. lia.
Qed.

Lemma finalized_compiled s s' i c' g arrays :
  at_ 0 0 (fun n => 0 < n) none (method_start g arrays) s -> finalized_upto (length (cs_ctxs s)) s s' ->
  cs_ctxs s' !! i = Some c' -> compiled (cs_ctxs s') i c'.
Proof.
  intros Hat Hf Hc'. destruct (final_lookup _ _ _ _ Hf Hc') as (c & bid & b & Hc & Hbid & Hb & Hfz).
  pose proof (fz_code _ _ _ _ _ Hfz) as [Hwf Hcode Hw Hbr _ _].
  rewrite <-(fz_len _ _ _ _ _ Hfz) in Hcode. split; try done.
  - rewrite (fz_frame _ _ _ _ _ Hfz), Nat.add_sub. done.
  - intros ->. split; [by eapply final_method|]. eapply Forall_impl; [exact Hw|].
    intros e He H0. specialize (He 0 H0 eq_refl). lia.
  - intros Hi. split; [|by eapply final_parent; [exact (proj1 Hat)|..]].
    rewrite (proj2 (fz_ucb _ _ _ _ _ Hfz)). destruct Hat as (_ & _ & He & _).
    destruct i as [|i]; [done|]. by destruct (ext_new _ _ _ _ _ He (S i) c) as [H _]; [simpl; lia|done|].
Qed.

(** ** The whole method *)
Definition method_result s s' : Prop :=
  is_Some (cs_ctxs s' !! 0) /\ (forall i c, cs_ctxs s' !! i = Some c -> compiled (cs_ctxs s') i c) /\
  globals_wf HashString (cs_globals s') /\ interner_le (g_interner (cs_globals s)) (g_interner (cs_globals s')).

Lemma wp_finish_method s0 s arrays :
  at_ 0 0 (fun n => 0 < n) none (method_start (cs_globals s0) arrays) s ->
  wp E (check_map_empty ;;
        b ← the_bctx 0;
        check (length (m_uvs b) =? 0) (AssertFailed "bctx->m_uvs.size() == 0") ;;
        s ← get_st;
        for_each finalize_context (seq 0 (length (cs_ctxs s))) ;;
        for_each check_upvalues (seq 0 (length (cs_ctxs s))) ;;
        c ← the_ctx 0;
        check (length (m_upvalueInfo (m_resultUcb c)) =? 0) (AssertFailed "cb->m_numUpvalues == 0"))
    (fun _ s' => method_result s0 s') s.
Proof.
  intros Hat. pose proof Hat as (HI & Hh & He & Hst).
  destruct (lookup_lt_is_Some_2 (cs_ctxs s) 0 (here_lt _ _ _ Hh)) as [c Hc].
  destruct (method_context _ _ _ _ _ Hat Hc) as (_ & b & Hb & Hu & _).
  apply wp_bind, run_check.
  { apply bool_decide_eq_true, map_Forall_lookup. intros x l Hl. pose proof (st_scope _ _ Hst x) as Hx.
    unfold scope in Hx. by rewrite Hl in Hx. }
  apply wp_bind. eapply wp_lookup_or; [exact Hb|]. apply wp_bind, run_check; [by rewrite Hu|].
  apply wp_bind, wp_get, wp_bind.
  eapply wp_mono; [apply (wp_finalize_all _ 0 s s); [by eapply at_ready|apply finalized_upto_0|simpl; lia]|].
  intros [] s1 Hf. simpl in Hf. pose proof Hf as (_ & _ & HG & HL & HC).
  apply wp_bind. eapply wp_mono; [eapply wp_check_all; [exact Hat|exact Hf|rewrite HL; simpl; lia]|]. intros [] ? ->.
  destruct (HC 0 c Hc) as (c1 & Hc1 & _). apply wp_bind. eapply wp_lookup_or; [exact Hc1|].
  apply run_check; [by rewrite (final_method _ _ _ _ _ _ Hat Hf Hc1)|].
  split_and!; [by eexists|intros i ci Hci; by eapply finalized_compiled|rewrite HG; apply HI|].
  rewrite HG. apply (ext_interner _ _ _ _ _ He).
Qed.

Lemma wp_set_triviality W (t : SOMMethodLookupResultKind * TrivialFnInfo) s0 s :
  at_ 0 0 W none s0 s -> 0 < length (cs_ctxs s0) ->
  wp E (match t.1 with SOM_NormalMethod => mret tt | k => upd_ctx 0 (set_ucb (set_trivial k t.2)) end)
    (fun _ s' => at_ 0 0 W none s0 s' /\ stab s s') s.
Proof.
  intros Hat Hlt.
  assert (Hset : forall k, at_ 0 0 W none s (with_ctxs (alter (set_ucb (set_trivial k t.2)) 0) s)).
  { intros k. apply at_alter_ctx; [exact _|apply Hat|apply Hat|done|]. intros c o b _ []. split_and!; try done.
    unfold ctx_ext. split_and!; try done. apply code_ext_refl. }
  assert (Hupd : forall k, wp E (upd_ctx 0 (set_ucb (set_trivial k t.2)))
    (fun _ s' => at_ 0 0 W none s0 s' /\ stab s s') s).
  { intros k. apply wp_modify. split; [|apply Hset].
    eapply at_none_trans; [exact _|exact Hat|exact Hlt|apply Hset]. }
  destruct t.1; try exact (Hupd _). by apply wp_ret.
Qed.

Lemma method_body_ready names first s s1 :
  method_ctx 0 s -> Inv s -> here 0 0 s ->
  opened HashString bcLength known 0 0 (fun n => 0 < n) names 1 first s s1 ->
  slots_ok 0 (fun n => 0 < n) first s1 /\ body_ok 0 (fun n => 0 < n) s1 /\ method_ctx 0 s1.
Proof.
  intros Hm HI Hh Hop. pose proof Hop as [Hf HI1 Hh1 _ (_ & _ & _ & Hst) _ _].
  pose proof (method_ctx_stab 0 _ _ Hst Hm) as Hm1. change (method_ctx 0 s1) in Hm1. split_and!; [| |done].
  - split_and!; [lia|lia|]. intros n Hn. exact (in_scope_pos HashString bcLength known 0 s1 n HI1 Hn).
  - destruct Hm1 as (b & Hb & Ho & Ht). intros b' Hb'. assert (b' = b) as -> by congruence.
    split; [by intros|]. intros _ Hne. by rewrite Ht in Hne.
Qed.

Lemma wp_CompileMethod fuel meth s :
  globals_wf HashString (cs_globals s) -> g_interner (cs_globals s) = it -> wf_method it meth = true ->
  ast_list_size (am_body meth) <= fuel ->
  wp E (CompileMethod HashString bcLength bcConstants fuel env meth) (fun _ s' => method_result s s') s.
Proof.
  intros Hg Hit Hwf Hfuel. apply wp_bind, wp_modify, wp_bind, wp_new_ctx, wp_bind, wp_new_bctx, wp_bind, wp_modify.
  set (s0 := method_start (cs_globals s) (cs_arrays s)).
  change (wp E (firstFreeSlot ← InstallLocalVariables bcLength bcConstants 0 0 (am_params meth) (am_locals meth) 1;
    upd_ctx 0 (set_topSlot firstFreeSlot) ;;
    t ← method_triviality HashString env 0 meth;
    (match t.1 with SOM_NormalMethod => mret tt | k => upd_ctx 0 (set_ucb (set_trivial k t.2)) end) ;;
    CompileBlockBody HashString bcLength bcConstants env (compile HashString bcLength bcConstants fuel env) 0 0
      (am_body meth) firstFreeSlot ;;
    UninstallLocalVariables 0 (am_params meth) (am_locals meth) ;;
    check_map_empty ;;
    b ← the_bctx 0;
    check (length (m_uvs b) =? 0) (AssertFailed "bctx->m_uvs.size() == 0") ;;
    s ← get_st;
    for_each finalize_context (seq 0 (length (cs_ctxs s))) ;;
    for_each check_upvalues (seq 0 (length (cs_ctxs s))) ;;
    c ← the_ctx 0;
    check (length (m_upvalueInfo (m_resultUcb c)) =? 0) (AssertFailed "cb->m_numUpvalues == 0"))
    (fun _ s' => method_result s s') s0).
  destruct (Inv_method_start (cs_globals s) (cs_arrays s) Hg Hit) as [HI Hh]. fold s0 in HI, Hh.
  assert (Hlt : 0 < length (cs_ctxs s0)) by (simpl; lia).
  assert (Hm0 : method_ctx 0 s0) by (by eexists).
  set (W := fun n => 0 < n).
  apply wp_bind. eapply wp_mono.
  { apply (wp_open_scope HashString bcLength bcConstants known _ 0 0 W (fun n _ => n)); try done; try lia.
    intros n c [= <-]. simpl. lia. }
  intros first s1 H1. apply wp_bind. eapply wp_mono; [exact H1|]. intros [] s2 Hop. clear H1 s1.
  pose proof Hop as [Hfst HI2 Hh2 _ _ _ _].
  destruct (method_body_ready _ _ _ _ Hm0 HI Hh Hop) as (Hs & Hok & Hm).
  pose proof (at_refl _ _ _ 0 0 W none s2 HI2 Hh2) as Hat2. pose proof (here_lt _ _ _ Hh2) as Hlt2.
  apply wp_bind. eapply wp_mono; [by apply (wp_method_triviality 0 0 W s2 Hlt2)|]. intros t s3 [Hat3 Hst3].
  apply wp_bind. eapply wp_mono; [apply (wp_set_triviality W t s2 s3 Hat3 Hlt2)|]. intros [] s4 [Hat4 Hst4].
  pose proof (transitivity Hst3 Hst4) as Hst. assert (Hok4 : body_ok 0 W s4) by (by eapply body_ok_stab).
  assert (Hs4 : slots_ok 0 W first s4) by (eapply slots_ok_stab; [exact _|exact HI2|exact Hh2|exact Hst|exact Hs]).
  apply wp_bind. eapply wp_mono.
  { apply wp_CompileBlockBody; [exact _|apply Hat4|apply Hat4| |exact Hs4|exact Hok4].
    eapply (good_stmts HashString bcLength bcConstants env it Hvm fuel); [|exact Hwf|exact Hfuel].
    intros e He Hsz. by eapply compile_good. }
  intros [] s5 Hat5. apply wp_bind.
  pose proof (at_none_trans HashString bcLength known _ _ _ _ _ _ _ Hat4 Hlt2 Hat5) as Hat25.
  eapply wp_mono; [exact (wp_close_scope HashString bcLength known E 0 0 W _ _ 1 first s0 s2 s5 Hlt Hop Hat25)|].
  intros [] s6 Hat6. exact (wp_finish_method s s6 (cs_arrays s) Hat6).
Qed.
End method.
