(* ===== verification/CompilerProperties.v ===== *)
(** * What the compiler guarantees

    The theorems about compiled methods and expressions, and concrete methods
    they apply to.  The proofs are in the [Compiler...] files before this one. *)
From S2P Require Import Prelude Interner VmSelectors CNumbers Ast AstWf Bytecode Compiler CompilerInv CompilerRules CompilerScope CompilerSteps CompilerExpr CompilerBlocks CompilerCalls CompilerSafe CompilerFinal CompilerMethod.

(** ** Finding the variable behind an upvalue *)

(** The frame slot an upvalue of a compiled block leads to, through the chain of
    enclosing functions: the context that owns the frame and the slot. *)
Fixpoint upvalue_home (fuel : nat) (cs : list TranslationContext) (i n : nat) : option (nat * nat) :=
  match fuel with
  | O => None
  | S fuel' =>
      c ← cs !! i;
      m ← m_upvalueInfo (m_resultUcb c) !! n;
      p ← m_parent (m_resultUcb c);
      if uv_isParentLocal m then Some (p, uv_slot m) else upvalue_home fuel' cs p (uv_slot m)
  end.

(** During compilation: upvalue [ord] of the function of block context [this] is
    the variable [var], found in the enclosing frame or through the enclosing
    function's own upvalue for it. *)
Inductive reaches (B : list BlockTranslationContext) (vs : list LocalVarInfo) : nat -> nat -> nat -> Prop :=
  | reaches_local this ord var b uv p x d :
      B !! this = Some b -> m_uvs b !! ord = Some uv -> m_varInfo uv = Some var ->
      m_trueParent b = Some p -> m_isParentLocal uv = true ->
      vs !! var = Some x -> B !! var_bctx x = Some d -> m_owningContext d = p ->
      m_parentLocalSlot uv = Some (m_slotOrd x) -> reaches B vs this ord var
  | reaches_outer this ord var b uv p j :
      B !! this = Some b -> m_uvs b !! ord = Some uv -> m_varInfo uv = Some var ->
      m_trueParent b = Some p -> m_isParentLocal uv = false ->
      m_parentUpvalueOrd uv = Some j -> reaches B vs p j var -> reaches B vs this ord var.

Lemma captured_reaches B vs this b ord uv var :
  binv B vs -> B !! this = Some b -> m_owningContext b = this -> 0 < ord ->
  m_uvs b !! ord = Some uv -> m_varInfo uv = Some var -> reaches B vs this ord var.
Proof.
  intros HB. revert b ord uv. induction (lt_wf this) as [this _ IH]. intros b ord uv Hb Ho Hpos Huv Hv.
  destruct (bo_uvs _ _ _ _ (HB _ _ Hb) ord uv Hpos Huv) as (v & x & p & Hv' & Hx & Hp & Hk).
  assert (v = var) as -> by congruence.
  destruct (m_isParentLocal uv) eqn:Hl.
  - destruct Hk as [Hs (d & Hd & Hdo)]. by eapply reaches_local.
  - destruct Hk as (j & pb & uv' & Hj & Hj0 & Hpb & Huv' & Hv2).
    destruct (bo_parent _ _ _ _ (HB _ _ Hb) p Hp) as (Hlt & pb' & Hpb' & Hpo). rewrite Ho in Hlt.
    assert (pb' = pb) as -> by congruence.
    eapply reaches_outer; try done. by eapply (IH p Hlt pb).
Qed.

Section properties.
Context (HashString : string -> Z) {V : Type} (bcLength : Bytecode -> nat) (bcConstants : Bytecode -> list Cst).
Implicit Types s : @CState V.

(** The compiler is called after start-up, on a well-formed tree, with the size
    of the method's body as fuel. *)
Record compilable (fuel : nat) (env : CompileEnv) (meth : AstMethod) s : Prop := {
  cp_vm : vm_started HashString (e_vm env) (g_interner (cs_globals s));
  cp_globals : globals_wf HashString (cs_globals s);
  cp_wf : wf_method (g_interner (cs_globals s)) meth = true;
  cp_fuel : ast_list_size (am_body meth) <= fuel
}.

Notation hasSuper env := (bool_decide (is_Some (m_superClass env))).
Notation CompileMethod := (CompileMethod HashString bcLength bcConstants).

Lemma CompileMethod_wp `{!EncodingLaws bcLength} fuel env meth s :
  compilable fuel env meth s ->
  wp (compile_error (hasSuper env)) (CompileMethod fuel env meth)
    (fun _ s' => method_result HashString bcLength s s') s.
Proof. intros [Hvm Hg Hwf Hf]. by eapply wp_CompileMethod. Qed.

Lemma CompileMethod_Ok `{!EncodingLaws bcLength} fuel env meth s u s' :
  compilable fuel env meth s -> CompileMethod fuel env meth s = Ok (u, s') ->
  method_result HashString bcLength s s'.
Proof. intros Hc Hr. exact (wp_ok _ _ _ _ _ _ (CompileMethod_wp _ _ _ _ Hc) Hr). Qed.

Lemma upvalue_home_found cs i n c fuel :
  (forall i c, cs !! i = Some c -> compiled bcLength cs i c) ->
  cs !! i = Some c -> n < length (m_upvalueInfo (m_resultUcb c)) -> i < fuel ->
  exists j slot cj, upvalue_home fuel cs i n = Some (j, slot) /\ j < i /\ cs !! j = Some cj /\
    slot < m_stackFrameNumSlots (m_resultUcb cj).
Proof.
  intros Hcs. revert i n c. induction fuel as [|fuel IH]; intros i n c Hc Hn Hi; [lia|].
  destruct (lookup_lt_is_Some_2 _ _ Hn) as [m Hm]. pose proof (Hcs i c Hc) as Hok.
  assert (i <> 0) as Hi0.
  { intros ->. destruct (cd_method _ _ _ _ Hok eq_refl) as [Hnil _]. by rewrite Hnil in Hm. }
  destruct (cd_block _ _ _ _ Hok Hi0) as (_ & p & pc & Hp & Hlt & Hpc & Hall).
  assert (Hin : upvalue_in_parent (m_resultUcb pc) m = true).
  { rewrite forallb_forall in Hall. apply Hall, list_elem_of_In. by eapply list_elem_of_lookup_2. }
  unfold upvalue_in_parent in Hin. simpl. rewrite Hc. simpl. rewrite Hm. simpl. rewrite Hp. simpl.
  destruct (uv_isParentLocal m); apply Nat.ltb_lt in Hin.
  - exists p, (uv_slot m), pc. done.
  - destruct (IH p (uv_slot m) pc Hpc Hin ltac:(lia)) as (j & slot & cj & -> & Hj & Hcj & Hs).
    exists j, slot, cj. split_and!; [done|lia|done|done].
Qed.

(** C16: compiling a method always comes to an end: with the size of its body as
    fuel the compiler never runs out, and it fails no assertion but those a SOM
    program can provoke (an operand beyond 16 bits, a block of more than two
    parameters, a [super] send without superclass) or stops with a reported error. *)
Theorem CompileMethod_terminates `{!EncodingLaws bcLength} fuel env meth s :
  compilable fuel env meth s ->
  match CompileMethod fuel env meth s with
  | Ok (_, s') => length (cs_ctxs s') > 0
  | Err e => compile_error (hasSuper env) e
  end.
Proof.
  intros Hc. eapply wp_mono with (Q' := fun _ s' => length (cs_ctxs s') > 0);
    [exact (CompileMethod_wp _ _ _ _ Hc)|].
  intros _ s' [[c Hlen%lookup_lt_Some] _]. lia.
Qed.

(** C1: the bytecode of a compiled method and of every block in it is safe to
    run: instructions lie one after another, each names only slots of the frame
    and upvalues the block has, and each branch has been given a target, at the
    start of an instruction or at the end of the code. *)
Theorem CompileMethod_code_safe `{!EncodingLaws bcLength} fuel env meth s u s' i c :
  compilable fuel env meth s -> CompileMethod fuel env meth s = Ok (u, s') ->
  cs_ctxs s' !! i = Some c ->
  builder_wf bcLength (m_builder c) /\
  forall pos bc, (pos, bc) ∈ code (m_builder c) ->
    bc_ok (m_stackFrameNumSlots (m_resultUcb c) - 1) (length (m_upvalueInfo (m_resultUcb c))) bc /\
    branch_ok (m_builder c) (pos, bc).
Proof.
  intros Hc Hr Hi. destruct (CompileMethod_Ok _ _ _ _ _ _ Hc Hr) as (_ & Hall & _).
  destruct (Hall i c Hi) as [Hl Ho Hb _ _]. split; [done|].
  rewrite Forall_forall in Ho, Hb. intros pos bc Hin. exact (conj (Ho _ Hin) (Hb _ Hin)).
Qed.

(** Every upvalue of a compiled block leads, through the chain of enclosing
    functions, to a slot inside the frame of one of them; the method itself has
    no upvalues. *)
Lemma CompileMethod_upvalues_resolve `{!EncodingLaws bcLength} fuel env meth s u s' i c n :
  compilable fuel env meth s -> CompileMethod fuel env meth s = Ok (u, s') ->
  cs_ctxs s' !! i = Some c -> n < length (m_upvalueInfo (m_resultUcb c)) ->
  0 < i /\ is_block_kind (m_fnKind (m_resultUcb c)) = true /\
  exists j slot cj, upvalue_home (S i) (cs_ctxs s') i n = Some (j, slot) /\ j < i /\
    cs_ctxs s' !! j = Some cj /\ slot < m_stackFrameNumSlots (m_resultUcb cj).
Proof.
  intros Hc Hr Hi Hn. destruct (CompileMethod_Ok _ _ _ _ _ _ Hc Hr) as (_ & Hall & _).
  pose proof (Hall i c Hi) as Hok. assert (i <> 0) as Hi0.
  { intros ->. destruct (cd_method _ _ _ _ Hok eq_refl) as [Hnil _]. rewrite Hnil in Hn. simpl in Hn. lia. }
  split_and!; [lia|apply (cd_block _ _ _ _ Hok Hi0)|]. apply (upvalue_home_found _ i n c); [done|done|done|lia].
Qed.

(** Slot 0 of a method's frame, where the caller put [self], is never written
    by the method's own bytecode, so [self] is the receiver throughout. *)
Theorem CompileMethod_preserves_self `{!EncodingLaws bcLength} fuel env meth s u s' c :
  compilable fuel env meth s -> CompileMethod fuel env meth s = Ok (u, s') ->
  cs_ctxs s' !! 0 = Some c ->
  forall pos bc, (pos, bc) ∈ code (m_builder c) -> ~ bc_writes bc 0.
Proof.
  intros Hc Hr Hi pos bc Hin. destruct (CompileMethod_Ok _ _ _ _ _ _ Hc Hr) as (_ & Hall & _).
  destruct (cd_method _ _ _ _ (Hall 0 c Hi) eq_refl) as [_ Hw].
  rewrite Forall_forall in Hw. exact (Hw _ Hin).
Qed.

(** The code compiled for an expression writes only scratch slots from
    [clobber] up, the destination, and variables in scope; it branches only inside
    itself, leaves the code of every other function and the scope alone, and
    the destination lies in the frame. *)
Theorem compile_expression_slots `{!EncodingLaws bcLength} it env fuel e cid bid clobber dest top s :
  vm_started HashString (e_vm env) it -> Inv HashString bcLength (length (m_list it)) s ->
  here cid bid s -> wf_expr it e = true -> ast_size e <= fuel -> 0 < clobber ->
  match compile HashString bcLength bcConstants fuel env cid bid e clobber dest top s with
  | Err err => compile_error (hasSuper env) err
  | Ok (_, s') => exists c c' new,
      cs_ctxs s !! cid = Some c /\ cs_ctxs s' !! cid = Some c' /\
      code (m_builder c') = code (m_builder c) ++ new /\ dest <= m_historyTopSlot c' /\
      (forall pos bc, (pos, bc) ∈ new -> branch_ok (m_builder c') (pos, bc) /\
         forall n, bc_writes bc n -> clobber <= n \/ n = dest \/ in_scope bid s n) /\
      (forall i ci, i <> cid -> cs_ctxs s !! i = Some ci ->
         exists ci', cs_ctxs s' !! i = Some ci' /\ m_builder ci' = m_builder ci) /\
      (forall x, scope s' x = scope s x)
  end.
Proof.
  intros Hvm HI Hh Hwf Hfuel H0.
  set (W := fun n => clobber <= n \/ n = dest \/ in_scope bid s n).
  assert (Hs : slots_ok bid W clobber s).
  { split_and!; [done|by left|]. intros n Hn. by right; right. }
  pose proof (compile_good HashString bcLength bcConstants env it Hvm fuel e Hwf Hfuel
    cid bid W clobber dest top s HI Hh Hs ltac:(right; by left)) as Hwp.
  eapply wp_mono in Hwp; [exact Hwp|]. intros _ s' [(_ & _ & He & _) Hd].
  pose proof Hh as (b & c & _ & Hc & _). destruct (ext_c _ _ _ _ _ He cid c Hc) as (c' & Hc' & _ & _ & _ & Hext).
  rewrite Nat.eqb_refl in Hext. destruct Hext as (_ & new & Hnew & Hf). exists c, c', new.
  split_and!; [done|done|done|exact (Hd c' Hc')| | |exact (ext_scope _ _ _ _ _ He)].
  - rewrite Forall_forall in Hf. intros pos bc Hin. destruct (Hf _ Hin) as (_ & Hw & [Hb|[]]). done.
  - intros i ci Hne Hci. destruct (ext_c _ _ _ _ _ He i ci Hci) as (ci' & Hci' & _ & _ & _ & Hk).
    exists ci'. split; [done|]. by rewrite (proj2 (Nat.eqb_neq i cid)) in Hk.
Qed.

(** Capturing a variable of an enclosing function never fails; the ordinal
    returned reaches the variable through the chain of enclosing functions, other
    than through ordinal 0, which is [self], and the upvalues captured before
    keep their ordinals. *)
Theorem AddUpvalue_reaches `{!EncodingLaws bcLength} known this var s b x d :
  Inv HashString bcLength known s -> Bs s !! this = Some b -> m_owningContext b = this ->
  Vs s !! var = Some x -> Bs s !! var_bctx x = Some d ->
  encloses (Bs s) this (m_owningContext d) -> this <> m_owningContext d ->
  exists ord s', AddUpvalue_top this var s = Ok (ord, s') /\ 0 < ord /\
    reaches (Bs s') (Vs s') this ord var /\ Inv HashString bcLength known s' /\
    forall i b0, Bs s !! i = Some b0 -> exists b1, Bs s' !! i = Some b1 /\ m_uvs b0 `prefix_of` m_uvs b1.
Proof.
  intros HI Hb Ho Hx Hd He Hne.
  destruct (wp_total _ _ _ (wp_AddUpvalue_top HashString bcLength known (fun _ => False)
    this var s b x d HI Hb Ho Hx Hd He Hne)) as (ord & s' & Hr & Hstep & Hpos & b' & uv & Hb' & Huv & Hv).
  pose proof (Inv_bstep _ _ _ _ _ HI Hstep) as HI'. exists ord, s'. split_and!; [done|done| |done|].
  - destruct (bs_b _ _ Hstep _ _ Hb) as (b2 & Hb2 & _ & Ho2 & _). assert (b2 = b') as -> by congruence.
    eapply captured_reaches; [exact (inv_b _ _ _ _ HI')|done|congruence|done|done|done].
  - intros i b0 Hi. destruct (bs_b _ _ Hstep _ _ Hi) as (b1 & Hb1 & _ & _ & _ & _ & _ & Hp). by exists b1.
Qed.
End properties.

(** ** Concrete methods *)
Definition no_hash : string -> Z := fun _ => 0%Z.
Definition eight : Bytecode -> nat := fun _ => 8.
Definition no_constants : Bytecode -> list Cst := fun _ => [].

#[export] Instance eight_laws : EncodingLaws eight.
Proof. split; [intros; unfold eight; lia|done|done]. Qed.

(** After start-up, with [foo:] interned. *)
Definition sample_start : VMStrings * StringInterner :=
  match InitializeStrings no_hash empty_interner with
  | Ok (vm, it) => (vm, (InternString no_hash "foo:" it).2)
  | Err _ => (started_strings no_hash, empty_interner)
  end.
Definition sample_env : CompileEnv := mk_env sample_start.1 ∅ false None.
Definition sample_state : @CState unit :=
  mk_cstate (mk_globals sample_start.2 ∅ [] []) [] [] [] ∅ [].
Definition sample_foo : nat := 49.

(** [run: y = ( | x | x := self foo: [ x ]. ^ x )] *)
Definition stale_method : AstMethod :=
  mk_ast_method MK_Keyword false sample_foo ["y"] ["x"]
    [AstAssignation ["x"] (AstKeywordCall sample_foo (AstVariableUse "self")
       [AstNestedBlock [] [] [AstVariableUse "x"]]);
     AstReturn (AstVariableUse "x")].
Definition run_sample : result (unit * @CState unit) :=
  CompileMethod no_hash eight no_constants 10 sample_env stale_method sample_state.

Lemma sample_started :
  vm_started no_hash (e_vm sample_env) sample_start.2 /\ interner_wf no_hash sample_start.2.
Proof.
  destruct (wp_total _ _ _ (InitializeStrings_wp no_hash)) as (vm & it & Hr & -> & Hwf & _).
  unfold sample_env, sample_start. simpl e_vm. rewrite Hr. simpl.
  pose proof (InternString_wf no_hash "foo:" it Hwf) as Hwf'. split; [|done]. split; [done|].
  exists it. split; [done|]. by apply InternString_le.
Qed.

Lemma sample_compilable : compilable no_hash 10 sample_env stale_method sample_state.
Proof.
  split; [apply sample_started|apply empty_globals_wf, sample_started|vm_compute; reflexivity|vm_compute; lia].
Qed.

(** A block can capture a variable before the assignment it appears in
    stores the value: the left-hand side of an assignment is marked as written
    before the right-hand side is compiled, so that the variable still counts as
    immutable when the block captures it, and the block keeps the value it was
    created with although the method stores another one afterwards. *)
Example assigned_variable_captured_immutable :
  exists s' method block k j bc,
    run_sample = Ok (tt, s') /\
    cs_ctxs s' !! 0 = Some method /\ cs_ctxs s' !! 1 = Some block /\
    m_upvalueInfo (m_resultUcb block) !! 1 = Some (mk_uvmeta true true 2) /\
    code (m_builder method) !! k = Some (16, BcNewClosure (CstUnlinkedCodeBlock 1) 8) /\
    code (m_builder method) !! j = Some bc /\ k < j /\ bc_writes bc.2 2.
Proof.
  eexists _, _, _, 2, 3, _. split; [vm_compute; reflexivity|].
  split_and!; [vm_compute; reflexivity..|lia|]. vm_compute. by right.
Qed.

(** ** The theorems at these methods *)
Definition sample_result : @CState unit :=
  match run_sample with Ok (_, s) => s | Err _ => sample_state end.
Lemma run_sample_Ok : run_sample = Ok (tt, sample_result).
Proof. vm_compute. reflexivity. Qed.

Lemma CompileMethod_terminates_witness :
  match run_sample with
  | Ok (_, s') => length (cs_ctxs s') > 0
  | Err e => compile_error false e
  end.
Proof. exact (CompileMethod_terminates no_hash eight no_constants 10 sample_env stale_method sample_state sample_compilable). Defined.

Lemma CompileMethod_code_safe_witness :
  exists c, cs_ctxs sample_result !! 0 = Some c /\
  builder_wf eight (m_builder c) /\
  forall pos bc, (pos, bc) ∈ code (m_builder c) ->
    bc_ok (m_stackFrameNumSlots (m_resultUcb c) - 1) (length (m_upvalueInfo (m_resultUcb c))) bc /\
    branch_ok (m_builder c) (pos, bc).
Proof.
  eexists. split; [vm_compute; reflexivity|].
  eapply (CompileMethod_code_safe no_hash eight no_constants 10 sample_env stale_method sample_state tt
    sample_result 0 _ sample_compilable run_sample_Ok). vm_compute. reflexivity.
Defined.

Lemma CompileMethod_upvalues_resolve_witness :
  exists j slot cj, upvalue_home 2 (cs_ctxs sample_result) 1 1 = Some (j, slot) /\ j < 1 /\
    cs_ctxs sample_result !! j = Some cj /\ slot < m_stackFrameNumSlots (m_resultUcb cj).
Proof.
  eapply (CompileMethod_upvalues_resolve no_hash eight no_constants 10 sample_env stale_method sample_state tt
    sample_result 1 _ 1 sample_compilable run_sample_Ok); [vm_compute; reflexivity|vm_compute; lia].
Defined.

Lemma CompileMethod_preserves_self_witness :
  exists c, cs_ctxs sample_result !! 0 = Some c /\ (24, BcSOMCall 3 (CstSelector (mk_uniqued 49 0)) 2 2) ∈ code (m_builder c) /\
    ~ bc_writes (BcSOMCall 3 (CstSelector (mk_uniqued 49 0)) 2 2) 0.
Proof.
  eexists. split; [vm_compute; reflexivity|]. split; [vm_compute; set_solver|].
  eapply (CompileMethod_preserves_self no_hash eight no_constants 10 sample_env stale_method sample_state tt
    sample_result _ sample_compilable run_sample_Ok); [vm_compute; reflexivity|].
  apply (list_elem_of_lookup_2 _ 3). vm_compute. reflexivity.
Defined.

(** A method under construction, in which [1] is compiled into slot 1. *)
Definition sample_open : @CState unit := method_start (cs_globals sample_state) [].

Lemma compile_expression_slots_witness :
  exists s' c' new, compile no_hash eight no_constants 1 sample_env 0 0 (AstInteger 1) 1 1 false sample_open = Ok (tt, s') /\
    cs_ctxs s' !! 0 = Some c' /\ code (m_builder c') = new /\
    forall pos bc, (pos, bc) ∈ new -> forall n, bc_writes bc n -> 1 <= n \/ n = 1 \/ in_scope 0 sample_open n.
Proof.
  destruct (Inv_method_start no_hash eight sample_env sample_start.2 (proj1 sample_started) (cs_globals sample_state) []
    (cp_globals _ _ _ _ _ sample_compilable) eq_refl) as [HI Hh].
  pose proof (compile_expression_slots no_hash eight no_constants sample_start.2 sample_env 1 (AstInteger 1)
    0 0 1 1 false sample_open (proj1 sample_started) HI Hh eq_refl (le_n 1) ltac:(lia)) as H.
  destruct (compile no_hash eight no_constants 1 sample_env 0 0 (AstInteger 1) 1 1 false sample_open) as [[u s']|e] eqn:Hr.
  - destruct H as (c & c' & new & Hc & Hc' & Hn & _ & Hw & _). injection Hc as <-. simpl in Hn.
    exists s', c', new. destruct u. split_and!; [done|done|done|]. intros pos bc Hin. exact (proj2 (Hw pos bc Hin)).
  - vm_compute in Hr. discriminate Hr.
Defined.

(** A method with a variable [x] in slot 1, and a block in it. *)
Definition sample_nested : @CState unit :=
  mk_cstate (cs_globals sample_state) [new_LocalVarInfo 0 1]
    [new_block_context 0 None None;
     mk_bctx 0 (Some 0) 1 (Some 0) false false false false None [mk_uvinfo true None None None] ∅]
    [set_topSlot 1 (set_resultBCtx 0 new_context);
     mk_ctx 0 new_builder [] (mk_ucb (Some 0) 1 SOM_BlockNoArg SOM_NormalMethod TfNone 0 []) (Some 1)]
    ∅ [].

Lemma sample_nested_bctx : binv (Bs sample_nested) (Vs sample_nested).
Proof.
  intros [|[|i]] b; simpl; [| |done]; intros [= <-]; split; simpl; try done; try lia.
  - by eexists.
  - by eexists.
  - intros p [= <-]. split; [lia|]. by eexists.
  - intros [|[|n]] uv; simpl; [lia|done|done].
Qed.

Lemma sample_nested_ctx : cinv eight (Bs sample_nested) (Vs sample_nested) (cs_ctxs sample_nested).
Proof.
  intros [|[|i]] c; simpl; [| |done]; intros [= <-].
  - exists 0, (erase_b (new_block_context 0 None None)). split; simpl; try done; try apply Forall_nil_2; try apply NoDup_nil_2.
    + intros [|v] x d; simpl; [|done]. intros [= <-] _ _. simpl. lia.
    + intros [|[|j]] b; simpl; try done; intros [= <-]; simpl; intros; split; try done; lia.
  - eexists 1, _. split; simpl; try done; try apply Forall_nil_2; try apply NoDup_nil_2.
    + intros p [= <-]. eexists 0, _. split_and!; [done|lia|done|done].
    + intros [|v] x d; simpl; [|done]. intros [= <-] [= <-]. done.
    + intros [|[|j]] b; simpl; try done; intros [= <-]; simpl; intros; split; try done; lia.
Qed.

Lemma sample_nested_Inv : Inv no_hash eight 0 sample_nested.
Proof.
  split; [exact sample_nested_bctx| |exact sample_nested_ctx| | | |lia].
  - intros [|v] x; simpl; [|done]. intros [= <-]. simpl. split; [lia|by eexists].
  - simpl. apply NoDup_cons. split; [|apply NoDup_singleton]. by intros H%list_elem_of_singleton.
  - intros x v Hin. by apply elem_of_nil in Hin.
  - apply sample_compilable.
Qed.

Lemma AddUpvalue_reaches_witness :
  exists ord s', AddUpvalue_top 1 0 sample_nested = Ok (ord, s') /\ 0 < ord /\
    reaches (Bs s') (Vs s') 1 ord 0.
Proof.
  destruct (AddUpvalue_reaches no_hash eight 0 1 0 sample_nested _ _ _ sample_nested_Inv eq_refl eq_refl eq_refl eq_refl)
    as (ord & s' & H1 & H2 & H3 & _); [|done|by exists ord, s'].
  apply rtc_once. by eexists.
Defined.
