(* ===== verification/OpenUpvalues.v ===== *)
(** * Open upvalues

    Models [Upvalue] and [CoroutineRuntimeContext::CloseUpvalues] of
    [runtime/runtime_utils.h].  Upvalues live in a heap and are named by their
    index; stack slots are named by their index from the stack's start, so that
    comparing [TValue*] pointers into the stack is comparing indices.  [m_ptr] is
    [None] when it points to the upvalue's own [m_tv].

    The second half is the specification: a machine in which every captured
    variable lives in a box of its own, and the theorem that the open-upvalue
    list cannot be told from it. *)
From S2P Require Import Prelude.

Section upvalues.
Context {V : Type}.

Record Upvalue : Type := mk_upvalue {
  m_ptr : option nat;
  m_isClosed : bool;
  uv_immutable : bool;
  m_tv : option V;          (* [None]: not written yet *)
  m_prev : option nat
}.

Record RContext : Type := mk_rcontext {
  rc_heap : list Upvalue;
  m_upvalueList : option nat;
  rc_stack : list V
}.

Notation C := (M RContext).

Definition bad_upvalue : error := UndefinedBehaviour "not an upvalue".
Definition bad_slot : error := UndefinedBehaviour "slot outside the stack".
Definition heap_pointer : error := UndefinedBehaviour "comparison of a stack and a heap pointer".

Definition the_upvalue (r : nat) : C Upvalue := fun s =>
  match rc_heap s !! r with Some u => Ok (u, s) | None => Err bad_upvalue end.
Definition load_slot (n : nat) : C V := fun s =>
  match rc_stack s !! n with Some v => Ok (v, s) | None => Err bad_slot end.
Definition store_slot (n : nat) (v : V) : C unit := fun s =>
  match rc_stack s !! n with
  | Some _ => Ok (tt, mk_rcontext (rc_heap s) (m_upvalueList s) (<[n := v]> (rc_stack s)))
  | None => Err bad_slot
  end.
Definition set_upvalue (r : nat) (f : Upvalue -> Upvalue) : C unit :=
  modify (fun s => mk_rcontext (alter f r (rc_heap s)) (m_upvalueList s) (rc_stack s)).
Definition set_list (l : option nat) : C unit :=
  modify (fun s => mk_rcontext (rc_heap s) l (rc_stack s)).

(** [m_ptr] as a stack slot, for the comparisons of the list. *)
Definition stack_ptr (u : Upvalue) : C nat :=
  match m_ptr u with Some n => mret n | None => fail heap_pointer end.

Definition alloc (u : Upvalue) : C nat := fun s =>
  Ok (length (rc_heap s), mk_rcontext (rc_heap s ++ [u]) (m_upvalueList s) (rc_stack s)).

Definition CreateUpvalueImpl (prev : option nat) (dst : nat) (isImmutable : bool) : C nat :=
  alloc (mk_upvalue (Some dst) false isImmutable None prev).

Definition CreateClosed (val : V) : C nat := alloc (mk_upvalue None true false (Some val) None).

Definition set_prev (prev : option nat) (u : Upvalue) : Upvalue :=
  mk_upvalue (m_ptr u) (m_isClosed u) (uv_immutable u) (m_tv u) prev.

Definition assert (b : bool) (what : string) : C unit := check b (AssertFailed what).

(** The search loop of [Create]: an open upvalue for [dst], or the two nodes it
    belongs between. *)
Fixpoint find_position (fuel : nat) (dst cur curVal : nat) : C (nat + nat * option nat) :=
  match fuel with
  | O => fail OutOfFuel
  | S fuel' =>
      u ← the_upvalue cur;
      assert (negb (m_isClosed u)) "!cur->m_isClosed" ;;
      assert (dst <=? curVal) "dst <= curVal" ;;
      if curVal =? dst then mret (inl cur)
      else
        match m_prev u with
        | None => mret (inr (cur, None))
        | Some prev =>
            p ← the_upvalue prev;
            assert (negb (m_isClosed p)) "!prev.As()->m_isClosed" ;;
            prevVal ← stack_ptr p;
            assert (prevVal <? curVal) "prevVal < curVal" ;;
            if prevVal <? dst then mret (inr (cur, Some prev))
            else find_position fuel' dst prev prevVal
        end
  end.

Definition Create_new (dst : nat) (isImmutable : bool) : C nat :=
  s ← get_st;
  newNode ← CreateUpvalueImpl (m_upvalueList s) dst isImmutable;
  set_list (Some newNode) ;;
  mret newNode.

Definition Create_search (head dst curVal : nat) (isImmutable : bool) : C nat :=
  s ← get_st;
  found ← find_position (length (rc_heap s)) dst head curVal;
  match found with
  | inl cur => mret cur
  | inr (cur, prev) =>
      u ← the_upvalue cur;
      curVal ← stack_ptr u;
      assert (bool_decide (prev = m_prev u)) "prev == TCGet(cur->m_prev)" ;;
      assert (dst <? curVal) "dst < curVal" ;;
      (match prev with
       | None => mret tt
       | Some p => u ← the_upvalue p; v ← stack_ptr u; assert (v <? dst) "prev.As()->m_ptr < dst"
       end) ;;
      newNode ← CreateUpvalueImpl prev dst isImmutable;
      set_upvalue cur (set_prev (Some newNode)) ;;
      mret newNode
  end.

Definition Create (dst : nat) (isImmutable : bool) : C nat :=
  s ← get_st;
  match m_upvalueList s with
  | None => Create_new dst isImmutable
  | Some head =>
      u ← the_upvalue head;
      curVal ← stack_ptr u;
      if curVal <? dst then Create_new dst isImmutable
      else Create_search head dst curVal isImmutable
  end.

Definition close_with (v : V) (u : Upvalue) : Upvalue :=
  mk_upvalue None true (uv_immutable u) (Some v) (m_prev u).

Definition Close (r : nat) : C unit :=
  u ← the_upvalue r;
  assert (negb (m_isClosed u)) "!m_isClosed" ;;
  match m_ptr u with
  | None => fail (AssertFailed "m_ptr != &m_tv")
  | Some n =>
      v ← load_slot n;
      set_upvalue r (close_with v)
  end.

Fixpoint CloseUpvalues_loop (fuel : nat) (base : nat) (cur : option nat) : C unit :=
  match fuel with
  | O => fail OutOfFuel
  | S fuel' =>
      match cur with
      | None => set_list None
      | Some r =>
          u ← the_upvalue r;
          n ← stack_ptr u;
          if n <? base then set_list (Some r)
          else
            assert (negb (m_isClosed u)) "!cur.As()->m_isClosed" ;;
            (match m_prev u with
             | None => mret tt
             | Some p => pu ← the_upvalue p; k ← stack_ptr pu; assert (k <? n) "cur.As()->m_ptr < uv->m_ptr"
             end) ;;
            Close r ;;
            CloseUpvalues_loop fuel' base (m_prev u)
      end
  end.

Definition CloseUpvalues (base : nat) : C unit :=
  s ← get_st;
  CloseUpvalues_loop (S (length (rc_heap s))) base (m_upvalueList s).

(** [*uv->m_ptr], and the assignment through it. *)
Definition UpvalueGet (r : nat) : C V :=
  u ← the_upvalue r;
  match m_ptr u with
  | Some n => load_slot n
  | None => match m_tv u with Some v => mret v | None => fail (UndefinedBehaviour "m_tv is not initialised") end
  end.

Definition set_tv (v : V) (u : Upvalue) : Upvalue :=
  mk_upvalue (m_ptr u) (m_isClosed u) (uv_immutable u) (Some v) (m_prev u).
Definition UpvaluePut (r : nat) (v : V) : C unit :=
  u ← the_upvalue r;
  match m_ptr u with
  | Some n => store_slot n v
  | None => set_upvalue r (set_tv v)
  end.

(** ** The invariant *)

(** The list from [hd]: pairs of an open upvalue and its slot, slots descending. *)
Fixpoint chain (heap : list Upvalue) (hd : option nat) (l : list (nat * nat)) : Prop :=
  match l with
  | [] => hd = None
  | (r, n) :: l' =>
      hd = Some r /\
      (exists u, heap !! r = Some u /\ m_ptr u = Some n /\ m_isClosed u = false /\ chain heap (m_prev u) l') /\
      Forall (fun e => e.2 < n) l'
  end.

Record rc_ok (hd : option nat) (l : list (nat * nat)) (s : RContext) : Prop := {
  rk_chain : chain (rc_heap s) hd l;
  rk_open r u n : rc_heap s !! r = Some u -> m_ptr u = Some n -> (r, n) ∈ l;
  rk_closed r u : rc_heap s !! r = Some u -> m_ptr u = None -> m_isClosed u = true /\ is_Some (m_tv u);
  rk_slots r n : (r, n) ∈ l -> n < length (rc_stack s)
}.
Definition rc_wf (s : RContext) : Prop := exists l, rc_ok (m_upvalueList s) l s.

(** Upvalue [r] is open at slot [n]; the value seen through an upvalue. *)
Definition open_at (s : RContext) (n r : nat) : Prop :=
  exists u, rc_heap s !! r = Some u /\ m_ptr u = Some n.
Definition seen (s : RContext) (r : nat) : option V :=
  u ← rc_heap s !! r;
  match m_ptr u with Some n => rc_stack s !! n | None => m_tv u end.

(** ** The list *)
Lemma chain_lookup heap hd l r n :
  chain heap hd l -> (r, n) ∈ l -> exists u, heap !! r = Some u /\ m_ptr u = Some n /\ m_isClosed u = false.
Proof.
  revert hd. induction l as [|[r' n'] l IH]; simpl; intros hd Hc Hin; [set_solver|].
  destruct Hc as (_ & (u & Hu & Hp & Hcl & Hrest) & _).
  apply elem_of_cons in Hin as [[= -> ->]|Hin]; [by exists u|by eapply IH].
Qed.

Lemma chain_below heap hd l r n r' n' :
  chain heap hd ((r, n) :: l) -> (r', n') ∈ l -> n' < n /\ r' <> r.
Proof.
  intros (_ & (u & Hu & Hp & _ & Hrest) & Hlt) Hin.
  rewrite Forall_forall in Hlt. pose proof (Hlt _ Hin) as Hn. split; [exact Hn|]. intros ->.
  destruct (chain_lookup _ _ _ _ _ Hrest Hin) as (u' & Hu' & Hp' & _). simpl in Hn.
  assert (n' = n) by congruence. lia.
Qed.

Lemma chain_change heap heap' hd l :
  (forall r n, (r, n) ∈ l -> heap' !! r = heap !! r) -> chain heap hd l -> chain heap' hd l.
Proof.
  revert hd. induction l as [|[r n] l IH]; simpl; intros hd Heq; [done|].
  intros (Hr & (u & Hu & Hp & Hc & Hrest) & Hlt). split_and!; [done| |done].
  exists u. rewrite (Heq r n) by (by left). split_and!; [done..|].
  apply IH; [|done]. intros r' n' Hin. apply (Heq r' n'). by right.
Qed.

Lemma chain_NoDup heap hd l : chain heap hd l -> NoDup l.*1.
Proof.
  revert hd. induction l as [|[r n] l IH]; simpl; intros hd Hc; [constructor|].
  apply NoDup_cons. split.
  - intros ([r' n'] & Hr & Hin)%list_elem_of_fmap. simpl in Hr. subst r'.
    by destruct (chain_below _ _ _ _ _ _ _ Hc Hin).
  - destruct Hc as (_ & (u & _ & _ & _ & Hrest) & _). by eapply IH.
Qed.

Lemma chain_length heap hd l : chain heap hd l -> length l <= length heap.
Proof.
  intros Hc. rewrite <-(length_fmap fst l), <-(length_seq (length heap) 0).
  apply submseteq_length, NoDup_submseteq; [by eapply chain_NoDup|].
  intros r ([r' n] & -> & Hin)%list_elem_of_fmap.
  destruct (chain_lookup _ _ _ _ _ Hc Hin) as (u & Hu%lookup_lt_Some & _). apply elem_of_seq. simpl. lia.
Qed.

Lemma chain_tail heap hd l1 r n l2 :
  chain heap hd (l1 ++ (r, n) :: l2) -> exists u, heap !! r = Some u /\ m_ptr u = Some n /\
    m_isClosed u = false /\ chain heap (m_prev u) l2 /\ Forall (fun e => e.2 < n) l2 /\
    forall r' n', (r', n') ∈ l1 ++ l2 -> r' <> r.
Proof.
  revert hd. induction l1 as [|[r1 n1] l1 IH]; intros hd Hc.
  - pose proof Hc as (_ & (u & Hu & Hp & Hcl & Hrest) & Hlt). exists u. split_and!; try done.
    intros r' n' Hin. by destruct (chain_below _ _ _ _ _ _ _ Hc Hin).
  - pose proof Hc as (_ & (u1 & _ & _ & _ & Hrest) & _).
    destruct (IH _ Hrest) as (u & ? & ? & ? & ? & ? & Hne). exists u. split_and!; try done.
    intros r' n' [[= -> ->]|Hin]%elem_of_cons; [|by eapply Hne].
    assert (Hin : (r, n) ∈ l1 ++ (r, n) :: l2) by (apply elem_of_app; right; by left).
    destruct (chain_below _ _ _ _ _ _ _ Hc Hin) as [_ Hne1]. congruence.
Qed.

(** A new node behind [c]. *)
Lemma chain_insert heap heap' hd l1 c cv l2 uc new unew dst :
  chain heap hd (l1 ++ (c, cv) :: l2) -> heap !! c = Some uc ->
  heap' !! c = Some (set_prev (Some new) uc) -> heap' !! new = Some unew ->
  (forall r n, (r, n) ∈ l1 ++ l2 -> heap' !! r = heap !! r) ->
  m_ptr unew = Some dst -> m_isClosed unew = false -> m_prev unew = m_prev uc ->
  dst < cv -> Forall (fun e => e.2 < dst) l2 ->
  chain heap' hd (l1 ++ (c, cv) :: (new, dst) :: l2).
Proof.
  intros Hc Huc Hc' Hnew Hoth Hp Hcl Hpr Hlt Hall. revert hd Hc Hoth.
  induction l1 as [|[r n] l1 IH]; intros hd Hc Hoth; simpl in *.
  - destruct Hc as (Hhd & (u & Hu & Hpu & Hclu & Hrest) & Hl). assert (u = uc) as -> by congruence.
    split_and!; [done| |by constructor]. eexists. split_and!; [exact Hc'|done|done|done| |done].
    exists unew. split_and!; [done..|]. rewrite Hpr.
    by apply (chain_change heap).
  - destruct Hc as (Hhd & (u & Hu & Hpu & Hclu & Hrest) & Hl). split_and!; [done| |].
    + exists u. rewrite (Hoth r n) by (by left). split_and!; [done..|]. apply IH; [done|].
      intros r' n' Hin. apply (Hoth r' n'). by right.
    + apply Forall_app in Hl as [Hl1 Hl2]. apply Forall_cons in Hl2 as [Hcv Hl2]. simpl in Hcv.
      apply Forall_app. split; [done|]. constructor; [done|]. constructor; [simpl; lia|done].
Qed.

(** ** The operations *)
Notation sure := (fun _ : error => False).

Lemma wp_the_upvalue E r u Q s : rc_heap s !! r = Some u -> Q u s -> wp E (the_upvalue r) Q s.
Proof. intros H HQ. unfold wp, the_upvalue. by rewrite H. Qed.
Lemma wp_load_slot E n v Q s : rc_stack s !! n = Some v -> Q v s -> wp E (load_slot n) Q s.
Proof. intros H HQ. unfold wp, load_slot. by rewrite H. Qed.
Lemma wp_stack_ptr E u n Q s : m_ptr u = Some n -> Q n s -> wp E (stack_ptr u) Q s.
Proof. intros H HQ. unfold stack_ptr. rewrite H. by apply wp_ret. Qed.
Lemma wp_assert E b what (Q : unit -> RContext -> Prop) s : b = true -> Q tt s -> wp E (assert b what) Q s.
Proof. intros -> HQ. by apply wp_ret. Qed.

Lemma chain_next heap hd r n l u :
  chain heap hd ((r, n) :: l) -> heap !! r = Some u ->
  match m_prev u with
  | None => l = []
  | Some p => exists k l', l = (p, k) :: l' /\ k < n
  end.
Proof.
  intros (_ & (u' & Hu & _ & _ & Hrest) & Hlt) Hr. assert (u' = u) as -> by congruence.
  destruct l as [|[p k] l]; [by rewrite Hrest|]. destruct Hrest as [-> _].
  apply Forall_cons in Hlt as [Hk _]. by exists k, l.
Qed.

(** The search ends at the upvalue for the slot, or at the node to insert behind. *)
Lemma wp_find_position fuel dst cur curVal l s :
  chain (rc_heap s) (Some cur) ((cur, curVal) :: l) -> length l < fuel -> dst <= curVal ->
  wp sure (find_position fuel dst cur curVal) (fun res s' => s' = s /\
    match res with
    | inl r => (r, dst) ∈ (cur, curVal) :: l
    | inr (c, p) => exists l1 cv l2, (cur, curVal) :: l = l1 ++ (c, cv) :: l2 /\ dst < cv /\
        Forall (fun e => e.2 < dst) l2 /\ chain (rc_heap s) p l2
    end) s.
Proof.
  revert cur curVal l. induction fuel as [|fuel IH]; intros cur curVal l Hc Hf Hd; [lia|].
  pose proof Hc as (_ & (u & Hu & Hp & Hcl & Hrest) & Hlt). cbn [find_position].
  apply wp_bind. eapply wp_the_upvalue; [exact Hu|]. apply wp_bind, wp_assert; [by rewrite Hcl|].
  apply wp_bind, wp_assert; [by apply Nat.leb_le|]. apply wp_if.
  { intros ->%Nat.eqb_eq. apply wp_ret. split; [done|by left]. }
  intros Hne%Nat.eqb_neq. pose proof (chain_next _ _ _ _ _ _ Hc Hu) as Hn.
  destruct (m_prev u) as [prev|].
  2: { subst l. apply wp_ret. split; [done|]. exists [], curVal, []. by split_and!; [|lia| |]. }
  destruct Hn as (k & l' & -> & Hk). pose proof Hrest as (_ & (pu & Hpu & Hpp & Hpc & _) & Hlt').
  apply wp_bind. eapply wp_the_upvalue; [exact Hpu|]. apply wp_bind, wp_assert; [by rewrite Hpc|].
  apply wp_bind. eapply wp_stack_ptr; [exact Hpp|]. apply wp_bind, wp_assert; [by apply Nat.ltb_lt|].
  apply wp_if.
  - intros Hkd%Nat.ltb_lt. apply wp_ret. split; [done|]. exists [], curVal, ((prev, k) :: l').
    split_and!; [done|lia| |done]. constructor; [done|].
    eapply Forall_impl; [exact Hlt'|]. simpl. intros. lia.
  - intros Hkd%Nat.ltb_ge. simpl in Hf. eapply wp_mono; [apply (IH prev k l'); [exact Hrest|lia|lia]|].
    intros [r|[c p]] s' [-> H]; (split; [done|]); [by right|].
    destruct H as (l1 & cv & l2 & -> & Hrest'). by exists ((cur, curVal) :: l1), cv, l2.
Qed.

(** What [Create] does: [r] is open at [dst] afterwards; it is a new upvalue
    unless there was one; nothing else changes. *)
Record created (dst : nat) (s : RContext) (r : nat) (s' : RContext) : Prop := {
  cr_wf : rc_wf s';
  cr_stack : rc_stack s' = rc_stack s;
  cr_old r0 : r0 < length (rc_heap s) -> seen s' r0 = seen s r0;
  cr_open n r0 : open_at s' n r0 <-> open_at s n r0 \/ (n = dst /\ r0 = r);
  cr_new : (exists r0, open_at s dst r0) -> s' = s;
  cr_fresh : (~ exists r0, open_at s dst r0) ->
               r = length (rc_heap s) /\ length (rc_heap s') = S (length (rc_heap s))
}.

Lemma open_in hd l s n r : rc_ok hd l s -> open_at s n r <-> (r, n) ∈ l.
Proof.
  intros Hok. split.
  - intros (u & Hu & Hp). by eapply rk_open.
  - intros Hin. destruct (chain_lookup _ _ _ _ _ (rk_chain _ _ _ Hok) Hin) as (u & ? & ? & _). by exists u.
Qed.

(** A slot has at most one open upvalue. *)
Lemma chain_slot_unique heap hd l r r' n : chain heap hd l -> (r, n) ∈ l -> (r', n) ∈ l -> r = r'.
Proof.
  revert hd. induction l as [|[r1 n1] l IH]; intros hd Hc; [set_solver|].
  pose proof Hc as (_ & (u & _ & _ & _ & Hrest) & _).
  intros [Heq1|H1]%elem_of_cons [Heq2|H2]%elem_of_cons; simplify_eq; [done| | |by eapply IH].
  - destruct (chain_below _ _ _ _ _ _ _ Hc H2). lia.
  - destruct (chain_below _ _ _ _ _ _ _ Hc H1). lia.
Qed.

Lemma open_at_unique s n r r' : rc_wf s -> open_at s n r -> open_at s n r' -> r = r'.
Proof.
  intros [l Hok] H1%(open_in _ _ _ _ _ Hok) H2%(open_in _ _ _ _ _ Hok).
  exact (chain_slot_unique _ _ _ _ _ _ (rk_chain _ _ _ Hok) H1 H2).
Qed.

(** A heap that is [s]'s but for a new open upvalue at [dst] and changed links. *)
Definition with_node (dst : nat) (s s' : RContext) : Prop :=
  rc_stack s' = rc_stack s /\ length (rc_heap s') = S (length (rc_heap s)) /\
  (exists u, rc_heap s' !! length (rc_heap s) = Some u /\ m_ptr u = Some dst) /\
  forall r u, rc_heap s !! r = Some u -> exists p, rc_heap s' !! r = Some (set_prev p u).

Lemma set_prev_same u : set_prev (m_prev u) u = u.
Proof. by destruct u. Qed.

Lemma with_node_created dst s s' hd l l' :
  rc_ok hd l s -> with_node dst s s' -> (~ exists r0, open_at s dst r0) -> dst < length (rc_stack s) ->
  chain (rc_heap s') (m_upvalueList s') l' ->
  (forall e, e ∈ l' <-> e = (length (rc_heap s), dst) \/ e ∈ l) ->
  created dst s (length (rc_heap s)) s'.
Proof.
  intros Hok (Hst & Hlen & (u & Hu & Hp) & Hold) Hno Hd Hch Hl'.
  assert (Hback : forall r u', rc_heap s' !! r = Some u' -> r <> length (rc_heap s) ->
            exists u0 p, rc_heap s !! r = Some u0 /\ u' = set_prev p u0).
  { intros r u' Hr Hne. pose proof (lookup_lt_Some _ _ _ Hr).
    destruct (lookup_lt_is_Some_2 (rc_heap s) r) as [u0 Hu0]; [lia|].
    destruct (Hold r u0 Hu0) as [p Hp']. exists u0, p. split; [done|congruence]. }
  assert (Hwf : rc_ok (m_upvalueList s') l' s').
  { split; [done| | |].
    - intros r u' n Hr Hn. apply Hl'. destruct (decide (r = length (rc_heap s))) as [->|Hne].
      + left. congruence.
      + destruct (Hback _ _ Hr Hne) as (u0 & p & Hu0 & ->). right. by eapply rk_open.
    - intros r u' Hr Hn. destruct (decide (r = length (rc_heap s))) as [->|Hne]; [congruence|].
      destruct (Hback _ _ Hr Hne) as (u0 & p & Hu0 & ->). by eapply (rk_closed _ _ _ Hok r u0).
    - intros r n Hin. rewrite Hst. apply Hl' in Hin as [[= -> ->]|Hin]; [done|by eapply rk_slots]. }
  split; [by exists l'|done| | |by intros|by intros].
  - intros r0 Hr0. destruct (lookup_lt_is_Some_2 _ _ Hr0) as [u0 Hu0]. destruct (Hold r0 u0 Hu0) as [p Hp0].
    unfold seen. by rewrite Hp0, Hu0, Hst.
  - intros n r0. rewrite (open_in _ _ _ _ _ Hwf), (open_in _ _ _ _ _ Hok), Hl'. naive_solver.
Qed.

(** The new node goes in front of the list. *)
Lemma wp_Create_new dst imm s l :
  rc_ok (m_upvalueList s) l s -> Forall (fun e => e.2 < dst) l -> dst < length (rc_stack s) ->
  wp sure (Create_new dst imm) (created dst s) s.
Proof.
  intros Hok Hl Hd. apply wp_bind, wp_get, wp_bind. unfold wp, CreateUpvalueImpl, alloc. simpl.
  apply (with_node_created dst s _ (m_upvalueList s) l ((length (rc_heap s), dst) :: l)); try done.
  - split_and!; simpl; [done|rewrite length_app; simpl; lia| |].
    + eexists. by rewrite list_lookup_middle.
    + intros r u Hr. exists (m_prev u). rewrite set_prev_same. by apply lookup_app_Some_l.
  - intros (r & Hr%(open_in _ _ _ _ _ Hok)). rewrite Forall_forall in Hl. specialize (Hl _ Hr). simpl in Hl. lia.
  - simpl. split_and!; [done| |done]. eexists. rewrite list_lookup_middle by done. split_and!; [done..|]. simpl.
    apply (chain_change (rc_heap s)); [|apply Hok]. intros r n Hin.
    destruct (chain_lookup _ _ _ _ _ (rk_chain _ _ _ Hok) Hin) as (u & Hu & _).
    rewrite Hu. by apply lookup_app_Some_l.
  - intros e. by rewrite elem_of_cons.
Qed.

(** The new node goes behind node [c]. *)
Lemma wp_Create_behind dst imm s l1 c cv l2 p :
  rc_ok (m_upvalueList s) (l1 ++ (c, cv) :: l2) s -> dst < cv -> Forall (fun e => e.2 < dst) l2 ->
  Forall (fun e => dst < e.2) l1 -> chain (rc_heap s) p l2 -> dst < length (rc_stack s) ->
  wp sure (newNode ← CreateUpvalueImpl p dst imm;
           set_upvalue c (set_prev (Some newNode)) ;; mret newNode) (created dst s) s.
Proof.
  intros Hok Hcv Hl2 Hl1 Hp Hd.
  destruct (chain_tail _ _ _ _ _ _ (rk_chain _ _ _ Hok)) as (uc & Huc & Hpc & Hcc & Hrest & _ & Hne).
  assert (Hpp : p = m_prev uc).
  { destruct l2 as [|[k kn] l2]; simpl in *; [congruence|]. destruct Hp, Hrest. congruence. }
  set (heap1 := rc_heap s ++ [mk_upvalue (Some dst) false imm None p]).
  assert (Hclt : c < length (rc_heap s)) by (by eapply lookup_lt_Some).
  assert (Hoth : forall r, r <> c -> alter (set_prev (Some (length (rc_heap s)))) c heap1 !! r = heap1 !! r).
  { intros r Hr. by rewrite list_lookup_alter_ne. }
  unfold wp, CreateUpvalueImpl, alloc. simpl.
  eapply (with_node_created dst s _ (m_upvalueList s) _ (l1 ++ (c, cv) :: (length (rc_heap s), dst) :: l2) Hok).
  - split_and!; simpl; [done|rewrite length_alter; unfold heap1; rewrite length_app; simpl; lia| |].
    + eexists. fold heap1. rewrite Hoth by lia. unfold heap1. by rewrite list_lookup_middle.
    + intros r u Hr. fold heap1. destruct (decide (r = c)) as [->|Hrc].
      * assert (u = uc) as -> by congruence. eexists. rewrite list_lookup_alter_eq. unfold heap1.
        by rewrite (lookup_app_Some_l _ _ _ _ Huc).
      * exists (m_prev u). rewrite set_prev_same, Hoth by done. by apply lookup_app_Some_l.
  - intros (r & Hr%(open_in _ _ _ _ _ Hok)). rewrite Forall_forall in Hl1, Hl2.
    apply elem_of_app in Hr as [Hr|[Hr|Hr]%elem_of_cons].
    + specialize (Hl1 _ Hr). simpl in Hl1. lia.
    + simplify_eq. lia.
    + specialize (Hl2 _ Hr). simpl in Hl2. lia.
  - done.
  - simpl. fold heap1. apply (chain_insert (rc_heap s) _ _ l1 c cv l2 uc _ (mk_upvalue (Some dst) false imm None p)); try done.
    + apply Hok.
    + rewrite list_lookup_alter_eq. unfold heap1. by rewrite (lookup_app_Some_l _ _ _ _ Huc).
    + rewrite Hoth by lia. unfold heap1. by rewrite list_lookup_middle.
    + intros r n Hin. rewrite Hoth by (by eapply Hne). unfold heap1.
      assert (Hin' : (r, n) ∈ l1 ++ (c, cv) :: l2) by set_solver.
      destruct (chain_lookup _ _ _ _ _ (rk_chain _ _ _ Hok) Hin') as (u & Hu & _).
      rewrite Hu. by apply lookup_app_Some_l.
  - intros e. set_solver.
Qed.

Lemma chain_above heap hd l1 c cv l2 :
  chain heap hd (l1 ++ (c, cv) :: l2) -> Forall (fun e => cv < e.2) l1.
Proof.
  revert hd. induction l1 as [|[r n] l1 IH]; intros hd Hc; [constructor|].
  pose proof Hc as (_ & (u & _ & _ & _ & Hrest) & _). constructor; [|by eapply IH].
  refine (proj1 (chain_below _ _ _ _ _ c cv Hc _)). set_solver.
Qed.

Lemma wp_Create_search head dst curVal imm s l :
  rc_ok (m_upvalueList s) ((head, curVal) :: l) s -> dst <= curVal -> dst < length (rc_stack s) ->
  wp sure (Create_search head dst curVal imm) (created dst s) s.
Proof.
  intros Hok Hd Hlt. pose proof (rk_chain _ _ _ Hok) as Hc. pose proof (proj1 Hc) as Hhd. rewrite Hhd in Hc.
  apply wp_bind, wp_get, wp_bind. eapply wp_mono.
  { eapply (wp_find_position _ dst head curVal l); [exact Hc| |done]. apply chain_length in Hc. simpl in Hc. lia. }
  intros [r|[c p]] s1 [-> H].
  - apply wp_ret. assert (Hr : open_at s dst r) by (by eapply open_in).
    assert (Hwf : rc_wf s) by (by eexists).
    split; try done.
    + intros n r0. split; [by left|]. by intros [|[-> ->]].
    + intros H'. destruct H'. by exists r.
  - destruct H as (l1 & cv & l2 & Hl & Hcv & Hl2 & Hp). rewrite Hl in Hc, Hok.
    pose proof (chain_above _ _ _ _ _ _ Hc) as Hab.
    destruct (chain_tail _ _ _ _ _ _ Hc) as (uc & Huc & Hpc & _ & Hrest & _).
    apply wp_bind. eapply wp_the_upvalue; [exact Huc|]. apply wp_bind. eapply wp_stack_ptr; [exact Hpc|].
    apply wp_bind, wp_assert.
    { apply bool_decide_eq_true. destruct l2 as [|[k kn] l2]; simpl in *; [congruence|]. destruct Hp, Hrest. congruence. }
    apply wp_bind, wp_assert; [by apply Nat.ltb_lt|]. apply wp_bind.
    apply wp_mono with (Q := fun _ s' => s' = s).
    { destruct l2 as [|[k kn] l2]; simpl in Hp; [rewrite Hp; by apply wp_ret|].
      destruct Hp as (-> & (u & Hu & Hpu & _) & _). apply wp_bind. eapply wp_the_upvalue; [exact Hu|].
      apply wp_bind. eapply wp_stack_ptr; [exact Hpu|]. apply wp_assert; [|done].
      apply Forall_cons in Hl2 as [Hk _]. by apply Nat.ltb_lt. }
    intros _ ? ->. eapply wp_Create_behind; try done. eapply Forall_impl; [exact Hab|]. simpl. intros. lia.
Qed.

Lemma wp_Create dst imm s :
  rc_wf s -> dst < length (rc_stack s) -> wp sure (Create dst imm) (created dst s) s.
Proof.
  intros [l Hok] Hd. apply wp_bind, wp_get. pose proof (rk_chain _ _ _ Hok) as Hc.
  destruct l as [|[head cv] l].
  { rewrite Hc. by eapply wp_Create_new. }
  pose proof Hc as (-> & (u & Hu & Hp & _) & Hlt).
  apply wp_bind. eapply wp_the_upvalue; [exact Hu|]. apply wp_bind. eapply wp_stack_ptr; [exact Hp|].
  apply wp_if.
  - intros Hcv%Nat.ltb_lt. eapply wp_Create_new; [exact Hok| |done]. constructor; [done|].
    eapply Forall_impl; [exact Hlt|]. simpl. intros. lia.
  - intros Hcv%Nat.ltb_ge. by eapply wp_Create_search.
Qed.

(** ** Closing *)
Record closed_upto (base : nat) (s s' : RContext) : Prop := {
  cu_stack : rc_stack s' = rc_stack s;
  cu_len : length (rc_heap s') = length (rc_heap s);
  cu_seen r : seen s' r = seen s r;
  cu_open n r : open_at s' n r <-> open_at s n r /\ n < base
}.

Definition close_node (r n : nat) (v : V) (s : RContext) : RContext :=
  mk_rcontext (alter (close_with v) r (rc_heap s)) (m_upvalueList s) (rc_stack s).

Lemma close_node_ok hd r n v l s u :
  rc_ok hd ((r, n) :: l) s -> rc_heap s !! r = Some u -> rc_stack s !! n = Some v ->
  rc_ok (m_prev u) l (close_node r n v s) /\
  (forall r', seen (close_node r n v s) r' = seen s r') /\
  (forall n' r', open_at (close_node r n v s) n' r' <-> open_at s n' r' /\ r' <> r).
Proof.
  intros Hok Hu Hv. pose proof (rk_chain _ _ _ Hok) as Hc.
  pose proof Hc as (_ & (u' & Hu' & Hp & Hcl & Hrest) & Hlt). assert (u' = u) as -> by congruence.
  assert (Hoth : forall r', r' <> r -> rc_heap (close_node r n v s) !! r' = rc_heap s !! r')
    by (intros; by apply list_lookup_alter_ne).
  assert (Hr : rc_heap (close_node r n v s) !! r = Some (close_with v u))
    by (simpl; by rewrite list_lookup_alter_eq, Hu).
  split_and!.
  - split.
    + apply (chain_change (rc_heap s)); [|done]. intros r' n' Hin. apply Hoth.
      by destruct (chain_below _ _ _ _ _ _ _ Hc Hin).
    + intros r' u' n' Hr' Hn'. destruct (decide (r' = r)) as [->|Hne]; [rewrite Hr in Hr'; by simplify_eq|].
      rewrite Hoth in Hr' by done. pose proof (rk_open _ _ _ Hok _ _ _ Hr' Hn') as Hin.
      apply elem_of_cons in Hin as [|]; [by simplify_eq|done].
    + intros r' u' Hr' Hn'. destruct (decide (r' = r)) as [->|Hne].
      * rewrite Hr in Hr'. simplify_eq. simpl. by split; [|eexists].
      * rewrite Hoth in Hr' by done. by eapply (rk_closed _ _ _ Hok).
    + intros r' n' Hin. apply (rk_slots _ _ _ Hok r' n'). by right.
  - intros r'. unfold seen. destruct (decide (r' = r)) as [->|Hne]; [|by rewrite Hoth].
    rewrite Hr, Hu. simpl. by rewrite Hp.
  - intros n' r'. unfold open_at. destruct (decide (r' = r)) as [->|Hne].
    + rewrite Hr. split; [intros (u' & ? & ?); by simplify_eq|by intros [_ []]].
    + rewrite Hoth by done. naive_solver.
Qed.

Lemma wp_Close E r n v s u Q :
  rc_heap s !! r = Some u -> m_ptr u = Some n -> m_isClosed u = false -> rc_stack s !! n = Some v ->
  Q tt (close_node r n v s) -> wp E (Close r) Q s.
Proof.
  intros Hu Hp Hc Hv HQ. apply wp_bind. eapply wp_the_upvalue; [exact Hu|].
  apply wp_bind, wp_assert; [by rewrite Hc|]. rewrite Hp. apply wp_bind. eapply wp_load_slot; [exact Hv|].
  exact HQ.
Qed.

Lemma wp_CloseUpvalues_loop fuel base hd l s :
  rc_ok hd l s -> length l < fuel ->
  wp sure (CloseUpvalues_loop fuel base hd) (fun _ s' => rc_wf s' /\ closed_upto base s s') s.
Proof.
  revert hd l s. induction fuel as [|fuel IH]; intros hd l s Hok Hf; [lia|].
  assert (Hstop : Forall (fun e => e.2 < base) l ->
            let s' := mk_rcontext (rc_heap s) hd (rc_stack s) in rc_wf s' /\ closed_upto base s s').
  { intros Hall. split.
    - exists l. destruct Hok. by split.
    - split; try done. intros n r. split; [|by intros [H _]]. intros H. split; [done|].
      change (open_at s n r) in H. apply (open_in _ _ _ _ _ Hok) in H.
      rewrite Forall_forall in Hall. exact (Hall _ H). }
  cbn [CloseUpvalues_loop]. pose proof (rk_chain _ _ _ Hok) as Hc. destruct l as [|[r n] l].
  { rewrite Hc. apply wp_modify. simpl in Hc. rewrite Hc in Hstop. by apply Hstop. }
  pose proof Hc as (-> & (u & Hu & Hp & Hcl & Hrest) & Hlt).
  apply wp_bind. eapply wp_the_upvalue; [exact Hu|]. apply wp_bind. eapply wp_stack_ptr; [exact Hp|].
  apply wp_if; intros Hn.
  { apply Nat.ltb_lt in Hn. apply wp_modify, Hstop. constructor; [done|].
    eapply Forall_impl; [exact Hlt|]. simpl. intros. lia. }
  apply Nat.ltb_ge in Hn. apply wp_bind, wp_assert; [by rewrite Hcl|]. apply wp_bind.
  apply wp_mono with (Q := fun _ s' => s' = s).
  { pose proof (chain_next _ _ _ _ _ _ Hc Hu) as Hnx. destruct (m_prev u) as [p|]; [|by apply wp_ret].
    destruct Hnx as (k & l' & -> & Hk). destruct Hrest as (_ & (pu & Hpu & Hpp & _) & _).
    apply wp_bind. eapply wp_the_upvalue; [exact Hpu|]. apply wp_bind. eapply wp_stack_ptr; [exact Hpp|].
    apply wp_assert; [by apply Nat.ltb_lt|done]. }
  intros _ ? ->. destruct (lookup_lt_is_Some_2 (rc_stack s) n) as [v Hv].
  { apply (rk_slots _ _ _ Hok r). by left. }
  apply wp_bind. eapply wp_Close; try done. destruct (close_node_ok _ _ _ _ _ _ _ Hok Hu Hv) as (Hok1 & Hseen & Hopen).
  simpl in Hf. eapply wp_mono; [apply (IH _ _ _ Hok1); lia|]. intros _ s' [Hwf' [H1 H2 H3 H4]].
  split; [done|]. split; [done| | |].
  - rewrite H2. simpl. by rewrite length_alter.
  - intros r'. by rewrite H3.
  - intros n' r'. rewrite H4, Hopen. split; [by intros [[? ?] ?]|]. intros [Ho Hb]. split_and!; [done| |done].
    intros ->. apply (open_in _ _ _ _ _ Hok) in Ho. assert (Ho' : open_at s n' r) by (by eapply open_in).
    destruct Ho' as (u' & Hu' & Hp'). assert (n' = n) by congruence. lia.
Qed.

Lemma wp_CloseUpvalues base s :
  rc_wf s -> wp sure (CloseUpvalues base) (fun _ s' => rc_wf s' /\ closed_upto base s s') s.
Proof.
  intros [l Hok]. apply wp_bind, wp_get. eapply wp_CloseUpvalues_loop; [exact Hok|].
  pose proof (chain_length _ _ _ (rk_chain _ _ _ Hok)). lia.
Qed.

(** ** Reading and writing *)
Lemma seen_is_Some s r : rc_wf s -> r < length (rc_heap s) -> is_Some (seen s r).
Proof.
  intros [l Hok] Hr. destruct (lookup_lt_is_Some_2 _ _ Hr) as [u Hu]. unfold seen. rewrite Hu. simpl.
  destruct (m_ptr u) as [n|] eqn:Hp.
  - apply lookup_lt_is_Some_2. apply (rk_slots _ _ _ Hok r). by eapply rk_open.
  - by eapply (rk_closed _ _ _ Hok).
Qed.

Lemma wp_UpvalueGet E r v s Q : seen s r = Some v -> Q v s -> wp E (UpvalueGet r) Q s.
Proof.
  unfold seen. intros Hs HQ. destruct (rc_heap s !! r) as [u|] eqn:Hu; [simpl in Hs|done].
  apply wp_bind. eapply wp_the_upvalue; [exact Hu|]. destruct (m_ptr u).
  - by eapply wp_load_slot.
  - rewrite Hs. by apply wp_ret.
Qed.

Definition with_slot (n : nat) (v : V) (s : RContext) : RContext :=
  mk_rcontext (rc_heap s) (m_upvalueList s) (<[n := v]> (rc_stack s)).

Lemma with_slot_wf n v s : rc_wf s -> rc_wf (with_slot n v s).
Proof. intros [l []]. exists l. split; try done. simpl. intros r k. rewrite length_insert. eauto. Qed.

Lemma with_slot_seen n v s r :
  n < length (rc_stack s) ->
  (open_at s n r -> seen (with_slot n v s) r = Some v) /\
  (~ open_at s n r -> seen (with_slot n v s) r = seen s r).
Proof.
  intros Hn. unfold seen, open_at. simpl. split.
  - intros (u & -> & Hp). simpl. rewrite Hp. by apply list_lookup_insert_eq.
  - intros Hno. destruct (rc_heap s !! r) as [u|]; [simpl|done].
    destruct (m_ptr u) as [k|] eqn:Hp; [|done]. apply list_lookup_insert_ne. intros <-. apply Hno. by exists u.
Qed.

Lemma wp_store_slot E n v s (Q : unit -> RContext -> Prop) :
  n < length (rc_stack s) -> Q tt (with_slot n v s) -> wp E (store_slot n v) Q s.
Proof. intros [w Hw]%lookup_lt_is_Some_2 HQ. unfold wp, store_slot. by rewrite Hw. Qed.

(** A write through an upvalue: to its slot while it is open, to itself afterwards. *)
Record put_through (r : nat) (v : V) (s s' : RContext) : Prop := {
  pt_wf : rc_wf s';
  pt_len : length (rc_heap s') = length (rc_heap s);
  pt_stack_len : length (rc_stack s') = length (rc_stack s);
  pt_open n r0 : open_at s' n r0 <-> open_at s n r0;
  pt_seen : seen s' r = Some v;
  pt_other r0 : r0 <> r -> seen s' r0 = seen s r0;
  pt_stack n : ~ open_at s n r -> rc_stack s' !! n = rc_stack s !! n
}.

Lemma set_tv_put r v s u :
  rc_wf s -> rc_heap s !! r = Some u -> m_ptr u = None ->
  put_through r v s (mk_rcontext (alter (set_tv v) r (rc_heap s)) (m_upvalueList s) (rc_stack s)).
Proof.
  intros [l Hok] Hu Hp. set (s' := mk_rcontext _ _ _).
  assert (Hr : rc_heap s' !! r = Some (set_tv v u)) by (simpl; by rewrite list_lookup_alter_eq, Hu).
  assert (Hoth : forall r', r' <> r -> rc_heap s' !! r' = rc_heap s !! r') by (intros; by apply list_lookup_alter_ne).
  assert (Hopen : forall n r0, open_at s' n r0 <-> open_at s n r0).
  { intros n r0. unfold open_at. destruct (decide (r0 = r)) as [->|Hne]; [|by rewrite Hoth].
    rewrite Hr, Hu. split; intros (u' & ? & ?); simplify_eq; simpl in *; congruence. }
  split; try done.
  - exists l. split.
    + apply (chain_change (rc_heap s)); [|apply Hok]. intros r' n Hin. apply Hoth. intros ->.
      destruct (chain_lookup _ _ _ _ _ (rk_chain _ _ _ Hok) Hin) as (u' & ? & ? & _). congruence.
    + intros r' u' n Hr' Hn'. eapply (open_in _ _ _ _ _ Hok), Hopen. by exists u'.
    + intros r' u' Hr' Hn'. destruct (decide (r' = r)) as [->|Hne].
      * rewrite Hr in Hr'. simplify_eq. simpl. split; [|by eexists]. by eapply (rk_closed _ _ _ Hok).
      * rewrite Hoth in Hr' by done. by eapply (rk_closed _ _ _ Hok).
    + apply Hok.
  - simpl. by rewrite length_alter.
  - unfold seen. rewrite Hr. simpl. by rewrite Hp.
  - intros r0 Hne. unfold seen. by rewrite Hoth.
Qed.

Lemma wp_UpvaluePut E r v s (Q : unit -> RContext -> Prop) :
  rc_wf s -> r < length (rc_heap s) -> (forall s', put_through r v s s' -> Q tt s') ->
  wp E (UpvaluePut r v) Q s.
Proof.
  intros Hwf Hr HQ. destruct (lookup_lt_is_Some_2 _ _ Hr) as [u Hu].
  apply wp_bind. eapply wp_the_upvalue; [exact Hu|]. destruct (m_ptr u) as [n|] eqn:Hp.
  - pose proof Hwf as [l Hok]. assert (Ho : open_at s n r) by (by exists u).
    assert (Hn : n < length (rc_stack s)) by (apply (rk_slots _ _ _ Hok r); by eapply rk_open).
    apply wp_store_slot; [done|]. apply HQ. split; try done.
    + by apply with_slot_wf.
    + simpl. by rewrite length_insert.
    + by apply with_slot_seen.
    + intros r0 Hne. apply with_slot_seen; [done|]. intros Ho'. by destruct Hne; eapply open_at_unique.
    + intros k Hk. simpl. apply list_lookup_insert_ne. intros <-. by destruct Hk.
  - apply wp_modify, HQ. by apply (set_tv_put r v s u).
Qed.

Lemma empty_rc_wf stk : rc_wf (mk_rcontext [] None stk).
Proof. exists []. split; try done. by intros r n H%elem_of_nil. Qed.
End upvalues.
Arguments Upvalue : clear implicits.
Arguments RContext : clear implicits.
