(* ===== verification/Boxes.v ===== *)
(** * Captured variables are boxes

    The specification of open upvalues: a machine that keeps each captured
    variable in a box, with a table from stack slots to the boxes of the
    variables that live there.  Any sequence of captures, closes, reads and writes
    gives the same answers on both machines. *)
From S2P Require Import Prelude OpenUpvalues.

Section boxes.
Context {V : Type}.

Record Boxes : Type := mk_boxes {
  b_cells : list V;
  b_env : gmap nat nat;
  b_stack : list V
}.

(** What the bytecodes do to a frame's slots and upvalues. *)
Inductive UvOp : Type :=
  | OpCapture (slot : nat) (imm : bool)
  | OpClose (base : nat)
  | OpNewClosed (v : V)
  | OpGet (r : nat)
  | OpPut (r : nat) (v : V)
  | OpLoad (slot : nat)
  | OpStore (slot : nat) (v : V).

Inductive UvOut : Type := OutUnit | OutVal (v : V) | OutRef (r : nat).

Definition run_op (o : UvOp) : M (RContext V) UvOut :=
  match o with
  | OpCapture n imm => r ← Create n imm; mret (OutRef r)
  | OpClose base => CloseUpvalues base ;; mret OutUnit
  | OpNewClosed v => r ← CreateClosed v; mret (OutRef r)
  | OpGet r => v ← UpvalueGet r; mret (OutVal v)
  | OpPut r v => UpvaluePut r v ;; mret OutUnit
  | OpLoad n => v ← load_slot n; mret (OutVal v)
  | OpStore n v => store_slot n v ;; mret OutUnit
  end.

Fixpoint run_ops (os : list UvOp) : M (RContext V) (list UvOut) :=
  match os with
  | [] => mret []
  | o :: os' => out ← run_op o; outs ← run_ops os'; mret (out :: outs)
  end.

(** The variable in a slot: its box once it is captured. *)
Definition box_load (n : nat) (b : Boxes) : option V :=
  match b_env b !! n with Some r => b_cells b !! r | None => b_stack b !! n end.
Definition box_store (n : nat) (v : V) (b : Boxes) : option Boxes :=
  match b_stack b !! n with
  | None => None
  | Some _ => Some (match b_env b !! n with
                    | Some r => mk_boxes (<[r := v]> (b_cells b)) (b_env b) (b_stack b)
                    | None => mk_boxes (b_cells b) (b_env b) (<[n := v]> (b_stack b))
                    end)
  end.

(** A closed variable's slot goes back to the frame; its box lives on. *)
Definition box_close (base : nat) (b : Boxes) : Boxes :=
  mk_boxes (b_cells b) (filter (fun e => e.1 < base) (b_env b))
    (imap (fun n v => if base <=? n then default v (box_load n b) else v) (b_stack b)).

Definition box_op (o : UvOp) (b : Boxes) : option (UvOut * Boxes) :=
  match o with
  | OpCapture n _ =>
      match b_env b !! n with
      | Some r => Some (OutRef r, b)
      | None => v ← b_stack b !! n;
          let r := length (b_cells b) in
          Some (OutRef r, mk_boxes (b_cells b ++ [v]) (<[n := r]> (b_env b)) (b_stack b))
      end
  | OpClose base => Some (OutUnit, box_close base b)
  | OpNewClosed v => Some (OutRef (length (b_cells b)), mk_boxes (b_cells b ++ [v]) (b_env b) (b_stack b))
  | OpGet r => v ← b_cells b !! r; Some (OutVal v, b)
  | OpPut r v => match b_cells b !! r with
                 | Some _ => Some (OutUnit, mk_boxes (<[r := v]> (b_cells b)) (b_env b) (b_stack b))
                 | None => None
                 end
  | OpLoad n => v ← box_load n b; Some (OutVal v, b)
  | OpStore n v => b' ← box_store n v b; Some (OutUnit, b')
  end.

Fixpoint box_ops (os : list UvOp) (b : Boxes) : option (list UvOut * Boxes) :=
  match os with
  | [] => Some ([], b)
  | o :: os' =>
      match box_op o b with
      | None => None
      | Some (out, b') =>
          match box_ops os' b' with Some (outs, b'') => Some (out :: outs, b'') | None => None end
      end
  end.

(** ** The simulation *)
Record related (s : RContext V) (b : Boxes) : Prop := {
  re_wf : rc_wf s;
  re_len : length (rc_heap s) = length (b_cells b);
  re_stack_len : length (rc_stack s) = length (b_stack b);
  re_cells r : r < length (rc_heap s) -> seen s r = b_cells b !! r;
  re_env n r : b_env b !! n = Some r <-> open_at s n r;
  re_stack n : b_env b !! n = None -> rc_stack s !! n = b_stack b !! n
}.

Notation sure := (fun _ : error => False).

Lemma open_at_lt (s : RContext V) n r : open_at s n r -> r < length (rc_heap s).
Proof. intros (u & Hu & _). by eapply lookup_lt_Some. Qed.

Lemma open_at_stack (s : RContext V) n r : open_at s n r -> rc_stack s !! n = seen s r.
Proof. intros (u & Hu & Hp). unfold seen. rewrite Hu. simpl. by rewrite Hp. Qed.

(** The stack of the implementation holds the current value of every slot. *)
Lemma related_load s b n : related s b -> rc_stack s !! n = box_load n b.
Proof.
  intros [Hwf Hl Hsl Hc He Hs]. unfold box_load. destruct (b_env b !! n) as [r|] eqn:Hn; [|by apply Hs].
  apply He in Hn. rewrite (open_at_stack _ _ _ Hn). apply Hc. by eapply open_at_lt.
Qed.

Lemma related_free s b n : related s b -> b_env b !! n = None -> ~ exists r, open_at s n r.
Proof. intros HR Hn (r & Hr%(re_env _ _ HR)). congruence. Qed.

Lemma step_capture n imm s b out b' :
  related s b -> box_op (OpCapture n imm) b = Some (out, b') ->
  wp sure (run_op (OpCapture n imm)) (fun out' s' => out' = out /\ related s' b') s.
Proof.
  intros HR Hop. pose proof HR as [Hwf Hl Hsl Hc He Hs].
  assert (Hn : n < length (rc_stack s)).
  { pose proof (related_load s b n HR) as Hload. unfold box_load in Hload. simpl in Hop.
    apply lookup_lt_is_Some. rewrite Hload. destruct (b_env b !! n) as [r|] eqn:Hr.
    - apply He in Hr. rewrite <-Hc by (by eapply open_at_lt). apply seen_is_Some; [done|by eapply open_at_lt].
    - destruct (b_stack b !! n); [by eexists|done]. }
  apply wp_bind. eapply wp_mono; [by apply wp_Create|]. intros r s' [Hwf' Hst Hold Hopen Hex Hfr].
  apply wp_ret. simpl in Hop. destruct (b_env b !! n) as [r0|] eqn:Hr.
  - simplify_eq. apply He in Hr. assert (s' = s) as -> by (apply Hex; by exists r0).
    split; [|done]. f_equal. eapply open_at_unique; [exact Hwf| |exact Hr]. apply Hopen. by right.
  - destruct (b_stack b !! n) as [v|] eqn:Hv; [|done]. injection Hop as <- <-.
    pose proof (related_free _ _ _ HR Hr) as Hno. destruct (Hfr Hno) as [-> Hlen].
    assert (Hnew : seen s' (length (rc_heap s)) = Some v).
    { rewrite <-(open_at_stack s' n) by (apply Hopen; by right). rewrite Hst. by rewrite (Hs n Hr). }
    split; [by rewrite Hl|]. split; simpl; [done| | | | |].
    + rewrite length_app, Hlen. simpl. lia.
    + by rewrite Hst.
    + intros r Hlt. destruct (decide (r = length (rc_heap s))) as [->|Hne].
      * rewrite Hnew, Hl. by rewrite list_lookup_middle.
      * rewrite Hold, Hc by lia. rewrite lookup_app_l; [done|lia].
    + intros k r. rewrite Hopen, <-He, <-Hl. rewrite lookup_insert_Some. split.
      * intros [[-> <-]|[? ?]]; [by right|by left].
      * intros [Hk|[-> ->]]; [|by left]. right. split; [congruence|done].
    + intros k. rewrite lookup_insert_None. intros [Hk Hne]. by rewrite Hst, Hs.
Qed.

Lemma step_close base s b :
  related s b -> wp sure (CloseUpvalues base) (fun _ s' => related s' (box_close base b)) s.
Proof.
  intros HR. pose proof HR as [Hwf Hl Hsl Hc He Hs].
  eapply wp_mono; [by apply wp_CloseUpvalues|]. intros _ s' [Hwf' [Hst Hlen Hseen Hopen]].
  split; simpl; [done|congruence|by rewrite length_imap, Hst| | |].
  - intros r Hr. rewrite Hseen. apply Hc. lia.
  - intros n r. rewrite map_lookup_filter_Some, Hopen, He. done.
  - intros n Hn. rewrite Hst, list_lookup_imap, (related_load _ _ _ HR).
    apply map_lookup_filter_None in Hn. unfold box_load.
    destruct (b_stack b !! n) as [v|] eqn:Hv; simpl.
    + destruct (Nat.leb_spec base n) as [Hb|Hb].
      * destruct (b_env b !! n) as [r|] eqn:Hr; simpl; [|done].
        apply He in Hr. pose proof (open_at_lt _ _ _ Hr) as Hlt. rewrite Hl in Hlt.
        destruct (lookup_lt_is_Some_2 _ _ Hlt) as [w Hw]. by rewrite Hw.
      * destruct (b_env b !! n) as [r|] eqn:Hr; [|done]. exfalso.
        destruct Hn as [Hn|Hn]; [done|]. by apply (Hn r eq_refl).
    + destruct (b_env b !! n) as [r|] eqn:Hr; [|done]. exfalso. apply He in Hr.
      apply lookup_ge_None in Hv. destruct Hwf as [l Hok].
      pose proof (rk_slots _ _ _ Hok r n (proj1 (open_in _ _ _ _ _ Hok) Hr)). lia.
Qed.

Lemma step_put r v s b :
  related s b -> r < length (b_cells b) ->
  wp sure (UpvaluePut r v) (fun _ s' => related s' (mk_boxes (<[r := v]> (b_cells b)) (b_env b) (b_stack b))) s.
Proof.
  intros [Hwf Hl Hsl Hc He Hs] Hr. apply wp_UpvaluePut; [done|lia|].
  intros s' [Hwf' Hlen Hstl Hopen Hsn Hoth Hst]. split; simpl; [done|by rewrite length_insert, Hlen|congruence| | |].
  - intros r0 Hr0. destruct (decide (r0 = r)) as [->|Hne].
    + rewrite Hsn. by rewrite list_lookup_insert_eq.
    + rewrite Hoth, list_lookup_insert_ne by done. apply Hc. lia.
  - intros n r0. by rewrite Hopen, He.
  - intros n Hn. rewrite Hst; [by apply Hs|]. intros Ho%He. congruence.
Qed.

Lemma step_store n v s b b' :
  related s b -> box_store n v b = Some b' -> wp sure (store_slot n v) (fun _ s' => related s' b') s.
Proof.
  intros HR Hb. pose proof HR as [Hwf Hl Hsl Hc He Hs]. unfold box_store in Hb.
  destruct (b_stack b !! n) as [w|] eqn:Hw; [|done]. injection Hb as <-.
  assert (Hn : n < length (rc_stack s)) by (rewrite Hsl; by eapply lookup_lt_Some).
  apply wp_store_slot; [done|]. pose proof (with_slot_wf n v s Hwf) as Hwf'.
  destruct (b_env b !! n) as [r|] eqn:Hr; split; simpl; rewrite ?length_insert; try done.
  - intros r0 Hr0. apply He in Hr. destruct (decide (r0 = r)) as [->|Hne].
    + rewrite list_lookup_insert_eq by lia. by apply with_slot_seen.
    + rewrite list_lookup_insert_ne by done. rewrite <-Hc by done. apply with_slot_seen; [done|].
      intros Ho. by destruct Hne; eapply open_at_unique.
  - intros k Hk. rewrite list_lookup_insert_ne; [by apply Hs|]. congruence.
  - intros r0 Hr0. rewrite <-Hc by done. apply with_slot_seen; [done|]. intros Ho%He. congruence.
  - intros k Hk. destruct (decide (n = k)) as [->|Hne].
    + rewrite !list_lookup_insert_eq by lia. done.
    + rewrite !list_lookup_insert_ne by done. by apply Hs.
Qed.

Lemma step_new_closed v s b :
  related s b ->
  wp sure (CreateClosed v) (fun r s' => r = length (b_cells b) /\
    related s' (mk_boxes (b_cells b ++ [v]) (b_env b) (b_stack b))) s.
Proof.
  intros [[l Hok] Hl Hsl Hc He Hs]. unfold wp, CreateClosed, alloc. simpl. split; [done|].
  set (s' := mk_rcontext _ _ _). set (u := mk_upvalue _ _ _ _ _) in s'.
  assert (Hback : forall r u', rc_heap s' !! r = Some u' -> rc_heap s !! r = Some u' \/ (r = length (rc_heap s) /\ u' = u))
    by (intros r u'; apply list_lookup_snoc_Some).
  assert (Hopen : forall n r, open_at s' n r <-> open_at s n r).
  { intros n r. split; intros (u' & Hu & Hp).
    - destruct (Hback _ _ Hu) as [Hu'|[_ ->]]; [by exists u'|done].
    - exists u'. split; [|done]. by apply lookup_app_Some_l. }
  split; simpl.
  - exists l. split.
    + apply (chain_change (rc_heap s)); [|apply Hok]. intros r n Hin.
      destruct (chain_lookup _ _ _ _ _ (rk_chain _ _ _ Hok) Hin) as (u' & Hu' & _). rewrite Hu'.
      by apply lookup_app_Some_l.
    + intros r u' n Hu' Hp. eapply (open_in _ _ _ _ _ Hok), Hopen. by exists u'.
    + intros r u' Hu' Hp. destruct (Hback _ _ Hu') as [Hu''|[_ ->]]; [by eapply (rk_closed _ _ _ Hok)|].
      split; [done|by eexists].
    + apply Hok.
  - rewrite !length_app. simpl. lia.
  - done.
  - intros r. rewrite length_app. simpl. intros Hr. destruct (decide (r = length (rc_heap s))) as [->|Hne].
    + unfold seen. simpl. rewrite list_lookup_middle by done. simpl. rewrite Hl. by rewrite list_lookup_middle.
    + rewrite lookup_app_l by lia. rewrite <-Hc by lia. unfold seen. simpl. by rewrite lookup_app_l by lia.
  - intros n r. by rewrite Hopen, He.
  - done.
Qed.

Lemma related_step o s b out b' :
  related s b -> box_op o b = Some (out, b') ->
  wp sure (run_op o) (fun out' s' => out' = out /\ related s' b') s.
Proof.
  intros HR Hop. destruct o as [n imm|base|v|r|r v|n|n v]; [by eapply step_capture|..]; simpl in Hop; apply wp_bind.
  - injection Hop as <- <-. eapply wp_mono; [by apply step_close|]. intros [] s' H. by apply wp_ret.
  - injection Hop as <- <-. eapply wp_mono; [by apply step_new_closed|]. intros r s' [-> H]. by apply wp_ret.
  - destruct (b_cells b !! r) as [v|] eqn:Hv; [|done]. injection Hop as <- <-.
    eapply wp_UpvalueGet; [|by apply wp_ret]. rewrite (re_cells _ _ HR); [done|].
    rewrite (re_len _ _ HR). by eapply lookup_lt_Some.
  - destruct (b_cells b !! r) as [w|] eqn:Hw; [|done]. injection Hop as <- <-.
    eapply wp_mono; [apply (step_put r v s b); [done|by eapply lookup_lt_Some]|]. intros [] s' H. by apply wp_ret.
  - destruct (box_load n b) as [v|] eqn:Hv; [|done]. injection Hop as <- <-.
    eapply wp_load_slot; [|by apply wp_ret]. by rewrite (related_load _ _ _ HR).
  - destruct (box_store n v b) as [b1|] eqn:Hb; [|done]. injection Hop as <- <-.
    eapply wp_mono; [by eapply step_store|]. intros [] s' H. by apply wp_ret.
Qed.

Lemma related_steps os s b outs b' :
  related s b -> box_ops os b = Some (outs, b') ->
  wp sure (run_ops os) (fun outs' s' => outs' = outs /\ related s' b') s.
Proof.
  revert s b outs b'. induction os as [|o os IH]; intros s b outs b' HR Hops.
  { injection Hops as <- <-. by apply wp_ret. }
  simpl in Hops. destruct (box_op o b) as [[out b1]|] eqn:Ho; [|done].
  destruct (box_ops os b1) as [[outs1 b2]|] eqn:Hos; [|done]. injection Hops as <- <-.
  apply wp_bind. eapply wp_mono; [by eapply related_step|]. intros out' s1 [-> HR1].
  apply wp_bind. eapply wp_mono; [by eapply IH|]. intros outs' s2 [-> HR2]. by apply wp_ret.
Qed.

Lemma related_start stk : related (mk_rcontext [] None stk) (mk_boxes [] ∅ stk).
Proof.
  split; try done; simpl.
  - apply empty_rc_wf.
  - intros n r. split; [done|]. by intros (u & Hu & _).
Qed.

(** C5: the list of open upvalues implements boxes.  From an empty list, any
    sequence of captures, closes, reads and writes that makes sense for boxes
    runs without failing an assertion and gives the same answers: in particular
    two blocks that capture the same variable share it, writes through either
    are seen by the frame, and a closed variable keeps its last value whatever is
    stored in its old slot. *)
Theorem open_upvalues_refine_boxes os stk outs b' :
  box_ops os (mk_boxes [] ∅ stk) = Some (outs, b') ->
  exists s', run_ops os (mk_rcontext [] None stk) = Ok (outs, s') /\ rc_wf s' /\
    (forall r, r < length (b_cells b') -> seen s' r = b_cells b' !! r) /\
    (forall n, rc_stack s' !! n = box_load n b').
Proof.
  intros H. destruct (wp_total _ _ _ (related_steps _ _ _ _ _ (related_start stk) H)) as (outs' & s' & Hr & -> & HR).
  exists s'. split_and!; [done|apply HR| |].
  - intros r Hlt. apply (re_cells _ _ HR). by rewrite (re_len _ _ HR).
  - intros n. by apply related_load.
Qed.
End boxes.

(** A block's view of a counter: two captures of one slot, writes through both,
    and the slot reused after the close. *)
Definition sample_ops : list (@UvOp Z) :=
  [OpStore 2 7%Z; OpCapture 2 false; OpCapture 1 false; OpCapture 2 false; OpPut 0 8%Z; OpLoad 2;
   OpStore 2 9%Z; OpGet 0; OpClose 2; OpStore 2 100%Z; OpGet 0; OpPut 1 5%Z; OpLoad 1; OpCapture 2 false; OpGet 2].

Lemma open_upvalues_refine_boxes_witness :
  exists s', run_ops sample_ops (mk_rcontext [] None [0; 1; 2]%Z) =
    Ok ([OutUnit; OutRef 0; OutRef 1; OutRef 0; OutUnit; OutVal 8%Z; OutUnit; OutVal 9%Z; OutUnit; OutUnit;
         OutVal 9%Z; OutUnit; OutVal 5%Z; OutRef 2; OutVal 100%Z], s') /\ rc_wf s'.
Proof.
  destruct (open_upvalues_refine_boxes sample_ops [0; 1; 2]%Z _ _ eq_refl) as (s' & Hr & Hwf & _).
  exists s'. split; [exact Hr|exact Hwf].
Defined.
