(* ===== verification/TValue.v ===== *)
(** * Boxed values

    Models [drt/tvalue.h]: the NaN-boxing of SOM values in 64-bit words, the
    type tests, the conversions with their assertions, and the lattice of type
    masks the optimizing compiler speculates with.  A word is a [Z] in
    [0, 2^64); a double is its binary64 value, converted to and from its bits the
    way [cxx2a_bit_cast] does.  The type of a heap object, which the code reads
    from the object's header, is a parameter. *)
From S2P Require Import Prelude CNumbers.

#[local] Open Scope Z_scope.

Definition word (v : Z) : Prop := 0 <= v < 2 ^ 64.

(** [static_cast<uint32_t>(v >> 32)] *)
Definition high32 (v : Z) : Z := Z.land (Z.shiftr v 32) (Z.ones 32).

(** ** [MiscImmediateValue] *)
Definition x_nil : Z := 0.
Definition x_false : Z := 2.
Definition x_true : Z := 3.
Definition x_impossible_value : Z := 4.

Definition assert (b : bool) (what : string) : result () := if b then Ok tt else Err (AssertFailed what).

Definition MiscImmediateValue (value : Z) : result Z :=
  assert ((value =? x_nil) || (value =? x_true) || (value =? x_false) || (value =? x_impossible_value))
    "m_value is a misc immediate value" ;;
  Ok value.

Definition miv_IsNil (m : Z) : bool := m =? 0.
Definition miv_IsTrue (m : Z) : bool := m =? x_true.
Definition miv_IsBoolean (m : Z) : bool := negb (m =? 0).
Definition GetBooleanValue (m : Z) : result bool :=
  assert (miv_IsBoolean m) "IsBoolean()" ;; Ok (negb (Z.land m 1 =? 0)).
Definition FlipBooleanValue (m : Z) : result Z :=
  assert (miv_IsBoolean m) "IsBoolean()" ;; MiscImmediateValue (Z.lxor m 1).
Definition miv_CreateBoolean (v : bool) : Z := if v then x_true else x_false.

(** ** The tests *)
Definition x_int32Tag : Z := 0xFFFBFFFF00000000.
Definition x_mivTag : Z := 0xFFFCFFFF0000007F.

Definition IsInt32 (v : Z) : bool := Z.land v x_int32Tag =? x_int32Tag.
Definition IsMIV (v : Z) : bool := Z.land v (x_mivTag - 0x7F) =? x_mivTag - 0x7F.
Definition IsPointer (v : Z) : bool := x_mivTag <? v.
Definition IsDouble (v : Z) : bool := v <? x_int32Tag.

(** The [AssertIff] in each test. *)
Definition IsInt32_assert (v : Z) : bool := Bool.eqb (IsInt32 v) (high32 v =? 0xFFFBFFFF).
Definition IsMIV_assert (v : Z) : bool := Bool.eqb (IsMIV v) ((x_mivTag - 0x7F <=? v) && (v <=? x_mivTag)).
Definition IsPointer_assert (v : Z) : bool :=
  Bool.eqb (IsPointer v) ((0xFFFFFFFC <=? high32 v) && (high32 v <=? 0xFFFFFFFE)).
Definition IsDouble_assert (v : Z) : bool := Bool.eqb (IsDouble v) (v <=? 0xFFFAFFFFFFFFFFFF).
Definition tests_assert (v : Z) : bool :=
  IsInt32_assert v && IsMIV_assert v && IsPointer_assert v && IsDouble_assert v.

(** ** Doubles and their bits *)
Definition bit (b : bool) (n : Z) : Z := if b then 2 ^ n else 0.

Definition bits_of_double (d : double) : Z :=
  match d with
  | S754_zero s => bit s 63
  | S754_infinity s => bit s 63 + 0x7FF0000000000000
  | S754_nan => 0x7FF8000000000000
  | S754_finite s m e =>
      bit s 63 + (if Z.pos m <? 2 ^ 52 then Z.pos m else (e + 1075) * 2 ^ 52 + (Z.pos m - 2 ^ 52))
  end.

Definition double_of_bits (b : Z) : double :=
  let s := 2 ^ 63 <=? b in
  let e := (b / 2 ^ 52) `mod` 2 ^ 11 in
  let m := b `mod` 2 ^ 52 in
  if e =? 0 then match m with Z.pos p => S754_finite s p (-1074) | _ => S754_zero s end
  else if e =? 2047 then if m =? 0 then S754_infinity s else S754_nan
  else S754_finite s (Z.to_pos (m + 2 ^ 52)) (e - 1075).

Definition isnan (d : double) : bool := match d with S754_nan => true | _ => false end.

Definition x_pureNaN : Z := 0x7FF8000000000000.
Definition IsDoubleNotNaN (v : Z) : bool := negb (isnan (double_of_bits v)).
Definition IsDoubleNaN (v : Z) : bool := v =? x_pureNaN.
Definition ViewAsDouble (v : Z) : double := double_of_bits v.

(** ** Conversions *)
Definition AsDouble (v : Z) : result double :=
  assert (IsDouble v && negb (IsMIV v) && negb (IsPointer v) && negb (IsInt32 v)) "IsDouble()" ;;
  Ok (double_of_bits v).
Definition AsInt32 (v : Z) : result Z :=
  assert (IsInt32 v && negb (IsMIV v) && negb (IsPointer v) && negb (IsDouble v)) "IsInt32()" ;;
  Ok (to_int32 v).
Definition AsPointer (v : Z) : result Z :=
  assert (IsPointer v && negb (IsMIV v) && negb (IsDouble v) && negb (IsInt32 v)) "IsPointer()" ;; Ok v.
Definition AsMIV (v : Z) : result Z :=
  assert (IsMIV v && negb (IsDouble v) && negb (IsInt32 v) && negb (IsPointer v)) "IsMIV()" ;;
  MiscImmediateValue (Z.lxor v x_mivTag).

(** The constructors compare what they built with what they were given. *)
Definition CreateInt32 (value : Z) : result Z :=
  let r := Z.lor x_int32Tag (Z.land value (Z.ones 32)) in
  x ← AsInt32 r; assert (x =? value) "result.AsInt32() == value" ;; Ok r.
Definition CreateMIV (miv : Z) : result Z :=
  let r := Z.lxor miv x_mivTag in
  x ← AsMIV r; assert (x =? miv) "result.AsMIV().m_value == miv.m_value" ;; Ok r.
Definition CreatePointer (ptr : Z) : result Z :=
  x ← AsPointer ptr; assert (x =? ptr) "result.AsPointer<T>() == ptr" ;; Ok ptr.
Definition CreateHeapPtr (val : Z) : result Z :=
  assert (0xFFFFFFFC00000000 <=? val) "val >= 0xFFFFFFFC00000000ULL" ;; Ok val.
Definition CreateDouble (d : double) : result Z :=
  let r := bits_of_double d in
  x ← AsDouble r;
  assert (isnan d || SFeqb x d) "result.AsDouble() == value" ;;
  assert (Bool.eqb (isnan d) (isnan x)) "std::isnan(result.AsDouble())" ;;
  Ok r.

Definition CreateImpossibleValue : result Z := CreateMIV x_impossible_value.
Definition CreateTrue : result Z := CreateMIV x_true.
Definition CreateFalse : result Z := CreateMIV x_false.
Definition CreateBoolean (v : bool) : result Z := CreateMIV (miv_CreateBoolean v).
Definition Nil : result Z := CreateMIV x_nil.

Definition IsNil (v : Z) : bool := v =? Z.lxor x_nil x_mivTag.
Definition IsTruthy (v : Z) : bool := 2 <? Z.lxor v x_mivTag.

(** ** The values a program computes *)
Inductive boxed : Z -> Prop :=
  | boxed_double v : 0 <= v <= 0xFFFAFFFFFFFFFFFF -> boxed v
  | boxed_int32 n : 0 <= n < 2 ^ 32 -> boxed (x_int32Tag + n)
  | boxed_miv m : m = x_nil \/ m = x_false \/ m = x_true \/ m = x_impossible_value -> boxed (Z.lxor m x_mivTag)
  | boxed_pointer v : 0xFFFFFFFC00000000 <= v < 0xFFFFFFFF00000000 -> boxed v.

(** ** Each value has one kind *)
Lemma land_high v t : 0 <= v -> Z.land v (t * 2 ^ 32) = Z.land (v / 2 ^ 32) t * 2 ^ 32.
Proof.
  intros Hv. rewrite <-Z.shiftr_div_pow2, <-!Z.shiftl_mul_pow2 by lia. apply Z.bits_inj'. intros n Hn.
  rewrite Z.land_spec. destruct (Z.ltb_spec n 32).
  - rewrite !Z.shiftl_spec_low by done. by rewrite andb_false_r.
  - rewrite !Z.shiftl_spec_high, Z.land_spec, Z.shiftr_spec by lia. do 2 f_equal. lia.
Qed.

Lemma high32_div v : word v -> high32 v = v / 2 ^ 32.
Proof.
  intros [H0 H1]. unfold high32. rewrite Z.land_ones, Z.shiftr_div_pow2 by lia.
  apply Z.mod_small. split; [apply Z.div_pos; lia|]. apply Z.div_lt_upper_bound; lia.
Qed.

(** The tests look at the high half, but for the order against the tags. *)
Lemma IsInt32_high v : word v -> IsInt32 v = (Z.land (v / 2 ^ 32) 0xFFFBFFFF =? 0xFFFBFFFF).
Proof.
  intros [H0 _]. unfold IsInt32. change x_int32Tag with (0xFFFBFFFF * 2 ^ 32). rewrite land_high by done.
  destruct (Z.eqb_spec (Z.land (v / 2 ^ 32) 0xFFFBFFFF) 0xFFFBFFFF) as [->|]; [done|]. apply Z.eqb_neq. lia.
Qed.
Lemma IsMIV_high v : word v -> IsMIV v = (Z.land (v / 2 ^ 32) 0xFFFCFFFF =? 0xFFFCFFFF).
Proof.
  intros [H0 _]. unfold IsMIV. change (x_mivTag - 0x7F) with (0xFFFCFFFF * 2 ^ 32). rewrite land_high by done.
  destruct (Z.eqb_spec (Z.land (v / 2 ^ 32) 0xFFFCFFFF) 0xFFFCFFFF) as [->|]; [done|]. apply Z.eqb_neq. lia.
Qed.

Lemma land_le h t : 0 <= h -> 0 <= t -> Z.land h t <= h.
Proof.
  intros Hh Ht. rewrite <-(Z2N.id h), <-(Z2N.id t), <-N2Z.inj_land by done. apply N2Z.inj_le, N.land_le_l.
Qed.

Lemma land_below h t : 0 <= h < t -> (Z.land h t =? t) = false.
Proof.
  intros H. apply Z.eqb_neq. intros He. pose proof (land_le h t ltac:(lia) ltac:(lia)). lia.
Qed.

Inductive Kind : Type := KDouble | KInt32 | KMIV | KPointer.
#[export] Instance Kind_eq_dec : EqDecision Kind.
Proof. solve_decision. Defined.

(** The tests a value of a kind passes. *)
Definition has_kind (k : Kind) (v : Z) : Prop :=
  IsDouble v = bool_decide (k = KDouble) /\ IsInt32 v = bool_decide (k = KInt32) /\
  IsMIV v = bool_decide (k = KMIV) /\ IsPointer v = bool_decide (k = KPointer) /\ tests_assert v = true.

Lemma double_kind v : 0 <= v <= 0xFFFAFFFFFFFFFFFF -> has_kind KDouble v.
Proof.
  intros H. assert (Hw : word v) by (unfold word; lia).
  assert (Hh : 0 <= v / 2 ^ 32 <= 0xFFFAFFFF).
  { split; [apply Z.div_pos; lia|]. apply Z.lt_succ_r, Z.div_lt_upper_bound; lia. }
  assert (Hi : IsInt32 v = false) by (rewrite IsInt32_high by done; apply land_below; lia).
  assert (Hm : IsMIV v = false) by (rewrite IsMIV_high by done; apply land_below; lia).
  assert (Hp : IsPointer v = false) by (apply Z.ltb_ge; unfold x_mivTag; lia).
  assert (Hd : IsDouble v = true) by (apply Z.ltb_lt; unfold x_int32Tag; lia).
  split_and!; try done. unfold tests_assert, IsInt32_assert, IsMIV_assert, IsPointer_assert, IsDouble_assert.
  rewrite Hi, Hm, Hp, Hd, high32_div by done.
  rewrite (proj2 (Z.eqb_neq _ _)), (proj2 (Z.leb_gt (x_mivTag - 0x7F) v)), (proj2 (Z.leb_gt 0xFFFFFFFC _)),
    (proj2 (Z.leb_le v 0xFFFAFFFFFFFFFFFF)) by (unfold x_mivTag; lia). done.
Qed.

Lemma high_kind h v k :
  v / 2 ^ 32 = h -> word v -> 0xFFFAFFFF < h -> h = 0xFFFBFFFF /\ k = KInt32 \/ 0xFFFFFFFC <= h <= 0xFFFFFFFE /\ k = KPointer ->
  has_kind k v.
Proof.
  intros Hh Hw Hgt Hk. pose proof Hw as [Hv0 Hv1].
  assert (Hv : h * 2 ^ 32 <= v < (h + 1) * 2 ^ 32).
  { pose proof (Z.div_mod v (2 ^ 32) ltac:(lia)). pose proof (Z.mod_pos_bound v (2 ^ 32) ltac:(lia)). lia. }
  assert (Hc : h = 0xFFFBFFFF /\ k = KInt32 \/ (h = 0xFFFFFFFC \/ h = 0xFFFFFFFD \/ h = 0xFFFFFFFE) /\ k = KPointer)
    by (destruct Hk as [Hk|[Hk ->]]; [by left|right; split; [lia|done]]).
  clear Hk.
  assert (Hd : IsDouble v = false) by (apply Z.ltb_ge; unfold x_int32Tag; lia).
  unfold has_kind, tests_assert, IsInt32_assert, IsMIV_assert, IsPointer_assert, IsDouble_assert.
  rewrite IsInt32_high by exact Hw. rewrite IsMIV_high by exact Hw. rewrite high32_div by exact Hw. rewrite Hd, Hh.
  rewrite (proj2 (Z.leb_gt v 0xFFFAFFFFFFFFFFFF)) by lia.
  destruct Hc as [[-> ->]|[Hc ->]].
  - assert (Hp : IsPointer v = false) by (apply Z.ltb_ge; unfold x_mivTag; lia). rewrite Hp.
    rewrite (proj2 (Z.leb_gt (x_mivTag - 0x7F) v)) by (unfold x_mivTag; lia). done.
  - assert (Hp : IsPointer v = true) by (apply Z.ltb_lt; unfold x_mivTag; lia). rewrite Hp.
    rewrite (proj2 (Z.leb_gt v x_mivTag)) by (unfold x_mivTag; lia). rewrite andb_false_r.
    by destruct Hc as [->|[->| ->]].
Qed.

Lemma miv_kind m : m = x_nil \/ m = x_false \/ m = x_true \/ m = x_impossible_value -> has_kind KMIV (Z.lxor m x_mivTag).
Proof. by intros [->|[->|[->| ->]]]. Qed.

Lemma int32_kind n : 0 <= n < 2 ^ 32 -> has_kind KInt32 (x_int32Tag + n).
Proof.
  intros H. apply (high_kind 0xFFFBFFFF); [|unfold word, x_int32Tag; lia|lia|by left].
  change x_int32Tag with (0xFFFBFFFF * 2 ^ 32). rewrite Z.add_comm, Z.div_add, Z.div_small by lia. done.
Qed.

Lemma pointer_kind v : 0xFFFFFFFC00000000 <= v < 0xFFFFFFFF00000000 -> has_kind KPointer v.
Proof.
  intros H. apply (high_kind (v / 2 ^ 32)); [done|unfold word; lia| |right; split; [split|done]].
  - apply (Z.lt_le_trans _ 0xFFFFFFFC); [lia|]. apply Z.div_le_lower_bound; lia.
  - apply Z.div_le_lower_bound; lia.
  - apply Z.lt_succ_r, Z.div_lt_upper_bound; lia.
Qed.

Lemma boxed_has_kind v : boxed v -> exists k, has_kind k v.
Proof.
  intros [v' H|n H|m H|v' H].
  - exists KDouble. by apply double_kind.
  - exists KInt32. by apply int32_kind.
  - exists KMIV. by apply miv_kind.
  - exists KPointer. by apply pointer_kind.
Qed.

(** C27: a boxed value is of exactly one kind: of the tests for double, int32,
    immediate and pointer one succeeds, and none of the assertions in the tests,
    which state the ranges the tags stand for, fails on it. *)
Theorem boxed_one_kind v : boxed v -> exists k, has_kind k v.
Proof. apply boxed_has_kind. Qed.
Lemma boxed_one_kind_witness : exists k, has_kind k 0xFFFBFFFFFFFFFFFF.
Proof. apply (boxed_one_kind 0xFFFBFFFFFFFFFFFF). apply (boxed_int32 0xFFFFFFFF). lia. Defined.

(** ** Round trips *)
Lemma assert_true b what : b = true -> assert b what = Ok tt.
Proof. by intros ->. Qed.

(** The kind tests a conversion asserts. *)
Lemma kind_tests k v : has_kind k v ->
  IsDouble v = bool_decide (k = KDouble) /\ IsInt32 v = bool_decide (k = KInt32) /\
  IsMIV v = bool_decide (k = KMIV) /\ IsPointer v = bool_decide (k = KPointer).
Proof. by intros (?&?&?&?&_). Qed.

Lemma lor_high n t : 0 <= n < 2 ^ 32 -> Z.lor (t * 2 ^ 32) n = t * 2 ^ 32 + n.
Proof.
  intros Hn. rewrite <-Z.shiftl_mul_pow2 by lia. symmetry. rewrite <-Z.lxor_lor, <-Z.add_nocarry_lxor; try done;
  (apply Z.bits_inj'; intros i Hi; rewrite Z.land_spec, Z.bits_0; destruct (Z.ltb_spec i 32);
   [by rewrite Z.shiftl_spec_low|]; rewrite (Z.bits_above_log2 n), ?andb_false_r; [done|lia|];
   destruct (decide (n = 0)) as [->|]; [simpl; lia|]; apply Z.log2_lt_pow2; [lia|];
   apply (Z.lt_le_trans _ (2 ^ 32)); [lia|]; by apply Z.pow_le_mono_r).
Qed.

Lemma fits_int32_range z : fits_int32 z = true <-> - 2 ^ 31 <= z < 2 ^ 31.
Proof.
  unfold fits_int32, int32_min, int32_max. rewrite andb_true_iff, !Z.leb_le. lia.
Qed.

Lemma CreateInt32_eq z :
  fits_int32 z = true -> CreateInt32 z = Ok (x_int32Tag + z `mod` 2 ^ 32).
Proof.
  intros Hz. unfold CreateInt32. rewrite Z.land_ones by lia.
  pose proof (Z.mod_pos_bound z (2 ^ 32) ltac:(lia)) as Hn.
  change x_int32Tag with (0xFFFBFFFF * 2 ^ 32) at 1 2. rewrite lor_high by done.
  change (0xFFFBFFFF * 2 ^ 32) with x_int32Tag.
  destruct (kind_tests _ _ (int32_kind _ Hn)) as (Hd & Hi & Hm & Hp).
  unfold AsInt32. rewrite Hd, Hi, Hm, Hp. simpl.
  assert (He : to_int32 (x_int32Tag + z `mod` 2 ^ 32) = z).
  { rewrite <-(to_int32_id z Hz) at 2. unfold to_int32. f_equal.
    change x_int32Tag with (0xFFFBFFFF * 2 ^ 32).
    rewrite <-Z.add_assoc, Z.add_comm, Z.mod_add by lia. by rewrite Zplus_mod_idemp_l. }
  by rewrite He, Z.eqb_refl.
Qed.

Lemma AsInt32_eq z : fits_int32 z = true -> AsInt32 (x_int32Tag + z `mod` 2 ^ 32) = Ok z.
Proof.
  intros Hz. pose proof (CreateInt32_eq z Hz) as H. unfold CreateInt32 in H.
  pose proof (Z.mod_pos_bound z (2 ^ 32) ltac:(lia)) as Hn.
  assert (Hor : Z.lor x_int32Tag (Z.land z (Z.ones 32)) = x_int32Tag + z `mod` 2 ^ 32).
  { rewrite Z.land_ones by lia. change x_int32Tag with (0xFFFBFFFF * 2 ^ 32). by apply lor_high. }
  rewrite Hor in H. unfold mbind, result_bind, assert in H. clear -H.
  destruct (AsInt32 (x_int32Tag + z `mod` 2 ^ 32)) as [y|]; [|done].
  destruct (y =? z) eqn:Hy; [|done]. apply Z.eqb_eq in Hy. congruence.
Qed.

(** *** Doubles *)
Definition valid_double (d : double) : Prop := valid_binary d_prec d_emax d = true.

Lemma boxed_nonneg v : boxed v -> 0 <= v.
Proof.
  intros [w H|n H|m H|w H]; [lia|unfold x_int32Tag; lia| |lia].
  by destruct H as [->|[->|[->| ->]]].
Qed.

Lemma digits2_pos_bounds m : 2 ^ (Z.pos (digits2_pos m) - 1) <= Z.pos m < 2 ^ Z.pos (digits2_pos m).
Proof.
  induction m as [m IH|m IH|]; simpl digits2_pos; [| |simpl; lia];
    rewrite Pos2Z.inj_succ; replace (Z.succ (Z.pos (digits2_pos m)) - 1) with (Z.succ (Z.pos (digits2_pos m) - 1)) by lia;
    rewrite !Z.pow_succ_r by lia; lia.
Qed.

(** The mantissas and exponents of binary64: subnormal, or 53 bits wide. *)
Lemma valid_finite s m e :
  valid_double (S754_finite s m e) <->
  (e = -1074 /\ Z.pos m < 2 ^ 53) \/ (-1074 < e <= 971 /\ 2 ^ 52 <= Z.pos m < 2 ^ 53).
Proof.
  unfold valid_double, valid_binary, bounded, canonical_mantissa, fexp, emin, d_prec, d_emax.
  rewrite andb_true_iff, Z.eqb_eq, Z.leb_le. pose proof (digits2_pos_bounds m) as [Hlo Hhi].
  set (d := Z.pos (digits2_pos m)) in *. assert (Hd : 0 < d) by lia.
  assert (H53 : Z.pos m < 2 ^ 53 <-> d <= 53).
  { split; intros H.
    - destruct (Z.le_gt_cases d 53); [done|]. pose proof (Z.pow_le_mono_r 2 53 (d - 1) ltac:(lia) ltac:(lia)). lia.
    - pose proof (Z.pow_le_mono_r 2 d 53 ltac:(lia) ltac:(lia)). lia. }
  assert (H52 : 2 ^ 52 <= Z.pos m <-> 53 <= d).
  { split; intros H.
    - destruct (Z.le_gt_cases 53 d); [done|]. pose proof (Z.pow_le_mono_r 2 d 52 ltac:(lia) ltac:(lia)). lia.
    - pose proof (Z.pow_le_mono_r 2 52 (d - 1) ltac:(lia) ltac:(lia)). lia. }
  rewrite H53, H52. lia.
Qed.

(** Sign, exponent field and mantissa field of a word. *)
Lemma double_of_fields s e m :
  0 <= e < 2 ^ 11 -> 0 <= m < 2 ^ 52 ->
  double_of_bits (bit s 63 + (e * 2 ^ 52 + m)) =
    (if e =? 0 then match m with Z.pos p => S754_finite s p (-1074) | _ => S754_zero s end
     else if e =? 2047 then if m =? 0 then S754_infinity s else S754_nan
     else S754_finite s (Z.to_pos (m + 2 ^ 52)) (e - 1075)).
Proof.
  intros He Hm. unfold double_of_bits.
  assert (Hs : (2 ^ 63 <=? bit s 63 + (e * 2 ^ 52 + m)) = s).
  { destruct s; simpl bit; [apply Z.leb_le; lia|]. apply Z.leb_gt. lia. }
  assert (Hq : (bit s 63 + (e * 2 ^ 52 + m)) / 2 ^ 52 = bit s 11 + e).
  { replace (bit s 63 + (e * 2 ^ 52 + m)) with (m + (bit s 11 + e) * 2 ^ 52) by (destruct s; simpl bit; lia).
    rewrite Z.div_add, Z.div_small by lia. lia. }
  assert (Hr : (bit s 63 + (e * 2 ^ 52 + m)) `mod` 2 ^ 52 = m).
  { replace (bit s 63 + (e * 2 ^ 52 + m)) with (m + (bit s 11 + e) * 2 ^ 52) by (destruct s; simpl bit; lia).
    rewrite Z.mod_add, Z.mod_small by lia. lia. }
  assert (He' : (bit s 11 + e) `mod` 2 ^ 11 = e).
  { destruct s; simpl bit; [|by apply Z.mod_small]. rewrite Z.add_comm.
    replace (e + 2 ^ 11) with (e + 1 * 2 ^ 11) by lia. rewrite Z.mod_add by lia. by apply Z.mod_small. }
  by rewrite Hs, Hq, Hr, He'.
Qed.

Lemma double_of_bits_of_double d : valid_double d -> double_of_bits (bits_of_double d) = d.
Proof.
  intros Hv. destruct d as [s|s| |s m e]; [by destruct s|by destruct s|done|].
  apply valid_finite in Hv. unfold bits_of_double. destruct (Z.ltb_spec (Z.pos m) (2 ^ 52)) as [Hm|Hm].
  - assert (e = -1074) as -> by lia. change (Z.pos m) with (0 * 2 ^ 52 + Z.pos m). by rewrite double_of_fields by lia.
  - rewrite double_of_fields by lia. rewrite (proj2 (Z.eqb_neq (e + 1075) 0)), (proj2 (Z.eqb_neq (e + 1075) 2047)) by lia.
    replace (Z.pos m - 2 ^ 52 + 2 ^ 52) with (Z.pos m) by lia. simpl Z.to_pos. f_equal. lia.
Qed.

Lemma bits_of_double_range d : valid_double d -> 0 <= bits_of_double d <= 0xFFFAFFFFFFFFFFFF.
Proof.
  intros Hv. destruct d as [s|s| |s m e]; [destruct s; simpl; lia|destruct s; simpl; lia|simpl; lia|].
  apply valid_finite in Hv. unfold bits_of_double, bit.
  destruct (Z.ltb_spec (Z.pos m) (2 ^ 52)); destruct s; lia.
Qed.

Lemma SFeqb_refl d : isnan d = false -> SFeqb d d = true.
Proof.
  intros Hn. unfold SFeqb, SFcompare. destruct d as [s|s| |s m e]; try done; destruct s; try done;
    by rewrite Z.compare_refl, Pos.compare_cont_refl.
Qed.

Lemma box_int32 z : fits_int32 z = true -> exists v, CreateInt32 z = Ok v /\ has_kind KInt32 v /\ AsInt32 v = Ok z.
Proof.
  intros Hz. exists (x_int32Tag + z `mod` 2 ^ 32). split_and!.
  - by apply CreateInt32_eq.
  - apply int32_kind, Z.mod_pos_bound. lia.
  - by apply AsInt32_eq.
Qed.

Lemma box_double d : valid_double d -> exists v, CreateDouble d = Ok v /\ has_kind KDouble v /\ AsDouble v = Ok d.
Proof.
  intros Hd. exists (bits_of_double d). pose proof (double_kind _ (bits_of_double_range d Hd)) as Hk.
  destruct (kind_tests _ _ Hk) as (H1 & H2 & H3 & H4).
  assert (Has : AsDouble (bits_of_double d) = Ok d).
  { unfold AsDouble. rewrite H1, H2, H3, H4. simpl. by rewrite double_of_bits_of_double. }
  split_and!; [|done|done]. unfold CreateDouble. rewrite Has. simpl.
  destruct (isnan d) eqn:Hn; [done|]. by rewrite (SFeqb_refl d Hn).
Qed.

Lemma box_miv m : m = x_nil \/ m = x_false \/ m = x_true \/ m = x_impossible_value ->
  exists v, CreateMIV m = Ok v /\ has_kind KMIV v /\ AsMIV v = Ok m.
Proof.
  intros Hm. exists (Z.lxor m x_mivTag). split_and!; [|by apply miv_kind|]; by destruct Hm as [->|[->|[->| ->]]].
Qed.

(** What is boxed can be unboxed.  Boxing an int32, a double (any binary64
    value, infinities and NaN included) or an immediate fails no assertion, gives
    a value of its own kind, and unboxing returns the value boxed. *)
Theorem box_unbox :
  (forall z, fits_int32 z = true -> exists v, CreateInt32 z = Ok v /\ has_kind KInt32 v /\ AsInt32 v = Ok z) /\
  (forall d, valid_double d -> exists v, CreateDouble d = Ok v /\ has_kind KDouble v /\ AsDouble v = Ok d) /\
  (forall m, m = x_nil \/ m = x_false \/ m = x_true \/ m = x_impossible_value ->
     exists v, CreateMIV m = Ok v /\ has_kind KMIV v /\ AsMIV v = Ok m).
Proof. split_and!; [exact box_int32|exact box_double|exact box_miv]. Qed.

(** Only [nil] and [false] are not truthy: the comparison after the xor with
    the tag, which relies on how the immediates are numbered, answers the
    question for every value a program computes. *)
Theorem IsTruthy_correct v :
  boxed v -> IsTruthy v = negb (bool_decide (v = Z.lxor x_nil x_mivTag \/ v = Z.lxor x_false x_mivTag)).
Proof.
  intros Hb. assert (Hx : Z.lxor (Z.lxor v x_mivTag) x_mivTag = v) by (by rewrite Z.lxor_assoc, Z.lxor_nilpotent, Z.lxor_0_r).
  pose proof (boxed_nonneg v Hb) as H0.
  assert (Hn : 0 <= Z.lxor v x_mivTag) by (apply Z.lxor_nonneg; unfold x_mivTag; lia).
  assert (H1 : Z.lxor v x_mivTag <> 1).
  { intros H. rewrite H in Hx. destruct (boxed_has_kind v Hb) as (k & Hd & Hi & Hm & Hp & Ht).
    clear -Hb Hx. subst v. remember (Z.lxor 1 x_mivTag) as w eqn:Hw. destruct Hb as [v Hv|n Hn|m Hm|v Hv].
    - subst v. vm_compute in Hv. destruct Hv as [_ Hv]. by destruct Hv.
    - unfold x_int32Tag in Hw. change (Z.lxor 1 x_mivTag) with 0xFFFCFFFF0000007E in Hw. lia.
    - destruct Hm as [->|[->|[->| ->]]]; vm_compute in Hw; done.
    - subst v. vm_compute in Hv. destruct Hv as [Hv _]. by destruct Hv. }
  unfold IsTruthy. destruct (Z.ltb_spec 2 (Z.lxor v x_mivTag)) as [Hlt|Hle]; symmetry.
  - apply negb_true_iff, bool_decide_eq_false. intros [->| ->]; revert Hlt; by vm_compute.
  - apply negb_false_iff, bool_decide_eq_true. unfold x_nil, x_false.
    assert (Hc : Z.lxor v x_mivTag = 0 \/ Z.lxor v x_mivTag = 2) by lia.
    rewrite <-Hx. destruct Hc as [-> | ->]; [by left|by right].
Qed.

Lemma IsTruthy_correct_witness :
  IsTruthy 0xFFFBFFFF00000000 = negb (bool_decide (0xFFFBFFFF00000000 = Z.lxor x_nil x_mivTag \/ 0xFFFBFFFF00000000 = Z.lxor x_false x_mivTag)).
Proof. apply (IsTruthy_correct 0xFFFBFFFF00000000). apply (boxed_int32 0). lia. Defined.
