(* ===== verification/TypeMask.v ===== *)
(** * The lattice of type masks

    Models the type specialization list of [drt/tvalue.h], the computation of a
    type's bit mask from the list, [GetTypeForBoxedValue] and [TypeMask]. *)
From S2P Require Import Prelude CNumbers TValue.

#[local] Open Scope Z_scope.

(** [HeapEntityType], in the order of [HEAP_OBJECT_INFO_LIST]. *)
Inductive HeapEntityType : Type :=
  | HFunction | HThread | HObject | HUpvalue | HUnlinkedCodeBlock | HExecutableCode | HSOMClass.
#[export] Instance HeapEntityType_eq_dec : EqDecision HeapEntityType.
Proof. solve_decision. Defined.

(** The elements of [TypeSpecializationList]. *)
Inductive SpecType : Type :=
  | tNil | tBool | tMIV | tDoubleNotNaN | tDoubleNaN | tInt32 | tDouble
  | tFunction | tThread | tObject | tHeapEntity
  | tBottom | tGarbage | tOpaque | tBoxedValueTop | tFullTop.
#[export] Instance SpecType_eq_dec : EqDecision SpecType.
Proof. solve_decision. Defined.

Definition TypeSpecializationList : list SpecType :=
  [tNil; tBool; tMIV; tDoubleNotNaN; tDoubleNaN; tInt32; tDouble; tFunction; tThread; tObject;
   tHeapEntity; tBottom; tGarbage; tOpaque; tBoxedValueTop; tFullTop].

(** [TSMDef]: a leaf, or the union of other types; the special elements have none. *)
Inductive TSMDef : Type := TypeSpeculationLeaf | tsm_or (args : list SpecType) | NoTSMDef.

Definition TSMDef_of (t : SpecType) : TSMDef :=
  match t with
  | tNil | tBool | tDoubleNotNaN | tDoubleNaN | tInt32 | tFunction | tThread | tObject => TypeSpeculationLeaf
  | tMIV => tsm_or [tNil; tBool]
  | tDouble => tsm_or [tDoubleNotNaN; tDoubleNaN]
  | tHeapEntity => tsm_or [tFunction; tThread; tObject]
  | tBottom | tGarbage | tOpaque | tBoxedValueTop | tFullTop => NoTSMDef
  end.

Definition is_type_speculation_leaf (t : SpecType) : bool :=
  match t with
  | tFullTop | tBoxedValueTop | tBottom => false
  | tGarbage | tOpaque => true
  | _ => match TSMDef_of t with TypeSpeculationLeaf => true | _ => false end
  end.

Fixpoint count_leaves (l : list SpecType) : Z :=
  match l with [] => 0 | t :: l' => (if is_type_speculation_leaf t then 1 else 0) + count_leaves l' end.

Definition x_numUsefulBitsInFullTypeMask : Z := count_leaves TypeSpecializationList.
Definition x_numLatticeLeavesOutsideBoxedValueLattice : Z := 2.
Definition x_numUsefulBitsInBytecodeTypeMask : Z :=
  x_numUsefulBitsInFullTypeMask - x_numLatticeLeavesOutsideBoxedValueLattice.

(** The number of leaves in front of [t]. *)
Fixpoint leaf_ordinal_in (l : list SpecType) (t : SpecType) : Z :=
  match l with
  | [] => 0
  | u :: l' => if bool_decide (u = t) then 0
               else (if is_type_speculation_leaf u then 1 else 0) + leaf_ordinal_in l' t
  end.
Definition type_speculation_leaf_ordinal (t : SpecType) : Z := leaf_ordinal_in TypeSpecializationList t.

(** [static_cast<TypeMaskTy>(-1) >> (32 - numLeaves)] *)
Definition ComputeTypeMaskForTop : Z :=
  Z.shiftr (Z.ones 32) (32 - x_numUsefulBitsInBytecodeTypeMask).

(** The union of the masks of a definition's arguments, all of which are leaves. *)
Definition leaf_mask (t : SpecType) : Z := Z.shiftl 1 (type_speculation_leaf_ordinal t).
Definition eval_operator (d : TSMDef) (t : SpecType) : Z :=
  match d with
  | TypeSpeculationLeaf => leaf_mask t
  | tsm_or args => fold_right (fun u r => Z.lor (leaf_mask u) r) 0 args
  | NoTSMDef => 0
  end.

Definition x_typeMaskFor (t : SpecType) : Z :=
  match t with
  | tBottom => 0
  | tBoxedValueTop => ComputeTypeMaskForTop
  | tGarbage => Z.shiftl 1 x_numUsefulBitsInBytecodeTypeMask
  | tOpaque => Z.shiftl 1 (x_numUsefulBitsInBytecodeTypeMask + 1)
  | tFullTop => Z.lor (Z.lor ComputeTypeMaskForTop (Z.shiftl 1 x_numUsefulBitsInBytecodeTypeMask))
                  (Z.shiftl 1 (x_numUsefulBitsInBytecodeTypeMask + 1))
  | _ => eval_operator (TSMDef_of t) t
  end.

(** ** Checks and types of values *)
Section types.
(** [DeegenImpl_TValueGetPointerType]: the type in the header of the object. *)
Context (pointerType : Z -> HeapEntityType).

Definition check_type (t : SpecType) (v : Z) : result bool :=
  match t with
  | tNil => Ok (IsNil v)
  | tBool => Ok (IsMIV v && negb (IsNil v))
  | tMIV => Ok (IsMIV v)
  | tDoubleNotNaN => Ok (IsDoubleNotNaN v)
  | tDoubleNaN => Ok (IsDoubleNaN v)
  | tInt32 => Ok (IsInt32 v)
  | tDouble => Ok (IsDouble v)
  | tFunction => Ok (IsPointer v && bool_decide (pointerType v = HFunction))
  | tThread => Ok (IsPointer v && bool_decide (pointerType v = HThread))
  | tObject => Ok (IsPointer v && bool_decide (pointerType v = HObject))
  | tHeapEntity => Ok (IsPointer v)
  | tBottom => Ok false
  | tGarbage | tOpaque => Err (AssertFailed "false")
  | tBoxedValueTop | tFullTop => Ok true
  end.

Definition x_heapEntityTypeMaskMap (h : HeapEntityType) : option Z :=
  match h with
  | HFunction => Some (x_typeMaskFor tFunction)
  | HThread => Some (x_typeMaskFor tThread)
  | HObject => Some (x_typeMaskFor tObject)
  | _ => None
  end.

Definition GetTypeForBoxedValue (value : Z) : result Z :=
  is_double ← check_type tDouble value;
  if is_double : bool then
    not_nan ← check_type tDoubleNotNaN value;
    Ok (if not_nan : bool then x_typeMaskFor tDoubleNotNaN else x_typeMaskFor tDoubleNaN)
  else
    is_entity ← check_type tHeapEntity value;
    if is_entity : bool then
      match x_heapEntityTypeMaskMap (pointerType value) with
      | Some m => Ok m
      | None => Err (AssertFailed "ty < x_heapEntityTypeMaskMap.size()")
      end
    else
      is_miv ← check_type tMIV value;
      if is_miv : bool then
        is_nil ← check_type tNil value;
        if is_nil : bool then Ok (x_typeMaskFor tNil)
        else is_bool ← check_type tBool value;
             assert is_bool "value.Is<tBool>()" ;; Ok (x_typeMaskFor tBool)
      else
        is_int ← check_type tInt32 value;
        assert is_int "value.Is<tInt32>()" ;; Ok (x_typeMaskFor tInt32).
End types.

(** ** [TypeMask] *)
Definition Empty (m : Z) : bool := m =? 0.
Definition SubsetOf (m other : Z) : bool := Z.land m other =? m.
Definition StrictSubsetOf (m other : Z) : bool := SubsetOf m other && negb (m =? other).
Definition SupersetOf (m other : Z) : bool := Z.land m other =? other.
Definition StrictSupersetOf (m other : Z) : bool := SupersetOf m other && negb (m =? other).
Definition DisjointFrom (m other : Z) : bool := Z.land m other =? 0.
Definition OverlapsWith (m other : Z) : bool := negb (Z.land m other =? 0).
Definition Cap (m other : Z) : Z := Z.land m other.
Definition Cup (m other : Z) : Z := Z.lor m other.
Definition Subtract (m other : Z) : Z := Z.land m (Z.lnot other).

(** ** Theorems *)

(** The types whose checks are run on values. *)
Definition boxed_type (t : SpecType) : bool :=
  match t with tGarbage | tOpaque => false | _ => true end.

(** Values whose checks are meaningful: a boxed value, whose heap object is of a type
    the language exposes. *)
Definition checkable (pointerType : Z -> HeapEntityType) (v : Z) : Prop :=
  boxed v /\ (IsPointer v = true -> is_Some (x_heapEntityTypeMaskMap (pointerType v))).
(** A NaN other than the one [IsDoubleNaN] compares with. *)
Definition impure_NaN (v : Z) : bool := IsDouble v && negb (IsDoubleNotNaN v) && negb (IsDoubleNaN v).

(** A word with a tag is not a number when read as a double. *)
Lemma high_words_are_NaN v : 0xFFF8000000000000 < v < 2 ^ 64 -> IsDoubleNotNaN v = false.
Proof.
  intros H. unfold IsDoubleNotNaN. apply negb_false_iff.
  replace v with (bit true 63 + (2047 * 2 ^ 52 + (v - 0xFFF0000000000000))) by (simpl bit; lia).
  rewrite double_of_fields by lia. simpl (2047 =? 0). cbv iota. rewrite (proj2 (Z.eqb_neq _ 0)) by lia. done.
Qed.

Lemma boxed_word v : boxed v -> word v.
Proof.
  intros Hb. split; [by apply boxed_nonneg|]. destruct Hb as [w H|n H|m H|w H]; [lia|unfold x_int32Tag; lia| |lia].
  by destruct H as [->|[->|[->| ->]]].
Qed.

Lemma not_double_high v : IsDouble v = false -> 0xFFF8000000000000 < v.
Proof. intros H. apply Z.ltb_ge in H. unfold x_int32Tag in H. lia. Qed.

(** The checks on a value of each kind, and its type. *)
Lemma IsNil_kind v k : has_kind k v -> k <> KMIV -> IsNil v = false.
Proof.
  intros (_ & _ & Hm & _) Hk. unfold IsNil. apply Z.eqb_neq. intros ->.
  rewrite bool_decide_eq_false_2 in Hm by done. by vm_compute in Hm.
Qed.

Lemma kind_not_double v k : boxed v -> has_kind k v -> k <> KDouble -> IsDoubleNotNaN v = false /\ IsDoubleNaN v = false.
Proof.
  intros Hb (Hd & _) Hk. rewrite bool_decide_eq_false_2 in Hd by done. apply not_double_high in Hd.
  destruct (boxed_word v Hb). split; [by apply high_words_are_NaN|]. apply Z.eqb_neq. unfold x_pureNaN. lia.
Qed.

(** C28: the mask [GetTypeForBoxedValue] computes for a value says which type checks
    it passes: for every type of the lattice and every boxed value, the check
    succeeds if and only if the type's mask contains the value's bit, with one
    exception: a NaN whose bits are not those of the pure NaN has the bit of
    [tDoubleNaN] and fails that one check. *)
Theorem type_mask_is_type_check pointerType v t :
  checkable pointerType v -> boxed_type t = true ->
  exists m, GetTypeForBoxedValue pointerType v = Ok m /\
    check_type pointerType t v = Ok (SubsetOf m (x_typeMaskFor t) && negb (impure_NaN v && bool_decide (t = tDoubleNaN))).
Proof.
  intros (Hb & Hptr) Ht. destruct (boxed_has_kind v Hb) as [k Hk].
  destruct (kind_tests _ _ Hk) as (Hd & Hi & Hm & Hp). unfold GetTypeForBoxedValue, check_type, impure_NaN; simpl.
  destruct k; simpl in Hd, Hi, Hm, Hp.
  - rewrite (IsNil_kind v _ Hk) by done. rewrite Hd, Hi, Hm, Hp. destruct (IsDoubleNotNaN v) eqn:Hn.
    + eexists. split; [done|]. assert (IsDoubleNaN v = false) as ->
        by (apply Z.eqb_neq; intros ->; by vm_compute in Hn). by destruct t.
    + eexists. split; [done|]. destruct (IsDoubleNaN v); by destruct t.
  - rewrite (IsNil_kind v _ Hk) by done. destruct (kind_not_double v _ Hb Hk) as [-> ->]; [done|].
    rewrite Hd, Hi, Hm, Hp. eexists. split; [done|]. by destruct t.
  - destruct (kind_not_double v _ Hb Hk) as [-> ->]; [done|]. rewrite Hd, Hi, Hm, Hp.
    destruct (IsNil v) eqn:Hnil; (eexists; split; [done|]); by destruct t.
  - rewrite (IsNil_kind v _ Hk) by done. destruct (kind_not_double v _ Hb Hk) as [-> ->]; [done|].
    rewrite Hd, Hi, Hm, Hp. destruct (Hptr Hp) as [m Hmask]. rewrite Hmask. exists m. split; [done|].
    destruct (pointerType v); try done; injection Hmask as <-; by destruct t.
Qed.

Definition sample_types (v : Z) : HeapEntityType := if v =? 0xFFFFFFFC00000100 then HObject else HFunction.
Lemma type_mask_is_type_check_witness :
  (exists m, GetTypeForBoxedValue sample_types 0xFFFFFFFC00000100 = Ok m /\
    check_type sample_types tHeapEntity 0xFFFFFFFC00000100 = Ok (SubsetOf m (x_typeMaskFor tHeapEntity) && negb (false && false))) /\
  (exists m, GetTypeForBoxedValue sample_types 0xFFF8000000000000 = Ok m /\
    check_type sample_types tDoubleNaN 0xFFF8000000000000 = Ok (SubsetOf m (x_typeMaskFor tDoubleNaN) && negb (true && true))).
Proof.
  split.
  - apply (type_mask_is_type_check sample_types 0xFFFFFFFC00000100 tHeapEntity); [|reflexivity].
    split; [apply boxed_pointer; lia|]. intros _. vm_compute. eexists. reflexivity.
  - apply (type_mask_is_type_check sample_types 0xFFF8000000000000 tDoubleNaN); [|reflexivity].
    split; [apply boxed_double; lia|]. intros H. exfalso. vm_compute in H. discriminate H.
Defined.

(** A mask is the set of its bits. *)
Definition contains (m i : Z) : Prop := Z.testbit m i = true.

Lemma mask_ext a b : (forall i, 0 <= i -> contains a i <-> contains b i) -> a = b.
Proof.
  intros H. apply Z.bits_inj'. intros i Hi. apply eq_bool_prop_intro. specialize (H i Hi). unfold contains in H.
  destruct (Z.testbit a i), (Z.testbit b i); simpl; naive_solver.
Qed.

Lemma SubsetOf_spec a b : SubsetOf a b = true <-> forall i, 0 <= i -> contains a i -> contains b i.
Proof.
  unfold SubsetOf, contains. rewrite Z.eqb_eq. split.
  - intros <- i _. rewrite Z.land_spec. by intros [_ H]%andb_true_iff.
  - intros H. apply mask_ext. intros i Hi. unfold contains. rewrite Z.land_spec, andb_true_iff. naive_solver.
Qed.

Lemma Empty_spec a : Empty a = true <-> forall i, 0 <= i -> ~ contains a i.
Proof.
  unfold Empty, contains. rewrite Z.eqb_eq. split.
  - intros -> i _. by rewrite Z.bits_0.
  - intros H. apply mask_ext. intros i Hi. unfold contains. rewrite Z.bits_0. naive_solver.
Qed.

(** The operations on type masks are those of sets of leaf types: inclusion,
    disjointness, union, intersection and difference. *)
Theorem TypeMask_operations a b :
  (SubsetOf a b = true <-> forall i, 0 <= i -> contains a i -> contains b i) /\
  SupersetOf a b = SubsetOf b a /\
  StrictSubsetOf a b = SubsetOf a b && negb (SubsetOf b a) /\
  StrictSupersetOf a b = StrictSubsetOf b a /\
  (DisjointFrom a b = true <-> forall i, 0 <= i -> ~ (contains a i /\ contains b i)) /\
  OverlapsWith a b = negb (DisjointFrom a b) /\
  (forall i, 0 <= i -> contains (Cup a b) i <-> contains a i \/ contains b i) /\
  (forall i, 0 <= i -> contains (Cap a b) i <-> contains a i /\ contains b i) /\
  (forall i, 0 <= i -> contains (Subtract a b) i <-> contains a i /\ ~ contains b i).
Proof.
  split_and!; [apply SubsetOf_spec| | | | |done| | |].
  - unfold SupersetOf, SubsetOf. by rewrite Z.land_comm.
  - unfold StrictSubsetOf, SubsetOf. destruct (Z.eqb_spec (Z.land a b) a) as [Ha|]; [|done]. simpl. f_equal.
    rewrite Z.land_comm, Ha. done.
  - unfold StrictSupersetOf, StrictSubsetOf, SupersetOf, SubsetOf. by rewrite (Z.land_comm b a), (Z.eqb_sym b a).
  - change (DisjointFrom a b) with (Empty (Z.land a b)). rewrite Empty_spec. unfold contains.
    setoid_rewrite Z.land_spec. setoid_rewrite andb_true_iff. done.
  - intros i _. unfold contains, Cup. by rewrite Z.lor_spec, orb_true_iff.
  - intros i _. unfold contains, Cap. by rewrite Z.land_spec, andb_true_iff.
  - intros i Hi. unfold contains, Subtract. rewrite Z.land_spec, Z.lnot_spec, andb_true_iff, negb_true_iff by done.
    by rewrite not_true_iff_false.
Qed.

(** The value of [0.0 / 0.0] on x86, the NaN with its sign bit set, is a
    boxed double whose type is the NaN type, but the check of the NaN type,
    which compares with the other quiet NaN, answers no for it. *)
Theorem negative_NaN_type_and_check_differ pointerType :
  boxed 0xFFF8000000000000 /\
  GetTypeForBoxedValue pointerType 0xFFF8000000000000 = Ok (x_typeMaskFor tDoubleNaN) /\
  check_type pointerType tDoubleNaN 0xFFF8000000000000 = Ok false.
Proof. split_and!; [apply boxed_double; lia|done|done]. Qed.
