(* ===== verification/Doubles.v ===== *)
(** * Double arithmetic

    The operations on [double] and the conversions between integers and doubles
    that the interpreter's arithmetic uses, as IEEE binary64 operations rounded
    to nearest even, and that each of them gives a binary64 value again. *)
From S2P Require Import Prelude CNumbers TValue.

#[local] Open Scope Z_scope.

Definition d_add : double -> double -> double := SFadd d_prec d_emax.
Definition d_mul : double -> double -> double := SFmul d_prec d_emax.
Definition d_div : double -> double -> double := SFdiv d_prec d_emax.
Definition d_sqrt : double -> double := SFsqrt d_prec d_emax.
Definition d_one : double := binary_round d_prec d_emax false 1 0.

(** [static_cast<double>] of an integer. *)
Definition double_of_int (z : Z) : double := binary_normalize d_prec d_emax z 0 false.

(** The integer part of a finite double. *)
Definition trunc_double (d : double) : option Z :=
  match d with
  | S754_zero _ => Some 0
  | S754_finite s m e =>
      let a := if 0 <=? e then Z.pos m * 2 ^ e else Z.pos m / 2 ^ (- e) in
      Some (if s : bool then - a else a)
  | _ => None
  end.

Definition fits_int64 (z : Z) : bool := (llong_min <=? z) && (z <=? llong_max).

(** [static_cast] of a double to an integer type: undefined out of range. *)
Definition double_to (fits : Z -> bool) (d : double) : result Z :=
  match trunc_double d with
  | Some z => if fits z then Ok z else Err (UndefinedBehaviour "conversion of a double out of range")
  | None => Err (UndefinedBehaviour "conversion of a double out of range")
  end.
Definition double_to_int32 : double -> result Z := double_to fits_int32.
Definition double_to_int64 : double -> result Z := double_to fits_int64.

(** The integer nearest to [m / 2 ^ k], ties to even or away from zero. *)
Definition nearest_even (m k : Z) : Z :=
  let q := m / 2 ^ k in
  let r := m `mod` 2 ^ k in
  match 2 * r ?= 2 ^ k with Lt => q | Eq => if Z.even q then q else q + 1 | Gt => q + 1 end.
Definition nearest_away (m k : Z) : Z := (m + 2 ^ (k - 1)) / 2 ^ k.

(** [rint] in the default rounding mode; the sign of zero is kept. *)
Definition rint (d : double) : double :=
  match d with
  | S754_finite s m e =>
      if 0 <=? e then d
      else let n := nearest_even (Z.pos m) (- e) in
           binary_normalize d_prec d_emax (if s : bool then - n else n) 0 s
  | _ => d
  end.

(** [llround]. *)
Definition llround (d : double) : result Z :=
  match d with
  | S754_zero _ => Ok 0
  | S754_finite s m e =>
      let a := if 0 <=? e then Z.pos m * 2 ^ e else nearest_away (Z.pos m) (- e) in
      let z := if s : bool then - a else a in
      if fits_int64 z then Ok z else Err (UndefinedBehaviour "llround out of range")
  | _ => Err (UndefinedBehaviour "llround out of range")
  end.

Example double_examples :
  d_add (double_of_int 1) (double_of_int 2) = double_of_int 3 /\
  d_div (double_of_int 1) (double_of_int 4) = S754_finite false 4503599627370496 (-54) /\
  d_sqrt (double_of_int 16) = double_of_int 4 /\
  double_to_int32 (d_div (double_of_int (-7)) (double_of_int 2)) = Ok (-3) /\
  double_to_int32 (double_of_int (2 ^ 31)) = Err (UndefinedBehaviour "conversion of a double out of range") /\
  llround (d_div (double_of_int (-5)) (double_of_int 2)) = Ok (-3) /\
  rint (d_div (double_of_int 5) (double_of_int 2)) = double_of_int 2.
Proof. vm_compute. repeat split. Qed.

(** ** Rounding gives a binary64 value *)
Notation digits := Zdigits2.
Notation d_fexp := (fexp d_prec d_emax).

Lemma d_fexp_eq z : d_fexp z = Z.max (z - 53) (-1074).
Proof. done. Qed.

Lemma digits_bounds m : 0 < m -> 2 ^ (digits m - 1) <= m < 2 ^ digits m.
Proof. intros Hm. destruct m as [|p|p]; [lia| |lia]. apply digits2_pos_bounds. Qed.

Lemma digits_nonneg m : 0 <= m -> 0 <= digits m.
Proof. by destruct m as [|p|p]. Qed.

Lemma digits_pos m : 0 < m -> 0 < digits m.
Proof. destruct m as [|p|p]; simpl; lia. Qed.

Lemma digits_unique m d : 0 < m -> 0 < d -> 2 ^ (d - 1) <= m < 2 ^ d -> digits m = d.
Proof.
  intros Hm Hd [Hlo Hhi]. pose proof (digits_bounds m Hm) as [Hlo' Hhi']. pose proof (digits_pos m Hm) as Hp.
  assert (digits m - 1 < d) by (apply (Z.pow_lt_mono_r_iff 2); lia).
  assert (d - 1 < digits m) by (apply (Z.pow_lt_mono_r_iff 2); lia). lia.
Qed.

(** Below [2 ^ k] is at most [k] digits, and from [2 ^ (k - 1)] on at least [k]. *)
Lemma digits_le m k : 0 <= m < 2 ^ k -> 0 <= k -> digits m <= k.
Proof.
  intros [H0 H1] Hk. destruct (decide (m = 0)) as [->|]; [simpl; lia|].
  pose proof (digits_bounds m ltac:(lia)) as [Hlo _].
  assert (digits m - 1 < k); [|lia]. apply (Z.pow_lt_mono_r_iff 2); lia.
Qed.

Lemma digits_ge m k : 0 < m -> 2 ^ (k - 1) <= m -> k <= digits m.
Proof.
  intros H0 H1. pose proof (digits_bounds m H0) as [_ Hhi]. pose proof (digits_pos m H0).
  destruct (Z.le_gt_cases k 0); [lia|].
  assert (k - 1 < digits m); [|lia]. apply (Z.pow_lt_mono_r_iff 2); lia.
Qed.

Lemma digits_div m k : 0 <= m -> 0 <= k -> digits (m / 2 ^ k) = Z.max 0 (digits m - k).
Proof.
  intros Hm Hk. destruct (decide (m = 0)) as [->|Hm0]; [rewrite Z.div_0_l; simpl; lia|].
  assert (H0 : 0 < m) by lia. pose proof (digits_bounds m H0) as [Hlo Hhi].
  destruct (Z.le_gt_cases (digits m) k) as [Hd|Hd].
  - rewrite Z.div_small; [simpl; lia|]. split; [lia|]. pose proof (Z.pow_le_mono_r 2 (digits m) k). lia.
  - assert (Hq : 2 ^ (digits m - k - 1) <= m / 2 ^ k < 2 ^ (digits m - k)).
    { split.
      - apply Z.div_le_lower_bound; [lia|]. rewrite <-Z.pow_add_r by lia.
        by replace (k + (digits m - k - 1)) with (digits m - 1) by lia.
      - apply Z.div_lt_upper_bound; [lia|]. rewrite <-Z.pow_add_r by lia.
        by replace (k + (digits m - k)) with (digits m) by lia. }
    rewrite (digits_unique _ (digits m - k)); [lia| |lia|done].
    pose proof (Z.pow_pos_nonneg 2 (digits m - k - 1)). lia.
Qed.

Lemma shr_1_half r : 0 <= shr_m r -> shr_m (shr_1 r) = shr_m r / 2.
Proof.
  destruct r as [m g s]. cbn [shr_m]. intros H. rewrite <-Z.div2_div.
  by destruct m as [|[p|p|]|p].
Qed.

Lemma iter_shr p r : 0 <= shr_m r -> shr_m (iter_pos shr_1 p r) = shr_m r / 2 ^ Z.pos p.
Proof.
  revert r. induction p as [p IH|p IH|]; intros r Hr; simpl iter_pos.
  - assert (H1 : 0 <= shr_m (shr_1 r)) by (rewrite shr_1_half by done; by apply Z.div_pos).
    assert (H2 : 0 <= shr_m (iter_pos shr_1 p (shr_1 r))) by (rewrite IH by done; by apply Z.div_pos; [|lia]).
    rewrite IH, IH, shr_1_half, !Z.div_div by lia. f_equal.
    replace (Z.pos p~1) with (1 + Z.pos p + Z.pos p) by lia. rewrite !Z.pow_add_r by lia. ring.
  - assert (H2 : 0 <= shr_m (iter_pos shr_1 p r)) by (rewrite IH by done; by apply Z.div_pos; [|lia]).
    rewrite IH, IH, Z.div_div by lia. f_equal.
    replace (Z.pos p~0) with (Z.pos p + Z.pos p) by lia. by rewrite Z.pow_add_r by lia.
  - by apply shr_1_half.
Qed.

Lemma shr_record_m m l : shr_m (shr_record_of_loc m l) = m.
Proof. by destruct l as [|[]]. Qed.

(** The shift to the exponent of the format. *)
Lemma shr_fexp_eq m e l :
  0 <= m -> e <= d_fexp (digits m + e) ->
  exists r, shr_fexp d_prec d_emax m e l = (r, d_fexp (digits m + e)) /\
    shr_m r = m / 2 ^ (d_fexp (digits m + e) - e).
Proof.
  intros Hm He. unfold shr_fexp, shr. destruct (d_fexp (digits m + e) - e) as [|p|p] eqn:Hs; [| |lia].
  - eexists. split; [f_equal; lia|]. rewrite shr_record_m. by rewrite Z.div_1_r.
  - eexists. split; [f_equal; lia|]. by rewrite iter_shr, shr_record_m by (by rewrite shr_record_m).
Qed.

Lemma round_range m l : round_nearest_even m l = m \/ round_nearest_even m l = m + 1.
Proof. destruct l as [|[]]; simpl; auto. case_match; auto. Qed.

Lemma binary_round_aux_valid s m e l :
  0 <= m -> e <= d_fexp (digits m + e) -> valid_double (binary_round_aux d_prec d_emax s m e l).
Proof.
  intros Hm He. unfold binary_round_aux. destruct (shr_fexp_eq m e l Hm He) as (r & -> & Hr).
  set (e' := d_fexp (digits m + e)) in *. set (m' := round_nearest_even (shr_m r) (loc_of_shr_record r)).
  assert (Hr0 : 0 <= shr_m r) by (rewrite Hr; apply Z.div_pos; lia).
  assert (Hdr : digits (shr_m r) = Z.max 0 (digits m - (e' - e))) by (rewrite Hr; apply digits_div; lia).
  assert (Hm' : shr_m r <= m' <= shr_m r + 1) by (unfold m'; pose proof (round_range (shr_m r) (loc_of_shr_record r)); lia).
  assert (Hcap : digits (shr_m r) + e' - 53 <= e' /\ (e' <> -1074 -> digits (shr_m r) = 53)).
  { rewrite Hdr. unfold e'. rewrite d_fexp_eq. pose proof (digits_nonneg m Hm). lia. }
  destruct Hcap as [Hcap Hfull].
  assert (H53 : m' <= 2 ^ 53).
  { destruct (decide (shr_m r = 0)); [lia|]. pose proof (digits_bounds (shr_m r) ltac:(lia)) as [_ Hb].
    pose proof (Z.pow_le_mono_r 2 (digits (shr_m r)) 53 ltac:(lia) ltac:(lia)). lia. }
  assert (Hmin : -1074 <= e') by (unfold e'; rewrite d_fexp_eq; lia).
  assert (Hlow : e' <> -1074 -> 2 ^ 52 <= m').
  { intros Hne. specialize (Hfull Hne). destruct (decide (shr_m r = 0)) as [Hz|Hz]; [rewrite Hz in Hfull; done|].
    pose proof (digits_bounds (shr_m r) ltac:(lia)) as [Hb _]. rewrite Hfull in Hb. lia. }
  clearbody m' e'. clear Hdr Hr Hfull Hcap He.
  destruct (decide (m' = 2 ^ 53)) as [->|Hne].
  - change (digits (2 ^ 53)) with 54. destruct (shr_fexp_eq (2 ^ 53) e' loc_Exact ltac:(lia)) as (r2 & -> & Hr2).
    { change (digits (2 ^ 53)) with 54. rewrite d_fexp_eq. lia. }
    change (digits (2 ^ 53)) with 54 in *. rewrite d_fexp_eq in *.
    replace (Z.max (54 + e' - 53) (-1074)) with (e' + 1) in * by lia. replace (e' + 1 - e') with 1 in Hr2 by lia.
    rewrite Hr2. change (2 ^ 53 / 2 ^ 1) with 4503599627370496.
    destruct (Z.leb_spec (e' + 1) (d_emax - d_prec)) as [Hle|]; [|done].
    unfold d_emax, d_prec in Hle. apply valid_finite. lia.
  - assert (Hd : digits m' <= 53) by (apply digits_le; lia).
    assert (Hf : d_fexp (digits m' + e') = e').
    { rewrite d_fexp_eq. destruct (decide (e' = -1074)) as [->|Hn]; [lia|].
      rewrite (digits_unique m' 53) by (specialize (Hlow Hn); lia). lia. }
    destruct (shr_fexp_eq m' e' loc_Exact ltac:(lia) ltac:(lia)) as (r2 & -> & Hr2). rewrite Hf in *.
    replace (e' - e') with 0 in Hr2 by lia. rewrite Z.pow_0_r, Z.div_1_r in Hr2. rewrite Hr2.
    destruct m' as [|p|p]; [done| |lia].
    destruct (Z.leb_spec e' (d_emax - d_prec)) as [Hle|]; [|done].
    unfold d_emax, d_prec in Hle. apply valid_finite. lia.
Qed.

Lemma iter_xO p d : Z.pos (Pos.iter xO p d) = Z.pos p * 2 ^ Z.pos d.
Proof.
  induction d as [|d IH] using Pos.peano_ind; [simpl; lia|].
  rewrite Pos.iter_succ, Pos2Z.inj_xO, IH, Pos2Z.inj_succ, Z.pow_succ_r by lia. lia.
Qed.

Lemma digits_shift m k : 0 < m -> 0 <= k -> digits (m * 2 ^ k) = digits m + k.
Proof.
  intros Hm Hk. pose proof (digits_bounds m Hm) as [Hlo Hhi]. pose proof (digits_pos m Hm).
  pose proof (Z.pow_pos_nonneg 2 k ltac:(lia) Hk).
  apply digits_unique; [nia|lia|]. replace (digits m + k - 1) with (digits m - 1 + k) by lia.
  rewrite !Z.pow_add_r by lia. nia.
Qed.

Lemma shl_align_eq m e e' :
  exists m2 e2, shl_align m e e' = (m2, e2) /\ e2 <= e' /\ digits (Z.pos m2) + e2 = digits (Z.pos m) + e \/
    shl_align m e e' = (m, e) /\ e <= e' /\ m2 = m /\ e2 = e.
Proof.
  unfold shl_align. destruct (e' - e) as [|p|p] eqn:He.
  - exists m, e. right. split_and!; [done|lia|done|done].
  - exists m, e. right. split_and!; [done|lia|done|done].
  - exists (Pos.iter xO m p), e'. left. split_and!; [done|lia|].
    rewrite iter_xO, digits_shift by lia. lia.
Qed.

Lemma binary_round_valid s m e : valid_double (binary_round d_prec d_emax s m e).
Proof.
  unfold binary_round. change (Z.pos (digits2_pos m)) with (digits (Z.pos m)).
  destruct (shl_align_eq m e (d_fexp (digits (Z.pos m) + e))) as (m2 & e2 & [(-> & He & Hd)|(-> & He & _)]);
    apply binary_round_aux_valid; try lia; by rewrite ?Hd.
Qed.

Lemma binary_normalize_valid m e s : valid_double (binary_normalize d_prec d_emax m e s).
Proof. destruct m as [|p|p]; [done|apply binary_round_valid..]. Qed.

Lemma double_of_int_valid z : valid_double (double_of_int z).
Proof. apply binary_normalize_valid. Qed.

Lemma d_neg_valid d : valid_double d -> valid_double (d_neg d).
Proof. by destruct d. Qed.

Lemma d_add_valid a b : valid_double a -> valid_double b -> valid_double (d_add a b).
Proof.
  intros Ha Hb. destruct a as [[]|[]| |s m e], b as [[]|[]| |s' m' e']; try done.
  apply binary_normalize_valid.
Qed.

Lemma d_sub_valid a b : valid_double a -> valid_double b -> valid_double (d_sub a b).
Proof.
  intros Ha Hb. destruct a as [[]|[]| |s m e], b as [[]|[]| |s' m' e']; try done.
  apply binary_normalize_valid.
Qed.

Lemma digits_mul a b : 0 < a -> 0 < b -> digits a + digits b - 1 <= digits (a * b).
Proof.
  intros Ha Hb. pose proof (digits_bounds a Ha) as [La _]. pose proof (digits_bounds b Hb) as [Lb _].
  pose proof (digits_pos a Ha). pose proof (digits_pos b Hb). apply digits_ge; [nia|].
  replace (digits a + digits b - 1 - 1) with ((digits a - 1) + (digits b - 1)) by lia.
  rewrite Z.pow_add_r by lia. nia.
Qed.

Lemma d_mul_valid a b : valid_double a -> valid_double b -> valid_double (d_mul a b).
Proof.
  intros Ha Hb. destruct a as [[]|[]| |s m e], b as [[]|[]| |s' m' e']; try done.
  apply valid_finite in Ha, Hb. apply binary_round_aux_valid; [lia|].
  pose proof (digits_mul (Z.pos m) (Z.pos m') ltac:(lia) ltac:(lia)) as Hd. simpl Z.mul in Hd.
  pose proof (digits_pos (Z.pos m) ltac:(lia)). pose proof (digits_pos (Z.pos m') ltac:(lia)).
  assert (He : e = -1074 \/ 53 <= digits (Z.pos m)) by (destruct Ha as [[? _]|[_ [? _]]]; [by left|right; apply digits_ge; lia]).
  assert (He' : e' = -1074 \/ 53 <= digits (Z.pos m')) by (destruct Hb as [[? _]|[_ [? _]]]; [by left|right; apply digits_ge; lia]).
  change (Z.pos (m * m')) with (Z.pos m * Z.pos m'). change (Z.pos (m * m')) with (Z.pos m * Z.pos m') in Hd.
  rewrite d_fexp_eq. lia.
Qed.

Lemma d_div_valid a b : valid_double a -> valid_double b -> valid_double (d_div a b).
Proof.
  intros Ha Hb. destruct a as [[]|[]| |s m e], b as [[]|[]| |s' m' e']; try done. clear Ha Hb.
  unfold d_div, SFdiv, SFdiv_core_binary.
  set (t := d_fexp (digits (Z.pos m) + e - (digits (Z.pos m') + e'))).
  set (ez := Z.min t (e - e')). set (k := e - e' - ez).
  assert (Hk : 0 <= k) by (unfold k, ez; lia).
  assert (Hm : match k with Z.pos _ => Z.shiftl (Z.pos m) k | 0 => Z.pos m | Z.neg _ => 0 end = Z.pos m * 2 ^ k).
  { destruct k; [lia|by rewrite Z.shiftl_mul_pow2|lia]. }
  rewrite Hm. pose proof (Z.div_eucl_eq (Z.pos m * 2 ^ k) (Z.pos m') ltac:(lia)) as Hq.
  change (Z.div_eucl (Z.pos m * 2 ^ k) (Z.pos m')) with (Z.div_eucl (Z.pos m * 2 ^ k) (Z.pos m')) in *.
  assert (Hdiv : (Z.pos m * 2 ^ k) / Z.pos m' = fst (Z.div_eucl (Z.pos m * 2 ^ k) (Z.pos m')))
    by (unfold Z.div; by destruct (Z.div_eucl _ _)).
  destruct (Z.div_eucl (Z.pos m * 2 ^ k) (Z.pos m')) as [q r]. simpl in Hdiv. clear Hq.
  pose proof (Z.pow_pos_nonneg 2 k ltac:(lia) Hk).
  assert (Hq0 : 0 <= q) by (rewrite <-Hdiv; apply Z.div_pos; lia).
  apply binary_round_aux_valid; [done|].
  assert (Hdq : digits (Z.pos m) + k - digits (Z.pos m') <= digits q).
  { pose proof (digits_bounds (Z.pos m) ltac:(lia)) as [Lm _]. pose proof (digits_bounds (Z.pos m') ltac:(lia)) as [_ Um].
    pose proof (digits_nonneg q Hq0). destruct (Z.le_gt_cases (digits (Z.pos m) + k - digits (Z.pos m')) 0); [lia|].
    pose proof (digits_pos (Z.pos m) ltac:(lia)). pose proof (digits_pos (Z.pos m') ltac:(lia)).
    set (c := digits (Z.pos m) + k - digits (Z.pos m') - 1) in *.
    assert (Hc : 0 <= c) by (unfold c; lia). pose proof (Z.pow_pos_nonneg 2 c ltac:(lia) Hc) as Hc2.
    assert (Hge : 2 ^ c <= q).
    { rewrite <-Hdiv. apply Z.div_le_lower_bound; [lia|]. transitivity (2 ^ (digits (Z.pos m) - 1) * 2 ^ k).
      - rewrite <-Z.pow_add_r by lia. replace (digits (Z.pos m) - 1 + k) with (digits (Z.pos m') + c) by lia.
        rewrite Z.pow_add_r by lia. nia.
      - nia. }
    replace (digits (Z.pos m) + k - digits (Z.pos m')) with (c + 1) by (unfold c; lia). apply digits_ge; [lia|].
    by replace (c + 1 - 1) with c by lia. }
  assert (Hez : ez <= t) by (unfold ez; lia). assert (Hke : k = e - e' - ez) by done.
  clearbody k ez. unfold t in Hez. rewrite d_fexp_eq in *. lia.
Qed.

Lemma d_sqrt_valid a : valid_double a -> valid_double (d_sqrt a).
Proof.
  intros Ha. destruct a as [s|[]| |[] m e]; try done. clear Ha. unfold d_sqrt, SFsqrt, SFsqrt_core_binary.
  set (t := d_fexp (Z.div2 (digits (Z.pos m) + e + 1))). set (ez := Z.min t (Z.div2 e)). set (k := e - 2 * ez).
  assert (Hk : 0 <= k) by (unfold k, ez; pose proof (Z.div2_odd e); destruct (Z.odd e); simpl Z.b2z in *; lia).
  assert (Hm : match k with Z.pos _ => Z.shiftl (Z.pos m) k | 0 => Z.pos m | Z.neg _ => 0 end = Z.pos m * 2 ^ k).
  { destruct k; [lia|by rewrite Z.shiftl_mul_pow2|lia]. }
  rewrite Hm. pose proof (Z.pow_pos_nonneg 2 k ltac:(lia) Hk).
  pose proof (Z.sqrtrem_spec (Z.pos m * 2 ^ k) ltac:(lia)) as Hs.
  destruct (Z.sqrtrem (Z.pos m * 2 ^ k)) as [q r]. destruct Hs as [Heq Hr].
  assert (Hq0 : 0 <= q) by lia. apply binary_round_aux_valid; [done|].
  pose proof (digits_pos (Z.pos m) ltac:(lia)) as Hdm.
  assert (Hdq : digits (Z.pos m) + k <= 2 * digits q).
  { destruct (decide (q = 0)) as [->|Hq]; [lia|]. pose proof (digits_bounds q ltac:(lia)) as [_ Uq].
    pose proof (digits_pos q ltac:(lia)). pose proof (digits_shift (Z.pos m) k ltac:(lia) Hk) as Hsh.
    rewrite <-Hsh. apply digits_le; [|lia]. split; [lia|].
    assert (Hp : 2 ^ (2 * digits q) = 2 ^ digits q * 2 ^ digits q)
      by (replace (2 * digits q) with (digits q + digits q) by lia; apply Z.pow_add_r; lia).
    rewrite Hp, Heq. nia. }
  assert (Hez : ez <= t) by (unfold ez; lia). assert (Hke : k = e - 2 * ez) by done.
  clearbody k ez. unfold t in Hez. rewrite d_fexp_eq in *.
  pose proof (Z.div2_odd (digits (Z.pos m) + e + 1)) as H1. destruct (Z.odd (digits (Z.pos m) + e + 1)); simpl Z.b2z in H1; lia.
Qed.

(** [x == (double) z] for an integer result of [sqrt]: within [int32_t] when the
    argument was an integer. *)
Lemma rint_valid d : valid_double d -> valid_double (rint d).
Proof.
  intros Hd. destruct d as [s|s| |s m e]; try done. unfold rint. case_match; [done|apply binary_normalize_valid].
Qed.

#[export] Hint Resolve double_of_int_valid d_neg_valid d_add_valid d_sub_valid d_mul_valid d_div_valid d_sqrt_valid
  rint_valid binary_round_valid : dsom.
