(* ===== verification/Values.v ===== *)
(** * SOM values and objects

    The values programs compute with and the objects they refer to.  A [Value] is
    what a [TValue] stands for ([TValue.v] has the encoding); objects of
    [runtime/som_class.h] live in a heap and are named by their index.  The
    allocation functions are those of [runtime/som_class.cpp]. *)
From S2P Require Import Prelude CNumbers TValue.
From Stdlib Require Import Ascii.
From Stdlib Require String.

#[export] Instance double_eq_dec : EqDecision double.
Proof. solve_decision. Defined.

Inductive Value : Type :=
  | VNil
  | VBool (b : bool)
  | VInt (z : Z)
  | VDouble (d : double)
  | VObject (r : nat)
  | VFunction (r : nat).

#[export] Instance Value_eq_dec : EqDecision Value.
Proof. solve_decision. Defined.

Definition IsNumber (v : Value) : bool := match v with VInt _ | VDouble _ => true | _ => false end.
Definition IsHeapEntity (v : Value) : bool := match v with VObject _ | VFunction _ => true | _ => false end.

(** [As<tInt32>] and the like: the assertion on the type, then the value. *)
Definition AsInt (v : Value) : result Z :=
  match v with VInt z => Ok z | _ => Err (AssertFailed "v.Is<tInt32>()") end.
Definition AsDbl (v : Value) : result double :=
  match v with VDouble d => Ok d | _ => Err (AssertFailed "v.Is<tDouble>()") end.

(** The bits of a value: doubles and integers, and addresses of objects. *)
Definition encode (obj fn : nat -> Z) (v : Value) : result Z :=
  match v with
  | VNil => Nil
  | VBool b => CreateBoolean b
  | VInt z => CreateInt32 z
  | VDouble d => CreateDouble d
  | VObject r => CreateHeapPtr (obj r)
  | VFunction r => CreateHeapPtr (fn r)
  end.

(** A value that fits its representation. *)
Definition value_ok (v : Value) : Prop :=
  match v with VInt z => fits_int32 z = true | VDouble d => valid_double d | _ => True end.

(** ** The heap *)
Inductive StringClass : Type := StringString | StringSymbol.
#[export] Instance StringClass_eq_dec : EqDecision StringClass.
Proof. solve_decision. Defined.

(** [m_arrayType] tells the three kinds apart; [m_data[0]] of an array or string
    is its length. *)
Inductive HeapObject : Type :=
  | OPlain (m_hiddenClass : nat) (m_data : list Value)
  | OArray (elems : list Value)
  | OString (cls : StringClass) (chars : string).

Notation Heap := (list HeapObject).
Notation HM := (M Heap).

Definition bad_object : error := UndefinedBehaviour "not an object".
Definition deref (r : nat) : HM HeapObject := fun h =>
  match h !! r with Some o => Ok (o, h) | None => Err bad_object end.
Definition allocate (o : HeapObject) : HM nat := fun h => Ok (length h, h ++ [o]).
Definition write (r : nat) (o : HeapObject) : HM unit := modify (<[r := o]>).

Definition AllocateString (str : string) : HM nat := allocate (OString StringString str).
Definition AllocateArray (length : nat) : HM nat := allocate (OArray (replicate length VNil)).

(** [tv.As<tObject>()] of a string or array. *)
Definition AsString (v : Value) : HM string :=
  match v with
  | VObject r => o ← deref r;
      match o with OString _ s => mret s | _ => fail (AssertFailed "m_arrayType == SOM_String") end
  | _ => fail (AssertFailed "tv.Is<tObject>()")
  end.
Definition AsArray (v : Value) : HM (list Value) :=
  match v with
  | VObject r => o ← deref r;
      match o with OArray es => mret es | _ => fail (AssertFailed "m_arrayType == SOM_Array") end
  | _ => fail (AssertFailed "tv.Is<tObject>()")
  end.

Arguments AsString : simpl never.
Arguments AsArray : simpl never.

Definition ShallowCopyArray (v : Value) : HM nat := es ← AsArray v; allocate (OArray es).
Definition DoStringConcat (lhs rhs : Value) : HM nat :=
  l ← AsString lhs;
  r ← AsString rhs;
  AllocateString (String.append l r).

Lemma AsString_ok r cls str h : h !! r = Some (OString cls str) -> AsString (VObject r) h = Ok (str, h).
Proof. intros Hr. unfold AsString, mbind, M_bind, deref. by rewrite Hr. Qed.

Lemma AsArray_ok r es h : h !! r = Some (OArray es) -> AsArray (VObject r) h = Ok (es, h).
Proof. intros Hr. unfold AsArray, mbind, M_bind, deref. by rewrite Hr. Qed.

(** ** Encoding *)
Definition kind_of (v : Value) : Kind :=
  match v with
  | VNil | VBool _ => KMIV
  | VInt _ => KInt32
  | VDouble _ => KDouble
  | VObject _ | VFunction _ => KPointer
  end.

(** The addresses [n] objects and functions have: distinct, and in the part of
    the address space set aside for the heap. *)
Record placed (obj fn : nat -> Z) (n : nat) : Prop := {
  obj_range : forall r, r < n -> (0xFFFFFFFC00000000 <= obj r < 0xFFFFFFFF00000000)%Z;
  fn_range : forall r, r < n -> (0xFFFFFFFC00000000 <= fn r < 0xFFFFFFFF00000000)%Z;
  obj_distinct : forall r r', r < n -> r' < n -> obj r = obj r' -> r = r';
  fn_distinct : forall r r', r < n -> r' < n -> fn r = fn r' -> r = r';
  obj_fn_distinct : forall r r', r < n -> r' < n -> obj r <> fn r';
}.

(** A value that refers to one of the [n] objects or functions if to any. *)
Definition refers_below (n : nat) (v : Value) : Prop :=
  match v with VObject r | VFunction r => r < n | _ => True end.

Lemma CreateHeapPtr_ok a :
  (0xFFFFFFFC00000000 <= a < 0xFFFFFFFF00000000)%Z -> CreateHeapPtr a = Ok a /\ has_kind KPointer a.
Proof.
  intros Ha. split; [|by apply pointer_kind]. unfold CreateHeapPtr. rewrite (proj2 (Z.leb_le _ _)) by lia. done.
Qed.

Lemma encode_scalar obj fn v :
  IsHeapEntity v = false -> value_ok v -> exists w, encode obj fn v = Ok w /\ has_kind (kind_of v) w.
Proof.
  destruct v as [|b|z|d|r|r]; simpl; intros Hs Hok; try discriminate Hs.
  - destruct (box_miv x_nil) as (w & Hw & Hk & _); [by left|]. by exists w.
  - destruct (box_miv (miv_CreateBoolean b)) as (w & Hw & Hk & _); [destruct b; simpl; auto|]. by exists w.
  - destruct (box_int32 z Hok) as (w & Hw & Hk & _). by exists w.
  - destruct (box_double d Hok) as (w & Hw & Hk & _). by exists w.
Qed.

Lemma encode_kind obj fn n v :
  placed obj fn n -> refers_below n v -> value_ok v -> exists w, encode obj fn v = Ok w /\ has_kind (kind_of v) w.
Proof.
  intros [Ho Hf _ _ _] Hr Hok. destruct (IsHeapEntity v) eqn:Hs; [|by apply encode_scalar].
  destruct v as [|b|z|d|r|r]; try discriminate Hs; simpl in Hr.
  - exists (obj r). by apply CreateHeapPtr_ok, Ho.
  - exists (fn r). by apply CreateHeapPtr_ok, Hf.
Qed.

Lemma has_kind_inj k k' w : has_kind k w -> has_kind k' w -> k = k'.
Proof.
  intros (H1 & H2 & H3 & H4 & _) (H1' & H2' & H3' & H4' & _).
  destruct k, k'; try done; exfalso;
    repeat case_bool_decide; try done; congruence.
Qed.

(** Encoding loses nothing.  A value that fits its representation is encoded
    without failing an assertion, and two such values with the same bits are the
    same value. *)
Theorem encode_injective obj fn n v1 v2 :
  placed obj fn n -> refers_below n v1 -> refers_below n v2 -> value_ok v1 -> value_ok v2 ->
  exists w1 w2, encode obj fn v1 = Ok w1 /\ encode obj fn v2 = Ok w2 /\ (w1 = w2 -> v1 = v2).
Proof.
  intros Hp R1 R2 H1 H2.
  destruct (encode_kind obj fn n v1 Hp R1 H1) as (w1 & E1 & K1).
  destruct (encode_kind obj fn n v2 Hp R2 H2) as (w2 & E2 & K2).
  destruct Hp as [Ho Hf Hoi Hfi Hof].
  exists w1, w2. split_and!; [done|done|]. intros <-. pose proof (has_kind_inj _ _ _ K1 K2) as Hk.
  destruct v1 as [|b1|z1|d1|r1|r1], v2 as [|b2|z2|d2|r2|r2]; simpl in Hk; try done; simpl in E1, E2, R1, R2.
  - exfalso. destruct b2; vm_compute in E1, E2; congruence.
  - exfalso. destruct b1; vm_compute in E1, E2; congruence.
  - f_equal. destruct b1, b2; vm_compute in E1, E2; congruence.
  - destruct (box_int32 z1 H1) as (w & E & _ & A1), (box_int32 z2 H2) as (w' & E' & _ & A2). congruence.
  - destruct (box_double d1 H1) as (w & E & _ & A1), (box_double d2 H2) as (w' & E' & _ & A2). congruence.
  - f_equal. apply Hoi; [done..|]. destruct (CreateHeapPtr_ok (obj r1)), (CreateHeapPtr_ok (obj r2)); auto. congruence.
  - exfalso. apply (Hof r1 r2); [done..|]. destruct (CreateHeapPtr_ok (obj r1)), (CreateHeapPtr_ok (fn r2)); auto. congruence.
  - exfalso. apply (Hof r2 r1); [done..|]. destruct (CreateHeapPtr_ok (fn r1)), (CreateHeapPtr_ok (obj r2)); auto. congruence.
  - f_equal. apply Hfi; [done..|]. destruct (CreateHeapPtr_ok (fn r1)), (CreateHeapPtr_ok (fn r2)); auto. congruence.
Qed.

Definition sample_obj (r : nat) : Z := (0xFFFFFFFC00000000 + 32 * Z.of_nat r)%Z.
Definition sample_fn (r : nat) : Z := (0xFFFFFFFC00000010 + 32 * Z.of_nat r)%Z.

Lemma sample_placed : placed sample_obj sample_fn 2.
Proof. split; unfold sample_obj, sample_fn; intros; lia. Qed.

Lemma encode_injective_witness :
  exists w1 w2, encode sample_obj sample_fn (VObject 1) = Ok w1 /\ encode sample_obj sample_fn (VInt (-1)) = Ok w2 /\
    (w1 = w2 -> VObject 1 = VInt (-1)).
Proof.
  apply (encode_injective sample_obj sample_fn 2); [apply sample_placed|simpl; lia|exact I|exact I|reflexivity].
Defined.
