(* ===== verification/Primitives.v ===== *)
(** * The table of primitives

    Models [runtime/som_primitives_container.cpp]: the registration of the
    library functions that implement primitive methods, the lookup of a primitive
    by class, selector and side, and the creation of function objects for them.
    A library function is known by its name; [Arith.v] and [Objects.v] say what
    the ones that are modelled do. *)
From S2P Require Import Prelude CNumbers TValue Values.

(** The library functions, as [DEEGEN_FORWARD_DECLARE_LIB_FUNC] declares them. *)
Inductive LibFunc : Type :=
  | P_unimplemented_primitive | P_integer_add | P_integer_minus | P_integer_star | P_integer_rem
  | P_integer_bitwisexor | P_integer_leftshift | P_integer_unsignedrightshift | P_integer_slash
  | P_integer_slashslash | P_integer_percent | P_integer_and | P_integer_equal | P_integer_equalequal
  | P_integer_lowerthan | P_integer_lowerequal | P_integer_greaterthan | P_integer_greaterequal
  | P_integer_unequal | P_integer_asstring | P_integer_asdouble | P_integer_as32bitsigned
  | P_integer_as32bitunsigned | P_integer_sqrt | P_integer_atrandom | P_integer_fromstring | P_integer_abs
  | P_integer_min | P_integer_max | P_integer_range | P_double_add | P_double_sub | P_double_star
  | P_double_slashslash | P_double_percent | P_double_sin | P_double_cos | P_double_equal | P_double_unequal
  | P_double_lowerthan | P_double_lowerequal | P_double_greaterthan | P_double_greaterequal | P_double_min
  | P_double_max | P_double_asstring | P_double_round | P_double_asinteger | P_double_sqrt
  | P_double_positiveinfinity | P_double_fromstring | P_object_equalequal | P_object_sizebytes
  | P_object_hashcode | P_object_inspect | P_object_halt | P_object_perform | P_object_perform_in_superclass
  | P_object_perform_with_args | P_object_perform_with_args_in_superclass | P_object_instvarat
  | P_object_instvaratput | P_object_instvarnamed | P_object_class | P_class_new | P_class_name
  | P_class_superclass | P_class_fields | P_class_methods | P_block1_eval | P_block2_eval | P_block3_eval
  | P_block_whiletrue | P_block_whilefalse | P_method_signature | P_method_holder | P_method_invoke_on_with
  | P_system_global | P_system_globalput | P_system_hasglobal | P_system_load | P_system_exit
  | P_system_printstacktrace | P_system_printstring | P_system_printnewline | P_system_errorprint
  | P_system_errorprintln | P_system_elapsed_milliseconds | P_system_elapsed_microseconds | P_system_fullgc
  | P_system_loadfile | P_array_at | P_array_at_put | P_array_length | P_array_new | P_array_copy
  | P_string_concatenate | P_string_assymbol | P_string_hashcode | P_string_length | P_string_equal
  | P_string_primsubstring | P_string_charat | P_string_iswhitespace | P_string_isletters | P_string_isdigits
  | P_symbol_asstring.

(** [FunctionObject::CreateCFunc]: a function object for a library function. *)
Record CFunction : Type := mk_cfunction { f_impl : LibFunc; f_upvalues : list Value }.

Record Element : Type := mk_element { m_implPtr : option LibFunc; m_fnObj : option nat }.
Definition Element_init : Element := mk_element None None.

(** [m_map[isClassSide][className][methName]], and the function objects and
    strings allocated so far. *)
Record PrimState : Type := mk_prims {
  m_map : gmap (bool * string * string) Element;
  p_functions : list CFunction;
  p_heap : Heap;
}.

Notation P := (M PrimState).

Definition entry (isClassSide : bool) (className methName : string) : P Element := fun s =>
  Ok (default Element_init (m_map s !! (isClassSide, className, methName)), s).
Definition set_entry (isClassSide : bool) (className methName : string) (e : Element) : P unit :=
  modify (fun s => mk_prims (<[(isClassSide, className, methName) := e]> (m_map s)) (p_functions s) (p_heap s)).

Definition new_function (f : CFunction) : P nat := fun s =>
  Ok (length (p_functions s), mk_prims (m_map s) (p_functions s ++ [f]) (p_heap s)).
Definition new_string (str : string) : P nat := fun s =>
  '(r, h) ← AllocateString str (p_heap s); Ok (r, mk_prims (m_map s) (p_functions s) h).

Definition Add (className methName : string) (isClassSide : bool) (func : LibFunc) : P unit :=
  it ← entry isClassSide className methName;
  check (bool_decide (m_implPtr it = None) && bool_decide (m_fnObj it = None)) (AssertFailed "it.m_implPtr == nullptr") ;;
  set_entry isClassSide className methName (mk_element (Some func) (m_fnObj it)).

(** The arguments of the calls of [Add] in the constructor, in order. *)
Definition primitive_table : list (string * string * bool * LibFunc) := [
  ("Integer", "+", false, P_integer_add);
  ("Integer", "-", false, P_integer_minus);
  ("Integer", "*", false, P_integer_star);
  ("Integer", "rem:", false, P_integer_rem);
  ("Integer", "bitXor:", false, P_integer_bitwisexor);
  ("Integer", "<<", false, P_integer_leftshift);
  ("Integer", ">>>", false, P_integer_unsignedrightshift);
  ("Integer", "/", false, P_integer_slash);
  ("Integer", "//", false, P_integer_slashslash);
  ("Integer", "%", false, P_integer_percent);
  ("Integer", "&", false, P_integer_and);
  ("Integer", "=", false, P_integer_equal);
  ("Integer", "==", false, P_integer_equalequal);
  ("Integer", "<", false, P_integer_lowerthan);
  ("Integer", "asString", false, P_integer_asstring);
  ("Integer", "asDouble", false, P_integer_asdouble);
  ("Integer", "as32BitSignedValue", false, P_integer_as32bitsigned);
  ("Integer", "as32BitUnsignedValue", false, P_integer_as32bitunsigned);
  ("Integer", "sqrt", false, P_integer_sqrt);
  ("Integer", "atRandom", false, P_integer_atrandom);
  ("Integer", "fromString:", true, P_integer_fromstring);
  ("Integer", "<=", false, P_integer_lowerequal);
  ("Integer", ">", false, P_integer_greaterthan);
  ("Integer", ">=", false, P_integer_greaterequal);
  ("Integer", "<>", false, P_integer_unequal);
  ("Integer", "~=", false, P_integer_unequal);
  ("Integer", "abs", false, P_integer_abs);
  ("Integer", "min:", false, P_integer_min);
  ("Integer", "max:", false, P_integer_max);
  ("Integer", "to:", false, P_integer_range);
  ("Double", "+", false, P_double_add);
  ("Double", "-", false, P_double_sub);
  ("Double", "*", false, P_double_star);
  ("Double", "cos", false, P_double_cos);
  ("Double", "sin", false, P_double_sin);
  ("Double", "//", false, P_double_slashslash);
  ("Double", "%", false, P_double_percent);
  ("Double", "=", false, P_double_equal);
  ("Double", "<", false, P_double_lowerthan);
  ("Double", "asString", false, P_double_asstring);
  ("Double", "sqrt", false, P_double_sqrt);
  ("Double", "round", false, P_double_round);
  ("Double", "asInteger", false, P_double_asinteger);
  ("Double", "PositiveInfinity", true, P_double_positiveinfinity);
  ("Double", "fromString:", true, P_double_fromstring);
  ("Double", "<=", false, P_double_lowerequal);
  ("Double", ">", false, P_double_greaterthan);
  ("Double", ">=", false, P_double_greaterequal);
  ("Double", "<>", false, P_double_unequal);
  ("Double", "~=", false, P_double_unequal);
  ("Double", "min:", false, P_double_min);
  ("Double", "max:", false, P_double_max);
  ("Object", "==", false, P_object_equalequal);
  ("Object", "objectSize", false, P_object_sizebytes);
  ("Object", "hashcode", false, P_object_hashcode);
  ("Object", "inspect", false, P_object_inspect);
  ("Object", "halt", false, P_object_halt);
  ("Object", "perform:", false, P_object_perform);
  ("Object", "perform:withArguments:", false, P_object_perform_with_args);
  ("Object", "perform:inSuperclass:", false, P_object_perform_in_superclass);
  ("Object", "perform:withArguments:inSuperclass:", false, P_object_perform_with_args_in_superclass);
  ("Object", "instVarAt:", false, P_object_instvarat);
  ("Object", "instVarAt:put:", false, P_object_instvaratput);
  ("Object", "instVarNamed:", false, P_object_instvarnamed);
  ("Object", "class", false, P_object_class);
  ("Class", "new", false, P_class_new);
  ("Class", "name", false, P_class_name);
  ("Class", "superclass", false, P_class_superclass);
  ("Class", "fields", false, P_class_fields);
  ("Class", "methods", false, P_class_methods);
  ("Block1", "value", false, P_block1_eval);
  ("Block2", "value:", false, P_block2_eval);
  ("Block3", "value:with:", false, P_block3_eval);
  ("Block", "whileTrue:", false, P_block_whiletrue);
  ("Block", "whileFalse:", false, P_block_whilefalse);
  ("Method", "signature", false, P_method_signature);
  ("Method", "holder", false, P_method_holder);
  ("Method", "invokeOn:with:", false, P_method_invoke_on_with);
  ("Primitive", "signature", false, P_method_signature);
  ("Primitive", "holder", false, P_method_holder);
  ("Primitive", "invokeOn:with:", false, P_method_invoke_on_with);
  ("System", "global:", false, P_system_global);
  ("System", "global:put:", false, P_system_globalput);
  ("System", "hasGlobal:", false, P_system_hasglobal);
  ("System", "load:", false, P_system_load);
  ("System", "exit:", false, P_system_exit);
  ("System", "printStackTrace", false, P_system_printstacktrace);
  ("System", "printString:", false, P_system_printstring);
  ("System", "printNewline", false, P_system_printnewline);
  ("System", "errorPrint:", false, P_system_errorprint);
  ("System", "errorPrintln:", false, P_system_errorprintln);
  ("System", "time", false, P_system_elapsed_milliseconds);
  ("System", "ticks", false, P_system_elapsed_microseconds);
  ("System", "fullGC", false, P_system_fullgc);
  ("System", "loadFile:", false, P_system_loadfile);
  ("Array", "new:", true, P_array_new);
  ("Array", "at:", false, P_array_at);
  ("Array", "at:put:", false, P_array_at_put);
  ("Array", "length", false, P_array_length);
  ("Array", "copy", false, P_array_copy);
  ("String", "concatenate:", false, P_string_concatenate);
  ("String", "asSymbol", false, P_string_assymbol);
  ("String", "hashcode", false, P_string_hashcode);
  ("String", "length", false, P_string_length);
  ("String", "=", false, P_string_equal);
  ("String", "primSubstringFrom:to:", false, P_string_primsubstring);
  ("String", "isWhiteSpace", false, P_string_iswhitespace);
  ("String", "isLetters", false, P_string_isletters);
  ("String", "isDigits", false, P_string_isdigits);
  ("String", "charAt:", false, P_string_charat);
  ("Symbol", "asString", false, P_symbol_asstring)
]%list.

Fixpoint add_all (l : list (string * string * bool * LibFunc)) : P unit :=
  match l with
  | [] => mret tt
  | (className, methName, isClassSide, func) :: l' => Add className methName isClassSide func ;; add_all l'
  end.
Definition SOMPrimitivesContainer : P unit := add_all primitive_table.

(** [descStr] of [GetUnimplementedPrimitive]. *)
Definition describe_primitive (className methName : string) (isClassSide : bool) : string :=
  (className ++ "." ++ methName ++ (if isClassSide then " (classSide)" else " (instanceSide)"))%string.

Definition GetUnimplementedPrimitive (className methName : string) (isClassSide : bool) : P nat :=
  str ← new_string (describe_primitive className methName isClassSide);
  new_function (mk_cfunction P_unimplemented_primitive [VObject str]).

Definition InitFnObj (it : Element) : P Element :=
  match m_implPtr it with
  | Some f =>
      check (bool_decide (m_fnObj it = None)) (AssertFailed "m_fnObj == nullptr") ;;
      fn ← new_function (mk_cfunction f []);
      mret (mk_element (Some f) (Some fn))
  | None => fail (AssertFailed "m_implPtr != nullptr")
  end.

Definition Get (className methName : string) (isClassSide : bool) : P nat :=
  it ← entry isClassSide className methName;
  set_entry isClassSide className methName it ;;
  if bool_decide (m_implPtr it = None) then GetUnimplementedPrimitive className methName isClassSide
  else
    match m_fnObj it with
    | Some fn => mret fn
    | None =>
        it' ← InitFnObj it;
        set_entry isClassSide className methName it' ;;
        match m_fnObj it' with
        | Some fn => mret fn
        | None => fail (AssertFailed "it.m_fnObj != nullptr")
        end
    end.

(** [ForEachPrimitiveInClass]: the selectors of a class that have an implementation. *)
Definition primitives_in_class (className : string) (isClassSide : bool) (s : PrimState) : list string :=
  omap (fun '((side, cls, meth), it) =>
          if bool_decide (side = isClassSide /\ cls = className /\ m_implPtr it <> None) then Some meth else None)
    (map_to_list (m_map s)).

(** [unimplemented_primitive]: aborts with the name kept in the upvalue. *)
Definition unimplemented_primitive (f : CFunction) : HM Value :=
  match f_upvalues f with
  | [str] => s ← AsString str; fail (Aborted ("Unimplemented primitive " ++ s ++ "!"))
  | _ => fail (AssertFailed "f->m_numUpvalues == 1")
  end.

Definition no_primitives (h : Heap) : PrimState := mk_prims ∅ [] h.

(** [LookupFunctionObject], which stack traces print: the entries of the instance
    side are searched before those of the class side. *)
Definition primitive_name (key : bool * string * string) : string :=
  let '(side, className, methName) := key in
  (className ++ (if side : bool then " class>>" else ">>") ++ methName)%string.

Fixpoint find_function (func : nat) (l : list ((bool * string * string) * Element)) : option (bool * string * string) :=
  match l with
  | [] => None
  | (key, it) :: l' => if bool_decide (m_fnObj it = Some func) then Some key else find_function func l'
  end.

Definition LookupFunctionObject (func : nat) (s : PrimState) : string :=
  let side b := List.filter (fun e => Bool.eqb (fst (fst (fst e))) b) (map_to_list (m_map s)) in
  match find_function func (side false ++ side true) with
  | Some key => primitive_name key
  | None => "(unknown primitive)"
  end.

(** ** Theorems *)
Definition registered (s : PrimState) (key : bool * string * string) : option LibFunc :=
  m_map s !! key ≫= m_implPtr.

(** Function objects kept in the table are those of the entry, and no two entries
    share one. *)
Record prims_wf (s : PrimState) : Prop := {
  entry_function : forall key it fn, m_map s !! key = Some it -> m_fnObj it = Some fn ->
    exists f, m_implPtr it = Some f /\ p_functions s !! fn = Some (mk_cfunction f []);
  entry_distinct : forall key key' it it' fn, m_map s !! key = Some it -> m_map s !! key' = Some it' ->
    m_fnObj it = Some fn -> m_fnObj it' = Some fn -> key = key';
}.

Lemma no_primitives_wf h : prims_wf (no_primitives h).
Proof. split; intros *; simpl; by rewrite lookup_empty. Qed.

(** [entry] reads what [set_entry] wrote. *)
Lemma default_entry s key :
  m_implPtr (default Element_init (m_map s !! key)) = registered s key.
Proof. unfold registered. by destruct (m_map s !! key). Qed.

(** An entry with its function object, or none, can be written back. *)
Lemma set_entry_wf s key it :
  prims_wf s ->
  (forall fn, m_fnObj it = Some fn -> exists f, m_implPtr it = Some f /\ p_functions s !! fn = Some (mk_cfunction f [])) ->
  (forall fn key' it', m_fnObj it = Some fn -> m_map s !! key' = Some it' -> m_fnObj it' = Some fn -> key' = key) ->
  prims_wf (mk_prims (<[key := it]> (m_map s)) (p_functions s) (p_heap s)).
Proof.
  intros [Hf Hd] Hit Hfresh. split; simpl.
  - intros key' it' fn. rewrite lookup_insert_Some. intros [[_ <-]|[_ Hl]]; eauto.
  - intros key1 key2 it1 it2 fn. rewrite !lookup_insert_Some.
    intros [[<- <-]|[Hn Hl]] [[<- <-]|[Hn' Hl']] H1 H2; [done| | |by eapply Hd].
    + symmetry. by eapply Hfresh.
    + by eapply Hfresh.
Qed.

Lemma new_function_wf s f :
  prims_wf s -> prims_wf (mk_prims (m_map s) (p_functions s ++ [f]) (p_heap s)).
Proof.
  intros [Hf Hd]. split; simpl; [|done]. intros key it fn Hl Hfn.
  destruct (Hf key it fn Hl Hfn) as (g & ? & ?). exists g. split; [done|]. by apply lookup_app_Some_l.
Qed.

Lemma fresh_function s key it :
  prims_wf s -> m_map s !! key = Some it -> m_fnObj it <> Some (length (p_functions s)).
Proof.
  intros [Hf _] Hl Hfn. destruct (Hf key it _ Hl Hfn) as (g & _ & Hg). apply lookup_lt_Some in Hg. lia.
Qed.

Lemma registered_insert s key it fns h key' :
  m_implPtr it = registered s key ->
  registered (mk_prims (<[key := it]> (m_map s)) fns h) key' = registered s key'.
Proof.
  intros Hi. unfold registered at 1. simpl. destruct (decide (key' = key)) as [->|Hn].
  - rewrite lookup_insert_eq. simpl. done.
  - by rewrite lookup_insert_ne by done.
Qed.

(** The element read by [Get] can be written back as it is. *)
Lemma touch_wf s key :
  prims_wf s -> prims_wf (mk_prims (<[key := default Element_init (m_map s !! key)]> (m_map s)) (p_functions s) (p_heap s)).
Proof.
  intros Hwf. apply set_entry_wf; [done| |]; destruct (m_map s !! key) as [it|] eqn:Hl; simpl; try done.
  - intros fn. by apply (entry_function s Hwf key).
  - intros fn key' it' Hfn Hl' Hfn'. by apply (entry_distinct s Hwf _ _ _ _ fn Hl' Hl).
Qed.

Definition touch (s : PrimState) (key : bool * string * string) : PrimState :=
  mk_prims (<[key := default Element_init (m_map s !! key)]> (m_map s)) (p_functions s) (p_heap s).

Lemma Get_eq c m side s :
  Get c m side s =
    match m_implPtr (default Element_init (m_map s !! (side, c, m))), m_fnObj (default Element_init (m_map s !! (side, c, m))) with
    | None, _ => GetUnimplementedPrimitive c m side (touch s (side, c, m))
    | Some f, Some fn => Ok (fn, touch s (side, c, m))
    | Some f, None =>
        Ok (length (p_functions s),
            mk_prims (<[(side, c, m) := mk_element (Some f) (Some (length (p_functions s)))]>
                        (<[(side, c, m) := default Element_init (m_map s !! (side, c, m))]> (m_map s)))
              (p_functions s ++ [mk_cfunction f []]) (p_heap s))
    end.
Proof.
  unfold Get, entry, set_entry, InitFnObj, mbind, M_bind, modify. simpl.
  unfold touch. destruct (default Element_init (m_map s !! (side, c, m))) as [impl obj]. simpl.
  destruct impl as [f|]; [|done]. rewrite bool_decide_eq_false_2 by done. destruct obj as [fn|]; done.
Qed.

(** A registered primitive always has the same function object, and it is one for
    its own library function. *)
Lemma Get_registered c m side s f :
  prims_wf s -> registered s (side, c, m) = Some f ->
  exists fn s', Get c m side s = Ok (fn, s') /\ prims_wf s' /\ (forall key, registered s' key = registered s key) /\
    p_functions s' !! fn = Some (mk_cfunction f []) /\
    m_map s' !! (side, c, m) = Some (mk_element (Some f) (Some fn)).
Proof.
  intros Hwf Hr. rewrite Get_eq. rewrite <-default_entry in Hr. rewrite Hr.
  destruct (m_map s !! (side, c, m)) as [[impl obj]|] eqn:Hl; simpl in Hr; [|done]. subst impl. simpl.
  assert (Hreg : registered s (side, c, m) = Some f) by (unfold registered; by rewrite Hl).
  destruct obj as [fn|].
  - exists fn, (touch s (side, c, m)). split_and!; [done|by apply touch_wf| | |].
    + intros key. apply registered_insert. by rewrite default_entry.
    + destruct (entry_function s Hwf _ _ fn Hl) as (g & Hg & Hp); [done|]. simpl in Hg. by injection Hg as <-.
    + unfold touch. simpl. by rewrite Hl, lookup_insert_eq.
  - rewrite insert_insert_eq. eexists _, _. split; [done|]. split_and!.
    + apply (set_entry_wf (mk_prims (m_map s) (p_functions s ++ [mk_cfunction f []]) (p_heap s))); [by apply new_function_wf| |]; simpl.
      * intros fn [= <-]. exists f. split; [done|]. by rewrite lookup_app_r, Nat.sub_diag by done.
      * intros fn key' it' [= <-] Hl' Hfn'. exfalso. by apply (fresh_function s key' it').
    + intros key. apply registered_insert. by rewrite Hreg.
    + simpl. by rewrite lookup_app_r, Nat.sub_diag by done.
    + simpl. by rewrite lookup_insert_eq.
Qed.

(** Once the entry has its function object, looking it up again changes nothing. *)
Lemma Get_again c m side s f fn :
  m_map s !! (side, c, m) = Some (mk_element (Some f) (Some fn)) -> Get c m side s = Ok (fn, s).
Proof.
  intros Hl. rewrite Get_eq. unfold touch. rewrite Hl. simpl. do 2 f_equal. destruct s as [mm fns h]. simpl in *.
  f_equal. by apply insert_id.
Qed.

(** A primitive without an implementation gets a function that aborts and names it. *)
Lemma Get_unregistered c m side s :
  prims_wf s -> registered s (side, c, m) = None ->
  exists fn s' g, Get c m side s = Ok (fn, s') /\ prims_wf s' /\ (forall key, registered s' key = registered s key) /\
    p_functions s' !! fn = Some g /\ f_impl g = P_unimplemented_primitive /\
    unimplemented_primitive g (p_heap s') = Err (Aborted ("Unimplemented primitive " ++ describe_primitive c m side ++ "!")).
Proof.
  intros Hwf Hr. rewrite Get_eq. rewrite <-default_entry in Hr. rewrite Hr.
  unfold GetUnimplementedPrimitive, new_string, new_function, AllocateString, allocate, mbind, M_bind, result_bind. simpl.
  eexists _, _, _. split; [done|]. simpl. split_and!; [| |by rewrite lookup_app_r, Nat.sub_diag by done|done|].
  - destruct (new_function_wf (touch s (side, c, m)) (mk_cfunction P_unimplemented_primitive [VObject (length (p_heap s))]) (touch_wf s _ Hwf)) as [Hf Hd].
    by split.
  - intros key. apply registered_insert. by rewrite default_entry.
  - unfold unimplemented_primitive. cbn [f_upvalues]. unfold mbind, M_bind.
    rewrite (AsString_ok _ StringString (describe_primitive c m side)); [done|].
    by rewrite lookup_app_r, Nat.sub_diag by done.
Qed.

Lemma find_function_unique fn l key it :
  In (key, it) l -> m_fnObj it = Some fn ->
  (forall key' it', In (key', it') l -> m_fnObj it' = Some fn -> key' = key) ->
  find_function fn l = Some key.
Proof.
  induction l as [|[k i] l IH]; [done|]. intros Hin Hfn Hu. simpl. case_bool_decide as Hi.
  - f_equal. apply (Hu k i); [by left|done].
  - destruct Hin as [[= -> ->]|Hin]; [done|]. apply IH; [done..|]. intros key' it' Hin'. apply Hu. by right.
Qed.

(** Stack traces name a primitive by its class and selector. *)
Lemma LookupFunctionObject_entry s key it fn :
  prims_wf s -> m_map s !! key = Some it -> m_fnObj it = Some fn ->
  LookupFunctionObject fn s = primitive_name key.
Proof.
  intros Hwf Hl Hfn. unfold LookupFunctionObject.
  assert (Hin : forall b k i, In (k, i) (List.filter (fun e => Bool.eqb (fst (fst (fst e))) b) (map_to_list (m_map s))) <->
    m_map s !! k = Some i /\ fst (fst k) = b).
  { intros b k i. rewrite List.filter_In, <-list_elem_of_In, elem_of_map_to_list. simpl. by rewrite Bool.eqb_true_iff. }
  rewrite (find_function_unique fn _ key it); [done| |done|].
  - apply in_app_iff. destruct (fst (fst key)) eqn:Hk; [right|left]; by apply Hin.
  - intros key' it' Hin' Hfn'. apply (entry_distinct s Hwf key' key it' it fn); [|done..].
    apply in_app_iff in Hin' as [H|H]; by apply Hin in H as [? _].
Qed.

(** The table gives every primitive method one function object.  Looking up a
    registered primitive always succeeds, returns a function for the registered
    library function, the same one on every later lookup, which stack traces
    print with the class and selector it was looked up by; a primitive that is
    not registered gets a function that aborts with its name.  Lookups change no
    registration. *)
Theorem Get_correct c m side s :
  prims_wf s ->
  exists fn s', Get c m side s = Ok (fn, s') /\ prims_wf s' /\ (forall key, registered s' key = registered s key) /\
    match registered s (side, c, m) with
    | Some f => p_functions s' !! fn = Some (mk_cfunction f []) /\ Get c m side s' = Ok (fn, s') /\
        LookupFunctionObject fn s' = primitive_name (side, c, m)
    | None => exists g, p_functions s' !! fn = Some g /\ f_impl g = P_unimplemented_primitive /\
        unimplemented_primitive g (p_heap s') = Err (Aborted ("Unimplemented primitive " ++ describe_primitive c m side ++ "!"))
    end.
Proof.
  intros Hwf. destruct (registered s (side, c, m)) as [f|] eqn:Hr.
  - destruct (Get_registered c m side s f Hwf Hr) as (fn & s' & Hg & Hwf' & Hreg & Hp & Hl).
    exists fn, s'. do 3 (split; [done|]). split_and!; [done|by eapply Get_again|by eapply LookupFunctionObject_entry].
  - destruct (Get_unregistered c m side s Hwf Hr) as (fn & s' & g & Hg & Hwf' & Hreg & Hp & Hi & Ha).
    exists fn, s'. do 3 (split; [done|]). by exists g.
Qed.

Definition prims0 : PrimState :=
  match SOMPrimitivesContainer (no_primitives []) with Ok (_, s) => s | Err _ => no_primitives [] end.

Definition is_ok {A} (r : result A) : bool := match r with Ok _ => true | Err _ => false end.

(** No selector is registered twice in a class: the constructor runs through. *)
Lemma container_ok : is_ok (SOMPrimitivesContainer (no_primitives [])) = true.
Proof. vm_compute. reflexivity. Qed.

Lemma container_builds : SOMPrimitivesContainer (no_primitives []) = Ok (tt, prims0).
Proof.
  unfold prims0. pose proof container_ok as Hok. by destruct (SOMPrimitivesContainer (no_primitives [])) as [[[] s]|e].
Qed.

Lemma Add_wf c m side f s :
  prims_wf s -> wp any_error (Add c m side f) (fun _ s' => prims_wf s') s.
Proof.
  intros Hwf. unfold Add. wp_step. unfold wp at 1, entry. wp_step. wp_step.
  match goal with H : _ && _ = true |- _ => apply andb_prop in H as [_ Hn]; apply bool_decide_eq_true in Hn end.
  unfold set_entry. wp_step. apply set_entry_wf; [done|simpl; congruence|simpl; congruence].
Qed.

Lemma add_all_wf l s : prims_wf s -> wp any_error (add_all l) (fun _ s' => prims_wf s') s.
Proof.
  revert s. induction l as [|[[[c m] side] f] l IH]; intros s Hwf; simpl; [done|]. apply wp_bind.
  eapply wp_mono; [by apply Add_wf|]. intros [] s' Hwf'. by apply IH.
Qed.

Lemma prims0_wf : prims_wf prims0.
Proof. apply (wp_ok _ _ _ _ _ _ (add_all_wf _ _ (no_primitives_wf [])) container_builds). Qed.

(** What the table registers, read off the list of registrations. *)
Fixpoint in_table (l : list (string * string * bool * LibFunc)) (key : bool * string * string) : option LibFunc :=
  match l with
  | [] => None
  | (c, m, side, f) :: l' => if bool_decide ((side, c, m) = key) then Some f else in_table l' key
  end.

Lemma Add_registers c m side f s s' :
  Add c m side f s = Ok (tt, s') ->
  registered s (side, c, m) = None /\
  forall key, registered s' key = if bool_decide ((side, c, m) = key) then Some f else registered s key.
Proof.
  unfold Add, entry, set_entry, check, modify, mbind, M_bind. simpl. rewrite <-default_entry.
  destruct (default Element_init (m_map s !! (side, c, m))) as [[g|] obj]; simpl; [done|].
  destruct (bool_decide (obj = None)); simpl; [|done].
  intros [= <-]. split; [done|]. intros key. unfold registered. simpl. case_bool_decide as Hk.
  - subst. by rewrite lookup_insert_eq.
  - by rewrite lookup_insert_ne.
Qed.

Lemma add_all_registers l s s' key :
  add_all l s = Ok (tt, s') ->
  (is_Some (registered s key) -> in_table l key = None) /\
  registered s' key = match in_table l key with Some f => Some f | None => registered s key end.
Proof.
  revert s. induction l as [|[[[c m] side] f] l IH]; intros s; simpl; [by intros [= ->]|].
  unfold mbind, M_bind. destruct (Add c m side f s) as [[[] s1]|] eqn:Ha; [|done]. intros Hl.
  destruct (Add_registers _ _ _ _ _ _ Ha) as [Hn Hr]. destruct (IH s1 Hl) as [Hsome ->]. rewrite Hr in *.
  case_bool_decide as Hk; [|done]. subst key. rewrite Hsome by done. split; [|done]. intros [g Hg]. congruence.
Qed.

Lemma registered_prims0 key : registered prims0 key = in_table primitive_table key.
Proof.
  destruct (add_all_registers _ _ _ key container_builds) as [_ ->].
  destruct (in_table primitive_table key) eqn:Ht; [done|]. unfold registered. simpl. by rewrite lookup_empty.
Qed.

Lemma Get_correct_witness :
  exists fn s', Get "Integer" "max:" false prims0 = Ok (fn, s') /\ prims_wf s' /\
    (forall key, registered s' key = registered prims0 key) /\
    match registered prims0 (false, "Integer", "max:") with
    | Some f => p_functions s' !! fn = Some (mk_cfunction f []) /\ Get "Integer" "max:" false s' = Ok (fn, s') /\
        LookupFunctionObject fn s' = primitive_name (false, "Integer", "max:")
    | None => exists g, p_functions s' !! fn = Some g /\ f_impl g = P_unimplemented_primitive /\
        unimplemented_primitive g (p_heap s') = Err (Aborted ("Unimplemented primitive " ++ describe_primitive "Integer" "max:" false ++ "!"))
    end.
Proof. apply (Get_correct "Integer" "max:" false prims0 prims0_wf). Defined.
