(* ===== verification/Arith.v ===== *)
(** * Arithmetic

    The number primitives of [annotated/builtin_libs/som_primitives.cpp] and the
    fast paths of the operators in [annotated/bytecodes/som_binary_operators.cpp]
    and [som_unary_operators.cpp].  The project is compiled as C++20 without
    [-fwrapv]: an integer result that does not fit, a division by zero and a
    conversion out of range are undefined behaviour; shifts of negative numbers
    are defined. *)
From S2P Require Import Prelude Lexer CNumbers TValue Doubles Values Primitives.
From Stdlib Require Import Ascii.
From Stdlib Require String.

#[local] Open Scope Z_scope.

(** ** The integer operations of C++ *)
Definition overflow : error := UndefinedBehaviour "signed overflow".

(** The result of an operation on [int32_t]. *)
Definition int32_value (z : Z) : result Z := if fits_int32 z then Ok z else Err overflow.
Definition int32_result (z : Z) : result Value := VInt <$> int32_value z.

(** [l / r] and [l % r], truncating. *)
Definition c_div (l r : Z) : result Z :=
  if r =? 0 then Err (UndefinedBehaviour "division by zero") else int32_value (Z.quot l r).
Definition c_mod (l r : Z) : result Z :=
  if r =? 0 then Err (UndefinedBehaviour "division by zero")
  else if fits_int32 (Z.quot l r) then Ok (Z.rem l r) else Err overflow.
Definition c_mod64 (l r : Z) : result Z :=
  if r =? 0 then Err (UndefinedBehaviour "division by zero")
  else if fits_int64 (Z.quot l r) then Ok (Z.rem l r) else Err overflow.

(** [l << r] and [l >> r]. *)
Definition c_shl (l r : Z) : result Z :=
  if (0 <=? r) && (r <? 32) then Ok (to_int32 (Z.shiftl l r)) else Err (UndefinedBehaviour "shift out of range").
Definition c_shr (l r : Z) : result Z :=
  if (0 <=? r) && (r <? 32) then Ok (Z.shiftr l r) else Err (UndefinedBehaviour "shift out of range").

(** Comparisons of doubles; a comparison with NaN is false, but for [!=]. *)
Definition d_eq (a b : double) : bool := SFeqb a b.
Definition d_lt (a b : double) : bool := SFltb a b.
Definition d_le (a b : double) : bool := SFleb a b.
Definition d_gt (a b : double) : bool := SFltb b a.
Definition d_ge (a b : double) : bool := SFleb b a.

(** ** Primitives of Integer *)

(** The shape most of them share: by the type of the right operand. *)
Definition integer_prim (on_int : Z -> Z -> result Value) (on_double : Z -> double -> result Value)
    (lhs rhs : Value) : result Value :=
  l ← AsInt lhs;
  match rhs with
  | VInt r => on_int l r
  | _ => r ← AsDbl rhs; on_double l r
  end.

Definition integer_add : Value -> Value -> result Value :=
  integer_prim (fun l r => int32_result (l + r)) (fun l r => Ok (VDouble (d_add (double_of_int l) r))).
Definition integer_minus : Value -> Value -> result Value :=
  integer_prim (fun l r => int32_result (l - r)) (fun l r => Ok (VDouble (d_sub (double_of_int l) r))).
Definition integer_star : Value -> Value -> result Value :=
  integer_prim (fun l r => int32_result (l * r)) (fun l r => Ok (VDouble (d_mul (double_of_int l) r))).
Definition integer_rem : Value -> Value -> result Value :=
  integer_prim
    (fun l r => q ← c_div l r; p ← int32_value (q * r); int32_result (l - p))
    (fun l r => r64 ← double_to_int64 r; m ← c_mod64 l r64; Ok (VDouble (double_of_int m))).
Definition integer_slash : Value -> Value -> result Value :=
  integer_prim (fun l r => VInt <$> c_div l r) (fun l r => r32 ← double_to_int32 r; VInt <$> c_div l r32).
Definition integer_slashslash : Value -> Value -> result Value :=
  integer_prim (fun l r => Ok (VDouble (d_div (double_of_int l) (double_of_int r))))
    (fun l r => Ok (VDouble (d_div (double_of_int l) r))).

(** The correction of [%] to the sign of the divisor. *)
Definition integer_percent (lhs rhs : Value) : result Value :=
  l ← AsInt lhs;
  r ← match rhs with VInt r => Ok r | _ => d ← AsDbl rhs; double_to_int32 d end;
  result ← c_mod l r;
  if negb (result =? 0) && negb (Bool.eqb (result <? 0) (r <? 0))
  then int32_result (result + r) else Ok (VInt result).

(** Operations on integers only. *)
Definition integer_only (op : Z -> Z -> result Z) (lhs rhs : Value) : result Value :=
  l ← AsInt lhs; r ← AsInt rhs; VInt <$> op l r.
Definition integer_and : Value -> Value -> result Value := integer_only (fun l r => Ok (Z.land l r)).
Definition integer_bitwisexor : Value -> Value -> result Value := integer_only (fun l r => Ok (Z.lxor l r)).
Definition integer_leftshift : Value -> Value -> result Value := integer_only c_shl.
Definition integer_unsignedrightshift : Value -> Value -> result Value := integer_only c_shr.

Definition integer_equal (lhs rhs : Value) : result Value :=
  l ← AsInt lhs;
  match rhs with
  | VInt r => Ok (VBool (l =? r))
  | VDouble r => Ok (VBool (d_eq (double_of_int l) r))
  | _ => Ok (VBool false)
  end.
Definition integer_equalequal (lhs rhs : Value) : result Value :=
  l ← AsInt lhs; match rhs with VInt r => Ok (VBool (l =? r)) | _ => Ok (VBool false) end.

Definition integer_compare (ci : Z -> Z -> bool) (cd : double -> double -> bool) : Value -> Value -> result Value :=
  integer_prim (fun l r => Ok (VBool (ci l r))) (fun l r => Ok (VBool (cd (double_of_int l) r))).
Definition integer_lowerthan := integer_compare Z.ltb d_lt.
Definition integer_lowerequal := integer_compare Z.leb d_le.
Definition integer_greaterthan := integer_compare Z.gtb d_gt.
Definition integer_greaterequal := integer_compare Z.geb d_ge.
Definition integer_unequal := integer_compare (fun l r => negb (l =? r)) (fun l r => negb (d_eq l r)).

Definition integer_asdouble (v : Value) : result Value := l ← AsInt v; Ok (VDouble (double_of_int l)).
Definition integer_as32bitsigned (v : Value) : result Value := Ok v.
Definition integer_as32bitunsigned (v : Value) : result Value := Ok v.

(** [r == rint(r)] tells a perfect square; NaN is not equal to itself. *)
Definition sqrt_of_int (z : Z) : result Value :=
  let r := d_sqrt (double_of_int z) in
  if d_eq r (rint r) then VInt <$> double_to_int32 r else Ok (VDouble r).
Definition integer_sqrt (v : Value) : result Value := z ← AsInt v; sqrt_of_int z.
Definition integer_abs (v : Value) : result Value :=
  z ← AsInt v; if z <? 0 then int32_result (- z) else Ok (VInt z).
Definition integer_min (lhs rhs : Value) : result Value :=
  integer_prim (fun l r => Ok (VInt (Z.min l r)))
    (fun l r => Ok (if d_lt (double_of_int l) r then lhs else rhs)) lhs rhs.
Definition integer_max (lhs rhs : Value) : result Value :=
  integer_prim (fun l r => Ok (VInt (Z.max l r)))
    (fun l r => Ok (if d_gt (double_of_int l) r then lhs else rhs)) lhs rhs.

(** ** Primitives of Double *)
Definition CoerceDouble (tv : Value) : result double :=
  match tv with VDouble d => Ok d | _ => z ← AsInt tv; Ok (double_of_int z) end.

Definition double_prim (op : double -> double -> result Value) (lhs rhs : Value) : result Value :=
  l ← AsDbl lhs; r ← CoerceDouble rhs; op l r.
Definition double_arith (op : double -> double -> double) := double_prim (fun l r => Ok (VDouble (op l r))).
Definition double_add := double_arith d_add.
Definition double_sub := double_arith d_sub.
Definition double_star := double_arith d_mul.
Definition double_slashslash := double_arith d_div.

(** [static_cast<double>(static_cast<int64_t>(lhs) % static_cast<int64_t>(rhs))] *)
Definition double_mod (l r : double) : result double :=
  l64 ← double_to_int64 l; r64 ← double_to_int64 r; m ← c_mod64 l64 r64; Ok (double_of_int m).
Definition double_percent := double_prim (fun l r => VDouble <$> double_mod l r).

Definition double_compare (c : double -> double -> bool) := double_prim (fun l r => Ok (VBool (c l r))).
Definition double_equal := double_compare d_eq.
Definition double_unequal := double_compare (fun l r => negb (d_eq l r)).
Definition double_lowerthan := double_compare d_lt.
Definition double_lowerequal := double_compare d_le.
Definition double_greaterthan := double_compare d_gt.
Definition double_greaterequal := double_compare d_ge.
Definition double_min (lhs rhs : Value) : result Value :=
  double_prim (fun l r => Ok (if d_lt l r then lhs else rhs)) lhs rhs.
Definition double_max (lhs rhs : Value) : result Value :=
  double_prim (fun l r => Ok (if d_gt l r then lhs else rhs)) lhs rhs.

Definition double_sqrt (v : Value) : result Value := d ← AsDbl v; Ok (VDouble (d_sqrt d)).
Definition double_asinteger (v : Value) : result Value := d ← AsDbl v; VInt <$> double_to_int32 d.
(** [static_cast<int32_t>(llround(v))]: the conversion of the integer wraps. *)
Definition double_round (v : Value) : result Value := d ← AsDbl v; z ← llround d; Ok (VInt (to_int32 z)).
Definition double_positiveinfinity : result Value := Ok (VDouble (S754_infinity false)).

(** [object_equalequal]: the same bits. *)
Definition object_equalequal (lhs rhs : Value) : result Value := Ok (VBool (bool_decide (lhs = rhs))).

(** ** The fast paths of the binary operators *)
Inductive BinOpKind : Type :=
  | Plus | Minus | Star | SlashSlash | Percent | And | Equal | LessThan | LessEqual | GreaterThan | GreaterEqual
  | Unequal | TildeUnequal | LeftShift | RightShift | BitwiseXor | Slash
  | LogicalAnd | LogicalOr | KeywordAnd | KeywordOr | ValueColon | AtColon | CharAtColon.

#[export] Instance BinOpKind_eq_dec : EqDecision BinOpKind.
Proof. solve_decision. Defined.

(** The selector of [GetLookupKeyForBinaryOperator]. *)
Definition GetLookupKeyForBinaryOperator (kind : BinOpKind) : string :=
  match kind with
  | Plus => "+" | Minus => "-" | Star => "*" | SlashSlash => "//" | Percent => "%" | And => "&" | Equal => "="
  | LessThan => "<" | LessEqual => "<=" | GreaterThan => ">" | GreaterEqual => ">=" | Unequal => "<>"
  | TildeUnequal => "~=" | LeftShift => "<<" | RightShift => ">>>" | BitwiseXor => "bitXor:" | Slash => "/"
  | LogicalAnd => "&&" | LogicalOr => "||" | KeywordAnd => "and:" | KeywordOr => "or:"
  | ValueColon => "value:" | AtColon => "at:" | CharAtColon => "charAt:"
  end.

(** A fast path returns a value, or falls through to the slow path, which calls
    the method the selector names. *)
Inductive FastResult : Type := Returned (v : Value) | SlowPath.

Definition returned (r : result Value) : result FastResult := Returned <$> r.
Definition return_int (r : result Z) : result FastResult := returned (VInt <$> r).
Definition return_double (d : double) : result FastResult := Ok (Returned (VDouble d)).
Definition return_bool (b : bool) : result FastResult := Ok (Returned (VBool b)).

Definition DoSOMIntegerPercent (lhs rhs : Z) : result Z :=
  result ← c_mod lhs rhs;
  if negb (result =? 0) && negb (Bool.eqb (result <? 0) (rhs <? 0)) then int32_value (result + rhs) else Ok result.

Definition DoIntegerIntegerArithOp (kind : BinOpKind) (lhs rhs : Z) : result FastResult :=
  match kind with
  | Plus => return_int (int32_value (lhs + rhs))
  | Minus => return_int (int32_value (lhs - rhs))
  | Star => return_int (int32_value (lhs * rhs))
  | SlashSlash => return_double (d_div (double_of_int lhs) (double_of_int rhs))
  | Percent => return_int (DoSOMIntegerPercent lhs rhs)
  | And => return_int (Ok (Z.land lhs rhs))
  | Equal => return_bool (lhs =? rhs)
  | LessThan => return_bool (lhs <? rhs)
  | LessEqual => return_bool (lhs <=? rhs)
  | GreaterThan => return_bool (lhs >? rhs)
  | GreaterEqual => return_bool (lhs >=? rhs)
  | Unequal => return_bool (negb (lhs =? rhs))
  | TildeUnequal => return_bool (negb (lhs =? rhs))
  | LeftShift => return_int (c_shl lhs rhs)
  | RightShift => return_int (c_shr lhs rhs)
  | BitwiseXor => return_int (Ok (Z.lxor lhs rhs))
  | Slash => return_int (c_div lhs rhs)
  | _ => Ok SlowPath
  end.

Definition DoIntegerDoubleArithOp (kind : BinOpKind) (lhs : Z) (rhs : double) : result FastResult :=
  let l := double_of_int lhs in
  match kind with
  | Plus => return_double (d_add l rhs)
  | Minus => return_double (d_sub l rhs)
  | Star => return_double (d_mul l rhs)
  | SlashSlash => return_double (d_div l rhs)
  | Percent => r32 ← double_to_int32 rhs; return_int (DoSOMIntegerPercent lhs r32)
  | And => Ok SlowPath
  | Equal => return_bool (d_eq l rhs)
  | LessThan => return_bool (d_lt l rhs)
  | LessEqual => return_bool (d_le l rhs)
  | GreaterThan => return_bool (d_gt l rhs)
  | GreaterEqual => return_bool (d_ge l rhs)
  | Unequal => return_bool (negb (d_eq l rhs))
  | TildeUnequal => return_bool (negb (d_eq l rhs))
  | LeftShift | RightShift | BitwiseXor => Ok SlowPath
  | Slash => r32 ← double_to_int32 rhs; return_int (c_div lhs r32)
  | _ => Ok SlowPath
  end.

(** The overload on two doubles. *)
Definition DoDoubleDoubleArithOp (kind : BinOpKind) (lhs rhs : double) : result FastResult :=
  match kind with
  | Plus => return_double (d_add lhs rhs)
  | Minus => return_double (d_sub lhs rhs)
  | Star => return_double (d_mul lhs rhs)
  | SlashSlash => return_double (d_div lhs rhs)
  | Percent => returned (VDouble <$> double_mod lhs rhs)
  | Equal => return_bool (d_eq lhs rhs)
  | LessThan => return_bool (d_lt lhs rhs)
  | LessEqual => return_bool (d_le lhs rhs)
  | GreaterThan => return_bool (d_gt lhs rhs)
  | GreaterEqual => return_bool (d_ge lhs rhs)
  | Unequal => return_bool (negb (d_eq lhs rhs))
  | TildeUnequal => return_bool (negb (d_eq lhs rhs))
  | _ => Ok SlowPath
  end.

Definition DoIntegerArithOp (kind : BinOpKind) (lhs : Z) (rhs : Value) : result FastResult :=
  match rhs with
  | VInt r => DoIntegerIntegerArithOp kind lhs r
  | VDouble r => DoIntegerDoubleArithOp kind lhs r
  | _ => match kind with
         | Equal => return_bool false
         | _ => r ← AsDbl rhs; DoIntegerDoubleArithOp kind lhs r
         end
  end.

Definition DoDoubleArithOp (kind : BinOpKind) (lhs : double) (rhs : Value) : result FastResult :=
  match rhs with
  | VDouble r => DoDoubleDoubleArithOp kind lhs r
  | _ => r ← AsInt rhs; DoDoubleDoubleArithOp kind lhs (double_of_int r)
  end.

(** [m_arrayType == SOM_String] of a heap entity. *)
Definition string_of (v : Value) : HM (option string) :=
  match v with
  | VObject r => o ← deref r; mret (match o with OString _ s => Some s | _ => None end)
  | _ => mret None
  end.

(** [memcmp(a, b, len) == 0] *)
Fixpoint memeq (len : nat) (a b : chars) : bool :=
  match len, a, b with
  | S n, c :: a', d :: b' => eqc c d && memeq n a' b'
  | _, _, _ => true
  end.

(** The content of strings of the same length; one character is compared directly. *)
Definition same_content (l r : chars) : bool :=
  if bool_decide (length r = 1%nat) then
    match l, r with c :: _, d :: _ => eqc c d | _, _ => true end
  else memeq (length r) l r.

Definition StringEqualFastPath (lhs rhs : Value) (l : string) : HM FastResult :=
  if bool_decide (lhs = rhs) then mret (Returned (VBool true))
  else
    r ← string_of rhs;
    match r with
    | None => mret (Returned (VBool false))
    | Some r =>
        let lc := list_ascii_of_string l in
        let rc := list_ascii_of_string r in
        if negb (length rc =? length lc)%nat then mret (Returned (VBool false))
        else mret (Returned (VBool (same_content lc rc)))
    end.

Definition ArithBinOpImpl (kind : BinOpKind) (lhs rhs : Value) : HM FastResult :=
  match kind with
  | And | LeftShift | RightShift | BitwiseXor | Slash =>
      match lhs with VInt l => lift_result (DoIntegerArithOp kind l rhs) | _ => mret SlowPath end
  | Minus | Star | SlashSlash =>
      match lhs with
      | VDouble l => lift_result (DoDoubleArithOp kind l rhs)
      | VInt l => lift_result (DoIntegerArithOp kind l rhs)
      | _ => mret SlowPath
      end
  | Equal =>
      match lhs with
      | VInt l => lift_result (DoIntegerArithOp kind l rhs)
      | VObject _ | VFunction _ =>
          s ← string_of lhs;
          match s with Some l => StringEqualFastPath lhs rhs l | None => mret SlowPath end
      | VDouble l => lift_result (DoDoubleArithOp kind l rhs)
      | _ => mret SlowPath
      end
  | _ =>
      match lhs with
      | VInt l => lift_result (DoIntegerArithOp kind l rhs)
      | VDouble l => lift_result (DoDoubleArithOp kind l rhs)
      | _ => mret SlowPath
      end
  end.

(** [ArithBinOp] is instantiated with these kinds. *)
Definition is_arith (kind : BinOpKind) : bool :=
  match kind with
  | LogicalAnd | LogicalOr | KeywordAnd | KeywordOr | ValueColon | AtColon | CharAtColon => false
  | _ => true
  end.

Definition OperatorEqualEqualImpl (lhs rhs : Value) : Value := VBool (bool_decide (lhs = rhs)).

(** [string_equal] *)
Definition string_equal (lhs rhs : Value) : HM Value :=
  l ← AsString lhs;
  if bool_decide (lhs = rhs) then mret (VBool true)
  else
    r ← string_of rhs;
    match r with
    | None => mret (VBool false)
    | Some r =>
        let lc := list_ascii_of_string l in
        let rc := list_ascii_of_string r in
        if negb (length rc =? length lc)%nat then mret (VBool false)
        else mret (VBool (memeq (length rc) lc rc))
    end.

(** ** Unary operators *)
Inductive UnaryOpKind : Type := Abs | Sqrt | UValue | Not | Length.
Definition GetLookupKeyForUnaryOperator (kind : UnaryOpKind) : string :=
  match kind with Abs => "abs" | Sqrt => "sqrt" | UValue => "value" | Not => "not" | Length => "length" end.

Definition ArithUnaryOpImpl (kind : UnaryOpKind) (op : Value) : result FastResult :=
  match kind with
  | Abs =>
      match op with
      | VInt v => if v <? 0 then return_int (int32_value (- v)) else return_int (Ok v)
      | VDouble d => return_double (if d_lt d d_zero then d_sub d_zero d else d)
      | _ => Ok SlowPath
      end
  | _ =>
      match op with
      | VDouble d => return_double (d_sqrt d)
      | VInt v => returned (sqrt_of_int v)
      | _ => Ok SlowPath
      end
  end.

Definition IsNilNotNilOpImpl (forIsNil : bool) (op : Value) : Value :=
  VBool (Bool.eqb (bool_decide (op = VNil)) forIsNil).

(** [&&], [||], [and:] and [or:] when the left operand is a boolean and the right
    one is not a heap entity, on which [value] is the identity. *)
Definition BooleanBinOpImpl (kind : BinOpKind) (lhs rhs : Value) : FastResult :=
  match lhs with
  | VBool b =>
      if IsHeapEntity rhs then SlowPath
      else match kind with
           | LogicalAnd | KeywordAnd => Returned (if b then rhs else lhs)
           | _ => Returned (if negb b then rhs else lhs)
           end
  | _ => SlowPath
  end.

(** ** The primitives the operators stand for *)

(** The binary number and string primitives. *)
Definition binary_primitive (f : LibFunc) : option (Value -> Value -> HM Value) :=
  let pure op := Some (fun a b => lift_result (op a b)) in
  match f with
  | P_integer_add => pure integer_add
  | P_integer_minus => pure integer_minus
  | P_integer_star => pure integer_star
  | P_integer_rem => pure integer_rem
  | P_integer_bitwisexor => pure integer_bitwisexor
  | P_integer_leftshift => pure integer_leftshift
  | P_integer_unsignedrightshift => pure integer_unsignedrightshift
  | P_integer_slash => pure integer_slash
  | P_integer_slashslash => pure integer_slashslash
  | P_integer_percent => pure integer_percent
  | P_integer_and => pure integer_and
  | P_integer_equal => pure integer_equal
  | P_integer_equalequal => pure integer_equalequal
  | P_integer_lowerthan => pure integer_lowerthan
  | P_integer_lowerequal => pure integer_lowerequal
  | P_integer_greaterthan => pure integer_greaterthan
  | P_integer_greaterequal => pure integer_greaterequal
  | P_integer_unequal => pure integer_unequal
  | P_integer_min => pure integer_min
  | P_integer_max => pure integer_max
  | P_double_add => pure double_add
  | P_double_sub => pure double_sub
  | P_double_star => pure double_star
  | P_double_slashslash => pure double_slashslash
  | P_double_percent => pure double_percent
  | P_double_equal => pure double_equal
  | P_double_unequal => pure double_unequal
  | P_double_lowerthan => pure double_lowerthan
  | P_double_lowerequal => pure double_lowerequal
  | P_double_greaterthan => pure double_greaterthan
  | P_double_greaterequal => pure double_greaterequal
  | P_double_min => pure double_min
  | P_double_max => pure double_max
  | P_object_equalequal => pure object_equalequal
  | P_string_equal => Some string_equal
  | _ => None
  end.

(** The class whose primitives apply to a number or a string; [Symbol] inherits
    those of [String]. *)
Definition class_name (h : Heap) (v : Value) : option string :=
  match v with
  | VInt _ => Some "Integer"
  | VDouble _ => Some "Double"
  | VObject r => match h !! r with Some (OString _ _) => Some "String" | _ => None end
  | _ => None
  end.

(** The primitive registered for a selector, run on the operands. *)
Definition primitive_result (kind : BinOpKind) (lhs rhs : Value) (h : Heap) : option (result (Value * Heap)) :=
  cls ← class_name h lhs;
  f ← registered prims0 (false, cls, GetLookupKeyForBinaryOperator kind);
  p ← binary_primitive f;
  Some (p lhs rhs h).

(** The same error, or both a failed type assertion. *)
Definition same_failure (e e' : error) : Prop :=
  e = e' \/ exists w w', e = AssertFailed w /\ e' = AssertFailed w'.

Lemma same_failure_refl e : same_failure e e.
Proof. by left. Qed.
#[export] Hint Resolve same_failure_refl : dsom.

(** A fast path that does not fall through does what the primitive does. *)
Definition agrees (fast : result FastResult) (prim : result Value) : Prop :=
  match fast with
  | Ok SlowPath => True
  | Ok (Returned v) => prim = Ok v
  | Err e => exists e', prim = Err e' /\ same_failure e e'
  end.

Lemma agrees_returned r : agrees (returned r) r.
Proof. destruct r; simpl; eauto with dsom. Qed.

Lemma agrees_bind {A} (r : result A) f g : (forall a, agrees (f a) (g a)) -> agrees (r ≫= f) (r ≫= g).
Proof. destruct r; simpl; eauto with dsom. Qed.

Lemma percent_agrees l r :
  agrees (return_int (DoSOMIntegerPercent l r))
    (result ← c_mod l r;
     if negb (result =? 0) && negb (Bool.eqb (result <? 0) (r <? 0)) then int32_result (result + r) else Ok (VInt result)).
Proof.
  unfold DoSOMIntegerPercent, return_int. destruct (c_mod l r) as [m|e]; simpl; [|eauto with dsom].
  case_match; [apply agrees_returned|done].
Qed.

Definition integer_primitive (kind : BinOpKind) : Value -> Value -> result Value :=
  match kind with
  | Plus => integer_add | Minus => integer_minus | Star => integer_star | SlashSlash => integer_slashslash
  | Percent => integer_percent | And => integer_and | Equal => integer_equal | LessThan => integer_lowerthan
  | LessEqual => integer_lowerequal | GreaterThan => integer_greaterthan | GreaterEqual => integer_greaterequal
  | LeftShift => integer_leftshift | RightShift => integer_unsignedrightshift | BitwiseXor => integer_bitwisexor
  | Slash => integer_slash | _ => integer_unequal
  end.

Lemma integer_agrees kind l rhs :
  is_arith kind = true -> agrees (DoIntegerArithOp kind l rhs) (integer_primitive kind (VInt l) rhs).
Proof.
  intros Hk. destruct kind; try discriminate Hk; destruct rhs as [|b|r|d|r|r]; simpl; try done;
    unfold integer_add, integer_minus, integer_star, integer_slash, integer_slashslash, integer_and, integer_bitwisexor,
      integer_leftshift, integer_unsignedrightshift, integer_lowerthan, integer_lowerequal, integer_greaterthan,
      integer_greaterequal, integer_unequal, integer_prim, integer_only, integer_percent, integer_equal,
      integer_compare; simpl;
    try apply agrees_returned; try apply percent_agrees; try (eexists; split; [done|]; unfold same_failure; by eauto);
    apply agrees_bind; intros a; first [apply agrees_returned|apply percent_agrees].
Qed.

Definition double_primitive (kind : BinOpKind) : Value -> Value -> result Value :=
  match kind with
  | Plus => double_add | Minus => double_sub | Star => double_star | SlashSlash => double_slashslash
  | Percent => double_percent | Equal => double_equal | LessThan => double_lowerthan
  | LessEqual => double_lowerequal | GreaterThan => double_greaterthan | GreaterEqual => double_greaterequal
  | _ => double_unequal
  end.

Lemma double_agrees kind l rhs :
  is_arith kind = true -> agrees (DoDoubleArithOp kind l rhs) (double_primitive kind (VDouble l) rhs).
Proof.
  intros Hk. destruct kind; try discriminate Hk; destruct rhs as [|b|r|d|r|r]; simpl; try done;
    unfold double_add, double_sub, double_star, double_slashslash, double_percent, double_equal, double_unequal,
      double_lowerthan, double_lowerequal, double_greaterthan, double_greaterequal, double_arith, double_compare,
      double_prim; simpl; try done;
    try apply agrees_returned; (eexists; split; [done|apply same_failure_refl]).
Qed.

Lemma memeq_spec a b : length a = length b -> memeq (length b) a b = bool_decide (a = b).
Proof.
  revert b. induction a as [|c a IH]; intros [|d b]; try done. simpl. intros [= Hl]. unfold eqc.
  rewrite IH by done. destruct (Ascii.eqb_spec c d) as [->|Hn]; simpl.
  - apply bool_decide_ext. naive_solver.
  - symmetry. apply bool_decide_eq_false. naive_solver.
Qed.

Lemma same_content_memeq a b : length a = length b -> same_content a b = memeq (length b) a b.
Proof.
  intros Hl. unfold same_content. case_bool_decide as H1; [|done].
  destruct b as [|d [|? ?]]; [done| |done]. destruct a as [|c [|? ?]]; [done| |done]. simpl. by rewrite andb_true_r.
Qed.

Lemma primitive_result_int kind l rhs h :
  is_arith kind = true ->
  primitive_result kind (VInt l) rhs h = Some (lift_result (integer_primitive kind (VInt l) rhs) h).
Proof.
  intros Hk. unfold primitive_result. simpl. rewrite registered_prims0. by destruct kind.
Qed.

(** The operators Double has a primitive for: the others fall through. *)
Definition on_doubles (kind : BinOpKind) : bool :=
  match kind with And | LeftShift | RightShift | BitwiseXor | Slash => false | _ => is_arith kind end.

Lemma primitive_result_double kind l rhs h :
  on_doubles kind = true ->
  primitive_result kind (VDouble l) rhs h = Some (lift_result (double_primitive kind (VDouble l) rhs) h).
Proof.
  intros Hk. unfold primitive_result. simpl. rewrite registered_prims0. by destruct kind.
Qed.

(** What the comparison of a string with a value comes to. *)
Lemma string_fast_path lhs rhs l h :
  AsString lhs h = Ok (l, h) -> refers_below (length h) rhs ->
  exists b, StringEqualFastPath lhs rhs l h = Ok (Returned (VBool b), h) /\ string_equal lhs rhs h = Ok (VBool b, h).
Proof.
  intros Hl Hrhs. unfold string_equal, StringEqualFastPath, mbind, M_bind. rewrite Hl.
  case_bool_decide; [by eexists|].
  assert (Hs : exists o, string_of rhs h = Ok (o, h)).
  { destruct rhs as [| | | |r|r]; simpl; eauto. simpl in Hrhs. apply lookup_lt_is_Some_2 in Hrhs as [obj Hobj].
    unfold mbind, M_bind, deref. rewrite Hobj. eauto. }
  destruct Hs as [[r|] ->]; [|by eexists]. case_match eqn:Hlen; [by eexists|].
  apply negb_false_iff, Nat.eqb_eq in Hlen. rewrite same_content_memeq by done. by eexists.
Qed.

Definition fast_path_ok (kind : BinOpKind) (lhs rhs : Value) (h : Heap) : Prop :=
  match ArithBinOpImpl kind lhs rhs h with
  | Ok (SlowPath, h') => h' = h
  | Ok (Returned v, h') => h' = h /\ primitive_result kind lhs rhs h = Some (Ok (v, h))
  | Err e => exists e', primitive_result kind lhs rhs h = Some (Err e') /\ same_failure e e'
  end.

(** A number on the left: the fast path is a pure function. *)
Lemma fast_path_pure kind lhs rhs h fast prim :
  ArithBinOpImpl kind lhs rhs = lift_result fast ->
  primitive_result kind lhs rhs h = Some (lift_result prim h) ->
  agrees fast prim -> fast_path_ok kind lhs rhs h.
Proof.
  intros Ha Hp Hag. unfold fast_path_ok. rewrite Ha, Hp. unfold lift_result.
  destruct fast as [[v|]|e]; simpl in *; [by rewrite Hag|done|].
  destruct Hag as (e' & -> & Hs). by exists e'.
Qed.

(** C29: the fast paths of the arithmetic and comparison operators are the
    primitives.  When the inline code of an operator returns a value for two
    operands, the primitive registered in the class of the left operand for the
    operator's selector returns that value on them; when it is undefined or fails
    an assertion, so does the primitive; otherwise the call goes to the method. *)
Theorem arith_fast_path_is_primitive kind lhs rhs h :
  is_arith kind = true -> refers_below (length h) lhs -> refers_below (length h) rhs ->
  fast_path_ok kind lhs rhs h.
Proof.
  intros Hk Hl Hr. destruct lhs as [|b|z|d|r|r].
  - by destruct kind.
  - by destruct kind.
  - apply (fast_path_pure _ _ _ _ (DoIntegerArithOp kind z rhs) (integer_primitive kind (VInt z) rhs));
      [by destruct kind|by apply primitive_result_int|by apply integer_agrees].
  - destruct (on_doubles kind) eqn:Hd; [|by destruct kind].
    apply (fast_path_pure _ _ _ _ (DoDoubleArithOp kind d rhs) (double_primitive kind (VDouble d) rhs));
      [by destruct kind|by apply primitive_result_double|by apply double_agrees].
  - destruct (decide (kind = Equal)) as [->|Hn]; [|by destruct kind].
    simpl in Hl. apply lookup_lt_is_Some_2 in Hl as [obj Hobj]. unfold fast_path_ok. simpl.
    unfold mbind, M_bind, deref, primitive_result. simpl. rewrite Hobj. destruct obj as [c fs|es|cls s]; [done|done|]. simpl.
    destruct (string_fast_path (VObject r) rhs s h (AsString_ok r cls s h Hobj) Hr) as (b & -> & He).
    split; [done|]. rewrite registered_prims0. simpl. by rewrite He.
  - by destruct kind.
Qed.

Lemma arith_fast_path_is_primitive_witness :
  fast_path_ok Percent (VInt (-7)) (VInt 2) [] /\ ArithBinOpImpl Percent (VInt (-7)) (VInt 2) [] = Ok (Returned (VInt 1), []).
Proof. split; [apply (arith_fast_path_is_primitive Percent (VInt (-7)) (VInt 2) []); [reflexivity|exact I|exact I]|reflexivity]. Defined.

(** ** Results fit their representation *)
Definition fast_value_ok (r : result FastResult) : Prop :=
  match r with Ok (Returned v) => value_ok v /\ IsHeapEntity v = false | _ => True end.

Lemma value_ok_int r : (forall z, r = Ok z -> fits_int32 z = true) -> fast_value_ok (return_int r).
Proof. destruct r as [z|e]; simpl; auto. Qed.

Lemma fast_value_ok_bind {A} (r : result A) f : (forall a, r = Ok a -> fast_value_ok (f a)) -> fast_value_ok (r ≫= f).
Proof. destruct r as [a|e]; simpl; [auto|done]. Qed.

Lemma int32_value_fits a z : int32_value a = Ok z -> fits_int32 z = true.
Proof. unfold int32_value. by destruct (fits_int32 a) eqn:Ha; [intros [= <-]|]. Qed.

Lemma c_div_fits l r z : c_div l r = Ok z -> fits_int32 z = true.
Proof. unfold c_div. case_match; [done|]. apply int32_value_fits. Qed.

Lemma c_mod_fits l r z : fits_int32 r = true -> c_mod l r = Ok z -> fits_int32 z = true /\ Z.abs z < Z.abs r.
Proof.
  unfold c_mod. rewrite !fits_int32_range. destruct (r =? 0) eqn:Hr; [done|]. case_match; [|done]. intros Hf [= <-].
  apply Z.eqb_neq in Hr. pose proof (Z.rem_bound_abs l r Hr). lia.
Qed.

Lemma DoSOMIntegerPercent_fits l r z : fits_int32 r = true -> DoSOMIntegerPercent l r = Ok z -> fits_int32 z = true.
Proof.
  intros Hr. unfold DoSOMIntegerPercent. destruct (c_mod l r) as [m|] eqn:Hm; simpl; [|done].
  destruct (c_mod_fits _ _ _ Hr Hm). case_match; [apply int32_value_fits|by intros [= <-]].
Qed.

Lemma c_shl_fits l r z : c_shl l r = Ok z -> fits_int32 z = true.
Proof. unfold c_shl. case_match; [|done]. intros [= <-]. apply to_int32_range. Qed.

(** A word of 32 bits, by its sign. *)
Lemma fits_int32_bits z : fits_int32 z = true <-> z / 2 ^ 31 = 0 \/ z / 2 ^ 31 = -1.
Proof.
  rewrite fits_int32_range. pose proof (Z.div_mod z (2 ^ 31) ltac:(lia)). pose proof (Z.mod_pos_bound z (2 ^ 31) ltac:(lia)). lia.
Qed.

Lemma c_shr_fits l r z : fits_int32 l = true -> c_shr l r = Ok z -> fits_int32 z = true.
Proof.
  unfold c_shr. destruct ((0 <=? r) && (r <? 32)) eqn:Hr; [|done]. intros Hl [= <-].
  apply andb_prop in Hr as [Hr _]. apply Z.leb_le in Hr.
  apply fits_int32_bits in Hl. apply fits_int32_bits. rewrite Z.shiftr_div_pow2, Zdiv.Zdiv_Zdiv by lia.
  rewrite (Z.mul_comm (2 ^ r)), <-Zdiv.Zdiv_Zdiv by lia. pose proof (Z.pow_pos_nonneg 2 r ltac:(lia) Hr).
  destruct Hl as [-> | ->]; [left; by rewrite Z.div_0_l by lia|right].
  destruct (decide (2 ^ r = 1)) as [->|]; [done|]. symmetry. apply (Z.div_unique _ _ _ (2 ^ r - 1)); lia.
Qed.

(** Bitwise operations on words stay within words. *)
Lemma bitwise_fits (op : Z -> Z -> Z) a b :
  (forall x y n, 0 <= n -> Z.shiftr (op x y) n = op (Z.shiftr x n) (Z.shiftr y n)) ->
  (forall x y, (x = 0 \/ x = -1) -> (y = 0 \/ y = -1) -> op x y = 0 \/ op x y = -1) ->
  fits_int32 a = true -> fits_int32 b = true -> fits_int32 (op a b) = true.
Proof.
  intros Hs Hop Ha Hb. apply fits_int32_bits in Ha, Hb. apply fits_int32_bits.
  rewrite <-Z.shiftr_div_pow2 in * by lia. rewrite Hs by lia. by apply Hop.
Qed.

Lemma land_fits a b : fits_int32 a = true -> fits_int32 b = true -> fits_int32 (Z.land a b) = true.
Proof.
  apply bitwise_fits; [intros; by apply Z.shiftr_land|]. intros x y [-> | ->] [-> | ->]; simpl; auto.
Qed.

Lemma lxor_fits a b : fits_int32 a = true -> fits_int32 b = true -> fits_int32 (Z.lxor a b) = true.
Proof.
  apply bitwise_fits; [intros; by apply Z.shiftr_lxor|]. intros x y [-> | ->] [-> | ->]; simpl; auto.
Qed.

Lemma double_to_int32_fits d z : double_to_int32 d = Ok z -> fits_int32 z = true.
Proof.
  unfold double_to_int32, double_to. destruct (trunc_double d) as [t|]; [|done].
  destruct (fits_int32 t) eqn:Ht; [by intros [= <-]|done].
Qed.

Lemma integer_op_ok kind l r : fits_int32 l = true -> fits_int32 r = true -> fast_value_ok (DoIntegerIntegerArithOp kind l r).
Proof.
  intros Hl Hr. destruct kind; simpl; try exact I; auto with dsom;
    try (apply value_ok_int; intros z Hz; revert Hz; eauto using int32_value_fits, c_div_fits, c_shl_fits, c_shr_fits, DoSOMIntegerPercent_fits).
  - split; [by apply land_fits|done].
  - split; [by apply lxor_fits|done].
Qed.

Lemma integer_double_op_ok kind l d : fits_int32 l = true -> valid_double d -> fast_value_ok (DoIntegerDoubleArithOp kind l d).
Proof.
  intros Hl Hd. destruct kind; simpl; try exact I; auto with dsom; apply fast_value_ok_bind; intros z Hz; apply value_ok_int;
    intros y Hy; [|by apply c_div_fits in Hy]. apply (DoSOMIntegerPercent_fits l z); [|done]. by apply (double_to_int32_fits d).
Qed.

Lemma double_mod_valid l r d : double_mod l r = Ok d -> valid_double d.
Proof.
  unfold double_mod. destruct (double_to_int64 l); simpl; [|done]. destruct (double_to_int64 r); simpl; [|done].
  destruct (c_mod64 a a0); simpl; [|done]. intros [= <-]. apply double_of_int_valid.
Qed.

Lemma double_op_ok kind l r : valid_double l -> valid_double r -> fast_value_ok (DoDoubleDoubleArithOp kind l r).
Proof.
  intros Hl Hr. destruct kind; simpl; try exact I; auto with dsom.
  destruct (double_mod l r) eqn:Hm; simpl; [split; [by eapply double_mod_valid|done]|done].
Qed.

Lemma integer_arith_ok kind l rhs : fits_int32 l = true -> value_ok rhs -> fast_value_ok (DoIntegerArithOp kind l rhs).
Proof.
  intros Hl Hr. destruct rhs; simpl; [by destruct kind|by destruct kind|by apply integer_op_ok|by apply integer_double_op_ok|by destruct kind..].
Qed.

Lemma double_arith_ok kind l rhs : valid_double l -> value_ok rhs -> fast_value_ok (DoDoubleArithOp kind l rhs).
Proof.
  intros Hl Hr. destruct rhs; simpl; try done; [apply double_op_ok; [done|apply double_of_int_valid]|by apply double_op_ok].
Qed.

Lemma string_fast_path_bool lhs rhs l h v h' :
  StringEqualFastPath lhs rhs l h = Ok (Returned v, h') -> exists b, v = VBool b.
Proof.
  unfold StringEqualFastPath. case_bool_decide; [intros [= <- _]; by eexists|]. unfold mbind, M_bind.
  destruct (string_of rhs h) as [[[r|] h1]|]; [|intros [= <- _]; by eexists|done].
  case_match; intros [= <- _]; by eexists.
Qed.

Lemma arith_returns_scalar kind lhs rhs h v h' :
  value_ok lhs -> value_ok rhs ->
  ArithBinOpImpl kind lhs rhs h = Ok (Returned v, h') -> value_ok v /\ IsHeapEntity v = false.
Proof.
  intros Hl Hr Ha. assert (Hpure : forall r, fast_value_ok r -> lift_result r h = Ok (Returned v, h') -> value_ok v /\ IsHeapEntity v = false).
  { intros [r|] Hok; [|done]. by intros [= -> _]. }
  destruct lhs as [|b|z|d|r|r]; simpl in Hl.
  - by destruct kind.
  - by destruct kind.
  - destruct kind; try discriminate Ha; (eapply Hpure; [|exact Ha]; by apply integer_arith_ok).
  - destruct kind; try discriminate Ha; (eapply Hpure; [|exact Ha]; by apply double_arith_ok).
  - destruct (decide (kind = Equal)) as [->|Hn]; [|by destruct kind]. simpl in Ha. unfold mbind, M_bind in Ha.
    destruct (deref r h) as [[[c fs|es|cls s] h1]|]; try discriminate Ha.
    apply string_fast_path_bool in Ha as [b ->]. done.
  - by destruct kind.
Qed.

(** Arithmetic never leaves the representation.  Whatever value a fast path
    returns for operands that fit their representation fits it again: an integer
    is a 32-bit integer and a double is a binary64 value, so that boxing it fails
    no assertion and gives a word of the value's own kind. *)
Theorem arith_result_fits kind lhs rhs h v h' :
  value_ok lhs -> value_ok rhs ->
  ArithBinOpImpl kind lhs rhs h = Ok (Returned v, h') ->
  value_ok v /\ forall obj fn, exists w, encode obj fn v = Ok w /\ has_kind (kind_of v) w.
Proof.
  intros Hl Hr Ha. destruct (arith_returns_scalar kind lhs rhs h v h' Hl Hr Ha) as [Hv Hs]. split; [done|].
  intros obj fn. apply (encode_scalar obj fn v); [by destruct v|done].
Qed.

Lemma arith_result_fits_witness :
  value_ok (VInt int32_min) /\ forall obj fn, exists w, encode obj fn (VInt int32_min) = Ok w /\ has_kind KInt32 w.
Proof. apply (arith_result_fits Plus (VInt (int32_min + 1)) (VInt (-1)) [] (VInt int32_min) []); reflexivity. Defined.

(** ** Division and remainders *)
Definition div_overflows (l r : Z) : bool := (l =? int32_min) && (r =? -1).

Lemma quot_fits l r :
  fits_int32 l = true -> fits_int32 r = true -> r <> 0 -> fits_int32 (Z.quot l r) = negb (div_overflows l r).
Proof.
  rewrite !fits_int32_range. intros Hl Hr Hr0. unfold div_overflows, int32_min.
  pose proof (Z.quot_rem l r Hr0) as Hqr. pose proof (Z.rem_bound_abs l r Hr0) as Hb.
  destruct (decide (r = -1)) as [->|Hn].
  - rewrite <-(Z.quot_unique_exact l (-1) (- l)) by lia. rewrite andb_true_r.
    destruct (l =? - 2 ^ 31) eqn:He; simpl.
    + apply Z.eqb_eq in He as ->. done.
    + apply Z.eqb_neq in He. apply fits_int32_range. lia.
  - rewrite (proj2 (Z.eqb_neq r (-1))), andb_false_r by done. apply fits_int32_range.
    assert (Habs : Z.abs (Z.quot l r) * Z.abs r <= Z.abs l).
    { rewrite <-Z.abs_mul. pose proof (Z.mul_quot_le (Z.abs l) (Z.abs r) ltac:(lia) ltac:(lia)) as Hm.
      rewrite Z.abs_mul, <-Z.quot_abs by done. lia. }
    destruct (decide (r = 1)) as [->|]; [rewrite Z.quot_1_r; lia|]. nia.
Qed.

Lemma c_div_eq l r :
  fits_int32 l = true -> fits_int32 r = true -> r <> 0 ->
  c_div l r = if div_overflows l r then Err overflow else Ok (Z.quot l r).
Proof.
  intros Hl Hr Hr0. unfold c_div, int32_value. rewrite (proj2 (Z.eqb_neq r 0)), quot_fits by done.
  by destruct (div_overflows l r).
Qed.

(** Floored remainder from the truncated one. *)
Lemma rem_to_mod l r :
  r <> 0 ->
  l `mod` r = if negb (Z.rem l r =? 0) && negb (Bool.eqb (Z.rem l r <? 0) (r <? 0)) then Z.rem l r + r else Z.rem l r.
Proof.
  intros Hr. pose proof (Z.quot_rem l r Hr) as Hqr. pose proof (Z.rem_bound_abs l r Hr) as Hb.
  set (m := Z.rem l r) in *. set (q := Z.quot l r) in *. clearbody m q.
  destruct (m =? 0) eqn:Hm; simpl.
  - apply Z.eqb_eq in Hm as ->. symmetry. apply (Z.mod_unique _ _ q); lia.
  - apply Z.eqb_neq in Hm. destruct (m <? 0) eqn:Hm0, (r <? 0) eqn:Hr0; simpl;
      rewrite ?Z.ltb_lt, ?Z.ltb_ge in *; symmetry.
    + apply (Z.mod_unique _ _ q); lia.
    + apply (Z.mod_unique _ _ (q - 1)); lia.
    + apply (Z.mod_unique _ _ (q - 1)); lia.
    + apply (Z.mod_unique _ _ q); lia.
Qed.

Lemma percent_is_mod l r :
  fits_int32 l = true -> fits_int32 r = true -> r <> 0 -> div_overflows l r = false ->
  DoSOMIntegerPercent l r = Ok (l `mod` r).
Proof.
  intros Hl Hr Hr0 Ho. unfold DoSOMIntegerPercent, c_mod. rewrite (proj2 (Z.eqb_neq r 0)), quot_fits, Ho by done. simpl.
  rewrite (rem_to_mod l r Hr0). case_match; [|done]. unfold int32_value.
  rewrite (proj2 (fits_int32_range _)); [done|]. apply fits_int32_range in Hr.
  pose proof (Z.rem_bound_abs l r Hr0). match goal with H : _ && _ = true |- _ => apply andb_prop in H as [_ Hs] end.
  apply negb_true_iff, eqb_false_iff in Hs. destruct (Z.rem l r <? 0) eqn:Hm, (r <? 0) eqn:Hr1; try done;
    rewrite ?Z.ltb_lt, ?Z.ltb_ge in *; lia.
Qed.

(** C30: integer division.  For a divisor other than zero, and but for the one
    quotient that does not fit, [/] truncates, [%] is the remainder with the sign
    of the divisor, [rem:] the one with the sign of the dividend, and the
    quotient and [rem:] recompose the dividend; for a zero divisor and for the
    least integer divided by minus one all three are undefined. *)
Theorem integer_division_laws l r :
  fits_int32 l = true -> fits_int32 r = true ->
  let slash := DoIntegerIntegerArithOp Slash l r in
  let percent := DoIntegerIntegerArithOp Percent l r in
  let rem := integer_rem (VInt l) (VInt r) in
  if (r =? 0) || div_overflows l r then
    exists w, slash = Err (UndefinedBehaviour w) /\ percent = Err (UndefinedBehaviour w) /\ rem = Err (UndefinedBehaviour w)
  else
    exists q m, slash = Ok (Returned (VInt q)) /\ rem = Ok (VInt m) /\ percent = Ok (Returned (VInt (l `mod` r))) /\
      l = q * r + m /\ Z.abs m < Z.abs r /\ (m = 0 \/ Z.sgn m = Z.sgn l) /\
      (l `mod` r = 0 \/ Z.sgn (l `mod` r) = Z.sgn r).
Proof.
  intros Hl Hr. simpl. destruct (r =? 0) eqn:Hr0; simpl.
  - apply Z.eqb_eq in Hr0 as ->. by eexists.
  - apply Z.eqb_neq in Hr0. unfold integer_rem, integer_prim. simpl. rewrite c_div_eq by done.
    destruct (div_overflows l r) eqn:Ho.
    + unfold DoSOMIntegerPercent, c_mod. rewrite (proj2 (Z.eqb_neq r 0)), quot_fits, Ho by done. by eexists.
    + pose proof (Z.quot_rem l r Hr0) as Hqr. pose proof (Z.rem_bound_abs l r Hr0) as Hb. cbn [mbind result_bind].
      assert (Hsgn : Z.rem l r = 0 \/ Z.sgn (Z.rem l r) = Z.sgn l).
      { destruct (decide (Z.rem l r = 0)); [by left|right]. by apply Z.rem_sign_nz. }
      assert (Hqf : fits_int32 (Z.quot l r * r) = true) by (rewrite fits_int32_range in *; lia).
      assert (Hrf : fits_int32 (Z.rem l r) = true) by (rewrite fits_int32_range in *; lia).
      exists (Z.quot l r), (Z.rem l r). rewrite percent_is_mod by done. unfold int32_result, int32_value.
      rewrite Hqf. cbn [mbind result_bind]. replace (l - Z.quot l r * r) with (Z.rem l r) by lia. rewrite Hrf.
      split_and!; try done; [lia|]. destruct (decide (l `mod` r = 0)); [by left|right]. by apply Z.mod_sign_nz.
Qed.

Lemma integer_division_laws_witness :
  exists q m, DoIntegerIntegerArithOp Slash (-7) 2 = Ok (Returned (VInt q)) /\ integer_rem (VInt (-7)) (VInt 2) = Ok (VInt m) /\
    DoIntegerIntegerArithOp Percent (-7) 2 = Ok (Returned (VInt ((-7) `mod` 2))) /\ -7 = q * 2 + m /\ Z.abs m < Z.abs 2 /\
    (m = 0 \/ Z.sgn m = Z.sgn (-7)) /\ ((-7) `mod` 2 = 0 \/ Z.sgn ((-7) `mod` 2) = Z.sgn 2).
Proof. apply (integer_division_laws (-7) 2); reflexivity. Defined.

(** [>>>] is documented as the unsigned shift, but a negative number stays
    negative: the shift is the arithmetic one. *)
Lemma unsignedrightshift_keeps_sign l r :
  l < 0 -> 0 <= r < 32 ->
  integer_unsignedrightshift (VInt l) (VInt r) = Ok (VInt (l / 2 ^ r)) /\ l / 2 ^ r < 0.
Proof.
  intros Hl Hr. unfold integer_unsignedrightshift, integer_only, c_shr. simpl.
  rewrite (proj2 (Z.leb_le 0 r)), (proj2 (Z.ltb_lt r 32)) by lia. simpl.
  rewrite Z.shiftr_div_pow2 by lia. split; [done|]. apply Z.div_lt_upper_bound; [apply Z.pow_pos_nonneg; lia|lia].
Qed.
