(* ===== verification/Loops.v ===== *)
(** * Branches and counting loops

    The conditional branches and the two bytecodes of inlined [to:do:] and
    [downTo:do:] loops ([annotated/bytecodes/som_branch.cpp]), the loop the
    compiler builds of them ([Compiler.inline_to_do]), and the primitive behind
    [to:] ([integer_range]). *)
From S2P Require Import Prelude CNumbers TValue Doubles Values Primitives Arith.

#[local] Open Scope Z_scope.

(** ** Conditional branches *)

(** Whether the branch is taken, and the value stored first if one is. *)
Definition BranchIfTrueOrFalseImpl (ifTrue : bool) (cond : Value) : bool :=
  if ifTrue then bool_decide (cond = VBool true) else bool_decide (cond = VBool false).
Definition CopyAndBranchIfTrueOrFalseImpl (ifTrue : bool) (cond : Value) : Value * bool :=
  (cond, BranchIfTrueOrFalseImpl ifTrue cond).
Definition StoreNilAndBranchIfTrueOrFalseImpl (ifTrue : bool) (cond : Value) : Value * bool :=
  (VNil, BranchIfTrueOrFalseImpl ifTrue cond).
Definition BranchIfNilOrNotNilImpl (ifNot : bool) (cond : Value) : bool :=
  let shouldBranch := bool_decide (cond = VNil) in if ifNot then negb shouldBranch else shouldBranch.
Definition CopyAndBranchIfNilOrNotNilImpl (ifNot : bool) (cond : Value) : Value * bool :=
  (cond, BranchIfNilOrNotNilImpl ifNot cond).

(** ** Counting loops *)

(** The slots of a stack frame. *)
Notation Frame := (list Value).
Notation F := (M Frame).

Definition slot (i : nat) : F Value := fun fr =>
  match fr !! i with Some v => Ok (v, fr) | None => Err (UndefinedBehaviour "slot outside the frame") end.
Definition set_slot (i : nat) (v : Value) : F unit := fun fr =>
  match fr !! i with Some _ => Ok (tt, <[i := v]> fr) | None => Err (UndefinedBehaviour "slot outside the frame") end.

(** [passed] of both bytecodes. *)
Definition int_passed (forDownto : bool) (x limit : Z) : bool := if forDownto then x >=? limit else x <=? limit.
Definition double_passed (forDownto : bool) (x limit : double) : bool := if forDownto then d_ge x limit else d_le x limit.

(** The value stored, and whether the loop is skipped. *)
Definition CheckForLoopStartCondImpl (forDownto : bool) (val limit : Value) : result (Value * bool) :=
  passed ← match val with
           | VInt v => l ← AsInt limit; Ok (int_passed forDownto v l)
           | _ => l ← AsDbl limit; v ← AsDbl val; Ok (double_passed forDownto v l)
           end;
  Ok (val, negb passed).

(** Whether the loop is repeated. *)
Definition ForLoopStepImpl (forDownto : bool) (base : nat) : F bool :=
  val ← slot base;
  limit ← slot (base + 1);
  match val with
  | VInt v =>
      lift_result (AsInt limit) ;;
      next ← lift_result (if forDownto then int32_value (v - 1) else int32_value (v + 1));
      set_slot base (VInt next) ;;
      set_slot (base + 2) (VInt next) ;;
      l ← lift_result (AsInt limit);
      mret (int_passed forDownto next l)
  | _ =>
      l ← lift_result (AsDbl limit);
      v ← lift_result (AsDbl val);
      let next := if forDownto then d_sub v d_one else d_add v d_one in
      set_slot base (VDouble next) ;;
      set_slot (base + 2) (VDouble next) ;;
      mret (double_passed forDownto next l)
  end.

(** The loop of [inline_to_do]: the check stores the loop variable in the third
    slot and skips the body; after the body, the step branches back to it.  The
    values of the loop variable are collected.  [fuel] bounds the iterations. *)
Section loop.
Context (forDownto : bool) (base : nat) (body : F unit).

Fixpoint loop_from (fuel : nat) : F (list Value) :=
  match fuel with
  | O => fail OutOfFuel
  | S fuel' =>
      v ← slot (base + 2);
      body ;;
      again ← ForLoopStepImpl forDownto base;
      if again : bool then vs ← loop_from fuel'; mret (v :: vs) else mret [v]
  end.

Definition for_loop (fuel : nat) : F (list Value) :=
  val ← slot base;
  limit ← slot (base + 1);
  '(out, skip) ← lift_result (CheckForLoopStartCondImpl forDownto val limit);
  set_slot (base + 2) out ;;
  if skip : bool then mret [] else loop_from fuel.
End loop.

(** ** [to:] *)
Definition array_store (r : nat) (i : Z) (v : Value) : HM unit :=
  o ← deref r;
  match o with
  | OArray es =>
      if (1 <=? i) && (i <=? Z.of_nat (length es)) then write r (OArray (<[Z.to_nat (i - 1) := v]> es))
      else fail (UndefinedBehaviour "write outside an array")
  | _ => fail (UndefinedBehaviour "write outside an array")
  end.

Fixpoint range_loop (fuel : nat) (r : nat) (start end_ curv : Z) : HM unit :=
  match fuel with
  | O => fail OutOfFuel
  | S fuel' =>
      if curv <=? end_ then
        i ← lift_result (d ← int32_value (curv - start); int32_value (d + 1));
        array_store r i (VInt curv) ;;
        next ← lift_result (int32_value (curv + 1));
        range_loop fuel' r start end_ next
      else mret tt
  end.

(** [(end >= start) ? static_cast<size_t>(end - start + 1) : 0] *)
Definition range_length (start end_ : Z) : result Z :=
  if end_ >=? start then d ← int32_value (end_ - start); int32_value (d + 1) else Ok 0.
Arguments range_length : simpl never.

Definition integer_range (lhs rhs : Value) : HM Value :=
  start ← lift_result (AsInt lhs);
  end_ ← lift_result (AsInt rhs);
  len ← lift_result (range_length start end_);
  r ← AllocateArray (Z.to_nat len);
  range_loop (Z.to_nat (end_ - start) + 2) r start end_ start ;;
  mret (VObject r).

Example loop_examples :
  for_loop false 0 (mret tt) 9 [VInt 1; VInt 3; VNil] = Ok ([VInt 1; VInt 2; VInt 3], [VInt 4; VInt 3; VInt 4]) /\
  for_loop true 0 (mret tt) 9 [VInt 1; VInt 3; VNil] = Ok ([], [VInt 1; VInt 3; VInt 1]) /\
  integer_range (VInt 3) (VInt 5) [] = Ok (VObject 0, [OArray [VInt 3; VInt 4; VInt 5]]) /\
  integer_range (VInt 3) (VInt 2) [] = Ok (VObject 0, [OArray []]).
Proof. vm_compute. repeat split. Qed.

(** ** What a counting loop does *)
Definition step (forDownto : bool) : Z := if forDownto then -1 else 1.

(** [n] values from [v] on. *)
Definition visits (s v : Z) (n : nat) : list Z := (fun i => v + s * Z.of_nat i) <$> seq 0 n.

Lemma visits_S s v n : visits s v (S n) = v :: visits s (v + s) n.
Proof.
  unfold visits. rewrite <-cons_seq, fmap_cons, <-fmap_S_seq, <-list_fmap_compose. f_equal; [lia|].
  apply list_fmap_ext. intros i x _. simpl. lia.
Qed.

(** How often a loop from [v] to [limit] runs. *)
Definition trips (s v limit : Z) : nat := Z.to_nat (s * (limit - v) + 1).

Lemma slot_ok i v fr : fr !! i = Some v -> slot i fr = Ok (v, fr).
Proof. unfold slot. by intros ->. Qed.
Lemma set_slot_ok i v fr : (i < length fr)%nat -> set_slot i v fr = Ok (tt, <[i := v]> fr).
Proof. unfold set_slot. intros [x Hx]%lookup_lt_is_Some_2. by rewrite Hx. Qed.

(** One step on integers: the counter and the loop variable advance together. *)
Lemma ForLoopStep_int d base v limit fr :
  fr !! base = Some (VInt v) -> fr !! (base + 1)%nat = Some (VInt limit) -> (base + 2 < length fr)%nat ->
  ForLoopStepImpl d base fr =
    (if fits_int32 (v + step d)
     then Ok (int_passed d (v + step d) limit, <[(base + 2)%nat := VInt (v + step d)]> (<[base := VInt (v + step d)]> fr))
     else Err overflow).
Proof.
  intros Hv Hl Hlen. unfold ForLoopStepImpl, mbind, M_bind. rewrite (slot_ok _ _ _ Hv), (slot_ok _ _ _ Hl).
  assert (Hn : (if d then int32_value (v - 1) else int32_value (v + 1)) = int32_value (v + step d))
    by (destruct d; simpl; [f_equal; lia|done]).
  cbn -[set_slot int32_value]. rewrite Hn. unfold int32_value. destruct (fits_int32 (v + step d)); [|done]. simpl.
  rewrite set_slot_ok by (eapply lookup_lt_Some; done).
  rewrite set_slot_ok by (rewrite length_insert; done). done.
Qed.

Section counting.
Context (d : bool) (base : nat) (body : F unit).
(** The body runs, and leaves the counter and the limit alone. *)
Context (Hbody : forall fr, (base + 2 < length fr)%nat -> exists fr', body fr = Ok (tt, fr') /\ length fr' = length fr /\
  fr' !! base = fr !! base /\ fr' !! (base + 1)%nat = fr !! (base + 1)%nat).

Lemma loop_from_spec fuel v limit fr :
  fr !! base = Some (VInt v) -> fr !! (base + 1)%nat = Some (VInt limit) -> fr !! (base + 2)%nat = Some (VInt v) ->
  fits_int32 v = true -> fits_int32 limit = true -> int_passed d v limit = true -> (trips (step d) v limit <= fuel)%nat ->
  if fits_int32 (limit + step d)
  then exists fr', loop_from d base body fuel fr = Ok (VInt <$> visits (step d) v (trips (step d) v limit), fr')
  else loop_from d base body fuel fr = Err overflow.
Proof.
  revert v fr. induction fuel as [|fuel IH]; intros v fr Hv Hl Hx Hf Hfl Hp Hfuel.
  { exfalso. unfold trips in Hfuel. destruct d; simpl in *; rewrite ?Z.geb_le, ?Z.leb_le in Hp; lia. }
  pose proof (lookup_lt_Some _ _ _ Hx) as Hlen. destruct (Hbody fr Hlen) as (fr1 & Hb & Hlen1 & H0 & H1).
  assert (Htrips : trips (step d) v limit = S (Z.to_nat (step d * (limit - v)))).
  { unfold trips. destruct d; simpl in *; rewrite ?Z.geb_le, ?Z.leb_le in Hp; lia. }
  rewrite Htrips in *. simpl loop_from. unfold mbind, M_bind. rewrite (slot_ok _ _ _ Hx), Hb.
  rewrite (ForLoopStep_int d base v limit) by (rewrite ?H0, ?H1, ?Hlen1; done).
  destruct (fits_int32 (v + step d)) eqn:Hfv; cbn beta iota.
  - destruct (int_passed d (v + step d) limit) eqn:Hp'.
    + assert (Hb0 : (base < length fr1)%nat) by (rewrite Hlen1; lia).
      assert (Ht' : trips (step d) (v + step d) limit = Z.to_nat (step d * (limit - v))).
      { unfold trips. destruct d; simpl in *; lia. }
      specialize (IH (v + step d) (<[(base + 2)%nat := VInt (v + step d)]> (<[base := VInt (v + step d)]> fr1))).
      rewrite Ht' in IH. destruct (fits_int32 (limit + step d)).
      * destruct IH as [fr' ->]; [| | |done|done|done|lia|].
        -- rewrite list_lookup_insert_ne, list_lookup_insert_eq by lia. done.
        -- rewrite !list_lookup_insert_ne by lia. by rewrite H1.
        -- rewrite list_lookup_insert_eq by (rewrite length_insert; lia). done.
        -- exists fr'. by rewrite visits_S.
      * rewrite IH; [done| | | |done|done|done|lia].
        -- rewrite list_lookup_insert_ne, list_lookup_insert_eq by lia. done.
        -- rewrite !list_lookup_insert_ne by lia. by rewrite H1.
        -- rewrite list_lookup_insert_eq by (rewrite length_insert; lia). done.
    + assert (Heq : v = limit) by (destruct d; simpl in *; rewrite ?Z.geb_le, ?Z.leb_le, ?Z.leb_gt, ?Z.geb_leb in *; rewrite ?Z.leb_gt in *; lia).
      subst limit. rewrite Hfv. rewrite Z.sub_diag, Z.mul_0_r. rewrite visits_S. by eexists.
  - assert (Heq : v = limit).
    { rewrite !fits_int32_range in *. apply not_true_iff_false in Hfv. rewrite fits_int32_range in Hfv.
      destruct d; simpl in *; rewrite ?Z.geb_le, ?Z.leb_le in *; lia. }
    subst limit. by rewrite Hfv.
Qed.
End counting.

(** The loop from its check on. *)
Lemma for_loop_int d base body fuel a b fr :
  fr !! base = Some (VInt a) -> fr !! (base + 1)%nat = Some (VInt b) -> (base + 2 < length fr)%nat ->
  for_loop d base body fuel fr =
    (if int_passed d a b then loop_from d base body fuel (<[(base + 2)%nat := VInt a]> fr)
     else Ok ([], <[(base + 2)%nat := VInt a]> fr)).
Proof.
  intros Ha Hb Hlen. unfold for_loop, mbind, M_bind. rewrite (slot_ok _ _ _ Ha), (slot_ok _ _ _ Hb). simpl.
  rewrite set_slot_ok by done. by destruct (int_passed d a b).
Qed.

Lemma trips_0 d a b : int_passed d a b = false -> trips (step d) a b = 0%nat.
Proof. unfold trips. destruct d; simpl; rewrite ?Z.geb_leb, ?Z.leb_gt; lia. Qed.

Definition keeps_counter (base : nat) (body : F unit) : Prop :=
  forall fr, (base + 2 < length fr)%nat -> exists fr', body fr = Ok (tt, fr') /\ length fr' = length fr /\
    fr' !! base = fr !! base /\ fr' !! (base + 1)%nat = fr !! (base + 1)%nat.

Lemma for_loop_spec d base body fuel a b fr :
  keeps_counter base body ->
  fr !! base = Some (VInt a) -> fr !! (base + 1)%nat = Some (VInt b) -> (base + 2 < length fr)%nat ->
  fits_int32 a = true -> fits_int32 b = true -> (trips (step d) a b <= fuel)%nat ->
  if fits_int32 (b + step d) || negb (int_passed d a b)
  then exists fr', for_loop d base body fuel fr = Ok (VInt <$> visits (step d) a (trips (step d) a b), fr')
  else for_loop d base body fuel fr = Err overflow.
Proof.
  intros Hbody Ha Hb Hlen Hfa Hfb Hfuel. rewrite (for_loop_int d base body fuel a b fr Ha Hb Hlen).
  destruct (int_passed d a b) eqn:Hp; rewrite ?orb_false_r, ?orb_true_r.
  - apply (loop_from_spec d base body Hbody fuel a b); [| | |done..].
    + by rewrite list_lookup_insert_ne by lia.
    + by rewrite list_lookup_insert_ne by lia.
    + by rewrite list_lookup_insert_eq.
  - rewrite (trips_0 d a b Hp). by eexists.
Qed.

(** C31: an inlined counting loop on integers runs its body for exactly the
    integers from the start to the limit, in order, and then ends, if the integer
    one past the limit is a 32-bit integer or the loop is skipped at the start;
    otherwise, for a limit at the end of the range, the last step overflows. *)
Theorem counting_loop_visits d base body fuel a b fr :
  keeps_counter base body ->
  fr !! base = Some (VInt a) -> fr !! (base + 1)%nat = Some (VInt b) -> (base + 2 < length fr)%nat ->
  fits_int32 a = true -> fits_int32 b = true -> (trips (step d) a b <= fuel)%nat ->
  if fits_int32 (b + step d) || negb (int_passed d a b)
  then exists fr', for_loop d base body fuel fr = Ok (VInt <$> visits (step d) a (trips (step d) a b), fr')
  else for_loop d base body fuel fr = Err overflow.
Proof. apply for_loop_spec. Qed.

Lemma noop_keeps base : keeps_counter base (mret tt).
Proof. intros fr _. by exists fr. Qed.

Lemma counting_loop_visits_witness :
  (exists fr', for_loop true 0 (mret tt) 3 [VInt 5; VInt 3; VNil] = Ok ([VInt 5; VInt 4; VInt 3], fr')) /\
  for_loop false 0 (mret tt) 1 [VInt int32_max; VInt int32_max; VNil] = Err overflow.
Proof.
  split.
  - apply (counting_loop_visits true 0 (mret tt) 3 5 3 [VInt 5; VInt 3; VNil]); try reflexivity; [apply noop_keeps|simpl; lia].
  - apply (counting_loop_visits false 0 (mret tt) 1 int32_max int32_max [VInt int32_max; VInt int32_max; VNil]);
      try reflexivity; [apply noop_keeps|simpl; lia].
Defined.

(** ** [to:] and [to:do:] *)
Lemma array_store_ok r i v h es :
  h !! r = Some (OArray es) -> 1 <= i <= Z.of_nat (length es) ->
  array_store r i v h = Ok (tt, <[r := OArray (<[Z.to_nat (i - 1) := v]> es)]> h).
Proof.
  intros Hr Hi. unfold array_store, mbind, M_bind, deref. rewrite Hr.
  rewrite (proj2 (Z.leb_le 1 i)), (proj2 (Z.leb_le i (Z.of_nat (length es)))) by lia. done.
Qed.

Lemma int32_value_ok z : - 2 ^ 31 <= z < 2 ^ 31 -> int32_value z = Ok z.
Proof. intros Hz. unfold int32_value. by rewrite (proj2 (fits_int32_range z)). Qed.

(** The elements written so far, and the rest. *)
Lemma range_loop_spec fuel r start end_ curv h pre rest :
  h !! r = Some (OArray (pre ++ rest)) -> length pre = Z.to_nat (curv - start) -> length rest = Z.to_nat (end_ - curv + 1) ->
  start <= curv -> fits_int32 start = true -> fits_int32 (end_ - start + 1) = true -> fits_int32 (end_ + 1) = true ->
  fits_int32 curv = true ->
  curv <= end_ + 1 -> (Z.to_nat (end_ - curv + 1) + 1 <= fuel)%nat ->
  range_loop fuel r start end_ curv h = Ok (tt, <[r := OArray (pre ++ (VInt <$> visits 1 curv (Z.to_nat (end_ - curv + 1))))]> h).
Proof.
  revert curv h pre rest. induction fuel as [|fuel IH]; intros curv h pre rest Hr Hpre Hrest Hs Hfs Hfl Hfe Hfc Hle Hfuel; [lia|].
  simpl range_loop. destruct (curv <=? end_) eqn:Hc.
  - apply Z.leb_le in Hc. rewrite !fits_int32_range in *. unfold mbind, M_bind.
    rewrite !int32_value_ok by lia. cbn [lift_result result_bind]. rewrite !int32_value_ok by lia. cbn [lift_result].
    rewrite (array_store_ok r _ _ h _ Hr) by (rewrite length_app; lia). simpl.
    destruct rest as [|x rest]; [simpl in Hrest; lia|]. simpl in Hrest.
    replace (Z.to_nat (curv - start + 1 - 1)) with (length pre + 0)%nat by lia. rewrite insert_app_r. simpl.
    rewrite (IH (curv + 1) _ (pre ++ [VInt curv]) rest).
    + rewrite list_insert_insert_eq. do 3 f_equal. rewrite <-app_assoc. simpl. do 2 f_equal.
      replace (Z.to_nat (end_ - curv + 1)) with (S (Z.to_nat (end_ - (curv + 1) + 1))) by lia. by rewrite visits_S.
    + rewrite list_lookup_insert_eq by (by eapply lookup_lt_Some). by rewrite <-app_assoc.
    + rewrite length_app. simpl. lia.
    + lia.
    + lia.
    + by apply fits_int32_range.
    + by apply fits_int32_range.
    + by apply fits_int32_range.
    + apply fits_int32_range. lia.
    + lia.
    + lia.
  - apply Z.leb_gt in Hc. replace (Z.to_nat (end_ - curv + 1)) with 0%nat in * by lia.
    destruct rest; [|done]. rewrite list_insert_id by done. done.
Qed.

Lemma integer_range_spec a b h :
  fits_int32 a = true -> fits_int32 (b + 1) = true -> fits_int32 b = true -> fits_int32 (b - a + 1) = true ->
  exists h', integer_range (VInt a) (VInt b) h = Ok (VObject (length h), h') /\
    h' !! length h = Some (OArray (VInt <$> visits 1 a (trips 1 a b))).
Proof.
  intros Ha Hb1 Hb Hl. unfold integer_range, mbind, M_bind. simpl. unfold trips. rewrite Z.mul_1_l.
  assert (Hlen : exists len, range_length a b = Ok len /\ Z.to_nat len = Z.to_nat (b - a + 1)).
  { unfold range_length. rewrite !fits_int32_range in *. destruct (Z.geb_spec b a); [|exists 0; split; [done|lia]].
    exists (b - a + 1). rewrite int32_value_ok by lia. simpl. by rewrite int32_value_ok by lia. }
  destruct Hlen as (len & -> & Hn). simpl. rewrite Hn.
  destruct (decide (a <= b + 1)) as [Hab|Hab].
  - rewrite (range_loop_spec _ (length h) a b a _ [] (replicate (Z.to_nat (b - a + 1)) VNil)); try done; try lia.
    + eexists. split; [done|]. by rewrite list_lookup_insert_eq by (rewrite length_app; simpl; lia).
    + by rewrite lookup_app_r, Nat.sub_diag by done.
    + simpl. lia.
    + by rewrite length_replicate.
  - replace (Z.to_nat (b - a + 1)) with 0%nat by lia. replace (Z.to_nat (b - a)) with 0%nat by lia. simpl.
    rewrite (proj2 (Z.leb_gt a b)) by lia. eexists. split; [done|]. by rewrite lookup_app_r, Nat.sub_diag by done.
Qed.

(** C32: [a to: b do:] enumerates the elements of [a to: b].  The values the loop
    variable takes are the elements of the array the primitive builds, provided
    the limit is not the greatest integer and the range has a length that fits. *)
Theorem to_do_enumerates_to base body fuel a b fr h :
  keeps_counter base body ->
  fr !! base = Some (VInt a) -> fr !! (base + 1)%nat = Some (VInt b) -> (base + 2 < length fr)%nat ->
  fits_int32 a = true -> fits_int32 b = true -> fits_int32 (b + 1) = true -> fits_int32 (b - a + 1) = true ->
  (trips 1 a b <= fuel)%nat ->
  exists vs fr' r h', for_loop false base body fuel fr = Ok (vs, fr') /\
    integer_range (VInt a) (VInt b) h = Ok (VObject r, h') /\ h' !! r = Some (OArray vs).
Proof.
  intros Hbody H0 H1 Hlen Ha Hb Hb1 Hl Hfuel.
  pose proof (for_loop_spec false base body fuel a b fr Hbody H0 H1 Hlen Ha Hb Hfuel) as Hf. simpl step in Hf.
  rewrite Hb1 in Hf. destruct Hf as [fr' Hf]. destruct (integer_range_spec a b h Ha Hb1 Hb Hl) as (h' & Hr & Harr).
  by exists (VInt <$> visits 1 a (trips 1 a b)), fr', (length h), h'.
Qed.

Lemma to_do_enumerates_to_witness :
  exists vs fr' r h', for_loop false 0 (mret tt) 3 [VInt (-1); VInt 1; VNil] = Ok (vs, fr') /\
    integer_range (VInt (-1)) (VInt 1) [] = Ok (VObject r, h') /\ h' !! r = Some (OArray vs).
Proof.
  apply (to_do_enumerates_to 0 (mret tt) 3 (-1) 1 [VInt (-1); VInt 1; VNil] []); try reflexivity;
    [apply noop_keeps|simpl; lia].
Defined.

(** ** Loops on doubles *)
Definition two53 : double := double_of_int (2 ^ 53).
Definition two53_2 : double := double_of_int (2 ^ 53 + 2).

Lemma stuck_step fr base :
  fr !! base = Some (VDouble two53) -> fr !! (base + 1)%nat = Some (VDouble two53_2) -> (base + 2 < length fr)%nat ->
  fr !! (base + 2)%nat = Some (VDouble two53) ->
  ForLoopStepImpl false base fr = Ok (true, fr).
Proof.
  intros H0 H1 Hlen H2. unfold ForLoopStepImpl, mbind, M_bind. rewrite (slot_ok _ _ _ H0), (slot_ok _ _ _ H1).
  cbn [lift_result AsInt AsDbl]. assert (d_add two53 d_one = two53) as -> by (vm_compute; reflexivity).
  rewrite set_slot_ok by (by eapply lookup_lt_Some). rewrite (list_insert_id fr base) by done.
  rewrite set_slot_ok by done. rewrite list_insert_id by done.
  assert (double_passed false two53 two53_2 = true) as -> by (vm_compute; reflexivity). done.
Qed.

(** A counting loop on doubles need not end: from [2^53] up to [2^53 + 2] the
    counter is stuck, since adding one to it rounds back to it, and the loop runs
    out of any amount of fuel. *)
Theorem double_loop_diverges fuel :
  for_loop false 0 (mret tt) fuel [VDouble two53; VDouble two53_2; VNil] = Err OutOfFuel.
Proof.
  set (fr := [VDouble two53; VDouble two53_2; VDouble two53]).
  assert (Hfrom : forall n, loop_from false 0 (mret tt) n fr = Err OutOfFuel).
  { induction n as [|n IH]; [done|]. simpl loop_from. unfold mbind, M_bind.
    rewrite (slot_ok 2 (VDouble two53) fr) by done. cbn [mret M_ret]. rewrite stuck_step by (try done; simpl; lia).
    by rewrite IH. }
  unfold for_loop, mbind, M_bind. rewrite (slot_ok 0 (VDouble two53)), (slot_ok 1 (VDouble two53_2)) by done.
  assert (CheckForLoopStartCondImpl false (VDouble two53) (VDouble two53_2) = Ok (VDouble two53, false)) as ->
    by (vm_compute; reflexivity).
  apply Hfrom.
Qed.
