(* ===== verification/Objects.v ===== *)
(** * Arrays, strings and fields

    The array and string primitives of [annotated/builtin_libs/som_primitives.cpp],
    the bytecodes that inline them ([at:], [at:put:], [charAt:], [length]; files
    [som_binary_operators.cpp], [som_ternary_operators.cpp] and
    [som_unary_operators.cpp] of [annotated/bytecodes]), the fields of plain
    objects ([som_field.cpp], [instVarAt:]), object creation and the deep copy of
    array literals ([runtime/som_utils.h]). *)
From S2P Require Import Prelude Lexer CNumbers TValue Values Primitives Arith.
From stdpp Require Import pretty.
From Stdlib Require Import Ascii.
From Stdlib Require String.

#[local] Open Scope Z_scope.

(** [int32_t] read from [m_data[0]], the length. *)
Definition length32 {A} (l : list A) : Z := to_int32 (Z.of_nat (length l)).

Definition out_of_bound (what : string) (idx size : Z) : error :=
  Aborted (what ++ " out of bound: index = " ++ pretty idx ++ ", size = " ++ pretty size).
Definition charat_out_of_bound (idx size : Z) : error :=
  Aborted ("String charAt out of bound: index = " ++ pretty idx ++ ", string length = " ++ pretty size).

(** [m_data[i]] of an array, [i] counted from one; what lies outside is undefined. *)
Definition data_at (es : list Value) (i : Z) : result Value :=
  if (1 <=? i) then
    match es !! Z.to_nat (i - 1) with Some v => Ok v | None => Err (UndefinedBehaviour "outside the array") end
  else Err (UndefinedBehaviour "outside the array").
Definition data_put (es : list Value) (i : Z) (v : Value) : result (list Value) :=
  if (1 <=? i) && (i <=? Z.of_nat (length es)) then Ok (<[Z.to_nat (i - 1) := v]> es)
  else Err (UndefinedBehaviour "outside the array").

(** ** Array primitives *)

(** [idx <= 0 || idx > static_cast<int64_t>(o->m_data[0].m_value)] *)
Definition prim_out_of_range (idx : Z) (len : nat) : bool := (idx <=? 0) || (Z.of_nat len <? idx).

Definition array_at (tv idxv : Value) : HM Value :=
  idx ← lift_result (AsInt idxv);
  es ← AsArray tv;
  if prim_out_of_range idx (length es) then fail (out_of_bound "Array access" idx (length32 es))
  else lift_result (data_at es idx).

Definition array_at_put (tv idxv valToPut : Value) : HM Value :=
  idx ← lift_result (AsInt idxv);
  es ← AsArray tv;
  if prim_out_of_range idx (length es) then fail (out_of_bound "Array write" idx (length32 es))
  else
    es' ← lift_result (data_put es idx valToPut);
    match tv with
    | VObject r => write r (OArray es') ;; mret tv
    | _ => fail bad_object
    end.

Definition array_length (tv : Value) : HM Value := es ← AsArray tv; mret (VInt (length32 es)).

Definition array_new (lenv : Value) : HM Value :=
  len ← lift_result (AsInt lenv);
  if len <? 0 then fail (Aborted ("Cannot create array of negative length " ++ pretty len ++ "."))
  else r ← AllocateArray (Z.to_nat len); mret (VObject r).

Definition array_copy (tv : Value) : HM Value := r ← ShallowCopyArray tv; mret (VObject r).

(** ** The inlined array operations *)

(** [static_cast<uint32_t>(idx) - 1 >= o->m_data[0].m_value], in 32 bits. *)
Definition fast_out_of_range (idx : Z) (len : nat) : bool := Z.of_nat len <=? (idx - 1) `mod` 2 ^ 32.

Definition array_of (v : Value) : HM (option (list Value)) :=
  match v with
  | VObject r => o ← deref r; mret (match o with OArray es => Some es | _ => None end)
  | _ => mret None
  end.

Definition AtColonImpl (lhs rhs : Value) : HM FastResult :=
  a ← array_of lhs;
  match a with
  | Some es =>
      idx ← lift_result (AsInt rhs);
      if fast_out_of_range idx (length es) then fail (out_of_bound "Array access" idx (length32 es))
      else v ← lift_result (data_at es idx); mret (Returned v)
  | None => mret SlowPath
  end.

Definition AtPutImpl (op arg1 arg2 : Value) : HM FastResult :=
  a ← array_of op;
  match a with
  | Some es =>
      idx ← lift_result (AsInt arg1);
      if fast_out_of_range idx (length es) then fail (out_of_bound "Array write" idx (length32 es))
      else
        es' ← lift_result (data_put es idx arg2);
        match op with
        | VObject r => write r (OArray es') ;; mret (Returned op)
        | _ => fail bad_object
        end
  | None => mret SlowPath
  end.

(** [length], of an array or a string. *)
Definition LengthImpl (op : Value) : HM FastResult :=
  match op with
  | VObject r =>
      o ← deref r;
      match o with
      | OArray es => mret (Returned (VInt (length32 es)))
      | OString _ s => mret (Returned (VInt (length32 (list_ascii_of_string s))))
      | OPlain _ _ => mret SlowPath
      end
  | _ => mret SlowPath
  end.

(** ** String primitives *)
Definition string_concatenate (lhs rhs : Value) : HM Value := r ← DoStringConcat lhs rhs; mret (VObject r).
Definition string_length (tv : Value) : HM Value :=
  s ← AsString tv; mret (VInt (length32 (list_ascii_of_string s))).

(** A [char] is signed. *)
Definition char_value (c : ascii) : Z := let n := Z.of_nat (code c) in if n <? 128 then n else n - 256.

(** [hash = ((hash << 5U) + hash) + static_cast<uint64_t>(str[i])] in 64 bits. *)
Definition hash_step (hash : Z) (c : ascii) : Z :=
  (Z.shiftl hash 5 `mod` 2 ^ 64 + hash + char_value c `mod` 2 ^ 64) `mod` 2 ^ 64.
Definition string_hashcode (tv : Value) : HM Value :=
  s ← AsString tv;
  mret (VInt (to_int32 (fold_left hash_step (list_ascii_of_string s) 5381))).

Definition substring (str : string) (pos count : nat) : string := String.substring pos count str.

(** The bounds are an assertion here, checked by the class library. *)
Definition string_primsubstring (tv startv endv : Value) : HM Value :=
  start ← lift_result (AsInt startv);
  end_ ← lift_result (AsInt endv);
  str ← AsString tv;
  check (1 <=? start) (AssertFailed "1 <= start") ;;
  end1 ← lift_result (int32_value (end_ + 1));
  check ((start <=? end1) && (end_ <=? Z.of_nat (String.length str))) (AssertFailed "start <= end + 1 && end <= str.length()") ;;
  r ← AllocateString (substring str (Z.to_nat (start - 1)) (Z.to_nat (end_ - start + 1)));
  mret (VObject r).

Definition string_charat (tv idxv : Value) : HM Value :=
  idx ← lift_result (AsInt idxv);
  str ← AsString tv;
  if prim_out_of_range idx (String.length str)
  then fail (charat_out_of_bound idx (to_int32 (Z.of_nat (String.length str))))
  else r ← AllocateString (substring str (Z.to_nat (idx - 1)) 1); mret (VObject r).

(** The loops over the characters of a non-empty string. *)
Fixpoint all_chars (p : ascii -> bool) (l : chars) : bool :=
  match l with [] => true | c :: l' => if negb (p c) then false else all_chars p l' end.
Definition string_predicate (p : ascii -> bool) (tv : Value) : HM Value :=
  s ← AsString tv;
  match list_ascii_of_string s with
  | [] => mret (VBool false)
  | l => mret (VBool (all_chars p l))
  end.
Definition string_iswhitespace : Value -> HM Value := string_predicate isspace.
Definition string_isletters : Value -> HM Value := string_predicate isalpha.
Definition string_isdigits : Value -> HM Value := string_predicate isdigit.

(** ** Fields and objects *)

(** [o->m_data[index]] of a plain object. *)
Definition fields_of (v : Value) : HM (nat * nat * list Value) :=
  match v with
  | VObject r =>
      o ← deref r;
      match o with OPlain c fs => mret (r, c, fs) | _ => fail (UndefinedBehaviour "fields of an array or string") end
  | _ => fail (AssertFailed "base.Is<tObject>()")
  end.
Definition GetFieldImpl (base : Value) (index : nat) : HM Value :=
  '(_, _, fs) ← fields_of base;
  match fs !! index with Some v => mret v | None => fail (UndefinedBehaviour "outside the object") end.
Definition PutFieldImpl (base : Value) (index : nat) (value : Value) : HM unit :=
  '(r, c, fs) ← fields_of base;
  match fs !! index with
  | Some _ => write r (OPlain c (<[index := value]> fs))
  | None => fail (UndefinedBehaviour "outside the object")
  end.

Definition field_index (i : Z) : HM nat :=
  if 0 <=? i then mret (Z.to_nat i) else fail (UndefinedBehaviour "outside the object").
Definition object_instvarat (tv idxv : Value) : HM Value :=
  idx ← lift_result (AsInt idxv);
  i ← lift_result (int32_value (idx - 1));
  n ← field_index i;
  GetFieldImpl tv n.
Definition object_instvaratput (tv idxv valToPut : Value) : HM Value :=
  idx ← lift_result (AsInt idxv);
  i ← lift_result (int32_value (idx - 1));
  n ← field_index i;
  PutFieldImpl tv n valToPut ;; mret tv.

(** [SOMClass::Instantiate] of a class with [m_numFields] fields. *)
Definition Instantiate (hiddenClass m_numFields : nat) : HM nat :=
  allocate (OPlain hiddenClass (replicate m_numFields VNil)).

(** ** The deep copy of an array literal

    [SOMArrayDup] copies a constant array so that writing to the copy leaves the
    constant alone.  [fuel] bounds the nesting. *)
Definition is_array (v : Value) : HM bool := a ← array_of v; mret (bool_decide (is_Some a)).

Section clone_loop.
Context (clone : Value -> HM Value).

(** The loop over the elements, read back from the copy. *)
Fixpoint clone_elements (r : nat) (i : Z) (n : nat) : HM unit :=
  match n with
  | O => mret tt
  | S n' =>
      es ← AsArray (VObject r);
      x ← lift_result (data_at es i);
      nested ← is_array x;
      (if nested : bool then
         y ← clone x;
         es' ← AsArray (VObject r);
         es'' ← lift_result (data_put es' i y);
         write r (OArray es'')
       else mret tt) ;;
      clone_elements r (i + 1) n'
  end.
End clone_loop.

Fixpoint DeepCloneConstantArray (fuel : nat) (tv : Value) : HM Value :=
  match fuel with
  | O => fail OutOfFuel
  | S fuel' =>
      es ← AsArray tv;
      r ← AllocateArray (length es);
      write r (OArray es) ;;
      clone_elements (DeepCloneConstantArray fuel') r 1 (length es) ;;
      mret (VObject r)
  end.

(** ** Reading and writing arrays *)
Lemma deref_ok r o h : h !! r = Some o -> deref r h = Ok (o, h).
Proof. unfold deref. by intros ->. Qed.

Lemma array_of_ok r es h : h !! r = Some (OArray es) -> array_of (VObject r) h = Ok (Some es, h).
Proof. intros Hr. simpl. unfold mbind, M_bind. by rewrite (deref_ok _ _ _ Hr). Qed.

(** The two range checks agree on every index, for an array whose length is a
    32-bit integer; for a longer one they do not. *)
Lemma range_checks_agree idx len :
  fits_int32 idx = true -> Z.of_nat len <= int32_max -> fast_out_of_range idx len = prim_out_of_range idx len.
Proof.
  intros Hi Hl. apply fits_int32_range in Hi. unfold int32_max in Hl. unfold fast_out_of_range, prim_out_of_range.
  destruct (decide (1 <= idx)) as [Hp|Hp].
  - rewrite Z.mod_small by lia. rewrite (proj2 (Z.leb_gt idx 0)) by lia. simpl.
    destruct (Z.leb_spec (Z.of_nat len) (idx - 1)), (Z.ltb_spec (Z.of_nat len) idx); lia || done.
  - rewrite (proj2 (Z.leb_le idx 0)) by lia. simpl. apply Z.leb_le.
    rewrite <-(Z.mod_add _ 1) by lia. rewrite Z.mod_small; lia.
Qed.

Lemma data_at_in es i : 1 <= i <= Z.of_nat (length es) -> exists v, es !! Z.to_nat (i - 1) = Some v /\ data_at es i = Ok v.
Proof.
  intros Hi. destruct (lookup_lt_is_Some_2 es (Z.to_nat (i - 1))) as [v Hv]; [lia|]. exists v. split; [done|].
  unfold data_at. by rewrite (proj2 (Z.leb_le 1 i)), Hv by lia.
Qed.

Lemma data_put_in es i v : 1 <= i <= Z.of_nat (length es) -> data_put es i v = Ok (<[Z.to_nat (i - 1) := v]> es).
Proof.
  intros Hi. unfold data_put. by rewrite (proj2 (Z.leb_le 1 i)), (proj2 (Z.leb_le i _)) by lia.
Qed.

Lemma prim_in_range idx len : prim_out_of_range idx len = false <-> 1 <= idx <= Z.of_nat len.
Proof. unfold prim_out_of_range. rewrite orb_false_iff, Z.leb_gt, Z.ltb_ge. lia. Qed.

(** Every array of the heap has a length that is a 32-bit integer, which is what
    [new:] and [to:] can create. *)
Definition arrays_fit (h : Heap) : Prop :=
  forall r es, h !! r = Some (OArray es) -> Z.of_nat (length es) <= int32_max.

Definition returned_value (r : result (FastResult * Heap)) : option (result (Value * Heap)) :=
  match r with
  | Ok (Returned v, h) => Some (Ok (v, h))
  | Ok (SlowPath, _) => None
  | Err e => Some (Err e)
  end.

(** The inlined [at:], [at:put:] and [length] are the array primitives.  On an
    array, with any 32-bit index, in or out of range, and any value to store, the
    bytecode returns, changes the heap and aborts, message included, exactly as
    the primitive method does. *)
Theorem array_bytecodes_are_primitives r es idx v h :
  arrays_fit h -> h !! r = Some (OArray es) -> fits_int32 idx = true ->
  returned_value (AtColonImpl (VObject r) (VInt idx) h) = Some (array_at (VObject r) (VInt idx) h) /\
  returned_value (AtPutImpl (VObject r) (VInt idx) v h) = Some (array_at_put (VObject r) (VInt idx) v h) /\
  returned_value (LengthImpl (VObject r) h) = Some (array_length (VObject r) h).
Proof.
  intros Hfit Hr Hi. unfold AtColonImpl, AtPutImpl, LengthImpl, array_at, array_at_put, array_length, mbind, M_bind.
  rewrite (array_of_ok _ _ _ Hr), (AsArray_ok _ _ _ Hr), (deref_ok _ _ _ Hr). cbn [lift_result AsInt].
  rewrite (AsArray_ok _ _ _ Hr). rewrite (range_checks_agree _ _ Hi (Hfit _ _ Hr)).
  destruct (prim_out_of_range idx (length es)) eqn:Hp; [done|].
  apply prim_in_range in Hp. destruct (data_at_in es idx Hp) as (x & _ & Hx). rewrite Hx, data_put_in by done. done.
Qed.

Lemma array_bytecodes_are_primitives_witness :
  returned_value (AtColonImpl (VObject 0) (VInt (-1)) [OArray [VNil]]) = Some (array_at (VObject 0) (VInt (-1)) [OArray [VNil]]) /\
  returned_value (AtPutImpl (VObject 0) (VInt (-1)) VNil [OArray [VNil]]) =
    Some (array_at_put (VObject 0) (VInt (-1)) VNil [OArray [VNil]]) /\
  returned_value (LengthImpl (VObject 0) [OArray [VNil]]) = Some (array_length (VObject 0) [OArray [VNil]]).
Proof.
  apply (array_bytecodes_are_primitives 0 [VNil] (-1) VNil [OArray [VNil]]); [|reflexivity|reflexivity].
  intros [|r] es Hr; [|discriminate Hr]. injection Hr as <-. vm_compute. discriminate.
Defined.

(** Arrays are arrays.  Storing at an index between one and the length
    succeeds and returns the array; afterwards that index reads the stored value,
    every other index what it read before, and no other object has changed;
    outside that range both reading and writing abort and name the index and the
    size. *)
Theorem array_store_then_read r es idx v h :
  h !! r = Some (OArray es) -> fits_int32 idx = true ->
  if decide (1 <= idx <= Z.of_nat (length es)) then
    exists h', array_at_put (VObject r) (VInt idx) v h = Ok (VObject r, h') /\
      array_at (VObject r) (VInt idx) h' = Ok (v, h') /\
      (forall j x, j <> idx -> array_at (VObject r) (VInt j) h = Ok (x, h) -> array_at (VObject r) (VInt j) h' = Ok (x, h')) /\
      (forall r', r' <> r -> h' !! r' = h !! r')
  else
    array_at (VObject r) (VInt idx) h = Err (out_of_bound "Array access" idx (length32 es)) /\
    array_at_put (VObject r) (VInt idx) v h = Err (out_of_bound "Array write" idx (length32 es)).
Proof.
  intros Hr Hi. pose proof (lookup_lt_Some _ _ _ Hr) as Hlt.
  assert (Hat : forall es' h' j, h' !! r = Some (OArray es') -> array_at (VObject r) (VInt j) h' =
    if prim_out_of_range j (length es') then Err (out_of_bound "Array access" j (length32 es')) else
      match data_at es' j with Ok x => Ok (x, h') | Err e => Err e end).
  { intros es' h' j Hr'. unfold array_at, mbind, M_bind. cbn [lift_result AsInt]. rewrite (AsArray_ok _ _ _ Hr'). by case_match. }
  destruct (decide _) as [Hin|Hout].
  - exists (<[r := OArray (<[Z.to_nat (idx - 1) := v]> es)]> h).
    assert (Hr' : <[r := OArray (<[Z.to_nat (idx - 1) := v]> es)]> h !! r = Some (OArray (<[Z.to_nat (idx - 1) := v]> es)))
      by (by apply list_lookup_insert_eq).
    split_and!.
    + unfold array_at_put, mbind, M_bind. cbn [lift_result AsInt]. rewrite (AsArray_ok _ _ _ Hr).
      rewrite (proj2 (prim_in_range _ _) Hin), data_put_in by done. done.
    + rewrite (Hat _ _ _ Hr'), length_insert, (proj2 (prim_in_range _ _) Hin).
      unfold data_at. rewrite (proj2 (Z.leb_le 1 idx)), list_lookup_insert_eq by lia. done.
    + intros j x Hj. rewrite (Hat _ _ _ Hr), (Hat _ _ _ Hr'), length_insert.
      destruct (prim_out_of_range j (length es)) eqn:Hp; [done|]. apply prim_in_range in Hp.
      unfold data_at. rewrite (proj2 (Z.leb_le 1 j)), list_lookup_insert_ne by lia.
      destruct (es !! Z.to_nat (j - 1)); [|done]. by intros [= ->].
    + intros r' Hne. by rewrite list_lookup_insert_ne.
  - assert (Hp : prim_out_of_range idx (length es) = true) by (apply not_false_iff_true; by rewrite prim_in_range).
    split; [by rewrite (Hat _ _ _ Hr), Hp|]. unfold array_at_put, mbind, M_bind. cbn [lift_result AsInt].
    by rewrite (AsArray_ok _ _ _ Hr), Hp.
Qed.

Lemma array_store_then_read_witness :
  exists h', array_at_put (VObject 0) (VInt 2) VNil [OArray [VInt 1; VInt 2]] = Ok (VObject 0, h') /\
    array_at (VObject 0) (VInt 2) h' = Ok (VNil, h') /\
    (forall j x, j <> 2 -> array_at (VObject 0) (VInt j) [OArray [VInt 1; VInt 2]] = Ok (x, [OArray [VInt 1; VInt 2]]) ->
       array_at (VObject 0) (VInt j) h' = Ok (x, h')) /\
    (forall r', r' <> 0%nat -> h' !! r' = [OArray [VInt 1; VInt 2]] !! r').
Proof. apply (array_store_then_read 0 [VInt 1; VInt 2] 2 VNil [OArray [VInt 1; VInt 2]]); reflexivity. Defined.
