(* ===== verification/Cloning.v ===== *)
(** * Copies of array literals

    [DeepCloneConstantArray] ([Objects.v]) makes a copy that has the same shape
    and leaves, shares no array with the original, and leaves the original as it
    was.  The shape of a value is the tree of its nested arrays. *)
From S2P Require Import Prelude CNumbers TValue Values Arith Objects.

Inductive Tree : Type := Leaf (v : Value) | Node (ts : list Tree).

(** The array a value refers to, [None] when it is not one; a reference to no
    object has no answer. *)
Definition array_in (h : Heap) (v : Value) : option (option (list Value)) :=
  match v with
  | VObject r => o ← h !! r; Some (match o with OArray es => Some es | _ => None end)
  | _ => Some None
  end.

(** The nested arrays of a value, to depth [n]. *)
Fixpoint tree_of (n : nat) (h : Heap) (v : Value) : option Tree :=
  match n with
  | O => None
  | S n' =>
      a ← array_in h v;
      match a with
      | Some es => Node <$> mapM (tree_of n' h) es
      | None => Some (Leaf v)
      end
  end.

Definition ref_ge (base : nat) (v : Value) : Prop := match v with VObject r => base <= r | _ => True end.

(** Every array reachable from [v] was allocated at [base] or later. *)
Fixpoint fresh (n base : nat) (h : Heap) (v : Value) : Prop :=
  match n with
  | O => True
  | S n' =>
      match array_in h v with
      | Some (Some es) => ref_ge base v /\ Forall (fresh n' base h) es
      | _ => True
      end
  end.

(** Objects are kept. *)
Definition heap_le (h h' : Heap) : Prop := forall r o, h !! r = Some o -> h' !! r = Some o.

#[global] Instance heap_le_preorder : PreOrder heap_le.
Proof. split; [by intros h r o|]. intros h1 h2 h3 H12 H23 r o Ho. by apply H23, H12. Qed.

Lemma array_in_le h h' v a : heap_le h h' -> array_in h v = Some a -> array_in h' v = Some a.
Proof.
  intros Hle. destruct v as [| | | |r|]; simpl; try done. destruct (h !! r) as [o|] eqn:Hr; [|done].
  by rewrite (Hle _ _ Hr).
Qed.

Lemma tree_of_le n h h' v t : heap_le h h' -> tree_of n h v = Some t -> tree_of n h' v = Some t.
Proof.
  intros Hle. revert v t. induction n as [|n IH]; intros v t; simpl; [done|].
  destruct (array_in h v) as [a|] eqn:Ha; [|done]. rewrite (array_in_le _ _ _ _ Hle Ha). simpl.
  destruct a as [es|]; [|done]. intros (ts & Hts & ->)%fmap_Some. apply fmap_Some. exists ts. split; [|done].
  apply mapM_Some. apply mapM_Some in Hts. eapply Forall2_impl; [done|]. simpl. intros x t. apply IH.
Qed.

Lemma tree_of_array n h v t : tree_of n h v = Some t -> exists a, array_in h v = Some a.
Proof. destruct n; simpl; [done|]. destruct (array_in h v) as [a|]; [by exists a|done]. Qed.

Lemma Forall2_Forall_and {A B} (P : A -> B -> Prop) (Q : A -> Prop) l k :
  Forall2 P l k -> Forall Q l -> Forall2 (fun x y => P x y /\ Q x) l k.
Proof. induction 1 as [|x y l k Hx _ IH]; intros Hq; [constructor|]. inversion Hq; subst. constructor; auto. Qed.

Lemma Forall2_Forall_fst {A B} (Q : A -> Prop) l (k : list B) : Forall2 (fun x _ => Q x) l k -> Forall Q l.
Proof. induction 1; by constructor. Qed.

(** The trees and the freshness of a value and of its elements. *)
Definition good (n base : nat) (h : Heap) (v : Value) (t : Tree) : Prop := tree_of n h v = Some t /\ fresh n base h v.

Lemma good_node n base h v es t :
  array_in h v = Some (Some es) ->
  good (S n) base h v t <-> ref_ge base v /\ exists ts, t = Node ts /\ Forall2 (good n base h) es ts.
Proof.
  intros Ha. unfold good at 1. simpl. rewrite Ha. simpl. rewrite fmap_Some. split.
  - intros [(ts & Hts & ->) [Hb Hf]]. split; [done|]. exists ts. split; [done|]. apply mapM_Some in Hts.
    by apply Forall2_Forall_and.
  - intros [Hb (ts & -> & Hg)]. split.
    + exists ts. split; [|done]. apply mapM_Some. eapply Forall2_impl; [done|]. by intros x t [H _].
    + split; [done|]. apply (Forall2_Forall_fst _ es ts). eapply Forall2_impl; [done|]. by intros x t [_ H].
Qed.

Lemma good_leaf n base h v t : array_in h v = Some None -> good (S n) base h v t <-> t = Leaf v.
Proof. intros Ha. unfold good. simpl. rewrite Ha. simpl. naive_solver. Qed.

Lemma good_array n base h v t : good n base h v t -> exists a, array_in h v = Some a.
Proof. intros [H _]. by eapply tree_of_array. Qed.

Lemma good_le n base base' h h' v t : heap_le h h' -> base' <= base -> good n base h v t -> good n base' h' v t.
Proof.
  intros Hle Hb. revert v t. induction n as [|n IH]; intros v t Hg; [by destruct Hg|].
  destruct (good_array _ _ _ _ _ Hg) as [[es|] Ha]; pose proof (array_in_le _ _ _ _ Hle Ha) as Ha'.
  - rewrite (good_node _ _ _ _ _ _ Ha) in Hg. destruct Hg as [Hr (ts & -> & Hf)]. apply (good_node _ _ _ _ _ _ Ha').
    split; [destruct v; simpl in *; try done; lia|]. exists ts. split; [done|]. eapply Forall2_impl; [done|]. exact IH.
  - rewrite (good_leaf _ _ _ _ _ Ha) in Hg. by apply (good_leaf _ _ _ _ _ Ha').
Qed.

(** Rewriting an array below [base] is not seen from values fresh from [base]. *)
Lemma array_in_write h r es es' v :
  h !! r = Some (OArray es) -> v <> VObject r -> array_in (<[r := OArray es']> h) v = array_in h v.
Proof.
  intros Hr Hv. destruct v as [| | | |q|]; try done. simpl. rewrite list_lookup_insert_ne; [done|]. congruence.
Qed.

Lemma good_write n base h r es es' v t :
  h !! r = Some (OArray es) -> r < base -> good n base h v t -> good n base (<[r := OArray es']> h) v t.
Proof.
  intros Hr Hb. revert v t. induction n as [|n IH]; intros v t Hg; [by destruct Hg|].
  destruct (good_array _ _ _ _ _ Hg) as [[xs|] Ha].
  - rewrite (good_node _ _ _ _ _ _ Ha) in Hg. destruct Hg as [Hf (ts & -> & Hfs)].
    assert (Hv : v <> VObject r) by (intros ->; simpl in Hf; lia).
    apply (good_node _ _ _ _ xs); [by rewrite (array_in_write h r es)|]. split; [done|]. exists ts. split; [done|].
    eapply Forall2_impl; [done|]. exact IH.
  - rewrite (good_leaf _ _ _ _ _ Ha) in Hg. subst t.
    assert (Hv : v <> VObject r) by (intros ->; simpl in Ha; by rewrite Hr in Ha).
    apply good_leaf; [|done]. by rewrite (array_in_write h r es).
Qed.

(** ** The copy *)

(** What the recursive calls do. *)
Definition clones (n : nat) (clone : Value -> HM Value) : Prop :=
  forall v es t h, array_in h v = Some (Some es) -> tree_of n h v = Some t ->
    exists v' h', clone v h = Ok (v', h') /\ good n (length h) h' v' t /\ heap_le h h' /\ length h <= length h'.

Lemma is_array_eq v a h : array_in h v = Some a -> is_array v h = Ok (bool_decide (is_Some a), h).
Proof.
  unfold is_array, mbind, M_bind. destruct v as [| | | |r|]; simpl; try (by intros [= <-]).
  destruct (h !! r) as [o|] eqn:Hr; [|done]. unfold mbind, M_bind. rewrite (deref_ok _ _ _ Hr). by intros [= <-].
Qed.

Lemma data_at_mid (pre rest : list Value) x : data_at (pre ++ x :: rest) (Z.of_nat (length pre) + 1) = Ok x.
Proof.
  unfold data_at. rewrite (proj2 (Z.leb_le 1 _)) by lia.
  replace (Z.to_nat (Z.of_nat (length pre) + 1 - 1)) with (length pre) by lia. by rewrite list_lookup_middle.
Qed.

Lemma data_put_mid (pre rest : list Value) x y :
  data_put (pre ++ x :: rest) (Z.of_nat (length pre) + 1) y = Ok (pre ++ y :: rest).
Proof.
  rewrite data_put_in by (rewrite length_app; simpl; lia).
  replace (Z.to_nat (Z.of_nat (length pre) + 1 - 1)) with (length pre + 0) by lia. by rewrite insert_app_r.
Qed.

(** [pre] holds the copied elements, [rest] those still shared with the original. *)
Lemma clone_elements_spec n clone h0 r pre rest ts1 ts2 h1 :
  clones n clone -> r = length h0 -> heap_le h0 h1 ->
  h1 !! r = Some (OArray (pre ++ rest)) ->
  Forall2 (good n (S r) h1) pre ts1 -> Forall2 (fun v t => tree_of n h0 v = Some t) rest ts2 ->
  exists es h2, clone_elements clone r (Z.of_nat (length pre) + 1) (length rest) h1 = Ok (tt, h2) /\
    h2 !! r = Some (OArray es) /\ Forall2 (good n (S r) h2) es (ts1 ++ ts2) /\ heap_le h0 h2 /\ length h1 <= length h2.
Proof.
  intros Hclone Hr. revert pre ts1 ts2 h1. induction rest as [|x rest IH]; intros pre ts1 ts2 h1 Hle Hh Hpre Hrest.
  { inversion Hrest; subst. rewrite !app_nil_r in *. exists pre, h1. by split_and!. }
  inversion Hrest as [|? t ? ts2' Hx Hrest']; subst ts2. clear Hrest.
  pose proof (tree_of_le _ _ _ _ _ Hle Hx) as Hx1. destruct (tree_of_array _ _ _ _ Hx) as [a Ha].
  pose proof (array_in_le _ _ _ _ Hle Ha) as Ha1. pose proof (lookup_lt_Some _ _ _ Hh) as Hlt.
  simpl length. simpl clone_elements. unfold mbind, M_bind. rewrite (AsArray_ok _ _ _ Hh), data_at_mid. cbn [lift_result].
  rewrite (is_array_eq x a h1 Ha1).
  replace (Z.of_nat (length pre) + 1 + 1)%Z with (Z.of_nat (length (pre ++ [default x (Some x)])) + 1)%Z
    by (rewrite length_app; simpl; lia). simpl default.
  replace (ts1 ++ t :: ts2') with ((ts1 ++ [t]) ++ ts2') by (by rewrite <-app_assoc).
  destruct a as [es|]; simpl.
  - destruct (Hclone x es t h1 Ha1 Hx1) as (y & h2 & -> & Hy & Hle2 & Hlen). cbn beta iota.
    rewrite (AsArray_ok _ _ _ (Hle2 _ _ Hh)), data_put_mid. cbn [lift_result].
    assert (Hle3 : heap_le h0 (<[r := OArray (pre ++ y :: rest)]> h2)).
    { intros q o Hq. pose proof (lookup_lt_Some _ _ _ Hq). rewrite list_lookup_insert_ne by lia. by apply Hle2, Hle. }
    assert (Hg : forall v s, good n (S r) h2 v s -> good n (S r) (<[r := OArray (pre ++ y :: rest)]> h2) v s).
    { intros v s. apply (good_write _ _ _ _ (pre ++ x :: rest)); [by apply Hle2|lia]. }
    destruct (IH (pre ++ [y]) (ts1 ++ [t]) ts2' (<[r := OArray (pre ++ y :: rest)]> h2)) as (es' & h3 & He & ? & ? & ? & Hl3); [done| | |done|].
    + rewrite list_lookup_insert_eq by lia. by rewrite <-app_assoc.
    + apply Forall2_app.
      * eapply Forall2_impl; [done|]. intros v s Hv. apply Hg. by apply (good_le _ (S r) _ h1).
      * constructor; [|done]. apply Hg. apply (good_le _ (length h1) _ h2); [done|lia|done].
    + exists es', h3. rewrite length_insert in Hl3. split_and!; [|done..|lia].
      unfold write, modify. cbn beta iota. rewrite !length_app in *. exact He.
  - destruct (IH (pre ++ [x]) (ts1 ++ [t]) ts2' h1) as (es' & h3 & He & ? & ? & ? & Hl3); [done| | |done|].
    + by rewrite <-app_assoc.
    + apply Forall2_app; [done|]. constructor; [|done]. split; [done|]. destruct n; simpl; [done|]. by rewrite Ha1.
    + exists es', h3. by split_and!.
Qed.

Lemma DeepClone_clones n : clones n (DeepCloneConstantArray n).
Proof.
  induction n as [|n IH]; intros v es t h Ha Ht; [done|]. simpl in Ht. rewrite Ha in Ht. simpl in Ht.
  apply fmap_Some in Ht as (ts & Hts & ->). apply mapM_Some in Hts.
  destruct v as [| | | |q|]; try discriminate Ha. simpl in Ha. destruct (h !! q) as [[| es'|]|] eqn:Hq; try discriminate Ha.
  injection Ha as ->. simpl DeepCloneConstantArray. unfold mbind, M_bind. rewrite (AsArray_ok _ _ _ Hq).
  unfold AllocateArray, allocate, write, modify. cbn beta iota.
  set (h1 := <[length h := OArray es]> (h ++ [OArray (replicate (length es) VNil)])).
  assert (Hr1 : h1 !! length h = Some (OArray ([] ++ es))) by (apply list_lookup_insert_eq; rewrite length_app; simpl; lia).
  assert (Hle1 : heap_le h h1).
  { intros p o Hp. pose proof (lookup_lt_Some _ _ _ Hp). unfold h1. rewrite list_lookup_insert_ne by lia. by apply lookup_app_Some_l. }
  destruct (clone_elements_spec n (DeepCloneConstantArray n) h (length h) [] es [] ts h1 IH eq_refl Hle1 Hr1) as (es2 & h2 & He & Hr2 & Hg & Hle2 & Hlen);
    [constructor|done|].
  change (Z.of_nat (length (@nil Value)) + 1)%Z with 1%Z in He. rewrite He. exists (VObject (length h)), h2. split_and!; [done| |done|].
  - apply (good_node _ _ _ _ es2); [simpl; by rewrite Hr2|]. split; [simpl; lia|]. exists ts. split; [done|].
    eapply Forall2_impl; [done|]. intros x t Hx. apply (good_le _ (S (length h)) _ h2); [done|lia|done].
  - unfold h1 in Hlen. rewrite length_insert, length_app in Hlen. simpl in Hlen. lia.
Qed.

(** C33: copying an array literal gives an array of the same shape with the same
    leaves, built of arrays that are all new, and every object that existed before
    is as it was: so writing to the copy, at any depth, never changes the literal. *)
Theorem DeepCloneConstantArray_correct n v es t h :
  array_in h v = Some (Some es) -> tree_of n h v = Some t ->
  exists v' h', DeepCloneConstantArray n v h = Ok (v', h') /\ tree_of n h' v' = Some t /\
    fresh n (length h) h' v' /\ heap_le h h'.
Proof.
  intros Ha Ht. destruct (DeepClone_clones n v es t h Ha Ht) as (v' & h' & Hc & [Ht' Hf] & Hle & _).
  by exists v', h'.
Qed.

Definition sample_literal : Heap := [OArray [VInt 1; VObject 1]; OArray [VObject 2]; OString StringSymbol "a"].

Lemma DeepCloneConstantArray_correct_witness :
  exists v' h', DeepCloneConstantArray 3 (VObject 0) sample_literal = Ok (v', h') /\
    tree_of 3 h' v' = Some (Node [Leaf (VInt 1); Node [Leaf (VObject 2)]]) /\ fresh 3 3 h' v' /\ heap_le sample_literal h'.
Proof. apply (DeepCloneConstantArray_correct 3 (VObject 0) [VInt 1; VObject 1] _ sample_literal); reflexivity. Defined.
