(* ===== verification/Symbols.v ===== *)
(** * Symbols and shared strings

    [VM::GetInternedString] and [VM::GetInternedSymbol] ([runtime/vm.cpp]) keep one
    object per interned string, the primitives [asSymbol] and [asString] of
    symbols use them, and [charAt:] keeps one string per character
    ([annotated/bytecodes/som_binary_operators.cpp]). *)
From S2P Require Import Prelude Lexer Interner CNumbers TValue Values Arith Objects Cloning.
From Stdlib Require Import Ascii.
From Stdlib Require String.

(** ** Strings are kept

    No operation writes to a string or symbol; arrays and plain objects change. *)
Definition strings_le (h h' : Heap) : Prop := forall r cls str, h !! r = Some (OString cls str) -> h' !! r = Some (OString cls str).
#[export] Instance strings_le_preorder : PreOrder strings_le.
Proof. split; [by intros h r|]. intros h1 h2 h3 H1 H2 r cls str Hr. by apply H2, H1. Qed.
Lemma heap_strings_le h h' : heap_le h h' -> strings_le h h'.
Proof. intros H r cls str. apply H. Qed.

Definition keeps_strings {A} (m : HM A) : Prop := forall h, wp any_error m (fun _ h' => strings_le h h') h.
Create HintDb strings.
Lemma kst_bind {A B} (m : HM A) (f : A -> HM B) : keeps_strings m -> (forall a, keeps_strings (f a)) -> keeps_strings (m ≫= f).
Proof.
  intros Hm Hf h. apply wp_bind. eapply wp_mono; [apply Hm|]. intros a h1 H1. eapply wp_mono; [apply Hf|].
  intros b h2 H2. exact (transitivity H1 H2).
Qed.
Lemma kst_ret {A} (a : A) : keeps_strings (mret a).
Proof. intros h. apply wp_ret. reflexivity. Qed.
Lemma kst_fail {A} e : keeps_strings (fail e : HM A).
Proof. done. Qed.
Lemma kst_lift {A} (r : result A) : keeps_strings (lift_result r).
Proof. intros h. apply wp_lift_result. destruct r; [reflexivity|done]. Qed.
Lemma kst_check b e : keeps_strings (check b e).
Proof. intros h. apply wp_check; [intros _; reflexivity|done]. Qed.
Lemma kst_deref r : keeps_strings (deref r).
Proof. intros h. unfold wp, deref. destruct (h !! r); [reflexivity|done]. Qed.
Lemma kst_allocate o : keeps_strings (allocate o).
Proof. intros h r cls str. apply lookup_app_Some_l. Qed.
Lemma kst_AllocateString str : keeps_strings (AllocateString str).
Proof. apply kst_allocate. Qed.
Lemma strings_le_write h r o o' : h !! r = Some o -> (forall cls str, o <> OString cls str) -> strings_le h (<[r := o']> h).
Proof.
  intros Hr Ho q cls str Hq. rewrite list_lookup_insert_ne; [done|]. intros ->. rewrite Hr in Hq. injection Hq as ->. by eapply Ho.
Qed.
#[local] Hint Resolve kst_ret kst_fail kst_lift kst_check kst_deref kst_allocate kst_AllocateString : strings.
#[local] Ltac ks := repeat first [solve [auto with strings] | apply kst_bind; [|intros ?] | case_match].

Lemma AsArray_at v h : wp any_error (AsArray v) (fun es h' => h' = h /\ exists r, v = VObject r /\ h !! r = Some (OArray es)) h.
Proof.
  unfold AsArray. destruct v as [| | | |r|]; try done. apply wp_bind. unfold wp at 1, deref.
  destruct (h !! r) as [[|es|]|] eqn:E; try done. apply wp_ret. split; [done|]. by exists r.
Qed.
Lemma kst_AsArray v : keeps_strings (AsArray v).
Proof. intros h. eapply wp_mono; [apply AsArray_at|]. by intros es h' [-> _]. Qed.
Lemma kst_AsString v : keeps_strings (AsString v).
Proof. unfold AsString. ks. Qed.
Lemma kst_array_of v : keeps_strings (array_of v).
Proof. unfold array_of. ks. Qed.
#[local] Hint Resolve kst_AsArray kst_AsString kst_array_of : strings.

Lemma lift_same {A} (r : result A) (h : Heap) : wp any_error (lift_result r) (fun _ h' => h' = h) h.
Proof. apply wp_lift_result. by destruct r. Qed.

Lemma kst_array_at_put tv i v : keeps_strings (array_at_put tv i v).
Proof.
  unfold array_at_put. apply kst_bind; [apply kst_lift|]. intros idx h. apply wp_bind. eapply wp_mono; [apply AsArray_at|].
  intros es h' [-> (r & -> & Hr)]. destruct (prim_out_of_range _ _); [done|]. apply wp_bind. eapply wp_mono; [apply lift_same|].
  intros es' h' ->. apply wp_bind, wp_modify, wp_ret. by eapply strings_le_write.
Qed.
Lemma kst_AtPutImpl op a b : keeps_strings (AtPutImpl op a b).
Proof.
  unfold AtPutImpl. intros h. apply wp_bind. unfold array_of. destruct op as [| | | |r|]; try (apply wp_ret, wp_ret; reflexivity).
  apply wp_bind. unfold wp at 1, deref. destruct (h !! r) as [o|] eqn:Hr; [|done]. apply wp_ret.
  destruct o as [|es|]; try (apply wp_ret; reflexivity). apply wp_bind. eapply wp_mono; [apply lift_same|]. intros idx h' ->.
  destruct (fast_out_of_range _ _); [done|]. apply wp_bind. eapply wp_mono; [apply lift_same|].
  intros es' h' ->. apply wp_bind, wp_modify, wp_ret. by eapply strings_le_write.
Qed.
Lemma kst_PutField base i v : keeps_strings (PutFieldImpl base i v).
Proof.
  unfold PutFieldImpl, fields_of. intros h. apply wp_bind. destruct base as [| | | |r|]; try done. apply wp_bind.
  unfold wp at 1, deref. destruct (h !! r) as [[c fs| |]|] eqn:Hr; try done. apply wp_ret.
  destruct (fs !! i); [|done]. apply wp_modify. by eapply strings_le_write.
Qed.
#[local] Hint Resolve kst_array_at_put kst_AtPutImpl kst_PutField : strings.
Lemma kst_is_array v : keeps_strings (is_array v).
Proof. unfold is_array. ks. Qed.
#[local] Hint Resolve kst_is_array : strings.
Lemma kst_clone_elements clone r i n : (forall v, keeps_strings (clone v)) -> keeps_strings (clone_elements clone r i n).
Proof.
  intros Hc. revert i. induction n as [|n IH]; intros i; cbn [clone_elements]; [apply kst_ret|].
  do 3 (apply kst_bind; [auto with strings|intros ?]). apply kst_bind; [|intros _; apply IH].
  case_match; [|apply kst_ret]. apply kst_bind; [apply Hc|]. intros y h. apply wp_bind. eapply wp_mono; [apply AsArray_at|].
  intros es h' [-> (q & [= <-] & Hr)]. apply wp_bind. eapply wp_mono; [apply lift_same|]. intros es' h' ->.
  apply wp_modify. by eapply strings_le_write.
Qed.
Lemma kst_DeepClone fuel v : keeps_strings (DeepCloneConstantArray fuel v).
Proof.
  revert v. induction fuel as [|fuel IH]; intros v; [apply kst_fail|]. cbn [DeepCloneConstantArray].
  apply kst_bind; [auto with strings|]. intros es h. apply wp_bind. unfold wp at 1, AllocateArray, allocate. cbn beta iota.
  apply wp_bind, wp_modify.
  assert (Hle : strings_le h (<[length h := OArray es]> (h ++ [OArray (replicate (length es) VNil)]))).
  { etrans; [intros q cls str; apply lookup_app_Some_l|]. eapply strings_le_write; [by apply list_lookup_middle|done]. }
  apply wp_bind. eapply wp_mono; [by apply kst_clone_elements|]. intros u h' H'. apply wp_ret. by etrans.
Qed.

(** The operations of [Objects.v] that change the heap. *)
Inductive heap_operation : forall A, HM A -> Prop :=
  | op_array_at_put tv i v : heap_operation Value (array_at_put tv i v)
  | op_AtPutImpl op a b : heap_operation FastResult (AtPutImpl op a b)
  | op_array_new n : heap_operation Value (array_new n)
  | op_array_copy v : heap_operation Value (array_copy v)
  | op_DeepClone fuel v : heap_operation Value (DeepCloneConstantArray fuel v)
  | op_PutFieldImpl base i v : heap_operation unit (PutFieldImpl base i v)
  | op_instvaratput tv i v : heap_operation Value (object_instvaratput tv i v)
  | op_Instantiate c n : heap_operation nat (Objects.Instantiate c n)
  | op_AllocateArray n : heap_operation nat (AllocateArray n)
  | op_AllocateString str : heap_operation nat (AllocateString str)
  | op_concatenate a b : heap_operation Value (string_concatenate a b)
  | op_primsubstring v a b : heap_operation Value (string_primsubstring v a b)
  | op_charat v i : heap_operation Value (string_charat v i).
Lemma operation_keeps_strings A (m : HM A) : heap_operation A m -> keeps_strings m.
Proof.
  destruct 1; auto using kst_DeepClone with strings;
    unfold array_new, array_copy, ShallowCopyArray, object_instvaratput, field_index, Objects.Instantiate, AllocateArray,
      string_concatenate, DoStringConcat, string_primsubstring, string_charat; ks.
Qed.

Section with_hash.
Context (HashString : string -> Z).

Record StrState : Type := mk_str {
  st_interner : StringInterner;
  m_internedStringObjects : list (option nat);
  m_internedSymbolObjects : list (option nat);
  m_cachedSingleCharStrings : list (option nat);
  st_heap : Heap;
}.

Notation S := (M StrState).

Definition on_heap {A} (m : HM A) : S A := fun s =>
  '(a, h) ← m (st_heap s);
  Ok (a, mk_str (st_interner s) (m_internedStringObjects s) (m_internedSymbolObjects s) (m_cachedSingleCharStrings s) h).
Definition InternStr (str : string) : S nat := fun s =>
  let '(ord, it) := InternString HashString str (st_interner s) in
  Ok (ord, mk_str it (m_internedStringObjects s) (m_internedSymbolObjects s) (m_cachedSingleCharStrings s) (st_heap s)).

(** [if (ord >= v.size()) { v.resize(ord + 1, nullptr); }] *)
Definition grow (ord : nat) (objs : list (option nat)) : list (option nat) :=
  objs ++ replicate (ord + 1 - length objs) None.

(** The object kept for an ordinal, made on the first request. *)
Definition get_object (cls : StringClass) (ord : nat) (it : StringInterner) (objs : list (option nat)) (h : Heap) :
    result (nat * list (option nat) * Heap) :=
  match m_list it !! ord with
  | None => Err (AssertFailed "ord < m_interner.m_list.size()")
  | Some (str, _) =>
      let objs := grow ord objs in
      match objs !! ord with
      | Some (Some r) => Ok (r, objs, h)
      | _ =>
          '(r, h') ← allocate (OString cls str) h;
          Ok (r, <[ord := Some r]> objs, h')
      end
  end.

Definition GetInternedString (ord : nat) : S nat := fun s =>
  '(r, objs, h) ← get_object StringString ord (st_interner s) (m_internedStringObjects s) (st_heap s);
  Ok (r, mk_str (st_interner s) objs (m_internedSymbolObjects s) (m_cachedSingleCharStrings s) h).
Definition GetInternedSymbol (ord : nat) : S nat := fun s =>
  '(r, objs, h) ← get_object StringSymbol ord (st_interner s) (m_internedSymbolObjects s) (st_heap s);
  Ok (r, mk_str (st_interner s) (m_internedStringObjects s) objs (m_cachedSingleCharStrings s) h).

Definition string_assymbol (tv : Value) : S Value :=
  str ← on_heap (AsString tv);
  ord ← InternStr str;
  o ← GetInternedSymbol ord;
  mret (VObject o).
Definition symbol_asstring (tv : Value) : S Value :=
  str ← on_heap (AsString tv);
  ord ← InternStr str;
  o ← GetInternedString ord;
  mret (VObject o).

(** ** [charAt:] *)
Definition one_char (c : ascii) : string := String.String c String.EmptyString.

Definition InitSingleCharStringSlowPath (ch : ascii) : S Value :=
  r ← on_heap (AllocateString (one_char ch));
  modify (fun s => mk_str (st_interner s) (m_internedStringObjects s) (m_internedSymbolObjects s)
                     (<[code ch := Some r]> (m_cachedSingleCharStrings s)) (st_heap s)) ;;
  mret (VObject r).

Definition CharAtColonImpl (lhs rhs : Value) : S FastResult :=
  str ← on_heap (string_of lhs);
  match str with
  | None => mret SlowPath
  | Some str =>
      idx ← lift_result (AsInt rhs);
      let l := list_ascii_of_string str in
      if fast_out_of_range idx (length l) then fail (charat_out_of_bound idx (length32 l))
      else
        match l !! Z.to_nat (idx - 1) with
        | None => fail (UndefinedBehaviour "outside the string")
        | Some ch =>
            resArr ← gets m_cachedSingleCharStrings;
            match resArr !! code ch with
            | Some (Some r) => mret (Returned (VObject r))
            | Some None => v ← InitSingleCharStringSlowPath ch; mret (Returned v)
            | None => fail (UndefinedBehaviour "outside the cache")
            end
        end
  end.

(** ** Invariant *)

(** The object kept for an ordinal holds the ordinal's string. *)
Definition objects_ok (cls : StringClass) (it : StringInterner) (objs : list (option nat)) (h : Heap) : Prop :=
  forall ord r, objs !! ord = Some (Some r) ->
    exists str hash, m_list it !! ord = Some (str, hash) /\ h !! r = Some (OString cls str).

Record str_wf (s : StrState) : Prop := {
  wf_interner : interner_wf HashString (st_interner s);
  wf_strings : objects_ok StringString (st_interner s) (m_internedStringObjects s) (st_heap s);
  wf_symbols : objects_ok StringSymbol (st_interner s) (m_internedSymbolObjects s) (st_heap s);
  wf_cache_size : length (m_cachedSingleCharStrings s) = 256;
  wf_cache : forall ch r, m_cachedSingleCharStrings s !! code ch = Some (Some r) ->
    st_heap s !! r = Some (OString StringString (one_char ch));
}.

Lemma objects_ok_le cls it it' objs h h' :
  interner_le it it' -> strings_le h h' -> objects_ok cls it objs h -> objects_ok cls it' objs h'.
Proof.
  intros Hi Hh Ho ord r Hr. destruct (Ho ord r Hr) as (str & hash & Hl & Hs). exists str, hash.
  split; [by eapply interner_le_lookup|by apply Hh].
Qed.

Lemma grow_lookup ord objs i r : grow ord objs !! i = Some (Some r) <-> objs !! i = Some (Some r).
Proof.
  unfold grow. split; [|by apply lookup_app_Some_l].
  intros [H|[_ H]]%lookup_app_Some; [done|]. apply lookup_replicate in H as [[=] _].
Qed.

Lemma heap_le_alloc h o : heap_le h (h ++ [o]).
Proof. intros r x Hr. by apply lookup_app_Some_l. Qed.

Lemma grow_length ord objs : ord < length (grow ord objs).
Proof. unfold grow. rewrite length_app, length_replicate. lia. Qed.

Lemma get_object_spec cls ord it objs h str hash :
  m_list it !! ord = Some (str, hash) -> objects_ok cls it objs h ->
  exists r objs' h', get_object cls ord it objs h = Ok (r, objs', h') /\ objects_ok cls it objs' h' /\ heap_le h h' /\
    objs' !! ord = Some (Some r) /\ h' !! r = Some (OString cls str) /\
    (forall i q, objs !! i = Some (Some q) -> objs' !! i = Some (Some q)).
Proof.
  intros Hl Ho. unfold get_object. rewrite Hl.
  assert (Ho' : objects_ok cls it (grow ord objs) h) by (intros i q Hq; apply Ho; by apply grow_lookup in Hq).
  destruct (lookup_lt_is_Some_2 _ _ (grow_length ord objs)) as [[r|] Hr]; rewrite Hr.
  - exists r, (grow ord objs), h. split_and!; try done.
    + destruct (Ho' ord r Hr) as (str' & hash' & Hl' & Hs). congruence.
    + intros i q Hq. by apply grow_lookup.
  - exists (length h), (<[ord := Some (length h)]> (grow ord objs)), (h ++ [OString cls str]). split_and!.
    + done.
    + intros i q. destruct (decide (i = ord)) as [->|Hn].
      * rewrite list_lookup_insert_eq by apply grow_length. intros [= <-]. exists str, hash.
        split; [done|]. by rewrite lookup_app_r, Nat.sub_diag by done.
      * rewrite list_lookup_insert_ne by done. apply (objects_ok_le cls it it _ h); [done|apply heap_strings_le, heap_le_alloc|done].
    + apply heap_le_alloc.
    + rewrite list_lookup_insert_eq by apply grow_length. done.
    + by rewrite lookup_app_r, Nat.sub_diag by done.
    + intros i q Hq. rewrite list_lookup_insert_ne; [by apply grow_lookup|]. intros ->. apply (grow_lookup i) in Hq. congruence.
Qed.

(** The state after interning a string. *)
Lemma InternStr_eq str s :
  InternStr str s = Ok ((InternString HashString str (st_interner s)).1,
    mk_str (InternString HashString str (st_interner s)).2 (m_internedStringObjects s) (m_internedSymbolObjects s)
      (m_cachedSingleCharStrings s) (st_heap s)).
Proof. unfold InternStr. by destruct (InternString HashString str (st_interner s)). Qed.

Lemma on_heap_same {A} (m : HM A) a s : m (st_heap s) = Ok (a, st_heap s) -> on_heap m s = Ok (a, s).
Proof. intros Hm. unfold on_heap. rewrite Hm. by destruct s. Qed.

Lemma GetInternedSymbol_eq ord s r objs h :
  get_object StringSymbol ord (st_interner s) (m_internedSymbolObjects s) (st_heap s) = Ok (r, objs, h) ->
  GetInternedSymbol ord s = Ok (r, mk_str (st_interner s) (m_internedStringObjects s) objs (m_cachedSingleCharStrings s) h).
Proof. intros Hg. unfold GetInternedSymbol. by rewrite Hg. Qed.

(** A later state keeps the strings and the symbol objects handed out. *)
Record str_le (s s' : StrState) : Prop := {
  le_interner : interner_le (st_interner s) (st_interner s');
  le_heap : strings_le (st_heap s) (st_heap s');
  le_symbols : forall i q, m_internedSymbolObjects s !! i = Some (Some q) -> m_internedSymbolObjects s' !! i = Some (Some q);
}.

#[local] Instance str_le_preorder : PreOrder str_le.
Proof.
  split; [intros s; split; [reflexivity|reflexivity|done]|]. intros s1 s2 s3 [A1 A2 A3] [B1 B2 B3].
  split; [by etrans|by etrans|by auto].
Qed.

Lemma string_assymbol_spec cls r str s :
  str_wf s -> st_heap s !! r = Some (OString cls str) ->
  exists q s', string_assymbol (VObject r) s = Ok (VObject q, s') /\ str_wf s' /\ str_le s s' /\
    st_heap s' !! q = Some (OString StringSymbol str) /\
    m_internedSymbolObjects s' !! (InternString HashString str (st_interner s)).1 = Some (Some q) /\
    interner_le (InternString HashString str (st_interner s)).2 (st_interner s').
Proof.
  intros Hwf Hr. unfold string_assymbol, mbind, M_bind. rewrite (on_heap_same _ str) by (by eapply AsString_ok).
  rewrite InternStr_eq. pose proof (InternString_lookup HashString str _ (wf_interner s Hwf)) as Hl.
  pose proof (InternString_le HashString str (st_interner s)) as Hle.
  pose proof (InternString_wf HashString str _ (wf_interner s Hwf)) as Hiw.
  set (ord := (InternString HashString str (st_interner s)).1) in *.
  set (it := (InternString HashString str (st_interner s)).2) in *.
  destruct (get_object_spec StringSymbol ord it (m_internedSymbolObjects s) (st_heap s) str _ Hl) as (q & objs & h & Hg & Ho & Hh & Hq & Hs & Hkeep).
  { apply (objects_ok_le _ (st_interner s) _ _ (st_heap s)); [done|done|apply Hwf]. }
  erewrite GetInternedSymbol_eq by exact Hg.
  apply heap_strings_le in Hh as Hh'. eexists q, _. split; [done|]. split_and!; [|by split|done|done|done].
  split; cbn; [done| |done|apply Hwf|].
  - apply (objects_ok_le _ (st_interner s) _ _ (st_heap s)); [done|done|apply Hwf].
  - intros ch p Hp. apply Hh. by apply (wf_cache s Hwf).
Qed.

Lemma CharAt_cached s ch q :
  str_wf s -> m_cachedSingleCharStrings s !! code ch = Some (Some q) ->
  st_heap s !! q = Some (OString StringString (one_char ch)).
Proof. intros Hwf. apply (wf_cache s Hwf). Qed.

Lemma code_bound ch : code ch < 256.
Proof. apply nat_ascii_bounded. Qed.

Lemma code_inj a b : code a = code b -> a = b.
Proof. intros H. rewrite <-(ascii_nat_embedding a), <-(ascii_nat_embedding b). by unfold code in H; rewrite H. Qed.

(** The cached string of a character, made on the first request. *)
Lemma cached_char_spec s ch :
  str_wf s ->
  exists q s', (resArr ← gets m_cachedSingleCharStrings;
      match resArr !! code ch with
      | Some (Some r) => mret (Returned (VObject r))
      | Some None => v ← InitSingleCharStringSlowPath ch; mret (Returned v)
      | None => fail (UndefinedBehaviour "outside the cache")
      end) s = Ok (Returned (VObject q), s') /\ str_wf s' /\ heap_le (st_heap s) (st_heap s') /\
    st_heap s' !! q = Some (OString StringString (one_char ch)) /\ m_cachedSingleCharStrings s' !! code ch = Some (Some q) /\
    (forall c p, m_cachedSingleCharStrings s !! c = Some (Some p) -> m_cachedSingleCharStrings s' !! c = Some (Some p)) /\
    st_interner s' = st_interner s /\ m_internedSymbolObjects s' = m_internedSymbolObjects s.
Proof.
  intros Hwf. unfold mbind, M_bind, gets.
  destruct (lookup_lt_is_Some_2 (m_cachedSingleCharStrings s) (code ch)) as [o Ho].
  { rewrite (wf_cache_size s Hwf). apply code_bound. }
  rewrite Ho. destruct o as [q|].
  - exists q, s. split_and!; try done. by apply CharAt_cached.
  - unfold InitSingleCharStringSlowPath, on_heap, AllocateString, allocate, modify, mbind, M_bind. simpl.
    eexists (length (st_heap s)), _. split; [done|]. cbn. split_and!.
    + split; cbn; [apply Hwf| | | |].
      * apply (objects_ok_le _ (st_interner s) _ _ (st_heap s)); [done|apply heap_strings_le, heap_le_alloc|apply Hwf].
      * apply (objects_ok_le _ (st_interner s) _ _ (st_heap s)); [done|apply heap_strings_le, heap_le_alloc|apply Hwf].
      * rewrite length_insert. apply Hwf.
      * intros c p. destruct (decide (code c = code ch)) as [He|Hn].
        -- rewrite He, list_lookup_insert_eq by (rewrite (wf_cache_size s Hwf); apply code_bound). intros [= <-].
           rewrite lookup_app_r, Nat.sub_diag by done. by rewrite (code_inj _ _ He).
        -- rewrite list_lookup_insert_ne by done. intros Hp. apply lookup_app_Some_l. by apply (wf_cache s Hwf).
    + apply heap_le_alloc.
    + by rewrite lookup_app_r, Nat.sub_diag by done.
    + rewrite list_lookup_insert_eq; [done|]. rewrite (wf_cache_size s Hwf). apply code_bound.
    + intros c p Hp. rewrite list_lookup_insert_ne; [done|]. intros <-. congruence.
    + done.
    + done.
Qed.

(** ** Runs

    What happens between two uses of [asSymbol]: operations on the heap, and the
    operations of this file, in any order. *)
Inductive str_step (s : StrState) : StrState -> Prop :=
  | step_heap A (m : HM A) a s' : heap_operation A m -> on_heap m s = Ok (a, s') -> str_step s s'
  | step_intern str ord s' : InternStr str s = Ok (ord, s') -> str_step s s'
  | step_assymbol v w s' : string_assymbol v s = Ok (w, s') -> str_step s s'
  | step_asstring v w s' : symbol_asstring v s = Ok (w, s') -> str_step s s'
  | step_charAt v i w s' : CharAtColonImpl v i s = Ok (w, s') -> str_step s s'.

Lemma str_wf_next s s' : str_wf s -> interner_wf HashString (st_interner s') -> str_le s s' ->
  objects_ok StringString (st_interner s') (m_internedStringObjects s') (st_heap s') ->
  objects_ok StringSymbol (st_interner s') (m_internedSymbolObjects s') (st_heap s') ->
  m_cachedSingleCharStrings s' = m_cachedSingleCharStrings s -> str_wf s'.
Proof.
  intros Hwf Hi Hle Hs Hy Hc. split; [done|done|done|by rewrite Hc; apply Hwf|]. rewrite Hc. intros ch r Hr.
  apply (le_heap _ _ Hle). by apply (wf_cache s Hwf).
Qed.

Lemma on_heap_keeps {A} (m : HM A) a s s' : keeps_strings m -> on_heap m s = Ok (a, s') -> str_wf s -> str_wf s' /\ str_le s s'.
Proof.
  intros Hm Hrun Hwf. pose proof (Hm (st_heap s)) as H. unfold on_heap in Hrun. unfold wp in H.
  destruct (m (st_heap s)) as [[b h]|e]; [|done]. simpl in Hrun. injection Hrun as _ <-.
  assert (Hle : str_le s (mk_str (st_interner s) (m_internedStringObjects s) (m_internedSymbolObjects s) (m_cachedSingleCharStrings s) h)) by (by split).
  split; [|done]. apply (str_wf_next s); simpl; [done|apply Hwf|done| | |done].
  - apply (objects_ok_le _ (st_interner s) _ _ (st_heap s)); [done|done|apply Hwf].
  - apply (objects_ok_le _ (st_interner s) _ _ (st_heap s)); [done|done|apply Hwf].
Qed.
Lemma AsString_object v str h h' : AsString v h = Ok (str, h') -> h' = h /\ exists cls r, v = VObject r /\ h !! r = Some (OString cls str).
Proof.
  unfold AsString. destruct v as [| | | |r|]; try done. unfold mbind, M_bind, deref. destruct (h !! r) as [[| |cls x]|] eqn:E; try done.
  intros [= <- <-]. split; [done|]. by exists cls, r.
Qed.
Lemma on_heap_AsString v str s s' : on_heap (AsString v) s = Ok (str, s') -> s' = s /\ exists cls r, v = VObject r /\ st_heap s !! r = Some (OString cls str).
Proof.
  unfold on_heap. destruct (AsString v (st_heap s)) as [[x h]|e] eqn:E; [|done]. apply AsString_object in E as [-> Hv].
  intros [= <- <-]. split; [by destruct s|done].
Qed.
Lemma InternStr_keeps str ord s s' : InternStr str s = Ok (ord, s') -> str_wf s -> str_wf s' /\ str_le s s'.
Proof.
  intros Hrun Hwf. rewrite InternStr_eq in Hrun. injection Hrun as _ <-. pose proof (InternString_le HashString str (st_interner s)) as Hle.
  assert (Hl : str_le s (mk_str (InternString HashString str (st_interner s)).2 (m_internedStringObjects s) (m_internedSymbolObjects s)
    (m_cachedSingleCharStrings s) (st_heap s))) by (split; [exact Hle|reflexivity|done]).
  split; [|done]. apply (str_wf_next s); simpl; [done|apply InternString_wf, Hwf|done| | |done];
    (apply (objects_ok_le _ (st_interner s) _ _ (st_heap s)); [done|done|apply Hwf]).
Qed.
Lemma assymbol_keeps v w s s' : string_assymbol v s = Ok (w, s') -> str_wf s -> str_wf s' /\ str_le s s'.
Proof.
  intros Hrun Hwf. assert (H : exists cls r str, v = VObject r /\ st_heap s !! r = Some (OString cls str)).
  { unfold string_assymbol, mbind at 1, M_bind in Hrun. destruct (on_heap (AsString v) s) as [[str s1]|e] eqn:E; [|done].
    apply on_heap_AsString in E as (_ & cls & r & ? & ?). by exists cls, r, str. }
  destruct H as (cls & r & str & -> & Hr). destruct (string_assymbol_spec cls r str s Hwf Hr) as (q & s1 & E & H1 & H2 & _).
  rewrite E in Hrun. by injection Hrun as _ <-.
Qed.
Lemma asstring_keeps v w s s' : symbol_asstring v s = Ok (w, s') -> str_wf s -> str_wf s' /\ str_le s s'.
Proof.
  intros Hrun Hwf. unfold symbol_asstring, mbind at 1, M_bind in Hrun.
  destruct (on_heap (AsString v) s) as [[str s1]|e] eqn:E; [|done]. apply on_heap_AsString in E as (-> & cls & r & -> & Hr).
  unfold mbind, M_bind in Hrun. destruct (InternStr str s) as [[ord s1]|e] eqn:E1; [|done].
  destruct (InternStr_keeps _ _ _ _ E1 Hwf) as [Hwf1 Hle1]. unfold GetInternedString in Hrun.
  destruct (get_object _ _ _ _ _) as [[[o objs] h]|e] eqn:E2; [|done]. simpl in Hrun. injection Hrun as _ <-.
  assert (Hl : exists x hash, m_list (st_interner s1) !! ord = Some (x, hash)).
  { unfold get_object in E2. destruct (m_list (st_interner s1) !! ord) as [[x hash]|]; [|done]. by exists x, hash. }
  destruct Hl as (x & hash & Hl).
  destruct (get_object_spec _ _ _ _ _ _ _ Hl (wf_strings _ Hwf1)) as (o' & objs' & h' & E3 & Ho & Hh & _). rewrite E2 in E3. injection E3 as <- <- <-.
  apply heap_strings_le in Hh.
  assert (Hle2 : str_le s1 (mk_str (st_interner s1) objs (m_internedSymbolObjects s1) (m_cachedSingleCharStrings s1) h)) by (by split).
  split; [|by etrans]. apply (str_wf_next s1); simpl; [done|apply Hwf1|done|done| |done].
  apply (objects_ok_le _ (st_interner s1) _ _ (st_heap s1)); [done|done|apply Hwf1].
Qed.
Lemma charAt_keeps v i w s s' : CharAtColonImpl v i s = Ok (w, s') -> str_wf s -> str_wf s' /\ str_le s s'.
Proof.
  intros Hrun Hwf. assert (Hrefl : str_wf s /\ str_le s s) by (split; [done|reflexivity]). unfold CharAtColonImpl, mbind at 1, M_bind in Hrun.
  assert (Hsame : on_heap (string_of v) s = match on_heap (string_of v) s with Ok (a, _) => Ok (a, s) | Err e => Err e end).
  { unfold on_heap, string_of. destruct v as [| | | |r|]; try (by destruct s). unfold mbind, M_bind, deref.
    destruct (st_heap s !! r) as [[| |]|]; by destruct s. }
  rewrite Hsame in Hrun. destruct (on_heap (string_of v) s) as [[[str|] s1]|e]; [|by injection Hrun as _ <-|done].
  unfold mbind at 1, M_bind, lift_result at 1 in Hrun. destruct (AsInt i) as [idx|e]; [|done].
  cbv zeta in Hrun. destruct (fast_out_of_range _ _); [done|]. destruct (list_ascii_of_string str !! _) as [ch|]; [|done].
  destruct (cached_char_spec s ch Hwf) as (q & s2 & E & Hwf2 & Hh & _ & _ & _ & Hi & Hy).
  pose proof (eq_trans (eq_sym E) Hrun) as Heq. injection Heq as _ <-.
  split; [done|]. split; [by rewrite Hi|by apply heap_strings_le|by rewrite Hy].
Qed.
Lemma str_step_keeps s s' : str_step s s' -> str_wf s -> str_wf s' /\ str_le s s'.
Proof.
  intros [A m a s2 Hop Hrun|str ord s2 Hrun|v w s2 Hrun|v w s2 Hrun|v i w s2 Hrun].
  - by eapply on_heap_keeps; [eapply operation_keeps_strings|].
  - by eapply InternStr_keeps.
  - by eapply assymbol_keeps.
  - by eapply asstring_keeps.
  - by eapply charAt_keeps.
Qed.
Lemma str_run_keeps s s' : rtc str_step s s' -> str_wf s -> str_wf s' /\ str_le s s'.
Proof.
  induction 1 as [s|s1 s2 s3 H1 _ IH]; intros Hwf; [split; [done|reflexivity]|].
  destruct (str_step_keeps _ _ H1 Hwf) as [Hwf2 L12]. destruct (IH Hwf2) as [Hwf3 L23]. split; [done|]. by etrans.
Qed.

(** C34: the objects [asSymbol] returns are unique for their characters.  [asSymbol] of
    two strings, with any sequence of operations in between that write arrays and
    fields, allocate, intern names and make symbols and strings, gives the same object
    exactly when the strings have the same characters; both objects are symbols with
    those characters at the end. *)
Theorem symbol_identity cls1 r1 str1 s q1 s1 t cls2 r2 str2 :
  str_wf s -> st_heap s !! r1 = Some (OString cls1 str1) -> string_assymbol (VObject r1) s = Ok (VObject q1, s1) ->
  rtc str_step s1 t -> st_heap t !! r2 = Some (OString cls2 str2) ->
  exists q2 t1, string_assymbol (VObject r2) t = Ok (VObject q2, t1) /\ str_wf t1 /\
    st_heap t1 !! q1 = Some (OString StringSymbol str1) /\ st_heap t1 !! q2 = Some (OString StringSymbol str2) /\
    (q1 = q2 <-> str1 = str2).
Proof.
  intros Hwf Hr1 Ha1 Hrun Hr2.
  destruct (string_assymbol_spec cls1 r1 str1 s Hwf Hr1) as (q & s' & Ha & Hwf1 & Hle1 & Hq1 & Hi1 & Hint).
  rewrite Ha in Ha1. injection Ha1 as -> ->. destruct (str_run_keeps _ _ Hrun Hwf1) as [Hwft Hle].
  destruct (string_assymbol_spec cls2 r2 str2 t Hwft Hr2) as (q2 & t1 & Hb & Hwf2 & Hle2 & Hq2 & Hi2 & _).
  exists q2, t1. pose proof (le_heap _ _ Hle2 _ _ _ (le_heap _ _ Hle _ _ _ Hq1)) as Hq1'.
  split_and!; try done. split; [intros ->; congruence|]. intros <-.
  apply (le_symbols _ _ Hle), (le_symbols _ _ Hle2) in Hi1.
  rewrite (InternString_known_later HashString str1 (st_interner s) (st_interner t)) in Hi2; [simpl in Hi2; congruence|apply Hwf|apply Hwft|].
  etrans; [exact Hint|apply Hle].
Qed.

Lemma substring_one str i c :
  list_ascii_of_string str !! i = Some c -> String.substring i 1 str = one_char c.
Proof.
  revert i. induction str as [|a str IH]; intros [|i]; simpl; try done.
  - intros [= ->]. by destruct str.
  - apply IH.
Qed.

Lemma length_chars str : length (list_ascii_of_string str) = String.length str.
Proof. induction str; simpl; congruence. Qed.

(** The inlined [charAt:] agrees with the primitive.  On a string whose length
    is a 32-bit integer, for an index in range both give a string of the one
    character at the index, the inlined one a shared string that later calls for
    the same character return again; out of range both abort with the same
    message. *)
Theorem charAt_bytecode_is_primitive s cls r str idx :
  str_wf s -> st_heap s !! r = Some (OString cls str) -> fits_int32 idx = true ->
  (Z.of_nat (String.length str) <= int32_max)%Z ->
  match list_ascii_of_string str !! Z.to_nat (idx - 1), decide (1 <= idx)%Z with
  | Some c, left _ =>
      exists q s' p h', CharAtColonImpl (VObject r) (VInt idx) s = Ok (Returned (VObject q), s') /\
        string_charat (VObject r) (VInt idx) (st_heap s) = Ok (VObject p, h') /\
        st_heap s' !! q = Some (OString StringString (one_char c)) /\ h' !! p = Some (OString StringString (one_char c)) /\
        str_wf s' /\ CharAtColonImpl (VObject r) (VInt idx) s' = Ok (Returned (VObject q), s')
  | _, _ =>
      exists e, CharAtColonImpl (VObject r) (VInt idx) s = Err e /\ string_charat (VObject r) (VInt idx) (st_heap s) = Err e /\
        e = charat_out_of_bound idx (Z.of_nat (String.length str))
  end.
Proof.
  intros Hwf Hr Hi Hlen.
  assert (Hfast : forall t, st_heap t !! r = Some (OString cls str) ->
    CharAtColonImpl (VObject r) (VInt idx) t =
      if prim_out_of_range idx (String.length str) then Err (charat_out_of_bound idx (Z.of_nat (String.length str)))
      else match list_ascii_of_string str !! Z.to_nat (idx - 1) with
           | None => Err (UndefinedBehaviour "outside the string")
           | Some ch => (resArr ← gets m_cachedSingleCharStrings;
               match resArr !! code ch with
               | Some (Some r) => mret (Returned (VObject r))
               | Some None => v ← InitSingleCharStringSlowPath ch; mret (Returned v)
               | None => fail (UndefinedBehaviour "outside the cache")
               end) t
           end).
  { intros t Ht. unfold CharAtColonImpl, mbind, M_bind. rewrite (on_heap_same _ (Some str)).
    2:{ unfold string_of, mbind, M_bind. by rewrite (deref_ok _ _ _ Ht). }
    cbn [lift_result AsInt]. rewrite length_chars, (range_checks_agree _ _ Hi Hlen). unfold length32. rewrite length_chars.
    rewrite to_int32_id by (apply fits_int32_range; unfold int32_max in Hlen; lia).
    destruct (prim_out_of_range idx (String.length str)); [done|]. by destruct (list_ascii_of_string str !! _). }
  assert (Hslow : string_charat (VObject r) (VInt idx) (st_heap s) =
    if prim_out_of_range idx (String.length str) then Err (charat_out_of_bound idx (Z.of_nat (String.length str)))
    else Ok (VObject (length (st_heap s)), st_heap s ++ [OString StringString (substring str (Z.to_nat (idx - 1)) 1)])).
  { unfold string_charat, mbind, M_bind. cbn [lift_result AsInt]. rewrite (AsString_ok _ _ _ _ Hr).
    rewrite to_int32_id by (apply fits_int32_range; unfold int32_max in Hlen; lia). by case_match. }
  rewrite (Hfast s Hr), Hslow. destruct (list_ascii_of_string str !! Z.to_nat (idx - 1)) as [c|] eqn:Hc.
  - pose proof (lookup_lt_Some _ _ _ Hc) as Hlt. rewrite length_chars in Hlt. destruct (decide (1 <= idx)%Z) as [H1|H1].
    + rewrite (proj2 (prim_in_range _ _)) by lia.
      destruct (cached_char_spec s c Hwf) as (q & s' & Hq & Hwf' & Hle & Hh & Hcache & _).
      exists q, s', (length (st_heap s)), (st_heap s ++ [OString StringString (one_char c)]).
      unfold substring. rewrite (substring_one _ _ _ Hc). split_and!; try done.
      * by rewrite lookup_app_r, Nat.sub_diag by done.
      * rewrite (Hfast s' (Hle _ _ Hr)), (proj2 (prim_in_range _ _)) by lia.
        unfold mbind, M_bind, gets. by rewrite Hcache.
    + assert (prim_out_of_range idx (String.length str) = true) as -> by (apply not_false_iff_true; rewrite prim_in_range; lia).
      by eexists.
  - apply lookup_ge_None in Hc. rewrite length_chars in Hc.
    assert (prim_out_of_range idx (String.length str) = true) as -> by (apply not_false_iff_true; rewrite prim_in_range; lia).
    by eexists.
Qed.
End with_hash.

(** ** Witnesses *)
Definition str_sample : StrState :=
  mk_str empty_interner [] [] (replicate 256 None) [OString StringString "ab"; OString StringSymbol "ab"].

Lemma str_sample_wf : str_wf (fun _ => 0%Z) str_sample.
Proof.
  split; cbn [st_interner m_internedStringObjects m_internedSymbolObjects m_cachedSingleCharStrings st_heap str_sample].
  - apply empty_interner_wf.
  - intros ord r. by rewrite lookup_nil.
  - intros ord r. by rewrite lookup_nil.
  - by rewrite length_replicate.
  - intros ch r Hr. apply lookup_replicate in Hr as [[=] _].
Qed.

Definition str_sample1 : StrState :=
  match string_assymbol (fun _ => 0%Z) (VObject 0) str_sample with Ok (_, s) => s | Err _ => str_sample end.

Lemma str_sample1_ok : string_assymbol (fun _ => 0%Z) (VObject 0) str_sample = Ok (VObject 2, str_sample1).
Proof. vm_compute. reflexivity. Qed.

(** An array is made and written between the two calls. *)
Definition str_sample2 : StrState :=
  let after {A} (m : HM A) s := match on_heap m s with Ok (_, s') => s' | Err _ => s end in
  after (array_at_put (VObject 3) (VInt 2) (VObject 2)) (after (AllocateArray 2) str_sample1).
Lemma str_sample2_run : rtc (str_step (fun _ => 0%Z)) str_sample1 str_sample2.
Proof.
  eapply rtc_l; [eapply step_heap; [apply (op_AllocateArray 2)|vm_compute; reflexivity]|].
  eapply rtc_l; [eapply step_heap; [apply (op_array_at_put (VObject 3) (VInt 2) (VObject 2))|vm_compute; reflexivity]|]. apply rtc_refl.
Qed.

(** The string object 0 and the symbol object 1, made by hand, have the same
    characters: [asSymbol] of both is the object 2. *)
Lemma symbol_identity_witness :
  exists q2 t1, string_assymbol (fun _ => 0%Z) (VObject 1) str_sample2 = Ok (VObject q2, t1) /\ str_wf (fun _ => 0%Z) t1 /\
    st_heap t1 !! 2 = Some (OString StringSymbol "ab") /\
    st_heap t1 !! q2 = Some (OString StringSymbol "ab") /\ (2 = q2 <-> "ab" = "ab").
Proof.
  apply (symbol_identity (fun _ => 0%Z) StringString 0 "ab" str_sample 2 str_sample1 str_sample2 StringSymbol 1 "ab").
  - apply str_sample_wf.
  - reflexivity.
  - apply str_sample1_ok.
  - apply str_sample2_run.
  - vm_compute. reflexivity.
Defined.

Lemma charAt_bytecode_is_primitive_witness :
  exists q s' p h', CharAtColonImpl (VObject 0) (VInt 2) str_sample = Ok (Returned (VObject q), s') /\
    string_charat (VObject 0) (VInt 2) (st_heap str_sample) = Ok (VObject p, h') /\
    st_heap s' !! q = Some (OString StringString (one_char "b")) /\ h' !! p = Some (OString StringString (one_char "b")) /\
    str_wf (fun _ => 0%Z) s' /\ CharAtColonImpl (VObject 0) (VInt 2) s' = Ok (Returned (VObject q), s').
Proof.
  apply (charAt_bytecode_is_primitive (fun _ => 0%Z) str_sample StringString 0 "ab" 2);
    [apply str_sample_wf|reflexivity|reflexivity|vm_compute; discriminate].
Defined.
