(* ===== verification/Machine.v ===== *)
(** * Functions and closures at run time

    The run-time state the bytecodes work on, the code blocks and function objects
    of [runtime/runtime_utils.h] ([CodeBlock], [FunctionObject]) and the creation of
    closures ([runtime/runtime_utils.cpp], [CreateAndFillUpvalues]).  A function
    object is named by its index; an [UnlinkedCodeBlock] by the compiled method it
    belongs to and its translation context in that method.  The [TValue]s of the
    upvalue list of a function object hold a value, a pointer to an [Upvalue] or, in
    a trivial method, the method's extra information. *)
From S2P Require Import Prelude Interner CNumbers TValue Bytecode Compiler Values Primitives OpenUpvalues Symbols.

(** ** Function kinds *)

(** The numbers of the enumerators of [runtime/som_class.h]. *)
Definition entity_number (k : SOMDetailEntityType) : Z :=
  match k with
  | SOM_Object => 0 | SOM_Method => 1 | SOM_BlockNoArg => 2 | SOM_BlockNoArgImmSelf => 3 | SOM_BlockOneArg => 4
  | SOM_BlockOneArgImmSelf => 5 | SOM_BlockTwoArgs => 6 | SOM_BlockTwoArgsImmSelf => 7 | SOM_Array => 8 | SOM_String => 9
  end.
Definition lookup_kind_number (k : SOMMethodLookupResultKind) : Z :=
  match k with
  | SOM_MethodNotFound => 0 | SOM_NormalMethod => 1 | SOM_LiteralReturn => 2 | SOM_GlobalReturn => 3 | SOM_SelfReturn => 4
  | SOM_Getter => 5 | SOM_Setter => 6 | SOM_CallBaseNotObject => 7
  end.

#[export] Instance SOMDetailEntityType_eq_dec : EqDecision SOMDetailEntityType.
Proof. solve_decision. Defined.
#[export] Instance SOMMethodLookupResultKind_eq_dec : EqDecision SOMMethodLookupResultKind.
Proof. solve_decision. Defined.

Definition all_entities : list SOMDetailEntityType :=
  [SOM_Object; SOM_Method; SOM_BlockNoArg; SOM_BlockNoArgImmSelf; SOM_BlockOneArg; SOM_BlockOneArgImmSelf;
   SOM_BlockTwoArgs; SOM_BlockTwoArgsImmSelf; SOM_Array; SOM_String].
Definition all_lookup_kinds : list SOMMethodLookupResultKind :=
  [SOM_MethodNotFound; SOM_NormalMethod; SOM_LiteralReturn; SOM_GlobalReturn; SOM_SelfReturn; SOM_Getter; SOM_Setter;
   SOM_CallBaseNotObject].

(** [static_cast<SOMDetailEntityType>(mask & 15)] and [mask >> 4]. *)
Definition entity_of_mask (mask : Z) : option SOMDetailEntityType := all_entities !! Z.to_nat (Z.land mask 15).
Definition lookup_kind_of_mask (mask : Z) : option SOMMethodLookupResultKind := all_lookup_kinds !! Z.to_nat (Z.shiftr mask 4).

(** ** Code blocks and function objects *)
Definition UcbRef : Type := nat * nat.

Inductive UpvalueEntry : Type :=
  | UvValue (v : Value)
  | UvPointer (r : nat)
  | UvTrivial (info : TrivialFnInfo).

Record CodeBlock : Type := mk_cb {
  m_owner : UcbRef;
  cb_numFixedArguments : nat;
  cb_stackFrameNumSlots : nat;
  m_numUpvalues : nat;
  m_fnTyMask : Z;
  m_needExtraUpvalueDueToTrivialFn : bool;
  m_trivialFnExtraInfo : TrivialFnInfo
}.

Inductive ExecutableCode : Type := BytecodeFunction (cb : CodeBlock) | UserCFunction (f : LibFunc).

Record FunctionObject : Type := mk_function {
  m_executable : ExecutableCode;
  m_invalidArrayType : Z;
  m_upvalues : list UpvalueEntry
}.

(** A trivial method that returns or sets something keeps what in one upvalue. *)
Definition needs_extra (k : SOMMethodLookupResultKind) : bool :=
  match k with SOM_LiteralReturn | SOM_GlobalReturn | SOM_Getter | SOM_Setter => true | _ => false end.

(** [static_cast<uint8_t>(...)] *)
Definition ucb_mask (ucb : UnlinkedCodeBlock) : Z :=
  ((entity_number (m_fnKind ucb) + 16 * lookup_kind_number (m_trivialFnType ucb)) `mod` 256)%Z.

(** [CodeBlock::Create] *)
Definition CodeBlock_Create (owner : UcbRef) (ucb : UnlinkedCodeBlock) : result CodeBlock :=
  let extra := needs_extra (m_trivialFnType ucb) in
  if extra && negb (length (m_upvalueInfo ucb) =? 0) then Err (AssertFailed "ucb->m_numUpvalues == 0")
  else Ok (mk_cb owner (m_numFixedArguments ucb) (m_stackFrameNumSlots ucb) (length (m_upvalueInfo ucb)) (ucb_mask ucb)
             extra (if extra then m_trivialFnInfo ucb else TfNone)).

(** A slot of the stack: nothing readable when it holds a frame header or was
    never written. *)
Notation Slot := (option Value).

(** ** The state *)
Record VMState : Type := mk_vm {
  vm_str : StrState;                       (* the heap, and the strings and symbols made so far *)
  vm_functions : list FunctionObject;
  vm_rc : RContext Slot;                  (* the stack and the open upvalues *)
  vm_globals : list (option Value)         (* [m_somGlobals] *)
}.
Notation V := (M VMState).

Definition with_str (st : StrState) (s : VMState) : VMState := mk_vm st (vm_functions s) (vm_rc s) (vm_globals s).
Definition with_rc (rc : RContext Slot) (s : VMState) : VMState := mk_vm (vm_str s) (vm_functions s) rc (vm_globals s).
Definition with_functions (fs : list FunctionObject) (s : VMState) : VMState := mk_vm (vm_str s) fs (vm_rc s) (vm_globals s).

Definition on_str {A} (m : M StrState A) : V A := fun s => '(a, st) ← m (vm_str s); Ok (a, with_str st s).
Definition on_objects {A} (m : HM A) : V A := on_str (on_heap m).
Definition on_rc {A} (m : M (RContext Slot) A) : V A := fun s => '(a, rc) ← m (vm_rc s); Ok (a, with_rc rc s).

Definition no_value : error := UndefinedBehaviour "the slot holds no value".
Definition value_of (s : Slot) : V Value := match s with Some v => mret v | None => fail no_value end.
Definition load (n : nat) : V Value := s ← on_rc (load_slot n); value_of s.
Definition store (n : nat) (v : Value) : V unit := on_rc (store_slot n (Some v)).

Definition bad_function : error := UndefinedBehaviour "not a function object".
Definition the_function (r : nat) : V FunctionObject := fun s =>
  match vm_functions s !! r with Some f => Ok (f, s) | None => Err bad_function end.
Definition new_function (f : FunctionObject) : V nat := fun s =>
  Ok (length (vm_functions s), with_functions (vm_functions s ++ [f]) s).
Definition set_upvalues (r : nat) (uvs : list UpvalueEntry) : V unit :=
  modify (fun s => with_functions
    (alter (fun f => mk_function (m_executable f) (m_invalidArrayType f) uvs) r (vm_functions s)) s).

(** ** Creating closures *)
Definition num_upvalues (cb : CodeBlock) : nat := m_numUpvalues cb + (if m_needExtraUpvalueDueToTrivialFn cb then 1 else 0).

(** [m_numUpvalues] of a function object is one byte. *)
Definition FunctionObject_Create (cb : CodeBlock) : V nat :=
  check (negb (m_needExtraUpvalueDueToTrivialFn cb) || (m_numUpvalues cb =? 0)) (AssertFailed "cb->m_numUpvalues == 0") ;;
  check (num_upvalues cb <=? 255) (AssertFailed "numUpvalues <= std::numeric_limits<uint8_t>::max()") ;;
  new_function (mk_function (BytecodeFunction cb) (m_fnTyMask cb) []).

(** [GetMutableUpvaluePtrOrImmutableUpvalue] *)
Definition raw_upvalue (f : FunctionObject) (ord : nat) : V UpvalueEntry :=
  match m_upvalues f !! ord with Some uv => mret uv | None => fail (AssertFailed "ord < self->m_numUpvalues") end.

Definition is_pointer (uv : UpvalueEntry) : bool := match uv with UvPointer _ => true | _ => false end.

(** One round of the loop over the upvalues of a new closure [r]. *)
Definition fill_upvalue (r stackFrameBase : nat) (parent : option nat) (selfOrdinalInStackFrame : nat) (uvmt : UpvalueMetadata)
    : V UpvalueEntry :=
  if uv_isParentLocal uvmt then
    if uv_isImmutable uvmt then
      if uv_slot uvmt =? selfOrdinalInStackFrame then mret (UvValue (VFunction r))
      else v ← load (stackFrameBase + uv_slot uvmt); mret (UvValue v)
    else
      uvPtr ← on_rc (OpenUpvalues.Create (stackFrameBase + uv_slot uvmt) (uv_isImmutable uvmt));
      mret (UvPointer uvPtr)
  else
    match parent with
    | None => fail bad_function
    | Some p =>
        f ← the_function p;
        uv ← raw_upvalue f (uv_slot uvmt);
        check (uv_isImmutable uvmt || is_pointer uv)
          (AssertFailed "reinterpret_cast<Upvalue*>(uv.m_value)->m_type == HeapEntityType::Upvalue") ;;
        mret uv
    end.

Fixpoint fill_upvalues (r stackFrameBase : nat) (parent : option nat) (selfOrd : nat) (uvmts : list UpvalueMetadata)
    : V (list UpvalueEntry) :=
  match uvmts with
  | [] => mret []
  | uvmt :: uvmts' =>
      uv ← fill_upvalue r stackFrameBase parent selfOrd uvmt;
      uvs ← fill_upvalues r stackFrameBase parent selfOrd uvmts';
      mret (uv :: uvs)
  end.

(** The loop only reads the parent, so that the upvalues are stored at the end. *)
Definition CreateAndFillUpvalues (cb : CodeBlock) (upvalueInfo : list UpvalueMetadata) (stackFrameBase : nat)
    (parent : option nat) (selfOrdinalInStackFrame : nat) : V nat :=
  r ← FunctionObject_Create cb;
  uvs ← fill_upvalues r stackFrameBase parent selfOrdinalInStackFrame upvalueInfo;
  set_upvalues r (if m_needExtraUpvalueDueToTrivialFn cb then [UvTrivial (m_trivialFnExtraInfo cb)] else uvs) ;;
  mret r.

(** ** Reading and writing upvalues *)

(** The compiled methods: the contexts of each. *)
Definition Units : Type := list (list TranslationContext).

Section units.
Context (units : Units).

Definition bad_code : error := UndefinedBehaviour "not a code block".
Definition the_context (ref : UcbRef) : V TranslationContext :=
  match units !! ref.1 ≫= (.!! ref.2) with Some c => mret c | None => fail bad_code end.

(** [ucb->m_defaultCodeBlock], made when the method was compiled. *)
Definition GetCodeBlock (ref : UcbRef) : V CodeBlock :=
  c ← the_context ref; lift_result (CodeBlock_Create ref (m_resultUcb c)).

(** [IsUpvalueImmutable], with its assertions. *)
Definition IsUpvalueImmutable (f : FunctionObject) (ord : nat) : V bool :=
  check (ord <? length (m_upvalues f)) (AssertFailed "ord < self->m_numUpvalues") ;;
  match m_executable f with
  | UserCFunction _ => fail (AssertFailed "self->m_executable->IsBytecodeFunction()")
  | BytecodeFunction cb =>
      check (negb (m_needExtraUpvalueDueToTrivialFn cb)) (AssertFailed "!cb->m_needExtraUpvalueDueToTrivialFn") ;;
      c ← the_context (m_owner cb);
      match m_upvalueInfo (m_resultUcb c) !! ord with
      | Some m => mret (uv_isImmutable m)
      | None => fail (AssertFailed "cb->m_owner->m_numUpvalues == self->m_numUpvalues")
      end
  end.

Definition GetMutableUpvaluePtr (f : FunctionObject) (ord : nat) : V nat :=
  imm ← IsUpvalueImmutable f ord;
  check (negb imm) (AssertFailed "!IsUpvalueImmutable(self, ord)") ;;
  uv ← raw_upvalue f ord;
  match uv with
  | UvPointer r => mret r
  | _ => fail (AssertFailed "uvPtr->m_type == HeapEntityType::Upvalue")
  end.
Definition GetImmutableUpvalueValue (f : FunctionObject) (ord : nat) : V Value :=
  imm ← IsUpvalueImmutable f ord;
  check imm (AssertFailed "IsUpvalueImmutable(self, ord)") ;;
  uv ← raw_upvalue f ord;
  match uv with
  | UvValue v => mret v
  | _ => fail (AssertFailed "tv is not an upvalue")
  end.

(** [UpvalueAccessor] in the function [func] of the current frame. *)
Definition GetMutable (func ord : nat) : V Value :=
  f ← the_function func;
  r ← GetMutableUpvaluePtr f ord;
  s ← on_rc (UpvalueGet r);
  value_of s.
Definition GetImmutable (func ord : nat) : V Value :=
  f ← the_function func; GetImmutableUpvalueValue f ord.
Definition PutUpvalue (func ord : nat) (valueToPut : Value) : V unit :=
  f ← the_function func;
  r ← GetMutableUpvaluePtr f ord;
  on_rc (UpvaluePut r (Some valueToPut)).
End units.

(** [self] of a block: captured by value or, when a non-local return must find the
    frame again, by reference. *)
Definition block_self (immSelf : bool) (f : FunctionObject) : V Value :=
  uv ← raw_upvalue f 0;
  if immSelf then match uv with UvValue v => mret v | _ => fail (UndefinedBehaviour "upvalue 0 is not a value") end
  else match uv with
       | UvPointer r => s ← on_rc (UpvalueGet r); value_of s
       | _ => fail (UndefinedBehaviour "upvalue 0 is not an upvalue pointer")
       end.
