(* ===== verification/Closures.v ===== *)
(** * What a closure captures

    [CreateAndFillUpvalues] ([runtime/runtime_utils.cpp]) gives a new block access
    to the variables of the functions around it: an immutable variable is copied, a
    mutable one is shared through an open upvalue, and a variable of a function
    further out is taken over from the enclosing function. *)
From S2P Require Import Prelude Interner Ast Bytecode Compiler CompilerProperties TValue Values OpenUpvalues Symbols Machine.

Lemma wp_on_rc {A} E (m : M (RContext Slot) A) Q s :
  wp E m (fun a rc => Q a (with_rc rc s)) (vm_rc s) -> wp E (on_rc m) Q s.
Proof. unfold wp, on_rc, mbind, result_bind. by destruct (m (vm_rc s)) as [[a rc]|e]. Qed.

Lemma wp_the_function E r f Q s : vm_functions s !! r = Some f -> Q f s -> wp E (the_function r) Q s.
Proof. intros H HQ. unfold wp, the_function. by rewrite H. Qed.

Lemma wp_load E n v Q s : rc_stack (vm_rc s) !! n = Some (Some v) -> Q v s -> wp E (load n) Q s.
Proof.
  intros H HQ. apply wp_bind, wp_on_rc. eapply wp_load_slot; [exact H|]. apply wp_ret.
  destruct s. exact HQ.
Qed.

Lemma wp_value_of E v Q s : Q v s -> wp E (value_of (Some v)) Q s.
Proof. intros HQ. by apply wp_ret. Qed.

(** States that differ in upvalues added to the list only. *)
Record grown (s s' : VMState) : Prop := {
  gr_str : vm_str s' = vm_str s;
  gr_globals : vm_globals s' = vm_globals s;
  gr_functions : vm_functions s' = vm_functions s;
  gr_stack : rc_stack (vm_rc s') = rc_stack (vm_rc s);
  gr_wf : rc_wf (vm_rc s) -> rc_wf (vm_rc s');
  gr_len : length (rc_heap (vm_rc s)) <= length (rc_heap (vm_rc s'));
  gr_seen r : r < length (rc_heap (vm_rc s)) -> seen (vm_rc s') r = seen (vm_rc s) r;
  gr_open n r : open_at (vm_rc s) n r -> open_at (vm_rc s') n r
}.

#[export] Instance grown_preorder : PreOrder grown.
Proof.
  split.
  - intros s. by split.
  - intros s1 s2 s3 [] []. split; try congruence; eauto; try lia.
    intros r Hr. rewrite gr_seen1 by lia. auto.
Qed.

Lemma wp_Create_grown E n imm Q s :
  rc_wf (vm_rc s) -> n < length (rc_stack (vm_rc s)) ->
  (forall r s', grown s s' -> open_at (vm_rc s') n r -> Q r s') ->
  wp E (on_rc (OpenUpvalues.Create n imm)) Q s.
Proof.
  intros Hwf Hn HQ. apply wp_on_rc. eapply wp_error_mono; [|eapply wp_mono; [by apply wp_Create|]]; [done|].
  intros r rc [Hwf' Hst Hold Hopen Hex Hfr]. apply HQ; [|simpl; apply Hopen; by right].
  split; simpl; try done.
  - apply Nat.nlt_ge. intros Hlt. destruct (seen_is_Some _ _ Hwf Hlt) as [v Hv].
    rewrite <-Hold in Hv by done. unfold seen in Hv. by rewrite lookup_ge_None_2 in Hv.
  - intros k r0 Hk. apply Hopen. by left.
Qed.

Section fill.
Context (base : nat) (parent : option nat) (selfOrd : nat).

(** Where the upvalue of a metadata record comes from, in the state a closure is
    created in. *)
Definition source_ok (s : VMState) (uvmt : UpvalueMetadata) : Prop :=
  if uv_isParentLocal uvmt then
    base + uv_slot uvmt < length (rc_stack (vm_rc s)) /\
    (uv_isImmutable uvmt = true -> uv_slot uvmt <> selfOrd ->
     exists v, rc_stack (vm_rc s) !! (base + uv_slot uvmt) = Some (Some v))
  else
    exists p f uv, parent = Some p /\ vm_functions s !! p = Some f /\ m_upvalues f !! uv_slot uvmt = Some uv /\
      (uv_isImmutable uvmt = false -> is_pointer uv = true).

(** What the closure [r] gets for it; [s] is the state after. *)
Definition captured (r : nat) (s : VMState) (uvmt : UpvalueMetadata) (uv : UpvalueEntry) : Prop :=
  if uv_isParentLocal uvmt then
    if uv_isImmutable uvmt then
      if uv_slot uvmt =? selfOrd then uv = UvValue (VFunction r)
      else exists v, rc_stack (vm_rc s) !! (base + uv_slot uvmt) = Some (Some v) /\ uv = UvValue v
    else exists u, uv = UvPointer u /\ open_at (vm_rc s) (base + uv_slot uvmt) u
  else exists p f, parent = Some p /\ vm_functions s !! p = Some f /\ m_upvalues f !! uv_slot uvmt = Some uv.

Lemma source_ok_grown s s' uvmt : grown s s' -> source_ok s uvmt -> source_ok s' uvmt.
Proof.
  intros [_ _ Hf Hst _ _ _ _]. unfold source_ok. rewrite Hf, Hst. done.
Qed.

Lemma captured_grown r s s' uvmt uv : grown s s' -> captured r s uvmt uv -> captured r s' uvmt uv.
Proof.
  intros [_ _ Hf Hst _ _ _ Ho]. unfold captured. rewrite Hf, Hst.
  destruct (uv_isParentLocal uvmt), (uv_isImmutable uvmt); naive_solver.
Qed.

Lemma wp_fill_upvalue r uvmt s :
  rc_wf (vm_rc s) -> source_ok s uvmt ->
  wp (fun _ => False) (fill_upvalue r base parent selfOrd uvmt) (fun uv s' => grown s s' /\ captured r s' uvmt uv) s.
Proof.
  intros Hwf. unfold source_ok, fill_upvalue, captured.
  destruct (uv_isParentLocal uvmt); [destruct (uv_isImmutable uvmt)|].
  - intros [_ Hv]. apply wp_if.
    + intros ->. by apply wp_ret.
    + intros Hne. rewrite Hne. apply Nat.eqb_neq in Hne. destruct (Hv eq_refl Hne) as [v Hst].
      apply wp_bind. eapply wp_load; [exact Hst|]. apply wp_ret. split; [done|by exists v].
  - intros [Hlt _]. apply wp_bind, wp_Create_grown; [done|done|]. intros u s' Hg Ho. apply wp_ret. eauto.
  - intros (p & f & uv & -> & Hf & Huv & Himm). apply wp_bind. eapply wp_the_function; [exact Hf|].
    unfold raw_upvalue. rewrite Huv. apply wp_bind, wp_ret, wp_bind, wp_check.
    + intros _. apply wp_ret. split; [done|by exists p, f].
    + intros H. apply orb_false_iff in H as [H1 H2]. rewrite Himm in H2 by done. discriminate H2.
Qed.

Lemma wp_fill_upvalues r uvmts s :
  rc_wf (vm_rc s) -> Forall (source_ok s) uvmts ->
  wp (fun _ => False) (fill_upvalues r base parent selfOrd uvmts)
    (fun uvs s' => grown s s' /\ Forall2 (captured r s') uvmts uvs) s.
Proof.
  revert s. induction uvmts as [|uvmt uvmts IH]; intros s Hwf Hall; [by apply wp_ret|].
  apply Forall_cons in Hall as [H1 Hall]. apply wp_bind. eapply wp_mono; [by apply wp_fill_upvalue|].
  intros uv s1 [Hg1 Hc1]. apply wp_bind. eapply wp_mono; [apply IH|].
  - by apply (gr_wf _ _ Hg1).
  - eapply Forall_impl; [exact Hall|]. intros m. by apply source_ok_grown.
  - intros uvs s2 [Hg2 Hc2]. apply wp_ret. split; [by etrans|]. constructor; [by eapply captured_grown|done].
Qed.
End fill.

Lemma alter_snoc {A} (g : A -> A) (l : list A) x : alter g (length l) (l ++ [x]) = l ++ [g x].
Proof. induction l as [|y l IH]; [done|]. exact (f_equal (cons y) IH). Qed.

Lemma source_ok_app base parent selfOrd s fs uvmt :
  source_ok base parent selfOrd s uvmt -> source_ok base parent selfOrd (with_functions (vm_functions s ++ fs) s) uvmt.
Proof.
  unfold source_ok. simpl. destruct (uv_isParentLocal uvmt); [done|].
  intros (p & f & uv & -> & Hf & H). exists p, f, uv. split; [done|]. split; [by apply lookup_app_Some_l|exact H].
Qed.

(** The closure [r] made from [cb] in state [s], in the state [s'] after. *)
Definition new_closure (cb : CodeBlock) (info : list UpvalueMetadata) (base : nat) (parent : option nat) (selfOrd : nat)
    (s : VMState) (r : nat) (s' : VMState) : Prop :=
  r = length (vm_functions s) /\
  grown (with_functions (vm_functions s') s) s' /\
  exists uvs, vm_functions s' = vm_functions s ++ [mk_function (BytecodeFunction cb) (m_fnTyMask cb) uvs] /\
    Forall2 (captured base parent selfOrd r (with_functions (vm_functions s) s')) info uvs.

Lemma captured_back base parent selfOrd r s0 s x uvmt uv :
  source_ok base parent selfOrd s0 uvmt -> vm_functions s = vm_functions s0 ++ [x] ->
  captured base parent selfOrd r s uvmt uv ->
  captured base parent selfOrd r (with_functions (vm_functions s0) s) uvmt uv.
Proof.
  unfold source_ok, captured. simpl. intros Hs Hf. destruct (uv_isParentLocal uvmt); [done|].
  destruct Hs as (p & f & uv0 & -> & Hp & Huv & _). intros (p' & f' & [= <-] & Hp' & Huv').
  rewrite Hf, (lookup_app_Some_l _ _ _ _ Hp) in Hp'. injection Hp' as <-. by exists p, f.
Qed.

Lemma wp_CreateAndFillUpvalues cb info base parent selfOrd s :
  rc_wf (vm_rc s) -> m_needExtraUpvalueDueToTrivialFn cb = false -> m_numUpvalues cb <= 255 ->
  Forall (source_ok base parent selfOrd s) info ->
  wp (fun _ => False) (CreateAndFillUpvalues cb info base parent selfOrd) (new_closure cb info base parent selfOrd s) s.
Proof.
  intros Hwf Hx Hn Hall. unfold CreateAndFillUpvalues, FunctionObject_Create, num_upvalues. rewrite Hx. simpl.
  rewrite Nat.add_0_r, (proj2 (Nat.leb_le _ _)) by done. simpl.
  apply wp_bind. unfold wp at 1, new_function, mbind, M_bind. simpl.
  set (s0 := with_functions _ s).
  apply wp_bind. eapply wp_mono; [apply (wp_fill_upvalues base parent selfOrd (length (vm_functions s)) info s0 Hwf)|].
  { eapply Forall_impl; [exact Hall|]. intros m. apply source_ok_app. }
  intros uvs s1 [Hg Hc]. pose proof (gr_functions _ _ Hg) as Hf. simpl in Hf.
  split; [done|]. split.
  - destruct Hg. by split.
  - exists uvs. simpl. rewrite Hf, alter_snoc. split; [done|]. simpl.
    apply Forall2_same_length_lookup. split; [by eapply Forall2_length|].
    intros i uvmt uv H1 H2. rewrite Forall_forall in Hall.
    eapply (captured_back base parent selfOrd _ s s1); [by apply Hall; eapply list_elem_of_lookup_2|exact Hf|].
    by eapply Forall2_lookup_lr.
Qed.

(** ** Reading and writing through the closure *)
Section access.
Context (units : Units).

(** Upvalue [ord] of function [r] holds [uv], and is immutable as [imm] says. *)
Definition has_upvalue (imm : bool) (s : VMState) (r ord : nat) (uv : UpvalueEntry) : Prop :=
  exists f cb c mt, vm_functions s !! r = Some f /\ m_executable f = BytecodeFunction cb /\
    m_needExtraUpvalueDueToTrivialFn cb = false /\ units !! (m_owner cb).1 ≫= (.!! (m_owner cb).2) = Some c /\
    m_upvalueInfo (m_resultUcb c) !! ord = Some mt /\ uv_isImmutable mt = imm /\ m_upvalues f !! ord = Some uv.

Lemma has_upvalue_same imm s s' r ord uv :
  vm_functions s' = vm_functions s -> has_upvalue imm s r ord uv -> has_upvalue imm s' r ord uv.
Proof. unfold has_upvalue. by intros ->. Qed.

Lemma IsUpvalueImmutable_eq f cb c mt ord uv s :
  m_executable f = BytecodeFunction cb -> m_needExtraUpvalueDueToTrivialFn cb = false ->
  units !! (m_owner cb).1 ≫= (.!! (m_owner cb).2) = Some c -> m_upvalueInfo (m_resultUcb c) !! ord = Some mt ->
  m_upvalues f !! ord = Some uv -> IsUpvalueImmutable units f ord s = Ok (uv_isImmutable mt, s).
Proof.
  intros He Hx Hc Hm Hu. unfold IsUpvalueImmutable, the_context. rewrite He, Hc.
  rewrite (proj2 (Nat.ltb_lt _ _)) by (by eapply lookup_lt_Some). rewrite Hx. unfold mbind, M_bind. simpl. by rewrite Hm.
Qed.

Lemma the_function_eq s r f : vm_functions s !! r = Some f -> the_function r s = Ok (f, s).
Proof. intros H. unfold the_function. by rewrite H. Qed.

Lemma GetMutableUpvaluePtr_eq s r ord u :
  has_upvalue false s r ord (UvPointer u) ->
  exists f, the_function r s = Ok (f, s) /\ GetMutableUpvaluePtr units f ord s = Ok (u, s).
Proof.
  intros (f & cb & c & mt & Hf & He & Hx & Hc & Hm & Hi & Hu). exists f. split; [by apply the_function_eq|].
  unfold GetMutableUpvaluePtr, raw_upvalue, mbind, M_bind at 1.
  by rewrite (IsUpvalueImmutable_eq f cb c mt ord (UvPointer u)), Hi, Hu.
Qed.

Lemma on_rc_eq {A} (m : M (RContext Slot) A) a rc s : m (vm_rc s) = Ok (a, rc) -> on_rc m s = Ok (a, with_rc rc s).
Proof. intros H. unfold on_rc. by rewrite H. Qed.

Lemma with_rc_same s : with_rc (vm_rc s) s = s.
Proof. by destruct s. Qed.

Lemma UpvalueGet_eq u (v : Slot) rc : seen rc u = Some v -> UpvalueGet u rc = Ok (v, rc).
Proof.
  intros H. destruct (wp_total _ (fun w rc' => w = v /\ rc' = rc) rc (wp_UpvalueGet _ u v rc _ H (conj eq_refl eq_refl)))
    as (w & rc' & -> & -> & ->). done.
Qed.

Lemma GetMutable_eq s r ord u v :
  has_upvalue false s r ord (UvPointer u) -> seen (vm_rc s) u = Some (Some v) -> GetMutable units r ord s = Ok (v, s).
Proof.
  intros Hu Hv. destruct (GetMutableUpvaluePtr_eq _ _ _ _ Hu) as (f & Hf & Hp). unfold GetMutable, mbind, M_bind.
  rewrite Hf, Hp, (on_rc_eq _ (Some v) (vm_rc s)) by (by apply UpvalueGet_eq). by rewrite with_rc_same.
Qed.

Lemma GetImmutable_eq s r ord v : has_upvalue true s r ord (UvValue v) -> GetImmutable units r ord s = Ok (v, s).
Proof.
  intros (f & cb & c & mt & Hf & He & Hx & Hc & Hm & Hi & Hu).
  unfold GetImmutable, GetImmutableUpvalueValue, raw_upvalue, mbind, M_bind.
  rewrite (the_function_eq _ _ _ Hf), (IsUpvalueImmutable_eq f cb c mt ord (UvValue v)) by done. by rewrite Hi, Hu.
Qed.

Lemma PutUpvalue_eq s r ord u v :
  rc_wf (vm_rc s) -> u < length (rc_heap (vm_rc s)) -> has_upvalue false s r ord (UvPointer u) ->
  exists rc, PutUpvalue units r ord v s = Ok (tt, with_rc rc s) /\ put_through u (Some v) (vm_rc s) rc.
Proof.
  intros Hwf Hlt Hu. destruct (GetMutableUpvaluePtr_eq _ _ _ _ Hu) as (f & Hf & Hp).
  destruct (wp_total _ _ _ (wp_UpvaluePut (fun _ => False) u (Some v) (vm_rc s)
    (fun _ rc => put_through u (Some v) (vm_rc s) rc) Hwf Hlt (fun _ H => H))) as ([] & rc & Hput & Hrc).
  exists rc. split; [|done]. unfold PutUpvalue, mbind, M_bind. rewrite Hf, Hp. by apply on_rc_eq.
Qed.

Lemma load_eq s n v : rc_stack (vm_rc s) !! n = Some (Some v) -> load n s = Ok (v, s).
Proof.
  intros H. unfold load, mbind, M_bind. rewrite (on_rc_eq _ (Some v) (vm_rc s)).
  - by rewrite with_rc_same.
  - unfold load_slot. by rewrite H.
Qed.

Lemma store_eq s n v :
  n < length (rc_stack (vm_rc s)) -> store n v s = Ok (tt, with_rc (with_slot n (Some v) (vm_rc s)) s).
Proof. intros [w H]%lookup_lt_is_Some_2. apply on_rc_eq. unfold store_slot. by rewrite H. Qed.
End access.

(** The situation of a [NewClosure] bytecode: the code block [ref] is created in a
    frame whose slots and function supply its upvalues. *)
Record creatable (units : Units) (ref : UcbRef) (c : TranslationContext) (cb : CodeBlock) (base : nat) (parent : option nat)
    (selfOrd : nat) (s : VMState) : Prop := {
  ca_wf : rc_wf (vm_rc s);
  ca_unit : units !! ref.1 ≫= (.!! ref.2) = Some c;
  ca_cb : CodeBlock_Create ref (m_resultUcb c) = Ok cb;
  ca_normal : needs_extra (m_trivialFnType (m_resultUcb c)) = false;
  ca_few : length (m_upvalueInfo (m_resultUcb c)) <= 255;
  ca_sources : Forall (source_ok base parent selfOrd s) (m_upvalueInfo (m_resultUcb c))
}.

Lemma creatable_cb units ref c cb base parent selfOrd s :
  creatable units ref c cb base parent selfOrd s ->
  m_owner cb = ref /\ m_needExtraUpvalueDueToTrivialFn cb = false /\ m_numUpvalues cb <= 255.
Proof.
  intros [_ _ Hcb Hx Hf _]. unfold CodeBlock_Create in Hcb. rewrite Hx in Hcb. simpl in Hcb. by injection Hcb as <-.
Qed.

Lemma create_closure units ref c cb base parent selfOrd s :
  creatable units ref c cb base parent selfOrd s ->
  exists r s', CreateAndFillUpvalues cb (m_upvalueInfo (m_resultUcb c)) base parent selfOrd s = Ok (r, s') /\
    new_closure cb (m_upvalueInfo (m_resultUcb c)) base parent selfOrd s r s' /\ rc_wf (vm_rc s').
Proof.
  intros Hc. destruct (creatable_cb _ _ _ _ _ _ _ _ Hc) as (_ & Hx & Hn).
  destruct (wp_total _ _ _ (wp_CreateAndFillUpvalues cb (m_upvalueInfo (m_resultUcb c)) base parent selfOrd s
    (ca_wf _ _ _ _ _ _ _ _ Hc) Hx Hn (ca_sources _ _ _ _ _ _ _ _ Hc))) as (r & s' & Hr & Hnew).
  exists r, s'. split_and!; [done|done|]. destruct Hnew as (_ & Hg & _). apply (gr_wf _ _ Hg). apply Hc.
Qed.

Lemma closure_upvalue units ref c cb base parent selfOrd s r s' ord mt :
  creatable units ref c cb base parent selfOrd s ->
  new_closure cb (m_upvalueInfo (m_resultUcb c)) base parent selfOrd s r s' ->
  m_upvalueInfo (m_resultUcb c) !! ord = Some mt ->
  exists uv, has_upvalue units (uv_isImmutable mt) s' r ord uv /\
    captured base parent selfOrd r (with_functions (vm_functions s) s') mt uv.
Proof.
  intros Hc (-> & _ & uvs & Hf & Hall) Hm. destruct (creatable_cb _ _ _ _ _ _ _ _ Hc) as (Ho & Hx & _).
  destruct (Forall2_lookup_l _ _ _ _ _ Hall Hm) as (uv & Huv & Hcap). exists uv. split; [|done].
  eexists _, cb, c, mt. split_and!; [by rewrite Hf, list_lookup_middle|done|done| |done|done|done].
  rewrite Ho. apply Hc.
Qed.

(** What the new block [r] sees of slot [base + slot] of the frame it was created in;
    [s] is the state before, [s'] the state after. *)
Definition sees_slot (units : Units) (imm : bool) (base slot selfOrd r ord : nat) (s s' : VMState) : Prop :=
  if imm then
    exists v, GetImmutable units r ord s' = Ok (v, s') /\
      if slot =? selfOrd then v = VFunction r else rc_stack (vm_rc s) !! (base + slot) = Some (Some v)
  else
    (forall v, exists s1, store (base + slot) v s' = Ok (tt, s1) /\ GetMutable units r ord s1 = Ok (v, s1)) /\
    (forall v, exists s1, PutUpvalue units r ord v s' = Ok (tt, s1) /\ load (base + slot) s1 = Ok (v, s1)) /\
    (forall v top w, rc_stack (vm_rc s) !! (base + slot) = Some (Some v) -> top <= base + slot ->
      exists s1 s2, on_rc (CloseUpvalues top) s' = Ok (tt, s1) /\ store (base + slot) w s1 = Ok (tt, s2) /\
        GetMutable units r ord s2 = Ok (v, s2)).
(** An immutable upvalue holds a value, a mutable one a pointer. *)
Definition upvalue_shape (imm : bool) (uv : UpvalueEntry) : Prop :=
  match uv with UvValue _ => imm = true | UvPointer _ => imm = false | UvTrivial _ => False end.
(** Upvalue [ord] of [r] is upvalue [slot] of [p], now and later. *)
Definition sees_upvalue (units : Units) (imm : bool) (p slot r ord : nat) (s' : VMState) : Prop :=
  forall t, vm_functions t = vm_functions s' ->
    if imm then exists v, GetImmutable units p slot t = Ok (v, t) /\ GetImmutable units r ord t = Ok (v, t)
    else GetMutable units r ord t = GetMutable units p slot t /\
      forall v, PutUpvalue units r ord v t = PutUpvalue units p slot v t.

Lemma local_upvalue_seen units ref c cb base parent selfOrd s ord slot imm r s' :
  creatable units ref c cb base parent selfOrd s ->
  m_upvalueInfo (m_resultUcb c) !! ord = Some (mk_uvmeta imm true slot) ->
  new_closure cb (m_upvalueInfo (m_resultUcb c)) base parent selfOrd s r s' -> rc_wf (vm_rc s') ->
  sees_slot units imm base slot selfOrd r ord s s'.
Proof.
  intros Hc Hm Hnew Hwf'. unfold sees_slot.
  destruct (closure_upvalue _ _ _ _ _ _ _ _ _ _ _ _ Hc Hnew Hm) as (uv & Hu & Hcap).
  destruct Hnew as (_ & Hg & _). pose proof (gr_stack _ _ Hg) as Hst. simpl in Hst.
  unfold captured in Hcap. simpl in Hu, Hcap. destruct imm.
  - destruct (slot =? selfOrd); [subst uv|destruct Hcap as (v & Hv & ->); rewrite Hst in Hv];
      by eexists; (split; [by apply GetImmutable_eq|]).
  - destruct Hcap as (u & -> & Ho). pose proof Ho as (u0 & Hu0 & _). apply lookup_lt_Some in Hu0 as Hlt.
    assert (Hn : base + slot < length (rc_stack (vm_rc s'))).
    { destruct Hwf' as [l Hok]. apply (rk_slots _ _ _ Hok u), (open_in _ _ _ _ _ Hok), Ho. }
    split_and!.
    + intros v. eexists. split; [by apply store_eq|]. apply GetMutable_eq with (u := u).
      * by eapply has_upvalue_same; [|exact Hu].
      * by apply with_slot_seen.
    + intros v. destruct (PutUpvalue_eq units s' r ord u v Hwf' Hlt Hu) as (rc & Hput & Hpt).
      eexists. split; [exact Hput|]. apply load_eq. simpl. apply pt_open with (n := base + slot) (r0 := u) in Hpt as Ho'.
      apply Ho' in Ho as (u1 & Hu1 & Hp1). pose proof (pt_seen _ _ _ _ Hpt) as Hs. unfold seen in Hs.
      rewrite Hu1 in Hs. simpl in Hs. by rewrite Hp1 in Hs.
    + intros v top w Hv Htop.
      destruct (wp_total _ _ _ (wp_CloseUpvalues top (vm_rc s') Hwf')) as ([] & rc & Hcl & Hwf1 & Hcu).
      exists (with_rc rc s'). eexists. split; [by apply on_rc_eq|]. split.
      { apply store_eq. simpl. by rewrite (cu_stack _ _ _ Hcu). }
      apply GetMutable_eq with (u := u); [by eapply has_upvalue_same; [|exact Hu]|]. simpl.
      assert (Hno : ~ open_at rc (base + slot) u) by (rewrite (cu_open _ _ _ Hcu); lia).
      rewrite (proj2 (with_slot_seen (base + slot) (Some w) rc u ltac:(rewrite (cu_stack _ _ _ Hcu); lia)) Hno).
      rewrite (cu_seen _ _ _ Hcu). destruct Ho as (u1 & Hu1 & Hp1). unfold seen. rewrite Hu1. simpl. by rewrite Hp1, Hst.
Qed.

Lemma inherited_upvalue_seen units ref c cb base p selfOrd s ord slot imm r s' uv :
  creatable units ref c cb base (Some p) selfOrd s ->
  m_upvalueInfo (m_resultUcb c) !! ord = Some (mk_uvmeta imm false slot) ->
  new_closure cb (m_upvalueInfo (m_resultUcb c)) base (Some p) selfOrd s r s' ->
  has_upvalue units imm s p slot uv -> upvalue_shape imm uv -> sees_upvalue units imm p slot r ord s'.
Proof.
  intros Hc Hm Hnew Hp Hshape. destruct (closure_upvalue _ _ _ _ _ _ _ _ _ _ _ _ Hc Hnew Hm) as (uv' & Hu & Hcap).
  destruct Hnew as (_ & _ & uvs & Hf & _). unfold captured in Hcap. simpl in Hcap, Hu.
  destruct Hcap as (p' & f & Hpe & Hpf & Huv). injection Hpe as <-. assert (uv' = uv) as ->.
  { destruct Hp as (f' & ? & ? & ? & Hpf' & _ & _ & _ & _ & _ & Huv'). congruence. }
  assert (Hp' : has_upvalue units imm s' p slot uv).
  { destruct Hp as (f' & Hrest). destruct Hrest as (cb' & c' & mt & Hpf' & Hrest). exists f', cb', c', mt.
    split; [|exact Hrest]. rewrite Hf. by apply lookup_app_Some_l. }
  intros t Ht. apply (has_upvalue_same _ _ _ t) in Hp'; [|done]. apply (has_upvalue_same _ _ _ t) in Hu; [|done].
  destruct uv as [v|u|?]; simpl in Hshape; [| |done]; subst imm.
  - exists v. split; by apply GetImmutable_eq.
  - destruct (GetMutableUpvaluePtr_eq _ _ _ _ _ Hp') as (f1 & Hf1 & Hp1).
    destruct (GetMutableUpvaluePtr_eq _ _ _ _ _ Hu) as (f2 & Hf2 & Hp2).
    unfold GetMutable, PutUpvalue, mbind, M_bind. by rewrite Hf1, Hp1, Hf2, Hp2.
Qed.

(** C35: a new block sees the variables its upvalue records name, those of the frame
    it was created in and those the enclosing function has as upvalues.  A variable of
    the frame that is never assigned after being captured is read back as it was, or as
    the block itself when it is the variable the block is stored in.  Any other is
    shared while the frame is active: the block reads what the frame stores and
    the frame reads what the block stores; after the frame's upvalues are closed
    the block keeps the last value, whatever is put in the slot.  An upvalue taken over
    from the enclosing function [p] is the one of the ordinal the record names: reading
    and writing it through the block is reading and writing it through [p], in every
    later state. *)
Theorem closure_sees_variables units ref c cb base parent selfOrd s ord slot imm local :
  creatable units ref c cb base parent selfOrd s ->
  m_upvalueInfo (m_resultUcb c) !! ord = Some (mk_uvmeta imm local slot) ->
  exists r s', CreateAndFillUpvalues cb (m_upvalueInfo (m_resultUcb c)) base parent selfOrd s = Ok (r, s') /\
    rc_stack (vm_rc s') = rc_stack (vm_rc s) /\
    if local then sees_slot units imm base slot selfOrd r ord s s'
    else exists p, parent = Some p /\
      forall uv, has_upvalue units imm s p slot uv -> upvalue_shape imm uv -> sees_upvalue units imm p slot r ord s'.
Proof.
  intros Hc Hm. destruct (create_closure _ _ _ _ _ _ _ _ Hc) as (r & s' & Hr & Hnew & Hwf').
  exists r, s'. split; [done|]. split; [exact (gr_stack _ _ (proj1 (proj2 Hnew)))|]. destruct local.
  - by eapply local_upvalue_seen.
  - pose proof (ca_sources _ _ _ _ _ _ _ _ Hc) as Hall. rewrite Forall_forall in Hall.
    pose proof (Hall _ (list_elem_of_lookup_2 _ _ _ Hm)) as Hs. unfold source_ok in Hs. simpl in Hs.
    destruct Hs as (p & f & uv & -> & _). exists p. split; [done|]. intros uv' Hp Hshape. by eapply inherited_upvalue_seen.
Qed.

(** ** A compiled block *)

(** [run: y = ( | x | x := y. self foo: [ x := y ]. ^ x )] *)
Definition counter_method : AstMethod :=
  mk_ast_method MK_Keyword false sample_foo ["y"] ["x"]
    [AstAssignation ["x"] (AstVariableUse "y");
     AstKeywordCall sample_foo (AstVariableUse "self") [AstNestedBlock [] [] [AstAssignation ["x"] (AstVariableUse "y")]];
     AstReturn (AstVariableUse "x")].
Definition counter_units : Units :=
  match CompileMethod no_hash eight no_constants 10 sample_env counter_method sample_state with
  | Ok (_, s) => [cs_ctxs s]
  | Err _ => []
  end.
Definition counter_block : TranslationContext := default new_context (counter_units !! 0 ≫= (.!! 1)).

Definition sample_vm : VMState :=
  mk_vm (mk_str empty_interner [] [] [] []) [] (mk_rcontext [] None (Some <$> [VNil; VInt 1; VInt 2; VInt 3])) [].
Definition counter_cb : CodeBlock := mk_cb (0, 1) 1 2 3 19 false TfNone.

Lemma counter_creatable : creatable counter_units (0, 1) counter_block counter_cb 1 None 8 sample_vm.
Proof.
  split; [apply empty_rc_wf|vm_compute; reflexivity|vm_compute; reflexivity|vm_compute; reflexivity|vm_compute; lia|].
  change (m_upvalueInfo (m_resultUcb counter_block)) with
    [mk_uvmeta true true 0; mk_uvmeta true true 1; mk_uvmeta false true 2].
  repeat constructor; simpl; try lia; intros; by eexists.
Qed.

(** A block in a block, which assigns the method's [x] through the block around it:
    [run: y = ( | x | x := y. self foo: [ self foo: [ x := y ] ]. ^ x )] *)
Definition nested_method : AstMethod :=
  mk_ast_method MK_Keyword false sample_foo ["y"] ["x"]
    [AstAssignation ["x"] (AstVariableUse "y");
     AstKeywordCall sample_foo (AstVariableUse "self") [AstNestedBlock [] [] [
       AstKeywordCall sample_foo (AstVariableUse "self") [AstNestedBlock [] [] [AstAssignation ["x"] (AstVariableUse "y")]]]];
     AstReturn (AstVariableUse "x")].
Definition nested_units : Units :=
  match CompileMethod no_hash eight no_constants 10 sample_env nested_method sample_state with
  | Ok (_, s) => [cs_ctxs s]
  | Err _ => []
  end.
Definition nested_block (i : nat) : TranslationContext := default new_context (nested_units !! 0 ≫= (.!! i)).
Definition outer_cb : CodeBlock := mk_cb (0, 1) 1 7 3 19 false TfNone.
Definition inner_cb : CodeBlock := mk_cb (0, 2) 1 2 3 19 false TfNone.
Definition outer_run := CreateAndFillUpvalues outer_cb (m_upvalueInfo (m_resultUcb (nested_block 1))) 1 None 8 sample_vm.
Definition outer_vm : VMState := match outer_run with Ok (_, s) => s | Err _ => sample_vm end.
Lemma outer_run_ok : outer_run = Ok (0, outer_vm).
Proof. vm_compute. reflexivity. Qed.

Lemma outer_creatable : creatable nested_units (0, 1) (nested_block 1) outer_cb 1 None 8 sample_vm.
Proof.
  split; [apply empty_rc_wf|vm_compute; reflexivity|vm_compute; reflexivity|vm_compute; reflexivity|vm_compute; lia|].
  change (m_upvalueInfo (m_resultUcb (nested_block 1))) with
    [mk_uvmeta true true 0; mk_uvmeta true true 1; mk_uvmeta false true 2].
  repeat constructor; simpl; try lia; intros; by eexists.
Qed.
Lemma inner_creatable : creatable nested_units (0, 2) (nested_block 2) inner_cb 1 (Some 0) 6 outer_vm.
Proof.
  split; [|vm_compute; reflexivity|vm_compute; reflexivity|vm_compute; reflexivity|vm_compute; lia|].
  - destruct (create_closure _ _ _ _ _ _ _ _ outer_creatable) as (r & s' & Hr & _ & Hwf).
    pose proof (f_equal (fun x => match x with Ok (_, t) => t | Err _ => outer_vm end) (eq_trans (eq_sym outer_run_ok) Hr)) as Hs.
    cbv beta iota in Hs. rewrite Hs. exact Hwf.
  - change (m_upvalueInfo (m_resultUcb (nested_block 2))) with
      [mk_uvmeta true true 0; mk_uvmeta true false 1; mk_uvmeta false false 2].
    apply Forall_cons. split; [|apply Forall_cons; split; [|apply Forall_cons; split; [|apply Forall_nil_2]]].
    + split; [apply Nat.ltb_lt; vm_compute; reflexivity|]. intros _ _. eexists. vm_compute. reflexivity.
    + eexists _, _, _. split; [reflexivity|]. split; [vm_compute; reflexivity|]. split; [vm_compute; reflexivity|done].
    + eexists _, _, _. split; [reflexivity|]. split; [vm_compute; reflexivity|]. split; [vm_compute; reflexivity|done].
Qed.

Lemma closure_sees_variables_witness :
  (exists r s' s1, CreateAndFillUpvalues counter_cb (m_upvalueInfo (m_resultUcb counter_block)) 1 None 8 sample_vm = Ok (r, s') /\
    store 3 (VInt 42) s' = Ok (tt, s1) /\ GetMutable counter_units r 2 s1 = Ok (VInt 42, s1)) /\
  (exists r s', CreateAndFillUpvalues inner_cb (m_upvalueInfo (m_resultUcb (nested_block 2))) 1 (Some 0) 6 outer_vm = Ok (r, s') /\
    sees_upvalue nested_units false 0 2 r 2 s').
Proof.
  split.
  - destruct (closure_sees_variables counter_units (0, 1) counter_block counter_cb 1 None 8 sample_vm 2 2 false true
      counter_creatable eq_refl) as (r & s' & Hr & _ & Hstore & _).
    destruct (Hstore (VInt 42)) as (s1 & H1 & H2). exists r, s', s1. split; [exact Hr|split; [exact H1|exact H2]].
  - destruct (closure_sees_variables nested_units (0, 2) (nested_block 2) inner_cb 1 (Some 0) 6 outer_vm 2 2 false false
      inner_creatable ltac:(vm_compute; reflexivity)) as (r & s' & Hr & _ & p & Hp & Huv).
    injection Hp as <-. exists r, s'. split; [exact Hr|]. apply (Huv (UvPointer 0)); [|reflexivity].
    eexists _, outer_cb, (nested_block 1), (mk_uvmeta false true 2).
    split; [vm_compute; reflexivity|]. split; [reflexivity|]. split; [reflexivity|]. split; [vm_compute; reflexivity|].
    split; [vm_compute; reflexivity|]. split; [reflexivity|]. vm_compute. reflexivity.
Defined.
