(* ===== verification/Calls.v ===== *)
(** * Sending messages

    How the call bytecodes find and run a method: [runtime/som_utils.h]
    ([GetSOMClassOfAny]), [annotated/bytecodes/som_call_utils.h],
    [som_call.cpp], [som_self_call.cpp], [som_super_call.cpp] and
    [som_global_get.cpp].  A bytecode either has its result or calls a function,
    with the arguments that already lie in the frame or with copies of them. *)
From S2P Require Import Prelude Interner VmSelectors CNumbers Bytecode Compiler MethodTable TValue Values Primitives OpenUpvalues Symbols Machine.
#[local] Set Default Proof Using "Type".

Inductive Outcome : Type :=
  | Return (v : Value)
  | MakeInPlaceCall (f : nat) (argsBegin numArgs : nat)
  | MakeCall (f : nat) (args : list Value).

(** The classes that exist, and the ones the program knows by name. *)
Record Classes : Type := mk_classes {
  k_classes : list (@SOMClass nat);
  m_nilClass : nat;
  m_trueClass : nat;
  m_falseClass : nat;
  m_integerClass : nat;
  m_doubleClass : nat;
  m_block1Class : nat;
  m_block2Class : nat;
  m_block3Class : nat;
  m_arrayHiddenClass : nat;
  m_stringHiddenClass : nat;
  m_symbolClass : nat
}.

Section calls.
Context (vm : VMStrings) (K : Classes).

(** [o->m_hiddenClass] *)
Definition hidden_class (o : HeapObject) : nat :=
  match o with
  | OPlain c _ => c
  | OArray _ => m_arrayHiddenClass K
  | OString StringString _ => m_stringHiddenClass K
  | OString StringSymbol _ => m_symbolClass K
  end.

Definition bad_class : error := UndefinedBehaviour "not a class".
Definition the_class (cl : nat) : V (@SOMClass nat) :=
  match k_classes K !! cl with Some c => mret c | None => fail bad_class end.

Definition GetSOMClassOfAny (tv : Value) : V nat :=
  match tv with
  | VObject r => o ← on_objects (deref r); mret (hidden_class o)
  | VNil => mret (m_nilClass K)
  | VBool b => mret (if b then m_trueClass K else m_falseClass K)
  | VInt _ => mret (m_integerClass K)
  | VDouble _ => mret (m_doubleClass K)
  | VFunction r =>
      f ← the_function r;
      match entity_of_mask (m_invalidArrayType f) with
      | Some SOM_BlockNoArg | Some SOM_BlockNoArgImmSelf => mret (m_block1Class K)
      | Some SOM_BlockOneArg | Some SOM_BlockOneArgImmSelf => mret (m_block2Class K)
      | Some SOM_BlockTwoArgs | Some SOM_BlockTwoArgsImmSelf => mret (m_block3Class K)
      | _ => fail (AssertFailed "false")
      end
  end.

(** [SOMClass::GetMethod] *)
Definition FindMethod (cl : nat) (meth : SOMUniquedString) : V (option nat) :=
  c ← the_class cl; lift_result (GetMethod c meth).

(** [VM_GetGlobal]; [None] is the impossible value of a global never assigned. *)
Definition VM_GetGlobal (idx : nat) : V (option Value) := fun s =>
  match vm_globals s !! idx with
  | Some v => Ok (v, s)
  | None => Err (AssertFailed "idx < m_globalsVec.size()")
  end.

(** ** Method lookup with an inline cache *)

(** The second component of a lookup: nothing, a function, or the index of a
    global or field. *)
Inductive Found : Type := FoundNothing | FoundFunction (f : nat) | FoundIndex (i : nat).
Definition LookupResult : Type := SOMMethodLookupResultKind * Found.

(** The key of the cache is the first word of the receiver: the class of an object,
    or the code of a function, which is no class. *)
Inductive CacheKey : Type := KeyClass (cl : nat) | KeyCode (e : ExecutableCode).
Definition cache_key (base : Value) : V CacheKey :=
  match base with
  | VObject r => o ← on_objects (deref r); mret (KeyClass (hidden_class o))
  | VFunction r => f ← the_function r; mret (KeyCode (m_executable f))
  | _ => fail (AssertFailed "base is a heap entity")
  end.

(** The extra information of a trivial method that has an index. *)
Definition trivial_index (f : FunctionObject) : V nat :=
  match m_upvalues f with
  | [UvTrivial (TfIndex i)] =>
      check (Z.of_nat i <? 2 ^ 31)%Z (AssertFailed "IntegerCanBeRepresentedIn<int32_t>(src)") ;; mret i
  | _ => fail (AssertFailed "f->m_numUpvalues == 1")
  end.

(** What the cache remembers: the result, unless the method is missing, or returns
    a global that does not exist yet. *)
Definition classify (f : nat) : V (LookupResult * bool) :=
  fo ← the_function f;
  match lookup_kind_of_mask (m_invalidArrayType fo) with
  | None => fail (UndefinedBehaviour "not a SOMMethodLookupResultKind")
  | Some SOM_GlobalReturn =>
      i ← trivial_index fo;
      g ← VM_GetGlobal i;
      mret (match g with
            | None => ((SOM_NormalMethod, FoundFunction f), false)
            | Some _ => ((SOM_GlobalReturn, FoundIndex i), true)
            end)
  | Some SOM_Getter => i ← trivial_index fo; mret ((SOM_Getter, FoundIndex i), true)
  | Some SOM_Setter => i ← trivial_index fo; mret ((SOM_Setter, FoundIndex i), true)
  | Some k =>
      check (bool_decide (k = SOM_NormalMethod \/ k = SOM_LiteralReturn \/ k = SOM_SelfReturn))
        (UndefinedBehaviour "IcSpecializeValueFullCoverage") ;;
      mret ((k, FoundFunction f), true)
  end.

Definition lookup_in_class (cl : nat) (meth : SOMUniquedString) : V (LookupResult * bool) :=
  f ← FindMethod cl meth;
  match f with
  | None => mret ((SOM_MethodNotFound, FoundNothing), false)
  | Some f => classify f
  end.

(** The body of the cache: [superClass] is given for a super send. *)
Definition lookup_body (base : Value) (meth : SOMUniquedString) (superClass : option nat) : V (LookupResult * bool) :=
  match base with
  | VObject r =>
      o ← on_objects (deref r);
      lookup_in_class (default (hidden_class o) superClass) meth
  | _ => mret ((SOM_CallBaseNotObject, FoundNothing), false)
  end.

Notation InlineCache := (list (CacheKey * LookupResult)).

#[local] Instance key_eq_class (k : CacheKey) (cl : nat) : Decision (k = KeyClass cl).
Proof. destruct k as [cl'|e]; [|by right]. destruct (decide (cl' = cl)); [left; congruence|right; congruence]. Defined.

(** Only keys that are classes are ever stored. *)
Fixpoint cached (ic : InlineCache) (key : CacheKey) : option LookupResult :=
  match ic, key with
  | (k, res) :: ic', KeyClass cl => if decide (k = KeyClass cl) then Some res else cached ic' key
  | _, _ => None
  end.

(** How many entries a site keeps is up to the generated code: [capacity]. *)
Definition LookupObjectMethodImpl (capacity : nat) (ic : InlineCache) (base : Value) (meth : SOMUniquedString)
    (superClass : option nat) : V (LookupResult * InlineCache) :=
  key ← cache_key base;
  match cached ic key with
  | Some res => mret (res, ic)
  | None =>
      r ← lookup_body base meth superClass;
      mret (r.1, if (r.2 : bool) then take capacity ((key, r.1) :: ic) else ic)
  end.

Definition LookupMethodGeneralImpl (self : Value) (meth : SOMUniquedString) : V (option nat) :=
  cl ← GetSOMClassOfAny self; FindMethod cl meth.

(** ** Running a method *)

(** The value a literal constant stands for; strings and symbols are the shared
    objects of the machine, arrays the objects made when they were compiled. *)
Definition literal_value (arrays : list nat) (c : Cst) : V Value :=
  match c with
  | CstDouble d => mret (VDouble d)
  | CstInt32 z => mret (VInt z)
  | CstBool b => mret (VBool b)
  | CstNil => mret VNil
  | CstInternedString ord => o ← on_str (GetInternedString ord); mret (VObject o)
  | CstInternedSymbol ord => o ← on_str (GetInternedSymbol ord); mret (VObject o)
  | CstArray addr =>
      match arrays !! addr with Some o => mret (VObject o) | None => fail (UndefinedBehaviour "not an array constant") end
  | _ => fail (UndefinedBehaviour "not a value")
  end.

Context (arrays : list nat).

(** [base->m_data[fieldIdx]] of an object. *)
Definition object_fields (self : Value) : V (nat * nat * list Value) :=
  match self with
  | VObject r =>
      o ← on_objects (deref r);
      match o with
      | OPlain c data => mret (r, c, data)
      | _ => fail (UndefinedBehaviour "an array or string has no fields")
      end
  | _ => fail (AssertFailed "self.Is<tObject>()")
  end.

Definition bad_field : error := UndefinedBehaviour "outside the object".

Definition ExecuteTrivialMethodExceptSetter (fn : Found) (self : Value) (triviality : SOMMethodLookupResultKind) : V Value :=
  match triviality, fn with
  | SOM_LiteralReturn, FoundFunction f =>
      fo ← the_function f;
      match m_upvalues fo with
      | [UvTrivial (TfLiteral c)] => literal_value arrays c
      | _ => fail (AssertFailed "fn->m_numUpvalues == 1")
      end
  | SOM_GlobalReturn, FoundIndex globalIdx =>
      val ← VM_GetGlobal globalIdx;
      match val with
      | Some v => mret v
      | None => fail (AssertFailed "val.m_value != TValue::CreateImpossibleValue().m_value")
      end
  | SOM_SelfReturn, FoundFunction _ => mret self
  | SOM_Getter, FoundIndex fieldIdx =>
      o ← object_fields self;
      match o.2 !! fieldIdx with Some v => mret v | None => fail bad_field end
  | _, _ => fail (AssertFailed "false")
  end.

Definition ExecuteSetterTrivialMethod (fn : Found) (self arg : Value) : V Value :=
  match fn with
  | FoundIndex fieldIdx =>
      '(r, c, data) ← object_fields self;
      check (fieldIdx <? length data) bad_field ;;
      on_objects (write r (OPlain c (<[fieldIdx := arg]> data))) ;;
      mret self
  | _ => fail bad_field
  end.

(** [SOMObject::AllocateArray], then the elements one by one. *)
Definition argument_array (args : list Value) : V nat :=
  r ← on_objects (AllocateArray (length args));
  on_objects (write r (OArray args)) ;;
  mret r.

Definition HandleMethodNotFoundImpl (self : Value) (meth : SOMUniquedString) (args : list Value) : V Outcome :=
  cl ← GetSOMClassOfAny self;
  handler ← FindMethod cl (v_doesNotUnderstandHandler vm);
  match handler with
  | None => fail (AssertFailed "handler.m_value != 0")
  | Some h =>
      fnName ← on_str (GetInternedSymbol (Z.to_nat (m_id meth)));
      r ← argument_array args;
      mret (MakeCall h [self; VObject fnName; VObject r])
  end.

(** The values of [n] slots from [slot]. *)
Fixpoint load_range (slot n : nat) : V (list Value) :=
  match n with
  | O => mret []
  | S n' => v ← load slot; vs ← load_range (S slot) n'; mret (v :: vs)
  end.

(** [argsBegin] is [base + x_numSlotsForStackFrameHeader]. *)
Definition CallMethodNotFoundSlowPath (argsBegin : nat) (self : Value) (meth : SOMUniquedString) (numArgs : nat) : V Outcome :=
  args ← load_range (argsBegin + 1) (numArgs - 1);
  HandleMethodNotFoundImpl self meth args.

Definition CallBaseNotObjectSlowPath (argsBegin : nat) (self : Value) (meth : SOMUniquedString) (numArgs : nat) : V Outcome :=
  f ← LookupMethodGeneralImpl self meth;
  match f with
  | None => CallMethodNotFoundSlowPath argsBegin self meth numArgs
  | Some f => mret (MakeInPlaceCall f argsBegin numArgs)
  end.

(** What follows the lookup in [CallImpl], [SelfCallImpl] and [SuperCallImpl]. *)
Definition run_found (selfInSlot : bool) (argsBegin : nat) (self : Value) (meth : SOMUniquedString) (numArgs : nat)
    (res : LookupResult) : V Outcome :=
  match res with
  | (SOM_MethodNotFound, _) => CallMethodNotFoundSlowPath argsBegin self meth numArgs
  | (SOM_CallBaseNotObject, _) =>
      if selfInSlot then CallBaseNotObjectSlowPath argsBegin self meth numArgs else fail (AssertFailed "false")
  | (SOM_NormalMethod, FoundFunction f) =>
      (if selfInSlot then mret tt else store argsBegin self) ;;
      mret (MakeInPlaceCall f argsBegin numArgs)
  | (SOM_Setter, fn) =>
      arg ← load (argsBegin + 1);
      v ← ExecuteSetterTrivialMethod fn self arg; mret (Return v)
  | (fnKind, fn) => v ← ExecuteTrivialMethodExceptSetter fn self fnKind; mret (Return v)
  end.

Definition CallImpl (capacity : nat) (ic : InlineCache) (base : nat) (meth : SOMUniquedString) (numArgs : nat)
    : V (Outcome * InlineCache) :=
  let argsBegin := base + x_numSlotsForStackFrameHeader in
  self ← load argsBegin;
  if IsHeapEntity self then
    '(res, ic') ← LookupObjectMethodImpl capacity ic self meth None;
    out ← run_found true argsBegin self meth numArgs res;
    mret (out, ic')
  else
    out ← CallBaseNotObjectSlowPath argsBegin self meth numArgs;
    mret (out, ic).

(** A self call, or a super call when [superClass] is given; [self] is another slot,
    and is copied to the arguments. *)
Definition SelfCallImpl (capacity : nat) (ic : InlineCache) (base : nat) (self : Value) (superClass : option nat)
    (meth : SOMUniquedString) (numArgs : nat) : V (Outcome * InlineCache) :=
  match self with
  | VObject _ =>
      '(res, ic') ← LookupObjectMethodImpl capacity ic self meth superClass;
      out ← run_found false (base + x_numSlotsForStackFrameHeader) self meth numArgs res;
      mret (out, ic')
  | _ => fail (AssertFailed "self.Is<tObject>()")
  end.

(** ** Globals *)
Definition UnknownGlobalSlowPath (globalNames : list nat) (self : Value) (index : nat) : V Outcome :=
  match globalNames !! index with
  | None => fail (AssertFailed "index < vm->m_globalStringIdWithIndex.size()")
  | Some ord =>
      cl ← GetSOMClassOfAny self;
      func ← FindMethod cl (v_unknownGlobalHandler vm);
      match func with
      | None => fail (AssertFailed "func.m_value != 0")
      | Some f => globalName ← on_str (GetInternedSymbol ord); mret (MakeCall f [self; VObject globalName])
      end
  end.

Definition GlobalGetImpl (globalNames : list nat) (self : Value) (index : nat) : V Outcome :=
  val ← VM_GetGlobal index;
  match val with
  | Some v => mret (Return v)
  | None => UnknownGlobalSlowPath globalNames self index
  end.
End calls.

Notation InlineCache := (list (CacheKey * LookupResult)).
