(* ===== verification/Sends.v ===== *)
(** * What sending a message does

    The inline cache of a call site cannot be observed, and a send runs the method
    its receiver's class has for the selector, or tells the receiver that it does
    not understand. *)
From S2P Require Import Prelude Interner VmSelectors CNumbers Bytecode Compiler MethodTable TValue Values Primitives Arith Objects Cloning OpenUpvalues Symbols Machine Closures Calls.
From Stdlib Require Import Sorted.
#[local] Set Default Proof Using "Type".

(** How the machine's state grows: function objects are made but not changed, and a
    global that was assigned stays assigned. *)
Record vm_le (s s' : VMState) : Prop := {
  vl_functions r f : vm_functions s !! r = Some f -> vm_functions s' !! r = Some f;
  vl_globals i v : vm_globals s !! i = Some (Some v) -> exists v', vm_globals s' !! i = Some (Some v')
}.

#[export] Instance vm_le_preorder : PreOrder vm_le.
Proof.
  split.
  - intros s. split; [done|]. intros i v H. by exists v.
  - intros s1 s2 s3 [F1 G1] [F2 G2]. split; [eauto|]. intros i v [v' H]%G1. by apply (G2 i v').
Qed.

(** Stores and the stack do not matter. *)
Lemma vm_le_same s s' : vm_functions s' = vm_functions s -> vm_globals s' = vm_globals s -> vm_le s s'.
Proof. intros Hf Hg. split; [by rewrite Hf|]. intros i v H. exists v. by rewrite Hg. Qed.

Section sends.
Context (K : Classes).

(** ** The lookup reads the state only *)
Definition reads {A} (m : V A) : Prop := forall s a s', m s = Ok (a, s') -> s' = s.

Lemma reads_ret {A} (a : A) : reads (mret a).
Proof. by intros s a' s' [= _ ->]. Qed.
Lemma reads_fail {A} e : reads (fail e : V A).
Proof. by intros s a s'. Qed.
Lemma reads_check b e : reads (check b e).
Proof. destruct b; [apply reads_ret|apply reads_fail]. Qed.
Lemma reads_lift {A} (r : result A) : reads (lift_result r).
Proof. by intros s a s'; destruct r; [intros [= _ ->]|]. Qed.
Lemma reads_bind {A B} (m : V A) (f : A -> V B) : reads m -> (forall a, reads (f a)) -> reads (m ≫= f).
Proof.
  intros Hm Hf s b s'. unfold mbind, M_bind. destruct (m s) as [[a s1]|e] eqn:H; [|done].
  apply Hm in H as ->. apply Hf.
Qed.
Lemma reads_on_objects {A} (m : HM A) : (forall h a h', m h = Ok (a, h') -> h' = h) -> reads (on_objects m).
Proof.
  intros Hm s a s'. unfold on_objects, on_str, on_heap, mbind, result_bind.
  destruct (m (st_heap (vm_str s))) as [[b h]|e] eqn:H; [|done]. apply Hm in H as ->.
  intros [= _ <-]. by destruct s as [[] ? ? ?].
Qed.
Lemma reads_deref r : reads (on_objects (deref r)).
Proof. apply reads_on_objects. intros h o h'. unfold deref. destruct (h !! r); [by intros [= _ ->]|done]. Qed.
Lemma reads_function r : reads (the_function r).
Proof. intros s f s'. unfold the_function. destruct (vm_functions s !! r); [by intros [= _ ->]|done]. Qed.
Lemma reads_global i : reads (VM_GetGlobal i).
Proof. intros s v s'. unfold VM_GetGlobal. destruct (vm_globals s !! i); [by intros [= _ ->]|done]. Qed.
#[local] Hint Resolve reads_ret reads_fail reads_check reads_lift reads_bind reads_deref reads_function reads_global : reads.

Lemma reads_class cl : reads (the_class K cl).
Proof. unfold the_class. destruct (k_classes K !! cl); auto with reads. Qed.
Lemma reads_FindMethod cl meth : reads (FindMethod K cl meth).
Proof. apply reads_bind; [apply reads_class|auto with reads]. Qed.
Lemma reads_trivial_index f : reads (trivial_index f).
Proof.
  unfold trivial_index. destruct (m_upvalues f) as [|[v|r|[|c|i]] [|]]; auto with reads.
Qed.
#[local] Hint Resolve reads_class reads_FindMethod reads_trivial_index : reads.

Lemma reads_classify f : reads (classify f).
Proof.
  apply reads_bind; [auto with reads|]. intros fo.
  destruct (lookup_kind_of_mask (m_invalidArrayType fo)) as [[]|]; auto with reads.
Qed.
Lemma reads_lookup_in_class cl meth : reads (lookup_in_class K cl meth).
Proof. apply reads_bind; [auto with reads|]. intros [f|]; [apply reads_classify|auto with reads]. Qed.
Lemma reads_cache_key base : reads (cache_key K base).
Proof. destruct base; simpl; auto with reads. Qed.
#[local] Hint Resolve reads_classify reads_lookup_in_class reads_cache_key : reads.

Lemma reads_lookup_body base meth sc : reads (lookup_body K base meth sc).
Proof. destruct base; simpl; auto with reads. Qed.

(** ** The inline cache *)

(** A remembered result is what the lookup gives, and can be remembered. *)
Lemma classify_le f s s' res :
  vm_le s s' -> classify f s = Ok ((res, true), s) -> classify f s' = Ok ((res, true), s').
Proof.
  intros [Hf Hg]. unfold classify, mbind, M_bind, the_function.
  destruct (vm_functions s !! f) as [fo|] eqn:Ho; [|done]. rewrite (Hf _ _ Ho).
  destruct (lookup_kind_of_mask (m_invalidArrayType fo)) as [k|]; [|done].
  assert (Hi : forall A (g : nat -> V A) r,
    match trivial_index fo s with Ok (i, s1) => g i s1 | Err e => Err e end = Ok r ->
    exists i, (forall t, trivial_index fo t = Ok (i, t)) /\ g i s = Ok r).
  { intros A g r. unfold trivial_index, mbind, M_bind.
    destruct (m_upvalues fo) as [|[v|r0|[|c|i]] [|]]; try done. unfold check.
    destruct (Z.of_nat i <? 2 ^ 31)%Z; simpl; [|done]. intros H. by exists i. }
  destruct k; try (intros H; discriminate H); try (intros [= <-]; reflexivity).
  - intros H. apply Hi in H as (i & -> & H). unfold VM_GetGlobal in *.
    destruct (vm_globals s !! i) as [[v|]|] eqn:Hv; [|done..]. destruct (Hg _ _ Hv) as [v' ->].
    revert H. intros [= <-]. reflexivity.
  - intros H. apply Hi in H as (i & -> & H). revert H. intros [= <-]. reflexivity.
  - intros H. apply Hi in H as (i & -> & H). revert H. intros [= <-]. reflexivity.
Qed.

Context (capacity : nat) (meth : SOMUniquedString) (superClass : option nat).

Definition cache_ok (ic : InlineCache) (s : VMState) : Prop :=
  forall cl res, cached ic (KeyClass cl) = Some res ->
    lookup_in_class K (default cl superClass) meth s = Ok ((res, true), s).

Lemma lookup_in_class_le cl s s' res :
  vm_le s s' -> lookup_in_class K cl meth s = Ok ((res, true), s) -> lookup_in_class K cl meth s' = Ok ((res, true), s').
Proof.
  intros Hle. unfold lookup_in_class, FindMethod, the_class, mbind, M_bind.
  destruct (k_classes K !! cl) as [c|]; [|done]. simpl.
  destruct (GetMethod c meth) as [[f|]|e]; simpl; [by apply classify_le|done|done].
Qed.

Lemma cache_ok_le ic s s' : vm_le s s' -> cache_ok ic s -> cache_ok ic s'.
Proof. intros Hle Hok cl res Hc. by eapply lookup_in_class_le, Hok. Qed.

Lemma cached_take ic key res n : cached (take n ic) key = Some res -> cached ic key = Some res.
Proof.
  revert n. induction ic as [|[k r] ic IH]; intros [|n]; simpl; try done.
  destruct key; [|done]. case_decide; [done|apply IH].
Qed.

(** One lookup: the cached site answers as an uncached one. *)
Lemma lookup_transparent ic base s :
  cache_ok ic s ->
  match LookupObjectMethodImpl K capacity ic base meth superClass s with
  | Ok ((res, ic'), s') => s' = s /\ cache_ok ic' s /\ LookupObjectMethodImpl K 0 [] base meth superClass s = Ok ((res, []), s)
  | Err e => LookupObjectMethodImpl K 0 [] base meth superClass s = Err e
  end.
Proof.
  intros Hok. unfold LookupObjectMethodImpl, mbind, M_bind.
  destruct (cache_key K base s) as [[key s1]|e] eqn:Hk; [|done].
  pose proof (reads_cache_key _ _ _ _ Hk) as ->. simpl.
  assert (Hbody : forall cl res, key = KeyClass cl -> lookup_in_class K (default cl superClass) meth s = res ->
            lookup_body K base meth superClass s = res).
  { intros cl res -> <-. unfold cache_key, lookup_body, mbind, M_bind in *.
    destruct base as [| | | |r|r]; try done.
    - destruct (on_objects (deref r) s) as [[o s1]|] eqn:Ho; [|done]. pose proof (reads_deref _ _ _ _ Ho) as ->.
      injection Hk as <-. done.
    - destruct (the_function r s) as [[f s1]|]; done. }
  destruct (cached ic key) as [res|] eqn:Hc.
  - destruct key as [cl|e]; [|by destruct ic as [|[]]]. rewrite (Hbody cl _ eq_refl (Hok _ _ Hc)). simpl. done.
  - destruct (lookup_body K base meth superClass s) as [[[res b] s1]|e] eqn:Hl; [|done].
    pose proof (reads_lookup_body _ _ _ _ _ _ Hl) as ->. simpl. split; [done|]. split.
    + destruct b; [|done]. intros cl res' Hc'. apply cached_take in Hc'. simpl in Hc'. case_decide as Hkc; [|by apply Hok].
      injection Hc' as <-. by rewrite <-(Hbody cl _ Hkc eq_refl).
    + by destruct b.
Qed.

(** ** A call site over time *)

(** The results of the lookups a call site does, each in the state of its time. *)
Fixpoint site_lookups (n : nat) (ic : InlineCache) (sends : list (VMState * Value)) : list (result LookupResult) :=
  match sends with
  | [] => []
  | (s, base) :: sends' =>
      match LookupObjectMethodImpl K n ic base meth superClass s with
      | Ok ((res, ic'), _) => Ok res :: site_lookups n ic' sends'
      | Err e => [Err e]
      end
  end.

Lemma site_transparent ic s sends :
  cache_ok ic s -> Sorted vm_le (s :: sends.*1) -> site_lookups capacity ic sends = site_lookups 0 [] sends.
Proof.
  revert ic s. induction sends as [|[s1 base] sends IH]; intros ic s Hok Hs; [done|].
  apply Sorted_inv in Hs as [Hs Hle%HdRel_inv].
  pose proof (lookup_transparent ic base s1 (cache_ok_le _ _ _ Hle Hok)) as H. simpl.
  destruct (LookupObjectMethodImpl K capacity ic base meth superClass s1) as [[[res ic'] s2]|e].
  - destruct H as (-> & Hok' & ->). f_equal. by apply (IH ic' s1).
  - by rewrite H.
Qed.
End sends.

(** The inline cache of a call site is transparent.  Whatever the receivers and
    however many entries the site keeps, if the state only grows between the
    sends, every lookup gives what a site that never remembers anything would
    give: an entry is never stale, because a class never changes, and the result of
    a method that returns a global is only remembered once the global exists. *)
Theorem inline_cache_transparent K capacity meth superClass sends :
  Sorted vm_le sends.*1 ->
  site_lookups K meth superClass capacity [] sends = site_lookups K meth superClass 0 [] sends.
Proof.
  destruct sends as [|[s base] sends]; [done|]. intros Hs.
  apply (site_transparent K capacity meth superClass [] s); [done|]. simpl. constructor; [done|]. by constructor.
Qed.

(** ** Dispatch *)
Section dispatch.
Context (HashString : string -> Z) (hash64 : Z -> Z) (vm : VMStrings) (K : Classes).

(** The method a dictionary has for a selector. *)
Definition method_for (d : gmap Z (option nat)) (name : SOMUniquedString) : option nat := mjoin (d !! m_id name).

(** Class [cl] exists and has the methods [d]. *)
Definition has_methods (cl : nat) (d : gmap Z (option nat)) : Prop :=
  exists c, k_classes K !! cl = Some c /\ class_represents hash64 c d.

Lemma FindMethod_eq cl d name s :
  has_methods cl d -> valid_name hash64 name -> FindMethod K cl name s = Ok (method_for d name, s).
Proof.
  intros (c & Hc & Hd) Hn. unfold FindMethod, the_class, mbind, M_bind. rewrite Hc. simpl.
  by rewrite (GetMethod_spec _ _ _ _ Hd Hn).
Qed.

(** The values of a range of slots. *)
Definition slots_hold (s : VMState) (slot : nat) (vs : list Value) : Prop :=
  forall i v, vs !! i = Some v -> rc_stack (vm_rc s) !! (slot + i) = Some (Some v).

Lemma slots_hold_cons s slot v vs :
  slots_hold s slot (v :: vs) -> rc_stack (vm_rc s) !! slot = Some (Some v) /\ slots_hold s (slot + 1) vs.
Proof.
  intros H. split; [rewrite <-(Nat.add_0_r slot); by apply (H 0)|].
  intros i w Hw. rewrite <-Nat.add_assoc. by apply (H (S i)).
Qed.

Lemma load_range_eq s slot vs : slots_hold s slot vs -> load_range slot (length vs) s = Ok (vs, s).
Proof.
  revert slot. induction vs as [|v vs IH]; intros slot H; [done|].
  apply slots_hold_cons in H as [Hv H]. rewrite Nat.add_1_r in H. simpl. unfold mbind, M_bind.
  rewrite (load_eq _ _ _ Hv). by rewrite (IH _ H).
Qed.

Lemma on_str_eq {A} (m : M StrState A) a st s : m (vm_str s) = Ok (a, st) -> on_str m s = Ok (a, with_str st s).
Proof. intros H. unfold on_str. by rewrite H. Qed.

Lemma on_objects_eq {A} (m : HM A) a h s :
  m (st_heap (vm_str s)) = Ok (a, h) ->
  on_objects m s = Ok (a, with_str (mk_str (st_interner (vm_str s)) (m_internedStringObjects (vm_str s))
    (m_internedSymbolObjects (vm_str s)) (m_cachedSingleCharStrings (vm_str s)) h) s).
Proof. intros H. apply on_str_eq. unfold on_heap. by rewrite H. Qed.

(** The objects of the machine. *)
Definition vm_heap (s : VMState) : Heap := st_heap (vm_str s).

Lemma write_new (h : Heap) o o' : write (length h) o' (h ++ [o]) = Ok (tt, h ++ [o']).
Proof. unfold write, modify. f_equal. f_equal. by rewrite insert_app_r_alt, Nat.sub_diag by done. Qed.

Lemma argument_array_eq args s :
  exists s', argument_array args s = Ok (length (vm_heap s), s') /\ vm_heap s' = vm_heap s ++ [OArray args] /\
    vm_functions s' = vm_functions s /\ vm_globals s' = vm_globals s /\ vm_rc s' = vm_rc s.
Proof.
  unfold argument_array, mbind, M_bind.
  erewrite (on_objects_eq (AllocateArray (length args))) by done.
  erewrite (on_objects_eq (write _ _)) by (simpl; apply write_new).
  by eexists.
Qed.

Lemma symbol_object ord str hash s :
  str_wf HashString (vm_str s) -> m_list (st_interner (vm_str s)) !! ord = Some (str, hash) ->
  exists q s', on_str (GetInternedSymbol ord) s = Ok (q, s') /\ vm_heap s' !! q = Some (OString StringSymbol str) /\
    heap_le (vm_heap s) (vm_heap s') /\ vm_functions s' = vm_functions s /\ vm_globals s' = vm_globals s /\ vm_rc s' = vm_rc s.
Proof.
  intros Hwf Hl.
  destruct (get_object_spec StringSymbol ord _ _ _ _ _ Hl (wf_symbols _ _ Hwf)) as (q & objs & h & Hg & _ & Hle & _ & Hq & _).
  exists q. eexists. split; [apply on_str_eq, GetInternedSymbol_eq, Hg|]. done.
Qed.

(** The call of [doesNotUnderstand:arguments:]. *)
Definition not_understood (h : nat) (self : Value) (str : string) (args : list Value) (s : VMState)
    (r : result (Outcome * VMState)) : Prop :=
  exists q a s', r = Ok (MakeCall h [self; VObject q; VObject a], s') /\ heap_le (vm_heap s) (vm_heap s') /\
    vm_heap s' !! q = Some (OString StringSymbol str) /\ vm_heap s' !! a = Some (OArray args) /\
    vm_functions s' = vm_functions s /\ vm_globals s' = vm_globals s /\ vm_rc s' = vm_rc s.

Lemma HandleMethodNotFound_spec self cl d h meth args str hash s :
  str_wf HashString (vm_str s) -> GetSOMClassOfAny K self s = Ok (cl, s) -> has_methods cl d ->
  valid_name hash64 (v_doesNotUnderstandHandler vm) -> method_for d (v_doesNotUnderstandHandler vm) = Some h ->
  m_list (st_interner (vm_str s)) !! Z.to_nat (m_id meth) = Some (str, hash) ->
  not_understood h self str args s (HandleMethodNotFoundImpl vm K self meth args s).
Proof.
  intros Hwf Hcl Hd Hv Hh Hl. unfold HandleMethodNotFoundImpl, mbind, M_bind.
  rewrite Hcl, (FindMethod_eq cl d) by done. rewrite Hh.
  destruct (symbol_object _ _ _ _ Hwf Hl) as (q & s1 & -> & Hq & Hle & Hf & Hg & Hr).
  destruct (argument_array_eq args s1) as (s2 & -> & Hheap & Hf2 & Hg2 & Hr2).
  exists q, (length (vm_heap s1)), s2. split; [done|]. rewrite Hheap. split_and!; try congruence.
  - etrans; [exact Hle|apply heap_le_alloc].
  - by apply lookup_app_Some_l.
  - by apply list_lookup_middle.
Qed.

Context (arrays : list nat).

(** What running method [fo] (function [f]) on [self] and [args] does: a call, or
    for a trivial method what the method's body would. *)
Inductive method_outcome (argsBegin f : nat) (fo : FunctionObject) (self : Value) (args : list Value) (s : VMState)
    : Outcome -> VMState -> Prop :=
  | mo_normal :
      lookup_kind_of_mask (m_invalidArrayType fo) = Some SOM_NormalMethod ->
      method_outcome argsBegin f fo self args s (MakeInPlaceCall f argsBegin (S (length args))) s
  | mo_self :
      lookup_kind_of_mask (m_invalidArrayType fo) = Some SOM_SelfReturn ->
      method_outcome argsBegin f fo self args s (Return self) s
  | mo_literal c v s' :
      lookup_kind_of_mask (m_invalidArrayType fo) = Some SOM_LiteralReturn ->
      m_upvalues fo = [UvTrivial (TfLiteral c)] -> literal_value arrays c s = Ok (v, s') ->
      method_outcome argsBegin f fo self args s (Return v) s'
  | mo_global i v :
      lookup_kind_of_mask (m_invalidArrayType fo) = Some SOM_GlobalReturn ->
      m_upvalues fo = [UvTrivial (TfIndex i)] -> (Z.of_nat i < 2 ^ 31)%Z -> vm_globals s !! i = Some (Some v) ->
      method_outcome argsBegin f fo self args s (Return v) s
  | mo_no_global i :
      lookup_kind_of_mask (m_invalidArrayType fo) = Some SOM_GlobalReturn ->
      m_upvalues fo = [UvTrivial (TfIndex i)] -> (Z.of_nat i < 2 ^ 31)%Z -> vm_globals s !! i = Some None ->
      method_outcome argsBegin f fo self args s (MakeInPlaceCall f argsBegin (S (length args))) s
  | mo_getter i r c data v :
      lookup_kind_of_mask (m_invalidArrayType fo) = Some SOM_Getter ->
      m_upvalues fo = [UvTrivial (TfIndex i)] -> (Z.of_nat i < 2 ^ 31)%Z ->
      self = VObject r -> vm_heap s !! r = Some (OPlain c data) -> data !! i = Some v ->
      method_outcome argsBegin f fo self args s (Return v) s
  | mo_setter i r c data arg s' :
      lookup_kind_of_mask (m_invalidArrayType fo) = Some SOM_Setter ->
      m_upvalues fo = [UvTrivial (TfIndex i)] -> (Z.of_nat i < 2 ^ 31)%Z ->
      self = VObject r -> vm_heap s !! r = Some (OPlain c data) -> i < length data -> args = [arg] ->
      on_objects (write r (OPlain c (<[i := arg]> data))) s = Ok (tt, s') ->
      method_outcome argsBegin f fo self args s (Return self) s'.

Lemma deref_eq r o s : vm_heap s !! r = Some o -> on_objects (deref r) s = Ok (o, s).
Proof.
  intros H. erewrite on_objects_eq by (unfold deref; unfold vm_heap in H; rewrite H; reflexivity).
  by destruct s as [[] ? ? ?].
Qed.

Lemma trivial_index_eq fo i s :
  m_upvalues fo = [UvTrivial (TfIndex i)] -> (Z.of_nat i < 2 ^ 31)%Z -> trivial_index fo s = Ok (i, s).
Proof. intros Hu Hi. unfold trivial_index. rewrite Hu. by rewrite (proj2 (Z.ltb_lt _ _)). Qed.

(** What [classify] finds, and what is then done with it. *)
Lemma classify_outcome argsBegin f fo meth self args s out s' :
  vm_functions s !! f = Some fo -> slots_hold s argsBegin (self :: args) ->
  method_outcome argsBegin f fo self args s out s' ->
  exists res b, classify f s = Ok ((res, b), s) /\
    run_found vm K arrays true argsBegin self meth (S (length args)) res s = Ok (out, s').
Proof.
  intros Hf Hargs Hout. unfold classify, mbind, M_bind. rewrite (the_function_eq _ _ _ Hf).
  destruct Hout as [Hk|Hk|c v s' Hk Hu Hl|i v Hk Hu Hi Hg|i Hk Hu Hi Hg|i r c data v Hk Hu Hi Hs Ho Hv
    |i r c data arg s' Hk Hu Hi Hs Ho Hlt Ha Hw]; rewrite Hk.
  - by eexists _, _.
  - by eexists _, _.
  - eexists _, _. split; [reflexivity|]. unfold run_found, ExecuteTrivialMethodExceptSetter, mbind, M_bind.
    by rewrite (the_function_eq _ _ _ Hf), Hu, Hl.
  - rewrite (trivial_index_eq _ i) by done. unfold VM_GetGlobal. rewrite Hg. eexists _, _. split; [reflexivity|].
    unfold run_found, ExecuteTrivialMethodExceptSetter, VM_GetGlobal, mbind, M_bind. by rewrite Hg.
  - rewrite (trivial_index_eq _ i) by done. unfold VM_GetGlobal. rewrite Hg. by eexists _, _.
  - rewrite (trivial_index_eq _ i) by done. eexists _, _. split; [reflexivity|]. subst self.
    unfold run_found, ExecuteTrivialMethodExceptSetter, object_fields, mbind, M_bind.
    rewrite (deref_eq _ _ _ Ho). simpl. by rewrite Hv.
  - rewrite (trivial_index_eq _ i) by done. eexists _, _. split; [reflexivity|]. subst self args.
    apply slots_hold_cons in Hargs as [_ [Harg _]%slots_hold_cons].
    unfold run_found, ExecuteSetterTrivialMethod, object_fields, check, mbind, M_bind.
    rewrite (load_eq _ _ _ Harg), (deref_eq _ _ _ Ho). unfold mret, M_ret. cbv beta iota. rewrite (proj2 (Nat.ltb_lt _ _)) by done. cbv beta iota.  by rewrite Hw.
Qed.

Lemma class_of_object r s cl : GetSOMClassOfAny K (VObject r) s = Ok (cl, s) ->
  exists o, vm_heap s !! r = Some o /\ hidden_class K o = cl.
Proof.
  unfold GetSOMClassOfAny, mbind, M_bind. destruct (vm_heap s !! r) as [o|] eqn:Ho.
  - rewrite (deref_eq _ _ _ Ho). intros [= <-]. by exists o.
  - unfold on_objects, on_str, on_heap, deref. unfold vm_heap in Ho. by rewrite Ho.
Qed.

Lemma lookup_object capacity ic meth r o res b s :
  cache_ok K meth None ic s -> vm_heap s !! r = Some o ->
  lookup_in_class K (hidden_class K o) meth s = Ok ((res, b), s) ->
  exists ic', LookupObjectMethodImpl K capacity ic (VObject r) meth None s = Ok ((res, ic'), s) /\ (b = false -> ic' = ic).
Proof.
  intros Hok Ho Hl. unfold LookupObjectMethodImpl, cache_key, lookup_body, mbind, M_bind.
  rewrite (deref_eq _ _ _ Ho). cbn [mret M_ret].
  destruct (cached ic (KeyClass (hidden_class K o))) as [res'|] eqn:Hc.
  - apply Hok in Hc. simpl in Hc. rewrite Hl in Hc. injection Hc as -> ->. by exists ic.
  - rewrite (deref_eq _ _ _ Ho). change (default (hidden_class K o) None) with (hidden_class K o). rewrite Hl. eexists. split; [done|]. by intros ->.
Qed.

Lemma lookup_function capacity ic meth r s cl :
  GetSOMClassOfAny K (VFunction r) s = Ok (cl, s) ->
  LookupObjectMethodImpl K capacity ic (VFunction r) meth None s = Ok ((SOM_CallBaseNotObject, FoundNothing, ic), s).
Proof.
  unfold GetSOMClassOfAny, LookupObjectMethodImpl, cache_key, lookup_body, the_function, mbind, M_bind.
  destruct (vm_functions s !! r) as [f|]; [|done]. intros _. cbn [mret M_ret]. by destruct ic as [|[]].
Qed.

(** A send, from its receiver and arguments in the frame. *)
Record send (base : nat) (meth : SOMUniquedString) (self : Value) (args : list Value) (d : gmap Z (option nat))
    (s : VMState) : Prop := {
  sd_slots : slots_hold s (base + x_numSlotsForStackFrameHeader) (self :: args);
  sd_class : exists cl, GetSOMClassOfAny K self s = Ok (cl, s) /\ has_methods cl d;
  sd_name : valid_name hash64 meth
}.

(** C36: the call bytecode runs the method the class of the receiver has for the
    selector: it calls it on the receiver and arguments in the frame, or, when the
    method is trivial, does at once what its body does; and when the class has
    none, it sends [doesNotUnderstand:arguments:] with the selector as a symbol
    and a new array of the arguments. *)
Theorem CallImpl_dispatch capacity ic base meth self args d s :
  send base meth self args d s -> cache_ok K meth None ic s ->
  let argsBegin := base + x_numSlotsForStackFrameHeader in
  let numArgs := S (length args) in
  match method_for d meth with
  | Some f =>
      (forall r fo out s', self = VObject r -> vm_functions s !! f = Some fo ->
        method_outcome argsBegin f fo self args s out s' ->
        exists ic', CallImpl vm K arrays capacity ic base meth numArgs s = Ok ((out, ic'), s')) /\
      ((forall r, self <> VObject r) ->
        CallImpl vm K arrays capacity ic base meth numArgs s = Ok ((MakeInPlaceCall f argsBegin numArgs, ic), s))
  | None =>
      forall h str hash, str_wf HashString (vm_str s) -> valid_name hash64 (v_doesNotUnderstandHandler vm) ->
        method_for d (v_doesNotUnderstandHandler vm) = Some h ->
        m_list (st_interner (vm_str s)) !! Z.to_nat (m_id meth) = Some (str, hash) ->
        exists out s', not_understood h self str args s (Ok (out, s')) /\
          CallImpl vm K arrays capacity ic base meth numArgs s = Ok ((out, ic), s')
  end.
Proof.
  intros [Hslots (cl & Hcl & Hd) Hname] Hok argsBegin numArgs.
  pose proof (slots_hold_cons _ _ _ _ Hslots) as [Hself Hargs]. fold argsBegin in Hself, Hargs, Hslots.
  assert (Hgen : forall r, LookupMethodGeneralImpl K self meth s = Ok (r, s) <-> r = method_for d meth).
  { intros r. unfold LookupMethodGeneralImpl, mbind, M_bind. rewrite Hcl, (FindMethod_eq cl d) by done. naive_solver. }
  assert (Hobj : forall r, self = VObject r -> exists o, vm_heap s !! r = Some o /\
            FindMethod K (hidden_class K o) meth s = Ok (method_for d meth, s)).
  { intros r ->. destruct (class_of_object _ _ _ Hcl) as (o & Ho & Hh). exists o. split; [done|]. rewrite Hh. by apply FindMethod_eq. }
  destruct (method_for d meth) as [f|] eqn:Hm.
  - split.
    + intros r fo out s' Hr Hf Hout. destruct (Hobj r Hr) as (o & Ho & Hfind).
      destruct (classify_outcome argsBegin f fo meth self args s out s' Hf Hslots Hout) as (res & b & Hc & Hrun).
      destruct (lookup_object capacity ic meth r o res b s Hok Ho) as (ic' & Hlk & _).
      { unfold lookup_in_class, mbind, M_bind. by rewrite Hfind. }
      exists ic'. unfold CallImpl, mbind, M_bind. fold argsBegin. rewrite (load_eq _ _ _ Hself). subst self. cbn [IsHeapEntity].
      rewrite Hlk. cbv beta iota. unfold numArgs. by rewrite Hrun.
    + intros Hne. unfold CallImpl, CallBaseNotObjectSlowPath, mbind, M_bind. fold argsBegin. rewrite (load_eq _ _ _ Hself).
      destruct self as [|b|z|dd|r|r]; cbn [IsHeapEntity]; try (by rewrite (proj2 (Hgen (Some f)) eq_refl)).
      { by destruct (Hne r). }
      rewrite (lookup_function capacity ic meth r s cl Hcl). cbv beta iota. unfold run_found, CallBaseNotObjectSlowPath, mbind, M_bind.
      by rewrite (proj2 (Hgen (Some f)) eq_refl).
  - intros h str hash Hwf Hv Hh Hl.
    pose proof (HandleMethodNotFound_spec self cl d h meth args str hash s Hwf Hcl Hd Hv Hh Hl) as (q & a & s' & Hr & Hrest).
    exists (MakeCall h [self; VObject q; VObject a]), s'. split; [by exists q, a, s'|].
    assert (Hslow : CallMethodNotFoundSlowPath vm K argsBegin self meth numArgs s = Ok (MakeCall h [self; VObject q; VObject a], s')).
    { unfold CallMethodNotFoundSlowPath, mbind, M_bind, numArgs. replace (S (length args) - 1) with (length args) by lia.
      by rewrite (load_range_eq _ _ _ Hargs). }
    assert (Hbase : CallBaseNotObjectSlowPath vm K argsBegin self meth numArgs s = Ok (MakeCall h [self; VObject q; VObject a], s')).
    { unfold CallBaseNotObjectSlowPath, mbind, M_bind. by rewrite (proj2 (Hgen None) eq_refl). }
    unfold CallImpl, mbind, M_bind. fold argsBegin. rewrite (load_eq _ _ _ Hself).
    destruct self as [|b|z|dd|r|r]; cbn [IsHeapEntity]; try (by rewrite Hbase).
    + destruct (Hobj r eq_refl) as (o & Ho & Hfind).
      destruct (lookup_object capacity ic meth r o (SOM_MethodNotFound, FoundNothing) false s Hok Ho) as (ic' & -> & Hic).
      { unfold lookup_in_class, mbind, M_bind. by rewrite Hfind. }
      rewrite Hic by done. cbv beta iota. unfold run_found. by rewrite Hslow.
    + rewrite (lookup_function capacity ic meth r s cl Hcl). cbv beta iota. unfold run_found. by rewrite Hbase.
Qed.
End dispatch.

(** ** A class with one method *)
Definition sample_meth : SOMUniquedString := mk_uniqued 5 0.
Definition sample_class : @SOMClass nat := mk_class [1%Z] [] 0 [mk_entry 5 (Some 0)].
Definition sample_classes : Classes := mk_classes [sample_class] 0 0 0 0 0 0 0 0 0 0 0.

(** Function 0 is [fn]; object 0 has one field, 7, and lies where a call expects
    the receiver. *)
Definition sample_machine (fn : FunctionObject) (globals : list (option Value)) : VMState :=
  mk_vm (mk_str empty_interner [] [] [] [OPlain 0 [VInt 7]]) [fn]
    (mk_rcontext [] None [None; None; None; None; Some (VObject 0)]) globals.
Definition getter_function : FunctionObject :=
  mk_function (BytecodeFunction (mk_cb (0, 0) 0 4 0 81 true (TfIndex 0))) 81 [UvTrivial (TfIndex 0)].
Definition global_function : FunctionObject :=
  mk_function (BytecodeFunction (mk_cb (0, 0) 0 4 0 49 true (TfIndex 0))) 49 [UvTrivial (TfIndex 0)].

(** A table of one entry. *)
Lemma one_method_represents (hash64 : Z -> Z) (c : @SOMClass nat) k f :
  c_methodHtMask c = 0%Z -> c_methodHt c = [mk_entry k (Some f)] -> k <> x_emptyId ->
  class_represents hash64 c {[ k := Some f ]}.
Proof.
  intros Hm Ht Hk. split; [by rewrite Hm, Ht|]. rewrite Ht.
  assert (Hocc : forall i k' v, occupies [mk_entry k (Some f)] i k' v <-> i = 0 /\ k' = k /\ v = Some f).
  { intros [|i] k' v; unfold occupies; simpl; split; [by intros [[= <- <-] _]|by intros (_ & -> & ->)|by intros [??]|by intros [??]]. }
  split.
  - exists 0. split; [lia|done].
  - intros i k' v (-> & _ & _)%Hocc. left. unfold slot_of. simpl. by rewrite Z.land_0_r.
  - intros i j k' v w (-> & _)%Hocc (-> & _)%Hocc. done.
  - intros k' v. rewrite lookup_singleton_Some. split.
    + intros [<- <-]. exists 0. by apply Hocc.
    + intros (i & H%Hocc). naive_solver.
Qed.

Lemma sample_class_represents : class_represents (fun _ => 0%Z) sample_class {[ 5%Z := Some 0 ]}.
Proof. by apply one_method_represents. Qed.

Lemma sample_send fn globals :
  send (fun _ => 0%Z) sample_classes 0 sample_meth (VObject 0) [] {[ 5%Z := Some 0 ]} (sample_machine fn globals).
Proof.
  split.
  - intros [|[|i]] v; simpl; [by intros [= <-]|done|done].
  - exists 0. split; [done|]. exists sample_class. split; [done|exact sample_class_represents].
  - split; [done|reflexivity].
Qed.

Lemma CallImpl_dispatch_witness :
  exists ic', CallImpl (started_strings (fun _ => 0%Z)) sample_classes [] 1 [] 0 sample_meth 1 (sample_machine getter_function []) =
    Ok ((Return (VInt 7), ic'), sample_machine getter_function []).
Proof.
  refine (proj1 (CallImpl_dispatch (fun _ => 0%Z) (fun _ => 0%Z) (started_strings (fun _ => 0%Z)) sample_classes [] 1 [] 0 sample_meth
    (VObject 0) [] {[ 5%Z := Some 0 ]} (sample_machine getter_function []) (sample_send _ _) ltac:(done)) 0 getter_function _ _ eq_refl eq_refl _).
  eapply mo_getter; reflexivity.
Defined.

(** The global is assigned between the second send and the third. *)
Lemma inline_cache_transparent_witness :
  let before := sample_machine global_function [None] in
  let after := sample_machine global_function [Some (VInt 3)] in
  site_lookups sample_classes sample_meth None 1 [] [(before, VObject 0); (before, VObject 0); (after, VObject 0); (after, VObject 0)] =
  [Ok (SOM_NormalMethod, FoundFunction 0); Ok (SOM_NormalMethod, FoundFunction 0);
   Ok (SOM_GlobalReturn, FoundIndex 0); Ok (SOM_GlobalReturn, FoundIndex 0)].
Proof.
  intros before after. rewrite (inline_cache_transparent sample_classes 1 sample_meth None); [reflexivity|].
  assert (vm_le before after).
  { split; [done|]. intros [|i] v; simpl; [done|by destruct i]. }
  simpl. repeat first [apply Sorted_nil|apply Sorted_cons|apply HdRel_nil|apply HdRel_cons]; first [done|reflexivity].
Defined.
