(* ===== verification/Operators.v ===== *)
(** * Operators

    The bytecodes of the operators that have one of their own
    ([annotated/bytecodes/som_binary_operators.cpp], [som_unary_operators.cpp],
    [som_ternary_operators.cpp]): the fast paths of [Arith], [Objects] and [Symbols],
    the evaluation of blocks, and behind them the general send.  A slow path calls
    the method with copies of the operands, in a frame above the current one. *)
From S2P Require Import Prelude Interner VmSelectors CNumbers Bytecode Compiler MethodTable TValue Values Primitives Arith Objects OpenUpvalues Symbols Machine Calls.
#[local] Set Default Proof Using "Type".

(** The kind of operator a bytecode is instantiated with. *)
Definition kind_of_operator (op : BinaryOperator) : option BinOpKind :=
  match op with
  | OperatorPlus => Some Plus | OperatorMinus => Some Minus | OperatorStar => Some Star
  | OperatorSlashSlash => Some SlashSlash | OperatorPercent => Some Percent | OperatorAnd => Some And
  | OperatorEqual => Some Equal | OperatorLessThan => Some LessThan | OperatorLessEqual => Some LessEqual
  | OperatorGreaterThan => Some GreaterThan | OperatorGreaterEqual => Some GreaterEqual
  | OperatorUnequal => Some Unequal | OperatorTildeUnequal => Some TildeUnequal | OperatorLeftShift => Some LeftShift
  | OperatorRightShift => Some RightShift | OperatorBitwiseXor => Some BitwiseXor | OperatorSlash => Some Slash
  | OperatorEqualEqual => None
  | OperatorLogicalAnd => Some LogicalAnd | OperatorLogicalOr => Some LogicalOr | OperatorKeywordAnd => Some KeywordAnd
  | OperatorKeywordOr => Some KeywordOr | OperatorValueColon => Some ValueColon | OperatorAtColon => Some AtColon
  | OperatorCharAtColon => Some CharAtColon
  end.

Section operators.
Context (vm : VMStrings) (K : Classes) (arrays : list nat) (capacity : nat).

(** [GetLookupKeyForBinaryOperator] and its two siblings: the interned selector. *)
Definition binary_key (kind : BinOpKind) : SOMUniquedString :=
  match kind with
  | Plus => v_strOperatorPlus vm | Minus => v_strOperatorMinus vm | Star => v_strOperatorStar vm
  | SlashSlash => v_strOperatorSlashSlash vm | Percent => v_strOperatorPercent vm | And => v_strOperatorAnd vm
  | Equal => v_strOperatorEqual vm | LessThan => v_strOperatorLessThan vm | LessEqual => v_strOperatorLessEqual vm
  | GreaterThan => v_strOperatorGreaterThan vm | GreaterEqual => v_strOperatorGreaterEqual vm
  | Unequal => v_strOperatorUnequal vm | TildeUnequal => v_strOperatorTildeUnequal vm
  | LeftShift => v_strOperatorLeftShift vm | RightShift => v_strOperatorRightShift vm
  | BitwiseXor => v_strOperatorBitwiseXor vm | Slash => v_strOperatorSlash vm
  | LogicalAnd => v_strOperatorLogicalAnd vm | LogicalOr => v_strOperatorLogicalOr vm
  | KeywordAnd => v_strOperatorKeywordAnd vm | KeywordOr => v_strOperatorKeywordOr vm
  | ValueColon => v_strOperatorValueColon vm | AtColon => v_strOperatorAtColon vm | CharAtColon => v_strOperatorCharAtColon vm
  end.
Definition unary_key (kind : UnaryOpKind) : SOMUniquedString :=
  match kind with
  | Abs => v_strOperatorAbs vm | Sqrt => v_strOperatorSqrt vm | UValue => v_strOperatorValue vm
  | Not => v_strOperatorNot vm | Length => v_strOperatorLength vm
  end.
Definition ternary_key (op : TernaryOperator) : SOMUniquedString :=
  match op with OperatorAtPut => v_strOperatorAtPut vm | OperatorValueWith => v_strOperatorValueWith vm end.

(** [BinOpGeneralSlowPath], [UnaryOpGeneralSlowPath] and [TernaryOpGeneralSlowPath]:
    the three differ in the number of operands only. *)
Definition OpGeneralSlowPath (meth : SOMUniquedString) (self : Value) (args : list Value) : V Outcome :=
  f ← LookupMethodGeneralImpl K self meth;
  match f with
  | None => HandleMethodNotFoundImpl vm K self meth args
  | Some f => mret (MakeCall f (self :: args))
  end.

(** The end of [MiscBinOpImpl] and [MiscUnaryOpImpl]: what the lookup found is run.
    A unary selector is never a setter. *)
Definition run_found_op (meth : SOMUniquedString) (self : Value) (args : list Value) (res : LookupResult) : V Outcome :=
  match res with
  | (SOM_MethodNotFound, _) => HandleMethodNotFoundImpl vm K self meth args
  | (SOM_CallBaseNotObject, _) => OpGeneralSlowPath meth self args
  | (SOM_NormalMethod, FoundFunction f) => mret (MakeCall f (self :: args))
  | (SOM_Setter, fn) =>
      match args with
      | [arg] => v ← ExecuteSetterTrivialMethod fn self arg; mret (Return v)
      | _ => fail (AssertFailed "false")
      end
  | (fnKind, fn) => v ← ExecuteTrivialMethodExceptSetter arrays fn self fnKind; mret (Return v)
  end.

Definition misc_send (ic : InlineCache) (meth : SOMUniquedString) (self : Value) (args : list Value)
    : V (Outcome * InlineCache) :=
  '(res, ic') ← LookupObjectMethodImpl K capacity ic self meth None;
  out ← run_found_op meth self args res;
  mret (out, ic').

(** A function that is a block of [numArgs] arguments, and whether it holds [self]
    by value.  Every other heap entity has another kind in the same byte. *)
Definition block_kind (numArgs : nat) (f : FunctionObject) : option bool :=
  match entity_of_mask (m_invalidArrayType f), numArgs with
  | Some SOM_BlockNoArg, 0 | Some SOM_BlockOneArg, 1 | Some SOM_BlockTwoArgs, 2 => Some false
  | Some SOM_BlockNoArgImmSelf, 0 | Some SOM_BlockOneArgImmSelf, 1 | Some SOM_BlockTwoArgsImmSelf, 2 => Some true
  | _, _ => None
  end.

(** [value], [value:] and [value:with:] of a block: the block is called on its [self]. *)
Definition eval_block (block : Value) (args : list Value) : V (option Outcome) :=
  match block with
  | VFunction fn =>
      f ← the_function fn;
      match block_kind (length args) f with
      | Some immSelf => self ← block_self immSelf f; mret (Some (MakeCall fn (self :: args)))
      | None => mret None
      end
  | _ => mret None
  end.

(** The fast path, and the outcome when there is none. *)
Definition fast_or {A} (fast : V FastResult) (k : Value -> A) (slow : V A) : V A :=
  r ← fast; match r with Returned v => mret (k v) | SlowPath => slow end.

(** ** Binary operators *)
Definition misc_binary_fast (kind : BinOpKind) (lhs rhs : Value) : V (option Outcome) :=
  match kind with
  | ValueColon => eval_block lhs [rhs]
  | AtColon => fast_or (on_objects (AtColonImpl lhs rhs)) (fun v => Some (Return v)) (mret None)
  | _ => fast_or (on_str (CharAtColonImpl lhs rhs)) (fun v => Some (Return v)) (mret None)
  end.

Definition MiscBinOpImpl (kind : BinOpKind) (ic : InlineCache) (lhs rhs : Value) : V (Outcome * InlineCache) :=
  if IsHeapEntity lhs then
    fast ← misc_binary_fast kind lhs rhs;
    match fast with
    | Some out => mret (out, ic)
    | None => misc_send ic (binary_key kind) lhs [rhs]
    end
  else out ← OpGeneralSlowPath (binary_key kind) lhs [rhs]; mret (out, ic).

Definition BinaryOperatorImpl (op : BinaryOperator) (ic : InlineCache) (lhs rhs : Value) : V (Outcome * InlineCache) :=
  match kind_of_operator op with
  | None => mret (Return (OperatorEqualEqualImpl lhs rhs), ic)
  | Some kind =>
      let slow := out ← OpGeneralSlowPath (binary_key kind) lhs [rhs]; mret (out, ic) in
      let done v := (Return v, ic) in
      match kind with
      | LogicalAnd | LogicalOr | KeywordAnd | KeywordOr => fast_or (mret (BooleanBinOpImpl kind lhs rhs)) done slow
      | ValueColon | AtColon | CharAtColon => MiscBinOpImpl kind ic lhs rhs
      | _ => fast_or (on_objects (ArithBinOpImpl kind lhs rhs)) done slow
      end
  end.

(** ** Unary operators *)
Definition misc_unary_fast (kind : UnaryOpKind) (op : Value) : V (option Outcome) :=
  match kind with
  | UValue => eval_block op []
  | Length => fast_or (on_objects (LengthImpl op)) (fun v => Some (Return v)) (mret None)
  | _ => mret None
  end.

Definition MiscUnaryOpImpl (kind : UnaryOpKind) (ic : InlineCache) (op : Value) : V (Outcome * InlineCache) :=
  match kind, op with
  | Not, VBool b => mret (Return (VBool (negb b)), ic)
  | _, _ =>
      if IsHeapEntity op then
        fast ← misc_unary_fast kind op;
        match fast with
        | Some out => mret (out, ic)
        | None => misc_send ic (unary_key kind) op []
        end
      else
        match kind with
        | UValue => mret (Return op, ic)
        | _ => out ← OpGeneralSlowPath (unary_key kind) op []; mret (out, ic)
        end
  end.

Definition UnaryOperatorImpl (o : UnaryOperator) (ic : InlineCache) (op : Value) : V (Outcome * InlineCache) :=
  let arith kind :=
    fast_or (lift_result (ArithUnaryOpImpl kind op)) (fun v => (Return v, ic))
      (out ← OpGeneralSlowPath (unary_key kind) op []; mret (out, ic)) in
  match o with
  | OperatorAbs => arith Abs
  | OperatorSqrt => arith Sqrt
  | OperatorIsNil => mret (Return (IsNilNotNilOpImpl true op), ic)
  | OperatorNotNil => mret (Return (IsNilNotNilOpImpl false op), ic)
  | OperatorValue => MiscUnaryOpImpl UValue ic op
  | OperatorNot => MiscUnaryOpImpl Not ic op
  | OperatorLength => MiscUnaryOpImpl Length ic op
  end.

(** ** Ternary operators *)
Definition TernaryOperatorImpl (o : TernaryOperator) (op arg1 arg2 : Value) : V Outcome :=
  let slow := OpGeneralSlowPath (ternary_key o) op [arg1; arg2] in
  match o with
  | OperatorAtPut => fast_or (on_objects (AtPutImpl op arg1 arg2)) Return slow
  | OperatorValueWith =>
      fast ← eval_block op [arg1; arg2];
      match fast with Some out => mret out | None => slow end
  end.
End operators.
