(* ===== verification/LibCalls.v ===== *)
(** * Library functions at run time

    A library function ([annotated/builtin_libs/som_primitives.cpp]) runs in a frame
    whose slots are its arguments.  Most compute a value; the ones below also call
    functions, in a frame above their own, and go on with the value in a return
    continuation: evaluation of blocks, [perform:], [whileTrue:]. *)
From S2P Require Import Prelude Interner VmSelectors CNumbers Bytecode Compiler MethodTable TValue Values Primitives Arith Objects Loops OpenUpvalues Symbols Machine Calls.
#[local] Set Default Proof Using "Type".

(** [StackFrameHeader::m_retAddr]: what is done with the value a frame returns, in
    the frame below. *)
Inductive RetAddr : Type :=
  | RetToC                                       (* the caller is the C++ program *)
  | RetToBytecode                                (* the continuation of a call bytecode *)
  | TrivialReturnCont
  | block_while_evalbody (while_value : bool)    (* the condition was evaluated *)
  | block_while_evalcond (while_value : bool)    (* the body was evaluated *)
  | EscapedBlockReturnCont.

(** A library function returns, or calls a function whose frame starts at [newBase]. *)
Inductive LibOutcome : Type :=
  | LibReturn (v : Value)
  | LibCall (f newBase numArgs : nat) (onReturn : RetAddr).

(** What a program consists of once it is loaded: its classes, the object that
    represents each, the objects of its array constants, the names of its globals and
    its compiled methods; [pr_other_primitive] are the library functions outside the
    model (printing, files, time, number formatting and parsing, reflection). *)
Record Program : Type := mk_program {
  pr_HashString : string -> Z;
  pr_vm : VMStrings;
  pr_classes : Classes;
  pr_class_objects : list nat;
  pr_arrays : list nat;
  pr_globalNames : list nat;
  pr_units : Units;
  pr_bcLength : Bytecode -> nat;
  pr_other_primitive : LibFunc -> list Value -> V Value
}.

Section lib.
Context (pr : Program).
Let K : Classes := pr_classes pr.

Section frame.
(** The frame: its first slot, the number of its arguments and its function. *)
Context (base numArgs func : nat).

Definition GetArg (i : nat) : V Value :=
  check (i <? numArgs) (AssertFailed "i < GetNumArgs()") ;; load (base + i).

(** [SystemHeapPointer<SOMClass>] of a class object. *)
Definition class_of_object (o : nat) : option nat := fst <$> list_find (fun o' => o' = o) (pr_class_objects pr).
Definition GetClassFromClassObject (tv : Value) : V nat :=
  match tv with
  | VObject o =>
      match class_of_object o with Some cl => mret cl | None => fail (UndefinedBehaviour "not a class object") end
  | _ => fail (AssertFailed "tv.Is<tObject>()")
  end.

Definition classObject (cl : nat) : V Value :=
  match pr_class_objects pr !! cl with Some o => mret (VObject o) | None => fail bad_class end.

Definition object_class (tv : Value) : V Value := cl ← GetSOMClassOfAny K tv; classObject cl.
Definition class_new (tv : Value) : V Value :=
  cl ← GetClassFromClassObject tv;
  c ← the_class K cl;
  r ← on_objects (Instantiate cl (c_numFields c));
  mret (VObject r).

(** [method_signature] and [method_holder]: fields of the object of a method. *)
Definition method_signature (tv : Value) : V Value := on_objects (GetFieldImpl tv 1).
Definition method_holder (tv : Value) : V Value := on_objects (GetFieldImpl tv 0).

Definition unary_primitive (f : LibFunc) : option (Value -> V Value) :=
  let pure op := Some (fun a => lift_result (op a)) in
  let heap op := Some (fun a => on_objects (op a)) in
  match f with
  | P_integer_asdouble => pure integer_asdouble
  | P_integer_as32bitsigned => pure integer_as32bitsigned
  | P_integer_as32bitunsigned => pure integer_as32bitunsigned
  | P_integer_sqrt => pure integer_sqrt
  | P_integer_abs => pure integer_abs
  | P_double_asinteger => pure double_asinteger
  | P_double_round => pure double_round
  | P_double_sqrt => pure double_sqrt
  | P_object_class => Some object_class
  | P_class_new => Some class_new
  | P_method_signature => Some method_signature
  | P_method_holder => Some method_holder
  | P_array_length => heap array_length
  | P_array_copy => heap array_copy
  | P_string_assymbol => Some (fun a => on_str (string_assymbol (pr_HashString pr) a))
  | P_symbol_asstring => Some (fun a => on_str (symbol_asstring (pr_HashString pr) a))
  | P_string_hashcode => heap string_hashcode
  | P_string_length => heap string_length
  | P_string_iswhitespace => heap string_iswhitespace
  | P_string_isletters => heap string_isletters
  | P_string_isdigits => heap string_isdigits
  | _ => None
  end.

Definition binary_primitive_v (f : LibFunc) : option (Value -> Value -> V Value) :=
  match f with
  | P_integer_range => Some (fun a b => on_objects (integer_range a b))
  | P_object_instvarat => Some (fun a b => on_objects (object_instvarat a b))
  | P_array_at => Some (fun a b => on_objects (array_at a b))
  | P_array_new => Some (fun _ b => on_objects (array_new b))
  | P_string_concatenate => Some (fun a b => on_objects (string_concatenate a b))
  | P_string_charat => Some (fun a b => on_objects (string_charat a b))
  | _ => (fun op a b => on_objects (op a b)) <$> binary_primitive f
  end.

Definition ternary_primitive (f : LibFunc) : option (Value -> Value -> Value -> V Value) :=
  match f with
  | P_object_instvaratput => Some (fun a b c => on_objects (object_instvaratput a b c))
  | P_array_at_put => Some (fun a b c => on_objects (array_at_put a b c))
  | P_string_primsubstring => Some (fun a b c => on_objects (string_primsubstring a b c))
  | _ => None
  end.

(** ** Calling from a library function *)

(** The header of a frame is not a value: its slots hold none. *)
Definition clear_header (newBase : nat) : V unit :=
  on_rc (store_slot (newBase - 4) None) ;; on_rc (store_slot (newBase - 3) None) ;;
  on_rc (store_slot (newBase - 2) None) ;; on_rc (store_slot (newBase - 1) None).
Fixpoint store_range (slot : nat) (vs : list Value) : V unit :=
  match vs with
  | [] => mret tt
  | v :: vs' => store slot v ;; store_range (S slot) vs'
  end.

(** A call set up at [callbase], with the arguments [args]. *)
Definition call_at (callbase f : nat) (args : list Value) (onReturn : RetAddr) : V LibOutcome :=
  let newBase := callbase + x_numSlotsForStackFrameHeader in
  store_range newBase args ;; mret (LibCall f newBase (length args) onReturn).

(** [block1_eval], [block2_eval] and [block3_eval]: [n] is 0, 1 or 2. *)
Definition block_eval (n : nat) : V LibOutcome :=
  tv ← GetArg 0;
  args ← (match n with
          | 0 => mret []
          | 1 => a ← GetArg 1; mret [a]
          | _ => a ← GetArg 1; b ← GetArg 2; mret [a; b]
          end);
  match tv with
  | VFunction fn =>
      f ← the_function fn;
      check (1 <=? length (m_upvalues f)) (AssertFailed "fn->m_numUpvalues >= 1") ;;
      match entity_of_mask (m_invalidArrayType f), n with
      | Some SOM_BlockNoArg, 0 | Some SOM_BlockOneArg, 1 | Some SOM_BlockTwoArgs, 2 =>
          self ← block_self false f; call_at (base + S n) fn (self :: args) TrivialReturnCont
      | Some SOM_BlockNoArgImmSelf, 0 | Some SOM_BlockOneArgImmSelf, 1 | Some SOM_BlockTwoArgsImmSelf, 2 =>
          self ← block_self true f; call_at (base + S n) fn (self :: args) TrivialReturnCont
      | _, _ => fail (AssertFailed "tv.Is<tFunction>() && (fnTy == ...)")
      end
  | _ => fail (AssertFailed "Is<tFunction>()")
  end.

(** [SetupStackForBlockNoArgCall], and the call: the function of [func] gets nil for
    the arguments it has.  The two numbers that decide are those of its kind. *)
Definition call_block (func : Value) (onReturn : RetAddr) : V LibOutcome :=
  match func with
  | VFunction fn =>
      f ← the_function fn;
      check (1 <=? length (m_upvalues f)) (AssertFailed "fn->m_numUpvalues >= 1") ;;
      let fnTy := Z.land (m_invalidArrayType f) 15 in
      let n := Z.to_nat (((fnTy - entity_number SOM_BlockNoArg) `mod` 2 ^ 64) / 2 + 1) in
      self ← block_self (Z.odd fnTy) f;
      let newBase := base + 2 + x_numSlotsForStackFrameHeader in
      store_range newBase [self; VNil; VNil] ;;
      mret (LibCall fn newBase n onReturn)
  | _ => fail (AssertFailed "Is<tFunction>()")
  end.

(** [block_whiletrue] and [block_whilefalse], and their two continuations. *)
Definition block_while (while_value : bool) : V LibOutcome :=
  condBlock ← GetArg 0;
  stmtBlock ← GetArg 1;
  check (match condBlock with VFunction _ => true | _ => false end) (AssertFailed "condBlock.Is<tFunction>()") ;;
  check (match stmtBlock with VFunction _ => true | _ => false end) (AssertFailed "GetArg(1).Is<tFunction>()") ;;
  call_block condBlock (block_while_evalbody while_value).
Definition while_evalcond (while_value : bool) : V LibOutcome :=
  condBlock ← load base; call_block condBlock (block_while_evalbody while_value).
Definition while_evalbody (while_value : bool) (retVal : Value) : V LibOutcome :=
  if bool_decide (retVal = VBool while_value) then
    stmtBlock ← load (base + 1); call_block stmtBlock (block_while_evalcond while_value)
  else mret (LibReturn VNil).

(** [GetUniquedStringFromVM] *)
Definition GetUniquedStringFromVM (meth : Value) : V SOMUniquedString :=
  str ← on_objects (AsString meth);
  ord ← on_str (InternStr (pr_HashString pr) str);
  it ← gets (fun s => st_interner (vm_str s));
  hash ← lift_result (GetHash ord it);
  mret (mk_uniqued (u32 (Z.of_nat ord)) (hash32 hash)).

(** The [perform:] primitives: [cl] is the class searched, [callbase] is above the
    arguments of the primitive. *)
Definition perform_in (what : string) (cl : V nat) (callbase : nat) (self meth : Value) (args : list Value) : V LibOutcome :=
  methStr ← GetUniquedStringFromVM meth;
  cl ← cl;
  fn ← FindMethod K cl methStr;
  match fn with
  | None =>
      str ← on_objects (AsString meth);
      fail (Aborted (what ++ " Cannot invoke non-existent method " ++ str))
  | Some f => call_at callbase f (self :: args) TrivialReturnCont
  end.

Definition object_perform : V LibOutcome :=
  self ← GetArg 0; meth ← GetArg 1;
  perform_in "Object>>perform:" (GetSOMClassOfAny K self) (base + 2) self meth [].
Definition object_perform_in_superclass : V LibOutcome :=
  self ← GetArg 0; meth ← GetArg 1; sc ← GetArg 2;
  perform_in "Object>>perform:inSuperclass:" (GetClassFromClassObject sc) (base + 3) self meth [].
Definition object_perform_with_args : V LibOutcome :=
  self ← GetArg 0; meth ← GetArg 1; args ← GetArg 2;
  argsArr ← on_objects (AsArray args);
  perform_in "Object>>perform:withArguments:" (GetSOMClassOfAny K self) (base + 3) self meth argsArr.
Definition object_perform_with_args_in_superclass : V LibOutcome :=
  self ← GetArg 0; meth ← GetArg 1; args ← GetArg 2;
  argsArr ← on_objects (AsArray args);
  sc ← GetArg 3;
  perform_in "Object>>perform:withArguments:inSuperclass:" (GetClassFromClassObject sc) (base + 4) self meth argsArr.

Definition method_invoke_on_with : V LibOutcome :=
  meth ← GetArg 0; self ← GetArg 1; args ← GetArg 2;
  argsArr ← on_objects (AsArray args);
  func ← on_objects (GetFieldImpl meth 2);
  match func with
  | VFunction f => call_at (base + 3) f (self :: argsArr) TrivialReturnCont
  | _ => fail (AssertFailed "func.Is<tFunction>()")
  end.

(** [unimplemented_primitive] aborts with the name kept in its upvalue. *)
Definition run_unimplemented : V LibOutcome :=
  f ← the_function func;
  match m_upvalues f with
  | [UvValue str] => s ← on_objects (AsString str); fail (Aborted ("Unimplemented primitive " ++ s ++ "!"))
  | _ => fail (AssertFailed "f->m_numUpvalues == 1")
  end.

Definition lib_value (m : V Value) : V LibOutcome := v ← m; mret (LibReturn v).

(** The primitives that compute a value, by their number of arguments. *)
Definition run_value_primitive (f : LibFunc) : V LibOutcome :=
  match unary_primitive f, binary_primitive_v f, ternary_primitive f with
  | Some op, _, _ => lib_value (a ← GetArg 0; op a)
  | None, Some op, _ => lib_value (a ← GetArg 0; b ← GetArg 1; op a b)
  | None, None, Some op => lib_value (a ← GetArg 0; b ← GetArg 1; c ← GetArg 2; op a b c)
  | None, None, None => lib_value (args ← load_range base numArgs; pr_other_primitive pr f args)
  end.

Definition run_lib_func (f : LibFunc) : V LibOutcome :=
  match f with
  | P_unimplemented_primitive => run_unimplemented
  | P_double_positiveinfinity => lib_value (lift_result double_positiveinfinity)
  | P_object_inspect | P_object_halt => mret (LibReturn (VBool false))
  | P_block1_eval => block_eval 0
  | P_block2_eval => block_eval 1
  | P_block3_eval => block_eval 2
  | P_block_whiletrue => block_while true
  | P_block_whilefalse => block_while false
  | P_object_perform => object_perform
  | P_object_perform_in_superclass => object_perform_in_superclass
  | P_object_perform_with_args => object_perform_with_args
  | P_object_perform_with_args_in_superclass => object_perform_with_args_in_superclass
  | P_method_invoke_on_with => method_invoke_on_with
  | _ => run_value_primitive f
  end.
End frame.
End lib.
