(* ===== verification/Interp.v ===== *)
(** * The bytecode interpreter

    One step of the machine: a bytecode ([annotated/bytecodes/]), a function entry,
    a return to the frame below, or a non-local return
    ([annotated/builtin_libs/throw_error.cpp]).  A frame begins at a slot of the stack,
    above a header of four slots ([StackFrameHeader]); the headers are kept in a list,
    the current frame first, so that [m_caller] is the rest of the list.  A call from a
    bytecode puts the new frame either over the arguments that lie in the current one,
    or behind it ([deegen_ast_make_call.cpp]); no missing argument is filled in
    ([deegen_function_entry_logic_creator.cpp], [x_use_som_call_semantics]). *)
From S2P Require Import Prelude Interner VmSelectors CNumbers Bytecode Compiler MethodTable TValue Values Primitives Arith Objects Loops OpenUpvalues Symbols Machine Calls Operators LibCalls.
#[local] Set Default Proof Using "Type".

Record StackFrameHeader : Type := mk_header {
  h_base : nat;                   (* the first slot of the frame *)
  m_func : nat;
  m_retAddr : RetAddr;
  m_callerBytecodePtr : nat       (* the position of the calling bytecode *)
}.

(** A bytecode of a code block, the place of its inline cache. *)
Definition Site : Type := UcbRef * nat.

Record ExecState : Type := mk_exec {
  ex_vm : VMState;
  ex_frames : list StackFrameHeader;
  ex_caches : gmap Site InlineCache
}.
Notation X := (M ExecState).

(** What the machine does next. *)
Inductive Control : Type :=
  | Running (pc : nat)            (* the bytecode at [pc] of the current frame *)
  | Entering (numArgs : nat)      (* the function of the current frame *)
  | Returning (v : Value)         (* from the current frame *)
  | Throwing (v : Value)          (* a non-local return out of the current frame's block *)
  | Done (v : Value).

Definition on_vm {A} (m : V A) : X A := fun x =>
  '(a, s) ← m (ex_vm x); Ok (a, mk_exec s (ex_frames x) (ex_caches x)).
Definition set_frames (frames : list StackFrameHeader) : X unit :=
  modify (fun x => mk_exec (ex_vm x) frames (ex_caches x)).

Definition no_frame : error := UndefinedBehaviour "no stack frame".
Definition current_frame : X StackFrameHeader := fun x =>
  match ex_frames x with fr :: _ => Ok (fr, x) | [] => Err no_frame end.

(** An operation with the inline cache of a site. *)
Definition with_cache {A} (site : Site) (m : InlineCache -> V (A * InlineCache)) : X A := fun x =>
  '((a, ic), s) ← m (default [] (ex_caches x !! site)) (ex_vm x);
  Ok (a, mk_exec s (ex_frames x) (<[site := ic]> (ex_caches x))).

Section interp.
Context (pr : Program) (capacity : nat).
Let vm : VMStrings := pr_vm pr.
Let K : Classes := pr_classes pr.

(** ** Frames *)
Definition not_bytecode : error := UndefinedBehaviour "not a bytecode function".
Definition frame_code_block (fr : StackFrameHeader) : V CodeBlock :=
  f ← the_function (m_func fr);
  match m_executable f with BytecodeFunction cb => mret cb | UserCFunction _ => fail not_bytecode end.

Definition bad_pc : error := UndefinedBehaviour "not the position of a bytecode".
Definition fetch (fr : StackFrameHeader) (pc : nat) : V (CodeBlock * Bytecode) :=
  cb ← frame_code_block fr;
  c ← the_context (pr_units pr) (m_owner cb);
  match bytecode_at pc (m_builder c) with Some bc => mret (cb, bc) | None => fail bad_pc end.

(** [PopulateNewCallFrameHeader], and the call. *)
Definition push_frame (newBase f : nat) (onReturn : RetAddr) (pc numArgs : nat) : X Control :=
  on_vm (clear_header newBase) ;;
  frames ← gets ex_frames;
  set_frames (mk_header newBase f onReturn pc :: frames) ;;
  mret (Entering numArgs).

(** ** Operands *)
Definition operand_value (base : nat) (o : Operand) : V Value :=
  match o with OLocal slot => load (base + slot) | OCst c => literal_value (pr_arrays pr) c end.
Definition selector_of (c : Cst) : V SOMUniquedString :=
  match c with CstSelector meth => mret meth | _ => fail (UndefinedBehaviour "not a selector") end.
Definition class_of_cst (c : Cst) : V nat :=
  match c with CstClass cl => mret cl | _ => fail (UndefinedBehaviour "not a class") end.

(** The slot a bytecode with a result writes. *)
Definition output_slot (bc : Bytecode) : option nat :=
  match bc with
  | BcSOMGlobalGet _ _ out | BcBinaryOperator _ _ _ out | BcUnaryOperator _ _ out | BcTernaryOperator _ _ _ _ out
  | BcSOMCall _ _ _ out | BcSOMSelfCall _ _ _ _ out | BcSOMSuperCall _ _ _ _ _ out => Some out
  | _ => None
  end.

(** ** The bytecodes *)
Section bytecode.
Context (fr : StackFrameHeader) (cb : CodeBlock) (pc : nat) (bc : Bytecode).
Let base : nat := h_base fr.
Let site : Site := (m_owner cb, pc).

Definition next : Control := Running (pc + pr_bcLength pr bc).

(** [ReturnAndBranch]: the operand is the distance from the bytecode itself. *)
Definition branch (br : option Z) : X Control :=
  match br with
  | Some off => mret (Running (Z.to_nat (Z.of_nat pc + off)))
  | None => fail (UndefinedBehaviour "the branch target was never set")
  end.
Definition branch_if (taken : bool) (br : option Z) : X Control := if taken then branch br else mret next.

Definition output (slot : nat) (v : Value) : X Control := on_vm (store (base + slot) v) ;; mret next.

(** What a bytecode that may call does with its outcome. *)
Definition finish (out : nat) (o : Outcome) : X Control :=
  match o with
  | Return v => output out v
  | MakeInPlaceCall f argsBegin numArgs => push_frame argsBegin f RetToBytecode pc numArgs
  | MakeCall f args =>
      let newBase := base + cb_stackFrameNumSlots cb + x_numSlotsForStackFrameHeader in
      on_vm (store_range newBase args) ;;
      push_frame newBase f RetToBytecode pc (length args)
  end.

Definition condition (c : BranchCond) (v : Value) : bool :=
  match c with
  | IfTrue => BranchIfTrueOrFalseImpl true v
  | IfFalse => BranchIfTrueOrFalseImpl false v
  | IfNil => BranchIfNilOrNotNilImpl false v
  | IfNotNil => BranchIfNilOrNotNilImpl true v
  end.

Fixpoint RangeFillNilsImpl (slot numToPut : nat) : V unit :=
  match numToPut with O => mret tt | S n => store slot VNil ;; RangeFillNilsImpl (S slot) n end.

(** [ForLoopStepImpl] on its three slots. *)
Definition for_loop_step (downto : bool) (slot : nat) : V bool :=
  val ← load slot;
  limit ← load (slot + 1);
  '(again, window) ← lift_result (ForLoopStepImpl downto 0 [val; limit; VNil]);
  match window with
  | [val'; _; out] => store slot val' ;; store (slot + 2) out ;; mret again
  | _ => fail bad_slot
  end.

(** [NewClosureImpl]: the code block, and the closure in the current frame. *)
Definition NewClosureImpl (unlinkedCb : Cst) (out : nat) : V Value :=
  match unlinkedCb with
  | CstUnlinkedCodeBlock ucb =>
      let ref := ((m_owner cb).1, ucb) in
      c ← the_context (pr_units pr) ref;
      block ← GetCodeBlock (pr_units pr) ref;
      r ← CreateAndFillUpvalues block (m_upvalueInfo (m_resultUcb c)) base (Some (m_func fr)) out;
      mret (VFunction r)
  | _ => fail bad_code
  end.

Definition ArrayDupImpl (src : Cst) : V Value :=
  v ← literal_value (pr_arrays pr) src;
  h ← gets (fun s => st_heap (vm_str s));
  on_objects (DeepCloneConstantArray (S (length h)) v).

(** One definition per bytecode of [annotated/bytecodes/], its operands as arguments. *)
Definition exec_Mov (input : Operand) (out : nat) : X Control := v ← on_vm (operand_value base input); output out v.
Definition exec_SOMArrayDup (src : Cst) (out : nat) : X Control := v ← on_vm (ArrayDupImpl src); output out v.
Definition exec_UpvalueGetMutable (ord out : nat) : X Control :=
  v ← on_vm (GetMutable (pr_units pr) (m_func fr) ord); output out v.
Definition exec_UpvalueGetImmutable (ord out : nat) : X Control :=
  v ← on_vm (GetImmutable (pr_units pr) (m_func fr) ord); output out v.
Definition exec_UpvaluePut (ord : nat) (value : Operand) : X Control :=
  v ← on_vm (operand_value base value);
  on_vm (PutUpvalue (pr_units pr) (m_func fr) ord v) ;; mret next.
Definition exec_UpvalueClose (slot : nat) : X Control := on_vm (on_rc (CloseUpvalues (base + slot))) ;; mret next.
Definition exec_SOMGetField (o index out : nat) : X Control :=
  b ← on_vm (load (base + o)); v ← on_vm (on_objects (GetFieldImpl b index)); output out v.
Definition exec_SOMPutField (o index : nat) (value : Operand) : X Control :=
  b ← on_vm (load (base + o)); v ← on_vm (operand_value base value);
  on_vm (on_objects (PutFieldImpl b index v)) ;; mret next.
Definition exec_SOMGlobalGet (self index out : nat) : X Control :=
  s ← on_vm (load (base + self));
  o ← on_vm (GlobalGetImpl vm K (pr_globalNames pr) s index); finish out o.

Definition exec_BranchIf (c : BranchCond) (cond : nat) (br : option Z) : X Control :=
  v ← on_vm (load (base + cond)); branch_if (condition c v) br.
Definition exec_StoreNilAndBranchIf (c : BranchCond) (cond out : nat) (br : option Z) : X Control :=
  v ← on_vm (load (base + cond)); on_vm (store (base + out) VNil) ;; branch_if (condition c v) br.
Definition exec_CopyAndBranchIf (c : BranchCond) (cond out : nat) (br : option Z) : X Control :=
  v ← on_vm (load (base + cond)); on_vm (store (base + out) v) ;; branch_if (condition c v) br.
Definition exec_CheckForLoopStartCond (downto : bool) (val limit out : nat) (br : option Z) : X Control :=
  v ← on_vm (load (base + val)); l ← on_vm (load (base + limit));
  '(w, skip) ← lift_result (CheckForLoopStartCondImpl downto v l);
  on_vm (store (base + out) w) ;; branch_if skip br.
Definition exec_ForLoopStep (downto : bool) (slot : nat) (br : option Z) : X Control :=
  again ← on_vm (for_loop_step downto (base + slot)); branch_if again br.

Definition exec_BinaryOperator (op : BinaryOperator) (lhs rhs : Operand) (out : nat) : X Control :=
  l ← on_vm (operand_value base lhs); r ← on_vm (operand_value base rhs);
  o ← with_cache site (fun ic => BinaryOperatorImpl vm K (pr_arrays pr) capacity op ic l r); finish out o.
Definition exec_UnaryOperator (op : UnaryOperator) (operand out : nat) : X Control :=
  v ← on_vm (load (base + operand));
  o ← with_cache site (fun ic => UnaryOperatorImpl vm K (pr_arrays pr) capacity op ic v); finish out o.
Definition exec_TernaryOperator (op : TernaryOperator) (operand : nat) (arg1 arg2 : Operand) (out : nat) : X Control :=
  v ← on_vm (load (base + operand));
  a ← on_vm (operand_value base arg1); b ← on_vm (operand_value base arg2);
  o ← on_vm (TernaryOperatorImpl vm K op v a b); finish out o.
Definition exec_SOMCall (slot : nat) (meth : Cst) (numArgs out : nat) : X Control :=
  m ← on_vm (selector_of meth);
  o ← with_cache site (fun ic => CallImpl vm K (pr_arrays pr) capacity ic (base + slot) m numArgs); finish out o.
Definition exec_SOMSelfCall (slot self : nat) (meth : Cst) (numArgs out : nat) : X Control :=
  s ← on_vm (load (base + self)); m ← on_vm (selector_of meth);
  o ← with_cache site (fun ic => SelfCallImpl vm K (pr_arrays pr) capacity ic (base + slot) s None m numArgs); finish out o.
Definition exec_SOMSuperCall (slot self : nat) (superClass meth : Cst) (numArgs out : nat) : X Control :=
  s ← on_vm (load (base + self)); m ← on_vm (selector_of meth); cl ← on_vm (class_of_cst superClass);
  o ← with_cache site (fun ic => SelfCallImpl vm K (pr_arrays pr) capacity ic (base + slot) s (Some cl) m numArgs); finish out o.

Definition exec_Ret (retStart : nat) : X Control := v ← on_vm (load (base + retStart)); mret (Returning v).
Definition exec_SOMThrow (value : nat) : X Control := v ← on_vm (load (base + value)); mret (Throwing v).
Definition exec_RangeFillNils (slot numToPut : nat) : X Control := on_vm (RangeFillNilsImpl (base + slot) numToPut) ;; mret next.
Definition exec_NewClosure (unlinkedCb : Cst) (out : nat) : X Control := v ← on_vm (NewClosureImpl unlinkedCb out); output out v.

Definition exec_bytecode : X Control :=
  match bc with
  | BcMov input out => exec_Mov input out
  | BcSOMArrayDup src out => exec_SOMArrayDup src out
  | BcUpvalueGetMutable ord out => exec_UpvalueGetMutable ord out
  | BcUpvalueGetImmutable ord out => exec_UpvalueGetImmutable ord out
  | BcUpvaluePut ord value => exec_UpvaluePut ord value
  | BcUpvalueClose slot => exec_UpvalueClose slot
  | BcSOMGetField o index out => exec_SOMGetField o index out
  | BcSOMPutField o index value => exec_SOMPutField o index value
  | BcSOMGlobalGet self index out => exec_SOMGlobalGet self index out
  | BcBranchIf c cond br => exec_BranchIf c cond br
  | BcStoreNilAndBranchIf c cond out br => exec_StoreNilAndBranchIf c cond out br
  | BcCopyAndBranchIf c cond out br => exec_CopyAndBranchIf c cond out br
  | BcBranch br | BcBranchLoopHint br => branch br
  | BcCheckForLoopStartCond downto val limit out br => exec_CheckForLoopStartCond downto val limit out br
  | BcForLoopStep downto slot br => exec_ForLoopStep downto slot br
  | BcBinaryOperator op lhs rhs out => exec_BinaryOperator op lhs rhs out
  | BcUnaryOperator op operand out => exec_UnaryOperator op operand out
  | BcTernaryOperator op operand arg1 arg2 out => exec_TernaryOperator op operand arg1 arg2 out
  | BcSOMCall slot meth numArgs out => exec_SOMCall slot meth numArgs out
  | BcSOMSelfCall slot self meth numArgs out => exec_SOMSelfCall slot self meth numArgs out
  | BcSOMSuperCall slot self superClass meth numArgs out => exec_SOMSuperCall slot self superClass meth numArgs out
  | BcRet retStart _ => exec_Ret retStart
  | BcSOMThrow value => exec_SOMThrow value
  | BcRangeFillNils slot numToPut => exec_RangeFillNils slot numToPut
  | BcNewClosure unlinkedCb out => exec_NewClosure unlinkedCb out
  end.
End bytecode.

(** ** Function entry and return *)
Definition finish_lib (o : LibOutcome) : X Control :=
  match o with
  | LibReturn v => mret (Returning v)
  | LibCall f newBase numArgs onReturn => push_frame newBase f onReturn 0 numArgs
  end.

Definition enter (numArgs : nat) : X Control :=
  fr ← current_frame;
  f ← on_vm (the_function (m_func fr));
  match m_executable f with
  | BytecodeFunction _ => mret (Running 0)
  | UserCFunction lib => o ← on_vm (run_lib_func pr (h_base fr) numArgs (m_func fr) lib); finish_lib o
  end.

(** The frame is left; its return address says what the one below does. *)
Definition return_value (v : Value) : X Control :=
  frames ← gets ex_frames;
  match frames with
  | [] => fail no_frame
  | fr :: frames =>
      set_frames frames ;;
      match m_retAddr fr with
      | RetToC => mret (Done v)
      | RetToBytecode =>
          caller ← current_frame;
          '(cb, bc) ← on_vm (fetch caller (m_callerBytecodePtr fr));
          match output_slot bc with
          | Some out => output caller (m_callerBytecodePtr fr) bc out v
          | None => fail bad_pc
          end
      | TrivialReturnCont | EscapedBlockReturnCont => mret (Returning v)
      | block_while_evalbody while_value =>
          caller ← current_frame;
          o ← on_vm (while_evalbody (h_base caller) while_value v); finish_lib o
      | block_while_evalcond while_value =>
          caller ← current_frame;
          o ← on_vm (while_evalcond (h_base caller) while_value); finish_lib o
      end
  end.

(** ** Non-local return *)

(** [IsClosureMethod], with its assertion. *)
Definition IsClosureMethod (f : FunctionObject) : V bool :=
  match entity_of_mask (m_invalidArrayType f) with
  | Some SOM_Method => mret true
  | Some SOM_BlockNoArg | Some SOM_BlockNoArgImmSelf | Some SOM_BlockOneArg | Some SOM_BlockOneArgImmSelf
  | Some SOM_BlockTwoArgs | Some SOM_BlockTwoArgsImmSelf => mret false
  | _ => fail (AssertFailed "fnTy == SOM_BlockNoArg || ...")
  end.

(** The frames from the one at [base] on: what a pointer to its first slot leads to,
    checked by walking down from the current frame. *)
Fixpoint frames_from (base : nat) (frames : list StackFrameHeader) : option (list StackFrameHeader) :=
  match frames with
  | [] => None
  | fr :: frames' => if h_base fr =? base then Some frames else frames_from base frames'
  end.

(** Where upvalue 0 of a block points: the first slot of its creator's frame, or
    nowhere when it was closed. *)
Definition creator_base (block : FunctionObject) : V (option nat) :=
  match m_upvalues block with
  | [] => fail (AssertFailed "block->m_numUpvalues > 0")
  | UvPointer r :: _ =>
      u ← on_rc (the_upvalue r);
      if m_isClosed u then mret None
      else match m_ptr u with Some slot => mret (Some slot) | None => fail heap_pointer end
  | _ => fail (UndefinedBehaviour "upvalue 0 is not an upvalue pointer")
  end.

(** [throwingUcb] has [curUcb] among its ancestors. *)
Fixpoint is_ancestor (fuel : nat) (curUcb throwingUcb : UcbRef) : V bool :=
  if bool_decide (throwingUcb = curUcb) then mret true
  else
    match fuel with
    | O => fail OutOfFuel
    | S fuel' =>
        c ← the_context (pr_units pr) throwingUcb;
        match m_parent (m_resultUcb c) with
        | Some p => is_ancestor fuel' curUcb (throwingUcb.1, p)
        | None => mret false
        end
    end.

Definition the_code_block (f : FunctionObject) : V CodeBlock :=
  match m_executable f with BytecodeFunction cb => mret cb | UserCFunction _ => fail not_bytecode end.
Definition unit_size (ref : UcbRef) : nat := default 0 (length <$> pr_units pr !! ref.1).

(** The loop: from a block to its creator, until that is a method, whose frame is
    the result; [None] when a creator is no longer on the stack.  [fuel] bounds the
    blocks passed; there are at most as many as frames. *)
Fixpoint find_home (fuel : nat) (throwing : CodeBlock) (frames : list StackFrameHeader) (block : FunctionObject)
    : V (option (list StackFrameHeader)) :=
  match fuel with
  | O => fail OutOfFuel
  | S fuel' =>
      slot ← creator_base block;
      match slot with
      | None => mret None
      | Some slot =>
          match frames_from slot frames with
          | Some (cur :: frames') =>
              f ← the_function (m_func cur);
              curCb ← the_code_block f;
              ok ← is_ancestor (unit_size (m_owner throwing)) (m_owner curCb) (m_owner throwing);
              check ok (AssertFailed "throwingUcb != nullptr") ;;
              isMethod ← IsClosureMethod f;
              if isMethod : bool then mret (Some (cur :: frames')) else find_home fuel' throwing frames f
          | _ => fail (AssertFailed "h != nullptr")
          end
      end
  end.

(** [escapedBlock:] is sent to the block's [self], in a frame over the block's own. *)
Definition escaped_block (fr : StackFrameHeader) (blockFn : FunctionObject) : X Control :=
  let callbase := h_base fr in
  on_vm (on_rc (CloseUpvalues callbase)) ;;
  check (match entity_of_mask (m_invalidArrayType blockFn) with
         | Some SOM_BlockNoArg | Some SOM_BlockOneArg | Some SOM_BlockTwoArgs => true
         | _ => false
         end) (AssertFailed "blockFn is a block that holds self by reference") ;;
  blockSelf ← on_vm (block_self false blockFn);
  cl ← on_vm (GetSOMClassOfAny K blockSelf);
  handler ← on_vm (FindMethod K cl (v_escapedBlockHandler vm));
  match handler with
  | None => fail (AssertFailed "handler.m_value != 0")
  | Some h =>
      let newBase := callbase + x_numSlotsForStackFrameHeader in
      on_vm (store_range newBase [blockSelf; VFunction (m_func fr)]) ;;
      push_frame newBase h EscapedBlockReturnCont 0 2
  end.

(** [DeegenInternal_ThrowTValueErrorImpl] *)
Definition throw (v : Value) : X Control :=
  fr ← current_frame;
  block ← on_vm (the_function (m_func fr));
  isMethod ← on_vm (IsClosureMethod block);
  check (negb isMethod) (AssertFailed "!IsClosureMethod(block)") ;;
  cb ← on_vm (the_code_block block);
  frames ← gets ex_frames;
  home ← on_vm (find_home (S (length frames)) cb frames block);
  match home with
  | Some (cur :: frames) =>
      on_vm (on_rc (CloseUpvalues (h_base cur))) ;;
      on_vm (store (h_base cur) v) ;;
      set_frames (cur :: frames) ;;
      mret (Returning v)
  | _ => escaped_block fr block
  end.

(** ** The machine *)
Definition step (c : Control) : X Control :=
  match c with
  | Running pc =>
      fr ← current_frame;
      '(cb, bc) ← on_vm (fetch fr pc);
      exec_bytecode fr cb pc bc
  | Entering numArgs => enter numArgs
  | Returning v => return_value v
  | Throwing v => throw v
  | Done v => mret (Done v)
  end.

Fixpoint run (fuel : nat) (c : Control) : X Value :=
  match c with
  | Done v => mret v
  | _ => match fuel with O => fail OutOfFuel | S fuel' => c' ← step c; run fuel' c' end
  end.
End interp.
