(* ===== verification/Runs.v ===== *)
(** * Runs of the machine

    What every step of [Interp] leaves alone, and the inline caches of a whole run:
    they cannot be observed, whatever number of entries the call sites keep. *)
From S2P Require Import Prelude Interner VmSelectors CNumbers Ast Bytecode Compiler CompilerProperties MethodTable TValue Values Primitives Arith Objects Loops OpenUpvalues Symbols Machine Closures Calls Sends Operators LibCalls Interp.
#[local] Set Default Proof Using "Type".

(** ** Function objects and globals

    Operations that keep both, and operations under which both grow only. *)
Definition keeps {A} (m : V A) : Prop :=
  forall s a s', m s = Ok (a, s') -> vm_functions s' = vm_functions s /\ vm_globals s' = vm_globals s.
Definition grows {A} (m : V A) : Prop := forall s a s', m s = Ok (a, s') -> vm_le s s'.

Lemma keeps_grows {A} (m : V A) : keeps m -> grows m.
Proof. intros H s a s' [Hf Hg]%H. by apply vm_le_same. Qed.
Lemma reads_keeps {A} (m : V A) : reads m -> keeps m.
Proof. by intros H s a s' ->%H. Qed.
Lemma keeps_ret {A} (a : A) : keeps (mret a).
Proof. apply reads_keeps, reads_ret. Qed.
Lemma keeps_fail {A} e : keeps (fail e : V A).
Proof. apply reads_keeps, reads_fail. Qed.
Lemma keeps_check b e : keeps (check b e).
Proof. apply reads_keeps, reads_check. Qed.
Lemma keeps_lift {A} (r : result A) : keeps (lift_result r).
Proof. apply reads_keeps, reads_lift. Qed.
Lemma keeps_gets {A} (f : VMState -> A) : keeps (gets f).
Proof. by intros s a s' [= _ <-]. Qed.
Lemma keeps_bind {A B} (m : V A) (f : A -> V B) : keeps m -> (forall a, keeps (f a)) -> keeps (m ≫= f).
Proof.
  intros Hm Hf s b s'. unfold mbind, M_bind. destruct (m s) as [[a s1]|e] eqn:H; [|done].
  intros [Hf2 Hg2]%Hf. apply Hm in H as [Hf1 Hg1]. split; congruence.
Qed.
Lemma grows_bind {A B} (m : V A) (f : A -> V B) : grows m -> (forall a, grows (f a)) -> grows (m ≫= f).
Proof.
  intros Hm Hf s b s'. unfold mbind, M_bind. destruct (m s) as [[a s1]|e] eqn:H; [|done].
  intros H2%Hf. apply Hm in H. by etrans.
Qed.
Lemma keeps_on_str {A} (m : M StrState A) : keeps (on_str m).
Proof.
  intros s a s'. unfold on_str, mbind, result_bind. destruct (m (vm_str s)) as [[b st]|e]; [|done]. by intros [= _ <-].
Qed.
Lemma keeps_on_rc {A} (m : M (RContext Slot) A) : keeps (on_rc m).
Proof.
  intros s a s'. unfold on_rc, mbind, result_bind. destruct (m (vm_rc s)) as [[b rc]|e]; [|done]. by intros [= _ <-].
Qed.
Lemma keeps_function r : keeps (the_function r).
Proof. apply reads_keeps, reads_function. Qed.
Lemma keeps_global i : keeps (VM_GetGlobal i).
Proof. apply reads_keeps, reads_global. Qed.
Lemma keeps_FindMethod K cl meth : keeps (FindMethod K cl meth).
Proof. apply reads_keeps, reads_FindMethod. Qed.
Lemma keeps_class K cl : keeps (the_class K cl).
Proof. apply reads_keeps, reads_class. Qed.

Create HintDb keeps.
#[export] Hint Resolve keeps_ret keeps_fail keeps_check keeps_lift keeps_gets keeps_on_str keeps_on_rc keeps_function
  keeps_global keeps_FindMethod keeps_class : keeps.

(** Goes through binds and case distinctions. *)
Ltac solve_keeps :=
  repeat (intros;
    match goal with
    | |- keeps (_ ≫= _) => apply keeps_bind
    | |- keeps (if ?b then _ else _) => destruct b
    | |- keeps (match ?x with _ => _ end) => destruct x
    | |- keeps (on_objects _) => apply keeps_on_str
    | |- keeps _ => solve [auto with keeps nocore]
    end).

Lemma keeps_load n : keeps (load n).
Proof. unfold load, value_of. solve_keeps. Qed.
Lemma keeps_store n v : keeps (store n v).
Proof. apply keeps_on_rc. Qed.
#[export] Hint Resolve keeps_load keeps_store : keeps.

Section calls.
Context (vm : VMStrings) (K : Classes) (arrays : list nat).

Lemma keeps_class_of tv : keeps (GetSOMClassOfAny K tv).
Proof. unfold GetSOMClassOfAny. solve_keeps. Qed.
#[local] Hint Resolve keeps_class_of : keeps.
Lemma keeps_general self meth : keeps (LookupMethodGeneralImpl K self meth).
Proof. unfold LookupMethodGeneralImpl. solve_keeps. Qed.
Lemma keeps_argument_array args : keeps (argument_array args).
Proof. unfold argument_array. solve_keeps. Qed.
#[local] Hint Resolve keeps_general keeps_argument_array : keeps.
Lemma keeps_not_found self meth args : keeps (HandleMethodNotFoundImpl vm K self meth args).
Proof. unfold HandleMethodNotFoundImpl. solve_keeps. Qed.
Lemma keeps_load_range slot n : keeps (load_range slot n).
Proof. revert slot. induction n as [|n IH]; intros slot; simpl; solve_keeps. Qed.
#[local] Hint Resolve keeps_not_found keeps_load_range : keeps.
Lemma keeps_not_found_slow argsBegin self meth n : keeps (CallMethodNotFoundSlowPath vm K argsBegin self meth n).
Proof. unfold CallMethodNotFoundSlowPath. solve_keeps. Qed.
#[local] Hint Resolve keeps_not_found_slow : keeps.
Lemma keeps_not_object argsBegin self meth n : keeps (CallBaseNotObjectSlowPath vm K argsBegin self meth n).
Proof. unfold CallBaseNotObjectSlowPath. solve_keeps. Qed.
Lemma keeps_literal c : keeps (literal_value arrays c).
Proof. unfold literal_value. solve_keeps. Qed.
#[local] Hint Resolve keeps_not_object keeps_literal : keeps.
Lemma keeps_trivial fn self k : keeps (ExecuteTrivialMethodExceptSetter arrays fn self k).
Proof. unfold ExecuteTrivialMethodExceptSetter, object_fields. solve_keeps. Qed.
Lemma keeps_setter fn self arg : keeps (ExecuteSetterTrivialMethod fn self arg).
Proof. unfold ExecuteSetterTrivialMethod, object_fields. solve_keeps. Qed.
#[local] Hint Resolve keeps_trivial keeps_setter : keeps.
Lemma keeps_run_found inSlot argsBegin self meth n res : keeps (run_found vm K arrays inSlot argsBegin self meth n res).
Proof. unfold run_found. solve_keeps. Qed.
Lemma keeps_global_get names self i : keeps (GlobalGetImpl vm K names self i).
Proof. unfold GlobalGetImpl, UnknownGlobalSlowPath. solve_keeps. Qed.

Lemma keeps_op_general meth self args : keeps (OpGeneralSlowPath vm K meth self args).
Proof. unfold OpGeneralSlowPath. solve_keeps. Qed.
#[local] Hint Resolve keeps_op_general : keeps.
Lemma keeps_run_found_op meth self args res : keeps (run_found_op vm K arrays meth self args res).
Proof. unfold run_found_op. solve_keeps. Qed.
Lemma keeps_block_self imm f : keeps (block_self imm f).
Proof. unfold block_self, raw_upvalue, value_of. solve_keeps. Qed.
#[local] Hint Resolve keeps_block_self : keeps.
Lemma keeps_eval_block block args : keeps (eval_block block args).
Proof. unfold eval_block. solve_keeps. Qed.
Lemma keeps_ternary o op a b : keeps (TernaryOperatorImpl vm K o op a b).
Proof. pose proof keeps_eval_block. unfold TernaryOperatorImpl, fast_or. solve_keeps. Qed.
End calls.
#[export] Hint Resolve keeps_class_of keeps_general keeps_not_found keeps_load_range keeps_literal keeps_run_found keeps_global_get
  keeps_op_general keeps_run_found_op keeps_block_self keeps_eval_block keeps_ternary : keeps.

(** ** Transparent operations with a cache *)

(** What a call site looks up: the selector and, in a super send, the class. *)
Definition SiteKey : Type := SOMUniquedString * option nat.

Section transparent.
Context (vm : VMStrings) (K : Classes) (arrays : list nat) (key : option SiteKey).

Definition caches_for (ic : InlineCache) (s : VMState) : Prop :=
  forall meth superClass, key = Some (meth, superClass) -> cache_ok K meth superClass ic s.

Lemma caches_for_le ic s s' : vm_le s s' -> caches_for ic s -> caches_for ic s'.
Proof. intros Hle H meth sc Hk. eapply cache_ok_le; [exact Hle|by apply H]. Qed.

(** Two versions of an operation that agree on everything but the cache. *)
Definition transparent {A} (m1 m2 : InlineCache -> V (A * InlineCache)) : Prop := forall ic1 ic2 s,
  caches_for ic1 s -> caches_for ic2 s ->
  match m1 ic1 s, m2 ic2 s with
  | Ok ((a1, ic1'), s1), Ok ((a2, ic2'), s2) =>
      a1 = a2 /\ s1 = s2 /\ vm_le s s1 /\ caches_for ic1' s1 /\ caches_for ic2' s1
  | Err e1, Err e2 => e1 = e2
  | _, _ => False
  end.

Lemma transparent_bind {A B} (m : V B) (f1 f2 : B -> InlineCache -> V (A * InlineCache)) :
  grows m -> (forall b, transparent (f1 b) (f2 b)) -> transparent (fun ic => b ← m; f1 b ic) (fun ic => b ← m; f2 b ic).
Proof.
  intros Hm Hf ic1 ic2 s H1 H2. unfold mbind, M_bind. destruct (m s) as [[b s1]|e] eqn:Hr; [|done].
  apply Hm in Hr. specialize (Hf b ic1 ic2 s1 ltac:(by eapply caches_for_le) ltac:(by eapply caches_for_le)).
  destruct (f1 b ic1 s1) as [[[a1 ic1'] s1']|], (f2 b ic2 s1) as [[[a2 ic2'] s2']|]; try done.
  destruct Hf as (-> & -> & Hle & H). split_and!; try done; [by etrans|apply H|apply H].
Qed.

Lemma transparent_ret {A} (a : A) : transparent (fun ic => mret (a, ic)) (fun ic => mret (a, ic)).
Proof. intros ic1 ic2 s H1 H2. by split_and!. Qed.
Lemma transparent_fail {A} e : transparent (fun _ => fail e : V (A * InlineCache)) (fun _ => fail e).
Proof. by intros ic1 ic2 s H1 H2. Qed.
Lemma transparent_plain {A} (m : V A) :
  grows m -> transparent (fun ic => a ← m; mret (a, ic)) (fun ic => a ← m; mret (a, ic)).
Proof.
  intros Hm. apply (transparent_bind m (fun a ic => mret (a, ic)) (fun a ic => mret (a, ic))); [done|].
  intros a. apply transparent_ret.
Qed.

(** The lookup, and something that is done with its result. *)
Lemma transparent_send {A} c1 c2 self meth superClass (k : LookupResult -> V A) :
  key = Some (meth, superClass) -> (forall res, grows (k res)) ->
  transparent
    (fun ic => '(res, ic') ← LookupObjectMethodImpl K c1 ic self meth superClass; out ← k res; mret (out, ic'))
    (fun ic => '(res, ic') ← LookupObjectMethodImpl K c2 ic self meth superClass; out ← k res; mret (out, ic')).
Proof.
  intros Hkey Hk ic1 ic2 s H1 H2. specialize (H1 _ _ Hkey). specialize (H2 _ _ Hkey).
  pose proof (lookup_transparent K c1 meth superClass ic1 self s H1) as L1.
  pose proof (lookup_transparent K c2 meth superClass ic2 self s H2) as L2. unfold mbind, M_bind.
  destruct (LookupObjectMethodImpl K c1 ic1 self meth superClass s) as [[[res1 ic1'] s1]|e1],
    (LookupObjectMethodImpl K c2 ic2 self meth superClass s) as [[[res2 ic2'] s2]|e2];
    [|by destruct L1 as (_ & _ & L1); congruence|by destruct L2 as (_ & _ & L2); congruence|congruence].
  destruct L1 as (-> & O1 & L1), L2 as (-> & O2 & L2). assert (res1 = res2) as -> by congruence.
  destruct (k res2 s) as [[a s1]|e] eqn:Hr; [|done]. apply Hk in Hr.
  split_and!; try done; intros m sc Heq; rewrite Hkey in Heq; injection Heq as <- <-; by eapply cache_ok_le.
Qed.
End transparent.

(** The key of a bytecode with an inline cache. *)
Definition bytecode_key (vm : VMStrings) (bc : Bytecode) : option SiteKey :=
  match bc with
  | BcSOMCall _ (CstSelector meth) _ _ | BcSOMSelfCall _ _ (CstSelector meth) _ _ => Some (meth, None)
  | BcSOMSuperCall _ _ (CstClass cl) (CstSelector meth) _ _ => Some (meth, Some cl)
  | BcBinaryOperator op _ _ _ => (fun kind => (binary_key vm kind, None)) <$> kind_of_operator op
  | BcUnaryOperator op _ _ =>
      match op with
      | OperatorValue => Some (unary_key vm UValue, None)
      | OperatorNot => Some (unary_key vm Not, None)
      | OperatorLength => Some (unary_key vm Length, None)
      | _ => None
      end
  | _ => None
  end.

Section operations.
Context (vm : VMStrings) (K : Classes) (arrays : list nat) (c1 c2 : nat).

#[local] Hint Extern 1 (grows _) => apply keeps_grows; solve [solve_keeps] : keeps.

Lemma transparent_misc_send meth self args :
  transparent K (Some (meth, None)) (fun ic => misc_send vm K arrays c1 ic meth self args)
    (fun ic => misc_send vm K arrays c2 ic meth self args).
Proof. apply transparent_send; auto with keeps. Qed.

Lemma transparent_fast {A} key (fast : V FastResult) k (slow1 slow2 : InlineCache -> V (A * InlineCache)) :
  keeps fast -> transparent K key slow1 slow2 ->
  transparent K key (fun ic => fast_or fast (fun v => (k v, ic)) (slow1 ic)) (fun ic => fast_or fast (fun v => (k v, ic)) (slow2 ic)).
Proof.
  intros Hf Hs.
  apply (transparent_bind K key fast
    (fun r ic => match r with Returned v => mret (k v, ic) | SlowPath => slow1 ic end)
    (fun r ic => match r with Returned v => mret (k v, ic) | SlowPath => slow2 ic end)); [by apply keeps_grows|].
  intros [v|]; [apply transparent_ret|done].
Qed.

Lemma transparent_misc key (fast : V (option Outcome)) meth self args :
  keeps fast -> key = Some (meth, None) ->
  transparent K key
    (fun ic => r ← fast; match r with Some out => mret (out, ic) | None => misc_send vm K arrays c1 ic meth self args end)
    (fun ic => r ← fast; match r with Some out => mret (out, ic) | None => misc_send vm K arrays c2 ic meth self args end).
Proof.
  intros Hf ->.
  apply (transparent_bind K _ fast
    (fun r ic => match r with Some out => mret (out, ic) | None => misc_send vm K arrays c1 ic meth self args end)
    (fun r ic => match r with Some out => mret (out, ic) | None => misc_send vm K arrays c2 ic meth self args end));
    [by apply keeps_grows|]. intros [out|]; [apply transparent_ret|apply transparent_misc_send].
Qed.

Lemma transparent_binary op lhs rhs l r out :
  transparent K (bytecode_key vm (BcBinaryOperator op lhs rhs out))
    (fun ic => BinaryOperatorImpl vm K arrays c1 op ic l r) (fun ic => BinaryOperatorImpl vm K arrays c2 op ic l r).
Proof.
  unfold BinaryOperatorImpl, bytecode_key. destruct (kind_of_operator op) as [kind|]; [|apply transparent_ret]. simpl.
  destruct kind; try (apply transparent_fast; [solve_keeps|apply transparent_plain; auto with keeps]);
    unfold MiscBinOpImpl; destruct (IsHeapEntity l);
    try (apply transparent_plain; auto with keeps); apply transparent_misc; try done; simpl; unfold fast_or; solve_keeps.
Qed.

Lemma transparent_misc_unary kind v :
  transparent K (Some (unary_key vm kind, None))
    (fun ic => MiscUnaryOpImpl vm K arrays c1 kind ic v) (fun ic => MiscUnaryOpImpl vm K arrays c2 kind ic v).
Proof.
  unfold MiscUnaryOpImpl.
  assert (Hg : transparent K (Some (unary_key vm kind, None))
    (fun ic => fast ← misc_unary_fast kind v;
      match fast with Some out => mret (out, ic) | None => misc_send vm K arrays c1 ic (unary_key vm kind) v [] end)
    (fun ic => fast ← misc_unary_fast kind v;
      match fast with Some out => mret (out, ic) | None => misc_send vm K arrays c2 ic (unary_key vm kind) v [] end)).
  { apply transparent_misc; [|done]. unfold misc_unary_fast, fast_or. solve_keeps. }
  destruct kind, v; simpl; try apply transparent_ret; try exact Hg; apply transparent_plain; auto with keeps.
Qed.

Lemma transparent_unary op x v out :
  transparent K (bytecode_key vm (BcUnaryOperator op x out))
    (fun ic => UnaryOperatorImpl vm K arrays c1 op ic v) (fun ic => UnaryOperatorImpl vm K arrays c2 op ic v).
Proof.
  unfold UnaryOperatorImpl, bytecode_key.
  destruct op; try apply transparent_ret; try apply transparent_misc_unary;
    (apply transparent_fast; [solve_keeps|apply transparent_plain; auto with keeps]).
Qed.

Lemma transparent_call base meth n :
  transparent K (Some (meth, None)) (fun ic => CallImpl vm K arrays c1 ic base meth n) (fun ic => CallImpl vm K arrays c2 ic base meth n).
Proof.
  unfold CallImpl.
  apply (transparent_bind K _ (load (base + x_numSlotsForStackFrameHeader))
    (fun self ic => if IsHeapEntity self then _ else _) (fun self ic => if IsHeapEntity self then _ else _)); [auto with keeps|].
  intros self. destruct (IsHeapEntity self).
  - apply transparent_send; auto with keeps.
  - apply transparent_plain. apply keeps_grows, keeps_not_object.
Qed.

Lemma transparent_self_call base self sc meth n :
  transparent K (Some (meth, sc)) (fun ic => SelfCallImpl vm K arrays c1 ic base self sc meth n)
    (fun ic => SelfCallImpl vm K arrays c2 ic base self sc meth n).
Proof.
  unfold SelfCallImpl. destruct self; try apply transparent_fail. apply transparent_send; auto with keeps.
Qed.
End operations.

(** ** Growth of the other operations *)
Lemma keeps_context units ref : keeps (the_context units ref).
Proof. unfold the_context. solve_keeps. Qed.
#[export] Hint Resolve keeps_context : keeps.

Lemma keeps_fill_upvalue r base parent selfOrd uvmt : keeps (fill_upvalue r base parent selfOrd uvmt).
Proof. unfold fill_upvalue, raw_upvalue. solve_keeps. Qed.
#[export] Hint Resolve keeps_fill_upvalue : keeps.
Lemma keeps_fill_upvalues r base parent selfOrd uvmts : keeps (fill_upvalues r base parent selfOrd uvmts).
Proof. induction uvmts; simpl; solve_keeps. Qed.

(** A new closure is added; its upvalues are set before anything else refers to it. *)
Lemma grows_create_closure cb info base parent selfOrd : grows (CreateAndFillUpvalues cb info base parent selfOrd).
Proof.
  intros s r s'. unfold CreateAndFillUpvalues, FunctionObject_Create, mbind, M_bind.
  unfold check. destruct (_ || _); simpl; [|done]. destruct (num_upvalues cb <=? 255); simpl; [|done].
  destruct (fill_upvalues _ _ _ _ _ _) as [[uvs s1]|e] eqn:Hfill; [|done]. intros [= _ <-].
  apply keeps_fill_upvalues in Hfill as [Hf Hg]. simpl in Hf, Hg. split; simpl.
  - intros i f Hi. rewrite Hf, alter_snoc. by apply lookup_app_Some_l.
  - intros i v Hi. rewrite Hg. by exists v.
Qed.

Lemma keeps_upvalue_access units func ord v :
  keeps (GetMutable units func ord) /\ keeps (GetImmutable units func ord) /\ keeps (PutUpvalue units func ord v).
Proof.
  unfold GetMutable, GetImmutable, PutUpvalue, GetMutableUpvaluePtr, GetImmutableUpvalueValue, IsUpvalueImmutable,
    raw_upvalue, value_of.
  split_and!; solve_keeps.
Qed.

Section program.
Context (pr : Program) (other_grows : forall f args, grows (pr_other_primitive pr f args)).
Let vm : VMStrings := pr_vm pr.
Let K : Classes := pr_classes pr.

Lemma keeps_GetArg base n i : keeps (GetArg base n i).
Proof. unfold GetArg. solve_keeps. Qed.
#[local] Hint Resolve keeps_GetArg : keeps.
Lemma keeps_store_range slot vs : keeps (store_range slot vs).
Proof. revert slot. induction vs; intros slot; simpl; solve_keeps. Qed.
#[local] Hint Resolve keeps_store_range : keeps.
Lemma keeps_call_at callbase f args r : keeps (call_at callbase f args r).
Proof. unfold call_at. solve_keeps. Qed.
Lemma keeps_call_block base func r : keeps (call_block base func r).
Proof. unfold call_block. cbv zeta. solve_keeps. Qed.
#[local] Hint Resolve keeps_call_at keeps_call_block : keeps.
Lemma keeps_from_object tv : keeps (GetClassFromClassObject pr tv).
Proof. unfold GetClassFromClassObject. solve_keeps. Qed.
#[local] Hint Resolve keeps_from_object : keeps.
Lemma keeps_uniqued meth : keeps (GetUniquedStringFromVM pr meth).
Proof. unfold GetUniquedStringFromVM. solve_keeps. Qed.
#[local] Hint Resolve keeps_uniqued : keeps.
Lemma keeps_perform what cl callbase self meth args : keeps cl -> keeps (perform_in pr what cl callbase self meth args).
Proof. intros H. unfold perform_in. solve_keeps. Qed.

Lemma keeps_unary f op a : unary_primitive pr f = Some op -> keeps (op a).
Proof.
  destruct f; try done; intros [= <-];
    unfold object_class, class_new, method_signature, method_holder, classObject; solve_keeps.
Qed.
Lemma keeps_binary f op a b : binary_primitive_v f = Some op -> keeps (op a b).
Proof. destruct f; try done; intros [= <-]; apply keeps_on_str. Qed.
Lemma keeps_tern f op a b c : ternary_primitive f = Some op -> keeps (op a b c).
Proof. destruct f; try done; intros [= <-]; apply keeps_on_str. Qed.

Lemma grows_value_primitive base n f : grows (run_value_primitive pr base n f).
Proof using other_grows.
  unfold run_value_primitive, lib_value.
  destruct (unary_primitive pr f) eqn:H1; [apply keeps_grows; solve_keeps; eauto using keeps_unary|].
  destruct (binary_primitive_v f) eqn:H2; [apply keeps_grows; solve_keeps; eauto using keeps_binary|].
  destruct (ternary_primitive f) eqn:H3; [apply keeps_grows; solve_keeps; eauto using keeps_tern|].
  repeat (apply grows_bind; [|intros ?]); [apply keeps_grows; auto with keeps|apply other_grows|apply keeps_grows; auto with keeps].
Qed.

Lemma keeps_eval base n k : keeps (block_eval base n k).
Proof. unfold block_eval. solve_keeps. Qed.
Lemma keeps_while base n b : keeps (block_while base n b).
Proof. unfold block_while. solve_keeps. Qed.
Lemma keeps_invoke base n : keeps (method_invoke_on_with base n).
Proof. unfold method_invoke_on_with. solve_keeps. Qed.
Lemma keeps_performs base n :
  keeps (object_perform pr base n) /\ keeps (object_perform_in_superclass pr base n) /\
  keeps (object_perform_with_args pr base n) /\ keeps (object_perform_with_args_in_superclass pr base n).
Proof.
  unfold object_perform, object_perform_in_superclass, object_perform_with_args, object_perform_with_args_in_superclass.
  split_and!; solve_keeps; intros; apply keeps_perform; auto with keeps.
Qed.

Lemma grows_lib_func base n func f : grows (run_lib_func pr base n func f).
Proof using other_grows.
  pose proof (keeps_performs base n) as (P1 & P2 & P3 & P4).
  pose proof keeps_eval. pose proof keeps_while. pose proof keeps_invoke.
  unfold run_lib_func, run_unimplemented, lib_value.
  destruct f; try apply grows_value_primitive; apply keeps_grows; solve_keeps.
Qed.

(** ** Two runs side by side *)
Context (c1 c2 : nat).

(** What the site's bytecode looks up. *)
Definition site_key (site : Site) : option SiteKey :=
  c ← pr_units pr !! site.1.1 ≫= (.!! site.1.2);
  bc ← bytecode_at site.2 (m_builder c);
  bytecode_key vm bc.

(** Every cache holds what its site would find. *)
Definition caches_ok (x : ExecState) : Prop := forall site ic,
  ex_caches x !! site = Some ic -> caches_for K (site_key site) ic (ex_vm x).

(** Two machines that differ in the caches only. *)
Record same_run (x y : ExecState) : Prop := {
  sr_vm : ex_vm x = ex_vm y;
  sr_frames : ex_frames x = ex_frames y;
  sr_left : caches_ok x;
  sr_right : caches_ok y
}.

Definition sim {A} (m1 m2 : X A) : Prop := forall x y, same_run x y ->
  match m1 x, m2 y with
  | Ok (a, x'), Ok (b, y') => a = b /\ same_run x' y'
  | Err e, Err e' => e = e'
  | _, _ => False
  end.

Lemma sim_bind {A B} (m1 m2 : X A) (f1 f2 : A -> X B) :
  sim m1 m2 -> (forall a, sim (f1 a) (f2 a)) -> sim (m1 ≫= f1) (m2 ≫= f2).
Proof.
  intros Hm Hf x y Hxy. specialize (Hm x y Hxy). unfold mbind, M_bind.
  destruct (m1 x) as [[a x']|], (m2 y) as [[b y']|]; try done. destruct Hm as [-> Hxy']. by apply Hf.
Qed.
Lemma sim_ret {A} (a : A) : sim (mret a) (mret a).
Proof. by intros x y H. Qed.
Lemma sim_fail {A} e : sim (fail e : X A) (fail e).
Proof. by intros x y H. Qed.
Lemma sim_check b e : sim (check b e) (check b e).
Proof. destruct b; [apply sim_ret|apply sim_fail]. Qed.
Lemma sim_lift {A} (r : result A) : sim (lift_result r) (lift_result r).
Proof. intros x y H. by destruct r. Qed.
Lemma sim_frames : sim (gets ex_frames) (gets ex_frames).
Proof. intros x y H. split; [apply H|done]. Qed.
Lemma sim_set_frames l : sim (set_frames l) (set_frames l).
Proof. intros x y [Hv Hf H1 H2]. split; [done|]. by split. Qed.
Lemma sim_current : sim current_frame current_frame.
Proof.
  intros x y H. pose proof (sr_frames _ _ H) as Hf. unfold current_frame. rewrite <-Hf. by destruct (ex_frames x).
Qed.

Lemma caches_ok_le x s : caches_ok x -> vm_le (ex_vm x) s -> caches_ok (mk_exec s (ex_frames x) (ex_caches x)).
Proof. intros H Hle site ic Hs. eapply caches_for_le; [exact Hle|by apply H]. Qed.

Lemma sim_on_vm_bind {A B} (m : V A) (f1 f2 : A -> X B) :
  grows m -> (forall s a s', m s = Ok (a, s') -> sim (f1 a) (f2 a)) -> sim (on_vm m ≫= f1) (on_vm m ≫= f2).
Proof.
  intros Hm Hf x y H. pose proof H as [Hv Hfr H1 H2]. unfold on_vm, mbind, M_bind, result_bind. rewrite <-Hv.
  destruct (m (ex_vm x)) as [[a s]|e] eqn:Hr; [|done]. apply (Hf _ _ _ Hr).
  pose proof (Hm _ _ _ Hr) as Hle. split; [done|done|by apply caches_ok_le|]. apply (caches_ok_le y); [done|]. by rewrite <-Hv.
Qed.
Lemma sim_on_vm {A} (m : V A) : grows m -> sim (on_vm m) (on_vm m).
Proof.
  intros Hm x y H. pose proof H as [Hv Hfr H1 H2]. unfold on_vm, mbind, result_bind. rewrite <-Hv.
  destruct (m (ex_vm x)) as [[a s]|e] eqn:Hr; [|done]. pose proof (Hm _ _ _ Hr) as Hle. split; [done|].
  split; [done|done|by apply caches_ok_le|]. apply (caches_ok_le y); [done|]. by rewrite <-Hv.
Qed.

Lemma caches_ok_insert x s site ic :
  caches_ok x -> vm_le (ex_vm x) s -> caches_for K (site_key site) ic s ->
  caches_ok (mk_exec s (ex_frames x) (<[site := ic]> (ex_caches x))).
Proof.
  intros H Hle Hic site' ic'. simpl. destruct (decide (site' = site)) as [->|Hne].
  - rewrite lookup_insert_eq. by intros [= <-].
  - rewrite lookup_insert_ne by done. intros Hs. eapply caches_for_le; [exact Hle|by apply H].
Qed.
Lemma caches_ok_site x site : caches_ok x -> caches_for K (site_key site) (default [] (ex_caches x !! site)) (ex_vm x).
Proof.
  intros H. destruct (ex_caches x !! site) as [ic|] eqn:Hs; [by apply H|].
  intros meth sc _ cl res Hc. by destruct cl.
Qed.

Lemma sim_with_cache {A} site (m1 m2 : InlineCache -> V (A * InlineCache)) :
  transparent K (site_key site) m1 m2 -> sim (with_cache site m1) (with_cache site m2).
Proof.
  intros Ht x y [Hv Hfr H1 H2]. unfold with_cache.
  specialize (Ht _ _ (ex_vm x) (caches_ok_site x site H1) ltac:(rewrite Hv; by apply (caches_ok_site y site))). rewrite <-Hv.
  unfold mbind, result_bind.
  destruct (m1 _ (ex_vm x)) as [[[a1 ic1] s1]|], (m2 _ (ex_vm x)) as [[[a2 ic2] s2]|]; try done.
  destruct Ht as (-> & -> & Hle & O1 & O2). split; [done|].
  split; [done|done|by apply caches_ok_insert|]. apply (caches_ok_insert y); [done|by rewrite <-Hv|done].
Qed.

(** ** One step, with two capacities *)
Lemma sim_push newBase f r pc n : sim (push_frame newBase f r pc n) (push_frame newBase f r pc n).
Proof.
  unfold push_frame. apply sim_bind; [apply sim_on_vm, keeps_grows; unfold clear_header; solve_keeps|]. intros _.
  apply sim_bind; [apply sim_frames|]. intros l. apply sim_bind; [apply sim_set_frames|]. intros _. apply sim_ret.
Qed.
Lemma sim_output fr pc bc slot v : sim (output pr fr pc bc slot v) (output pr fr pc bc slot v).
Proof. apply sim_bind; [apply sim_on_vm, keeps_grows, keeps_store|]. intros _. apply sim_ret. Qed.
Lemma sim_finish fr cb pc bc out o : sim (finish pr fr cb pc bc out o) (finish pr fr cb pc bc out o).
Proof.
  destruct o; simpl; [apply sim_output|apply sim_push|].
  apply sim_bind; [apply sim_on_vm, keeps_grows, keeps_store_range|]. intros _. apply sim_push.
Qed.
Lemma sim_branch pc br : sim (branch pc br) (branch pc br).
Proof. destruct br; [apply sim_ret|apply sim_fail]. Qed.
Lemma sim_branch_if pc bc taken br : sim (branch_if pr pc bc taken br) (branch_if pr pc bc taken br).
Proof. destruct taken; [apply sim_branch|apply sim_ret]. Qed.

Lemma keeps_operand base o : keeps (operand_value pr base o).
Proof. unfold operand_value. solve_keeps. Qed.
#[local] Hint Resolve keeps_operand : keeps.
Lemma keeps_fetch fr pc : keeps (fetch pr fr pc).
Proof. unfold fetch, frame_code_block. solve_keeps. Qed.
Lemma keeps_fill_nils slot n : keeps (RangeFillNilsImpl slot n).
Proof. revert slot. induction n; intros slot; simpl; solve_keeps. Qed.
#[local] Hint Resolve keeps_fill_nils : keeps.
Lemma grows_new_closure fr cb c out : grows (NewClosureImpl pr fr cb c out).
Proof.
  unfold NewClosureImpl, GetCodeBlock. destruct c; try (apply keeps_grows, keeps_fail).
  
  repeat first [apply grows_create_closure|apply grows_bind; [|intros ?]]; apply keeps_grows; solve_keeps.
Qed.

Ltac sim_vm := apply sim_on_vm, keeps_grows;
  unfold ArrayDupImpl, for_loop_step, selector_of, class_of_cst; solve_keeps.

Lemma sim_selector {B} meth (f1 f2 : SOMUniquedString -> X B) :
  (forall m, meth = CstSelector m -> sim (f1 m) (f2 m)) ->
  sim (on_vm (selector_of meth) ≫= f1) (on_vm (selector_of meth) ≫= f2).
Proof.
  intros H. apply sim_on_vm_bind; [apply keeps_grows; unfold selector_of; solve_keeps|].
  intros s m s'. destruct meth; try done. intros [= -> _]. by apply H.
Qed.
Lemma sim_class_cst {B} c (f1 f2 : nat -> X B) :
  (forall cl, c = CstClass cl -> sim (f1 cl) (f2 cl)) -> sim (on_vm (class_of_cst c) ≫= f1) (on_vm (class_of_cst c) ≫= f2).
Proof.
  intros H. apply sim_on_vm_bind; [apply keeps_grows; unfold class_of_cst; solve_keeps|].
  intros s m s'. destruct c; try done. intros [= -> _]. by apply H.
Qed.

(** A bytecode at the site it was fetched from. *)
Lemma sim_bytecode fr cb pc bc :
  site_key (m_owner cb, pc) = bytecode_key vm bc ->
  sim (exec_bytecode pr c1 fr cb pc bc) (exec_bytecode pr c2 fr cb pc bc).
Proof.
  intros Hkey. destruct bc; simpl;
    unfold exec_Mov, exec_SOMArrayDup, exec_UpvalueGetMutable, exec_UpvalueGetImmutable, exec_UpvaluePut, exec_UpvalueClose,
      exec_SOMGetField, exec_SOMPutField, exec_SOMGlobalGet, exec_BranchIf, exec_StoreNilAndBranchIf, exec_CopyAndBranchIf,
      exec_CheckForLoopStartCond, exec_ForLoopStep, exec_BinaryOperator, exec_UnaryOperator, exec_TernaryOperator,
      exec_SOMCall, exec_SOMSelfCall, exec_SOMSuperCall, exec_Ret, exec_SOMThrow, exec_RangeFillNils, exec_NewClosure;
    repeat (intros; first
      [ apply sim_output | apply sim_finish | apply sim_branch_if | apply sim_branch | apply sim_ret
      | apply sim_on_vm, grows_new_closure
      | apply sim_on_vm, keeps_grows, (keeps_upvalue_access _ _ _ VNil)
      | apply sim_on_vm, keeps_grows, keeps_upvalue_access
      | apply sim_selector | apply sim_class_cst
      | sim_vm | apply sim_lift | apply sim_bind | case_match ]);
    subst; apply sim_with_cache; rewrite Hkey.
  - apply transparent_binary.
  - apply transparent_unary.
  - apply transparent_call.
  - apply transparent_self_call.
  - apply transparent_self_call.
Qed.

Lemma sim_finish_lib o : sim (finish_lib o) (finish_lib o).
Proof. destruct o; simpl; [apply sim_ret|apply sim_push]. Qed.

Lemma sim_enter n : sim (enter pr n) (enter pr n).
Proof using other_grows.
  apply sim_bind; [apply sim_current|]. intros fr. apply sim_bind; [sim_vm|]. intros f.
  destruct (m_executable f); [apply sim_ret|].
  apply sim_bind; [by apply sim_on_vm, grows_lib_func|]. intros o. apply sim_finish_lib.
Qed.

Lemma sim_return v : sim (return_value pr v) (return_value pr v).
Proof.
  apply sim_bind; [apply sim_frames|]. intros [|fr frames]; [apply sim_fail|].
  apply sim_bind; [apply sim_set_frames|]. intros _. unfold while_evalbody, while_evalcond.
  pose proof keeps_fetch. pose proof keeps_call_block.
  destruct (m_retAddr fr);
    repeat (intros; first
      [ apply sim_ret | apply sim_current | apply sim_output | apply sim_finish_lib | apply sim_fail | sim_vm | apply sim_bind | case_match ]).
Qed.

(** ** Non-local return *)
Lemma keeps_is_ancestor fuel cur ref : keeps (is_ancestor pr fuel cur ref).
Proof. revert ref. induction fuel; intros ref; simpl; solve_keeps. Qed.
Lemma keeps_creator f : keeps (creator_base f).
Proof. unfold creator_base. solve_keeps. Qed.
Lemma keeps_is_method f : keeps (IsClosureMethod f).
Proof. unfold IsClosureMethod. solve_keeps. Qed.
Lemma keeps_code_block f : keeps (the_code_block f).
Proof. unfold the_code_block. solve_keeps. Qed.
#[local] Hint Resolve keeps_is_ancestor keeps_creator keeps_is_method keeps_code_block : keeps.
Lemma keeps_find_home fuel cb frames f : keeps (find_home pr fuel cb frames f).
Proof. revert f. induction fuel; intros f; simpl; solve_keeps. Qed.
#[local] Hint Resolve keeps_find_home : keeps.

Lemma sim_throw v : sim (throw pr v) (throw pr v).
Proof.
  unfold throw, escaped_block.
  repeat (intros; first
    [ apply sim_ret | apply sim_frames | apply sim_set_frames | apply sim_current | apply sim_push | apply sim_check
    | apply sim_fail | sim_vm | apply sim_bind | case_match ]).
Qed.

Lemma sim_step c : sim (step pr c1 c) (step pr c2 c).
Proof using other_grows.
  destruct c; [|apply sim_enter|apply sim_return|apply sim_throw|apply sim_ret].
  apply sim_bind; [apply sim_current|]. intros fr.
  apply sim_on_vm_bind; [apply keeps_grows, keeps_fetch|]. intros s [cb bc] s' Hf. apply sim_bytecode.
  unfold fetch, frame_code_block, mbind, M_bind in Hf.
  destruct (the_function (m_func fr) s) as [[f s1]|]; [|done].
  destruct (m_executable f) as [cb'|]; [|done]. unfold the_context in Hf. simpl in Hf.
  unfold site_key. simpl. destruct (pr_units pr !! (m_owner cb').1 ≫= (.!! (m_owner cb').2)) as [c|] eqn:Hc; [|done].
  simpl in Hf. destruct (bytecode_at pc (m_builder c)) as [bc'|] eqn:Hbc; [|done].
  injection Hf as -> -> _. rewrite Hc. simpl. by rewrite Hbc.
Qed.

Lemma sim_run fuel c : sim (run pr c1 fuel c) (run pr c2 fuel c).
Proof using other_grows.
  revert c. induction fuel as [|fuel IH]; intros c; destruct c; try apply sim_ret; try apply sim_fail;
    (apply sim_bind; [apply sim_step|exact IH]).
Qed.
End program.

(** What can be seen of a run: everything but the caches. *)
Definition observed {A} (r : result (A * ExecState)) : result (A * VMState * list StackFrameHeader) :=
  '(a, x) ← r; Ok (a, ex_vm x, ex_frames x).

(** C3: the inline caches of a whole run are transparent: a program run with call
    sites that keep any number of entries and one run without caches take the same
    steps, end with the same value or error and leave the same machine behind,
    provided the primitives outside the model only add functions and assign globals. *)
Theorem run_cache_transparent pr capacity fuel c s frames :
  (forall f args, grows (pr_other_primitive pr f args)) ->
  observed (run pr capacity fuel c (mk_exec s frames ∅)) = observed (run pr 0 fuel c (mk_exec s frames ∅)).
Proof.
  intros Hg. pose proof (sim_run pr Hg capacity 0 fuel c (mk_exec s frames ∅) (mk_exec s frames ∅)) as H.
  assert (H0 : same_run pr (mk_exec s frames ∅) (mk_exec s frames ∅)).
  { split; try done; intros site ic Hs; simpl in Hs; by rewrite lookup_empty in Hs. }
  specialize (H H0).
  destruct (run pr capacity fuel c _) as [[a x]|e], (run pr 0 fuel c _) as [[b y]|e']; simpl; try done; [|congruence].
  destruct H as [-> [Hv Hf _ _]]. by rewrite Hv, Hf.
Qed.

(** ** Programs of one method *)
Definition sample_units (m : AstMethod) : Units :=
  match CompileMethod no_hash eight no_constants 30 sample_env m sample_state with
  | Ok (_, s) => [cs_ctxs s]
  | Err _ => []
  end.
Definition sample_function (units : Units) : FunctionObject :=
  match units with
  | [c :: _] =>
      match CodeBlock_Create (0, 0) (m_resultUcb c) with
      | Ok cb => mk_function (BytecodeFunction cb) (m_fnTyMask cb) []
      | Err _ => getter_function
      end
  | _ => getter_function
  end.
(** One class, with the methods under their selectors. *)
Definition sample_program (units : Units) (methods : list (@MethodHtEntry nat)) : Program :=
  mk_program no_hash (e_vm sample_env) (mk_classes [mk_class [1%Z] [] 0 methods] 0 0 0 0 0 0 0 0 0 0 0) [] [] [] units eight
    (fun _ _ => fail (AssertFailed "no other primitive")).

(** ** A program: [foo: n = ( n = 0 ifTrue: [ ^ 1 ]. ^ n * (self foo: n - 1) )] *)
Definition fact_method : AstMethod :=
  let n := AstVariableUse "n" in
  let id meth := Z.to_nat (m_id meth) in
  let vm := e_vm sample_env in
  mk_ast_method MK_Keyword false sample_foo ["n"] []
    [AstKeywordCall (v_stringIdForIfTrue vm) (AstBinaryCall (id (v_strOperatorEqual vm)) n (AstInteger 0))
       [AstNestedBlock [] [] [AstReturn (AstInteger 1)]];
     AstReturn (AstBinaryCall (id (v_strOperatorStar vm)) n
       (AstKeywordCall sample_foo (AstVariableUse "self")
          [AstBinaryCall (id (v_strOperatorMinus vm)) n (AstInteger 1)]))].
Definition fact_program : Program := sample_program (sample_units fact_method) [mk_entry 49 (Some 0)].

(** The call of [foo: n] on object 0, about to enter the method. *)
Definition fact_state (n : Z) : VMState :=
  mk_vm (mk_str sample_start.2 [] [] [] [OPlain 0 []]) [sample_function (pr_units fact_program)]
    (mk_rcontext [] None (replicate 4 None ++ [Some (VObject 0); Some (VInt n)] ++ replicate 90 None)) [].
Definition fact_run (capacity fuel : nat) (n : Z) : result (Value * ExecState) :=
  run fact_program capacity fuel (Entering 2) (mk_exec (fact_state n) [mk_header 4 0 RetToC 0] ∅).

Example factorial_of_5 :
  match fact_run 2 200 5 with Ok (v, x) => v = VInt 120 /\ size (ex_caches x) = 4 | Err _ => False end.
Proof. vm_compute. done. Qed.

Lemma run_cache_transparent_witness :
  observed (fact_run 2 200 5) = observed (fact_run 0 200 5) /\ exists s l, observed (fact_run 0 200 5) = Ok (VInt 120, s, l).
Proof.
  split.
  - apply (run_cache_transparent fact_program 2 200 (Entering 2) (fact_state 5) [mk_header 4 0 RetToC 0]).
    intros f args s a s'. done.
  - eexists _, _. vm_compute. reflexivity.
Defined.
