(* ===== verification/Throw.v ===== *)
(** * Non-local return

    A [^] in a block returns from the method the block was written in, through the
    frames of everything that was called in between; when that method is no longer
    active, [escapedBlock:] is sent instead ([throw_error.cpp], [Interp.throw]). *)
From S2P Require Import Prelude Interner VmSelectors CNumbers Ast Bytecode Compiler CompilerProperties MethodTable TValue Values Primitives Objects OpenUpvalues Symbols Machine Closures Calls Sends Operators LibCalls Interp Runs.
#[local] Set Default Proof Using "Type".

Section throw.
Context (pr : Program).

(** ** The way from a block to its method *)

(** The context a context is nested in. *)
Definition lexical_parent (child parent : UcbRef) : Prop :=
  exists c p, pr_units pr !! child.1 ≫= (.!! child.2) = Some c /\ m_parent (m_resultUcb c) = Some p /\
    parent = (child.1, p).

(** The compiler puts a context behind the one it is nested in. *)
Definition units_nested : Prop :=
  forall child parent, lexical_parent child parent -> parent.2 < child.2.

Section state.
Context (s : VMState) (frames : list StackFrameHeader).

(** The function of the first frame of a list. *)
Definition frame_runs (l : list StackFrameHeader) (f : FunctionObject) (cb : CodeBlock) : Prop :=
  exists fr l', l = fr :: l' /\ vm_functions s !! m_func fr = Some f /\ m_executable f = BytecodeFunction cb.

Definition is_method (f : FunctionObject) : Prop := entity_of_mask (m_invalidArrayType f) = Some SOM_Method.
Definition is_block (f : FunctionObject) : Prop :=
  exists k, entity_of_mask (m_invalidArrayType f) = Some k /\ is_block_kind k = true.

(** A block's [self] is the first slot of the frame it was created in, as long as
    that is on the stack, and then the upvalue is open. *)
Definition self_upvalue (f : FunctionObject) (u : @Upvalue Slot) : Prop :=
  exists r uvs, m_upvalues f = UvPointer r :: uvs /\ rc_heap (vm_rc s) !! r = Some u.

(** The frames from [l'] on are those of the creator of the block [l] starts with. *)
Definition created_by (l l' : list StackFrameHeader) : Prop :=
  exists f cb u slot f' cb', frame_runs l f cb /\ self_upvalue f u /\ m_isClosed u = false /\ m_ptr u = Some slot /\
    frames_from slot frames = Some l' /\ frame_runs l' f' cb' /\ lexical_parent (m_owner cb) (m_owner cb') /\
    length l' < length l.

(** The frames from the one of the method on. *)
Inductive home_of : list StackFrameHeader -> list StackFrameHeader -> Prop :=
  | home_method l l' f' cb' : created_by l l' -> frame_runs l' f' cb' -> is_method f' -> home_of l l'
  | home_block l l1 l' f1 cb1 : created_by l l1 -> frame_runs l1 f1 cb1 -> is_block f1 -> home_of l1 l' -> home_of l l'.

(** On the way to the method a creator is met that has gone. *)
Inductive escaped : list StackFrameHeader -> Prop :=
  | escaped_here l f cb u : frame_runs l f cb -> self_upvalue f u -> m_isClosed u = true -> escaped l
  | escaped_above l l1 f1 cb1 : created_by l l1 -> frame_runs l1 f1 cb1 -> is_block f1 -> escaped l1 -> escaped l.

Lemma frame_runs_unique l f cb f' cb' : frame_runs l f cb -> frame_runs l f' cb' -> f' = f /\ cb' = cb.
Proof. intros (fr & l' & -> & Hf & He) (fr2 & l2 & [= <- <-] & Hf2 & He2). split; congruence. Qed.

Lemma IsClosureMethod_method f : is_method f -> IsClosureMethod f s = Ok (true, s).
Proof. unfold is_method, IsClosureMethod. by intros ->. Qed.
Lemma IsClosureMethod_block f : is_block f -> IsClosureMethod f s = Ok (false, s).
Proof. intros (k & Hk & Hb). unfold IsClosureMethod. rewrite Hk. by destruct k. Qed.

Lemma the_upvalue_eq r u : rc_heap (vm_rc s) !! r = Some u -> on_rc (the_upvalue r) s = Ok (u, s).
Proof.
  intros H. rewrite (on_rc_eq _ u (vm_rc s)) by (unfold the_upvalue; by rewrite H). by rewrite with_rc_same.
Qed.

Lemma creator_open f u slot : self_upvalue f u -> m_isClosed u = false -> m_ptr u = Some slot -> creator_base f s = Ok (Some slot, s).
Proof.
  intros (r & uvs & Hu & Hr) Hc Hp. unfold creator_base, mbind, M_bind. rewrite Hu, (the_upvalue_eq _ _ Hr), Hc, Hp. done.
Qed.
Lemma creator_closed f u : self_upvalue f u -> m_isClosed u = true -> creator_base f s = Ok (None, s).
Proof.
  intros (r & uvs & Hu & Hr) Hc. unfold creator_base, mbind, M_bind. rewrite Hu, (the_upvalue_eq _ _ Hr), Hc. done.
Qed.

(** ** The walk *)
Context (Hnested : units_nested).

(** The way up through the enclosing contexts ends, with as many steps as the index
    of the context it starts from. *)
Lemma is_ancestor_spec t cur fuel : rtc lexical_parent t cur -> t.2 <= fuel -> is_ancestor pr fuel cur t s = Ok (true, s).
Proof using Hnested.
  intros Hr. revert fuel. induction Hr as [c|t p cur Hp Hr IH]; intros fuel Hf.
  - destruct fuel; simpl; by rewrite bool_decide_eq_true_2.
  - pose proof (Hnested _ _ Hp) as Hlt. destruct fuel as [|fuel]; [lia|]. simpl.
    destruct (bool_decide (t = cur)); [done|]. destruct Hp as (c & q & Hc & Hq & ->).
    unfold the_context, mbind at 1, M_bind. rewrite Hc. unfold mret, M_ret. cbv beta iota. rewrite Hq. apply IH. simpl in *. lia.
Qed.

Lemma unit_size_above ref c : pr_units pr !! ref.1 ≫= (.!! ref.2) = Some c -> ref.2 <= unit_size pr ref.
Proof.
  unfold unit_size. destruct (pr_units pr !! ref.1) as [cs|]; simpl; [|done]. intros H%lookup_lt_Some. lia.
Qed.

Section walk.
Context (throwing : CodeBlock).

(** The lookup of the creator, within the loop. *)
Lemma find_home_step fuel l l' f cb f' cb' :
  created_by l l' -> frame_runs l f cb -> frame_runs l' f' cb' -> rtc lexical_parent (m_owner throwing) (m_owner cb) ->
  find_home pr (S fuel) throwing frames f s =
    (isMethod ← IsClosureMethod f'; if isMethod : bool then mret (Some l') else find_home pr fuel throwing frames f') s.
Proof using Hnested.
  intros (f0 & cb0 & u & slot & f1 & cb1 & Hl & Hu & Ho & Hp & Hfr & Hl' & Hlex & _) Hf Hf' Hr.
  destruct (frame_runs_unique _ _ _ _ _ Hl Hf) as [-> ->]. destruct (frame_runs_unique _ _ _ _ _ Hl' Hf') as [-> ->].
  simpl. unfold mbind, M_bind at 1. rewrite (creator_open _ _ _ Hu Ho Hp). rewrite Hfr.
  destruct Hl' as (cur & rest & -> & Hfun & Hex). unfold M_bind. rewrite (the_function_eq _ _ _ Hfun).
  unfold the_code_block. rewrite Hex. unfold mret at 1, M_ret at 1. cbv beta iota.
  assert (Hr' : rtc lexical_parent (m_owner throwing) (m_owner cb1)) by (by eapply rtc_r).
  rewrite (is_ancestor_spec _ _ _ Hr'); [done|].
  apply rtc_inv in Hr' as [Heq|(p & (c & q & Hc & _) & _)].
  - rewrite Heq. destruct Hlex as (c & q & Hc & Hq & Hcb1). rewrite <-Heq.
    destruct (decide (m_owner throwing = m_owner cb0)) as [He|He]; [rewrite He; by eapply unit_size_above|].
    apply rtc_inv in Hr as [?|(p & (c' & q' & Hc' & _) & _)]; [done|by eapply unit_size_above].
  - by eapply unit_size_above.
Qed.

Lemma find_home_spec l l' : home_of l l' ->
  forall fuel f cb, frame_runs l f cb -> rtc lexical_parent (m_owner throwing) (m_owner cb) -> length l <= fuel ->
  find_home pr fuel throwing frames f s = Ok (Some l', s).
Proof using Hnested.
  induction 1 as [l l' f' cb' Hby Hf' Hm|l l1 l' f1 cb1 Hby Hf1 Hb Hh IH]; intros fuel f cb Hf Hr Hlen;
    pose proof Hby as (f0 & cb0 & u & slot & f2 & cb2 & Hl & _ & _ & _ & _ & Hl' & Hlex & Hlt);
    (destruct fuel as [|fuel]; [lia|]).
  - rewrite (find_home_step fuel l l' f cb f' cb') by done. unfold mbind, M_bind. by rewrite IsClosureMethod_method.
  - rewrite (find_home_step fuel l l1 f cb f1 cb1) by done. unfold mbind, M_bind. rewrite IsClosureMethod_block by done.
    apply (IH fuel f1 cb1); [done| |lia].
    destruct (frame_runs_unique _ _ _ _ _ Hl Hf) as [-> ->]. destruct (frame_runs_unique _ _ _ _ _ Hl' Hf1) as [-> ->].
    by eapply rtc_r.
Qed.

Lemma find_home_escaped l : escaped l ->
  forall fuel f cb, frame_runs l f cb -> rtc lexical_parent (m_owner throwing) (m_owner cb) -> length l <= fuel ->
  find_home pr fuel throwing frames f s = Ok (None, s).
Proof using Hnested.
  induction 1 as [l f0 cb0 u Hf0 Hu Hc|l l1 f1 cb1 Hby Hf1 Hb Hh IH]; intros fuel f cb Hf Hr Hlen.
  - destruct fuel as [|fuel]; [destruct Hf as (fr & l' & -> & _); simpl in Hlen; lia|].
    destruct (frame_runs_unique _ _ _ _ _ Hf0 Hf) as [-> ->]. simpl. unfold mbind, M_bind. by rewrite (creator_closed _ _ Hu Hc).
  - pose proof Hby as (f3 & cb3 & u & slot & f2 & cb2 & Hl & _ & _ & _ & _ & Hl' & Hlex & Hlt).
    destruct fuel as [|fuel]; [lia|]. rewrite (find_home_step fuel l l1 f cb f1 cb1) by done.
    unfold mbind, M_bind. rewrite IsClosureMethod_block by done. apply (IH fuel f1 cb1); [done| |lia].
    destruct (frame_runs_unique _ _ _ _ _ Hl Hf) as [-> ->]. destruct (frame_runs_unique _ _ _ _ _ Hl' Hf1) as [-> ->].
    by eapply rtc_r.
Qed.
End walk.
End state.
End throw.

(** ** The return *)
Lemma on_vm_eq {A} (m : V A) a s x : m (ex_vm x) = Ok (a, s) -> on_vm m x = Ok (a, mk_exec s (ex_frames x) (ex_caches x)).
Proof. intros H. unfold on_vm. by rewrite H. Qed.
Lemma on_vm_read {A} (m : V A) a x : m (ex_vm x) = Ok (a, ex_vm x) -> on_vm m x = Ok (a, x).
Proof. intros H. rewrite (on_vm_eq _ _ _ _ H). by destruct x. Qed.

Lemma close_eq base s :
  rc_wf (vm_rc s) -> exists rc, on_rc (CloseUpvalues base) s = Ok (tt, with_rc rc s) /\ rc_wf rc /\ closed_upto base (vm_rc s) rc.
Proof.
  intros Hwf. destruct (wp_total _ _ _ (wp_CloseUpvalues base (vm_rc s) Hwf)) as ([] & rc & Hcl & Hwf' & Hcu).
  exists rc. split_and!; [by apply on_rc_eq|done|done].
Qed.

(** The machine throws out of the block of its current frame, whose code is known. *)
Record throwing (pr : Program) (x : ExecState) (fr : StackFrameHeader) (f : FunctionObject) (cb : CodeBlock) : Prop := {
  th_frame : exists frames, ex_frames x = fr :: frames;
  th_func : vm_functions (ex_vm x) !! m_func fr = Some f;
  th_code : m_executable f = BytecodeFunction cb;
  th_block : is_block f;
  th_wf : rc_wf (vm_rc (ex_vm x));
  th_nested : units_nested pr
}.

Lemma throw_walk pr x fr f cb v home :
  throwing pr x fr f cb ->
  find_home pr (S (length (ex_frames x))) cb (ex_frames x) f (ex_vm x) = Ok (home, ex_vm x) ->
  step pr 0 (Throwing v) x =
    (match home with
     | Some (cur :: frames) =>
         on_vm (on_rc (CloseUpvalues (h_base cur))) ;; on_vm (store (h_base cur) v) ;;
         set_frames (cur :: frames) ;; mret (Returning v)
     | _ => escaped_block pr fr f
     end) x.
Proof.
  intros [(frames & Hfr) Hf He Hb _ _] Hh. simpl. unfold throw, current_frame. unfold mbind at 1, M_bind at 1. rewrite Hfr.
  unfold mbind at 1, M_bind at 1. rewrite (on_vm_read _ f) by (by apply the_function_eq).
  unfold mbind at 1, M_bind at 1. rewrite (on_vm_read _ false) by (by apply IsClosureMethod_block).
  unfold mbind at 1, M_bind at 1. simpl negb. simpl check. unfold mret at 1, M_ret at 1.
  unfold mbind at 1, M_bind at 1. rewrite (on_vm_read _ cb) by (unfold the_code_block; by rewrite He).
  unfold mbind at 1, M_bind at 1. unfold gets at 1. unfold mbind at 1, M_bind at 1. by rewrite (on_vm_read _ home).
Qed.

(** C4: a non-local return out of a block goes to the method the block was written
    in, through any number of blocks around it and of frames called in between: if
    every creator on the way is active, the current frame becomes the method's, all
    frames above are gone, the variables captured from them and from the method keep
    their last values, and the method returns the value; nothing else changes. *)
Theorem non_local_return pr capacity x fr f cb home frames' v :
  throwing pr x fr f cb -> home_of pr (ex_vm x) (ex_frames x) (ex_frames x) (home :: frames') ->
  h_base home < length (rc_stack (vm_rc (ex_vm x))) ->
  exists rc x', step pr capacity (Throwing v) x = Ok (Returning v, x') /\
    ex_frames x' = home :: frames' /\ ex_caches x' = ex_caches x /\
    closed_upto (h_base home) (vm_rc (ex_vm x)) rc /\
    ex_vm x' = with_rc (with_slot (h_base home) (Some v) rc) (ex_vm x).
Proof.
  intros Ht Hh Hlen. pose proof Ht as [(frames & Hfr) Hf He _ Hwf Hn].
  destruct (close_eq (h_base home) (ex_vm x) Hwf) as (rc & Hclose & _ & Hcu).
  exists rc. eexists. split.
  - change (step pr capacity (Throwing v) x) with (step pr 0 (Throwing v) x).
    erewrite throw_walk; [|exact Ht|].
    2: { eapply find_home_spec; [exact Hn|exact Hh| |done|lia]. rewrite Hfr. by exists fr, frames. }
    cbv beta iota. unfold mbind at 1, M_bind at 1. rewrite (on_vm_eq _ _ _ _ Hclose).
    unfold mbind at 1, M_bind at 1. erewrite on_vm_eq by (simpl; apply store_eq; simpl; by rewrite (cu_stack _ _ _ Hcu)). reflexivity.
  - split_and!; try done.
Qed.

(** ** Escaped blocks *)
Lemma class_of_with_rc K self s cl rc :
  GetSOMClassOfAny K self s = Ok (cl, s) -> GetSOMClassOfAny K self (with_rc rc s) = Ok (cl, with_rc rc s).
Proof.
  destruct self as [|b|z|d|r|r]; try by (intros [= <-]).
  - intros H%Sends.class_of_object. destruct H as (o & Ho & <-). unfold GetSOMClassOfAny, mbind, M_bind.
    by rewrite (deref_eq r o (with_rc rc s)).
  - unfold GetSOMClassOfAny, mbind, M_bind, the_function. simpl. destruct (vm_functions s !! r) as [f|]; [|done].
    destruct (entity_of_mask (m_invalidArrayType f)) as [[]|]; try done; by intros [= <-].
Qed.

(** Slots [n] on hold the values [vs] after they are stored. *)
Fixpoint with_slots (n : nat) (vs : list Slot) (rc : RContext Slot) : RContext Slot :=
  match vs with [] => rc | v :: vs' => with_slots (S n) vs' (with_slot n v rc) end.

Lemma with_slots_length n vs rc : length (rc_stack (with_slots n vs rc)) = length (rc_stack rc).
Proof. revert n rc. induction vs as [|v vs IH]; intros n rc; simpl; [done|]. rewrite IH. simpl. by rewrite length_insert. Qed.

Lemma store_range_eq slot vs s :
  slot + length vs <= length (rc_stack (vm_rc s)) ->
  store_range slot vs s = Ok (tt, with_rc (with_slots slot (Some <$> vs) (vm_rc s)) s).
Proof.
  revert slot s. induction vs as [|v vs IH]; intros slot s Hlen; simpl in *; [by rewrite with_rc_same|].
  unfold mbind, M_bind. rewrite store_eq by lia. rewrite IH; [done|]. simpl. rewrite length_insert. lia.
Qed.

Lemma store_none_eq n s : n < length (rc_stack (vm_rc s)) -> on_rc (store_slot n None) s = Ok (tt, with_rc (with_slot n None (vm_rc s)) s).
Proof. intros [w H]%lookup_lt_is_Some_2. apply on_rc_eq. unfold store_slot. by rewrite H. Qed.

Lemma clear_header_eq newBase s :
  4 <= newBase -> newBase <= length (rc_stack (vm_rc s)) ->
  clear_header newBase s = Ok (tt, with_rc (with_slots (newBase - 4) [None; None; None; None] (vm_rc s)) s).
Proof.
  intros H4 Hlen. unfold clear_header, mbind, M_bind. rewrite store_none_eq by lia. simpl.
  rewrite store_none_eq by (simpl; rewrite length_insert; lia). simpl.
  rewrite store_none_eq by (simpl; rewrite !length_insert; lia). simpl.
  rewrite store_none_eq by (simpl; rewrite !length_insert; lia). simpl.
  replace (S (newBase - 4)) with (newBase - 3) by lia. replace (S (newBase - 3)) with (newBase - 2) by lia.
  by replace (S (newBase - 2)) with (newBase - 1) by lia.
Qed.

Lemma with_slots_above n vs rc i : i < n \/ n + length vs <= i -> rc_stack (with_slots n vs rc) !! i = rc_stack rc !! i.
Proof.
  revert n rc. induction vs as [|v vs IH]; intros n rc Hi; simpl in *; [done|]. rewrite IH by lia. simpl.
  by rewrite list_lookup_insert_ne by lia.
Qed.
Lemma with_slots_at n vs rc i v :
  vs !! i = Some v -> n + length vs <= length (rc_stack rc) -> rc_stack (with_slots n vs rc) !! (n + i) = Some v.
Proof.
  revert n rc i. induction vs as [|w vs IH]; intros n rc i Hi Hlen; [done|]. simpl in Hlen. destruct i as [|i].
  - injection Hi as ->. simpl. rewrite with_slots_above by lia. simpl. rewrite Nat.add_0_r.
    apply list_lookup_insert_eq. lia.
  - simpl. replace (n + S i) with (S n + i) by lia. apply IH; [done|]. simpl. rewrite length_insert. lia.
Qed.

Lemma push_frame_eq newBase f r pc n x :
  4 <= newBase -> newBase <= length (rc_stack (vm_rc (ex_vm x))) ->
  push_frame newBase f r pc n x =
    Ok (Entering n, mk_exec (with_rc (with_slots (newBase - 4) [None; None; None; None] (vm_rc (ex_vm x))) (ex_vm x))
                      (mk_header newBase f r pc :: ex_frames x) (ex_caches x)).
Proof.
  intros H4 Hlen. unfold push_frame, mbind, M_bind. rewrite (on_vm_eq _ _ _ _ (clear_header_eq newBase (ex_vm x) H4 Hlen)). done.
Qed.

Section escaped.
Context (hash64 : Z -> Z) (pr : Program).

(** The block holds [self] by reference, its class has a handler, and there is room
    for the handler's frame over the block's own. *)
Record escapable (x : ExecState) (fr : StackFrameHeader) (f : FunctionObject) (self : Value) (h : nat) : Prop := {
  es_kind : entity_of_mask (m_invalidArrayType f) ∈ [Some SOM_BlockNoArg; Some SOM_BlockOneArg; Some SOM_BlockTwoArgs];
  es_self : exists r uvs, m_upvalues f = UvPointer r :: uvs /\ seen (vm_rc (ex_vm x)) r = Some (Some self);
  es_handler : exists cl d, GetSOMClassOfAny (pr_classes pr) self (ex_vm x) = Ok (cl, ex_vm x) /\
    has_methods hash64 (pr_classes pr) cl d /\ method_for d (v_escapedBlockHandler (pr_vm pr)) = Some h;
  es_name : valid_name hash64 (v_escapedBlockHandler (pr_vm pr));
  es_room : h_base fr + 6 <= length (rc_stack (vm_rc (ex_vm x)))
}.

(** C17: a non-local return out of a block whose method, or the method of a block
    around it, has already returned runs [escapedBlock:] of the block's [self]
    with the block as argument; the value it returns is what the block returns to
    its own caller, and nothing is unwound. *)
Theorem escaped_block_sent capacity x fr f cb self h v :
  throwing pr x fr f cb -> escaped pr (ex_vm x) (ex_frames x) (ex_frames x) -> escapable x fr f self h ->
  exists x', step pr capacity (Throwing v) x = Ok (Entering 2, x') /\
    ex_frames x' = mk_header (h_base fr + 4) h EscapedBlockReturnCont 0 :: ex_frames x /\
    rc_stack (vm_rc (ex_vm x')) !! (h_base fr + 4) = Some (Some self) /\
    rc_stack (vm_rc (ex_vm x')) !! (h_base fr + 5) = Some (Some (VFunction (m_func fr))) /\
    vm_functions (ex_vm x') = vm_functions (ex_vm x) /\ vm_heap (ex_vm x') = vm_heap (ex_vm x) /\
    forall w x1 l, ex_frames x1 = mk_header (h_base fr + 4) h EscapedBlockReturnCont 0 :: l ->
      step pr capacity (Returning w) x1 = Ok (Returning w, mk_exec (ex_vm x1) l (ex_caches x1)).
Proof.
  intros Ht Hesc [Hkind (r & uvs & Hu & Hseen) (cl & d & Hcl & Hd & Hh) Hname Hroom].
  pose proof Ht as [(frames & Hfr) Hf He _ Hwf Hn].
  destruct (close_eq (h_base fr) (ex_vm x) Hwf) as (rc & Hclose & _ & Hcu).
  set (s1 := with_rc rc (ex_vm x)).
  set (s2 := with_rc (with_slots (h_base fr + 4) (Some <$> [self; VFunction (m_func fr)]) rc) s1).
  assert (Hlen : length (rc_stack rc) = length (rc_stack (vm_rc (ex_vm x)))) by (by rewrite (cu_stack _ _ _ Hcu)).
  assert (Hstep : step pr capacity (Throwing v) x =
    push_frame (h_base fr + 4) h EscapedBlockReturnCont 0 2 (mk_exec s2 (ex_frames x) (ex_caches x))).
  { change (step pr capacity (Throwing v) x) with (step pr 0 (Throwing v) x).
    erewrite throw_walk; [|exact Ht|].
    2: { eapply find_home_escaped; [exact Hn|exact Hesc| |done|lia]. rewrite Hfr. by exists fr, frames. }
    cbv beta iota. unfold escaped_block. unfold mbind at 1, M_bind at 1. rewrite (on_vm_eq _ _ _ _ Hclose). fold s1.
    assert (Hc : forall b : bool, b = true -> forall y e, check b e y = Ok (tt, y : ExecState)) by (by intros b ->).
    unfold mbind at 1, M_bind at 1. rewrite Hc by (by repeat (apply elem_of_cons in Hkind as [->|Hkind]; [done|]); apply elem_of_nil in Hkind).
    unfold mbind at 1, M_bind at 1.
    rewrite (on_vm_read _ self).
    2: { unfold block_self, raw_upvalue, mbind, M_bind. rewrite Hu. simpl.
         rewrite (on_rc_eq _ (Some self) rc) by (apply UpvalueGet_eq; by rewrite (cu_seen _ _ _ Hcu)). done. }
    unfold mbind at 1, M_bind at 1. rewrite (on_vm_read _ cl) by (by apply class_of_with_rc).
    unfold mbind at 1, M_bind at 1. rewrite (on_vm_read _ (Some h)) by (simpl; rewrite (FindMethod_eq hash64 _ cl d) by done; by rewrite Hh).
    unfold mbind at 1, M_bind at 1.
    erewrite on_vm_eq by (apply (store_range_eq (h_base fr + 4) [self; VFunction (m_func fr)]); simpl; lia). done. }
  assert (Hlen2 : length (rc_stack (vm_rc s2)) = length (rc_stack (vm_rc (ex_vm x)))) by (simpl; by rewrite !length_insert).
  rewrite push_frame_eq in Hstep by (simpl; rewrite ?length_insert; lia).
  set (args := [Some self; Some (VFunction (m_func fr))]).
  assert (Hat : forall i w, args !! i = Some w ->
    rc_stack (with_slots (h_base fr + 4 - 4) [None; None; None; None] (with_slots (h_base fr + 4) args rc)) !! (h_base fr + 4 + i) = Some w).
  { intros i w Hi. rewrite with_slots_above by (simpl; lia). apply with_slots_at; [done|simpl; lia]. }
  eexists. split; [exact Hstep|]. cbn [ex_frames ex_vm vm_rc with_rc vm_functions].
  split_and!; try done.
  - pose proof (Hat 0 _ eq_refl) as H0. by rewrite (Nat.add_0_r (h_base fr + 4)) in H0.
  - replace (h_base fr + 5) with (h_base fr + 4 + 1) by lia. exact (Hat 1 _ eq_refl).
  - intros w x1 l Hx. unfold step, return_value, mbind, M_bind, gets. rewrite Hx. done.
Qed.
End escaped.

(** ** Programs that throw *)

(** The steps up to the first one that throws. *)
Fixpoint until_throw (pr : Program) (fuel : nat) (c : Control) : X Control :=
  match c, fuel with
  | Throwing _, _ | _, O => mret c
  | _, S fuel' => c' ← step pr 2 c; until_throw pr fuel' c'
  end.

(** [foo: n = ( [ [ ^ n ] value ] value. ^ 0 )] *)
Definition throw_method : AstMethod :=
  let value := Z.to_nat (m_id (v_strOperatorValue (e_vm sample_env))) in
  mk_ast_method MK_Keyword false sample_foo ["n"] []
    [AstUnaryCall value (AstNestedBlock [] [] [AstUnaryCall value (AstNestedBlock [] [] [AstReturn (AstVariableUse "n")])]);
     AstReturn (AstInteger 0)].
Definition throw_program : Program := sample_program (sample_units throw_method) [mk_entry 49 (Some 0)].
Definition throw_start : ExecState :=
  mk_exec (mk_vm (mk_str sample_start.2 [] [] [] [OPlain 0 []]) [sample_function (pr_units throw_program)]
    (mk_rcontext [] None (replicate 4 None ++ [Some (VObject 0); Some (VInt 7)] ++ replicate 90 None)) []) [mk_header 4 0 RetToC 0] ∅.
Example throw_run : match run throw_program 2 200 (Entering 2) throw_start with Ok (v, x) => v = VInt 7 /\ ex_frames x = [] | Err _ => False end.
Proof. vm_compute. done. Qed.

(** [foo: n = ( ^ [ ^ n ] )] *)
Definition escaping_method : AstMethod :=
  mk_ast_method MK_Keyword false sample_foo ["n"] [] [AstReturn (AstNestedBlock [] [] [AstReturn (AstVariableUse "n")])].
Definition block_program : Program :=
  sample_program (sample_units escaping_method)
    [mk_entry (m_id (v_escapedBlockHandler (e_vm sample_env))) (Some 0)].

Definition after {A} (r : result (A * ExecState)) : ExecState := match r with Ok (_, x) => x | Err _ => throw_start end.
Definition throw_point : ExecState := after (until_throw throw_program 200 (Entering 2) throw_start).

(** The block comes back from the method and is called by somebody else. *)
Definition escaped_start : ExecState :=
  let x := mk_exec (mk_vm (mk_str sample_start.2 [] [] [] [OPlain 0 []]) [sample_function (pr_units block_program)]
             (mk_rcontext [] None (replicate 4 None ++ [Some (VObject 0); Some (VInt 7)] ++ replicate 90 None)) [])
             [mk_header 4 0 RetToC 0] ∅ in
  let y := after (run block_program 2 200 (Entering 2) x) in
  mk_exec (ex_vm y) [mk_header 20 1 RetToC 0] (ex_caches y).
Definition escaped_point : ExecState := after (until_throw block_program 200 (Entering 1) escaped_start).

(** Contexts numbered behind their parents, as a test. *)
Definition nested_units (units : Units) : bool :=
  forallb (fun cs : list TranslationContext =>
    forallb (fun '(i, c) => match m_parent (m_resultUcb c) with Some p => p <? i | None => true end) (imap pair cs)) units.
Lemma forallb_lookup {A} (p : A -> bool) l i x : forallb p l = true -> l !! i = Some x -> p x = true.
Proof. rewrite forallb_forall. intros H Hi. apply H, list_elem_of_In. by eapply list_elem_of_lookup_2. Qed.
Lemma nested_units_nested pr : nested_units (pr_units pr) = true -> units_nested pr.
Proof.
  unfold nested_units. intros H child parent (c & p & Hc & Hp & ->).
  destruct (pr_units pr !! child.1) as [cs|] eqn:Hcs; [|done]. simpl in *.
  pose proof (forallb_lookup _ _ _ _ H Hcs) as H1. simpl in H1.
  assert (Hi : imap pair cs !! child.2 = Some (child.2, c)) by (by rewrite list_lookup_imap, Hc).
  pose proof (forallb_lookup _ _ _ _ H1 Hi) as H2. simpl in H2. rewrite Hp in H2. by apply Nat.ltb_lt.
Qed.

(** The well-formedness of a runtime context, as a test. *)
Fixpoint chain_test (heap : list (@Upvalue Slot)) (hd : option nat) (l : list (nat * nat)) : bool :=
  match l with
  | [] => bool_decide (hd = None)
  | (r, n) :: l' =>
      bool_decide (hd = Some r) &&
      match heap !! r with
      | Some u => bool_decide (m_ptr u = Some n) && negb (m_isClosed u) && chain_test heap (m_prev u) l'
      | None => false
      end && forallb (fun e => e.2 <? n) l'
  end.
Definition rc_test (l : list (nat * nat)) (s : RContext Slot) : bool :=
  chain_test (rc_heap s) (m_upvalueList s) l && forallb (fun e => e.2 <? length (rc_stack s)) l &&
  forallb (fun '(r, u) => match m_ptr u with Some n => bool_decide ((r, n) ∈ l) | None => m_isClosed u && bool_decide (is_Some (m_tv u)) end)
    (imap pair (rc_heap s)).

Lemma chain_test_chain heap hd l : chain_test heap hd l = true -> chain heap hd l.
Proof.
  revert hd. induction l as [|[r n] l IH]; intros hd; simpl; [by intros ?%bool_decide_eq_true|].
  rewrite !andb_true_iff, bool_decide_eq_true. intros [[-> H] Hl]. destruct (heap !! r) as [u|]; [|done].
  rewrite !andb_true_iff, bool_decide_eq_true, negb_true_iff in H. destruct H as [[Hp Hc] H].
  split_and!; [done| |].
  - exists u. by split_and!; [| | |apply IH].
  - apply Forall_forall. intros e He. rewrite forallb_forall in Hl. apply Nat.ltb_lt, Hl. by apply list_elem_of_In.
Qed.
Lemma rc_test_wf l s : rc_test l s = true -> rc_wf s.
Proof.
  unfold rc_test. rewrite !andb_true_iff. intros [[Hc Hl] Hh]. rewrite forallb_forall in Hl. exists l.
  assert (Hu : forall r u, rc_heap s !! r = Some u -> imap pair (rc_heap s) !! r = Some (r, u))
    by (intros r u Hr; by rewrite list_lookup_imap, Hr).
  split.
  - by apply chain_test_chain.
  - intros r u n Hr Hp. pose proof (forallb_lookup _ _ _ _ Hh (Hu _ _ Hr)) as H. simpl in H. rewrite Hp in H.
    by apply bool_decide_eq_true in H.
  - intros r u Hr Hp. pose proof (forallb_lookup _ _ _ _ Hh (Hu _ _ Hr)) as H. simpl in H. rewrite Hp in H.
    by rewrite andb_true_iff, bool_decide_eq_true in H.
  - intros r n Hin. apply (Nat.ltb_lt n), (Hl (r, n)). by apply list_elem_of_In.
Qed.

(** The frames and functions of a state, by their index. *)
Definition frame_at (x : ExecState) (i : nat) : StackFrameHeader := nth i (ex_frames x) (mk_header 0 0 RetToC 0).
Definition upvalue_at (x : ExecState) (i : nat) : @Upvalue Slot := nth i (rc_heap (vm_rc (ex_vm x))) (mk_upvalue None true false None None).
Definition function_at (x : ExecState) (i : nat) : FunctionObject := nth i (vm_functions (ex_vm x)) getter_function.
Definition code_at (x : ExecState) (i : nat) : CodeBlock :=
  match m_executable (function_at x i) with BytecodeFunction cb => cb | UserCFunction _ => mk_cb (0, 0) 0 0 0 0 false TfNone end.

Lemma throw_point_throwing : throwing throw_program throw_point (frame_at throw_point 0) (function_at throw_point 2) (code_at throw_point 2).
Proof.
  split; try (vm_compute; reflexivity).
  - eexists. vm_compute. reflexivity.
  - exists SOM_BlockNoArg. by vm_compute.
  - apply (rc_test_wf [(1, 15); (0, 4)]). by vm_compute.
  - apply nested_units_nested. by vm_compute.
Qed.

Lemma throw_point_home : home_of throw_program (ex_vm throw_point) (ex_frames throw_point) (ex_frames throw_point) [frame_at throw_point 2].
Proof.
  assert (Hruns : forall i, i < 3 -> frame_runs (ex_vm throw_point) (drop i (ex_frames throw_point)) (function_at throw_point (2 - i)) (code_at throw_point (2 - i))).
  { intros i Hi. exists (frame_at throw_point i), (drop (S i) (ex_frames throw_point)).
    destruct i as [|[|[|i]]]; [..|lia]; by vm_compute. }
  assert (Hby : forall i, i < 2 -> created_by throw_program (ex_vm throw_point) (ex_frames throw_point) (drop i (ex_frames throw_point)) (drop (S i) (ex_frames throw_point))).
  { intros i Hi. exists (function_at throw_point (2 - i)), (code_at throw_point (2 - i)), (upvalue_at throw_point (1 - i)),
      (h_base (frame_at throw_point (S i))), (function_at throw_point (1 - i)), (code_at throw_point (1 - i)).
    split_and!; [apply Hruns; lia| | | | |pose proof (Hruns (S i)) as H; destruct i as [|[|i]]; [..|lia]; apply H; lia| |];
      (destruct i as [|[|i]]; [..|lia]); first [vm_compute; reflexivity|eexists _, _; by vm_compute|vm_compute; lia]. }
  replace [frame_at throw_point 2] with (drop 2 (ex_frames throw_point)) by (by vm_compute).
  pose proof (Hby 0 ltac:(lia)) as H0. rewrite drop_0 in H0. apply (home_block _ _ _ _ _ _ _ _ H0 (Hruns 1 ltac:(lia))).
  - exists SOM_BlockNoArg. by vm_compute.
  - apply (home_method _ _ _ _ _ _ _ (Hby 1 ltac:(lia)) (Hruns 2 ltac:(lia))). by vm_compute.
Qed.

(** The innermost of the two blocks of [throw_method] throws. *)
Lemma non_local_return_witness :
  exists rc x', step throw_program 2 (Throwing (VInt 7)) throw_point = Ok (Returning (VInt 7), x') /\
    ex_frames x' = [frame_at throw_point 2] /\
    ex_vm x' = with_rc (with_slot 4 (Some (VInt 7)) rc) (ex_vm throw_point).
Proof.
  destruct (non_local_return throw_program 2 throw_point _ _ _ (frame_at throw_point 2) [] (VInt 7) throw_point_throwing throw_point_home)
    as (rc & x' & Hs & Hf & _ & _ & Hx); [vm_compute; lia|]. exists rc, x'. split_and!; [exact Hs|exact Hf|exact Hx].
Defined.

Lemma escaped_point_throwing : throwing block_program escaped_point (frame_at escaped_point 0) (function_at escaped_point 1) (code_at escaped_point 1).
Proof.
  split; try (vm_compute; reflexivity).
  - eexists. vm_compute. reflexivity.
  - exists SOM_BlockNoArg. by vm_compute.
  - apply (rc_test_wf []). by vm_compute.
  - apply nested_units_nested. by vm_compute.
Qed.

Lemma escaped_point_escaped : escaped block_program (ex_vm escaped_point) (ex_frames escaped_point) (ex_frames escaped_point).
Proof.
  eapply (escaped_here _ _ _ _ (function_at escaped_point 1) (code_at escaped_point 1)).
  - exists (frame_at escaped_point 0), []. by vm_compute.
  - eexists _, _. split; vm_compute; reflexivity.
  - by vm_compute.
Qed.

Lemma escaped_point_escapable :
  escapable (fun _ => 0%Z) block_program escaped_point (frame_at escaped_point 0) (function_at escaped_point 1) (VObject 0) 0.
Proof.
  split.
  - vm_compute. left.
  - eexists _, _. split; vm_compute; reflexivity.
  - exists 0, {[ m_id (v_escapedBlockHandler (e_vm sample_env)) := Some 0 ]}. split_and!; [by vm_compute| |by vm_compute].
    eexists. split; [reflexivity|]. apply one_method_represents; [reflexivity|reflexivity|by vm_compute].
  - split; by vm_compute.
  - vm_compute. lia.
Qed.

(** The block outlives its method and is called again. *)
Lemma escaped_block_sent_witness :
  exists x', step block_program 2 (Throwing (VInt 7)) escaped_point = Ok (Entering 2, x') /\
    ex_frames x' = [mk_header 24 0 EscapedBlockReturnCont 0; mk_header 20 1 RetToC 0].
Proof.
  destruct (escaped_block_sent (fun _ => 0%Z) block_program 2 escaped_point _ _ _ (VObject 0) 0 (VInt 7)
    escaped_point_throwing escaped_point_escaped escaped_point_escapable) as (x' & Hs & Hf & _).
  exists x'. split; [exact Hs|]. rewrite Hf. vm_compute. reflexivity.
Defined.
