(* ===== verification/Loading.v ===== *)
(** * Loading classes

    [SOMCompileFile] and [SOMBootstrapClassHierarchy] of
    [runtime/som_compile_file.cpp], with the rest of [SOMClass::Create]
    ([runtime/som_class.cpp]): a class file is parsed, its superclass loaded on the
    way, its methods compiled or taken from the table of primitives, and the class,
    its class, and their class objects are linked up.  A class is named by its
    index; the system classes have theirs from the start.  The pointer to its class
    that a class object keeps in its first field is not a value: [ci_classObject] has
    the other direction. *)
From S2P Require Import Prelude Interner VmSelectors CNumbers Lexer Ast Parser Bytecode Compiler MethodTable TValue Values Primitives Objects OpenUpvalues Symbols Machine Calls LibCalls Interp.
#[local] Set Default Proof Using "Type".

(** What a [SOMClass] holds besides its method table. *)
Record ClassInfo : Type := mk_info {
  ci_class : @SOMClass nat;
  ci_superClass : option nat;
  ci_classObject : option nat;
  ci_name : nat;
  ci_fields : nat;
  ci_methods : nat
}.

Record Loader : Type := mk_loader {
  ld_vm : VMState;
  ld_globalIdxMap : gmap nat nat;
  ld_globalNames : list nat;
  ld_prims : gmap (bool * string * string) Element;
  ld_classes : list (option ClassInfo);    (* [None]: allocated, not initialised *)
  ld_units : Units;
  ld_arrays : list (list Cst);
  ld_arrayObjects : list nat;
  m_parsedClasses : gmap nat nat;
  m_metaclassClassLoaded : bool
}.
Notation D := (M Loader).

(** The system classes in the order they are allocated in. *)
Definition system_classes : list string :=
  ["Object"; "Class"; "Metaclass"; "Array"; "String"; "Nil"; "Boolean"; "True"; "False"; "Integer"; "Double";
   "Block"; "Block1"; "Block2"; "Block3"; "Method"; "Symbol"; "Primitive"; "System"]%string.
Definition system_class (className : string) : option nat :=
  fst <$> list_find (fun s => s = className) system_classes.
Definition the_system_class (className : string) : nat := default 0 (system_class className).
Definition m_metaclassClass : nat := 2.
Definition m_classClass : nat := 1.

(** ** Access to the state *)
Definition with_vm (v : VMState) (s : Loader) : Loader :=
  mk_loader v (ld_globalIdxMap s) (ld_globalNames s) (ld_prims s) (ld_classes s) (ld_units s) (ld_arrays s) (ld_arrayObjects s)
    (m_parsedClasses s) (m_metaclassClassLoaded s).
Definition with_classes (cs : list (option ClassInfo)) (s : Loader) : Loader :=
  mk_loader (ld_vm s) (ld_globalIdxMap s) (ld_globalNames s) (ld_prims s) cs (ld_units s) (ld_arrays s) (ld_arrayObjects s)
    (m_parsedClasses s) (m_metaclassClassLoaded s).
Definition with_prims (p : gmap (bool * string * string) Element) (s : Loader) : Loader :=
  mk_loader (ld_vm s) (ld_globalIdxMap s) (ld_globalNames s) p (ld_classes s) (ld_units s) (ld_arrays s) (ld_arrayObjects s)
    (m_parsedClasses s) (m_metaclassClassLoaded s).
Definition with_parsed (p : gmap nat nat) (s : Loader) : Loader :=
  mk_loader (ld_vm s) (ld_globalIdxMap s) (ld_globalNames s) (ld_prims s) (ld_classes s) (ld_units s) (ld_arrays s) (ld_arrayObjects s)
    p (m_metaclassClassLoaded s).
Definition with_loaded (b : bool) (s : Loader) : Loader :=
  mk_loader (ld_vm s) (ld_globalIdxMap s) (ld_globalNames s) (ld_prims s) (ld_classes s) (ld_units s) (ld_arrays s) (ld_arrayObjects s)
    (m_parsedClasses s) b.
Definition with_arrayObjects (os : list nat) (s : Loader) : Loader :=
  mk_loader (ld_vm s) (ld_globalIdxMap s) (ld_globalNames s) (ld_prims s) (ld_classes s) (ld_units s) (ld_arrays s) os
    (m_parsedClasses s) (m_metaclassClassLoaded s).

Definition ld_interner (s : Loader) : StringInterner := st_interner (vm_str (ld_vm s)).
Definition ld_heap (s : Loader) : Heap := st_heap (vm_str (ld_vm s)).

Definition on_machine {A} (m : V A) : D A := fun s => '(a, v) ← m (ld_vm s); Ok (a, with_vm v s).
Definition the_info (cl : nat) : D ClassInfo := fun s =>
  match ld_classes s !! cl with Some (Some i) => Ok (i, s) | _ => Err bad_class end.
Definition set_info (cl : nat) (i : ClassInfo) : D unit := modify (fun s => with_classes (<[cl := Some i]> (ld_classes s)) s).
Definition new_info (i : ClassInfo) : D nat := fun s =>
  Ok (length (ld_classes s), with_classes (ld_classes s ++ [Some i]) s).
Definition name_of (ord : nat) : D string := fun s => lift_result (Interner.Get ord (ld_interner s)) s.

(** The globals of the VM, as the compiler and [SetSOMGlobal] see them. *)
Definition ld_globals (s : Loader) : Globals Value :=
  mk_globals (ld_interner s) (ld_globalIdxMap s) (ld_globalNames s) (vm_globals (ld_vm s)).
Definition with_interner (it : StringInterner) (v : VMState) : VMState :=
  with_str (mk_str it (m_internedStringObjects (vm_str v)) (m_internedSymbolObjects (vm_str v)) (m_cachedSingleCharStrings (vm_str v))
              (st_heap (vm_str v))) v.
Definition with_globals (g : Globals Value) (s : Loader) : Loader :=
  let v := with_interner (g_interner g) (ld_vm s) in
  mk_loader (mk_vm (vm_str v) (vm_functions v) (vm_rc v) (m_globalsVec g)) (m_globalIdxMap g) (m_globalStringIdWithIndex g)
    (ld_prims s) (ld_classes s) (ld_units s) (ld_arrays s) (ld_arrayObjects s) (m_parsedClasses s) (m_metaclassClassLoaded s).

Section loading.
(** The text of the file [OpenFileForClass] finds for a class. *)
Context (HashString : string -> Z) (bcLength : Bytecode -> nat) (bcConstants : Bytecode -> list Cst) (vm : VMStrings).
Context (files : string -> option chars).

Definition intern (str : string) : D nat := on_machine (on_str (InternStr HashString str)).

(** [SetSOMGlobal]: the global must not have a value yet. *)
Definition SetSOMGlobal (key : string) (value : Value) : D unit := fun s =>
  let '(slot, g) := GetSlotForGlobal HashString key (ld_globals s) in
  match m_globalsVec g !! slot with
  | Some None =>
      Ok (tt, with_globals (mk_globals (g_interner g) (m_globalIdxMap g) (m_globalStringIdWithIndex g)
                              (<[slot := Some value]> (m_globalsVec g))) s)
  | Some (Some _) => Err (AssertFailed "vm->m_somGlobals[slot].m_value == TValue::CreateImpossibleValue().m_value")
  | None => Err (UndefinedBehaviour "vm->m_somGlobals[slot]")
  end.

(** ** Compiling a method *)

(** The objects of the array constants a method added: all are allocated, then their
    elements are filled in. *)
Fixpoint allocate_arrays (arrays : list (list Cst)) : D unit :=
  match arrays with
  | [] => mret tt
  | es :: arrays' =>
      o ← on_machine (on_objects (AllocateArray (length es)));
      modify (fun s => with_arrayObjects (ld_arrayObjects s ++ [o]) s) ;;
      allocate_arrays arrays'
  end.
Fixpoint fill_arrays (addr : nat) (arrays : list (list Cst)) : D unit :=
  match arrays with
  | [] => mret tt
  | es :: arrays' =>
      objs ← gets ld_arrayObjects;
      vs ← on_machine (mapM (literal_value objs) es);
      match objs !! addr with
      | Some o => on_machine (on_objects (write o (OArray vs)))
      | None => fail (UndefinedBehaviour "not an array constant")
      end ;;
      fill_arrays (S addr) arrays'
  end.

(** [CodeBlock::Create] for every context. *)
Fixpoint create_code_blocks (u i : nat) (cs : list TranslationContext) : result (list CodeBlock) :=
  match cs with
  | [] => Ok []
  | c :: cs' =>
      cb ← CodeBlock_Create (u, i) (m_resultUcb c);
      cbs ← create_code_blocks u (S i) cs';
      Ok (cb :: cbs)
  end.

(** The end of [CompileMethod]: the function object of the method. *)
Definition method_function (u : nat) (cs : list TranslationContext) : D nat :=
  cbs ← lift_result (create_code_blocks u 0 cs);
  match cbs, cs with
  | cb :: _, c :: _ => on_machine (CreateAndFillUpvalues cb (m_upvalueInfo (m_resultUcb c)) 0 None 0)
  | _, _ => fail (UndefinedBehaviour "ctx->m_resultUcb")
  end.

Definition compile_method (superClass : option nat) (fieldMap : gmap string nat) (isSelfObject : bool) (meth : AstMethod) : D nat :=
  s ← get_st;
  let old := ld_arrays s in
  '(_, cs) ← lift_result (CompileMethod HashString bcLength bcConstants (ast_list_size (am_body meth))
                            (mk_env vm fieldMap isSelfObject superClass) meth (mk_cstate (ld_globals s) [] [] [] ∅ old));
  let u := length (ld_units s) in
  put_st (let s1 := with_globals (cs_globals cs) s in
          mk_loader (ld_vm s1) (ld_globalIdxMap s1) (ld_globalNames s1) (ld_prims s1) (ld_classes s1)
            (ld_units s1 ++ [cs_ctxs cs]) (cs_arrays cs) (ld_arrayObjects s1) (m_parsedClasses s1) (m_metaclassClassLoaded s1)) ;;
  allocate_arrays (drop (length old) (cs_arrays cs)) ;;
  fill_arrays (length old) (drop (length old) (cs_arrays cs)) ;;
  method_function u (cs_ctxs cs).

(** [SOMPrimitivesContainer::Get]: the functions it creates come behind the others. *)
Definition function_of_cfunction (f : CFunction) : FunctionObject :=
  mk_function (UserCFunction (f_impl f)) (entity_number SOM_Method + 16 * lookup_kind_number SOM_NormalMethod) (UvValue <$> f_upvalues f).
Definition primitive_function (className methName : string) (isClassSide : bool) : D nat := fun s =>
  let v := ld_vm s in
  let n := length (vm_functions v) in
  '(fn, p) ← Primitives.Get className methName isClassSide
               (mk_prims (ld_prims s) (replicate n (mk_cfunction P_unimplemented_primitive [])) (ld_heap s));
  let st := vm_str v in
  let st' := mk_str (st_interner st) (m_internedStringObjects st) (m_internedSymbolObjects st) (m_cachedSingleCharStrings st) (p_heap p) in
  Ok (fn, with_vm (mk_vm st' (vm_functions v ++ (function_of_cfunction <$> drop n (p_functions p))) (vm_rc v) (vm_globals v))
            (with_prims (Primitives.m_map p) s)).

(** The functions of the methods of one side of a class. *)
Fixpoint compile_methods (className : string) (isClassSide : bool) (superClass : option nat) (fieldMap : gmap string nat)
    (isSelfObject : bool) (methods : list AstMethod) : D (list (AstMethod * nat)) :=
  match methods with
  | [] => mret []
  | meth :: methods' =>
      fn ← (if Ast.m_isPrimitive meth then
              name ← name_of (m_selectorName meth); primitive_function className name isClassSide
            else compile_method superClass fieldMap isSelfObject meth);
      rest ← compile_methods className isClassSide superClass fieldMap isSelfObject methods';
      mret ((meth, fn) :: rest)
  end.

(** ** Creating a class *)
Definition hash64_of (it : StringInterner) (k : Z) : Z :=
  match m_list it !! Z.to_nat k with Some (_, h) => h | None => 0%Z end.

(** The object of a method in the class's method array; the holder is filled in by
    [FinishSOMClassMethodArray]. *)
Definition method_object (meth : AstMethod) (fn : nat) : D Value :=
  sig ← on_machine (on_str (GetInternedSymbol (m_selectorName meth)));
  let hc := the_system_class (if Ast.m_isPrimitive meth then "Primitive" else "Method") in
  o ← on_machine (on_objects (allocate (OPlain hc [VNil; VObject sig; VFunction fn])));
  mret (VObject o).

(** The check of the test build: every method is found. *)
Fixpoint check_methods (cl : @SOMClass nat) (methods : list (AstMethod * nat)) : D unit :=
  match methods with
  | [] => mret tt
  | (meth, fn) :: methods' =>
      it ← gets ld_interner;
      hash ← lift_result (GetHash (m_selectorName meth) it);
      found ← lift_result (GetMethod cl (mk_uniqued (u32 (Z.of_nat (m_selectorName meth))) (hash32 hash)));
      check (bool_decide (found = Some fn)) (AssertFailed "TranslateToRawPointer(fn.As()) == it.m_fnObj") ;;
      check_methods cl methods'
  end.

(** [SOMClass::Create] *)
Definition SOMClass_Create (className : string) (superClass : option nat) (methods : list (AstMethod * nat)) (fields : list nat)
    (preallocated : option nat) : D nat :=
  sup ← (match superClass with None => mret None | Some c => i ← the_info c; mret (Some i) end);
  it ← gets ld_interner;
  let infos : list (@MethInfo nat) := (fun '(m, fn) => mk_methinfo (Z.of_nat (m_selectorName m)) fn) <$> methods in
  cl ← lift_result (MethodTable.Create true (hash64_of it) (ci_class <$> sup) infos (Z.of_nat <$> fields)
                      (bool_decide (is_Some preallocated)));
  nameOrd ← intern className;
  name ← on_machine (on_str (GetInternedSymbol nameOrd));
  fieldArray ← on_machine (on_objects (AllocateArray (c_numFields cl)));
  inherited ← (match sup with None => mret [] | Some i => on_machine (on_objects (AsArray (VObject (ci_fields i)))) end);
  own ← on_machine (on_str (mapM GetInternedSymbol fields));
  on_machine (on_objects (write fieldArray (OArray (inherited ++ (VObject <$> own))))) ;;
  methodArray ← on_machine (on_objects (AllocateArray (length methods)));
  objs ← mapM (fun '(m, fn) => method_object m fn) methods;
  on_machine (on_objects (write methodArray (OArray objs))) ;;
  check_methods cl methods ;;
  let info := mk_info cl superClass None name fieldArray methodArray in
  match preallocated with
  | Some c => set_info c info ;; mret c
  | None => new_info info
  end.

(** [SOMClass::Instantiate] *)
Definition InstantiateClass (cl : nat) : D nat :=
  i ← the_info cl; on_machine (on_objects (Objects.Instantiate cl (c_numFields (ci_class i)))).

Definition set_classObject (cl o : nat) : D unit :=
  i ← the_info cl;
  set_info cl (mk_info (ci_class i) (ci_superClass i) (Some o) (ci_name i) (ci_fields i) (ci_methods i)).

(** Each method of the class gets it as holder. *)
Fixpoint set_holders (holder : Value) (meths : list Value) : D unit :=
  match meths with
  | [] => mret tt
  | m :: meths' => on_machine (on_objects (PutFieldImpl m 0 holder)) ;; set_holders holder meths'
  end.
Definition FinishSOMClassMethodArray (cl : nat) : D unit :=
  i ← the_info cl;
  match ci_classObject i with
  | None => fail (AssertFailed "classObj != nullptr")
  | Some o => meths ← on_machine (on_objects (AsArray (VObject (ci_methods i)))); set_holders (VObject o) meths
  end.

(** ** [SOMCompileFile] *)

(** The names of the fields of a class, from its array of symbols. *)
Fixpoint field_names (symbols : list Value) : HM (list string) :=
  match symbols with
  | [] => mret []
  | tv :: symbols' =>
      o ← (match tv with VObject r => deref r | _ => fail (AssertFailed "tv.Is<tObject>()") end);
      match o with
      | OString StringSymbol name => names ← field_names symbols'; mret (name :: names)
      | _ => fail (AssertFailed "str->m_hiddenClass == m_symbolClass")
      end
  end.
Definition class_field_names (cl : nat) : D (list string) :=
  i ← the_info cl;
  symbols ← on_machine (on_objects (AsArray (VObject (ci_fields i))));
  on_machine (on_objects (field_names symbols)).

(** The ordinals of the fields, in order; no name occurs twice. *)
Fixpoint make_fieldMap (names : list string) (curFieldOrd : nat) (fieldMap : gmap string nat) : D (gmap string nat) :=
  match names with
  | [] => mret fieldMap
  | name :: names' =>
      check (bool_decide (fieldMap !! name = None)) (AssertFailed "!fieldMap.count(strVal)") ;;
      make_fieldMap names' (S curFieldOrd) (<[name := curFieldOrd]> fieldMap)
  end.

Definition set_primitive (meth : AstMethod) : AstMethod :=
  mk_ast_method (m_kind meth) true (m_selectorName meth) (am_params meth) (am_locals meth) (am_body meth).

(** One side of a system class: a method with a primitive implementation becomes
    primitive, and is added when the file has none. *)
Fixpoint force_primitives (named : list (string * AstMethod)) (prims : list string) (methods : list AstMethod) : D (list AstMethod) :=
  match prims with
  | [] => mret methods
  | methName :: prims' =>
      match list_find (fun e => fst e = methName) named with
      | None =>
          ord ← intern methName;
          force_primitives named prims' (methods ++ [mk_ast_method MK_Unknown true ord [] [] []])
      | Some (i, _) => force_primitives named prims' (alter set_primitive i methods)
      end
  end.
Definition name_methods (methods : list AstMethod) : D (list (string * AstMethod)) :=
  named ← mapM (fun m => name ← name_of (m_selectorName m); mret (name, m)) methods;
  check (bool_decide (NoDup named.*1)) (AssertFailed "!methNameMap[1].count(methName)") ;;
  mret named.
Definition add_primitives (className : string) (cl : AstClass nat) : D (AstClass nat) :=
  named1 ← name_methods (m_classMethods cl);
  named0 ← name_methods (m_instanceMethods cl);
  prims ← gets ld_prims;
  let on side := primitives_in_class className side (mk_prims prims [] []) in
  instanceMethods ← force_primitives named0 (on false) (m_instanceMethods cl);
  classMethods ← force_primitives named1 (on true) (m_classMethods cl);
  mret (mk_ast_class (ac_name cl) (ac_superClass cl) (m_instanceFields cl) (m_classFields cl) instanceMethods classMethods).

Definition is_self_object (className : string) : bool :=
  negb (bool_decide (className ∈ ["Nil"; "False"; "True"; "Boolean"; "Integer"; "Double"; "Block1"; "Block2"; "Block3"; "Block";
                                  "Method"; "Object"]%string)).
Definition is_root_class (className : string) : bool :=
  bool_decide (className ∈ ["Object"; "Class"; "Metaclass"]%string).

(** The class itself, with its instance side. *)
Definition load_instance_side (className : string) (preallocated : option nat) (cl : AstClass nat) : D nat :=
  inherited ← (match ac_superClass cl with None => mret [] | Some sc => class_field_names sc end);
  fieldMap ← make_fieldMap (inherited ++ m_instanceFields cl) 0 ∅;
  methods ← compile_methods className false (ac_superClass cl) fieldMap (is_self_object className) (m_instanceMethods cl);
  fields ← mapM intern (m_instanceFields cl);
  extra ← (if bool_decide (className = "Class") then
             check (bool_decide (inherited = []) && bool_decide (fields = [])) (AssertFailed "cl->m_superClass->m_numFields == 0") ;;
             o ← intern "(classOfClassObject)"; mret [o]
           else mret []);
  SOMClass_Create className (ac_superClass cl) methods (fields ++ extra) preallocated.

(** The class of the superclass: that of its class object. *)
Definition class_of_class (cl : nat) : D nat :=
  i ← the_info cl;
  match ci_classObject i with
  | None => fail (UndefinedBehaviour "res->m_superClass->m_classObject->m_hiddenClass")
  | Some o =>
      obj ← on_machine (on_objects (deref o));
      match obj with OPlain hc _ => mret hc | _ => fail bad_class end
  end.

(** The class's class, with the class side, and the two class objects. *)
Definition load_class_side (className : string) (res : nat) (cl : AstClass nat) : D unit :=
  i ← the_info res;
  SClass ← (match ci_superClass i with Some sc => class_of_class sc | None => fail (UndefinedBehaviour "res->m_superClass->m_classObject") end);
  inherited ← class_field_names SClass;
  fieldMap ← make_fieldMap (inherited ++ m_classFields cl) 0 ∅;
  methods ← compile_methods className true (Some SClass) fieldMap true (m_classMethods cl);
  fields ← mapM intern (m_classFields cl);
  CClass ← SOMClass_Create (className ++ " class") (Some SClass) methods fields None;
  loaded ← gets m_metaclassClassLoaded;
  check loaded (AssertFailed "vm->m_metaclassClassLoaded") ;;
  co ← InstantiateClass m_metaclassClass;
  i ← the_info m_metaclassClass;
  check (c_numFields (ci_class i) =? 1) (AssertFailed "vm->m_metaclassClass->m_numFields == 1") ;;
  set_classObject CClass co ;;
  o ← InstantiateClass CClass;
  i ← the_info CClass;
  check (0 <? c_numFields (ci_class i)) (AssertFailed "CClass->m_numFields > 0") ;;
  set_classObject res o ;;
  SetSOMGlobal className (VObject o) ;;
  FinishSOMClassMethodArray res ;;
  FinishSOMClassMethodArray CClass.

Definition load_class (className : string) (isSystemClass : bool) (cl : AstClass nat) : D nat :=
  check (eqb (bool_decide (className = "Object")) (bool_decide (ac_superClass cl = None)))
    (AssertFailed "TestAssertIff(className == Object, cl->m_superClass == nullptr)") ;;
  name ← name_of (ac_name cl);
  check (bool_decide (className = name)) (Aborted ("Class defined in " ++ className ++ ".som is not " ++ className ++ ".")) ;;
  cl ← (if isSystemClass then add_primitives className cl else mret cl);
  check (negb isSystemClass || bool_decide (is_Some (system_class className))) (AssertFailed "unknown system class name!") ;;
  res ← load_instance_side className (if isSystemClass then system_class className else None) cl;
  (if is_root_class className then
     check (bool_decide (m_classFields cl = []) && bool_decide (m_classMethods cl = [])) (AssertFailed "cl->m_classFields.size() == 0")
   else load_class_side className res cl) ;;
  mret res.

#[local] Instance loader_world : ParserWorld Loader := {
  w_InternString str s := let '(ord, it) := InternString HashString str (ld_interner s) in (ord, with_vm (with_interner it (ld_vm s)) s);
  w_Get ord s := Interner.Get ord (ld_interner s)
}.

(** The parser on the text of a file; it loads the superclass by itself. *)
Definition parse_file (className : string) (file : chars) (load : string -> D nat) : D (AstClass nat) := fun s =>
  p ← new_parser (new_lexer file) s;
  '(cl, p') ← ParseClass className load (2 + length file) p;
  Ok (cl, m_world p').

(** [fuel] bounds the chain of superclasses. *)
Fixpoint SOMCompileFile (fuel : nat) (className : string) (isSystemClass : bool) : D nat :=
  match fuel with
  | O => fail OutOfFuel
  | S fuel' =>
      stringId ← intern className;
      parsed ← gets m_parsedClasses;
      match parsed !! stringId with
      | Some c => mret c
      | None =>
          match files className with
          | None => fail (Aborted ("Failed to load class " ++ className ++ " (file not found)"))
          | Some file =>
              cl ← parse_file className file (fun name => SOMCompileFile fuel' name false);
              res ← load_class className isSystemClass cl;
              modify (fun s => with_parsed (<[stringId := res]> (m_parsedClasses s)) s) ;;
              mret res
          end
      end
  end.

(** ** The bootstrap *)
Definition SetupSystemClassObject (cl : nat) (name : string) (classClass metaClassClass : nat) : D unit :=
  H ← SOMClass_Create name (Some classClass) [] [] None;
  co ← InstantiateClass metaClassClass;
  i ← the_info metaClassClass;
  check (c_numFields (ci_class i) =? 1) (AssertFailed "metaClassClass->m_numFields == 1") ;;
  set_classObject H co ;;
  o ← InstantiateClass H;
  i ← the_info H;
  check (0 <? c_numFields (ci_class i)) (AssertFailed "H->m_numFields > 0") ;;
  set_classObject cl o ;;
  FinishSOMClassMethodArray H ;;
  FinishSOMClassMethodArray cl.

Fixpoint compile_system_classes (fuel : nat) (names : list string) : D unit :=
  match names with
  | [] => mret tt
  | name :: names' => _ ← SOMCompileFile fuel name true; compile_system_classes fuel names'
  end.

Definition class_object (cl : nat) : D Value :=
  i ← the_info cl; match ci_classObject i with Some o => mret (VObject o) | None => fail bad_class end.

(** The root classes, whose class objects need all three. *)
Definition bootstrap_roots (fuel : nat) : D unit :=
  loaded ← gets m_metaclassClassLoaded;
  check (negb loaded) (AssertFailed "!vm->m_metaclassClassLoaded") ;;
  modify (fun s => with_classes (replicate (length system_classes) None) s) ;;
  objectClass ← SOMCompileFile fuel "Object" true;
  classClass ← SOMCompileFile fuel "Class" true;
  metaClassClass ← SOMCompileFile fuel "Metaclass" true;
  SetupSystemClassObject objectClass "Object class" classClass metaClassClass ;;
  SetupSystemClassObject classClass "Class class" classClass metaClassClass ;;
  SetupSystemClassObject metaClassClass "Metaclass class" classClass metaClassClass ;;
  o ← class_object objectClass; SetSOMGlobal "Object" o ;;
  o ← class_object classClass; SetSOMGlobal "Class" o ;;
  o ← class_object metaClassClass; SetSOMGlobal "Metaclass" o ;;
  modify (with_loaded true).

Definition SOMBootstrapClassHierarchy (fuel : nat) : D (nat * nat) :=
  bootstrap_roots fuel ;;
  compile_system_classes fuel
    ["Array"; "String"; "Boolean"; "Nil"; "True"; "False"; "Integer"; "Double"; "Block"; "Block1"; "Block2"; "Block3"; "Method";
     "Symbol"; "Primitive"]%string ;;
  systemClass ← SOMCompileFile fuel "System" true;
  SetSOMGlobal "true" (VBool true) ;;
  SetSOMGlobal "false" (VBool false) ;;
  SetSOMGlobal "nil" VNil ;;
  systemInstance ← InstantiateClass systemClass;
  SetSOMGlobal "system" (VObject systemInstance) ;;
  mret (systemClass, systemInstance).

(** ** The loaded program *)
Definition empty_class : @SOMClass nat := mk_class [] [] 0 [].
Definition loaded_classes (s : Loader) : Classes :=
  mk_classes (from_option ci_class empty_class <$> ld_classes s)
    (the_system_class "Nil") (the_system_class "True") (the_system_class "False") (the_system_class "Integer")
    (the_system_class "Double") (the_system_class "Block1") (the_system_class "Block2") (the_system_class "Block3")
    (the_system_class "Array") (the_system_class "String") (the_system_class "Symbol").
Definition loaded_program (other : LibFunc -> list Value -> V Value) (s : Loader) : Program :=
  mk_program HashString vm (loaded_classes s) ((fun c => default 0 (c ≫= ci_classObject)) <$> ld_classes s) (ld_arrayObjects s)
    (ld_globalNames s) (ld_units s) bcLength other.

(** [SOMGetMethodFromClass] *)
Definition SOMGetMethodFromClass (cl : nat) (meth : string) : D (option nat) :=
  ord ← intern meth;
  it ← gets ld_interner;
  hash ← lift_result (GetHash ord it);
  i ← the_info cl;
  lift_result (GetMethod (ci_class i) (mk_uniqued (u32 (Z.of_nat ord)) (hash32 hash))).
End loading.
