(* ===== verification/TokenText.v ===== *)
(** * What tokens look like

    The lexer's identifiers begin with a letter and hold no colon, its keywords are an
    identifier and a colon, its operators begin with something other than a letter.
    The parser takes the text of such tokens for selectors, and the compiler counts
    the arguments of a selector by its first letter and its colons. *)
From S2P Require Import Prelude Lexer.
From Stdlib Require Import Ascii.
#[local] Set Default Proof Using "Type".

Definition ident_text (t : chars) : Prop :=
  exists c t', t = c :: t' /\ isalpha c = true /\ Forall (fun c => eqc c ":" = false) t.

Definition is_operator (y : Symbol) : bool :=
  match y with
  | Not | And | Or | Star | Div | Mod | Plus | Minus | Equal | More | Less | Comma | At | Per | OperatorSequence => true
  | _ => false
  end.

(** The texts a token can have, as far as selectors go. *)
Definition text_fits (y : Symbol) (t : chars) : Prop :=
  match y with
  | Identifier | Primitive => ident_text t
  | Keyword => exists t', t = t' ++ [":"%char] /\ ident_text t'
  | _ => is_operator y = true -> exists c t', t = c :: t' /\ isalpha c = false
  end.

Notation sym_of lx := (sym (state lx)).
Notation text_of lx := (text (state lx)).
Definition fits (lx : Lexer) : Prop := text_fits (sym_of lx) (text_of lx).

Lemma wp_char k Q lx : Q (peek_char lx k) lx -> wp any_error (bc_at k) Q lx.
Proof.
  intros HQ. unfold wp, bc_at, char_at, peek_char in *. destruct (buf lx !! (bufp (state lx) + k)) as [c|]; [done|].
  by destruct (_ =? _).
Qed.
Lemma wp_any_true {A} (m : M Lexer A) Q lx : (forall a lx', Q a lx') -> wp any_error m Q lx.
Proof. intros H. unfold wp. by destruct (m lx) as [[a s]|e]. Qed.

Lemma ident_char_not_colon c : isIdentChar c = true -> eqc c ":" = false.
Proof. destruct (eqc c ":") eqn:E; [|done]. apply Ascii.eqb_eq in E as ->. done. Qed.
Lemma alpha_ident c : isalpha c = true -> isIdentChar c = true.
Proof. unfold isIdentChar. by intros ->. Qed.
Lemma op_not_alpha c : _ISOP c = true -> isalpha c = false.
Proof.
  unfold _ISOP. intros H. apply existsb_exists in H as (d & Hd & He). apply Ascii.eqb_eq in He as ->.
  repeat (destruct Hd as [<-|Hd]; [done|]). done.
Qed.

(** ** The loops of the lexer *)
Lemma takeWhile_text p fuel lx :
  wp any_error (takeWhile fuel p) (fun _ lx' => sym_of lx' = sym_of lx /\
    exists t, text_of lx' = text_of lx ++ t /\ Forall (fun c => p c = true) t /\
      (p (peek_char lx 0) = true -> exists t', t = peek_char lx 0 :: t')) lx.
Proof.
  revert lx. induction fuel as [|fuel IH]; intros lx; simpl; apply wp_bind, wp_char;
    (destruct (p (peek_char lx 0)) eqn:Hp; simpl; [|apply wp_ret; split; [done|]; exists []; by rewrite app_nil_r]); [by apply wp_fail|].
  apply wp_bind, wp_set_state, wp_bind, wp_set_state. eapply wp_mono; [apply IH|]. simpl.
  intros _ lx' (Hs & t & Ht & Hall & _). split; [done|]. exists (peek_char lx 0 :: t).
  split_and!; [by rewrite Ht, <-app_assoc|by constructor|by exists t].
Qed.

(** Operations that leave the symbol alone. *)
Definition keeps_sym {A} (m : M Lexer A) : Prop := forall lx, wp any_error m (fun _ lx' => sym_of lx' = sym_of lx) lx.

Lemma keepsym_bind {A B} (m : M Lexer A) (f : A -> M Lexer B) : keeps_sym m -> (forall a, keeps_sym (f a)) -> keeps_sym (m ≫= f).
Proof. intros Hm Hf lx. apply wp_bind. eapply wp_mono; [apply Hm|]. intros a lx1 <-. apply Hf. Qed.
Lemma keepsym_ret {A} (a : A) : keeps_sym (mret a).
Proof. intros lx. by apply wp_ret. Qed.
Lemma keepsym_fail {A} e : keeps_sym (fail e : M Lexer A).
Proof. intros lx. by apply wp_fail. Qed.
Lemma keepsym_gets {A} (f : Lexer -> A) : keeps_sym (gets f).
Proof. intros lx. by apply wp_gets. Qed.
Lemma keeps_bc k : keeps_sym (bc_at k).
Proof. intros lx. by apply wp_char. Qed.
Lemma keeps_state f : (forall s, sym (f s) = sym s) -> keeps_sym (set_state f).
Proof. intros Hf lx. apply wp_set_state. apply Hf. Qed.
Lemma keeps_if {A} (b : bool) (m1 m2 : M Lexer A) : keeps_sym m1 -> keeps_sym m2 -> keeps_sym (if b then m1 else m2).
Proof. by destruct b. Qed.
Lemma keepsym_check b e : keeps_sym (check b e).
Proof. destruct b; [apply keepsym_ret|apply keepsym_fail]. Qed.
Lemma keeps_fillBuffer : keeps_sym fillBuffer.
Proof. intros lx. unfold wp, fillBuffer. destruct (negb _); [done|]. by destruct (getline _). Qed.

Ltac keeps_auto :=
  repeat first [assumption | apply keepsym_bind; [|intros ?] | apply keepsym_ret | apply keepsym_fail | apply keepsym_gets | apply keeps_bc
               | apply keeps_state; done | apply keepsym_check | apply keeps_fillBuffer | apply keeps_if].

Lemma keeps_fillWhileEOB_newline fuel : keeps_sym (fillWhileEOB_newline fuel).
Proof. induction fuel; simpl; unfold EOB, append_text; keeps_auto. Qed.
Lemma keeps_lexStringChar : keeps_sym lexStringChar.
Proof.
  unfold lexStringChar, lexEscapeChar, _BC, incPtr, append_text, EOB. keeps_auto.
  match goal with |- context [escape_char ?c] => destruct (escape_char c) end; keeps_auto.
Qed.
Lemma keeps_lexStringLoop fuel : keeps_sym (lexStringLoop fuel).
Proof.
  pose proof keeps_lexStringChar. induction fuel as [|fuel IH]; simpl; unfold _BC; keeps_auto; apply keeps_fillWhileEOB_newline.
Qed.

Lemma lexNumberLoop_sym fuel saw lx :
  sym_of lx = Integer \/ sym_of lx = Double ->
  wp any_error (lexNumberLoop fuel saw) (fun _ lx' => sym_of lx' = Integer \/ sym_of lx' = Double) lx.
Proof.
  revert saw lx. induction fuel as [|fuel IH]; intros saw lx Hs; [by apply wp_fail|]. simpl.
  apply wp_bind, wp_char, wp_bind, wp_set_state, wp_bind, wp_set_state, wp_bind.
  eapply (wp_mono _ _ (fun _ lx' => sym_of lx' = Integer \/ sym_of lx' = Double)).
  - destruct saw; [by apply wp_ret|]. apply wp_bind, wp_char. destruct (negb _); [by apply wp_ret|].
    apply wp_bind, wp_get. destruct (negb _); [by apply wp_ret|]. apply wp_bind, wp_char.
    destruct (isdigit _); [|by apply wp_ret].
    apply wp_bind, wp_set_state, wp_bind, wp_set_state, wp_bind, wp_set_state, wp_ret. by right.
  - intros a lx1 H1. apply wp_bind, wp_char. destruct (isdigit _); [by apply IH|by apply wp_ret].
Qed.

(** ** One token *)
Lemma fits_other y t : is_operator y = false -> y <> Identifier -> y <> Primitive -> y <> Keyword -> text_fits y t.
Proof. by destruct y. Qed.

Lemma take_single_fits y lx :
  text_fits y [peek_char lx 0] -> wp any_error (take_single y) (fun _ lx' => fits lx') lx.
Proof. intros H. apply wp_bind, wp_char. do 3 apply wp_bind, wp_set_state. by apply wp_set_state. Qed.

Lemma single_op_operator c y : single_op c = Some y -> is_operator y = true /\ isalpha c = false.
Proof.
  unfold single_op. repeat (match goal with |- context [eqc c ?d] => destruct (eqc c d) eqn:? end;
    [intros [= <-]; split; [done|]; match goal with H : eqc _ _ = true |- _ => apply Ascii.eqb_eq in H as ->; done end|]).
  done.
Qed.

Lemma operator_fits y c t : is_operator y = true -> isalpha c = false -> text_fits y (c :: t).
Proof. intros Hy Hc. destruct y; try done; intros _; by exists c, t. Qed.

Lemma lexOperator_fits fuel lx :
  _ISOP (peek_char lx 0) = true -> wp any_error (lexOperator fuel) (fun _ lx' => fits lx') lx.
Proof.
  intros Hop. apply wp_bind, wp_char. destruct (_ISOP (peek_char lx 1)).
  - do 3 apply wp_bind, wp_set_state. eapply wp_mono; [apply takeWhile_text|].
    intros _ lx' (Hs & t & Ht & _ & Hne). destruct (Hne Hop) as (t' & ->). unfold fits. rewrite Hs, Ht. simpl.
    intros _. eexists _, _. split; [reflexivity|]. by apply op_not_alpha.
  - apply wp_bind, wp_char. destruct (ISOP_single _ Hop) as [y Hy]. rewrite Hy.
    apply take_single_fits. apply single_op_operator in Hy as [? ?]. by apply operator_fits.
Qed.

Lemma lexIdentifier_fits fuel lx :
  isalpha (peek_char lx 0) = true -> wp any_error (lexIdentifier fuel) (fun _ lx' => fits lx') lx.
Proof.
  intros Ha. do 2 apply wp_bind, wp_set_state. apply wp_bind. eapply wp_mono; [apply takeWhile_text|]. simpl.
  intros _ lx1 (_ & t & Ht & Hall & Hne). specialize (Hne (alpha_ident _ Ha)) as (t' & Hne).
  assert (Hid : ident_text (text_of lx1)).
  { rewrite Ht, Hne. eexists _, _. split; [reflexivity|]. split; [exact Ha|]. rewrite <-Hne.
    eapply Forall_impl; [exact Hall|]. intros c. apply ident_char_not_colon. }
  apply wp_bind, wp_set_state, wp_bind, wp_char. destruct (eqc _ ":"); [|by apply wp_ret].
  do 3 apply wp_bind, wp_set_state. apply wp_bind, wp_char.
  match goal with |- context [if isalpha ?c then _ else _] => destruct (isalpha c) end.
  - apply wp_bind, wp_set_state. eapply wp_mono; [apply takeWhile_text|]. intros _ lx' (Hs & _). unfold fits. by rewrite Hs.
  - apply wp_ret. by eexists.
Qed.

Lemma lexMinus_fits fuel lx :
  _ISOP (peek_char lx 0) = true -> wp any_error (lexMinus fuel) (fun _ lx' => fits lx') lx.
Proof.
  intros Hop. apply wp_bind, wp_gets. case_bool_decide; [|by apply lexOperator_fits].
  apply wp_bind, wp_set_state, wp_bind, wp_any_true. intros _ lx1. apply wp_set_state. by intros.
Qed.

(** Looking for [primitive] moves nothing. *)
Lemma wp_nextWord (Q : bool -> Lexer -> Prop) lx : (forall b, Q b lx) -> wp any_error nextWordInBufferIsPrimitive Q lx.
Proof.
  intros HQ. apply wp_bind, wp_gets. destruct (negb _); [by apply wp_ret|]. apply wp_bind, wp_get.
  destruct (_ <=? _); [by apply wp_ret|]. apply wp_bind, wp_char. by apply wp_ret.
Qed.

Lemma lexToken_fits fuel lx : wp any_error (lexToken fuel) (fun _ lx' => fits lx') lx.
Proof.
  unfold lexToken. apply wp_bind, wp_char. set (c := peek_char lx 0).
  destruct (eqc c c_apos).
  { do 4 apply wp_bind, wp_set_state. apply wp_bind. eapply wp_mono; [apply keeps_lexStringLoop|]. simpl.
    intros b lx1 Hs. destruct b; [apply wp_set_state|apply wp_ret]; unfold fits; simpl; by rewrite Hs. }
  repeat match goal with
  | |- context [eqc c ?d] => destruct (eqc c d) eqn:?; [first [by apply take_single_fits, fits_other | idtac]|]
  end.
  - apply wp_bind, wp_char. destruct (eqc _ "="); do 3 apply wp_bind, wp_set_state; by apply wp_set_state.
  - apply lexMinus_fits. match goal with H : eqc c "-" = true |- _ => apply Ascii.eqb_eq in H; subst c; by rewrite H end.
  - destruct (_ISOP c) eqn:Hop; [by apply lexOperator_fits|].
    apply wp_bind, wp_nextWord. intros [].
    + do 3 apply wp_bind, wp_set_state. apply wp_set_state. eexists _, _. split; [reflexivity|]. split; [done|].
      repeat constructor.
    + destruct (isalpha c) eqn:Ha; [by apply lexIdentifier_fits|]. destruct (isdigit c).
      * do 3 apply wp_bind, wp_set_state. eapply wp_mono; [apply lexNumberLoop_sym; by left|].
        intros _ lx' [Hs|Hs]; unfold fits; by rewrite Hs.
      * do 2 apply wp_bind, wp_set_state. by apply wp_set_state.
Qed.

(** ** The token stream: a peeked token fits as well. *)
Definition peeked_fits (lx : Lexer) : Prop :=
  peekDone lx = true -> text_fits (sym (stateAfterPeek lx)) (text (stateAfterPeek lx)).

Lemma GetSym_fits lx : lexer_wf lx -> peeked_fits lx ->
  wp any_error GetSym (fun y lx' => lexer_wf lx' /\ peeked_fits lx' /\ text_fits y (GetText lx')) lx.
Proof.
  intros Hwf Hpk. eapply wp_mono.
  { apply (wp_conj _ _ (GetSym_post lx) (fun y lx' => text_fits y (GetText lx'))).
    - eapply wp_error_mono; [|by apply GetSym_spec]. done.
    - apply wp_GetSym. unfold GetSym_fuel. apply wp_bind, wp_get. destruct (peekDone lx) eqn:Hp.
      + apply wp_bind, wp_put, wp_ret. simpl. exact (Hpk Hp).
      + apply wp_bind, wp_any_true. intros [] lx1; simpl.
        * apply wp_bind, wp_set_state, wp_bind. eapply wp_mono; [apply lexToken_fits|].
          intros u lx2 Hf. apply wp_gets. exact Hf.
        * do 3 apply wp_bind, wp_set_state. by apply wp_ret. }
  intros y lx' [(Hwf' & Hp' & _) Hf]. split_and!; [done| |done]. intros Hp. congruence.
Qed.

Lemma Peek_fits lx : lexer_wf lx -> peekDone lx = false ->
  wp any_error Lexer.Peek (fun _ lx' => lexer_wf lx' /\ peeked_fits lx') lx.
Proof.
  intros Hwf Hpk. pose proof (Peek_spec lx Hwf Hpk) as Hs.
  assert (Hg : peeked_fits lx) by (intros Hp; congruence).
  pose proof (GetSym_fits lx Hwf Hg) as Hf. pose proof (GetSym_spec lx Hwf) as Hy. unfold wp, Lexer.Peek in *. rewrite Hpk in *.
  destruct (GetSym lx) as [[y lx1]|e]; [|done]. destruct Hs as (Hwf' & _). destruct Hf as (_ & _ & Hfit).
  destruct Hy as (_ & _ & -> & _). split; [done|]. intros _. exact Hfit.
Qed.
