(* ===== verification/ParserWf.v ===== *)
(** * What the parser returns is well formed

    Every tree [ParseClass] returns is one the compiler accepts: the selectors of its
    calls are interned and have as many arguments as their names ask for, [^] stands
    only at the head of a statement, literal arrays hold literals, and each method has
    as many parameters as its selector.  Proved against two interfaces: token sources
    whose texts fit their symbols ([TokenTextLaws], the lexer's by [TokenText.v]) and
    worlds that hold an interner ([InternerWorld]). *)
From S2P Require Import Prelude Interner VmSelectors Lexer CNumbers Ast AstWf Parser ParserTotal TokenText.
From Stdlib Require Import Ascii.
From Stdlib Require String.
#[local] Set Default Proof Using "Type".

(** ** Interfaces *)
Class TokenTextLaws (L : Type) `{!TokenSource L} `{!TokenSourceLaws L} := {
  ts_text_wf : L -> Prop;
  ts_GetSym_text lx : ts_text_wf lx ->
    wp ts_error ts_GetSym (fun y lx' => ts_text_wf lx' /\ text_fits y (list_ascii_of_string (ts_GetText lx'))) lx;
  ts_Peek_text lx : ts_text_wf lx -> ts_GetPeekDone lx = false -> wp ts_error ts_Peek (fun _ lx' => ts_text_wf lx') lx
}.

#[export] Instance lexer_text_laws : TokenTextLaws Lexer.
Proof.
  refine {| ts_text_wf lx := lexer_wf lx /\ peeked_fits lx |}.
  - intros lx [Hwf Hp]. eapply wp_mono.
    { apply wp_conj; [by apply (ts_GetSym_spec lx)|]. pose proof (GetSym_fits lx Hwf Hp) as Hf.
      pose proof (GetSym_spec lx Hwf) as Hs. unfold wp in *. simpl. destruct (GetSym lx) as [[y lx']|e]; [|done]. exact Hf. }
    intros y lx' (_ & Hwf' & Hp' & Ht). simpl. by rewrite String.list_ascii_of_string_of_list_ascii.
  - intros lx [Hwf _] Hp. pose proof (Peek_fits lx Hwf Hp) as Hf. pose proof (Peek_spec lx Hwf Hp) as Hs.
    unfold wp in *. simpl in *. by destruct (Lexer.Peek lx) as [[y lx']|e].
Defined.

Class InternerWorld (HashString : string -> Z) (W : Type) `{!ParserWorld W} := {
  iw_interner : W -> StringInterner;
  iw_wf : W -> Prop;
  iw_le : W -> W -> Prop;
  #[global] iw_le_preorder :: PreOrder iw_le;
  iw_wf_interner w : iw_wf w -> interner_wf HashString (iw_interner w);
  iw_le_interner w w' : iw_le w w' -> interner_le (iw_interner w) (iw_interner w');
  iw_Intern s w : iw_wf w ->
    iw_wf (w_InternString s w).2 /\ iw_le w (w_InternString s w).2 /\
    Interner.Get (w_InternString s w).1 (iw_interner (w_InternString s w).2) = Ok s;
  iw_Get ord w : w_Get ord w = Interner.Get ord (iw_interner w)
}.

(** ** Well-formedness in later interners *)
Lemma call_ok_le it it' sel n : interner_le it it' -> call_ok it sel n = true -> call_ok it' sel n = true.
Proof.
  unfold call_ok. intros Hle. destruct (Get sel it) as [name|] eqn:E; [|done].
  apply Get_Ok_lookup in E as [h Hh]. by rewrite (Get_lookup _ _ h _ (interner_le_lookup _ _ _ _ Hle Hh)).
Qed.

Lemma literal_wf it e : literal_tree e = true -> wf_expr it e = true.
Proof. by destruct e. Qed.

Lemma wf_stmt_le it it' : interner_le it it' -> forall e, wf_stmt it e = true -> wf_stmt it' e = true.
Proof.
  intros Hle. assert (H : forall e, (wf_expr it e = true -> wf_expr it' e = true) /\ (wf_stmt it e = true -> wf_stmt it' e = true)).
  2: { intros e. apply H. }
  assert (Hsame : forall e, (forall r, e <> AstReturn r) -> (wf_expr it e = true -> wf_expr it' e = true) ->
    (wf_expr it e = true -> wf_expr it' e = true) /\ (wf_stmt it e = true -> wf_stmt it' e = true)).
  { intros e Hr H. split; [done|]. destruct e; try done. by destruct (Hr e). }
  induction e using AstExpr_nested_ind; try (apply Hsame; [done|]); try done.
  - rewrite !wf_block. unfold wf_body. rewrite !forallb_forall. intros Hall e' Hin. rewrite List.Forall_forall in H.
    apply H; [done|]. by apply Hall.
  - simpl. apply IHe.
  - split; [done|]. apply IHe.
  - simpl. rewrite !andb_true_iff. intros [H1 H2]. split; [by eapply call_ok_le|by apply IHe].
  - simpl. rewrite !andb_true_iff. intros [[H1 H2] H3].
    split_and!; [by eapply call_ok_le|by apply IHe1|by apply IHe2].
  - rewrite !wf_keyword, !andb_true_iff, !forallb_forall. intros [[H1 H2] H3].
    split_and!; [by eapply call_ok_le|by apply IHe|]. intros e' Hin. rewrite List.Forall_forall in H. apply H; auto.
Qed.

Lemma wf_expr_stmt it e : wf_expr it e = true -> wf_stmt it e = true.
Proof. by destruct e. Qed.
Lemma wf_expr_le it it' e : interner_le it it' -> wf_expr it e = true -> wf_expr it' e = true.
Proof.
  intros Hle H. assert (forall e', e = e' -> wf_stmt it' e' = true) as Hs.
  { intros ? <-. eapply wf_stmt_le; [exact Hle|]. by apply wf_expr_stmt. }
  specialize (Hs _ eq_refl). destruct e; try done.
Qed.
Lemma wf_exprs_le it it' es : interner_le it it' -> forallb (wf_expr it) es = true -> forallb (wf_expr it') es = true.
Proof. rewrite !forallb_forall. intros Hle H e He. eapply wf_expr_le; [exact Hle|]. by apply H. Qed.
Lemma wf_body_le it it' es : interner_le it it' -> wf_body it es = true -> wf_body it' es = true.
Proof. unfold wf_body. rewrite !forallb_forall. intros Hle H e He. eapply wf_stmt_le; [exact Hle|]. by apply H. Qed.

(** A method with as many parameters as its selector asks for. *)
Definition method_ok (it : StringInterner) (m : AstMethod) : bool :=
  wf_method it m && call_ok it (m_selectorName m) (length (am_params m)).
Definition class_ok {C} (it : StringInterner) (c : AstClass C) : bool :=
  forallb (method_ok it) (m_instanceMethods c) && forallb (method_ok it) (m_classMethods c).

Lemma methods_ok_le it it' ms : interner_le it it' -> forallb (method_ok it) ms = true -> forallb (method_ok it') ms = true.
Proof.
  rewrite !forallb_forall. intros Hle H m Hm. specialize (H m Hm). unfold method_ok in *.
  apply andb_true_iff in H as [H1 H2]. apply andb_true_iff. split; [by eapply wf_body_le|by eapply call_ok_le].
Qed.

(** ** Arities of the names *)
Definition starts_with_letter (s : string) : Prop :=
  match s with String.String c _ => isalpha c = true | String.EmptyString => False end.
Definition keyword_name (n : nat) (s : string) : Prop := starts_with_letter s /\ colons s = n.

Lemma colons_app a b : colons (a +:+ b) = colons a + colons b.
Proof. induction a as [|c a IH]; simpl; [done|]. rewrite IH. lia. Qed.
Lemma keyword_name_app n m a b : keyword_name n a -> keyword_name m b -> keyword_name (n + m) (a +:+ b).
Proof. intros [Ha <-] [_ <-]. split; [by destruct a|apply colons_app]. Qed.
Lemma keyword_name_arity n s : keyword_name n s -> selector_arity s = n.
Proof. intros [Hs <-]. unfold selector_arity. destruct s as [|c s]; [done|]. simpl in Hs. by rewrite Hs. Qed.

Lemma colons_list t : Forall (fun c => eqc c ":" = false) t -> colons (string_of_list_ascii t) = 0.
Proof. induction 1 as [|c t Hc _ IH]; simpl; [done|]. by rewrite Hc, IH. Qed.
Lemma ident_text_name s : ident_text (list_ascii_of_string s) -> keyword_name 0 s.
Proof.
  intros (c & t & Hs & Hc & Hall). rewrite <-(String.string_of_list_ascii_of_string s). rewrite Hs in *.
  split; [done|]. by apply colons_list.
Qed.
Lemma keyword_text_name s : text_fits Keyword (list_ascii_of_string s) -> keyword_name 1 s.
Proof.
  intros (t & Hs & c & t' & -> & Hc & Hall). rewrite <-(String.string_of_list_ascii_of_string s), Hs. split; [done|].
  clear Hs. induction (c :: t') as [|d l IH]; [done|]. simpl. inversion Hall as [|? ? Hd Hl]; subst. by rewrite Hd, IH.
Qed.
Lemma operator_text_arity y s : is_operator y = true -> text_fits y (list_ascii_of_string s) -> selector_arity s = 1.
Proof.
  intros Hy Ht. assert (exists c t', list_ascii_of_string s = c :: t' /\ isalpha c = false) as (c & t & Hs & Hc).
  { destruct y; try done; by apply Ht. }
  destruct s as [|d s]; [done|]. injection Hs as -> _. simpl. by rewrite Hc.
Qed.

(** ** The pass over the parser

    [gives C it0 m R]: from a state whose current token satisfies [C] and whose interner
    extends [it0], [m] keeps the invariant, only adds to the world, and returns a
    value for which [R] holds of the interner then. *)
Section gives.
Context {L W : Type} `{!TokenSource L} `{!TokenSourceLaws L} `{!TokenTextLaws L} `{!ParserWorld W}
  (HashString : string -> Z) `{!InternerWorld HashString W} (m_fileName : string) (X : error -> Prop).
Notation P := (Parser L W).

Definition ends (e : error) : Prop := e = OutOfFuel \/ stops (L := L) X e.

Record parser_inv (p : P) : Prop := {
  pi_lexer : ts_text_wf (m_lexer p);
  pi_text : text_fits (m_curSym p) (list_ascii_of_string (m_curText p));
  pi_world : iw_wf (m_world p)
}.
Notation it_of p := (iw_interner (HashString := HashString) (m_world p)).
Notation w_le := (iw_le (HashString := HashString)).

Definition gives (C : Symbol -> string -> Prop) (it0 : StringInterner) {A} (m : M P A) (R : StringInterner -> A -> Prop) : Prop :=
  forall p, parser_inv p -> interner_le it0 (it_of p) -> C (m_curSym p) (m_curText p) ->
  wp ends m (fun a p' => parser_inv p' /\ w_le (m_world p) (m_world p') /\ R (it_of p') a) p.
Definition always : Symbol -> string -> Prop := fun _ _ => True.
Definition anything {A} : StringInterner -> A -> Prop := fun _ _ => True.

Lemma gives_mono (C C' : Symbol -> string -> Prop) it0 {A} (m : M P A) (R R' : StringInterner -> A -> Prop) :
  (forall y t, C' y t -> C y t) -> (forall it a, interner_le it0 it -> R it a -> R' it a) -> gives C it0 m R -> gives C' it0 m R'.
Proof.
  intros HC HR Hm p Hp Hle Hc. eapply wp_mono; [apply Hm; auto|]. intros a p' (Hi & Hl & Ha). split_and!; [done..|].
  apply HR; [|done]. etrans; [exact Hle|]. by apply iw_le_interner.
Qed.
Lemma gives_always C it0 {A} (m : M P A) R : gives always it0 m R -> gives C it0 m R.
Proof. by apply gives_mono. Qed.

Lemma gives_weaken C it0 {A} (m : M P A) (R R' : StringInterner -> A -> Prop) :
  (forall it a, R it a -> R' it a) -> gives C it0 m R -> gives C it0 m R'.
Proof. intros HR. apply gives_mono; auto. Qed.

Lemma gives_at (C C' : Symbol -> string -> Prop) it0 {A} (m : M P A) R :
  (forall y t, C' y t -> C y t) -> gives C it0 m R -> gives C' it0 m R.
Proof. intros HC. by apply gives_mono. Qed.

Lemma gives_bind C it0 {A B} (m : M P A) (f : A -> M P B) R R' :
  gives C it0 m R -> (forall a it, interner_le it0 it -> R it a -> gives always it (f a) R') -> gives C it0 (m ≫= f) R'.
Proof.
  intros Hm Hf p Hp Hle Hc. apply wp_bind. eapply wp_mono; [by apply Hm|]. intros a p1 (Hi & Hl & Ha).
  eapply wp_mono; [apply (Hf a (it_of p1)); [|done..]|].
  { etrans; [exact Hle|]. by apply iw_le_interner. }
  intros b p' (Hi' & Hl' & Hb). split_and!; [done| |done]. by etrans.
Qed.

Lemma gives_ret C it0 {A} (a : A) (R : StringInterner -> A -> Prop) :
  (forall it, interner_le it0 it -> R it a) -> gives C it0 (mret a) R.
Proof. intros HR p Hp Hle _. apply wp_ret. split_and!; [done|done|]. by apply HR. Qed.
Lemma gives_ret_bind C it0 {A B} (a : A) (f : A -> M P B) R : gives C it0 (f a) R -> gives C it0 (mret a ≫= f) R.
Proof. done. Qed.
Lemma gives_fail C it0 {A} e (R : StringInterner -> A -> Prop) : ends e -> gives C it0 (fail e : M P A) R.
Proof. intros He p _ _ _. by apply wp_fail. Qed.
Lemma gives_fuel C it0 {A} (R : StringInterner -> A -> Prop) : gives C it0 (fail OutOfFuel : M P A) R.
Proof. apply gives_fail. by left. Qed.
Lemma gives_if C it0 {A} (b : bool) (m1 m2 : M P A) R :
  (b = true -> gives C it0 m1 R) -> (b = false -> gives C it0 m2 R) -> gives C it0 (if b then m1 else m2) R.
Proof. destruct b; auto. Qed.

(** A test of the current token tells what follows about it. *)
Lemma gives_gets C it0 {A B} (g : P -> A) (f : A -> M P B) R :
  (forall p0, gives (fun y t => C y t /\ y = m_curSym p0 /\ t = m_curText p0) it0 (f (g p0)) R) -> gives C it0 (gets g ≫= f) R.
Proof. intros Hf p Hp Hle Hc. apply wp_bind, wp_gets. by apply (Hf p). Qed.
Lemma gives_cur_is C it0 {B} y (f : bool -> M P B) R :
  (forall b, gives (fun y' t => C y' t /\ b = bool_decide (y' = y)) it0 (f b) R) -> gives C it0 (cur_is y ≫= f) R.
Proof. intros Hf p Hp Hle Hc. apply wp_bind, wp_gets. by apply (Hf _ p). Qed.
Lemma gives_IsOneOf C it0 {B} ss (f : bool -> M P B) R :
  (forall b, gives (fun y t => C y t /\ b = in_symbols ss y) it0 (f b) R) -> gives C it0 (IsOneOf ss ≫= f) R.
Proof. intros Hf p Hp Hle Hc. apply wp_bind, wp_gets. by apply (Hf _ p). Qed.
Lemma gives_cur_operator C it0 {B} ss (f : bool -> M P B) R :
  (forall b, gives (fun y t => C y t /\ b = bool_decide (y = OperatorSequence) || in_symbols ss y) it0 (f b) R) ->
  gives C it0 (cur_operator ss ≫= f) R.
Proof.
  intros Hf p Hp Hle Hc. apply wp_bind, wp_bind, wp_gets.
  destruct (bool_decide (m_curSym p = OperatorSequence)) eqn:E; [apply wp_ret|apply wp_gets];
    apply (Hf _ p); try done; by rewrite E.
Qed.
Lemma gives_curSym C it0 {B} (f : Symbol -> M P B) R :
  (forall y, gives (fun y' t => C y' t /\ y' = y) it0 (f y) R) -> gives C it0 (the_curSym ≫= f) R.
Proof. intros Hf p Hp Hle Hc. apply wp_bind, wp_gets. by apply (Hf _ p). Qed.
Lemma gives_curText C it0 {B} (f : string -> M P B) R :
  (forall s, gives (fun y t => C y t /\ t = s) it0 (f s) R) -> gives C it0 (the_curText ≫= f) R.
Proof. intros Hf p Hp Hle Hc. apply wp_bind, wp_gets. by apply (Hf _ p). Qed.

(** The parser's own operations *)
Lemma wp_text_Eat p : parser_inv p -> wp ends Eat (fun _ p' => parser_inv p' /\ m_world p' = m_world p) p.
Proof.
  intros [Hl Ht Hw]. pose proof (ts_GetSym_text _ Hl) as H. unfold wp, Eat in *.
  destruct (ts_GetSym (m_lexer p)) as [[y lx]|e]; [|by right; left]. destruct H as [Hl' Ht']. by repeat split.
Qed.
Lemma gives_Eat C it0 : gives C it0 Eat anything.
Proof.
  intros p Hp Hle _. eapply wp_mono; [by apply wp_text_Eat|]. intros u p' [Hi Hw]. by rewrite Hw.
Qed.
Lemma gives_Peek C it0 : gives C it0 Parser.Peek anything.
Proof.
  intros p Hp Hle _. unfold wp, Parser.Peek. destruct (ts_GetPeekDone (m_lexer p)) eqn:E; [done|]. simpl.
  destruct Hp as [Hl Ht Hw]. pose proof (ts_Peek_text _ Hl E) as H. unfold wp in H.
  destruct (ts_Peek (m_lexer p)) as [[y lx]|e]; [done|by right; left].
Qed.
Lemma gives_Intern C it0 {B} s (f : nat -> M P B) R :
  (forall ord it, interner_le it0 it -> Get ord it = Ok s -> gives C it (f ord) R) -> gives C it0 (InternString_p s ≫= f) R.
Proof.
  intros Hf p [Hl Ht Hw] Hle Hc. apply wp_bind. unfold wp at 1, InternString_p.
  destruct (iw_Intern s (m_world p) Hw) as (H1 & H2 & H3). destruct (w_InternString s (m_world p)) as [ord w]. simpl in *.
  eapply wp_mono; [eapply (Hf ord); [|exact H3|by split|reflexivity|exact Hc]|].
  { etrans; [exact Hle|]. by apply iw_le_interner. }
  intros b p' (Hi & Hl' & HR). split_and!; [done| |done]. etrans; [exact H2|exact Hl'].
Qed.

(** An accepted token's text fits its symbol. *)
Lemma gives_eat_when C it0 {B} (g : Symbol -> bool) (m : M P bool) (f : bool -> M P B) R :
  (forall p, m p = (b ← gets (fun p => g (m_curSym p)); if (b : bool) then Eat ;; mret true else mret false) p) ->
  (forall y t, g y = true -> C y t -> text_fits y (list_ascii_of_string t) -> gives always it0 (f true) R) ->
  gives (fun y t => C y t /\ g y = false) it0 (f false) R ->
  gives C it0 (m ≫= f) R.
Proof.
  intros Hm Ht Hf p Hp Hle Hc. apply wp_bind. unfold wp at 1. rewrite Hm.
  change (wp ends (b ← gets (fun p => g (m_curSym p)); if (b : bool) then Eat ;; mret true else mret false)
    (fun a => wp ends (f a) (fun a p' => parser_inv p' /\ w_le (m_world p) (m_world p') /\ R (it_of p') a)) p).
  apply wp_bind, wp_gets. destruct (g (m_curSym p)) eqn:Hg; [|apply wp_ret; by apply Hf].
  apply wp_bind. eapply wp_mono; [by apply wp_text_Eat|]. intros u p1 [Hi Hw]. apply wp_ret.
  specialize (Ht _ _ Hg Hc (pi_text _ Hp) p1 Hi). rewrite Hw in Ht. by apply Ht.
Qed.
Lemma gives_Accept C it0 {B} y (f : bool -> M P B) R :
  (forall t, C y t -> text_fits y (list_ascii_of_string t) -> gives always it0 (f true) R) ->
  gives (fun y' t => C y' t /\ y' <> y) it0 (f false) R ->
  gives C it0 (Accept y ≫= f) R.
Proof.
  intros Ht Hf. apply (gives_eat_when _ _ (fun y' => bool_decide (y' = y))); [done| |].
  - intros y' t ->%bool_decide_eq_true. apply Ht.
  - eapply gives_mono; [|done|exact Hf]. intros y' t [Hc Hne%bool_decide_eq_false]. done.
Qed.
Lemma gives_AcceptOneOf C it0 {B} ss (f : bool -> M P B) R :
  (forall y t, in_symbols ss y = true -> C y t -> text_fits y (list_ascii_of_string t) -> gives always it0 (f true) R) ->
  gives (fun y t => C y t /\ in_symbols ss y = false) it0 (f false) R ->
  gives C it0 (AcceptOneOf ss ≫= f) R.
Proof. by apply gives_eat_when. Qed.

Lemma gives_stops C it0 {A} (m : M P A) (R : StringInterner -> A -> Prop) :
  (forall p, wp (stops (L := L) X) m (fun _ _ => False) p) -> gives C it0 m R.
Proof. intros Hm p _ _ _. specialize (Hm p). unfold wp in *. destruct (m p) as [[a p']|e]; [done|by right]. Qed.
Lemma wp_ParseError {A} msg ex p : wp (stops (L := L) X) (ParseError m_fileName msg ex : M P A) (fun _ _ => False) p.
Proof.
  unfold wp, ParseError, ParseError_message. pose proof (symname_stops (L := L) X (m_curSym p)).
  destruct (symname _); simpl; [|done]. right. left. left. eauto.
Qed.
Lemma gives_ParseError C it0 {A} msg ex (R : StringInterner -> A -> Prop) : gives C it0 (ParseError m_fileName msg ex : M P A) R.
Proof. apply gives_stops, wp_ParseError. Qed.
Lemma gives_ParseError_bind C it0 {A B} msg ex (f : A -> M P B) R : gives C it0 (ParseError m_fileName msg ex ≫= f) R.
Proof. apply gives_stops. intros p. apply wp_bind. eapply wp_mono; [apply wp_ParseError|done]. Qed.

Lemma gives_Expect C it0 {B} y (f : unit -> M P B) R :
  (forall t, C y t -> text_fits y (list_ascii_of_string t) -> gives always it0 (f tt) R) -> gives C it0 (Expect m_fileName y ≫= f) R.
Proof.
  intros Hf. assert (Hassoc : forall p, wp ends (Accept y ≫= (fun b : bool =>
      (if b then mret tt else ParseError_sym m_fileName "Unexpected symbol. Expected %(expected)s, but found %(found)s
" y) ≫= f)) (fun a p' => parser_inv p' /\ w_le (m_world p) (m_world p') /\ R (it_of p') a) p ->
    wp ends (Expect m_fileName y ≫= f) (fun a p' => parser_inv p' /\ w_le (m_world p) (m_world p') /\ R (it_of p') a) p).
  { intros p Hp. apply wp_bind, wp_bind. eapply wp_mono; [apply wp_bind_inv, Hp|]. intros b p1. apply wp_bind_inv. }
  intros p Hp Hle Hc. apply Hassoc. revert p Hp Hle Hc.
  change (gives C it0 (Accept y ≫= (fun b : bool => (if b then mret tt else ParseError_sym m_fileName "Unexpected symbol. Expected %(expected)s, but found %(found)s
" y) ≫= f)) R).
  apply gives_Accept; [exact Hf|]. apply gives_stops. intros p. apply wp_bind. unfold ParseError_sym. apply wp_bind, wp_lift_result.
  pose proof (symname_stops (L := L) X y). destruct (symname y); [|done]. eapply wp_mono; [apply wp_ParseError|done].
Qed.
Lemma gives_ExpectOneOf C it0 {B} ss (f : unit -> M P B) R :
  (forall y t, in_symbols ss y = true -> C y t -> text_fits y (list_ascii_of_string t) -> gives always it0 (f tt) R) ->
  gives C it0 (ExpectOneOf m_fileName ss ≫= f) R.
Proof.
  intros Hf p Hp Hle Hc. unfold ExpectOneOf. apply wp_bind, wp_bind.
  pose proof (gives_AcceptOneOf C it0 ss (fun b : bool => (if b then mret tt else
    expectedStr ← lift_result (join_symnames true ss);
    ParseError m_fileName "Unexpected symbol. Expected one of %(expected)s, but found %(found)s
" expectedStr) ≫= f) R) as Hg.
  eapply wp_mono; [apply wp_bind_inv; apply Hg; [exact Hf| |done..]|].
  2: { intros b p1. apply wp_bind_inv. }
  apply gives_stops. clear. intros p. apply wp_bind, wp_bind, wp_lift_result.
  assert (Hs : forall first, match join_symnames first ss with Ok _ => True | Err e => stops (L := L) X e end).
  { induction ss as [|y ss' IH]; intros first; simpl; [done|]. case_bool_decide; [done|].
    pose proof (symname_stops (L := L) X y). destruct (symname y); simpl; [|done]. specialize (IH false).
    by destruct (join_symnames false ss'). }
  specialize (Hs true). destruct (join_symnames true ss); [|done]. eapply wp_mono; [apply wp_ParseError|done].
Qed.
End gives.

(** ** Automation: one rule per bind; hypotheses on earlier interners are brought forward *)
Create HintDb gives.
#[export] Hint Resolve gives_Peek gives_ParseError gives_fuel : gives.

Ltac forward_le it Hle :=
  repeat match goal with
  | H : call_ok ?i _ _ = true |- _ => lazymatch i with it => fail | _ => apply (call_ok_le i it _ _ Hle) in H end
  | H : wf_expr ?i _ = true |- _ => lazymatch i with it => fail | _ => apply (wf_expr_le i it _ Hle) in H end
  | H : forallb (wf_expr ?i) _ = true |- _ => lazymatch i with it => fail | _ => apply (wf_exprs_le i it _ Hle) in H end
  | H : wf_body ?i _ = true |- _ => lazymatch i with it => fail | _ => apply (wf_body_le i it _ Hle) in H end
  | H : forallb (method_ok ?i) _ = true |- _ => lazymatch i with it => fail | _ => apply (methods_ok_le i it _ Hle) in H end
  end.
Ltac gv_intro :=
  let a := fresh "a" in let it := fresh "it" in let Hle := fresh "Hle" in let HR := fresh "HR" in
  intros a it Hle HR; forward_le it Hle; unfold anything in HR; simpl in HR; try clear Hle.
Ltac gv_ret := let it := fresh "it" in let Hle := fresh "Hle" in apply gives_ret; intros it Hle; forward_le it Hle; simpl.
Ltac gv_step :=
  lazymatch goal with
  | |- gives _ _ _ _ (cur_is _ ≫= _) _ => apply gives_cur_is; intros []
  | |- gives _ _ _ _ (IsOneOf _ ≫= _) _ => apply gives_IsOneOf; intros []
  | |- gives _ _ _ _ (cur_operator _ ≫= _) _ => apply gives_cur_operator; intros []
  | |- gives _ _ _ _ (the_curSym ≫= _) _ => apply gives_curSym; intros ?
  | |- gives _ _ _ _ (the_curText ≫= _) _ => apply gives_curText; intros ?
  | |- gives _ _ _ _ (InternString_p _ ≫= _) _ => apply gives_Intern; gv_intro
  | |- gives _ _ _ _ (Accept _ ≫= _) _ => apply gives_Accept; [intros ? ? ?|]
  | |- gives _ _ _ _ (Expect _ _ ≫= _) _ => apply gives_Expect; intros ? ? ?
  | |- gives _ _ _ _ (ExpectOneOf _ _ ≫= _) _ => apply gives_ExpectOneOf; intros ? ? ? ? ?
  | |- gives _ _ _ _ (ParseError _ _ _ ≫= _) _ => apply gives_ParseError_bind
  | |- gives _ _ _ _ (mret _ ≫= _) _ => apply gives_ret_bind
  | |- gives _ _ _ _ (mret _) _ => gv_ret
  | |- gives _ _ _ _ (if _ then _ else _) _ => apply gives_if; intros ?
  | |- gives _ _ _ _ (let '(_, _) := ?x in _) _ => destruct x
  | |- gives _ _ _ _ (_ ≫= _) _ => eapply gives_bind; [solve [eauto with gives | apply gives_always; eauto with gives]|gv_intro]
  end; simpl negb; cbv iota.
Ltac gv := repeat gv_step; try solve [eauto with gives | apply gives_always; eauto with gives].

Section functions.
Context {L W : Type} `{!TokenSource L} `{!TokenSourceLaws L} `{!TokenTextLaws L} `{!ParserWorld W}
  (HashString : string -> Z) `{!InternerWorld HashString W} (m_fileName : string) (X : error -> Prop).
Notation P := (Parser L W).
Notation gives C it0 m R := (@gives L W _ _ _ _ HashString _ X C it0 _ m R).
Notation expr_ok := (fun it e => wf_expr it e = true).
Notation names n := (fun it ord => call_ok it ord n = true).

Lemma Get_call_ok it ord s n : Get ord it = Ok s -> selector_arity s = n -> call_ok it ord n = true.
Proof. unfold call_ok. intros -> <-. apply Nat.eqb_refl. Qed.

Lemma operator_symbol y : true = bool_decide (y = OperatorSequence) || in_symbols binaryOpSyms y -> is_operator y = true.
Proof. by destruct y. Qed.
Lemma in_idents y : in_symbols identOrPrimitiveSyms y = true -> y = Identifier \/ y = Primitive.
Proof. destruct y; simpl; try done; auto. Qed.

Lemma lift_ends {A} C it0 (r : result A) :
  (forall e, r = Err e -> stops (L := L) X e) -> gives C it0 (lift_result r) anything.
Proof.
  intros Hr p Hp Hle _. apply wp_lift_result. destruct r as [a|e]; [done|]. right. by apply Hr.
Qed.

Lemma gives_ParseInteger C it0 neg : gives C it0 (ParseInteger m_fileName neg) (fun _ e => literal_tree e = true).
Proof.
  unfold ParseInteger. gv_step. eapply gives_bind; [apply lift_ends|intros v it _ _; by gv].
  intros e. unfold integer_of_text. destruct (strtoll10 _) as [[i [|c pEnd]] r]; [done|]. intros [= <-].
  right. left. unfold parse_error. naive_solver.
Qed.
Lemma gives_ParseDouble C it0 neg : gives C it0 (ParseDouble m_fileName neg) (fun _ e => literal_tree e = true).
Proof.
  unfold ParseDouble. gv_step. destruct (strtod _) as [d pEnd]. eapply (gives_bind _ _ _ _ _ _ anything); [|intros v it _ _; by gv].
  intros p Hp Hle _. apply wp_check; [done|]. intros _. right. right. left. unfold parse_error. naive_solver.
Qed.
#[local] Hint Resolve gives_ParseInteger gives_ParseDouble : gives.

Lemma gives_Eat_bind C it0 {B} (f : unit -> M P B) R : gives always it0 (f tt) R -> gives C it0 (Eat ≫= f) R.
Proof. intros Hf. eapply gives_bind; [apply gives_Eat|]. intros [] it Hle _. eapply gives_mono; [done|done|]. intros p Hp Hi. apply Hf; [done|by etrans]. Qed.

Lemma gives_ParseNumber C it0 : gives C it0 (ParseNumber m_fileName) (fun _ e => literal_tree e = true).
Proof. unfold ParseNumber, ParseNumber_sign. gv_step; [apply gives_Eat_bind|]; gv. Qed.
Lemma gives_ParseString C it0 : gives C it0 (ParseString m_fileName) (fun _ e => literal_tree e = true).
Proof. unfold ParseString. by gv. Qed.
Lemma gives_ParseUnarySelector C it0 : gives C it0 (ParseUnarySelector m_fileName) (names 0).
Proof.
  unfold ParseUnarySelector. gv_step. gv_step. gv_step. gv_step. destruct_and!. subst.
  eapply call_ok_le; [eassumption|]. eapply Get_call_ok; [exact HR|]. apply (keyword_name_arity 0), ident_text_name.
  match goal with H : in_symbols _ _ = true |- _ => by apply in_idents in H as [-> | ->] end.
Qed.
#[local] Hint Resolve gives_ParseNumber gives_ParseString gives_ParseUnarySelector : gives.


Definition at_operator : Symbol -> string -> Prop := fun y _ => is_operator y = true.

Lemma gives_ParseBinarySelector it0 : gives at_operator it0 (ParseBinarySelector m_fileName) (names 1).
Proof.
  unfold ParseBinarySelector. do 2 gv_step.
  assert (Hok : forall y t, (at_operator y t /\ t = s) -> text_fits y (list_ascii_of_string t) -> call_ok it a 1 = true).
  { intros y t [Hy ->] Ht. eapply Get_call_ok; [exact HR|]. by eapply operator_text_arity. }
  apply gives_AcceptOneOf; simpl.
  - intros y t Hin Hc Ht. specialize (Hok _ _ Hc Ht). do 2 apply gives_ret_bind. by gv_ret.
  - apply gives_Accept; simpl.
    + intros t [Hc _] Ht. specialize (Hok _ _ Hc Ht). apply gives_ret_bind. by gv_ret.
    + apply gives_Expect. by intros t [[[Hc _] _] _].
Qed.

(** A selector in a symbol literal may have any arity. *)
Lemma gives_ParseSymbol C it0 : gives C it0 (ParseSymbol m_fileName) (fun _ e => literal_tree e = true).
Proof.
  assert (Hsel : forall C' it', gives C' it' (ParseSelector m_fileName) anything).
  { intros C' it'. unfold ParseSelector. gv_step.
    - eapply gives_mono; [|done|apply gives_ParseBinarySelector]. intros y t [_ Hy]. by destruct y.
    - gv_step; [unfold ParseKeywordSelector; by gv|]. eapply gives_weaken; [|apply gives_ParseUnarySelector]; done. }
  unfold ParseSymbol. do 2 gv_step; [by gv|]. eapply gives_bind; [apply Hsel|gv_intro; by gv].
Qed.
#[local] Hint Resolve gives_ParseSymbol : gives.

Lemma gives_ParseArrayElements lit m C it0 :
  (forall C it, gives C it lit (fun _ e => literal_tree e = true)) ->
  gives C it0 (ParseArrayElements lit m) (fun _ es => forallb literal_tree es = true).
Proof.
  intros Hlit. revert C it0. induction m as [|m IH]; intros C it0; simpl; gv_step; gv.
  by rewrite HR, HR0.
Qed.

Lemma literal_array es : literal_tree (AstArray es) = forallb literal_tree es.
Proof. done. Qed.

Lemma gives_ParseLiteral m C it0 : gives C it0 (ParseLiteral m_fileName m) (fun _ e => literal_tree e = true).
Proof.
  revert C it0. induction m as [|m IH]; intros C it0; simpl; [by gv|]. gv_step; [|by gv].
  gv_step. gv_step; [|by gv]. unfold ParseArray. do 2 gv_step.
  eapply gives_bind; [apply gives_ParseArrayElements; intros; apply IH|]. gv_intro. gv.
Qed.

Lemma gives_ParseVariable C it0 : gives C it0 (ParseVariable m_fileName) anything.
Proof. unfold ParseVariable. by gv. Qed.
#[local] Hint Resolve gives_ParseVariable : gives.

Lemma gives_dup C it0 (b : bool) msg : gives C it0 (if b then ParseError m_fileName msg "" else mret tt) anything.
Proof. by gv. Qed.
#[local] Hint Resolve gives_dup : gives.

Lemma gives_ParseParametersLoop m args C it0 : gives C it0 (ParseParametersLoop m_fileName args m) anything.
Proof. revert args C it0. induction m as [|m IH]; intros args C it0; simpl; by gv. Qed.
Lemma gives_ParseLocalsLoop m args C it0 : gives C it0 (ParseLocalsLoop m_fileName args m) anything.
Proof. revert args C it0. induction m as [|m IH]; intros args C it0; simpl; by gv. Qed.
#[local] Hint Resolve gives_ParseParametersLoop gives_ParseLocalsLoop : gives.
Lemma gives_ParseLocals m C it0 : gives C it0 (ParseLocals m_fileName m) anything.
Proof. unfold ParseLocals. by gv. Qed.
#[local] Hint Resolve gives_ParseLocals : gives.

Lemma gives_ParseKeyword C it0 : gives C it0 (ParseKeyword m_fileName) (fun _ s => keyword_name 1 s).
Proof. unfold ParseKeyword. do 3 gv_step. destruct_and!. subst. by apply keyword_text_name. Qed.
#[local] Hint Resolve gives_ParseKeyword : gives.

#[local] Hint Resolve gives_ParseLiteral : gives.

Lemma gives_block_params m C it0 (c : bool) :
  gives C it0 (if c then ps ← ParseParameters m_fileName m; Expect m_fileName Or ;; mret ps else mret []) anything.
Proof. unfold ParseParameters. by gv. Qed.
#[local] Hint Resolve gives_block_params : gives.

Lemma gives_literal_expr C it0 (m : M P AstExpr) :
  gives C it0 m (fun _ e => literal_tree e = true) -> gives C it0 m expr_ok.
Proof. apply gives_weaken. intros it e. apply literal_wf. Qed.

(** ** Expressions, given that the nested ones are well formed *)
Section with_expr.
Context (expr : M P AstExpr) (fuel : nat).
Context (Hexpr : forall C it, gives C it expr expr_ok).
#[local] Hint Resolve Hexpr : gives.

Lemma gives_ParseNestedTerm C it0 : gives C it0 (ParseNestedTerm m_fileName expr) expr_ok.
Proof using Hexpr. unfold ParseNestedTerm. by gv. Qed.

Lemma gives_ParseBlockExprs m C it0 : gives C it0 (ParseBlockExprs expr m) (fun it es => wf_body it es = true).
Proof using Hexpr.
  revert C it0. induction m as [|m IH]; intros C it0; simpl; gv; unfold wf_body in *; simpl;
    rewrite ?andb_true_r; auto using wf_expr_stmt. 
  rewrite (wf_expr_stmt _ _ ltac:(eassumption)). done.
Qed.
#[local] Hint Resolve gives_ParseNestedTerm gives_ParseBlockExprs : gives.

Lemma gives_ParseNestedBlock C it0 : gives C it0 (ParseNestedBlock m_fileName expr fuel) expr_ok.
Proof using Hexpr. unfold ParseNestedBlock. gv_step. apply gives_cur_is. intros b. eapply gives_bind; [apply gives_block_params|gv_intro]. gv;
    match goal with H : wf_body _ _ = true |- _ => exact (eq_trans (wf_block _ [] [] _) H) end. Qed.
#[local] Hint Resolve gives_ParseNestedBlock : gives.

Lemma gives_ParsePrimary C it0 : gives C it0 (ParsePrimary m_fileName expr fuel) expr_ok.
Proof using Hexpr. unfold ParsePrimary. gv. apply gives_literal_expr. by gv. Qed.
#[local] Hint Resolve gives_ParsePrimary : gives.

Lemma gives_ParseUnaryMessage C it0 e : wf_expr it0 e = true -> gives C it0 (ParseUnaryMessage m_fileName e) expr_ok.
Proof using Type. intros He. unfold ParseUnaryMessage. gv. by rewrite HR, He. Qed.
#[local] Hint Resolve gives_ParseUnaryMessage : gives.

Lemma gives_unaryMessages m C it0 e : wf_expr it0 e = true -> gives C it0 (unaryMessages m_fileName m e) expr_ok.
Proof using Type. revert C it0 e. induction m as [|m IH]; intros C it0 e He; simpl; by gv. Qed.
#[local] Hint Resolve gives_unaryMessages : gives.

Lemma gives_ParseBinaryOperand C it0 : gives C it0 (ParseBinaryOperand m_fileName expr fuel) expr_ok.
Proof using Hexpr. unfold ParseBinaryOperand. by gv. Qed.
#[local] Hint Resolve gives_ParseBinaryOperand : gives.

Lemma gives_ParseBinaryMessage it0 e :
  wf_expr it0 e = true -> gives at_operator it0 (ParseBinaryMessage m_fileName expr fuel e) expr_ok.
Proof using Hexpr.
  intros He. unfold ParseBinaryMessage. eapply gives_bind; [apply gives_ParseBinarySelector|]. gv_intro. gv.
  by rewrite HR, He, HR0.
Qed.

Lemma gives_binaryMessages m C it0 e : wf_expr it0 e = true -> gives C it0 (binaryMessages m_fileName expr fuel m e) expr_ok.
Proof using Hexpr.
  revert C it0 e. induction m as [|m IH]; intros C it0 e He; simpl; gv_step; [by gv|by gv| |by gv].
  eapply (gives_bind _ _ _ _ _ _ expr_ok); [|gv_intro; by apply IH].
  eapply gives_at; [|by apply gives_ParseBinaryMessage]. intros y t [_ Hy]. by apply operator_symbol.
Qed.
#[local] Hint Resolve gives_binaryMessages : gives.

Lemma gives_ParseKeywordMessageOperand C it0 : gives C it0 (ParseKeywordMessageOperand m_fileName expr fuel) expr_ok.
Proof using Hexpr. unfold ParseKeywordMessageOperand. by gv. Qed.
#[local] Hint Resolve gives_ParseKeywordMessageOperand : gives.

Lemma gives_keywordArguments m C it0 kw n : keyword_name n kw ->
  gives C it0 (keywordArguments m_fileName expr fuel m kw)
    (fun it r => keyword_name (n + length r.2) r.1 /\ forallb (wf_expr it) r.2 = true).
Proof using Hexpr.
  revert C it0 kw n. induction m as [|m IH]; intros C it0 kw n Hkw; simpl; gv_step; simpl; gv; rewrite ?Nat.add_0_r; try done.
  eapply gives_bind; [apply (IH _ _ _ (n + 1)); by apply keyword_name_app|]. intros [s es] it2 Hle [Hs Hes]. forward_le it2 Hle.
  gv. simpl in *. split; [by rewrite <-Nat.add_assoc in Hs|]. by rewrite HR0.
Qed.

Lemma gives_ParseKeywordMessage C it0 e :
  wf_expr it0 e = true -> gives C it0 (ParseKeywordMessage m_fileName expr fuel e) expr_ok.
Proof using Hexpr.
  intros He. unfold ParseKeywordMessage. do 2 gv_step.
  eapply gives_bind; [by apply gives_keywordArguments|]. intros [s es] it2 Hle [Hs Hes]. forward_le it2 Hle. simpl in *.
  gv_step. apply gives_ret. intros it4 Hle'. forward_le it4 Hle'. rewrite wf_keyword. simpl. rewrite HR0, He, Hes, !andb_true_r.
  eapply call_ok_le; [eassumption|]. eapply Get_call_ok; [exact HR1|]. by apply keyword_name_arity.
Qed.
#[local] Hint Resolve gives_ParseKeywordMessage : gives.

Lemma gives_ParseEvaluation C it0 : gives C it0 (ParseEvaluation m_fileName expr fuel) expr_ok.
Proof using Hexpr. unfold ParseEvaluation. by gv. Qed.
#[local] Hint Resolve gives_ParseEvaluation : gives.

Lemma gives_ParseOneAssignment C it0 : gives C it0 (ParseOneAssignment m_fileName) anything.
Proof using Type. unfold ParseOneAssignment. by gv. Qed.
#[local] Hint Resolve gives_ParseOneAssignment : gives.
Lemma gives_ParseAssignments m C it0 : gives C it0 (ParseAssignments m_fileName m) anything.
Proof using Type. revert C it0. induction m as [|m IH]; intros C it0; simpl; by gv. Qed.
#[local] Hint Resolve gives_ParseAssignments : gives.

Lemma gives_ParseExpr_body C it0 : gives C it0 (ParseExpr_body m_fileName expr fuel) expr_ok.
Proof using Hexpr. unfold ParseExpr_body, ParseAssignation. by gv. Qed.
End with_expr.

Lemma gives_ParseExpr m C it0 : gives C it0 (ParseExpr m_fileName m) expr_ok.
Proof. revert C it0. induction m as [|m IH]; intros C it0; simpl; [by gv|]. by apply gives_ParseExpr_body. Qed.
Lemma gives_body m C it0 : gives C it0 (ParseBlockExprs (ParseExpr m_fileName m) m) (fun it es => wf_body it es = true).
Proof. apply gives_ParseBlockExprs. apply gives_ParseExpr. Qed.
#[local] Hint Resolve gives_body : gives.

(** ** Methods: as many parameters as the selector asks for *)
Lemma gives_keywordParameters m kw n C it0 :
  n = 0 /\ kw = ""%string \/ keyword_name n kw ->
  gives C it0 (keywordParameters m_fileName m kw) (fun _ r => keyword_name (n + length r.2) r.1).
Proof.
  revert kw n C it0. induction m as [|m IH]; intros kw n C it0 Hkw; simpl; [by gv|]. gv_step.
  assert (Hk : keyword_name (n + 1) (kw +:+ a)) by (destruct Hkw as [[-> ->]|Hkw]; [done|by apply keyword_name_app]).
  gv_step. gv_step; [|by gv]. eapply gives_bind; [apply (IH _ (n + 1)); by right|]. intros [s vs] it2 Hle Hs.
  gv. simpl in *. by rewrite <-Nat.add_assoc in Hs.
Qed.

Definition starts_method : Symbol -> string -> Prop := fun y _ =>
  in_symbols identOrPrimitiveSyms y = true \/ y = Keyword \/ is_operator y = true.

Lemma gives_ParseMethodPattern m it0 :
  gives starts_method it0 (ParseMethodPattern m_fileName m) (fun it r => call_ok it r.1.2 (length r.2) = true).
Proof.
  unfold ParseMethodPattern. gv_step; [|gv_step].
  - unfold ParseUnaryMethodPattern. by gv.
  - unfold ParseKeywordMethodPattern. eapply gives_bind; [apply (gives_keywordParameters _ _ 0); by left|].
    intros [s vs] it Hle Hs. gv. simpl in *. eapply call_ok_le; [eassumption|].
    eapply Get_call_ok; [exact HR|]. by apply keyword_name_arity.
  - unfold ParseBinaryMethodPattern. eapply gives_bind; [eapply gives_at; [|apply gives_ParseBinarySelector]|gv_intro; by gv].
    intros y t [[Hy Hi] Hk]. destruct Hy as [Hy|[->|Hy]]; [congruence|done|done].
Qed.

Lemma gives_ParseMethod m it0 : gives starts_method it0 (ParseMethod m_fileName m) (fun it meth => method_ok it meth = true).
Proof.
  unfold ParseMethod. eapply gives_bind; [apply gives_ParseMethodPattern|]. intros [[kind sel] params] it Hle Hs. simpl in Hs.
  gv; unfold method_ok, wf_method; simpl; rewrite Hs; try done; rewrite andb_true_r; done.
Qed.

Lemma gives_startsMethod C it0 {B} (f : bool -> M P B) R :
  (forall b, gives (fun y t => b = true -> starts_method y t) it0 (f b) R) -> gives C it0 (startsMethod ≫= f) R.
Proof.
  intros Hf p Hp Hle Hc. unfold startsMethod. apply wp_bind, wp_bind, wp_gets.
  destruct (in_symbols identOrPrimitiveSyms (m_curSym p)) eqn:E1.
  { apply wp_ret. apply (Hf true p Hp Hle). by left. }
  apply wp_bind, wp_gets. case_bool_decide as E2.
  { apply wp_ret. apply (Hf true p Hp Hle). right. by left. }
  unfold cur_operator. apply wp_bind, wp_gets. case_bool_decide as E3.
  { apply wp_ret. apply (Hf true p Hp Hle). right. right. by rewrite E3. }
  apply wp_gets. apply (Hf _ p Hp Hle). intros Hb. right. right. apply operator_symbol. by rewrite Hb, orb_true_r.
Qed.

Notation all_ok := (fun it ms => forallb (method_ok it) ms = true).
Lemma gives_ParseMethods m C it0 : gives C it0 (ParseMethods m_fileName m) all_ok.
Proof.
  revert C it0. induction m as [|m IH]; intros C it0; simpl; apply gives_startsMethod; intros []; simpl; try by gv.
  eapply gives_bind; [eapply gives_at; [|apply gives_ParseMethod]; auto|]. intros meth it Hle Hm.
  eapply gives_bind; [apply IH|]. intros ms it2 Hle2 Hms. apply gives_ret. intros it3 Hle3.
  apply (methods_ok_le it2 it3); [done|]. simpl. rewrite Hms, andb_true_r.
  pose proof (methods_ok_le it it2 [meth] Hle2) as H. simpl in H. rewrite !andb_true_r in H. by apply H.
Qed.
#[local] Hint Resolve gives_ParseMethods : gives.

(** ** Classes *)
Section class.
Context {C : Type} (SOMCompileFile : string -> M W C) (Rc : W -> C -> Prop).
Notation w_le := (iw_le (HashString := HashString)).
Notation w_wf := (iw_wf (HashString := HashString)).
Notation it_of p := (iw_interner (HashString := HashString) (m_world p)).
Context (Hload : forall name w, w_wf w ->
  wp (fun e => e = OutOfFuel \/ X e) (SOMCompileFile name) (fun c w' => w_wf w' /\ w_le w w' /\ Rc w' c) w).
Context (HRc : forall w w' c, w_le w w' -> Rc w c -> Rc w' c).
Context (Hnil : X (AssertFailed "res->m_name->Get(m_symbolInterner) == Object")).

(** The superclass, or none for the one class whose superclass is [nil]. *)
Definition superclass_ok (w : W) (className : nat) (sup : option C) : Prop :=
  match sup with
  | Some c => Rc w c
  | None => Interner.Get className (iw_interner (HashString := HashString) w) = Ok "Object"%string
  end.

Lemma superclass_ok_le w w' className sup : w_le w w' -> superclass_ok w className sup -> superclass_ok w' className sup.
Proof using HRc.
  intros Hle. destruct sup as [c|]; [by apply HRc|]. intros [h Hh]%Get_Ok_lookup. eapply Get_lookup.
  eapply interner_le_lookup; [by apply iw_le_interner|exact Hh].
Qed.

Definition grown (p p' : P) : Prop := parser_inv HashString p' /\ w_le (m_world p) (m_world p').

Lemma wp_compile_superclass name className p : parser_inv HashString p ->
  wp (ends (L := L) X) (compile_superclass SOMCompileFile name)
    (fun sup p' => grown p p' /\ superclass_ok (m_world p') className sup) p.
Proof using Hload.
  intros [Hl Ht Hw]. pose proof (Hload name _ Hw) as H. unfold wp, compile_superclass in *.
  destruct (SOMCompileFile name (m_world p)) as [[c w]|e].
  - destruct H as (H1 & H2 & H3). by repeat split.
  - destruct H as [->|H]; [by left|]. right. right. by right.
Qed.

Lemma wp_parseSuperclass className name p : parser_inv HashString p -> Interner.Get className (it_of p) = Ok name ->
  wp (ends (L := L) X) (parseSuperclass m_fileName SOMCompileFile className)
    (fun sup p' => grown p p' /\ superclass_ok (m_world p') className sup) p.
Proof using Hload HRc Hnil.
  intros Hp Hg. unfold parseSuperclass. apply wp_bind, wp_gets.
  destruct (bool_decide (m_curSym p = Identifier)); [|by apply wp_compile_superclass].
  apply wp_bind, wp_gets, wp_bind. eapply (wp_mono _ _ (fun sup p' => grown p p' /\ superclass_ok (m_world p') className sup)).
  - destruct (negb _); [by apply wp_compile_superclass|]. apply wp_bind. unfold wp at 1. rewrite (iw_Get className (m_world p)).
    rewrite Hg. apply wp_bind, wp_check; [|intros _; right; right; by right]. intros ->%bool_decide_eq_true. apply wp_ret. by repeat split; try apply Hp.
  - intros sup p1 [[Hi Hl] Hs].
    pose proof (gives_Expect HashString m_fileName X (fun _ _ => True) (it_of p1) Identifier (fun _ => mret sup) (fun _ a => a = sup)) as He.
    eapply wp_mono; [apply He; [intros; by apply gives_ret|done..]|]. intros a p2 (Hi2 & Hl2 & ->).
    split; [split; [done|by etrans]|by eapply superclass_ok_le].
Qed.

(** What [ParseClass] returns, in the world it returns it in. *)
Record parsed_class (w : W) (cl : AstClass C) : Prop := {
  pc_ok : class_ok (iw_interner (HashString := HashString) w) cl = true;
  pc_name : exists name, Interner.Get (ac_name cl) (iw_interner (HashString := HashString) w) = Ok name;
  pc_super : superclass_ok w (ac_name cl) (ac_superClass cl)
}.

Definition side_ok : StringInterner -> list string * list AstMethod -> Prop := fun it s => forallb (method_ok it) s.2 = true.

Lemma gives_class_body fuel className (superClass : option C) it0 :
  gives always it0
    (Expect m_fileName NewTerm ;;
     instanceFields ← ParseLocals m_fileName fuel;
     instanceMethods ← ParseMethods m_fileName fuel;
     sep ← Accept Separator;
     cls ← (if (sep : bool) then
              classFields ← ParseLocals m_fileName fuel; classMethods ← ParseMethods m_fileName fuel;
              mret (classFields, classMethods)
            else mret ([], []));
     Expect m_fileName EndTerm ;;
     mret (mk_ast_class className superClass instanceFields cls.1 instanceMethods cls.2))
    (fun it cl => class_ok it cl = true /\ ac_name cl = className /\ ac_superClass cl = superClass).
Proof using Type.
  assert (Hend : forall it fs ms cls C, forallb (method_ok it) ms = true -> side_ok it cls ->
    gives C it (Expect m_fileName EndTerm ;; mret (mk_ast_class className superClass fs cls.1 ms cls.2))
      (fun it cl => class_ok it cl = true /\ ac_name cl = className /\ ac_superClass cl = superClass)).
  { intros it fs ms [cf cms] C' Hms Hside. unfold side_ok in Hside. simpl in Hside. gv.
    split; [|done]. unfold class_ok. simpl. by rewrite Hms, Hside. }
  do 3 gv_step. gv_step.
  - eapply (gives_bind _ _ _ _ _ _ side_ok); [gv; exact HR2|]. intros cls it3 Hle3 Hs. forward_le it3 Hle3. by apply Hend.
  - apply gives_ret_bind. by apply Hend.
Qed.

Lemma wp_ParseClass fuel p : parser_inv HashString p ->
  wp (ends (L := L) X) (ParseClass m_fileName SOMCompileFile fuel)
    (fun cl p' => grown p p' /\ parsed_class (m_world p') cl) p.
Proof using Hload HRc Hnil.
  intros Hp. unfold ParseClass.
  assert (Hhead : forall (f : nat -> M P (AstClass C)) Q, (forall className p1, grown p p1 ->
      (exists name, Interner.Get className (it_of p1) = Ok name) -> wp (ends (L := L) X) (f className) Q p1) ->
    wp (ends (L := L) X) (t ← the_curText; className ← InternString_p t; Expect m_fileName Identifier ;; Expect m_fileName Equal ;; f className) Q p).
  { intros f Q Hf. pose proof (gives_curText HashString X (fun _ _ => True) (it_of p)
      (fun t => className ← InternString_p t; Expect m_fileName Identifier ;; Expect m_fileName Equal ;; mret className)
      (fun it className => exists name, Interner.Get className it = Ok name)) as Hg.
    assert (Hw : wp (ends (L := L) X) (t ← the_curText; className ← InternString_p t; Expect m_fileName Identifier ;; Expect m_fileName Equal ;; mret className)
       (fun className => wp (ends (L := L) X) (f className) Q) p).
    { eapply wp_mono; [apply Hg; [|done..]|].
      - intros t. gv_step. do 2 gv_step. gv_step. exists t. apply Get_Ok_lookup in HR as [h Hh]. eapply Get_lookup, interner_le_lookup; eassumption.
      - intros className p1 (Hi & Hl & Hn). by apply Hf. }
    revert Hw. unfold wp, mbind, M_bind, mret, M_ret.
    repeat (match goal with |- match (match ?m with _ => _ end) with _ => _ end -> _ => destruct m as [[? ?]|?] end; try done). }
  apply Hhead. intros className p1 [Hi1 Hl1] [name Hn]. apply wp_bind.
  eapply wp_mono; [by eapply wp_parseSuperclass|]. intros sup p2 [[Hi2 Hl2] Hsup].
  eapply wp_mono; [apply (gives_class_body fuel className sup (it_of p2)); done|]. intros cl p3 (Hi3 & Hl3 & Hok & Hcn & Hsc).
  split; [split; [done|by etrans; [|etrans]]|]. split; [done| |].
  - rewrite Hcn. exists name. apply Get_Ok_lookup in Hn as [h Hh]. eapply Get_lookup, interner_le_lookup; [|exact Hh].
    etrans; apply iw_le_interner; eassumption.
  - rewrite Hcn, Hsc. by eapply superclass_ok_le.
Qed.
End class.
End functions.
