(* ===== verification/Frontend.v ===== *)
(** * From a class file to bytecode

    The parser and the compiler together: every method of a class the parser accepts is
    one the compiler takes without failing an assertion of its own.  The parser's
    world here is any that holds an interner; [interner_world] is the smallest. *)
From S2P Require Import Prelude Interner VmSelectors Lexer CNumbers Ast AstWf Parser ParserTotal ParserWf Bytecode Compiler CompilerInv CompilerRules CompilerMethod CompilerProperties.
#[local] Set Default Proof Using "Type".

Definition interner_world (HashString : string -> Z) : ParserWorld StringInterner :=
  {| w_InternString := InternString HashString; w_Get := Interner.Get |}.
#[export] Instance interner_is_world (HashString : string -> Z) : InternerWorld (ParserWorld0 := interner_world HashString) HashString StringInterner.
Proof.
  refine {| iw_interner it := it; iw_wf := interner_wf HashString; iw_le := interner_le |}; try done.
  intros s w Hw. pose proof (InternString_lookup HashString s w Hw) as Hl. split_and!.
  - by apply InternString_wf.
  - apply InternString_le.
  - by eapply Get_lookup.
Defined.

(** ** The parser's result *)
Section frontend.
Context {W C : Type} `{!ParserWorld W} (HashString : string -> Z) `{!InternerWorld HashString W}.
Context (SOMCompileFile : string -> M W C) (Rc : W -> C -> Prop).
Notation w_le := (iw_le (HashString := HashString)).
Notation w_wf := (iw_wf (HashString := HashString)).
Notation w_it := (iw_interner (HashString := HashString)).

(** What loading the superclass on the way must keep. *)
Record loads_well (E : error -> Prop) : Prop := {
  lw_load name w : w_wf w -> wp E (SOMCompileFile name) (fun c w' => w_wf w' /\ w_le w w' /\ Rc w' c) w;
  lw_later w w' c : w_le w w' -> Rc w c -> Rc w' c
}.

Lemma new_parser_inv file w : w_wf w ->
  match new_parser (new_lexer file) w with Ok p => parser_inv HashString p /\ m_world p = w | Err e => escape_error e end.
Proof.
  intros Hw. assert (Hl : ts_text_wf (new_lexer file)) by (split; [apply new_lexer_wf|done]).
  pose proof (ts_GetSym_text _ Hl) as H. unfold new_parser, Eat, wp in *. simpl m_lexer in *.
  destruct (ts_GetSym (new_lexer file)) as [[y lx]|e]; [|done]. destruct H as [H1 H2]. split; [by split|done].
Qed.

Lemma ParseClass_parsed className file w p cl p' : loads_well any_error -> w_wf w ->
  new_parser (new_lexer file) w = Ok p -> ParseClass className SOMCompileFile (2 + length file) p = Ok (cl, p') ->
  w_wf (m_world p') /\ w_le w (m_world p') /\ parsed_class HashString Rc (m_world p') cl.
Proof.
  intros [Hl Hr] Hw Hp Hc. pose proof (new_parser_inv file w Hw) as Hi. rewrite Hp in Hi. destruct Hi as [Hi <-].
  assert (Hwp : wp (ends (L := Lexer) any_error) (ParseClass className SOMCompileFile (2 + length file))
    (fun cl p' => grown HashString p p' /\ parsed_class HashString Rc (m_world p') cl) p).
  { apply wp_ParseClass; [|done|done|done]. intros name w Hw'. eapply wp_error_mono; [|by apply Hl]. by right. }
  pose proof (wp_ok _ _ _ _ _ _ Hwp Hc) as [[H1 H2] H3]. split; [apply H1|done].
Qed.

(** Every class the parser returns is well formed in the interner it leaves: each
    selector of a call and of a method is interned and has as many arguments, or
    parameters, as its name asks for; [^] stands only before a statement; a literal
    array holds literals; a class without superclass is [Object]. *)
Theorem parsed_class_well_formed className file w p cl p' :
  loads_well any_error -> w_wf w ->
  new_parser (new_lexer file) w = Ok p -> ParseClass className SOMCompileFile (2 + length file) p = Ok (cl, p') ->
  interner_le (w_it w) (w_it (m_world p')) /\
  (forall m, m ∈ m_instanceMethods cl ++ m_classMethods cl ->
     wf_method (w_it (m_world p')) m = true /\
     exists name, Interner.Get (m_selectorName m) (w_it (m_world p')) = Ok name /\ selector_arity name = length (am_params m)) /\
  (ac_superClass cl = None -> Interner.Get (ac_name cl) (w_it (m_world p')) = Ok "Object"%string).
Proof.
  intros Hl Hw Hp Hc. destruct (ParseClass_parsed _ _ _ _ _ _ Hl Hw Hp Hc) as (_ & Hle & [Hok _ Hs]).
  split_and!; [by apply iw_le_interner| |by intros Hn; rewrite Hn in Hs].
  intros m Hm. unfold class_ok in Hok. apply andb_true_iff in Hok as [H1 H2].
  assert (Hmo : method_ok (w_it (m_world p')) m = true).
  { rewrite forallb_forall in H1, H2. apply elem_of_app in Hm as [Hm|Hm]; apply list_elem_of_In in Hm; auto. }
  unfold method_ok in Hmo. apply andb_true_iff in Hmo as [Hwf Hcall]. split; [done|].
  unfold call_ok in Hcall. destruct (Interner.Get _ _) as [name|]; [|done]. exists name. by apply Nat.eqb_eq in Hcall.
Qed.

(** C7: the parser and the compiler agree: in any later state of the interner and the
    globals, each method of a class the parser returned compiles to code that is safe to
    run, or the compiler stops for a reason a SOM program can give it; no other assertion
    of the compiler can fail, and its fuel never runs out. *)
Theorem parsed_methods_compile {V : Type} (bcLength : Bytecode -> nat) (bcConstants : Bytecode -> list Cst) `{!EncodingLaws bcLength}
    className file w p cl p' m env (s : @CState V) :
  loads_well any_error -> w_wf w ->
  new_parser (new_lexer file) w = Ok p -> ParseClass className SOMCompileFile (2 + length file) p = Ok (cl, p') ->
  m ∈ m_instanceMethods cl ++ m_classMethods cl ->
  globals_wf HashString (cs_globals s) -> vm_started HashString (e_vm env) (g_interner (cs_globals s)) ->
  interner_le (w_it (m_world p')) (g_interner (cs_globals s)) ->
  match CompileMethod HashString bcLength bcConstants (ast_list_size (am_body m)) env m s with
  | Ok (_, s') => forall i c, cs_ctxs s' !! i = Some c -> compiled bcLength (cs_ctxs s') i c
  | Err e => compile_error (bool_decide (is_Some (m_superClass env))) e
  end.
Proof.
  intros Hl Hw Hp Hc Hm Hg Hvm Hle. destruct (ParseClass_parsed _ _ _ _ _ _ Hl Hw Hp Hc) as (_ & _ & [Hok _ _]).
  assert (Hwf : wf_method (g_interner (cs_globals s)) m = true).
  { unfold class_ok in Hok. apply andb_true_iff in Hok as [H1 H2].
    rewrite forallb_forall in H1, H2. apply (wf_body_le (w_it (m_world p'))); [done|].
    apply elem_of_app in Hm as [Hm|Hm]; apply list_elem_of_In in Hm; [apply H1 in Hm|apply H2 in Hm]; by apply andb_true_iff in Hm as [??]. }
  pose proof (CompileMethod_wp HashString bcLength bcConstants (ast_list_size (am_body m)) env m s (Build_compilable _ _ _ _ _ Hvm Hg Hwf (le_n _))) as H.
  unfold wp in H. destruct (CompileMethod _ _ _ _ _ _ _) as [[u s']|e]; [|exact H]. apply H.
Qed.
End frontend.

(** ** A class file *)
Definition load_number (name : string) : M StringInterner nat := mret 0.
Definition accumulator_file : chars := list_ascii_of_string
"Accumulator = ( | total | add: x to: y = ( | sum | sum := x + y. #(1 2 3) do: [ :e | sum := sum + e ]. ^ total := sum ) size = ( ^ total ) )".

Definition accumulator_parsed : result (AstClass nat * Parser Lexer StringInterner) :=
  p ← new_parser (new_lexer accumulator_file) sample_start.2;
  ParseClass (ParserWorld0 := interner_world no_hash) "Accumulator" load_number (2 + length accumulator_file) p.
Definition accumulator_parser : Parser Lexer StringInterner :=
  match new_parser (new_lexer accumulator_file) sample_start.2 with
  | Ok p => p
  | Err _ => mk_parser (new_lexer []) empty_interner NONE "" NONE
  end.
Definition accumulator_class : AstClass nat :=
  match accumulator_parsed with Ok (cl, _) => cl | Err _ => mk_ast_class 0 None [] [] [] [] end.
Definition accumulator_end : Parser Lexer StringInterner :=
  match accumulator_parsed with Ok (_, p) => p | Err _ => accumulator_parser end.

#[local] Opaque accumulator_class accumulator_end accumulator_parser.

Lemma load_number_well : loads_well (ParserWorld0 := interner_world no_hash) no_hash load_number (fun _ _ => True) any_error.
Proof. split; [|done]. intros name w Hw. unfold wp. simpl. split_and!; done. Qed.

Lemma parsed_class_well_formed_witness :
  length (m_instanceMethods accumulator_class) = 2 /\
  forall m, m ∈ m_instanceMethods accumulator_class ++ m_classMethods accumulator_class -> wf_method (m_world accumulator_end) m = true.
Proof.
  split; [by vm_compute|].
  pose proof (parsed_class_well_formed (ParserWorld0 := interner_world no_hash) no_hash load_number (fun _ _ => True) "Accumulator" accumulator_file sample_start.2
    accumulator_parser accumulator_class accumulator_end load_number_well (proj2 sample_started)) as H.
  destruct H as (_ & H & _); [by vm_compute|by vm_compute|]. intros m Hm. exact (proj1 (H m Hm)).
Defined.

Definition accumulator_env : CompileEnv := mk_env sample_start.1 {["total" := 0]} true None.
Definition accumulator_state : @CState unit := mk_cstate (mk_globals (m_world accumulator_end) ∅ [] []) [] [] [] ∅ [].
Lemma accumulator_later : interner_le sample_start.2 (m_world accumulator_end) /\ interner_wf no_hash (m_world accumulator_end).
Proof.
  destruct (ParseClass_parsed (ParserWorld0 := interner_world no_hash) no_hash load_number (fun _ _ => True) "Accumulator" accumulator_file sample_start.2
    accumulator_parser accumulator_class accumulator_end load_number_well (proj2 sample_started)) as (H1 & H2 & _);
    [by vm_compute|by vm_compute|done].
Qed.

Lemma parsed_methods_compile_witness :
  exists m, m_instanceMethods accumulator_class !! 0 = Some m /\
  match CompileMethod no_hash eight no_constants (ast_list_size (am_body m)) accumulator_env m accumulator_state with
  | Ok (_, s') => forall i c, cs_ctxs s' !! i = Some c -> compiled eight (cs_ctxs s') i c
  | Err e => compile_error false e
  end.
Proof.
  eexists. split; [by vm_compute|].
  apply (parsed_methods_compile (ParserWorld0 := interner_world no_hash) no_hash load_number (fun _ _ => True) eight no_constants "Accumulator" accumulator_file sample_start.2
    accumulator_parser accumulator_class accumulator_end _ accumulator_env accumulator_state load_number_well (proj2 sample_started)).
  - by vm_compute.
  - by vm_compute.
  - vm_compute. by left.
  - apply empty_globals_wf, accumulator_later.
  - destruct accumulator_later as [Hle Hwf]. destruct sample_started as [[_ (it0 & Hit & Hle0)] _].
    split; [exact Hwf|]. exists it0. split; [exact Hit|]. etrans; [exact Hle0|exact Hle].
  - reflexivity.
Defined.

(** The first method compiles: to its own unit and that of its block, with one array. *)
Example accumulator_compiles :
  match m_instanceMethods accumulator_class with
  | m :: _ => match CompileMethod no_hash eight no_constants (ast_list_size (am_body m)) accumulator_env m accumulator_state with
              | Ok (_, s') => length (cs_ctxs s') = 2 /\ cs_arrays s' = [[CstInt32 1; CstInt32 2; CstInt32 3]]
              | Err _ => False
              end
  | [] => False
  end.
Proof. vm_compute. done. Qed.
