(* ===== verification/LoadingInv.v ===== *)
(** * What loading keeps

    The invariant of the class loader of [Loading.v]: the interner and the table of
    globals stay well formed, every method and block compiled so far is safe to run,
    every class known by name is there, and each class's method table holds its
    superclass's methods overridden by its own.  Loading only adds to the state. *)
From S2P Require Import Prelude Interner VmSelectors CNumbers Lexer Ast AstWf Parser ParserTotal ParserWf Bytecode Compiler CompilerInv CompilerRules CompilerMethod CompilerProperties Frontend MethodTable TValue Values Primitives Objects OpenUpvalues Symbols Machine Calls LibCalls Interp Loading.
#[local] Set Default Proof Using "Type*".

(** ** What operations on the machine leave alone *)
Definition same_names (v v' : VMState) : Prop :=
  st_interner (vm_str v') = st_interner (vm_str v) /\ vm_globals v' = vm_globals v.
#[export] Instance same_names_preorder : PreOrder same_names.
Proof. split; [done|]. intros v1 v2 v3 [H1 H2] [H3 H4]. split; congruence. Qed.

Definition keeps_names {A} (m : V A) : Prop := forall v, wp no_fuel_error m (fun _ v' => same_names v v') v.

Lemma kn_ret {A} (a : A) : keeps_names (mret a).
Proof. intros v. apply wp_ret. reflexivity. Qed.
Lemma kn_fail {A} e : no_fuel_error e -> keeps_names (fail e : V A).
Proof. intros He v. by apply wp_fail. Qed.
Lemma kn_bind {A B} (m : V A) (f : A -> V B) : keeps_names m -> (forall a, keeps_names (f a)) -> keeps_names (m ≫= f).
Proof.
  intros Hm Hf v. apply wp_bind. eapply wp_mono; [apply Hm|]. intros a v1 H1.
  eapply wp_mono; [apply Hf|]. intros b v2 H2. exact (transitivity H1 H2).
Qed.
Lemma kn_if {A} (b : bool) (m1 m2 : V A) : keeps_names m1 -> keeps_names m2 -> keeps_names (if b then m1 else m2).
Proof. by destruct b. Qed.
Lemma kn_check b e : no_fuel_error e -> keeps_names (check b e).
Proof. intros He. destruct b; [apply kn_ret|by apply kn_fail]. Qed.
Lemma kn_mapM {A B} (f : A -> V B) l : (forall a, keeps_names (f a)) -> keeps_names (mapM f l).
Proof. intros Hf. induction l as [|a l IH]; [apply kn_ret|]. apply kn_bind; [apply Hf|]. intros b. apply kn_bind; [exact IH|]. intros. apply kn_ret. Qed.

(** Nothing these operations do takes fuel. *)
Definition takes_no_fuel {S A} (m : M S A) : Prop := forall s, wp no_fuel_error m (fun _ _ => True) s.
Lemma nf_ret {S A} (a : A) : takes_no_fuel (mret a : M S A).
Proof. intros s. by apply wp_ret. Qed.
Lemma nf_fail {S A} e : no_fuel_error e -> takes_no_fuel (fail e : M S A).
Proof. intros He s. by apply wp_fail. Qed.
Lemma nf_bind {S A B} (m : M S A) (f : A -> M S B) : takes_no_fuel m -> (forall a, takes_no_fuel (f a)) -> takes_no_fuel (m ≫= f).
Proof. intros Hm Hf s. apply wp_bind. eapply wp_mono; [apply Hm|]. intros a s' _. apply Hf. Qed.
Lemma nf_deref r : takes_no_fuel (deref r).
Proof. intros h. unfold wp, deref. by destruct (_ !! _). Qed.
Lemma nf_allocate o : takes_no_fuel (allocate o).
Proof. by intros h. Qed.
Lemma nf_write r o : takes_no_fuel (write r o).
Proof. by intros h. Qed.
Create HintDb names.
#[export] Hint Resolve nf_ret nf_fail nf_deref nf_allocate nf_write no_fuel_assert no_fuel_ub no_fuel_aborted : names.
Ltac nf := repeat first [apply nf_bind; [|intros ?] | solve [auto with names] | match goal with |- takes_no_fuel (match ?x with _ => _ end) => destruct x end].
Lemma nf_AllocateArray n : takes_no_fuel (AllocateArray n).
Proof. unfold AllocateArray. nf. Qed.
Lemma nf_AsArray v : takes_no_fuel (AsArray v).
Proof. unfold AsArray. nf. Qed.
Lemma nf_PutFieldImpl base i v : takes_no_fuel (PutFieldImpl base i v).
Proof. unfold PutFieldImpl, fields_of. nf. Qed.
Lemma nf_Instantiate c n : takes_no_fuel (Objects.Instantiate c n).
Proof. unfold Objects.Instantiate. nf. Qed.
Lemma nf_field_names syms : takes_no_fuel (field_names syms).
Proof. induction syms as [|v syms IH]; simpl; nf. Qed.
#[export] Hint Resolve nf_AllocateArray nf_AsArray nf_PutFieldImpl nf_Instantiate nf_field_names : names.

Lemma kn_str {A} (m : M StrState A) :
  (forall st, wp no_fuel_error m (fun _ st' => st_interner st' = st_interner st) st) -> keeps_names (on_str m).
Proof.
  intros Hm v. pose proof (Hm (vm_str v)) as H. unfold wp, on_str in *. by destruct (m (vm_str v)) as [[a st]|e].
Qed.
Lemma kn_objects {A} (m : HM A) : takes_no_fuel m -> keeps_names (on_objects m).
Proof.
  intros Hm. apply kn_str. intros st. pose proof (Hm (st_heap st)) as H. unfold wp, on_heap in *. by destruct (m _) as [[b h]|e].
Qed.
Lemma wp_symbol ord st : wp no_fuel_error (GetInternedSymbol ord) (fun _ st' => st_interner st' = st_interner st) st.
Proof.
  unfold wp, GetInternedSymbol, get_object. destruct (m_list _ !! ord) as [[str h]|]; [|done]. simpl.
  by destruct (_ !! ord) as [[r|]|].
Qed.
Lemma kn_symbol ord : keeps_names (on_str (GetInternedSymbol ord)).
Proof. apply kn_str. apply wp_symbol. Qed.
Lemma kn_string ord : keeps_names (on_str (GetInternedString ord)).
Proof.
  apply kn_str. intros st. unfold wp, GetInternedString, get_object. destruct (m_list _ !! ord) as [[str h]|]; [|done]. simpl.
  by destruct (_ !! ord) as [[r|]|].
Qed.
Lemma kn_modify f : (forall v, same_names v (f v)) -> keeps_names (modify f).
Proof. intros Hf v. by apply wp_modify. Qed.

#[export] Hint Resolve kn_ret kn_fail kn_check kn_objects kn_symbol kn_string : names.
Ltac kn := repeat first [apply kn_bind; [|intros ?] | apply kn_if | solve [auto with names]
  | match goal with |- keeps_names (match ?x with _ => _ end) => destruct x end].

(** A method has no upvalues to fill in. *)
Lemma kn_method_function cb base parent selfOrd : keeps_names (CreateAndFillUpvalues cb [] base parent selfOrd).
Proof.
  unfold CreateAndFillUpvalues, FunctionObject_Create, set_upvalues. simpl. kn.
  - intros v. by unfold wp, new_function.
  - by apply kn_modify.
Qed.
Lemma kn_literal objs c : keeps_names (literal_value objs c).
Proof. unfold literal_value. kn. Qed.
#[export] Hint Resolve kn_method_function kn_literal : names.

(** ** Method tables in a growing interner *)
Definition valid_ids (it : StringInterner) (own : list (@MethInfo nat)) : Prop :=
  Forall (fun i => (0 <= m_stringId i < Z.of_nat (length (m_list it)))%Z) own.
Definition keys_ok (it : StringInterner) (m : gmap Z (option nat)) : Prop :=
  forall k v, m !! k = Some v -> (0 <= k < Z.of_nat (length (m_list it)))%Z.
(** No ordinal is the marker of an empty slot. *)
Definition has_room (it : StringInterner) : Prop := (Z.of_nat (length (m_list it)) < 2 ^ 32 - 1)%Z.

Lemma le_length it it' : interner_le it it' -> length (m_list it) <= length (m_list it').
Proof. apply prefix_length. Qed.
Lemma has_room_le it it' : interner_le it it' -> has_room it' -> has_room it.
Proof. intros Hle%le_length. unfold has_room. lia. Qed.
Lemma valid_ids_le it it' own : interner_le it it' -> valid_ids it own -> valid_ids it' own.
Proof. intros Hle%le_length H. eapply Forall_impl; [exact H|]. intros i Hi. simpl in *. lia. Qed.
Lemma keys_ok_le it it' m : interner_le it it' -> keys_ok it m -> keys_ok it' m.
Proof. intros Hle%le_length Hk k v Hm. apply Hk in Hm. lia. Qed.
Lemma valid_ids_methods it own : has_room it -> valid_ids it own -> valid_methods own.
Proof. intros Hr H. eapply Forall_impl; [exact H|]. intros i Hi. unfold has_room, x_emptyId in *. simpl in *. lia. Qed.
Lemma methods_map_keys it m own : keys_ok it m -> valid_ids it own -> keys_ok it (methods_map m own).
Proof.
  intros Hm Hown k v. rewrite methods_map_lookup. destruct (declared own k) as [f|] eqn:E; [|by apply Hm].
  intros _. clear Hm. induction own as [|i own IH]; [done|]. apply Forall_cons in Hown as [Hi Hown]. simpl in E.
  destruct (declared own k); [by apply IH|]. destruct (decide (m_stringId i = k)) as [<-|]; [exact Hi|done].
Qed.

Lemma hash64_le it it' k : interner_le it it' -> (0 <= k < Z.of_nat (length (m_list it)))%Z -> hash64_of it' k = hash64_of it k.
Proof.
  intros Hle Hk. unfold hash64_of. destruct (lookup_lt_is_Some_2 (m_list it) (Z.to_nat k)) as [[s h] Hs]; [lia|].
  by rewrite Hs, (interner_le_lookup _ _ _ _ Hle Hs).
Qed.

Lemma represents_le it it' (t : list (@MethodHtEntry nat)) m :
  interner_le it it' -> keys_ok it m -> represents (hash64_of it) t m -> represents (hash64_of it') t m.
Proof.
  intros Hle Hk [Hs Hslot Hu Hm]. split; [done| |done..]. intros i k v Ho.
  assert (Hkv : m !! k = Some v) by (apply Hm; eauto). apply Hk in Hkv. specialize (Hslot i k v Ho).
  unfold is_slot in *. by rewrite (hash64_le it it' k Hle Hkv).
Qed.
Lemma class_represents_le it it' c m :
  interner_le it it' -> keys_ok it m -> class_represents (hash64_of it) c m -> class_represents (hash64_of it') c m.
Proof. intros Hle Hk [Hmask Ht]. split; [done|]. by eapply represents_le. Qed.

(** A class created in a test build holds its superclass's methods, overridden by its own. *)
Lemma Create_represents h (sc : option (@SOMClass nat)) methods fields pre (c : @SOMClass nat) m :
  match sc with None => m = ∅ | Some c => class_represents h c m end -> valid_methods methods ->
  MethodTable.Create true h sc methods fields pre = Ok c ->
  class_represents h c (methods_map m methods) /\ c_methods c = methods /\
  c_fields c = match sc with None => [] | Some s => c_fields s end ++ fields.
Proof.
  intros Hsc Hv. unfold MethodTable.Create.
  pose proof (insertMethods_spec true h methods _ m (CloneFrom_represents h sc m Hsc) Hv) as Hwp. unfold wp in Hwp.
  destruct (insertMethods true h methods (CloneFrom sc)) as [[[] t]|e]; simpl; [|done].
  destruct Hwp as (m' & R & _ & Htb). rewrite (Htb eq_refl) in R.
  repeat (match goal with |- context [if ?b then _ else _] => destruct b; [done|] end). intros Hc. injection Hc as <-. split_and!; [|done|done]. by split.
Qed.

(** ** The method table never runs out of fuel, whatever it holds *)
Section no_fuel.
Context (h : Z -> Z).
Notation T := (list (@MethodHtEntry nat)).
Definition keeps_size {A} (m : M T A) : Prop := forall t, wp no_fuel_error m (fun _ t' => length t' = length t) t.

Lemma ks_bind {A B} (m : M T A) (f : A -> M T B) : keeps_size m -> (forall a, keeps_size (f a)) -> keeps_size (m ≫= f).
Proof. intros Hm Hf t. apply wp_bind. eapply wp_mono; [apply Hm|]. intros a t1 <-. apply Hf. Qed.
Lemma ks_ret {A} (a : A) : keeps_size (mret a).
Proof. intros t. by apply wp_ret. Qed.
Lemma ks_at i : keeps_size (at_slot i).
Proof. intros t. unfold wp, at_slot. by destruct (_ !! _). Qed.
Lemma ks_set i e : keeps_size (set_slot i e).
Proof. intros t. unfold wp, set_slot. destruct (decide _); [by rewrite length_insert|done]. Qed.
Lemma ks_slots key : keeps_size (GetHashSlots h key).
Proof. by intros t. Qed.
Lemma ks_check b e : no_fuel_error e -> keeps_size (check b e).
Proof. intros He t. apply wp_check; auto. Qed.
Lemma ks_if {A} (b : bool) (m1 m2 : M T A) : keeps_size m1 -> keeps_size m2 -> keeps_size (if b then m1 else m2).
Proof. by destruct b. Qed.
Ltac ks := repeat (lazymatch goal with
  | |- keeps_size (_ ≫= _) => apply ks_bind; [|intros ?]
  | |- keeps_size (mret _) => apply ks_ret
  | |- keeps_size (at_slot _) => apply ks_at
  | |- keeps_size (set_slot _ _) => apply ks_set
  | |- keeps_size (GetHashSlots _ _) => apply ks_slots
  | |- keeps_size (check _ _) => by apply ks_check
  | |- keeps_size (if _ then _ else _) => apply ks_if
  | |- keeps_size (let '(_, _) := ?x in _) => destruct x end).

Lemma ks_evict rounds key value v : keeps_size (evict true h rounds key value v).
Proof. revert key value v. induction rounds as [|rounds IH]; intros key value v; simpl; ks; apply IH. Qed.
Lemma ks_TryInsert key value : keeps_size (TryInsert true h key value).
Proof. unfold TryInsert. ks. apply ks_evict. Qed.
Lemma ks_reinsert old : keeps_size (reinsert true h old).
Proof. induction old as [|e old IH]; simpl; ks; first [apply ks_TryInsert|exact IH]. Qed.

Lemma Insert_loop_fuel fuel resized k v (t : T) : 0 < fuel -> length t = 0 \/ 2 ^ 16 < length t * 2 ^ fuel ->
  wp no_fuel_error (Insert_loop true h fuel resized k v) (fun _ _ => True) t.
Proof.
  revert resized k v t. induction fuel as [|fuel IH]; intros resized k v t Hf Hlen; [lia|]. simpl Insert_loop.
  apply wp_bind. destruct Hlen as [Hlen|Hlen]; [by destruct t|].
  eapply wp_mono; [apply ks_TryInsert|]. intros [[res k'] v'] t1 Ht1. apply wp_bind, wp_check; [intros _|done].
  destruct (decide (res = Failed)); [|by apply wp_ret]. unfold Resize.
  apply wp_bind, wp_bind, wp_get, wp_bind, wp_check; [intros Hle%Z.leb_le|done]. apply wp_bind, wp_put.
  eapply wp_mono; [apply ks_reinsert|]. intros u t2 Ht2. rewrite length_replicate, Ht1 in Ht2. rewrite (Nat.pow_succ_r' 2 fuel) in Hlen.
  rewrite Ht1 in Hle. apply IH; [|right; rewrite Ht2; by rewrite <-Nat.mul_assoc].
  destruct fuel; [|lia]. assert (H16 : Z.of_nat (2 ^ 16) = 65536%Z) by (rewrite Nat2Z.inj_pow; reflexivity).
  rewrite Nat.pow_0_r, Nat.mul_1_r in Hlen. revert Hlen H16. generalize (2 ^ 16). lia.
Qed.
Lemma nf_insertMethods (methods : list (@MethInfo nat)) : takes_no_fuel (insertMethods true h methods).
Proof.
  induction methods as [|i methods IH]; intros t; simpl; [by apply wp_ret|]. apply wp_bind.
  eapply wp_mono; [apply Insert_loop_fuel; [lia|]|]; [|intros _ t' _; apply IH].
  destruct (length t) as [|n] eqn:E; [by left|right]. apply Nat.lt_le_trans with (1 * 2 ^ 18); [|apply Nat.mul_le_mono_r; lia].
  rewrite Nat.mul_1_l. apply Nat.pow_lt_mono_r; lia.
Qed.
Lemma Create_fuel (sc : option (@SOMClass nat)) methods fields pre : MethodTable.Create true h sc methods fields pre <> Err OutOfFuel.
Proof.
  unfold MethodTable.Create. pose proof (nf_insertMethods methods (CloneFrom sc)) as H. unfold wp in H.
  destruct (insertMethods true h methods (CloneFrom sc)) as [[u t]|e]; simpl; [|congruence].
  by repeat (match goal with |- context [if ?b then _ else _] => destruct b end).
Qed.
End no_fuel.

(** ** The invariant *)
Notation own ci := (c_methods (ci_class ci)).
Definition inherits (it : StringInterner) (classes : list (option ClassInfo)) (ci : ClassInfo) : Prop :=
  exists m, keys_ok it m /\ class_represents (hash64_of it) (ci_class ci) (methods_map m (own ci)) /\
  match ci_superClass ci with
  | None => m = ∅
  | Some sc => exists sci fields, classes !! sc = Some (Some sci) /\ class_represents (hash64_of it) (ci_class sci) m /\
                 c_fields (ci_class ci) = c_fields (ci_class sci) ++ fields
  end.

Section loading.
Context (HashString : string -> Z) (bcLength : Bytecode -> nat) (bcConstants : Bytecode -> list Cst) (vm : VMStrings).
Context (files : string -> option chars) `{!EncodingLaws bcLength}.

Definition class_at (s : Loader) (c : nat) (ci : ClassInfo) : Prop := ld_classes s !! c = Some (Some ci).

Record loader_inv (s : Loader) : Prop := {
  li_globals : globals_wf HashString (ld_globals s);
  li_started : vm_started HashString vm (ld_interner s);
  li_units u cs i c : ld_units s !! u = Some cs -> cs !! i = Some c -> compiled bcLength cs i c;
  li_parsed id c : m_parsedClasses s !! id = Some c -> exists ci, class_at s c ci;
  li_named id : is_Some (m_parsedClasses s !! id) -> id < length (m_list (ld_interner s));
  li_ids c ci : class_at s c ci -> valid_ids (ld_interner s) (own ci);
  li_classes c ci : has_room (ld_interner s) -> class_at s c ci -> inherits (ld_interner s) (ld_classes s) ci
}.

(** A class keeps all but its class object, which it gets once it is loaded. *)
Definition same_class (ci ci' : ClassInfo) : Prop :=
  ci_class ci' = ci_class ci /\ ci_superClass ci' = ci_superClass ci /\ ci_name ci' = ci_name ci /\
  ci_fields ci' = ci_fields ci /\ ci_methods ci' = ci_methods ci.
#[export] Instance same_class_preorder : PreOrder same_class.
Proof. split; [done|]. intros c1 c2 c3 (?&?&?&?&?) (?&?&?&?&?). split_and!; congruence. Qed.

Record loader_le (s s' : Loader) : Prop := {
  le_interner : interner_le (ld_interner s) (ld_interner s');
  le_units : ld_units s `prefix_of` ld_units s';
  le_parsed id : is_Some (m_parsedClasses s !! id) -> is_Some (m_parsedClasses s' !! id);
  le_count : length (ld_classes s) <= length (ld_classes s');
  le_classes c ci : class_at s c ci -> exists ci', class_at s' c ci' /\ same_class ci ci'
}.
#[export] Instance loader_le_preorder : PreOrder loader_le.
Proof.
  split.
  - intros s. split; [reflexivity|reflexivity|done|reflexivity|]. intros c ci Hc. by exists ci.
  - intros s1 s2 s3 [A1 A2 A3 A5 A4] [B1 B2 B3 B5 B4]. split; [by etrans|by etrans|by auto|by etrans|].
    intros c ci Hc. destruct (A4 c ci Hc) as (ci2 & H2 & S2). destruct (B4 c ci2 H2) as (ci3 & H3 & S3).
    exists ci3. split; [done|by etrans].
Qed.

(** Classes allocated at start-up that have not been initialised stay so. *)
Definition untouched (s s' : Loader) : Prop := forall c, ld_classes s !! c = Some None -> ld_classes s' !! c = Some None.
#[export] Instance untouched_preorder : PreOrder untouched.
Proof. split; [by intros s c|]. intros s1 s2 s3 H1 H2 c Hc. auto. Qed.

Lemma inherits_le s s' ci : loader_le s s' -> inherits (ld_interner s) (ld_classes s) ci ->
  valid_ids (ld_interner s) (own ci) -> inherits (ld_interner s') (ld_classes s') ci.
Proof.
  intros Hle (m & Hk & Hr & Hsup) Hids. pose proof (le_interner _ _ Hle) as Hi. exists m. split_and!.
  - by eapply keys_ok_le.
  - eapply class_represents_le; [exact Hi| |exact Hr]. by apply methods_map_keys.
  - destruct (ci_superClass ci) as [sc|]; [|done]. destruct Hsup as (sci & fields & Hsc & Hrs & Hf).
    destruct (le_classes _ _ Hle sc sci Hsc) as (sci' & Hsc' & Hsame & _). exists sci', fields. rewrite Hsame.
    split_and!; [done| |done]. by eapply class_represents_le.
Qed.

(** ** The pass: operations that keep the invariant and add to the state *)
Definition good_step {A} (m : Loading.D A) (R : A -> Loader -> Prop) : Prop := forall s, loader_inv s ->
  wp no_fuel_error m (fun a s' => loader_inv s' /\ (loader_le s s' /\ untouched s s') /\ R a s') s.
Definition any_result {A} : A -> Loader -> Prop := fun _ _ => True.

Lemma gs_ret {A} (a : A) : good_step (mret a) any_result.
Proof. intros s Hs. apply wp_ret. done. Qed.
Lemma gs_fail {A} e (R : A -> Loader -> Prop) : no_fuel_error e -> good_step (fail e) R.
Proof. intros He s Hs. exact He. Qed.
Lemma gs_bind {A B} (m : Loading.D A) (f : A -> Loading.D B) R R' :
  good_step m R -> (forall a s, loader_inv s -> R a s ->
    wp no_fuel_error (f a) (fun b s' => loader_inv s' /\ (loader_le s s' /\ untouched s s') /\ R' b s') s) -> good_step (m ≫= f) R'.
Proof.
  intros Hm Hf s Hs. apply wp_bind. eapply wp_mono; [by apply Hm|]. intros a s1 (H1 & [L1 U1] & HR).
  eapply wp_mono; [by apply Hf|]. intros b s2 (H2 & [L2 U2] & HR'). split_and!; [done|by etrans|by etrans|done].
Qed.
Lemma gs_wp {A B} (m : Loading.D A) (f : A -> Loading.D B) R s (Q : B -> Loader -> Prop) :
  good_step m R -> loader_inv s ->
  (forall a s', loader_inv s' -> loader_le s s' -> untouched s s' -> R a s' -> wp no_fuel_error (f a) Q s') -> wp no_fuel_error (m ≫= f) Q s.
Proof. intros Hm Hs Hf. apply wp_bind. eapply wp_mono; [by apply Hm|]. intros a s1 (H1 & [L1 U1] & HR). by apply Hf. Qed.
Lemma gs_seq {A B} (m : Loading.D A) (f : A -> Loading.D B) R :
  good_step m any_result -> (forall a, good_step (f a) R) -> good_step (m ≫= f) R.
Proof. intros Hm Hf. eapply gs_bind; [exact Hm|]. intros a s Hs _. by apply Hf. Qed.
Lemma gs_weaken {A} (m : Loading.D A) (R R' : A -> Loader -> Prop) : (forall a s, R a s -> R' a s) -> good_step m R -> good_step m R'.
Proof. intros HR Hm s Hs. eapply wp_mono; [by apply Hm|]. intros a s' (?&?&?). split_and!; auto; apply H0. Qed.
Lemma gs_any {A} (m : Loading.D A) R : good_step m R -> good_step m any_result.
Proof. by apply gs_weaken. Qed.
Lemma gs_if {A} (b : bool) (m1 m2 : Loading.D A) R : good_step m1 R -> good_step m2 R -> good_step (if b then m1 else m2) R.
Proof. by destruct b. Qed.
Lemma gs_check b e : no_fuel_error e -> good_step (check b e) any_result.
Proof. intros He. destruct b; [apply gs_ret|by apply gs_fail]. Qed.
Lemma gs_gets {A} (f : Loader -> A) : good_step (gets f) (fun a s => a = f s).
Proof. intros s Hs. by apply wp_gets. Qed.
Lemma gs_lift {A} (r : result A) : r <> Err OutOfFuel -> good_step (lift_result r) (fun a _ => r = Ok a).
Proof. intros Hr s Hs. apply wp_lift_result. destruct r as [a|e]; [done|]. intros ->. by apply Hr. Qed.
Lemma gs_mapM {A B} (f : A -> Loading.D B) l : (forall a, good_step (f a) any_result) -> good_step (mapM f l) any_result.
Proof.
  intros Hf. induction l as [|a l IH]; [apply gs_ret|]. apply gs_seq; [apply Hf|]. intros b. apply gs_seq; [exact IH|].
  intros bs. apply gs_ret.
Qed.

(** ** Operations that create no class *)
Lemma inv_update s s' us : loader_inv s ->
  globals_wf HashString (ld_globals s') -> interner_le (ld_interner s) (ld_interner s') ->
  ld_units s' = ld_units s ++ us -> (forall cs i c, cs ∈ us -> cs !! i = Some c -> compiled bcLength cs i c) ->
  m_parsedClasses s' = m_parsedClasses s -> ld_classes s' = ld_classes s ->
  loader_inv s' /\ (loader_le s s' /\ untouched s s').
Proof.
  intros [Hg Hst Hu Hp Hn Hids Hc] Hg' Hle Hus Hnew Hpar Hcl.
  assert (Hl : loader_le s s').
  { split; [done|rewrite Hus; by eexists|by rewrite Hpar|by rewrite Hcl|]. unfold class_at. rewrite Hcl.
    intros c ci Hci. by exists ci. }
  split; [|split; [exact Hl|intros c; by rewrite Hcl]]. split.
  - exact Hg'.
  - destruct Hst as [_ (it0 & Hrun & Hle0)]. split; [apply Hg'|]. exists it0. split; [done|by etrans].
  - rewrite Hus. intros u cs i c Hcs. apply lookup_app_Some in Hcs as [Hcs|[_ Hcs]]; [by eapply Hu|].
    apply Hnew. by eapply list_elem_of_lookup_2.
  - unfold class_at. rewrite Hpar, Hcl. exact Hp.
  - rewrite Hpar. intros id Hid. apply Hn in Hid. apply le_length in Hle. lia.
  - unfold class_at. rewrite Hcl. intros c ci Hci. eapply valid_ids_le; [exact Hle|by eapply Hids].
  - unfold class_at. intros c ci Hr Hci. rewrite Hcl in Hci. eapply inherits_le; [exact Hl| |by eapply Hids].
    eapply Hc; [|exact Hci]. by eapply has_room_le.
Qed.

Lemma inv_same s s' : loader_inv s -> ld_globals s' = ld_globals s -> ld_units s' = ld_units s ->
  m_parsedClasses s' = m_parsedClasses s -> ld_classes s' = ld_classes s ->
  loader_inv s' /\ (loader_le s s' /\ untouched s s').
Proof.
  intros Hs Hg Hu. change (ld_interner s') with (g_interner (ld_globals s')). apply (inv_update _ _ []); try done.
  - rewrite Hg. apply Hs.
  - change (ld_interner s') with (g_interner (ld_globals s')). by rewrite Hg.
  - by rewrite app_nil_r.
  - intros cs i c H. by apply not_elem_of_nil in H.
Qed.

Lemma gs_machine {A} (m : V A) : keeps_names m -> good_step (on_machine m) any_result.
Proof.
  intros Hm s Hs. pose proof (Hm (ld_vm s)) as H. unfold wp, on_machine in *.
  destruct (m (ld_vm s)) as [[a v]|e]; [|done]. destruct H as [H1 H2]. simpl.
  assert (Hi : loader_inv (with_vm v s) /\ loader_le s (with_vm v s) /\ untouched s (with_vm v s)).
  { apply inv_same; try done. unfold ld_globals, ld_interner. simpl. by rewrite H1, H2. }
  by destruct Hi as (?&?&?).
Qed.
Lemma gs_modify f : (forall s, ld_globals (f s) = ld_globals s /\ ld_units (f s) = ld_units s /\
    m_parsedClasses (f s) = m_parsedClasses s /\ ld_classes (f s) = ld_classes s) -> good_step (modify f) any_result.
Proof.
  intros Hf s Hs. apply wp_modify. destruct (Hf s) as (H1 & H2 & H3 & H4). destruct (inv_same _ _ Hs H1 H2 H3 H4). done.
Qed.

Lemma globals_wf_grow {X} (g : Globals X) it : globals_wf HashString g -> interner_wf HashString it -> interner_le (g_interner g) it ->
  globals_wf HashString (mk_globals it (m_globalIdxMap g) (m_globalStringIdWithIndex g) (m_globalsVec g)).
Proof.
  intros (H1 & H2 & H3 & H4) Hwf Hle. split_and!; [done..|]. simpl. intros ord idx Hi. apply H4 in Hi.
  apply le_length in Hle. lia.
Qed.

(** Interning a name, from the loader and from the parser. *)
Definition interned (str : string) (s : Loader) : Loader := with_vm (with_interner (InternString HashString str (ld_interner s)).2 (ld_vm s)) s.
Lemma inv_interned str s : loader_inv s ->
  loader_inv (interned str s) /\ (loader_le s (interned str s) /\ untouched s (interned str s)) /\
  Interner.Get (InternString HashString str (ld_interner s)).1 (ld_interner (interned str s)) = Ok str.
Proof.
  intros Hs. pose proof (proj1 (li_globals _ Hs)) as Hwf. change (g_interner (ld_globals s)) with (ld_interner s) in Hwf.
  pose proof (InternString_le HashString str (ld_interner s)) as Hle.
  pose proof (InternString_wf HashString str _ Hwf) as Hwf'. pose proof (InternString_lookup HashString str _ Hwf) as Hlk.
  assert (Hi : loader_inv (interned str s) /\ loader_le s (interned str s) /\ untouched s (interned str s)).
  { apply (inv_update _ _ []); try done.
    - apply (globals_wf_grow (ld_globals s)); [apply Hs|done|done].
    - unfold interned. simpl. by rewrite app_nil_r.
    - intros cs i c H. by apply not_elem_of_nil in H. }
  destruct Hi as (?&?&?). split_and!; [done..|]. unfold interned, ld_interner. simpl. by eapply Get_lookup.
Qed.
Lemma gs_intern str : good_step (intern HashString str) (fun ord s => Interner.Get ord (ld_interner s) = Ok str).
Proof.
  intros s Hs. destruct (inv_interned str s Hs) as (H1 & H2 & H3). unfold wp, intern, on_machine, on_str, InternStr.
  unfold interned in *. change (st_interner (vm_str (ld_vm s))) with (ld_interner s).
  destruct (InternString HashString str (ld_interner s)) as [ord it]. simpl in *. done.
Qed.

(** The ordinals of names. *)
Definition names_at (s : Loader) (ids : list nat) (names : list string) : Prop :=
  Forall2 (fun id name => Interner.Get id (ld_interner s) = Ok name) ids names.
Lemma names_at_le s s' ids names : loader_le s s' -> names_at s ids names -> names_at s' ids names.
Proof.
  intros Hle H. eapply Forall2_impl; [exact H|]. intros id name Hid. apply Get_Ok_lookup in Hid as [h Hh].
  eapply Get_lookup, interner_le_lookup; [apply Hle|exact Hh].
Qed.
Lemma gs_intern_all names : good_step (mapM (intern HashString) names) (fun ids s => names_at s ids names).
Proof.
  induction names as [|name names IH]; intros s Hs; [apply wp_ret; split_and!; [done|reflexivity|reflexivity|constructor]|].
  apply wp_bind. eapply wp_mono; [by apply gs_intern|]. intros id s1 (H1 & [L1 U1] & Hid). apply wp_bind.
  eapply wp_mono; [by apply IH|]. intros ids s2 (H2 & [L2 U2] & Hids). apply wp_ret. split_and!; [done|by etrans|by etrans|].
  constructor; [|done]. apply Get_Ok_lookup in Hid as [h Hh]. eapply Get_lookup, interner_le_lookup; [apply L2|exact Hh].
Qed.

Lemma gs_SetSOMGlobal key value : good_step (SetSOMGlobal HashString key value) any_result.
Proof.
  intros s Hs. unfold wp, SetSOMGlobal. pose proof (GetSlotForGlobal_wf HashString key _ (li_globals _ Hs)) as (H1 & H2 & H3 & H4).
  pose proof (GetSlotForGlobal_le HashString key (ld_globals s)) as Hle. destruct (GetSlotForGlobal HashString key (ld_globals s)) as [slot g].
  simpl in *. destruct (m_globalsVec g !! slot) as [[w|]|] eqn:E; [done| |done].
  set (s' := with_globals _ s). assert (Hi : loader_inv s' /\ loader_le s s' /\ untouched s s').
  { apply (inv_update _ _ []); try done.
    - split_and!; simpl; [done|by rewrite length_insert|done|done].
    - unfold s'. simpl. by rewrite app_nil_r.
    - intros cs i c H. by apply not_elem_of_nil in H. }
  by destruct Hi as (?&?&?).
Qed.

(** ** Compiling the methods of a class *)
Definition step_to (s s' : Loader) : Prop := loader_inv s' /\ (loader_le s s' /\ untouched s s').
Lemma step_trans s1 s2 s3 : step_to s1 s2 -> step_to s2 s3 -> step_to s1 s3.
Proof. intros (A1 & A2 & A3) (B1 & B2 & B3). split_and!; [done|by etrans|by etrans]. Qed.

Lemma gs_allocate_arrays arrays : good_step (allocate_arrays arrays) any_result.
Proof.
  induction arrays as [|es arrays IH]; simpl; [apply gs_ret|].
  apply gs_seq; [apply gs_machine; auto with names|]. intros o. apply gs_seq; [by apply gs_modify|]. intros _. exact IH.
Qed.
Lemma gs_fill_arrays addr arrays : good_step (fill_arrays addr arrays) any_result.
Proof.
  revert addr. induction arrays as [|es arrays IH]; intros addr; simpl; [apply gs_ret|].
  apply gs_seq; [eapply gs_any, gs_gets|]. intros objs.
  apply gs_seq; [apply gs_machine, kn_mapM; auto with names|]. intros vs.
  apply gs_seq; [|intros _; apply IH]. destruct (objs !! addr); [apply gs_machine; auto with names|by apply gs_fail].
Qed.
Lemma create_code_blocks_fuel u i cs : create_code_blocks u i cs <> Err OutOfFuel.
Proof.
  revert i. induction cs as [|c cs IH]; intros i; simpl; [done|]. unfold CodeBlock_Create. destruct (_ && _); [done|]. simpl.
  specialize (IH (S i)). by destruct (create_code_blocks u (S i) cs).
Qed.
Lemma gs_method_function u cs : (forall c, cs !! 0 = Some c -> m_upvalueInfo (m_resultUcb c) = []) ->
  good_step (method_function u cs) any_result.
Proof.
  intros Hno. unfold method_function. apply gs_seq; [eapply gs_any, gs_lift, create_code_blocks_fuel|]. intros cbs.
  destruct cbs as [|cb cbs]; [by apply gs_fail|]. destruct cs as [|c cs]; [by apply gs_fail|]. apply gs_machine. rewrite (Hno c eq_refl). auto with names.
Qed.

(** A method the compiler takes, with a selector that has been interned. *)
Definition fits_at (s : Loader) (meth : AstMethod) : Prop :=
  wf_method (ld_interner s) meth = true /\ m_selectorName meth < length (m_list (ld_interner s)).
Lemma fits_at_le s s' meth : loader_le s s' -> fits_at s meth -> fits_at s' meth.
Proof.
  intros Hle [H1 H2]. pose proof (le_interner _ _ Hle) as Hi. split; [by eapply wf_body_le|].
  apply le_length in Hi. lia.
Qed.
Lemma all_fit_le s s' meths : loader_le s s' -> Forall (fits_at s) meths -> Forall (fits_at s') meths.
Proof. intros Hle H. eapply Forall_impl; [exact H|]. intros m. by apply fits_at_le. Qed.

Lemma wp_compile_method sc fieldMap isSelf meth s : loader_inv s -> fits_at s meth ->
  wp no_fuel_error (compile_method HashString bcLength bcConstants vm sc fieldMap isSelf meth) (fun _ s' => step_to s s') s.
Proof.
  intros Hs [Hwf _]. unfold compile_method. apply wp_bind, wp_get, wp_bind, wp_lift_result.
  assert (Hc : compilable HashString (ast_list_size (am_body meth)) (mk_env vm fieldMap isSelf sc) meth
    (mk_cstate (ld_globals s) [] [] [] ∅ (ld_arrays s))).
  { split; [exact (li_started _ Hs)|exact (li_globals _ Hs)|exact Hwf|exact (le_n _)]. }
  pose proof (CompileMethod_wp HashString bcLength bcConstants (ast_list_size (am_body meth)) (mk_env vm fieldMap isSelf sc) meth
    (mk_cstate (ld_globals s) [] [] [] ∅ (ld_arrays s)) Hc) as H.
  unfold wp at 1 in H. destruct (CompileMethod _ _ _ _ _ _ _) as [[u cs]|e]; [|destruct H as [[? ->]|[->|[->|[_ ->]]]]; done]. destruct H as (_ & Hcomp & Hg & Hle).
  cbv iota beta. apply wp_bind, wp_put.
  match goal with |- wp _ _ _ ?st => set (s1 := st) end.
  assert (H1 : step_to s s1).
  { apply (inv_update _ _ [cs_ctxs cs]); try done. intros cs' i c ->%list_elem_of_singleton. apply Hcomp. }
  pose proof (proj1 H1) as Hs1.
  eapply gs_wp; [apply gs_allocate_arrays|exact Hs1|]. intros _ s2 Hs2 L2 U2 _.
  eapply gs_wp; [apply gs_fill_arrays|exact Hs2|]. intros _ s3 Hs3 L3 U3 _.
  eapply wp_mono; [apply gs_method_function; [intros c Hc0; by apply (cd_method _ _ _ _ (Hcomp 0 c Hc0))|done]|]. intros r s4 (H4 & H4' & _).
  apply (step_trans _ s1); [exact H1|]. apply (step_trans _ s2); [done|]. by apply (step_trans _ s3).
Qed.

Lemma nf_primitive className methName side : takes_no_fuel (Primitives.Get className methName side).
Proof.
  unfold Primitives.Get, GetUnimplementedPrimitive, InitFnObj, entry, set_entry, new_string, Primitives.new_function, check. nf; by intros s.
Qed.
Lemma gs_primitive_function className methName side : good_step (primitive_function className methName side) any_result.
Proof.
  intros s Hs. unfold wp, primitive_function.
  match goal with |- context [Primitives.Get ?c ?m ?b ?st] => pose proof (nf_primitive c m b st) as Hf; unfold wp in Hf;
    destruct (Primitives.Get c m b st) as [[fn p]|e]; [|done] end. simpl.
  match goal with |- loader_inv ?st /\ _ => set (s' := st) end.
  assert (H : step_to s s') by (by apply inv_same). by destruct H as (?&?&?).
Qed.
Lemma GetHash_fuel ord it : GetHash ord it <> Err OutOfFuel.
Proof. unfold GetHash. by destruct (_ !! ord) as [[? ?]|]. Qed.
Lemma GetMethod_fuel (cl : @SOMClass nat) name : GetMethod cl name <> Err OutOfFuel.
Proof. unfold GetMethod. repeat (case_match; try done). Qed.
Lemma Get_fuel ord it : Interner.Get ord it <> Err OutOfFuel.
Proof. unfold Interner.Get. by destruct (_ !! ord) as [[? ?]|]. Qed.
Lemma gs_name_of ord : good_step (name_of ord) (fun n s => Interner.Get ord (ld_interner s) = Ok n).
Proof.
  intros s Hs. unfold wp, name_of, lift_result. pose proof (Get_fuel ord (ld_interner s)) as Hf.
  destruct (Interner.Get _ _) as [n|e] eqn:E; [|intros ->; by apply Hf]. split_and!; done.
Qed.

Lemma wp_compile_methods className side sc fieldMap isSelf methods s : loader_inv s -> Forall (fits_at s) methods ->
  wp no_fuel_error (compile_methods HashString bcLength bcConstants vm className side sc fieldMap isSelf methods)
    (fun r s' => step_to s s' /\ r.*1 = methods) s.
Proof.
  revert s. induction methods as [|meth methods IH]; intros s Hs Hall; simpl; [by apply wp_ret|].
  apply Forall_cons in Hall as [Hm Hall]. apply wp_bind. eapply (wp_mono _ _ (fun _ s' => step_to s s')).
  - destruct (Ast.m_isPrimitive meth); [|by apply wp_compile_method].
    eapply gs_wp; [apply gs_name_of|exact Hs|]. intros name s1 Hs1 L1 U1 _.
    eapply wp_mono; [by apply gs_primitive_function|]. intros f s2 (H2 & H2' & _).
    by apply (step_trans _ s1).
  - intros fn s1 H1. apply wp_bind. eapply wp_mono; [apply IH; [apply H1|eapply all_fit_le; [apply H1|exact Hall]]|].
    intros r s2 [H2 Hr]. apply wp_ret. split; [by eapply step_trans|]. csimpl. by rewrite Hr.
Qed.

(** ** Creating classes *)
Lemma inherits_same it classes ci ci' : same_class ci ci' -> inherits it classes ci -> inherits it classes ci'.
Proof. intros (H1 & H2 & _) (m & Hm). exists m. by rewrite H1, H2. Qed.

(** The table of classes changes: what was there stays, what is new fits. *)
Lemma inv_classes s cs : loader_inv s -> length (ld_classes s) <= length cs ->
  (forall c ci, class_at s c ci -> exists ci', cs !! c = Some (Some ci') /\ same_class ci ci') ->
  (forall c ci', cs !! c = Some (Some ci') -> (exists ci, class_at s c ci /\ same_class ci ci') \/
     (valid_ids (ld_interner s) (own ci') /\ (has_room (ld_interner s) -> inherits (ld_interner s) (ld_classes s) ci'))) ->
  loader_inv (with_classes cs s) /\ loader_le s (with_classes cs s).
Proof.
  intros Hs Hlen Hold Hnew. assert (Hl : loader_le s (with_classes cs s)) by (split; [reflexivity|reflexivity|done|exact Hlen|exact Hold]).
  split; [|exact Hl]. destruct Hs as [Hg Hst Hu Hp Hn Hids Hc]. split; [exact Hg|exact Hst|exact Hu| |exact Hn| |].
  - intros id c Hpc. destruct (Hp id c Hpc) as [ci Hci]. destruct (Hold c ci Hci) as (ci' & Hci' & _). by exists ci'.
  - intros c ci' Hci'. destruct (Hnew c ci' Hci') as [(ci & Hci & Hsame & _)|[Hv _]]; [|exact Hv].
    simpl. rewrite Hsame. by eapply Hids.
  - intros c ci' Hr Hci'. assert (Hb : valid_ids (ld_interner s) (own ci') /\ inherits (ld_interner s) (ld_classes s) ci').
    { destruct (Hnew c ci' Hci') as [(ci & Hci & Hsame)|[Hv Hi]]; [|by split; [|apply Hi]].
      split; [rewrite (proj1 Hsame); by eapply Hids|]. eapply inherits_same; [exact Hsame|]. by eapply Hc. }
    destruct Hb as [Hv Hi]. eapply inherits_le; [exact Hl|exact Hi|exact Hv].
Qed.

Lemma gs_the_info cl : good_step (the_info cl) (fun i s => class_at s cl i).
Proof. intros s Hs. unfold wp, the_info. destruct (ld_classes s !! cl) as [[i|]|] eqn:E; done. Qed.

Lemma gs_set_classObject cl o : good_step (set_classObject cl o) any_result.
Proof.
  unfold set_classObject. eapply gs_bind; [apply gs_the_info|]. intros i s Hs Hi. apply wp_modify.
  set (i' := mk_info _ _ _ _ _ _). assert (Hsame : same_class i i') by done.
  destruct (inv_classes s (<[cl:=Some i']> (ld_classes s)) Hs) as [H1 H2].
  - by rewrite length_insert.
  - intros c ci Hci. destruct (decide (c = cl)) as [->|Hne].
    + assert (ci = i) as -> by (unfold class_at in *; congruence). exists i'. rewrite list_lookup_insert_eq; [done|exact (lookup_lt_Some _ _ _ Hi)].
    + exists ci. rewrite list_lookup_insert_ne by congruence. done.
  - intros c ci' Hci'. left. destruct (decide (c = cl)) as [->|Hne].
    + rewrite list_lookup_insert_eq in Hci' by (exact (lookup_lt_Some _ _ _ Hi)). injection Hci' as <-. by exists i.
    + rewrite list_lookup_insert_ne in Hci' by congruence. by exists ci'.
  - split_and!; [done|done| |done]. intros c Hc. simpl. destruct (decide (c = cl)) as [->|Hne]; [unfold class_at in *; congruence|].
    by rewrite list_lookup_insert_ne by congruence.
Qed.

Lemma gs_method_object meth fn : good_step (method_object meth fn) any_result.
Proof.
  unfold method_object. apply gs_seq; [apply gs_machine; auto with names|]. intros sig.
  apply gs_seq; [apply gs_machine; auto with names|]. intros o. apply gs_ret.
Qed.
Lemma gs_check_methods cl methods : good_step (check_methods cl methods) any_result.
Proof.
  induction methods as [|[m fn] methods IH]; simpl; [apply gs_ret|].
  apply gs_seq; [eapply gs_any, gs_gets|]. intros it. apply gs_seq; [eapply gs_any, gs_lift, GetHash_fuel|]. intros h.
  apply gs_seq; [eapply gs_any, gs_lift, GetMethod_fuel|]. intros found. apply gs_seq; [by apply gs_check|]. intros _. exact IH.
Qed.
Lemma gs_symbols fields : good_step (on_machine (on_str (mapM GetInternedSymbol fields))) any_result.
Proof.
  apply gs_machine, kn_str. induction fields as [|f fields IH]; intros st; [by apply wp_ret|].
  apply wp_bind. eapply wp_mono; [apply wp_symbol|]. intros o st1 H1. apply wp_bind. eapply wp_mono; [apply IH|].
  intros os st2 H2. apply wp_ret. congruence.
Qed.

Definition meth_infos (methods : list (AstMethod * nat)) : list (@MethInfo nat) :=
  (fun '(m, fn) => mk_methinfo (Z.of_nat (m_selectorName m)) fn) <$> methods.
Definition slot_free (pre : option nat) (s : Loader) : Prop :=
  match pre with Some c => ld_classes s !! c = Some None | None => True end.

(** The fields a class starts with: its superclass's. *)
Definition super_fields (superClass : option nat) (s : Loader) (sup : list Z) : Prop :=
  match superClass with None => sup = [] | Some c => exists sci, class_at s c sci /\ sup = c_fields (ci_class sci) end.
Lemma super_fields_le superClass s s' sup : loader_le s s' -> super_fields superClass s sup -> super_fields superClass s' sup.
Proof.
  intros Hle. destruct superClass as [c|]; [|done]. intros (sci & Hc & ->). destruct (le_classes _ _ Hle c sci Hc) as (ci' & Hc' & E & _).
  exists ci'. by rewrite E.
Qed.

(** A class as [SOMClass_Create] leaves it. *)
Record created (pre : option nat) (superClass : option nat) (methods : list (AstMethod * nat)) (fields : list nat) (s : Loader) (res : nat)
    (s' : Loader) : Prop := {
  cr_inv : loader_inv s';
  cr_le : loader_le s s';
  cr_rest c : pre <> Some c -> ld_classes s !! c = Some None -> ld_classes s' !! c = Some None;
  cr_class : exists ci, class_at s' res ci /\ own ci = meth_infos methods /\ ci_superClass ci = superClass /\ ci_classObject ci = None /\
    exists sup, super_fields superClass s' sup /\ c_fields (ci_class ci) = sup ++ (Z.of_nat <$> fields);
  cr_slot : match pre with Some c => res = c | None => length (ld_classes s) <= res end
}.

Lemma app_old_class (s : Loader) info c ci : class_at s c ci -> (ld_classes s ++ [Some info]) !! c = Some (Some ci).
Proof. intros Hc. by apply lookup_app_l_Some. Qed.

(** The end of [SOMClass_Create]: the class goes to its place. *)
Lemma wp_place_class pre info s0 s : loader_inv s -> step_to s0 s -> slot_free pre s ->
  valid_ids (ld_interner s) (own info) -> (has_room (ld_interner s) -> inherits (ld_interner s) (ld_classes s) info) ->
  wp no_fuel_error (match pre with Some c => set_info c info ;; mret c | None => new_info info end)
    (fun res s' => loader_inv s' /\ loader_le s s' /\
       (forall c, pre <> Some c -> ld_classes s !! c = Some None -> ld_classes s' !! c = Some None) /\
       class_at s' res info /\ match pre with Some c => res = c | None => length (ld_classes s0) <= res end) s.
Proof.
  intros Hs (_ & Hle0 & _) Hfree Hids Hinh. destruct pre as [c|]; simpl in Hfree.
  - apply wp_bind, wp_modify, wp_ret.
    destruct (inv_classes s (<[c:=Some info]> (ld_classes s)) Hs) as [H1 H2].
    + by rewrite length_insert.
    + intros c' ci Hci. exists ci. unfold class_at in Hci. rewrite list_lookup_insert_ne by congruence. done.
    + intros c' ci' Hci'. destruct (decide (c' = c)) as [->|Hne].
      * right. rewrite list_lookup_insert_eq in Hci' by (by eapply lookup_lt_Some). by injection Hci' as <-.
      * left. rewrite list_lookup_insert_ne in Hci' by congruence. by exists ci'.
    + split_and!; [done|done| |apply list_lookup_insert_eq; by eapply lookup_lt_Some|done].
      intros c' Hne Hc'. simpl. by rewrite list_lookup_insert_ne by congruence.
  - unfold wp, new_info. destruct (inv_classes s (ld_classes s ++ [Some info]) Hs) as [H1 H2].
    + rewrite length_app. lia.
    + intros c ci Hci. exists ci. split; [by apply app_old_class|done].
    + intros c ci' Hci'. apply lookup_app_Some in Hci' as [Hci'|[_ Hci']]; [left; by exists ci'|].
      right. apply list_lookup_singleton_Some in Hci' as [_ [= <-]]. done.
    + split_and!; [done|done| | |apply (le_count _ _ Hle0)].
      * intros c _ Hc. simpl. by apply lookup_app_l_Some.
      * unfold class_at. simpl. rewrite lookup_app_r, Nat.sub_diag by lia. done.
Qed.

Lemma meth_infos_valid methods s : Forall (fun e => m_selectorName e.1 < length (m_list (ld_interner s))) methods ->
  valid_ids (ld_interner s) (meth_infos methods).
Proof.
  intros H. unfold meth_infos, valid_ids. apply Forall_fmap. eapply Forall_impl; [exact H|]. intros [m fn] Hm. simpl in *. lia.
Qed.

(** The class of a superclass of the table inherits its methods. *)
Lemma Create_inherits s sup superClass infos fields pre cl name fa ma : loader_inv s ->
  match superClass, sup with Some c, Some i => class_at s c i | None, None => True | _, _ => False end ->
  valid_ids (ld_interner s) infos -> has_room (ld_interner s) ->
  MethodTable.Create true (hash64_of (ld_interner s)) (ci_class <$> sup) infos fields pre = Ok cl ->
  inherits (ld_interner s) (ld_classes s) (mk_info cl superClass None name fa ma).
Proof.
  intros Hs Hsup Hids Hroom Hc. pose proof (valid_ids_methods _ _ Hroom Hids) as Hv. unfold inherits. simpl.
  destruct superClass as [c|], sup as [i|]; try done.
  - destruct (li_classes _ Hs c i Hroom Hsup) as (m & Hk & Hr & _).
    destruct (Create_represents _ (Some (ci_class i)) infos fields pre cl _ Hr Hv Hc) as (H1 & H2 & H3).
    exists (methods_map m (own i)). split_and!; [apply methods_map_keys; [done|by eapply li_ids]|by rewrite H2|].
    exists i, fields. done.
  - destruct (Create_represents _ None infos fields pre cl ∅ eq_refl Hv Hc) as (H1 & H2 & H3).
    exists ∅. split_and!; [by intros k v; rewrite lookup_empty|by rewrite H2|done].
Qed.

Lemma gs_superclass superClass :
  good_step (match superClass with None => mret None | Some c => i ← the_info c; mret (Some i) end)
    (fun sup s => match superClass, sup with Some c, Some i => class_at s c i | None, None => True | _, _ => False end).
Proof.
  destruct superClass as [c|]; [|intros s Hs; by apply wp_ret].
  eapply gs_bind; [apply gs_the_info|]. intros i s Hs Hi. by apply wp_ret.
Qed.

Lemma Create_own h (sc : option (@SOMClass nat)) infos fields pre (cl : @SOMClass nat) :
  MethodTable.Create true h sc infos fields pre = Ok cl ->
  c_methods cl = infos /\ c_fields cl = match sc with None => [] | Some c => c_fields c end ++ fields.
Proof.
  unfold MethodTable.Create. destruct (insertMethods _ _ _ _) as [[[] t]|]; [|done]. simpl.
  repeat (match goal with |- context [if ?b then _ else _] => destruct b; [done|] end). intros Hc. by injection Hc as <-.
Qed.

Lemma wp_SOMClass_Create className superClass methods fields pre s : loader_inv s ->
  Forall (fun e => m_selectorName e.1 < length (m_list (ld_interner s))) methods -> slot_free pre s ->
  wp no_fuel_error (SOMClass_Create HashString className superClass methods fields pre)
    (created pre superClass methods fields s) s.
Proof.
  intros Hs Hsel Hfree. unfold SOMClass_Create.
  eapply gs_wp; [apply gs_superclass|done|]. intros sup s1 Hs1 L1 U1 Hsup.
  apply wp_bind, wp_gets, wp_bind, wp_lift_result. destruct (MethodTable.Create _ _ _ _ _ _) as [cl|e] eqn:Hc;
    [|intros ->; by eapply Create_fuel].
  assert (Hids : valid_ids (ld_interner s1) (meth_infos methods)).
  { eapply valid_ids_le; [apply L1|]. by apply meth_infos_valid. }
  eapply gs_wp; [apply gs_intern|done|]. intros nameOrd s2 Hs2 L2 U2 _.
  eapply gs_wp; [apply gs_machine; auto with names|done|]. intros name s3 Hs3 L3 U3 _.
  eapply gs_wp; [apply gs_machine; auto with names|done|]. intros fa s4 Hs4 L4 U4 _.
  eapply gs_wp; [destruct sup; [apply gs_machine; auto with names|apply gs_ret]|done|]. intros inh s5 Hs5 L5 U5 _.
  eapply gs_wp; [apply gs_symbols|done|]. intros ownf s6 Hs6 L6 U6 _.
  eapply gs_wp; [apply gs_machine; auto with names|done|]. intros _ s7 Hs7 L7 U7 _.
  eapply gs_wp; [apply gs_machine; auto with names|done|]. intros ma s8 Hs8 L8 U8 _.
  eapply gs_wp; [apply gs_mapM; intros [m fn]; apply gs_method_object|done|]. intros objs s9 Hs9 L9 U9 _.
  eapply gs_wp; [apply gs_machine; auto with names|done|]. intros _ s10 Hs10 L10 U10 _.
  eapply gs_wp; [apply gs_check_methods|done|]. intros _ s11 Hs11 L11 U11 _.
  assert (Hstep : step_to s1 s11) by (split; [done|split; repeat (etrans; [eassumption|]); reflexivity]).
  set (info := mk_info cl superClass None name fa ma).
  pose proof (Create_own _ _ _ _ _ _ Hc) as [Hown Hfields].
  eapply wp_mono; [apply (wp_place_class pre info s s11); [done| | | |]|].
  - by apply (step_trans _ s1).
  - destruct pre as [c|]; [|done]. simpl in *. by apply Hstep, U1.
  - simpl. rewrite Hown. eapply valid_ids_le; [|exact Hids]. apply Hstep.
  - intros Hroom. eapply inherits_le; [apply Hstep| |simpl; by rewrite Hown].
    eapply Create_inherits; [done|exact Hsup|exact Hids|by eapply has_room_le; [apply Hstep|]|exact Hc].
  - intros res s' (H1 & H2 & H3 & H4 & H5). split; [done| | | |done].
    + etrans; [exact L1|]. etrans; [apply Hstep|done].
    + intros c Hne Hn. apply H3; [done|]. by apply Hstep, U1.
    + exists info. split_and!; [done|exact Hown|done|done|]. eexists. split; [|exact Hfields].
      apply (super_fields_le _ s1); [etrans; [apply Hstep|exact H2]|]. unfold super_fields. destruct superClass as [c|], sup as [i|]; try done.
      by exists i.
Qed.

(** ** The pieces of [SOMCompileFile] *)
Lemma gs_InstantiateClass cl : good_step (InstantiateClass cl) any_result.
Proof.
  unfold InstantiateClass. eapply gs_bind; [apply gs_the_info|]. intros i s Hs _. apply gs_machine; [auto with names|done].
Qed.
Lemma gs_set_holders holder meths : good_step (set_holders holder meths) any_result.
Proof. induction meths as [|m meths IH]; simpl; [apply gs_ret|]. apply gs_seq; [apply gs_machine; auto with names|]. intros _. exact IH. Qed.
Lemma gs_Finish cl : good_step (FinishSOMClassMethodArray cl) any_result.
Proof.
  unfold FinishSOMClassMethodArray. eapply gs_seq; [eapply gs_any, gs_the_info|]. intros i.
  destruct (ci_classObject i); [|by apply gs_fail]. apply gs_seq; [apply gs_machine; auto with names|]. intros ms. apply gs_set_holders.
Qed.
Lemma gs_class_field_names cl : good_step (class_field_names cl) any_result.
Proof.
  unfold class_field_names. eapply gs_seq; [eapply gs_any, gs_the_info|]. intros i.
  apply gs_seq; [apply gs_machine; auto with names|]. intros syms. apply gs_machine. auto with names.
Qed.
Lemma gs_make_fieldMap names k m : good_step (make_fieldMap names k m) any_result.
Proof. revert k m. induction names as [|n names IH]; intros k m; simpl; [apply gs_ret|]. apply gs_seq; [by apply gs_check|]. intros _. apply IH. Qed.
Lemma gs_class_of_class cl : good_step (class_of_class cl) any_result.
Proof.
  unfold class_of_class. eapply gs_seq; [eapply gs_any, gs_the_info|]. intros i. destruct (ci_classObject i); [|by apply gs_fail].
  apply gs_seq; [apply gs_machine; auto with names|]. intros o. destruct o; [apply gs_ret|by apply gs_fail..].
Qed.

Lemma gs_name_methods methods : good_step (name_methods methods) any_result.
Proof.
  unfold name_methods. apply gs_seq; [apply gs_mapM; intros m; apply gs_seq; [eapply gs_any, gs_name_of|intros; apply gs_ret]|].
  intros named. apply gs_seq; [by apply gs_check|]. intros _. apply gs_ret.
Qed.
Lemma Forall_alter {A} (P : A -> Prop) f i l : (forall a, P a -> P (f a)) -> Forall P l -> Forall P (alter f i l).
Proof. intros Hf. revert i. induction l as [|a l IH]; intros [|i] H; inversion H; subst; constructor; auto. Qed.

Lemma wp_force_primitives named prims methods s : loader_inv s -> Forall (fits_at s) methods ->
  wp no_fuel_error (force_primitives HashString named prims methods) (fun ms s' => step_to s s' /\ Forall (fits_at s') ms) s.
Proof.
  revert methods s. induction prims as [|p prims IH]; intros methods s Hs Hall; simpl; [by apply wp_ret|].
  destruct (list_find _ named) as [[i e]|].
  - apply IH; [done|]. apply Forall_alter; [|done]. intros m [H1 H2]. by split.
  - eapply gs_wp; [apply gs_intern|done|]. intros ord s1 Hs1 L1 U1 Hord.
    eapply wp_mono; [apply (IH _ s1 Hs1)|].
    + apply Forall_app. split; [by eapply all_fit_le|]. constructor; [|constructor]. split; [done|].
      apply Get_Ok_lookup in Hord as [h Hh]. by eapply lookup_lt_Some.
    + intros ms s2 [H2 Hms]. split; [|done]. by apply (step_trans _ s1).
Qed.

Definition class_fits (s : Loader) (cl : AstClass nat) : Prop :=
  Forall (fits_at s) (m_instanceMethods cl) /\ Forall (fits_at s) (m_classMethods cl).
Lemma class_fits_le s s' cl : loader_le s s' -> class_fits s cl -> class_fits s' cl.
Proof. intros Hle [H1 H2]. split; by eapply all_fit_le. Qed.

Lemma wp_add_primitives className cl s : loader_inv s -> class_fits s cl ->
  wp no_fuel_error (add_primitives HashString className cl)
    (fun cl' s' => step_to s s' /\ class_fits s' cl' /\ ac_superClass cl' = ac_superClass cl) s.
Proof.
  intros Hs [H0 H1]. unfold add_primitives.
  eapply gs_wp; [apply gs_name_methods|done|]. intros named1 s1 Hs1 L1 U1 _.
  eapply gs_wp; [apply gs_name_methods|done|]. intros named0 s2 Hs2 L2 U2 _.
  apply wp_bind, wp_gets, wp_bind. eapply wp_mono.
  { apply wp_force_primitives; [done|]. by do 2 (eapply all_fit_le; [eassumption|]). }
  intros im s3 [H3 Him]. apply wp_bind. eapply wp_mono.
  { apply wp_force_primitives; [apply H3|]. eapply all_fit_le; [apply H3|]. by do 2 (eapply all_fit_le; [eassumption|]). }
  intros cm s4 [H4 Hcm]. apply wp_ret. split; [|split; [split; [eapply all_fit_le; [apply H4|done]|done]|done]].
  apply (step_trans _ s1); [done|]. apply (step_trans _ s2); [done|]. by apply (step_trans _ s3).
Qed.

Lemma fits_selectors (r : list (AstMethod * nat)) s : Forall (fits_at s) r.*1 -> Forall (fun e => m_selectorName e.1 < length (m_list (ld_interner s))) r.
Proof.
  induction r as [|[m fn] r IH]; [by constructor|]. intros H. apply Forall_cons in H as [[_ Hm] H]. constructor; [done|by apply IH].
Qed.

(** The names of the fields a file gives a class: [Class] has a hidden one besides. *)
Definition own_field_names (className : string) (cl : AstClass nat) : list string :=
  m_instanceFields cl ++ (if bool_decide (className = "Class"%string) then ["(classOfClassObject)"%string] else []).
(** The instance side: the class is created over its superclass, with the methods given. *)
Lemma wp_load_instance_side className pre cl s : loader_inv s -> class_fits s cl -> slot_free pre s ->
  wp no_fuel_error (load_instance_side HashString bcLength bcConstants vm className pre cl)
    (fun res s' => exists s0 r fields, loader_le s s0 /\ r.*1 = m_instanceMethods cl /\ names_at s0 fields (own_field_names className cl) /\
       created pre (ac_superClass cl) r fields s0 res s' /\
       (forall c, pre <> Some c -> ld_classes s !! c = Some None -> ld_classes s' !! c = Some None)) s.
Proof.
  intros Hs [Hfit _] Hfree. unfold load_instance_side.
  eapply gs_wp; [destruct (ac_superClass cl); [apply gs_class_field_names|apply gs_ret]|done|]. intros inh s1 Hs1 L1 U1 _.
  eapply gs_wp; [apply gs_make_fieldMap|done|]. intros fm s2 Hs2 L2 U2 _.
  apply wp_bind. eapply wp_mono; [apply wp_compile_methods; [done|by do 2 (eapply all_fit_le; [eassumption|])]|].
  intros r s3 [(Hs3 & L3 & U3) Hr].
  eapply gs_wp; [apply gs_intern_all|done|]. intros fields s4 Hs4 L4 U4 Hfields.
  eapply (gs_wp _ _ (fun extra s => names_at s extra (if bool_decide (className = "Class"%string) then ["(classOfClassObject)"%string] else []))); [|done|].
  { destruct (bool_decide (className = _)); [|intros s' Hs'; apply wp_ret; (split; [done|split; [split; reflexivity|constructor]])].
    apply gs_seq; [by apply gs_check|]. intros _.
    eapply gs_bind; [apply gs_intern|]. intros o s' Hs' Ho. apply wp_ret. split_and!; [done|reflexivity|reflexivity|]. by apply Forall2_cons. }
  intros extra s5 Hs5 L5 U5 Hextra.
  assert (Hle : loader_le s s5) by (repeat (etrans; [eassumption|]); reflexivity).
  assert (Hun : untouched s s5) by (repeat (etrans; [eassumption|]); reflexivity).
  eapply wp_mono; [apply wp_SOMClass_Create; [done| |]|].
  - apply fits_selectors. rewrite Hr. by eapply all_fit_le.
  - destruct pre as [c|]; [by apply Hun|done].
  - intros res s' Hcr. exists s5, r, (fields ++ extra). split_and!; [done|done|apply Forall2_app; [exact (names_at_le _ _ _ _ L5 Hfields)|exact Hextra]|done|]. intros c Hne Hc. eapply cr_rest; [exact Hcr|done|]. by apply Hun.
Qed.

Lemma wp_gs_after {A} (m : Loading.D A) R s0 s Q : good_step m R -> loader_inv s -> loader_le s0 s -> untouched s0 s ->
  (forall a s', step_to s0 s' -> R a s' -> Q a s') -> wp no_fuel_error m Q s.
Proof.
  intros Hm Hs Hle Hun HQ. eapply wp_mono; [by apply Hm|]. intros a s' (H1 & [H2 H3] & H4). apply HQ; [|done].
  split_and!; [done|by etrans|by etrans].
Qed.

Lemma wp_load_class_side className res cl s : loader_inv s -> class_fits s cl ->
  wp no_fuel_error (load_class_side HashString bcLength bcConstants vm className res cl) (fun _ s' => step_to s s') s.
Proof.
  intros Hs [_ Hfit]. unfold load_class_side.
  eapply gs_wp; [apply gs_the_info|done|]. intros i s1 Hs1 L1 U1 _.
  eapply (gs_wp _ _ any_result); [destruct (ci_superClass i); [apply gs_class_of_class|by apply gs_fail]|done|]. intros SClass s2 Hs2 L2 U2 _.
  eapply gs_wp; [apply gs_class_field_names|done|]. intros inh s3 Hs3 L3 U3 _.
  eapply gs_wp; [apply gs_make_fieldMap|done|]. intros fm s4 Hs4 L4 U4 _.
  assert (Hle : loader_le s s4) by (repeat (etrans; [eassumption|]); reflexivity).
  assert (Hun : untouched s s4) by (repeat (etrans; [eassumption|]); reflexivity).
  apply wp_bind. eapply wp_mono; [apply wp_compile_methods; [done|by eapply all_fit_le]|]. intros r s5 [(Hs5 & L5 & U5) Hr].
  eapply gs_wp; [apply gs_mapM; intros f; eapply gs_any, gs_intern|done|]. intros fields s6 Hs6 L6 U6 _.
  apply wp_bind. eapply wp_mono; [apply wp_SOMClass_Create; [done| |done]|].
  { apply fits_selectors. rewrite Hr. by do 2 (eapply all_fit_le; [eassumption|]); eapply all_fit_le. }
  intros CClass s7 [Hs7 L7 U7 _ _].
  assert (Hle7 : loader_le s s7) by (repeat (etrans; [eassumption|]); reflexivity).
  assert (Hun7 : untouched s s7). { intros c Hc. apply U7; [done|]. by apply U6, U5, Hun. }
  eapply (wp_gs_after _ any_result s); [|done|done|done|done].
  apply gs_seq; [eapply gs_any, gs_gets|]. intros loaded. apply gs_seq; [by apply gs_check|]. intros _.
  apply gs_seq; [apply gs_InstantiateClass|]. intros co. apply gs_seq; [eapply gs_any, gs_the_info|]. intros mi.
  apply gs_seq; [by apply gs_check|]. intros _. apply gs_seq; [apply gs_set_classObject|]. intros _.
  apply gs_seq; [apply gs_InstantiateClass|]. intros o. apply gs_seq; [eapply gs_any, gs_the_info|]. intros ci.
  apply gs_seq; [by apply gs_check|]. intros _. apply gs_seq; [apply gs_set_classObject|]. intros _.
  apply gs_seq; [apply gs_SetSOMGlobal|]. intros _. apply gs_seq; [apply gs_Finish|]. intros _. apply gs_Finish.
Qed.

Lemma created_class pre sc r fields s0 res s' : created pre sc r fields s0 res s' -> exists ci, class_at s' res ci.
Proof. intros H. destruct (cr_class _ _ _ _ _ _ _ H) as (ci & Hci & _). by exists ci. Qed.

(** The slot a class of the system has been given. *)
Definition slot_of_class (className : string) (isSystemClass : bool) : option nat :=
  if isSystemClass then system_class className else None.
(** [s'] follows [s], but for that slot. *)
Definition adds_class (pre : option nat) (s : Loader) (res : nat) (s' : Loader) : Prop :=
  loader_inv s' /\ loader_le s s' /\ (exists ci, class_at s' res ci) /\
  (forall c, pre <> Some c -> ld_classes s !! c = Some None -> ld_classes s' !! c = Some None).

Lemma adds_class_after pre s0 s res s' : loader_le s0 s -> untouched s0 s -> adds_class pre s res s' -> adds_class pre s0 res s'.
Proof. intros Hle Hun (H1 & H2 & H3 & H4). split_and!; [done|by etrans|done|]. intros c Hne Hc. apply H4; [done|by apply Hun]. Qed.
Lemma adds_class_before pre s0 s res s' : adds_class pre s0 res s -> step_to s s' -> adds_class pre s0 res s'.
Proof.
  intros (H1 & H2 & (ci & Hci) & H4) (G1 & G2 & G3). split_and!; [done|by etrans| |intros c Hne Hc; by apply G3, H4].
  destruct (le_classes _ _ G2 res ci Hci) as (ci' & Hci' & _). by exists ci'.
Qed.

(** The class of a file that is not the system's is the one the file describes. *)
Definition describes (className : string) (cl : AstClass nat) (s : Loader) (res : nat) : Prop :=
  exists ci r sup ids, class_at s res ci /\ ci_superClass ci = ac_superClass cl /\ own ci = meth_infos r /\
    r.*1 = m_instanceMethods cl /\ super_fields (ac_superClass cl) s sup /\ names_at s ids (own_field_names className cl) /\
    c_fields (ci_class ci) = sup ++ (Z.of_nat <$> ids).
Lemma describes_le className cl s s' res : loader_le s s' -> describes className cl s res -> describes className cl s' res.
Proof.
  intros Hle (ci & r & sup & fs & Hci & H1 & H2 & H3 & H4 & H5 & H6). destruct (le_classes _ _ Hle res ci Hci) as (ci' & Hci' & E1 & E2 & _).
  exists ci', r, sup, fs. rewrite E1, E2. split_and!; try done; [by eapply super_fields_le|by eapply names_at_le].
Qed.

Lemma wp_load_class className isSystemClass cl s : loader_inv s -> class_fits s cl -> slot_free (slot_of_class className isSystemClass) s ->
  wp no_fuel_error (load_class HashString bcLength bcConstants vm className isSystemClass cl)
    (fun res s' => adds_class (slot_of_class className isSystemClass) s res s' /\
       (isSystemClass = false -> Interner.Get (ac_name cl) (ld_interner s') = Ok className /\ describes className cl s' res)) s.
Proof.
  intros Hs Hfit Hfree. unfold load_class. apply wp_bind, wp_check; [intros _|done].
  eapply gs_wp; [apply gs_name_of|done|]. intros name s1 Hs1 L1 U1 Hname.
  apply wp_bind, wp_check; [intros Heq%bool_decide_eq_true|done]. subst name.
  apply wp_bind. eapply (wp_mono _ _ (fun cl' s' => step_to s s' /\ loader_le s1 s' /\ class_fits s' cl' /\ (isSystemClass = false -> cl' = cl))).
  { assert (Hfit1 : class_fits s1 cl) by (by eapply class_fits_le). destruct isSystemClass; [|by apply wp_ret].
    eapply wp_mono; [by apply wp_add_primitives|]. intros cl' s2 (H2 & Hf2 & _).
    split_and!; [by apply (step_trans _ s1)|apply H2|done|done]. }
  intros cl' s2 [(Hs2 & L2 & U2) (L12 & Hfit2 & Hsame)]. apply wp_bind, wp_check; [intros _|done].
  apply wp_bind. eapply wp_mono.
  { apply (wp_load_instance_side className (slot_of_class className isSystemClass)); [done|done|].
    unfold slot_free in *. destruct (slot_of_class _ _); [by apply U2|done]. }
  intros res s3 (s0 & r & fields & Hle0 & Hr & Hnames & Hcr & Hrest).
  assert (Hd : isSystemClass = false -> describes className cl s3 res).
  { intros Hb. rewrite (Hsame Hb) in *. destruct (cr_class _ _ _ _ _ _ _ Hcr) as (ci & H1 & H2 & H3 & _ & sup & H4 & H5).
    exists ci, r, sup, fields. split_and!; try done. eapply names_at_le; [apply Hcr|done]. }
  assert (H3 : adds_class (slot_of_class className isSystemClass) s res s3).
  { apply (adds_class_after _ _ s2); [done|done|]. split_and!; [apply Hcr|etrans; [exact Hle0|apply Hcr]|by eapply created_class|done]. }
  apply wp_bind. eapply (wp_mono _ _ (fun _ s' => step_to s3 s')).
  - destruct (is_root_class className); [|apply wp_load_class_side; [apply H3|]].
    + apply wp_check; [intros _|done]. split_and!; [apply H3|done|done].
    + eapply class_fits_le; [|exact Hfit2]. etrans; [exact Hle0|apply Hcr].
  - intros u s4 H4. apply wp_ret. split; [by eapply adds_class_before|]. intros Hb. split.
    + assert (Hl : loader_le s1 s4) by (etrans; [exact L12|]; etrans; [exact Hle0|]; etrans; [apply Hcr|apply H4]).
      apply Get_Ok_lookup in Hname as [h Hh]. eapply Get_lookup, interner_le_lookup; [apply Hl|exact Hh].
    + eapply describes_le; [apply H4|by apply Hd].
Qed.

(** ** The parser in the loader's world *)
Definition later (s s' : Loader) : Prop := loader_le s s' /\ untouched s s'.
#[export] Instance later_preorder : PreOrder later.
Proof. split; [intros s; split; reflexivity|]. intros s1 s2 s3 [A B] [C D]. split; by etrans. Qed.

Definition loader_is_world : @InternerWorld HashString Loader (loader_world HashString).
Proof using vm bcLength EncodingLaws0.
  refine (@Build_InternerWorld HashString Loader (loader_world HashString) ld_interner loader_inv later later_preorder _ _ _ _).
  - intros s Hs. apply Hs.
  - intros s s' [Hle _]. apply Hle.
  - intros str s Hs. destruct (inv_interned str s Hs) as (H1 & H2 & H3). unfold interned in *. simpl.
    destruct (InternString HashString str (ld_interner s)) as [ord it]. simpl in *. done.
  - done.
Defined.

Lemma class_ok_fits s (cl : AstClass nat) : class_ok (ld_interner s) cl = true -> class_fits s cl.
Proof.
  intros [H1 H2]%andb_true_iff.
  assert (Hall : forall ms, forallb (method_ok (ld_interner s)) ms = true -> Forall (fits_at s) ms).
  { intros ms H. apply Forall_forall. intros m Hm. rewrite forallb_forall in H. apply list_elem_of_In, H, andb_true_iff in Hm as [Hwf Hcall].
    split; [done|]. unfold call_ok in Hcall. destruct (Interner.Get _ _) as [n|] eqn:E; [|done].
    apply Get_Ok_lookup in E as [h Hh]. by eapply lookup_lt_Some. }
  split; by apply Hall.
Qed.

Lemma wp_parse_file className file load s : loader_inv s ->
  (forall name s, loader_inv s -> wp any_error (load name) (fun c s' => step_to s s' /\ exists ci, class_at s' c ci) s) ->
  wp any_error (parse_file HashString className file load) (fun cl s' => step_to s s' /\ class_fits s' cl) s.
Proof.
  intros Hs Hload. unfold wp, parse_file. destruct (new_parser (new_lexer file) s) as [p|e] eqn:Hp; [|done]. simpl.
  destruct (@ParseClass _ _ _ (loader_world HashString) _ _ _ _ _) as [[cl p']|e] eqn:Hc; [|done]. simpl.
  destruct (@ParseClass_parsed Loader nat (loader_world HashString) HashString loader_is_world load
    (fun s c => exists ci, class_at s c ci) className file s p cl p') as (H1 & [H2 H3] & H4); [|exact Hs|exact Hp|exact Hc|].
  - split.
    + intros name w Hw. eapply wp_mono; [by apply Hload|]. intros c s' [(G1 & G2 & G3) G4]. done.
    + intros w w' c [Hle _] [ci Hci]. destruct (le_classes _ _ Hle c ci Hci) as (ci' & Hci' & _). by exists ci'.
  - split; [done|]. apply class_ok_fits. exact (pc_ok _ _ _ _ H4).
Qed.

(** ** Loading a class by name *)
Definition is_parsed (className : string) (s : Loader) : Prop :=
  exists id c, Interner.Get id (ld_interner s) = Ok className /\ m_parsedClasses s !! id = Some c.
Definition parsed_as (className : string) (res : nat) (s : Loader) : Prop :=
  exists id, Interner.Get id (ld_interner s) = Ok className /\ m_parsedClasses s !! id = Some res.
Lemma parsed_as_parsed className res s : parsed_as className res s -> is_parsed className s.
Proof. intros (id & H1 & H2). by exists id, res. Qed.
Definition slot_ready (className : string) (isSystemClass : bool) (s : Loader) : Prop :=
  forall c, slot_of_class className isSystemClass = Some c -> is_parsed className s \/ ld_classes s !! c = Some None.

Lemma Get_later it it' ord str : interner_le it it' -> Interner.Get ord it = Ok str -> Interner.Get ord it' = Ok str.
Proof. intros Hle [h Hh]%Get_Ok_lookup. eapply Get_lookup, interner_le_lookup; eassumption. Qed.
Lemma is_parsed_later className s s' : loader_le s s' -> is_parsed className s -> is_parsed className s'.
Proof.
  intros Hle (id & c & Hg & Hp). destruct (le_parsed _ _ Hle id) as [c' Hc']; [by eexists|]. exists id, c'. split; [|done].
  eapply Get_later; [apply Hle|done].
Qed.
Lemma is_parsed_id className s id : loader_inv s -> Interner.Get id (ld_interner s) = Ok className ->
  is_parsed className s -> is_Some (m_parsedClasses s !! id).
Proof.
  intros Hs [h Hh]%Get_Ok_lookup (id' & c & [h' Hh']%Get_Ok_lookup & Hp). exists c.
  by rewrite (interner_lookup_inj HashString _ _ _ _ _ _ (proj1 (li_started _ Hs)) Hh Hh').
Qed.

Lemma inv_parsed id res s : loader_inv s -> (exists ci, class_at s res ci) -> id < length (m_list (ld_interner s)) ->
  step_to s (with_parsed (<[id := res]> (m_parsedClasses s)) s).
Proof.
  intros [Hg Hst Hu Hp Hn Hids Hc] Hres Hid. split_and!; [|split; [reflexivity|reflexivity| |reflexivity|]|by intros c].
  - split; [done..| | |done|done].
    + intros id' c. simpl. rewrite lookup_insert. case_decide; [|by apply Hp]. intros [= <-]. exact Hres.
    + intros id'. simpl. rewrite lookup_insert. case_decide as He; [by subst|apply Hn].
  - intros id' Hs. simpl. rewrite lookup_insert. case_decide; [by eexists|done].
  - intros c ci Hci. by exists ci.
Qed.

Lemma any_of_no_fuel {S A} (m : M S A) (Q : A -> S -> Prop) (s : S) : wp no_fuel_error m Q s -> wp any_error m Q s.
Proof. by apply wp_error_mono. Qed.
Lemma gs_wp_any {A B} (m : Loading.D A) (f : A -> Loading.D B) R s (Q : B -> Loader -> Prop) :
  good_step m R -> loader_inv s ->
  (forall a s', loader_inv s' -> loader_le s s' -> untouched s s' -> R a s' -> wp any_error (f a) Q s') -> wp any_error (m ≫= f) Q s.
Proof.
  intros Hm Hs Hf. apply wp_bind. eapply wp_mono; [apply any_of_no_fuel; by apply Hm|].
  intros a s1 (H1 & [L1 U1] & HR). by apply Hf.
Qed.

Notation SOMCompileFile := (SOMCompileFile HashString bcLength bcConstants vm files).
Lemma wp_SOMCompileFile fuel className isSystemClass s : loader_inv s -> slot_ready className isSystemClass s ->
  wp any_error (SOMCompileFile fuel className isSystemClass)
    (fun res s' => adds_class (slot_of_class className isSystemClass) s res s' /\ parsed_as className res s') s.
Proof.
  revert className isSystemClass s. induction fuel as [|fuel IH]; intros className isSystemClass s Hs Hready; [done|]. simpl.
  eapply gs_wp_any; [apply gs_intern|done|]. intros id s1 Hs1 L1 U1 Hid. apply wp_bind, wp_gets.
  destruct (m_parsedClasses s1 !! id) as [c|] eqn:Hpc.
  { apply wp_ret. split; [|by exists id]. split_and!; [done|done|by eapply li_parsed|intros c1 _ Hc1; by apply U1]. }
  destruct (files className) as [file|]; [|done].
  apply wp_bind. eapply wp_mono; [apply wp_parse_file; [done|]|].
  { intros name s' Hs'. eapply wp_mono; [by apply (IH name false)|]. intros c s2 [(H1 & H2 & H3 & H4) _].
    split; [|done]. split_and!; [done|done|]. intros c'. by apply H4. }
  intros cl s2 [(Hs2 & L2 & U2) Hfit]. apply wp_bind. eapply wp_mono; [apply any_of_no_fuel, wp_load_class; [done|done|]|].
  { unfold slot_free. destruct (slot_of_class className isSystemClass) as [c|] eqn:Hslot; [|done].
    destruct (Hready c Hslot) as [Hp|Hn]; [|by apply U2, U1].
    destruct (is_parsed_id className s1 id Hs1 Hid) as [c' Hc']; [by eapply is_parsed_later|congruence]. }
  intros res s3 [H3 _]. apply wp_bind, wp_modify, wp_ret.
  assert (Hid3 : Interner.Get id (ld_interner s3) = Ok className).
  { eapply Get_later; [|exact Hid]. etrans; [apply L2|apply H3]. }
  assert (Hlt : id < length (m_list (ld_interner s3))) by (apply Get_Ok_lookup in Hid3 as [h Hh]; by eapply lookup_lt_Some).
  pose proof (inv_parsed id res s3 (proj1 H3) (proj1 (proj2 (proj2 H3))) Hlt) as H4. split.
  - apply (adds_class_after _ _ s1); [done|done|]. apply (adds_class_after _ _ s2); [done|done|]. by eapply adds_class_before.
  - exists id. split; [|by apply lookup_insert_eq]. eapply Get_later; [|exact Hid].
    etrans; [apply L2|]. etrans; [apply H3|apply H4].
Qed.

(** ** The bootstrap *)
Definition all_ready (s : Loader) : Prop := forall name, slot_ready name true s.

Lemma system_class_inj a b c : system_class a = Some c -> system_class b = Some c -> a = b.
Proof.
  unfold system_class. intros Ha Hb.
  destruct (list_find (fun s => s = a) system_classes) as [[i x]|] eqn:Ea; [|done].
  destruct (list_find (fun s => s = b) system_classes) as [[j y]|] eqn:Eb; [|done].
  apply list_find_Some in Ea as (Ha1 & -> & _). apply list_find_Some in Eb as (Hb1 & -> & _). simpl in *. congruence.
Qed.

Lemma all_ready_step s s' : all_ready s -> loader_le s s' -> untouched s s' -> all_ready s'.
Proof. intros Hr Hle Hun name c Hc. destruct (Hr name c Hc) as [Hp|Hn]; [left; by eapply is_parsed_later|right; by apply Hun]. Qed.
Lemma all_ready_adds s s' name res : all_ready s -> adds_class (slot_of_class name true) s res s' -> is_parsed name s' -> all_ready s'.
Proof.
  intros Hr (H1 & H2 & _ & H4) Hp name' c Hc. destruct (decide (name' = name)) as [->|Hne]; [by left|].
  destruct (Hr name' c Hc) as [Hp'|Hn]; [left; by eapply is_parsed_later|]. right. apply H4; [|done].
  intros Heq. apply Hne. by eapply system_class_inj.
Qed.

Definition boot_step {A} (m : Loading.D A) : Prop := forall s, loader_inv s -> all_ready s ->
  wp any_error m (fun _ s' => loader_inv s' /\ loader_le s s' /\ all_ready s') s.
Lemma bs_good {A} (m : Loading.D A) R : good_step m R -> boot_step m.
Proof. intros Hm s Hs Hr. eapply wp_mono; [apply any_of_no_fuel; by apply Hm|]. intros a s' (H1 & [H2 H3] & _). split_and!; [done|done|by eapply all_ready_step]. Qed.
Lemma bs_bind {A B} (m : Loading.D A) (f : A -> Loading.D B) : boot_step m -> (forall a, boot_step (f a)) -> boot_step (m ≫= f).
Proof.
  intros Hm Hf s Hs Hr. apply wp_bind. eapply wp_mono; [by apply Hm|]. intros a s1 (H1 & H2 & H3).
  eapply wp_mono; [by apply Hf|]. intros b s2 (G1 & G2 & G3). split_and!; [done|by etrans|done].
Qed.
Lemma bs_load fuel name b : boot_step (SOMCompileFile fuel name b).
Proof.
  intros s Hs Hr. eapply wp_mono; [apply wp_SOMCompileFile; [done|]|].
  - destruct b; [apply Hr|by intros c]. 
  - intros res s' [H1 H2%parsed_as_parsed]. split_and!; [apply H1|apply H1|]. destruct b; [by eapply all_ready_adds|].
    destruct H1 as (_ & Hle & _ & Hun). eapply all_ready_step; [exact Hr|exact Hle|]. intros c. by apply Hun.
Qed.
Lemma bs_ret {A} (a : A) : boot_step (mret a).
Proof. eapply bs_good, gs_ret. Qed.
Lemma bs_SOMClass_Create className superClass fields : boot_step (SOMClass_Create HashString className superClass [] fields None).
Proof.
  intros s Hs Hr. eapply wp_mono; [apply any_of_no_fuel; by apply wp_SOMClass_Create|]. intros res s' [H1 H2 H3 _ _].
  split_and!; [done|done|]. eapply all_ready_step; [exact Hr|done|]. intros c. by apply H3.
Qed.

Lemma bs_SetupSystemClassObject cl name cc mc : boot_step (SetupSystemClassObject HashString cl name cc mc).
Proof.
  unfold SetupSystemClassObject. apply bs_bind; [apply bs_SOMClass_Create|]. intros Hc. eapply bs_good.
  apply gs_seq; [apply gs_InstantiateClass|]. intros co. apply gs_seq; [eapply gs_any, gs_the_info|]. intros mi.
  apply gs_seq; [by apply gs_check|]. intros _. apply gs_seq; [apply gs_set_classObject|]. intros _.
  apply gs_seq; [apply gs_InstantiateClass|]. intros o. apply gs_seq; [eapply gs_any, gs_the_info|]. intros ci.
  apply gs_seq; [by apply gs_check|]. intros _. apply gs_seq; [apply gs_set_classObject|]. intros _.
  apply gs_seq; [apply gs_Finish|]. intros _. apply gs_Finish.
Qed.
Lemma bs_class_object cl : boot_step (class_object cl).
Proof. unfold class_object. eapply bs_good, gs_seq; [eapply gs_any, gs_the_info|]. intros i. destruct (ci_classObject i); [apply gs_ret|by apply gs_fail]. Qed.
Lemma bs_global key v : boot_step (SetSOMGlobal HashString key v).
Proof. eapply bs_good, gs_SetSOMGlobal. Qed.

(** The state the bootstrap starts from. *)
Record start_state (s : Loader) : Prop := {
  ss_globals : globals_wf HashString (ld_globals s);
  ss_started : vm_started HashString vm (ld_interner s);
  ss_units : ld_units s = [];
  ss_classes : ld_classes s = [];
  ss_parsed : m_parsedClasses s = ∅
}.

Lemma start_allocated s : start_state s -> let s' := with_classes (replicate (length system_classes) None) s in
  loader_inv s' /\ all_ready s' /\ loader_le s s'.
Proof.
  intros [Hg Hst Hu Hc Hp]. set (s' := with_classes _ s).
  assert (Hno : forall c ci, ~ class_at s' c ci).
  { intros c ci Hci. change (replicate (length system_classes) None !! c = Some (Some ci)) in Hci. apply lookup_replicate in Hci as [? _]. congruence. }
  split_and!.
  - split; [done|done| | | | |].
    + simpl. rewrite Hu. intros [|u] cs i c Hl; discriminate Hl.
    + simpl. rewrite Hp. intros id c Hl. by rewrite lookup_empty in Hl.
    + simpl. rewrite Hp. intros id [c Hl]. by rewrite lookup_empty in Hl.
    + intros c ci Hci. by destruct (Hno c ci).
    + intros c ci _ Hci. by destruct (Hno c ci).
  - intros name c Hs. right. change (replicate (length system_classes) (@None ClassInfo) !! c = Some None). apply lookup_replicate_2. unfold slot_of_class, system_class in Hs.
    destruct (list_find _ system_classes) as [[i x]|] eqn:E; [|done]. injection Hs as <-.
    apply list_find_Some in E as (Hi & _). by apply lookup_lt_Some in Hi.
  - split; [done|done|done|rewrite Hc; simpl; lia|]. unfold class_at. rewrite Hc. intros [|c] ci Hci; discriminate Hci.
Qed.

Lemma bs_system_classes fuel names : boot_step (compile_system_classes HashString bcLength bcConstants vm files fuel names).
Proof. induction names as [|n names IH]; simpl; [apply bs_ret|]. apply bs_bind; [apply bs_load|]. intros _. exact IH. Qed.

Lemma wp_bootstrap fuel s : start_state s ->
  wp any_error (SOMBootstrapClassHierarchy HashString bcLength bcConstants vm files fuel)
    (fun _ s' => loader_inv s' /\ all_ready s' /\ loader_le s s') s.
Proof.
  intros Hs. destruct (start_allocated s Hs) as (H1 & H2 & H3). unfold SOMBootstrapClassHierarchy, bootstrap_roots.
  apply wp_bind, wp_bind, wp_gets, wp_bind, wp_check; [intros _|done]. apply wp_bind, wp_modify.
  match goal with |- wp any_error ?m _ ?st => assert (Hb : boot_step m); [|] end.
  { repeat (apply bs_bind; [apply bs_load|]; intros ?). do 3 (apply bs_bind; [apply bs_SetupSystemClassObject|]; intros _).
    do 3 (apply bs_bind; [apply bs_class_object|]; intros ?; apply bs_bind; [apply bs_global|]; intros _).
    eapply bs_good. by apply gs_modify. }
  eapply wp_mono; [by apply Hb|]. intros u s1 (G1 & G2 & G3).
  match goal with |- wp any_error ?m _ ?st => assert (Hb2 : boot_step m); [|] end.
  { apply bs_bind; [apply bs_system_classes|]. intros _. apply bs_bind; [apply bs_load|]. intros sc.
    do 3 (apply bs_bind; [apply bs_global|]; intros _). apply bs_bind; [eapply bs_good, gs_InstantiateClass|]. intros o.
    apply bs_bind; [apply bs_global|]. intros _. apply bs_ret. }
  eapply wp_mono; [by apply Hb2|]. intros r s2 (K1 & K2 & K3). split_and!; [done|done|]. etrans; [exact H3|]. by etrans.
Qed.

(** What the bootstrap and later loads lead to. *)
Inductive reached (fuel : nat) (s0 : Loader) : Loader -> Prop :=
  | reached_bootstrap r s : SOMBootstrapClassHierarchy HashString bcLength bcConstants vm files fuel s0 = Ok (r, s) -> reached fuel s0 s
  | reached_load s name c s' : reached fuel s0 s -> SOMCompileFile fuel name false s = Ok (c, s') -> reached fuel s0 s'.

Lemma reached_inv fuel s0 s : start_state s0 -> reached fuel s0 s -> loader_inv s /\ all_ready s /\ loader_le s0 s.
Proof.
  intros H0. induction 1 as [r s Hb|s name c s' Hr (H1 & H2 & H3) Hl].
  - exact (wp_ok _ _ _ _ _ _ (wp_bootstrap fuel s0 H0) Hb).
  - destruct (wp_ok _ _ _ _ _ _ (bs_load fuel name false s H1 H2) Hl) as (G1 & G2 & G3). split_and!; [done|done|by etrans].
Qed.
End loading.
