(* ===== verification/Inheritance.v ===== *)
(** * The superclass chain

    [SOMCompileFile] loads the superclass a file names before it loads the class, and
    notes a class as loaded only when it is done.  [named_superclass] reads the name off
    the file; loading ends when the chain of names does, and never when it comes
    back to a class that is being loaded. *)
From S2P Require Import Prelude Interner VmSelectors CNumbers Lexer Ast AstWf Parser ParserTotal ParserWf Bytecode Compiler CompilerInv CompilerRules CompilerMethod CompilerProperties Frontend MethodTable TValue Values Primitives Objects OpenUpvalues Symbols Machine Calls LibCalls Interp Loading LoadingInv.
#[local] Set Default Proof Using "Type*".

(** ** The head of a class file, up to the superclass *)
Section header.
Context {W : Type} (m_fileName : string).
Notation P := (Parser Lexer W).

(** What [ParseClass] and [parseSuperclass] read: the class's name and its superclass's,
    none for [nil]. *)
Definition class_header : M P (string * option string) :=
  t ← the_curText;
  Expect m_fileName Identifier ;;
  Expect m_fileName Equal ;;
  i ← cur_is Identifier;
  if (i : bool) then s ← the_curText; mret (t, if bool_decide (s = "nil"%string) then None else Some s)
  else mret (t, Some "Object"%string).
End header.

Definition file_header (className : string) (file : chars) : result (string * option string) :=
  p ← new_parser (new_lexer file) tt; '(r, _) ← class_header className p; Ok r.
Definition named_superclass (className : string) (file : chars) : option string :=
  match file_header className file with Ok (_, sup) => sup | Err _ => None end.

(** ** The head is read alike in every world *)
Section worlds.
Context {W W' : Type} (m_fileName : string).
Definition in_world {X Y} (w : Y) (p : Parser Lexer X) : Parser Lexer Y := mk_parser (m_lexer p) w (m_curSym p) (m_curText p) (m_nextSym p).
Definition alike {A} (m : M (Parser Lexer W) A) (m' : M (Parser Lexer W') A) : Prop := forall p w,
  m' (in_world w p) = match m p with Ok (a, p1) => Ok (a, in_world w p1) | Err e => Err e end.
(** The world is only handed on. *)
Definition keeps_world {A} (m : M (Parser Lexer W) A) : Prop := forall p a p1, m p = Ok (a, p1) -> m_world p1 = m_world p.

Lemma alike_ret {A} (a : A) : alike (mret a) (mret a).
Proof. by intros p w. Qed.
Lemma alike_bind {A B} (m : M (Parser Lexer W) A) m' (f : A -> M (Parser Lexer W) B) f' :
  alike m m' -> (forall a, alike (f a) (f' a)) -> alike (m ≫= f) (m' ≫= f').
Proof.
  intros Hm Hf p w. unfold mbind, M_bind. rewrite (Hm p w). destruct (m p) as [[a p1]|e]; [apply Hf|done].
Qed.
Lemma alike_if {A} (b : bool) (m1 m2 : M (Parser Lexer W) A) m1' m2' : alike m1 m1' -> alike m2 m2' -> alike (if b then m1 else m2) (if b then m1' else m2').
Proof. by destruct b. Qed.
Lemma alike_Eat : alike Eat Eat.
Proof. intros p w. unfold Eat. simpl. by destruct (GetSym (m_lexer p)) as [[y lx]|e]. Qed.
Lemma alike_ParseError {A} msg ex : alike (A := A) (ParseError m_fileName msg ex) (ParseError m_fileName msg ex).
Proof.
  intros p w. unfold ParseError, ParseError_message. simpl. by destruct (symname (m_curSym p)).
Qed.
Lemma alike_lift {A} (r : result A) : alike (lift_result r) (lift_result r).
Proof. intros p w. by destruct r. Qed.
Lemma alike_cur_is y : alike (cur_is y) (cur_is y).
Proof. by intros p w. Qed.
Lemma alike_curText : alike the_curText the_curText.
Proof. by intros p w. Qed.
Lemma alike_Expect y : alike (Expect m_fileName y) (Expect m_fileName y).
Proof.
  unfold Expect, Accept, ParseError_sym. apply alike_bind.
  - apply alike_bind; [apply alike_cur_is|]. intros b. apply alike_if; [|apply alike_ret]. apply alike_bind; [apply alike_Eat|]. intros _. apply alike_ret.
  - intros b. apply alike_if; [apply alike_ret|]. apply alike_bind; [apply alike_lift|]. intros s. apply alike_ParseError.
Qed.
Lemma alike_header : alike (class_header m_fileName) (class_header m_fileName).
Proof.
  unfold class_header. apply alike_bind; [apply alike_curText|]. intros t.
  apply alike_bind; [apply alike_Expect|]. intros _. apply alike_bind; [apply alike_Expect|]. intros _.
  apply alike_bind; [apply alike_cur_is|]. intros i. apply alike_if; [|apply alike_ret].
  apply alike_bind; [apply alike_curText|]. intros s. apply alike_ret.
Qed.
End worlds.

Lemma in_world_self {W} (p : Parser Lexer W) : in_world (m_world p) p = p.
Proof. by destruct p. Qed.
Lemma new_parser_world {W} file (w : W) : new_parser (new_lexer file) w =
  match new_parser (new_lexer file) tt with Ok p => Ok (in_world w p) | Err e => Err e end.
Proof. unfold new_parser, Eat. simpl. by destruct (GetSym (new_lexer file)) as [[y lx]|e]. Qed.

(** ** What follows the superclass *)
Section tail.
Context {W C : Type} `{!ParserWorld W} (m_fileName : string).
Notation P := (Parser Lexer W).

Definition class_rest (fuel className : nat) (superClass : option C) : M P (AstClass C) :=
  Expect m_fileName NewTerm ;;
  instanceFields ← ParseLocals m_fileName fuel;
  instanceMethods ← ParseMethods m_fileName fuel;
  sep ← Accept Separator;
  cls ← (if (sep : bool) then
           classFields ← ParseLocals m_fileName fuel;
           classMethods ← ParseMethods m_fileName fuel;
           mret (classFields, classMethods)
         else mret ([], []));
  Expect m_fileName EndTerm ;;
  mret (mk_ast_class className superClass instanceFields cls.1 instanceMethods cls.2).
Definition class_tail (fuel className : nat) (superClass : option C) : M P (AstClass C) :=
  i ← cur_is Identifier;
  (if (i : bool) then Expect m_fileName Identifier else mret tt) ;;
  class_rest fuel className superClass.
Definition root_tail (fuel className : nat) : M P (AstClass C) :=
  name ← (fun p => lift_result (w_Get className (m_world p)) p);
  check (bool_decide (name = "Object"%string)) (AssertFailed "res->m_name->Get(m_symbolInterner) == Object") ;;
  class_tail fuel className None.

(** [ParseClass] in steps: the head of the file, the superclass, the rest. *)
Lemma ParseClass_steps (load : string -> M W C) fuel (p : Parser Lexer unit) (w : W) :
  ParseClass m_fileName load fuel (in_world w p) =
  match class_header m_fileName p with
  | Err e => Err e
  | Ok ((t, sup), p1) =>
      let '(className, w1) := w_InternString t w in
      match sup with
      | Some n => match load n w1 with
                  | Ok (c, w2) => class_tail fuel className (Some c) (in_world w2 p1)
                  | Err e => Err e
                  end
      | None => root_tail fuel className (in_world w1 p1)
      end
  end.
Proof.
  unfold ParseClass, class_header.
  unfold the_curText, InternString_p, mbind, M_bind, gets. simpl.
  destruct (w_InternString (m_curText p) w) as [className w1] eqn:Ew.
  change (mk_parser (m_lexer p) w1 (m_curSym p) (m_curText p) (m_nextSym p)) with (in_world w1 p).
  rewrite (alike_Expect m_fileName Identifier p w1).
  destruct (Expect m_fileName Identifier p) as [[[] p1]|e]; [|done].
  rewrite (alike_Expect m_fileName Equal p1 w1).
  destruct (Expect m_fileName Equal p1) as [[[] p2]|e]; [|done].
  unfold parseSuperclass, cur_is, the_curText, root_tail, class_tail, mbind, M_bind, gets, cur_is. simpl.
  destruct (bool_decide (m_curSym p2 = Identifier)) eqn:Ei; simpl; rewrite Ew.
  - destruct (bool_decide (m_curText p2 = "nil"%string)) eqn:En; simpl.
    + unfold lift_result. destruct (w_Get className w1) as [name|e]; simpl; [|done].
      unfold check. destruct (bool_decide (name = "Object"%string)); simpl; [|done]. rewrite Ei.
      by destruct (Expect m_fileName Identifier (in_world w1 p2)) as [[[] p3]|e].
    + unfold compile_superclass. simpl. destruct (load (m_curText p2) w1) as [[c w2]|e]; [|done]. simpl. rewrite Ei.
      change (mk_parser (m_lexer p2) w2 (m_curSym p2) (m_curText p2) (m_nextSym p2)) with (in_world w2 p2).
      by destruct (Expect m_fileName Identifier (in_world w2 p2)) as [[[] p3]|e].
  - unfold compile_superclass. simpl. destruct (load "Object"%string w1) as [[c w2]|e]; [|done]. simpl. by rewrite Ei.
Qed.
End tail.

(** ** Parsing a file in the loader's world *)
Section loading.
Context (HashString : string -> Z) (bcLength : Bytecode -> nat) (bcConstants : Bytecode -> list Cst) (vm : VMStrings).
Context (files : string -> option chars) `{!EncodingLaws bcLength}.
Notation SOMCompileFile := (SOMCompileFile HashString bcLength bcConstants vm files).
Notation loader_inv := (loader_inv HashString bcLength vm).

Definition header_state (className : string) (file : chars) : result ((string * option string) * Parser Lexer unit) :=
  p ← new_parser (new_lexer file) tt; class_header className p.

Lemma named_superclass_header className file t sup p :
  header_state className file = Ok ((t, sup), p) -> named_superclass className file = sup.
Proof.
  unfold header_state, named_superclass, file_header. destruct (new_parser _ tt) as [p0|e]; [|done]. simpl.
  destruct (class_header className p0) as [[[t' sup'] p1]|e]; [|done]. by intros [= -> -> ->].
Qed.

#[local] Instance loaders : ParserWorld Loader := loader_world HashString.
Lemma parse_file_steps className file load s :
  parse_file HashString className file load s =
  match header_state className file with
  | Err e => Err e
  | Ok ((t, sup), p1) =>
      let ord := (InternString HashString t (ld_interner s)).1 in
      let s1 := interned HashString t s in
      '(cl, p') ← match sup with
                  | Some n => match load n s1 with
                              | Ok (c, s2) => class_tail className (2 + length file) ord (Some c) (in_world s2 p1)
                              | Err e => Err e
                              end
                  | None => root_tail className (2 + length file) ord (in_world s1 p1)
                  end;
      Ok (cl, m_world p')
  end.
Proof.
  unfold parse_file, header_state. rewrite new_parser_world. destruct (new_parser (new_lexer file) tt) as [p|e]; [|done].
  simpl. rewrite (ParseClass_steps className load (2 + length file) p s).
  destruct (class_header className p) as [[[t sup] p1]|e]; [|done].
  unfold interned, w_InternString, loaders, loader_world. by destruct (InternString HashString t (ld_interner s)) as [ord it].
Qed.

(** ** A class that is its own ancestor is never loaded *)
Lemma not_parsed_interned t n s : loader_inv s -> ~ is_parsed n s -> ~ is_parsed n (interned HashString t s).
Proof.
  intros Hs Hn (id & c & Hg & Hp). apply Hn. exists id, c. split; [|exact Hp].
  assert (Hlt : id < length (m_list (ld_interner s))) by (apply (li_named _ _ _ _ Hs id); by exists c).
  destruct (lookup_lt_is_Some_2 _ _ Hlt) as [[str h] Hstr]. destruct (inv_interned _ _ _ t s Hs) as (_ & [Hle _] & _).
  pose proof (interner_le_lookup _ _ _ _ (le_interner _ _ Hle) Hstr) as Hstr'.
  rewrite (Get_lookup _ _ _ _ Hstr') in Hg. injection Hg as ->. by eapply Get_lookup.
Qed.

Lemma intern_interned t s : intern HashString t s = Ok ((InternString HashString t (ld_interner s)).1, interned HashString t s).
Proof.
  unfold intern, on_machine, on_str, InternStr, interned. change (st_interner (vm_str (ld_vm s))) with (ld_interner s).
  by destruct (InternString HashString t (ld_interner s)) as [ord it].
Qed.

Lemma endless_chain (ancestor : string -> Prop) :
  (forall n, ancestor n -> exists file sup, files n = Some file /\ named_superclass n file = Some sup /\ ancestor sup) ->
  forall fuel n b s, loader_inv s -> (forall m, ancestor m -> ~ is_parsed m s) -> ancestor n -> SOMCompileFile fuel n b s = Err OutOfFuel.
Proof.
  intros Hchain. induction fuel as [|fuel IH]; intros n b s Hs Hno Hn; [done|]. simpl.
  unfold mbind at 1, M_bind. rewrite intern_interned. destruct (inv_interned _ _ _ n s Hs) as (H1 & _ & Hg).
  unfold mbind at 1, M_bind, gets at 1.
  destruct (m_parsedClasses (interned HashString n s) !! _) as [c|] eqn:Hp.
  { destruct (not_parsed_interned n n s Hs (Hno n Hn)). by exists (InternString HashString n (ld_interner s)).1, c. }
  destruct (Hchain n Hn) as (file & sup & -> & Hsup & Hanc). unfold mbind at 1, M_bind. rewrite parse_file_steps.
  destruct (header_state n file) as [[[t sup'] p1]|e] eqn:Hh.
  - rewrite (named_superclass_header _ _ _ _ _ Hh) in Hsup. subst sup'. cbv zeta.
    destruct (inv_interned _ _ _ t _ H1) as (H2 & _ & _). rewrite IH; [done|exact H2| |exact Hanc].
    intros m Hm. apply not_parsed_interned; [done|]. apply not_parsed_interned; [done|]. by apply Hno.
  - unfold named_superclass, file_header in Hsup. unfold header_state in Hh. destruct (new_parser _ tt) as [p0|e0]; [|done].
    simpl in *. by rewrite Hh in Hsup.
Qed.

(** ** Every other chain of superclasses comes to an end *)
Definition no_other : error -> Prop := fun _ => False.
Lemma stops_no_fuel e : stops (L := Lexer) no_other e -> no_fuel_error e.
Proof. intros [[-> | ->]|[He|[]]]; [done|done|]. by apply parse_error_not_fuel. Qed.

Lemma left_in_world {X Y} (p : Parser Lexer X) (w : Y) : left_p (in_world w p) = left_p p.
Proof. done. Qed.

Lemma spec_class_header {X} (className : string) n : spec (W := X) no_other n 0 (class_header className).
Proof.
  unfold class_header, the_curText, cur_is. spec_steps; spec_auto.
Qed.

Lemma spec_class_tail {C} className fuel ord (sup : option C) n : n <= fuel ->
  spec (W := Loader) no_other n 0 (class_tail className fuel ord sup).
Proof.
  intros Hn. unfold class_tail, class_rest, cur_is. eapply (spec_bind no_other _ 0); [apply spec_gets|]. intros i.
  eapply (spec_bind no_other _ 0); [apply spec_if; [apply spec_Expect|apply spec_ret]|]. intros _.
  eapply (spec_bind no_other _ 0); [apply spec_Expect|]. intros _.
  eapply (spec_bind no_other _ 0); [apply spec_ParseLocals; lia|]. intros fs.
  eapply (spec_bind no_other _ 0); [apply spec_ParseMethods; lia|]. intros ms.
  eapply (spec_bind no_other _ 0); [apply spec_Accept|]. intros sep.
  eapply (spec_bind no_other _ 0); [apply spec_class_side; lia|]. intros cls.
  eapply (spec_bind no_other _ 0); [apply spec_Expect|]. intros _. apply spec_ret.
Qed.

Lemma wp_class_tail {C} className (file : chars) ord (sup : option C) (p1 : Parser Lexer unit) (w : Loader) : parser_wf p1 -> left_p p1 < 2 + length file ->
  wp no_fuel_error (class_tail className (2 + length file) ord sup) (fun _ _ => True) (in_world w p1).
Proof.
  intros Hp Hl. eapply wp_error_mono; [apply stops_no_fuel|].
  eapply wp_mono; [apply (spec_class_tail className (2 + length file) ord sup (2 + length file)); [done|exact Hp|exact Hl]|]. done.
Qed.

Lemma header_state_left className file t sup p1 : header_state className file = Ok ((t, sup), p1) ->
  parser_wf p1 /\ left_p p1 < 2 + length file.
Proof.
  unfold header_state. pose proof (new_parser_start (ParserWorld0 := {| w_InternString _ w := (0, w); w_Get _ _ := Ok ""%string |}) file tt) as H.
  destruct (new_parser (new_lexer file) tt) as [p|e]; [|done]. destruct H as [Hwf Hl]. simpl. intros Hh.
  pose proof (spec_class_header className (2 + length file) p Hwf Hl) as Hs. unfold wp in Hs. rewrite Hh in Hs.
  destruct Hs as [Hw Hc]. split; [done|lia].
Qed.

Lemma header_state_error className file e : header_state className file = Err e -> no_fuel_error e.
Proof.
  unfold header_state. pose proof (new_parser_start (ParserWorld0 := {| w_InternString _ w := (0, w); w_Get _ _ := Ok ""%string |}) file tt) as H.
  destruct (new_parser (new_lexer file) tt) as [p|e']; [|simpl; intros [= <-]; by destruct H as [-> | ->]]. destruct H as [Hwf Hl]. simpl. intros Hh.
  pose proof (spec_class_header className (2 + length file) p Hwf Hl) as Hs. unfold wp in Hs. rewrite Hh in Hs. by apply stops_no_fuel.
Qed.

Lemma parse_file_fuel className file load s :
  (forall n s1, named_superclass className file = Some n -> loader_inv s1 -> load n s1 <> Err OutOfFuel) -> loader_inv s ->
  parse_file HashString className file load s <> Err OutOfFuel.
Proof.
  intros Hload Hs. rewrite parse_file_steps. destruct (header_state className file) as [[[t sup] p1]|e] eqn:Hh.
  2: { intros [= ->]. by apply (header_state_error _ _ _ Hh). }
  destruct (header_state_left _ _ _ _ _ Hh) as [Hwf Hl]. apply named_superclass_header in Hh.
  destruct (inv_interned _ _ _ t s Hs) as (H1 & _ & _). cbv zeta.
  set (ord := (InternString HashString t (ld_interner s)).1). set (s1 := interned HashString t s) in *.
  assert (Hr : match sup with
               | Some n => match load n s1 with
                           | Ok (c, s2) => class_tail className (2 + length file) ord (Some c) (in_world s2 p1)
                           | Err e => Err e
                           end
               | None => root_tail className (2 + length file) ord (in_world s1 p1)
               end <> Err OutOfFuel).
  { destruct sup as [n|].
    - specialize (Hload n s1 Hh H1). destruct (load n s1) as [[c s2]|e]; [|congruence].
      pose proof (wp_class_tail className file ord (Some c) p1 s2 Hwf Hl) as Hw. unfold wp in Hw.
      destruct (class_tail _ _ _ _ _) as [[cl p']|e]; [done|]. intros [= ->]. by apply Hw.
    - pose proof (wp_class_tail (C := nat) className file ord None p1 s1 Hwf Hl) as Hw. unfold wp in Hw.
      unfold root_tail, mbind, M_bind, lift_result, check. simpl. pose proof (Get_fuel ord (ld_interner s1)) as Hg.
      destruct (Interner.Get ord (ld_interner s1)) as [name|e]; [|congruence].
      destruct (bool_decide (name = "Object"%string)); simpl; [|done].
      destruct (class_tail _ _ _ _ _) as [[cl p']|e]; [done|]. intros [= ->]. by apply Hw. }
  destruct (match sup with Some _ => _ | None => _ end) as [[cl p']|e]; [done|]. simpl. congruence.
Qed.

Lemma rank_terminates (rank : string -> nat) :
  (forall n file sup, files n = Some file -> named_superclass n file = Some sup -> rank sup < rank n) ->
  forall fuel n b s, loader_inv s -> slot_ready n b s -> rank n < fuel -> SOMCompileFile fuel n b s <> Err OutOfFuel.
Proof.
  intros Hrank. induction fuel as [|fuel IH]; intros n b s Hs Hready Hf; [lia|]. simpl.
  unfold mbind at 1, M_bind. rewrite intern_interned. destruct (inv_interned _ _ _ n s Hs) as (H1 & [L1 U1] & Hg).
  unfold mbind at 1, M_bind, gets at 1.
  destruct (m_parsedClasses (interned HashString n s) !! _) as [c|] eqn:Hp; [done|].
  destruct (files n) as [file|] eqn:Hfile; [|done]. unfold mbind at 1, M_bind.
  assert (Hload : forall m s', loader_inv s' ->
      wp any_error (SOMCompileFile fuel m false) (fun c s2 => step_to HashString bcLength vm s' s2 /\ exists ci, class_at s2 c ci) s').
  { intros m s' Hs'. eapply wp_mono; [by apply (wp_SOMCompileFile _ _ _ _ _ fuel m false)|]. intros c s2 [(K1 & K2 & K3 & K4) _].
    split; [|done]. split_and!; [done|done|]. intros c'. by apply K4. }
  pose proof (wp_parse_file HashString bcLength vm n file (fun name => SOMCompileFile fuel name false) _ H1 Hload) as Hparse.
  pose proof (parse_file_fuel n file (fun name => SOMCompileFile fuel name false) (interned HashString n s)) as Hpf.
  specialize (Hpf ltac:(intros sup s1 Hsup Hs1; apply IH; [done|by intros c|]; specialize (Hrank n file sup Hfile Hsup); lia) H1).
  unfold wp in Hparse. destruct (parse_file _ _ _ _ _) as [[cl s2]|e]; [|congruence]. destruct Hparse as [(Hs2 & L2 & U2) Hfit].
  unfold mbind at 1, M_bind.
  pose proof (wp_load_class HashString bcLength bcConstants vm n b cl s2 Hs2 Hfit) as Hl. unfold wp in Hl.
  assert (Hfree : slot_free (slot_of_class n b) s2).
  { unfold slot_free. destruct (slot_of_class n b) as [c|] eqn:Hslot; [|done].
    destruct (Hready c Hslot) as [Hpar|Hn]; [|by apply U2, U1].
    destruct (is_parsed_id _ _ _ n (interned HashString n s) _ H1 Hg) as [c' Hc']; [by eapply is_parsed_later|congruence]. }
  specialize (Hl Hfree). destruct (load_class _ _ _ _ _ _ _ _) as [[res s3]|e]; [done|]. intros [= ->]. by apply Hl.
Qed.
End loading.
