(* ===== verification/LoadingProps.v ===== *)
(** * What loading classes guarantees

    The theorems about [SOMCompileFile] and the bootstrap, at the end of a small class
    library that is loaded and run. *)
From S2P Require Import Prelude Interner VmSelectors CNumbers Lexer Ast AstWf Parser ParserTotal ParserWf Bytecode Compiler CompilerInv CompilerRules CompilerMethod CompilerProperties Frontend MethodTable TValue Values Primitives Objects OpenUpvalues Symbols Machine Calls LibCalls Interp Runs Loading LoadingInv Inheritance.
From Stdlib Require Import Ascii.
From Stdlib Require String.
#[local] Set Default Proof Using "Type*".

Section loading.
Context (HashString : string -> Z) (bcLength : Bytecode -> nat) (bcConstants : Bytecode -> list Cst) (vm : VMStrings).
Context (files : string -> option chars) `{!EncodingLaws bcLength}.
Notation SOMCompileFile := (SOMCompileFile HashString bcLength bcConstants vm files).
Notation reached := (reached HashString bcLength bcConstants vm files).
Notation start_state := (start_state HashString vm).
Notation loader_inv := (loader_inv HashString bcLength vm).

(** C2: whatever class files are loaded, all code is safe to run.  In every state the
    bootstrap and any number of later loads lead to, each method and block compiled so
    far has its instructions one after another, every instruction names only slots of
    its frame and upvalues its function has, every branch has a target, and no method
    writes to its receiver; the table of globals stays a map. *)
Theorem loaded_code_safe fuel s0 s u cs i c : start_state s0 -> reached fuel s0 s ->
  ld_units s !! u = Some cs -> cs !! i = Some c ->
  builder_wf bcLength (m_builder c) /\
  (forall pos bc, (pos, bc) ∈ code (m_builder c) ->
     bc_ok (m_stackFrameNumSlots (m_resultUcb c) - 1) (length (m_upvalueInfo (m_resultUcb c))) bc /\
     branch_ok (m_builder c) (pos, bc) /\ (i = 0 -> ~ bc_writes bc 0)) /\
  globals_wf HashString (ld_globals s).
Proof.
  intros H0 Hr Hu Hc. destruct (reached_inv _ _ _ _ _ _ _ _ H0 Hr) as (Hs & _ & _).
  destruct (li_units _ _ _ _ Hs u cs i c Hu Hc) as [Hl Ho Hb Hm _]. split_and!; [done| |apply Hs].
  intros pos bc Hin. rewrite Forall_forall in Ho, Hb. split_and!; [by apply (Ho (pos, bc))|by apply Hb|].
  intros Hi. destruct (Hm Hi) as [_ Hw]. rewrite Forall_forall in Hw. by apply (Hw (pos, bc)).
Qed.

(** What a class answers to a name without its own methods. *)
Definition inherited_method (s : Loader) (ci : ClassInfo) (name : SOMUniquedString) : result (option nat) :=
  match ci_superClass ci with
  | None => Ok None
  | Some sc => match ld_classes s !! sc with Some (Some sci) => GetMethod (ci_class sci) name | _ => Err bad_class end
  end.

(** C6: a loaded class answers a message with its own method of that name, or else with
    what its superclass answers; and its fields are its superclass's, followed by its
    own.  Both hold of every class in every state the loader reaches, for every name
    that has been interned. *)
Theorem loaded_class_dispatch fuel s0 s c ci ord sel h : start_state s0 -> reached fuel s0 s ->
  class_at s c ci -> has_room (ld_interner s) -> m_list (ld_interner s) !! ord = Some (sel, h) ->
  let name := mk_uniqued (u32 (Z.of_nat ord)) (hash32 h) in
  (exists up, inherited_method s ci name = Ok up /\
     GetMethod (ci_class ci) name = Ok (match declared (c_methods (ci_class ci)) (Z.of_nat ord) with Some f => Some f | None => up end)) /\
  (forall sc sci, ci_superClass ci = Some sc -> class_at s sc sci -> exists fields, c_fields (ci_class ci) = c_fields (ci_class sci) ++ fields).
Proof.
  intros H0 Hr Hci Hroom Hord. destruct (reached_inv _ _ _ _ _ _ _ _ H0 Hr) as (Hs & _ & _).
  destruct (li_classes _ _ _ _ Hs c ci Hroom Hci) as (m & Hk & Hrep & Hsup). cbv zeta.
  assert (Hlt : ord < length (m_list (ld_interner s))) by (by eapply lookup_lt_Some).
  assert (Hid : u32 (Z.of_nat ord) = Z.of_nat ord).
  { unfold u32. apply Z.mod_small. unfold has_room in Hroom. lia. }
  assert (Hv : valid_name (hash64_of (ld_interner s)) (mk_uniqued (u32 (Z.of_nat ord)) (hash32 h))).
  { split; simpl; rewrite Hid; [unfold x_emptyId, has_room in *; lia|]. unfold hash64_of. by rewrite Nat2Z.id, Hord. }
  split.
  - exists (mjoin (m !! Z.of_nat ord)). split.
    + unfold inherited_method. destruct (ci_superClass ci) as [sc|]; [|by rewrite Hsup, lookup_empty].
      destruct Hsup as (sci & fs & -> & Hrs & _). rewrite (GetMethod_spec _ _ _ _ Hrs Hv). simpl. by rewrite Hid.
    + rewrite (GetMethod_spec _ _ _ _ Hrep Hv). simpl. rewrite Hid, methods_map_lookup.
      by destruct (declared _ _) as [f|].
  - intros sc sci Hsc Hsci. rewrite Hsc in Hsup. destruct Hsup as (sci' & fs & Hsci' & _ & Hf). exists fs.
    unfold class_at in Hsci. congruence.
Qed.

(** C10: a class loads as its file describes it: its superclass is the class the file's
    superclass loaded as, its method table declares the file's instance methods, each
    under its selector and in order, its fields are those of the superclass followed by
    the instance fields of the file by name and in order ([Class] has one more,
    "(classOfClassObject)"), and it is named as the file asked for is. *)
Theorem loaded_class_matches_file fuel className s res s' file :
  loader_inv s -> SOMCompileFile (S fuel) className false s = Ok (res, s') -> ~ is_parsed className s -> files className = Some file ->
  exists cl s1 s2 ci fns sup ids, parse_file HashString className file (fun name => SOMCompileFile fuel name false) s1 = Ok (cl, s2) /\
    Interner.Get (ac_name cl) (ld_interner s') = Ok className /\
    class_at s' res ci /\ ci_superClass ci = ac_superClass cl /\
    c_methods (ci_class ci) = zip_with (fun m fn => mk_methinfo (Z.of_nat (m_selectorName m)) fn) (m_instanceMethods cl) fns /\
    length fns = length (m_instanceMethods cl) /\
    c_fields (ci_class ci) = sup ++ (Z.of_nat <$> ids) /\ super_fields (ac_superClass cl) s' sup /\
    names_at s' ids (own_field_names className cl).
Proof.
  intros Hs Hrun Hno Hfile. simpl in Hrun. unfold mbind at 1, M_bind in Hrun. rewrite intern_interned in Hrun.
  destruct (inv_interned _ _ _ className s Hs) as (H1 & [L1 U1] & Hg). unfold mbind at 1, M_bind, gets at 1 in Hrun.
  destruct (m_parsedClasses (interned HashString className s) !! _) as [c|] eqn:Hp.
  { destruct (not_parsed_interned HashString bcLength vm className className s Hs Hno). by exists (InternString HashString className (ld_interner s)).1, c. }
  rewrite Hfile in Hrun. unfold mbind at 1, M_bind in Hrun.
  assert (Hload : forall m s', loader_inv s' ->
      wp any_error (SOMCompileFile fuel m false) (fun c s2 => step_to HashString bcLength vm s' s2 /\ exists ci, class_at s2 c ci) s').
  { intros m s1 Hs1. eapply wp_mono; [by apply (wp_SOMCompileFile _ _ _ _ _ fuel m false)|]. intros c s2 [(K1 & K2 & K3 & K4) _].
    split; [|done]. split_and!; [done|done|]. intros c'. by apply K4. }
  pose proof (wp_parse_file HashString bcLength vm className file (fun name => SOMCompileFile fuel name false) _ H1 Hload) as Hparse.
  unfold wp in Hparse. destruct (parse_file _ _ _ _ _) as [[cl s2]|e] eqn:Epf; [|done]. destruct Hparse as [(Hs2 & L2 & U2) Hfit].
  unfold mbind at 1, M_bind in Hrun.
  pose proof (wp_load_class HashString bcLength bcConstants vm className false cl s2 Hs2 Hfit I) as Hl. unfold wp in Hl.
  destruct (load_class _ _ _ _ _ _ _ _) as [[res' s3]|e]; [|done]. unfold mbind, M_bind, modify, mret, M_ret in Hrun. injection Hrun as -> <-.
  destruct Hl as [_ Hd]. destruct (Hd eq_refl) as [Hn (ci & r & sup & ids & Hci & Hsc & Hown & Hr & Hsup & Hids & Hfs)].
  exists cl, (interned HashString className s), s2, ci, (r.*2), sup, ids. split_and!; [done|done|done|done| | |done|done|done].
  - rewrite Hown, <-Hr. clear. unfold meth_infos. induction r as [|[m fn] r IH]; [done|]. csimpl. by rewrite IH.
  - by rewrite <-Hr, !length_fmap.
Qed.

(** A class is loaded once: asking for it again, however little fuel is left, returns
    the same class and changes nothing. *)
Theorem SOMCompileFile_once fuel fuel' className b b' s res s' : loader_inv s -> slot_ready className b s ->
  SOMCompileFile fuel className b s = Ok (res, s') ->
  SOMCompileFile (S fuel') className b' s' = Ok (res, s').
Proof.
  intros Hs Hready Hrun.
  destruct (wp_ok _ _ _ _ _ _ (wp_SOMCompileFile _ _ _ _ _ fuel className b s Hs Hready) Hrun) as [(H1 & _) (id & Hid & Hp)].
  simpl. unfold mbind at 1, M_bind. rewrite intern_interned. apply Get_Ok_lookup in Hid as [h Hh].
  assert (Hk : InternString HashString className (ld_interner s') = (id, ld_interner s')).
  { eapply InternString_known; [apply (li_started _ _ _ _ H1)|exact Hh]. }
  assert (Hsame : interned HashString className s' = s').
  { unfold interned. rewrite Hk. destruct s' as [[[] ? ? ?] ? ? ? ? ? ? ? ? ?]. done. }
  rewrite Hsame, Hk. unfold mbind at 1, M_bind, gets at 1. simpl. by rewrite Hp.
Qed.

(** C18: loading a class always ends unless a class is its own ancestor: when the files
    name superclasses that go down some ranking of the names, [SOMCompileFile] with as
    much fuel as the rank returns the class or reports why it cannot, and never runs
    out of fuel, whatever the files hold otherwise. *)
Theorem SOMCompileFile_terminates (rank : string -> nat) fuel className b s :
  (forall n file sup, files n = Some file -> named_superclass n file = Some sup -> rank sup < rank n) ->
  loader_inv s -> slot_ready className b s -> rank className < fuel ->
  match SOMCompileFile fuel className b s with
  | Ok (res, s') => loader_inv s' /\ exists ci, class_at s' res ci
  | Err e => e <> OutOfFuel
  end.
Proof.
  intros Hrank Hs Hready Hf. pose proof (rank_terminates HashString bcLength bcConstants vm files rank Hrank fuel className b s Hs Hready Hf) as Hne.
  pose proof (wp_SOMCompileFile HashString bcLength bcConstants vm files fuel className b s Hs Hready) as Hwp. unfold wp in Hwp.
  destruct (SOMCompileFile fuel className b s) as [[res s']|e]; [|congruence]. destruct Hwp as [(H1 & _ & H3 & _) _]. done.
Qed.

(** C19: a class that is its own ancestor is never loaded: a class is noted as loaded only
    when it is complete, so that the recursion through its superclasses comes back to it
    for ever, and no fuel is enough; the program's stack overflows instead of an error
    being reported. *)
Theorem cyclic_inheritance_diverges (ancestor : string -> Prop) fuel className b s :
  (forall n, ancestor n -> exists file sup, files n = Some file /\ named_superclass n file = Some sup /\ ancestor sup) ->
  loader_inv s -> (forall n, ancestor n -> ~ is_parsed n s) -> ancestor className ->
  SOMCompileFile fuel className b s = Err OutOfFuel.
Proof. intros Hc Hs Hno Hn. by apply (endless_chain _ _ _ _ _ ancestor). Qed.
End loading.

(** ** A small class library *)
Fixpoint polynomial (s : string) (h : Z) : Z :=
  match s with
  | String.EmptyString => h
  | String.String c s' => polynomial s' ((h * 16777619 + Z.of_nat (nat_of_ascii c)) `mod` 4294967291)%Z
  end.
(** The tables of the system classes must have 128 entries: these eight names collide
    until they do. *)
Definition demo_hash (s : string) : Z :=
  match list_find (fun n => n = s) ["a"; "b"; "c"; "d"; "e"; "f"; "g"; "h"]%string with
  | Some (O, _) => 0%Z
  | Some (S i, _) => (65537 * 2 ^ Z.of_nat i)%Z
  | None => polynomial s 1234567
  end.
Definition demo_table : list (string * string) :=
  [("Object", "Object = nil ( a = ( ^ 1 ) b = ( ^ self ) c = ( ) d = ( ) e = ( ) f = ( ) g = ( ) h = ( ) foo = primitive class = primitive )");
   ("Class", "Class = ( new = primitive )"); ("Metaclass", "Metaclass = Class ( )");
   ("True", "True = Boolean ( )"); ("False", "False = Boolean ( )"); ("Block1", "Block1 = Block ( )");
   ("Block2", "Block2 = Block ( )"); ("Block3", "Block3 = Block ( )"); ("Symbol", "Symbol = String ( )");
   ("System", "System = ( initialize: args = ( ^ Counter new run: 4 ) )");
   ("Counter", "Counter = ( | n | run: k = ( n := 0. 1 to: k do: [ :i | n := n + i ]. ^ n ) ---- | c | new = ( c := 5. ^ super new ) )");
   ("Array", "Array = ( )"); ("String", "String = ( )"); ("Boolean", "Boolean = ( )"); ("Nil", "Nil = ( )"); ("Integer", "Integer = ( )");
   ("Double", "Double = ( )"); ("Block", "Block = ( )"); ("Method", "Method = ( )"); ("Primitive", "Primitive = ( )")]%string.
Definition demo_files (name : string) : option chars :=
  match list_find (fun e => e.1 = name) demo_table with Some (_, (_, text)) => Some (list_ascii_of_string text) | None => None end.

Definition demo_start : VMStrings * StringInterner :=
  match InitializeStrings demo_hash empty_interner with Ok r => r | Err _ => (started_strings demo_hash, empty_interner) end.
Definition demo_prims : gmap (bool * string * string) Element :=
  match SOMPrimitivesContainer (no_primitives []) with Ok (_, p) => Primitives.m_map p | Err _ => ∅ end.
Definition demo_loader : Loader :=
  mk_loader (mk_vm (mk_str demo_start.2 [] [] [] []) [] (mk_rcontext [] None []) []) ∅ [] demo_prims [] [] [] [] ∅ false.
Notation demo_bootstrap := (SOMBootstrapClassHierarchy demo_hash eight no_constants demo_start.1 demo_files).
Notation demo_compile := (SOMCompileFile demo_hash eight no_constants demo_start.1 demo_files).
Definition after {A} (r : result (A * Loader)) (s : Loader) : Loader := match r with Ok (_, s') => s' | Err _ => s end.
Definition result_class (r : result (nat * Loader)) : nat := match r with Ok (c, _) => c | Err _ => 0 end.
Definition is_ok {A} (r : result A) : bool := match r with Ok _ => true | Err _ => false end.

Definition demo_booted : Loader := after (demo_bootstrap 5 demo_loader) demo_loader.
Definition demo_counter : nat := result_class (demo_compile 5 "Counter" false demo_booted).
Definition demo_loaded : Loader := after (demo_compile 5 "Counter" false demo_booted) demo_booted.

Lemma after_ok {A} (r : result (A * Loader)) s : is_ok r = true -> exists a, r = Ok (a, after r s).
Proof. destruct r as [[a s']|e]; [|done]. by exists a. Qed.

(** The library loads, with [Counter] on top of it. *)
Lemma demo_loads : is_ok (demo_bootstrap 5 demo_loader) && is_ok (demo_compile 5 "Counter" false demo_booted) = true.
Proof. vm_compute. reflexivity. Qed.
Lemma demo_counter_ok : demo_compile 5 "Counter" false demo_booted = Ok (demo_counter, demo_loaded).
Proof.
  destruct (proj1 (andb_true_iff _ _) demo_loads) as [_ H]. unfold demo_counter, demo_loaded.
  destruct (demo_compile 5 "Counter" false demo_booted) as [[c s]|e]; [reflexivity|discriminate H].
Qed.

Lemma demo_start_state : start_state demo_hash demo_start.1 demo_loader.
Proof.
  destruct (wp_total _ _ _ (InitializeStrings_wp demo_hash)) as (v & it & Hr & _ & Hwf & _).
  assert (Hst : demo_start = (v, it)) by (unfold demo_start; by rewrite Hr).
  split; [| |reflexivity..].
  - unfold ld_globals, ld_interner, demo_loader. simpl. rewrite Hst. by apply empty_globals_wf.
  - unfold ld_interner, demo_loader. simpl. rewrite Hst. split; [exact Hwf|]. exists it. split; [exact Hr|reflexivity].
Qed.
Lemma demo_reached_booted : reached demo_hash eight no_constants demo_start.1 demo_files 5 demo_loader demo_booted.
Proof.
  destruct (proj1 (andb_true_iff _ _) demo_loads) as [H _]. destruct (after_ok _ demo_loader H) as [r Hr].
  exact (reached_bootstrap _ _ _ _ _ _ _ r _ Hr).
Qed.
Lemma demo_reached : reached demo_hash eight no_constants demo_start.1 demo_files 5 demo_loader demo_loaded.
Proof. exact (reached_load _ _ _ _ _ _ _ _ _ _ _ demo_reached_booted demo_counter_ok). Qed.
Lemma demo_booted_inv : loader_inv demo_hash eight demo_start.1 demo_booted.
Proof. apply (reached_inv _ _ _ _ _ _ _ _ demo_start_state demo_reached_booted). Qed.

#[local] Opaque demo_loaded demo_booted demo_counter demo_start demo_hash.

(** ** The theorems at this library *)
Definition unit_at (s : Loader) (u i : nat) : option TranslationContext := ld_units s !! u ≫= (.!! i).
Lemma loaded_code_safe_witness :
  exists cs c, ld_units demo_loaded !! 0 = Some cs /\ cs !! 0 = Some c /\ builder_wf eight (m_builder c) /\
    forall pos bc, (pos, bc) ∈ code (m_builder c) -> branch_ok (m_builder c) (pos, bc) /\ ~ bc_writes bc 0.
Proof.
  assert (H : match ld_units demo_loaded !! 0 with Some (_ :: _) => true | _ => false end = true) by (vm_compute; reflexivity).
  destruct (ld_units demo_loaded !! 0) as [[|c cs]|] eqn:E; [discriminate H| |discriminate H].
  exists (c :: cs), c. split; [reflexivity|]. split; [reflexivity|].
  destruct (loaded_code_safe demo_hash eight no_constants demo_start.1 demo_files 5 demo_loader demo_loaded 0 (c :: cs) 0 c
    demo_start_state demo_reached E eq_refl) as (Hw & Hall & _).
  split; [exact Hw|]. intros pos bc Hin. destruct (Hall pos bc Hin) as (_ & Hb & Hn). split; [exact Hb|exact (Hn eq_refl)].
Defined.

(** [Counter] inherits [foo] from [Object], and declares [run:]. *)
Definition class_of_loaded (c : nat) : option ClassInfo := mjoin (ld_classes demo_loaded !! c).
Definition demo_ord (name : string) : nat := default 0 (Interner.m_map (ld_interner demo_loaded) !! name).
Definition demo_name (name : string) : SOMUniquedString :=
  mk_uniqued (u32 (Z.of_nat (demo_ord name))) (hash32 (demo_hash name)).
Lemma demo_room : has_room (ld_interner demo_loaded).
Proof. apply Z.ltb_lt. vm_compute. reflexivity. Qed.
Lemma demo_names : forallb (fun n => match m_list (ld_interner demo_loaded) !! demo_ord n with
    Some (s, h) => String.eqb s n && Z.eqb h (demo_hash n) | None => false end) ["foo"; "run:"; "initialize:"]%string = true.
Proof. vm_compute. reflexivity. Qed.

Lemma loaded_class_dispatch_witness :
  exists ci up f, class_at demo_loaded demo_counter ci /\ inherited_method demo_loaded ci (demo_name "foo") = Ok (Some up) /\
    GetMethod (ci_class ci) (demo_name "foo") = Ok (Some up) /\ GetMethod (ci_class ci) (demo_name "run:") = Ok (Some f).
Proof.
  assert (H : match ld_classes demo_loaded !! demo_counter with
      | Some (Some ci) => bool_decide (declared (c_methods (ci_class ci)) (Z.of_nat (demo_ord "foo")) = None) &&
          bool_decide (is_Some (declared (c_methods (ci_class ci)) (Z.of_nat (demo_ord "run:")))) &&
          match GetMethod (ci_class ci) (demo_name "foo") with Ok (Some _) => true | _ => false end
      | _ => false end = true) by (vm_compute; reflexivity).
  destruct (ld_classes demo_loaded !! demo_counter) as [[ci|]|] eqn:E; [|discriminate H|discriminate H].
  apply andb_true_iff in H as [H Hfoo]. apply andb_true_iff in H as [Hno Hrun].
  apply bool_decide_eq_true in Hno. apply bool_decide_eq_true in Hrun as [f Hf].
  pose proof demo_names as Hn. simpl in Hn. apply andb_true_iff in Hn as [Hn1 Hn]. apply andb_true_iff in Hn as [Hn2 _].
  destruct (m_list (ld_interner demo_loaded) !! demo_ord "foo") as [[s1 h1]|] eqn:E1; [|discriminate Hn1].
  destruct (m_list (ld_interner demo_loaded) !! demo_ord "run:") as [[s2 h2]|] eqn:E2; [|discriminate Hn2].
  apply andb_true_iff in Hn1 as [_ ->%Z.eqb_eq]. apply andb_true_iff in Hn2 as [_ ->%Z.eqb_eq].
  destruct (loaded_class_dispatch demo_hash eight no_constants demo_start.1 demo_files 5 demo_loader demo_loaded demo_counter ci
    (demo_ord "foo") s1 (demo_hash "foo") demo_start_state demo_reached E demo_room E1) as ((up & Hup & Hget) & _).
  destruct (loaded_class_dispatch demo_hash eight no_constants demo_start.1 demo_files 5 demo_loader demo_loaded demo_counter ci
    (demo_ord "run:") s2 (demo_hash "run:") demo_start_state demo_reached E demo_room E2) as ((up2 & _ & Hget2) & _).
  rewrite Hno in Hget. rewrite Hf in Hget2. unfold demo_name in Hfoo. rewrite Hget in Hfoo.
  destruct up as [u|]; [|discriminate Hfoo]. exists ci, u, f. split; [exact E|]. split; [exact Hup|]. split; [exact Hget|exact Hget2].
Defined.

Lemma not_parsed_name name s : interner_wf demo_hash (ld_interner s) -> Interner.m_map (ld_interner s) !! name = None -> ~ is_parsed name s.
Proof.
  intros (_ & Hb & Hh) Hn (id & c & [h Hg]%Get_Ok_lookup & _). pose proof (Hh _ _ _ Hg) as ->. apply Hb in Hg. congruence.
Qed.
Definition counter_text : chars := default [] (demo_files "Counter").

Lemma loaded_class_matches_file_witness :
  exists ci cl sup ids, class_at demo_loaded demo_counter ci /\ ci_superClass ci = ac_superClass cl /\
    length (c_methods (ci_class ci)) = length (m_instanceMethods cl) /\ super_fields (ac_superClass cl) demo_loaded sup /\
    c_fields (ci_class ci) = sup ++ (Z.of_nat <$> ids) /\ names_at demo_loaded ids (m_instanceFields cl).
Proof.
  destruct (loaded_class_matches_file demo_hash eight no_constants demo_start.1 demo_files 4 "Counter" demo_booted demo_counter demo_loaded
    counter_text demo_booted_inv demo_counter_ok) as (cl & s1 & s2 & ci & fns & sup & ids & _ & _ & Hci & Hsup & Hm & Hlen & Hf & Hsf & Hids).
  - intros (id & c & Hg & Hp).
    assert (H : forallb (fun e => negb (String.eqb (match Interner.Get e.1 (ld_interner demo_booted) with Ok n => n | Err _ => ""%string end) "Counter"))
      (map_to_list (m_parsedClasses demo_booted)) = true) by (vm_compute; reflexivity).
    rewrite forallb_forall in H. specialize (H (id, c)). rewrite <-list_elem_of_In, elem_of_map_to_list in H.
    specialize (H Hp). cbv beta iota delta [fst] in H. rewrite Hg in H. discriminate H.
  - vm_compute. reflexivity.
  - exists ci, cl, sup, ids. split; [exact Hci|]. split; [exact Hsup|]. split; [rewrite Hm, length_zip_with, Hlen; apply Nat.min_id|].
    split; [exact Hsf|]. split; [exact Hf|]. unfold own_field_names in Hids. rewrite app_nil_r in Hids. exact Hids.
Defined.

Lemma SOMCompileFile_once_witness : demo_compile 1 "Counter" true demo_loaded = Ok (demo_counter, demo_loaded).
Proof.
  apply (SOMCompileFile_once demo_hash eight no_constants demo_start.1 demo_files 5 0 "Counter" false true demo_booted demo_counter demo_loaded
    demo_booted_inv); [by intros c|exact demo_counter_ok].
Defined.

(** The demo's classes, by the length of their chains. *)
Definition demo_rank (name : string) : nat :=
  if bool_decide (name = "Object"%string) then 0
  else if bool_decide (name ∈ ["Metaclass"; "True"; "False"; "Block1"; "Block2"; "Block3"; "Symbol"]%string) then 2 else 1.
Lemma demo_ranked n file sup : demo_files n = Some file -> named_superclass n file = Some sup -> demo_rank sup < demo_rank n.
Proof.
  assert (H : forallb (fun e => match named_superclass e.1 (list_ascii_of_string e.2) with Some sup => demo_rank sup <? demo_rank e.1 | None => true end)
    demo_table = true) by (vm_compute; reflexivity).
  unfold demo_files. destruct (list_find _ demo_table) as [[i [m text]]|] eqn:E; [|done]. apply list_find_Some in E as (Hi & Hm & _).
  simpl in Hm. subst m. intros [= <-] Hsup. rewrite forallb_forall in H. specialize (H (n, text)).
  rewrite <-list_elem_of_In in H. specialize (H (list_elem_of_lookup_2 _ _ _ Hi)). simpl in H. rewrite Hsup in H. by apply Nat.ltb_lt.
Qed.
Lemma SOMCompileFile_terminates_witness :
  match demo_compile 2 "Counter" false demo_booted with
  | Ok (res, s') => loader_inv demo_hash eight demo_start.1 s' /\ exists ci, class_at s' res ci
  | Err e => e <> OutOfFuel
  end.
Proof.
  apply (SOMCompileFile_terminates demo_hash eight no_constants demo_start.1 demo_files demo_rank 2 "Counter" false demo_booted demo_ranked
    demo_booted_inv); [by intros c|vm_compute; lia].
Defined.

(** Two classes that name each other. *)
Definition loop_files (name : string) : option chars :=
  if bool_decide (name = "Loop"%string) then Some (list_ascii_of_string "Loop = Pool ( )")
  else if bool_decide (name = "Pool"%string) then Some (list_ascii_of_string "Pool = Loop ( )") else demo_files name.
Definition loop_name (n : string) : Prop := n = "Loop"%string \/ n = "Pool"%string.
Lemma cyclic_inheritance_diverges_witness :
  SOMCompileFile demo_hash eight no_constants demo_start.1 loop_files 1000 "Loop" false
    (with_classes (replicate (length system_classes) None) demo_loader) = Err OutOfFuel.
Proof.
  destruct (start_allocated demo_hash eight demo_start.1 demo_loader demo_start_state) as (Hs & _ & _).
  apply (cyclic_inheritance_diverges demo_hash eight no_constants demo_start.1 loop_files loop_name); [|exact Hs| |by left].
  - intros n [-> | ->]; [exists (list_ascii_of_string "Loop = Pool ( )"), "Pool"%string|exists (list_ascii_of_string "Pool = Loop ( )"), "Loop"%string];
      (split; [vm_compute; reflexivity|]); (split; [vm_compute; reflexivity|]); [by right|by left].
  - intros n _ (id & c & _ & Hp). simpl in Hp. by rewrite lookup_empty in Hp.
Defined.
