(* ===== verification/Metaclasses.v ===== *)
(** * Classes and metaclasses

    Each class has a class of its own, which holds its class-side methods, and a class
    object that is the instance of it.  [load_class_side] of [Loading.v] keeps the two
    hierarchies parallel: the class of a class inherits from the class of its
    superclass, and every class of a class is itself an instance of [Metaclass]. *)
From S2P Require Import Prelude Interner VmSelectors CNumbers Lexer Ast AstWf Parser ParserTotal ParserWf Bytecode Compiler CompilerInv CompilerRules CompilerMethod CompilerProperties Frontend MethodTable TValue Values Primitives Objects OpenUpvalues Symbols Machine Calls LibCalls Interp Runs Loading LoadingInv Inheritance LoadingProps.
#[local] Set Default Proof Using "Type*".

(** The class an object of the heap is an instance of. *)
Definition instance_of (h : Heap) (o c : nat) : Prop := exists fs, h !! o = Some (OPlain c fs).
Definition keeps_instances (h h' : Heap) : Prop := forall o c, instance_of h o c -> instance_of h' o c.
#[export] Instance keeps_instances_preorder : PreOrder keeps_instances.
Proof. split; [by intros h o c|]. intros h1 h2 h3 H1 H2 o c Ho. auto. Qed.

Lemma keeps_append h l : keeps_instances h (h ++ l).
Proof. intros o c [fs Ho]. exists fs. by apply lookup_app_l_Some. Qed.
Lemma PutField_instances base i v h : wp any_error (PutFieldImpl base i v) (fun _ h' => keeps_instances h h') h.
Proof.
  unfold PutFieldImpl, fields_of. apply wp_bind. destruct base as [ | | | | r| ]; try done. apply wp_bind.
  unfold wp at 1, deref. destruct (h !! r) as [o|] eqn:E; [|done]. destruct o as [c fs| |]; try done. apply wp_ret.
  destruct (fs !! i); [|done]. apply wp_modify. intros o c' [fs' Ho]. destruct (decide (o = r)) as [->|Hne].
  - assert (c' = c) as -> by congruence. eexists. apply list_lookup_insert_eq. by eapply lookup_lt_Some.
  - exists fs'. by rewrite list_lookup_insert_ne.
Qed.

(** ** Operations that change neither the classes nor the globals *)
Definition same_tables (s s' : Loader) : Prop :=
  ld_classes s' = ld_classes s /\ ld_globals s' = ld_globals s /\ keeps_instances (ld_heap s) (ld_heap s').
#[export] Instance same_tables_preorder : PreOrder same_tables.
Proof.
  split; [intros s; split_and!; reflexivity|]. intros s1 s2 s3 (A1 & A2 & A3) (B1 & B2 & B3).
  split_and!; [congruence|congruence|by etrans].
Qed.
Definition on_tables {A} (m : Loading.D A) : Prop := forall s, wp any_error m (fun _ s' => same_tables s s') s.

Lemma ot_bind {A B} (m : Loading.D A) (f : A -> Loading.D B) : on_tables m -> (forall a, on_tables (f a)) -> on_tables (m ≫= f).
Proof.
  intros Hm Hf s. apply wp_bind. eapply wp_mono; [apply Hm|]. intros a s1 H1. eapply wp_mono; [apply Hf|].
  intros b s2 H2. exact (transitivity H1 H2).
Qed.
Lemma ot_ret {A} (a : A) : on_tables (mret a).
Proof. intros s. apply wp_ret. split_and!; reflexivity. Qed.
Lemma ot_fail {A} e : on_tables (fail e : Loading.D A).
Proof. intros s. exact I. Qed.
Lemma ot_the_info cl : on_tables (the_info cl).
Proof. intros s. unfold wp, the_info. destruct (_ !! _) as [[i|]|]; done. Qed.
Lemma ot_objects {A} (m : HM A) : (forall h, wp any_error m (fun _ h' => keeps_instances h h') h) -> on_tables (on_machine (on_objects m)).
Proof.
  intros Hm s. pose proof (Hm (ld_heap s)) as H. unfold wp, on_machine, on_objects, on_str, on_heap, ld_heap in *.
  destruct (m _) as [[a h]|e]; [|done]. split_and!; [done|done|exact H].
Qed.
Lemma AsArray_instances v h : wp any_error (AsArray v) (fun _ h' => keeps_instances h h') h.
Proof.
  unfold AsArray. destruct v as [ | | | | r| ]; try done. apply wp_bind. unfold wp at 1, deref.
  destruct (h !! r) as [o|]; [|done]. destruct o; [exact I|apply wp_ret; reflexivity|exact I].
Qed.
Lemma ot_set_holders holder meths : on_tables (set_holders holder meths).
Proof.
  induction meths as [|m meths IH]; simpl; [apply ot_ret|]. apply ot_bind; [|intros _; exact IH].
  apply ot_objects. intros h. apply PutField_instances.
Qed.
Lemma ot_Finish cl : on_tables (FinishSOMClassMethodArray cl).
Proof.
  unfold FinishSOMClassMethodArray. apply ot_bind; [apply ot_the_info|]. intros i. destruct (ci_classObject i); [|apply ot_fail].
  apply ot_bind; [apply ot_objects; intros h; apply AsArray_instances|]. intros ms. apply ot_set_holders.
Qed.

(** ** The steps at the end of [load_class_side], exactly *)
Definition with_heap (h : Heap) (s : Loader) : Loader :=
  with_vm (with_str (mk_str (ld_interner s) (m_internedStringObjects (vm_str (ld_vm s))) (m_internedSymbolObjects (vm_str (ld_vm s)))
    (m_cachedSingleCharStrings (vm_str (ld_vm s))) h) (ld_vm s)) s.
Lemma wp_Instantiate cl s Q :
  (forall i, class_at s cl i -> Q (length (ld_heap s)) (with_heap (ld_heap s ++ [OPlain cl (replicate (c_numFields (ci_class i)) VNil)]) s)) ->
  wp any_error (InstantiateClass cl) Q s.
Proof.
  intros HQ. unfold InstantiateClass. apply wp_bind. unfold wp at 1, the_info.
  destruct (ld_classes s !! cl) as [[i|]|] eqn:E; [|done|done]. exact (HQ i E).
Qed.
Definition with_object (i : ClassInfo) (o : nat) : ClassInfo := mk_info (ci_class i) (ci_superClass i) (Some o) (ci_name i) (ci_fields i) (ci_methods i).
Lemma wp_set_object cl o i s Q : class_at s cl i -> Q tt (with_classes (<[cl := Some (with_object i o)]> (ld_classes s)) s) ->
  wp any_error (set_classObject cl o) Q s.
Proof. intros Hi HQ. unfold set_classObject. apply wp_bind. unfold wp at 1, the_info. rewrite Hi. exact HQ. Qed.

Section links.
Context (HashString : string -> Z) (bcLength : Bytecode -> nat) (bcConstants : Bytecode -> list Cst) (vm : VMStrings).
Context (files : string -> option chars) `{!EncodingLaws bcLength}.
Notation loader_inv := (loader_inv HashString bcLength vm).

Lemma wp_SetSOMGlobal key value s Q : loader_inv s ->
  (forall s', ld_classes s' = ld_classes s -> ld_heap s' = ld_heap s -> global_value key (ld_globals s') = Some value -> Q tt s') ->
  wp any_error (SetSOMGlobal HashString key value) Q s.
Proof.
  intros Hs HQ. unfold wp, SetSOMGlobal. pose proof (GetSlotForGlobal_slot HashString key _ (li_globals _ _ _ _ Hs)) as Hslot.
  destruct (GetSlotForGlobal HashString key (ld_globals s)) as [slot g]. destruct Hslot as (ord & Hm & Hi & Hlt).
  destruct (m_globalsVec g !! slot) as [[w|]|]; [done| |done]. apply HQ; [done|done|].
  unfold global_value. simpl in *. unfold ld_interner. simpl. rewrite Hm. simpl. rewrite Hi. simpl. by rewrite list_lookup_insert_eq.
Qed.

(** The class object of [res] is a global and an instance of the class's class, which
    inherits from [SClass] and whose own class object is an instance of [Metaclass]. *)
Definition linked (className : string) (res SClass : nat) (s' : Loader) : Prop :=
  exists ci o CClass cci co, class_at s' res ci /\ ci_classObject ci = Some o /\ instance_of (ld_heap s') o CClass /\
    global_value className (ld_globals s') = Some (VObject o) /\
    class_at s' CClass cci /\ ci_superClass cci = Some SClass /\
    ci_classObject cci = Some co /\ instance_of (ld_heap s') co m_metaclassClass.

Lemma linked_same className res SClass s s' : same_tables s s' -> linked className res SClass s -> linked className res SClass s'.
Proof.
  intros (Hc & Hg & Hh) (ci & o & CClass & cci & co & H1 & H2 & H3 & H4 & H5 & H6 & H7 & H8). exists ci, o, CClass, cci, co.
  unfold class_at. rewrite Hc, Hg. split_and!; auto.
Qed.

(** The class of a class whose class object is known. *)
Lemma wp_class_of_class cl s ci o c Q : class_at s cl ci -> ci_classObject ci = Some o -> instance_of (ld_heap s) o c ->
  Q c s -> wp any_error (class_of_class cl) Q s.
Proof.
  intros Hci Ho [fs Hc] HQ. unfold class_of_class. apply wp_bind. unfold wp at 1, the_info. rewrite Hci, Ho.
  apply wp_bind. unfold wp at 1, on_machine, on_objects, on_str, on_heap, deref. unfold ld_heap in Hc. simpl. rewrite Hc.
  destruct s as [[[] ? ? ?] ? ? ? ? ? ? ? ? ?]. exact HQ.
Qed.

(** From the class's class, once it is created, to the end. *)
Lemma wp_link className res CClass SClass s ci cci : loader_inv s -> res <> CClass -> class_at s res ci -> class_at s CClass cci ->
  ci_superClass cci = Some SClass ->
  wp any_error (loaded ← gets m_metaclassClassLoaded;
    check loaded (AssertFailed "vm->m_metaclassClassLoaded") ;;
    co ← InstantiateClass m_metaclassClass;
    i ← the_info m_metaclassClass;
    check (c_numFields (ci_class i) =? 1) (AssertFailed "vm->m_metaclassClass->m_numFields == 1") ;;
    set_classObject CClass co ;;
    o ← InstantiateClass CClass;
    i ← the_info CClass;
    check (0 <? c_numFields (ci_class i)) (AssertFailed "CClass->m_numFields > 0") ;;
    set_classObject res o ;;
    SetSOMGlobal HashString className (VObject o) ;;
    FinishSOMClassMethodArray res ;;
    FinishSOMClassMethodArray CClass) (fun _ s' => linked className res SClass s') s.
Proof.
  intros Hs Hne Hci Hcci Hsup. apply wp_bind, wp_gets, wp_bind, wp_check; [intros _|done].
  apply wp_bind, wp_Instantiate. intros mi Hmi. set (s1 := with_heap _ s).
  assert (Hs1 : loader_inv s1) by (by apply (inv_same HashString bcLength vm s s1)).
  apply wp_bind. unfold wp at 1, the_info. rewrite (Hmi : ld_classes s1 !! _ = _). apply wp_bind, wp_check; [intros _|done].
  apply wp_bind. eapply wp_set_object; [exact Hcci|]. set (s2 := with_classes _ s1).
  pose proof (gs_set_classObject HashString bcLength vm CClass (length (ld_heap s)) s1 Hs1) as Hg2.
  assert (Hset : set_classObject CClass (length (ld_heap s)) s1 = Ok (tt, s2)).
  { unfold set_classObject, mbind, M_bind, the_info. by rewrite (Hcci : ld_classes s1 !! _ = _). }
  unfold wp in Hg2. rewrite Hset in Hg2. destruct Hg2 as (Hs2 & _).
  assert (Hcci2 : class_at s2 CClass (with_object cci (length (ld_heap s)))) by (apply list_lookup_insert_eq; by eapply lookup_lt_Some).
  assert (Hci2 : class_at s2 res ci) by (unfold class_at; simpl; by rewrite list_lookup_insert_ne).
  apply wp_bind, wp_Instantiate. intros ci2 Hci2'. set (s3 := with_heap _ s2).
  assert (Hs3 : loader_inv s3) by (by apply (inv_same HashString bcLength vm s2 s3)).
  apply wp_bind. unfold wp at 1, the_info. rewrite (Hci2' : ld_classes s3 !! _ = _). apply wp_bind, wp_check; [intros _|done].
  apply wp_bind. eapply wp_set_object; [exact Hci2|]. set (s4 := with_classes _ s3).
  pose proof (gs_set_classObject HashString bcLength vm res (length (ld_heap s2)) s3 Hs3) as Hg4.
  assert (Hset4 : set_classObject res (length (ld_heap s2)) s3 = Ok (tt, s4)).
  { unfold set_classObject, mbind, M_bind, the_info. by rewrite (Hci2 : ld_classes s3 !! _ = _). }
  unfold wp in Hg4. rewrite Hset4 in Hg4. destruct Hg4 as (Hs4 & _).
  apply wp_bind, wp_SetSOMGlobal; [exact Hs4|]. intros s5 Hc5 Hh5 Hglob.
  assert (Hl : linked className res SClass s5).
  { exists (with_object ci (length (ld_heap s2))), (length (ld_heap s2)), CClass, (with_object cci (length (ld_heap s))), (length (ld_heap s)).
    unfold class_at. rewrite Hc5, Hh5. split_and!; [|done| |done| |exact Hsup|done|].
    - apply list_lookup_insert_eq. by eapply lookup_lt_Some.
    - eexists. unfold s4, s3. simpl. apply list_lookup_middle. reflexivity.
    - unfold s4. simpl. rewrite list_lookup_insert_ne by done. exact Hcci2.
    - apply (keeps_append (ld_heap s2) [_]). eexists. unfold s2, s1. simpl. apply list_lookup_middle. reflexivity. }
  apply wp_bind. eapply wp_mono; [apply ot_Finish|]. intros u6 s6 H6. eapply wp_mono; [apply ot_Finish|]. intros u7 s7 H7.
  exact (linked_same _ _ _ _ _ H7 (linked_same _ _ _ _ _ H6 Hl)).
Qed.

Lemma wp_load_class_side_links className res cl s ci sc sci so SClass : loader_inv s -> class_fits s cl ->
  class_at s res ci -> ci_superClass ci = Some sc ->
  class_at s sc sci -> ci_classObject sci = Some so -> instance_of (ld_heap s) so SClass ->
  wp any_error (load_class_side HashString bcLength bcConstants vm className res cl) (fun _ s' => linked className res SClass s') s.
Proof.
  intros Hs [_ Hfit] Hci Hsc Hsci Hso Hinst.
  unfold load_class_side. apply wp_bind. unfold wp at 1, the_info. rewrite Hci, Hsc.
  apply wp_bind. eapply wp_class_of_class; [exact Hsci|exact Hso|exact Hinst|].
  eapply (gs_wp_any _ _ _ _); [apply (gs_class_field_names HashString bcLength vm _)|exact Hs|]. intros inh s1 Hs1 L1 U1 _.
  eapply (gs_wp_any _ _ _ _); [apply (gs_make_fieldMap HashString bcLength vm _)|exact Hs1|]. intros fm s2 Hs2 L2 U2 _.
  assert (Hle : loader_le s s2) by (by etrans).
  apply wp_bind. eapply wp_mono; [apply any_of_no_fuel, wp_compile_methods; [exact _|exact Hs2|by eapply all_fit_le]|].
  intros r s3 [(Hs3 & L3 & U3) Hr].
  eapply (gs_wp_any _ _ _ _); [apply (gs_mapM HashString bcLength vm _); intros f; eapply (gs_any _ _ _ _), (gs_intern _ _ _ _)|exact Hs3|].
  intros fields s4 Hs4 L4 U4 _.
  assert (Hle4 : loader_le s s4) by (etrans; [exact Hle|]; by etrans).
  apply wp_bind. eapply wp_mono; [apply any_of_no_fuel, wp_SOMClass_Create; [exact _|exact Hs4| |exact I]|].
  { apply fits_selectors. rewrite Hr. by eapply all_fit_le. }
  intros CClass s5 [Hs5 L5 U5 (cci & Hcci & _ & Hsup & _) Hnew]. simpl in Hnew.
  destruct (le_classes _ _ Hle4 res ci Hci) as (ci4 & Hci4 & _). destruct (le_classes _ _ L5 res ci4 Hci4) as (ci5 & Hci5 & _).
  apply (wp_link className res CClass SClass s5 ci5 cci); try done.
  apply lookup_lt_Some in Hci4. lia.
Qed.

(** C9: what [load_class_side] does for a class with a superclass whose class object is
    an instance of [SClass], in any state the loader reaches: when it returns, the
    class's class inherits from [SClass]; the class object, which the global of its name
    now holds, is an instance of that class, whose class object in turn is an instance
    of [Metaclass].  (The classes of the three root classes are made by
    [SetupSystemClassObject] instead and inherit from [Class].) *)
Theorem load_class_side_links className res cl s s' ci sc sci so SClass : loader_inv s -> class_fits s cl ->
  class_at s res ci -> ci_superClass ci = Some sc ->
  class_at s sc sci -> ci_classObject sci = Some so -> instance_of (ld_heap s) so SClass ->
  load_class_side HashString bcLength bcConstants vm className res cl s = Ok (tt, s') ->
  linked className res SClass s'.
Proof.
  intros Hs Hfit Hci Hsc Hsci Hso Hinst Hrun.
  pose proof (wp_load_class_side_links className res cl s ci sc sci so SClass Hs Hfit Hci Hsc Hsci Hso Hinst) as H.
  unfold wp in H. by rewrite Hrun in H.
Qed.
End links.

(** A second class object for the demo's [Counter], with a class field of its own. *)
Definition twin : AstClass nat := mk_ast_class 0 None [] ["k"%string] [] [].
Notation load_twin := (load_class_side demo_hash eight no_constants demo_start.1 "Twin" demo_counter twin demo_loaded).
Definition twin_loaded : Loader := after load_twin demo_loaded.
(** The superclass of a class and the class of its class object. *)
Definition has_link (s : Loader) (cl : nat) : bool :=
  match mjoin (ld_classes s !! cl) with
  | Some ci => match ci_superClass ci with
      | Some sc => match mjoin (ld_classes s !! sc) with
          | Some sci => match ci_classObject sci with
              | Some so => match ld_heap s !! so with Some (OPlain _ _) => true | _ => false end
              | None => false end
          | None => false end
      | None => false end
  | None => false end.
Lemma has_link_spec s cl : has_link s cl = true -> exists ci sc sci so c, class_at s cl ci /\ ci_superClass ci = Some sc /\
  class_at s sc sci /\ ci_classObject sci = Some so /\ instance_of (ld_heap s) so c.
Proof.
  unfold has_link, class_at. intros H. destruct (ld_classes s !! cl) as [[ci|]|]; try done. simpl in H.
  destruct (ci_superClass ci) as [sc|] eqn:Hsc; [|done]. destruct (ld_classes s !! sc) as [[sci|]|] eqn:Hsci; try done. simpl in H.
  destruct (ci_classObject sci) as [so|] eqn:Hso; [|done]. destruct (ld_heap s !! so) as [[c fs| |]|] eqn:Ho; try done.
  exists ci, sc, sci, so, c. split_and!; try done. by exists fs.
Qed.
Lemma twin_checks : is_ok load_twin && has_link demo_loaded demo_counter = true.
Proof. vm_compute. reflexivity. Qed.
Lemma twin_run : load_twin = Ok (tt, twin_loaded).
Proof.
  destruct (proj1 (andb_true_iff _ _) twin_checks) as [H _]. unfold twin_loaded. destruct load_twin as [[[] s]|e]; [reflexivity|discriminate H].
Qed.
Lemma demo_loaded_inv : loader_inv demo_hash eight demo_start.1 demo_loaded.
Proof. apply (reached_inv _ _ _ _ _ _ _ _ demo_start_state demo_reached). Qed.
#[local] Opaque demo_loaded demo_counter demo_start demo_hash twin_loaded.

Lemma load_class_side_links_witness : exists SClass, linked "Twin" demo_counter SClass twin_loaded.
Proof.
  destruct (has_link_spec _ _ (proj2 (proj1 (andb_true_iff _ _) twin_checks))) as (ci & sc & sci & so & c & Hci & Hsc & Hsci & Hso & Ho).
  exists c.
  exact (load_class_side_links demo_hash eight no_constants demo_start.1 "Twin" demo_counter twin demo_loaded twin_loaded
    ci sc sci so c demo_loaded_inv (conj (Forall_nil_2 _) (Forall_nil_2 _)) Hci Hsc Hsci Hso Ho twin_run).
Defined.
