(* ===== verification/Main.v ===== *)
(** * The command line

    [standalone/main.cpp]: the arguments become a list of directories to find classes in
    and the arguments of the program; [DoWork] bootstraps the class hierarchy with the
    files found there ([OpenFileForClass] of [runtime/som_compile_file.cpp]) and enters
    the virtual machine at [System>>initialize:] ([DeegenEnterVMFromC] of
    [drt/deegen_enter_vm_from_c.h]).  A C++ string is a list of characters, [size_t] is an
    integer below [2 ^ 64]. *)
From S2P Require Import Prelude Interner VmSelectors CNumbers Lexer Ast Parser Bytecode Compiler CompilerInv CompilerRules CompilerProperties MethodTable TValue Values Primitives Objects OpenUpvalues Symbols Machine Calls LibCalls Interp Loading LoadingInv Inheritance LoadingProps Metaclasses.
From Stdlib Require Import Ascii.
From Stdlib Require String.
#[local] Set Default Proof Using "Type".
#[local] Open Scope Z_scope.

(** ** Strings *)
Definition npos : Z := 2 ^ 64 - 1.
Definition size_t (n : Z) : Z := n `mod` 2 ^ 64.
Definition text (s : string) : chars := list_ascii_of_string s.
Fixpoint last_index (c : ascii) (s : chars) : option nat :=
  match s with
  | [] => None
  | a :: s' => match last_index c s' with Some i => Some (S i) | None => if bool_decide (a = c) then Some 0%nat else None end
  end.
Definition starts_with (prefix s : chars) : bool := bool_decide (take (length prefix) s = prefix).
Fixpoint first_index (needle s : chars) : option nat :=
  if starts_with needle s then Some 0%nat else match s with [] => None | _ :: s' => S <$> first_index needle s' end.
Definition position (i : option nat) : Z := match i with Some i => Z.of_nat i | None => npos end.
(** [std::string::substr] *)
Definition substr (s : chars) (pos n : Z) : result chars :=
  if Z.of_nat (length s) <? pos then Err (Aborted "std::out_of_range")
  else Ok (take (Z.to_nat (Z.min n (Z.of_nat (length s) - pos))) (drop (Z.to_nat pos) s)).

(** The tokens [std::getline] reads up to a separator: none after the last one. *)
Fixpoint getline_tokens (sep : ascii) (token s : chars) : list chars :=
  match s with
  | [] => if bool_decide (token = []) then [] else [token]
  | c :: s => if bool_decide (c = sep) then token :: getline_tokens sep [] s else getline_tokens sep (token ++ [c]) s
  end.

(** ** The arguments *)
Definition slash : ascii := "/"%char.
Definition SetupClassPath (cp : chars) (paths : list chars) : list chars := paths ++ getline_tokens ":"%char [] cp.

(** The tokens it fills in, and whether there is a new path. *)
Definition GetClassPathExt (tokens : chars * chars) (arg : chars) : result (bool * (chars * chars)) :=
  let fpIndex := position (last_index slash arg) in
  let ssepIndex := position (first_index (text ".som") arg) in
  '(fpIndex, found, token0) ←
    (if fpIndex =? npos then Ok (size_t (-1), false, tokens.1)
     else dir ← substr arg 0 fpIndex; Ok (fpIndex, true, dir));
  let ssepIndex := if negb (ssepIndex =? npos) && (fpIndex <? ssepIndex) then size_t (ssepIndex - 1) else Z.of_nat (length arg) in
  name ← substr arg (size_t (fpIndex + 1)) (size_t (ssepIndex - fpIndex));
  Ok (found, (token0, name)).

Inductive CommandLine : Type :=
  | PrintUsageAndExit
  | Arguments (classLoadPaths vmArgs : list chars).

(** [paths] is [g_classLoadPaths], [argv] what follows the name of the program. *)
Fixpoint HandleArguments (argv : list chars) (paths vmArgs : list chars) : result CommandLine :=
  match argv with
  | [] => Ok (Arguments (paths ++ [text "."]) vmArgs)
  | arg :: argv =>
      if starts_with (text "-cp") arg then
        match argv with
        | [] => Ok PrintUsageAndExit
        | cp :: argv => if negb (bool_decide (paths = [])) then Ok PrintUsageAndExit
                        else HandleArguments argv (SetupClassPath cp paths) vmArgs
        end
      else if starts_with (text "-d") arg then HandleArguments argv paths vmArgs
      else if starts_with (text "-g") arg then HandleArguments argv paths vmArgs
      else if starts_with (text "-H") arg then HandleArguments argv paths vmArgs
      else if starts_with (text "-h") arg || starts_with (text "--help") arg then Ok PrintUsageAndExit
      else
        '(newPath, extPathTokens) ← GetClassPathExt ([], []) arg;
        HandleArguments argv (if newPath : bool then paths ++ [extPathTokens.1] else paths) (vmArgs ++ [extPathTokens.2])
  end.

(** ** Files *)
Definition class_filename (path : chars) (className : string) : chars := path ++ text "/" ++ text className ++ text ".som".
(** [fs] is the file system: the contents of a file that can be opened. *)
Fixpoint OpenFileForClass (fs : chars -> option chars) (paths : list chars) (className : string) : option chars :=
  match paths with
  | [] => None
  | path :: paths => match fs (class_filename path className) with Some file => Some file | None => OpenFileForClass fs paths className end
  end.

(** ** The program *)
Definition numStackSlots : nat := Z.to_nat 65536.
(** The stack of the root coroutine. *)
Definition CreateRootCoroutine : RContext Slot := mk_rcontext [] None (replicate numStackSlots None).

(** How the program ends: with the usage text, or with the machine in its last state.
    What the first function returns is discarded. *)
Inductive Exit : Type := Usage | Exited (final : ExecState).

Section main.
Context (HashString : string -> Z) (bcLength : Bytecode -> nat) (bcConstants : Bytecode -> list Cst) (vm : VMStrings).
Context (other : LibFunc -> list Value -> V Value) (fs : chars -> option chars).

Definition DeegenEnterVMFromC (pr : Program) (capacity fuel : nat) (func lowest : nat) (args : list Value) : X Value :=
  c ← push_frame (lowest + 4)%nat func RetToC 0 (length args);
  on_vm (store_range (lowest + 4)%nat args) ;;
  run pr capacity fuel c.

Fixpoint fill_arguments (argsArr i : nat) (args : list chars) : HM unit :=
  match args with
  | [] => mret tt
  | arg :: args =>
      str ← AllocateString (string_of_list_ascii arg);
      o ← deref argsArr;
      match o with
      | OArray es => write argsArr (OArray (<[i := VObject str]> es))
      | _ => fail bad_object
      end ;;
      fill_arguments argsArr (S i) args
  end.

(** What happens before the machine is entered: the function and its arguments. *)
Definition prepare (fuel : nat) (paths args : list chars) : D (nat * list Value) :=
  '(systemClass, systemInstance) ← SOMBootstrapClassHierarchy HashString bcLength bcConstants vm (OpenFileForClass fs paths) fuel;
  runFn ← SOMGetMethodFromClass HashString systemClass "initialize:";
  match runFn with
  | None => fail (AssertFailed "runFn != nullptr")
  | Some runFn =>
      argsArr ← on_machine (on_objects (AllocateArray (length args)));
      on_machine (on_objects (fill_arguments argsArr 0%nat args)) ;;
      mret (runFn, [VObject systemInstance; VObject argsArr])
  end.

Definition entry_state (s : Loader) : ExecState := mk_exec (with_rc CreateRootCoroutine (ld_vm s)) [] ∅.

(** [start] is the state [VM::Create] leaves; [fuel] bounds the chains of superclasses,
    [steps] the steps of the machine. *)
Definition DoWork (start : Loader) (capacity fuel steps : nat) (argv : list chars) : result Exit :=
  line ← HandleArguments argv [] [];
  match line with
  | PrintUsageAndExit => Ok Usage
  | Arguments _ [] => Ok Usage
  | Arguments paths args =>
      '((runFn, aa), s) ← prepare fuel paths args start;
      '(_, final) ← DeegenEnterVMFromC (loaded_program HashString bcLength vm other s) capacity steps runFn 0%nat aa (entry_state s);
      Ok (Exited final)
  end.
End main.

(** ** Finding characters and suffixes *)
#[local] Open Scope nat_scope.

Lemma last_index_None c s : c ∉ s -> last_index c s = None.
Proof.
  induction s as [|a s IH]; intros H; [done|]. simpl. apply not_elem_of_cons in H as [Hne Hs].
  rewrite IH by done. by rewrite bool_decide_eq_false_2.
Qed.
Lemma last_index_app c dir file : c ∉ file -> last_index c (dir ++ c :: file) = Some (length dir).
Proof.
  intros H. induction dir as [|a dir IH]; simpl; [|by rewrite IH]. rewrite last_index_None by done. by rewrite bool_decide_eq_true_2.
Qed.

Lemma starts_with_nil s : starts_with [] s = true.
Proof. done. Qed.
Lemma starts_with_cons a n b s : starts_with (a :: n) (b :: s) = bool_decide (a = b) && starts_with n s.
Proof.
  unfold starts_with. simpl. destruct (decide (a = b)) as [->|Hne].
  - rewrite (bool_decide_eq_true_2 (b = b)) by done. simpl. apply bool_decide_ext. split; [by intros [= H]|by intros ->].
  - rewrite (bool_decide_eq_false_2 (a = b)) by done. simpl. apply bool_decide_eq_false_2. congruence.
Qed.
Lemma starts_with_before n dir sep file : sep ∉ n -> starts_with n (dir ++ sep :: file) = starts_with n dir.
Proof.
  revert dir. induction n as [|a n IH]; intros dir H; [done|]. apply not_elem_of_cons in H as [Hne Hn].
  destruct dir as [|b dir]; simpl; rewrite !starts_with_cons; [|by rewrite IH].
  by rewrite bool_decide_eq_false_2.
Qed.
(** A needle without the separator lies on one side of it. *)
Lemma first_index_app needle dir sep file : needle <> [] -> sep ∉ needle ->
  first_index needle (dir ++ sep :: file) =
  match first_index needle dir with Some i => Some i | None => (fun i => S (length dir) + i) <$> first_index needle file end.
Proof.
  intros Hne Hsep. induction dir as [|a dir IH]; cbn [app first_index].
  - rewrite (starts_with_before _ [] _ _ Hsep : starts_with needle (sep :: file) = _). destruct needle as [|b needle]; [done|]. simpl.
    by destruct (first_index _ file).
  - rewrite (starts_with_before _ (a :: dir) _ _ Hsep : starts_with needle (a :: dir ++ sep :: file) = _).
    destruct (starts_with needle (a :: dir)); [done|]. rewrite IH. destruct (first_index needle dir); simpl; [done|].
    by destruct (first_index needle file).
Qed.
Lemma first_index_bound needle s i : first_index needle s = Some i -> i <= length s.
Proof.
  revert i. induction s as [|a s IH]; intros i; cbn [first_index]; destruct (starts_with _ _); intros H; simplify_eq/=; [lia|lia|].
  destruct (first_index needle s) as [j|]; simplify_eq/=. specialize (IH j eq_refl). lia.
Qed.
Lemma last_index_bound c s i : last_index c s = Some i -> i < length s.
Proof.
  revert i. induction s as [|a s IH]; intros i; simpl; [done|]. destruct (last_index c s) as [j|]; [intros [= <-]; specialize (IH j eq_refl); lia|].
  case_bool_decide; intros [= <-]; lia.
Qed.

Definition dot_som : chars := text ".som".
(** A name up to the first ".som" in it. *)
Definition strip_suffix (file : chars) : chars := match first_index dot_som file with Some i => take i file | None => file end.
(** The length of a string fits a [size_t]. *)
Definition fits_size (s : chars) : Prop := (Z.of_nat (length s) < npos)%Z.

Lemma substr_ok s pos n r : pos <= length s -> r = take n (drop pos s) -> substr s (Z.of_nat pos) (Z.of_nat n) = Ok r.
Proof.
  intros Hp ->. unfold substr. destruct (Z.ltb_spec (Z.of_nat (length s)) (Z.of_nat pos)); [lia|]. f_equal. rewrite Nat2Z.id.
  destruct (decide (n <= length s - pos)); [f_equal; lia|].
  rewrite !take_ge; [done|rewrite length_drop; lia..].
Qed.
Lemma size_t_nat n : (Z.of_nat n < 2 ^ 64)%Z -> size_t (Z.of_nat n) = Z.of_nat n.
Proof. intros H. unfold size_t. apply Z.mod_small. lia. Qed.

Lemma GetClassPathExt_split tokens dir file : slash ∉ file -> fits_size (dir ++ slash :: file) ->
  GetClassPathExt tokens (dir ++ slash :: file) =
  Ok (true, (dir, match first_index dot_som dir with Some _ => file | None => strip_suffix file end)).
Proof.
  intros Hfile Hsize. unfold fits_size in Hsize. rewrite length_app in Hsize. simpl in Hsize.
  unfold GetClassPathExt. rewrite last_index_app by done. cbn [position].
  destruct (Z.eqb_spec (Z.of_nat (length dir)) npos); [unfold npos in *; lia|].
  rewrite (substr_ok _ 0 (length dir) dir); [|lia|by rewrite drop_0, take_app_length]. cbn [mbind result_bind].
  change (text ".som") with dot_som. rewrite first_index_app; [|done|by apply (bool_decide_eq_true_1 (slash ∉ dot_som))].
  assert (Hlen : length (dir ++ slash :: file) = length dir + S (length file)) by (rewrite length_app; done).
  assert (Hdrop : drop (S (length dir)) (dir ++ slash :: file) = file).
  { rewrite drop_app_ge by lia. by replace (S (length dir) - length dir) with 1 by lia. }
  assert (Hname : forall n, take n file = take n (drop (S (length dir)) (dir ++ slash :: file))) by (intros m; by rewrite Hdrop).
  replace (size_t (Z.of_nat (length dir) + 1)) with (Z.of_nat (S (length dir))) by (rewrite <- size_t_nat by (unfold npos in *; lia); f_equal; lia).
  assert (Hwhole : substr (dir ++ slash :: file) (Z.of_nat (S (length dir))) (size_t (Z.of_nat (length (dir ++ slash :: file)) - Z.of_nat (length dir))) = Ok file).
  { replace (Z.of_nat (length (dir ++ slash :: file)) - Z.of_nat (length dir))%Z with (Z.of_nat (S (length file))) by lia.
    rewrite size_t_nat by (unfold npos in *; lia). apply substr_ok; [lia|]. rewrite Hdrop. by rewrite take_ge by lia. }
  destruct (first_index dot_som dir) as [i|] eqn:Hi.
  { apply first_index_bound in Hi. cbn [position].
    destruct (Z.ltb_spec (Z.of_nat (length dir)) (Z.of_nat i)); [lia|]. rewrite andb_false_r, Hwhole. done. }
  unfold strip_suffix. destruct (first_index dot_som file) as [i|] eqn:Hf; cbn [fmap option_fmap option_map position].
  - apply first_index_bound in Hf.
    destruct (Z.eqb_spec (Z.of_nat (S (length dir) + i)) npos); [unfold npos in *; lia|].
    destruct (Z.ltb_spec (Z.of_nat (length dir)) (Z.of_nat (S (length dir) + i))); [|lia]. simpl andb. cbv iota.
    replace (size_t (Z.of_nat (S (length dir) + i) - 1)) with (Z.of_nat (length dir + i)) by (rewrite <- size_t_nat by (unfold npos in *; lia); f_equal; lia).
    replace (size_t (Z.of_nat (length dir + i) - Z.of_nat (length dir))) with (Z.of_nat i) by (rewrite <- size_t_nat by (unfold npos in *; lia); f_equal; lia).
    rewrite (substr_ok _ _ i (take i file)); [done|lia|apply Hname].
  - rewrite Z.eqb_refl. simpl andb. cbv iota. rewrite Hwhole. done.
Qed.

Lemma GetClassPathExt_whole tokens arg : slash ∉ arg -> fits_size arg ->
  GetClassPathExt tokens arg = Ok (false, (tokens.1, arg)).
Proof.
  intros Harg Hsize. unfold fits_size in Hsize. unfold GetClassPathExt. rewrite last_index_None by done. cbn [position].
  rewrite Z.eqb_refl. cbn [mbind result_bind].
  assert (Hlt : (size_t (-1) <? position (first_index (text ".som") arg))%Z = false).
  { apply Z.ltb_ge. change (size_t (-1)) with npos. destruct (first_index _ arg) as [i|] eqn:Hi; cbn [position]; [|lia].
    apply first_index_bound in Hi. lia. }
  rewrite Hlt, andb_false_r. change (size_t (size_t (-1) + 1)) with (Z.of_nat 0).
  replace (size_t (Z.of_nat (length arg) - size_t (-1))) with (Z.of_nat (S (length arg))).
  - rewrite (substr_ok arg 0 (S (length arg)) arg); [done|lia|by rewrite drop_0, take_ge by lia].
  - change (size_t (-1)) with npos. unfold size_t, npos in *. apply Z.mod_unique with (-1)%Z; lia.
Qed.

(** A file with a directory is split at the last slash and the name stripped of
    ".som" and what follows it, unless ".som" occurs in the directory as well; no
    [substr] on the way is out of range. *)
Theorem GetClassPathExt_path tokens dir file : slash ∉ file -> fits_size (dir ++ slash :: file) ->
  GetClassPathExt tokens (dir ++ slash :: file) =
  Ok (true, (dir, match first_index dot_som dir with Some _ => file | None => strip_suffix file end)).
Proof. apply GetClassPathExt_split. Qed.

(** An argument without a directory is left as it is, ".som" included, for its
    start, at [size_t] -1, is after any suffix. *)
Theorem GetClassPathExt_no_path tokens arg : slash ∉ arg -> fits_size arg ->
  GetClassPathExt tokens arg = Ok (false, (tokens.1, arg)).
Proof. apply GetClassPathExt_whole. Qed.

(** ** The list of directories *)
Fixpoint join (sep : ascii) (ps : list chars) : chars :=
  match ps with [] => [] | [p] => p | p :: ps => p ++ sep :: join sep ps end.

Lemma getline_tokens_app sep token p s : sep ∉ p -> getline_tokens sep token (p ++ s) = getline_tokens sep (token ++ p) s.
Proof.
  revert token. induction p as [|c p IH]; intros token H; simpl; [by rewrite app_nil_r|].
  apply not_elem_of_cons in H as [Hne Hp]. rewrite bool_decide_eq_false_2 by done. rewrite IH by done. by rewrite <- app_assoc.
Qed.
(** The directories joined by ":" are read back as they are, the empty ones too,
    unless the last one is empty. *)
Theorem SetupClassPath_join ps paths : Forall (fun p => ":"%char ∉ p) ps -> last ps <> Some [] ->
  SetupClassPath (join ":" ps) paths = paths ++ ps.
Proof.
  intros Hall Hlast. unfold SetupClassPath. f_equal. induction ps as [|p ps IH]; [done|].
  apply Forall_cons in Hall as [Hp Hps]. destruct ps as [|q ps].
  - simpl. rewrite <- (app_nil_r p) at 1. rewrite getline_tokens_app by done. simpl.
    rewrite bool_decide_eq_false_2; [done|]. intros ->. done.
  - change (join ":" (p :: q :: ps)) with (p ++ ":"%char :: join ":" (q :: ps)).
    rewrite getline_tokens_app by done. cbn [getline_tokens app]. rewrite bool_decide_eq_true_2 by done. f_equal. by apply IH.
Qed.

(** ** The arguments one by one *)
Definition is_option (arg : chars) : bool :=
  starts_with (text "-cp") arg || starts_with (text "-h") arg || starts_with (text "--help") arg.
Definition is_ignored (arg : chars) : bool :=
  starts_with (text "-d") arg || starts_with (text "-g") arg || starts_with (text "-H") arg.
(** What [GetClassPathExt] makes of a file: its directory, if it has one, and its name. *)
Definition directory_of (arg : chars) : list chars :=
  match last_index slash arg with Some i => [take i arg] | None => [] end.
Definition name_of_file (arg : chars) : chars :=
  match last_index slash arg with
  | Some i => match first_index dot_som (take i arg) with Some _ => drop (S i) arg | None => strip_suffix (drop (S i) arg) end
  | None => arg
  end.

Lemma last_index_split c s i : last_index c s = Some i -> s = take i s ++ c :: drop (S i) s /\ c ∉ drop (S i) s.
Proof.
  revert i. induction s as [|a s IH]; intros i; simpl; [done|]. destruct (last_index c s) as [j|] eqn:Hj.
  - intros [= <-]. destruct (IH j eq_refl) as [H1 H2]. simpl. split; [by rewrite <- H1|done].
  - case_bool_decide; intros [= <-]. subst a. simpl. rewrite drop_0. split; [done|]. clear IH.
    induction s as [|b s IH]; [set_solver|]. simpl in Hj. destruct (last_index c s); [done|]. case_bool_decide; [done|].
    apply not_elem_of_cons. split; [congruence|by apply IH].
Qed.
Lemma last_index_None_inv c s : last_index c s = None -> c ∉ s.
Proof.
  induction s as [|b s IH]; intros Hj; [set_solver|]. simpl in Hj. destruct (last_index c s); [done|]. case_bool_decide; [done|].
  apply not_elem_of_cons. split; [congruence|by apply IH].
Qed.
Lemma GetClassPathExt_parts arg : fits_size arg ->
  exists found dir, GetClassPathExt ([], []) arg = Ok (found, (dir, name_of_file arg)) /\ (if found : bool then [dir] else []) = directory_of arg.
Proof.
  intros Hsize. unfold name_of_file, directory_of. destruct (last_index slash arg) as [i|] eqn:Hi.
  - apply last_index_split in Hi as [Harg Hno]. exists true, (take i arg). split; [|done].
    assert (Hs : fits_size (take i arg ++ slash :: drop (S i) arg)) by (by rewrite <- Harg).
    pose proof (GetClassPathExt_split ([], []) (take i arg) (drop (S i) arg) Hno Hs) as H. by rewrite <- Harg in H.
  - exists false, []. split; [|done]. by apply (GetClassPathExt_whole ([], [])); [apply last_index_None_inv|].
Qed.

Definition plain_arguments (rest : list chars) : list chars := List.filter (fun arg => negb (is_ignored arg)) rest.
Definition not_option (arg : chars) : Prop := is_option arg = false /\ fits_size arg.

Lemma HandleArguments_rest rest more paths vmArgs : Forall not_option rest ->
  HandleArguments (rest ++ more) paths vmArgs =
  HandleArguments more (paths ++ concat (map directory_of (plain_arguments rest))) (vmArgs ++ map name_of_file (plain_arguments rest)).
Proof.
  unfold plain_arguments. revert paths vmArgs. induction rest as [|arg rest IH]; intros paths vmArgs Hall; [simpl; by rewrite !app_nil_r|].
  apply Forall_cons in Hall as [[Hopt Hsize] Hall]. unfold is_option in Hopt. apply orb_false_iff in Hopt as [Hopt Hhelp].
  apply orb_false_iff in Hopt as [Hcp Hh]. cbn [app HandleArguments]. rewrite Hcp, Hh, Hhelp. cbn [List.filter]. 
  change (is_ignored arg) with (starts_with (text "-d") arg || starts_with (text "-g") arg || starts_with (text "-H") arg).
  destruct (starts_with (text "-d") arg); [by apply IH|]. destruct (starts_with (text "-g") arg); [by apply IH|].
  destruct (starts_with (text "-H") arg); [by apply IH|]. cbn [orb negb map concat].
  destruct (GetClassPathExt_parts arg Hsize) as (found & dir & Hext & Hdir). rewrite Hext. cbn [mbind result_bind fst snd].
  rewrite <- Hdir. rewrite IH by done. destruct found; cbn [app]; by rewrite <- !app_assoc.
Qed.

Lemma getline_tokens_some sep token s : token <> [] \/ s <> [] -> getline_tokens sep token s <> [].
Proof.
  revert token. induction s as [|c s IH]; intros token H; simpl.
  - rewrite bool_decide_eq_false_2; [done|]. by destruct H.
  - case_bool_decide; [done|]. apply IH. left. by destruct token.
Qed.

(** After "-cp", the classes are looked for in its directories, in those of the
    files on the command line, and in "."; what is not an ignored option is an argument of
    the program, by its name without directory and suffix.  A second "-cp" shows the
    usage. *)
Theorem HandleArguments_spec cp rest : Forall not_option rest ->
  HandleArguments (text "-cp" :: cp :: rest) [] [] =
    Ok (Arguments (SetupClassPath cp [] ++ concat (map directory_of (plain_arguments rest)) ++ [text "."])
         (map name_of_file (plain_arguments rest))) /\
  (cp <> [] -> forall more, HandleArguments (text "-cp" :: cp :: rest ++ text "-cp" :: more) [] [] = Ok PrintUsageAndExit).
Proof.
  intros Hall. split.
  - pose proof (HandleArguments_rest rest [] (SetupClassPath cp []) [] Hall) as H. rewrite app_nil_r in H. simpl in *.
    rewrite H. by rewrite <- app_assoc.
  - intros Hcp more.
    change (HandleArguments (rest ++ text "-cp" :: more) (SetupClassPath cp []) [] = Ok PrintUsageAndExit).
    rewrite HandleArguments_rest by done. simpl. destruct more as [|cp' more]; [done|].
    assert (Hne : getline_tokens ":"%char [] cp <> []) by (apply getline_tokens_some; by right).
    unfold SetupClassPath. simpl. destruct (getline_tokens ":"%char [] cp) as [|t ts]; [done|]. done.
Qed.
Lemma HandleArguments_spec_witness :
  HandleArguments [text "-cp"; text "Smalltalk:lib"; text "-g"; text "Examples/Hello.som"; text "7"] [] [] =
    Ok (Arguments [text "Smalltalk"; text "lib"; text "Examples"; text "."] [text "Hello"; text "7"]).
Proof.
  refine (proj1 (HandleArguments_spec (text "Smalltalk:lib") [text "-g"; text "Examples/Hello.som"; text "7"] _)).
  repeat (apply Forall_cons; split; [split; [vm_compute; reflexivity|unfold fits_size, npos; simpl; lia]|]). by apply Forall_nil_2.
Defined.



Lemma GetClassPathExt_path_witness :
  GetClassPathExt ([], []) (text "Examples/Hello.som") = Ok (true, (text "Examples", text "Hello")).
Proof.
  apply (GetClassPathExt_path ([], []) (text "Examples") (text "Hello.som")).
  - by apply (bool_decide_eq_true_1 (slash ∉ text "Hello.som")).
  - unfold fits_size, npos. simpl. lia.
Defined.
Lemma GetClassPathExt_no_path_witness : GetClassPathExt ([], []) (text "Hello.som") = Ok (false, ([], text "Hello.som")).
Proof.
  apply (GetClassPathExt_no_path ([], []) (text "Hello.som")).
  - by apply (bool_decide_eq_true_1 (slash ∉ text "Hello.som")).
  - unfold fits_size, npos. simpl. lia.
Defined.
Lemma SetupClassPath_join_witness : SetupClassPath (text "lib::Smalltalk") [] = [text "lib"; []; text "Smalltalk"].
Proof.
  apply (SetupClassPath_join [text "lib"; []; text "Smalltalk"] []).
  - by apply (bool_decide_eq_true_1 (Forall (fun p => ":"%char ∉ p) [text "lib"; []; text "Smalltalk"])).
  - by vm_compute.
Defined.

(** ** The arguments in the heap, and the first frame *)
Lemma nf_fill_arguments arr i args : takes_no_fuel (fill_arguments arr i args).
Proof. revert i. induction args as [|arg args IH]; intros i; cbn [fill_arguments]; unfold AllocateString, bad_object; nf. Qed.
#[local] Opaque numStackSlots.
#[local] Hint Resolve nf_fill_arguments : names.

(** The elements of an array are strings with these characters. *)
Definition strings_at (h : Heap) (es : list Value) (args : list chars) : Prop :=
  Forall2 (fun v arg => exists r, v = VObject r /\ h !! r = Some (OString StringString (string_of_list_ascii arg))) es args.

Lemma fill_arguments_fills arr args : forall i h es, h !! arr = Some (OArray es) -> i + length args = length es ->
  exists h' es', fill_arguments arr i args h = Ok (tt, h') /\ h' !! arr = Some (OArray (take i es ++ es')) /\ strings_at h' es' args /\
    (forall r o, r <> arr -> h !! r = Some o -> h' !! r = Some o).
Proof.
  induction args as [|arg args IH]; intros i h es Harr Hlen; simpl in Hlen.
  - exists h, []. rewrite app_nil_r, take_ge by lia. split_and!; [done|done|constructor|done].
  - pose proof (lookup_lt_Some _ _ _ Harr) as Hlt. set (str := OString StringString (string_of_list_ascii arg)).
    set (h1 := <[arr := OArray (<[i := VObject (length h)]> es)]> (h ++ [str])).
    assert (Harr1 : h1 !! arr = Some (OArray (<[i := VObject (length h)]> es))) by (apply list_lookup_insert_eq; rewrite length_app; lia).
    destruct (IH (S i) h1 (<[i := VObject (length h)]> es) Harr1) as (h' & es' & Hrun & Harr' & Hstr & Hold).
    { rewrite length_insert. lia. }
    exists h', (VObject (length h) :: es'). split_and!.
    + cbn [fill_arguments]. unfold mbind, M_bind, AllocateString, allocate, deref. rewrite lookup_app_l, Harr by done. exact Hrun.
    + rewrite Harr'. f_equal. f_equal. rewrite (take_S_r _ _ (VObject (length h))) by (apply list_lookup_insert_eq; lia).
      rewrite take_insert_ge by lia. by rewrite <- app_assoc.
    + constructor; [|done]. exists (length h). split; [done|]. apply Hold; [lia|]. unfold h1. rewrite list_lookup_insert_ne by lia.
      by apply list_lookup_middle.
    + intros r o Hne Ho. apply Hold; [done|]. unfold h1. rewrite list_lookup_insert_ne by done. by apply lookup_app_l_Some.
Qed.

Section entering.
Context (HashString : string -> Z) (bcLength : Bytecode -> nat) (bcConstants : Bytecode -> list Cst) (vm : VMStrings).
Context (other : LibFunc -> list Value -> V Value) (fs : chars -> option chars) `{!EncodingLaws bcLength}.
#[local] Set Default Proof Using "Type*".
Notation loader_inv := (loader_inv HashString bcLength vm).

Lemma wp_skip {S A B} (m : M S A) (f : A -> M S B) Q s : (forall a s', wp any_error (f a) Q s') -> wp any_error (m ≫= f) Q s.
Proof. intros H. apply wp_bind. unfold wp at 1. destruct (m s) as [[a s']|e]; [apply H|exact I]. Qed.

Lemma SetSOMGlobal_keeps key value s :
  wp any_error (SetSOMGlobal HashString key value) (fun _ s' => ld_classes s' = ld_classes s /\ ld_heap s' = ld_heap s) s.
Proof.
  unfold wp, SetSOMGlobal. destruct (GetSlotForGlobal _ _ _) as [slot g]. by destruct (m_globalsVec g !! slot) as [[w|]|].
Qed.

(** The bootstrap answers a class and an instance of it. *)
Lemma wp_bootstrap_instance files fuel s :
  wp any_error (SOMBootstrapClassHierarchy HashString bcLength bcConstants vm files fuel)
    (fun r s' => instance_of (ld_heap s') r.2 r.1 /\ exists i, class_at s' r.1 i) s.
Proof.
  unfold SOMBootstrapClassHierarchy. do 2 (apply wp_skip; intros _ ?). apply wp_skip; intros systemClass ?.
  do 3 (apply wp_skip; intros _ ?). apply wp_bind, wp_Instantiate. intros i Hi. apply wp_bind.
  eapply wp_mono; [apply SetSOMGlobal_keeps|]. intros u s1 [Hc Hh]. apply wp_ret. simpl. rewrite Hh. split.
  - eexists. by apply list_lookup_middle.
  - exists i. unfold class_at. by rewrite Hc.
Qed.

Record prepared (args : list chars) (runFn : nat) (aa : list Value) (s : Loader) : Prop := {
  pp_inv : loader_inv s;
  pp_method : exists sys arr cl i ord hash es, aa = [VObject sys; VObject arr] /\
    instance_of (ld_heap s) sys cl /\ class_at s cl i /\ m_list (ld_interner s) !! ord = Some ("initialize:"%string, hash) /\
    GetMethod (ci_class i) (mk_uniqued (u32 (Z.of_nat ord)) (hash32 hash)) = Ok (Some runFn) /\
    ld_heap s !! arr = Some (OArray es) /\ strings_at (ld_heap s) es args
}.

(** The heap grows by the arguments; everything else stays. *)
Lemma wp_allocate_arguments {A} args s (f : nat -> Loading.D A) (Q : A -> Loader -> Prop) : loader_inv s ->
  (forall arr es s', loader_inv s' -> same_tables s s' -> ld_interner s' = ld_interner s ->
    ld_heap s' !! arr = Some (OArray es) -> strings_at (ld_heap s') es args -> wp any_error (f arr) Q s') ->
  wp any_error (argsArr ← on_machine (on_objects (AllocateArray (length args)));
    on_machine (on_objects (fill_arguments argsArr 0 args)) ;; f argsArr) Q s.
Proof.
  intros Hs HQ. set (arr := length (ld_heap s)). set (h1 := ld_heap s ++ [OArray (replicate (length args) VNil)]).
  assert (Harr : h1 !! arr = Some (OArray (replicate (length args) VNil))) by (by apply list_lookup_middle).
  destruct (fill_arguments_fills arr args 0 h1 _ Harr) as (h' & es & Hrun & Harr' & Hstr & Hold); [by rewrite length_replicate|].
  assert (Hq : wp any_error (f arr) Q (with_heap h' (with_heap h1 s))).
  { apply (HQ arr es); [|split_and!; [done|done|]|done|exact Harr'|exact Hstr].
    - by apply (inv_same HashString bcLength vm s (with_heap h' (with_heap h1 s))).
    - intros o c [fs' Ho]. exists fs'. apply Hold.
      + intros ->. apply lookup_lt_Some in Ho. unfold arr in Ho. lia.
      + by apply lookup_app_l_Some. }
  unfold wp, mbind, M_bind, on_machine, on_objects, on_str, on_heap, AllocateArray, allocate. simpl. unfold ld_heap in *.
  fold h1. fold arr. change (length (st_heap (vm_str (ld_vm s)))) with arr. cbn. rewrite Hrun. exact Hq.
Qed.

(** Looking a method up only interns its name. *)
Lemma GetMethodFromClass_runs cl meth s i : interner_wf HashString (ld_interner s) -> class_at s cl i ->
  let ord := (InternString HashString meth (ld_interner s)).1 in
  SOMGetMethodFromClass HashString cl meth s =
  match GetMethod (ci_class i) (mk_uniqued (u32 (Z.of_nat ord)) (hash32 (HashString meth))) with
  | Ok f => Ok (f, interned HashString meth s) | Err e => Err e end.
Proof.
  intros Hwf Hi ord. unfold SOMGetMethodFromClass, intern, on_machine, on_str, InternStr, interned, mbind, M_bind, ld_interner in *.
  pose proof (InternString_lookup HashString meth (st_interner (vm_str (ld_vm s))) Hwf) as Hl. subst ord.
  destruct (InternString HashString meth (st_interner (vm_str (ld_vm s)))) as [ord it]. cbn [fst snd] in *.
  cbn -[GetMethod]. unfold lift_result at 1, GetHash. unfold ld_interner. cbn -[GetMethod]. rewrite Hl. unfold the_info. cbn -[GetMethod].
  rewrite Hi. unfold lift_result. by destruct (GetMethod _ _).
Qed.
Lemma wp_prepare fuel paths args start : start_state HashString vm start ->
  wp any_error (prepare HashString bcLength bcConstants vm fs fuel paths args) (fun r s => prepared args r.1 r.2 s) start.
Proof.
  intros Hstart. unfold prepare. apply wp_bind.
  eapply wp_mono; [apply wp_conj; [exact (wp_bootstrap HashString bcLength bcConstants vm _ fuel start Hstart)|apply wp_bootstrap_instance]|].
  intros [cl sys] s1 [(Hs1 & _ & _) [Hinst (i & Hi)]]. simpl in Hinst, Hi.
  pose proof (proj1 (li_globals _ _ _ _ Hs1) : interner_wf HashString (ld_interner s1)) as Hwf.
  apply wp_bind. unfold wp at 1. rewrite (GetMethodFromClass_runs _ _ _ _ Hwf Hi).
  destruct (GetMethod _ _) as [[runFn|]|e] eqn:Hget; [|done|done].
  destruct (inv_interned HashString bcLength vm "initialize:" s1 Hs1) as (Hs2 & _).
  pose proof (InternString_lookup HashString "initialize:" (ld_interner s1) Hwf) as Hl.
  apply wp_allocate_arguments; [exact Hs2|]. intros arr es s' Hs' (Hc & _ & Hk) Hit Harr Hstr. apply wp_ret. split; [done|].
  exists sys, arr, cl, i, (InternString HashString "initialize:" (ld_interner s1)).1, (HashString "initialize:"), es.
  split_and!; [done|by apply Hk| | |exact Hget|done|done].
  - unfold class_at. by rewrite Hc.
  - rewrite Hit. exact Hl.
Qed.

(** The machine as [DeegenEnterVMFromC] leaves it to the function: one frame, and the
    arguments at its bottom. *)
Definition entered_state (s : Loader) (runFn : nat) (aa : list Value) : ExecState :=
  mk_exec (with_rc (mk_rcontext [] None (replicate 4 None ++ map Some aa ++ replicate (numStackSlots - 4 - length aa) None)) (ld_vm s))
    [mk_header 4 runFn RetToC 0] ∅.

Lemma stack_room : exists n, numStackSlots = 6 + n.
Proof.
  assert (H : Nat.leb 6 numStackSlots = true) by (vm_compute; reflexivity). revert H. generalize numStackSlots. intros k H.
  apply Nat.leb_le in H. exists (k - 6). lia.
Qed.
Definition exit_of (r : result (Value * ExecState)) : result Exit := (fun r => Exited r.2) <$> r.
Lemma enter_runs pr capacity fuel s runFn v w :
  DeegenEnterVMFromC pr capacity fuel runFn 0 [v; w] (entry_state s) = run pr capacity fuel (Entering 2) (entered_state s runFn [v; w]).
Proof.
  destruct stack_room as [n Hn]. unfold DeegenEnterVMFromC, entry_state, entered_state, CreateRootCoroutine. rewrite Hn. simpl length.
  replace (6 + n - 4 - 2) with n by lia. reflexivity.
Qed.
Lemma enter_exits pr capacity fuel s runFn v w :
  ('(_, final) ← DeegenEnterVMFromC pr capacity fuel runFn 0 [v; w] (entry_state s); Ok (Exited final)) =
  exit_of (run pr capacity fuel (Entering 2) (entered_state s runFn [v; w])).
Proof. rewrite enter_runs. by destruct (run _ _ _ _ _) as [[r x]|e]. Qed.
Lemma DoWork_arguments start capacity fuel steps argv paths args :
  HandleArguments argv [] [] = Ok (Arguments paths args) -> args <> [] ->
  DoWork HashString bcLength bcConstants vm other fs start capacity fuel steps argv =
    match prepare HashString bcLength bcConstants vm fs fuel paths args start with
    | Ok ((runFn, aa), s) =>
        '(_, final) ← DeegenEnterVMFromC (loaded_program HashString bcLength vm other s) capacity steps runFn 0 aa (entry_state s);
        Ok (Exited final)
    | Err e => Err e
    end.
Proof. intros Hline Hargs. unfold DoWork. rewrite Hline. destruct args as [|arg args]; [done|]. reflexivity. Qed.

(** C8: a program with arguments bootstraps the classes of its class path.  When that
    fails the program fails in the same way; otherwise the function and the arguments
    are the method [initialize:] the class of the system object answers to, the system
    object, and an array of the arguments as strings, and the program ends as the run
    of that function does, in the first frame of the root coroutine's stack: with the
    state the run leaves, its value discarded. *)
Theorem DoWork_enters start capacity fuel steps argv paths args :
  start_state HashString vm start ->
  HandleArguments argv [] [] = Ok (Arguments paths args) -> args <> [] ->
  let outcome := DoWork HashString bcLength bcConstants vm other fs start capacity fuel steps argv in
  match prepare HashString bcLength bcConstants vm fs fuel paths args start with
  | Ok ((runFn, aa), s) =>
      prepared args runFn aa s /\
      outcome = exit_of (run (loaded_program HashString bcLength vm other s) capacity steps (Entering 2) (entered_state s runFn aa))
  | Err e => outcome = Err e
  end.
Proof.
  intros Hstart Hline Hargs. cbv zeta. rewrite (DoWork_arguments _ _ _ _ _ _ _ Hline Hargs).
  pose proof (wp_prepare fuel paths args start Hstart) as H. unfold wp in H.
  destruct (prepare _ _ _ _ _ _ _ _ _) as [[[runFn aa] s]|e]; [|done].
  split; [exact H|]. destruct H as [_ (sys & arr & cl & i & ord & hash & es & Haa & _)]. simpl in Haa. subst aa. apply enter_exits.
Qed.
End entering.

(** ** A program

    The library of [LoadingProps.v] with a [System] that adds up, as files of a
    directory. *)
Definition sum_system : string := "System = ( initialize: args = ( | s | s := 0. 1 to: 4 do: [ :i | s := s + i ]. ^ s ) )".
Definition demo_fs (path : chars) : option chars :=
  if bool_decide (path = text "lib/System.som") then Some (text sum_system)
  else match list_find (fun e => class_filename (text "lib") e.1 = path) demo_table with
       | Some (_, (_, file)) => Some (text file) | None => None end.
Definition demo_argv : list chars := [text "-cp"; text "lib"; text "Hello"].
Notation demo_prepare := (prepare demo_hash eight no_constants demo_start.1 demo_fs 5 [text "lib"; text "."] [text "Hello"] demo_loader).
Notation demo_main := (DoWork demo_hash eight no_constants demo_start.1 (fun _ _ => fail bad_object) demo_fs demo_loader 2 5).
Example demo_main_usage : demo_main 200 [text "-cp"; text "lib"] = Ok Usage.
Proof. vm_compute. reflexivity. Qed.

(** What the method [System>>initialize:] with this body returns. *)
Definition initialize_value (body : string) : result Value :=
  '((runFn, aa), s) ← prepare demo_hash eight no_constants demo_start.1
    (fun path => if bool_decide (path = text "lib/System.som") then Some (text ("System = ( initialize: args = ( " ++ body ++ " ) )"))
                 else demo_fs path) 5 [text "lib"; text "."] [text "Hello"] demo_loader;
  '(v, _) ← DeegenEnterVMFromC (loaded_program demo_hash eight demo_start.1 (fun _ _ => fail bad_object) s) 2 400 runFn 0 aa (entry_state s);
  Ok v.
Example initialize_value_sum : initialize_value "| s | s := 0. 1 to: 4 do: [ :i | s := s + i ]. ^ s" = Ok (VInt 10).
Proof. vm_compute. reflexivity. Qed.

(** The captured variables of an inlined block are closed before its last
    expression, so a block made by that expression shares its variable with the next
    round of the loop: the first block counts from the second round's 2.  With a last
    expression that does nothing each block has a variable of its own. *)
Example last_expression_shares_variable :
  initialize_value "| f g | 1 to: 2 do: [ :i | | x | x := i. g := f. f := [ x := x + 10. x ] ]. ^ g value" = Ok (VInt 12) /\
  initialize_value "| f g | 1 to: 2 do: [ :i | | x | x := i. g := f. f := [ x := x + 10. x ]. i ]. ^ g value" = Ok (VInt 11).
Proof. split; vm_compute; reflexivity. Qed.

Definition demo_ready : Loader := after demo_prepare demo_loader.
Definition result_or {A S} (d : A) (r : result (A * S)) : A := match r with Ok (a, _) => a | Err _ => d end.
Definition demo_entry : nat * list Value := result_or (0, []) demo_prepare.
Lemma demo_prepared : demo_prepare = Ok ((demo_entry.1, demo_entry.2), demo_ready).
Proof.
  assert (H : is_ok demo_prepare = true) by (vm_compute; reflexivity). unfold demo_entry, demo_ready.
  destruct demo_prepare as [[[f aa] s]|e]; [reflexivity|discriminate H].
Qed.
Lemma demo_line : HandleArguments demo_argv [] [] = Ok (Arguments [text "lib"; text "."] [text "Hello"]).
Proof. vm_compute. reflexivity. Qed.
Lemma demo_main_ends : is_ok (demo_main 200 demo_argv) = true.
Proof. vm_compute. reflexivity. Qed.
#[local] Opaque demo_ready demo_entry demo_start demo_hash.

Lemma DoWork_enters_witness :
  prepared demo_hash eight demo_start.1 [text "Hello"] demo_entry.1 demo_entry.2 demo_ready /\
  demo_main 200 demo_argv =
    exit_of (run (loaded_program demo_hash eight demo_start.1 (fun _ _ => fail bad_object) demo_ready) 2 200 (Entering 2)
      (entered_state demo_ready demo_entry.1 demo_entry.2)) /\
  is_ok (demo_main 200 demo_argv) = true.
Proof.
  assert (H := DoWork_enters demo_hash eight no_constants demo_start.1 (fun _ _ => fail bad_object) demo_fs demo_loader 2 5 200 demo_argv
    [text "lib"; text "."] [text "Hello"] demo_start_state demo_line ltac:(discriminate)).
  cbv zeta in H. rewrite demo_prepared in H. destruct H as [H1 H2]. exact (conj H1 (conj H2 demo_main_ends)).
Defined.
