(* ===== verification/SortingNet.v ===== *)
(** * Sorting networks

    [drt/sorting_network.h]: sorting sequences of up to 16 elements with a fixed series
    of compare-and-swap steps.  That the networks sort is proved by the zero-one
    principle: it is enough that they sort every sequence of booleans, which is computed. *)
From S2P Require Import Prelude.
From stdpp Require Import sorting.
#[local] Set Default Proof Using "Type".

(** The networks, as positions to compare; the first is for two elements. *)
Definition x_data : list (list nat) :=
  [
   (* Len = 2 *)
   [0; 1];
   (* Len = 3 *)
   [0; 2;
    0; 1;
    1; 2];
   (* Len = 4 *)
   [0; 2; 1; 3;
    0; 1; 2; 3;
    1; 2];
   (* Len = 5 *)
   [0; 3; 1; 4;
    0; 2; 1; 3;
    0; 1; 2; 4;
    1; 2; 3; 4;
    2; 3];
   (* Len = 6 *)
   [0; 5; 1; 3; 2; 4;
    1; 2; 3; 4;
    0; 3; 2; 5;
    0; 1; 2; 3; 4; 5;
    1; 2; 3; 4];
   (* Len = 7 *)
   [0; 6; 2; 3; 4; 5;
    0; 2; 1; 4; 3; 6;
    0; 1; 2; 5; 3; 4;
    1; 2; 4; 6;
    2; 3; 4; 5;
    1; 2; 3; 4; 5; 6];
   (* Len = 8 *)
   [0; 2; 1; 3; 4; 6; 5; 7;
    0; 4; 1; 5; 2; 6; 3; 7;
    0; 1; 2; 3; 4; 5; 6; 7;
    2; 4; 3; 5;
    1; 4; 3; 6;
    1; 2; 3; 4; 5; 6];
   (* Len = 9 *)
   [0; 3; 1; 7; 2; 5; 4; 8;
    0; 7; 2; 4; 3; 8; 5; 6;
    0; 2; 1; 3; 4; 5; 7; 8;
    1; 4; 3; 6; 5; 7;
    0; 1; 2; 4; 3; 5; 6; 8;
    2; 3; 4; 5; 6; 7;
    1; 2; 3; 4; 5; 6];
   (* Len = 10 *)
   [0; 8; 1; 9; 2; 7; 3; 5; 4; 6;
    0; 2; 1; 4; 5; 8; 7; 9;
    0; 3; 2; 4; 5; 7; 6; 9;
    0; 1; 3; 6; 8; 9;
    1; 5; 2; 3; 4; 8; 6; 7;
    1; 2; 3; 5; 4; 6; 7; 8;
    2; 3; 4; 5; 6; 7;
    3; 4; 5; 6];
   (* Len = 11 *)
   [0; 9; 1; 6; 2; 4; 3; 7; 5; 8;
    0; 1; 3; 5; 4; 10; 6; 9; 7; 8;
    1; 3; 2; 5; 4; 7; 8; 10;
    0; 4; 1; 2; 3; 7; 5; 9; 6; 8;
    0; 1; 2; 6; 4; 5; 7; 8; 9; 10;
    2; 4; 3; 6; 5; 7; 8; 9;
    1; 2; 3; 4; 5; 6; 7; 8;
    2; 3; 4; 5; 6; 7];
   (* Len = 12 *)
   [0; 8; 1; 7; 2; 6; 3; 11; 4; 10; 5; 9;
    0; 1; 2; 5; 3; 4; 6; 9; 7; 8; 10; 11;
    0; 2; 1; 6; 5; 10; 9; 11;
    0; 3; 1; 2; 4; 6; 5; 7; 8; 11; 9; 10;
    1; 4; 3; 5; 6; 8; 7; 10;
    1; 3; 2; 5; 6; 9; 8; 10;
    2; 3; 4; 5; 6; 7; 8; 9;
    4; 6; 5; 7;
    3; 4; 5; 6; 7; 8];
   (* Len = 13 *)
   [0; 12; 1; 10; 2; 9; 3; 7; 5; 11; 6; 8;
    1; 6; 2; 3; 4; 11; 7; 9; 8; 10;
    0; 4; 1; 2; 3; 6; 7; 8; 9; 10; 11; 12;
    4; 6; 5; 9; 8; 11; 10; 12;
    0; 5; 3; 8; 4; 7; 6; 11; 9; 10;
    0; 1; 2; 5; 6; 9; 7; 8; 10; 11;
    1; 3; 2; 4; 5; 6; 9; 10;
    1; 2; 3; 4; 5; 7; 6; 8;
    2; 3; 4; 5; 6; 7; 8; 9;
    3; 4; 5; 6];
   (* Len = 14 *)
   [0; 1; 2; 3; 4; 5; 6; 7; 8; 9; 10; 11; 12; 13;
    0; 2; 1; 3; 4; 8; 5; 9; 10; 12; 11; 13;
    0; 4; 1; 2; 3; 7; 5; 8; 6; 10; 9; 13; 11; 12;
    0; 6; 1; 5; 3; 9; 4; 10; 7; 13; 8; 12;
    2; 10; 3; 11; 4; 6; 7; 9;
    1; 3; 2; 8; 5; 11; 6; 7; 10; 12;
    1; 4; 2; 6; 3; 5; 7; 11; 8; 10; 9; 12;
    2; 4; 3; 6; 5; 8; 7; 10; 9; 11;
    3; 4; 5; 6; 7; 8; 9; 10;
    6; 7];
   (* Len = 15 *)
   [1; 2; 3; 10; 4; 14; 5; 8; 6; 13; 7; 12; 9; 11;
    0; 14; 1; 5; 2; 8; 3; 7; 6; 9; 10; 12; 11; 13;
    0; 7; 1; 6; 2; 9; 4; 10; 5; 11; 8; 13; 12; 14;
    0; 6; 2; 4; 3; 5; 7; 11; 8; 10; 9; 12; 13; 14;
    0; 3; 1; 2; 4; 7; 5; 9; 6; 8; 10; 11; 12; 13;
    0; 1; 2; 3; 4; 6; 7; 9; 10; 12; 11; 13;
    1; 2; 3; 5; 8; 10; 11; 12;
    3; 4; 5; 6; 7; 8; 9; 10;
    2; 3; 4; 5; 6; 7; 8; 9; 10; 11;
    5; 6; 7; 8];
   (* Len = 16 *)
   [0; 13; 1; 12; 2; 15; 3; 14; 4; 8; 5; 6; 7; 11; 9; 10;
    0; 5; 1; 7; 2; 9; 3; 4; 6; 13; 8; 14; 10; 15; 11; 12;
    0; 1; 2; 3; 4; 5; 6; 8; 7; 9; 10; 11; 12; 13; 14; 15;
    0; 2; 1; 3; 4; 10; 5; 11; 6; 7; 8; 9; 12; 14; 13; 15;
    1; 2; 3; 12; 4; 6; 5; 7; 8; 10; 9; 11; 13; 14;
    1; 4; 2; 6; 5; 8; 7; 10; 9; 13; 11; 14;
    2; 4; 3; 6; 9; 12; 11; 13;
    3; 5; 6; 8; 7; 9; 10; 12;
    3; 4; 5; 6; 7; 8; 9; 10; 11; 12;
    6; 7; 8; 9]
  ].

Definition x_maxLength : nat := length x_data + 1.

Definition out_of_array : error := UndefinedBehaviour "outside the array".

Section network.
(** An element type with its [<=]. *)
Context {T : Type} (le : T -> T -> bool).

(** [forAscend ? (a <= b) : (a >= b)] *)
Definition compare_for (forAscend : bool) (a b : T) : bool := if forAscend then le a b else le b a.

Definition DoCmp (forAscend : bool) (i j : nat) (a : list T) : result (list T) :=
  match a !! i, a !! j with
  | Some x, Some y => let c := compare_for forAscend x y in Ok (<[j := if c then y else x]> (<[i := if c then x else y]> a))
  | _, _ => Err out_of_array
  end.

Fixpoint RunImpl (forAscend : bool) (v : list nat) (a : list T) : result (list T) :=
  match v with
  | i :: j :: v' => a ← DoCmp forAscend i j a; RunImpl forAscend v' a
  | [] => Ok a
  | [_] => Err (AssertFailed "idx == v.size()")
  end.

Definition RunWrapper (forAscend : bool) (N : nat) (a : list T) : result (list T) :=
  if 2 <=? N then
    match x_data !! (N - 2) with Some v => RunImpl forAscend v a | None => Err (AssertFailed "N < std::tuple_size_v<decltype(x_data)> + 2") end
  else Ok a.

(** The check of the debug build. *)
Fixpoint check_sorted (forAscend : bool) (a : list T) : bool :=
  match a with
  | x :: (y :: _) as a' => compare_for forAscend x y && check_sorted forAscend a'
  | _ => true
  end.

Definition SortImpl (forAscend : bool) (N : nat) (a : list T) : result (list T) :=
  if length a <? N then Err out_of_array
  else
    temp ← RunWrapper forAscend N (take N a);
    if check_sorted forAscend temp then Ok (temp ++ drop N a) else Err (AssertFailed "a[i] <= a[i + 1]").

Definition SortAscend (N : nat) (a : list T) : result (list T) :=
  if N <=? x_maxLength then SortImpl true N a else Err (AssertFailed "N <= x_maxLength").
Definition SortDescend (N : nat) (a : list T) : result (list T) :=
  if N <=? x_maxLength then SortImpl false N a else Err (AssertFailed "N <= x_maxLength").
End network.

(** ** The zero-one principle *)

(** A step applied to a list without its error. *)
Definition swap_step {T} (le : T -> T -> bool) (i j : nat) (a : list T) : list T :=
  match a !! i, a !! j with
  | Some x, Some y => if le x y then a else <[j := x]> (<[i := y]> a)
  | _, _ => a
  end.
Fixpoint steps {T} (le : T -> T -> bool) (v : list nat) (a : list T) : list T :=
  match v with i :: j :: v' => steps le v' (swap_step le i j a) | _ => a end.

(** The pairs of a network are of two places each, below [N]. *)
Fixpoint network_ok (N : nat) (v : list nat) : bool :=
  match v with
  | i :: j :: v' => (i <? N) && (j <? N) && negb (i =? j) && network_ok N v'
  | [] => true
  | [_] => false
  end.

Lemma length_swap_step {T} (le : T -> T -> bool) i j a : length (swap_step le i j a) = length a.
Proof. unfold swap_step. destruct (a !! i), (a !! j); try done. destruct (le _ _); [done|]. by rewrite !length_insert. Qed.

Section steps.
Context {T : Type} (le : T -> T -> bool).

Lemma swap_step_DoCmp (forAscend : bool) i j a : i < length a -> j < length a ->
  DoCmp le forAscend i j a = Ok (swap_step (compare_for le forAscend) i j a).
Proof.
  intros Hi Hj. unfold DoCmp, swap_step. apply lookup_lt_is_Some in Hi as [x Hx]. apply lookup_lt_is_Some in Hj as [y Hy].
  rewrite Hx, Hy. destruct (compare_for le forAscend x y); [|done]. by rewrite (list_insert_id a i x), list_insert_id.
Qed.
Lemma steps_RunImpl forAscend v a : network_ok (length a) v = true -> RunImpl le forAscend v a = Ok (steps (compare_for le forAscend) v a).
Proof.
  revert a. induction v as [v IH] using (induction_ltof1 _ (@length nat)). intros a H.
  destruct v as [|i [|j v]]; simpl in *; [done|done|].
  apply andb_true_iff in H as [H Hv]. apply andb_true_iff in H as [H Hne]. apply andb_true_iff in H as [Hi%Nat.ltb_lt Hj%Nat.ltb_lt].
  rewrite swap_step_DoCmp by done. simpl. apply IH; [unfold ltof; simpl; lia|]. by rewrite length_swap_step.
Qed.

Lemma swap_step_perm i j a : swap_step le i j a ≡ₚ a.
Proof.
  unfold swap_step. destruct (a !! i) as [x|] eqn:Hx; [|done]. destruct (a !! j) as [y|] eqn:Hy; [|done]. destruct (le x y); [done|].
  destruct (decide (i = j)) as [->|Hne].
  { assert (x = y) as -> by congruence. rewrite (list_insert_id a j y) by done. by rewrite list_insert_id. }
  symmetry. apply Permutation_inj. split; [by rewrite !length_insert|].
  exists (fun k => if decide (k = i) then j else if decide (k = j) then i else k). split.
  - intros k l. repeat case_decide; simplify_eq; congruence.
  - intros k. repeat case_decide; simplify_eq.
    + rewrite list_lookup_insert_eq; [done|]. rewrite length_insert. by eapply lookup_lt_Some.
    + rewrite list_lookup_insert_ne by done. rewrite list_lookup_insert_eq; [done|]. by eapply lookup_lt_Some.
    + by rewrite !list_lookup_insert_ne.
Qed.
Lemma steps_perm v a : steps le v a ≡ₚ a.
Proof.
  revert a. induction v as [v IH] using (induction_ltof1 _ (@length nat)). intros a. destruct v as [|i [|j v]]; simpl; [done|done|].
  rewrite IH by (unfold ltof; simpl; lia). apply swap_step_perm.
Qed.
End steps.

Definition ble (x y : bool) : bool := negb x || y.

Section zero_one.
#[local] Set Default Proof Using "Type*".
Context {T : Type} (le : T -> T -> bool).
Hypothesis le_total : forall x y, le x y = true \/ le y x = true.
Hypothesis le_trans : forall x y z, le x y = true -> le y z = true -> le x z = true.

(** A monotone map to booleans commutes with the steps. *)
Lemma swap_step_map (f : T -> bool) i j a : (forall x y, le x y = true -> ble (f x) (f y) = true) ->
  swap_step ble i j (f <$> a) = f <$> swap_step le i j a.
Proof.
  intros Hf. unfold swap_step. rewrite !list_lookup_fmap. destruct (a !! i) as [x|] eqn:Hx; [|done]. destruct (a !! j) as [y|] eqn:Hy; [|done].
  simpl. destruct (le x y) eqn:Hle; [by rewrite (Hf _ _ Hle)|].
  assert (Hyx : ble (f y) (f x) = true) by (apply Hf; destruct (le_total x y); congruence).
  rewrite !list_fmap_insert. destruct (ble (f x) (f y)) eqn:Hb; [|done].
  assert (Heq : f x = f y) by (destruct (f x), (f y); done).
  rewrite <- Heq. rewrite (list_insert_id (f <$> a) i (f x)); [|by rewrite list_lookup_fmap, Hx].
  rewrite list_insert_id; [done|]. rewrite list_lookup_fmap, Hy. simpl. by rewrite Heq.
Qed.
Lemma steps_map (f : T -> bool) v a : (forall x y, le x y = true -> ble (f x) (f y) = true) ->
  steps ble v (f <$> a) = f <$> steps le v a.
Proof.
  intros Hf. revert a. induction v as [v IH] using (induction_ltof1 _ (@length nat)). intros a. destruct v as [|i [|j v]]; simpl; [done|done|].
  rewrite swap_step_map by done. apply IH. unfold ltof. simpl. lia.
Qed.

(** What is unsorted is unsorted above some element. *)
Definition above (z x : T) : bool := negb (le x z).
Lemma above_mono z x y : le x y = true -> ble (above z x) (above z y) = true.
Proof.
  unfold above, ble. intros H. destruct (le x z) eqn:Hx; [done|]. destruct (le y z) eqn:Hy; [|done].
  by rewrite (le_trans _ _ _ H Hy) in Hx.
Qed.
Lemma unsorted_above a : check_sorted le true a = false -> exists z, check_sorted ble true (above z <$> a) = false.
Proof.
  induction a as [|x a IH]; [done|]. destruct a as [|y a]; [done|]. cbn [check_sorted compare_for fmap list_fmap]. intros H.
  apply andb_false_iff in H as [H|H].
  - exists y. assert (Hyy : le y y = true) by (by destruct (le_total y y)). unfold above at 1 2. by rewrite H, Hyy.
  - destruct (IH H) as [z Hz]. exists z. cbn [fmap list_fmap] in Hz. apply andb_false_iff. by right.
Qed.

Lemma zero_one v N a : (forall b, length b = N -> check_sorted ble true (steps ble v b) = true) -> length a = N ->
  check_sorted le true (steps le v a) = true.
Proof.
  intros Hb Ha. destruct (check_sorted le true (steps le v a)) eqn:E; [done|]. apply unsorted_above in E as [z Hz].
  rewrite <- steps_map in Hz by apply above_mono. rewrite Hb in Hz; [done|]. by rewrite length_fmap.
Qed.
End zero_one.

(** ** All sequences of booleans *)
Fixpoint for_all_bools (n : nat) (f : list bool -> bool) (l : list bool) : bool :=
  match n with O => f l | S n' => for_all_bools n' f (true :: l) && for_all_bools n' f (false :: l) end.
Lemma for_all_bools_spec n f l : for_all_bools n f l = true -> forall b, length b = n -> f (rev b ++ l) = true.
Proof.
  revert l. induction n as [|n IH]; simpl; intros l H b Hb; [by destruct b|].
  apply andb_true_iff in H as [H1 H2]. destruct b as [|x b]; [done|]. simpl. rewrite <- app_assoc. simpl.
  destruct x; (apply IH; [done|simpl in Hb; lia]).
Qed.

(** Many sequences at once: bit [t] of the integers is sequence [t], and [land] and [lor]
    are the smaller and the larger boolean. *)
Definition zstep (i j : nat) (w : list Z) : list Z :=
  match w !! i, w !! j with Some x, Some y => <[j := Z.lor x y]> (<[i := Z.land x y]> w) | _, _ => w end.
Fixpoint zsteps (v : list nat) (w : list Z) : list Z :=
  match v with i :: j :: v' => zsteps v' (zstep i j w) | _ => w end.
Fixpoint zsorted (w : list Z) : bool :=
  match w with x :: (y :: _) as w' => (Z.ldiff x y =? 0)%Z && zsorted w' | _ => true end.
Definition lane (t : Z) (w : list Z) : list bool := (fun x => Z.testbit x t) <$> w.

Lemma lane_zstep t i j w : lane t (zstep i j w) = swap_step ble i j (lane t w).
Proof.
  unfold zstep, swap_step, lane. rewrite !list_lookup_fmap. destruct (w !! i) as [x|] eqn:Hx; [|done]. destruct (w !! j) as [y|] eqn:Hy; [|done].
  simpl. rewrite !list_fmap_insert, Z.land_spec, Z.lor_spec. set (l := (fun x => Z.testbit x t) <$> w).
  assert (Hi : l !! i = Some (Z.testbit x t)) by (unfold l; by rewrite list_lookup_fmap, Hx).
  assert (Hj : l !! j = Some (Z.testbit y t)) by (unfold l; by rewrite list_lookup_fmap, Hy).
  destruct (Z.testbit x t), (Z.testbit y t); simpl; try done; by rewrite ?(list_insert_id l i), ?(list_insert_id l j).
Qed.
Lemma lane_zsteps t v w : lane t (zsteps v w) = steps ble v (lane t w).
Proof.
  revert w. induction v as [v IH] using (induction_ltof1 _ (@length nat)). intros w. destruct v as [|i [|j v]]; simpl; [done|done|].
  rewrite IH by (unfold ltof; simpl; lia). by rewrite lane_zstep.
Qed.
Lemma lane_sorted t w : zsorted w = true -> check_sorted ble true (lane t w) = true.
Proof.
  induction w as [|x w IH]; [done|]. destruct w as [|y w]; [done|]. cbn [zsorted lane fmap list_fmap check_sorted compare_for] in *. intros H.
  apply andb_true_iff in H as [Hxy%Z.eqb_eq Hw]. apply andb_true_iff. split; [|by apply IH]. unfold ble.
  assert (Hb : Z.testbit (Z.ldiff x y) t = false) by (rewrite Hxy; apply Z.bits_0). rewrite Z.ldiff_spec in Hb. by destruct (Z.testbit x t), (Z.testbit y t).
Qed.

(** [n] integers with all sequences of [n] booleans in their bits below [2 ^ n]. *)
Definition lanes (n : nat) : Z := (2 ^ Z.of_nat n)%Z.
Fixpoint patterns (n : nat) : list Z :=
  match n with
  | O => []
  | S n' => ((fun x => Z.lor x (Z.shiftl x (lanes n'))) <$> patterns n') ++ [Z.shiftl (Z.ones (lanes n')) (lanes n')]
  end.
Lemma lanes_pos n : (0 < lanes n)%Z.
Proof. unfold lanes. lia. Qed.
Lemma patterns_above n t : (lanes n <= t)%Z -> Forall (fun x => Z.testbit x t = false) (patterns n).
Proof.
  revert t. induction n as [|n IH]; intros t Ht; simpl; [constructor|]. pose proof (lanes_pos n).
  assert (Hl : lanes (S n) = (lanes n + lanes n)%Z) by (unfold lanes; rewrite Nat2Z.inj_succ, Z.pow_succ_r by lia; lia). apply Forall_app. split.
  - apply Forall_fmap, Forall_forall. intros x Hx. simpl. rewrite Z.lor_spec, Z.shiftl_spec by lia.
    rewrite (proj1 (Forall_forall _ _) (IH t ltac:(lia)) x Hx). rewrite (proj1 (Forall_forall _ _) (IH (t - lanes n)%Z ltac:(lia)) x Hx). done.
  - constructor; [|constructor]. rewrite Z.shiftl_spec, Z.ones_spec_high by lia. done.
Qed.
Lemma length_patterns n : length (patterns n) = n.
Proof. induction n as [|n IH]; simpl; [done|]. rewrite length_app, length_fmap, IH. simpl. lia. Qed.
Lemma patterns_all n : forall b, length b = n -> exists t, (0 <= t < lanes n)%Z /\ lane t (patterns n) = b.
Proof.
  induction n as [|n IH]; intros b Hb; [exists 0%Z; split; [by vm_compute|by destruct b]|].
  destruct b as [|c b' _] using rev_ind; [done|]. rewrite length_app in Hb. simpl in Hb. destruct (IH b') as (t & Ht & Hlane); [lia|].
  pose proof (lanes_pos n). assert (Hl : lanes (S n) = (lanes n + lanes n)%Z) by (unfold lanes; rewrite Nat2Z.inj_succ, Z.pow_succ_r by lia; lia).
  exists (if c then t + lanes n else t)%Z. split; [destruct c; lia|]. simpl. unfold lane in *. rewrite fmap_app. f_equal.
  - rewrite <- Hlane, <- list_fmap_compose. apply list_fmap_ext. intros i x Hx. apply list_elem_of_lookup_2 in Hx. cbv beta delta [compose].
    rewrite Z.lor_spec, Z.shiftl_spec by (destruct c; lia). destruct c.
    + rewrite (proj1 (Forall_forall _ _) (patterns_above n (t + lanes n) ltac:(lia)) x Hx). simpl. f_equal. lia.
    + rewrite (Z.testbit_neg_r x (t - lanes n)) by lia. apply orb_false_r.
  - cbn [fmap list_fmap]. f_equal. rewrite Z.shiftl_spec by (destruct c; lia). destruct c.
    + apply Z.ones_spec_low. lia.
    + apply Z.testbit_neg_r. lia.
Qed.

(** Ten wires at once, the others one sequence after the other. *)
Definition wires (n : nat) (high : list bool) : list Z := patterns n ++ ((fun c : bool => if c then Z.ones (lanes n) else 0%Z) <$> high).
Definition sorts_booleans (N : nat) (v : list nat) : bool :=
  network_ok N v && for_all_bools (N - 10) (fun high => zsorted (zsteps v (wires (Nat.min N 10) high))) [].

Lemma networks_sort : forallb (fun k => match x_data !! k with Some v => sorts_booleans (k + 2) v | None => false end) (seq 0 (length x_data)) = true.
Proof. vm_compute. reflexivity. Qed.
Lemma sorts_booleans_sorts N v : sorts_booleans N v = true -> forall b, length b = N -> check_sorted ble true (steps ble v b) = true.
Proof.
  unfold sorts_booleans. intros [_ Hall]%andb_true_iff b Hb. set (n := Nat.min N 10) in *.
  destruct (patterns_all n (take n b)) as (t & Ht & Hlow); [rewrite length_take; lia|].
  pose proof (for_all_bools_spec _ _ _ Hall (rev (drop n b))) as Hs. rewrite rev_involutive, app_nil_r in Hs.
  assert (Hlane : lane t (wires n (drop n b)) = b).
  { unfold wires, lane in *. rewrite fmap_app, Hlow. rewrite <- list_fmap_compose. rewrite <- (take_drop n b) at 3. f_equal.
    rewrite <- (list_fmap_id (drop n b)) at 2. apply list_fmap_ext. intros i c _. cbv beta delta [compose]. destruct c; simpl; [by apply Z.ones_spec_low; lia|apply Z.bits_0]. }
  rewrite <- Hlane, <- lane_zsteps. apply lane_sorted, Hs. rewrite length_rev, length_drop. lia.
Qed.

Lemma x_data_sorts k v : x_data !! k = Some v -> network_ok (k + 2) v = true /\
  forall b, length b = k + 2 -> check_sorted ble true (steps ble v b) = true.
Proof.
  intros Hv. pose proof (proj1 (List.forallb_forall _ _) networks_sort k) as H.
  cbv beta in H. rewrite Hv in H. assert (Hk : sorts_booleans (k + 2) v = true).
  { apply H. apply List.in_seq. apply lookup_lt_Some in Hv. lia. }
  split; [by apply andb_true_iff in Hk as [? _]|by apply sorts_booleans_sorts].
Qed.

Section sorting.
Context {T : Type} (le : T -> T -> bool).
Hypothesis le_total : forall x y, le x y = true \/ le y x = true.
Hypothesis le_trans : forall x y z, le x y = true -> le y z = true -> le x z = true.
#[local] Set Default Proof Using "Type*".

Lemma compare_total fwd x y : compare_for le fwd x y = true \/ compare_for le fwd y x = true.
Proof. destruct fwd; simpl; apply le_total. Qed.
Lemma compare_trans fwd x y z : compare_for le fwd x y = true -> compare_for le fwd y z = true -> compare_for le fwd x z = true.
Proof. destruct fwd; simpl; [apply le_trans|]. intros H1 H2. by eapply le_trans. Qed.

Lemma check_sorted_compare fwd a : check_sorted le fwd a = check_sorted (compare_for le fwd) true a.
Proof. induction a as [|x [|y a] IH]; [done|done|]. cbn [check_sorted] in *. by rewrite IH. Qed.
Lemma check_sorted_strongly fwd a : check_sorted le fwd a = true -> StronglySorted (fun x y => compare_for le fwd x y = true) a.
Proof.
  intros H. apply Sorted_StronglySorted; [intros x y z; apply compare_trans|].
  induction a as [|x a IH]; [constructor|]. destruct a as [|y a]; [by repeat constructor|]. cbn [check_sorted] in H.
  apply andb_true_iff in H as [H1 H2]. constructor; [by apply IH|by constructor].
Qed.

Lemma RunWrapper_sorts fwd N a : N <= x_maxLength -> length a = N ->
  exists s, RunWrapper le fwd N a = Ok s /\ s ≡ₚ a /\ check_sorted le fwd s = true.
Proof.
  intros HN Ha. unfold RunWrapper. destruct (Nat.leb_spec 2 N) as [H2|H2].
  - destruct (x_data !! (N - 2)) as [v|] eqn:Hv; [|apply lookup_ge_None in Hv; unfold x_maxLength in HN; lia].
    destruct (x_data_sorts _ _ Hv) as [Hok Hsort]. replace (N - 2 + 2) with N in Hok, Hsort by lia.
    exists (steps (compare_for le fwd) v a). split_and!.
    + apply steps_RunImpl. by rewrite Ha.
    + apply steps_perm.
    + rewrite check_sorted_compare. apply (zero_one _ (compare_total fwd) (compare_trans fwd) v N); [exact Hsort|done].
  - exists a. split_and!; [done|done|]. destruct a as [|x [|y a]]; [done|done|simpl in Ha; lia].
Qed.

(** C39: sorting a sequence of up to 16 elements, upwards or downwards, puts its elements
    in order, leaves what follows in the array as it is, and passes the check of the debug
    build, for any total order of the element type. *)
Theorem SortingNetwork_sorts (fwd : bool) N a : N <= x_maxLength -> N <= length a ->
  exists s, (if fwd then SortAscend le N a else SortDescend le N a) = Ok (s ++ drop N a) /\
    s ≡ₚ take N a /\ StronglySorted (fun x y => compare_for le fwd x y = true) s.
Proof.
  intros HN Ha. destruct (RunWrapper_sorts fwd N (take N a)) as (s & Hrun & Hperm & Hsort); [done|by rewrite length_take_le|].
  exists s. split_and!; [|done|by apply check_sorted_strongly]. unfold SortAscend, SortDescend, SortImpl.
  destruct (Nat.leb_spec N x_maxLength); [|lia]. destruct (Nat.ltb_spec (length a) N); [lia|].
  destruct fwd; rewrite Hrun; simpl; by rewrite Hsort.
Qed.
End sorting.

Lemma SortingNetwork_sorts_witness : exists s, SortDescend Z.leb 5 [3; 9; -2; 9; 4; 7]%Z = Ok (s ++ [7%Z]) /\
  s ≡ₚ [3; 9; -2; 9; 4]%Z /\ StronglySorted (fun x y => Z.leb y x = true) s.
Proof.
  apply (SortingNetwork_sorts Z.leb) with (fwd := false) (N := 5) (a := [3; 9; -2; 9; 4; 7]%Z).
  - intros x y. lia.
  - intros x y z. lia.
  - unfold x_maxLength. simpl. lia.
  - simpl. lia.
Defined.
