(* ===== verification/Automata.v ===== *)
(** * Automata over type masks

    [deegen/typemask_overapprox_automata_generator.cpp] builds, from a list of type masks
    with values, a table of bytes; [drt/dfg_typemask_overapprox_automata.h] runs through
    the table to find the value of the smallest mask that covers a given one.  Nodes are
    named by their order; [automataMaxDepth] and the variant that prints C++ code are left
    out. *)
From S2P Require Import Prelude TypeMask.
From stdpp Require Import gmap sorting.
#[local] Open Scope Z_scope.

Definition ItemTy : Type := Z * Z.     (* a mask and its value, below 2^16 *)
Definition failure : Z := 65535.
Definition topMask : Z := x_typeMaskFor tBoxedValueTop.
Definition numBits : nat := Z.to_nat x_numUsefulBitsInBytecodeTypeMask.

(** [x] is a subset of [a]. *)
Definition subset_of (x a : Z) : bool := Z.land a x =? x.
Definition disjoint_from (x a : Z) : bool := Z.land a x =? 0.
Definition bit (j : nat) : Z := Z.shiftl 1 (Z.of_nat j).

(** ** [MakeClosure] *)
(** The order of [std::pair]. *)
Definition item_le (a b : ItemTy) : Prop := a.1 < b.1 \/ (a.1 = b.1 /\ a.2 <= b.2).
#[export] Instance item_le_dec : RelDecision item_le.
Proof. intros a b. unfold item_le. apply _. Defined.
Definition sort_items (items : list ItemTy) : list ItemTy := merge_sort item_le items.

(** The pairs of one round; both before [lastN] were seen before. *)
Definition round_pairs (lastN : nat) (r : list ItemTy) : list (ItemTy * ItemTy) :=
  concat (imap (fun i a => (fun b => (a, b)) <$> drop (if (i <? lastN)%nat then lastN else 0%nat) r) r).
Definition add_pair (st : gset Z * list ItemTy) (p : ItemTy * ItemTy) : gset Z * list ItemTy :=
  let mask := Z.land p.1.1 p.2.1 in
  if bool_decide (mask ∈ st.1) then st else ({[mask]} ∪ st.1, st.2 ++ [(mask, p.1.2)]).

Definition too_many : error := Aborted "Too many (>500) elements in the bitwise-and-closure for TypeMaskOverapproxAutomata!".
Fixpoint closure_loop (fuel : nat) (existMap : gset Z) (lastN : nat) (r : list ItemTy) : result (list ItemTy) :=
  match fuel with
  | O => Err OutOfFuel
  | S fuel' =>
      if (500 <? length r)%nat then Err too_many
      else
        let '(existMap, newItems) := foldl add_pair (existMap, []) (round_pairs lastN r) in
        match newItems with
        | [] => Ok r
        | _ => closure_loop fuel' existMap (length r) (r ++ newItems)
        end
  end.

Definition masks (r : list ItemTy) : list Z := fst <$> r.
(** The checks at the end. *)
Definition closure_ok (m_items r : list ItemTy) : bool :=
  bool_decide (NoDup (masks r)) && forallb (fun i => bool_decide (i.1 ∈ masks r)) m_items &&
  forallb (fun a => forallb (fun b => bool_decide (Z.land a.1 b.1 ∈ masks r)) r) r.
Definition MakeClosure (m_items : list ItemTy) : result (list ItemTy) :=
  let r := sort_items m_items in
  if negb (bool_decide (NoDup (masks r))) then Err (AssertFailed "!existMap.count(item.first)")
  else
    r ← closure_loop 502 (list_to_set (masks r)) 0 r;
    let r := sort_items r in
    if closure_ok m_items r then Ok r else Err (AssertFailed "chk.count(v1.first & v2.first)").

(** ** The items of [GenerateImpl] *)
Fixpoint increasing (l : list Z) : bool :=
  match l with a :: (b :: _) as l' => (a <? b) && increasing l' | _ => true end.
Definition prepare_items (m_items : list ItemTy) : result (list ItemTy) :=
  items ← MakeClosure m_items;
  if negb (match last items with Some i => i.1 <=? topMask | None => true end)
  then Err (AssertFailed "items.back().first <= topMask")
  else
    let items := match last items with
                 | Some i => if i.1 <? topMask then items ++ [(topMask, failure)] else items
                 | None => [(topMask, failure)]
                 end in
    if negb (forallb (fun i => i.1 <? Z.shiftl 1 (Z.of_nat numBits)) items) then Err (AssertFailed "item.first < (1 << N)")
    else if negb (increasing (masks items)) then Err (AssertFailed "items[i].first < items[i + 1].first")
    else Ok items.

Section generator.
Context (items : list ItemTy).

Definition M_ : nat := length items.
Definition mask_at (i : nat) : Z := default 0 (fst <$> items !! i).
Definition value_at (i : nat) : Z := default 0 (snd <$> items !! i).

(** The first item that covers a mask. *)
Definition findMinOverapprox (mask : Z) : option nat := fst <$> list_find (fun i => subset_of mask i.1 = true) items.

(** It finds one for every entry of [T]. *)
Definition covered : bool :=
  forallb (fun i => forallb (fun j => negb (Z.land (mask_at i) (bit j) =? 0) ||
      bool_decide (is_Some (findMinOverapprox (Z.lor (mask_at i) (bit j))))) (seq 0 numBits)) (seq 0 M_).
(** [T[i][j]] *)
Definition T (i j : nat) : option nat :=
  if Z.land (mask_at i) (bit j) =? 0 then findMinOverapprox (Z.lor (mask_at i) (bit j)) else None.

Record EdgeInfo : Type := mk_edge { m_edgeMask : Z; m_dest : nat }.
(** [edges[dest] |= mask] of a [std::map], whose keys are in order. *)
Fixpoint add_edge (dest : nat) (mask : Z) (edges : list EdgeInfo) : list EdgeInfo :=
  match edges with
  | [] => [mk_edge mask dest]
  | e :: edges' =>
      if (dest <? m_dest e)%nat then mk_edge mask dest :: edges
      else if (dest =? m_dest e)%nat then mk_edge (Z.lor (m_edgeMask e) mask) dest :: edges'
      else e :: add_edge dest mask edges'
  end.
Definition edgeMap (i : nat) : list EdgeInfo :=
  foldl (fun edges j => match T i j with Some d => add_edge d (bit j) edges | None => edges end) [] (seq 0 numBits).

Definition straddles (edges : list EdgeInfo) (sel : list Z) : bool :=
  existsb (fun e => existsb (fun m => negb (subset_of m (m_edgeMask e) || disjoint_from m (m_edgeMask e))) sel) edges.
Definition next_edge (edges : list EdgeInfo) (sel : list Z) : option EdgeInfo :=
  snd <$> list_find (fun e => existsb (fun m => subset_of m (m_edgeMask e)) sel = true) edges.

Fixpoint traverseWithMasks (fuel : nat) (itemOrd : nat) (sel : list Z) : result nat :=
  match fuel with
  | O => Err OutOfFuel
  | S fuel' =>
      if straddles (edgeMap itemOrd) sel then Err (AssertFailed "edge.m_edgeMask.SupersetOf(mask) || edge.m_edgeMask.DisjointFrom(mask)")
      else match next_edge (edgeMap itemOrd) sel with
           | Some e => traverseWithMasks fuel' (m_dest e) sel
           | None => if forallb (fun m => subset_of m (mask_at itemOrd)) sel then Ok itemOrd
                     else Err (AssertFailed "mask.SubsetOf(items[itemOrd].first)")
           end
  end.

(** ** The nodes *)
Definition x_maxTestMasks : nat := 4.

Record NodeInfo : Type := mk_node { m_item : ItemTy; m_testMasks : list Z; m_dests : list (option nat) }.

(** An edge from a node to the first node of an item. *)
Record PendingEdge : Type := mk_pending { m_dfaNodeOrd : nat; m_itemOrd : nat; m_edgeOrd : nat }.

Record GenState : Type := mk_gen {
  dfaNodes : list NodeInfo;
  pendingEdges : list PendingEdge;
  itemReachable : list bool;
  knownZeroBitsForItem : list Z;
  itemToNodeOrdMap : list (option nat)
}.
Notation G := (Prelude.M GenState).

Definition push_node (n : NodeInfo) : G nat := fun s =>
  Ok (length (dfaNodes s), mk_gen (dfaNodes s ++ [n]) (pendingEdges s) (itemReachable s) (knownZeroBitsForItem s) (itemToNodeOrdMap s)).
Definition addPendingEdge (dfaNodeOrd itemOrd edgeOrd : nat) : G unit :=
  modify (fun s => mk_gen (dfaNodes s) (pendingEdges s ++ [mk_pending dfaNodeOrd itemOrd edgeOrd]) (itemReachable s)
                     (knownZeroBitsForItem s) (itemToNodeOrdMap s)).
(** The item is reached, with these bits known to be zero. *)
Definition reach_item (itemOrd : nat) (zero : Z) : G unit :=
  modify (fun s => mk_gen (dfaNodes s) (pendingEdges s) (<[itemOrd := true]> (itemReachable s))
                     (alter (Z.land zero) itemOrd (knownZeroBitsForItem s)) (itemToNodeOrdMap s)).
Definition start_item (itemOrd : nat) : G unit :=
  modify (fun s => mk_gen (dfaNodes s) (pendingEdges s) (<[itemOrd := true]> (itemReachable s))
                     (<[itemOrd := 0]> (knownZeroBitsForItem s)) (itemToNodeOrdMap s)).
Definition map_item (node : option nat) : G unit :=
  modify (fun s => mk_gen (dfaNodes s) (pendingEdges s) (itemReachable s) (knownZeroBitsForItem s) (itemToNodeOrdMap s ++ [node])).

(** [NodeInfo::SetDest] *)
Definition SetDest (idx dest : nat) (n : NodeInfo) : result NodeInfo :=
  match m_dests n !! idx with
  | Some None => Ok (mk_node (m_item n) (m_testMasks n) (<[idx := Some dest]> (m_dests n)))
  | _ => Err (AssertFailed "idx < m_dests.size() && m_dests[idx] == nullptr")
  end.
Definition addEdgeNow (dfaNodeOrd destDfaNodeOrd edgeOrd : nat) : G unit := fun s =>
  if negb ((destDfaNodeOrd <? length (dfaNodes s)) && (dfaNodeOrd <? destDfaNodeOrd))%nat
  then Err (AssertFailed "destDfaNodeOrd > dfaNodeOrd")
  else match dfaNodes s !! dfaNodeOrd with
       | None => Err (AssertFailed "dfaNodeOrd < dfaNodes.size()")
       | Some n =>
           n ← SetDest edgeOrd destDfaNodeOrd n;
           Ok (tt, mk_gen (<[dfaNodeOrd := n]> (dfaNodes s)) (pendingEdges s) (itemReachable s) (knownZeroBitsForItem s) (itemToNodeOrdMap s))
       end.

(** The tests an edge number selects, and those it leaves out. *)
Definition selected (want : bool) (tests : list Z) (edgeOrd : nat) : list Z :=
  concat (imap (fun i m => if eqb (Nat.testbit edgeOrd i) want then [m] else []) tests).

Fixpoint handle_masks (nodeOrd itemOrd : nat) (tests : list Z) (knownZero : Z) (edgeOrds : list nat) : G unit :=
  match edgeOrds with
  | [] => mret tt
  | mask :: edgeOrds' =>
      next ← lift_result (traverseWithMasks (S M_) itemOrd (selected true tests mask));
      addPendingEdge nodeOrd next mask ;;
      reach_item next (foldl Z.lor knownZero (selected false tests mask)) ;;
      handle_masks nodeOrd itemOrd tests knownZero edgeOrds'
  end.
Fixpoint handleEdges (fuel : nat) (itemOrd : nat) (edges : list EdgeInfo) (knownZero : Z) : G nat :=
  match fuel with
  | O => fail OutOfFuel
  | S fuel' =>
      let numTests := Nat.min (length edges) x_maxTestMasks in
      let tests := m_edgeMask <$> take numTests edges in
      nodeOrd ← push_node (mk_node (if (numTests =? 0)%nat then topMask else mask_at itemOrd, value_at itemOrd) tests
                             (replicate (2 ^ numTests) None));
      handle_masks nodeOrd itemOrd tests knownZero (seq 1 (2 ^ numTests - 1)) ;;
      when (numTests <? length edges)%nat
        (nextNodeOrd ← handleEdges fuel' itemOrd (drop numTests edges) (foldl Z.lor knownZero tests);
         addEdgeNow nodeOrd nextNodeOrd 0) ;;
      mret nodeOrd
  end.

Definition handle_item (itemOrd : nat) : G unit :=
  s ← get_st;
  match itemReachable s !! itemOrd, knownZeroBitsForItem s !! itemOrd with
  | Some true, Some knownZero =>
      let edges := filter (fun e => subset_of (m_edgeMask e) knownZero = false) (edgeMap itemOrd) in
      node ← handleEdges (S (length edges)) itemOrd edges knownZero;
      map_item (Some node)
  | _, _ => map_item None
  end.
Fixpoint handle_items (ords : list nat) : G unit :=
  match ords with [] => mret tt | i :: ords' => handle_item i ;; handle_items ords' end.

Fixpoint patch_edges (edges : list PendingEdge) : G unit :=
  match edges with
  | [] => mret tt
  | e :: edges' =>
      s ← get_st;
      match itemToNodeOrdMap s !! m_itemOrd e with
      | Some (Some dest) => addEdgeNow (m_dfaNodeOrd e) dest (m_edgeOrd e)
      | _ => fail (AssertFailed "destNodeOrd != static_cast<size_t>(-1)")
      end ;;
      patch_edges edges'
  end.
(** The items reached at first: by the first bit in the variant with a table of leaves. *)
Fixpoint start_leaves (bottom : Z) (bits : list nat) : G unit :=
  match bits with
  | [] => mret tt
  | j :: bits' =>
      when (Z.land bottom (bit j) =? 0)
        (match findMinOverapprox (Z.lor bottom (bit j)) with
         | Some ord => start_item ord
         | None => fail (AssertFailed "ord < M")
         end) ;;
      start_leaves bottom bits'
  end.
Definition node_ok (n : NodeInfo) : bool :=
  subset_of (fst (m_item n)) topMask && (length (m_dests n) =? 2 ^ length (m_testMasks n))%nat &&
  forallb (fun d => bool_decide (is_Some d)) (drop 1 (m_dests n)).
Definition build_nodes (bottom : option ItemTy) : G unit :=
  check covered (AssertFailed "false") ;;
  match bottom with
  | Some b => start_leaves b.1 (seq 0 numBits)
  | None => check (0 <? M_)%nat (AssertFailed "M > 0") ;; start_item 0
  end ;;
  handle_items (seq 0 M_) ;;
  s ← get_st;
  patch_edges (pendingEdges s) ;;
  s ← get_st;
  check (forallb node_ok (dfaNodes s)) (AssertFailed "node->m_dests[idx] != nullptr").
Definition gen_start : GenState := mk_gen [] [] (replicate M_ false) (replicate M_ topMask) [].
End generator.

(** ** The table of bytes *)
Definition u16_bytes (v : Z) : list Z := [v `mod` 256; (v / 256) `mod` 256].
Definition u32_bytes (v : Z) : list Z := [v `mod` 256; (v / 256) `mod` 256; (v / 65536) `mod` 256; (v / 16777216) `mod` 256].

Definition outside : error := UndefinedBehaviour "outside the table".
Definition load_u8 (rs : list Z) (a : nat) : result Z := match rs !! a with Some b => Ok b | None => Err outside end.
Definition load_u16 (rs : list Z) (a : nat) : result Z :=
  b0 ← load_u8 rs a; b1 ← load_u8 rs (a + 1)%nat; Ok (b0 + 256 * b1).
Definition load_u32 (rs : list Z) (a : nat) : result Z :=
  l ← load_u16 rs a; h ← load_u16 rs (a + 2)%nat; Ok (l + 65536 * h).
(** A store into the vector, which is long enough. *)
Definition store (a : nat) (bs : list Z) (rs : list Z) : result (list Z) :=
  if (a + length bs <=? length rs)%nat then Ok (list_inserts a bs rs) else Err outside.

Definition IsTerminalNode (n : NodeInfo) : result bool :=
  let res := (length (m_testMasks n) =? 0)%nat && bool_decide (m_dests n !! 0%nat = Some None) in
  if eqb res (fst (m_item n) =? topMask) then Ok res else Err (AssertFailed "res <=> m_item.first == x_typeMaskFor<tBoxedValueTop>").
Definition GetByteSize (n : NodeInfo) : result nat :=
  t ← IsTerminalNode n; Ok (if t : bool then 6 else 6 + 4 * x_maxTestMasks + 2 * length (m_dests n))%nat.
Definition GetClearMask (n : NodeInfo) : result Z :=
  if Z.land topMask (fst (m_item n)) =? fst (m_item n) then Ok (Z.lxor topMask (fst (m_item n)))
  else Err (AssertFailed "(x_typeMaskFor<tBoxedValueTop> & m_item.first) == m_item.first").

(** The offsets of the nodes, and the end of the last one. *)
Fixpoint node_offsets (nodes : list NodeInfo) (curOffset : nat) : result (list nat * nat) :=
  match nodes with
  | [] => Ok ([], curOffset)
  | n :: nodes' => size ← GetByteSize n; '(os, e) ← node_offsets nodes' (curOffset + size)%nat; Ok (curOffset :: os, e)
  end.
Definition dest_bytes (offsets : list nat) (cur : nat) (d : option nat) : result (list Z) :=
  match d with
  | None => Ok (u16_bytes failure)
  | Some k => match offsets !! k with
      | None => Err (AssertFailed "nodeOrd < offsetForDfaNode.size()")
      | Some dst => if negb (cur <? dst)%nat then Err (AssertFailed "dstNodeOffset > curNodeOffset")
                    else if (65534 <? dst - cur)%nat then Err (AssertFailed "DFA too large")
                    else Ok (u16_bytes (Z.of_nat (dst - cur)))
      end
  end.
Fixpoint all_dests (offsets : list nat) (cur : nat) (ds : list (option nat)) : result (list Z) :=
  match ds with
  | [] => Ok []
  | d :: ds' => b ← dest_bytes offsets cur d; bs ← all_dests offsets cur ds'; Ok (b ++ bs)
  end.
(** [NodeInfo::Populate] *)
Definition Populate (offsets : list nat) (cur : nat) (n : NodeInfo) : result (list Z) :=
  clear ← GetClearMask n;
  t ← IsTerminalNode n;
  let common := u32_bytes clear ++ u16_bytes (snd (m_item n)) in
  if t : bool then Ok common
  else
    let tests := concat (u32_bytes <$> (m_testMasks n ++ replicate (x_maxTestMasks - length (m_testMasks n)) 0)) in
    ds ← all_dests offsets cur (m_dests n);
    Ok (common ++ tests ++ ds).
Fixpoint populate_nodes (offsets os : list nat) (nodes : list NodeInfo) (rs : list Z) : result (list Z) :=
  match os, nodes with
  | o :: os', n :: nodes' => bs ← Populate offsets o n; rs ← store o bs rs; populate_nodes offsets os' nodes' rs
  | _, _ => Ok rs
  end.

(** The first node for the smallest item with this bit. *)
Definition leaf_node (items : list ItemTy) (s : GenState) (bottom : Z) (j : nat) : option nat :=
  findMinOverapprox items (Z.lor bottom (bit j)) ≫= (fun ord : nat => mjoin (itemToNodeOrdMap s !! ord)).
(** The entry of the table of leaves for a bit. *)
Definition leaf_entry (items : list ItemTy) (s : GenState) (offsets : list nat) (bottom : Z) (j : nat) : result Z :=
  if negb (Z.land bottom (bit j) =? 0) then Ok failure
  else match leaf_node items s bottom j ≫= (fun node : nat => offsets !! node) with
       | Some o => if (65534 <? o)%nat then Err (AssertFailed "DFA too large") else Ok (Z.of_nat o)
       | None => Err (AssertFailed "destNodeOrd != static_cast<size_t>(-1)")
       end.
Fixpoint leaf_entries (items : list ItemTy) (s : GenState) (offsets : list nat) (bottom : Z) (bits : list nat) : result (list Z) :=
  match bits with
  | [] => Ok []
  | j :: bits' =>
      e ← leaf_entry items s offsets bottom j; es ← leaf_entries items s offsets bottom bits'; Ok (u16_bytes e ++ es)
  end.

(** [GenerateImpl], for the two kinds of tables. *)
Definition GenerateAutomata (m_items : list ItemTy) : result (list Z) :=
  items ← prepare_items m_items;
  '(_, s) ← build_nodes items None (gen_start items);
  '(offsets, e) ← node_offsets (dfaNodes s) 0;
  populate_nodes offsets offsets (dfaNodes s) (replicate e 0).
Definition GenerateAutomataLeafOpted (m_items : list ItemTy) : result (list Z) :=
  items ← prepare_items m_items;
  match items with
  | [] => Err (UndefinedBehaviour "items[0]")
  | bottom :: items =>
      '(_, s) ← build_nodes items (Some bottom) (gen_start items);
      '(offsets, e) ← node_offsets (dfaNodes s) (6 + 2 * numBits)%nat;
      let head := u32_bytes (Z.lxor topMask bottom.1) ++ u16_bytes bottom.2 in
      match items with
      | [] => if bottom.1 =? topMask then Ok head else Err (AssertFailed "bottomItemForLeafOpted.first == topMask")
      | _ =>
          entries ← leaf_entries items s offsets bottom.1 (seq 0 numBits);
          populate_nodes offsets offsets (dfaNodes s) (head ++ entries ++ replicate (e - (6 + 2 * numBits))%nat 0)
      end
  end.

(** ** Running an automaton *)
(** The number of the destination: one bit for each test that hits. *)
Fixpoint test_index (rs : list Z) (tests : nat) (mask : Z) (i left : nat) : result nat :=
  match left with
  | O => Ok 0%nat
  | S left' =>
      t ← load_u32 rs (tests + 4 * i)%nat;
      rest ← test_index rs tests mask (S i) left';
      Ok ((if (Z.land mask t =? 0)%Z then 0 else 2 ^ i) + rest)%nat
  end.
Definition TestAndGetNext (rs : list Z) (node : nat) (mask : Z) : result nat :=
  idx ← test_index rs (node + 6)%nat mask 0 x_maxTestMasks;
  dest ← load_u16 rs (node + 6 + 4 * x_maxTestMasks + 2 * idx)%nat;
  if dest =? failure then Err (AssertFailed "m_dests[idx] != static_cast<uint16_t>(-1)") else Ok (node + Z.to_nat dest)%nat.
Fixpoint Run_loop (fuel : nat) (rs : list Z) (node : nat) (mask : Z) : result Z :=
  match fuel with
  | O => Err OutOfFuel
  | S fuel' =>
      clear ← load_u32 rs node;
      if Z.land mask clear =? 0 then load_u16 rs (node + 4)%nat
      else node ← TestAndGetNext rs node mask; Run_loop fuel' rs node mask
  end.
Definition Run (rs : list Z) (node : nat) (mask : Z) : result Z :=
  if topMask <? mask then Err (AssertFailed "mask <= x_typeMaskFor<tBoxedValueTop>") else Run_loop (S (length rs)) rs node mask.

Definition RunAutomataMayFail (rs : list Z) (mask : Z) : result Z := Run rs 0 mask.
(** [CountTrailingZeros] of a mask that is not zero. *)
Fixpoint count_trailing_zeros (fuel : nat) (x : Z) : nat :=
  match fuel with O => 0%nat | S fuel' => if Z.odd x then 0%nat else S (count_trailing_zeros fuel' (Z.div2 x)) end.
Definition RunAutomataLeafOpted (rs : list Z) (mask : Z) : result Z :=
  if topMask <? mask then Err (AssertFailed "mask <= x_typeMaskFor<tBoxedValueTop>")
  else
    head ← load_u32 rs 0;
    let mask := Z.land mask head in
    if mask =? 0 then load_u16 rs 4
    else
      let ord := count_trailing_zeros 32 mask in
      if negb (ord <? numBits)%nat then Err (AssertFailed "ord < x_numUsefulBitsInBytecodeTypeMask")
      else
        offset ← load_u16 rs (6 + 2 * ord)%nat;
        if offset =? failure then Err (AssertFailed "offset != static_cast<uint16_t>(-1)") else Run rs (Z.to_nat offset) mask.
