(* ===== verification/AutomataMasks.v ===== *)
(** * Items of an automaton

    Facts about the masks of [Automata.v]: subsets bit by bit, the smallest item that
    covers a mask, the edges of an item, and where [traverseWithMasks] ends. *)
From S2P Require Import Prelude TypeMask Automata.
From stdpp Require Import gmap sorting.
#[local] Open Scope Z_scope.
#[local] Set Default Proof Using "Type".

(** ** Masks bit by bit *)
Definition has (x : Z) (n : nat) : Prop := Z.testbit x (Z.of_nat n) = true.
Definition Sub (x a : Z) : Prop := forall n, has x n -> has a n.
#[export] Instance Sub_preorder : PreOrder Sub.
Proof. split; [by intros x n|]. intros x y z H1 H2 n Hn. auto. Qed.

Lemma bits_eq x y : (forall n, Z.testbit x (Z.of_nat n) = Z.testbit y (Z.of_nat n)) -> x = y.
Proof. intros H. apply Z.bits_inj'. intros n Hn. rewrite <- (Z2Nat.id n) by done. apply H. Qed.
Lemma Sub_antisym x y : Sub x y -> Sub y x -> x = y.
Proof.
  intros H1 H2. apply bits_eq. intros n. specialize (H1 n). specialize (H2 n). unfold has in *.
  destruct (Z.testbit x _), (Z.testbit y _); try done; [symmetry; by apply H1|by apply H2].
Qed.
Lemma subset_of_spec x a : subset_of x a = true <-> Sub x a.
Proof.
  unfold subset_of. rewrite Z.eqb_eq. split.
  - intros H n Hn. unfold has in *. rewrite <- H, Z.land_spec in Hn. by apply andb_true_iff in Hn as [? _].
  - intros H. apply bits_eq. intros n. rewrite Z.land_spec. specialize (H n). unfold has in H.
    destruct (Z.testbit x _); [by rewrite H|apply andb_false_r].
Qed.
Lemma land_zero x y : Z.land x y = 0 <-> forall n, has x n -> has y n -> False.
Proof.
  split.
  - intros H n Hx Hy. unfold has in *. assert (Hb : Z.testbit (Z.land x y) (Z.of_nat n) = true) by (by rewrite Z.land_spec, Hx, Hy).
    by rewrite H, Z.bits_0 in Hb.
  - intros H. apply bits_eq. intros n. rewrite Z.land_spec, Z.bits_0. specialize (H n). unfold has in H.
    destruct (Z.testbit x _), (Z.testbit y _); try done. by destruct H.
Qed.
Lemma disjoint_spec x a : disjoint_from x a = true <-> forall n, has x n -> has a n -> False.
Proof. unfold disjoint_from. rewrite Z.eqb_eq, land_zero. split; intros H n ? ?; by eapply H. Qed.
Lemma meets x y : Z.land x y <> 0 -> exists n, has x n /\ has y n.
Proof.
  intros H. destruct (Z.eq_dec (Z.land x y) 0) as [|_]; [done|].
  assert (Hb : exists n, has (Z.land x y) n).
  { destruct (decide (Z.land x y < 0)) as [Hneg|Hpos].
    - exists (Z.to_nat (Z.log2 (Z.pred (- Z.land x y)) + 1)). unfold has.
      rewrite Z2Nat.id by (pose proof (Z.log2_nonneg (Z.pred (- Z.land x y))); lia). apply Z.bits_above_log2_neg; lia.
    - exists (Z.to_nat (Z.log2 (Z.land x y))). unfold has. rewrite Z2Nat.id by apply Z.log2_nonneg. apply Z.bit_log2. lia. }
  destruct Hb as [n Hn]. exists n. unfold has in *. rewrite Z.land_spec in Hn. by apply andb_true_iff in Hn.
Qed.
Lemma has_land x y n : has (Z.land x y) n <-> has x n /\ has y n.
Proof. unfold has. by rewrite Z.land_spec, andb_true_iff. Qed.
Lemma has_lor x y n : has (Z.lor x y) n <-> has x n \/ has y n.
Proof. unfold has. by rewrite Z.lor_spec, orb_true_iff. Qed.
Lemma has_bit j n : has (bit j) n <-> n = j.
Proof. unfold has, bit. rewrite Z.shiftl_1_l, Z.pow2_bits_eqb by lia. rewrite Z.eqb_eq. lia. Qed.
Lemma has_foldl z l n : has (foldl Z.lor z l) n <-> has z n \/ exists m, m ∈ l /\ has m n.
Proof.
  revert z. induction l as [|m l IH]; intros z; simpl.
  - split; [by left|]. intros [H|(m & H & _)]; [done|by apply not_elem_of_nil in H].
  - rewrite IH, has_lor. set_solver.
Qed.
Lemma land_bit m j : (Z.land m (bit j) =? 0) = true <-> ~ has m j.
Proof.
  rewrite Z.eqb_eq, land_zero. split; [intros H Hj; by apply (H j), has_bit|]. intros H n Hn Hb%has_bit. by subst.
Qed.
Lemma Sub_lor x y a : Sub (Z.lor x y) a <-> Sub x a /\ Sub y a.
Proof.
  split.
  - intros H. split; intros n Hn; apply H, has_lor; auto.
  - intros [H1 H2] n [Hn|Hn]%has_lor; auto.
Qed.
Lemma Sub_bit j a : Sub (bit j) a <-> has a j.
Proof. split; [intros H; by apply H, has_bit|]. intros H n ->%has_bit. done. Qed.
Lemma Sub_land x a b : Sub x (Z.land a b) <-> Sub x a /\ Sub x b.
Proof.
  split.
  - intros H. split; intros n Hn; by apply H, has_land in Hn as [? ?].
  - intros [H1 H2] n Hn. apply has_land. auto.
Qed.
Lemma Sub_le x a : 0 <= a -> Sub x a -> 0 <= x -> x <= a.
Proof.
  intros Ha H Hx. assert (Hd : Z.ldiff x a = 0).
  { apply bits_eq. intros n. rewrite Z.ldiff_spec, Z.bits_0. specialize (H n). unfold has in H.
    destruct (Z.testbit x _); [by rewrite H|done]. }
  pose proof (Z.sub_nocarry_ldiff a x Hd). pose proof (proj2 (Z.ldiff_nonneg a x)). lia.
Qed.
Lemma Sub_nonneg x a : 0 <= a -> Sub x a -> 0 <= x.
Proof.
  intros Ha H. apply subset_of_spec in H. unfold subset_of in H. apply Z.eqb_eq in H. rewrite <- H. apply Z.land_nonneg. by left.
Qed.
Lemma topMask_bits n : has topMask n <-> (n < numBits)%nat.
Proof.
  assert (Ht : topMask = Z.ones (Z.of_nat numBits)) by (vm_compute; reflexivity). unfold has. rewrite Ht, Z.testbit_ones_nonneg by lia.
  rewrite Z.ltb_lt. lia.
Qed.
Lemma topMask_max x : 0 <= x <= topMask -> Sub x topMask.
Proof.
  intros [H0 H1] n Hn. apply topMask_bits. assert (Ht : topMask = 2 ^ Z.of_nat numBits - 1) by (vm_compute; reflexivity).
  destruct (decide (n < numBits)%nat) as [|Hge]; [done|]. exfalso. unfold has in Hn.
  rewrite Z.bits_above_log2 in Hn; [done|done|].
  destruct (decide (x = 0)) as [->|]; [rewrite Z.bits_0 in Hn; done|]. apply Z.log2_lt_pow2; [lia|].
  assert (2 ^ Z.of_nat numBits <= 2 ^ Z.of_nat n) by (apply Z.pow_le_mono_r; lia). lia.
Qed.

(** ** The items *)
(** What [prepare_items] establishes; [bottom] is the item taken out for the table of
    leaves. *)
Record items_ok (bottom : option Z) (items : list ItemTy) : Prop := {
  io_range : forall i, Sub (mask_at items i) topMask;
  io_sorted : forall i j, (i < j < length items)%nat -> mask_at items i < mask_at items j;
  io_top : items <> [] -> exists i, (i < length items)%nat /\ mask_at items i = topMask;
  io_bottom : forall b i, bottom = Some b -> (i < length items)%nat -> Sub b (mask_at items i);
  io_closed : forall i j, (i < length items)%nat -> (j < length items)%nat ->
    (exists k, (k < length items)%nat /\ mask_at items k = Z.land (mask_at items i) (mask_at items j)) \/
    (exists b, bottom = Some b /\ Sub (Z.land (mask_at items i) (mask_at items j)) b)
}.

Section items.
Context (bottom : option Z) (items : list ItemTy).
Hypothesis Hok : items_ok bottom items.
#[local] Set Default Proof Using "Type*".
Notation M := (length items).
Notation mask_at := (mask_at items).

(** The masks the items are not asked for. *)
Definition below (x : Z) : Prop := exists b, bottom = Some b /\ Sub x b.
(** [i] is the smallest item that covers [x]. *)
Definition least (x : Z) (i : nat) : Prop := (i < M)%nat /\ Sub x (mask_at i) /\ forall k, (k < M)%nat -> Sub x (mask_at k) -> Sub (mask_at i) (mask_at k).

Lemma mask_nonneg i : 0 <= mask_at i.
Proof. apply (Sub_nonneg _ topMask); [by vm_compute|]. apply (io_range _ _ Hok). Qed.
Lemma mask_inj i j : (i < M)%nat -> (j < M)%nat -> mask_at i = mask_at j -> i = j.
Proof.
  intros Hi Hj He. destruct (decide (i < j)%nat) as [H|]; [pose proof (io_sorted _ _ Hok i j); lia|].
  destruct (decide (j < i)%nat) as [H|]; [pose proof (io_sorted _ _ Hok j i); lia|lia].
Qed.
Lemma Sub_index i j : (i < M)%nat -> (j < M)%nat -> Sub (mask_at i) (mask_at j) -> (i <= j)%nat.
Proof.
  intros Hi Hj Hs. destruct (decide (j < i)%nat) as [H|]; [|lia]. pose proof (io_sorted _ _ Hok j i ltac:(lia)).
  pose proof (Sub_le _ _ (mask_nonneg j) Hs (mask_nonneg i)). lia.
Qed.
Lemma lookup_mask i it : items !! i = Some it -> mask_at i = it.1.
Proof. intros H. unfold Automata.mask_at. by rewrite H. Qed.

Lemma least_unique x i j : least x i -> least x j -> i = j.
Proof.
  intros (Hi & Hx & Hl) (Hj & Hy & Hl'). apply mask_inj; [done|done|]. apply Sub_antisym; auto.
Qed.

Lemma findMinOverapprox_least x : items <> [] -> Sub x topMask -> ~ below x ->
  exists i, findMinOverapprox items x = Some i /\ least x i.
Proof.
  intros Hne Hx Hb. unfold findMinOverapprox. destruct (list_find (fun i => subset_of x i.1 = true) items) as [[i it]|] eqn:E.
  - apply list_find_Some in E as (Hi & Hsub & Hfirst). apply subset_of_spec in Hsub. exists i. split; [done|].
    assert (HiM : (i < M)%nat) by (by eapply lookup_lt_Some). pose proof (lookup_mask _ _ Hi) as Hm. rewrite <- Hm in Hsub.
    split_and!; [done|done|]. intros k Hk Hxk.
    destruct (io_closed _ _ Hok i k HiM Hk) as [(l & Hl & Hmeet)|(b & Hbot & Hlow)].
    + assert (Hxl : Sub x (mask_at l)) by (rewrite Hmeet; by apply Sub_land).
      assert (Hil : (i <= l)%nat).
      { destruct (decide (i <= l)%nat) as [|Hlt]; [done|]. destruct (lookup_lt_is_Some_2 items l) as [it' Hit']; [lia|].
        exfalso. apply (Hfirst l it'); [done|lia|]. apply subset_of_spec. by rewrite <- (lookup_mask _ _ Hit'). }
      assert (l = i) as ->.
      { assert (Hle : Sub (mask_at l) (mask_at i)) by (rewrite Hmeet; intros n Hn; by apply has_land in Hn as [? _]).
        pose proof (Sub_index l i Hl HiM Hle). lia. }
      rewrite Hmeet. intros n Hn. by apply has_land in Hn as [_ ?].
    + exfalso. apply Hb. exists b. split; [done|]. etrans; [|exact Hlow]. by apply Sub_land.
  - exfalso. destruct (io_top _ _ Hok Hne) as (i & Hi & Hm). destruct (lookup_lt_is_Some_2 items i Hi) as [it Hit].
    pose proof (proj1 (list_find_None _ _) E) as Hall. apply (Forall_lookup_1 _ _ _ _ Hall Hit).
    apply subset_of_spec. by rewrite <- (lookup_mask _ _ Hit), Hm.
Qed.

(** ** [T] *)
Lemma not_below_bit i j : (i < M)%nat -> ~ has (mask_at i) j -> ~ below (Z.lor (mask_at i) (bit j)).
Proof.
  intros Hi Hj (b & Hb & Hs). apply Hj. apply (io_bottom _ _ Hok b i Hb Hi), Hs, has_lor. right. by apply has_bit.
Qed.
Lemma items_nonempty i : (i < M)%nat -> items <> [].
Proof. intros H ->. simpl in H. lia. Qed.
Lemma bit_top i j : (i < M)%nat -> (j < numBits)%nat -> Sub (Z.lor (mask_at i) (bit j)) topMask.
Proof. intros Hi Hj. apply Sub_lor. split; [apply (io_range _ _ Hok)|]. by apply Sub_bit, topMask_bits. Qed.

Lemma T_some i j : (i < M)%nat -> (j < numBits)%nat -> ~ has (mask_at i) j -> exists d, T items i j = Some d.
Proof.
  intros Hi Hj Hn. unfold T. rewrite (proj2 (land_bit _ _) Hn).
  destruct (findMinOverapprox_least (Z.lor (mask_at i) (bit j))) as (d & Hd & _); [by eapply items_nonempty|by apply bit_top|by apply not_below_bit|].
  by exists d.
Qed.
Lemma T_least i j d : (i < M)%nat -> (j < numBits)%nat -> T items i j = Some d -> ~ has (mask_at i) j /\ least (Z.lor (mask_at i) (bit j)) d.
Proof.
  intros Hi Hj Hd. unfold T in Hd. destruct (Z.land (mask_at i) (bit j) =? 0) eqn:E; [|done]. apply land_bit in E.
  destruct (findMinOverapprox_least (Z.lor (mask_at i) (bit j))) as (d' & Hd' & Hl); [by eapply items_nonempty|by apply bit_top|by apply not_below_bit|].
  split; [done|]. congruence.
Qed.
Lemma T_step i j d l : (i < M)%nat -> (j < numBits)%nat -> T items i j = Some d -> (l < M)%nat -> Sub (mask_at i) (mask_at l) -> has (mask_at l) j ->
  Sub (mask_at d) (mask_at l).
Proof.
  intros Hi Hj Hd Hl Hs Hh. destruct (T_least i j d Hi Hj Hd) as [_ (_ & _ & Hmin)]. apply Hmin; [done|]. apply Sub_lor. split; [done|by apply Sub_bit].
Qed.
Lemma T_above i j d : (i < M)%nat -> (j < numBits)%nat -> T items i j = Some d -> (i < d < M)%nat /\ Sub (mask_at i) (mask_at d) /\ has (mask_at d) j.
Proof.
  intros Hi Hj Hd. destruct (T_least i j d Hi Hj Hd) as [Hn (Hlt & Hs & _)]. apply Sub_lor in Hs as [H1 H2%Sub_bit].
  split_and!; [|done|done|done]. pose proof (Sub_index i d Hi Hlt H1). destruct (decide (i = d)) as [->|]; [done|lia].
Qed.
(** Bits with the same destination keep a common one at every larger item. *)
Lemma T_together i k j j' d0 d : (i < M)%nat -> (k < M)%nat -> (j < numBits)%nat -> (j' < numBits)%nat -> Sub (mask_at i) (mask_at k) ->
  T items i j = Some d0 -> T items i j' = Some d0 -> T items k j = Some d -> T items k j' = Some d.
Proof.
  intros Hi Hk Hj Hj' Hik H1 H2 Hd.
  assert (Hshare : forall l, (l < M)%nat -> Sub (mask_at k) (mask_at l) -> has (mask_at l) j <-> has (mask_at l) j').
  { intros l Hl Hkl. assert (Hil : Sub (mask_at i) (mask_at l)) by (by etrans).
    split; intros Hh.
    - destruct (T_above i j' d0 Hi Hj' H2) as (_ & _ & Hd0). by apply (T_step i j d0 l).
    - destruct (T_above i j d0 Hi Hj H1) as (_ & _ & Hd0). by apply (T_step i j' d0 l). }
  destruct (T_least k j d Hk Hj Hd) as [Hn (HdM & Hs & Hmin)]. apply Sub_lor in Hs as [Hkd Hjd%Sub_bit].
  assert (Hn' : ~ has (mask_at k) j') by (intros Hh; apply Hn; by apply (Hshare k Hk (reflexivity _))).
  destruct (T_some k j' Hk Hj' Hn') as [d' Hd']. rewrite Hd'. f_equal.
  destruct (T_least k j' d' Hk Hj' Hd') as [_ (HdM' & Hs' & Hmin')]. apply Sub_lor in Hs' as [Hkd' Hjd'%Sub_bit].
  apply mask_inj; [done|done|]. apply Sub_antisym.
  - apply Hmin'; [done|]. apply Sub_lor. split; [done|]. apply Sub_bit. by apply Hshare.
  - apply Hmin; [done|]. apply Sub_lor. split; [done|]. apply Sub_bit. by apply Hshare.
Qed.

End items.

(** ** Edges *)
(** The edges of an item have distinct destinations, each with all its bits. *)
Definition edges_of (t : nat -> option nat) (edges : list EdgeInfo) : Prop :=
  StronglySorted (fun d d' => (d < d')%nat) (m_dest <$> edges) /\
  (forall e n, e ∈ edges -> has (m_edgeMask e) n <-> t n = Some (m_dest e)) /\
  (forall n d, t n = Some d -> exists e, e ∈ edges /\ m_dest e = d) /\
  (forall e, e ∈ edges -> exists n, has (m_edgeMask e) n).

Lemma add_edge_dests d m edges : forall d', d' ∈ m_dest <$> add_edge d m edges <-> d' = d \/ d' ∈ m_dest <$> edges.
Proof.
  intros d'. induction edges as [|e edges IH]; simpl; [set_solver|]. destruct (d <? m_dest e)%nat; simpl; [set_solver|].
  destruct (Nat.eqb_spec d (m_dest e)) as [->|]; simpl; [set_solver|]. rewrite !elem_of_cons, IH. set_solver.
Qed.
Lemma add_edge_sorted d m edges : StronglySorted (fun d d' => (d < d')%nat) (m_dest <$> edges) ->
  StronglySorted (fun d d' => (d < d')%nat) (m_dest <$> add_edge d m edges).
Proof.
  induction edges as [|e edges IH]; simpl; intros H; [by repeat constructor|]. inversion H as [|? ? Hs Hall]; subst.
  destruct (Nat.ltb_spec d (m_dest e)) as [Hlt|Hge]; simpl.
  - constructor; [done|]. constructor; [done|]. eapply Forall_impl; [exact Hall|]. simpl. lia.
  - destruct (Nat.eqb_spec d (m_dest e)) as [->|Hne]; simpl; [done|]. constructor; [by apply IH|]. apply Forall_forall.
    intros d' [->|Hd']%add_edge_dests; [lia|]. by eapply Forall_forall in Hd'; [|exact Hall].
Qed.
Lemma dest_unique edges e e' : StronglySorted (fun d d' => (d < d')%nat) (m_dest <$> edges) -> e ∈ edges -> e' ∈ edges -> m_dest e = m_dest e' -> e = e'.
Proof.
  induction edges as [|e0 edges IH]; [set_solver|]. simpl. intros H. inversion H as [|? ? Hs Hall]; subst. intros He He' Hd.
  assert (Hgt : forall x, x ∈ edges -> (m_dest e0 < m_dest x)%nat).
  { intros x Hx. eapply (proj1 (Forall_forall _ _) Hall). by apply list_elem_of_fmap_2. }
  apply elem_of_cons in He as [->|He], He' as [->|He'].
  - done.
  - apply Hgt in He'. lia.
  - apply Hgt in He. lia.
  - auto.
Qed.
Lemma add_edge_elem d m edges e : StronglySorted (fun d d' => (d < d')%nat) (m_dest <$> edges) ->
  e ∈ add_edge d m edges -> (m_dest e <> d /\ e ∈ edges) \/
    (m_dest e = d /\ forall n, has (m_edgeMask e) n <-> has m n \/ exists e0, e0 ∈ edges /\ m_dest e0 = d /\ has (m_edgeMask e0) n).
Proof.
  induction edges as [|e0 edges IH]; simpl; intros H He.
  - apply list_elem_of_singleton in He as ->. right. split; [done|]. intros n. simpl. set_solver.
  - inversion H as [|? ? Hs Hall]; subst.
    assert (Hgt : forall x, x ∈ edges -> (m_dest e0 < m_dest x)%nat).
    { intros x Hx. eapply (proj1 (Forall_forall _ _) Hall). by apply list_elem_of_fmap_2. }
    destruct (Nat.ltb_spec d (m_dest e0)) as [Hlt|Hge].
    + apply elem_of_cons in He as [->|He].
      * right. split; [done|]. simpl. intros n. split; [by left|]. intros [?|(x & Hx & Hd & _)]; [done|].
        apply elem_of_cons in Hx as [->|Hx]; [lia|apply Hgt in Hx; lia].
      * left. split; [|done]. apply elem_of_cons in He as [->|He]; [lia|apply Hgt in He; lia].
    + destruct (Nat.eqb_spec d (m_dest e0)) as [->|Hne].
      * apply elem_of_cons in He as [->|He].
        -- right. split; [done|]. simpl. intros n. rewrite has_lor. split; [intros [?|?]; [right; exists e0; set_solver|by left]|].
           intros [?|(x & Hx & Hd & Hn)]; [by right|]. apply elem_of_cons in Hx as [->|Hx]; [by left|apply Hgt in Hx; lia].
        -- left. split; [apply Hgt in He; lia|set_solver].
      * apply elem_of_cons in He as [->|He]; [left; split; [lia|set_solver]|].
        destruct (IH Hs He) as [[H1 H2]|[H1 H2]]; [left; split; [done|set_solver]|]. right. split; [done|].
        intros n. rewrite H2. split; (intros [?|(x & Hx & Hd & Hn)]; [by left|right; exists x]); [set_solver|].
        apply elem_of_cons in Hx as [->|Hx]; [lia|done].
Qed.

Section edges.
Context (bottom : option Z) (items : list ItemTy).
Hypothesis Hok : items_ok bottom items.
#[local] Set Default Proof Using "Type*".
Notation M := (length items).
Notation mask_at := (mask_at items).
Notation least := (least items).

Lemma edgeMap_prefix i k : (i < M)%nat -> (k <= numBits)%nat ->
  edges_of (fun n => if decide (n < k)%nat then T items i n else None)
    (foldl (fun edges j => match T items i j with Some d => add_edge d (bit j) edges | None => edges end) [] (seq 0 k)).
Proof.
  intros Hi. induction k as [|k IH]; intros Hk.
  - split_and!; [constructor|intros e n He; by apply not_elem_of_nil in He| |intros e He; by apply not_elem_of_nil in He].
    intros n d. cbv beta. by rewrite decide_False by lia.
  - rewrite seq_S, foldl_app. simpl. destruct (IH ltac:(lia)) as (Hs & Hb & Hd & Hinh). clear IH. cbv beta in *.
    set (es := foldl _ [] (seq 0 k)) in *. destruct (T items i k) as [d|] eqn:HT.
    + split_and!; [by apply add_edge_sorted| | |]; cbv beta.
      * intros e n He. destruct (add_edge_elem _ _ _ _ Hs He) as [[Hne He0]|[Hde Hbits]].
        -- rewrite (Hb e n He0). destruct (decide (n < k)%nat); [by rewrite decide_True by lia|].
           destruct (decide (n = k)) as [->|]; [rewrite decide_True by lia; rewrite HT; naive_solver|by rewrite decide_False by lia].
        -- rewrite Hbits, has_bit. split.
           ++ intros [->|(e0 & He0 & Hd0 & Hn)]; [rewrite decide_True by lia; congruence|].
              apply (Hb e0 n He0) in Hn. destruct (decide (n < k)%nat); [|done]. rewrite decide_True by lia. congruence.
           ++ intros Hn. destruct (decide (n = k)) as [->|]; [by left|]. right.
              destruct (decide (n < S k)%nat); [|done]. assert (Hn' : (if decide (n < k)%nat then T items i n else None) = Some (m_dest e)) by (by rewrite decide_True by lia).
              destruct (Hd _ _ Hn') as (e0 & He0 & Hd0). exists e0. split_and!; [done|congruence|]. apply (Hb e0 n He0). congruence.
      * intros n d' Hn.
        assert (Hin : d' ∈ m_dest <$> add_edge d (bit k) es); [|apply list_elem_of_fmap in Hin as (e & -> & He); by exists e].
        apply add_edge_dests. destruct (decide (n = k)) as [->|]; [rewrite decide_True in Hn by lia; left; congruence|].
        right. destruct (decide (n < S k)%nat); [|done]. destruct (Hd n d') as (e & He & <-); [by rewrite decide_True by lia|]. by apply list_elem_of_fmap_2.
      * intros e He. destruct (add_edge_elem _ _ _ _ Hs He) as [[_ He0]|[_ Hbits]]; [by apply Hinh|]. exists k. apply Hbits. left. by apply has_bit.
    + split_and!; [done| | |done]; cbv beta.
      * intros e n He. rewrite (Hb e n He). destruct (decide (n < k)%nat); [by rewrite decide_True by lia|].
        destruct (decide (n = k)) as [->|]; [rewrite decide_True by lia; by rewrite HT|by rewrite decide_False by lia].
      * intros n d' Hn. apply (Hd n d'). destruct (decide (n < k)%nat); [by rewrite decide_True in Hn by lia|].
        destruct (decide (n = k)) as [->|]; [rewrite decide_True in Hn by lia; congruence|by rewrite decide_False in Hn by lia].
Qed.

Lemma edgeMap_bits i e n : (i < M)%nat -> e ∈ edgeMap items i -> has (m_edgeMask e) n <-> (n < numBits)%nat /\ T items i n = Some (m_dest e).
Proof.
  intros Hi He. destruct (edgeMap_prefix i numBits Hi (Nat.le_refl _)) as (_ & Hb & _). specialize (Hb e n He). cbv beta in Hb.
  rewrite Hb. destruct (decide (n < numBits)%nat); naive_solver.
Qed.
Lemma edgeMap_exists i n d : (i < M)%nat -> (n < numBits)%nat -> T items i n = Some d ->
  exists e, e ∈ edgeMap items i /\ m_dest e = d /\ has (m_edgeMask e) n.
Proof.
  intros Hi Hn Hd. destruct (edgeMap_prefix i numBits Hi (Nat.le_refl _)) as (_ & _ & Hex & _).
  destruct (Hex n d) as (e & He & <-); [cbv beta; by rewrite decide_True|]. exists e. split_and!; [done|done|]. by apply (edgeMap_bits i).
Qed.
Lemma edgeMap_inhabited i e : (i < M)%nat -> e ∈ edgeMap items i -> exists n, has (m_edgeMask e) n.
Proof. intros Hi He. destruct (edgeMap_prefix i numBits Hi (Nat.le_refl _)) as (_ & _ & _ & H). by apply H. Qed.
Lemma edgeMap_dest i e : (i < M)%nat -> e ∈ edgeMap items i -> (i < m_dest e < M)%nat /\ Sub (mask_at i) (mask_at (m_dest e)).
Proof.
  intros Hi He. destruct (edgeMap_inhabited i e Hi He) as [n Hn]. apply (edgeMap_bits i) in Hn as [Hn HT]; [|done|done].
  destruct (T_above bottom items Hok i n _ Hi Hn HT) as (? & ? & _). done.
Qed.

(** ** [traverseWithMasks] *)
(** A test of an item: the bits with one destination. *)
Definition test_of (i : nat) (m : Z) : Prop :=
  (exists n, has m n) /\ exists d, forall n, has m n <-> (n < numBits)%nat /\ T items i n = Some d.
Lemma edge_test i e : (i < M)%nat -> e ∈ edgeMap items i -> test_of i (m_edgeMask e).
Proof. intros Hi He. split; [by eapply edgeMap_inhabited|]. exists (m_dest e). intros n. by apply edgeMap_bits. Qed.

Lemma test_edge i k m e : (i < M)%nat -> (k < M)%nat -> Sub (mask_at i) (mask_at k) -> test_of i m -> e ∈ edgeMap items k ->
  subset_of m (m_edgeMask e) || disjoint_from m (m_edgeMask e) = true.
Proof.
  intros Hi Hk Hik (_ & d0 & Hm) He. destruct (disjoint_from m (m_edgeMask e)) eqn:E; [apply orb_true_r|]. rewrite orb_false_r.
  unfold disjoint_from in E. apply Z.eqb_neq, meets in E as (n & Hne & Hnm). apply subset_of_spec. intros n' Hn'.
  apply (edgeMap_bits k) in Hne as [Hn HT]; [|done|done]. apply Hm in Hnm as [_ H0]. apply Hm in Hn' as [Hlt' H0'].
  apply (edgeMap_bits k); [done|done|]. split; [done|]. by apply (T_together bottom items Hok i k n n' d0).
Qed.
Lemma not_straddling i k sel : (i < M)%nat -> (k < M)%nat -> Sub (mask_at i) (mask_at k) -> (forall m, m ∈ sel -> test_of i m) ->
  straddles (edgeMap items k) sel = false.
Proof.
  intros Hi Hk Hik Hsel. destruct (straddles _ _) eqn:E; [|done]. exfalso. unfold straddles in E.
  apply List.existsb_exists in E as (e & He & E). apply List.existsb_exists in E as (m & Hm & E).
  apply list_elem_of_In in He, Hm. rewrite (test_edge i k) in E; [done|done|done|done|by apply Hsel|done].
Qed.

Lemma traverse_ok i sel : (i < M)%nat -> (forall m, m ∈ sel -> test_of i m) ->
  forall fuel k, (k < M)%nat -> Sub (mask_at i) (mask_at k) -> (M - k < fuel)%nat ->
  exists k', traverseWithMasks items fuel k sel = Ok k' /\ (k <= k' < M)%nat /\ Sub (mask_at k) (mask_at k') /\
    (forall m, m ∈ sel -> Sub m (mask_at k')) /\
    (forall l, (l < M)%nat -> Sub (mask_at k) (mask_at l) -> (forall m, m ∈ sel -> exists n, has m n /\ has (mask_at l) n) ->
       Sub (mask_at k') (mask_at l)).
Proof.
  intros Hi Hsel. induction fuel as [|fuel IH]; intros k Hk Hik Hfuel; [lia|]. simpl. rewrite (not_straddling i k) by done.
  destruct (next_edge (edgeMap items k) sel) as [e|] eqn:E.
  - unfold next_edge in E. apply fmap_Some in E as ([j e'] & E & ->). simpl. apply list_find_Some in E as (He & Hex & _).
    apply list_elem_of_lookup_2 in He. apply List.existsb_exists in Hex as (m & Hm & Hsub). apply list_elem_of_In in Hm. apply subset_of_spec in Hsub.
    destruct (edgeMap_dest k e' Hk He) as [Hd Hkd]. destruct (IH (m_dest e')) as (k' & Hrun & Hle & Hs & Hall & Hmin); [lia|by etrans|lia|].
    exists k'. split_and!; [done|lia|lia|by etrans|done|]. intros l Hl Hkl Hmeet. apply Hmin; [done| |done].
    destruct (Hmeet m Hm) as (n & Hn & Hln). apply Hsub, (edgeMap_bits k) in Hn as [Hn HT]; [|done|done].
    by apply (T_step bottom items Hok k n (m_dest e') l).
  - assert (Hcov : forall m, m ∈ sel -> Sub m (mask_at k)).
    { intros m Hm n Hn. destruct (Hsel m Hm) as (_ & d0 & Hbits). destruct (Z.testbit (mask_at k) (Z.of_nat n)) eqn:Hb; [done|]. exfalso.
      assert (Hnb : (n < numBits)%nat) by exact (proj1 (proj1 (Hbits n) Hn)).
      destruct (T_some bottom items Hok k n Hk Hnb) as [d Hd]; [unfold has; congruence|].
      destruct (edgeMap_exists k n d Hk Hnb Hd) as (e & He & _ & Hen).
      unfold next_edge in E. apply fmap_None, list_find_None in E. apply Forall_forall with (x := e) in E; [|done]. apply E.
      apply List.existsb_exists. exists m. split; [by apply list_elem_of_In|].
      pose proof (test_edge i k m e Hi Hk Hik (Hsel m Hm) He) as H. apply orb_true_iff in H as [H|H]; [done|].
      exfalso. by apply (proj1 (disjoint_spec _ _) H n). }
    assert (Hb : forallb (fun m => subset_of m (mask_at k)) sel = true).
    { apply List.forallb_forall. intros m Hm%list_elem_of_In. by apply subset_of_spec, Hcov. }
    rewrite Hb. exists k. split_and!; [done|lia|lia|done|done|]. done.
Qed.
End edges.
