(* ===== verification/AutomataInv.v ===== *)
(** * Building an automaton

    The invariant of the nodes while [build_nodes] of [Automata.v] makes them: each node
    stands for an item, the edges it still has to test and the bits it knows to be zero,
    and an edge leads every mask that takes it towards the smallest item that covers it. *)
From S2P Require Import Prelude TypeMask Automata AutomataMasks.
From stdpp Require Import gmap sorting.
#[local] Set Default Proof Using "Type".

(** What a node stands for. *)
Record ghost : Type := mk_ghost { g_item : nat; g_edges : list EdgeInfo; g_zero : Z }.
Definition g_tests (g : ghost) : list Z := m_edgeMask <$> take x_maxTestMasks (g_edges g).

(** The number of the edge a mask takes. *)
Fixpoint hit_index (tests : list Z) (x : Z) : nat :=
  match tests with
  | [] => 0
  | t :: tests' => ((if (Z.land x t =? 0)%Z then 0 else 1) + 2 * hit_index tests' x)%nat
  end.

Lemma hit_index_bit tests x i : Nat.testbit (hit_index tests x) i = true <-> exists t, tests !! i = Some t /\ Z.land x t <> 0%Z.
Proof.
  revert i. induction tests as [|t tests IH]; intros i; cbn [hit_index].
  - rewrite Nat.bits_0. split; [done|]. by intros (t & Ht & _).
  - destruct i as [|i].
    + rewrite Nat.bit0_odd, Nat.odd_add_mul_2. destruct (Z.eqb_spec (Z.land x t) 0) as [Hz|Hz]; simpl.
      * split; [done|]. intros (t' & [= <-] & Hn). done.
      * split; [|done]. intros _. by exists t.
    + assert (Hs : Nat.testbit ((if (Z.land x t =? 0)%Z then 0 else 1) + 2 * hit_index tests x) (S i) = Nat.testbit (hit_index tests x) i).
      { destruct (Z.land x t =? 0)%Z; [rewrite Nat.add_0_l; by rewrite Nat.testbit_even_succ by lia|].
        rewrite Nat.add_comm. by rewrite Nat.testbit_odd_succ by lia. }
      simpl in *. rewrite Hs. apply IH.
Qed.
Lemma hit_index_lt tests x : (hit_index tests x < 2 ^ length tests)%nat.
Proof. induction tests as [|t tests IH]; simpl; [lia|]. destruct (Z.land x t =? 0)%Z; lia. Qed.
Lemma hit_index_zero tests x : hit_index tests x = 0%nat -> forall t, t ∈ tests -> Z.land x t = 0%Z.
Proof.
  induction tests as [|t tests IH]; cbn [hit_index]; intros H t' Ht'; [by apply not_elem_of_nil in Ht'|].
  destruct (Z.eqb_spec (Z.land x t) 0); [|lia]. apply elem_of_cons in Ht' as [->|Ht']; [done|]. apply IH; [lia|done].
Qed.

Lemma take_tests {A} (edges : list A) : take (Nat.min (length edges) x_maxTestMasks) edges = take x_maxTestMasks edges.
Proof.
  destruct (decide (length edges <= x_maxTestMasks)).
  - rewrite Nat.min_l by done. by rewrite !take_ge by lia.
  - by rewrite Nat.min_r by lia.
Qed.
Lemma selected_elem want tests ord m : m ∈ selected want tests ord <-> exists i, tests !! i = Some m /\ Nat.testbit ord i = want.
Proof.
  unfold selected. rewrite list_elem_of_In, List.in_concat. split.
  - intros (l & Hl & Hm). apply list_elem_of_In, elem_of_lookup_imap_1 in Hl as (i & x & -> & Hx).
    destruct (eqb (Nat.testbit ord i) want) eqn:E; [|done]. destruct Hm as [->|[]]. exists i. split; [done|]. by apply eqb_prop.
  - intros (i & Hi & Hb). exists [m]. split; [|by left]. apply list_elem_of_In, elem_of_lookup_imap. exists i, m. split; [|done].
    by rewrite (proj2 (eqb_true_iff _ _) Hb).
Qed.

Section build.
Context (bottom : option Z) (items : list ItemTy).
Hypothesis Hok : items_ok bottom items.
#[local] Set Default Proof Using "Type*".
Notation M := (length items).
Notation mask_at := (mask_at items).
Notation least := (least items).

(** The answer for [x] is item [i] or above, and the bits [zero] of [x] are. *)
Definition arrives (i : nat) (zero x : Z) : Prop :=
  Sub x topMask /\ (forall n, has x n -> has zero n -> False) /\ exists l, least x l /\ Sub (mask_at i) (mask_at l).
Definition leads (g : ghost) (k : nat) (i : nat) (zero : Z) : Prop :=
  forall x, arrives (g_item g) (g_zero g) x -> hit_index (g_tests g) x = k -> arrives i zero x.

Record ghost_ok (g : ghost) : Prop := {
  go_item : (g_item g < M)%nat;
  go_edges : forall e, e ∈ g_edges g -> e ∈ edgeMap items (g_item g);
  go_rest : forall n, (n < numBits)%nat -> ~ has (mask_at (g_item g)) n -> has (g_zero g) n \/ exists e, e ∈ g_edges g /\ has (m_edgeMask e) n
}.
Record node_is (n : NodeInfo) (g : ghost) : Prop := {
  ni_item : m_item n = (if decide (g_edges g = []) then topMask else mask_at (g_item g), value_at items (g_item g));
  ni_tests : m_testMasks n = g_tests g;
  ni_dests : length (m_dests n) = (2 ^ length (g_tests g))%nat
}.
Record nodes_ok (open : list nat) (gs : list ghost) (nodes : list NodeInfo) : Prop := {
  no_nodes : Forall2 node_is nodes gs;
  no_ghosts : Forall ghost_ok gs;
  no_dests : forall a n g k d, nodes !! a = Some n -> gs !! a = Some g -> m_dests n !! k = Some (Some d) ->
    (a < d)%nat /\ exists g', gs !! d = Some g' /\ leads g k (g_item g') (g_zero g');
  no_chain : forall a n g, nodes !! a = Some n -> gs !! a = Some g -> a ∉ open -> (x_maxTestMasks < length (g_edges g))%nat ->
    exists d, m_dests n !! 0%nat = Some (Some d)
}.
(** The node of an item that is done starts with all of its edges. *)
Definition mapped (known : list Z) (map : list (option nat)) (gs : list ghost) : Prop :=
  forall i d, map !! i = Some (Some d) -> exists g, gs !! d = Some g /\ g_item g = i /\ known !! i = Some (g_zero g).
Record gen_ok (open : list nat) (gs : list ghost) (s : GenState) : Prop := {
  gk_nodes : nodes_ok open gs (dfaNodes s);
  gk_known : length (knownZeroBitsForItem s) = M;
  gk_pending : forall p, p ∈ pendingEdges s -> exists g z, gs !! m_dfaNodeOrd p = Some g /\
    knownZeroBitsForItem s !! m_itemOrd p = Some z /\ leads g (m_edgeOrd p) (m_itemOrd p) z
}.

Lemma arrives_antitone i z z' x : Sub z' z -> arrives i z x -> arrives i z' x.
Proof. intros Hz (Ht & Hd & Hl). split_and!; [done|eauto|done]. Qed.
Lemma leads_antitone g k i z z' : Sub z' z -> leads g k i z -> leads g k i z'.
Proof. intros Hz Hl x Hx Hk. eapply arrives_antitone; [exact Hz|]. by apply Hl. Qed.

Lemma g_tests_of g t : ghost_ok g -> t ∈ g_tests g -> test_of items (g_item g) t.
Proof.
  intros Hg (e & -> & He)%list_elem_of_fmap. eapply edge_test; [exact Hok|apply (go_item _ Hg)|].
  apply (go_edges _ Hg). apply elem_of_take in He as (j & He & _). by eapply list_elem_of_lookup_2.
Qed.

(** An edge other than the first: to where [traverseWithMasks] ends. *)
Lemma traverse_leads g k : ghost_ok g -> (k <> 0)%nat -> (k < 2 ^ length (g_tests g))%nat ->
  exists next, traverseWithMasks items (S M) (g_item g) (selected true (g_tests g) k) = Ok next /\ (g_item g < next < M)%nat /\
    leads g k next (foldl Z.lor (g_zero g) (selected false (g_tests g) k)).
Proof.
  intros Hg Hk Hlt. pose proof (go_item _ Hg) as Hi.
  assert (Hsel : forall b m, m ∈ selected b (g_tests g) k -> test_of items (g_item g) m).
  { intros b m (i & Hm & _)%selected_elem. apply g_tests_of; [done|]. by eapply list_elem_of_lookup_2. }
  destruct (traverse_ok bottom items Hok (g_item g) _ Hi (Hsel true) (S M) (g_item g) Hi) as (next & Hrun & Hle & Hsub & Hcov & Hmin); [done|lia|].
  exists next. split; [done|]. split.
  - (* some test is selected, and it has a bit outside the item *)
    destruct (decide (g_item g = next)) as [He|]; [|lia]. exfalso.
    assert (Hb : exists i, Nat.testbit k i = true).
    { exists (Nat.log2 k). by apply Nat.bit_log2. }
    destruct Hb as [i Hb].
    destruct (lookup_lt_is_Some_2 (g_tests g) i) as [m Hm].
    { destruct (decide (i < length (g_tests g))%nat) as [|Hge]; [done|]. exfalso. rewrite Nat.bits_above_log2 in Hb; [done|].
      apply Nat.log2_lt_pow2; [lia|]. eapply Nat.lt_le_trans; [exact Hlt|]. apply Nat.pow_le_mono_r; lia. }
    assert (Hms : m ∈ selected true (g_tests g) k) by (apply selected_elem; eauto).
    destruct (Hsel true m Hms) as ((n & Hn) & d0 & Hbits). pose proof (Hcov m Hms n Hn) as Hc. rewrite <- He in Hc.
    destruct (proj1 (Hbits n) Hn) as [Hnb HT]. by destruct (T_least bottom items Hok _ _ _ Hi Hnb HT) as [? _].
  - intros x (Ht & Hz & l & Hl & Hil) Hidx. split_and!; [done| |exists l; split; [done|]].
    + intros n Hn [Hzn|(m & Hm & Hmn)]%has_foldl; [by eapply Hz|]. apply selected_elem in Hm as (i & Hm & Hb).
      assert (Hit : Nat.testbit (hit_index (g_tests g) x) i = true); [|congruence].
      apply hit_index_bit. exists m. split; [done|]. intros H0. by apply (proj1 (land_zero x m) H0 n).
    + destruct Hl as (HlM & Hxl & _). apply Hmin; [done|done|]. intros m (i & Hm & Hb)%selected_elem.
      rewrite <- Hidx in Hb. apply hit_index_bit in Hb as (t & Ht' & Hne). rewrite Hm in Ht'. injection Ht' as <-.
      apply meets in Hne as (n & Hxn & Hmn). exists n. split; [done|]. by apply Hxl.
Qed.

(** The first edge: to the node that tests the remaining edges. *)
Definition g_next (g : ghost) : ghost := mk_ghost (g_item g) (drop x_maxTestMasks (g_edges g)) (foldl Z.lor (g_zero g) (g_tests g)).
Lemma next_leads g : leads g 0 (g_item (g_next g)) (g_zero (g_next g)).
Proof.
  intros x (Ht & Hz & l & Hl & Hil) Hidx. simpl. split_and!; [done| |eauto].
  intros n Hn [Hzn|(m & Hm & Hmn)]%has_foldl; [by eapply Hz|]. by apply (proj1 (land_zero x m) (hit_index_zero _ _ Hidx m Hm) n).
Qed.
Lemma g_next_ok g : ghost_ok g -> ghost_ok (g_next g).
Proof.
  intros [Hi He Hr]. split; simpl; [done| |].
  - intros e He'. apply He. rewrite <- (take_drop x_maxTestMasks (g_edges g)). apply elem_of_app. by right.
  - intros n Hn Hnh. destruct (Hr n Hn Hnh) as [Hz|(e & Hein & Hen)]; [left; apply has_foldl; by left|].
    rewrite <- (take_drop x_maxTestMasks (g_edges g)) in Hein. apply elem_of_app in Hein as [Hein|Hein]; [|right; eauto].
    left. apply has_foldl. right. exists (m_edgeMask e). split; [by apply list_elem_of_fmap_2|done].
Qed.

(** ** Setting an edge *)
Lemma node_of_ghost open gs nodes a g : nodes_ok open gs nodes -> gs !! a = Some g -> exists n, nodes !! a = Some n /\ node_is n g.
Proof.
  intros Hn Hg. destruct (lookup_lt_is_Some_2 nodes a) as [n Ha].
  { rewrite (Forall2_length _ _ _ (no_nodes _ _ _ Hn)). by eapply lookup_lt_Some. }
  exists n. split; [done|]. by eapply (Forall2_lookup_lr _ _ _ _ _ _ (no_nodes _ _ _ Hn)).
Qed.
Lemma nodes_ok_set open open' gs nodes a n g k d g' : nodes_ok open gs nodes -> nodes !! a = Some n -> gs !! a = Some g ->
  m_dests n !! k = Some None -> (a < d)%nat -> gs !! d = Some g' -> leads g k (g_item g') (g_zero g') ->
  (forall b, b ∉ open' -> b ∉ open \/ (b = a /\ k = 0%nat)) ->
  nodes_ok open' gs (<[a := mk_node (m_item n) (m_testMasks n) (<[k := Some d]> (m_dests n))]> nodes).
Proof.
  intros Hn Ha Hg Hk Hlt Hd Hl Hopen. pose proof (lookup_lt_Some _ _ _ Hk) as Hkl. pose proof (lookup_lt_Some _ _ _ Ha) as Hal. split.
  - rewrite <- (list_insert_id gs a g) by done. apply Forall2_insert; [apply (no_nodes _ _ _ Hn)|].
    destruct (Forall2_lookup_lr _ _ _ _ _ _ (no_nodes _ _ _ Hn) Ha Hg) as [H1 H2 H3]. split; simpl; [done|done|]. by rewrite length_insert.
  - apply (no_ghosts _ _ _ Hn).
  - intros b nb gb kb db Hb Hgb Hdb. destruct (decide (b = a)) as [->|Hba].
    + rewrite list_lookup_insert_eq in Hb by done. injection Hb as <-. simpl in Hdb. assert (gb = g) as -> by congruence.
      destruct (decide (kb = k)) as [->|Hkk].
      * rewrite list_lookup_insert_eq in Hdb by done. injection Hdb as <-. eauto.
      * rewrite list_lookup_insert_ne in Hdb by done. by eapply (no_dests _ _ _ Hn).
    + rewrite list_lookup_insert_ne in Hb by done. by eapply (no_dests _ _ _ Hn).
  - intros b nb gb Hb Hgb Hnb Hlen. destruct (decide (b = a)) as [->|Hba].
    + rewrite list_lookup_insert_eq in Hb by done. injection Hb as <-. simpl.
      destruct (decide (k = 0%nat)) as [->|Hk0]; [rewrite list_lookup_insert_eq by done; eauto|].
      rewrite list_lookup_insert_ne by done. destruct (Hopen a Hnb) as [Ho|[_ ?]]; [|done]. by eapply (no_chain _ _ _ Hn).
    + rewrite list_lookup_insert_ne in Hb by done. destruct (Hopen b Hnb) as [Ho|[? _]]; [|done]. by eapply (no_chain _ _ _ Hn).
Qed.

Lemma gen_ok_nodes open open' gs s nodes : gen_ok open gs s -> nodes_ok open' gs nodes ->
  gen_ok open' gs (mk_gen nodes (pendingEdges s) (itemReachable s) (knownZeroBitsForItem s) (itemToNodeOrdMap s)).
Proof. intros [H1 H2 H3] Hn. by split. Qed.

Lemma addEdgeNow_ok open open' gs s a g k d g' : gen_ok open gs s -> gs !! a = Some g -> gs !! d = Some g' ->
  leads g k (g_item g') (g_zero g') -> (forall b, b ∉ open' -> b ∉ open \/ (b = a /\ k = 0%nat)) ->
  wp no_fuel_error (addEdgeNow a d k) (fun _ s' => gen_ok open' gs s' /\ knownZeroBitsForItem s' = knownZeroBitsForItem s /\
    itemToNodeOrdMap s' = itemToNodeOrdMap s /\ pendingEdges s' = pendingEdges s) s.
Proof.
  intros Hs Ha Hd Hl Hopen. unfold wp, addEdgeNow. destruct (negb _) eqn:Hlt; [done|]. apply negb_false_iff, andb_true_iff in Hlt as [_ Hlt%Nat.ltb_lt].
  destruct (node_of_ghost _ _ _ _ _ (gk_nodes _ _ _ Hs) Ha) as (n & Hn & _). rewrite Hn. unfold SetDest.
  destruct (m_dests n !! k) as [[|]|] eqn:Hk; [done| |done]. cbn [mbind result_bind]. split_and!; [|done|done|done].
  eapply gen_ok_nodes; [exact Hs|]. eapply nodes_ok_set; eauto using gk_nodes.
Qed.

(** ** The nodes of an item *)
(** The zero bits of the items only get fewer, and not those of the items up to [c]. *)
Definition later (c : nat) (s s' : GenState) : Prop :=
  itemToNodeOrdMap s' = itemToNodeOrdMap s /\
  forall i z, knownZeroBitsForItem s !! i = Some z -> exists z', knownZeroBitsForItem s' !! i = Some z' /\ Sub z' z /\ ((i <= c)%nat -> z' = z).
Lemma later_refl c s s' : knownZeroBitsForItem s' = knownZeroBitsForItem s -> itemToNodeOrdMap s' = itemToNodeOrdMap s -> later c s s'.
Proof. intros Hk Hm. split; [done|]. intros i z Hz. exists z. rewrite Hk. split_and!; [done|done|done]. Qed.
Lemma later_trans c s s' s'' : later c s s' -> later c s' s'' -> later c s s''.
Proof.
  intros [Hm H] [Hm' H']. split; [congruence|]. intros i z Hz. destruct (H i z Hz) as (z' & Hz' & Hsub & He).
  destruct (H' i z' Hz') as (z'' & Hz'' & Hsub' & He'). exists z''. split_and!; [done|by etrans|]. intros Hi. rewrite He', He; auto.
Qed.

Lemma reach_later {A} open gs s i k next a g (m : Prelude.M GenState A) Q : gen_ok open gs s -> gs !! a = Some g -> (i < next < M)%nat ->
  leads g k next (foldl Z.lor (g_zero g) (selected false (g_tests g) k)) ->
  (forall s', gen_ok open gs s' -> later i s s' -> wp no_fuel_error m Q s') ->
  wp no_fuel_error (addPendingEdge a next k ;; reach_item next (foldl Z.lor (g_zero g) (selected false (g_tests g) k)) ;; m) Q s.
Proof.
  intros Hs Ha Hi Hl Hm. set (zero := foldl Z.lor _ _) in *. unfold addPendingEdge, reach_item. do 4 (wp_step; simpl).
  assert (Hlater : forall j z, knownZeroBitsForItem s !! j = Some z -> exists z', alter (Z.land zero) next (knownZeroBitsForItem s) !! j = Some z' /\
    Sub z' z /\ ((j <= i)%nat -> z' = z)).
  { intros j z Hz. destruct (decide (j = next)) as [->|Hne].
    - exists (Z.land zero z). rewrite list_lookup_alter_eq, Hz. split_and!; [done| |lia]. intros n Hn. by apply has_land in Hn as [_ ?].
    - exists z. by rewrite list_lookup_alter_ne. }
  destruct (lookup_lt_is_Some_2 (knownZeroBitsForItem s) next) as [z0 Hz0]; [rewrite (gk_known _ _ _ Hs); lia|].
  apply Hm; [|split; [done|exact Hlater]].
  split; simpl.
  - apply (gk_nodes _ _ _ Hs).
  - by rewrite length_alter, (gk_known _ _ _ Hs).
  - intros p [Hp|Hp%list_elem_of_singleton]%elem_of_app.
    + destruct (gk_pending _ _ _ Hs p Hp) as (gp & zp & Hgp & Hzp & Hlp). destruct (Hlater _ _ Hzp) as (z' & Hz' & Hsub & _).
      exists gp, z'. split_and!; [done|done|by eapply leads_antitone].
    + subst p. simpl. exists g, (Z.land zero z0). rewrite list_lookup_alter_eq, Hz0. split_and!; [done|done|].
      eapply leads_antitone; [|exact Hl]. intros n Hn. by apply has_land in Hn as [? _].
Qed.

Lemma handle_masks_ok open gs a g ords : gs !! a = Some g -> ghost_ok g ->
  Forall (fun k => (k <> 0)%nat /\ (k < 2 ^ length (g_tests g))%nat) ords -> forall s, gen_ok open gs s ->
  wp no_fuel_error (handle_masks items a (g_item g) (g_tests g) (g_zero g) ords) (fun _ s' => gen_ok open gs s' /\ later (g_item g) s s') s.
Proof.
  intros Ha Hg. induction ords as [|k ords IH]; intros Hords s Hs; cbn [handle_masks].
  - apply wp_ret. split; [done|by apply later_refl].
  - inversion Hords as [|? ? [Hk Hlt] Hrest]; subst. destruct (traverse_leads g k Hg Hk Hlt) as (next & Hrun & Hnext & Hl).
    apply wp_bind, wp_lift_result. change (M_ items) with M. rewrite Hrun. eapply reach_later; [exact Hs|exact Ha|exact Hnext|exact Hl|].
    intros s' Hs' Hlater. eapply wp_mono; [by apply IH|]. simpl. intros _ s'' [Hs'' Hlater']. split; [done|by eapply later_trans].
Qed.

Definition extends (gs gs' : list ghost) : Prop := exists l, gs' = gs ++ l.
Lemma push_ok open gs s n g : gen_ok open gs s -> ghost_ok g -> node_is n g -> (forall k d, m_dests n !! k <> Some (Some d)) ->
  gen_ok (length gs :: open) (gs ++ [g]) (mk_gen (dfaNodes s ++ [n]) (pendingEdges s) (itemReachable s) (knownZeroBitsForItem s) (itemToNodeOrdMap s)).
Proof.
  intros [Hn Hk Hp] Hg Hng Hd. pose proof (Forall2_length _ _ _ (no_nodes _ _ _ Hn)) as Hlen. split; simpl; [|done|].
  - split.
    + apply Forall2_app; [apply (no_nodes _ _ _ Hn)|]. constructor; [done|constructor].
    + apply Forall_app. split; [apply (no_ghosts _ _ _ Hn)|]. constructor; [done|constructor].
    + intros a na ga k d [Ha|[-> ->]]%list_lookup_snoc_Some Hga Hdest.
      * apply list_lookup_snoc_Some in Hga as [Hga|[-> _]]; [|apply lookup_lt_Some in Ha; lia].
        destruct (no_dests _ _ _ Hn a na ga k d Ha Hga Hdest) as [Hlt (g' & Hg' & Hl)]. split; [done|]. exists g'.
        split; [by apply lookup_app_Some_l|done].
      * by apply Hd in Hdest.
    + intros a na ga [Ha|[-> ->]]%list_lookup_snoc_Some Hga Ho Hlt.
      * apply list_lookup_snoc_Some in Hga as [Hga|[-> _]]; [|apply lookup_lt_Some in Ha; lia].
        eapply (no_chain _ _ _ Hn); eauto. set_solver.
      * exfalso. apply Ho. rewrite Hlen. set_solver.
  - intros p Hpp. destruct (Hp p Hpp) as (gp & z & Hgp & Hz & Hl). exists gp, z. split_and!; [by apply lookup_app_Some_l|done|done].
Qed.

Lemma length_g_tests (g : ghost) : length (g_tests g) = Nat.min (length (g_edges g)) x_maxTestMasks.
Proof. unfold g_tests. rewrite length_fmap, length_take. lia. Qed.

Definition new_node (g : ghost) : NodeInfo :=
  mk_node (if (length (g_tests g) =? 0)%nat then topMask else mask_at (g_item g), value_at items (g_item g)) (g_tests g)
    (replicate (2 ^ length (g_tests g)) None).
Lemma new_node_is g : node_is (new_node g) g.
Proof.
  split; simpl; [|done|apply length_replicate]. f_equal. rewrite length_g_tests. destruct (g_edges g) as [|e es]; [done|].
  by rewrite decide_False by done.
Qed.
Lemma new_node_dests g k d : m_dests (new_node g) !! k <> Some (Some d).
Proof. intros [H _]%lookup_replicate. done. Qed.

Lemma handleEdges_ok : forall fuel g open gs s, ghost_ok g -> gen_ok open gs s -> (length (g_edges g) < fuel)%nat ->
  wp no_fuel_error (handleEdges items fuel (g_item g) (g_edges g) (g_zero g))
    (fun n s' => n = length gs /\ later (g_item g) s s' /\ exists gs', gen_ok open (gs ++ g :: gs') s') s.
Proof.
  induction fuel as [|fuel IH]; intros g open gs s Hg Hs Hfuel; [lia|]. cbn [handleEdges]. rewrite take_tests. fold (g_tests g).
  apply wp_bind. unfold push_node at 1. unfold wp at 1.
  pose proof (Forall2_length _ _ _ (no_nodes _ _ _ (gk_nodes _ _ _ Hs))) as Hlen. rewrite Hlen.
  rewrite <- (length_g_tests g). fold (new_node g).
  assert (Hs1 := push_ok open gs s (new_node g) g Hs Hg (new_node_is g) (new_node_dests g)).
  match type of Hs1 with gen_ok _ _ ?s1 => set (s1' := s1) in * end. assert (Hlater : later (g_item g) s s1') by (by apply later_refl).
  assert (Hlast : (gs ++ [g]) !! length gs = Some g) by (rewrite lookup_app_r by lia; by rewrite Nat.sub_diag).
  apply wp_bind. eapply wp_mono; [eapply (handle_masks_ok (length gs :: open) _ _ _ _ Hlast Hg); [|exact Hs1]|].
  { apply Forall_forall. intros k [? ?]%elem_of_seq. lia. }
  intros _ s2 [Hs2 Hlater2]. cbv beta. assert (Hl2 : later (g_item g) s s2) by exact (later_trans _ _ _ _ Hlater Hlater2). apply wp_bind.
  destruct (Nat.ltb_spec (length (g_tests g)) (length (g_edges g))) as [Hmore|Hdone]; unfold when.
  - rewrite length_g_tests in Hmore. replace (length (g_tests g)) with x_maxTestMasks by (rewrite length_g_tests; lia).
    apply wp_bind. eapply wp_mono; [apply (IH (g_next g) _ _ _ (g_next_ok g Hg) Hs2)|].
    { simpl. rewrite length_drop. unfold x_maxTestMasks in *. lia. }
    intros n s3 (-> & Hlater3 & gs' & Hs3). eapply wp_mono.
    { eapply (addEdgeNow_ok _ open _ _ (length gs) g 0 _ (g_next g)); [exact Hs3| | |apply next_leads|].
      - rewrite <- app_assoc. by apply list_lookup_middle.
      - by apply list_lookup_middle.
      - intros b Hb. destruct (decide (b = length gs)); [by right|left; set_solver]. }
    intros _ s4 (Hs4 & Hk & Hm & _). apply wp_ret. split_and!; [done| |].
    + eapply later_trans; [exact Hl2|]. eapply later_trans; [exact Hlater3|]. by apply later_refl.
    + exists (g_next g :: gs'). by rewrite <- app_assoc in Hs4.
  - apply wp_ret. apply wp_ret. split_and!; [done|done|]. exists []. destruct Hs2 as [Hn Hk Hp]. split; [|done|done].
    destruct Hn as [H1 H2 H3 H4]. split; [done|done|done|]. intros a n ga Ha Hga Ho Hlt. eapply H4; eauto. intros [->|]%elem_of_cons; [|done].
    assert (ga = g) as -> by congruence. rewrite length_g_tests in Hdone. lia.
Qed.

(** ** All the items *)
(** The edges of an item that are not known to miss. *)
Definition item_ghost (i : nat) (zero : Z) : ghost :=
  mk_ghost i (filter (fun e => subset_of (m_edgeMask e) zero = false) (edgeMap items i)) zero.
Lemma item_ghost_ok i zero : (i < M)%nat -> ghost_ok (item_ghost i zero).
Proof.
  intros Hi. split; simpl; [done| |].
  - intros e [_ He]%list_elem_of_filter. done.
  - intros n Hn Hh. destruct (T_some bottom items Hok i n Hi Hn Hh) as [d Hd].
    destruct (edgeMap_exists bottom items Hok i n d Hi Hn Hd) as (e & He & _ & Hen). destruct (subset_of (m_edgeMask e) zero) eqn:Hs.
    + left. by apply (proj1 (subset_of_spec _ _) Hs).
    + right. exists e. split; [|done]. by apply list_elem_of_filter.
Qed.

(** The zero bits only get fewer. *)
Definition fewer (s s' : GenState) : Prop :=
  forall j z, knownZeroBitsForItem s !! j = Some z -> exists z', knownZeroBitsForItem s' !! j = Some z' /\ Sub z' z.
Lemma fewer_trans s s' s'' : fewer s s' -> fewer s' s'' -> fewer s s''.
Proof.
  intros H H' j z Hz. destruct (H j z Hz) as (z' & Hz' & Hs). destruct (H' j z' Hz') as (z'' & Hz'' & Hs'). exists z''.
  split; [done|by etrans].
Qed.
Lemma later_fewer c s s' : later c s s' -> fewer s s'.
Proof. intros [_ H] j z Hz. destruct (H j z Hz) as (z' & ? & ? & _). eauto. Qed.

Record items_done (i : nat) (gs : list ghost) (s : GenState) : Prop := {
  id_gen : gen_ok [] gs s;
  id_mapped : mapped (knownZeroBitsForItem s) (itemToNodeOrdMap s) gs;
  id_length : length (itemToNodeOrdMap s) = i
}.
Lemma map_item_ok i gs gs' s s' node : items_done i gs s -> gen_ok [] (gs ++ gs') s' -> later i s s' ->
  (forall d, node = Some d -> exists g, (gs ++ gs') !! d = Some g /\ g_item g = i /\ knownZeroBitsForItem s' !! i = Some (g_zero g)) ->
  items_done (S i) (gs ++ gs') (mk_gen (dfaNodes s') (pendingEdges s') (itemReachable s') (knownZeroBitsForItem s') (itemToNodeOrdMap s' ++ [node])).
Proof.
  intros [Hg Hm Hl] [Hn Hk Hp] [Hmap Hlater] Hnode. split; simpl.
  - split; [done|done|done].
  - rewrite Hmap. intros j d [Hj|[-> Hd]]%list_lookup_snoc_Some.
    + destruct (Hm j d Hj) as (g & Hgd & Hgi & Hgz). exists g. split_and!; [by apply lookup_app_Some_l|done|].
      destruct (Hlater j _ Hgz) as (z' & Hz' & _ & He). rewrite He in Hz'; [done|]. apply lookup_lt_Some in Hj. lia.
    + rewrite Hl. by apply Hnode.
  - rewrite length_app, Hmap, Hl. simpl. lia.
Qed.

Lemma handle_item_ok i gs s : items_done i gs s -> (i < M)%nat ->
  wp no_fuel_error (handle_item items i) (fun _ s' => fewer s s' /\ exists gs', items_done (S i) (gs ++ gs') s' /\
    (itemReachable s !! i = Some true -> forall z, knownZeroBitsForItem s !! i = Some z -> exists gs'', gs' = item_ghost i z :: gs'')) s.
Proof.
  intros Hs Hi. unfold handle_item. apply wp_bind, wp_get. cbv beta.
  destruct (lookup_lt_is_Some_2 (knownZeroBitsForItem s) i) as [z Hz]; [by rewrite (gk_known _ _ _ (id_gen _ _ _ Hs))|]. rewrite Hz.
  assert (Hskip : itemReachable s !! i <> Some true -> wp no_fuel_error (map_item None) (fun _ s' => fewer s s' /\ exists gs', items_done (S i) (gs ++ gs') s' /\
    (itemReachable s !! i = Some true -> forall z', Some z = Some z' -> exists gs'', gs' = item_ghost i z' :: gs'')) s).
  { intros Hne. unfold map_item. apply wp_modify. split.
    - intros j z' Hj. by exists z'.
    - exists []. split; [|done]. apply (map_item_ok i gs [] s s None Hs); [by rewrite app_nil_r; apply (id_gen _ _ _ Hs)|by apply later_refl|done]. }
  destruct (itemReachable s !! i) as [[]|]; [clear Hskip|by apply Hskip|by apply Hskip].
  cbv zeta. apply wp_bind. eapply wp_mono; [apply (handleEdges_ok _ (item_ghost i z) [] gs s)|].
  - by apply item_ghost_ok.
  - apply (id_gen _ _ _ Hs).
  - simpl. lia.
  - intros n s' (-> & Hlater & gs' & Hs'). unfold map_item. apply wp_modify. split; [by eapply later_fewer in Hlater|].
    exists (item_ghost i z :: gs'). split; [|intros _ z' [= <-]; by exists gs'].
    apply (map_item_ok i gs _ s s' _ Hs Hs' Hlater). intros d [= <-]. exists (item_ghost i z). split_and!; [by apply list_lookup_middle|done|].
    destruct Hlater as [_ Hlater]. destruct (Hlater i z Hz) as (z' & Hz' & _ & He). rewrite He in Hz' by (simpl; lia). done.
Qed.

Lemma handle_items_ok k : forall i gs s, items_done i gs s -> (i + k <= M)%nat ->
  wp no_fuel_error (handle_items items (seq i k)) (fun _ s' => fewer s s' /\ exists gs', items_done (i + k) (gs ++ gs') s' /\
    ((0 < k)%nat -> itemReachable s !! i = Some true -> forall z, knownZeroBitsForItem s !! i = Some z -> exists gs'', gs' = item_ghost i z :: gs'')) s.
Proof.
  induction k as [|k IH]; intros i gs s Hs Hik; cbn [seq handle_items].
  - apply wp_ret. split; [by intros j z Hj; exists z|]. exists []. rewrite Nat.add_0_r, app_nil_r. split; [done|lia].
  - apply wp_bind. eapply wp_mono; [apply (handle_item_ok i gs s Hs); lia|]. intros _ s1 (Hf1 & gs1 & Hs1 & Hfirst).
    eapply wp_mono; [apply (IH (S i) (gs ++ gs1) s1 Hs1); lia|]. intros _ s2 (Hf2 & gs2 & Hs2 & _). split; [by eapply fewer_trans|].
    exists (gs1 ++ gs2). rewrite app_assoc. replace (i + S k)%nat with (S i + k)%nat by lia. split; [done|].
    intros _ Hr z Hz. destruct (Hfirst Hr z Hz) as [gs'' ->]. by eexists.
Qed.

(** ** The edges between items *)
Lemma patch_edges_ok gs map : forall edges s, items_done (length map) gs s -> itemToNodeOrdMap s = map -> (forall p, p ∈ edges -> p ∈ pendingEdges s) ->
  wp no_fuel_error (patch_edges edges) (fun _ s' => items_done (length map) gs s' /\ itemToNodeOrdMap s' = map /\ knownZeroBitsForItem s' = knownZeroBitsForItem s) s.
Proof.
  induction edges as [|p edges IH]; intros s Hs Hmap Hp; cbn [patch_edges]; [by apply wp_ret|].
  apply wp_bind, wp_get. cbv beta. apply wp_bind. destruct (itemToNodeOrdMap s !! m_itemOrd p) as [[d|]|] eqn:Hd; [|by apply wp_fail|by apply wp_fail].
  destruct (gk_pending _ _ _ (id_gen _ _ _ Hs) p) as (g & z & Hg & Hz & Hl); [apply Hp; set_solver|].
  destruct (id_mapped _ _ _ Hs _ _ Hd) as (g' & Hg' & Hi & Hz'). assert (z = g_zero g') as -> by congruence. rewrite <- Hi in Hl.
  eapply wp_mono; [eapply (addEdgeNow_ok [] [] gs s _ g _ d g'); [apply (id_gen _ _ _ Hs)|done|done|done|by left]|].
  intros _ s' (Hs' & Hk & Hm & Hpend). eapply wp_mono; [apply (IH s'); [|congruence|]|].
  - split; [done| |congruence]. rewrite Hk, Hm. apply (id_mapped _ _ _ Hs).
  - intros q Hq. rewrite Hpend. apply Hp. set_solver.
  - simpl. intros _ s'' (H1 & H2 & H3). split_and!; [done|done|congruence].
Qed.

(** ** The start *)
Lemma gen_start_ok : items_done 0 [] (gen_start items).
Proof.
  split; [split| |]; simpl.
  - split; [constructor|constructor| |]; intros a n g; [intros k d|]; by intros H.
  - by rewrite length_replicate.
  - intros p Hp. by apply not_elem_of_nil in Hp.
  - intros i d H. done.
  - done.
Qed.
Lemma start_item_ok ord s : items_done 0 [] s -> (ord < M)%nat ->
  wp no_fuel_error (start_item ord) (fun _ s' => items_done 0 [] s' /\ fewer s s' /\ itemReachable s' = <[ord := true]> (itemReachable s) /\
    knownZeroBitsForItem s' !! ord = Some 0%Z) s.
Proof.
  intros [[Hn Hk Hp] Hm Hl] Ho. unfold start_item. apply wp_modify. split_and!; simpl.
  - split; [split|..]; simpl; [done|by rewrite length_insert| |by destruct (itemToNodeOrdMap s)|done].
    intros p (g & z & Hg & _)%Hp. done.
  - intros j z Hz. simpl. destruct (decide (j = ord)) as [->|Hne].
    + exists 0%Z. rewrite list_lookup_insert_eq by (by rewrite Hk). split; [done|]. intros n Hh. unfold has in Hh. by rewrite Z.bits_0 in Hh.
    + exists z. by rewrite list_lookup_insert_ne.
  - done.
  - by rewrite list_lookup_insert_eq by (by rewrite Hk).
Qed.
Lemma fewer_zero s s' i : fewer s s' -> knownZeroBitsForItem s !! i = Some 0%Z -> knownZeroBitsForItem s' !! i = Some 0%Z.
Proof.
  intros H Hi. destruct (H i _ Hi) as (z' & Hz' & Hs). rewrite Hz'. f_equal. apply Sub_antisym; [done|]. intros n Hn.
  unfold has in Hn. by rewrite Z.bits_0 in Hn.
Qed.
Definition leaves_start (b : Z) (bits : list nat) (s : GenState) : Prop :=
  forall j ord, j ∈ bits -> ~ has b j -> findMinOverapprox items (Z.lor b (bit j)) = Some ord -> knownZeroBitsForItem s !! ord = Some 0%Z.
Lemma findMinOverapprox_lt x i : findMinOverapprox items x = Some i -> (i < M)%nat.
Proof. intros H. unfold findMinOverapprox in H. apply fmap_Some in H as ([j it] & H & ->). apply list_find_Some in H as [H _]. by apply lookup_lt_Some in H. Qed.
Lemma start_leaves_ok b : forall bits s, items_done 0 [] s ->
  wp no_fuel_error (start_leaves items b bits) (fun _ s' => items_done 0 [] s' /\ fewer s s' /\ leaves_start b bits s') s.
Proof.
  induction bits as [|j bits IH]; intros s Hs; cbn [start_leaves].
  - apply wp_ret. split_and!; [done|by intros i z Hi; exists z|]. intros j ord Hj. by apply not_elem_of_nil in Hj.
  - apply wp_bind. unfold when. apply wp_if; intros Hb.
    + destruct (findMinOverapprox items (Z.lor b (bit j))) as [ord|] eqn:E; [|by apply wp_fail].
      eapply wp_mono; [apply (start_item_ok ord s Hs), (findMinOverapprox_lt _ _ E)|]. intros _ s1 (Hs1 & Hf1 & _ & Hz).
      eapply wp_mono; [apply (IH s1 Hs1)|]. intros _ s2 (Hs2 & Hf2 & Hl). split_and!; [done|by eapply fewer_trans|].
      intros j' ord' [->|Hj']%elem_of_cons Hn Ho; [|by apply (Hl j')]. assert (ord' = ord) as -> by congruence. by apply (fewer_zero s1).
    + apply wp_ret. eapply wp_mono; [apply (IH s Hs)|]. intros _ s2 (Hs2 & Hf2 & Hl). split_and!; [done|done|].
      intros j' ord' [->|Hj']%elem_of_cons Hn Ho; [|by apply (Hl j')]. exfalso. apply land_bit in Hn. congruence.
Qed.

(** What [build_nodes] makes. *)
Record built (b : option ItemTy) (gs : list ghost) (s : GenState) : Prop := {
  bu_done : items_done M gs s;
  bu_nodes : Forall (fun n => node_ok n = true) (dfaNodes s);
  bu_first : b = None -> exists g, gs !! 0%nat = Some g /\ g_item g = 0%nat /\ g_zero g = 0%Z;
  bu_leaves : forall it, b = Some it -> leaves_start it.1 (seq 0 numBits) s
}.
Lemma build_nodes_ok b : wp no_fuel_error (build_nodes items b) (fun _ s => exists gs, built b gs s) (gen_start items).
Proof.
  unfold build_nodes. wp_step. wp_step. apply wp_bind.
  eapply (wp_mono _ _ (fun _ s => items_done 0 [] s /\ (b = None -> (0 < M)%nat /\ itemReachable s !! 0%nat = Some true /\ knownZeroBitsForItem s !! 0%nat = Some 0%Z) /\
    forall it, b = Some it -> leaves_start it.1 (seq 0 numBits) s)).
  { destruct b as [it|].
    - eapply wp_mono; [apply start_leaves_ok, gen_start_ok|]. intros _ s (Hs & _ & Hl). split_and!; [done|done|]. by intros ? [= <-].
    - wp_step. wp_step. change (M_ items) with M in *. eapply wp_mono; [apply (start_item_ok 0 _ gen_start_ok); by apply Nat.ltb_lt|].
      intros _ s (Hs & _ & Hr & Hz). split_and!; [done| |done]. intros _. split_and!; [by apply Nat.ltb_lt| |done].
      rewrite Hr. simpl. apply list_lookup_insert_eq. rewrite length_replicate. by apply Nat.ltb_lt. }
  intros _ s1 (Hs1 & Hfirst & Hleaves). apply wp_bind. eapply wp_mono; [apply (handle_items_ok M 0 [] s1 Hs1); lia|].
  intros _ s2 (Hf & gs & Hs2 & Hgs). simpl in Hs2. apply wp_bind, wp_get. cbv beta. apply wp_bind.
  assert (Hlen : length (itemToNodeOrdMap s2) = M) by apply (id_length _ _ _ Hs2).
  eapply wp_mono; [apply (patch_edges_ok gs (itemToNodeOrdMap s2)); [by rewrite Hlen|done|done]|].
  intros _ s3 (Hs3 & Hm & Hk). rewrite Hlen in Hs3. apply wp_bind, wp_get. cbv beta. wp_step. exists gs. split; [done| | |].
  - apply Forall_forall. intros n Hn. match goal with Hall : forallb node_ok _ = true |- _ => apply (proj1 (List.forallb_forall _ _) Hall n) end. by apply list_elem_of_In.
  - intros Hb. destruct (Hfirst Hb) as (HM & Hr & Hz). destruct (Hgs HM Hr _ Hz) as [gs'' ->]. by exists (item_ghost 0 0).
  - intros it Hb j ord Hj Hn Ho. rewrite Hk. apply (fewer_zero s1); [done|]. by apply (Hleaves it Hb j).
Qed.

(** ** A step *)
Lemma outside_bit x m : Sub x topMask -> Z.land x (Z.lxor topMask m) <> 0%Z -> exists n, has x n /\ ~ has m n.
Proof.
  intros Ht H. apply meets in H as (n & Hx & Hn). exists n. split; [done|]. intros Hm. unfold has in *.
  rewrite Z.lxor_spec, Hm in Hn. specialize (Ht n Hx). unfold has in Ht. by rewrite Ht in Hn.
Qed.
Lemma inside_bits x m : Sub x topMask -> Z.land x (Z.lxor topMask m) = 0%Z -> Sub x m.
Proof.
  intros Ht H n Hn. pose proof (proj1 (land_zero _ _) H n Hn) as Hc. unfold has in *. rewrite Z.lxor_spec, (Ht n Hn : Z.testbit _ _ = true) in Hc.
  destruct (Z.testbit m (Z.of_nat n)); [done|]. by destruct Hc.
Qed.
Lemma arrives_least g x : ghost_ok g -> arrives (g_item g) (g_zero g) x -> Sub x (mask_at (g_item g)) -> least x (g_item g).
Proof.
  intros Hg (Ht & _ & l & (Hl & Hxl & Hmin) & Hgl) Hx. assert (l = g_item g) as <-; [|done].
  apply (mask_inj bottom items Hok); [done|apply (go_item _ Hg)|]. apply Sub_antisym; [apply Hmin; [apply (go_item _ Hg)|done]|done].
Qed.
(** A mask that takes no edge of the last node of an item is covered by it. *)
Lemma last_covers g x : ghost_ok g -> arrives (g_item g) (g_zero g) x -> (length (g_edges g) <= x_maxTestMasks)%nat -> hit_index (g_tests g) x = 0%nat ->
  Sub x (mask_at (g_item g)).
Proof.
  intros Hg (Ht & Hz & _) Hlen Hidx n Hn. destruct (Z.testbit (mask_at (g_item g)) (Z.of_nat n)) eqn:Hb; [done|]. exfalso.
  destruct (go_rest _ Hg n) as [Hzn|(e & He & Hen)]; [by apply topMask_bits, Ht|unfold has; congruence|by eapply Hz|].
  assert (Ht' : m_edgeMask e ∈ g_tests g) by (unfold g_tests; rewrite take_ge by done; by apply list_elem_of_fmap_2).
  by apply (proj1 (land_zero _ _) (hit_index_zero _ _ Hidx _ Ht') n).
Qed.

Lemma node_step b gs s a n g x : built b gs s -> gs !! a = Some g -> dfaNodes s !! a = Some n -> arrives (g_item g) (g_zero g) x ->
  (Z.land x (Z.lxor topMask (m_item n).1) = 0%Z -> exists l, least x l /\ (m_item n).2 = value_at items l) /\
  (Z.land x (Z.lxor topMask (m_item n).1) <> 0%Z -> exists d g', m_dests n !! hit_index (m_testMasks n) x = Some (Some d) /\ (a < d)%nat /\
     gs !! d = Some g' /\ arrives (g_item g') (g_zero g') x).
Proof.
  intros Hb Hg Hn Hx. pose proof (gk_nodes _ _ _ (id_gen _ _ _ (bu_done _ _ _ Hb))) as Hno.
  destruct (Forall2_lookup_lr _ _ _ _ _ _ (no_nodes _ _ _ Hno) Hn Hg) as [Hitem Htests Hdests].
  pose proof (Forall_lookup_1 _ _ _ _ (no_ghosts _ _ _ Hno) Hg) as Hgok. pose proof Hx as (Htop & _). rewrite Hitem. simpl. split.
  - intros Hc%inside_bits; [|done]. exists (g_item g). split; [|done]. apply arrives_least; [done|done|].
    destruct (decide (g_edges g = [])) as [He|_]; [|done]. apply last_covers; [done|done|by rewrite He; simpl; lia|]. unfold g_tests. by rewrite He.
  - intros (m & Hxm & Hm)%outside_bit; [|done]. rewrite Htests.
    assert (Hd : exists d, m_dests n !! hit_index (g_tests g) x = Some (Some d)).
    { destruct (decide (hit_index (g_tests g) x = 0%nat)) as [H0|H0].
      - rewrite H0. eapply (no_chain _ _ _ Hno); [done|done|set_solver|].
        destruct (decide (x_maxTestMasks < length (g_edges g))%nat) as [|Hge]; [done|]. exfalso.
        pose proof (last_covers g x Hgok Hx ltac:(lia) H0 m Hxm) as Hc. destruct (decide (g_edges g = [])); [by apply Hm, Htop|by apply Hm].
      - pose proof (Forall_lookup_1 _ _ _ _ (bu_nodes _ _ _ Hb) Hn) as Hok'. unfold node_ok in Hok'. apply andb_true_iff in Hok' as [_ Hall].
        destruct (lookup_lt_is_Some_2 (m_dests n) (hit_index (g_tests g) x)) as [d Hd]; [rewrite Hdests; apply hit_index_lt|].
        assert (Hin : d ∈ drop 1 (m_dests n)).
        { apply list_elem_of_lookup. exists (hit_index (g_tests g) x - 1)%nat. rewrite lookup_drop.
          replace (1 + (hit_index (g_tests g) x - 1))%nat with (hit_index (g_tests g) x) by lia. done. }
        apply list_elem_of_In in Hin. pose proof (proj1 (List.forallb_forall _ _) Hall d Hin) as [d' ->]%bool_decide_eq_true. by exists d'. }
    destruct Hd as [d Hd]. destruct (no_dests _ _ _ Hno a n g _ d Hn Hg Hd) as [Hlt (g' & Hg' & Hl)]. exists d, g'. split_and!; [done|done|done|].
    by apply Hl.
Qed.
End build.
