(* ===== verification/AutomataTable.v ===== *)
(** * The table of an automaton

    The bytes [Populate] of [Automata.v] writes can be read back, and [Run] follows the
    nodes they stand for to the value of the smallest item that covers its mask. *)
From S2P Require Import Prelude TypeMask Automata AutomataMasks AutomataInv.
From stdpp Require Import gmap sorting.
#[local] Open Scope Z_scope.
#[local] Set Default Proof Using "Type".

(** ** Reading bytes back *)
Definition reads (rs : list Z) (a : nat) (bs : list Z) : Prop := forall i b, bs !! i = Some b -> rs !! (a + i)%nat = Some b.
Lemma reads_app rs a bs bs' : reads rs a (bs ++ bs') <-> reads rs a bs /\ reads rs (a + length bs) bs'.
Proof.
  split.
  - intros H. split; intros i b Hi; [by apply H, lookup_app_Some_l|]. rewrite <- Nat.add_assoc. apply H.
    rewrite lookup_app_r by lia. by replace (length bs + i - length bs)%nat with i by lia.
  - intros [H H'] i b [Hi|[Hge Hi]]%lookup_app_Some; [by apply H|]. apply H' in Hi. by replace (a + length bs + (i - length bs))%nat with (a + i)%nat in Hi by lia.
Qed.
Lemma reads_cons rs a b bs : reads rs a (b :: bs) <-> rs !! a = Some b /\ reads rs (a + 1) bs.
Proof.
  change (b :: bs) with ([b] ++ bs). rewrite reads_app. simpl. split; intros [H H']; (split; [|done]).
  - rewrite <- (Nat.add_0_r a). by apply H.
  - intros [|i] b' Hi; [|done]. injection Hi as <-. by rewrite Nat.add_0_r.
Qed.
Lemma read_u8 rs a b bs : reads rs a (b :: bs) -> load_u8 rs a = Ok b.
Proof. intros [H _]%reads_cons. unfold load_u8. by rewrite H. Qed.
Lemma read_u16 rs a v bs : 0 <= v < 65536 -> reads rs a (u16_bytes v ++ bs) -> load_u16 rs a = Ok v.
Proof.
  intros Hv H. apply reads_app in H as [H _]. unfold u16_bytes in H. pose proof (read_u8 _ _ _ _ H) as H0. apply reads_cons in H as [_ H].
  apply read_u8 in H. unfold load_u16. rewrite H0. cbn [mbind result_bind]. rewrite H. cbn [mbind result_bind]. f_equal.
  rewrite (Z.mod_small (v / 256)) by (split; [apply Z.div_pos; lia|apply Z.div_lt_upper_bound; lia]). pose proof (Z.div_mod v 256). lia.
Qed.
Lemma u32_split v : u32_bytes v = u16_bytes (v `mod` 65536) ++ u16_bytes (v / 65536).
Proof.
  assert (Hm : v `mod` 65536 = v `mod` 256 + (v / 256) `mod` 256 * 256).
  { change 65536 with (256 * 256). rewrite Z.rem_mul_r by lia. lia. }
  pose proof (Z.mod_pos_bound v 256).
  assert (H0 : (v `mod` 65536) `mod` 256 = v `mod` 256) by (by rewrite Hm, Z_mod_plus_full, Z.mod_mod by lia).
  assert (H1 : (v `mod` 65536 / 256) `mod` 256 = (v / 256) `mod` 256).
  { rewrite Hm, Z.div_add, (Z.div_small (v `mod` 256)), Z.add_0_l, Z.mod_mod by lia. done. }
  unfold u32_bytes, u16_bytes. simpl. by rewrite H0, H1, Z.div_div by lia.
Qed.
Lemma read_u32 rs a v bs : 0 <= v < 4294967296 -> reads rs a (u32_bytes v ++ bs) -> load_u32 rs a = Ok v.
Proof.
  intros Hv. rewrite u32_split, <- app_assoc. intros H. unfold load_u32. rewrite (read_u16 _ _ _ _ (Z.mod_pos_bound v 65536 ltac:(lia)) H).
  cbn [mbind result_bind]. apply reads_app in H as [_ H]. simpl in H.
  rewrite (read_u16 rs (a + 2) (v / 65536) bs) by first [done|split; [apply Z.div_pos; lia|apply Z.div_lt_upper_bound; lia]].
  cbn [mbind result_bind]. f_equal. pose proof (Z.div_mod v 65536). lia.
Qed.

Lemma store_inv a bs rs rs' : store a bs rs = Ok rs' ->
  length rs' = length rs /\ reads rs' a bs /\ forall j, (j < a \/ a + length bs <= j)%nat -> rs' !! j = rs !! j.
Proof.
  unfold store. destruct (Nat.leb_spec (a + length bs) (length rs)) as [Hle|]; [|done]. intros [= <-]. split_and!.
  - apply length_inserts.
  - intros i b Hi. pose proof (lookup_lt_Some _ _ _ Hi). rewrite list_lookup_inserts by lia. by replace (a + i - a)%nat with i by lia.
  - intros j [Hj|Hj]; [by apply list_lookup_inserts_lt|by apply list_lookup_inserts_ge].
Qed.

(** ** The layout *)
Lemma all_dests_inv offsets cur : forall ds bs, all_dests offsets cur ds = Ok bs -> length bs = (2 * length ds)%nat /\
  forall k d, ds !! k = Some d -> exists b, dest_bytes offsets cur d = Ok b /\ forall rs a, reads rs a bs -> reads rs (a + 2 * k) b.
Proof.
  induction ds as [|d0 ds IH]; intros bs H; cbn [all_dests] in H; [by injection H as <-|].
  destruct (dest_bytes offsets cur d0) as [b0|] eqn:E0; [|done]. cbn [mbind result_bind] in H.
  destruct (all_dests offsets cur ds) as [bs0|] eqn:E; [|done]. cbn [mbind result_bind] in H. injection H as <-.
  assert (Hb0 : length b0 = 2%nat).
  { unfold dest_bytes in E0. destruct d0 as [k|]; [|by injection E0 as <-]. destruct (offsets !! k) as [o|]; [|done].
    destruct (negb _); [done|]. destruct (65534 <? _)%nat; [done|]. by injection E0 as <-. }
  destruct (IH _ eq_refl) as [Hl Hk]. split; [rewrite length_app, Hl, Hb0; simpl; lia|].
  intros [|k] d Hd; simpl in Hd.
  - injection Hd as ->. exists b0. split; [done|]. intros rs a Hr. rewrite Nat.mul_0_r, Nat.add_0_r. by apply reads_app in Hr as [? _].
  - destruct (Hk k d Hd) as (b & Hb & Hr). exists b. split; [done|]. intros rs a H. apply reads_app in H as [_ H]. rewrite Hb0 in H.
    apply Hr in H. by replace (a + 2 * S k)%nat with (a + 2 + 2 * k)%nat by lia.
Qed.

Definition test_bytes (tests : list Z) : list Z := concat (u32_bytes <$> tests ++ replicate (x_maxTestMasks - length tests) 0).
Lemma length_u32s l : length (concat (u32_bytes <$> l)) = (4 * length l)%nat.
Proof. induction l as [|v l IH]; [done|]. rewrite fmap_cons. cbn [concat]. rewrite length_app, IH. simpl. lia. Qed.
Lemma Populate_inv offsets cur n bs : (length (m_testMasks n) <= x_maxTestMasks)%nat -> Populate offsets cur n = Ok bs ->
  GetByteSize n = Ok (length bs) /\ Sub (m_item n).1 topMask /\
  exists rest, bs = u32_bytes (Z.lxor topMask (m_item n).1) ++ u16_bytes (m_item n).2 ++ rest /\
    (Z.lxor topMask (m_item n).1 = 0 \/ exists ds, all_dests offsets cur (m_dests n) = Ok ds /\ rest = test_bytes (m_testMasks n) ++ ds).
Proof.
  intros Hlen H. unfold Populate, GetClearMask in H. destruct (Z.eqb_spec (Z.land topMask (m_item n).1) (m_item n).1) as [Hsub|]; [|done].
  cbn [mbind result_bind] in H. unfold GetByteSize. unfold IsTerminalNode in *.
  destruct (eqb _ _) eqn:E; [|done]. cbn [mbind result_bind] in *. apply eqb_prop in E.
  assert (Hs : Sub (m_item n).1 topMask). { intros k Hk. rewrite <- Hsub in Hk. by apply has_land in Hk as [? _]. }
  destruct (_ && _) eqn:Et.
  - injection H as <-. split_and!; [done|done|]. exists []. rewrite app_nil_r. split; [done|]. left.
    symmetry in E. apply Z.eqb_eq in E. rewrite E. apply Z.lxor_nilpotent.
  - destruct (all_dests offsets cur (m_dests n)) as [ds|] eqn:Ed; [|done]. cbn [mbind result_bind] in H.
    injection H as <-. destruct (all_dests_inv _ _ _ _ Ed) as [Hl _]. split_and!; [|done|].
    + f_equal. cbn [length]. rewrite !length_app, Hl, length_u32s, length_app, length_replicate. lia.
    + exists (test_bytes (m_testMasks n) ++ ds). split; [done|]. right. by exists ds.
Qed.

Lemma node_offsets_inv : forall nodes cur os e, node_offsets nodes cur = Ok (os, e) ->
  length os = length nodes /\ (cur + length nodes <= e)%nat /\ (nodes <> [] -> os !! 0%nat = Some cur).
Proof.
  induction nodes as [|n nodes IH]; intros cur os e H; cbn [node_offsets] in H; [by injection H as <- <-; simpl; split_and!; [|lia|]|].
  destruct (GetByteSize n) as [size|] eqn:Es; [|done]. cbn [mbind result_bind] in H.
  destruct (node_offsets nodes (cur + size)) as [[os' e']|] eqn:E; [|done]. cbn [mbind result_bind] in H. injection H as <- <-.
  destruct (IH _ _ _ E) as (Hl & He & _). simpl. split_and!; [lia| |done].
  assert (1 <= size)%nat; [|lia]. unfold GetByteSize in Es. destruct (IsTerminalNode n) as [[]|]; cbn [mbind result_bind] in Es; [injection Es as <-; lia|injection Es as <-; lia|done].
Qed.
Lemma populate_nodes_inv offsets : forall nodes cur os e rs rs', Forall (fun n => (length (m_testMasks n) <= x_maxTestMasks)%nat) nodes ->
  node_offsets nodes cur = Ok (os, e) -> populate_nodes offsets os nodes rs = Ok rs' ->
  length rs' = length rs /\ (forall j, (j < cur)%nat -> rs' !! j = rs !! j) /\
  (forall k n o, nodes !! k = Some n -> os !! k = Some o -> exists bs, Populate offsets o n = Ok bs /\ reads rs' o bs).
Proof.
  induction nodes as [|n nodes IH]; intros cur os e rs rs' Hall Ho Hp; cbn [node_offsets] in Ho.
  - injection Ho as <- <-. injection Hp as <-. done.
  - inversion Hall as [|? ? Hn Hall']; subst. destruct (GetByteSize n) as [size|] eqn:Es; [|done]. cbn [mbind result_bind] in Ho.
    destruct (node_offsets nodes (cur + size)) as [[os' e']|] eqn:E; [|done]. cbn [mbind result_bind] in Ho. injection Ho as <- <-.
    cbn [populate_nodes] in Hp. destruct (Populate offsets cur n) as [bs|] eqn:Eb; [|done]. cbn [mbind result_bind] in Hp.
    destruct (store cur bs rs) as [rs1|] eqn:Est; [|done]. cbn [mbind result_bind] in Hp. destruct (Populate_inv _ _ _ _ Hn Eb) as [Hsize _].
    assert (size = length bs) as -> by congruence. destruct (store_inv _ _ _ _ Est) as (Hl1 & Hr1 & Hout1).
    destruct (IH _ _ _ _ _ Hall' E Hp) as (Hl2 & Hout2 & Hk2). split_and!; [congruence| |].
    + intros j Hj. rewrite Hout2 by lia. apply Hout1. by left.
    + intros [|k] n' o Hn' Ho; simpl in Hn', Ho; [|by apply (Hk2 k)]. injection Hn' as <-. injection Ho as <-. exists bs. split; [done|].
      intros i b Hi. rewrite Hout2; [by apply Hr1|]. apply lookup_lt_Some in Hi. lia.
Qed.

(** ** Running *)
Lemma test_index_read rs a x : forall l i, Forall (fun t => 0 <= t < 4294967296) l -> reads rs (a + 4 * i) (concat (u32_bytes <$> l)) ->
  test_index rs a x i (length l) = Ok (2 ^ i * hit_index l x)%nat.
Proof.
  induction l as [|t l IH]; intros i Hl Hr; cbn [length test_index hit_index]; [by rewrite Nat.mul_0_r|].
  inversion Hl as [|? ? Ht Hl']; subst. rewrite fmap_cons in Hr. cbn [concat] in Hr. rewrite (read_u32 _ _ _ _ Ht Hr). cbn [mbind result_bind].
  apply reads_app in Hr as [_ Hr]. simpl (length (u32_bytes t)) in Hr. rewrite (IH (S i) Hl') by (by replace (a + 4 * S i)%nat with (a + 4 * i + 4)%nat by lia).
  cbn [mbind result_bind]. f_equal. rewrite Nat.pow_succ_r'. destruct (Z.land x t =? 0); lia.
Qed.
Lemma hit_index_padded tests x k : hit_index (tests ++ replicate k 0) x = hit_index tests x.
Proof.
  induction tests as [|t tests IH]; cbn [app hit_index]; [|by rewrite IH]. induction k as [|k IH]; [done|]. cbn [replicate hit_index].
  rewrite IH. by rewrite Z.land_0_r.
Qed.
Lemma Sub_top_range x : Sub x topMask -> 0 <= x <= topMask.
Proof.
  intros H. assert (Ht : 0 <= topMask) by (by vm_compute). pose proof (Sub_nonneg _ _ Ht H). pose proof (Sub_le _ _ Ht H). lia.
Qed.
Lemma topMask_small : topMask < 4294967296.
Proof. by vm_compute. Qed.

Section run.
Context (bottom : option Z) (items : list ItemTy).
Hypothesis Hok : items_ok bottom items.
Hypothesis Hvalues : forall i, 0 <= value_at items i < 65536.
Context (b : option ItemTy) (gs : list ghost) (s : GenState).
Hypothesis Hb : built items b gs s.
Context (start : nat) (offsets : list nat) (e : nat) (rs0 rs : list Z).
Hypothesis Hoff : node_offsets (dfaNodes s) start = Ok (offsets, e).
Hypothesis Hpop : populate_nodes offsets offsets (dfaNodes s) rs0 = Ok rs.
#[local] Set Default Proof Using "Type*".

Lemma all_nodes_ok : nodes_ok items [] gs (dfaNodes s).
Proof using Hb. apply (gk_nodes _ _ _ _ (id_gen _ _ _ _ (bu_done _ _ _ _ Hb))). Qed.
Lemma node_is_ghost a g : gs !! a = Some g -> exists n, dfaNodes s !! a = Some n /\ node_is items n g.
Proof. intros Hg. by eapply (node_of_ghost bottom items Hok); [apply all_nodes_ok|]. Qed.
Lemma tests_small : Forall (fun n => (length (m_testMasks n) <= x_maxTestMasks)%nat) (dfaNodes s).
Proof.
  apply Forall_lookup. intros a n Hn. destruct (Forall2_lookup_l _ _ _ _ _ (no_nodes _ _ _ _ all_nodes_ok) Hn) as (g & _ & [_ Ht _]).
  rewrite Ht, length_g_tests. lia.
Qed.
Lemma node_populated a n o : dfaNodes s !! a = Some n -> offsets !! a = Some o -> exists bs, Populate offsets o n = Ok bs /\ reads rs o bs.
Proof.
  destruct (populate_nodes_inv offsets (dfaNodes s) start offsets e rs0 rs tests_small Hoff Hpop) as (_ & _ & H). by apply H.
Qed.

Lemma next_offset cur ds bs rs' a k d : all_dests offsets cur ds = Ok bs -> ds !! k = Some (Some d) -> reads rs' a bs ->
  exists o, offsets !! d = Some o /\ (cur < o)%nat /\ Z.of_nat (o - cur) < failure /\ load_u16 rs' (a + 2 * k) = Ok (Z.of_nat (o - cur)).
Proof.
  intros Hds Hk Hr. destruct (all_dests_inv _ _ _ _ Hds) as [_ H]. destruct (H k _ Hk) as (bk & Hbk & Hread). specialize (Hread _ _ Hr).
  unfold dest_bytes in Hbk. destruct (offsets !! d) as [o|] eqn:Ho; [|done]. destruct (Nat.ltb_spec cur o); [|done]. cbn [negb] in Hbk.
  destruct (Nat.ltb_spec 65534 (o - cur)) as [|Hfar]; [done|]. injection Hbk as <-. exists o.
  assert (Z.of_nat (o - cur) <= 65534).
  { replace 65534 with (Z.of_nat 65534) by (by vm_compute). by apply Nat2Z.inj_le. }
  split_and!; [done|done|unfold failure; lia|].
  apply (read_u16 _ _ _ []); [lia|]. by rewrite app_nil_r.
Qed.

Lemma run_node a g o x : gs !! a = Some g -> offsets !! a = Some o -> arrives items (g_item g) (g_zero g) x ->
  exists clear, load_u32 rs o = Ok clear /\
    ((Z.land x clear = 0 /\ exists l, least items x l /\ load_u16 rs (o + 4) = Ok (value_at items l)) \/
     (Z.land x clear <> 0 /\ exists d g' o', TestAndGetNext rs o x = Ok o' /\ (a < d)%nat /\ gs !! d = Some g' /\ offsets !! d = Some o' /\
        arrives items (g_item g') (g_zero g') x)).
Proof.
  intros Hg Ho Hx. destruct (node_is_ghost a g Hg) as (n & Hn & [Hitem Htests _]). destruct (node_populated a n o Hn Ho) as (bs & Hbs & Hread).
  pose proof (Forall_lookup_1 _ _ _ _ tests_small Hn) as Hsmall. destruct (Populate_inv _ _ _ _ Hsmall Hbs) as (_ & Hsub & rest & -> & Hrest).
  destruct (node_step bottom items Hok b gs s a n g x Hb Hg Hn Hx) as [Hhit Hmiss].
  assert (Hclear : 0 <= Z.lxor topMask (m_item n).1 < 4294967296).
  { assert (Hs : Sub (Z.lxor topMask (m_item n).1) topMask).
    { intros k Hk. unfold has in *. rewrite Z.lxor_spec in Hk. specialize (Hsub k). unfold has in Hsub.
      destruct (Z.testbit topMask _); [done|]. destruct (Z.testbit (m_item n).1 _); [by apply Hsub|done]. }
    apply Sub_top_range in Hs. pose proof topMask_small. lia. }
  exists (Z.lxor topMask (m_item n).1). split; [by apply (read_u32 _ _ _ _ Hclear Hread)|]. apply reads_app in Hread as [_ Hread].
  destruct (Z.eq_dec (Z.land x (Z.lxor topMask (m_item n).1)) 0) as [H0|H0]; [left|right]; (split; [done|]).
  - destruct (Hhit H0) as (l & Hl & Hv). exists l. split; [done|]. rewrite <- Hv. apply (read_u16 _ _ _ rest); [|done]. rewrite Hv. apply Hvalues.
  - destruct Hrest as [Hz|(ds & Hds & ->)]; [by rewrite Hz, Z.land_0_r in H0|]. destruct (Hmiss H0) as (d & g' & Hd & Hlt & Hg' & Hx').
    apply reads_app in Hread as [_ Hread]. apply reads_app in Hread as [Htb Hdb]. simpl (length (u32_bytes _)) in *. simpl (length (u16_bytes _)) in *.
    replace (o + 4 + 2)%nat with (o + 6)%nat in Htb, Hdb by lia. cbv beta in Hsmall.
    set (padded := m_testMasks n ++ replicate (x_maxTestMasks - length (m_testMasks n)) 0) in *.
    assert (Hpl : length padded = x_maxTestMasks) by (unfold padded; rewrite length_app, length_replicate; lia).
    assert (Hpr : Forall (fun t => 0 <= t < 4294967296) padded).
    { apply Forall_app. split; [|apply Forall_replicate; lia]. apply Forall_forall. intros t Ht. rewrite Htests in Ht.
      pose proof (Forall_lookup_1 _ _ _ _ (no_ghosts _ _ _ _ all_nodes_ok) Hg) as Hgok.
      destruct (g_tests_of bottom items Hok g t Hgok Ht) as (_ & d0 & Hbits).
      assert (Hs : Sub t topMask) by (intros k Hk; apply topMask_bits; by apply Hbits in Hk as [? _]).
      apply Sub_top_range in Hs. pose proof topMask_small. lia. }
    destruct (next_offset o _ _ rs _ _ _ Hds Hd Hdb) as (o' & Ho' & Hlt' & Hsmall' & Hload).
    exists d, g', o'. split_and!; [|done|done|done|done]. unfold TestAndGetNext. rewrite <- Hpl.
    rewrite (test_index_read rs (o + 6) x padded 0 Hpr) by (by rewrite Nat.mul_0_r, Nat.add_0_r). cbn [mbind result_bind].
    rewrite Nat.pow_0_r, Nat.mul_1_l. unfold padded at 2. rewrite hit_index_padded, Hpl.
    unfold test_bytes in Hload. fold padded in Hload. rewrite length_u32s, Hpl in Hload. rewrite Hload.  cbn [mbind result_bind].
    destruct (Z.eqb_spec (Z.of_nat (o' - o)) failure); [lia|]. f_equal. lia.
Qed.

Lemma Run_loop_ok x : forall fuel a g o, gs !! a = Some g -> offsets !! a = Some o -> arrives items (g_item g) (g_zero g) x -> (length gs - a < fuel)%nat ->
  exists l, least items x l /\ Run_loop fuel rs o x = Ok (value_at items l).
Proof.
  induction fuel as [|fuel IH]; intros a g o Hg Ho Hx Hfuel; [lia|]. cbn [Run_loop].
  destruct (run_node a g o x Hg Ho Hx) as (clear & Hclear & [(H0 & l & Hl & Hv)|(H0 & d & g' & o' & Hnext & Hlt & Hg' & Ho' & Hx')]);
    rewrite Hclear; cbn [mbind result_bind].
  - rewrite H0. simpl. by exists l.
  - destruct (Z.eqb_spec (Z.land x clear) 0); [done|]. rewrite Hnext. cbn [mbind result_bind]. apply (IH d g'); [done|done|done|].
    apply lookup_lt_Some in Hg. lia.
Qed.

(** From a node, [Run] finds the value of the smallest item that covers the mask. *)
Lemma Run_ok x a g o : (length rs0 >= e)%nat -> gs !! a = Some g -> offsets !! a = Some o -> arrives items (g_item g) (g_zero g) x ->
  exists l, least items x l /\ Run rs o x = Ok (value_at items l).
Proof.
  intros Hlen Hg Ho Hx. unfold Run. pose proof Hx as (Ht & _). apply Sub_top_range in Ht. destruct (Z.ltb_spec topMask x); [lia|].
  apply (Run_loop_ok x _ a g); [done|done|done|].
  destruct (populate_nodes_inv offsets (dfaNodes s) start offsets e rs0 rs tests_small Hoff Hpop) as (Hl & _ & _).
  destruct (node_offsets_inv _ _ _ _ Hoff) as (_ & He & _). pose proof (Forall2_length _ _ _ (no_nodes _ _ _ _ all_nodes_ok)). lia.
Qed.
End run.
