(* ===== verification/AutomataTotal.v ===== *)
(** * The automata are built

    No assertion of [build_nodes] of [Automata.v] fails and every edge of a node gets its
    destination, so that the generators make a table for every list of distinct masks of
    types. *)
From S2P Require Import Prelude TypeMask Automata AutomataMasks AutomataInv AutomataTable.
From stdpp Require Import gmap sorting.
#[local] Set Default Proof Using "Type".

Definition no_error : error -> Prop := fun _ => False.

(** A node with its tests, and room for their destinations. *)
Record node_shape (n : NodeInfo) : Prop := {
  ns_dests : length (m_dests n) = (2 ^ length (m_testMasks n))%nat;
  ns_tests : (length (m_testMasks n) <= x_maxTestMasks)%nat;
  ns_item : Sub (m_item n).1 topMask;
  ns_top : m_testMasks n = [] <-> (m_item n).1 = topMask;
  ns_none : m_testMasks n = [] -> m_dests n !! 0%nat = Some None
}.
Definition edge_key (p : PendingEdge) : nat * nat := (m_dfaNodeOrd p, m_edgeOrd p).
(** The edge [k] of a node is set. *)
Definition edge_set (n : NodeInfo) (k : nat) : Prop := exists d, m_dests n !! k = Some (Some d).

(** [pend] are the pending edges that are left, [todo] edges that have none yet. *)
Record shape (M : nat) (todo : list (nat * nat)) (pend : list PendingEdge) (s : GenState) : Prop := {
  sh_reach : length (itemReachable s) = M;
  sh_known : length (knownZeroBitsForItem s) = M;
  sh_nodes : Forall node_shape (dfaNodes s);
  sh_dests : forall a n k d, dfaNodes s !! a = Some n -> m_dests n !! k = Some (Some d) -> (a < d < length (dfaNodes s))%nat;
  sh_edges : forall a n k, dfaNodes s !! a = Some n -> k <> 0%nat -> (k < length (m_dests n))%nat ->
    (a, k) ∈ todo \/ (a, k) ∈ edge_key <$> pend \/ edge_set n k;
  sh_pend : forall p, p ∈ pend -> (m_edgeOrd p <> 0 /\ m_itemOrd p < M)%nat /\ itemReachable s !! m_itemOrd p = Some true /\
    exists n, dfaNodes s !! m_dfaNodeOrd p = Some n /\ m_dests n !! m_edgeOrd p = Some None;
  sh_after : forall p d, p ∈ pend -> itemToNodeOrdMap s !! m_itemOrd p = Some (Some d) -> (m_dfaNodeOrd p < d)%nat;
  sh_nodup : NoDup (edge_key <$> pend);
  sh_todo : forall p, p ∈ pend -> edge_key p ∉ todo;
  sh_mapped : forall j x, itemToNodeOrdMap s !! j = Some x -> itemReachable s !! j = Some true -> is_Some x;
  sh_target : forall j d, itemToNodeOrdMap s !! j = Some (Some d) -> (d < length (dfaNodes s))%nat
}.
(** What was reached is still reached. *)
Definition reached (s s' : GenState) : Prop := forall j, itemReachable s !! j = Some true -> itemReachable s' !! j = Some true.
Lemma reached_trans s s' s'' : reached s s' -> reached s' s'' -> reached s s''.
Proof. intros H H' j Hj. by apply H', H. Qed.
Lemma reached_same s s' : itemReachable s' = itemReachable s -> reached s s'.
Proof. intros H j. by rewrite H. Qed.

(** ** Setting an edge *)
Lemma node_shape_set n k d : node_shape n -> m_testMasks n <> [] -> node_shape (mk_node (m_item n) (m_testMasks n) (<[k := d]> (m_dests n))).
Proof. intros [H1 H2 H3 H4 H5] Hne. split; simpl; [by rewrite length_insert|done|done|done|done]. Qed.
Lemma shape_set M todo pend pend' s a n k d : shape M todo pend s -> dfaNodes s !! a = Some n -> m_dests n !! k = Some None ->
  (a < d < length (dfaNodes s))%nat -> m_testMasks n <> [] -> (forall p, p ∈ pend' -> p ∈ pend) -> NoDup (edge_key <$> pend') -> (a, k) ∉ edge_key <$> pend' ->
  (forall p, p ∈ pend -> p ∈ pend' \/ edge_key p = (a, k)) ->
  shape M todo pend' (mk_gen (<[a := mk_node (m_item n) (m_testMasks n) (<[k := Some d]> (m_dests n))]> (dfaNodes s)) (pendingEdges s)
    (itemReachable s) (knownZeroBitsForItem s) (itemToNodeOrdMap s)).
Proof.
  intros Hs Ha Hk Hd Hne Hin Hnd Hfresh Hsplit. pose proof (lookup_lt_Some _ _ _ Ha) as Hal. pose proof (lookup_lt_Some _ _ _ Hk) as Hkl.
  split; simpl.
  - apply (sh_reach _ _ _ _ Hs).
  - apply (sh_known _ _ _ _ Hs).
  - apply Forall_insert; [apply (sh_nodes _ _ _ _ Hs)|]. apply node_shape_set; [|done]. apply (Forall_lookup_1 _ _ _ _ (sh_nodes _ _ _ _ Hs) Ha).
  - rewrite length_insert. intros b nb kb db [(-> & <- & _)|[Hne' Hb]]%list_lookup_insert_Some Hdb; [|by eapply (sh_dests _ _ _ _ Hs)].
    simpl in Hdb. apply list_lookup_insert_Some in Hdb as [(-> & [= <-] & _)|[_ Hdb]]; [done|]. by eapply (sh_dests _ _ _ _ Hs).
  - assert (Hold : forall b nb kb, dfaNodes s !! b = Some nb -> kb <> 0%nat -> (kb < length (m_dests nb))%nat -> (b, kb) <> (a, k) ->
      (b, kb) ∈ todo \/ (b, kb) ∈ edge_key <$> pend' \/ edge_set nb kb).
    { intros b nb kb Hb H0 Hlt Hbk. destruct (sh_edges _ _ _ _ Hs b nb kb Hb H0 Hlt) as [?|[(p & Hkey & Hp)%list_elem_of_fmap|?]]; [by left| |by right; right].
      destruct (Hsplit p Hp) as [Hp'|He]; [right; left; rewrite Hkey; by apply list_elem_of_fmap_2|]. exfalso. apply Hbk. by rewrite Hkey. }
    intros b nb kb [(-> & <- & _)|[Hne' Hb]]%list_lookup_insert_Some H0 Hlt; simpl in *; [|apply Hold; [done|done|done|by intros [=]]].
    rewrite length_insert in Hlt. unfold edge_set. simpl. destruct (decide (kb = k)) as [->|Hkk].
    + right. right. exists d. by apply list_lookup_insert_eq.
    + rewrite list_lookup_insert_ne by done. apply Hold; [done|done|done|by intros [=]].
  - intros p Hp. destruct (sh_pend _ _ _ _ Hs p (Hin p Hp)) as (H1 & H2 & n' & Hn' & Hk'). split; [done|]. split; [done|].
    destruct (decide (m_dfaNodeOrd p = a)) as [He|Hne'].
    + rewrite He in *. rewrite list_lookup_insert_eq by done. eexists. split; [done|]. simpl. assert (n' = n) as -> by congruence.
      rewrite list_lookup_insert_ne; [done|]. intros Heq. apply Hfresh. apply list_elem_of_fmap. exists p. unfold edge_key. by rewrite He, Heq.
    + rewrite list_lookup_insert_ne by done. by exists n'.
  - intros p d' Hp. apply (sh_after _ _ _ _ Hs). by apply Hin.
  - done.
  - intros p Hp. apply (sh_todo _ _ _ _ Hs). by apply Hin.
  - apply (sh_mapped _ _ _ _ Hs).
  - rewrite length_insert. apply (sh_target _ _ _ _ Hs).
Qed.

Section total.
Context (bottom : option Z) (items : list ItemTy).
Hypothesis Hok : items_ok bottom items.
#[local] Set Default Proof Using "Type*".
Notation M := (length items).
Notation mask_at := (mask_at items).
Notation shape := (shape (length items)).

Lemma addEdgeNow_total todo pend pend' s a n k d Q : shape todo pend s -> dfaNodes s !! a = Some n -> m_dests n !! k = Some None ->
  (a < d < length (dfaNodes s))%nat -> m_testMasks n <> [] -> (forall p, p ∈ pend' -> p ∈ pend) -> NoDup (edge_key <$> pend') ->
  (a, k) ∉ edge_key <$> pend' -> (forall p, p ∈ pend -> p ∈ pend' \/ edge_key p = (a, k)) ->
  (forall s', shape todo pend' s' -> itemReachable s' = itemReachable s -> itemToNodeOrdMap s' = itemToNodeOrdMap s -> pendingEdges s' = pendingEdges s ->
     length (dfaNodes s') = length (dfaNodes s) -> (forall b, b <> a -> dfaNodes s' !! b = dfaNodes s !! b) -> Q tt s') ->
  wp no_error (addEdgeNow a d k) Q s.
Proof.
  intros Hs Ha Hk [Had Hd] Hne Hin Hnd Hfresh Hsplit HQ. unfold wp, addEdgeNow. apply Nat.ltb_lt in Hd as Hd'. rewrite Hd'. apply Nat.ltb_lt in Had as Had'.
  rewrite Had'. simpl. rewrite Ha. unfold SetDest. rewrite Hk. cbn [mbind result_bind].
  apply HQ; simpl; [by eapply shape_set|done|done|done|by rewrite length_insert|]. intros b Hb. by rewrite list_lookup_insert_ne.
Qed.

(** ** The edges of a node *)
Lemma shape_pending todo pend s a n k next zero : shape ((a, k) :: todo) pend s -> dfaNodes s !! a = Some n -> m_dests n !! k = Some None -> k <> 0%nat ->
  (a, k) ∉ todo -> (length (itemToNodeOrdMap s) <= next < M)%nat ->
  shape todo (pend ++ [mk_pending a next k]) (mk_gen (dfaNodes s) (pendingEdges s ++ [mk_pending a next k]) (<[next := true]> (itemReachable s))
    (alter (Z.land zero) next (knownZeroBitsForItem s)) (itemToNodeOrdMap s)).
Proof.
  intros Hs Ha Hk Hk0 Hnew [Hmap Hnext].
  assert (Hr : forall j, itemReachable s !! j = Some true -> <[next := true]> (itemReachable s) !! j = Some true).
  { intros j Hj. destruct (decide (j = next)) as [->|]; [|by rewrite list_lookup_insert_ne]. apply list_lookup_insert_eq. by eapply lookup_lt_Some. }
  split; simpl.
  - by rewrite length_insert, (sh_reach _ _ _ _ Hs).
  - by rewrite length_alter, (sh_known _ _ _ _ Hs).
  - apply (sh_nodes _ _ _ _ Hs).
  - apply (sh_dests _ _ _ _ Hs).
  - intros b nb kb Hb H0 Hlt. rewrite fmap_app, elem_of_app. destruct (sh_edges _ _ _ _ Hs b nb kb Hb H0 Hlt) as [[He|?]%elem_of_cons|[?|?]]; [|by left|tauto|tauto].
    right. left. right. rewrite He. simpl. set_solver.
  - intros p [Hp| ->%list_elem_of_singleton]%elem_of_app.
    + destruct (sh_pend _ _ _ _ Hs p Hp) as (H1 & H2 & H3). split; [done|]. split; [by apply Hr|done].
    + simpl. split; [done|]. split; [|by exists n]. apply list_lookup_insert_eq. by rewrite (sh_reach _ _ _ _ Hs).
  - intros p d [Hp| ->%list_elem_of_singleton]%elem_of_app; [by apply (sh_after _ _ _ _ Hs)|]. simpl. intros Hd%lookup_lt_Some. lia.
  - rewrite fmap_app. apply NoDup_app. split_and!; [apply (sh_nodup _ _ _ _ Hs)| |apply NoDup_singleton].
    intros key (p & -> & Hp)%list_elem_of_fmap He%list_elem_of_singleton. apply (sh_todo _ _ _ _ Hs p Hp). rewrite He. by left.
  - intros p [Hp| ->%list_elem_of_singleton]%elem_of_app; [|done]. intros Hin. apply (sh_todo _ _ _ _ Hs p Hp). by right.
  - intros j x Hj. pose proof (lookup_lt_Some _ _ _ Hj). rewrite list_lookup_insert_ne by lia. by apply (sh_mapped _ _ _ _ Hs).
  - apply (sh_target _ _ _ _ Hs).
Qed.
(** The pending edges that are added lead to items after [i]. *)
Definition adds (i : nat) (s s' : GenState) : Prop := forall p, p ∈ pendingEdges s' -> p ∈ pendingEdges s \/ (i < m_itemOrd p)%nat.
Lemma adds_trans i s s' s'' : adds i s s' -> adds i s' s'' -> adds i s s''.
Proof. intros H H' p [Hp|?]%H'; [by apply H|by right]. Qed.
Lemma adds_same i s s' : pendingEdges s' = pendingEdges s -> adds i s s'.
Proof. intros H p. rewrite H. by left. Qed.

Lemma handle_masks_total todo a g n : ghost_ok items g -> m_dests n = replicate (2 ^ length (g_tests g)) None -> forall ords, NoDup ords ->
  Forall (fun k => (k <> 0)%nat /\ (k < 2 ^ length (g_tests g))%nat) ords -> (forall k, k ∈ ords -> (a, k) ∉ todo) ->
  forall s, shape ((pair a <$> ords) ++ todo) (pendingEdges s) s -> dfaNodes s !! a = Some n -> (length (itemToNodeOrdMap s) <= g_item g)%nat ->
  wp no_error (handle_masks items a (g_item g) (g_tests g) (g_zero g) ords) (fun _ s' => shape todo (pendingEdges s') s' /\ reached s s' /\
    adds (g_item g) s s' /\ itemToNodeOrdMap s' = itemToNodeOrdMap s /\ dfaNodes s' = dfaNodes s) s.
Proof.
  intros Hg Hn. induction ords as [|k ords IH]; intros Hnd Hords Hfresh s Hs Ha Hmap; cbn [handle_masks].
  - apply wp_ret. split_and!; [done|by apply reached_same|by apply adds_same|done|done].
  - inversion Hords as [|? ? [Hk Hlt] Hrest]; subst. apply NoDup_cons in Hnd as [Hknew Hnd].
    destruct (traverse_leads bottom items Hok g k Hg Hk Hlt) as (next & Hrun & Hnext & _). apply wp_bind, wp_lift_result.
    change (M_ items) with M. rewrite Hrun. unfold addPendingEdge, reach_item. do 4 (wp_step; simpl).
    assert (Hdest : m_dests n !! k = Some None) by (rewrite Hn; by apply lookup_replicate).
    rewrite fmap_cons in Hs. cbn [app] in Hs. eapply (shape_pending _ _ _ _ _ _ next) in Hs; [|exact Ha|exact Hdest|done| |lia].
    2: { intros [(k' & [= ->] & Hin)%list_elem_of_fmap|Hin]%elem_of_app; [done|]. apply (Hfresh k); [by left|done]. }
    eapply wp_mono; [eapply IH; [done|done| |exact Hs|exact Ha|exact Hmap]|]; [set_solver|].
    simpl. intros _ s' (Hs' & Hr & Had & Hm & Hnodes). split_and!; [done| | |done|done].
    + eapply reached_trans; [|exact Hr]. intros j Hj. simpl. destruct (decide (j = next)) as [->|]; [|by rewrite list_lookup_insert_ne].
      apply list_lookup_insert_eq. by eapply lookup_lt_Some.
    + eapply adds_trans; [|exact Had]. intros p [Hp| ->%list_elem_of_singleton]%elem_of_app; [by left|]. right. simpl. lia.
Qed.

(** ** The nodes of an item *)
Lemma new_node_shape g : ghost_ok items g -> node_shape (new_node items g).
Proof.
  intros Hg. assert (Hlen : length (g_tests g) = 0%nat <-> g_tests g = []) by (destruct (g_tests g); done). split; simpl.
  - apply length_replicate.
  - rewrite length_g_tests. lia.
  - destruct (_ =? 0)%nat; simpl; [done|apply (io_range _ _ Hok)].
  - rewrite <- Hlen. destruct (Nat.eqb_spec (length (g_tests g)) 0) as [He|Hne]; simpl; [tauto|]. split; [done|]. intros Htop. exfalso.
    rewrite length_g_tests in Hne. destruct (g_edges g) as [|e es] eqn:Ees; [done|].
    assert (Hin : e ∈ edgeMap items (g_item g)) by (apply (go_edges _ _ Hg); rewrite Ees; by left).
    destruct (edgeMap_inhabited bottom items Hok _ e (go_item _ _ Hg) Hin) as [m Hm].
    apply (edgeMap_bits bottom items Hok _ e m (go_item _ _ Hg) Hin) in Hm as [Hm HT].
    destruct (T_least bottom items Hok _ _ _ (go_item _ _ Hg) Hm HT) as [Hnot _]. apply Hnot. rewrite Htop. by apply topMask_bits.
  - intros ->. done.
Qed.
Lemma shape_push pend s g : shape [] pend s -> ghost_ok items g ->
  shape (pair (length (dfaNodes s)) <$> seq 1 (2 ^ length (g_tests g) - 1)) pend
    (mk_gen (dfaNodes s ++ [new_node items g]) (pendingEdges s) (itemReachable s) (knownZeroBitsForItem s) (itemToNodeOrdMap s)).
Proof.
  intros Hs Hg. set (todo := pair _ <$> _). split; simpl.
  - apply (sh_reach _ _ _ _ Hs).
  - apply (sh_known _ _ _ _ Hs).
  - apply Forall_app. split; [apply (sh_nodes _ _ _ _ Hs)|]. constructor; [by apply new_node_shape|constructor].
  - rewrite length_app. intros a n k d [Ha|[-> ->]]%list_lookup_snoc_Some Hd; [|by destruct (new_node_dests bottom items Hok g k d)].
    pose proof (sh_dests _ _ _ _ Hs a n k d Ha Hd). simpl. lia.
  - intros a n k [Ha|[-> ->]]%list_lookup_snoc_Some H0 Hlt.
    + right. by destruct (sh_edges _ _ _ _ Hs a n k Ha H0 Hlt) as [?%not_elem_of_nil|?].
    + left. apply list_elem_of_fmap_2, elem_of_seq. simpl in Hlt. rewrite length_replicate in Hlt. lia.
  - intros p Hp. destruct (sh_pend _ _ _ _ Hs p Hp) as (H1 & H2 & n & Hn & Hk). split; [done|]. split; [done|]. exists n.
    split; [by apply lookup_app_Some_l|done].
  - apply (sh_after _ _ _ _ Hs).
  - apply (sh_nodup _ _ _ _ Hs).
  - intros p Hp (k & He & _)%list_elem_of_fmap. destruct (sh_pend _ _ _ _ Hs p Hp) as (_ & _ & n & Hn%lookup_lt_Some & _).
    injection He as He _. lia.
  - apply (sh_mapped _ _ _ _ Hs).
  - rewrite length_app. intros j d Hj. pose proof (sh_target _ _ _ _ Hs j d Hj). lia.
Qed.
Lemma shape_weaken todo pend s : shape todo pend s -> todo = [] -> shape [] pend s.
Proof. by intros H ->. Qed.

(** After the nodes of an item were made from [s]. *)
Record item_made (g : ghost) (s s' : GenState) : Prop := {
  im_shape : shape [] (pendingEdges s') s';
  im_reached : reached s s';
  im_adds : adds (g_item g) s s';
  im_map : itemToNodeOrdMap s' = itemToNodeOrdMap s;
  im_old : forall b, (b < length (dfaNodes s))%nat -> dfaNodes s' !! b = dfaNodes s !! b;
  im_length : (length (dfaNodes s) < length (dfaNodes s') <= length (dfaNodes s) + 1 + length (g_edges g) / 4)%nat
}.
Lemma handleEdges_total : forall fuel g s, ghost_ok items g -> shape [] (pendingEdges s) s -> (length (itemToNodeOrdMap s) <= g_item g)%nat ->
  (length (g_edges g) < fuel)%nat ->
  wp no_error (handleEdges items fuel (g_item g) (g_edges g) (g_zero g)) (fun n s' => n = length (dfaNodes s) /\ item_made g s s') s.
Proof.
  induction fuel as [|fuel IH]; intros g s Hg Hs Hmap Hfuel; [lia|]. cbn [handleEdges]. rewrite take_tests. fold (g_tests g).
  apply wp_bind. unfold push_node at 1. unfold wp at 1. rewrite <- (length_g_tests g). fold (new_node items g).
  pose proof (shape_push _ _ g Hs Hg) as Hs1. match type of Hs1 with ?f ?s1 => set (s1' := s1) in * end.
  set (a := length (dfaNodes s)) in *. rewrite <- (app_nil_r (pair a <$> _)) in Hs1.
  assert (Hlast : dfaNodes s1' !! a = Some (new_node items g)) by (apply list_lookup_middle; done).
  apply wp_bind. eapply wp_mono; [eapply (handle_masks_total [] a g (new_node items g) Hg eq_refl); [apply NoDup_seq| |intros k _; apply not_elem_of_nil|exact Hs1|exact Hlast|exact Hmap]|].
  { apply Forall_forall. intros k [? ?]%elem_of_seq. lia. }
  intros _ s2 (Hs2 & Hr2 & Had2 & Hm2 & Hn2). cbv beta. apply wp_bind.
  assert (Hl2 : length (dfaNodes s2) = S a) by (rewrite Hn2; simpl; rewrite length_app; simpl; lia).
  assert (Hold2 : forall b, (b < a)%nat -> dfaNodes s2 !! b = dfaNodes s !! b) by (intros b Hb; rewrite Hn2; simpl; by apply lookup_app_l).
  destruct (Nat.ltb_spec (length (g_tests g)) (length (g_edges g))) as [Hmore|Hdone]; unfold when.
  - assert (Htests : length (g_tests g) = 4%nat) by (rewrite length_g_tests in *; unfold x_maxTestMasks in *; lia). rewrite Htests.
    assert (Hdiv : (1 + (length (g_edges g) - 4) / 4 = length (g_edges g) / 4)%nat).
    { rewrite <- (Nat.div_add_l 1 4 (length (g_edges g) - 4)) by lia. f_equal. rewrite Htests in Hmore. lia. }
    apply wp_bind. eapply wp_mono; [apply (IH (g_next g) s2 (g_next_ok bottom items Hok g Hg) Hs2)|].
    { by rewrite Hm2. }
    { simpl. rewrite length_drop. unfold x_maxTestMasks in *. lia. }
    intros d s3 (-> & [Hs3 Hr3 Had3 Hm3 Hold3 Hl3]). cbn [g_edges g_next] in Hl3. rewrite length_drop, Hl2 in Hl3. unfold x_maxTestMasks in Hl3.
    assert (Ha3 : dfaNodes s3 !! a = Some (new_node items g)) by (rewrite Hold3 by lia; by rewrite Hn2).
    eapply (addEdgeNow_total [] (pendingEdges s3) (pendingEdges s3) s3 a _ 0); [exact Hs3|exact Ha3| | | |done|apply (sh_nodup _ _ _ _ Hs3)| |by left|].
    + simpl. apply lookup_replicate. split; [done|]. by rewrite Htests; simpl; lia.
    + rewrite Hl2. lia.
    + simpl. intros He. by rewrite He in Htests.
    + intros (p & He & Hp)%list_elem_of_fmap. destruct (sh_pend _ _ _ _ Hs3 p Hp) as ((H0 & _) & _). injection He as _ He. done.
    + intros s4 Hs4 Hr4 Hm4 Hp4 Hl4 Hold4. apply wp_ret. split; [done|]. split.
      * by rewrite Hp4.
      * eapply reached_trans; [exact Hr2|]. eapply reached_trans; [exact Hr3|]. by apply reached_same.
      * eapply (adds_trans _ s s2); [exact Had2|]. eapply adds_trans; [exact Had3|]. by apply adds_same.
      * rewrite Hm4, Hm3, Hm2. done.
      * intros b Hb. fold a in Hb. rewrite Hold4 by lia. rewrite Hold3 by lia. by apply Hold2.
      * fold a. lia.
  - apply wp_ret. apply wp_ret. split; [done|]. split; [done|exact Hr2|exact Had2|done|done|]. fold a. lia.
Qed.

(** ** All the items *)
Lemma add_edge_length d m edges : (length (add_edge d m edges) <= S (length edges))%nat.
Proof using Type.
  induction edges as [|e edges IH]; simpl; [lia|]. destruct (d <? m_dest e)%nat; simpl; [lia|]. destruct (d =? m_dest e)%nat; simpl; lia.
Qed.
Lemma edgeMap_length i : (length (edgeMap items i) <= numBits)%nat.
Proof using Type.
  unfold edgeMap. match goal with |- (length (foldl ?f _ _) <= _)%nat =>
    assert (H : forall js edges, (length (foldl f edges js) <= length js + length edges)%nat) end.
  - induction js as [|j js IH]; intros edges; simpl; [lia|]. eapply Nat.le_trans; [apply IH|].
    destruct (T items i j) as [d|]; [|lia]. pose proof (add_edge_length d (bit j) edges). lia.
  - eapply Nat.le_trans; [apply H|]. rewrite length_seq. cbn [length]. lia.
Qed.
Lemma item_ghost_length i z : (length (g_edges (item_ghost items i z)) / 4 <= 2)%nat.
Proof using Type.
  cbn [g_edges item_ghost]. pose proof (edgeMap_length i) as H. assert (numBits = 8%nat) as Hb by (by vm_compute). rewrite Hb in H.
  pose proof (length_filter (fun e => subset_of (m_edgeMask e) z = false) (edgeMap items i)). apply Nat.Div0.div_le_upper_bound. lia.
Qed.

(** [i] items are done. *)
Record items_made (i : nat) (s : GenState) : Prop := {
  it_shape : shape [] (pendingEdges s) s;
  it_map : length (itemToNodeOrdMap s) = i;
  it_nodes : (length (dfaNodes s) <= 3 * i)%nat
}.
Lemma map_item_total i s s' node : items_made i s -> (i < M)%nat -> shape [] (pendingEdges s') s' -> itemToNodeOrdMap s' = itemToNodeOrdMap s ->
  adds i s s' -> (itemReachable s' !! i = Some true -> node = Some (length (dfaNodes s)) /\ (length (dfaNodes s) < length (dfaNodes s'))%nat) ->
  (node <> None -> itemReachable s' !! i = Some true) -> (length (dfaNodes s') <= length (dfaNodes s) + 3)%nat ->
  items_made (S i) (mk_gen (dfaNodes s') (pendingEdges s') (itemReachable s') (knownZeroBitsForItem s') (itemToNodeOrdMap s' ++ [node])).
Proof.
  intros [Hs Hmap Hn] Hi Hs' Hm Hadd Hnode Hnone Hl. split; simpl; [|rewrite length_app, Hm, Hmap; simpl; lia|lia]. split; simpl.
  - apply (sh_reach _ _ _ _ Hs').
  - apply (sh_known _ _ _ _ Hs').
  - apply (sh_nodes _ _ _ _ Hs').
  - apply (sh_dests _ _ _ _ Hs').
  - apply (sh_edges _ _ _ _ Hs').
  - apply (sh_pend _ _ _ _ Hs').
  - intros p d Hp [Hd|[He Hd]]%list_lookup_snoc_Some; [by apply (sh_after _ _ _ _ Hs')|]. rewrite Hm, Hmap in He. subst i.
    destruct (Hnode) as [Hsome _]; [apply Hnone; by rewrite <- Hd|]. assert (d = length (dfaNodes s)) as -> by congruence.
    destruct (Hadd p Hp) as [Hold|]; [|lia]. destruct (sh_pend _ _ _ _ Hs p Hold) as (_ & _ & n & Hn' & _). by eapply lookup_lt_Some.
  - apply (sh_nodup _ _ _ _ Hs').
  - apply (sh_todo _ _ _ _ Hs').
  - intros j x [Hj|[-> ->]]%list_lookup_snoc_Some Hr; [by eapply (sh_mapped _ _ _ _ Hs')|]. rewrite Hm, Hmap in Hr. destruct (Hnode Hr) as [-> _]. done.
  - intros j d [Hj|[-> Hd]]%list_lookup_snoc_Some; [by eapply (sh_target _ _ _ _ Hs')|]. rewrite <- Hd in Hnode, Hnone.
    destruct Hnode as [He Hlt]; [by apply Hnone|]. injection He as ->. done.
Qed.
Lemma handle_item_total i s : items_made i s -> (i < M)%nat ->
  wp no_error (handle_item items i) (fun _ s' => items_made (S i) s' /\ reached s s') s.
Proof.
  intros Hs Hi. pose proof (it_shape _ _ Hs) as Hsh. unfold handle_item. apply wp_bind, wp_get. cbv beta.
  destruct (lookup_lt_is_Some_2 (knownZeroBitsForItem s) i) as [z Hz]; [by rewrite (sh_known _ _ _ _ Hsh)|]. rewrite Hz.
  assert (Hskip : itemReachable s !! i <> Some true -> wp no_error (map_item None) (fun _ s' => items_made (S i) s' /\ reached s s') s).
  { intros Hne. unfold map_item. apply wp_modify. split; [|by apply reached_same].
    apply (map_item_total i s s None Hs Hi Hsh); [done|by apply adds_same|done|done|lia]. }
  destruct (itemReachable s !! i) as [[]|] eqn:Hr; [clear Hskip|by apply Hskip|by apply Hskip].
  cbv zeta. apply wp_bind. eapply wp_mono; [apply (handleEdges_total _ (item_ghost items i z) s)|].
  - by apply (item_ghost_ok bottom items Hok).
  - done.
  - simpl. by rewrite (it_map _ _ Hs).
  - simpl. lia.
  - intros n s' (-> & [Hs' Hr' Had Hm Hold Hl]). pose proof (item_ghost_length i z). unfold map_item. apply wp_modify. split; [|exact Hr'].
    apply (map_item_total i s s' _ Hs Hi Hs' Hm Had); [intros _; split; [done|lia]|intros _; by apply Hr'|lia].
Qed.
Lemma handle_items_total k : forall i s, items_made i s -> (i + k <= M)%nat ->
  wp no_error (handle_items items (seq i k)) (fun _ s' => items_made (i + k) s' /\ reached s s') s.
Proof.
  induction k as [|k IH]; intros i s Hs Hik; cbn [seq handle_items].
  - apply wp_ret. rewrite Nat.add_0_r. split; [done|by apply reached_same].
  - apply wp_bind. eapply wp_mono; [apply (handle_item_total i s Hs); lia|]. intros _ s1 (Hs1 & Hr1).
    eapply wp_mono; [apply (IH (S i) s1 Hs1); lia|]. intros _ s2 (Hs2 & Hr2). split; [by rewrite Nat.add_succ_r|by eapply reached_trans].
Qed.

(** ** The edges between items *)
Lemma patch_edges_total : forall edges s, shape [] edges s -> length (itemToNodeOrdMap s) = M ->
  wp no_error (patch_edges edges) (fun _ s' => shape [] [] s' /\ itemReachable s' = itemReachable s /\ itemToNodeOrdMap s' = itemToNodeOrdMap s /\
    length (dfaNodes s') = length (dfaNodes s)) s.
Proof.
  induction edges as [|p edges IH]; intros s Hs Hmap; cbn [patch_edges]; [by apply wp_ret|].
  apply wp_bind, wp_get. cbv beta. apply wp_bind.
  destruct (sh_pend _ _ _ _ Hs p) as ((Hp0 & Hpi) & Hpr & n & Hn & Hk); [by left|].
  destruct (lookup_lt_is_Some_2 (itemToNodeOrdMap s) (m_itemOrd p)) as [x Hx]; [by rewrite Hmap|].
  destruct (sh_mapped _ _ _ _ Hs _ _ Hx Hpr) as [d ->]. rewrite Hx.
  pose proof (sh_nodup _ _ _ _ Hs) as Hnd. rewrite fmap_cons in Hnd. apply NoDup_cons in Hnd as [Hnew Hnd].
  eapply (addEdgeNow_total [] (p :: edges) edges s _ n); [exact Hs|exact Hn|exact Hk| | |set_solver|done|exact Hnew| |].
  - split; [apply (sh_after _ _ _ _ Hs p d); [by left|done]|by eapply (sh_target _ _ _ _ Hs)].
  - intros He. apply lookup_lt_Some in Hk. destruct (Forall_lookup_1 _ _ _ _ (sh_nodes _ _ _ _ Hs) Hn) as [Hl _ _ _ _]. rewrite Hl, He in Hk. simpl in Hk. lia.
  - intros q [->|Hq]%elem_of_cons; [by right|by left].
  - intros s' Hs' Hr' Hm' _ Hl' _. eapply wp_mono; [apply (IH s' Hs'); congruence|]. simpl. intros _ s'' (H1 & H2 & H3 & H4).
    split_and!; [done|congruence..].
Qed.

(** ** The start *)
Record at_start (s : GenState) : Prop := {
  as_nodes : dfaNodes s = [];
  as_pending : pendingEdges s = [];
  as_map : itemToNodeOrdMap s = [];
  as_reach : length (itemReachable s) = M;
  as_known : length (knownZeroBitsForItem s) = M
}.
Lemma at_start_made s : at_start s -> items_made 0 s.
Proof using Type.
  intros [H1 H2 H3 H4 H5]. assert (Hno : forall p : PendingEdge, p ∈ [] -> False) by (intros p Hp; by apply not_elem_of_nil in Hp).
  split; [|by rewrite H3|rewrite H1; simpl; lia]. rewrite H2. split; rewrite ?H1, ?H3; simpl.
  - done.
  - done.
  - constructor.
  - by intros a n k d [=].
  - by intros a n k [=].
  - by intros p ?%Hno.
  - by intros p d ?%Hno.
  - constructor.
  - by intros p ?%Hno.
  - by intros j x [=].
  - by intros j d [=].
Qed.
Lemma gen_start_at : at_start (gen_start items).
Proof using Type. split; simpl; [done|done|done|apply length_replicate|apply length_replicate]. Qed.
Lemma start_item_total ord s : at_start s -> (ord < M)%nat ->
  wp no_error (start_item ord) (fun _ s' => at_start s' /\ reached s s' /\ itemReachable s' !! ord = Some true) s.
Proof using Type.
  intros [H1 H2 H3 H4 H5] Ho. unfold start_item. apply wp_modify. split_and!; simpl.
  - split; simpl; [done|done|done|by rewrite length_insert|by rewrite length_insert].
  - intros j Hj. simpl. destruct (decide (j = ord)) as [->|]; [|by rewrite list_lookup_insert_ne]. apply list_lookup_insert_eq. by rewrite H4.
  - apply list_lookup_insert_eq. by rewrite H4.
Qed.
(** The item of every leaf is reached. *)
Definition leaves_reached (b : Z) (bits : list nat) (s : GenState) : Prop :=
  forall j, j ∈ bits -> ~ has b j -> exists ord, findMinOverapprox items (Z.lor b (bit j)) = Some ord /\ (ord < M)%nat /\ itemReachable s !! ord = Some true.
Lemma leaf_item b j : bottom = Some b -> (items = [] -> Sub topMask b) -> (j < numBits)%nat -> ~ has b j ->
  exists ord, findMinOverapprox items (Z.lor b (bit j)) = Some ord.
Proof.
  intros Hb Hnil Hj Hbj. assert (Hne : items <> []).
  { intros He. apply Hbj, (Hnil He). by apply topMask_bits. }
  destruct (findMinOverapprox_least bottom items Hok (Z.lor b (bit j)) Hne) as (ord & Hord & _); [| |by exists ord].
  - apply Sub_lor. split; [|by apply Sub_bit, topMask_bits]. destruct (io_top _ _ Hok Hne) as (i & Hi & <-). by apply (io_bottom _ _ Hok b i).
  - intros (b' & Hb' & Hs). assert (b' = b) as -> by congruence. apply Hbj, Hs, has_lor. right. by apply has_bit.
Qed.
Lemma start_leaves_total b : bottom = Some b -> (items = [] -> Sub topMask b) -> forall bits, (forall j, j ∈ bits -> (j < numBits)%nat) -> forall s, at_start s ->
  wp no_error (start_leaves items b bits) (fun _ s' => at_start s' /\ reached s s' /\ leaves_reached b bits s') s.
Proof.
  intros Hb Hnil. induction bits as [|j bits IH]; intros Hbits s Hs; cbn [start_leaves].
  - apply wp_ret. split_and!; [done|by apply reached_same|]. intros j Hj. by apply not_elem_of_nil in Hj.
  - assert (Hrest : forall j, j ∈ bits -> (j < numBits)%nat) by (intros k Hk; apply Hbits; by right).
    apply wp_bind. unfold when. apply wp_if; intros Hbit.
    + apply land_bit in Hbit. destruct (leaf_item b j Hb Hnil) as [ord E]; [apply Hbits; by left|done|]. rewrite E.
      pose proof (findMinOverapprox_lt bottom items Hok _ _ E) as Hord.
      eapply wp_mono; [by apply (start_item_total ord s Hs)|]. intros _ s1 (Hs1 & Hr1 & Ho).
      eapply wp_mono; [apply (IH Hrest s1 Hs1)|]. intros _ s2 (Hs2 & Hr2 & Hl). split_and!; [done|by eapply reached_trans|].
      intros j' [->|Hj']%elem_of_cons Hn; [|by apply Hl]. exists ord. split_and!; [done|done|by apply Hr2].
    + apply wp_ret. eapply wp_mono; [apply (IH Hrest s Hs)|]. intros _ s2 (Hs2 & Hr2 & Hl). split_and!; [done|done|].
      intros j' [->|Hj']%elem_of_cons Hn; [|by apply Hl]. exfalso. apply land_bit in Hn. congruence.
Qed.

Lemma covered_true : covered items = true.
Proof.
  unfold covered. apply List.forallb_forall. intros i Hi%list_elem_of_In%elem_of_seq. apply List.forallb_forall. intros j Hj%list_elem_of_In%elem_of_seq.
  change (M_ items) with M in Hi. destruct (Z.land (mask_at i) (bit j) =? 0)%Z eqn:E; [|done]. simpl. apply bool_decide_eq_true_2.
  destruct (T_some bottom items Hok i j) as [d Hd]; [lia|lia|by apply land_bit|]. unfold T in Hd. rewrite E in Hd. by exists d.
Qed.

(** What [build_nodes] makes. *)
Record finished (b : option ItemTy) (s : GenState) : Prop := {
  fi_shape : shape [] [] s;
  fi_nodes : (length (dfaNodes s) <= 3 * M)%nat;
  fi_leaves : forall it, b = Some it -> forall j, (j < numBits)%nat -> ~ has it.1 j ->
    exists node, leaf_node items s it.1 j = Some node /\ (node < length (dfaNodes s))%nat
}.
Lemma shape_node_ok s : shape [] [] s -> forallb node_ok (dfaNodes s) = true.
Proof using Type.
  intros Hs. apply List.forallb_forall. intros n Hn%list_elem_of_In. apply list_elem_of_lookup in Hn as [a Ha].
  pose proof (Forall_lookup_1 _ _ _ _ (sh_nodes _ _ _ _ Hs) Ha) as [Hl _ Hi _ _]. unfold node_ok. rewrite (proj2 (subset_of_spec _ _) Hi). simpl.
  apply andb_true_iff. split; [by apply Nat.eqb_eq|]. apply List.forallb_forall. intros d Hd%list_elem_of_In. apply list_elem_of_lookup in Hd as [k Hk].
  rewrite lookup_drop in Hk. apply bool_decide_eq_true_2.
  destruct (sh_edges _ _ _ _ Hs a n (1 + k) Ha) as [?%not_elem_of_nil|[?%not_elem_of_nil|[d' Hd']]]; [lia|by eapply lookup_lt_Some|done|done|].
  rewrite Hk in Hd'. injection Hd' as ->. done.
Qed.
Lemma build_nodes_total b : (b = None -> items <> []) -> (forall it, b = Some it -> bottom = Some it.1 /\ (items = [] -> Sub topMask it.1)) ->
  wp no_error (build_nodes items b) (fun _ s => finished b s) (gen_start items).
Proof.
  intros Hnone Hsome. unfold build_nodes. rewrite covered_true. apply wp_bind, wp_check; [intros _|done]. apply wp_bind.
  eapply (wp_mono _ _ (fun _ s => at_start s /\ forall it, b = Some it -> leaves_reached it.1 (seq 0 numBits) s)).
  { destruct b as [it|].
    - destruct (Hsome it eq_refl) as [Hb Hnil]. eapply wp_mono; [apply (start_leaves_total it.1 Hb Hnil); [|apply gen_start_at]|].
      + intros j Hj%elem_of_seq. lia.
      + intros _ s (Hs & _ & Hl). split; [done|]. by intros ? [= <-].
    - apply wp_bind, wp_check.
      + intros HM%Nat.ltb_lt. change (M_ items) with M in HM. eapply wp_mono; [apply (start_item_total 0 _ gen_start_at HM)|]. by intros _ s (Hs & _).
      + intros HM%Nat.ltb_ge. change (M_ items) with M in HM. exfalso. destruct items; [by apply Hnone|]. simpl in HM. lia. }
  intros _ s1 (Hs1 & Hl1). apply wp_bind. eapply wp_mono; [apply (handle_items_total M 0 s1 (at_start_made _ Hs1)); lia|].
  intros _ s2 ([Hs2 Hm2 Hn2] & Hr2). simpl in Hm2, Hn2. apply wp_bind, wp_get. cbv beta. apply wp_bind.
  eapply wp_mono; [apply (patch_edges_total _ _ Hs2 Hm2)|]. intros _ s3 (Hs3 & Hr3 & Hm3 & Hn3). apply wp_bind, wp_get. cbv beta.
  rewrite (shape_node_ok _ Hs3). apply wp_check; [intros _|done]. split; [done|lia|].
  intros it Hb j Hj Hbj. destruct (Hl1 it Hb j) as (ord & Hord & Ho & Hro); [apply elem_of_seq; lia|done|]. apply Hr2 in Hro. rewrite <- Hr3 in Hro.
  destruct (lookup_lt_is_Some_2 (itemToNodeOrdMap s3) ord) as [x Hx]; [by rewrite Hm3, Hm2|].
  destruct (sh_mapped _ _ _ _ Hs3 _ _ Hx Hro) as [d ->]. exists d. split; [|by eapply (sh_target _ _ _ _ Hs3)].
  unfold leaf_node. rewrite Hord. simpl. by rewrite Hx.
Qed.
End total.

(** ** The table *)
Lemma terminal_node n : node_shape n -> IsTerminalNode n = Ok (length (m_testMasks n) =? 0)%nat.
Proof.
  intros [_ _ _ Ht Hnone]. unfold IsTerminalNode. destruct (Nat.eqb_spec (length (m_testMasks n)) 0) as [Hl|Hl]; simpl.
  - apply nil_length_inv in Hl. rewrite (Hnone Hl), (proj1 Ht Hl). done.
  - destruct (Z.eqb_spec (m_item n).1 topMask) as [He|]; [|done]. apply Ht in He. by rewrite He in Hl.
Qed.
Lemma node_size n : node_shape n -> exists size, GetByteSize n = Ok size /\ (6 <= size <= 54)%nat.
Proof.
  intros Hn. unfold GetByteSize. rewrite (terminal_node n Hn). cbn [mbind result_bind]. eexists. split; [done|].
  destruct Hn as [Hd Ht _ _ _]. destruct (_ =? 0)%nat; [lia|]. rewrite Hd. unfold x_maxTestMasks in *.
  pose proof (Nat.pow_le_mono_r 2 _ 4 ltac:(lia) Ht) as Hp. change (2 ^ 4)%nat with 16%nat in Hp. lia.
Qed.
Lemma node_offsets_total : forall nodes cur, Forall node_shape nodes ->
  exists os e, node_offsets nodes cur = Ok (os, e) /\ (e <= cur + 54 * length nodes)%nat.
Proof.
  induction nodes as [|n nodes IH]; intros cur Hall; cbn [node_offsets]; [exists [], cur; split; [done|simpl; lia]|].
  inversion Hall as [|? ? Hn Hall']; subst. destruct (node_size n Hn) as (size & -> & Hsize). cbn [mbind result_bind].
  destruct (IH (cur + size)%nat Hall') as (os & e & -> & He). cbn [mbind result_bind]. exists (cur :: os), e. split; [done|]. cbn [length]. lia.
Qed.
Lemma node_offsets_bounds : forall nodes cur os e a oa, node_offsets nodes cur = Ok (os, e) -> os !! a = Some oa -> (cur <= oa <= e)%nat.
Proof.
  induction nodes as [|n nodes IH]; intros cur os e a oa H Ha; cbn [node_offsets] in H; [by injection H as <- <-|].
  destruct (GetByteSize n) as [size|]; [|done]. cbn [mbind result_bind] in H.
  destruct (node_offsets nodes (cur + size)) as [[os' e']|] eqn:E; [|done]. cbn [mbind result_bind] in H. injection H as <- <-.
  pose proof (node_offsets_inv _ _ _ _ E) as (_ & Hle & _). destruct a as [|a]; simpl in Ha; [injection Ha as <-; lia|].
  pose proof (IH _ _ _ _ _ E Ha). lia.
Qed.
Lemma node_offsets_sorted : forall nodes cur os e, Forall node_shape nodes -> node_offsets nodes cur = Ok (os, e) ->
  forall a b oa ob, os !! a = Some oa -> os !! b = Some ob -> (a < b)%nat -> (oa < ob)%nat.
Proof.
  induction nodes as [|n nodes IH]; intros cur os e Hall H a b oa ob Ha Hb Hlt; cbn [node_offsets] in H; [by injection H as <- <-|].
  inversion Hall as [|? ? Hn Hall']; subst. destruct (node_size n Hn) as (size & Hs & Hsize). rewrite Hs in H. cbn [mbind result_bind] in H.
  destruct (node_offsets nodes (cur + size)) as [[os' e']|] eqn:E; [|done]. cbn [mbind result_bind] in H. injection H as <- <-.
  destruct b as [|b]; [lia|]. simpl in Hb. destruct a as [|a]; simpl in Ha; [|eapply IH; [done|exact E|exact Ha|exact Hb|lia]].
  injection Ha as <-. pose proof (node_offsets_bounds _ _ _ _ _ _ E Hb). lia.
Qed.

Lemma not_far (o : nat) : (Z.of_nat o <= 65534)%Z -> (65534 <? o)%nat = false.
Proof. intros H. apply Nat.ltb_ge. apply Nat2Z.inj_le. replace (Z.of_nat 65534) with 65534%Z by (by vm_compute). done. Qed.
(** The destinations are known, later, and near enough. *)
Definition near (offsets : list nat) (cur : nat) (n : NodeInfo) : Prop :=
  forall k d, m_dests n !! k = Some (Some d) -> exists o, offsets !! d = Some o /\ (cur < o)%nat /\ (Z.of_nat o <= 65534)%Z.
Lemma all_dests_total offsets cur : forall ds, (forall k d, ds !! k = Some (Some d) -> exists o, offsets !! d = Some o /\ (cur < o)%nat /\ (Z.of_nat o <= 65534)%Z) ->
  exists bs, all_dests offsets cur ds = Ok bs.
Proof.
  induction ds as [|d ds IH]; intros Hds; cbn [all_dests]; [by eexists|].
  assert (Hb : exists b, dest_bytes offsets cur d = Ok b).
  { destruct d as [d|]; simpl; [|by eexists]. destruct (Hds 0%nat d eq_refl) as (o & -> & Hlt & Hsmall). apply Nat.ltb_lt in Hlt as ->. cbn [negb].
    rewrite not_far by lia. by eexists. }
  destruct Hb as [b ->]. destruct IH as [bs ->]; [intros k d' Hk; by apply (Hds (S k))|]. cbn [mbind result_bind]. by eexists.
Qed.
Lemma Populate_total offsets cur n : node_shape n -> near offsets cur n -> exists bs, Populate offsets cur n = Ok bs.
Proof.
  intros Hn Hnear. unfold Populate, GetClearMask. rewrite (terminal_node n Hn). pose proof (proj2 (subset_of_spec _ _) (ns_item _ Hn)) as Hs.
  unfold subset_of in Hs. rewrite Hs. cbn [mbind result_bind]. destruct (_ =? 0)%nat; [by eexists|].
  destruct (all_dests_total offsets cur (m_dests n) Hnear) as [ds ->]. cbn [mbind result_bind]. by eexists.
Qed.
Lemma populate_nodes_total offsets : forall nodes cur os e rs, Forall node_shape nodes -> node_offsets nodes cur = Ok (os, e) ->
  (forall a n o, nodes !! a = Some n -> os !! a = Some o -> near offsets o n) -> (e <= length rs)%nat ->
  exists rs', populate_nodes offsets os nodes rs = Ok rs'.
Proof.
  induction nodes as [|n nodes IH]; intros cur os e rs Hall H Hnear He; cbn [node_offsets] in H; [injection H as <- <-; by eexists|].
  inversion Hall as [|? ? Hn Hall']; subst. destruct (node_size n Hn) as (size & Hs & Hsize). rewrite Hs in H. cbn [mbind result_bind] in H.
  destruct (node_offsets nodes (cur + size)) as [[os' e']|] eqn:E; [|done]. cbn [mbind result_bind] in H. injection H as <- <-.
  cbn [populate_nodes]. destruct (Populate_total offsets cur n Hn) as [bs Hbs]; [by apply (Hnear 0%nat)|]. rewrite Hbs. cbn [mbind result_bind].
  destruct (Populate_inv _ _ _ _ (ns_tests _ Hn) Hbs) as (Hsize' & _). assert (size = length bs) as -> by congruence.
  pose proof (node_offsets_inv _ _ _ _ E) as (_ & Hle & _). unfold store. destruct (Nat.leb_spec (cur + length bs) (length rs)); [|lia].
  cbn [mbind result_bind]. apply (IH _ _ _ _ Hall' E); [intros a n' o Hn' Ho; by apply (Hnear (S a))|by rewrite length_inserts].
Qed.

(** The table of the nodes that [build_nodes] makes. *)
Section table.
Context (items : list ItemTy) (b : option ItemTy) (s : GenState) (start : nat).
Hypothesis Hfin : finished items b s.
Hypothesis Hstart : (start <= 22)%nat.
Hypothesis Hitems : (length items <= 256)%nat.
#[local] Set Default Proof Using "Type*".

Lemma table_offsets : exists os e, node_offsets (dfaNodes s) start = Ok (os, e) /\ (Z.of_nat e <= 65534)%Z.
Proof.
  destruct (node_offsets_total (dfaNodes s) start (sh_nodes _ _ _ _ (fi_shape _ _ _ Hfin))) as (os & e & He & Hle). exists os, e. split; [done|].
  pose proof (fi_nodes _ _ _ Hfin). lia.
Qed.
Lemma table_populated os e rs : node_offsets (dfaNodes s) start = Ok (os, e) -> (Z.of_nat e <= 65534)%Z -> (e <= length rs)%nat ->
  exists rs', populate_nodes os os (dfaNodes s) rs = Ok rs'.
Proof.
  intros He Hsmall Hrs. pose proof (fi_shape _ _ _ Hfin) as Hs. apply (populate_nodes_total os _ start os e rs (sh_nodes _ _ _ _ Hs) He); [|done].
  intros a n o Hn Ho k d Hd. destruct (sh_dests _ _ _ _ Hs a n k d Hn Hd) as [Hlt Hdl].
  pose proof (node_offsets_inv _ _ _ _ He) as (Hlen & _). destruct (lookup_lt_is_Some_2 os d) as [o' Ho']; [lia|]. exists o'. split; [done|].
  split; [by apply (node_offsets_sorted _ _ _ _ (sh_nodes _ _ _ _ Hs) He a d)|]. pose proof (node_offsets_bounds _ _ _ _ _ _ He Ho'). lia.
Qed.
Lemma table_leaves os e it : node_offsets (dfaNodes s) start = Ok (os, e) -> (Z.of_nat e <= 65534)%Z -> b = Some it ->
  forall bits, (forall j, j ∈ bits -> (j < numBits)%nat) -> exists es, leaf_entries items s os it.1 bits = Ok es.
Proof.
  intros He Hsmall Hb. induction bits as [|j bits IH]; intros Hbits; cbn [leaf_entries]; [by eexists|].
  assert (Hent : exists v, leaf_entry items s os it.1 j = Ok v).
  { unfold leaf_entry. destruct (Z.land it.1 (bit j) =? 0)%Z eqn:E; [|by eexists]. cbn [negb]. apply land_bit in E.
    destruct (fi_leaves _ _ _ Hfin it Hb j) as (node & -> & Hnode); [apply Hbits; by left|done|]. cbn [mbind option_bind].
    pose proof (node_offsets_inv _ _ _ _ He) as (Hlen & _). destruct (lookup_lt_is_Some_2 os node) as [o Ho]; [lia|]. rewrite Ho.
    pose proof (node_offsets_bounds _ _ _ _ _ _ He Ho). rewrite not_far by lia. by eexists. }
  destruct Hent as [v ->]. destruct IH as [es ->]; [intros k Hk; apply Hbits; by right|]. cbn [mbind result_bind]. by eexists.
Qed.
End table.
