(* ===== verification/AutomataClosure.v ===== *)
(** * The closure of the items

    [MakeClosure] of [Automata.v] adds the intersections of the masks: the order in which
    it meets the pairs gives every intersection the value of an item than which no smaller
    one covers it. *)
From S2P Require Import Prelude TypeMask Automata AutomataMasks.
From stdpp Require Import gmap sorting.
#[local] Open Scope Z_scope.
#[local] Set Default Proof Using "Type".

(** [F(x)] of the comment in the source: a value of [x] is that of an item that covers it,
    with no smaller item that does, and [failure] when none does. *)
Definition best (m_items : list ItemTy) (x : Z) (it : ItemTy) : Prop :=
  it ∈ m_items /\ Sub x it.1 /\ forall D : ItemTy, D ∈ m_items -> Sub x D.1 -> Sub D.1 it.1 -> D.1 = it.1.
Definition answers (m_items : list ItemTy) (x v : Z) : Prop :=
  ((exists it, it ∈ m_items /\ Sub x it.1) -> exists it, best m_items x it /\ it.2 = v) /\
  ((forall it : ItemTy, it ∈ m_items -> ~ Sub x it.1) -> v = failure).

(** The masks of the closure, and when there are more than [n]. *)
Inductive meet_of (m_items : list ItemTy) : Z -> Prop :=
  | meet_item (it : ItemTy) : it ∈ m_items -> meet_of m_items it.1
  | meet_land a b : meet_of m_items a -> meet_of m_items b -> meet_of m_items (Z.land a b).
Definition many_meets (n : nat) (m_items : list ItemTy) : Prop :=
  exists r, NoDup r /\ (n < length r)%nat /\ forall m, m ∈ r -> meet_of m_items m.

Section closure.
Context (m_items : list ItemTy).

(** The item [it] at [i] has the value of [o], and its intersection with a smaller item
    than [o] comes earlier. *)
Definition origin_ok (r : list ItemTy) (i : nat) (it o : ItemTy) : Prop :=
  o ∈ m_items /\ it.2 = o.2 /\ Sub it.1 o.1 /\
  forall D : ItemTy, D ∈ m_items -> Sub D.1 o.1 -> D.1 <> o.1 -> ~ Sub it.1 D.1 /\ exists i', (i' < i)%nat /\ masks r !! i' = Some (Z.land D.1 it.1).
Record round_ok (em : gset Z) (r : list ItemTy) : Prop := {
  ro_em : forall m, m ∈ em <-> m ∈ masks r;
  ro_nodup : NoDup (masks r);
  ro_meet : forall m, m ∈ masks r -> meet_of m_items m;
  ro_origin : forall i (it : ItemTy), r !! i = Some it -> exists o, origin_ok r i it o
}.
(** All pairs with an item before [i] were seen. *)
Definition seen (em : gset Z) (r : list ItemTy) (i : nat) : Prop :=
  forall i' (a b : ItemTy), (i' < i)%nat -> r !! i' = Some a -> b ∈ r -> Z.land a.1 b.1 ∈ em.

Lemma origin_app r l i it o : origin_ok r i it o -> origin_ok (r ++ l) i it o.
Proof.
  intros (H1 & H2 & H3 & H4). split_and!; [done|done|done|]. intros D HD Hs Hne. destruct (H4 D HD Hs Hne) as [Hn (i' & Hi & Hm)].
  split; [done|]. exists i'. split; [done|]. unfold masks in *. rewrite fmap_app. by apply lookup_app_Some_l.
Qed.
Lemma masks_app r l : masks (r ++ l) = masks r ++ masks l.
Proof. apply fmap_app. Qed.
Lemma masks_elem r it : it ∈ r -> it.1 ∈ masks r.
Proof. apply list_elem_of_fmap_2. Qed.

Lemma add_pair_ok em (r new : list ItemTy) i (a b : ItemTy) : round_ok em (r ++ new) -> seen em r i -> r !! i = Some a -> b ∈ r ->
  exists em' new', add_pair (em, new) (a, b) = (em', new') /\ round_ok em' (r ++ new') /\ Z.land a.1 b.1 ∈ em' /\ em ⊆ em' /\
    exists l, new' = new ++ l.
Proof.
  intros Hr Hseen Ha Hb. unfold add_pair. simpl. set (m := Z.land a.1 b.1). case_bool_decide as Hm; simpl.
  - exists em, new. split_and!; [done|done|done|done|]. exists []. by rewrite app_nil_r.
  - exists ({[m]} ∪ em), (new ++ [(m, a.2)]). split_and!; [done| |set_solver|set_solver|by eexists]. rewrite app_assoc. destruct Hr as [Hem Hnd Hmt Hor]. split.
    + intros m'. rewrite masks_app, elem_of_app, elem_of_union, Hem. simpl. rewrite elem_of_singleton, list_elem_of_singleton. tauto.
    + rewrite masks_app. apply NoDup_app. split_and!; [done| |apply NoDup_singleton]. intros m' Hm' ->%list_elem_of_singleton. by apply Hm, Hem.
    + intros m'. rewrite masks_app. intros [Hm'| ->%list_elem_of_singleton]%elem_of_app; [by apply Hmt|].
      apply meet_land; apply Hmt; rewrite masks_app; apply elem_of_app; left; apply masks_elem; [by eapply list_elem_of_lookup_2|done].
    + intros k it [Hk|[-> ->]]%list_lookup_snoc_Some.
      { destruct (Hor k it Hk) as [o Ho]. exists o. by apply origin_app. }
      destruct (Hor i a) as (o & Ho & Hv & Hs & HD); [by apply lookup_app_Some_l|]. exists o. split_and!; simpl; [done|done| |].
      * etrans; [|exact Hs]. intros n Hn. by apply has_land in Hn as [? _].
      * intros D HDm HDo HDne. destruct (HD D HDm HDo HDne) as [_ (i' & Hi & Hmask)].
        assert (Hi' : (i' < length r)%nat) by (apply lookup_lt_Some in Ha; lia). destruct (lookup_lt_is_Some_2 r i' Hi') as [a' Ha'].
        unfold masks in Hmask. rewrite list_lookup_fmap, (lookup_app_Some_l _ _ _ _ Ha') in Hmask. injection Hmask as Hmask.
        pose proof (Hseen i' a' b Hi Ha' Hb) as Hin. rewrite Hmask in Hin.
        assert (He : Z.land (Z.land D.1 a.1) b.1 = Z.land D.1 m) by (unfold m; by rewrite Z.land_assoc). rewrite He in Hin. split.
        -- intros Hsub. apply Hm. replace m with (Z.land D.1 m); [done|]. rewrite Z.land_comm. apply subset_of_spec in Hsub.
           unfold subset_of in Hsub. rewrite Z.land_comm. by apply Z.eqb_eq in Hsub.
        -- apply Hem, list_elem_of_lookup in Hin as [k Hk]. exists k. split; [|rewrite masks_app; by apply lookup_app_Some_l].
           apply lookup_lt_Some in Hk. unfold masks in Hk. by rewrite length_fmap in Hk.
Qed.

Lemma row_ok (r : list ItemTy) (i : nat) (a : ItemTy) : forall (bs : list ItemTy) em new, round_ok em (r ++ new) -> seen em r i -> r !! i = Some a -> (forall b, b ∈ bs -> b ∈ r) ->
  exists em' new', foldl add_pair (em, new) ((fun b => (a, b)) <$> bs) = (em', new') /\ round_ok em' (r ++ new') /\ em ⊆ em' /\
    (forall b : ItemTy, b ∈ bs -> Z.land a.1 b.1 ∈ em') /\ exists l, new' = new ++ l.
Proof.
  induction bs as [|b bs IH]; intros em new Hr Hseen Ha Hbs.
  - exists em, new. split_and!; [done|done|done|set_solver|]. exists []. by rewrite app_nil_r.
  - destruct (add_pair_ok em r new i a b Hr Hseen Ha) as (em1 & new1 & Hstep & Hr1 & Hin & Hsub & l & Hl); [set_solver|].
    change (foldl add_pair (em, new) ((fun b => (a, b)) <$> b :: bs)) with (foldl add_pair (add_pair (em, new) (a, b)) ((fun b => (a, b)) <$> bs)).
    rewrite Hstep.
    destruct (IH em1 new1 Hr1) as (em2 & new2 & Hrun & Hr2 & Hsub2 & Hall & l' & Hl'); [intros ??????; apply Hsub; by eapply Hseen|done|set_solver|].
    exists em2, new2. split_and!; [done|done|set_solver|set_solver|]. exists (l ++ l'). by rewrite Hl', Hl, app_assoc.
Qed.

(** All the rows of a round. *)
Lemma rows_ok lastN r em : round_ok em r -> seen em (take lastN r) lastN -> forall k, (k <= length r)%nat ->
  exists em' new, foldl add_pair (em, []) (concat (take k (imap (fun i a => (fun b => (a, b)) <$> drop (if (i <? lastN)%nat then lastN else 0%nat) r) r))) = (em', new) /\
    round_ok em' (r ++ new) /\ seen em' r k /\ em ⊆ em'.
Proof.
  intros Hr Hlast. induction k as [|k IH]; intros Hk.
  - exists em, []. rewrite app_nil_r. split_and!; [done|done|intros ???; lia|done].
  - destruct IH as (em1 & new1 & Hrun & Hr1 & Hseen1 & Hsub1); [lia|]. destruct (lookup_lt_is_Some_2 r k ltac:(lia)) as [a Ha].
    erewrite take_S_r by (by rewrite list_lookup_imap, Ha). rewrite concat_app, foldl_app, Hrun. cbn [concat]. rewrite app_nil_r.
    set (js := drop _ r). destruct (row_ok r k a js em1 new1 Hr1 Hseen1 Ha) as (em2 & new2 & Hrun2 & Hr2 & Hsub2 & Hall & _).
    { intros b Hb. unfold js in Hb. rewrite <- (take_drop (if (k <? lastN)%nat then lastN else 0%nat) r). apply elem_of_app. by right. }
    exists em2, new2. split_and!; [done|done| |set_solver]. intros i a' b Hi Ha' Hb. destruct (decide (i = k)) as [->|Hne].
    + assert (a' = a) as -> by congruence. destruct (decide (b ∈ js)) as [Hj|Hj]; [by apply Hall|]. unfold js in Hj.
      destruct (Nat.ltb_spec k lastN) as [Hlt|]; [|by rewrite drop_0 in Hj]. apply Hsub2, Hsub1. apply (Hlast k); [done|by rewrite lookup_take_lt|].
      rewrite <- (take_drop lastN r) in Hb. apply elem_of_app in Hb as [|]; done.
    + apply Hsub2. apply (Hseen1 i); [lia|done|done].
Qed.
Lemma round_pairs_ok lastN r em : round_ok em r -> seen em (take lastN r) lastN ->
  exists em' new, foldl add_pair (em, []) (round_pairs lastN r) = (em', new) /\ round_ok em' (r ++ new) /\ seen em' r (length r) /\ (new = [] -> forall m, m ∈ em' <-> m ∈ masks r).
Proof.
  intros Hr Hlast. destruct (rows_ok lastN r em Hr Hlast (length r) (Nat.le_refl _)) as (em' & new & Hrun & Hr' & Hseen & _).
  rewrite take_ge in Hrun by (by rewrite length_imap). exists em', new. split_and!; [done|done|done|]. intros ->. rewrite app_nil_r in Hr'. apply (ro_em _ _ Hr').
Qed.

(** What the loop reaches: everything is closed; it stops in time. *)
Record closure_is (r0 r : list ItemTy) : Prop := {
  ci_nodup : NoDup (masks r);
  ci_meet : forall m, m ∈ masks r -> meet_of m_items m;
  ci_closed : forall a b : ItemTy, a ∈ r -> b ∈ r -> Z.land a.1 b.1 ∈ masks r;
  ci_contains : forall it : ItemTy, it ∈ r0 -> it ∈ r;
  ci_origin : forall it : ItemTy, it ∈ r -> exists o, best m_items it.1 o /\ it.2 = o.2
}.
Lemma origin_best r i it o : origin_ok r i it o -> best m_items it.1 o.
Proof.
  intros (Ho & _ & Hs & HD). split_and!; [done|done|]. intros D HDm Hit HDo. destruct (decide (D.1 = o.1)) as [|Hne]; [done|].
  by destruct (HD D HDm HDo Hne) as [? _].
Qed.
Lemma closure_is_trans r0 r1 r : (forall it, it ∈ r0 -> it ∈ r1) -> closure_is r1 r -> closure_is r0 r.
Proof. intros H [H1 H2 H3 H4 H5]. split; auto. Qed.
Lemma closure_loop_ok : forall fuel em lastN r, round_ok em r -> seen em (take lastN r) lastN -> (0 < fuel)%nat -> (501 < length r + fuel)%nat ->
  (closure_loop fuel em lastN r = Err too_many /\ many_meets 500 m_items) \/ exists r', closure_loop fuel em lastN r = Ok r' /\ closure_is r r'.
Proof.
  induction fuel as [|fuel IH]; intros em lastN r Hr Hlast Hpos Hfuel; cbn [closure_loop]; [lia|].
  destruct (Nat.ltb_spec 500 (length r)) as [Hlong|Hshort].
  { left. split; [done|]. exists (masks r). split_and!; [apply (ro_nodup _ _ Hr)| |apply (ro_meet _ _ Hr)]. unfold masks. by rewrite length_fmap. }
  destruct (round_pairs_ok lastN r em Hr Hlast) as (em' & new & Hrun & Hr' & Hseen & Hend). rewrite Hrun. destruct new as [|it new].
  - right. exists r. split; [done|]. split.
    + apply (ro_nodup _ _ Hr).
    + apply (ro_meet _ _ Hr).
    + intros a b Ha Hb. apply (Hend eq_refl). apply list_elem_of_lookup in Ha as [i Ha]. apply (Hseen i); [by eapply lookup_lt_Some|done|done].
    + done.
    + intros it (i & Hi)%list_elem_of_lookup. destruct (ro_origin _ _ Hr i it Hi) as [o Ho]. exists o. split; [by eapply origin_best|]. apply Ho.
  - destruct (IH em' (length r) (r ++ it :: new) Hr') as [He|(r' & Hok & Hc)]; [|lia|rewrite length_app; simpl; lia|by left|].
    + by rewrite take_app_length.
    + right. exists r'. split; [done|]. eapply closure_is_trans; [|exact Hc]. set_solver.
Qed.
End closure.

(** ** [MakeClosure] *)
Lemma masks_lookup (r : list ItemTy) i it : r !! i = Some it -> masks r !! i = Some it.1.
Proof. intros H. unfold masks, ItemTy in *. by rewrite list_lookup_fmap, H. Qed.
#[export] Instance item_le_trans : Transitive item_le.
Proof. intros a b c. unfold item_le. lia. Qed.
#[export] Instance item_le_total : Total item_le.
Proof. intros a b. unfold item_le. lia. Qed.
Lemma sort_items_perm l : sort_items l ≡ₚ l.
Proof. apply merge_sort_Permutation. Qed.
Lemma sort_items_sorted l : StronglySorted item_le (sort_items l).
Proof. apply StronglySorted_merge_sort; apply _. Qed.
Lemma sorted_lookup (l : list ItemTy) i j a b : StronglySorted item_le l -> l !! i = Some a -> l !! j = Some b -> (i < j)%nat -> item_le a b.
Proof.
  intros Hs. revert i j. induction Hs as [|x l Hs IH Hall]; intros i j Hi Hj Hlt; [done|]. destruct j as [|j]; [lia|]. simpl in Hj.
  destruct i as [|i]; simpl in Hi; [|apply (IH i j); [done|done|lia]]. injection Hi as <-. by apply (Forall_lookup_1 _ _ _ _ Hall Hj).
Qed.
Lemma masks_perm r r' : r ≡ₚ r' -> masks r ≡ₚ masks r'.
Proof. intros H. unfold masks. by rewrite H. Qed.
Lemma masks_inj (r : list ItemTy) a b : NoDup (masks r) -> a ∈ r -> b ∈ r -> a.1 = b.1 -> a = b.
Proof.
  intros Hnd (i & Hi)%list_elem_of_lookup (j & Hj)%list_elem_of_lookup He.
  assert (i = j) as ->; [|congruence]. eapply (NoDup_lookup (masks r) i j a.1); [done| |].
  - by apply masks_lookup.
  - rewrite He. by apply masks_lookup.
Qed.

Lemma sorted_round_ok m_items : Forall (fun it : ItemTy => 0 <= it.1) m_items -> NoDup (masks m_items) ->
  round_ok m_items (list_to_set (masks (sort_items m_items))) (sort_items m_items).
Proof.
  intros Hpos Hnd. pose proof (sort_items_perm m_items) as Hp. split.
  - intros m. by rewrite elem_of_list_to_set.
  - by rewrite (masks_perm _ _ Hp).
  - intros m. rewrite (masks_perm _ _ Hp). intros (it & -> & Hit)%list_elem_of_fmap. by apply meet_item.
  - intros i it Hi. assert (Hit : it ∈ m_items) by (rewrite <- Hp; by eapply list_elem_of_lookup_2). exists it. split_and!; [done|done|done|].
    intros D HD Hs Hne. assert (Hlt : D.1 < it.1).
    { pose proof (Sub_le D.1 it.1 (proj1 (Forall_forall _ _) Hpos it Hit) Hs (proj1 (Forall_forall _ _) Hpos D HD)). lia. }
    split; [intros Hs'; by apply Hne, Sub_antisym|]. assert (HDr : D ∈ sort_items m_items) by (by rewrite Hp).
    apply list_elem_of_lookup in HDr as [i' Hi']. exists i'. split.
    + destruct (decide (i' < i)%nat) as [|Hge]; [done|]. exfalso. destruct (decide (i = i')) as [<-|]; [congruence|].
      pose proof (sorted_lookup _ i i' it D (sort_items_sorted _) Hi Hi' ltac:(lia)) as [?|?]; lia.
    + rewrite (masks_lookup _ _ _ Hi'). f_equal. symmetry. rewrite Z.land_comm. apply Sub_antisym.
      * intros n Hn. by apply has_land in Hn as [_ ?].
      * intros n Hn. apply has_land. auto.
Qed.

Lemma closure_ok_true m_items r : closure_is m_items m_items r -> closure_ok m_items r = true.
Proof.
  intros [H1 _ H2 H3 _]. unfold closure_ok. rewrite bool_decide_eq_true_2 by done. simpl. apply andb_true_iff. split; apply List.forallb_forall.
  - intros it Hit%list_elem_of_In. apply bool_decide_eq_true_2, masks_elem; auto.
  - intros a Ha%list_elem_of_In. apply List.forallb_forall. intros b Hb%list_elem_of_In. apply bool_decide_eq_true_2; auto.
Qed.
Lemma closure_is_perm m_items r0 r r' : r ≡ₚ r' -> closure_is m_items r0 r -> closure_is m_items r0 r'.
Proof.
  intros Hp [H1 H0 H2 H3 H4]. split.
  - by rewrite <- (masks_perm _ _ Hp).
  - intros m. rewrite <- (masks_perm _ _ Hp). apply H0.
  - intros a b Ha Hb. pose proof (masks_perm _ _ Hp) as Hm. rewrite <- Hm. apply H2; by rewrite Hp.
  - intros it. rewrite <- Hp. auto.
  - intros it. rewrite <- Hp. auto.
Qed.

(** It fails on two items with one mask and on too many masks, and on nothing else. *)
Lemma MakeClosure_closes m_items : Forall (fun it : ItemTy => 0 <= it.1) m_items ->
  if decide (NoDup (masks m_items))
  then (MakeClosure m_items = Err too_many /\ many_meets 500 m_items) \/ exists r, MakeClosure m_items = Ok r /\ closure_is m_items m_items r /\ StronglySorted item_le r
  else MakeClosure m_items = Err (AssertFailed "!existMap.count(item.first)").
Proof.
  intros Hpos. pose proof (sort_items_perm m_items) as Hp. unfold MakeClosure. case_bool_decide as Hs; destruct (decide _) as [Hnd|Hnd].
  - cbn [negb]. destruct (closure_loop_ok m_items 502 _ 0 _ (sorted_round_ok m_items Hpos Hnd)) as [[-> Hmany]|(r & -> & Hc)].
    + intros ?????; lia.
    + lia.
    + lia.
    + by left.
    + right. cbn [mbind result_bind]. assert (Hc' : closure_is m_items m_items (sort_items r)).
      { eapply closure_is_perm; [symmetry; apply sort_items_perm|]. eapply closure_is_trans; [|exact Hc]. intros it. by rewrite Hp. }
      rewrite (closure_ok_true _ _ Hc'). exists (sort_items r). split_and!; [done|done|apply sort_items_sorted].
  - exfalso. apply Hnd. by rewrite <- (masks_perm _ _ Hp).
  - exfalso. apply Hs. by rewrite (masks_perm _ _ Hp).
  - done.
Qed.
