(* ===== verification/AutomataProps.v ===== *)
(** * The automata find a best covering item

    The tables of [Automata.v], run on a mask, give the value of an item of the list that
    covers the mask and has no smaller item that covers it. *)
From S2P Require Import Prelude TypeMask Automata AutomataMasks AutomataInv AutomataTable AutomataTotal AutomataClosure.
From stdpp Require Import gmap sorting.
#[local] Open Scope Z_scope.
#[local] Set Default Proof Using "Type".

(** ** The items of [prepare_items] *)
Lemma mask_lookup items i it : items !! i = Some it -> mask_at items i = it.1 /\ value_at items i = it.2.
Proof. intros H. unfold mask_at, value_at. by rewrite H. Qed.
Lemma mask_outside (items : list ItemTy) i : ~ (i < length items)%nat -> mask_at items i = 0 /\ value_at items i = 0.
Proof. intros H. unfold mask_at, value_at, ItemTy in *. by rewrite lookup_ge_None_2 by lia. Qed.
Lemma increasing_lookup : forall l i j a b, increasing l = true -> l !! i = Some a -> l !! j = Some b -> (i < j)%nat -> a < b.
Proof.
  assert (Hhead : forall l a j b, increasing (a :: l) = true -> l !! j = Some b -> a < b).
  { induction l as [|c l IH]; intros a j b H Hj; [done|]. cbn [increasing] in H. apply andb_true_iff in H as [Hac%Z.ltb_lt H].
    destruct j as [|j]; simpl in Hj; [congruence|]. pose proof (IH c j b H Hj). lia. }
  induction l as [|c l IH]; intros i j a b H Hi Hj Hlt; [done|]. destruct j as [|j]; [lia|]. simpl in Hj. destruct i as [|i]; simpl in Hi.
  - injection Hi as <-. by eapply Hhead.
  - apply (IH i j); [|done|done|lia]. destruct l as [|d l]; [done|]. cbn [increasing] in H. by apply andb_true_iff in H as [_ H].
Qed.

Record prepared (m_items cl items : list ItemTy) : Prop := {
  pr_closure : closure_is m_items m_items cl;
  pr_sorted : increasing (masks items) = true;
  pr_range : forall it : ItemTy, it ∈ items -> 0 <= it.1 <= topMask;
  pr_elem : forall it : ItemTy, it ∈ items <-> it ∈ cl \/ (it = (topMask, failure) /\ ~ exists it', it' ∈ cl /\ it'.1 = topMask);
  pr_top : exists it : ItemTy, it ∈ items /\ it.1 = topMask
}.
Lemma last_lookup_elem {A} (l : list A) x : last l = Some x -> x ∈ l.
Proof. intros H. apply last_Some in H as [l' ->]. apply elem_of_app. right. by apply list_elem_of_singleton. Qed.

Lemma prepare_items_prepared m_items items : Forall (fun it : ItemTy => 0 <= it.1) m_items -> prepare_items m_items = Ok items ->
  exists cl, prepared m_items cl items.
Proof.
  intros Hpos H. unfold prepare_items in H. pose proof (MakeClosure_closes m_items Hpos) as Hc.
  destruct (decide _); [|by rewrite Hc in H]. destruct Hc as [[Hc _]|(cl & Hc & Hcl & _)]; rewrite Hc in H; [done|]. cbn [mbind result_bind] in H.
  exists cl. destruct (negb _) eqn:Elast; [done|]. apply negb_false_iff in Elast.
  pose (items' := match last cl with Some i => if i.1 <? topMask then cl ++ [(topMask, failure)] else cl | None => [(topMask, failure)] end).
  fold items' in H.
  destruct (negb _) eqn:Eall in H; [done|]. destruct (negb _) eqn:Einc in H; [done|]. injection H as <-.
  apply negb_false_iff in Eall, Einc. assert (Hnonneg : forall it : ItemTy, it ∈ cl -> 0 <= it.1).
  { intros it Hit. destruct (ci_origin _ _ _ Hcl it Hit) as (o & (Ho & Hs & _) & _). eapply Sub_nonneg; [|exact Hs].
    by apply (proj1 (Forall_forall _ _) Hpos). }
  assert (Hrange : forall it : ItemTy, it ∈ items' -> 0 <= it.1 <= topMask).
  { intros it Hit. split.
    - assert (Hcase : it ∈ cl \/ it = (topMask, failure)); [|destruct Hcase as [?| ->]; [auto|by vm_compute]].
      unfold items' in Hit. destruct (last cl) as [i|]; [destruct (i.1 <? topMask)|]; set_solver.
    - apply list_elem_of_In in Hit. pose proof (proj1 (List.forallb_forall _ _) Eall it Hit) as Hlt. cbv beta in Hlt. apply Z.ltb_lt in Hlt.
      assert (Z.shiftl 1 (Z.of_nat numBits) = topMask + 1) as He by (by vm_compute). lia. }
  assert (Helem : (forall it : ItemTy, it ∈ items' <-> it ∈ cl \/ (it = (topMask, failure) /\ ~ exists it', it' ∈ cl /\ it'.1 = topMask)) /\
    exists it : ItemTy, it ∈ items' /\ it.1 = topMask); [|by split; [..|apply Helem|apply Helem]].
  clear Eall Hrange Hnonneg. subst items'. revert Einc. unfold ItemTy in *. destruct (last cl) as [i|] eqn:El; [pose proof (last_lookup_elem _ _ El) as Hi|].
  - destruct (Z.ltb_spec i.1 topMask) as [Hlt|Hge]; intros Einc; (split; [intros it|]).
    + rewrite elem_of_app, list_elem_of_singleton. split; [|tauto]. intros [|Hit]; [by left|]. right. split; [done|].
      intros (it' & (k & Hk)%list_elem_of_lookup & Ht). rewrite masks_app in Einc.
      assert (it'.1 < topMask); [|lia]. apply (increasing_lookup _ k (length cl) _ _ Einc).
      * apply lookup_app_Some_l. by apply masks_lookup.
      * assert (Hl : length (masks cl) = length cl) by apply length_fmap. rewrite lookup_app_r by lia. by rewrite Hl, Nat.sub_diag.
      * by apply lookup_lt_Some in Hk.
    + exists (topMask, failure). set_solver.
    + split; [by left|]. intros [|[_ Hno]]; [done|]. exfalso. apply Hno. exists i. split; [done|]. apply Z.leb_le in Elast. lia.
    + exists i. split; [done|]. apply Z.leb_le in Elast. lia.
  - apply last_None in El. subst cl. intros _. split; [intros it|exists (topMask, failure); set_solver].
    rewrite list_elem_of_singleton. split; [intros ->; right; split; [done|]; intros (? & ? & _); set_solver|]. intros [Hin|[? _]]; [set_solver|done].
Qed.

Section prepared.
Context (m_items cl items : list ItemTy).
Hypothesis Hp : prepared m_items cl items.
Hypothesis Hmasks : Forall (fun it : ItemTy => 0 <= it.1) m_items.
Hypothesis Hvals : Forall (fun it : ItemTy => 0 <= it.2 < 65536) m_items.
#[local] Set Default Proof Using "Type*".

Lemma prepared_mask i : (i < length items)%nat -> exists it : ItemTy, it ∈ items /\ items !! i = Some it /\ mask_at items i = it.1 /\ value_at items i = it.2.
Proof.
  intros Hi. destruct (lookup_lt_is_Some_2 items i Hi) as [it Hit]. exists it. split_and!; [by eapply list_elem_of_lookup_2|done|by apply mask_lookup|by apply mask_lookup].
Qed.
Lemma prepared_index (it : ItemTy) : it ∈ items -> exists i, (i < length items)%nat /\ items !! i = Some it /\ mask_at items i = it.1.
Proof.
  intros [i Hi]%list_elem_of_lookup. exists i. split_and!; [by eapply lookup_lt_Some|done|by apply mask_lookup].
Qed.
Lemma prepared_meet (a b : ItemTy) : a ∈ items -> b ∈ items -> exists c : ItemTy, c ∈ items /\ c.1 = Z.land a.1 b.1.
Proof.
  intros Ha Hb. assert (Hin : forall c : ItemTy, c ∈ items -> Sub c.1 topMask).
  { intros c Hc. apply topMask_max. apply (pr_range _ _ _ Hp c Hc). }
  destruct (proj1 (pr_elem _ _ _ Hp a) Ha) as [Hca|[-> _]]; [destruct (proj1 (pr_elem _ _ _ Hp b) Hb) as [Hcb|[-> _]]|].
  - pose proof (ci_closed _ _ _ (pr_closure _ _ _ Hp) a b Hca Hcb) as Hm. apply list_elem_of_fmap in Hm as (c & Hc & Hcc). exists c.
    split; [|done]. apply (pr_elem _ _ _ Hp). by left.
  - exists a. split; [done|]. simpl. symmetry. rewrite Z.land_comm. pose proof (proj2 (subset_of_spec _ _) (Hin a Ha)) as He. by apply Z.eqb_eq in He.
  - exists b. split; [done|]. simpl. symmetry. pose proof (proj2 (subset_of_spec _ _) (Hin b Hb)) as He. by apply Z.eqb_eq in He.
Qed.

Lemma prepared_ok : items_ok None items.
Proof.
  split.
  - intros i. destruct (decide (i < length items)%nat) as [Hi|Hi].
    + destruct (prepared_mask i Hi) as (it & Hit & _ & -> & _). apply topMask_max. apply (pr_range _ _ _ Hp it Hit).
    + rewrite (proj1 (mask_outside _ _ Hi)). intros n Hn. unfold has in Hn. by rewrite Z.bits_0 in Hn.
  - intros i j [Hij Hj]. destruct (prepared_mask i ltac:(lia)) as (a & _ & Ha & -> & _). destruct (prepared_mask j Hj) as (b & _ & Hb & -> & _).
    apply (increasing_lookup _ i j _ _ (pr_sorted _ _ _ Hp)); [by apply masks_lookup|by apply masks_lookup|done].
  - intros _. destruct (pr_top _ _ _ Hp) as (it & Hit & Ht). destruct (prepared_index it Hit) as (i & Hi & _ & Hm). exists i. split; [done|congruence].
  - done.
  - intros i j Hi Hj. left. destruct (prepared_mask i Hi) as (a & Ha & _ & -> & _). destruct (prepared_mask j Hj) as (b & Hb & _ & -> & _).
    destruct (prepared_meet a b Ha Hb) as (c & Hc & Hcm). destruct (prepared_index c Hc) as (k & Hk & _ & Hm). exists k. split; [done|congruence].
Qed.
Lemma prepared_nonempty : items <> [].
Proof. destruct (pr_top _ _ _ Hp) as (it & Hit & _). intros He. rewrite He in Hit. by apply not_elem_of_nil in Hit. Qed.
Lemma prepared_values i : 0 <= value_at items i < 65536.
Proof.
  destruct (decide (i < length items)%nat) as [Hi|Hi].
  - destruct (prepared_mask i Hi) as (it & Hit & _ & _ & ->). apply (pr_elem _ _ _ Hp) in Hit as [Hit|[-> _]]; [|by vm_compute].
    destruct (ci_origin _ _ _ (pr_closure _ _ _ Hp) it Hit) as (o & (Ho & _) & ->). by apply (proj1 (Forall_forall _ _) Hvals).
  - rewrite (proj2 (mask_outside _ _ Hi)). lia.
Qed.

(** The smallest mask that covers [x] has a right value. *)
Lemma least_answers x l : least items x l -> answers m_items x (value_at items l).
Proof.
  intros (Hl & Hx & Hmin). destruct (prepared_mask l Hl) as (it & Hit & _ & Hm & ->). rewrite Hm in Hx.
  assert (Hsmall : forall D : ItemTy, D ∈ m_items -> Sub x D.1 -> Sub it.1 D.1 /\ D ∈ cl).
  { intros D HD HxD. pose proof (ci_contains _ _ _ (pr_closure _ _ _ Hp) D HD) as Hcl. split; [|done].
    destruct (prepared_index D) as (k & Hk & _ & Hkm); [apply (pr_elem _ _ _ Hp); by left|]. rewrite <- Hkm, <- Hm. apply Hmin; [done|by rewrite Hkm]. }
  apply (pr_elem _ _ _ Hp) in Hit as [Hit|[-> Hno]].
  - destruct (ci_origin _ _ _ (pr_closure _ _ _ Hp) it Hit) as (o & (Ho & Hs & Hbest) & Hv). assert (Hxo : Sub x o.1) by (by etrans). split.
    + intros _. exists o. split; [|done]. split_and!; [done|done|]. intros D HD HxD HDo. apply Hbest; [done| |done]. by apply Hsmall.
    + intros Hnone. by destruct (Hnone o Ho).
  - split; [|done]. intros (D & HD & HxD). exfalso. destruct (Hsmall D HD HxD) as [Hs Hcl]. apply Hno. exists D. split; [done|].
    apply Sub_antisym; [|done]. apply topMask_max, (pr_range _ _ _ Hp). apply (pr_elem _ _ _ Hp). by left.
Qed.
(** The first item is below the others. *)
Lemma first_below i : (i < length items)%nat -> Sub (mask_at items 0) (mask_at items i).
Proof.
  intros Hi. pose proof prepared_ok as Hok. assert (H0 : (0 < length items)%nat) by lia.
  destruct (io_closed _ _ Hok 0 i H0 Hi) as [(k & Hk & Hm)|(b & [=] & _)].
  assert (Hk0 : Sub (mask_at items k) (mask_at items 0)) by (rewrite Hm; intros n Hn; by apply has_land in Hn as [? _]).
  pose proof (Sub_index None items Hok k 0 Hk H0 Hk0). assert (k = 0%nat) as -> by lia. rewrite Hm. intros n Hn. by apply has_land in Hn as [_ ?].
Qed.
Lemma least_exists x : Sub x topMask -> exists l, least items x l.
Proof.
  intros Hx. destruct (findMinOverapprox_least None items prepared_ok x prepared_nonempty Hx) as (l & _ & Hl); [by intros (b & ? & _)|by exists l].
Qed.

(** Without the first item, for the table of leaves. *)
Lemma tail_ok b rest : items = b :: rest -> items_ok (Some b.1) rest.
Proof.
  intros He. pose proof prepared_ok as Hok. pose proof first_below as Hbelow. rewrite He in Hok, Hbelow.
  assert (Hshift : forall i, mask_at rest i = mask_at (b :: rest) (S i)) by done. split.
  - intros i. rewrite Hshift. apply (io_range _ _ Hok).
  - intros i j Hij. rewrite !Hshift. apply (io_sorted _ _ Hok). simpl. lia.
  - intros Hne. destruct (io_top _ _ Hok) as ([|i] & Hi & Hm); [done| |exists i; split; [simpl in Hi; lia|done]]. exfalso.
    destruct rest as [|c rest]; [done|]. pose proof (io_sorted _ _ Hok 0 1 ltac:(simpl; lia)) as Hlt. rewrite Hm in Hlt.
    pose proof (Sub_top_range _ (io_range _ _ Hok 1)). lia.
  - intros b' i [= <-] Hi. rewrite Hshift. apply (Hbelow (S i)). simpl. lia.
  - intros i j Hi Hj. rewrite !Hshift. destruct (io_closed _ _ Hok (S i) (S j)) as [([|k] & Hk & Hm)|(b' & [=] & _)]; [simpl; lia|simpl; lia| |].
    + right. exists b.1. split; [done|]. by rewrite <- Hm.
    + left. exists k. split; [simpl in Hk; lia|done].
Qed.
End prepared.

(** ** The automaton *)
(** A mask and a value of their widths. *)
Definition items_fit (m_items : list ItemTy) : Prop := Forall (fun it : ItemTy => 0 <= it.1 < 4294967296 /\ 0 <= it.2 < 65536) m_items.
Lemma items_fit_masks m_items : items_fit m_items -> Forall (fun it : ItemTy => 0 <= it.1) m_items.
Proof. intros H. eapply Forall_impl; [exact H|]. intros it. simpl. lia. Qed.
Lemma items_fit_values m_items : items_fit m_items -> Forall (fun it : ItemTy => 0 <= it.2 < 65536) m_items.
Proof. intros H. eapply Forall_impl; [exact H|]. intros it. simpl. lia. Qed.

Lemma built_of bottom items b s u : items_ok bottom items -> build_nodes items b (gen_start items) = Ok (u, s) -> exists gs, built items b gs s.
Proof. intros Hok H. apply (wp_ok _ _ _ _ _ _ (build_nodes_ok bottom items Hok b) H). Qed.

Lemma GenerateAutomata_answers m_items rs x : items_fit m_items -> GenerateAutomata m_items = Ok rs -> 0 <= x <= topMask ->
  exists v, RunAutomataMayFail rs x = Ok v /\ answers m_items x v.
Proof.
  intros Hfit H Hx. pose proof (items_fit_masks _ Hfit) as Hmasks. pose proof (items_fit_values _ Hfit) as Hvals. apply topMask_max in Hx.
  unfold GenerateAutomata in H. destruct (prepare_items m_items) as [items|] eqn:Ep; [|done]. cbn [mbind result_bind] in H.
  destruct (prepare_items_prepared m_items items Hmasks Ep) as [cl Hp].
  pose proof (prepared_ok m_items cl items Hp Hmasks Hvals) as Hok.
  destruct (build_nodes items None (gen_start items)) as [[u s]|] eqn:Eb; [|done]. cbn [mbind result_bind] in H.
  destruct (built_of _ _ _ _ _ Hok Eb) as [gs Hb]. destruct (node_offsets (dfaNodes s) 0) as [[offsets e]|] eqn:Eo; [|done].
  cbn [mbind result_bind] in H. destruct (bu_first _ _ _ _ Hb eq_refl) as (g & Hg & Hg0 & Hz0).
  destruct (least_exists m_items cl items Hp Hmasks Hvals x Hx) as [l Hl].
  assert (Harr : arrives items (g_item g) (g_zero g) x).
  { rewrite Hg0, Hz0. split_and!; [done| |exists l; split; [done|]].
    - intros n _ Hn. unfold has in Hn. by rewrite Z.bits_0 in Hn.
    - apply (first_below m_items cl items Hp Hmasks Hvals), Hl. }
  assert (Ho : offsets !! 0%nat = Some 0%nat).
  { apply (node_offsets_inv _ _ _ _ Eo). intros Hnil.
    pose proof (Forall2_length _ _ _ (no_nodes _ _ _ _ (all_nodes_ok items None gs s Hb))) as Hlen. rewrite Hnil in Hlen. apply lookup_lt_Some in Hg. simpl in Hlen. lia. }
  destruct (Run_ok None items Hok (prepared_values m_items cl items Hp Hmasks Hvals) None gs s Hb 0 offsets e _ rs Eo H x 0 g 0) as (l' & Hl' & Hrun);
    [rewrite length_replicate; lia|done|done|done|].
  exists (value_at items l'). split; [done|]. by apply (least_answers m_items cl items Hp Hmasks Hvals).
Qed.

(** ** The table of leaves *)
Lemma count_trailing_zeros_bit : forall fuel x, 0 < x < 2 ^ Z.of_nat fuel -> has x (count_trailing_zeros fuel x).
Proof.
  induction fuel as [|fuel IH]; intros x Hx; [simpl in Hx; lia|]. cbn [count_trailing_zeros]. unfold has in *.
  destruct (Z.odd x) eqn:Ho; [by rewrite Z.bit0_odd|].
  assert (Hd : x = 2 * Z.div2 x) by (pose proof (Z.div2_odd x) as H; rewrite Ho in H; simpl in H; lia).
  revert Hd. generalize (Z.div2 x) as y. intros y ->. rewrite Nat2Z.inj_succ, Z.testbit_even_succ by lia. apply IH.
  rewrite Nat2Z.inj_succ, Z.pow_succ_r in Hx by lia. lia.
Qed.
Lemma leaf_entries_read items s offsets b rs a : forall bits es, leaf_entries items s offsets b bits = Ok es -> length es = (2 * length bits)%nat /\
  (reads rs a es -> forall k j, bits !! k = Some j -> exists e, leaf_entry items s offsets b j = Ok e /\ (0 <= e < 65536 -> load_u16 rs (a + 2 * k) = Ok e)).
Proof.
  intros bits. revert a. induction bits as [|j0 bits IH]; intros a es H; cbn [leaf_entries] in H; [by injection H as <-|].
  destruct (leaf_entry items s offsets b j0) as [e0|] eqn:E0; [|done]. cbn [mbind result_bind] in H.
  destruct (leaf_entries items s offsets b bits) as [es0|] eqn:E; [|done]. cbn [mbind result_bind] in H. injection H as <-.
  destruct (IH (a + 2)%nat es0 eq_refl) as [Hl Hk]. split; [simpl; lia|]. change (e0 `mod` 256 :: (e0 / 256) `mod` 256 :: es0) with (u16_bytes e0 ++ es0).
  intros Hr [|k] j Hj; simpl in Hj.
  - injection Hj as <-. exists e0. split; [done|]. intros He. rewrite Nat.mul_0_r, Nat.add_0_r. exact (read_u16 _ _ _ es0 He Hr).
  - apply reads_app in Hr as [_ Hr]. destruct (Hk Hr k j Hj) as (e & He & Hload). exists e. split; [done|].
    by replace (a + 2 * S k)%nat with (a + 2 + 2 * k)%nat by lia.
Qed.

Lemma least_tail bottom b rest x l : items_ok bottom (b :: rest) -> ~ Sub x b.1 -> (forall i, (i < length rest)%nat -> Sub b.1 (mask_at rest i)) ->
  least rest (Z.land x (Z.lxor topMask b.1)) l -> Sub x topMask -> least (b :: rest) x (S l).
Proof.
  intros Hok Hnb Hbelow (Hl & Hx & Hmin) Ht.
  assert (Hcov : forall i, (i < length rest)%nat -> Sub (Z.land x (Z.lxor topMask b.1)) (mask_at rest i) <-> Sub x (mask_at rest i)).
  { intros i Hi. split; intros Hs n Hn.
    - destruct (Z.testbit b.1 (Z.of_nat n)) eqn:Hbn; [by apply (Hbelow i Hi)|]. apply Hs, has_land. split; [done|].
      unfold has. rewrite Z.lxor_spec, Hbn. by rewrite (Ht n Hn : Z.testbit _ _ = true).
    - apply Hs. by apply has_land in Hn as [? _]. }
  split_and!; [simpl; lia|by apply Hcov|]. intros [|k] Hk Hxk; [by destruct Hnb|]. simpl in Hk. apply (Hmin k); [lia|]. apply Hcov; [lia|done].
Qed.

Lemma leaf_run b rest gs s offsets e rs0 rs start j entry x : items_ok (Some b.1) rest -> (forall i, 0 <= value_at rest i < 65536) ->
  built rest (Some b) gs s -> node_offsets (dfaNodes s) start = Ok (offsets, e) -> populate_nodes offsets offsets (dfaNodes s) rs0 = Ok rs -> (length rs0 >= e)%nat ->
  rest <> [] -> leaf_entry rest s offsets b.1 j = Ok entry -> ~ has b.1 j -> has x j -> Sub x topMask ->
  0 <= entry < failure /\ exists l, least rest x l /\ Run rs (Z.to_nat entry) x = Ok (value_at rest l).
Proof.
  intros Hok Hvals Hb Eo H Hlen Hne He Hbj Hxj Ht. unfold leaf_entry in He. rewrite (proj2 (land_bit _ _) Hbj) in He. cbn [negb] in He.
  destruct (leaf_node rest s b.1 j) as [node|] eqn:En; cbn [mbind option_bind] in He; [|done].
  destruct (offsets !! node) as [o|] eqn:Ho; [|done].
  destruct (Nat.ltb_spec 65534 o) as [|Hsmall]; [done|]. injection He as <-. split.
  { unfold failure. split; [lia|]. replace 65535 with (Z.succ (Z.of_nat 65534)) by (by vm_compute). apply Zle_lt_succ. by apply Nat2Z.inj_le. }
  assert (Hj : (j < numBits)%nat) by (by apply topMask_bits, Ht). unfold leaf_node in En. apply bind_Some in En as (ord & Hord & Hnode).
  destruct (itemToNodeOrdMap s !! ord) as [[d|]|] eqn:Hm; simpl in Hnode; [injection Hnode as ->|done|done].
  destruct (id_mapped _ _ _ _ (bu_done _ _ _ _ Hb) _ _ Hm) as (g & Hg & Hgi & Hz).
  rewrite (bu_leaves _ _ _ _ Hb b eq_refl j ord) in Hz; [|apply elem_of_seq; lia|done|done]. injection Hz as Hz.
  assert (Hbot : forall y, has y j -> ~ below (Some b.1) y) by (intros y Hy (b' & [= <-] & Hs); by apply Hbj, Hs).
  destruct (findMinOverapprox_least _ rest Hok x Hne Ht (Hbot x Hxj)) as (l & _ & Hl).
  assert (Hord' : least rest (Z.lor b.1 (bit j)) ord).
  { destruct (findMinOverapprox_least _ rest Hok (Z.lor b.1 (bit j)) Hne) as (ord' & Ho' & Hl'); [| |congruence].
    - apply Sub_lor. split; [|by apply Sub_bit, topMask_bits]. destruct (io_top _ _ Hok Hne) as (i & Hi & <-). by apply (io_bottom _ _ Hok b.1 i eq_refl).
    - apply Hbot, has_lor. right. by apply has_bit. }
  rewrite Nat2Z.id. destruct (Run_ok _ rest Hok Hvals _ gs s Hb start offsets e rs0 rs Eo H x node g o) as (l' & Hl' & Hrun); [done|done|done| |by exists l'].
  rewrite Hgi, <- Hz. split_and!; [done| |exists l; split; [done|]].
  - intros n _ Hn. unfold has in Hn. by rewrite Z.bits_0 in Hn.
  - destruct Hord' as (_ & _ & Hmin). destruct Hl as (HlM & Hxl & _). apply Hmin; [done|]. apply Sub_lor.
    split; [by apply (io_bottom _ _ Hok b.1 l eq_refl)|by apply Sub_bit, Hxl].
Qed.

(** What the run reads in front of the nodes. *)
Lemma RunAutomataLeafOpted_head rs b x : 0 <= x <= topMask -> Sub b.1 topMask -> 0 <= b.2 < 65536 ->
  reads rs 0 (u32_bytes (Z.lxor topMask b.1) ++ u16_bytes b.2) -> let y := Z.land x (Z.lxor topMask b.1) in
  (y = 0 -> Sub x b.1 /\ RunAutomataLeafOpted rs x = Ok b.2) /\
  (y <> 0 -> exists j, has y j /\ (j < numBits)%nat /\ ~ has b.1 j /\ forall entry, load_u16 rs (6 + 2 * j) = Ok entry -> 0 <= entry < failure ->
     RunAutomataLeafOpted rs x = Run rs (Z.to_nat entry) y).
Proof.
  intros Hx Hb Hv Hr y. pose proof (topMask_max _ Hx) as Ht. assert (Hxor : Sub (Z.lxor topMask b.1) topMask).
  { intros n Hn. unfold has in *. rewrite Z.lxor_spec in Hn. destruct (Z.testbit topMask (Z.of_nat n)) eqn:E; [done|].
    assert (Hbn : Z.testbit b.1 (Z.of_nat n) = false); [|by rewrite Hbn in Hn]. destruct (Z.testbit b.1 _) eqn:Eb; [|done]. pose proof (Hb n Eb) as Hc. unfold has in Hc. congruence. }
  pose proof (Sub_top_range _ Hxor) as Hrange. pose proof topMask_small.
  assert (Hhead : load_u32 rs 0 = Ok (Z.lxor topMask b.1)) by (eapply read_u32; [lia|exact Hr]).
  assert (Hval : load_u16 rs 4 = Ok b.2).
  { apply reads_app in Hr as [_ Hr]. apply (read_u16 _ _ _ []); [done|]. by rewrite app_nil_r. }
  unfold RunAutomataLeafOpted. destruct (Z.ltb_spec topMask x); [lia|]. rewrite Hhead. cbn [mbind result_bind]. fold y. split.
  - intros Hy. split; [by apply inside_bits|]. by rewrite Hy.
  - intros Hy. destruct (Z.eqb_spec y 0) as [|_]; [done|]. assert (Hys : Sub y topMask) by (intros n [Hn _]%has_land; by apply Ht).
    pose proof (Sub_top_range _ Hys). assert (Hbit : has y (count_trailing_zeros 32 y)) by (apply count_trailing_zeros_bit; simpl; lia).
    set (j := count_trailing_zeros 32 y) in *. assert (Hj : (j < numBits)%nat) by (by apply topMask_bits, Hys). exists j. split_and!; [done|done| |].
    + intros Hbj. apply has_land in Hbit as [_ Hbit]. unfold has in *. rewrite Z.lxor_spec, Hbj in Hbit.
      assert (Htj : Z.testbit topMask (Z.of_nat j) = true) by (by apply topMask_bits). by rewrite Htj in Hbit.
    + intros entry He Hent. apply Nat.ltb_lt in Hj. rewrite Hj. cbn [negb]. rewrite He. cbn [mbind result_bind].
      destruct (Z.eqb_spec entry failure); [lia|done].
Qed.
(** The bytes in front of the nodes, after these are written. *)
Lemma head_kept b rest gs s offsets e head rs0 rs : items_ok (Some b.1) rest -> (forall i, 0 <= value_at rest i < 65536) -> built rest (Some b) gs s ->
  node_offsets (dfaNodes s) (length head) = Ok (offsets, e) -> populate_nodes offsets offsets (dfaNodes s) (head ++ rs0) = Ok rs -> reads rs 0 head.
Proof.
  intros Hok Hvals Hb Eo H i v Hi. pose proof (tests_small _ rest Hok Hvals _ gs s Hb _ offsets e _ rs Eo H) as Hsmall.
  destruct (populate_nodes_inv offsets _ _ _ _ _ _ Hsmall Eo H) as (_ & Hout & _). simpl. rewrite Hout by (by eapply lookup_lt_Some). by apply lookup_app_Some_l.
Qed.

Lemma GenerateAutomataLeafOpted_answers m_items rs x : items_fit m_items -> GenerateAutomataLeafOpted m_items = Ok rs -> 0 <= x <= topMask ->
  exists v, RunAutomataLeafOpted rs x = Ok v /\ answers m_items x v.
Proof.
  intros Hfit H Hx. pose proof (items_fit_masks _ Hfit) as Hmasks. pose proof (items_fit_values _ Hfit) as Hvals. pose proof (topMask_max _ Hx) as Ht.
  unfold GenerateAutomataLeafOpted in H. destruct (prepare_items m_items) as [items|] eqn:Ep; [|done]. cbn [mbind result_bind] in H.
  destruct (prepare_items_prepared m_items items Hmasks Ep) as [cl Hp]. destruct items as [|b rest]; [done|]. cbv beta iota in H.
  pose proof (prepared_ok m_items cl _ Hp Hmasks Hvals) as Hok0. pose proof (tail_ok m_items cl _ Hp Hmasks Hvals b rest eq_refl) as Hok.
  pose proof (prepared_values m_items cl _ Hp Hmasks Hvals) as Hv. pose proof (first_below m_items cl _ Hp Hmasks Hvals) as Hbelow.
  pose proof (least_answers m_items cl _ Hp Hmasks Hvals x) as Hans.
  assert (Hvr : forall i, 0 <= value_at rest i < 65536) by (intros i; apply (Hv (S i))). pose proof (io_range _ _ Hok0 0) as Hb0.
  change (mask_at (b :: rest) 0) with b.1 in *. pose proof (Hv 0%nat) as Hv0. change (value_at (b :: rest) 0) with b.2 in *.
  assert (Hfirst : Sub x b.1 -> answers m_items x b.2).
  { intros Hs. apply (Hans 0%nat). split_and!; [simpl; lia|done|]. intros k Hk _. by apply Hbelow. }
  match type of H with (?m ≫= _) = _ => destruct m as [[u s]|] eqn:Eb; [|done] end. cbn [mbind result_bind] in H.
  destruct (built_of _ _ _ _ _ Hok Eb) as [gs Hb]. destruct (node_offsets (dfaNodes s) _) as [[offsets e]|] eqn:Eo; [|done].
  cbn [mbind result_bind] in H. destruct rest as [|c rest'].
  - destruct (Z.eqb_spec b.1 topMask) as [Htop|]; [|done]. injection H as <-.
    destruct (RunAutomataLeafOpted_head (u32_bytes (Z.lxor topMask b.1) ++ u16_bytes b.2) b x Hx Hb0 Hv0) as [Hz _]; [intros i v Hi; exact Hi|].
    destruct Hz as [Hs Hrun]; [by rewrite Htop, Z.lxor_nilpotent, Z.land_0_r|]. exists b.2. split; [exact Hrun|by apply Hfirst].
  - destruct (leaf_entries _ _ _ _ _) as [entries|] eqn:El; [|done]. cbn [mbind result_bind] in H. rewrite app_assoc in H.
    destruct (leaf_entries_read (c :: rest') s offsets b.1 rs 6 _ _ El) as [Hlen Hentry]. rewrite length_seq in Hlen.
    set (head := _ ++ entries) in H. assert (Hhl : length head = (6 + 2 * numBits)%nat) by (unfold head; rewrite length_app, Hlen; done).
    rewrite <- Hhl in Eo. pose proof (head_kept _ _ _ _ _ _ _ _ _ Hok Hvr Hb Eo H) as Hread. apply reads_app in Hread as [Hread Hre].
    destruct (RunAutomataLeafOpted_head rs b x Hx Hb0 Hv0 Hread) as [Hz Hnz].
    destruct (Z.eq_dec (Z.land x (Z.lxor topMask b.1)) 0) as [He|Hne].
    + destruct (Hz He) as [Hs Hrun]. exists b.2. split; [exact Hrun|by apply Hfirst].
    + destruct (Hnz Hne) as (j & Hyj & Hj & Hbj & Hrun). destruct (Hentry Hre j j) as (entry & Hent & Hload); [by apply lookup_seq|].
      destruct (leaf_run b _ gs s offsets e _ rs (length head) j entry (Z.land x (Z.lxor topMask b.1)) Hok Hvr Hb Eo H) as (Hrange & l & Hl & Hr); [|done|exact Hent|done|exact Hyj| |].
      * rewrite length_app, length_replicate, Hhl. apply node_offsets_inv in Eo as (_ & Hle & _). lia.
      * intros n [Hn _]%has_land. by apply Ht.
      * exists (value_at (c :: rest') l). rewrite (Hrun entry); [|apply Hload; unfold failure in Hrange; lia|done]. split; [exact Hr|].
        apply (Hans (S l)). apply (least_tail None); [done| |intros i Hi; by apply (io_bottom _ _ Hok b.1 i)|done|done].
        intros Hs. destruct (meets _ _ Hne) as (n & Hn & Hn'). pose proof (Hs n Hn) as Hbn. unfold has in *. rewrite Z.lxor_spec, Hbn in Hn'.
        by rewrite (Ht n Hn : Z.testbit _ _ = true) in Hn'.
Qed.

(** ** The tables are made *)
Definition types_only (m_items : list ItemTy) : Prop := Forall (fun it : ItemTy => it.1 <= topMask) m_items.
Definition accepted (m_items : list ItemTy) : Prop := NoDup (masks m_items) /\ types_only m_items.
#[export] Instance accepted_dec m_items : Decision (accepted m_items).
Proof. unfold accepted, types_only. apply _. Defined.

Lemma few_masks (l : list Z) : NoDup l -> (forall x, x ∈ l -> 0 <= x <= topMask) -> (length l <= 256)%nat.
Proof.
  intros Hnd Hl. apply (NoDup_submseteq _ (seqZ 0 256)) in Hnd; [by apply submseteq_length in Hnd|].
  intros x Hx%Hl. apply elem_of_seqZ. assert (topMask = 255) as He by (by vm_compute). lia.
Qed.
Lemma meet_range m_items m : items_fit m_items -> types_only m_items -> meet_of m_items m -> 0 <= m <= topMask.
Proof.
  intros Hfit Ht Hm. apply Sub_top_range. induction Hm as [it Hit|a b _ Ha _ _]; [|intros n Hn; apply has_land in Hn as [Hn _]; by apply Ha].
  apply topMask_max. pose proof (proj1 (Forall_forall _ _) Hfit it Hit) as Hf. pose proof (proj1 (Forall_forall _ _) Ht it Hit) as Hi. cbv beta in Hf, Hi. lia.
Qed.
Lemma prepared_few m_items cl items : prepared m_items cl items -> (length items <= 256)%nat.
Proof.
  intros Hp. assert (Hl : length (masks items) = length items) by apply length_fmap. rewrite <- Hl. apply few_masks.
  - apply NoDup_alt. intros i j x Hi Hj. destruct (Nat.lt_trichotomy i j) as [Hlt|[?|Hlt]]; [|done|].
    + pose proof (increasing_lookup _ _ _ _ _ (pr_sorted _ _ _ Hp) Hi Hj Hlt). lia.
    + pose proof (increasing_lookup _ _ _ _ _ (pr_sorted _ _ _ Hp) Hj Hi Hlt). lia.
  - intros x (it & -> & Hit)%list_elem_of_fmap. by apply (pr_range _ _ _ Hp).
Qed.

Lemma sorted_increasing (l : list ItemTy) : StronglySorted item_le l -> NoDup (masks l) -> increasing (masks l) = true.
Proof.
  induction 1 as [|a l Hs IH Hall]; intros Hnd; [done|]. unfold masks in Hnd. rewrite fmap_cons in Hnd. apply NoDup_cons in Hnd as [Ha Hnd].
  specialize (IH Hnd). destruct l as [|b l]; [done|]. change (masks (a :: b :: l)) with (a.1 :: masks (b :: l)). change (masks (b :: l)) with (b.1 :: masks l) in *.
  cbn [increasing] in *. apply andb_true_iff. split; [|exact IH]. apply Z.ltb_lt. apply Forall_cons in Hall as [[?|[He _]] _]; [done|].
  exfalso. apply Ha. rewrite He. by left.
Qed.
Lemma sorted_last (l : list ItemTy) x it : StronglySorted item_le l -> last l = Some x -> it ∈ l -> it.1 <= x.1.
Proof.
  intros Hs Hl (i & Hi)%list_elem_of_lookup. rewrite last_lookup in Hl. unfold ItemTy in *. destruct (decide (i = pred (length l))) as [->|Hne]; [assert (it = x) as -> by congruence; lia|].
  pose proof (lookup_lt_Some _ _ _ Hi). destruct (sorted_lookup l i (pred (length l)) it x Hs Hi Hl ltac:(lia)) as [|[]]; lia.
Qed.
Lemma increasing_snoc l m : increasing l = true -> (forall x, last l = Some x -> x < m) -> increasing (l ++ [m]) = true.
Proof.
  induction l as [|a l IH]; intros Hi Hl; [done|]. destruct l as [|b l]; [simpl; by rewrite (proj2 (Z.ltb_lt _ _) (Hl a eq_refl))|].
  cbn [increasing app] in *. apply andb_true_iff in Hi as [Hab Hi]. apply andb_true_iff. split; [done|]. apply IH; [done|]. intros x Hx. by apply Hl.
Qed.

(** [prepare_items] stops on two items with one mask and on a mask with other bits, and on
    nothing else. *)
Lemma prepare_items_accepts m_items : items_fit m_items ->
  if decide (accepted m_items) then exists items, prepare_items m_items = Ok items
  else exists e, prepare_items m_items = Err e /\ e <> OutOfFuel.
Proof.
  intros Hfit. pose proof (MakeClosure_closes m_items (items_fit_masks _ Hfit)) as Hc. unfold prepare_items. destruct (decide (NoDup _)) as [Hnd|Hnd].
  2: { destruct (decide _) as [[? _]|_]; [done|]. rewrite Hc. by eexists. }
  destruct Hc as [[Hc (r & Hr & Hlong & Hm)]|(r & Hc & Hcl & Hs)]; rewrite Hc; cbn [mbind result_bind].
  { destruct (decide _) as [[_ Ht]|_]; [exfalso|by eexists]. pose proof (few_masks r Hr) as Hfew. enough (length r <= 256)%nat by lia.
    apply Hfew. intros x Hx. apply (meet_range m_items); auto. }
  destruct (decide _) as [[_ Ht]|Hno].
  - assert (Hrange : forall it : ItemTy, it ∈ r -> 0 <= it.1 <= topMask).
    { intros it Hit. apply (meet_range m_items); [done|done|]. apply (ci_meet _ _ _ Hcl). by apply masks_elem. }
    unfold ItemTy in *.
    assert (Hlast : match last r with Some i => i.1 <=? topMask | None => true end = true).
    { destruct (last r) as [i|] eqn:El; [|done]. apply Z.leb_le, (Hrange i). by apply last_lookup_elem. }
    rewrite Hlast. cbn [negb]. set (items' := match last r with Some _ => _ | None => _ end).
    assert (Hin : forall it : ItemTy, it ∈ items' -> 0 <= it.1 <= topMask).
    { assert (Ht0 : 0 <= topMask <= topMask) by (by vm_compute). intros it Hit. unfold items' in Hit. destruct (last r) as [i|]; [destruct (_ <? _)|]; set_solver. }
    assert (Hinc : increasing (masks items') = true).
    { pose proof (sorted_increasing r Hs (ci_nodup _ _ _ Hcl)) as Hi. unfold items'. destruct (last r) as [i|] eqn:El; [|done].
      destruct (Z.ltb_spec i.1 topMask); [|done]. rewrite masks_app. apply increasing_snoc; [done|]. intros x Hx. unfold masks in Hx.
      rewrite fmap_last, El in Hx. by injection Hx as <-. }
    rewrite Hinc. rewrite (proj2 (List.forallb_forall _ _)); [by eexists|]. intros it Hit%list_elem_of_In. apply Z.ltb_lt.
    assert (Z.shiftl 1 (Z.of_nat numBits) = topMask + 1) as He by (by vm_compute). pose proof (Hin it Hit). lia.
  - assert (Hbad : exists it : ItemTy, it ∈ m_items /\ topMask < it.1).
    { destruct (decide (Exists (fun it : ItemTy => topMask < it.1) m_items)) as [(it & Hit & ?)%Exists_exists|Hall]; [by exists it|]. exfalso. apply Hno.
      split; [done|]. apply Forall_forall. intros it Hit. destruct (decide (it.1 <= topMask)); [done|]. exfalso. apply Hall, Exists_exists. exists it. split; [done|lia]. }
    destruct Hbad as (it & Hit & Hbig). pose proof (ci_contains _ _ _ Hcl it Hit) as Hir.
    unfold ItemTy in *. destruct (last r) as [i|] eqn:El; [|apply last_None in El; subst r; by apply not_elem_of_nil in Hir].
    pose proof (sorted_last r i it Hs El Hir). destruct (Z.leb_spec i.1 topMask); [lia|]. cbn [negb]. by eexists.
Qed.

Lemma GenerateAutomata_makes m_items items : items_fit m_items -> prepare_items m_items = Ok items -> exists rs, GenerateAutomata m_items = Ok rs.
Proof.
  intros Hfit Hprep. pose proof (items_fit_masks _ Hfit) as Hmasks. pose proof (items_fit_values _ Hfit) as Hvals. unfold GenerateAutomata. rewrite Hprep.
  cbn [mbind result_bind]. destruct (prepare_items_prepared m_items items Hmasks Hprep) as [cl Hp].
  pose proof (prepared_ok m_items cl items Hp Hmasks Hvals) as Hok. pose proof (prepared_few _ _ _ Hp) as Hfew.
  destruct (wp_total _ _ _ (build_nodes_total None items Hok None (fun _ => prepared_nonempty _ _ _ Hp Hmasks Hvals) ltac:(done))) as (u & s & Hrun & Hfin).
  unfold ItemTy in *. rewrite Hrun. cbn [mbind result_bind]. destruct (table_offsets items None s 0 Hfin ltac:(lia) Hfew) as (os & e & He & Hsmall). rewrite He. cbn [mbind result_bind].
  apply (table_populated items None s 0 Hfin ltac:(lia) Hfew os e); [done|done|by rewrite length_replicate].
Qed.
Lemma GenerateAutomataLeafOpted_makes m_items items : items_fit m_items -> prepare_items m_items = Ok items ->
  exists rs, GenerateAutomataLeafOpted m_items = Ok rs.
Proof.
  intros Hfit Hprep. pose proof (items_fit_masks _ Hfit) as Hmasks. pose proof (items_fit_values _ Hfit) as Hvals. unfold GenerateAutomataLeafOpted. rewrite Hprep.
  cbn [mbind result_bind]. destruct (prepare_items_prepared m_items items Hmasks Hprep) as [cl Hp].
  pose proof (prepared_nonempty _ _ _ Hp Hmasks Hvals) as Hne. destruct items as [|b rest]; [done|]. pose proof (tail_ok m_items cl _ Hp Hmasks Hvals b rest eq_refl) as Hok.
  pose proof (prepared_few _ _ _ Hp) as Hfew. assert (Hrest : (length rest <= 256)%nat) by (simpl in Hfew; lia).
  assert (Hnil : rest = [] -> b.1 = topMask).
  { intros ->. destruct (pr_top _ _ _ Hp) as (it & ->%list_elem_of_singleton & Ht). done. }
  assert (Hsome : forall it : ItemTy, Some b = Some it -> Some b.1 = Some it.1 /\ (rest = [] -> Sub topMask it.1)).
  { intros it [= <-]. split; [done|]. intros Hr. by rewrite (Hnil Hr). }
  destruct (wp_total _ _ _ (build_nodes_total _ rest Hok (Some b) ltac:(done) Hsome)) as (u & s & Hrun & Hfin).
  unfold ItemTy in *. rewrite Hrun. cbn [mbind result_bind]. assert (Hstart : (6 + 2 * numBits <= 22)%nat) by (by vm_compute; lia).
  destruct (table_offsets rest (Some b) s _ Hfin Hstart Hrest) as (os & e & He & Hsmall). rewrite He. cbn [mbind result_bind].
  destruct rest as [|c rest']; [rewrite (Hnil eq_refl), Z.eqb_refl; by eexists|].
  destruct (table_leaves (c :: rest') (Some b) s _ Hfin Hstart Hrest os e b He Hsmall eq_refl (seq 0 numBits)) as [es Hes].
  { intros j Hj%elem_of_seq. lia. }
  rewrite Hes. cbn [mbind result_bind]. apply (table_populated (c :: rest') (Some b) s _ Hfin Hstart Hrest os e); [done|done|].
  destruct (leaf_entries_read (c :: rest') s os b.1 [] 0 _ _ Hes) as [Hlen _]. rewrite length_seq in Hlen.
  rewrite !length_app, Hlen, length_replicate. change (length (u32_bytes _)) with 4%nat. change (length (u16_bytes _)) with 2%nat. lia.
Qed.

(** C15: both generators accept just the lists of distinct masks of types.  From such a
    list they make a table, without a failed assertion, and the table run on any mask of
    types returns the value of a best item: one that covers the mask, no smaller item of
    the list covering it, or [failure] when none does. *)
Theorem automata_find_best m_items : items_fit m_items ->
  if decide (accepted m_items) then
    (exists rs, GenerateAutomata m_items = Ok rs /\
       forall x, 0 <= x <= topMask -> exists v, RunAutomataMayFail rs x = Ok v /\ answers m_items x v) /\
    (exists rs, GenerateAutomataLeafOpted m_items = Ok rs /\
       forall x, 0 <= x <= topMask -> exists v, RunAutomataLeafOpted rs x = Ok v /\ answers m_items x v)
  else exists e, GenerateAutomata m_items = Err e /\ GenerateAutomataLeafOpted m_items = Err e /\ e <> OutOfFuel.
Proof.
  intros Hfit. pose proof (prepare_items_accepts _ Hfit) as Hprep. destruct (decide _) as [_|_].
  - destruct Hprep as [items Hp]. split.
    + destruct (GenerateAutomata_makes _ _ Hfit Hp) as [rs Hrs]. exists rs. split; [done|]. intros x. by apply GenerateAutomata_answers.
    + destruct (GenerateAutomataLeafOpted_makes _ _ Hfit Hp) as [rs Hrs]. exists rs. split; [done|]. intros x. by apply GenerateAutomataLeafOpted_answers.
  - destruct Hprep as (e & He & Hfuel). exists e. unfold GenerateAutomata, GenerateAutomataLeafOpted. by rewrite He.
Qed.

(** ** An example *)
Definition demo_items : list ItemTy := [(3, 7); (6, 8); (15, 9)].
Lemma demo_items_fit : items_fit demo_items.
Proof. unfold items_fit, demo_items. repeat constructor; simpl; lia. Qed.
Definition table_or_none (r : result (list Z)) : list Z := match r with Ok rs => rs | Err _ => [] end.
Example demo_automata_run :
  (fun x => RunAutomataMayFail (table_or_none (GenerateAutomata demo_items)) x) <$> [2; 4; 10; 16] = [Ok 7; Ok 8; Ok 9; Ok failure] /\
  (fun x => RunAutomataLeafOpted (table_or_none (GenerateAutomataLeafOpted demo_items)) x) <$> [2; 4; 10; 16] = [Ok 7; Ok 8; Ok 9; Ok failure].
Proof. split; vm_compute; reflexivity. Qed.

Lemma automata_find_best_witness :
  (exists rs, GenerateAutomata demo_items = Ok rs /\
     forall x, 0 <= x <= topMask -> exists v, RunAutomataMayFail rs x = Ok v /\ answers demo_items x v) /\
  (exists rs, GenerateAutomataLeafOpted demo_items = Ok rs /\
     forall x, 0 <= x <= topMask -> exists v, RunAutomataLeafOpted rs x = Ok v /\ answers demo_items x v).
Proof.
  pose proof (automata_find_best demo_items demo_items_fit) as H. rewrite decide_True in H; [exact H|].
  split; [apply (bool_decide_unpack _); vm_compute; reflexivity|repeat constructor; simpl; by vm_compute].
Defined.
