(* ===== verification/MinCost.v ===== *)
(** * The cheapest covering candidate

    [MinCostTypemaskOverapproxAutomataGenerator] of
    [deegen/typemask_overapprox_automata_generator.cpp]: an automaton for the candidate of
    least cost whose mask covers a given one, on top of the automata of [Automata.v].  The
    order in which the hash tables give their masks is that of [elements]; the masks are
    sorted before it matters. *)
From S2P Require Import Prelude TypeMask Automata AutomataMasks AutomataInv AutomataTable AutomataTotal AutomataClosure AutomataProps.
From stdpp Require Import gmap sorting.
#[local] Open Scope Z_scope.
#[local] Set Default Proof Using "Type".

Record CandidateInfo : Type := mk_candidate { m_identValue : Z; m_mask : Z; m_cost : Z }.

(** [c] is pruned for [other]. *)
Definition worse_than (c other : CandidateInfo) : bool :=
  (subset_of (m_mask c) (m_mask other) && (m_cost other <? m_cost c)) ||
  (subset_of (m_mask c) (m_mask other) && negb (m_mask c =? m_mask other) && (m_cost other <=? m_cost c)).
Definition shouldPrune (candidates : list CandidateInfo) (c : CandidateInfo) : bool := existsb (worse_than c) candidates.
Definition prune (candidates : list CandidateInfo) : list CandidateInfo :=
  filter (fun c => shouldPrune candidates c = false) candidates.

(** The best of the candidates that cover a node, the first of those with its cost. *)
Definition better (mask : Z) (cur : option CandidateInfo) (c : CandidateInfo) : option CandidateInfo :=
  if subset_of mask (m_mask c) && match cur with None => true | Some d => m_cost c <? m_cost d end then Some c else cur.
Definition best_for (candidates : list CandidateInfo) (mask : Z) : option CandidateInfo := foldl (better mask) None candidates.

Fixpoint node_items (candidates : list CandidateInfo) (nodes : list Z) : result (list ItemTy) :=
  match nodes with
  | [] => Ok []
  | mask :: nodes' =>
      match best_for candidates mask with
      | None => Err (AssertFailed "it.second != nullptr")
      | Some c => items ← node_items candidates nodes'; Ok ((mask, m_identValue c) :: items)
      end
  end.

(** [GetAutomata]: the items of the automaton. *)
Definition GetAutomata (m_items : list CandidateInfo) : result (list ItemTy) :=
  if negb (forallb (fun c => m_identValue c <=? 32767) m_items) then Err (AssertFailed "c.m_identValue <= 32767")
  else if negb (forallb (fun c => m_mask c <=? topMask) m_items) then Err (AssertFailed "c.m_mask.m_mask <= x_typeMaskFor<tBoxedValueTop>")
  else
    let candidates := prune m_items in
    let distinctMasks : gset Z := list_to_set (m_mask <$> candidates) in
    citems ← MakeClosure ((fun mask => (mask, 0)) <$> elements distinctMasks);
    if negb (bool_decide (NoDup (masks citems))) then Err (AssertFailed "!nodeMap.count(item.first)")
    else node_items candidates (masks citems).

(** ** What it promises *)
Definition fits (c : CandidateInfo) : Prop := 0 <= m_identValue c < 65536 /\ 0 <= m_mask c < 4294967296 /\ 0 <= m_cost c.
(** [v] is the value of a cheapest candidate for [x]. *)
Definition cheapest (m_items : list CandidateInfo) (x v : Z) : Prop :=
  ((exists c, c ∈ m_items /\ Sub x (m_mask c)) ->
     exists c, c ∈ m_items /\ Sub x (m_mask c) /\ m_identValue c = v /\ forall d, d ∈ m_items -> Sub x (m_mask d) -> m_cost c <= m_cost d) /\
  ((forall c, c ∈ m_items -> ~ Sub x (m_mask c)) -> v = failure).

Lemma worse_spec c d : worse_than c d = true -> Sub (m_mask c) (m_mask d) /\ m_cost d <= m_cost c /\ (m_cost d < m_cost c \/ m_mask c <> m_mask d).
Proof.
  unfold worse_than. rewrite orb_true_iff, !andb_true_iff, subset_of_spec, Z.ltb_lt, Z.leb_le, negb_true_iff, Z.eqb_neq. intuition lia.
Qed.
(** Every candidate has one that is left, with at least its types and at most its cost:
    each pruning lowers the cost, or leaves it and adds types. *)
Definition weight (c : CandidateInfo) : Z := m_cost c * (topMask + 1) + (topMask - m_mask c).
Lemma worse_weight c d : 0 <= m_mask c <= topMask -> 0 <= m_mask d <= topMask -> worse_than c d = true -> weight d < weight c.
Proof.
  intros Hc Hd (Hs & Hle & Hlt)%worse_spec. unfold weight. pose proof (Sub_le _ _ (proj1 Hd) Hs (proj1 Hc)).
  destruct (decide (m_cost d < m_cost c)); [nia|]. assert (m_cost d = m_cost c) as -> by lia. destruct Hlt; lia.
Qed.
Lemma prune_keeps m_items : (forall c, c ∈ m_items -> 0 <= m_mask c <= topMask /\ 0 <= m_cost c) -> forall c, c ∈ m_items ->
  exists d, d ∈ prune m_items /\ Sub (m_mask c) (m_mask d) /\ m_cost d <= m_cost c.
Proof.
  intros Hr c. remember (Z.to_nat (weight c)) as n eqn:En. revert c En. induction n as [n IH] using lt_wf_ind. intros c -> Hc.
  destruct (shouldPrune m_items c) eqn:Ep.
  - apply List.existsb_exists in Ep as (d & Hd%list_elem_of_In & Hw). destruct (Hr c Hc) as [Hcr Hcc]. destruct (Hr d Hd) as [Hdr Hdc].
    pose proof (worse_weight c d Hcr Hdr Hw). assert (0 <= weight d) by (unfold weight; nia).
    destruct (IH (Z.to_nat (weight d))) with (c := d) as (e & He & Hs & Hle); [lia|done|done|]. apply worse_spec in Hw as (Hs' & Hle' & _).
    exists e. split_and!; [done|by etrans|lia].
  - exists c. split_and!; [|done|lia]. by apply list_elem_of_filter.
Qed.
Lemma prune_elem m_items c : c ∈ prune m_items -> c ∈ m_items.
Proof. by intros [_ H]%list_elem_of_filter. Qed.

Lemma best_for_spec candidates mask :
  match best_for candidates mask with
  | Some c => c ∈ candidates /\ Sub mask (m_mask c) /\ forall d, d ∈ candidates -> Sub mask (m_mask d) -> m_cost c <= m_cost d
  | None => forall d, d ∈ candidates -> ~ Sub mask (m_mask d)
  end.
Proof.
  induction candidates as [|d l IH] using rev_ind; [intros d Hd; by apply not_elem_of_nil in Hd|].
  unfold best_for in *. rewrite foldl_app. simpl. set (cur := foldl (better mask) None l) in *. unfold better.
  destruct (subset_of mask (m_mask d)) eqn:Es; simpl.
  - apply subset_of_spec in Es. destruct cur as [c|]; [destruct (Z.ltb_spec (m_cost d) (m_cost c)) as [Hlt|Hge]|].
    + destruct IH as (Hc & Hs & Hmin). split_and!; [set_solver|done|]. intros e [He| ->%list_elem_of_singleton]%elem_of_app He'; [|lia].
      pose proof (Hmin e He He'). lia.
    + destruct IH as (Hc & Hs & Hmin). split_and!; [set_solver|done|]. intros e [He| ->%list_elem_of_singleton]%elem_of_app He'; [by apply Hmin|lia].
    + split_and!; [set_solver|done|]. intros e [He| ->%list_elem_of_singleton]%elem_of_app He'; [by destruct (IH e He)|lia].
  - assert (Hno : ~ Sub mask (m_mask d)) by (rewrite <- subset_of_spec; by rewrite Es).
    destruct cur as [c|]; [destruct IH as (Hc & Hs & Hmin); split_and!; [set_solver|done|]|];
      intros e [He| ->%list_elem_of_singleton]%elem_of_app He'; [by apply Hmin|done|by destruct (IH e He)|done].
Qed.

Lemma node_items_ok candidates : forall nodes, (forall m, m ∈ nodes -> exists d, d ∈ candidates /\ Sub m (m_mask d)) ->
  exists items, node_items candidates nodes = Ok items /\ masks items = nodes /\
    forall it : ItemTy, it ∈ items -> exists c, best_for candidates it.1 = Some c /\ it.2 = m_identValue c.
Proof.
  induction nodes as [|m nodes IH]; intros Hcov; cbn [node_items]; [exists []; split_and!; [done|done|set_solver]|].
  destruct IH as (items & -> & Hm & Hit); [set_solver|]. pose proof (best_for_spec candidates m) as Hb. destruct (best_for candidates m) as [c|] eqn:Eb.
  - cbn [mbind result_bind]. exists ((m, m_identValue c) :: items). split_and!; [done|change (m :: masks items = m :: nodes); by rewrite Hm|].
    intros it [->|Hin]%elem_of_cons; [by exists c|by apply Hit].
  - destruct (Hcov m) as (d & Hd & Hs); [set_solver|]. by destruct (Hb d Hd).
Qed.

(** The closure of the masks that are left. *)
Definition left_masks (m_items : list CandidateInfo) : list ItemTy := (fun mask => (mask, 0)) <$> elements (list_to_set (m_mask <$> prune m_items) : gset Z).
Lemma left_masks_elem m_items (it : ItemTy) : it ∈ left_masks m_items <-> it.2 = 0 /\ exists c, c ∈ prune m_items /\ m_mask c = it.1.
Proof.
  unfold left_masks. rewrite list_elem_of_fmap. split.
  - intros (m & -> & (c & -> & Hc)%elem_of_elements%elem_of_list_to_set%list_elem_of_fmap). eauto.
  - intros [H0 (c & Hc & Hm)]. exists it.1. destruct it as [m v]. simpl in *. subst. split; [done|].
    apply elem_of_elements, elem_of_list_to_set. by apply list_elem_of_fmap_2.
Qed.

(** The nodes [GetAutomata] takes its items for. *)
Record node_masks (m_items : list CandidateInfo) (nodes : list Z) : Prop := {
  nm_nodup : NoDup nodes;
  nm_contains : forall c, c ∈ prune m_items -> m_mask c ∈ nodes;
  nm_closed : forall a b, a ∈ nodes -> b ∈ nodes -> Z.land a b ∈ nodes;
  nm_below : forall m, m ∈ nodes -> exists c, c ∈ prune m_items /\ Sub m (m_mask c)
}.
Lemma closure_node_masks m_items cl : closure_is (left_masks m_items) (left_masks m_items) cl -> node_masks m_items (masks cl).
Proof.
  intros [H1 _ H2 H3 H4]. split; [done| | |].
  - intros c Hc. change (m_mask c) with (m_mask c, 0).1. apply masks_elem, H3, left_masks_elem. eauto.
  - intros a b (x & -> & Hx)%list_elem_of_fmap (y & -> & Hy)%list_elem_of_fmap. auto.
  - intros m (x & -> & Hx)%list_elem_of_fmap. destruct (H4 x Hx) as (o & (Ho & Hs & _) & _). apply left_masks_elem in Ho as (_ & c & Hc & Hm).
    exists c. split; [done|]. by rewrite Hm.
Qed.
Definition in_range (m_items : list CandidateInfo) : Prop := forall c, c ∈ m_items -> 0 <= m_mask c <= topMask /\ 0 <= m_cost c.
Record node_items_of (m_items : list CandidateInfo) (items : list ItemTy) : Prop := {
  ni_masks : node_masks m_items (masks items);
  ni_values : forall it : ItemTy, it ∈ items -> exists c, best_for (prune m_items) it.1 = Some c /\ it.2 = m_identValue c
}.
Lemma left_masks_nodup m_items : NoDup (masks (left_masks m_items)).
Proof.
  unfold left_masks, masks. rewrite <- list_fmap_compose. rewrite list_fmap_ext with (g := id) by done.
  rewrite list_fmap_id. apply NoDup_elements.
Qed.
Lemma checks_range m_items : Forall fits m_items -> forallb (fun c => m_mask c <=? topMask) m_items = true -> in_range m_items.
Proof.
  intros Hfit Hm c Hc. pose proof (proj1 (Forall_forall _ _) Hfit c Hc) as (_ & ? & ?). apply list_elem_of_In in Hc.
  pose proof (proj1 (List.forallb_forall _ _) Hm c Hc) as Hle. cbv beta in Hle. apply Z.leb_le in Hle. lia.
Qed.
(** The candidates the checks let through. *)
Definition allowed (m_items : list CandidateInfo) : bool :=
  forallb (fun c => m_identValue c <=? 32767) m_items && forallb (fun c => m_mask c <=? topMask) m_items.
Lemma left_masks_fit m_items : in_range m_items -> items_fit (left_masks m_items) /\ types_only (left_masks m_items).
Proof.
  intros Hr. pose proof topMask_small. split; apply Forall_forall; intros it (H0 & c & Hc & Hm)%left_masks_elem;
    destruct (Hr c (prune_elem _ _ Hc)) as [? _]; rewrite Hm in *; lia.
Qed.
(** No other check fails. *)
Lemma GetAutomata_spec m_items : Forall fits m_items -> allowed m_items = true ->
  exists items, GetAutomata m_items = Ok items /\ in_range m_items /\ node_items_of m_items items.
Proof.
  intros Hfit [Hi Hm]%andb_true_iff. pose proof (checks_range _ Hfit Hm) as Hr. unfold GetAutomata. rewrite Hi, Hm. cbn [negb]. fold (left_masks m_items).
  destruct (left_masks_fit _ Hr) as [Hlf Hlt]. pose proof (MakeClosure_closes (left_masks m_items) (items_fit_masks _ Hlf)) as Hcl.
  destruct (decide _) as [_|Hn]; [|destruct Hn; apply left_masks_nodup].
  destruct Hcl as [[_ (r & Hnd & Hlong & Hmeet)]|(cl & -> & Hcl & _)].
  { pose proof (few_masks r Hnd (fun x Hx => meet_range _ x Hlf Hlt (Hmeet x Hx))). lia. }
  cbn [mbind result_bind]. pose proof (closure_node_masks _ _ Hcl) as Hnm.
  rewrite bool_decide_eq_true_2 by apply Hnm. cbn [negb]. destruct (node_items_ok (prune m_items) (masks cl)) as (items & Hrun & Hmasks & Hval).
  { apply (nm_below _ _ Hnm). }
  exists items. split; [done|]. split; [done|]. split; [by rewrite Hmasks|done].
Qed.

(** A best item is one with the cheapest candidate. *)
Lemma best_cheapest m_items items x v : in_range m_items -> node_items_of m_items items -> answers items x v -> cheapest m_items x v.
Proof.
  intros Hr [[_ Hcont Hclosed Hbelow] Hval] [Hsome Hnone]. split.
  - intros (c & Hc & Hs). destruct (prune_keeps m_items Hr c Hc) as (d & Hd & Hsd & _).
    pose proof (Hcont d Hd) as Hdm. apply list_elem_of_fmap in Hdm as (itd & Hitd & Hdi).
    destruct Hsome as (it & (Hit & Hxit & Hbest) & <-); [exists itd; split; [done|]; rewrite <- Hitd; by etrans|].
    assert (Hsmall : forall e, e ∈ prune m_items -> Sub x (m_mask e) -> Sub it.1 (m_mask e)).
    { intros e He Hxe. pose proof (Hclosed it.1 (m_mask e) (masks_elem _ _ Hit) (Hcont e He)) as Hm.
      apply list_elem_of_fmap in Hm as (D & HDm & HD). assert (D.1 = it.1) as HDi.
      { apply Hbest; [done|rewrite <- HDm; by apply Sub_land|]. rewrite <- HDm. intros n Hn. by apply has_land in Hn as [? _]. }
      rewrite <- HDi, <- HDm. intros n Hn. by apply has_land in Hn as [_ ?]. }
    destruct (Hval it Hit) as (b & Hb & ->). pose proof (best_for_spec (prune m_items) it.1) as Hspec. rewrite Hb in Hspec.
    destruct Hspec as (Hbp & Hbs & Hmin). exists b. split_and!; [by apply prune_elem|by etrans|done|].
    intros e He Hxe. destruct (prune_keeps m_items Hr e He) as (f & Hf & Hsf & Hlef). pose proof (Hmin f Hf (Hsmall f Hf ltac:(by etrans))). lia.
  - intros Hno. apply Hnone. intros it Hit Hxit. destruct (Hbelow it.1 (masks_elem _ _ Hit)) as (c & Hc & Hs).
    apply (Hno c (prune_elem _ _ Hc)). by etrans.
Qed.

Lemma node_items_fit m_items items : Forall fits m_items -> in_range m_items -> node_items_of m_items items -> items_fit items.
Proof.
  intros Hfit Hr [[_ _ _ Hbelow] Hval]. apply Forall_forall. intros it Hit. destruct (Hval it Hit) as (c & Hc & Hv).
  pose proof (best_for_spec (prune m_items) it.1) as Hspec. rewrite Hc in Hspec. destruct Hspec as (Hcp & Hs & _). pose proof (prune_elem _ _ Hcp) as Hcm.
  destruct (Hr c Hcm) as [Hm _]. pose proof (Sub_nonneg _ _ (proj1 Hm) Hs) as H0. pose proof (Sub_le _ _ (proj1 Hm) Hs H0). pose proof topMask_small.
  pose proof (proj1 (Forall_forall _ _) Hfit c Hcm) as (Hid & _). rewrite Hv. lia.
Qed.

Lemma node_items_accepted m_items items : in_range m_items -> node_items_of m_items items -> accepted items.
Proof.
  intros Hr [[Hnd _ _ Hbelow] _]. split; [done|]. apply Forall_forall. intros it Hit. destruct (Hbelow it.1 (masks_elem _ _ Hit)) as (c & Hc & Hs).
  destruct (Hr c (prune_elem _ _ Hc)) as [Hm _]. pose proof (Sub_nonneg _ _ (proj1 Hm) Hs) as H0. pose proof (Sub_le _ _ (proj1 Hm) Hs H0). lia.
Qed.

(** C37: from candidates with values up to 32767 and masks of types [GetAutomata] makes the
    items of an automaton, and the automaton made of them, run on a mask, returns the value
    of a candidate of least cost among those that cover the mask, or [failure] when none
    does, though candidates were pruned and the automaton picks by masks. *)
Theorem GetAutomata_finds_cheapest m_items : Forall fits m_items ->
  if allowed m_items then exists items rs, GetAutomata m_items = Ok items /\ GenerateAutomata items = Ok rs /\
    forall x, 0 <= x <= topMask -> exists v, RunAutomataMayFail rs x = Ok v /\ cheapest m_items x v
  else exists e, GetAutomata m_items = Err e /\ e <> OutOfFuel.
Proof.
  intros Hfit. destruct (allowed m_items) eqn:Ha.
  - destruct (GetAutomata_spec m_items Hfit Ha) as (items & Hget & Hr & Hn). pose proof (node_items_fit _ _ Hfit Hr Hn) as Hf.
    pose proof (prepare_items_accepts items Hf) as Hprep. rewrite decide_True in Hprep by (by eapply node_items_accepted). destruct Hprep as [prep Hprep].
    destruct (GenerateAutomata_makes items prep Hf Hprep) as [rs Hrs]. exists items, rs. split_and!; [done|done|]. intros x Hx.
    destruct (GenerateAutomata_answers items rs x Hf Hrs Hx) as (v & Hrun & Hans). exists v. split; [done|]. by apply (best_cheapest m_items items).
  - unfold GetAutomata. apply andb_false_iff in Ha as [Ha|Ha].
    + rewrite Ha. eexists. done.
    + destruct (negb _); [eexists; done|]. rewrite Ha. eexists. done.
Qed.

(** ** An example *)
Definition demo_candidates : list CandidateInfo := [mk_candidate 1 3 10; mk_candidate 2 6 4; mk_candidate 3 7 12; mk_candidate 4 2 20].
Lemma demo_candidates_fit : Forall fits demo_candidates.
Proof. unfold demo_candidates, fits. repeat constructor; simpl; lia. Qed.
Example demo_cheapest_run :
  match GetAutomata demo_candidates with
  | Ok items => (fun x => RunAutomataMayFail (table_or_none (GenerateAutomata items)) x) <$> [2; 1; 4; 8] = [Ok 2; Ok 1; Ok 2; Ok failure]
  | Err _ => False
  end.
Proof. vm_compute. reflexivity. Qed.
Lemma GetAutomata_finds_cheapest_witness :
  exists items rs, GetAutomata demo_candidates = Ok items /\ GenerateAutomata items = Ok rs /\
    forall x, 0 <= x <= topMask -> exists v, RunAutomataMayFail rs x = Ok v /\ cheapest demo_candidates x v.
Proof. exact (GetAutomata_finds_cheapest demo_candidates demo_candidates_fit). Defined.
