(* ===== verification/Ring.v ===== *)
(** * Circular doubly-linked lists

    What the intrusive lists of the program share: a ring of nodes given by the two
    functions that follow the links, what inserting behind the anchor and unlinking a node
    make of it, and that other rings are left alone. *)
From S2P Require Import Prelude.
From stdpp Require Import list.
#[local] Open Scope Z_scope.

Section links.
Implicit Types nxt prv : Z -> Z.

(** From [x] through [l] to [z], both ways. *)
Fixpoint linked nxt prv (x : Z) (l : list Z) (z : Z) : Prop :=
  match l with
  | [] => nxt x = z /\ prv z = x
  | y :: l' => nxt x = y /\ prv y = x /\ linked nxt prv y l' z
  end.
(** The nodes [l] hang on the anchor [a]. *)
Definition ring nxt prv (a : Z) (l : list Z) : Prop := NoDup (a :: l) /\ linked nxt prv a l a.

Lemma linked_app nxt prv x l y l' z : linked nxt prv x (l ++ y :: l') z <-> linked nxt prv x l y /\ linked nxt prv y l' z.
Proof. revert x. induction l as [|w l IH]; intros x; simpl; [tauto|]. rewrite IH. tauto. Qed.
Lemma linked_frame nxt prv nxt' prv' x l z : (forall y, y ∈ x :: l -> nxt' y = nxt y) -> (forall y, y ∈ l ++ [z] -> prv' y = prv y) ->
  linked nxt prv x l z -> linked nxt' prv' x l z.
Proof.
  revert x. induction l as [|y l IH]; intros x Hn Hp; simpl.
  - rewrite Hn, Hp by set_solver. done.
  - rewrite (Hn x), (Hp y) by set_solver. intros (? & ? & ?). split_and!; [done|done|]. apply IH; set_solver.
Qed.
(** The same nodes, but another end. *)
Lemma linked_retarget nxt prv nxt' prv' x l y z : NoDup (x :: l) -> y ∉ l -> z ∉ l -> linked nxt prv x l y ->
  nxt' (prv y) = z -> prv' z = prv y -> (forall w, w ∈ x :: l -> w <> prv y -> nxt' w = nxt w) -> (forall w, w ∈ l -> prv' w = prv w) ->
  linked nxt' prv' x l z.
Proof.
  revert x. induction l as [|w l IH]; intros x Hnd Hy Hz Hl Hq Hzq Hn Hp; simpl in *.
  - destruct Hl as [_ Hl]. rewrite Hl in *. done.
  - destruct Hl as (Hxw & Hwx & Hl). assert (Hqx : prv y <> x).
    { assert (Hq' : prv y ∈ w :: l); [|apply NoDup_cons in Hnd as [Hnd _]; intros He; by rewrite He in Hq'].
      clear -Hl. revert w Hl. induction l as [|v l IH]; intros w Hl; simpl in *; [destruct Hl as [_ ->]; set_solver|].
      destruct Hl as (_ & _ & Hl). apply IH in Hl. set_solver. }
    split_and!; [by rewrite Hn by set_solver|by rewrite Hp by set_solver|]. apply IH; [by apply NoDup_cons in Hnd as [_ ?]|set_solver|set_solver|done|done|done| |].
    + intros v Hv. apply Hn. set_solver.
    + intros v Hv. apply Hp. set_solver.
Qed.

Lemma ring_frame nxt prv nxt' prv' a l : (forall y, y ∈ a :: l -> nxt' y = nxt y /\ prv' y = prv y) -> ring nxt prv a l -> ring nxt' prv' a l.
Proof. intros H [Hnd Hl]. split; [done|]. eapply linked_frame; [| |exact Hl]; intros y Hy; apply H; set_solver. Qed.
Lemma ring_empty nxt prv a : nxt a = a -> prv a = a -> ring nxt prv a [].
Proof. intros H1 H2. split; [apply NoDup_singleton|done]. Qed.
Lemma ring_next nxt prv a l : ring nxt prv a l -> nxt a = match l with [] => a | h :: _ => h end.
Proof. intros [_ Hl]. destruct l; simpl in Hl; tauto. Qed.
Lemma ring_next_elem nxt prv a l : ring nxt prv a l -> nxt a ∈ a :: l.
Proof. intros H. rewrite (ring_next _ _ _ _ H). destruct l; set_solver. Qed.

Lemma ring_insert nxt prv nxt' prv' a l p : ring nxt prv a l -> p ∉ a :: l ->
  nxt' a = p -> nxt' p = nxt a -> prv' (nxt a) = p -> prv' p = a ->
  (forall x, x <> a -> x <> p -> nxt' x = nxt x) -> (forall x, x <> nxt a -> x <> p -> prv' x = prv x) -> ring nxt' prv' a (p :: l).
Proof.
  intros [Hnd Hl] Hp Hna Hnp Hph Hpp Hn Hpr. split.
  - apply NoDup_cons in Hnd as [Ha Hnd]. apply NoDup_cons. split; [set_solver|]. apply NoDup_cons. split; [set_solver|done].
  - simpl. split_and!; [done|done|]. destruct l as [|h l]; simpl in *.
    + destruct Hl as [Hl _]. rewrite Hl in *. done.
    + destruct Hl as (Hh & _ & Hl). rewrite Hh in *. split_and!; [done|done|]. apply NoDup_cons in Hnd as [Ha Hnd]. apply NoDup_cons in Hnd as [Hhl Hnd].
      eapply linked_frame; [| |exact Hl]; intros y Hy; [apply Hn; set_solver|apply Hpr; set_solver].
Qed.

Lemma linked_prev_elem nxt prv x l z : linked nxt prv x l z -> prv z ∈ x :: l.
Proof.
  revert x. induction l as [|y l IH]; intros x Hl; simpl in *; [destruct Hl as [_ ->]; set_solver|]. destruct Hl as (_ & _ & Hl). apply IH in Hl. set_solver.
Qed.
Lemma linked_next_elem nxt prv x l z : linked nxt prv x l z -> nxt x ∈ l ++ [z].
Proof. destruct l; simpl; intros H; [destruct H as [-> _]; set_solver|destruct H as [-> _]; set_solver]. Qed.

Lemma ring_remove nxt prv nxt' prv' a l1 p l2 : ring nxt prv a (l1 ++ p :: l2) ->
  nxt' (prv p) = nxt p -> prv' (nxt p) = prv p ->
  (forall x, x <> prv p -> x <> p -> nxt' x = nxt x) -> (forall x, x <> nxt p -> x <> p -> prv' x = prv x) -> ring nxt' prv' a (l1 ++ l2).
Proof.
  intros [Hnd Hl] Hq Hh Hn Hp. apply linked_app in Hl as [Hl1 Hl2]. apply NoDup_cons in Hnd as [Ha Hnd]. apply NoDup_app in Hnd as (Hnd1 & Hd & Hnd2).
  apply NoDup_cons in Hnd2 as [Hpl2 Hnd2]. assert (Hq1 : prv p ∈ a :: l1) by (by eapply linked_prev_elem). assert (Hh2 : nxt p ∈ l2 ++ [a]) by (by eapply linked_next_elem).
  assert (Hp1 : p ∉ l1) by (intros Hin; apply (Hd p Hin); set_solver). split.
  - apply NoDup_cons. split; [set_solver|]. apply NoDup_app. split_and!; [done|set_solver|done].
  - assert (Hfirst : linked nxt' prv' a l1 (nxt p)).
    { apply (linked_retarget nxt prv nxt' prv' a l1 p); [apply NoDup_cons; set_solver|done|set_solver|done|done|done| |].
      - intros w Hw Hwq. apply Hn; [done|set_solver].
      - intros w Hw. apply Hp; set_solver. }
    destruct l2 as [|h l2]; simpl in *.
    + destruct Hl2 as [Hl2 _]. rewrite app_nil_r. by rewrite <- Hl2 at 2.
    + destruct Hl2 as (Hph & _ & Hl2). rewrite Hph in *. apply linked_app. split; [done|]. apply NoDup_cons in Hnd2 as [Hhl2 Hnd2].
      eapply linked_frame; [| |exact Hl2]; intros y Hy; [apply Hn|apply Hp]; set_solver.
Qed.
Lemma ring_neighbours nxt prv a l1 p l2 : ring nxt prv a (l1 ++ p :: l2) -> prv p ∈ a :: l1 ++ l2 /\ nxt p ∈ a :: l1 ++ l2 /\ prv p <> p /\ nxt p <> p.
Proof.
  intros [Hnd Hl]. apply linked_app in Hl as [Hl1 Hl2]. apply linked_prev_elem in Hl1. apply linked_next_elem in Hl2.
  apply NoDup_cons in Hnd as [Ha Hnd]. apply NoDup_app in Hnd as (_ & Hd & Hnd2). apply NoDup_cons in Hnd2 as [Hp _].
  split_and!; [set_solver|set_solver| |]; intros He; rewrite He in *.
  - apply elem_of_cons in Hl1 as [->|Hl1]; [set_solver|]. apply (Hd p Hl1). set_solver.
  - apply elem_of_app in Hl2 as [Hl2| ->%list_elem_of_singleton]; [done|]. set_solver.
Qed.
End links.
