(* ===== verification/SpdsList.v ===== *)
(** * Intrusive lists

    [runtime/spds_doubly_linked_list.h]: nodes with two links, on the ring of the anchor of
    a list or on none.  A heap maps addresses to links.  An address is what a
    [SpdsOrSystemHeapPtr] of [drt/memory_ptr.h] holds, a signed 32-bit offset from the VM
    object: nodes are below it, at negative offsets, and what lies in [0, 64) is no
    pointer, as the 0 of a link that is not set.  The heap refines a state of lists and of nodes on no list. *)
From S2P Require Import Prelude Ring.
From stdpp Require Import gmap.
#[local] Open Scope Z_scope.
#[local] Set Default Proof Using "Type".

Record Links : Type := mk_links { m_prevNode : Z; m_nextNode : Z }.
Notation Heap := (gmap Z Links).
Notation H := (Prelude.M Heap).

Definition load (a : Z) : H Links := fun h => match h !! a with Some n => Ok (n, h) | None => Err (UndefinedBehaviour "load outside the heap") end.
Definition set_prev (a v : Z) : H unit := fun h =>
  match h !! a with Some n => Ok (tt, <[a := mk_links v (m_nextNode n)]> h) | None => Err (UndefinedBehaviour "store outside the heap") end.
Definition set_next (a v : Z) : H unit := fun h =>
  match h !! a with Some n => Ok (tt, <[a := mk_links (m_prevNode n) v]> h) | None => Err (UndefinedBehaviour "store outside the heap") end.

(** The constructors of a node and of a list. *)
Definition new_node (a : Z) : H unit := modify (<[a := mk_links 0 0]>).
Definition new_list (a : Z) : H unit := modify (<[a := mk_links a a]>).

(** [SpdsOrSystemHeapPtr::IsInvalidPtr], and the range [AssertIsSpdsPointer] asserts. *)
Definition x_minimum_valid_heap_address : Z := 64.
Definition IsInvalidPtr (m_value : Z) : bool := (0 <=? m_value) && (m_value <? x_minimum_valid_heap_address).
Definition IsSpdsPointer (ptr : Z) : bool := (- 2 ^ 31 <=? ptr) && (ptr <? 0).

Definition IsOnDoublyLinkedList (self : Z) : H bool :=
  n ← load self;
  check (eqb (IsInvalidPtr (m_prevNode n)) (IsInvalidPtr (m_nextNode n))) (AssertFailed "prev.IsInvalidPtr() == next.IsInvalidPtr()") ;;
  mret (negb (IsInvalidPtr (m_prevNode n))).
Definition RemoveFromDoublyLinkedList (nodeToRemove : Z) : H unit :=
  on ← IsOnDoublyLinkedList nodeToRemove;
  check on (AssertFailed "IsOnDoublyLinkedList(nodeToRemove)") ;;
  n ← load nodeToRemove;
  set_prev (m_nextNode n) (m_prevNode n) ;;
  set_next (m_prevNode n) (m_nextNode n) ;;
  set_prev nodeToRemove 0 ;;
  set_next nodeToRemove 0 ;;
  on ← IsOnDoublyLinkedList nodeToRemove;
  check (negb on) (AssertFailed "!IsOnDoublyLinkedList(nodeToRemove)").
Definition check_anchor (n : Links) : H unit :=
  check (negb (IsInvalidPtr (m_prevNode n))) (AssertFailed "!m_anchor.m_prevNode.IsInvalidPtr()") ;;
  check (negb (IsInvalidPtr (m_nextNode n))) (AssertFailed "!m_anchor.m_nextNode.IsInvalidPtr()").
Definition IsEmpty (self : Z) : H bool :=
  n ← load self;
  check_anchor n ;;
  check (eqb (m_prevNode n =? self) (m_nextNode n =? self)) (AssertFailed "m_anchor.m_prevNode == &m_anchor <=> m_anchor.m_nextNode == &m_anchor") ;;
  mret (m_prevNode n =? self).
Definition InsertAtHead (self p : Z) : H unit :=
  n ← load self;
  check_anchor n ;;
  check (IsSpdsPointer p) (AssertFailed "vmVoid - (1ULL << 31) <= ptrVoid && ptrVoid < vmVoid") ;;
  set_prev p self ;;
  set_next p (m_nextNode n) ;;
  set_prev (m_nextNode n) p ;;
  set_next self p.
(** The nodes from [begin()] to [end()]. *)
Fixpoint iterate (fuel : nat) (self cur : Z) : H (list Z) :=
  match fuel with
  | O => fail OutOfFuel
  | S fuel' =>
      if cur =? self then mret []
      else n ← load cur; rest ← iterate fuel' self (m_nextNode n); mret (cur :: rest)
  end.
Definition elements (self : Z) : H (list Z) :=
  h ← get_st; n ← load self; iterate (S (size h)) self (m_nextNode n).

(** ** The specification *)
Record Lists : Type := mk_lists { li_lists : gmap Z (list Z); li_free : gset Z }.
Definition used (A : Lists) (x : Z) : Prop := x ∈ li_free A \/ exists a l, li_lists A !! a = Some l /\ x ∈ a :: l.
Inductive op : Type := NewNode (a : Z) | NewList (a : Z) | Insert (self p : Z) | Remove (p : Z).
Inductive op_step (A : Lists) : op -> Lists -> Prop :=
  | step_node a : IsSpdsPointer a = true -> ~ used A a -> op_step A (NewNode a) (mk_lists (li_lists A) ({[a]} ∪ li_free A))
  | step_list a : IsInvalidPtr a = false -> - 2 ^ 31 <= a < 2 ^ 31 -> ~ used A a -> op_step A (NewList a) (mk_lists (<[a := []]> (li_lists A)) (li_free A))
  | step_insert a l p : li_lists A !! a = Some l -> p ∈ li_free A ->
      op_step A (Insert a p) (mk_lists (<[a := p :: l]> (li_lists A)) (li_free A ∖ {[p]}))
  | step_remove a l1 p l2 : li_lists A !! a = Some (l1 ++ p :: l2) ->
      op_step A (Remove p) (mk_lists (<[a := l1 ++ l2]> (li_lists A)) ({[p]} ∪ li_free A)).
Inductive op_steps : Lists -> list op -> Lists -> Prop :=
  | steps_nil A : op_steps A [] A
  | steps_cons A o A' ops A'' : op_step A o A' -> op_steps A' ops A'' -> op_steps A (o :: ops) A''.

Definition run_op (o : op) : H unit :=
  match o with
  | NewNode a => new_node a
  | NewList a => new_list a
  | Insert self p => InsertAtHead self p
  | Remove p => RemoveFromDoublyLinkedList p
  end.
Fixpoint run_ops (ops : list op) : H unit :=
  match ops with [] => mret tt | o :: ops' => run_op o ;; run_ops ops' end.

(** ** The relation *)
Definition nxt (h : Heap) (a : Z) : Z := default 0 (m_nextNode <$> h !! a).
Definition prv (h : Heap) (a : Z) : Z := default 0 (m_prevNode <$> h !! a).
Record refines (h : Heap) (A : Lists) : Prop := {
  rf_ring : forall a l, li_lists A !! a = Some l -> ring (nxt h) (prv h) a l;
  rf_dom : forall x, used A x -> IsInvalidPtr x = false /\ is_Some (h !! x);
  rf_spds : forall x, x ∈ li_free A \/ (exists a l, li_lists A !! a = Some l /\ x ∈ l) -> IsSpdsPointer x = true;
  rf_sep : forall a l b m x, li_lists A !! a = Some l -> li_lists A !! b = Some m -> x ∈ a :: l -> x ∈ b :: m -> a = b;
  rf_free : forall x, x ∈ li_free A -> h !! x = Some (mk_links 0 0);
  rf_free_sep : forall a l x, li_lists A !! a = Some l -> x ∈ li_free A -> x ∉ a :: l
}.

Lemma spds_valid x : IsSpdsPointer x = true -> IsInvalidPtr x = false.
Proof. unfold IsSpdsPointer, IsInvalidPtr. intros [_ H%Z.ltb_lt]%andb_true_iff. by rewrite (proj2 (Z.leb_gt 0 x)). Qed.
Lemma nxt_insert h a n x : nxt (<[a := n]> h) x = if decide (x = a) then m_nextNode n else nxt h x.
Proof. unfold nxt. destruct (decide (x = a)) as [->|]; [by rewrite lookup_insert_eq|by rewrite lookup_insert_ne]. Qed.
Lemma prv_insert h a n x : prv (<[a := n]> h) x = if decide (x = a) then m_prevNode n else prv h x.
Proof. unfold prv. destruct (decide (x = a)) as [->|]; [by rewrite lookup_insert_eq|by rewrite lookup_insert_ne]. Qed.
Lemma load_links h a : is_Some (h !! a) -> h !! a = Some (mk_links (prv h a) (nxt h a)).
Proof. intros [[p n] Hn]. unfold nxt, prv. by rewrite Hn. Qed.

Lemma nxt_lookup h a n : h !! a = Some n -> nxt h a = m_nextNode n.
Proof. intros Hn. unfold nxt. by rewrite Hn. Qed.
Lemma prv_lookup h a n : h !! a = Some n -> prv h a = m_prevNode n.
Proof. intros Hn. unfold prv. by rewrite Hn. Qed.

(** ** Running *)
Section ops.
Context (E : error -> Prop).
Lemma wp_node_load a n (Q : Links -> Heap -> Prop) h : h !! a = Some n -> Q n h -> wp E (load a) Q h.
Proof. intros Hn HQ. unfold wp, load. by rewrite Hn. Qed.
Lemma wp_set_prev a v n (Q : unit -> Heap -> Prop) h : h !! a = Some n -> Q tt (<[a := mk_links v (m_nextNode n)]> h) -> wp E (set_prev a v) Q h.
Proof. intros Hn HQ. unfold wp, set_prev. by rewrite Hn. Qed.
Lemma wp_set_next a v n (Q : unit -> Heap -> Prop) h : h !! a = Some n -> Q tt (<[a := mk_links (m_prevNode n) v]> h) -> wp E (set_next a v) Q h.
Proof. intros Hn HQ. unfold wp, set_next. by rewrite Hn. Qed.
Lemma wp_is_on a n (Q : bool -> Heap -> Prop) h : h !! a = Some n -> IsInvalidPtr (m_prevNode n) = IsInvalidPtr (m_nextNode n) ->
  Q (negb (IsInvalidPtr (m_prevNode n))) h -> wp E (IsOnDoublyLinkedList a) Q h.
Proof.
  intros Hn Hiff HQ. unfold IsOnDoublyLinkedList. apply wp_bind. apply (wp_node_load a n); [done|]. apply wp_bind.
  apply wp_check; [intros _; by wp_step|]. by rewrite Hiff, eqb_reflx.
Qed.
End ops.

(** The heap after a node is unlinked, or put behind an anchor. *)
Lemma is_Some_insert (h : Heap) a n x : is_Some (h !! x) -> is_Some (<[a := n]> h !! x).
Proof. intros Hx. destruct (decide (x = a)) as [->|]; [rewrite lookup_insert_eq; eauto|by rewrite lookup_insert_ne]. Qed.

Lemma remove_runs h p : h !! p = Some (mk_links (prv h p) (nxt h p)) -> IsInvalidPtr (prv h p) = false -> IsInvalidPtr (nxt h p) = false -> prv h p <> p -> nxt h p <> p ->
  is_Some (h !! prv h p) -> is_Some (h !! nxt h p) ->
  wp (fun _ => False) (RemoveFromDoublyLinkedList p) (fun _ h' =>
    h' !! p = Some (mk_links 0 0) /\ nxt h' (prv h p) = nxt h p /\ prv h' (nxt h p) = prv h p /\
    (forall x, x <> prv h p -> x <> p -> nxt h' x = nxt h x) /\ (forall x, x <> nxt h p -> x <> p -> prv h' x = prv h x) /\
    (forall x, x <> prv h p -> x <> nxt h p -> x <> p -> h' !! x = h !! x) /\ (forall x, is_Some (h !! x) -> is_Some (h' !! x))) h.
Proof.
  intros Hp Hq0 Hn0 Hqp Hnp [q Hq] [n Hn]. unfold RemoveFromDoublyLinkedList. apply wp_bind. eapply wp_is_on; [exact Hp|simpl; congruence|]. simpl.
  apply wp_bind, wp_check; [intros _|rewrite Hq0; done]. apply wp_bind. eapply wp_node_load; [exact Hp|]. simpl.
  apply wp_bind. eapply wp_set_prev; [exact Hn|]. set (h1 := <[nxt h p := _]> h). apply wp_bind.
  assert (Hq1 : exists q1, h1 !! prv h p = Some q1) by (apply is_Some_insert; by eexists). destruct Hq1 as [q1 Hq1].
  eapply wp_set_next; [exact Hq1|]. set (h2 := <[prv h p := _]> h1). apply wp_bind.
  assert (Hp2 : h2 !! p = Some (mk_links (prv h p) (nxt h p))) by (by unfold h2, h1; rewrite !lookup_insert_ne).
  eapply wp_set_prev; [exact Hp2|]. simpl. apply wp_bind. eapply wp_set_next; [apply lookup_insert_eq|]. simpl. rewrite insert_insert_eq.
  apply wp_bind. eapply wp_is_on; [apply lookup_insert_eq|done|]. simpl. apply wp_ret.
  assert (Hn2 : forall x, nxt h2 x = if decide (x = prv h p) then nxt h p else nxt h x).
  { intros x. unfold h2. rewrite nxt_insert. simpl. destruct (decide (x = prv h p)); [done|]. unfold h1. rewrite nxt_insert.
    destruct (decide (x = nxt h p)) as [->|]; [|done]. simpl. by rewrite (nxt_lookup _ _ _ Hn). }
  assert (Hp2' : forall x, prv h2 x = if decide (x = nxt h p) then prv h p else prv h x).
  { intros x. assert (He : prv h2 x = prv h1 x).
    { unfold h2. rewrite prv_insert. destruct (decide (x = prv h p)) as [->|]; [|done]. simpl. by rewrite (prv_lookup _ _ _ Hq1). }
    rewrite He. unfold h1. by rewrite prv_insert. }
  split_and!.
  - apply lookup_insert_eq.
  - rewrite nxt_insert, decide_False, Hn2, decide_True by done. done.
  - rewrite prv_insert, decide_False, Hp2', decide_True by done. done.
  - intros x Hx Hxp. by rewrite nxt_insert, decide_False, Hn2, decide_False by done.
  - intros x Hx Hxp. by rewrite prv_insert, decide_False, Hp2', decide_False by done.
  - intros x Hx1 Hx2 Hx3. rewrite lookup_insert_ne by done. unfold h2, h1. by rewrite !lookup_insert_ne.
  - intros x Hx. by repeat apply is_Some_insert.
Qed.
Lemma insert_runs h a p : is_Some (h !! a) -> IsInvalidPtr (prv h a) = false -> IsInvalidPtr (nxt h a) = false -> IsSpdsPointer p = true -> p <> a -> p <> nxt h a -> is_Some (h !! p) -> is_Some (h !! nxt h a) ->
  wp (fun _ => False) (InsertAtHead a p) (fun _ h' =>
    nxt h' a = p /\ nxt h' p = nxt h a /\ prv h' (nxt h a) = p /\ prv h' p = a /\
    (forall x, x <> a -> x <> p -> nxt h' x = nxt h x) /\ (forall x, x <> nxt h a -> x <> p -> prv h' x = prv h x) /\
    (forall x, x <> a -> x <> nxt h a -> x <> p -> h' !! x = h !! x) /\ (forall x, is_Some (h !! x) -> is_Some (h' !! x))) h.
Proof.
  intros Ha Hpa Hna Hsp Hne Hnn [np Hp] [nh Hh]. unfold InsertAtHead, check_anchor. apply wp_bind. eapply wp_node_load; [by apply load_links|]. simpl.
  apply wp_bind, wp_bind, wp_check; [intros _|rewrite Hpa; done].
  apply wp_check; [intros _|rewrite Hna; done]. apply wp_bind, wp_check; [intros _|rewrite Hsp; done].
  apply wp_bind. eapply wp_set_prev; [exact Hp|]. apply wp_bind. eapply wp_set_next; [apply lookup_insert_eq|]. simpl. rewrite insert_insert_eq.
  set (h1 := <[p := _]> h). apply wp_bind. assert (Hh1 : h1 !! nxt h a = Some nh) by (unfold h1; by rewrite lookup_insert_ne).
  eapply wp_set_prev; [exact Hh1|]. set (h2 := <[nxt h a := _]> h1).
  assert (Ha2 : is_Some (h2 !! a)) by (by do 2 apply is_Some_insert). destruct Ha2 as [na Ha2]. eapply wp_set_next; [exact Ha2|]. set (h3 := <[a := _]> h2).
  assert (Hn3 : forall x, nxt h3 x = if decide (x = a) then p else if decide (x = p) then nxt h a else nxt h x).
  { intros x. unfold h3. rewrite nxt_insert. destruct (decide (x = a)); [done|]. unfold h2. rewrite nxt_insert.
    assert (He : nxt h1 x = if decide (x = p) then nxt h a else nxt h x) by (unfold h1; by rewrite nxt_insert).
    destruct (decide (x = nxt h a)) as [->|]; [|done]. rewrite <- He. simpl. by rewrite (nxt_lookup _ _ _ Hh1). }
  assert (Hp3 : forall x, prv h3 x = if decide (x = nxt h a) then p else if decide (x = p) then a else prv h x).
  { intros x. assert (He : prv h3 x = prv h2 x).
    { unfold h3. rewrite prv_insert. destruct (decide (x = a)) as [->|]; [|done]. simpl. by rewrite (prv_lookup _ _ _ Ha2). }
    rewrite He. unfold h2. rewrite prv_insert. destruct (decide (x = nxt h a)); [done|]. unfold h1. by rewrite prv_insert. }
  split_and!.
  - by rewrite Hn3, decide_True.
  - by rewrite Hn3, decide_False, decide_True.
  - by rewrite Hp3, decide_True.
  - by rewrite Hp3, decide_False, decide_True.
  - intros x Hx Hxp. by rewrite Hn3, !decide_False.
  - intros x Hx Hxp. by rewrite Hp3, !decide_False.
  - intros x Hx1 Hx2 Hx3. unfold h3, h2, h1. by rewrite !lookup_insert_ne.
  - intros x Hx. unfold h3, h2, h1. by repeat apply is_Some_insert.
Qed.

(** ** The refinement *)
Lemma used_list A a l x : li_lists A !! a = Some l -> x ∈ a :: l -> used A x.
Proof. intros Hl Hx. right. eauto. Qed.
(** Both links of a node on a ring are set. *)
Lemma ring_links_set h A a l x : refines h A -> li_lists A !! a = Some l -> x ∈ a :: l ->
  h !! x = Some (mk_links (prv h x) (nxt h x)) /\ IsInvalidPtr (prv h x) = false /\ IsInvalidPtr (nxt h x) = false /\ prv h x ∈ a :: l /\ nxt h x ∈ a :: l.
Proof.
  intros HR Hl Hx. pose proof (rf_ring _ _ HR a l Hl) as Hring.
  assert (Hin : prv h x ∈ a :: l /\ nxt h x ∈ a :: l).
  { apply elem_of_cons in Hx as [->|(l1 & l2 & ->)%list_elem_of_split].
    - split; [destruct Hring as [_ Hlk]; by eapply linked_prev_elem|by eapply ring_next_elem].
    - destruct (ring_neighbours _ _ _ _ _ _ Hring) as (H1 & H2 & _). set_solver. }
  split_and!; [apply load_links; by apply (rf_dom _ _ HR), (used_list A a l)| | |apply Hin|apply Hin];
    apply (rf_dom _ _ HR), (used_list A a l); tauto.
Qed.

(** One list changes; nodes move between it and the free ones. *)
Lemma refines_update h h' A a l l' F' : refines h A -> li_lists A !! a = Some l -> ring (nxt h') (prv h') a l' ->
  (forall x, x ∈ l' -> x ∈ l \/ x ∈ li_free A) -> (forall x, x ∈ F' -> x ∈ l \/ x ∈ li_free A) -> (forall x, x ∈ F' -> x ∉ a :: l') ->
  (forall x, x ∉ a :: l -> x ∉ li_free A -> nxt h' x = nxt h x /\ prv h' x = prv h x) -> (forall x, is_Some (h !! x) -> is_Some (h' !! x)) ->
  (forall x, x ∈ F' -> h' !! x = Some (mk_links 0 0)) -> refines h' (mk_lists (<[a := l']> (li_lists A)) F').
Proof.
  intros HR Hl Hring Hl' HF' Hsep Hsame Hdom Hfree.
  assert (Hin : forall x, x ∈ a :: l' -> x ∈ a :: l \/ x ∈ li_free A) by set_solver.
  assert (Hother : forall b m x, li_lists A !! b = Some m -> b <> a -> x ∈ b :: m -> x ∉ a :: l /\ x ∉ li_free A).
  { intros b m x Hb Hba Hx. split; intros Hc; [apply Hba, (rf_sep _ _ HR b m a l x)|apply (rf_free_sep _ _ HR b m x)]; done. }
  split; simpl.
  - intros b m [[<- <-]|[Hba Hb]]%lookup_insert_Some; [done|]. apply (ring_frame (nxt h) (prv h)); [|by apply (rf_ring _ _ HR)].
    intros x Hx. destruct (Hother b m x Hb (not_eq_sym Hba) Hx). by apply Hsame.
  - intros x Hx. assert (Hu : used A x).
    { unfold used in Hx. simpl in Hx. assert (Hold : x ∈ a :: l \/ x ∈ li_free A -> used A x) by (intros [?|?]; [by eapply used_list|by left]).
      destruct Hx as [Hx|(b & m & [[<- <-]|[Hba Hb]]%lookup_insert_Some & Hx)]; [|by apply Hold, Hin|by eapply used_list].
      apply Hold. destruct (HF' x Hx); [left; by apply list_elem_of_further|by right]. }
    destruct (rf_dom _ _ HR x Hu). auto.
  - assert (Hold : forall x, x ∈ l \/ x ∈ li_free A -> IsSpdsPointer x = true).
    { intros x [Hx|Hx]; apply (rf_spds _ _ HR); [right; by exists a, l|by left]. }
    intros x [Hx|(b & m & [[<- <-]|[Hba Hb]]%lookup_insert_Some & Hx)]; [by apply Hold, HF'|by apply Hold, Hl'|].
    apply (rf_spds _ _ HR). right. by exists b, m.
  - intros b m c m' x [[<- <-]|[Hba Hb]]%lookup_insert_Some [[<- <-]|[Hca Hc]]%lookup_insert_Some Hxb Hxc; [done| | |by apply (rf_sep _ _ HR b m c m' x)].
    + destruct (Hother c m' x Hc (not_eq_sym Hca) Hxc). by destruct (Hin x Hxb).
    + destruct (Hother b m x Hb (not_eq_sym Hba) Hxb). by destruct (Hin x Hxc).
  - done.
  - intros b m x [[<- <-]|[Hba Hb]]%lookup_insert_Some Hx; [by apply Hsep|]. intros Hxb.
    destruct (Hother b m x Hb (not_eq_sym Hba) Hxb). destruct (HF' x Hx); [set_solver|done].
Qed.

Definition sim (h : Heap) (o : op) (A' : Lists) : Prop := wp (fun _ => False) (run_op o) (fun _ h' => refines h' A') h.

Lemma sim_insert h A a l p : refines h A -> li_lists A !! a = Some l -> p ∈ li_free A ->
  sim h (Insert a p) (mk_lists (<[a := p :: l]> (li_lists A)) (li_free A ∖ {[p]})).
Proof.
  intros HR Hl Hp. destruct (ring_links_set h A a l a HR Hl) as (Ha & Hpa & Hna & _ & Hnin); [set_solver|].
  pose proof (rf_free_sep _ _ HR a l p Hl Hp) as Hpl. eapply wp_mono; [apply (insert_runs h a p)|].
  - rewrite Ha. eauto.
  - done.
  - done.
  - apply (rf_spds _ _ HR). by left.
  - set_solver.
  - intros ->. done.
  - rewrite (rf_free _ _ HR p Hp). eauto.
  - apply (rf_dom _ _ HR), (used_list A a l); done.
  - intros _ h' (H1 & H2 & H3 & H4 & H5 & H6 & H7 & H8). assert (Hf : forall x, x ∈ li_free A -> x ∉ a :: l) by (intros x; by apply (rf_free_sep _ _ HR a l)).
    apply (refines_update h h' A a l); [done|done| |set_solver|set_solver| | |done|].
    + eapply (ring_insert (nxt h) (prv h)); eauto using rf_ring.
    + intros x Hx. pose proof (Hf x ltac:(set_solver)). set_solver.
    + intros x Hxl Hxf. assert (x <> a /\ x <> nxt h a /\ x <> p) as (? & ? & ?) by set_solver. split; [by apply H5|by apply H6].
    + intros x Hx. pose proof (Hf x ltac:(set_solver)). rewrite H7; [apply (rf_free _ _ HR)| | |]; set_solver.
Qed.
Lemma sim_remove h A a l1 p l2 : refines h A -> li_lists A !! a = Some (l1 ++ p :: l2) ->
  sim h (Remove p) (mk_lists (<[a := l1 ++ l2]> (li_lists A)) ({[p]} ∪ li_free A)).
Proof.
  intros HR Hl. destruct (ring_links_set h A a _ p HR Hl) as (Hp & Hpp & Hnp & _); [set_solver|]. pose proof (rf_ring _ _ HR a _ Hl) as Hring.
  destruct (ring_neighbours _ _ _ _ _ _ Hring) as (Hq & Hn & Hqp & Hnp'). assert (Hdom : forall x, x ∈ a :: l1 ++ l2 -> is_Some (h !! x)).
  { intros x Hx. apply (rf_dom _ _ HR), (used_list A a _ x Hl). set_solver. }
  assert (Hf : forall x, x ∈ li_free A -> x ∉ a :: l1 ++ p :: l2) by (intros x; by apply (rf_free_sep _ _ HR)).
  eapply wp_mono; [apply (remove_runs h p); auto|]. intros _ h' (H0 & H1 & H2 & H3 & H4 & H5 & H6).
  apply (refines_update h h' A a (l1 ++ p :: l2)); [done|done| |set_solver|set_solver| | |done|].
  - by eapply (ring_remove (nxt h) (prv h)).
  - destruct Hring as [Hnd _]. apply NoDup_cons in Hnd as [Ha Hnd]. apply NoDup_app in Hnd as (_ & Hd & Hnd). apply NoDup_cons in Hnd as [Hpl _].
    intros x [->%elem_of_singleton|Hx]%elem_of_union; [|pose proof (Hf x Hx); set_solver]. pose proof (Hd p). set_solver.
  - intros x Hx _. assert (x <> prv h p /\ x <> nxt h p /\ x <> p) as (? & ? & ?) by set_solver. split; [by apply H3|by apply H4].
  - intros x [->%elem_of_singleton|Hx]%elem_of_union; [done|]. pose proof (Hf x Hx). rewrite H5; [by apply (rf_free _ _ HR)| | |]; set_solver.
Qed.
Lemma sim_node h A a : refines h A -> IsSpdsPointer a = true -> ~ used A a -> sim h (NewNode a) (mk_lists (li_lists A) ({[a]} ∪ li_free A)).
Proof.
  intros HR Ha Hu. unfold sim. simpl. unfold new_node. apply wp_modify.
  assert (Hne : forall b m x, li_lists A !! b = Some m -> x ∈ b :: m -> x <> a) by (intros b m x Hb Hx ->; by eapply Hu, used_list). split; simpl.
  - intros b m Hb. apply (ring_frame (nxt h) (prv h)); [|by apply (rf_ring _ _ HR)]. intros x Hx. pose proof (Hne b m x Hb Hx).
    by rewrite nxt_insert, prv_insert, !decide_False.
  - intros x Hx. destruct (decide (x = a)) as [->|Hxa]; [split; [by apply spds_valid|rewrite lookup_insert_eq; eauto]|]. rewrite lookup_insert_ne by done.
    apply (rf_dom _ _ HR). destruct Hx as [[->%elem_of_singleton|Hx]%elem_of_union|Hx]; [done|by left|by right].
  - intros x [[->%elem_of_singleton|Hx]%elem_of_union|Hx]; [done|apply (rf_spds _ _ HR); by left|apply (rf_spds _ _ HR); by right].
  - apply (rf_sep _ _ HR).
  - intros x [->%elem_of_singleton|Hx]%elem_of_union; [apply lookup_insert_eq|]. rewrite lookup_insert_ne; [by apply (rf_free _ _ HR)|].
    intros ->. by apply Hu; left.
  - intros b m x Hb [->%elem_of_singleton|Hx]%elem_of_union; [intros Hx; by apply (Hne b m a)|by apply (rf_free_sep _ _ HR)].
Qed.
Lemma sim_list h A a : refines h A -> IsInvalidPtr a = false -> ~ used A a -> sim h (NewList a) (mk_lists (<[a := []]> (li_lists A)) (li_free A)).
Proof.
  intros HR Ha Hu. unfold sim. simpl. unfold new_list. apply wp_modify.
  assert (Hne : forall b m x, li_lists A !! b = Some m -> x ∈ b :: m -> x <> a) by (intros b m x Hb Hx ->; by eapply Hu, used_list). split; simpl.
  - intros b m [[<- <-]|[Hba Hb]]%lookup_insert_Some; [apply ring_empty; by rewrite ?nxt_insert, ?prv_insert, decide_True|].
    apply (ring_frame (nxt h) (prv h)); [|by apply (rf_ring _ _ HR)]. intros x Hx. pose proof (Hne b m x Hb Hx).
    by rewrite nxt_insert, prv_insert, !decide_False.
  - intros x Hx. destruct (decide (x = a)) as [->|Hxa]; [split; [done|rewrite lookup_insert_eq; eauto]|]. rewrite lookup_insert_ne by done.
    apply (rf_dom _ _ HR). unfold used in Hx. simpl in Hx.
    destruct Hx as [Hx|(b & m & [[<- <-]|[Hba Hb]]%lookup_insert_Some & Hx)]; [by left| |by eapply used_list].
    apply list_elem_of_singleton in Hx. done.
  - intros x [Hx|(b & m & [[<- <-]|[Hba Hb]]%lookup_insert_Some & Hx)]; [apply (rf_spds _ _ HR); by left|by apply not_elem_of_nil in Hx|].
    apply (rf_spds _ _ HR). right. by exists b, m.
  - intros b m c m' x [[<- <-]|[Hba Hb]]%lookup_insert_Some [[<- <-]|[Hca Hc]]%lookup_insert_Some Hxb Hxc; [done| | |by apply (rf_sep _ _ HR b m c m' x)].
    + apply list_elem_of_singleton in Hxb as ->. by destruct (Hne c m' a Hc Hxc).
    + apply list_elem_of_singleton in Hxc as ->. by destruct (Hne b m a Hb Hxb).
  - intros x Hx. rewrite lookup_insert_ne; [by apply (rf_free _ _ HR)|]. intros ->. by apply Hu; left.
  - intros b m x [[<- <-]|[Hba Hb]]%lookup_insert_Some Hx; [|by apply (rf_free_sep _ _ HR b m)].
    intros ->%list_elem_of_singleton. by apply Hu; left.
Qed.
Lemma sim_op h A o A' : refines h A -> op_step A o A' -> sim h o A'.
Proof. intros HR []; [by apply sim_node|by apply sim_list|by apply sim_insert|by eapply sim_remove]. Qed.
Lemma sim_ops ops : forall h A A', refines h A -> op_steps A ops A' -> wp (fun _ => False) (run_ops ops) (fun _ h' => refines h' A') h.
Proof.
  induction ops as [|o ops IH]; intros h A A' HR Hs; inversion Hs; subst; cbn [run_ops]; [by apply wp_ret|].
  apply wp_bind. match goal with Hst : op_step _ _ _ |- _ => eapply wp_mono; [exact (sim_op _ _ _ _ HR Hst)|] end.
  cbv beta. intros _ h' HR'. by eapply IH.
Qed.

(** ** What can be observed *)
Lemma iterate_linked h a : forall l x fuel, linked (nxt h) (prv h) x l a -> (forall y, y ∈ l -> y <> a /\ is_Some (h !! y)) -> (length l < fuel)%nat ->
  iterate fuel a (nxt h x) h = Ok (l, h).
Proof.
  induction l as [|y l IH]; intros x fuel Hl Hin Hf; (destruct fuel as [|fuel]; [simpl in Hf; lia|]); simpl in Hl; cbn [iterate].
  - destruct Hl as [-> _]. by rewrite Z.eqb_refl.
  - destruct Hl as (-> & _ & Hl). destruct (Hin y) as [Hya Hy]; [set_solver|]. destruct (Z.eqb_spec y a); [done|].
    apply load_links in Hy. unfold mbind, M_bind, load. rewrite Hy. simpl. rewrite (IH y fuel Hl); [done|set_solver|simpl in Hf; lia].
Qed.
Lemma length_on_heap h (l : list Z) : NoDup l -> (forall y, y ∈ l -> is_Some (h !! y)) -> (length l <= size (h : Heap))%nat.
Proof.
  intros Hnd Hin. rewrite <- size_dom. rewrite <- (size_list_to_set l (C := gset Z)) by done. apply subseteq_size.
  intros y Hy%elem_of_list_to_set. by apply elem_of_dom, Hin.
Qed.
Lemma observe_list h A a l : refines h A -> li_lists A !! a = Some l ->
  IsEmpty a h = Ok (bool_decide (l = []), h) /\ elements a h = Ok (l, h) /\ forall p, p ∈ l -> IsOnDoublyLinkedList p h = Ok (true, h).
Proof.
  intros HR Hl. destruct (ring_links_set h A a l a HR Hl) as (Ha & Hpa & Hna & _); [set_solver|].
  pose proof (rf_ring _ _ HR a l Hl) as Hring. pose proof Hring as [Hnd Hlk]. apply NoDup_cons in Hnd as [Hal Hnd].
  assert (Hdom : forall y, y ∈ l -> y <> a /\ is_Some (h !! y)).
  { intros y Hy. split; [set_solver|]. apply (rf_dom _ _ HR), (used_list A a l); set_solver. }
  split_and!.
  - assert (Hprv : prv h a = a <-> l = []).
    { apply linked_prev_elem in Hlk as Hin. destruct l as [|y l]; [simpl in Hlk; tauto|]. split; [|done]. intros He. exfalso.
      simpl in Hlk. destruct Hlk as (_ & _ & Hlk). apply linked_prev_elem in Hlk. rewrite He in Hlk. done. }
    assert (Hnxt : nxt h a = a <-> l = []).
    { rewrite (ring_next _ _ _ _ Hring). destruct l as [|y l]; [done|]. split; [intros ->; set_solver|done]. }
    unfold IsEmpty, check_anchor, mbind, M_bind, load. rewrite Ha. simpl. rewrite Hpa, Hna. simpl.
    destruct (Z.eqb_spec (prv h a) a) as [He|He], (Z.eqb_spec (nxt h a) a) as [He'|He']; simpl; [..|tauto|].
    + by rewrite bool_decide_eq_true_2 by tauto.
    + tauto.
    + by rewrite bool_decide_eq_false_2 by tauto.
  - unfold elements, mbind, M_bind, load, get_st. rewrite Ha. cbn [m_nextNode]. apply (iterate_linked h a l a); [done|done|].
    pose proof (length_on_heap h l Hnd ltac:(intros y Hy; by apply Hdom)). lia.
  - intros p Hp. destruct (ring_links_set h A a l p HR Hl) as (Hlp & Hpp & Hnp & _); [set_solver|].
    unfold IsOnDoublyLinkedList, mbind, M_bind, load. rewrite Hlp. simpl. by rewrite Hpp, Hnp.
Qed.

(** C38: any sequence of constructions, insertions at a head and removals that is allowed for
    lists of nodes runs without a failed assertion on the linked heap, and leaves every
    list with just its nodes: [IsEmpty], the elements from [begin()] to [end()] in order,
    and [IsOnDoublyLinkedList] are those of the lists. *)
Theorem lists_refined ops A : op_steps (mk_lists ∅ ∅) ops A -> exists h, run_ops ops ∅ = Ok (tt, h) /\
  (forall a l, li_lists A !! a = Some l ->
     IsEmpty a h = Ok (bool_decide (l = []), h) /\ elements a h = Ok (l, h) /\ forall p, p ∈ l -> IsOnDoublyLinkedList p h = Ok (true, h)) /\
  (forall p, p ∈ li_free A -> IsOnDoublyLinkedList p h = Ok (false, h)).
Proof.
  intros Hs. assert (HR0 : refines ∅ (mk_lists ∅ ∅)).
  { split; simpl; [done| | |done|done|done]; intros x [Hx|(a & l & Hl & _)]; done. }
  destruct (wp_total _ _ _ (sim_ops ops ∅ _ A HR0 Hs)) as ([] & h & Hrun & HR). exists h. split_and!; [done| |].
  - intros a l. by apply observe_list.
  - intros p Hp. unfold IsOnDoublyLinkedList, mbind, M_bind, load. by rewrite (rf_free _ _ HR p Hp).
Qed.

(** ** An example *)
Definition in_use (A : Lists) (x : Z) : bool :=
  bool_decide (x ∈ li_free A) || existsb (fun al => bool_decide (x ∈ al.1 :: al.2)) (map_to_list (li_lists A)).
Lemma in_use_false A x : in_use A x = false -> ~ used A x.
Proof.
  unfold in_use. intros [Hf Hl]%orb_false_iff [Hx|(a & l & Ha & Hx)]; [by rewrite bool_decide_eq_true_2 in Hf|].
  apply elem_of_map_to_list, list_elem_of_In in Ha. assert (Ht : existsb (fun al => bool_decide (x ∈ al.1 :: al.2)) (map_to_list (li_lists A)) = true); [|congruence].
  apply List.existsb_exists. exists (a, l). split; [done|]. by apply bool_decide_eq_true_2.
Qed.
Definition demo_ops : list op := [NewList (-8); NewNode (-16); NewNode (-24); NewList 64; Insert (-8) (-16); Insert (-8) (-24); Remove (-16); Insert 64 (-16)].
Definition demo_lists : Lists := mk_lists (<[64 := [-16]]> (<[-8 := [-24]]> ∅)) ∅.
Lemma demo_ops_steps : exists A, op_steps (mk_lists ∅ ∅) demo_ops A /\ A = demo_lists.
Proof.
  eexists. split.
  - unfold demo_ops.
    eapply steps_cons; [apply step_list; [done|lia|apply in_use_false; vm_compute; reflexivity]|].
    eapply steps_cons; [apply step_node; [done|apply in_use_false; vm_compute; reflexivity]|].
    eapply steps_cons; [apply step_node; [done|apply in_use_false; vm_compute; reflexivity]|].
    eapply steps_cons; [apply step_list; [done|lia|apply in_use_false; vm_compute; reflexivity]|].
    eapply steps_cons; [eapply step_insert; [vm_compute; reflexivity|apply (bool_decide_unpack _); vm_compute; exact I]|].
    eapply steps_cons; [eapply step_insert; [vm_compute; reflexivity|apply (bool_decide_unpack _); vm_compute; exact I]|].
    eapply steps_cons; [eapply (step_remove _ (-8) [-24] (-16) []); vm_compute; reflexivity|].
    eapply steps_cons; [eapply step_insert; [vm_compute; reflexivity|apply (bool_decide_unpack _); vm_compute; exact I]|].
    apply steps_nil.
  - vm_compute. reflexivity.
Qed.
Lemma lists_refined_witness : op_steps (mk_lists ∅ ∅) demo_ops demo_lists /\ exists h, run_ops demo_ops ∅ = Ok (tt, h) /\
  (forall a l, li_lists demo_lists !! a = Some l ->
     IsEmpty a h = Ok (bool_decide (l = []), h) /\ elements a h = Ok (l, h) /\ forall p, p ∈ l -> IsOnDoublyLinkedList p h = Ok (true, h)) /\
  (forall p, p ∈ li_free demo_lists -> IsOnDoublyLinkedList p h = Ok (false, h)).
Proof.
  assert (Hs : op_steps (mk_lists ∅ ∅) demo_ops demo_lists) by (destruct demo_ops_steps as (A & Hs & <-); exact Hs).
  split; [exact Hs|]. exact (lists_refined demo_ops demo_lists Hs).
Defined.
