(* ===== verification/OsrExitMap.v ===== *)
(** * Exit maps

    [drt/dfg_osr_exit_map_builder.h]: a builder records the stores into an array of slots
    between the exit points of a basic block, with the slots that hold one SSA value
    chained on a circular doubly-linked list; a replayer reads the stream of words it makes
    and tells what the slots held at an exit point.  Addresses are integers, [stride] is
    [sizeof(Info)]; the stream is a list of words. *)
From S2P Require Import Prelude.
From stdpp Require Import gmap.
#[local] Open Scope Z_scope.

(** ** The builder *)
Notation Node := (Z * Z)%type.     (* [m_prev] and [m_next], relative to the node *)
Notation Event := (Z * Z)%type.    (* an exit ordinal and a value *)
Record BuilderState : Type := mk_builder {
  links : gmap Z Node;
  infos : list (list Event);        (* [m_info] of the slots *)
  m_curOsrExitOrd : Z
}.
Notation B := (Prelude.M BuilderState).

Definition representable_int32 (d : Z) : bool := (-2147483648 <=? d) && (d <? 2147483648).

Definition load_node (a : Z) : B Node := fun s =>
  match links s !! a with Some n => Ok (n, s) | None => Err (UndefinedBehaviour "load outside the nodes") end.
Definition store_node (a : Z) (n : Node) : B unit := fun s =>
  match links s !! a with
  | Some _ => Ok (tt, mk_builder (<[a := n]> (links s)) (infos s) (m_curOsrExitOrd s))
  | None => Err (UndefinedBehaviour "store outside the nodes")
  end.
Definition Prev (a : Z) : B Z := n ← load_node a; mret (a + n.1).
Definition Next (a : Z) : B Z := n ← load_node a; mret (a + n.2).
Definition SetPrev (a prev : Z) : B unit :=
  check (representable_int32 (prev - a)) (AssertFailed "IntegerCanBeRepresentedIn<int32_t>(diff)") ;;
  n ← load_node a; store_node a (prev - a, n.2).
Definition SetNext (a next : Z) : B unit :=
  check (representable_int32 (next - a)) (AssertFailed "IntegerCanBeRepresentedIn<int32_t>(diff)") ;;
  n ← load_node a; store_node a (n.1, next - a).
Definition ResetNode (a : Z) : B unit := store_node a (0, 0).
Definition IsIsolated (a : Z) : B bool :=
  n ← load_node a;
  check (implb ((n.1 =? 0) || (n.2 =? 0)) ((n.1 =? 0) && (n.2 =? 0))) (AssertFailed "m_prev == 0 && m_next == 0") ;;
  mret (n.1 =? 0).
(** The constructor of the node an SSA value holds. *)
Definition NewSsaNode (a : Z) : B unit :=
  modify (fun s => mk_builder (<[a := (0, 0)]> (links s)) (infos s) (m_curOsrExitOrd s)).

Section builder.
Context (m_slots stride : Z) (m_numSlots : nat).

Definition slot_addr (i : nat) : Z := m_slots + Z.of_nat i * stride.
Definition slot_of (a : Z) : nat := Z.to_nat ((a - m_slots) / stride).
Definition IsSlotNode (a : Z) : bool := (m_slots <=? a) && (a <? slot_addr m_numSlots).

(** [AllocateArray] runs the constructor on each slot. *)
Definition make_slots (links : gmap Z Node) : gmap Z Node :=
  foldr (fun i m => <[slot_addr i := (0, 0)]> m) links (seq 0 m_numSlots).
Definition new_builder (links : gmap Z Node) : result BuilderState :=
  if (m_numSlots <=? 65534)%nat then Ok (mk_builder (make_slots links) (replicate m_numSlots []) 0)
  else Err (AssertFailed "numSlots <= 65534").
Definition Reset : B unit :=
  modify (fun s => mk_builder (make_slots (links s)) (replicate m_numSlots []) 0).

Definition AddOsrExitPoint : B Z :=
  s ← get_st;
  if m_curOsrExitOrd s =? 65534 then fail (Aborted "Too many (>65534) OSR exit points in one basic block!")
  else put_st (mk_builder (links s) (infos s) (m_curOsrExitOrd s + 1)) ;; mret (m_curOsrExitOrd s).

(** What an event makes of the vector of a slot. *)
Definition add_event (ord value : Z) (v : list Event) : result (list Event) :=
  match last v with
  | None => Ok [(ord, value)]
  | Some back =>
      if negb (back.1 <=? ord) then Err (AssertFailed "back.first <= m_curOsrExitOrd")
      else if value =? back.2 then Ok v
      else if back.1 =? ord then Ok (take (length v - 1) v ++ [(ord, value)])
      else Ok (v ++ [(ord, value)])
  end.
Definition AddEventImpl (slot : nat) (value : Z) : B unit := fun s =>
  match infos s !! slot with
  | None => Err (UndefinedBehaviour "no such slot")
  | Some v => v ← add_event (m_curOsrExitOrd s) value v; Ok (tt, mk_builder (links s) (<[slot := v]> (infos s)) (m_curOsrExitOrd s))
  end.

Definition UnlinkSlotFromList (node : Z) : B unit :=
  check (IsSlotNode node) (AssertFailed "IsSlotNode(node)") ;;
  prev ← Prev node; next ← Next node;
  SetNext prev next ;; SetPrev next prev.
Definition AddSlotToList (listNode nodeToAdd : Z) : B unit :=
  check (IsSlotNode nodeToAdd) (AssertFailed "IsSlotNode(nodeToAdd)") ;;
  next ← Next listNode;
  SetNext listNode nodeToAdd ;; SetPrev next nodeToAdd ;; SetNext nodeToAdd next ;; SetPrev nodeToAdd listNode.

Definition check_slot (slot : nat) : B unit := check (slot <? m_numSlots)%nat (AssertFailed "slot < m_numSlots").
Definition SetUnassociated (slot : nat) (value : Z) : B unit :=
  check_slot slot ;;
  isolated ← IsIsolated (slot_addr slot);
  check isolated (AssertFailed "m_slots[slot].IsIsolated()") ;;
  AddEventImpl slot value.
Definition SetAndAssociate (ssaNode : Z) (slot : nat) (value : Z) : B unit :=
  check (negb (IsSlotNode ssaNode)) (AssertFailed "!IsSlotNode(ssaNode)") ;; check_slot slot ;;
  UnlinkSlotFromList (slot_addr slot) ;; AddSlotToList ssaNode (slot_addr slot) ;; AddEventImpl slot value.
Definition SetAndDeassociate (slot : nat) (value : Z) : B unit :=
  check_slot slot ;;
  UnlinkSlotFromList (slot_addr slot) ;; ResetNode (slot_addr slot) ;; AddEventImpl slot value.

Fixpoint for_all_slots (fuel : nat) (ssaNode cur : Z) (f : nat -> B unit) : B unit :=
  match fuel with
  | O => fail OutOfFuel
  | S fuel' =>
      if cur =? ssaNode then mret tt
      else
        check (IsSlotNode cur) (AssertFailed "IsSlotNode(cur)") ;;
        f (slot_of cur) ;;
        next ← Next cur;
        for_all_slots fuel' ssaNode next f
  end.
Definition SetForAllSlotsAssociatedWith (ssaNode value : Z) : B unit :=
  check (negb (IsSlotNode ssaNode)) (AssertFailed "!IsSlotNode(ssaNode)") ;;
  cur ← Next ssaNode;
  for_all_slots (S m_numSlots) ssaNode cur (fun slot => AddEventImpl slot value).

Definition QueryCurrentValue (slot : nat) : B Z :=
  check_slot slot ;;
  s ← get_st;
  match infos s !! slot ≫= last with
  | Some back => mret back.2
  | None => fail (AssertFailed "slotNode->m_info.size() > 0")
  end.

(** *** The stream *)
Fixpoint ascending (v : list Event) : bool :=
  match v with a :: (b :: _) as v' => (a.1 <? b.1) && ascending v' | _ => true end.
(** An event after the last exit point is dropped. *)
Definition drop_useless (cur : Z) (v : list Event) : result (list Event) :=
  match last v with
  | None => Ok v
  | Some back => if negb (back.1 <=? cur) then Err (AssertFailed "back.first <= m_curOsrExitOrd")
                 else Ok (if back.1 =? cur then take (length v - 1) v else v)
  end.
Fixpoint drop_useless_events (cur : Z) (vs : list (list Event)) : result (list (list Event)) :=
  match vs with [] => Ok [] | v :: vs' => v ← drop_useless cur v; vs' ← drop_useless_events cur vs'; Ok (v :: vs') end.
Definition slot_words (ord : nat) (v : list Event) : result (list Z) :=
  match v with
  | [] => Ok []
  | _ => if negb (length v <=? 65535)%nat then Err (AssertFailed "v.size() <= 65535")
         else if negb (ascending v) then Err (AssertFailed "v[i].first > v[i - 1].first")
         else Ok ([Z.of_nat ord; Z.of_nat (length v)] ++ (fst <$> v) ++ (snd <$> v))
  end.
Fixpoint all_words (ord : nat) (vs : list (list Event)) : result (list Z) :=
  match vs with [] => Ok [65535] | v :: vs' => w ← slot_words ord v; ws ← all_words (S ord) vs'; Ok (w ++ ws) end.
Definition BuildEventStream : B (list Z) :=
  s ← get_st;
  vs ← lift_result (drop_useless_events (m_curOsrExitOrd s) (infos s));
  put_st (mk_builder (links s) vs (m_curOsrExitOrd s)) ;;
  lift_result (all_words 0 vs).
End builder.

(** ** The replayer *)
Definition word_at (mem : list Z) (a : Z) : result Z :=
  if a <? 0 then Err (UndefinedBehaviour "load outside the stream")
  else match mem !! Z.to_nat a with Some w => Ok w | None => Err (UndefinedBehaviour "load outside the stream") end.

(** The words as [_mm_cmpgt_epi16] sees them. *)
Definition signed16 (w : Z) : Z := if w <? 32768 then w else w - 65536.
Fixpoint search_loop (fuel : nat) (mem : list Z) (keys k left right : Z) : result (Z * Z) :=
  match fuel with
  | O => Err OutOfFuel
  | S fuel' =>
      if left + 8 <? right then
        let mid := (left + right) / 2 in
        w ← word_at mem (keys + mid);
        let criterion := w <=? k in
        search_loop fuel' mem keys k (if criterion then mid else left) (if criterion then right else mid)
      else Ok (left, right)
  end.
(** The two bits of each of eight words of [_mm_movemask_epi8]. *)
Fixpoint movemask (mem : list Z) (a k : Z) (lane left : nat) : result Z :=
  match left with
  | O => Ok 0
  | S left' =>
      w ← word_at mem (a + Z.of_nat lane);
      rest ← movemask mem a k (S lane) left';
      Ok (Z.lor (if signed16 k <? signed16 w then Z.shiftl 3 (2 * Z.of_nat lane) else 0) rest)
  end.
Fixpoint CountTrailingZeros (fuel : nat) (x : Z) : Z :=
  match fuel with O => 0 | S fuel' => if Z.odd x then 0 else 1 + CountTrailingZeros fuel' (Z.div2 x) end.
Definition wrap64 (x : Z) : Z := x mod 18446744073709551616.

Definition RunBinarySearch (mem : list Z) (keys numElements k : Z) : result Z :=
  if negb (0 <? numElements) then Err (AssertFailed "numElements > 0")
  else
    '(lo, hi) ← search_loop (S (Z.to_nat numElements)) mem keys k 0 numElements;
    mask ← movemask mem (keys + lo) k 0 8;
    let mask := Z.lor mask (Z.shiftl 1 ((hi - lo) * 2)) in
    let ctz := CountTrailingZeros 32 mask in
    if negb (ctz mod 2 =? 0) then Err (AssertFailed "ctz % 2 == 0")
    else if negb (implb (0 <? lo) (2 <=? ctz)) then Err (AssertFailed "ctz >= 2")
    else
      let ctz := wrap64 (ctz / 2 - 1) in
      if negb (implb (0 <? lo) (ctz <? hi - lo)) then Err (AssertFailed "ctz < right - left")
      else
        let idx := wrap64 (lo + ctz) in
        if negb ((idx <? numElements) || (idx =? wrap64 (-1))) then Err (AssertFailed "idx < numElements || idx == static_cast<size_t>(-1)")
        else
          ok1 ← (if idx <? numElements then w ← word_at mem (keys + idx); Ok (w <=? k) else Ok true);
          if negb ok1 then Err (AssertFailed "keys[idx] <= k")
          else
            ok2 ← (if wrap64 (idx + 1) <? numElements then w ← word_at mem (keys + wrap64 (idx + 1)); Ok (k <? w) else Ok true);
            if negb ok2 then Err (AssertFailed "keys[idx + 1] > k") else Ok idx.

Record Replayer : Type := mk_replayer { m_data : Z; m_curSlotOrd : Z }.
(** One call: the value of the slot, if it was written, and the next state. *)
Definition GetAndAdvance (mem : list Z) (m_osrExitOrd : Z) (r : Replayer) : result (option Z * Replayer) :=
  if negb (m_curSlotOrd r <? 65535) then Err (AssertFailed "m_curSlotOrd < 65535")
  else
    d ← word_at mem (m_data r);
    if negb (m_curSlotOrd r <=? d) then Err (AssertFailed "m_curSlotOrd <= *m_data")
    else if m_curSlotOrd r <? d then Ok (None, mk_replayer (m_data r) (m_curSlotOrd r + 1))
    else
      numElements ← word_at mem (m_data r + 1);
      if negb (0 <? numElements) then Err (AssertFailed "numElements > 0")
      else
        let keys := m_data r + 2 in
        let values := keys + numElements in
        let next := mk_replayer (values + numElements) (m_curSlotOrd r + 1) in
        k0 ← word_at mem keys;
        if m_osrExitOrd <? k0 then Ok (None, next)
        else
          idx ← RunBinarySearch mem keys numElements m_osrExitOrd;
          if negb (idx <? numElements) then Err (AssertFailed "idx < numElements")
          else value ← word_at mem (values + idx); Ok (Some value, next).
(** The slots of one exit point. *)
Fixpoint Replay (n : nat) (mem : list Z) (m_osrExitOrd : Z) (r : Replayer) : result (list (option Z)) :=
  match n with
  | O => Ok []
  | S n' => '(v, r) ← GetAndAdvance mem m_osrExitOrd r; vs ← Replay n' mem m_osrExitOrd r; Ok (v :: vs)
  end.
