(* ===== verification/OsrEvents.v ===== *)
(** * Events and their replay

    The event vectors and the stream of [OsrExitMap.v]: what an event changes, what the
    binary search of the replayer finds, and that replaying the stream of all slots gives
    the value each had at an exit point. *)
From S2P Require Import Prelude OsrExitMap.
From stdpp Require Import gmap sorting.
#[local] Open Scope Z_scope.
#[local] Set Default Proof Using "Type".

(** ** Event vectors *)
(** The value a vector of events gives for an exit point. *)
Definition value_at (v : list Event) (k : Z) : option Z := snd <$> last (filter (fun e : Event => e.1 <= k) v).
Definition earlier (a b : Event) : Prop := a.1 < b.1.
Record vec_ok (cur : Z) (v : list Event) : Prop := {
  vo_sorted : StronglySorted earlier v;
  vo_range : forall e : Event, e ∈ v -> 0 <= e.1 <= cur;
  vo_values : forall e : Event, e ∈ v -> 0 <= e.2 < 65536
}.

Lemma value_at_app v e k : value_at (v ++ [e]) k = if decide (e.1 <= k) then Some e.2 else value_at v k.
Proof.
  unfold value_at. rewrite filter_app, filter_cons, filter_nil. destruct (decide (e.1 <= k)); [by rewrite last_snoc|by rewrite app_nil_r].
Qed.
Lemma sorted_snoc v e : StronglySorted earlier (v ++ [e]) <-> StronglySorted earlier v /\ forall d, d ∈ v -> d.1 < e.1.
Proof.
  induction v as [|a v IH]; simpl.
  - split; [intros _; split; [constructor|set_solver]|intros _; repeat constructor].
  - split.
    + intros Hs. inversion Hs as [|? ? Hs' Hall]; subst. apply IH in Hs' as [Hs' Hlt]. apply Forall_app in Hall as [Hall He]. split; [by constructor|].
      intros d [->|Hd]%elem_of_cons; [by inversion He|by apply Hlt].
    + intros [Hs Hlt]. inversion Hs as [|? ? Hs' Hall]; subst. constructor; [apply IH; split; [done|intros d Hd; apply Hlt; set_solver]|].
      apply Forall_app. split; [done|]. constructor; [apply Hlt; set_solver|constructor].
Qed.
Lemma vec_ok_snoc cur v e : vec_ok cur (v ++ [e]) <-> vec_ok cur v /\ (forall d, d ∈ v -> d.1 < e.1) /\ 0 <= e.1 <= cur /\ 0 <= e.2 < 65536.
Proof.
  split.
  - intros [Hs Hr Hv]. apply sorted_snoc in Hs as [Hs Hlt]. split_and!; [split; [done|..]|done|apply Hr|apply Hr|apply Hv|apply Hv]; set_solver.
  - intros ([Hs Hr Hv] & Hlt & He & Hev). split; [by apply sorted_snoc| |]; intros d [Hd| ->%list_elem_of_singleton]%elem_of_app; auto.
Qed.
Lemma vec_ok_mono cur cur' v : cur <= cur' -> vec_ok cur v -> vec_ok cur' v.
Proof. intros Hc [Hs Hr Hv]. split; [done| |done]. intros e He. pose proof (Hr e He). lia. Qed.
Lemma value_at_beyond cur v k : vec_ok cur v -> cur <= k -> value_at v k = value_at v cur.
Proof.
  intros Hv Hk. destruct v as [|e v _] using rev_ind; [done|]. apply vec_ok_snoc in Hv as (_ & _ & He & _).
  by rewrite !value_at_app, !decide_True by lia.
Qed.

Lemma add_event_ok cur value v : vec_ok cur v -> 0 <= cur -> 0 <= value < 65536 ->
  exists v', add_event cur value v = Ok v' /\ vec_ok cur v' /\ forall k, value_at v' k = if decide (cur <= k) then Some value else value_at v k.
Proof.
  intros Hv Hcur Hval. unfold add_event. destruct v as [|back v0 _] using rev_ind.
  - simpl. exists [(cur, value)]. split_and!; [done| |].
    + change [(cur, value)] with ([] ++ [(cur, value)]). apply vec_ok_snoc. split_and!; simpl; [|set_solver|lia..]. split; [constructor|set_solver..].
    + intros k. change [(cur, value)] with ([] ++ [(cur, value)]). by rewrite value_at_app.
  - rewrite last_snoc. apply vec_ok_snoc in Hv as (Hv0 & Hlt & Hb & Hbv). rewrite (proj2 (Z.leb_le _ _)) by lia. cbn [negb].
    destruct (Z.eqb_spec value back.2) as [->|Hne].
    + exists (v0 ++ [back]). split_and!; [done|by apply vec_ok_snoc|]. intros k. rewrite value_at_app. destruct (decide (cur <= k)); [|done].
      by rewrite decide_True by lia.
    + destruct (Z.eqb_spec back.1 cur) as [He|Hbne].
      * exists (v0 ++ [(cur, value)]). rewrite length_app. simpl. replace (length v0 + 1 - 1)%nat with (length v0) by lia. rewrite take_app_length.
        split_and!; [done|apply vec_ok_snoc; split_and!; simpl; [done|by rewrite <- He|lia..]|]. intros k. rewrite !value_at_app. simpl.
        rewrite He. by destruct (decide (cur <= k)).
      * exists ((v0 ++ [back]) ++ [(cur, value)]). split_and!; [done| |intros k; by rewrite value_at_app].
        apply vec_ok_snoc. split_and!; simpl; [by apply vec_ok_snoc| |lia..]. intros d [Hd| ->%list_elem_of_singleton]%elem_of_app; [|lia].
        pose proof (Hlt d Hd). lia.
Qed.
Lemma drop_useless_ok cur v : vec_ok cur v ->
  exists v', drop_useless cur v = Ok v' /\ vec_ok (cur - 1) v' /\ forall k, k < cur -> value_at v' k = value_at v k.
Proof.
  intros Hv. unfold drop_useless. destruct v as [|back v0 _] using rev_ind.
  - simpl. exists []. split_and!; [done| |done]. split; [constructor|set_solver..].
  - rewrite last_snoc. apply vec_ok_snoc in Hv as (Hv0 & Hlt & Hb & Hbv). rewrite (proj2 (Z.leb_le _ _)) by lia. cbn [negb].
    assert (Hv1 : vec_ok (cur - 1) v0).
    { split; [apply Hv0| |apply Hv0]. intros d Hd. pose proof (Hlt d Hd). pose proof (vo_range _ _ Hv0 d Hd). lia. }
    destruct (Z.eqb_spec back.1 cur) as [He|Hne].
    + exists v0. rewrite length_app. simpl. replace (length v0 + 1 - 1)%nat with (length v0) by lia. rewrite take_app_length.
      split_and!; [done|done|]. intros k Hk. rewrite value_at_app, decide_False by lia. done.
    + exists (v0 ++ [back]). split_and!; [done| |done]. apply vec_ok_snoc. split_and!; [done|done|lia..].
Qed.

Lemma vec_ok_length cur v : vec_ok cur v -> -1 <= cur -> Z.of_nat (length v) <= cur + 1.
Proof.
  revert cur. induction v as [|e v IH] using rev_ind; intros cur Hv Hc; [simpl; lia|]. apply vec_ok_snoc in Hv as (Hv & Hlt & He & _).
  assert (Hv' : vec_ok (e.1 - 1) v).
  { split; [apply Hv| |apply Hv]. intros d Hd. pose proof (Hlt d Hd). pose proof (vo_range _ _ Hv d Hd). lia. }
  pose proof (IH _ Hv' ltac:(lia)). rewrite length_app. simpl. lia.
Qed.
Lemma ascending_sorted v : StronglySorted earlier v -> ascending v = true.
Proof.
  induction 1 as [|a v Hs IH Hall]; [done|]. destruct v as [|b v]; [done|]. cbn [ascending] in *. rewrite IH, andb_true_r.
  apply Z.ltb_lt. by inversion Hall.
Qed.
(** The value by position: of the last event that is not after [k]. *)
Lemma value_at_index v k i e : StronglySorted earlier v -> v !! i = Some e -> e.1 <= k -> (forall d, v !! S i = Some d -> k < d.1) -> value_at v k = Some e.2.
Proof.
  intros Hs Hi He Hnext. rewrite <- (take_drop (S i) v). assert (Hlate : forall d, d ∈ drop (S i) v -> k < d.1).
  { destruct (v !! S i) as [d|] eqn:Ed; [|rewrite drop_ge by (by apply lookup_ge_None_1); set_solver]. rewrite (drop_S _ _ _ Ed).
    pose proof (Hnext d eq_refl). intros d' [->|Hd']%elem_of_cons; [done|]. rewrite <- (take_drop (S i) v), (drop_S _ _ _ Ed) in Hs.
    clear -Hs H Hd'. induction (take (S i) v) as [|x l IH]; simpl in Hs; inversion Hs as [|? ? Hs' Hall]; subst; [|by apply IH].
    pose proof (proj1 (Forall_forall _ _) Hall d' Hd') as Hlt. unfold earlier in Hlt. lia. }
  rewrite (take_S_r _ _ _ Hi). unfold value_at. rewrite filter_app.
  assert (Hnil : filter (fun e : Event => e.1 <= k) (drop (S i) v) = []).
  { clear -Hlate. induction (drop (S i) v) as [|x l IH]; [done|]. rewrite filter_cons, decide_False; [apply IH; set_solver|]. pose proof (Hlate x). set_solver by lia. }
  rewrite Hnil, app_nil_r. change (value_at (take i v ++ [e]) k = Some e.2). by rewrite value_at_app, decide_True.
Qed.
Lemma value_at_none v k e : StronglySorted earlier v -> v !! 0%nat = Some e -> k < e.1 -> value_at v k = None.
Proof.
  intros Hs H0 Hk. destruct v as [|e' v]; [done|]. injection H0 as ->. inversion Hs as [|? ? _ Hall]; subst. unfold value_at.
  assert (Hnil : filter (fun e : Event => e.1 <= k) (e :: v) = []); [|by rewrite Hnil]. rewrite filter_cons, decide_False by lia.
  induction v as [|x v IH]; [done|]. inversion Hall as [|? ? Hx Hall']; subst. unfold earlier in Hx. rewrite filter_cons, decide_False by lia. apply IH; [|done].
  inversion Hs as [|? ? Hs' _]; subst. inversion Hs'; subst. by constructor.
Qed.

(** ** The stream in memory *)
Definition holds (mem : list Z) (a : Z) (ws : list Z) : Prop := 0 <= a /\ forall i w, ws !! i = Some w -> word_at mem (a + Z.of_nat i) = Ok w.
Lemma holds_app mem a ws ws' : holds mem a (ws ++ ws') <-> holds mem a ws /\ holds mem (a + Z.of_nat (length ws)) ws'.
Proof.
  split.
  - intros [Ha H]. split; (split; [lia|]); intros i w Hi; [by apply H, lookup_app_Some_l|].
    replace (a + Z.of_nat (length ws) + Z.of_nat i) with (a + Z.of_nat (length ws + i)) by lia. apply H. rewrite lookup_app_r by lia.
    by replace (length ws + i - length ws)%nat with i by lia.
  - intros [[Ha H] [_ H']]. split; [done|]. intros i w [Hi|[Hge Hi]]%lookup_app_Some; [by apply H|]. apply H' in Hi.
    by replace (a + Z.of_nat (length ws) + Z.of_nat (i - length ws)) with (a + Z.of_nat i) in Hi by lia.
Qed.
Lemma holds_whole ws : holds ws 0 ws.
Proof. split; [done|]. intros i w Hi. unfold word_at. rewrite (proj2 (Z.ltb_ge _ _)) by lia. by rewrite Z.add_0_l, Nat2Z.id, Hi. Qed.
Lemma holds_word mem a ws i w : holds mem a ws -> ws !! i = Some w -> word_at mem (a + Z.of_nat i) = Ok w.
Proof. intros [_ H]. apply H. Qed.
Lemma holds_head mem a w ws : holds mem a (w :: ws) -> word_at mem a = Ok w.
Proof. intros [_ H]. specialize (H 0%nat w eq_refl). by rewrite Z.add_0_r in H. Qed.

(** ** The binary search *)
Lemma CountTrailingZeros_spec : forall fuel x n, (n < fuel)%nat -> (forall j, (j < n)%nat -> Z.testbit x (Z.of_nat j) = false) -> Z.testbit x (Z.of_nat n) = true ->
  CountTrailingZeros fuel x = Z.of_nat n.
Proof.
  induction fuel as [|fuel IH]; intros x n Hn Hlow Hbit; [lia|]. cbn [CountTrailingZeros]. rewrite <- Z.bit0_odd. destruct n as [|n].
  - change (Z.testbit x 0 = true) in Hbit. by rewrite Hbit.
  - pose proof (Hlow 0%nat ltac:(lia)) as H0. change (Z.testbit x 0 = false) in H0. rewrite H0.
    assert (Hd : forall j, Z.testbit (Z.div2 x) (Z.of_nat j) = Z.testbit x (Z.of_nat (S j))).
    { intros j. rewrite Z.div2_spec, Z.shiftr_spec by lia. f_equal. lia. }
    rewrite (IH (Z.div2 x) n); [lia|lia| |by rewrite Hd]. intros j Hj. rewrite Hd. apply Hlow. lia.
Qed.
Lemma movemask_spec mem a k ws : holds mem a ws -> forall lanes lane, (lane + lanes <= length ws)%nat ->
  exists m, movemask mem a k lane lanes = Ok m /\ forall j b, (b < 2)%nat ->
    Z.testbit m (Z.of_nat (2 * j + b)) = bool_decide (lane <= j < lane + lanes)%nat && match ws !! j with Some w => signed16 k <? signed16 w | None => false end.
Proof.
  intros Hh. induction lanes as [|lanes IH]; intros lane Hlen; cbn [movemask].
  - exists 0. split; [done|]. intros j b _. rewrite Z.bits_0, bool_decide_eq_false_2 by lia. done.
  - destruct (lookup_lt_is_Some_2 ws lane ltac:(lia)) as [w Hw]. rewrite (holds_word _ _ _ _ _ Hh Hw). cbn [mbind result_bind].
    destruct (IH (S lane) ltac:(lia)) as (m & -> & Hm). cbn [mbind result_bind]. eexists. split; [done|]. intros j b Hb. rewrite Z.lor_spec, Hm by done.
    assert (Hbit : Z.testbit (if signed16 k <? signed16 w then Z.shiftl 3 (2 * Z.of_nat lane) else 0) (Z.of_nat (2 * j + b)) =
      bool_decide (j = lane) && (signed16 k <? signed16 w)).
    { destruct (signed16 k <? signed16 w); [|by rewrite Z.bits_0, andb_false_r]. rewrite andb_true_r, Z.shiftl_spec by lia.
      case_bool_decide as Hj.
      - subst j. replace (Z.of_nat (2 * lane + b) - 2 * Z.of_nat lane) with (Z.of_nat b) by lia. destruct b as [|[|b]]; [done|done|lia].
      - destruct (decide (j < lane)%nat).
        + apply Z.testbit_neg_r. lia.
        + apply Z.bits_above_log2; [done|]. simpl (Z.log2 3). lia. }
    rewrite Hbit. destruct (decide (j = lane)) as [->|Hne].
    + rewrite Hw. rewrite (bool_decide_eq_true_2 (lane = lane)) by done. rewrite (bool_decide_eq_false_2 (S lane <= lane < _)%nat) by lia.
      rewrite bool_decide_eq_true_2 by lia. by rewrite orb_false_r.
    + rewrite bool_decide_eq_false_2 by done. simpl. f_equal. apply bool_decide_ext. lia.
Qed.

Lemma least_nat (P : nat -> Prop) `{!forall j, Decision (P j)} m : P m -> exists c, (c <= m)%nat /\ P c /\ forall j, (j < c)%nat -> ~ P j.
Proof.
  induction m as [m IH] using lt_wf_ind. intros Hm. destruct (decide (Exists P (seq 0 m))) as [He|Hno].
  - apply Exists_exists in He as (j & Hj & HPj). apply elem_of_seq in Hj. destruct (IH j ltac:(lia) HPj) as (c & Hc & Hrest). exists c. split; [lia|done].
  - exists m. split_and!; [done|done|]. intros j Hj HPj. apply Hno, Exists_exists. exists j. split; [apply elem_of_seq; lia|done].
Qed.

Section search.
Context (mem : list Z) (keys k : Z) (ks more : list Z).
Hypothesis Hholds : holds mem keys (ks ++ more).
Hypothesis Hmore : (7 <= length more)%nat.
Hypothesis Hsorted : forall i j v w, ks !! i = Some v -> ks !! j = Some w -> (i < j)%nat -> v < w.
#[local] Set Default Proof Using "Type*".
Notation n := (Z.of_nat (length ks)).

(** The answer is at [lo] or above, and below [hi]. *)
Definition bracket (lo hi : Z) : Prop := 0 <= lo < hi /\ hi <= n /\
  (forall w, ks !! Z.to_nat lo = Some w -> w <= k) /\ (forall w, ks !! Z.to_nat hi = Some w -> k < w).

Lemma key_at i w : ks !! i = Some w -> word_at mem (keys + Z.of_nat i) = Ok w.
Proof using Hholds. intros Hi. apply (holds_word _ _ _ _ _ Hholds). by apply lookup_app_Some_l. Qed.
Lemma search_loop_ok : forall fuel lo hi, bracket lo hi -> hi - lo < Z.of_nat fuel ->
  exists lo' hi', search_loop fuel mem keys k lo hi = Ok (lo', hi') /\ bracket lo' hi' /\ hi' <= lo' + 8.
Proof.
  induction fuel as [|fuel IH]; intros lo hi Hb Hf; [unfold bracket in Hb; lia|]. cbn [search_loop]. pose proof Hb as (Hlo & Hhi & Hl & Hh).
  destruct (Z.ltb_spec (lo + 8) hi) as [Hfar|Hnear]; [|exists lo, hi; split_and!; [done|done|lia]].
  assert (Hmid : lo < (lo + hi) / 2 < hi) by (pose proof (Z.div_mod (lo + hi) 2); pose proof (Z.mod_pos_bound (lo + hi) 2); lia).
  set (mid := (lo + hi) / 2) in *. destruct (lookup_lt_is_Some_2 ks (Z.to_nat mid)) as [w Hw]; [lia|].
  pose proof (key_at _ _ Hw) as Hword. rewrite Z2Nat.id in Hword by lia. rewrite Hword. cbn [mbind result_bind]. cbv zeta.
  destruct (Z.leb_spec w k) as [Hle|Hgt]; apply IH; try lia; split_and!; try lia; try done; intros w' Hw'; rewrite Hw in Hw'; injection Hw' as <-; lia.
Qed.
(** The lane the search stops at, with the test words beyond the keys left open. *)
Definition small_words : Prop := 0 <= k < 32768 /\ forall w, w ∈ ks -> 0 <= w < 32768.
Lemma lanes_ok lo hi : small_words -> bracket lo hi -> hi <= lo + 8 ->
  exists mask c, movemask mem (keys + lo) k 0 8 = Ok mask /\
    CountTrailingZeros 32 (Z.lor mask (Z.shiftl 1 ((hi - lo) * 2))) = 2 * Z.of_nat c /\ (1 <= c)%nat /\ Z.of_nat c <= hi - lo /\
    (forall w, ks !! (Z.to_nat lo + c - 1)%nat = Some w -> w <= k) /\ (forall w, ks !! (Z.to_nat lo + c)%nat = Some w -> k < w).
Proof.
  intros [Hk Hks] (Hlo & Hhi & Hl & Hh) Hnear. set (d := Z.to_nat (hi - lo)).
  set (stops := fun j => (j = d \/ exists w, ks !! (Z.to_nat lo + j)%nat = Some w /\ k < w)).
  assert (Hdec : forall j, Decision (stops j)).
  { intros j. unfold stops. destruct (decide (j = d)); [by left; left|]. destruct (ks !! (Z.to_nat lo + j)%nat) as [w|] eqn:Ew.
    - destruct (decide (k < w)); [left; right; eauto|]. right. intros [?|(w' & [= <-] & ?)]; [done|lia].
    - right. by intros [?|(w' & ? & _)]. }
  destruct (least_nat stops d) as (c & Hcd & Hc & Hmin); [by left|].
  assert (Hbelow : forall j w, (j < c)%nat -> ks !! (Z.to_nat lo + j)%nat = Some w -> w <= k).
  { intros j w Hj Hw. destruct (decide (k < w)); [|lia]. exfalso. apply (Hmin j Hj). right. eauto. }
  assert (Hc1 : (1 <= c)%nat).
  { destruct c; [|lia]. destruct Hc as [Hd|(w & Hw & Hkw)]; [lia|]. rewrite Nat.add_0_r in Hw. pose proof (Hl w Hw). lia. }
  assert (Hlane : holds mem (keys + lo) (drop (Z.to_nat lo) (ks ++ more))).
  { rewrite <- (take_drop (Z.to_nat lo) (ks ++ more)) in Hholds. apply holds_app in Hholds as [_ H]. rewrite length_take, length_app in H.
    by replace (keys + Z.of_nat (Z.to_nat lo `min` (length ks + length more))) with (keys + lo) in H by lia. }
  destruct (movemask_spec mem (keys + lo) k _ Hlane 8 0) as (mask & Hmask & Hbits); [rewrite length_drop, length_app; lia|].
  exists mask, c. split_and!; [done| |done|lia| |].
  - replace (2 * Z.of_nat c) with (Z.of_nat (2 * c + 0)) by lia. apply CountTrailingZeros_spec; [lia| |].
    + intros j Hj. rewrite Z.lor_spec. apply orb_false_iff. split.
      * rewrite (Nat.div_mod_eq j 2), Hbits by (apply Nat.mod_upper_bound; lia).
        assert (Hj2 : (j / 2 < c)%nat) by (apply Nat.Div0.div_lt_upper_bound; lia). rewrite lookup_drop.
        destruct (lookup_lt_is_Some_2 ks (Z.to_nat lo + j / 2)) as [w Hw]; [lia|]. rewrite (lookup_app_Some_l _ _ _ _ Hw).
        pose proof (Hbelow _ _ Hj2 Hw). pose proof (Hks w (list_elem_of_lookup_2 _ _ _ Hw)).
        unfold signed16. rewrite !(proj2 (Z.ltb_lt _ 32768)) by lia. rewrite (proj2 (Z.ltb_ge _ _)) by lia. apply andb_false_r.
      * rewrite Z.shiftl_1_l, Z.pow2_bits_false; [done|lia].
    + rewrite Z.lor_spec. apply orb_true_iff. destruct Hc as [->|(w & Hw & Hkw)].
      * right. rewrite Z.shiftl_1_l. rewrite Z.pow2_bits_eqb by lia. apply Z.eqb_eq. lia.
      * destruct (decide (c = d)) as [->|Hcne].
        -- right. rewrite Z.shiftl_1_l. rewrite Z.pow2_bits_eqb by lia. apply Z.eqb_eq. lia.
        -- left. rewrite Hbits by lia. rewrite bool_decide_eq_true_2 by lia. rewrite lookup_drop, (lookup_app_Some_l _ _ _ _ Hw).
           pose proof (Hks w (list_elem_of_lookup_2 _ _ _ Hw)). unfold signed16. rewrite !(proj2 (Z.ltb_lt _ 32768)) by lia. by apply Z.ltb_lt.
  - intros w Hw. apply (Hbelow (c - 1)%nat); [lia|]. by replace (Z.to_nat lo + (c - 1))%nat with (Z.to_nat lo + c - 1)%nat by lia.
  - intros w Hw. destruct Hc as [Hd|(w' & Hw' & Hkw)]; [|congruence]. apply Hh. replace (Z.to_nat hi) with (Z.to_nat lo + c)%nat by lia. done.
Qed.

(** The search finds the last key that is not above [k]. *)
Lemma RunBinarySearch_ok w0 : small_words -> ks !! 0%nat = Some w0 -> w0 <= k -> n < 65536 ->
  exists idx, RunBinarySearch mem keys n k = Ok (Z.of_nat idx) /\ (idx < length ks)%nat /\
    (forall w, ks !! idx = Some w -> w <= k) /\ (forall w, ks !! S idx = Some w -> k < w).
Proof.
  intros Hsmall H0 Hw0 Hn. pose proof (lookup_lt_Some _ _ _ H0) as Hpos. unfold RunBinarySearch.
  rewrite (proj2 (Z.ltb_lt 0 n)) by lia. cbn [negb]. assert (Hb0 : bracket 0 n).
  { split_and!; [lia|lia|lia| |]; intros w Hw; [change (ks !! 0%nat = Some w) in Hw; assert (w = w0) as -> by congruence; done|]. apply lookup_lt_Some in Hw. lia. }
  destruct (search_loop_ok (S (Z.to_nat n)) 0 n Hb0) as (lo & hi & -> & Hb & Hnear); [lia|]. cbn [mbind result_bind].
  destruct (lanes_ok lo hi Hsmall Hb Hnear) as (mask & c & -> & Hctz & Hc1 & Hc & Hle & Hgt). cbn [mbind result_bind]. cbv zeta. rewrite Hctz.
  destruct Hb as (Hlo & Hhi & _). rewrite (Z.mul_comm 2), Z_mod_mult. cbn [negb Z.eqb].
  rewrite Z_div_mult by lia. assert (Hw : forall z, 0 <= z < 65536 -> wrap64 z = z) by (intros z Hz; apply Z.mod_small; lia).
  rewrite (Hw (Z.of_nat c - 1)) by lia. rewrite (Hw (lo + _)) by lia. rewrite (Hw (lo + _ + 1)) by lia.
  assert (Hi1 : implb (0 <? lo) (2 <=? Z.of_nat c * 2) = true) by (destruct (0 <? lo); [simpl; apply Z.leb_le; lia|done]).
  assert (Hi2 : implb (0 <? lo) (Z.of_nat c - 1 <? hi - lo) = true) by (destruct (0 <? lo); [simpl; apply Z.ltb_lt; lia|done]).
  rewrite Hi1, Hi2. cbn [negb]. rewrite (proj2 (Z.ltb_lt (lo + _) n)) by lia. cbn [negb orb].
  set (idx := (Z.to_nat lo + c - 1)%nat) in *. replace (lo + (Z.of_nat c - 1)) with (Z.of_nat idx) by lia.
  destruct (lookup_lt_is_Some_2 ks idx ltac:(lia)) as [w Hwi]. rewrite (key_at _ _ Hwi). cbn [mbind result_bind].
  rewrite (proj2 (Z.leb_le _ _) (Hle w Hwi)). cbn [negb]. replace (Z.to_nat lo + c)%nat with (S idx) in Hgt by lia.
  destruct (Z.ltb_spec (Z.of_nat idx + 1) n) as [Hin|Hout].
  - destruct (lookup_lt_is_Some_2 ks (S idx) ltac:(lia)) as [w' Hw']. replace (Z.of_nat idx + 1) with (Z.of_nat (S idx)) by lia.
    rewrite (key_at _ _ Hw'). cbn [mbind result_bind]. rewrite (proj2 (Z.ltb_lt _ _) (Hgt w' Hw')). exists idx. split_and!; [done|lia|done|done].
  - exists idx. split_and!; [done|lia|done|done].
Qed.
End search.

(** ** Replaying the stream *)
Lemma slot_words_ok cur ord v : vec_ok cur v -> -1 <= cur < 65535 ->
  slot_words ord v = Ok (if decide (v = []) then [] else [Z.of_nat ord; Z.of_nat (length v)] ++ (fst <$> v) ++ (snd <$> v)).
Proof.
  intros Hv Hcur. unfold slot_words. destruct v as [|e v]; [done|]. pose proof (vec_ok_length _ _ Hv ltac:(lia)) as Hlen.
  assert (Hb : (length (e :: v) <=? 65535)%nat = true).
  { apply Nat.leb_le, Nat2Z.inj_le. replace (Z.of_nat 65535) with 65535 by (by vm_compute). lia. }
  rewrite Hb, (ascending_sorted _ (vo_sorted _ _ Hv)). done.
Qed.
Lemma all_words_ok cur : -1 <= cur < 65535 -> forall vs ord, Forall (vec_ok cur) vs -> exists ws, all_words ord vs = Ok ws /\
  forall d, Z.of_nat (ord + length vs) <= 65535 -> head ws = Some d -> Z.of_nat ord <= d <= 65535.
Proof.
  intros Hcur. induction vs as [|v vs IH]; intros ord Hall; cbn [all_words].
  - exists [65535]. split; [done|]. intros d Hle [= <-]. cbn [length] in Hle. lia.
  - inversion Hall as [|? ? Hv Hall']; subst. rewrite (slot_words_ok _ _ _ Hv Hcur). cbn [mbind result_bind].
    destruct (IH (S ord) Hall') as (ws & -> & Hhead). cbn [mbind result_bind]. eexists. split; [done|]. intros d Hle Hd.
    destruct (decide (v = [])) as [->|Hne]; [|injection Hd as <-; cbn [length] in Hle; lia]. cbn [length] in Hle. cbn [app] in Hd. pose proof (Hhead d ltac:(lia) Hd). lia.
Qed.
Lemma all_words_nonempty : forall vs ord ws, all_words ord vs = Ok ws -> ws <> [].
Proof.
  induction vs as [|v vs IH]; intros ord ws H; cbn [all_words] in H; [by injection H as <-|]. destruct (slot_words ord v) as [w|]; [|done].
  cbn [mbind result_bind] in H. destruct (all_words (S ord) vs) as [ws'|] eqn:E; [|done]. injection H as <-. intros Hnil. apply app_nil in Hnil as [_ ->]. by eapply IH.
Qed.
Lemma sorted_keys v i j x y : StronglySorted earlier v -> (fst <$> v) !! i = Some x -> (fst <$> v) !! j = Some y -> (i < j)%nat -> x < y.
Proof.
  intros Hs (a & -> & Ha)%list_lookup_fmap_Some (b & -> & Hb)%list_lookup_fmap_Some. revert i j Ha Hb. induction Hs as [|c v Hs IH Hall]; intros i j Ha Hb Hij; [done|].
  destruct j as [|j]; [lia|]. simpl in Hb. destruct i as [|i]; simpl in Ha; [|apply (IH i j); [done|done|lia]]. injection Ha as <-.
  apply (proj1 (Forall_forall _ _) Hall b). by eapply list_elem_of_lookup_2.
Qed.

(** One slot with events: its value, and the state behind its words. *)
Definition words_of (ord : nat) (v : list Event) : list Z := [Z.of_nat ord; Z.of_nat (length v)] ++ (fst <$> v) ++ (snd <$> v).
Lemma length_words_of ord v : Z.of_nat (length (words_of ord v)) = 2 + 2 * Z.of_nat (length v).
Proof. unfold words_of. rewrite !length_app, !length_fmap. simpl. lia. Qed.
Lemma GetAndAdvance_slot cur mem k a ord v rest : vec_ok cur v -> v <> [] -> -1 <= cur < 32768 -> 0 <= k < 32768 -> Z.of_nat ord < 65535 -> (6 <= length rest)%nat ->
  holds mem a (words_of ord v ++ rest) ->
  GetAndAdvance mem k (mk_replayer a (Z.of_nat ord)) =
    Ok (value_at v k, mk_replayer (a + Z.of_nat (length (words_of ord v))) (Z.of_nat ord + 1)).
Proof.
  intros Hv Hne Hcur Hk Hord Hrest Hh. assert (Hpos : (1 <= length v)%nat) by (destruct v; [done|simpl; lia]).
  pose proof (vec_ok_length _ _ Hv ltac:(lia)) as Hlen. unfold GetAndAdvance. cbn [m_data OsrExitMap.m_curSlotOrd].
  rewrite (proj2 (Z.ltb_lt _ _) Hord). cbn [negb]. pose proof (holds_head _ _ _ _ Hh) as Hd. pose proof (holds_word _ _ _ 1 _ Hh eq_refl) as Hn.
  change (Z.of_nat 1) with 1 in Hn. rewrite Hd. cbn [mbind result_bind]. rewrite Z.leb_refl. cbn [negb]. rewrite Z.ltb_irrefl, Hn. cbn [mbind result_bind].
  rewrite (proj2 (Z.ltb_lt _ _)) by lia. cbn [negb]. cbv zeta. unfold words_of in Hh. rewrite <- !app_assoc in Hh. apply holds_app in Hh as [_ Hkeys].
  change (Z.of_nat (length [Z.of_nat ord; Z.of_nat (length v)])) with 2 in Hkeys. rewrite length_words_of.
  pose proof Hkeys as Hvals. apply holds_app in Hvals as [_ Hvals]. rewrite length_fmap in Hvals.
  destruct (lookup_lt_is_Some_2 v 0) as [e0 He0]; [lia|]. assert (Hk0 : (fst <$> v) !! 0%nat = Some e0.1) by (by rewrite list_lookup_fmap, He0).
  pose proof (holds_word _ _ _ 0 e0.1 Hkeys ltac:(by apply lookup_app_Some_l)) as Hw0. rewrite Z.add_0_r in Hw0. rewrite Hw0. cbn [mbind result_bind].
  replace (a + 2 + Z.of_nat (length v) + Z.of_nat (length v)) with (a + (2 + 2 * Z.of_nat (length v))) by lia.
  destruct (Z.ltb_spec k e0.1) as [Hbefore|Hafter]; [by rewrite (value_at_none v k e0 (vo_sorted _ _ Hv) He0 Hbefore)|].
  assert (Hmore : (7 <= length ((snd <$> v) ++ rest))%nat) by (rewrite length_app, length_fmap; lia).
  destruct (RunBinarySearch_ok mem (a + 2) k (fst <$> v) _ Hkeys Hmore) with (w0 := e0.1) as (idx & Hrun & Hidx & Hle & Hgt); [| |done|done|rewrite length_fmap; lia|].
  { intros i j x y Hi Hj Hij. by apply (sorted_keys v i j x y (vo_sorted _ _ Hv)). }
  { split; [done|]. intros w (e & -> & He)%list_elem_of_fmap. pose proof (vo_range _ _ Hv e He). lia. }
  rewrite length_fmap in Hrun, Hidx. rewrite Hrun. cbn [mbind result_bind]. rewrite (proj2 (Z.ltb_lt _ _)) by lia. cbn [negb].
  destruct (lookup_lt_is_Some_2 v idx Hidx) as [e He]. assert (Hval : (snd <$> v) !! idx = Some e.2) by (by rewrite list_lookup_fmap, He).
  rewrite (holds_word _ _ _ idx e.2 Hvals ltac:(by apply lookup_app_Some_l)). cbn [mbind result_bind].
  rewrite (value_at_index v k idx e (vo_sorted _ _ Hv) He); [done| |].
  - apply Hle. by rewrite list_lookup_fmap, He.
  - intros d Hd'. apply Hgt. by rewrite list_lookup_fmap, Hd'.
Qed.
Lemma GetAndAdvance_skip mem k a ord d ws : Z.of_nat ord < d <= 65535 -> holds mem a (d :: ws) ->
  GetAndAdvance mem k (mk_replayer a (Z.of_nat ord)) = Ok (None, mk_replayer a (Z.of_nat ord + 1)).
Proof.
  intros Hd Hh. unfold GetAndAdvance. cbn [m_data OsrExitMap.m_curSlotOrd]. rewrite (proj2 (Z.ltb_lt _ 65535)) by lia. cbn [negb].
  rewrite (holds_head _ _ _ _ Hh). cbn [mbind result_bind]. rewrite (proj2 (Z.leb_le _ _)) by lia. cbn [negb]. by rewrite (proj2 (Z.ltb_lt _ _)) by lia.
Qed.

Lemma Replay_ok cur mem k extra : -1 <= cur < 32768 -> 0 <= k < 32768 -> (5 <= length extra)%nat -> forall vs ord a ws, Forall (vec_ok cur) vs ->
  all_words ord vs = Ok ws -> holds mem a (ws ++ extra) -> Z.of_nat (ord + length vs) <= 65535 ->
  Replay (length vs) mem k (mk_replayer a (Z.of_nat ord)) = Ok ((fun v => value_at v k) <$> vs).
Proof.
  intros Hcur Hk Hextra. induction vs as [|v vs IH]; intros ord a ws Hall Hws Hh Hord; [done|]. inversion Hall as [|? ? Hv Hall']; subst.
  cbn [length] in *. cbn [Replay]. cbn [all_words] in Hws. rewrite (slot_words_ok cur) in Hws by (try done; lia). cbn [mbind result_bind] in Hws.
  destruct (all_words_ok cur ltac:(lia) vs (S ord) Hall') as (ws' & Hws' & Hhead). rewrite Hws' in Hws. cbn [mbind result_bind] in Hws. injection Hws as <-.
  pose proof (all_words_nonempty _ _ _ Hws') as Hne. replace (Z.of_nat ord + 1) with (Z.of_nat (S ord)) in * by lia. destruct (decide (v = [])) as [->|Hvne].
  - cbn [app] in Hh. destruct ws' as [|d ws']; [done|]. pose proof (Hhead d ltac:(lia) eq_refl) as Hd.
    rewrite (GetAndAdvance_skip mem k a ord d (ws' ++ extra)) by (try done; lia). cbn [mbind result_bind].
    replace (Z.of_nat ord + 1) with (Z.of_nat (S ord)) by lia. rewrite (IH (S ord) a (d :: ws')) by (try done; lia). done.
  - fold (words_of ord v) in Hh. rewrite <- app_assoc in Hh.
    assert (Hrest : (6 <= length (ws' ++ extra))%nat) by (rewrite length_app; destruct ws'; [done|simpl; lia]).
    rewrite (GetAndAdvance_slot cur mem k a ord v (ws' ++ extra)) by (try done; lia). cbn [mbind result_bind]. apply holds_app in Hh as [_ Hh].
    replace (Z.of_nat ord + 1) with (Z.of_nat (S ord)) by lia. rewrite (IH (S ord) _ ws') by (try done; lia). done.
Qed.
