(* ===== verification/OsrExitMapProps.v ===== *)
(** * What an exit map restores

    The builder of [OsrExitMap.v] refines an array of slots with the SSA node each slot is
    associated with and the snapshots of the array at the exit points; the stream it
    builds, replayed at an exit point, gives the snapshot. *)
From S2P Require Import Prelude Ring OsrExitMap OsrEvents.
From stdpp Require Import gmap sorting.
#[local] Open Scope Z_scope.
#[local] Set Default Proof Using "Type".

Definition no_error : error -> Prop := fun _ => False.
(** Where the links of a node lead. *)
Definition nxt (lk : gmap Z Node) (a : Z) : Z := a + default 0 (snd <$> lk !! a).
Definition prv (lk : gmap Z Node) (a : Z) : Z := a + default 0 (fst <$> lk !! a).

(** A change of one link. *)
Record relinked (lk lk' : gmap Z Node) (f f' : Z -> Z) (a v : Z) : Prop := {
  re_at : forall x, f' x = if decide (x = a) then v else f x;
  re_other : forall x, x <> a -> lk' !! x = lk !! x;
  re_some : forall x, is_Some (lk !! x) -> is_Some (lk' !! x)
}.
Definition with_links (s : BuilderState) (lk : gmap Z Node) : BuilderState := mk_builder lk (infos s) (m_curOsrExitOrd s).

Lemma wp_Prev a s (Q : Z -> BuilderState -> Prop) : is_Some (links s !! a) -> Q (prv (links s) a) s -> wp no_error (Prev a) Q s.
Proof. intros [n Hn] HQ. unfold wp, Prev, mbind, M_bind, load_node. rewrite Hn. unfold prv in HQ. by rewrite Hn in HQ. Qed.
Lemma wp_Next a s (Q : Z -> BuilderState -> Prop) : is_Some (links s !! a) -> Q (nxt (links s) a) s -> wp no_error (Next a) Q s.
Proof. intros [n Hn] HQ. unfold wp, Next, mbind, M_bind, load_node. rewrite Hn. unfold nxt in HQ. by rewrite Hn in HQ. Qed.
Lemma wp_SetNext a v s (Q : unit -> BuilderState -> Prop) : is_Some (links s !! a) -> representable_int32 (v - a) = true ->
  (forall lk, relinked (links s) lk (nxt (links s)) (nxt lk) a v -> (forall x, prv lk x = prv (links s) x) -> Q tt (with_links s lk)) -> wp no_error (SetNext a v) Q s.
Proof.
  intros [n Hn] Hr HQ. unfold SetNext. rewrite Hr. unfold wp, mbind, M_bind, check, load_node, store_node. simpl. rewrite Hn. rewrite Hn. apply HQ.
  - split.
    + intros x. unfold nxt. destruct (decide (x = a)) as [->|]; [rewrite lookup_insert_eq; simpl; lia|by rewrite lookup_insert_ne].
    + intros x Hx. by rewrite lookup_insert_ne.
    + intros x Hx. destruct (decide (x = a)) as [->|]; [rewrite lookup_insert_eq; eauto|by rewrite lookup_insert_ne].
  - intros x. unfold prv. destruct (decide (x = a)) as [->|]; [by rewrite lookup_insert_eq, Hn|by rewrite lookup_insert_ne].
Qed.
Lemma wp_SetPrev a v s (Q : unit -> BuilderState -> Prop) : is_Some (links s !! a) -> representable_int32 (v - a) = true ->
  (forall lk, relinked (links s) lk (prv (links s)) (prv lk) a v -> (forall x, nxt lk x = nxt (links s) x) -> Q tt (with_links s lk)) -> wp no_error (SetPrev a v) Q s.
Proof.
  intros [n Hn] Hr HQ. unfold SetPrev. rewrite Hr. unfold wp, mbind, M_bind, check, load_node, store_node. simpl. rewrite Hn. rewrite Hn. apply HQ.
  - split.
    + intros x. unfold prv. destruct (decide (x = a)) as [->|]; [rewrite lookup_insert_eq; simpl; lia|by rewrite lookup_insert_ne].
    + intros x Hx. by rewrite lookup_insert_ne.
    + intros x Hx. destruct (decide (x = a)) as [->|]; [rewrite lookup_insert_eq; eauto|by rewrite lookup_insert_ne].
  - intros x. unfold nxt. destruct (decide (x = a)) as [->|]; [by rewrite lookup_insert_eq, Hn|by rewrite lookup_insert_ne].
Qed.

Lemma filter_notin (i : nat) (l : list nat) : i ∉ l -> filter (fun j => j <> i) l = l.
Proof. induction l as [|j l IH]; intros Hi; [done|]. rewrite filter_cons, decide_True by set_solver. f_equal. apply IH. set_solver. Qed.

Section map.
Context (m_slots stride base : Z) (m_numSlots : nat).
Hypothesis Hstride : 0 < stride.
Hypothesis Hnum : Z.of_nat m_numSlots <= 65534.
Notation slot_addr := (slot_addr m_slots stride).
Notation IsSlotNode := (IsSlotNode m_slots stride m_numSlots).
(** The arena: nodes in it are an [int32_t] apart. *)
Definition in_arena (a : Z) : Prop := base <= a < base + 2147483648.
Hypothesis Harena : forall i, (i < m_numSlots)%nat -> in_arena (slot_addr i).
#[local] Set Default Proof Using "Type*".

Lemma arena_int32 a v : in_arena a -> in_arena v -> representable_int32 (v - a) = true.
Proof. unfold in_arena, representable_int32. intros. apply andb_true_iff. rewrite Z.leb_le, Z.ltb_lt. lia. Qed.
Lemma slot_addr_inj i j : slot_addr i = slot_addr j -> i = j.
Proof. unfold OsrExitMap.slot_addr. intros H. nia. Qed.
Lemma slot_of_addr i : slot_of m_slots stride (slot_addr i) = i.
Proof.
  unfold slot_of, OsrExitMap.slot_addr. replace (m_slots + Z.of_nat i * stride - m_slots) with (Z.of_nat i * stride) by lia.
  rewrite Z_div_mult by lia. apply Nat2Z.id.
Qed.
Lemma slot_is_slot i : (i < m_numSlots)%nat -> IsSlotNode (slot_addr i) = true.
Proof. intros Hi. unfold OsrExitMap.IsSlotNode, OsrExitMap.slot_addr. apply andb_true_iff. rewrite Z.leb_le, Z.ltb_lt. nia. Qed.

(** ** The rings of the SSA nodes *)
Record rings (lk : gmap Z Node) (assoc : gmap Z (list nat)) : Prop := {
  rg_ring : forall a l, assoc !! a = Some l -> ring (nxt lk) (prv lk) a (slot_addr <$> l);
  rg_key : forall a l, assoc !! a = Some l -> IsSlotNode a = false /\ in_arena a /\ is_Some (lk !! a);
  rg_slot : forall i, (i < m_numSlots)%nat -> is_Some (lk !! slot_addr i);
  rg_valid : forall a l i, assoc !! a = Some l -> i ∈ l -> (i < m_numSlots)%nat;
  rg_sep : forall a l b m i, assoc !! a = Some l -> assoc !! b = Some m -> i ∈ l -> i ∈ m -> a = b
}.
Definition free_slot (assoc : gmap Z (list nat)) (i : nat) : Prop := forall a l, assoc !! a = Some l -> i ∉ l.
Definition drop_slot (i : nat) (assoc : gmap Z (list nat)) : gmap Z (list nat) := filter (fun j => j <> i) <$> assoc.

Lemma ring_elem lk assoc a l x : rings lk assoc -> assoc !! a = Some l -> x ∈ a :: (slot_addr <$> l) ->
  in_arena x /\ is_Some (lk !! x) /\ (x = a \/ exists i, i ∈ l /\ x = slot_addr i).
Proof.
  intros Hr Ha [->|(i & -> & Hi)%list_elem_of_fmap]%elem_of_cons; [destruct (rg_key _ _ Hr a l Ha); tauto|].
  pose proof (rg_valid _ _ Hr a l i Ha Hi). split_and!; [by apply Harena|by apply (rg_slot _ _ Hr)|eauto].
Qed.
(** Nodes of different rings are different. *)
Lemma ring_apart lk assoc a l b m x : rings lk assoc -> assoc !! a = Some l -> assoc !! b = Some m -> x ∈ a :: (slot_addr <$> l) -> x ∈ b :: (slot_addr <$> m) -> a = b.
Proof.
  intros Hr Ha Hb Hx Hy. destruct (ring_elem _ _ _ _ _ Hr Ha Hx) as (_ & _ & [->|(i & Hi & ->)]).
  - destruct (ring_elem _ _ _ _ _ Hr Hb Hy) as (_ & _ & [->|(j & Hj & ->)]); [done|]. destruct (rg_key _ _ Hr _ _ Ha) as [Hk _].
    rewrite slot_is_slot in Hk; [done|by apply (rg_valid _ _ Hr b m)].
  - destruct (ring_elem _ _ _ _ _ Hr Hb Hy) as (_ & _ & [He|(j & Hj & He)]).
    + destruct (rg_key _ _ Hr _ _ Hb) as [Hk _]. rewrite <- He, slot_is_slot in Hk; [done|by apply (rg_valid _ _ Hr a l)].
    + apply slot_addr_inj in He as ->. by apply (rg_sep _ _ Hr a l b m j).
Qed.
Lemma free_apart lk assoc a l j x : rings lk assoc -> assoc !! a = Some l -> (j < m_numSlots)%nat -> free_slot assoc j -> x ∈ a :: (slot_addr <$> l) -> slot_addr j <> x.
Proof.
  intros Hr Ha Hj Hf Hx He. subst x. destruct (ring_elem _ _ _ _ _ Hr Ha Hx) as (_ & _ & [Hk|(i & Hi & Hs)]).
  - destruct (rg_key _ _ Hr _ _ Ha) as [Hk' _]. by rewrite <- Hk, slot_is_slot in Hk'.
  - apply slot_addr_inj in Hs as ->. by apply (Hf a l).
Qed.

(** Only the links change. *)
Definition same_infos (s s' : BuilderState) : Prop := infos s' = infos s /\ m_curOsrExitOrd s' = m_curOsrExitOrd s.

Lemma rings_drop lk lk' assoc i l1 l2 a : rings lk assoc -> assoc !! a = Some (l1 ++ i :: l2) ->
  ring (nxt lk') (prv lk') a (slot_addr <$> l1 ++ l2) ->
  (forall x, x ∉ a :: (slot_addr <$> l1 ++ i :: l2) -> nxt lk' x = nxt lk x /\ prv lk' x = prv lk x) -> (forall x, is_Some (lk !! x) -> is_Some (lk' !! x)) ->
  rings lk' (drop_slot i assoc).
Proof.
  intros Hr Ha Hring Hsame Hdom. pose proof (rg_ring _ _ Hr _ _ Ha) as [Hnd _].
  assert (Hi : i ∉ l1 /\ i ∉ l2).
  { apply NoDup_cons in Hnd as [_ Hnd]. apply NoDup_fmap_1 in Hnd. apply NoDup_app in Hnd as (_ & Hd & Hnd). apply NoDup_cons in Hnd as [? _]. split; [|done].
    intros Hil. apply (Hd i Hil). set_solver. }
  assert (Hdrop : forall b m, drop_slot i assoc !! b = Some m -> exists m0, assoc !! b = Some m0 /\ m = filter (fun j => j <> i) m0).
  { intros b m Hb. unfold drop_slot in Hb. rewrite lookup_fmap in Hb. apply fmap_Some in Hb as (m0 & ? & ->). eauto. }
  split.
  - intros b m (m0 & Hb & ->)%Hdrop. destruct (decide (b = a)) as [->|Hba].
    + rewrite Ha in Hb. injection Hb as <-. rewrite filter_app, filter_cons, decide_False by tauto. by rewrite !filter_notin by tauto.
    + rewrite filter_notin.
      * apply (ring_frame (nxt lk) (prv lk)); [|by apply (rg_ring _ _ Hr)]. intros x Hx. apply Hsame. intros Hx'. by apply Hba, (ring_apart lk assoc b m0 a _ x Hr Hb Ha).
      * intros Hin. apply Hba. apply (rg_sep _ _ Hr b m0 a _ i Hb Ha Hin). set_solver.
  - intros b m (m0 & Hb & _)%Hdrop. destruct (rg_key _ _ Hr b m0 Hb) as (? & ? & ?). auto.
  - intros j Hj. apply Hdom. by apply (rg_slot _ _ Hr).
  - intros b m j (m0 & Hb & ->)%Hdrop [_ Hj]%list_elem_of_filter. by apply (rg_valid _ _ Hr b m0).
  - intros b m c m' j (m0 & Hb & ->)%Hdrop (m1 & Hc & ->)%Hdrop [_ Hj]%list_elem_of_filter [_ Hj']%list_elem_of_filter. by apply (rg_sep _ _ Hr b m0 c m1 j).
Qed.
Lemma rings_free lk lk' assoc i : rings lk assoc -> free_slot assoc i -> (forall x, nxt lk' x = nxt lk x) -> (forall x, prv lk' x = prv lk x) ->
  (forall x, is_Some (lk !! x) -> is_Some (lk' !! x)) -> rings lk' (drop_slot i assoc).
Proof.
  intros Hr Hf Hn Hp Hdom. assert (Hid : drop_slot i assoc = assoc).
  { apply map_eq. intros b. unfold drop_slot. rewrite lookup_fmap. destruct (assoc !! b) as [m|] eqn:Hb; [|done]. simpl. by rewrite filter_notin by (by apply (Hf b)). }
  rewrite Hid. split; [|intros b m Hb; destruct (rg_key _ _ Hr b m Hb) as (? & ? & ?); auto|intros j Hj; by apply Hdom, (rg_slot _ _ Hr)|apply (rg_valid _ _ Hr)|apply (rg_sep _ _ Hr)].
  intros b m Hb. apply (ring_frame (nxt lk) (prv lk)); [done|by apply (rg_ring _ _ Hr)].
Qed.
Lemma free_or_on assoc i : free_slot assoc i \/ exists a l1 l2, assoc !! a = Some (l1 ++ i :: l2).
Proof.
  destruct (decide (map_Forall (fun _ l => i ∉ l) assoc)) as [Hf|Hf]; [left; exact Hf|right].
  apply map_not_Forall in Hf as (a & l & Ha & Hin); [|apply _]. apply dec_stable, list_elem_of_split in Hin as (l1 & l2 & ->). eauto.
Qed.

Lemma UnlinkSlotFromList_ok s assoc i : rings (links s) assoc -> (i < m_numSlots)%nat -> (free_slot assoc i -> links s !! slot_addr i = Some (0, 0)) ->
  wp no_error (UnlinkSlotFromList m_slots stride m_numSlots (slot_addr i)) (fun _ s' => rings (links s') (drop_slot i assoc) /\ same_infos s s' /\
    (forall j, (j < m_numSlots)%nat -> j <> i -> free_slot assoc j -> links s' !! slot_addr j = links s !! slot_addr j)) s.
Proof.
  intros Hr Hi Hfree. unfold UnlinkSlotFromList. apply wp_bind, wp_check; [intros _|by rewrite slot_is_slot]. set (p := slot_addr i).
  pose proof (rg_slot _ _ Hr i Hi) as Hp. apply wp_bind, wp_Prev; [done|]. apply wp_bind, wp_Next; [done|].
  set (q := prv (links s) p). set (n := nxt (links s) p). destruct (free_or_on assoc i) as [Hf|(a & l1 & l2 & Ha)].
  - pose proof (Hfree Hf) as H0. assert (Hq : q = p) by (unfold q, prv, p; rewrite H0; simpl; lia). assert (Hn : n = p) by (unfold n, nxt, p; rewrite H0; simpl; lia).
    rewrite Hq, Hn. assert (Hint : representable_int32 (p - p) = true) by (apply arena_int32; by apply Harena).
    apply wp_bind, wp_SetNext; [done|done|]. intros lk1 [Hn1 Ho1 Hs1] Hp1. apply wp_SetPrev; [by apply Hs1|done|]. intros lk2 [Hp2 Ho2 Hs2] Hn2. split_and!; [|done|].
    + apply (rings_free (links s)); [done|done| | |auto].
      * intros x. rewrite Hn2, Hn1. destruct (decide (x = p)) as [->|]; done.
      * intros x. rewrite Hp2. simpl. rewrite Hp1. destruct (decide (x = p)) as [->|]; done.
    + intros j Hj Hne _. simpl. assert (slot_addr j <> p) by (intros He; by apply slot_addr_inj in He). rewrite Ho2 by done. by apply Ho1.
  - pose proof (rg_ring _ _ Hr a _ Ha) as Hring. rewrite fmap_app, fmap_cons in Hring. fold p in Hring.
    destruct (ring_neighbours _ _ _ _ _ _ Hring) as (Hq & Hn & Hqp & Hnp). fold q n in Hq, Hn, Hqp, Hnp.
    assert (Hsub : forall x, x ∈ a :: (slot_addr <$> l1) ++ (slot_addr <$> l2) -> x ∈ a :: (slot_addr <$> l1 ++ i :: l2)) by (intros x; rewrite fmap_app, fmap_cons; set_solver).
    destruct (ring_elem _ _ _ _ _ Hr Ha (Hsub _ Hq)) as (Hqa & Hqs & _). destruct (ring_elem _ _ _ _ _ Hr Ha (Hsub _ Hn)) as (Hna & Hns & _).
    apply wp_bind, wp_SetNext; [done|by apply arena_int32|]. intros lk1 [Hn1 Ho1 Hs1] Hp1.
    apply wp_SetPrev; [by apply Hs1|by apply arena_int32|]. intros lk2 [Hp2 Ho2 Hs2] Hn2. simpl in *. split_and!; [|done|].
    + eapply (rings_drop (links s) lk2 assoc i l1 l2 a); [done|done| | |auto].
      * rewrite fmap_app. eapply (ring_remove (nxt (links s)) (prv (links s))); [exact Hring| | | |]; fold q n.
        -- rewrite Hn2, Hn1. by rewrite decide_True.
        -- rewrite Hp2. by rewrite decide_True.
        -- intros x Hx _. rewrite Hn2, Hn1. by rewrite decide_False.
        -- intros x Hx _. rewrite Hp2, Hp1. by rewrite decide_False.
      * intros x Hx. assert (x <> q /\ x <> n) as [Hxq Hxn] by (split; intros ->; auto). split; [rewrite Hn2, Hn1; by rewrite decide_False|rewrite Hp2, Hp1; by rewrite decide_False].
    + intros j Hj Hne Hfj. rewrite Ho2 by (by apply (free_apart _ _ _ _ _ _ Hr Ha Hj Hfj), Hsub). by apply Ho1, (free_apart _ _ _ _ _ _ Hr Ha Hj Hfj), Hsub.
Qed.

Lemma rings_add lk lk' assoc i a l : rings lk assoc -> assoc !! a = Some l -> free_slot assoc i -> (i < m_numSlots)%nat ->
  ring (nxt lk') (prv lk') a (slot_addr i :: (slot_addr <$> l)) ->
  (forall x, x ∉ a :: (slot_addr <$> l) -> x <> slot_addr i -> nxt lk' x = nxt lk x /\ prv lk' x = prv lk x) -> (forall x, is_Some (lk !! x) -> is_Some (lk' !! x)) ->
  rings lk' (<[a := i :: l]> assoc).
Proof.
  intros Hr Ha Hf Hi Hring Hsame Hdom. split.
  - intros b m [[<- <-]|[Hba Hb]]%lookup_insert_Some; [done|]. apply (ring_frame (nxt lk) (prv lk)); [|by apply (rg_ring _ _ Hr)]. intros x Hx. apply Hsame.
    + intros Hx'. by apply Hba, (ring_apart lk assoc a l b m x Hr Ha Hb).
    + intros ->. by apply (free_apart lk assoc b m i (slot_addr i) Hr Hb Hi Hf).
  - intros b m [[<- <-]|[Hba Hb]]%lookup_insert_Some; [destruct (rg_key _ _ Hr a l Ha) as (? & ? & ?)|destruct (rg_key _ _ Hr b m Hb) as (? & ? & ?)]; auto.
  - intros j Hj. by apply Hdom, (rg_slot _ _ Hr).
  - intros b m j [[<- <-]|[Hba Hb]]%lookup_insert_Some Hj; [|by apply (rg_valid _ _ Hr b m)].
    apply elem_of_cons in Hj as [->|Hj]; [done|]. by apply (rg_valid _ _ Hr a l).
  - intros b m c m' j [[<- <-]|[Hba Hb]]%lookup_insert_Some [[<- <-]|[Hca Hc]]%lookup_insert_Some Hj Hj'; [done| | |by apply (rg_sep _ _ Hr b m c m' j)].
    + apply elem_of_cons in Hj as [->|Hj]; [by destruct (Hf c m' Hc)|]. by apply (rg_sep _ _ Hr a l c m' j).
    + apply elem_of_cons in Hj' as [->|Hj']; [by destruct (Hf b m Hb)|]. by apply (rg_sep _ _ Hr b m a l j).
Qed.
Lemma AddSlotToList_ok s assoc i a l : rings (links s) assoc -> assoc !! a = Some l -> free_slot assoc i -> (i < m_numSlots)%nat ->
  wp no_error (AddSlotToList m_slots stride m_numSlots a (slot_addr i)) (fun _ s' => rings (links s') (<[a := i :: l]> assoc) /\ same_infos s s' /\
    (forall j, (j < m_numSlots)%nat -> j <> i -> free_slot assoc j -> links s' !! slot_addr j = links s !! slot_addr j)) s.
Proof.
  intros Hr Ha Hf Hi. unfold AddSlotToList. apply wp_bind, wp_check; [intros _|by rewrite slot_is_slot]. set (p := slot_addr i).
  pose proof (rg_ring _ _ Hr a l Ha) as Hring. destruct (rg_key _ _ Hr a l Ha) as (_ & Haa & Has). pose proof (ring_next_elem _ _ _ _ Hring) as Hn.
  destruct (ring_elem _ _ _ _ _ Hr Ha Hn) as (Hna & Hns & _). pose proof (rg_slot _ _ Hr i Hi) as Hps. pose proof (Harena i Hi) as Hpa. fold p in Hps, Hpa.
  assert (Hpout : p ∉ a :: (slot_addr <$> l)) by (intros Hin; by apply (free_apart _ _ _ _ i p Hr Ha Hi Hf Hin)).
  apply wp_bind, wp_Next; [done|]. set (n := nxt (links s) a) in *.
  apply wp_bind, wp_SetNext; [done|by apply arena_int32|]. intros lk1 [Hn1 Ho1 Hs1] Hp1.
  apply wp_bind, wp_SetPrev; [by apply Hs1|by apply arena_int32|]. intros lk2 [Hp2 Ho2 Hs2] Hn2. simpl in *.
  apply wp_bind, wp_SetNext; [by apply Hs2, Hs1|by apply arena_int32|]. intros lk3 [Hn3 Ho3 Hs3] Hp3. simpl in *.
  apply wp_SetPrev; [by apply Hs3, Hs2, Hs1|by apply arena_int32|]. intros lk4 [Hp4 Ho4 Hs4] Hn4. simpl in *.
  assert (Hpa' : p <> a /\ p <> n) by (split; intros He; apply Hpout; rewrite He; [apply list_elem_of_here|done]). destruct Hpa' as [Hpna Hpnn].
  split_and!; [|done|].
  - apply (rings_add (links s) lk4 assoc i a l); [done|done|done|done| | |auto].
    + apply (ring_insert (nxt (links s)) (prv (links s)) _ _ a _ p Hring Hpout); fold n.
      * by rewrite Hn4, Hn3, decide_False, Hn2, Hn1, decide_True.
      * by rewrite Hn4, Hn3, decide_True.
      * by rewrite Hp4, decide_False, Hp3, Hp2, decide_True.
      * by rewrite Hp4, decide_True.
      * intros x Hxa Hxp. by rewrite Hn4, Hn3, decide_False, Hn2, Hn1, decide_False.
      * intros x Hxn Hxp. by rewrite Hp4, decide_False, Hp3, Hp2, decide_False, Hp1.
    + intros x Hx Hxp. fold p in Hxp. assert (x <> a /\ x <> n) as [Hxa Hxn] by (split; intros ->; apply Hx; [apply list_elem_of_here|done]).
      split; [by rewrite Hn4, Hn3, decide_False, Hn2, Hn1, decide_False|by rewrite Hp4, decide_False, Hp3, Hp2, decide_False, Hp1].
  - intros j Hj Hne Hfj. simpl. assert (slot_addr j <> p) by (intros He; by apply slot_addr_inj in He).
    pose proof (fun x Hx => free_apart _ _ _ _ j x Hr Ha Hj Hfj Hx) as Hout.
    rewrite Ho4, Ho3, Ho2, Ho1; [done| | | |]; [apply Hout, list_elem_of_here|by apply Hout|done|done].
Qed.

(** The slots on a ring, in order. *)
Lemma for_all_slots_ok lk assoc a f (P : list nat -> BuilderState -> Prop) : forall l done x fuel s,
  linked (nxt lk) (prv lk) x (slot_addr <$> l) a -> (forall j, j ∈ l -> slot_addr j <> a /\ (j < m_numSlots)%nat) -> (length l < fuel)%nat -> rings lk assoc ->
  links s = lk -> P done s ->
  (forall dn j s, links s = lk -> (j < m_numSlots)%nat -> P dn s -> wp no_error (f j) (fun _ s' => links s' = lk /\ P (dn ++ [j]) s') s) ->
  wp no_error (for_all_slots m_slots stride m_numSlots fuel a (nxt lk x) f) (fun _ s' => links s' = lk /\ P (done ++ l) s') s.
Proof.
  induction l as [|j l IH]; intros dn x fuel s Hl Hin Hfuel Hr Hlk HP Hf; (destruct fuel as [|fuel]; [simpl in Hfuel; lia|]); cbn [for_all_slots]; simpl in Hl.
  - destruct Hl as [-> _]. rewrite Z.eqb_refl. apply wp_ret. by rewrite app_nil_r.
  - destruct Hl as (-> & _ & Hl). destruct (Hin j) as [Hja Hj]; [set_solver|]. destruct (Z.eqb_spec (slot_addr j) a); [done|].
    apply wp_bind, wp_check; [intros _|by rewrite slot_is_slot]. apply wp_bind. rewrite slot_of_addr.
    eapply wp_mono; [by apply (Hf dn j s)|]. cbv beta. intros _ s1 [Hlk1 HP1]. apply wp_bind, wp_Next; [rewrite Hlk1; by apply (rg_slot _ _ Hr)|].
    rewrite Hlk1. eapply wp_mono; [apply (IH (dn ++ [j]) (slot_addr j) fuel s1 Hl); [set_solver|simpl in Hfuel; lia|done|done|done|done]|].
    cbv beta. intros _ s2. by rewrite <- app_assoc.
Qed.

(** ** The specification *)
(** The slots of each SSA node, what the slots hold, and the snapshots at the exit points. *)
Record Slots : Type := mk_slots { sl_assoc : gmap Z (list nat); sl_vals : list (option Z); sl_exits : list (list (option Z)) }.
Inductive osr_op : Type :=
  | OpNewSsaNode (a : Z)
  | OpAddOsrExitPoint
  | OpSetUnassociated (slot : nat) (value : Z)
  | OpSetAndAssociate (ssaNode : Z) (slot : nat) (value : Z)
  | OpSetAndDeassociate (slot : nat) (value : Z)
  | OpSetForAll (ssaNode value : Z)
  | OpReset.

Definition set_val (value : Z) (vals : list (option Z)) (slot : nat) : list (option Z) := <[slot := Some value]> vals.
(** What an operation does, where it may be called. *)
Inductive osr_step (A : Slots) : osr_op -> Slots -> Prop :=
  | osr_new a : sl_assoc A !! a = None -> IsSlotNode a = false -> in_arena a ->
      osr_step A (OpNewSsaNode a) (mk_slots (<[a := []]> (sl_assoc A)) (sl_vals A) (sl_exits A))
  | osr_exit : Z.of_nat (length (sl_exits A)) < 65534 ->
      osr_step A OpAddOsrExitPoint (mk_slots (sl_assoc A) (sl_vals A) (sl_exits A ++ [sl_vals A]))
  | osr_unassociated i v : (i < m_numSlots)%nat -> 0 <= v < 65536 -> free_slot (sl_assoc A) i ->
      osr_step A (OpSetUnassociated i v) (mk_slots (sl_assoc A) (set_val v (sl_vals A) i) (sl_exits A))
  | osr_associate a i v l : (i < m_numSlots)%nat -> 0 <= v < 65536 -> drop_slot i (sl_assoc A) !! a = Some l ->
      osr_step A (OpSetAndAssociate a i v) (mk_slots (<[a := i :: l]> (drop_slot i (sl_assoc A))) (set_val v (sl_vals A) i) (sl_exits A))
  | osr_deassociate i v : (i < m_numSlots)%nat -> 0 <= v < 65536 ->
      osr_step A (OpSetAndDeassociate i v) (mk_slots (drop_slot i (sl_assoc A)) (set_val v (sl_vals A) i) (sl_exits A))
  | osr_for_all a v l : 0 <= v < 65536 -> sl_assoc A !! a = Some l ->
      osr_step A (OpSetForAll a v) (mk_slots (sl_assoc A) (foldl (set_val v) (sl_vals A) l) (sl_exits A))
  | osr_reset : osr_step A OpReset (mk_slots ∅ (replicate m_numSlots None) []).
Inductive osr_steps : Slots -> list osr_op -> Slots -> Prop :=
  | osr_nil A : osr_steps A [] A
  | osr_cons A o A' ops A'' : osr_step A o A' -> osr_steps A' ops A'' -> osr_steps A (o :: ops) A''.

Definition run_osr_op (o : osr_op) : Prelude.M BuilderState unit :=
  match o with
  | OpNewSsaNode a => NewSsaNode a
  | OpAddOsrExitPoint => _ ← AddOsrExitPoint; mret tt
  | OpSetUnassociated i v => SetUnassociated m_slots stride m_numSlots i v
  | OpSetAndAssociate a i v => SetAndAssociate m_slots stride m_numSlots a i v
  | OpSetAndDeassociate i v => SetAndDeassociate m_slots stride m_numSlots i v
  | OpSetForAll a v => SetForAllSlotsAssociatedWith m_slots stride m_numSlots a v
  | OpReset => Reset m_slots stride m_numSlots
  end.
Fixpoint run_osr_ops (ops : list osr_op) : Prelude.M BuilderState unit :=
  match ops with [] => mret tt | o :: ops' => run_osr_op o ;; run_osr_ops ops' end.

(** ** The relation *)
(** The vectors of events tell the values of the slots, now and at the exit points. *)
Record events_ok (s : BuilderState) (vals : list (option Z)) (exits : list (list (option Z))) : Prop := {
  ev_cur : m_curOsrExitOrd s = Z.of_nat (length exits) /\ m_curOsrExitOrd s <= 65534;
  ev_infos : length (infos s) = m_numSlots;
  ev_vals : length vals = m_numSlots;
  ev_vec : forall i v, infos s !! i = Some v -> vec_ok (m_curOsrExitOrd s) v /\ vals !! i = Some (value_at v (m_curOsrExitOrd s)) /\
    forall k snap, exits !! k = Some snap -> snap !! i = Some (value_at v (Z.of_nat k));
  ev_exits : forall k snap, exits !! k = Some snap -> length snap = m_numSlots
}.
Record osr_ok (s : BuilderState) (A : Slots) : Prop := {
  ok_rings : rings (links s) (sl_assoc A);
  ok_free : forall i, (i < m_numSlots)%nat -> free_slot (sl_assoc A) i -> links s !! slot_addr i = Some (0, 0);
  ok_events : events_ok s (sl_vals A) (sl_exits A)
}.

Lemma events_same s s' vals exits : same_infos s s' -> events_ok s vals exits -> events_ok s' vals exits.
Proof. intros [Hi Hc] [H1 H2 H3 H4 H5]. split; [by rewrite Hc|by rewrite Hi|done|by rewrite Hi, Hc|done]. Qed.
Lemma AddEventImpl_ok s vals exits i value : events_ok s vals exits -> (i < m_numSlots)%nat -> 0 <= value < 65536 ->
  wp no_error (AddEventImpl i value) (fun _ s' => links s' = links s /\ events_ok s' (set_val value vals i) exits) s.
Proof.
  intros He Hi Hv. destruct (ev_cur _ _ _ He) as [Hcur Hmax]. destruct (lookup_lt_is_Some_2 (infos s) i) as [v Hvi]; [by rewrite (ev_infos _ _ _ He)|].
  destruct (ev_vec _ _ _ He i v Hvi) as (Hvec & Hval & Hsnap). destruct (add_event_ok (m_curOsrExitOrd s) value v Hvec) as (v' & Hadd & Hvec' & Hat); [lia|done|].
  unfold wp, AddEventImpl. rewrite Hvi, Hadd. cbn [mbind result_bind]. split; [done|]. split; simpl.
  - done.
  - rewrite length_insert. apply (ev_infos _ _ _ He).
  - unfold set_val. rewrite length_insert. apply (ev_vals _ _ _ He).
  - intros j w Hj. unfold set_val. destruct (decide (j = i)) as [->|Hne].
    + rewrite list_lookup_insert_eq in Hj by (by rewrite (ev_infos _ _ _ He)). injection Hj as <-.
      rewrite list_lookup_insert_eq by (by rewrite (ev_vals _ _ _ He)). rewrite Hat, decide_True by lia. split_and!; [done|done|].
      intros k snap Hk. rewrite Hat, decide_False; [by apply Hsnap|]. apply lookup_lt_Some in Hk. lia.
    + rewrite list_lookup_insert_ne in Hj by done. rewrite list_lookup_insert_ne by done. by apply (ev_vec _ _ _ He).
  - apply (ev_exits _ _ _ He).
Qed.

Definition osr_sim (s : BuilderState) (o : osr_op) (A' : Slots) : Prop := wp no_error (run_osr_op o) (fun _ s' => osr_ok s' A') s.

Lemma nxt_change lk a n x : x <> a -> nxt (<[a := n]> lk) x = nxt lk x /\ prv (<[a := n]> lk) x = prv lk x.
Proof. intros Hx. unfold nxt, prv. by rewrite lookup_insert_ne. Qed.
Lemma is_Some_change (lk : gmap Z Node) a n x : is_Some (lk !! x) -> is_Some (<[a := n]> lk !! x).
Proof. intros Hx. destruct (decide (x = a)) as [->|]; [rewrite lookup_insert_eq; eauto|by rewrite lookup_insert_ne]. Qed.

Lemma sim_osr_new s A a : osr_ok s A -> sl_assoc A !! a = None -> IsSlotNode a = false -> in_arena a ->
  osr_sim s (OpNewSsaNode a) (mk_slots (<[a := []]> (sl_assoc A)) (sl_vals A) (sl_exits A)).
Proof.
  intros [Hr Hf He] Ha Hk Haa. unfold osr_sim. simpl. unfold NewSsaNode. apply wp_modify.
  assert (Hslot : forall i, (i < m_numSlots)%nat -> slot_addr i <> a) by (intros i Hi <-; by rewrite slot_is_slot in Hk).
  split; simpl; [split| |by apply (events_same s)].
  - intros b m [[<- <-]|[Hba Hb]]%lookup_insert_Some.
    + apply ring_empty; unfold nxt, prv; rewrite lookup_insert_eq; simpl; lia.
    + apply (ring_frame (nxt (links s)) (prv (links s))); [|by apply (rg_ring _ _ Hr)]. intros x Hx. apply nxt_change. intros ->.
      destruct (ring_elem _ _ _ _ _ Hr Hb Hx) as (_ & _ & [->|(i & Hi & Hs)]); [congruence|]. by apply (Hslot i (rg_valid _ _ Hr b m i Hb Hi)).
  - intros b m [[<- <-]|[Hba Hb]]%lookup_insert_Some; [split_and!; [done|done|rewrite lookup_insert_eq; eauto]|].
    destruct (rg_key _ _ Hr b m Hb) as (? & ? & ?). split_and!; [done|done|by apply is_Some_change].
  - intros i Hi. by apply is_Some_change, (rg_slot _ _ Hr).
  - intros b m i [[<- <-]|[Hba Hb]]%lookup_insert_Some Hi; [by apply not_elem_of_nil in Hi|by apply (rg_valid _ _ Hr b m)].
  - intros b m c m' i [[<- <-]|[Hba Hb]]%lookup_insert_Some [[<- <-]|[Hca Hc]]%lookup_insert_Some Hi Hi'; [done| | |by apply (rg_sep _ _ Hr b m c m' i)].
    + by apply not_elem_of_nil in Hi.
    + by apply not_elem_of_nil in Hi'.
  - intros i Hi Hfi. rewrite lookup_insert_ne by (intros He'; by apply (Hslot i)). apply Hf; [done|]. intros b m Hb. apply (Hfi b). rewrite lookup_insert_ne; [done|congruence].
Qed.
Lemma sim_osr_exit s A : osr_ok s A -> Z.of_nat (length (sl_exits A)) < 65534 ->
  osr_sim s OpAddOsrExitPoint (mk_slots (sl_assoc A) (sl_vals A) (sl_exits A ++ [sl_vals A])).
Proof.
  intros [Hr Hf He] Hlt. destruct (ev_cur _ _ _ He) as [Hcur _]. unfold osr_sim. simpl. unfold AddOsrExitPoint. do 3 wp_step.
  destruct (Z.eqb_spec (m_curOsrExitOrd s) 65534); [lia|]. do 4 wp_step. split; simpl; [done|done|]. split; simpl.
  - rewrite length_app. simpl. lia.
  - apply (ev_infos _ _ _ He).
  - apply (ev_vals _ _ _ He).
  - intros i v Hv. destruct (ev_vec _ _ _ He i v Hv) as (Hvec & Hval & Hsnap). split_and!.
    + by apply (vec_ok_mono (m_curOsrExitOrd s)); [lia|].
    + by rewrite (value_at_beyond (m_curOsrExitOrd s)) by (try done; lia).
    + intros k snap [Hk|[-> ->]]%list_lookup_snoc_Some; [by apply Hsnap|]. by rewrite <- Hcur.
  - intros k snap [Hk|[-> ->]]%list_lookup_snoc_Some; [by apply (ev_exits _ _ _ He k)|]. apply (ev_vals _ _ _ He).
Qed.
Lemma check_slot_ok i s (Q : unit -> BuilderState -> Prop) : (i < m_numSlots)%nat -> Q tt s -> wp no_error (check_slot m_numSlots i) Q s.
Proof. intros Hi HQ. unfold check_slot. apply wp_check; [done|]. intros Hf. apply Nat.ltb_ge in Hf. lia. Qed.
Lemma sim_osr_unassociated s A i v : osr_ok s A -> (i < m_numSlots)%nat -> 0 <= v < 65536 -> free_slot (sl_assoc A) i ->
  osr_sim s (OpSetUnassociated i v) (mk_slots (sl_assoc A) (set_val v (sl_vals A) i) (sl_exits A)).
Proof.
  intros [Hr Hf He] Hi Hv Hfi. unfold osr_sim. simpl. unfold SetUnassociated. apply wp_bind, check_slot_ok; [done|]. apply wp_bind.
  unfold wp at 1, IsIsolated, mbind, M_bind, load_node. rewrite (Hf i Hi Hfi). simpl. eapply wp_mono; [by apply AddEventImpl_ok|].
  cbv beta. intros _ s' [Hlk He']. split; simpl; [by rewrite Hlk|by rewrite Hlk|done].
Qed.

Lemma drop_slot_free i assoc : free_slot (drop_slot i assoc) i.
Proof.
  intros a l Ha. unfold drop_slot in Ha. rewrite lookup_fmap in Ha. apply fmap_Some in Ha as (m & _ & ->). intros [? _]%list_elem_of_filter. done.
Qed.
Lemma drop_slot_free_inv i j assoc : j <> i -> free_slot (drop_slot i assoc) j -> free_slot assoc j.
Proof.
  intros Hne Hf a l Ha Hj. apply (Hf a (filter (fun k => k <> i) l)); [unfold drop_slot; by rewrite lookup_fmap, Ha|]. by apply list_elem_of_filter.
Qed.
Lemma sim_osr_associate s A a i v l : osr_ok s A -> (i < m_numSlots)%nat -> 0 <= v < 65536 -> drop_slot i (sl_assoc A) !! a = Some l ->
  osr_sim s (OpSetAndAssociate a i v) (mk_slots (<[a := i :: l]> (drop_slot i (sl_assoc A))) (set_val v (sl_vals A) i) (sl_exits A)).
Proof.
  intros [Hr Hf He] Hi Hv Ha. unfold osr_sim. simpl. unfold SetAndAssociate.
  assert (Hk : IsSlotNode a = false).
  { unfold drop_slot in Ha. rewrite lookup_fmap in Ha. apply fmap_Some in Ha as (m & Hm & _). by apply (rg_key _ _ Hr a m). }
  apply wp_bind, wp_check; [intros _|by rewrite Hk]. apply wp_bind, check_slot_ok; [done|]. apply wp_bind.
  eapply wp_mono; [apply (UnlinkSlotFromList_ok s _ i Hr Hi); auto|]. cbv beta. intros _ s1 (Hr1 & Hs1 & Hl1). apply wp_bind.
  eapply wp_mono; [apply (AddSlotToList_ok s1 _ i a l Hr1 Ha (drop_slot_free _ _) Hi)|]. cbv beta. intros _ s2 (Hr2 & Hs2 & Hl2).
  eapply wp_mono; [apply (AddEventImpl_ok s2 (sl_vals A) (sl_exits A) i v); [by eapply events_same, events_same|done|done]|].
  cbv beta. intros _ s3 [Hlk He3]. split; simpl; [by rewrite Hlk| |done]. intros j Hj Hfj. rewrite Hlk.
  assert (Hji : j <> i) by (intros ->; apply (Hfj a (i :: l)); [apply lookup_insert_eq|set_solver]).
  assert (Hfd : free_slot (drop_slot i (sl_assoc A)) j).
  { intros b m Hb Hjm. destruct (decide (b = a)) as [->|Hba]; [|by apply (Hfj b m); [by rewrite lookup_insert_ne|]].
    rewrite Ha in Hb. injection Hb as <-. apply (Hfj a (i :: l)); [apply lookup_insert_eq|set_solver]. }
  pose proof (drop_slot_free_inv i j _ Hji Hfd). rewrite Hl2, Hl1 by done. by apply Hf.
Qed.
Lemma sim_osr_deassociate s A i v : osr_ok s A -> (i < m_numSlots)%nat -> 0 <= v < 65536 ->
  osr_sim s (OpSetAndDeassociate i v) (mk_slots (drop_slot i (sl_assoc A)) (set_val v (sl_vals A) i) (sl_exits A)).
Proof.
  intros [Hr Hf He] Hi Hv. unfold osr_sim. simpl. unfold SetAndDeassociate. apply wp_bind, check_slot_ok; [done|]. apply wp_bind.
  eapply wp_mono; [apply (UnlinkSlotFromList_ok s _ i Hr Hi); auto|]. cbv beta. intros _ s1 (Hr1 & Hs1 & Hl1). apply wp_bind.
  destruct (rg_slot _ _ Hr1 i Hi) as [n1 Hn1]. unfold wp at 1, ResetNode, store_node. rewrite Hn1. set (s2 := mk_builder _ _ _).
  eapply wp_mono; [apply (AddEventImpl_ok s2 (sl_vals A) (sl_exits A) i v); [by apply (events_same s)|done|done]|].
  cbv beta. intros _ s3 [Hlk He3]. split; simpl; [| |done]; rewrite Hlk; simpl.
  - split; [| | |apply (rg_valid _ _ Hr1)|apply (rg_sep _ _ Hr1)].
    + intros b m Hb. apply (ring_frame (nxt (links s1)) (prv (links s1))); [|by apply (rg_ring _ _ Hr1)]. intros x Hx. apply nxt_change. intros ->.
      by apply (free_apart _ _ _ _ i (slot_addr i) Hr1 Hb Hi (drop_slot_free _ _) Hx).
    + intros b m Hb. destruct (rg_key _ _ Hr1 b m Hb) as (? & ? & ?). split_and!; [done|done|by apply is_Some_change].
    + intros j Hj. by apply is_Some_change, (rg_slot _ _ Hr1).
  - intros j Hj Hfj. destruct (decide (j = i)) as [->|Hji]; [apply lookup_insert_eq|]. rewrite lookup_insert_ne by (intros Hs; by apply slot_addr_inj in Hs).
    pose proof (drop_slot_free_inv i j _ Hji Hfj). rewrite Hl1 by done. by apply Hf.
Qed.

Lemma length_slots lk assoc a l : rings lk assoc -> assoc !! a = Some l -> (length l <= m_numSlots)%nat.
Proof.
  intros Hr Ha. pose proof (rg_ring _ _ Hr a l Ha) as [Hnd _]. apply NoDup_cons in Hnd as [_ Hnd]. apply NoDup_fmap_1 in Hnd.
  rewrite <- (length_seq m_numSlots 0). apply submseteq_length, NoDup_submseteq; [done|]. intros i Hi. apply elem_of_seq.
  pose proof (rg_valid _ _ Hr a l i Ha Hi). lia.
Qed.
Lemma sim_osr_for_all s A a v l : osr_ok s A -> 0 <= v < 65536 -> sl_assoc A !! a = Some l ->
  osr_sim s (OpSetForAll a v) (mk_slots (sl_assoc A) (foldl (set_val v) (sl_vals A) l) (sl_exits A)).
Proof.
  intros [Hr Hf He] Hv Ha. unfold osr_sim. simpl. unfold SetForAllSlotsAssociatedWith. destruct (rg_key _ _ Hr a l Ha) as (Hk & _ & Has).
  apply wp_bind, wp_check; [intros _|by rewrite Hk]. apply wp_bind, wp_Next; [done|]. pose proof (rg_ring _ _ Hr a l Ha) as [_ Hl].
  eapply wp_mono; [apply (for_all_slots_ok (links s) (sl_assoc A) a _ (fun dn s' => events_ok s' (foldl (set_val v) (sl_vals A) dn) (sl_exits A)) l [] a); [exact Hl| | |done|done|done|]|].
  - intros j Hj. pose proof (rg_valid _ _ Hr a l j Ha Hj) as Hjn. split; [|done]. intros Hs. by rewrite <- Hs, slot_is_slot in Hk.
  - pose proof (length_slots _ _ _ _ Hr Ha). lia.
  - intros dn j s1 Hlk Hj He1. eapply wp_mono; [by apply AddEventImpl_ok|]. cbv beta. intros _ s2 [Hlk2 He2]. rewrite foldl_app. simpl. by rewrite Hlk2.
  - cbv beta. intros _ s1 [Hlk He1]. split; simpl; [by rewrite Hlk|by rewrite Hlk|done].
Qed.

Lemma make_slots_lookup lk i : (i < m_numSlots)%nat -> make_slots m_slots stride m_numSlots lk !! slot_addr i = Some (0, 0).
Proof.
  intros Hi. unfold make_slots. assert (Hin : i ∈ seq 0 m_numSlots) by (apply elem_of_seq; lia). induction (seq 0 m_numSlots) as [|j l IH]; simpl; [by apply not_elem_of_nil in Hin|].
  destruct (decide (i = j)) as [->|Hne]; [apply lookup_insert_eq|]. rewrite lookup_insert_ne by (intros Hs; apply slot_addr_inj in Hs; done).
  apply IH. by apply elem_of_cons in Hin as [|].
Qed.
Lemma fresh_slots_ok lk : osr_ok (mk_builder (make_slots m_slots stride m_numSlots lk) (replicate m_numSlots []) 0) (mk_slots ∅ (replicate m_numSlots None) []).
Proof.
  split; simpl.
  - split; try done. intros i Hi. rewrite make_slots_lookup by done. eauto.
  - intros i Hi _. by apply make_slots_lookup.
  - split; simpl; [done|apply length_replicate|apply length_replicate| |done]. intros i v [-> Hi]%lookup_replicate. split_and!; [split; [constructor|set_solver..]| |done].
    by rewrite lookup_replicate_2.
Qed.
Lemma osr_sim_op s A o A' : osr_ok s A -> osr_step A o A' -> osr_sim s o A'.
Proof.
  intros Hs []; [by apply sim_osr_new|by apply sim_osr_exit|by apply sim_osr_unassociated|by apply sim_osr_associate|by apply sim_osr_deassociate|by apply sim_osr_for_all|].
  unfold osr_sim. simpl. unfold Reset. apply wp_modify, fresh_slots_ok.
Qed.
Lemma osr_sim_ops ops : forall s A A', osr_ok s A -> osr_steps A ops A' -> wp no_error (run_osr_ops ops) (fun _ s' => osr_ok s' A') s.
Proof.
  induction ops as [|o ops IH]; intros s A A' Hs Hsteps; inversion Hsteps; subst; cbn [run_osr_ops]; [by apply wp_ret|].
  apply wp_bind. match goal with Hst : osr_step _ _ _ |- _ => eapply wp_mono; [exact (osr_sim_op _ _ _ _ Hs Hst)|] end. cbv beta. intros _ s' Hs'. by eapply IH.
Qed.

(** ** Building and replaying *)
Lemma drop_useless_events_ok cur : forall vs, Forall (vec_ok cur) vs -> exists vs', drop_useless_events cur vs = Ok vs' /\ Forall (vec_ok (cur - 1)) vs' /\
  length vs' = length vs /\ forall k, k < cur -> (fun v => value_at v k) <$> vs' = (fun v => value_at v k) <$> vs.
Proof using.
  induction vs as [|v vs IH]; intros Hall; cbn [drop_useless_events]; [by exists []|]. inversion Hall as [|? ? Hv Hall']; subst.
  destruct (drop_useless_ok cur v Hv) as (v' & -> & Hv' & Hk). destruct (IH Hall') as (vs' & -> & Hall'' & Hl & Hks). cbn [mbind result_bind].
  exists (v' :: vs'). split_and!; [done|by constructor|simpl; congruence|]. intros k Hlt. rewrite !fmap_cons. f_equal; [by apply Hk|by apply Hks].
Qed.
Lemma BuildEventStream_ok s A : osr_ok s A -> exists ws s', BuildEventStream s = Ok (ws, s') /\
  forall k snap extra, Z.of_nat (length (sl_exits A)) <= 32768 -> sl_exits A !! k = Some snap -> (5 <= length extra)%nat ->
    Replay m_numSlots (ws ++ extra) (Z.of_nat k) (mk_replayer 0 0) = Ok snap.
Proof.
  intros [_ _ He]. destruct (ev_cur _ _ _ He) as [Hcur Hmax]. assert (Hall : Forall (vec_ok (m_curOsrExitOrd s)) (infos s)).
  { apply Forall_lookup. intros i v Hv. apply (ev_vec _ _ _ He i v Hv). }
  destruct (drop_useless_events_ok _ _ Hall) as (vs & Hdrop & Hall' & Hlen & Hvals).
  destruct (all_words_ok (m_curOsrExitOrd s - 1) ltac:(lia) vs 0 Hall') as (ws & Hws & _).
  exists ws. eexists. split.
  { unfold BuildEventStream, mbind, M_bind, get_st, lift_result, put_st. rewrite Hdrop. by rewrite Hws. }
  intros k snap extra Hmany Hk Hextra. pose proof (lookup_lt_Some _ _ _ Hk) as Hlt.
  rewrite (ev_infos _ _ _ He) in Hlen. rewrite <- Hlen at 1.
  pose proof (Replay_ok (m_curOsrExitOrd s - 1) (ws ++ extra) (Z.of_nat k) extra ltac:(lia) ltac:(lia) Hextra vs 0 0 ws Hall' Hws (holds_whole _) ltac:(lia)) as Hrun.
  change (Z.of_nat 0) with 0 in Hrun. rewrite Hrun.
  f_equal. rewrite Hvals by lia. apply list_eq. intros i. rewrite list_lookup_fmap. destruct (infos s !! i) as [v|] eqn:Hv; simpl.
  - destruct (ev_vec _ _ _ He i v Hv) as (_ & _ & Hsnap). by rewrite (Hsnap k snap Hk).
  - symmetry. apply lookup_ge_None. rewrite (ev_exits _ _ _ He k snap Hk). apply lookup_ge_None in Hv. by rewrite (ev_infos _ _ _ He) in Hv.
Qed.
Lemma QueryCurrentValue_ok s A i v : osr_ok s A -> sl_vals A !! i = Some (Some v) -> QueryCurrentValue m_numSlots i s = Ok (v, s).
Proof.
  intros [_ _ He] Hv. assert (Hi : (i < m_numSlots)%nat) by (rewrite <- (ev_vals _ _ _ He); by eapply lookup_lt_Some).
  destruct (lookup_lt_is_Some_2 (infos s) i) as [vec Hvec]; [by rewrite (ev_infos _ _ _ He)|]. destruct (ev_vec _ _ _ He i vec Hvec) as (Hok & Hval & _).
  rewrite Hv in Hval. injection Hval as Hval. unfold QueryCurrentValue, check_slot, check, mbind, M_bind, get_st. rewrite (proj2 (Nat.ltb_lt _ _) Hi). simpl. rewrite Hvec. simpl.
  destruct vec as [|e vec _] using rev_ind; [done|]. rewrite last_snoc. apply vec_ok_snoc in Hok as (_ & _ & Hr & _).
  rewrite value_at_app, decide_True in Hval by lia. by injection Hval as ->.
Qed.
End map.

(** C11: after any sequence of calls the builder allows, with at most 32768 exit points, no
    assertion fails, the current values can be queried, and the stream that is built,
    followed by any five words, gives when it is replayed at an exit point what every slot
    held there, or that it was not set: also when the slots of an SSA value were moved
    together along their list. *)
Theorem exit_map_restores m_slots stride base m_numSlots links0 ops A : 0 < stride -> Z.of_nat m_numSlots <= 65534 ->
  (forall i, (i < m_numSlots)%nat -> in_arena base (slot_addr m_slots stride i)) ->
  osr_steps m_slots stride base m_numSlots (mk_slots ∅ (replicate m_numSlots None) []) ops A -> Z.of_nat (length (sl_exits A)) <= 32768 ->
  exists s0 s ws s', new_builder m_slots stride m_numSlots links0 = Ok s0 /\ run_osr_ops m_slots stride m_numSlots ops s0 = Ok (tt, s) /\
    (forall i v, sl_vals A !! i = Some (Some v) -> QueryCurrentValue m_numSlots i s = Ok (v, s)) /\ BuildEventStream s = Ok (ws, s') /\
    forall k snap extra, sl_exits A !! k = Some snap -> (5 <= length extra)%nat -> Replay m_numSlots (ws ++ extra) (Z.of_nat k) (mk_replayer 0 0) = Ok snap.
Proof.
  intros Hst Hnum Har Hsteps Hmany. assert (Hnew : exists s0, new_builder m_slots stride m_numSlots links0 = Ok s0 /\ osr_ok m_slots stride base m_numSlots s0 (mk_slots ∅ (replicate m_numSlots None) [])).
  { unfold new_builder. assert (Hle : (m_numSlots <=? 65534)%nat = true).
    { apply Nat.leb_le, Nat2Z.inj_le. replace (Z.of_nat 65534) with 65534 by (by vm_compute). done. }
    rewrite Hle. eexists. split; [done|]. by apply fresh_slots_ok. }
  destruct Hnew as (s0 & Hnew & Hok0). destruct (wp_total _ _ _ (osr_sim_ops m_slots stride base m_numSlots Hst Hnum Har ops s0 _ A Hok0 Hsteps)) as ([] & s & Hrun & Hok).
  destruct (BuildEventStream_ok m_slots stride base m_numSlots Hst Hnum Har s A Hok) as (ws & s' & Hbuild & Hreplay).
  exists s0, s, ws, s'. split_and!; [done|done| |done|].
  - intros i v. by apply (QueryCurrentValue_ok m_slots stride base m_numSlots Hst Hnum Har s A).
  - intros k snap extra. by apply Hreplay.
Qed.

(** ** Examples *)
Lemma free_slot_check assoc i : bool_decide (map_Forall (fun _ (l : list nat) => i ∉ l) assoc) = true -> free_slot assoc i.
Proof. intros H. apply bool_decide_eq_true in H. exact H. Qed.
Definition demo_osr_ops : list osr_op :=
  [OpNewSsaNode 96; OpSetAndAssociate 96 0 7; OpSetAndAssociate 96 2 7; OpAddOsrExitPoint; OpSetForAll 96 9; OpSetAndDeassociate 0 12;
   OpSetUnassociated 1 5; OpAddOsrExitPoint; OpSetForAll 96 10].
Lemma demo_in_arena i : (i < 3)%nat -> in_arena 0 (slot_addr 1000 40 i).
Proof. unfold in_arena, slot_addr. lia. Qed.
Lemma demo_osr_steps : exists A, osr_steps 1000 40 0 3 (mk_slots ∅ (replicate 3 None) []) demo_osr_ops A /\
  sl_exits A = [[Some 7; None; Some 7]; [Some 12; Some 5; Some 9]].
Proof.
  eexists. split.
  - unfold demo_osr_ops.
    eapply osr_cons; [apply osr_new; [vm_compute; reflexivity|vm_compute; reflexivity|unfold in_arena; lia]|].
    eapply osr_cons; [eapply osr_associate; [lia|lia|vm_compute; reflexivity]|].
    eapply osr_cons; [eapply osr_associate; [lia|lia|vm_compute; reflexivity]|].
    eapply osr_cons; [apply osr_exit; vm_compute; reflexivity|].
    eapply osr_cons; [eapply osr_for_all; [lia|vm_compute; reflexivity]|].
    eapply osr_cons; [apply osr_deassociate; lia|].
    eapply osr_cons; [apply osr_unassociated; [lia|lia|apply free_slot_check; vm_compute; reflexivity]|].
    eapply osr_cons; [apply osr_exit; vm_compute; reflexivity|].
    eapply osr_cons; [eapply osr_for_all; [lia|vm_compute; reflexivity]|].
    apply osr_nil.
  - vm_compute. reflexivity.
Qed.
Lemma exit_map_restores_witness : exists A, sl_exits A = [[Some 7; None; Some 7]; [Some 12; Some 5; Some 9]] /\
  exists s0 s ws s', new_builder 1000 40 3 ∅ = Ok s0 /\ run_osr_ops 1000 40 3 demo_osr_ops s0 = Ok (tt, s) /\
    (forall i v, sl_vals A !! i = Some (Some v) -> QueryCurrentValue 3 i s = Ok (v, s)) /\ BuildEventStream s = Ok (ws, s') /\
    forall k snap extra, sl_exits A !! k = Some snap -> (5 <= length extra)%nat -> Replay 3 (ws ++ extra) (Z.of_nat k) (mk_replayer 0 0) = Ok snap.
Proof.
  destruct demo_osr_steps as (A & Hsteps & Hexits). exists A. split; [exact Hexits|].
  assert (Hmany : Z.of_nat (length (sl_exits A)) <= 32768) by (rewrite Hexits; simpl; lia).
  exact (exit_map_restores 1000 40 0 3 ∅ demo_osr_ops A ltac:(lia) ltac:(lia) demo_in_arena Hsteps Hmany).
Defined.

(** *** Beyond 32768 exit points *)
Definition many : nat := Z.to_nat 32768.
Definition many_ops : list osr_op := OpSetUnassociated 0 7 :: replicate many OpAddOsrExitPoint ++ [OpSetUnassociated 0 8; OpAddOsrExitPoint].
Lemma osr_steps_exits m_slots stride base n ops A' : forall k A, Z.of_nat (length (sl_exits A)) + Z.of_nat k <= 65534 ->
  osr_steps m_slots stride base n (mk_slots (sl_assoc A) (sl_vals A) (sl_exits A ++ replicate k (sl_vals A))) ops A' ->
  osr_steps m_slots stride base n A (replicate k OpAddOsrExitPoint ++ ops) A'.
Proof.
  induction k as [|k IH]; intros A Hle Hs; simpl in Hs |- *; [rewrite app_nil_r in Hs; by destruct A|].
  eapply osr_cons; [apply osr_exit; lia|]. apply IH; simpl; [rewrite length_app; simpl; lia|]. by rewrite <- app_assoc.
Qed.
Lemma many_steps : exists A, osr_steps 1000 40 0 1 (mk_slots ∅ [None] []) many_ops A /\ sl_exits A !! 5%nat = Some [Some 7].
Proof.
  assert (Hm : Z.of_nat many = 32768) by (unfold many; by rewrite Z2Nat.id). eexists. split.
  - unfold many_ops. eapply osr_cons; [apply osr_unassociated; [lia|lia|apply free_slot_check; vm_compute; reflexivity]|].
    cbn [sl_assoc sl_vals sl_exits]. apply osr_steps_exits; cbn [sl_assoc sl_vals sl_exits]; [simpl (length []); lia|].
    eapply osr_cons; [apply osr_unassociated; [lia|lia|apply free_slot_check; vm_compute; reflexivity]|].
    eapply osr_cons; [apply osr_exit; cbn [sl_exits]; rewrite length_app, length_replicate; simpl (length []); lia|]. apply osr_nil.
  - cbn [sl_exits]. rewrite app_nil_l. apply lookup_app_Some_l. apply lookup_replicate_2. lia.
Qed.
(** What the builder and the replayer make of them. *)
Definition many_run : result (list Z) :=
  match new_builder 1000 40 1 ∅ with
  | Ok s0 => match run_osr_ops 1000 40 1 many_ops s0 with
             | Ok (_, s) => match BuildEventStream s with Ok (ws, _) => Ok ws | Err e => Err e end
             | Err e => Err e
             end
  | Err e => Err e
  end.

(** The builder takes up to 65534 exit points, but the replayer compares ordinals as
    signed words: with one after ordinal 32767 it picks a later event of a slot at an
    early exit point, and its own assertion fails. *)
Example replayer_compares_signed : exists A ws, osr_steps 1000 40 0 1 (mk_slots ∅ [None] []) many_ops A /\
  sl_exits A !! 5%nat = Some [Some 7] /\ many_run = Ok ws /\ ws = [0; 2; 0; 32768; 7; 8; 65535] /\
  Replay 1 (ws ++ replicate 5 0) 5 (mk_replayer 0 0) = Err (AssertFailed "keys[idx] <= k").
Proof.
  destruct many_steps as (A & Hsteps & H5). exists A, [0; 2; 0; 32768; 7; 8; 65535]. split_and!; [done|done|vm_compute; reflexivity|done|vm_compute; reflexivity].
Qed.
