(* ===== verification/BitVec.v ===== *)
(** * Bit vectors

    [drt/bit_vector_utils.h]: vectors of bits in 64-bit words.  The last word has no bits
    above the length, so two vectors of one length with the same bits are equal. *)
From S2P Require Import Prelude.
From stdpp Require Import list.
#[local] Open Scope Z_scope.
#[local] Set Default Proof Using "Type".
#[local] Arguments Nat.div : simpl never.
#[local] Arguments Nat.modulo : simpl never.

Record BitVector : Type := mk_bv { m_data : list Z; m_length : nat }.
(** [RoundUpToMultipleOf<64>(len) / 64] *)
Definition GetAllocLength (len : nat) : nat := ((len + 63) / 64)%nat.
Definition word_ones : Z := 18446744073709551615.

Definition Reset (len : nat) : BitVector := mk_bv (replicate (GetAllocLength len) 0) len.
Definition Clear (bv : BitVector) : BitVector := Reset (m_length bv).
Definition last_word (len : nat) : Z := Z.shiftr word_ones (64 - Z.of_nat ((len + 63) mod 64 + 1)%nat).
Definition SetAllOne (bv : BitVector) : BitVector :=
  match GetAllocLength (m_length bv) with
  | O => bv
  | S k => mk_bv (replicate k word_ones ++ [last_word (m_length bv)]) (m_length bv)
  end.
Definition out_of_bits : error := AssertFailed "loc < m_length".
Definition word_bit (loc : nat) : Z := Z.shiftl 1 (Z.of_nat (loc mod 64)%nat).
Definition update_word (loc : nat) (f : Z -> Z) (bv : BitVector) : result BitVector :=
  if negb (loc <? m_length bv)%nat then Err out_of_bits
  else match m_data bv !! (loc / 64)%nat with
       | Some w => Ok (mk_bv (<[(loc / 64)%nat := f w]> (m_data bv)) (m_length bv))
       | None => Err (UndefinedBehaviour "outside the words")
       end.
Definition SetBit (loc : nat) : BitVector -> result BitVector := update_word loc (fun w => Z.lor w (word_bit loc)).
Definition ClearBit (loc : nat) : BitVector -> result BitVector :=
  update_word loc (fun w => Z.land w (Z.lxor word_ones (word_bit loc))).
Definition IsSet (loc : nat) (bv : BitVector) : result bool :=
  if negb (loc <? m_length bv)%nat then Err out_of_bits
  else match m_data bv !! (loc / 64)%nat with
       | Some w => Ok (negb (Z.land w (word_bit loc) =? 0))
       | None => Err (UndefinedBehaviour "outside the words")
       end.
Definition CopyFromEqualLengthBitVector (other bv : BitVector) : result BitVector :=
  if (m_length other =? m_length bv)%nat then Ok (mk_bv (m_data other) (m_length bv)) else Err (AssertFailed "other.m_length == m_length").
(** A loop over the words of vectors of one length. *)
Definition zip_words (f : Z -> Z -> Z) (a b : BitVector) : BitVector := mk_bv (zip_with f (m_data a) (m_data b)) (m_length a).
(** Whether a loop over the words finds two that differ. *)
Definition words_differ (a b : BitVector) : bool := negb (bool_decide (m_data a = m_data b)).

(** ** Bits *)
Definition bit (bv : BitVector) (loc : nat) : bool :=
  match m_data bv !! (loc / 64)%nat with Some w => Z.testbit w (Z.of_nat (loc mod 64)%nat) | None => false end.
Record bv_ok (bv : BitVector) : Prop := {
  bo_length : length (m_data bv) = GetAllocLength (m_length bv);
  bo_words : Forall (fun w => 0 <= w < 2 ^ 64) (m_data bv);
  bo_high : forall loc, (m_length bv <= loc)%nat -> bit bv loc = false
}.

Lemma alloc_bound len loc : (loc < len)%nat -> (loc / 64 < GetAllocLength len)%nat.
Proof.
  intros H. unfold GetAllocLength. apply Nat.div_lt_upper_bound; [done|]. pose proof (Nat.div_mod (len + 63) 64 ltac:(done)). pose proof (Nat.mod_upper_bound (len + 63) 64 ltac:(done)). lia.
Qed.
Lemma bit_eq_loc i k : (k < 64)%nat -> ((i * 64 + k) / 64 = i /\ (i * 64 + k) mod 64 = k)%nat.
Proof. intros Hk. split; [rewrite Nat.div_add_l by done; rewrite Nat.div_small by done; lia|]. rewrite Nat.add_comm, Nat.Div0.mod_add. by apply Nat.mod_small. Qed.
Lemma testbit_small w n : 0 <= w < 2 ^ 64 -> 64 <= n -> Z.testbit w n = false.
Proof.
  intros Hw Hn. destruct (decide (w = 0)) as [->|]; [apply Z.bits_0|]. apply Z.bits_above_log2; [lia|]. apply Z.log2_lt_pow2; [lia|].
  eapply Z.lt_le_trans; [apply Hw|]. apply Z.pow_le_mono_r; lia.
Qed.
Lemma word_ext w w' : 0 <= w < 2 ^ 64 -> 0 <= w' < 2 ^ 64 -> (forall k, (k < 64)%nat -> Z.testbit w (Z.of_nat k) = Z.testbit w' (Z.of_nat k)) -> w = w'.
Proof.
  intros Hw Hw' H. apply Z.bits_inj'. intros n Hn. destruct (Z_lt_ge_dec n 64).
  - specialize (H (Z.to_nat n) ltac:(lia)). by rewrite Z2Nat.id in H by done.
  - by rewrite !testbit_small by lia.
Qed.
Lemma bv_ext a b : bv_ok a -> bv_ok b -> m_length a = m_length b -> (forall loc, (loc < m_length a)%nat -> bit a loc = bit b loc) -> a = b.
Proof.
  intros Ha Hb Hl H. destruct a as [da la], b as [db lb]. simpl in Hl. subst lb. f_equal.
  assert (Hall : forall loc, bit (mk_bv da la) loc = bit (mk_bv db la) loc).
  { intros loc. destruct (decide (loc < la)%nat) as [|Hge]; [by apply H|]. rewrite (bo_high _ Ha), (bo_high _ Hb); simpl; [done|lia|lia]. }
  apply list_eq. intros i. destruct (da !! i) as [w|] eqn:Ei.
  - destruct (lookup_lt_is_Some_2 db i) as [w' Ei'].
    { pose proof (bo_length _ Ha) as H1. pose proof (bo_length _ Hb) as H2. simpl in *. rewrite H2, <- H1. by eapply lookup_lt_Some. }
    rewrite Ei'. f_equal. apply word_ext; [apply (Forall_lookup_1 _ _ _ _ (bo_words _ Ha) Ei)|apply (Forall_lookup_1 _ _ _ _ (bo_words _ Hb) Ei')|].
    intros k Hk. specialize (Hall (i * 64 + k)%nat). unfold bit in Hall. cbn [m_data] in Hall. destruct (bit_eq_loc i k Hk) as [H1 H2].
    by rewrite H1, H2, Ei, Ei' in Hall.
  - symmetry. apply lookup_ge_None_2. apply lookup_ge_None_1 in Ei. pose proof (bo_length _ Ha) as H1. pose proof (bo_length _ Hb) as H2. simpl in *. lia.
Qed.

Lemma bit_Reset len loc : bit (Reset len) loc = false.
Proof. unfold bit, Reset. simpl. destruct (replicate _ 0 !! _) eqn:E; [|done]. apply lookup_replicate in E as [-> _]. apply Z.bits_0. Qed.
Lemma Reset_ok len : bv_ok (Reset len).
Proof. split; simpl; [apply length_replicate|apply Forall_replicate; lia|]. intros loc _. apply bit_Reset. Qed.

Lemma word_ones_spec : word_ones = Z.ones 64.
Proof. done. Qed.
Lemma bit_SetAllOne bv loc : (loc < m_length bv)%nat -> bit (SetAllOne bv) loc = true.
Proof.
  intros Hl. pose proof (alloc_bound _ _ Hl) as Ha. unfold SetAllOne. destruct (GetAllocLength (m_length bv)) as [|k] eqn:Ek; [lia|]. unfold bit. cbn [m_data m_length].
  destruct (decide (loc / 64 < k)%nat) as [Hlt|Hge].
  - rewrite lookup_app_l by (by rewrite length_replicate). rewrite lookup_replicate_2 by done. rewrite word_ones_spec. apply Z.ones_spec_low.
    pose proof (Nat.mod_upper_bound loc 64 ltac:(done)). lia.
  - assert (loc / 64 = k)%nat as Hk by lia. rewrite lookup_app_r by (rewrite length_replicate; lia). rewrite length_replicate, Hk, Nat.sub_diag. simpl.
    unfold last_word. rewrite Z.shiftr_spec by lia. rewrite word_ones_spec. apply Z.ones_spec_low.
    assert (loc mod 64 <= (m_length bv + 63) mod 64)%nat; [|pose proof (Nat.mod_upper_bound loc 64 ltac:(done)); pose proof (Nat.mod_upper_bound (m_length bv + 63) 64 ltac:(done)); lia].
    unfold GetAllocLength in Ek. pose proof (Nat.div_mod loc 64 ltac:(done)). pose proof (Nat.div_mod (m_length bv + 63) 64 ltac:(done)). lia.
Qed.
Lemma SetAllOne_ok bv : bv_ok bv -> bv_ok (SetAllOne bv).
Proof.
  intros Hb. unfold SetAllOne. destruct (GetAllocLength (m_length bv)) as [|k] eqn:Ek; [done|].
  pose proof (Nat.mod_upper_bound (m_length bv + 63) 64 ltac:(done)) as Hmod.
  assert (Hw : 0 <= last_word (m_length bv) < 2 ^ 64).
  { unfold last_word. rewrite Z.shiftr_div_pow2 by lia. set (e := 64 - _). assert (He : 1 <= 2 ^ e) by (pose proof (Z.pow_pos_nonneg 2 e); lia).
    split; [apply Z.div_pos; [done|lia]|]. apply Z.div_lt_upper_bound; [lia|]. unfold word_ones. nia. }
  split; simpl.
  - rewrite length_app, length_replicate, Ek. simpl. lia.
  - apply Forall_app. split; [apply Forall_replicate; unfold word_ones; lia|by constructor].
  - intros loc Hloc. unfold bit. cbn [m_data m_length]. unfold GetAllocLength in Ek. pose proof (Nat.div_mod loc 64 ltac:(done)). pose proof (Nat.div_mod (m_length bv + 63) 64 ltac:(done)).
    pose proof (Nat.mod_upper_bound loc 64 ltac:(done)). pose proof (Nat.mod_upper_bound (m_length bv + 63) 64 ltac:(done)).
    rewrite lookup_app_r by (rewrite length_replicate; nia). rewrite length_replicate. destruct (loc / 64 - k)%nat as [|m] eqn:Em; [|by destruct m]. simpl.
    unfold last_word. rewrite Z.shiftr_spec by lia. rewrite word_ones_spec. apply Z.ones_spec_high. nia.
Qed.

Lemma testbit_word_bit loc k : (k < 64)%nat -> Z.testbit (word_bit loc) (Z.of_nat k) = bool_decide (k = loc mod 64)%nat.
Proof.
  intros Hk. unfold word_bit. rewrite Z.shiftl_1_l. pose proof (Nat.mod_upper_bound loc 64 ltac:(done)). case_bool_decide as He.
  - subst k. apply Z.pow2_bits_true. lia.
  - apply Z.pow2_bits_false. lia.
Qed.
Lemma word_bit_range loc : 0 <= word_bit loc < 2 ^ 64.
Proof. unfold word_bit. rewrite Z.shiftl_1_l. pose proof (Nat.mod_upper_bound loc 64 ltac:(done)). split; [lia|]. apply Z.pow_lt_mono_r; lia. Qed.
Lemma word_range w : (forall k, 64 <= k -> Z.testbit w k = false) -> 0 <= w -> 0 <= w < 2 ^ 64.
Proof.
  intros H Hw. split; [done|]. destruct (Z_lt_ge_dec w (2 ^ 64)) as [|Hge]; [done|exfalso]. pose proof (H (Z.log2 w)) as Hb.
  rewrite Z.bit_log2 in Hb by lia. discriminate Hb. apply Z.log2_le_pow2; lia.
Qed.
Lemma same_word loc l : (loc / 64 = l / 64 -> loc mod 64 = l mod 64 -> loc = l)%nat.
Proof. intros H1 H2. rewrite (Nat.div_mod loc 64), (Nat.div_mod l 64) by done. by rewrite H1, H2. Qed.

(** A bit that is written. *)
Lemma update_word_spec loc f v bv : bv_ok bv -> (loc < m_length bv)%nat -> (forall w, 0 <= w < 2 ^ 64 -> 0 <= f w < 2 ^ 64) ->
  (forall w k, 0 <= w < 2 ^ 64 -> (k < 64)%nat -> Z.testbit (f w) (Z.of_nat k) = if decide (k = loc mod 64)%nat then v else Z.testbit w (Z.of_nat k)) ->
  exists bv', update_word loc f bv = Ok bv' /\ bv_ok bv' /\ m_length bv' = m_length bv /\ forall l, bit bv' l = if decide (l = loc) then v else bit bv l.
Proof.
  intros Hb Hl Hrange Hf. unfold update_word. apply Nat.ltb_lt in Hl as Hl'. rewrite Hl'. cbn [negb].
  assert (Hi : (loc / 64 < length (m_data bv))%nat) by (rewrite (bo_length _ Hb); by apply alloc_bound).
  destruct (lookup_lt_is_Some_2 _ _ Hi) as [w Hw]. rewrite Hw. pose proof (Forall_lookup_1 _ _ _ _ (bo_words _ Hb) Hw) as Hwr.
  assert (Hbits : forall l, bit (mk_bv (<[(loc / 64)%nat := f w]> (m_data bv)) (m_length bv)) l = if decide (l = loc) then v else bit bv l).
  { intros l. unfold bit. cbn [m_data m_length]. destruct (decide (l / 64 = loc / 64)%nat) as [He|Hne].
    - rewrite He, list_lookup_insert_eq by done. rewrite Hf by (try done; by apply Nat.mod_upper_bound). rewrite Hw.
      destruct (decide (l mod 64 = loc mod 64)%nat) as [Hm|Hm]; [rewrite decide_True by (by apply same_word); done|rewrite decide_False by congruence; done].
    - rewrite list_lookup_insert_ne by done. rewrite decide_False by congruence. done. }
  eexists. split; [done|]. split; [split; simpl|split; [done|exact Hbits]].
  - rewrite length_insert. apply (bo_length _ Hb).
  - apply Forall_insert; [apply (bo_words _ Hb)|by apply Hrange].
  - intros l Hge. rewrite Hbits. rewrite decide_False by lia. by apply (bo_high _ Hb).
Qed.
Lemma SetBit_spec loc bv : bv_ok bv -> (loc < m_length bv)%nat ->
  exists bv', SetBit loc bv = Ok bv' /\ bv_ok bv' /\ m_length bv' = m_length bv /\ forall l, bit bv' l = if decide (l = loc) then true else bit bv l.
Proof.
  intros Hb Hl. pose proof (word_bit_range loc). apply update_word_spec; [done|done| |].
  - intros w Hw. apply word_range; [|apply Z.lor_nonneg; lia]. intros k Hk. by rewrite Z.lor_spec, !testbit_small.
  - intros w k Hw Hk. rewrite Z.lor_spec, testbit_word_bit by done. case_bool_decide; case_decide; try done; [apply orb_true_r|apply orb_false_r].
Qed.
Lemma ClearBit_spec loc bv : bv_ok bv -> (loc < m_length bv)%nat ->
  exists bv', ClearBit loc bv = Ok bv' /\ bv_ok bv' /\ m_length bv' = m_length bv /\ forall l, bit bv' l = if decide (l = loc) then false else bit bv l.
Proof.
  intros Hb Hl. pose proof (word_bit_range loc). apply update_word_spec; [done|done| |].
  - intros w Hw. apply word_range; [|apply Z.land_nonneg; left; lia]. intros k Hk. by rewrite Z.land_spec, testbit_small.
  - intros w k Hw Hk. rewrite Z.land_spec, Z.lxor_spec, testbit_word_bit, word_ones_spec by done. rewrite Z.ones_spec_low by lia.
    case_bool_decide; case_decide; try done; [apply andb_false_r|apply andb_true_r].
Qed.
Lemma IsSet_spec loc bv : bv_ok bv -> (loc < m_length bv)%nat -> IsSet loc bv = Ok (bit bv loc).
Proof.
  intros Hb Hl. unfold IsSet, bit. apply Nat.ltb_lt in Hl as Hl'. rewrite Hl'. cbn [negb].
  assert (Hi : (loc / 64 < length (m_data bv))%nat) by (rewrite (bo_length _ Hb); by apply alloc_bound).
  destruct (lookup_lt_is_Some_2 _ _ Hi) as [w Hw]. rewrite Hw. f_equal. pose proof (Nat.mod_upper_bound loc 64 ltac:(done)) as Hm.
  assert (Hand : Z.land w (word_bit loc) = if Z.testbit w (Z.of_nat (loc mod 64)) then word_bit loc else 0).
  { apply Z.bits_inj'. intros n Hn. rewrite Z.land_spec. unfold word_bit. rewrite Z.shiftl_1_l. destruct (decide (n = Z.of_nat (loc mod 64))) as [->|Hne].
    - rewrite Z.pow2_bits_true by lia. destruct (Z.testbit w _); [by rewrite Z.pow2_bits_true by lia|by rewrite Z.bits_0].
    - rewrite Z.pow2_bits_false by done. rewrite andb_false_r. destruct (Z.testbit w _); [by rewrite Z.pow2_bits_false|by rewrite Z.bits_0]. }
  rewrite Hand. destruct (Z.testbit w _); [|done]. unfold word_bit. rewrite Z.shiftl_1_l. destruct (Z.eqb_spec (2 ^ Z.of_nat (loc mod 64)) 0); lia.
Qed.
Lemma Copy_spec other bv : m_length other = m_length bv -> CopyFromEqualLengthBitVector other bv = Ok other.
Proof. intros H. unfold CopyFromEqualLengthBitVector. rewrite H, Nat.eqb_refl. rewrite <- H. by destruct other. Qed.

(** A boolean operation on all words. *)
Lemma zip_words_ok f g a b : bv_ok a -> bv_ok b -> m_length a = m_length b -> g false false = false ->
  (forall w w' n, Z.testbit (f w w') n = g (Z.testbit w n) (Z.testbit w' n)) -> (forall w w', 0 <= w -> 0 <= w' -> 0 <= f w w') ->
  bv_ok (zip_words f a b) /\ forall loc, bit (zip_words f a b) loc = g (bit a loc) (bit b loc).
Proof.
  intros Ha Hb Hl Hg Hf Hpos. assert (Hlen : length (m_data a) = length (m_data b)) by (rewrite (bo_length _ Ha), (bo_length _ Hb); by rewrite Hl).
  assert (Hbits : forall loc, bit (zip_words f a b) loc = g (bit a loc) (bit b loc)).
  { intros loc. unfold bit, zip_words. simpl. rewrite lookup_zip_with. destruct (m_data a !! (loc / 64)%nat) as [w|] eqn:Ea; simpl.
    - destruct (lookup_lt_is_Some_2 (m_data b) (loc / 64)) as [w' Eb]; [rewrite <- Hlen; by eapply lookup_lt_Some|]. rewrite Eb. simpl. apply Hf.
    - destruct (m_data b !! (loc / 64)%nat) eqn:Eb; [|by rewrite Hg]. apply lookup_ge_None in Ea. apply lookup_lt_Some in Eb. lia. }
  split; [|exact Hbits]. split; simpl.
  - rewrite length_zip_with, <- Hlen, Nat.min_id. apply (bo_length _ Ha).
  - apply Forall_lookup. intros i w. rewrite lookup_zip_with. intros (x & Hx & (y & Hy & [= <-])%bind_Some)%bind_Some. apply word_range.
    + intros k Hk. rewrite Hf. pose proof (Forall_lookup_1 _ _ _ _ (bo_words _ Ha) Hx). pose proof (Forall_lookup_1 _ _ _ _ (bo_words _ Hb) Hy).
      by rewrite !testbit_small.
    + apply Hpos; [apply (Forall_lookup_1 _ _ _ _ (bo_words _ Ha) Hx)|apply (Forall_lookup_1 _ _ _ _ (bo_words _ Hb) Hy)].
  - intros loc Hloc. rewrite Hbits, (bo_high _ Ha), (bo_high _ Hb); [done|by rewrite <- Hl|done].
Qed.

Lemma lor_ok a b : bv_ok a -> bv_ok b -> m_length a = m_length b -> bv_ok (zip_words Z.lor a b) /\ forall loc, bit (zip_words Z.lor a b) loc = bit a loc || bit b loc.
Proof. intros. apply (zip_words_ok _ orb); try done; [intros; apply Z.lor_spec|intros; by apply Z.lor_nonneg]. Qed.
Lemma land_ok a b : bv_ok a -> bv_ok b -> m_length a = m_length b -> bv_ok (zip_words Z.land a b) /\ forall loc, bit (zip_words Z.land a b) loc = bit a loc && bit b loc.
Proof. intros. apply (zip_words_ok _ andb); try done; [intros; apply Z.land_spec|intros; apply Z.land_nonneg; left; assumption]. Qed.

(** ** Vectors as sets of bits *)
Record bv_of (len : nat) (bv : BitVector) : Prop := { bf_ok : bv_ok bv; bf_length : m_length bv = len }.
Definition bits_le (a b : BitVector) : Prop := forall l, bit a l = true -> bit b l = true.
Definition set_bits (len : nat) (bv : BitVector) : list nat := filter (fun l => bit bv l = true) (seq 0 len).
(** How many bits are missing. *)
Definition unset (len : nat) (bv : BitVector) : nat := (len - length (set_bits len bv))%nat.

Lemma bv_of_Reset len : bv_of len (Reset len).
Proof. split; [apply Reset_ok|done]. Qed.
Lemma bv_of_lor len a b : bv_of len a -> bv_of len b -> bv_of len (zip_words Z.lor a b) /\ forall l, bit (zip_words Z.lor a b) l = bit a l || bit b l.
Proof. intros [Ha La] [Hb Lb]. destruct (lor_ok a b Ha Hb ltac:(congruence)) as [H1 H2]. split; [by split|exact H2]. Qed.
Lemma bv_of_land len a b : bv_of len a -> bv_of len b -> bv_of len (zip_words Z.land a b) /\ forall l, bit (zip_words Z.land a b) l = bit a l && bit b l.
Proof. intros [Ha La] [Hb Lb]. destruct (land_ok a b Ha Hb ltac:(congruence)) as [H1 H2]. split; [by split|exact H2]. Qed.
Lemma bit_lt len bv l : bv_of len bv -> bit bv l = true -> (l < len)%nat.
Proof. intros [Ho Hl] Hb. destruct (decide (l < len)%nat) as [|Hge]; [done|]. rewrite (bo_high _ Ho) in Hb by lia. done. Qed.
Lemma words_same len a b : bv_of len a -> bv_of len b -> (forall l, (l < len)%nat -> bit a l = bit b l) -> a = b.
Proof. intros [Ha La] [Hb Lb] H. apply bv_ext; [done|done|congruence|]. intros l Hl. apply H. lia. Qed.
Lemma words_differ_false len a b : bv_of len a -> bv_of len b -> words_differ a b = false -> a = b.
Proof.
  intros [_ La] [_ Lb]. unfold words_differ. rewrite negb_false_iff, bool_decide_eq_true. intros H. destruct a, b. simpl in *. congruence.
Qed.
Lemma words_differ_refl a : words_differ a a = false.
Proof. unfold words_differ. by rewrite bool_decide_true. Qed.
(** Two vectors of which one has more bits: it has a new one. *)
Lemma words_differ_new len a b : bv_of len a -> bv_of len b -> bits_le b a -> words_differ a b = true -> exists l, (l < len)%nat /\ bit a l = true /\ bit b l = false.
Proof.
  intros Ha Hb Hle Hd. destruct (decide (Exists (fun l => bit a l = true /\ bit b l = false) (seq 0 len))) as [He|Hne].
  - apply Exists_exists in He as (l & Hl%elem_of_seq & H). exists l. split; [lia|done].
  - exfalso. rewrite (words_same len a b Ha Hb) in Hd; [by rewrite words_differ_refl in Hd|]. intros l Hl.
    destruct (bit a l) eqn:Ea, (bit b l) eqn:Eb; try done; [|by rewrite (Hle l Eb) in Ea].
    exfalso. apply Hne, Exists_exists. exists l. split; [apply elem_of_seq; lia|done].
Qed.
(** A word of a subset. *)
Lemma land_subset a b i w w' : bv_ok a -> bv_ok b -> bits_le b a -> m_data a !! i = Some w -> m_data b !! i = Some w' -> Z.land w w' = w'.
Proof.
  intros Ha Hb Hle Hw Hw'. pose proof (Forall_lookup_1 _ _ _ _ (bo_words _ Ha) Hw) as Hr. pose proof (Forall_lookup_1 _ _ _ _ (bo_words _ Hb) Hw') as Hr'. cbv beta in Hr, Hr'.
  apply word_ext; [|done|].
  - apply word_range; [|apply Z.land_nonneg; lia]. intros k Hk. rewrite Z.land_spec, (testbit_small w') by done. apply andb_false_r.
  - intros k Hk. rewrite Z.land_spec. specialize (Hle (i * 64 + k)%nat). unfold bit in Hle. destruct (bit_eq_loc i k Hk) as [H1 H2]. rewrite H1, H2, Hw, Hw' in Hle.
    destruct (Z.testbit w' (Z.of_nat k)); [by rewrite Hle|apply andb_false_r].
Qed.
Lemma unset_le len bv : (unset len bv <= len)%nat.
Proof. unfold unset. lia. Qed.
Lemma filter_length_le {A} (P Q : A -> Prop) `{Hp : forall x, Decision (P x)} `{Hq : forall x, Decision (Q x)} (l : list A) :
  (forall x, P x -> Q x) -> (length (filter P l) <= length (filter Q l))%nat.
Proof.
  intros HPQ. induction l as [|x l IH]; [done|]. rewrite !filter_cons. destruct (decide (P x)), (decide (Q x)); simpl; try lia. exfalso. eauto.
Qed.
Lemma filter_length_lt {A} (P Q : A -> Prop) `{Hp : forall x, Decision (P x)} `{Hq : forall x, Decision (Q x)} (l : list A) y :
  (forall x, P x -> Q x) -> y ∈ l -> Q y -> ~ P y -> (length (filter P l) < length (filter Q l))%nat.
Proof.
  intros HPQ Hy HQ HP. induction Hy as [x l|y x l Hy IH].
  - rewrite filter_cons_False, filter_cons_True by done. simpl. pose proof (filter_length_le P Q l HPQ). lia.
  - specialize (IH HQ HP). rewrite !filter_cons. destruct (decide (P x)), (decide (Q x)); simpl; try lia. exfalso. eauto.
Qed.
Lemma unset_mono len a b : bits_le b a -> (unset len a <= unset len b)%nat.
Proof. intros H. unfold unset, set_bits. pose proof (filter_length_le (fun l => bit b l = true) (fun l => bit a l = true) (seq 0 len) H). lia. Qed.
Lemma unset_new len a b l : bits_le b a -> (l < len)%nat -> bit a l = true -> bit b l = false -> (unset len a < unset len b)%nat.
Proof.
  intros H Hl Ha Hb. unfold unset, set_bits.
  pose proof (filter_length_lt (fun l => bit b l = true) (fun l => bit a l = true) (seq 0 len) l H ltac:(apply elem_of_seq; lia) Ha ltac:(congruence)).
  pose proof (length_filter (fun l => bit a l = true) (seq 0 len)) as Hle. rewrite length_seq in Hle. lia.
Qed.
