(* ===== verification/ControlFlow.v ===== *)
(** * Basic blocks and captured locals

    [drt/dfg_control_flow_and_upvalue_analysis.cpp]: the basic blocks of a function, found
    from its entry, and for each block the locals that are captured by a closure at its
    head and its tail.  What the generated decoder says of a bytecode is a record of
    functions on offsets; a pointer to a block is its number in [m_bbInNaturalOrder]. *)
From S2P Require Import Prelude Compiler BitVec.
From stdpp Require Import list sorting.
#[local] Set Default Proof Using "Type".

(** ** What a bytecode reads and writes: [drt/bytecode_rwc_info.h] *)
Inductive RWCType : Type := LocalBV | LocalAny | ConstantBV | ConstantAny | RangeBV | RangeAny | VArgs | VRets.
Record BytecodeRWCDesc : Type := mk_rwc { m_type : RWCType; m_i1 : nat; m_i2 : Z }.
#[export] Instance RWCType_eq_dec : EqDecision RWCType.
Proof. solve_decision. Defined.
#[export] Instance BytecodeRWCDesc_eq_dec : EqDecision BytecodeRWCDesc.
Proof. solve_decision. Defined.
Definition IsLocal (d : BytecodeRWCDesc) : bool := match m_type d with LocalBV | LocalAny => true | _ => false end.
Definition IsConstant (d : BytecodeRWCDesc) : bool := match m_type d with ConstantBV | ConstantAny => true | _ => false end.
Definition IsRange (d : BytecodeRWCDesc) : bool := match m_type d with RangeBV | RangeAny => true | _ => false end.

(** [UpvalueClose] gives its first local, [CreateClosure] the upvalues of its prototype. *)
Inductive Intrinsic : Type := CreateClosure (upvalues : list UpvalueMetadata) | UpvalueClose (start : nat) | NoIntrinsic.
Record Decoder : Type := mk_decoder {
  GetCurLength : nat;
  GetNextBytecodePosition : nat -> nat;
  IsBytecodeBarrier : nat -> bool;
  BytecodeHasBranchOperand : nat -> bool;
  GetBranchTarget : nat -> nat;
  GetIntrinsic : nat -> Intrinsic;
  GetDataFlowReadInfo : nat -> list BytecodeRWCDesc;
  GetDataFlowWriteInfo : nat -> list BytecodeRWCDesc
}.
(** The frame, and the offsets of the bytecodes in [m_sbIndex] of the baseline code. *)
Record CodeBlock : Type := mk_code { m_stackFrameNumSlots : nat; m_sbIndex : list nat }.

(** [BaselineCodeBlock::GetBytecodeIndexFromBytecodePtr] *)
Fixpoint index_search (fuel : nat) (sbIndex : list nat) (target left right : nat) : result nat :=
  match fuel with
  | O => Err OutOfFuel
  | S fuel' =>
      if left <? right then
        let mid := (left + right) / 2 in
        match sbIndex !! mid with
        | None => Err (UndefinedBehaviour "m_sbIndex[mid]")
        | Some value =>
            if target =? value then Ok mid
            else if target <? value then
              if 0 <? mid then index_search fuel' sbIndex target left (mid - 1) else Err (AssertFailed "mid > 0")
            else index_search fuel' sbIndex target (mid + 1) right
        end
      else if negb (left =? right) then Err (AssertFailed "left == right")
      else if bool_decide (sbIndex !! left = Some target) then Ok left else Err (AssertFailed "m_sbIndex[left].m_bytecodePtr32 == bytecodePtr32")
  end.
Definition GetBytecodeIndexFromBytecodePtr (code : CodeBlock) (target : nat) : result nat :=
  if 0 <? length (m_sbIndex code) then index_search (S (length (m_sbIndex code))) (m_sbIndex code) target 0 (length (m_sbIndex code) - 1)
  else Err (AssertFailed "m_numBytecodes > 0").

Record BasicBlockUpvalueInfo : Type := mk_bb {
  m_bytecodeOffset : nat;
  m_bytecodeIndex : nat;
  m_terminalNodeBcOffset : nat;
  m_numBytecodesInBB : nat;
  m_isTerminalInstImplicitTrivialBranch : bool;
  m_successors : list nat;
  m_isLocalCapturedAtHead : BitVector;
  m_isLocalCapturedAtTail : BitVector;
  m_isLocalCapturedInBB : BitVector
}.

Section analysis.
Context (dec : Decoder) (code : CodeBlock).

(** ** The blocks *)
(** The offsets where a block starts, and the end. *)
Fixpoint scan_starts (fuel bcPos : nat) : result (list nat) :=
  match fuel with
  | O => Err OutOfFuel
  | S fuel' =>
      if bcPos <? GetCurLength dec then
        let nextBcPos := GetNextBytecodePosition dec bcPos in
        let mayBranch := BytecodeHasBranchOperand dec bcPos in
        rest ← scan_starts fuel' nextBcPos;
        Ok ((if IsBytecodeBarrier dec bcPos || mayBranch then [nextBcPos] else []) ++ (if mayBranch then [GetBranchTarget dec bcPos] else []) ++ rest)
      else if bcPos =? GetCurLength dec then Ok [] else Err (AssertFailed "bcPos == bcPosEnd")
  end.
(** [std::unique] *)
Fixpoint unique (l : list nat) : list nat :=
  match l with a :: (b :: _) as l' => if a =? b then unique l' else a :: unique l' | _ => l end.
Definition bb_starts : result (list nat) :=
  offsets ← scan_starts (S (GetCurLength dec)) 0;
  let starts := unique (merge_sort le (0 :: offsets)) in
  if negb (1 <? length starts) then Err (AssertFailed "m_bbStartOffsets.size() > 1")
  else if negb (bool_decide (head starts = Some 0) && bool_decide (last starts = Some (GetCurLength dec)))
  then Err (AssertFailed "m_bbStartOffsets[0] == 0 && m_bbStartOffsets.back() == m_decoder.GetCurLength()")
  else Ok starts.

(** The last bytecode of a block. *)
Fixpoint find_terminal (fuel bcPos bcPosEnd : nat) : result nat :=
  match fuel with
  | O => Err OutOfFuel
  | S fuel' =>
      let nextBcPos := GetNextBytecodePosition dec bcPos in
      if negb (nextBcPos <=? bcPosEnd) then Err (AssertFailed "nextBcPos <= bcPosEnd")
      else if nextBcPos =? bcPosEnd then Ok bcPos
      else if IsBytecodeBarrier dec bcPos || BytecodeHasBranchOperand dec bcPos then Err (AssertFailed "!m_decoder.IsBytecodeBarrier(bcPos)")
      else find_terminal fuel' nextBcPos bcPosEnd
  end.

Record Blocks : Type := mk_blocks {
  m_bbForStartOffsets : list (option nat);
  m_bbInNaturalOrder : list BasicBlockUpvalueInfo
}.
Notation P := (Prelude.M Blocks).

(** [m_bytecodeIndex] and [m_numBytecodesInBB] are set at the end of the pass; 0 stands for
    what they hold before. *)
Definition new_bb (bcPos terminal : nat) : BasicBlockUpvalueInfo :=
  let empty := Reset (m_stackFrameNumSlots code) in
  mk_bb bcPos 0 terminal 0 (negb (BytecodeHasBranchOperand dec terminal) && negb (IsBytecodeBarrier dec terminal)) [] empty empty empty.
Definition set_successors (succs : list nat) (bb : BasicBlockUpvalueInfo) : BasicBlockUpvalueInfo :=
  mk_bb (m_bytecodeOffset bb) (m_bytecodeIndex bb) (m_terminalNodeBcOffset bb) (m_numBytecodesInBB bb)
    (m_isTerminalInstImplicitTrivialBranch bb) succs (m_isLocalCapturedAtHead bb) (m_isLocalCapturedAtTail bb) (m_isLocalCapturedInBB bb).
Definition push_bb (bbIdx : nat) (bb : BasicBlockUpvalueInfo) : P nat := fun s =>
  let ord := length (m_bbInNaturalOrder s) in
  Ok (ord, mk_blocks (<[bbIdx := Some ord]> (m_bbForStartOffsets s)) (m_bbInNaturalOrder s ++ [bb])).
Definition update_bb (ord : nat) (f : BasicBlockUpvalueInfo -> BasicBlockUpvalueInfo) : P unit :=
  modify (fun s => mk_blocks (m_bbForStartOffsets s) (alter f ord (m_bbInNaturalOrder s))).

(** [std::lower_bound] *)
Definition lower_bound (starts : list nat) (bcPos : nat) : nat :=
  match list_find (fun s => bcPos <= s) starts with Some (i, _) => i | None => length starts end.

Fixpoint TraverseAndGenerateBytecodeOffsetToBBMap (fuel : nat) (starts : list nat) (bcPos : nat) : P nat :=
  match fuel with
  | O => fail OutOfFuel
  | S fuel' =>
      check (bcPos <? GetCurLength dec) (AssertFailed "bcPos < m_decoder.GetCurLength()") ;;
      let bbIdx := lower_bound starts bcPos in
      check (bbIdx + 1 <? length starts) (AssertFailed "bbIdxTmp + 1 < m_bbStartOffsets.size()") ;;
      check (bool_decide (starts !! bbIdx = Some bcPos)) (AssertFailed "m_bbStartOffsets[bbIdx] == bcPos") ;;
      s ← get_st;
      match m_bbForStartOffsets s !! bbIdx with
      | Some (Some ord) => mret ord
      | _ =>
          let bcPosEnd := default 0 (starts !! (bbIdx + 1)) in
          terminal ← lift_result (find_terminal (S (GetCurLength dec)) bcPos bcPosEnd);
          ord ← push_bb bbIdx (new_bb bcPos terminal);
          fall ← (if negb (IsBytecodeBarrier dec terminal) then succ ← TraverseAndGenerateBytecodeOffsetToBBMap fuel' starts bcPosEnd; mret [succ] else mret []);
          jump ← (if BytecodeHasBranchOperand dec terminal
                  then succ ← TraverseAndGenerateBytecodeOffsetToBBMap fuel' starts (GetBranchTarget dec terminal); mret [succ] else mret []);
          update_bb ord (set_successors (fall ++ jump)) ;;
          mret ord
      end
  end.

(** The ranges of the blocks do not overlap. *)
Fixpoint ranges_ok (ranges : list (nat * nat)) : bool :=
  match ranges with a :: (b :: _) as ranges' => (a.2 <=? b.1) && ranges_ok ranges' | _ => true end.
Definition range_le (a b : nat * nat) : Prop := a.1 < b.1 \/ (a.1 = b.1 /\ a.2 <= b.2).
#[local] Instance range_le_dec : RelDecision range_le.
Proof. intros a b. unfold range_le. apply _. Defined.
Definition check_ranges (bbs : list BasicBlockUpvalueInfo) : bool :=
  let ranges := (fun bb => (m_bytecodeOffset bb, GetNextBytecodePosition dec (m_terminalNodeBcOffset bb))) <$> bbs in
  forallb (fun r => (r.1 <? r.2) && (r.2 <=? GetCurLength dec)) ranges && bool_decide (fst <$> head (merge_sort range_le ranges) = Some 0) &&
  ranges_ok (merge_sort range_le ranges).
Definition GenerateBytecodeOffsetToBBMap : result (list BasicBlockUpvalueInfo) :=
  starts ← bb_starts;
  '(entry, s) ← TraverseAndGenerateBytecodeOffsetToBBMap (S (length starts)) starts 0 (mk_blocks (replicate (length starts - 1) None) []);
  if negb (entry =? 0) then Err (AssertFailed "entryBlock == GetEntryBB()")
  else if check_ranges (m_bbInNaturalOrder s) then Ok (m_bbInNaturalOrder s) else Err (AssertFailed "allRanges[i].second <= allRanges[i + 1].first").

(** ** The captured locals *)
Definition no_limit : Z := 18446744073709551615.
(** [ucloseLimit]: at the end of the block all locals from here are closed. *)
Definition uclose_limit (bb : BasicBlockUpvalueInfo) : Z :=
  match GetIntrinsic dec (m_terminalNodeBcOffset bb) with UpvalueClose start => Z.of_nat start | _ => no_limit end.

(** The locals a closure captures, and whether there is one. *)
Fixpoint capture_upvalues (uvs : list UpvalueMetadata) (bv : BitVector) (hasCapture : bool) : result (BitVector * bool) :=
  match uvs with
  | [] => Ok (bv, hasCapture)
  | uvmt :: uvs' =>
      if negb (uv_isImmutable uvmt) && uv_isParentLocal uvmt then
        if negb (uv_slot uvmt <? m_stackFrameNumSlots code) then Err (AssertFailed "uvmt.m_slot < m_codeBlock->m_stackFrameNumSlots")
        else bv ← SetBit (uv_slot uvmt) bv; capture_upvalues uvs' bv true
      else capture_upvalues uvs' bv hasCapture
  end.
(** The closures of a block, up to its last bytecode. *)
Fixpoint capture_loop (fuel cur end_ : nat) (bv : BitVector) (hasCapture : bool) : result (BitVector * bool) :=
  match fuel with
  | O => Err OutOfFuel
  | S fuel' =>
      if cur <? end_ then
        '(bv, hasCapture) ← (match GetIntrinsic dec cur with CreateClosure uvs => capture_upvalues uvs bv hasCapture | _ => Ok (bv, hasCapture) end);
        capture_loop fuel' (GetNextBytecodePosition dec cur) end_ bv hasCapture
      else if cur =? end_ then Ok (bv, hasCapture) else Err (AssertFailed "cur == end")
  end.

Record Work : Type := mk_work { w_bbs : list BasicBlockUpvalueInfo; w_queue : list nat; w_inQueue : list bool }.
Notation W := (Prelude.M Work).
Definition set_captures (head tail inBB : BitVector) (bb : BasicBlockUpvalueInfo) : BasicBlockUpvalueInfo :=
  mk_bb (m_bytecodeOffset bb) (m_bytecodeIndex bb) (m_terminalNodeBcOffset bb) (m_numBytecodesInBB bb)
    (m_isTerminalInstImplicitTrivialBranch bb) (m_successors bb) head tail inBB.
Definition get_bb (ord : nat) : W BasicBlockUpvalueInfo := fun s =>
  match w_bbs s !! ord with Some bb => Ok (bb, s) | None => Err (UndefinedBehaviour "no such block") end.
Definition set_bb (ord : nat) (bb : BasicBlockUpvalueInfo) : W unit := modify (fun s => mk_work (<[ord := bb]> (w_bbs s)) (w_queue s) (w_inQueue s)).
Definition pushQueue (value : nat) : W unit :=
  s ← get_st;
  match w_inQueue s !! value with
  | None => fail (AssertFailed "value < n")
  | Some true => mret tt
  | Some false => put_st (mk_work (w_bbs s) (w_queue s ++ [value]) (<[value := true]> (w_inQueue s)))
  end.
Definition popQueue : W nat :=
  s ← get_st;
  match w_queue s with
  | [] => fail (AssertFailed "!q.empty()")
  | res :: q =>
      check (bool_decide (w_inQueue s !! res = Some true)) (AssertFailed "isInQueue[res]") ;;
      put_st (mk_work (w_bbs s) q (<[res := false]> (w_inQueue s))) ;; mret res
  end.
Fixpoint init_captures (ords : list nat) : W unit :=
  match ords with
  | [] => mret tt
  | ord :: ords' =>
      bb ← get_bb ord;
      '(inBB, hasCapture) ← lift_result (capture_loop (S (GetCurLength dec)) (m_bytecodeOffset bb) (m_terminalNodeBcOffset bb) (m_isLocalCapturedInBB bb) false);
      set_bb ord (set_captures (m_isLocalCapturedAtHead bb) (m_isLocalCapturedAtTail bb) inBB bb) ;;
      when hasCapture (pushQueue ord) ;;
      init_captures ords'
  end.

(** A word of the tail: the bits from the limit on are cleared. *)
Definition limit_word (uclimit : Z) (i : nat) (w : Z) : Z :=
  (if uclimit <=? Z.of_nat i * 64 then 0
   else if uclimit <? Z.of_nat i * 64 + 64 then Z.land w (Z.shiftl 1 (64 - (Z.of_nat i * 64 + 64 - uclimit)) - 1)
   else w)%Z.
Definition tail_of (bb : BasicBlockUpvalueInfo) : BitVector :=
  let w := zip_words Z.lor (m_isLocalCapturedAtHead bb) (m_isLocalCapturedInBB bb) in
  mk_bv (imap (limit_word (uclose_limit bb)) (m_data w)) (m_length w).
(** The words are changed one by one, and only get more bits. *)
Definition words_grow (new old : BitVector) : bool :=
  forallb (fun p => (p.1 =? p.2)%Z || (Z.land p.1 p.2 =? p.2)%Z) (zip (m_data new) (m_data old)).

Fixpoint propagate (tail : BitVector) (succs : list nat) : W unit :=
  match succs with
  | [] => mret tt
  | ord :: succs' =>
      succ ← get_bb ord;
      let head := zip_words Z.lor (m_isLocalCapturedAtHead succ) tail in
      when (words_differ head (m_isLocalCapturedAtHead succ))
        (set_bb ord (set_captures head (m_isLocalCapturedAtTail succ) (m_isLocalCapturedInBB succ) succ) ;; pushQueue ord) ;;
      propagate tail succs'
  end.
Definition process_bb (ord : nat) : W unit :=
  bb ← get_bb ord;
  let tail := tail_of bb in
  check (words_grow tail (m_isLocalCapturedAtTail bb)) (AssertFailed "(newValue & atTail.m_data[i]) == atTail.m_data[i]") ;;
  when (words_differ tail (m_isLocalCapturedAtTail bb))
    (set_bb ord (set_captures (m_isLocalCapturedAtHead bb) tail (m_isLocalCapturedInBB bb) bb) ;; propagate tail (m_successors bb)).
Fixpoint capture_fixpoint (fuel : nat) : W unit :=
  match fuel with
  | O => fail OutOfFuel
  | S fuel' =>
      s ← get_st;
      match w_queue s with [] => mret tt | _ => ord ← popQueue; process_bb ord ;; capture_fixpoint fuel' end
  end.

(** The checks of the test build. *)
Definition locals : list nat := seq 0 (m_stackFrameNumSlots code).
Definition at_fixpoint (bbs : list BasicBlockUpvalueInfo) : bool :=
  forallb (fun ob => let '(ord, bb) := (ob : nat * BasicBlockUpvalueInfo) in
    forallb (fun l => if (Z.of_nat l <? uclose_limit bb)%Z
                      then eqb (bit (m_isLocalCapturedAtHead bb) l || bit (m_isLocalCapturedInBB bb) l) (bit (m_isLocalCapturedAtTail bb) l)
                      else negb (bit (m_isLocalCapturedAtTail bb) l)) locals &&
    forallb (fun o => match bbs !! o with
      | Some succ => forallb (fun l => implb (bit (m_isLocalCapturedAtTail bb) l) (bit (m_isLocalCapturedAtHead succ) l)) locals
      | None => false end) (m_successors bb) &&
    forallb (fun l => implb (bit (m_isLocalCapturedAtHead bb) l)
      (existsb (fun pred => bool_decide (ord ∈ m_successors pred) && bit (m_isLocalCapturedAtTail pred) l) bbs)) locals)
    (imap pair bbs).
Definition all_closed (bbs : list BasicBlockUpvalueInfo) : bool :=
  forallb (fun bb => negb (bool_decide (m_successors bb = [])) || forallb (fun l => negb (bit (m_isLocalCapturedAtTail bb) l)) locals) bbs.

Definition set_index (bb : BasicBlockUpvalueInfo) : result BasicBlockUpvalueInfo :=
  index ← GetBytecodeIndexFromBytecodePtr code (m_bytecodeOffset bb);
  terminal ← GetBytecodeIndexFromBytecodePtr code (m_terminalNodeBcOffset bb);
  if negb (index <=? terminal) then Err (AssertFailed "terminalBytecodeIndex >= bb->m_bytecodeIndex")
  else Ok (mk_bb (m_bytecodeOffset bb) index (m_terminalNodeBcOffset bb) (terminal - index + 1) (m_isTerminalInstImplicitTrivialBranch bb)
             (m_successors bb) (m_isLocalCapturedAtHead bb) (m_isLocalCapturedAtTail bb) (m_isLocalCapturedInBB bb)).
Fixpoint set_indices (bbs : list BasicBlockUpvalueInfo) : result (list BasicBlockUpvalueInfo) :=
  match bbs with [] => Ok [] | bb :: bbs' => bb ← set_index bb; bbs' ← set_indices bbs'; Ok (bb :: bbs') end.

Definition AnalyzeLocalCaptures (bbs : list BasicBlockUpvalueInfo) : result (list BasicBlockUpvalueInfo) :=
  let n := length bbs in
  '(_, s) ← (init_captures (seq 0 n) ;; capture_fixpoint (S (n + n * m_stackFrameNumSlots code))) (mk_work bbs [] (replicate n false));
  if negb (forallb negb (w_inQueue s)) then Err (AssertFailed "!isInQueue[i]")
  else if negb (at_fixpoint (w_bbs s)) then Err (AssertFailed "isCapturedAtHead || isCapturedInBB <=> isCapturedAtTail")
  else if negb (all_closed (w_bbs s)) then Err (AssertFailed "A basic block with no successors must have closed all upvalues at end!")
  else set_indices (w_bbs s).

(** [PassImpl::Run] *)
Definition RunControlFlowAndUpvalueAnalysis : result (list BasicBlockUpvalueInfo) :=
  bbs ← GenerateBytecodeOffsetToBBMap;
  AnalyzeLocalCaptures bbs.
End analysis.
