(* ===== verification/Blocks.v ===== *)
(** * The basic blocks of a function

    [TraverseAndGenerateBytecodeOffsetToBBMap] on code that is well formed returns, and its
    blocks are the reachable code: each is a run of bytecodes without a branch, no two
    overlap, and the successors of a block are the blocks of the successors of its last
    bytecode. *)
From S2P Require Import Prelude Compiler BitVec ControlFlow.
From stdpp Require Import list sorting.
#[local] Set Default Proof Using "Type".

(** ** Well-formed code *)
(** Where control goes after a bytecode. *)
Definition targets (dec : Decoder) (off : nat) : list nat :=
  (if IsBytecodeBarrier dec off then [] else [GetNextBytecodePosition dec off]) ++
  (if BytecodeHasBranchOperand dec off then [GetBranchTarget dec off] else []).
Lemma targets_eq dec off : targets dec off = (if negb (IsBytecodeBarrier dec off) then [GetNextBytecodePosition dec off] else []) ++ (if BytecodeHasBranchOperand dec off then [GetBranchTarget dec off] else []).
Proof. unfold targets. by destruct (IsBytecodeBarrier dec off). Qed.
Definition terminal_at (dec : Decoder) (off : nat) : bool := IsBytecodeBarrier dec off || BytecodeHasBranchOperand dec off.
(** The offset of a bytecode, or the end. *)
Definition off_at (dec : Decoder) (code : CodeBlock) (i : nat) : nat := default (GetCurLength dec) (m_sbIndex code !! i).

Record code_ok (dec : Decoder) (code : CodeBlock) : Prop := {
  co_first : m_sbIndex code !! 0 = Some 0;
  co_next : forall i, i < length (m_sbIndex code) ->
    off_at dec code i < off_at dec code (S i) /\ GetNextBytecodePosition dec (off_at dec code i) = off_at dec code (S i);
  co_last : forall off, last (m_sbIndex code) = Some off -> IsBytecodeBarrier dec off = true;
  co_target : forall off, off ∈ m_sbIndex code -> BytecodeHasBranchOperand dec off = true -> GetBranchTarget dec off ∈ m_sbIndex code
}.

Definition flow (dec : Decoder) (code : CodeBlock) (off off' : nat) : Prop := off ∈ m_sbIndex code /\ off' ∈ targets dec off.
Definition reachable (dec : Decoder) (code : CodeBlock) : nat -> Prop := rtc (flow dec code) 0.

(** The bytecodes [a] to [b] of a block. *)
Record block_span (dec : Decoder) (code : CodeBlock) (bb : BasicBlockUpvalueInfo) (a b : nat) : Prop := {
  bs_le : a <= b;
  bs_in : b < length (m_sbIndex code);
  bs_start : m_bytecodeOffset bb = off_at dec code a;
  bs_terminal : m_terminalNodeBcOffset bb = off_at dec code b;
  bs_plain : forall i, a <= i < b -> terminal_at dec (off_at dec code i) = false
}.
Definition starts_at (bbs : list BasicBlockUpvalueInfo) (ord off : nat) : Prop := exists bb, bbs !! ord = Some bb /\ m_bytecodeOffset bb = off.
Definition succs_ok (dec : Decoder) (bbs : list BasicBlockUpvalueInfo) (bb : BasicBlockUpvalueInfo) : Prop :=
  Forall2 (starts_at bbs) (m_successors bb) (targets dec (m_terminalNodeBcOffset bb)).
Record graph_ok (dec : Decoder) (code : CodeBlock) (bbs : list BasicBlockUpvalueInfo) : Prop := {
  go_entry : starts_at bbs 0 0;
  go_span : forall ord bb, bbs !! ord = Some bb -> exists a b, block_span dec code bb a b;
  go_reach : forall ord bb, bbs !! ord = Some bb -> reachable dec code (m_bytecodeOffset bb);
  go_succs : forall ord bb, bbs !! ord = Some bb -> succs_ok dec bbs bb;
  go_end : forall ord bb a b, bbs !! ord = Some bb -> block_span dec code bb a b -> terminal_at dec (off_at dec code b) = true \/
    exists j, j < length (m_sbIndex code) /\ BytecodeHasBranchOperand dec (off_at dec code j) = true /\ GetBranchTarget dec (off_at dec code j) = off_at dec code (S b);
  go_disjoint : forall ord ord' bb bb' a b a' b', bbs !! ord = Some bb -> bbs !! ord' = Some bb' ->
    block_span dec code bb a b -> block_span dec code bb' a' b' -> a <= b' -> a' <= b -> ord = ord'
}.

(** ** Offsets *)
Section code.
Context (dec : Decoder) (code : CodeBlock) (Hcode : code_ok dec code).
Notation n := (length (m_sbIndex code)).
Notation off_at := (off_at dec code).

Lemma code_nonempty : 0 < n.
Proof using Hcode. pose proof (co_first _ _ Hcode) as H. by apply lookup_lt_Some in H. Qed.
Lemma off_at_0 : off_at 0 = 0.
Proof using Hcode. unfold Blocks.off_at. by rewrite (co_first _ _ Hcode). Qed.
Lemma off_at_end : off_at n = GetCurLength dec.
Proof. unfold Blocks.off_at. by rewrite lookup_ge_None_2. Qed.
Lemma off_at_lookup i : i < n -> m_sbIndex code !! i = Some (off_at i).
Proof. intros H. unfold Blocks.off_at. by destruct (lookup_lt_is_Some_2 _ _ H) as [x ->]. Qed.
Lemma elem_off_at off : off ∈ m_sbIndex code <-> exists i, i < n /\ off = off_at i.
Proof.
  rewrite list_elem_of_lookup. split.
  - intros [i H]. exists i. split; [by eapply lookup_lt_Some|]. unfold Blocks.off_at. by rewrite H.
  - intros (i & H & ->). exists i. by apply off_at_lookup.
Qed.
Lemma off_at_in i : i < n -> off_at i ∈ m_sbIndex code.
Proof. intros H. apply elem_off_at. by exists i. Qed.
Lemma off_at_lt i j : i < j -> j <= n -> off_at i < off_at j.
Proof using Hcode.
  induction j as [|j IH]; [lia|]. intros Hij Hj. pose proof (proj1 (co_next _ _ Hcode j ltac:(lia))).
  destruct (decide (i = j)) as [->|]; [done|]. pose proof (IH ltac:(lia) ltac:(lia)). lia.
Qed.
Lemma off_at_le i j : i <= j -> j <= n -> off_at i <= off_at j.
Proof using Hcode. intros H1 H2. destruct (decide (i = j)) as [->|]; [done|]. pose proof (off_at_lt i j). lia. Qed.
Lemma off_at_inj i j : i <= n -> j <= n -> off_at i = off_at j -> i = j.
Proof using Hcode. intros Hi Hj H. destruct (lt_eq_lt_dec i j) as [[?|?]|?]; [|done|]; pose proof (off_at_lt i j); pose proof (off_at_lt j i); lia. Qed.
Lemma off_at_lt_inv i j : i <= n -> j <= n -> off_at i < off_at j -> i < j.
Proof using Hcode. intros Hi Hj H. destruct (decide (i < j)) as [|Hge]; [done|]. pose proof (off_at_le j i ltac:(lia) ltac:(lia)). lia. Qed.
Lemma off_at_grows i : i <= n -> i <= off_at i.
Proof using Hcode. induction i as [|i IH]; [lia|]. intros Hi. pose proof (off_at_lt i (S i) ltac:(lia) ltac:(lia)). pose proof (IH ltac:(lia)). lia. Qed.
Lemma next_off_at i : i < n -> GetNextBytecodePosition dec (off_at i) = off_at (S i).
Proof using Hcode. intros H. by apply (co_next _ _ Hcode). Qed.
Lemma last_barrier : IsBytecodeBarrier dec (off_at (n - 1)) = true.
Proof using Hcode.
  pose proof code_nonempty. apply (co_last _ _ Hcode). rewrite last_lookup. rewrite <- off_at_lookup by lia. f_equal. lia.
Qed.
(** Control stays in the code. *)
Lemma flow_in off off' : flow dec code off off' -> off' ∈ m_sbIndex code.
Proof using Hcode.
  intros [Hoff Ht]. unfold targets in Ht. apply elem_of_app in Ht as [Ht|Ht].
  - destruct (IsBytecodeBarrier dec off) eqn:Eb; [by apply elem_of_nil in Ht|]. apply list_elem_of_singleton in Ht as ->.
    apply elem_off_at in Hoff as (i & Hi & ->). rewrite next_off_at by done. apply elem_off_at. exists (S i). split; [|done].
    destruct (decide (S i = n)) as [He|]; [|lia]. replace i with (n - 1) in Eb by lia. by rewrite last_barrier in Eb.
  - destruct (BytecodeHasBranchOperand dec off) eqn:Eb; [|by apply elem_of_nil in Ht]. apply list_elem_of_singleton in Ht as ->. by apply (co_target _ _ Hcode).
Qed.
Lemma reachable_in off : reachable dec code off -> off ∈ m_sbIndex code.
Proof using Hcode.
  intros H. apply rtc_inv_r in H as [<-|(y & _ & H)]; [|by eapply flow_in].
  apply elem_off_at. exists 0. split; [apply code_nonempty|by rewrite off_at_0].
Qed.
(** A bytecode inside a block goes to the next one. *)
Lemma flow_plain i off : i < n -> terminal_at dec (off_at i) = false -> flow dec code (off_at i) off <-> off = off_at (S i).
Proof using Hcode.
  intros Hi Hp. unfold terminal_at in Hp. apply orb_false_iff in Hp as [H1 H2]. unfold flow, targets. rewrite H1, H2, next_off_at, app_nil_r, list_elem_of_singleton by done.
  split; [by intros [_ ?]|]. intros ->. split; [|done]. apply elem_off_at. by exists i.
Qed.
Lemma span_flow bb a b i : block_span dec code bb a b -> a <= i < b -> flow dec code (off_at i) (off_at (S i)).
Proof using Hcode. intros Hs Hi. apply flow_plain; [pose proof (bs_in _ _ _ _ _ Hs); lia|by apply (bs_plain _ _ _ _ _ Hs)|done]. Qed.

(** ** The starts *)
Lemma scan_starts_ok fuel i : i <= n -> n - i < fuel ->
  exists l, scan_starts dec fuel (off_at i) = Ok l /\
    forall x, x ∈ l <-> exists j, i <= j < n /\ terminal_at dec (off_at j) = true /\ (x = off_at (S j) \/ BytecodeHasBranchOperand dec (off_at j) = true /\ x = GetBranchTarget dec (off_at j)).
Proof using Hcode.
  revert i. induction fuel as [|fuel IH]; intros i Hi Hf; [lia|]. simpl. destruct (decide (i = n)) as [->|Hne].
  - rewrite off_at_end, Nat.ltb_irrefl, Nat.eqb_refl. exists []. split; [done|]. intros x. rewrite elem_of_nil. split; [done|]. intros (j & Hj & _). lia.
  - assert (Hlt : off_at i <? GetCurLength dec = true) by (apply Nat.ltb_lt; rewrite <- off_at_end; apply off_at_lt; lia). rewrite Hlt.
    rewrite next_off_at by lia. destruct (IH (S i) ltac:(lia) ltac:(lia)) as (l & Hl & Hspec). rewrite Hl. cbn [mbind result_bind].
    eexists. split; [done|]. intros x. rewrite !elem_of_app, Hspec. unfold terminal_at. split.
    + intros [H|[H|(j & Hj & H)]].
      * destruct (_ || _) eqn:E; [|by apply elem_of_nil in H]. apply list_elem_of_singleton in H as ->. exists i. split; [lia|]. rewrite E. auto.
      * destruct (BytecodeHasBranchOperand dec (off_at i)) eqn:E; [|by apply elem_of_nil in H]. apply list_elem_of_singleton in H as ->.
        exists i. split; [lia|]. rewrite E, orb_true_r. auto.
      * exists j. split; [lia|]. done.
    + intros (j & Hj & Ht & Hx). destruct (decide (j = i)) as [->|]; [|right; right; exists j; split; [lia|done]].
      rewrite Ht. destruct Hx as [->|[Hb ->]]; [left; by apply list_elem_of_singleton|right; left; rewrite Hb; by apply list_elem_of_singleton].
Qed.
End code.

Lemma unique_spec l : StronglySorted le l -> StronglySorted lt (unique l) /\ forall x, x ∈ unique l <-> x ∈ l.
Proof.
  induction l as [|a l IH]; intros Hs; [split; [constructor|done]|]. apply StronglySorted_inv in Hs as [Hs Hall]. destruct (IH Hs) as [IH1 IH2].
  destruct l as [|b l]; [split; [by repeat constructor|done]|]. cbn [unique]. destruct (Nat.eqb_spec a b) as [->|Hne].
  - split; [done|]. intros x. rewrite IH2, !elem_of_cons. naive_solver.
  - split; [|intros x; rewrite elem_of_cons, IH2, (elem_of_cons _ x a); done]. constructor; [done|]. apply Forall_forall. intros x Hx. apply IH2 in Hx.
    rewrite Forall_forall in Hall. pose proof (Hall b ltac:(left)) as Hab. apply elem_of_cons in Hx as [->|Hx]; [lia|].
    apply StronglySorted_inv in Hs as [_ Hb]. rewrite Forall_forall in Hb. pose proof (Hb x Hx). lia.
Qed.

Lemma ascending_lookup {A} (R : A -> A -> Prop) (l : list A) i j x y : StronglySorted R l -> l !! i = Some x -> l !! j = Some y -> i < j -> R x y.
Proof.
  intros Hs Hx Hy Hij. rewrite <- (take_drop j l) in Hs, Hx. rewrite lookup_app_l in Hx by (rewrite length_take; apply lookup_lt_Some in Hy; lia).
  apply (StronglySorted_app_1_elem_of _ _ _ _ _ Hs); [by eapply list_elem_of_lookup_2|]. apply list_elem_of_lookup. exists 0. by rewrite lookup_drop, Nat.add_0_r.
Qed.
Lemma sorted_lt_inv l i j x y : StronglySorted lt l -> l !! i = Some x -> l !! j = Some y -> x < y -> i < j.
Proof.
  intros Hs Hx Hy Hxy. destruct (lt_eq_lt_dec i j) as [[?| ->]|Hgt]; [done| |].
  - rewrite Hx in Hy. injection Hy as ->. lia.
  - pose proof (ascending_lookup _ _ _ _ _ _ Hs Hy Hx Hgt). lia.
Qed.
Lemma sorted_inj l i j x : StronglySorted lt l -> l !! i = Some x -> l !! j = Some x -> i = j.
Proof. intros Hs Hi Hj. destruct (lt_eq_lt_dec i j) as [[H|?]|H]; [|done|]; [pose proof (ascending_lookup _ _ _ _ _ _ Hs Hi Hj H)|pose proof (ascending_lookup _ _ _ _ _ _ Hs Hj Hi H)]; lia. Qed.
Lemma lower_bound_lookup l i x : StronglySorted lt l -> l !! i = Some x -> lower_bound l x = i.
Proof.
  intros Hs Hi. unfold lower_bound. assert (H : list_find (fun s => x <= s) l = Some (i, x)); [|by rewrite H].
  apply list_find_Some. repeat split; [done|done|]. intros j y Hj Hlt. pose proof (ascending_lookup _ _ _ _ _ _ Hs Hj Hi Hlt). lia.
Qed.

Record starts_ok (dec : Decoder) (code : CodeBlock) (starts : list nat) : Prop := {
  so_sorted : StronglySorted lt starts;
  so_zero : starts !! 0 = Some 0;
  so_last : last starts = Some (GetCurLength dec);
  so_in : forall x, x ∈ starts -> exists i, i <= length (m_sbIndex code) /\ x = off_at dec code i;
  so_why : forall x, x ∈ starts -> x = 0 \/ exists j, j < length (m_sbIndex code) /\ terminal_at dec (off_at dec code j) = true /\
    (x = off_at dec code (S j) \/ BytecodeHasBranchOperand dec (off_at dec code j) = true /\ x = GetBranchTarget dec (off_at dec code j));
  so_next : forall j, j < length (m_sbIndex code) -> terminal_at dec (off_at dec code j) = true -> off_at dec code (S j) ∈ starts;
  so_target : forall j, j < length (m_sbIndex code) -> BytecodeHasBranchOperand dec (off_at dec code j) = true -> GetBranchTarget dec (off_at dec code j) ∈ starts
}.

Section code_starts.
Context (dec : Decoder) (code : CodeBlock) (Hcode : code_ok dec code).
Notation n := (length (m_sbIndex code)).
Notation off_at := (off_at dec code).

Lemma bb_starts_ok : exists starts, bb_starts dec = Ok starts /\ starts_ok dec code starts.
Proof using Hcode.
  pose proof (code_nonempty _ _ Hcode) as Hn. pose proof (off_at_grows _ _ Hcode n ltac:(lia)) as Hg. rewrite off_at_end in Hg.
  destruct (scan_starts_ok _ _ Hcode (S (GetCurLength dec)) 0 ltac:(lia) ltac:(lia)) as (l & Hl & Hspec). rewrite (off_at_0 _ _ Hcode) in Hl.
  destruct (unique_spec (merge_sort le (0 :: l))) as [Hs He]; [apply (StronglySorted_merge_sort le)|].
  assert (Hin : forall x, x ∈ unique (merge_sort le (0 :: l)) <-> x = 0 \/ x ∈ l) by (intros x; rewrite He, merge_sort_Permutation; apply elem_of_cons).
  set (starts := unique _) in *.
  assert (Hrange : forall x, x ∈ starts -> exists i, i <= n /\ x = off_at i).
  { intros x [->|(j & Hj & Ht & [->|[Hb ->]])%Hspec]%Hin.
    - exists 0. split; [lia|by rewrite (off_at_0 _ _ Hcode)].
    - exists (S j). split; [lia|done].
    - destruct (proj1 (elem_off_at dec code _) (co_target _ _ Hcode (off_at j) (proj2 (elem_off_at dec code _) (ex_intro _ j (conj (proj2 Hj) eq_refl))) Hb)) as (i & Hi & ->). exists i. split; [lia|done]. }
  assert (Hend : GetCurLength dec ∈ starts).
  { apply Hin. right. apply Hspec. exists (n - 1). split; [lia|]. unfold terminal_at. rewrite (last_barrier _ _ Hcode). split; [done|]. left. rewrite <- (off_at_end dec code). f_equal. lia. }
  assert (H0 : starts !! 0 = Some 0).
  { destruct (proj1 (list_elem_of_lookup _ _) (proj2 (Hin 0) (or_introl eq_refl))) as [[|i] Hi]; [done|].
    destruct (starts !! 0) as [x|] eqn:Ex; [|by destruct starts]. pose proof (ascending_lookup _ _ _ _ _ _ Hs Ex Hi ltac:(lia)). lia. }
  assert (Hlast : last starts = Some (GetCurLength dec)).
  { destruct (proj1 (list_elem_of_lookup _ _) Hend) as [i Hi]. destruct (last starts) as [x|] eqn:Ex.
    - rewrite last_lookup in Ex. destruct (Hrange x) as (j & Hj & ->); [by eapply list_elem_of_lookup_2|].
      pose proof (off_at_le _ _ Hcode j n Hj ltac:(lia)) as Hle. rewrite off_at_end in Hle. f_equal. destruct (decide (off_at j = GetCurLength dec)) as [|Hne]; [done|].
      pose proof (sorted_lt_inv _ _ _ _ _ Hs Ex Hi ltac:(lia)). apply lookup_lt_Some in Hi. lia.
    - apply last_None in Ex. by rewrite Ex in Hi. }
  exists starts. split; [|split; try done].
  - unfold bb_starts. rewrite Hl. cbn [mbind result_bind]. fold starts.
    assert (Hlen : 1 <? length starts = true).
    { apply Nat.ltb_lt. destruct starts as [|a [|b st]]; simpl; [done| |lia]. simpl in *. injection H0 as ->. injection Hlast as H. lia. }
    rewrite Hlen. rewrite bool_decide_true by (by destruct starts). rewrite bool_decide_true by done. done.
  - intros x [->|(j & Hj & H)%Hspec]%Hin; [by left|]. right. exists j. split; [lia|done].
  - intros j Hj Ht. apply Hin. right. apply Hspec. exists j. split; [lia|auto].
  - intros j Hj Hb. apply Hin. right. apply Hspec. exists j. unfold terminal_at. rewrite Hb, orb_true_r. split; [lia|auto].
Qed.

Lemma find_terminal_ok fuel i e : i < e -> e <= n -> e - i < fuel -> (forall j, i <= j < e - 1 -> terminal_at dec (off_at j) = false) ->
  find_terminal dec fuel (off_at i) (off_at e) = Ok (off_at (e - 1)).
Proof using Hcode.
  revert i. induction fuel as [|fuel IH]; intros i Hi He Hf Hp; [lia|]. simpl. rewrite (next_off_at _ _ Hcode) by lia.
  assert (Hle : off_at (S i) <=? off_at e = true) by (apply Nat.leb_le, (off_at_le _ _ Hcode); lia). rewrite Hle. cbn [negb].
  destruct (Nat.eqb_spec (off_at (S i)) (off_at e)) as [Heq|Hne].
  - apply (off_at_inj _ _ Hcode) in Heq; [|lia|lia]. do 2 f_equal. lia.
  - assert (S i <> e) by (intros H; by subst e). specialize (Hp i ltac:(lia)) as Hpi. unfold terminal_at in Hpi. rewrite Hpi.
    apply IH; [lia|lia|lia|]. intros j Hj. apply Hp. lia.
Qed.

(** Between two starts. *)
Lemma starts_span starts k x y : starts_ok dec code starts -> starts !! k = Some x -> starts !! S k = Some y ->
  exists a e, a < e /\ e <= n /\ x = off_at a /\ y = off_at e /\ forall j, a <= j < e - 1 -> terminal_at dec (off_at j) = false.
Proof using Hcode.
  intros Hs Hx Hy. destruct (so_in _ _ _ Hs x) as (a & Ha & ->); [by eapply list_elem_of_lookup_2|].
  destruct (so_in _ _ _ Hs y) as (e & He & ->); [by eapply list_elem_of_lookup_2|].
  pose proof (ascending_lookup _ _ _ _ _ _ (so_sorted _ _ _ Hs) Hx Hy ltac:(lia)) as Hlt. apply (off_at_lt_inv _ _ Hcode) in Hlt as Hae; [|lia|lia].
  exists a, e. repeat split; try done. intros j Hj. apply not_true_iff_false. intros Ht.
  apply (so_next _ _ _ Hs) in Ht; [|lia]. apply list_elem_of_lookup in Ht as [m Hm].
  pose proof (sorted_lt_inv _ _ _ _ _ (so_sorted _ _ _ Hs) Hx Hm (off_at_lt _ _ Hcode a (S j) ltac:(lia) ltac:(lia))).
  pose proof (sorted_lt_inv _ _ _ _ _ (so_sorted _ _ _ Hs) Hm Hy (off_at_lt _ _ Hcode (S j) e ltac:(lia) ltac:(lia))). lia.
Qed.
End code_starts.

(** ** The traversal *)
Definition is_new (o : option nat) : Prop := o = None.
#[local] Instance is_new_dec o : Decision (is_new o).
Proof. unfold is_new. apply _. Defined.
(** The starts without a block. *)
Definition unvisited (s : Blocks) : nat := length (filter is_new (m_bbForStartOffsets s)).
Record fresh_block (dec : Decoder) (code : CodeBlock) (bb : BasicBlockUpvalueInfo) : Prop := {
  fr_head : m_isLocalCapturedAtHead bb = Reset (m_stackFrameNumSlots code);
  fr_tail : m_isLocalCapturedAtTail bb = Reset (m_stackFrameNumSlots code);
  fr_inBB : m_isLocalCapturedInBB bb = Reset (m_stackFrameNumSlots code);
  fr_trivial : m_isTerminalInstImplicitTrivialBranch bb = negb (terminal_at dec (m_terminalNodeBcOffset bb))
}.
(** The block from a start to the next. *)
Definition shaped (dec : Decoder) (code : CodeBlock) (starts : list nat) (bb : BasicBlockUpvalueInfo) : Prop :=
  exists k a e, starts !! k = Some (off_at dec code a) /\ starts !! S k = Some (off_at dec code (S e)) /\ block_span dec code bb a e.
Record trav_inv (dec : Decoder) (code : CodeBlock) (starts : list nat) (s : Blocks) : Prop := {
  ti_length : length (m_bbForStartOffsets s) = length starts - 1;
  ti_map : forall k ord, m_bbForStartOffsets s !! k = Some (Some ord) -> exists off, starts !! k = Some off /\ starts_at (m_bbInNaturalOrder s) ord off;
  ti_block : forall ord bb, m_bbInNaturalOrder s !! ord = Some bb ->
    (exists k, m_bbForStartOffsets s !! k = Some (Some ord)) /\ reachable dec code (m_bytecodeOffset bb) /\ shaped dec code starts bb /\ fresh_block dec code bb
}.
Record extends (s s' : Blocks) : Prop := {
  ex_map : forall k ord, m_bbForStartOffsets s !! k = Some (Some ord) -> m_bbForStartOffsets s' !! k = Some (Some ord);
  ex_blocks : forall ord bb, m_bbInNaturalOrder s !! ord = Some bb -> m_bbInNaturalOrder s' !! ord = Some bb;
  ex_count : unvisited s' <= unvisited s
}.
Definition complete (dec : Decoder) (bbs : list BasicBlockUpvalueInfo) (from : nat) : Prop :=
  forall ord bb, from <= ord -> bbs !! ord = Some bb -> succs_ok dec bbs bb.

Lemma extends_refl s : extends s s.
Proof. by split. Qed.
Lemma extends_trans s1 s2 s3 : extends s1 s2 -> extends s2 s3 -> extends s1 s3.
Proof. intros [] []. split; [by eauto|by eauto|lia]. Qed.
Lemma extends_length s s' : extends s s' -> length (m_bbInNaturalOrder s) <= length (m_bbInNaturalOrder s').
Proof.
  intros He. destruct (decide (length (m_bbInNaturalOrder s) <= length (m_bbInNaturalOrder s'))) as [|Hgt]; [done|].
  destruct (lookup_lt_is_Some_2 (m_bbInNaturalOrder s) (length (m_bbInNaturalOrder s')) ltac:(lia)) as [bb Hbb].
  apply (ex_blocks _ _ He), lookup_lt_Some in Hbb. lia.
Qed.
Lemma starts_at_mono bbs bbs' ord off : (forall ord bb, bbs !! ord = Some bb -> bbs' !! ord = Some bb) -> starts_at bbs ord off -> starts_at bbs' ord off.
Proof. intros H (bb & Hbb & Ho). exists bb. auto. Qed.
Lemma succs_ok_mono dec bbs bbs' bb : (forall ord off, starts_at bbs ord off -> starts_at bbs' ord off) -> succs_ok dec bbs bb -> succs_ok dec bbs' bb.
Proof. intros H Hb. eapply Forall2_impl; [exact Hb|auto]. Qed.
Lemma complete_extends dec s s' from : extends s s' -> complete dec (m_bbInNaturalOrder s) from -> complete dec (m_bbInNaturalOrder s') (length (m_bbInNaturalOrder s)) ->
  complete dec (m_bbInNaturalOrder s') from.
Proof.
  intros He H1 H2 ord bb Hle Hbb. destruct (decide (ord < length (m_bbInNaturalOrder s))) as [Hlt|Hge]; [|apply (H2 ord); [lia|done]].
  destruct (lookup_lt_is_Some_2 _ _ Hlt) as [bb' Hbb']. apply (ex_blocks _ _ He) in Hbb' as Hbb2. rewrite Hbb in Hbb2. injection Hbb2 as <-.
  eapply succs_ok_mono; [|by eapply H1]. intros ord' off. apply starts_at_mono, He.
Qed.
Lemma unvisited_insert (l : list (option nat)) k o : l !! k = Some None -> S (length (filter is_new (<[k := Some o]> l))) = length (filter is_new l).
Proof.
  revert k. induction l as [|x l IH]; intros [|k]; simpl; [done|done| |].
  - intros [= ->]. rewrite filter_cons_False, filter_cons_True by done. done.
  - intros H. specialize (IH k H). destruct (decide (is_new x)); [rewrite !filter_cons_True by done; simpl; lia|by rewrite !filter_cons_False by done].
Qed.
(** Giving a block its successors keeps the starts. *)
Lemma starts_at_alter bbs ord0 succs ord off : starts_at bbs ord off -> starts_at (alter (set_successors succs) ord0 bbs) ord off.
Proof.
  intros (bb & Hbb & Ho). unfold starts_at. rewrite list_lookup_alter. destruct (decide (ord0 = ord)) as [->|].
  - rewrite Hbb. eexists. split; [done|done].
  - eauto.
Qed.

Section traverse.
Context (dec : Decoder) (code : CodeBlock) (Hcode : code_ok dec code) (starts : list nat) (Hs : starts_ok dec code starts).
Notation n := (length (m_sbIndex code)).
Notation off_at := (off_at dec code).
Notation Trav := (TraverseAndGenerateBytecodeOffsetToBBMap dec code).
Notation inv := (trav_inv dec code starts).

(** The targets of the last bytecode of a block are starts, and reachable. *)
Lemma target_start e off' : e < n -> off_at (S e) ∈ starts -> reachable dec code (off_at e) -> off' ∈ targets dec (off_at e) ->
  reachable dec code off' /\ exists k, starts !! k = Some off' /\ S k < length starts.
Proof using Hcode Hs.
  intros He Hnext Hr Ht. assert (Hf : flow dec code (off_at e) off') by (split; [by apply (reachable_in _ _ Hcode)|done]).
  split; [by eapply rtc_r|]. pose proof (flow_in _ _ Hcode _ _ Hf) as (i & Hi & Hoi)%(elem_off_at dec code).
  assert (Hst : off' ∈ starts).
  { unfold targets in Ht. apply elem_of_app in Ht as [Ht|Ht].
    - destruct (IsBytecodeBarrier dec (off_at e)); [by apply elem_of_nil in Ht|]. apply list_elem_of_singleton in Ht as ->. by rewrite (next_off_at _ _ Hcode).
    - destruct (BytecodeHasBranchOperand dec (off_at e)) eqn:Eb; [|by apply elem_of_nil in Ht]. apply list_elem_of_singleton in Ht as ->. by apply (so_target _ _ _ Hs). }
  apply list_elem_of_lookup in Hst as [k Hk]. exists k. split; [done|]. pose proof (so_last _ _ _ Hs) as Hl. rewrite last_lookup in Hl.
  apply (sorted_lt_inv _ _ _ _ _ (so_sorted _ _ _ Hs) Hk) in Hl; [apply lookup_lt_Some in Hk; lia|].
  rewrite Hoi, <- (off_at_end dec code). apply (off_at_lt _ _ Hcode); lia.
Qed.
(** A bytecode of a reachable block is reachable. *)
Lemma span_reachable bb a e i : block_span dec code bb a e -> reachable dec code (m_bytecodeOffset bb) -> a <= i <= e -> reachable dec code (off_at i).
Proof using Hcode.
  intros Hsp Hr. rewrite (bs_start _ _ _ _ _ Hsp) in Hr. induction i as [|i IH]; intros Hi; [by replace 0 with a by lia|].
  destruct (decide (a = S i)) as [<-|]; [done|]. eapply rtc_r; [apply IH; lia|]. eapply (span_flow _ _ Hcode); [done|lia].
Qed.

Lemma start_in_map s k : inv s -> S k < length starts -> exists o, m_bbForStartOffsets s !! k = Some o.
Proof. intros Hi Hk. apply lookup_lt_is_Some_2. rewrite (ti_length _ _ _ _ Hi). lia. Qed.

(** A new block. *)
Lemma push_inv s k a e : inv s -> m_bbForStartOffsets s !! k = Some None -> starts !! k = Some (off_at a) -> starts !! S k = Some (off_at (S e)) -> a <= e -> e < n ->
  (forall j, a <= j < e -> terminal_at dec (off_at j) = false) -> reachable dec code (off_at a) ->
  let s' := mk_blocks (<[k := Some (length (m_bbInNaturalOrder s))]> (m_bbForStartOffsets s)) (m_bbInNaturalOrder s ++ [new_bb dec code (off_at a) (off_at e)]) in
  inv s' /\ extends s s' /\ S (unvisited s') = unvisited s.
Proof using Hs.
  intros Hi Hk Ha He Hae Hen Hp Hr s'. assert (Hbb : forall ord bb, m_bbInNaturalOrder s !! ord = Some bb -> m_bbInNaturalOrder s' !! ord = Some bb) by (intros; by apply lookup_app_Some_l).
  pose proof (lookup_lt_Some _ _ _ Hk) as Hlk. pose proof (unvisited_insert _ _ (length (m_bbInNaturalOrder s)) Hk) as Hc.
  split; [|split; [split|exact Hc]].
  - split; simpl; [by rewrite length_insert, (ti_length _ _ _ _ Hi)| |].
    + intros k' ord [[<- Ho]|[Hne Ho]]%list_lookup_insert_Some.
      * destruct Ho as [[= <-] _]. exists (off_at a). split; [done|]. eexists. split; [by apply list_lookup_middle|done].
      * destruct (ti_map _ _ _ _ Hi _ _ Ho) as (off & Hoff & Hst). exists off. split; [done|]. by eapply starts_at_mono.
    + intros ord bb [Hbo|[-> ->]]%list_lookup_snoc_Some.
      * destruct (ti_block _ _ _ _ Hi _ _ Hbo) as [[k' Hk'] Hrest]. split; [|done]. exists k'. rewrite list_lookup_insert_ne; [done|]. intros ->. congruence.
      * split; [exists k; by apply list_lookup_insert_eq|]. split; [done|]. split; [|by split; try done; unfold new_bb, terminal_at; simpl; rewrite negb_orb, andb_comm].
        exists k, a, e. split; [done|]. split; [done|]. by split.
  - intros k' ord Ho. simpl. rewrite list_lookup_insert_ne; [done|]. intros ->. congruence.
  - done.
  - unfold unvisited in *. simpl. lia.
Qed.

Notation never := (fun _ : error => False).
Definition visited (s s' : Blocks) : Prop := inv s' /\ extends s s' /\ complete dec (m_bbInNaturalOrder s') (length (m_bbInNaturalOrder s)).
Lemma visited_refl s : inv s -> visited s s.
Proof. intros Hi. split; [done|]. split; [apply extends_refl|]. intros ord bb Hle Hb. apply lookup_lt_Some in Hb. lia. Qed.
Lemma visited_trans s1 s2 s3 : visited s1 s2 -> visited s2 s3 -> visited s1 s3.
Proof.
  intros (Hi1 & He1 & Hc1) (Hi2 & He2 & Hc2). split; [done|]. split; [by eapply extends_trans|]. by eapply complete_extends.
Qed.
(** One successor, if there is one. *)
Lemma visit_target fuel (c : bool) off s :
  (c = true -> wp never (Trav fuel starts off) (fun ord s' => visited s s' /\ starts_at (m_bbInNaturalOrder s') ord off) s) -> inv s ->
  wp never (if c then succ ← Trav fuel starts off; mret [succ] else mret [])
    (fun succs s' => visited s s' /\ Forall2 (starts_at (m_bbInNaturalOrder s')) succs (if c then [off] else [])) s.
Proof.
  intros H Hi. destruct c; [|apply wp_ret; split; [by apply visited_refl|constructor]]. apply wp_bind. eapply wp_mono; [by apply H|].
  intros ord s' [Hv Hst]. apply wp_ret. split; [done|by repeat constructor].
Qed.
(** The block gets its successors. *)
Lemma link_inv s s1 s2 a e succs : visited s1 s2 -> extends s s1 -> m_bbInNaturalOrder s1 = m_bbInNaturalOrder s ++ [new_bb dec code (off_at a) (off_at e)] ->
  Forall2 (starts_at (m_bbInNaturalOrder s2)) succs (targets dec (off_at e)) ->
  let ord := length (m_bbInNaturalOrder s) in
  let s3 := mk_blocks (m_bbForStartOffsets s2) (alter (set_successors succs) ord (m_bbInNaturalOrder s2)) in
  visited s s3 /\ starts_at (m_bbInNaturalOrder s3) ord (off_at a).
Proof.
  intros (Hi2 & He2 & Hc2) He1 H1 Hsu ord s3.
  assert (Hord : m_bbInNaturalOrder s2 !! ord = Some (new_bb dec code (off_at a) (off_at e))) by (apply (ex_blocks _ _ He2); rewrite H1; by apply list_lookup_middle).
  assert (Hst : forall o off, starts_at (m_bbInNaturalOrder s2) o off -> starts_at (m_bbInNaturalOrder s3) o off) by (intros; by apply starts_at_alter).
  split; [|apply Hst; by eexists]. split; [|split].
  - split; [apply (ti_length _ _ _ _ Hi2)| |].
    + intros k o Ho. destruct (ti_map _ _ _ _ Hi2 _ _ Ho) as (off & Hoff & H). eauto.
    + intros o bb. simpl. rewrite list_lookup_alter. destruct (decide (ord = o)) as [<-|Hne]; [|apply (ti_block _ _ _ _ Hi2)].
      rewrite Hord. intros [= <-]. destruct (ti_block _ _ _ _ Hi2 _ _ Hord) as (Hk & Hr & (k & a' & e' & H2 & H3 & [Hle Hin Hs1 Ht Hpl]) & [Hf1 Hf2 Hf3 Hf4]).
      split; [done|]. split; [done|]. split; [|by split]. exists k, a', e'. by repeat split.
  - pose proof (extends_trans _ _ _ He1 He2) as [Hm Hb Hu]. split; [exact Hm| |exact Hu]. intros o bb Ho. simpl. rewrite list_lookup_alter_ne; [by apply Hb|].
    intros <-. apply lookup_lt_Some in Ho. unfold ord in Ho. lia.
  - intros o bb Hle. simpl. rewrite list_lookup_alter. destruct (decide (ord = o)) as [<-|Hne].
    + rewrite Hord. intros [= <-]. unfold succs_ok. simpl. eapply Forall2_impl; [exact Hsu|]. intros ? ?. apply Hst.
    + intros Ho. eapply succs_ok_mono; [exact Hst|]. apply (Hc2 o); [|done]. rewrite H1, length_app. simpl. unfold ord in *. lia.
Qed.

Lemma bb_traverse_ok fuel k off s : inv s -> starts !! k = Some off -> S k < length starts -> reachable dec code off -> unvisited s < fuel ->
  wp never (Trav fuel starts off) (fun ord s' => (visited s s' /\ starts_at (m_bbInNaturalOrder s') ord off) /\
    (m_bbForStartOffsets s !! k = Some None -> ord = length (m_bbInNaturalOrder s))) s.
Proof using Hcode Hs.
  revert k off s. induction fuel as [|fuel IH]; intros k off s Hi Hk Hlt Hr Hf; [lia|]. cbn [TraverseAndGenerateBytecodeOffsetToBBMap].
  destruct (lookup_lt_is_Some_2 starts (S k) Hlt) as [y Hy]. destruct (starts_span _ _ Hcode _ _ _ _ Hs Hk Hy) as (a & e' & Hae & He & -> & -> & Hp).
  destruct e' as [|e]; [lia|]. replace (S e - 1) with e in Hp by lia.
  rewrite (lower_bound_lookup _ _ _ (so_sorted _ _ _ Hs) Hk). pose proof (off_at_lt _ _ Hcode a n ltac:(lia) ltac:(lia)) as Hend. rewrite off_at_end in Hend.
  apply Nat.ltb_lt in Hend. rewrite Hend, Nat.add_1_r. apply Nat.ltb_lt in Hlt as Hlt'. rewrite Hlt'. rewrite bool_decide_true by done. unfold check.
  do 3 (apply wp_bind, wp_ret). apply wp_bind, wp_get. destruct (start_in_map s k Hi Hlt) as [o Ho]. rewrite Ho. destruct o as [ord|].
  - apply wp_ret. split; [|done]. split; [by apply visited_refl|]. destruct (ti_map _ _ _ _ Hi _ _ Ho) as (off & Hoff & Hst). by rewrite Hk in Hoff; injection Hoff as <-.
  - rewrite Hy. cbn [default from_option id].
    rewrite (find_terminal_ok _ _ Hcode (S (GetCurLength dec)) a (S e)) by (first [lia|pose proof (off_at_grows _ _ Hcode n ltac:(lia)) as Hg; rewrite off_at_end in Hg; lia|intros; apply Hp; lia]).
    replace (S e - 1) with e by lia. apply wp_bind, wp_lift_result. apply wp_bind.
    destruct (push_inv s k a e Hi Ho Hk Hy ltac:(lia) ltac:(lia) Hp Hr) as (Hi1 & He1 & Hu). set (s1 := mk_blocks _ _) in *. fold s1.
    assert (Hre : reachable dec code (off_at e)).
    { apply (span_reachable (new_bb dec code (off_at a) (off_at e)) a e e); [by split; [lia|lia| | |]|done|lia]. }
    assert (Hsy : off_at (S e) ∈ starts) by (by eapply list_elem_of_lookup_2).
    assert (Hvisit : forall off' s', off' ∈ targets dec (off_at e) -> inv s' -> unvisited s' <= unvisited s1 ->
      wp never (Trav fuel starts off') (fun ord s'' => visited s' s'' /\ starts_at (m_bbInNaturalOrder s'') ord off') s').
    { intros off' s' Hin Hi' Hu'. destruct (target_start e off' ltac:(lia) Hsy Hre Hin) as (Hr' & k' & Hk' & Hlt2). eapply wp_mono; [apply (IH k'); [done|done|done|done|lia]|]. by intros ? ? [? _]. }
    unfold push_bb, wp at 1. fold s1. apply wp_bind.
    eapply wp_mono.
    { apply (visit_target _ (negb (IsBytecodeBarrier dec (off_at e)))) with (s := s1); [|done]. intros Hb. apply Hvisit; [|done|done].
      rewrite targets_eq. rewrite Hb, (next_off_at _ _ Hcode) by lia. left. }
    intros fall s2 [Hv2 Hfall]. apply wp_bind. eapply wp_mono.
    { apply (visit_target _ (BytecodeHasBranchOperand dec (off_at e))) with (s := s2); [|apply Hv2]. intros Hb. apply Hvisit; [|apply Hv2|].
      - rewrite targets_eq, Hb. apply elem_of_app. right. left.
      - apply Hv2. }
    intros jump s3 [Hv3 Hjump]. apply wp_bind, wp_modify, wp_ret. split; [|done]. apply (link_inv s s1 s3 a e); [by eapply visited_trans|done|done|].
    rewrite targets_eq, (next_off_at _ _ Hcode) by lia. apply Forall2_app; [|done]. eapply Forall2_impl; [exact Hfall|]. intros ord off. apply starts_at_mono, Hv3.
Qed.
End traverse.

(** ** The check of the ranges *)
Lemma ranges_ok_intro l : StronglySorted range_le l -> Forall (fun r => r.1 < r.2) l ->
  (forall i j r r', l !! i = Some r -> l !! j = Some r' -> i <> j -> r.2 <= r'.1 \/ r'.2 <= r.1) -> ranges_ok l = true.
Proof.
  induction l as [|a [|b l] IH]; intros Hs Hf Hd; [done|done|]. cbn [ranges_ok]. rewrite andb_true_iff. split.
  - apply Nat.leb_le. apply StronglySorted_inv in Hs as [_ Hall]. apply Forall_inv in Hall. apply Forall_inv_tail, Forall_inv in Hf.
    unfold range_le in Hall. destruct (Hd 0 1 a b eq_refl eq_refl ltac:(done)); lia.
  - apply IH; [by apply StronglySorted_inv in Hs as [? _]|by apply Forall_inv_tail in Hf|]. intros i j r r' Hi Hj Hij. apply (Hd (S i) (S j)); [done|done|congruence].
Qed.
#[local] Instance range_le_total : Total range_le.
Proof. intros [a b] [c d]. unfold range_le. simpl. destruct (lt_eq_lt_dec a c) as [[?|?]|?]; [tauto| |tauto]. destruct (le_lt_dec b d); [left|right]; right; lia. Qed.
#[local] Instance range_le_trans : Transitive range_le.
Proof. intros [a b] [c d] [e f]. unfold range_le. simpl. lia. Qed.

Section generate.
Context (dec : Decoder) (code : CodeBlock) (Hcode : code_ok dec code).
Notation n := (length (m_sbIndex code)).
Notation off_at := (off_at dec code).

Lemma span_unique bb a b a' b' : block_span dec code bb a b -> block_span dec code bb a' b' -> a = a' /\ b = b'.
Proof using Hcode.
  intros H H'. pose proof (bs_le _ _ _ _ _ H). pose proof (bs_in _ _ _ _ _ H). pose proof (bs_le _ _ _ _ _ H'). pose proof (bs_in _ _ _ _ _ H').
  split; apply (off_at_inj _ _ Hcode); try lia.
  - by rewrite <- (bs_start _ _ _ _ _ H), <- (bs_start _ _ _ _ _ H').
  - by rewrite <- (bs_terminal _ _ _ _ _ H), <- (bs_terminal _ _ _ _ _ H').
Qed.
(** A block ends with a branch or before a target. *)
Lemma block_end starts s ord bb a b : starts_ok dec code starts -> trav_inv dec code starts s -> m_bbInNaturalOrder s !! ord = Some bb -> block_span dec code bb a b ->
  terminal_at dec (off_at b) = true \/ exists j, j < n /\ BytecodeHasBranchOperand dec (off_at j) = true /\ GetBranchTarget dec (off_at j) = off_at (S b).
Proof using Hcode.
  intros Hs Hi Hb Hsp. destruct (ti_block _ _ _ _ Hi _ _ Hb) as (_ & _ & (k & a' & e & _ & He & Hsp') & _).
  destruct (span_unique _ _ _ _ _ Hsp Hsp') as [<- <-]. pose proof (bs_in _ _ _ _ _ Hsp) as Hbn.
  destruct (so_why _ _ _ Hs (off_at (S b))) as [H0|(j & Hj & Ht & [Heq|[Hbr Heq]])]; [by eapply list_elem_of_lookup_2| | |].
  - pose proof (off_at_grows _ _ Hcode (S b) ltac:(lia)). lia.
  - left. apply (off_at_inj _ _ Hcode) in Heq; [|lia|lia]. by replace b with j by lia.
  - right. eauto.
Qed.
Lemma blocks_disjoint starts s ord ord' bb bb' a b a' b' : starts_ok dec code starts -> trav_inv dec code starts s ->
  m_bbInNaturalOrder s !! ord = Some bb -> m_bbInNaturalOrder s !! ord' = Some bb' ->
  block_span dec code bb a b -> block_span dec code bb' a' b' -> a <= b' -> a' <= b -> ord = ord'.
Proof using Hcode.
  intros Hs Hi Hb Hb' Hsp Hsp' H1 H2. pose proof (so_sorted _ _ _ Hs) as Hso.
  assert (Hkey : forall ord bb a b, m_bbInNaturalOrder s !! ord = Some bb -> block_span dec code bb a b ->
    exists k, m_bbForStartOffsets s !! k = Some (Some ord) /\ starts !! k = Some (off_at a) /\ starts !! S k = Some (off_at (S b))).
  { clear -Hcode Hs Hi Hso. intros ord bb a b Hb Hsp. destruct (ti_block _ _ _ _ Hi _ _ Hb) as ([k Hk] & _ & (k' & a' & e & Ha & He & Hsp') & _).
    destruct (span_unique _ _ _ _ _ Hsp Hsp') as [<- <-]. destruct (ti_map _ _ _ _ Hi _ _ Hk) as (off & Hoff & bb2 & Hbb2 & Ho).
    rewrite Hb in Hbb2. injection Hbb2 as <-. rewrite (bs_start _ _ _ _ _ Hsp) in Ho. subst off. rewrite (sorted_inj _ _ _ _ Hso Ha Hoff) in *. eauto. }
  destruct (Hkey _ _ _ _ Hb Hsp) as (k & Hm & Hk & Hk1). destruct (Hkey _ _ _ _ Hb' Hsp') as (k' & Hm' & Hk' & Hk1').
  pose proof (bs_in _ _ _ _ _ Hsp). pose proof (bs_in _ _ _ _ _ Hsp').
  assert (k < S k') by (apply (sorted_lt_inv _ _ _ _ _ Hso Hk Hk1'), (off_at_lt _ _ Hcode); lia).
  assert (k' < S k) by (apply (sorted_lt_inv _ _ _ _ _ Hso Hk' Hk1), (off_at_lt _ _ Hcode); lia).
  replace k' with k in * by lia. congruence.
Qed.

Lemma check_ranges_ok bbs : graph_ok dec code bbs -> check_ranges dec bbs = true.
Proof using Hcode.
  intros Hg. unfold check_ranges. set (f := fun bb => (m_bytecodeOffset bb, GetNextBytecodePosition dec (m_terminalNodeBcOffset bb))). set (ranges := f <$> bbs).
  assert (Hspan : forall i r, ranges !! i = Some r -> exists bb a b, bbs !! i = Some bb /\ block_span dec code bb a b /\ r = (off_at a, off_at (S b))).
  { intros i r. unfold ranges. rewrite list_lookup_fmap. intros (bb & Hbb & ->)%fmap_Some. destruct (go_span _ _ _ Hg _ _ Hbb) as (a & b & Hs).
    exists bb, a, b. split; [done|]. split; [done|]. unfold f. rewrite (bs_start _ _ _ _ _ Hs), (bs_terminal _ _ _ _ _ Hs), (next_off_at _ _ Hcode) by apply (bs_in _ _ _ _ _ Hs). done. }
  assert (Hlt : Forall (fun r => r.1 < r.2) ranges /\ Forall (fun r => r.2 <= GetCurLength dec) ranges).
  { split; apply Forall_lookup; intros i r Hr; destruct (Hspan _ _ Hr) as (bb & a & b & _ & [Hle Hin _ _ _] & ->); simpl; [apply (off_at_lt _ _ Hcode)|rewrite <- (off_at_end dec code); apply (off_at_le _ _ Hcode)]; lia. }
  destruct Hlt as [Hlt Hlen]. pose proof (StronglySorted_merge_sort range_le ranges) as Hso. pose proof (merge_sort_Permutation range_le ranges) as Hp.
  rewrite !andb_true_iff. split; [split|].
  - apply forallb_forall. intros r Hr%list_elem_of_In. rewrite Forall_forall in Hlt, Hlen. apply andb_true_iff. split; [apply Nat.ltb_lt, Hlt, Hr|apply Nat.leb_le, Hlen, Hr].
  - apply bool_decide_eq_true. destruct (go_entry _ _ _ Hg) as (bb & Hbb & H0). destruct (go_span _ _ _ Hg _ _ Hbb) as (a & b & Hs).
    assert (Hin : f bb ∈ merge_sort range_le ranges) by (rewrite Hp; apply list_elem_of_fmap; exists bb; split; [done|by eapply list_elem_of_lookup_2]).
    destruct (merge_sort range_le ranges) as [|r l]; [by apply elem_of_nil in Hin|]. simpl. f_equal.
    apply elem_of_cons in Hin as [<-|Hin]; [done|]. apply StronglySorted_inv in Hso as [_ Hall]. rewrite Forall_forall in Hall. specialize (Hall _ Hin).
    unfold range_le, f in Hall. simpl in Hall. rewrite H0 in Hall. lia.
  - apply ranges_ok_intro; [done|by rewrite Hp|]. apply Permutation_inj in Hp as [_ (g & Hinj & Hg')]. intros i j r r'. rewrite !Hg'. intros Hi Hj Hij.
    destruct (Hspan _ _ Hi) as (bb & a & b & Hb & Hs & ->), (Hspan _ _ Hj) as (bb' & a' & b' & Hb' & Hs' & ->). simpl.
    pose proof (bs_in _ _ _ _ _ Hs). pose proof (bs_in _ _ _ _ _ Hs'). pose proof (bs_le _ _ _ _ _ Hs). pose proof (bs_le _ _ _ _ _ Hs').
    destruct (decide (a <= b')) as [Hle1|]; [destruct (decide (a' <= b)) as [Hle2|]|].
    + exfalso. apply Hij, Hinj. apply (go_disjoint _ _ _ Hg _ _ _ _ _ _ _ _ Hb Hb' Hs Hs' Hle1 Hle2).
    + left. apply (off_at_le _ _ Hcode); lia.
    + right. apply (off_at_le _ _ Hcode); lia.
Qed.

Lemma GenerateBytecodeOffsetToBBMap_ok : exists bbs, GenerateBytecodeOffsetToBBMap dec code = Ok bbs /\ graph_ok dec code bbs /\ Forall (fresh_block dec code) bbs.
Proof using Hcode.
  destruct (bb_starts_ok _ _ Hcode) as (starts & Hst & Hs). unfold GenerateBytecodeOffsetToBBMap. rewrite Hst. cbn [mbind result_bind].
  set (s0 := mk_blocks _ []). assert (Hi : trav_inv dec code starts s0).
  { split; simpl; [by rewrite length_replicate| |done]. intros k ord Hk. apply lookup_replicate in Hk as [? _]. done. }
  pose proof (so_last _ _ _ Hs) as Hl. pose proof (code_nonempty _ _ Hcode). pose proof (off_at_grows _ _ Hcode n ltac:(lia)) as Hgr. rewrite off_at_end in Hgr.
  assert (Hlen : 1 < length starts).
  { rewrite last_lookup in Hl. assert (Hlt : 0 < Nat.pred (length starts)); [|lia]. apply (sorted_lt_inv _ _ _ _ _ (so_sorted _ _ _ Hs) (so_zero _ _ _ Hs) Hl). lia. }
  assert (Hf : unvisited s0 < S (length starts)).
  { unfold unvisited, s0. simpl. pose proof (length_filter is_new (replicate (length starts - 1) None)) as Hle. rewrite length_replicate in Hle. lia. }
  pose proof (bb_traverse_ok _ _ Hcode starts Hs (S (length starts)) 0 0 s0 Hi (so_zero _ _ _ Hs) Hlen (rtc_refl _ _) Hf) as Hw.
  apply wp_total in Hw as (entry & s & Hrun & [(Hi' & He & Hc) Hent] & H0).
  specialize (H0 ltac:(apply lookup_replicate_2; lia)). simpl in H0. subst entry. rewrite Hrun. cbn [mbind result_bind].
  assert (Hg : graph_ok dec code (m_bbInNaturalOrder s)).
  { split; [done| | | | |].
    - intros ord bb Hb. destruct (ti_block _ _ _ _ Hi' _ _ Hb) as (_ & _ & (k & a & e & _ & _ & Hsp) & _). eauto.
    - intros ord bb Hb. apply (ti_block _ _ _ _ Hi' _ _ Hb).
    - intros ord bb Hb. apply (Hc ord); [simpl; lia|done].
    - intros ord bb a b Hb Hsp. by eapply block_end.
    - intros. by eapply blocks_disjoint. }
  rewrite (check_ranges_ok _ Hg). exists (m_bbInNaturalOrder s). split; [done|]. split; [done|]. apply Forall_lookup. intros ord bb Hb. apply (ti_block _ _ _ _ Hi' _ _ Hb).
Qed.
End generate.

(** ** Numbers of bytecodes *)
Section indices.
Context (dec : Decoder) (code : CodeBlock) (Hcode : code_ok dec code).
Notation n := (length (m_sbIndex code)).
Notation off_at := (off_at dec code).

Lemma index_search_ok fuel i left right : left <= i <= right -> right < n -> right - left < fuel -> index_search fuel (m_sbIndex code) (off_at i) left right = Ok i.
Proof using Hcode.
  revert left right. induction fuel as [|fuel IH]; intros left right Hi Hr Hf; [lia|]. cbn [index_search]. destruct (Nat.ltb_spec left right) as [Hlt|Hge].
  - set (mid := (left + right) / 2). assert (Hmid : left <= mid < right).
    { unfold mid. split; [apply Nat.div_le_lower_bound; lia|apply Nat.div_lt_upper_bound; lia]. }
    rewrite (off_at_lookup dec code) by lia. destruct (Nat.eqb_spec (off_at i) (off_at mid)) as [He|Hne].
    + apply (off_at_inj _ _ Hcode) in He; [by rewrite He|lia|lia].
    + destruct (Nat.ltb_spec (off_at i) (off_at mid)) as [Hl|Hg].
      * apply (off_at_lt_inv _ _ Hcode) in Hl; [|lia|lia]. assert (H0 : 0 <? mid = true) by (apply Nat.ltb_lt; lia). rewrite H0. apply IH; lia.
      * assert (Hl : off_at mid < off_at i) by lia. apply (off_at_lt_inv _ _ Hcode) in Hl; [|lia|lia]. apply IH; lia.
  - assert (left = i /\ right = i) as [-> ->] by lia. rewrite Nat.eqb_refl. cbn [negb]. rewrite (off_at_lookup dec code) by lia. by rewrite bool_decide_true.
Qed.
Lemma index_of_offset i : i < n -> GetBytecodeIndexFromBytecodePtr code (off_at i) = Ok i.
Proof using Hcode.
  intros Hi. unfold GetBytecodeIndexFromBytecodePtr. assert (H0 : 0 <? n = true) by (apply Nat.ltb_lt; lia). rewrite H0. apply index_search_ok; lia.
Qed.
End indices.
