(* ===== verification/Captures.v ===== *)
(** * The captured locals at the blocks

    [AnalyzeLocalCaptures] ends, and a bit at the head of a block says exactly that some
    path reaches the block from a bytecode that captures the local without closing it. *)
From S2P Require Import Prelude Compiler BitVec ControlFlow Blocks.
From stdpp Require Import list sorting.
#[local] Set Default Proof Using "Type".

(** ** The specification *)
Definition captures (uv : UpvalueMetadata) : bool := negb (uv_isImmutable uv) && uv_isParentLocal uv.
Definition creates (dec : Decoder) (off l : nat) : Prop :=
  exists uvs uv, GetIntrinsic dec off = CreateClosure uvs /\ uv ∈ uvs /\ captures uv = true /\ uv_slot uv = l.
Definition closes (dec : Decoder) (off l : nat) : Prop := exists start, GetIntrinsic dec off = UpvalueClose start /\ start <= l.
(** The local [l] may be captured when control is at an offset. *)
Inductive captured (dec : Decoder) (code : CodeBlock) (l : nat) : nat -> Prop :=
  | captured_new off off' : reachable dec code off -> creates dec off l -> flow dec code off off' -> captured dec code l off'
  | captured_still off off' : captured dec code l off -> ~ closes dec off l -> flow dec code off off' -> captured dec code l off'.

(** The closures and the closing of locals, as the analysis expects them: a closure that
    captures is followed by a bytecode of its block, a closing bytecode ends its block, and
    where a function is left nothing is captured. *)
Record closures_ok (dec : Decoder) (code : CodeBlock) : Prop := {
  cl_frame : (Z.of_nat (m_stackFrameNumSlots code) < 2 ^ 32)%Z;
  cl_slot : forall off l, off ∈ m_sbIndex code -> creates dec off l -> l < m_stackFrameNumSlots code;
  cl_create : forall i l, i < length (m_sbIndex code) -> creates dec (off_at dec code i) l -> terminal_at dec (off_at dec code i) = false /\
    forall j, j < length (m_sbIndex code) -> BytecodeHasBranchOperand dec (off_at dec code j) = true -> GetBranchTarget dec (off_at dec code j) <> off_at dec code (S i);
  cl_close : forall off start, off ∈ m_sbIndex code -> GetIntrinsic dec off = UpvalueClose start -> terminal_at dec off = true;
  cl_exit : forall off l, captured dec code l off -> targets dec off = [] -> closes dec off l
}.

#[export] Instance creates_dec dec off l : Decision (creates dec off l).
Proof.
  destruct (GetIntrinsic dec off) as [uvs| |] eqn:Ei; [|right; intros (? & ? & ? & _); congruence..].
  destruct (decide (Exists (fun uv => captures uv = true /\ uv_slot uv = l) uvs)) as [He|He]; [left|right].
  - apply Exists_exists in He as (uv & ? & ? & ?). by exists uvs, uv.
  - intros (uvs' & uv & Hi & ? & ? & ?). apply He, Exists_exists. exists uv. rewrite Ei in Hi. by injection Hi as ->.
Defined.
#[export] Instance closes_dec dec off l : Decision (closes dec off l).
Proof.
  destruct (GetIntrinsic dec off) as [|start|] eqn:Ei; [right; intros (? & ? & _); congruence| |right; intros (? & ? & _); congruence].
  destruct (decide (start <= l)); [left; by exists start|right]. intros (start' & Hi & ?). rewrite Ei in Hi. by injection Hi as <-.
Defined.

Lemma captured_reachable dec code l off : captured dec code l off -> reachable dec code off.
Proof. induction 1 as [off off' Hr _ Hf|off off' _ IH _ Hf]; by eapply rtc_r. Qed.
Lemma creates_not_closes dec off l : creates dec off l -> ~ closes dec off l.
Proof. intros (uvs & uv & H & _) (start & H' & _). congruence. Qed.

(** ** Paths inside blocks *)
Section paths.
Context (dec : Decoder) (code : CodeBlock) (Hcode : code_ok dec code) (Hcl : closures_ok dec code) (bbs : list BasicBlockUpvalueInfo) (Hg : graph_ok dec code bbs).
Notation n := (length (m_sbIndex code)).
Notation off_at := (off_at dec code).
Notation span := (block_span dec code).
Notation captured := (captured dec code).

(** Where a reachable bytecode is. *)
Definition at_block (off ord : nat) (bb : BasicBlockUpvalueInfo) (a b i : nat) : Prop :=
  bbs !! ord = Some bb /\ span bb a b /\ a <= i <= b /\ off = off_at i.
(** Control goes to the next bytecode of the block, or to the start of a successor. *)
Lemma flow_block off off' ord bb a b i : at_block off ord bb a b i -> flow dec code off off' ->
  (i < b /\ at_block off' ord bb a b (S i)) \/
  (i = b /\ exists ord' bb' a' b', ord' ∈ m_successors bb /\ at_block off' ord' bb' a' b' a').
Proof using Hcode Hg.
  intros (Hb & Hs & Hi & ->) Hf. pose proof (bs_in _ _ _ _ _ Hs) as Hin. destruct (decide (i = b)) as [->|Hne].
  - right. split; [done|]. destruct Hf as [_ Ht]. rewrite <- (bs_terminal _ _ _ _ _ Hs) in Ht. pose proof (go_succs _ _ _ Hg _ _ Hb) as Hsu. unfold succs_ok in Hsu.
    apply list_elem_of_lookup in Ht as [k Hk]. destruct (Forall2_lookup_r _ _ _ _ _ Hsu Hk) as (ord' & Ho & bb' & Hb' & Hst).
    destruct (go_span _ _ _ Hg _ _ Hb') as (a' & b' & Hs'). exists ord', bb', a', b'. split; [by eapply list_elem_of_lookup_2|]. split; [done|].
    split; [done|]. pose proof (bs_le _ _ _ _ _ Hs'). split; [lia|]. rewrite <- Hst. apply (bs_start _ _ _ _ _ Hs').
  - left. split; [lia|]. apply (flow_plain _ _ Hcode) in Hf as ->; [|lia|apply (bs_plain _ _ _ _ _ Hs); lia]. split; [done|]. split; [done|]. split; [lia|done].
Qed.
Lemma reachable_block off : reachable dec code off -> exists ord bb a b i, at_block off ord bb a b i.
Proof using Hcode Hg.
  revert off. apply rtc_ind_r; [|intros off off' _ Hf IH].
  - destruct (go_entry _ _ _ Hg) as (bb & Hb & H0). destruct (go_span _ _ _ Hg _ _ Hb) as (a & b & Hs). exists 0, bb, a, b, a.
    pose proof (bs_le _ _ _ _ _ Hs). split; [done|]. split; [done|]. split; [lia|]. rewrite <- H0. apply (bs_start _ _ _ _ _ Hs).
  - destruct IH as (ord & bb & a & b & i & Hat). destruct (flow_block _ _ _ _ _ _ _ Hat Hf) as [[_ H]|(_ & ord' & bb' & a' & b' & _ & H)]; eauto 10.
Qed.
Lemma at_block_unique off ord bb a b i ord' bb' a' b' i' : at_block off ord bb a b i -> at_block off ord' bb' a' b' i' ->
  ord' = ord /\ bb' = bb /\ a' = a /\ b' = b /\ i' = i.
Proof using Hcode Hg.
  intros (Hb & Hs & Hi & ->) (Hb' & Hs' & Hi' & He). pose proof (bs_in _ _ _ _ _ Hs). pose proof (bs_in _ _ _ _ _ Hs').
  apply (off_at_inj _ _ Hcode) in He; [|lia|lia]. subst i'. assert (ord = ord') as <-.
  { apply (go_disjoint _ _ _ Hg _ _ _ _ _ _ _ _ Hb Hb' Hs Hs'); lia. }
  rewrite Hb in Hb'. injection Hb' as <-. destruct (span_unique _ _ Hcode _ _ _ _ _ Hs Hs') as [-> ->]. done.
Qed.
Lemma block_reachable off ord bb a b i : at_block off ord bb a b i -> reachable dec code off.
Proof using Hcode Hg.
  intros (Hb & Hs & Hi & ->). eapply (span_reachable _ _ Hcode); [done|by eapply go_reach|lia].
Qed.
Lemma at_start ord bb : bbs !! ord = Some bb -> exists a b, at_block (m_bytecodeOffset bb) ord bb a b a.
Proof using Hg.
  intros Hb. destruct (go_span _ _ _ Hg _ _ Hb) as (a & b & Hs). exists a, b. pose proof (bs_le _ _ _ _ _ Hs). split; [done|]. split; [done|].
  split; [lia|apply (bs_start _ _ _ _ _ Hs)].
Qed.

(** A capturing closure is not at the end of its block. *)
Lemma creates_inside off ord bb a b i l : at_block off ord bb a b i -> creates dec off l -> i < b.
Proof using Hcode Hg Hcl.
  intros (Hb & Hs & Hi & ->) Hc. pose proof (bs_in _ _ _ _ _ Hs). destruct (cl_create _ _ Hcl i l ltac:(lia) Hc) as [Ht Hj].
  destruct (decide (i = b)) as [->|]; [|lia]. destruct (go_end _ _ _ Hg _ _ _ _ Hb Hs) as [Ht'|(j & Hjn & Hbr & Hta)]; [congruence|]. by destruct (Hj j Hjn Hbr).
Qed.
Lemma inside_not_closes bb a b i l : span bb a b -> a <= i < b -> ~ closes dec (off_at i) l.
Proof using Hcl.
  intros Hs Hi (start & H & _). pose proof (bs_in _ _ _ _ _ Hs). apply (cl_close _ _ Hcl) in H; [|apply off_at_in; lia].
  rewrite (bs_plain _ _ _ _ _ Hs) in H by lia. done.
Qed.
(** Captured locals stay captured to the end of the block. *)
Lemma captured_walk bb a b i j l : span bb a b -> captured l (off_at i) -> a <= i -> i <= j <= b -> captured l (off_at j).
Proof using Hcode Hcl.
  intros Hs Hc Ha. induction j as [|j IH]; intros Hj; [by replace 0 with i by lia|]. destruct (decide (i = S j)) as [<-|]; [done|].
  apply (captured_still _ _ _ (off_at j)); [apply IH; lia|eapply inside_not_closes; [done|lia]|eapply (span_flow _ _ Hcode); [done|lia]].
Qed.
Lemma created_walk ord bb a b i j l : bbs !! ord = Some bb -> span bb a b -> creates dec (off_at i) l -> a <= i -> i < j <= b -> captured l (off_at j).
Proof using Hcode Hcl Hg.
  intros Hb Hs Hc Ha Hj. apply (captured_walk bb a b (S i)); [done| |lia|lia].
  apply (captured_new _ _ _ (off_at i)); [|done|eapply (span_flow _ _ Hcode); [done|lia]]. apply (block_reachable _ ord bb a b i). split; [done|]. split; [done|]. split; [lia|done].
Qed.
End paths.

(** ** The closures of a block *)
Section closures.
Context (dec : Decoder) (code : CodeBlock) (Hcode : code_ok dec code) (Hcl : closures_ok dec code).
Notation n := (length (m_sbIndex code)).
Notation off_at := (off_at dec code).
Notation num := (m_stackFrameNumSlots code).

Lemma exists_cons {A} (P : A -> Prop) x l : (exists y, y ∈ x :: l /\ P y) <-> P x \/ exists y, y ∈ l /\ P y.
Proof.
  split; [intros (y & [->|Hy]%elem_of_cons & HP); [by left|right; by exists y]|]. intros [HP|(y & Hy & HP)]; [exists x|exists y]; (split; [|done]); [left|by right].
Qed.
Lemma capture_upvalues_ok uvs bv h : bv_of num bv -> (forall uv, uv ∈ uvs -> captures uv = true -> uv_slot uv < num) ->
  exists bv' h', capture_upvalues code uvs bv h = Ok (bv', h') /\ bv_of num bv' /\
    (forall l, bit bv' l = true <-> bit bv l = true \/ exists uv, uv ∈ uvs /\ captures uv = true /\ uv_slot uv = l) /\
    (h' = true <-> h = true \/ exists uv, uv ∈ uvs /\ captures uv = true).
Proof.
  revert bv h. induction uvs as [|uv uvs IH]; intros bv h Hbv Hs.
  - exists bv, h. split; [done|]. split; [done|]. split; [intros l|]; (split; [by left|]); intros [?|(uv & Hin & _)]; try done; by apply elem_of_nil in Hin.
  - cbn [capture_upvalues]. fold (captures uv). destruct (captures uv) eqn:Ec.
    + pose proof (Hs uv ltac:(left) Ec) as Hlt. apply Nat.ltb_lt in Hlt as Hlt'. rewrite Hlt'. cbn [negb]. destruct Hbv as [Ho Hl].
      destruct (SetBit_spec (uv_slot uv) bv Ho ltac:(lia)) as (bv1 & He & Ho1 & Hl1 & Hb1). rewrite He. cbn [mbind result_bind].
      destruct (IH bv1 true) as (bv' & h' & Hr & Hbv' & Hb & Hh); [split; [done|congruence]|intros uv' Hin; apply Hs; by right|].
      exists bv', h'. split; [done|]. split; [done|]. split.
      * intros l. rewrite Hb, Hb1, (exists_cons (fun uv => captures uv = true /\ uv_slot uv = l)). destruct (decide (l = uv_slot uv)) as [->|Hne]; naive_solver.
      * rewrite Hh, (exists_cons (fun uv => captures uv = true)). tauto.
    + destruct (IH bv h Hbv) as (bv' & h' & Hr & Hbv' & Hb & Hh); [intros uv' Hin; apply Hs; by right|]. exists bv', h'. split; [done|]. split; [done|].
      split; [intros l; rewrite Hb, (exists_cons (fun uv => captures uv = true /\ uv_slot uv = l))|rewrite Hh, (exists_cons (fun uv => captures uv = true))]; rewrite Ec; naive_solver.
Qed.

Lemma capture_loop_ok fuel i b bv h : i <= b -> b < n -> b - i < fuel -> bv_of num bv ->
  exists bv' h', capture_loop dec code fuel (off_at i) (off_at b) bv h = Ok (bv', h') /\ bv_of num bv' /\
    (forall l, bit bv' l = true <-> bit bv l = true \/ exists j, i <= j < b /\ creates dec (off_at j) l) /\
    (h' = true <-> h = true \/ exists j l, i <= j < b /\ creates dec (off_at j) l).
Proof using Hcode Hcl.
  revert i bv h. induction fuel as [|fuel IH]; intros i bv h Hi Hb Hf Hbv; [lia|]. cbn [capture_loop]. destruct (decide (i = b)) as [->|Hne].
  - rewrite Nat.ltb_irrefl, Nat.eqb_refl. exists bv, h. split; [done|]. split; [done|]. split; [intros l|]; naive_solver lia.
  - pose proof (off_at_lt _ _ Hcode i b ltac:(lia) ltac:(lia)) as Hlt. apply Nat.ltb_lt in Hlt. rewrite Hlt. rewrite (next_off_at _ _ Hcode) by lia.
    assert (Hone : exists bv1 h1, match GetIntrinsic dec (off_at i) with CreateClosure uvs => capture_upvalues code uvs bv h | _ => Ok (bv, h) end = Ok (bv1, h1) /\ bv_of num bv1 /\
      (forall l, bit bv1 l = true <-> bit bv l = true \/ creates dec (off_at i) l) /\ (h1 = true <-> h = true \/ exists l, creates dec (off_at i) l)).
    { destruct (GetIntrinsic dec (off_at i)) as [uvs| |] eqn:Ei.
      - destruct (capture_upvalues_ok uvs bv h Hbv) as (bv1 & h1 & Hr & Hbv1 & Hb1 & Hh1).
        { intros uv Hin Hc. apply (cl_slot _ _ Hcl (off_at i)); [apply off_at_in; lia|]. by exists uvs, uv. }
        exists bv1, h1. split; [done|]. split; [done|]. split; [intros l; rewrite Hb1|rewrite Hh1]; unfold creates; rewrite Ei; naive_solver.
      - exists bv, h. split; [done|]. split; [done|]. unfold creates. rewrite Ei. naive_solver.
      - exists bv, h. split; [done|]. split; [done|]. unfold creates. rewrite Ei. naive_solver. }
    destruct Hone as (bv1 & h1 & Hr1 & Hbv1 & Hb1 & Hh1). rewrite Hr1. cbn [mbind result_bind].
    destruct (IH (S i) bv1 h1 ltac:(lia) Hb ltac:(lia) Hbv1) as (bv' & h' & Hr & Hbv' & Hb' & Hh'). exists bv', h'. split; [done|]. split; [done|].
    assert (Hstep : forall P : nat -> Prop, (exists j, i <= j < b /\ P j) <-> P i \/ exists j, S i <= j < b /\ P j).
    { intros P. split; [intros (j & Hj & HP); destruct (decide (j = i)) as [->|]; [by left|right; exists j; split; [lia|done]]|].
      intros [HP|(j & Hj & HP)]; [exists i|exists j]; (split; [lia|done]). }
    split.
    + intros l. rewrite Hb', Hb1, (Hstep (fun j => creates dec (off_at j) l)). tauto.
    + rewrite Hh', Hh1. split.
      * intros [[?|[l Hc]]|(j & l & Hj & Hc)]; [by left|right; exists i, l; split; [lia|done]|right; exists j, l; split; [lia|done]].
      * intros [?|(j & l & Hj & Hc)]; [tauto|]. destruct (decide (j = i)) as [->|]; [left; right; by exists l|right; exists j, l; split; [lia|done]].
Qed.

(** ** The tail of a block *)
Lemma limit_word_bit limit i w k : (0 <= limit)%Z -> (k < 64)%nat -> (0 <= w < 2 ^ 64)%Z ->
  Z.testbit (limit_word limit i w) (Z.of_nat k) = Z.testbit w (Z.of_nat k) && (Z.of_nat (i * 64 + k) <? limit)%Z /\ (0 <= limit_word limit i w < 2 ^ 64)%Z.
Proof.
  intros Hl Hk Hw. unfold limit_word. destruct (Z.leb_spec limit (Z.of_nat i * 64)) as [H1|H1].
  - rewrite Z.bits_0. split; [|lia]. destruct (Z.ltb_spec (Z.of_nat (i * 64 + k)) limit); [lia|by rewrite andb_false_r].
  - destruct (Z.ltb_spec limit (Z.of_nat i * 64 + 64)) as [H2|H2].
    + replace (64 - (Z.of_nat i * 64 + 64 - limit))%Z with (limit - Z.of_nat i * 64)%Z by lia. set (m := (limit - Z.of_nat i * 64)%Z).
      replace (Z.shiftl 1 m - 1)%Z with (Z.ones m) by (rewrite Z.ones_equiv, Z.shiftl_1_l; lia). split.
      * rewrite Z.land_spec. f_equal. destruct (Z.ltb_spec (Z.of_nat (i * 64 + k)) limit); [apply Z.ones_spec_low; lia|apply Z.ones_spec_high; lia].
      * apply word_range; [|apply Z.land_nonneg; left; lia]. intros j Hj. by rewrite Z.land_spec, testbit_small by lia.
    + split; [|done]. destruct (Z.ltb_spec (Z.of_nat (i * 64 + k)) limit); [by rewrite andb_true_r|lia].
Qed.
Lemma limit_words len limit bv : (0 <= limit)%Z -> bv_of len bv ->
  bv_of len (mk_bv (imap (limit_word limit) (m_data bv)) (m_length bv)) /\
  forall l, bit (mk_bv (imap (limit_word limit) (m_data bv)) (m_length bv)) l = bit bv l && (Z.of_nat l <? limit)%Z.
Proof.
  intros Hl [Ho Hlen]. assert (Hbit : forall l, bit (mk_bv (imap (limit_word limit) (m_data bv)) (m_length bv)) l = bit bv l && (Z.of_nat l <? limit)%Z).
  { intros l. unfold bit. cbn [m_data]. rewrite list_lookup_imap. destruct (m_data bv !! (l / 64)) as [w|] eqn:Ew; [|done]. cbn [fmap option_fmap option_map].
    pose proof (Forall_lookup_1 _ _ _ _ (bo_words _ Ho) Ew) as Hw. pose proof (Nat.mod_upper_bound l 64 ltac:(done)) as Hm.
    rewrite (proj1 (limit_word_bit limit (l / 64) w (l mod 64) Hl Hm Hw)). do 3 f_equal. pose proof (Nat.div_mod l 64 ltac:(done)). lia. }
  split; [|exact Hbit]. split; [|done]. split; simpl.
  - rewrite length_imap. apply (bo_length _ Ho).
  - apply Forall_lookup. intros i w'. rewrite list_lookup_imap. intros (w & Hw & ->)%fmap_Some.
    pose proof (Forall_lookup_1 _ _ _ _ (bo_words _ Ho) Hw) as Hr. apply (proj2 (limit_word_bit limit i w 0 Hl ltac:(lia) Hr)).
  - intros l Hge. by rewrite Hbit, (bo_high _ Ho).
Qed.
End closures.

(** ** The queue *)
Record queue_ok (n : nat) (s : Work) : Prop := {
  qo_length : length (w_inQueue s) = n;
  qo_in : forall o, w_inQueue s !! o = Some true <-> o ∈ w_queue s;
  qo_nodup : NoDup (w_queue s)
}.
Lemma queue_bound n s : queue_ok n s -> length (w_queue s) <= n.
Proof.
  intros Hq. assert (Hsub : w_queue s ⊆+ seq 0 n).
  { apply NoDup_submseteq; [apply (qo_nodup _ _ Hq)|]. intros o Ho%(qo_in _ _ Hq). apply lookup_lt_Some in Ho. rewrite (qo_length _ _ Hq) in Ho. apply elem_of_seq. lia. }
  apply submseteq_length in Hsub. by rewrite length_seq in Hsub.
Qed.
Notation never := (fun _ : error => False).
Lemma queue_push_ok n v s : queue_ok n s -> v < n ->
  wp never (pushQueue v) (fun _ s' => queue_ok n s' /\ w_bbs s' = w_bbs s /\ (forall o, o ∈ w_queue s' <-> o ∈ w_queue s \/ o = v) /\ length (w_queue s') <= S (length (w_queue s))) s.
Proof.
  intros Hq Hv. unfold pushQueue. apply wp_bind, wp_get. destruct (lookup_lt_is_Some_2 (w_inQueue s) v) as [b Hb]; [by rewrite (qo_length _ _ Hq)|]. rewrite Hb. destruct b.
  - apply wp_ret. split; [done|]. split; [done|]. split; [|lia]. intros o. split; [by left|]. intros [?| ->]; [done|]. by apply (qo_in _ _ Hq).
  - apply wp_put. assert (Hnv : v ∉ w_queue s) by (intros H; apply (qo_in _ _ Hq) in H; congruence).
    split; [split; simpl|split; [done|split; simpl; [|rewrite length_app; simpl; lia]]].
    + rewrite length_insert. apply (qo_length _ _ Hq).
    + intros o. rewrite elem_of_app, list_elem_of_singleton. destruct (decide (o = v)) as [->|Hne].
      * rewrite list_lookup_insert_eq by (by eapply lookup_lt_Some). tauto.
      * rewrite list_lookup_insert_ne by done. rewrite (qo_in _ _ Hq). tauto.
    + apply NoDup_app. split; [apply (qo_nodup _ _ Hq)|]. split; [intros o Ho ->%list_elem_of_singleton; done|apply NoDup_singleton].
    + intros o. by rewrite elem_of_app, list_elem_of_singleton.
Qed.
Lemma pop_ok n s : queue_ok n s -> w_queue s <> [] ->
  wp never popQueue (fun v s' => queue_ok n s' /\ w_bbs s' = w_bbs s /\ w_queue s = v :: w_queue s' /\ v < n /\ v ∉ w_queue s') s.
Proof.
  intros Hq Hne. unfold popQueue. apply wp_bind, wp_get. destruct (w_queue s) as [|v q] eqn:Eq; [done|].
  assert (Hv : w_inQueue s !! v = Some true) by (apply (qo_in _ _ Hq); rewrite Eq; left). rewrite bool_decide_true by done. unfold check.
  apply wp_bind, wp_ret, wp_bind, wp_put, wp_ret. pose proof (qo_nodup _ _ Hq) as Hnd. rewrite Eq in Hnd. apply NoDup_cons in Hnd as [Hnv Hnd].
  pose proof (lookup_lt_Some _ _ _ Hv) as Hlt. split; [split; simpl; [by rewrite length_insert, (qo_length _ _ Hq)| |done]|].
  - intros o. destruct (decide (o = v)) as [->|Ho].
    + rewrite list_lookup_insert_eq by done. split; [done|]. by intros ?%Hnv.
    + rewrite list_lookup_insert_ne, (qo_in _ _ Hq), Eq, elem_of_cons by done. naive_solver.
  - split; [done|]. split; [done|]. split; [by rewrite <- (qo_length _ _ Hq)|done].
Qed.

(** ** The invariant *)
Definition head_bit (s : Work) (o l : nat) : Prop := exists bb, w_bbs s !! o = Some bb /\ bit (m_isLocalCapturedAtHead bb) l = true.
Definition tail_bit (s : Work) (o l : nat) : Prop := exists bb, w_bbs s !! o = Some bb /\ bit (m_isLocalCapturedAtTail bb) l = true.
Definition inBB_bit (s : Work) (o l : nat) : Prop := exists bb, w_bbs s !! o = Some bb /\ bit (m_isLocalCapturedInBB bb) l = true.

Section invariant.
Context (dec : Decoder) (code : CodeBlock) (bbs : list BasicBlockUpvalueInfo).
Notation num := (m_stackFrameNumSlots code).
Notation nb := (length bbs).

(** A block in a state is the block found by the traversal, with its own vectors. *)
Record block_like (bb0 bb : BasicBlockUpvalueInfo) : Prop := {
  li_same : bb = set_captures (m_isLocalCapturedAtHead bb) (m_isLocalCapturedAtTail bb) (m_isLocalCapturedInBB bb) bb0;
  li_head : bv_of num (m_isLocalCapturedAtHead bb);
  li_tail : bv_of num (m_isLocalCapturedAtTail bb);
  li_inBB : bv_of num (m_isLocalCapturedInBB bb)
}.
Definition succ_of (o o' : nat) : Prop := exists bb0, bbs !! o = Some bb0 /\ o' ∈ m_successors bb0.
Definition term_of (o t : nat) : Prop := exists bb0, bbs !! o = Some bb0 /\ m_terminalNodeBcOffset bb0 = t.
Definition created_in (o l : nat) : Prop := exists bb0 a b j, bbs !! o = Some bb0 /\ block_span dec code bb0 a b /\ a <= j < b /\ creates dec (off_at dec code j) l.

Record work_ok (s : Work) : Prop := {
  wo_blocks : Forall2 block_like bbs (w_bbs s);
  wo_queue : queue_ok nb s
}.
(** [stale]: the tail may lag behind the head; [pend]: the head of a successor may lag
    behind the tail. *)
Record cap_inv (stale : nat -> Prop) (pend : nat -> nat -> Prop) (s : Work) : Prop := {
  ci_work : work_ok s;
  ci_inBB : forall o l, inBB_bit s o l <-> created_in o l;
  ci_sound : forall o l, head_bit s o l -> exists bb0, bbs !! o = Some bb0 /\ captured dec code l (m_bytecodeOffset bb0);
  ci_pred : forall o l, head_bit s o l -> exists o', succ_of o' o /\ tail_bit s o' l;
  ci_tail : forall o l, tail_bit s o l -> (head_bit s o l \/ inBB_bit s o l) /\ exists t, term_of o t /\ ~ closes dec t l;
  ci_current : forall o l t, o ∉ w_queue s -> ~ stale o -> head_bit s o l \/ inBB_bit s o l -> term_of o t -> ~ closes dec t l -> tail_bit s o l;
  ci_succ : forall o o' l, succ_of o o' -> ~ pend o o' -> tail_bit s o l -> head_bit s o' l
}.
(** Each step of the loop makes this smaller. *)
Definition missing (s : Work) : nat := sum_list_with (fun bb => unset num (m_isLocalCapturedAtHead bb)) (w_bbs s).
Definition measure (s : Work) : nat := length (w_queue s) + missing s.
End invariant.

Lemma sum_list_insert {A} (f : A -> nat) (l : list A) i x y : l !! i = Some x -> sum_list_with f (<[i := y]> l) + f x = sum_list_with f l + f y.
Proof. revert i. induction l as [|z l IH]; intros [|i] H; simpl in *; [done|done|injection H as ->; lia|]. specialize (IH i H). lia. Qed.
Lemma sum_list_bound {A} (f : A -> nat) (l : list A) k : (forall x, f x <= k) -> sum_list_with f l <= length l * k.
Proof. intros H. induction l as [|x l IH]; simpl; [lia|]. specialize (H x). lia. Qed.

Section fixpoint.
Context (dec : Decoder) (code : CodeBlock) (Hcode : code_ok dec code) (Hcl : closures_ok dec code) (bbs : list BasicBlockUpvalueInfo) (Hg : graph_ok dec code bbs).
Notation num := (m_stackFrameNumSlots code).
Notation nb := (length bbs).
Notation block_like := (block_like code).
Notation cap_inv := (cap_inv dec code bbs).
Notation work_ok := (work_ok code bbs).
Notation succ_of := (succ_of bbs).
Notation term_of := (term_of bbs).

Lemma bit_num bv l : bv_of num bv -> bit bv l = true -> (Z.of_nat l < 2 ^ 32)%Z.
Proof using Hcl. intros Hb H. pose proof (bit_lt _ _ _ Hb H). pose proof (cl_frame _ _ Hcl). lia. Qed.
Lemma limit_closes bb l : (Z.of_nat l < 2 ^ 32)%Z -> (Z.of_nat l <? uclose_limit dec bb)%Z = true <-> ~ closes dec (m_terminalNodeBcOffset bb) l.
Proof.
  intros Hl. unfold uclose_limit, closes. rewrite Z.ltb_lt. destruct (GetIntrinsic dec _) as [|start|].
  - split; [intros _ (? & ? & _); done|]. unfold no_limit. lia.
  - split; [intros H (start' & [= <-] & ?); lia|]. intros H. destruct (Z_lt_ge_dec (Z.of_nat l) (Z.of_nat start)); [done|]. destruct H. exists start. split; [done|lia].
  - split; [intros _ (? & ? & _); done|]. unfold no_limit. lia.
Qed.
Lemma limit_nonneg bb : (0 <= uclose_limit dec bb)%Z.
Proof. unfold uclose_limit. destruct (GetIntrinsic dec _); unfold no_limit; lia. Qed.
Lemma tail_of_ok bb0 bb : block_like bb0 bb -> bv_of num (tail_of dec bb) /\
  forall l, bit (tail_of dec bb) l = true <-> (bit (m_isLocalCapturedAtHead bb) l = true \/ bit (m_isLocalCapturedInBB bb) l = true) /\ ~ closes dec (m_terminalNodeBcOffset bb0) l.
Proof using Hcl.
  intros [Hs Hh Ht Hi]. destruct (bv_of_lor _ _ _ Hh Hi) as [Hor Hbor]. unfold tail_of. destruct (limit_words _ _ _ (limit_nonneg bb) Hor) as [Ho Hb].
  split; [exact Ho|]. intros l. rewrite Hb, Hbor, andb_true_iff, orb_true_iff.
  assert (Hterm : m_terminalNodeBcOffset bb = m_terminalNodeBcOffset bb0) by (rewrite Hs; done). rewrite <- Hterm.
  split; (intros [Hor' Hc]; split; [done|]); assert (Hl : (Z.of_nat l < 2 ^ 32)%Z) by (destruct Hor' as [H|H]; [by apply (bit_num _ _ Hh)|by apply (bit_num _ _ Hi)]); by apply limit_closes.
Qed.

(** The blocks of a state by their number. *)
Lemma work_lookup s o bb : work_ok s -> w_bbs s !! o = Some bb -> exists bb0, bbs !! o = Some bb0 /\ block_like bb0 bb.
Proof. intros Hw Hb. destruct (Forall2_lookup_r _ _ _ _ _ (wo_blocks _ _ _ Hw) Hb) as (bb0 & ? & ?). eauto. Qed.
Lemma work_lookup_l s o bb0 : work_ok s -> bbs !! o = Some bb0 -> exists bb, w_bbs s !! o = Some bb /\ block_like bb0 bb.
Proof. intros Hw Hb. destruct (Forall2_lookup_l _ _ _ _ _ (wo_blocks _ _ _ Hw) Hb) as (bb & ? & ?). eauto. Qed.
Lemma block_like_set bb0 bb head tail : block_like bb0 bb -> bv_of num head -> bv_of num tail ->
  block_like bb0 (set_captures head tail (m_isLocalCapturedInBB bb) bb).
Proof. intros [Hs Hh Ht Hi] H1 H2. split; [|done|done|done]. rewrite Hs. done. Qed.
Lemma succ_lt o o' : succ_of o o' -> o' < nb.
Proof using Hg.
  intros (bb0 & Hb & Hin). pose proof (go_succs _ _ _ Hg _ _ Hb) as Hsu. apply list_elem_of_lookup in Hin as [k Hk].
  destruct (Forall2_lookup_l _ _ _ _ _ Hsu Hk) as (off & _ & bb' & Hb' & _). by eapply lookup_lt_Some.
Qed.
Lemma succ_flow o o' t bb' : succ_of o o' -> term_of o t -> bbs !! o' = Some bb' -> flow dec code t (m_bytecodeOffset bb').
Proof using Hcode Hg.
  intros (bb0 & Hb & Hin) (bb1 & Hb1 & Ht) Hb'. rewrite Hb in Hb1. injection Hb1 as <-. subst t. destruct (go_span _ _ _ Hg _ _ Hb) as (a & b & Hs). split.
  - rewrite (bs_terminal _ _ _ _ _ Hs). apply off_at_in. apply (bs_in _ _ _ _ _ Hs).
  - pose proof (go_succs _ _ _ Hg _ _ Hb) as Hsu. apply list_elem_of_lookup in Hin as [k Hk].
    destruct (Forall2_lookup_l _ _ _ _ _ Hsu Hk) as (off & Hoff & bb2 & Hb2 & Ho). rewrite Hb' in Hb2. injection Hb2 as <-. subst off. by eapply list_elem_of_lookup_2.
Qed.
(** A bit at the tail is sound. *)
Lemma tail_captured stale pend s o l : cap_inv stale pend s -> tail_bit s o l -> exists t, term_of o t /\ captured dec code l t /\ ~ closes dec t l.
Proof using Hcode Hcl Hg.
  intros Hi Ht. destruct (ci_tail _ _ _ _ _ _ Hi _ _ Ht) as (Hor & t & Hterm & Hnc). exists t. split; [done|]. split; [|done].
  destruct Hterm as (bb0 & Hb0 & <-). destruct (go_span _ _ _ Hg _ _ Hb0) as (a & b & Hsp).
  pose proof (bs_le _ _ _ _ _ Hsp). rewrite (bs_terminal _ _ _ _ _ Hsp). destruct Hor as [Hh|Hin].
  - destruct (ci_sound _ _ _ _ _ _ Hi _ _ Hh) as (bb1 & Hb1 & Hc). rewrite Hb0 in Hb1. injection Hb1 as <-. rewrite (bs_start _ _ _ _ _ Hsp) in Hc.
    apply (captured_walk _ _ Hcode Hcl bb0 a b a); [done|done|lia|lia].
  - apply (ci_inBB _ _ _ _ _ _ Hi) in Hin as (bb1 & a' & b' & j & Hb1 & Hsp1 & Hj & Hc). rewrite Hb0 in Hb1. injection Hb1 as <-.
    destruct (span_unique _ _ Hcode _ _ _ _ _ Hsp Hsp1) as [<- <-]. apply (created_walk _ _ Hcode Hcl bbs Hg o bb0 a b j); [done|done|done|lia|lia].
Qed.
Lemma tail_sound stale pend s o o' bb' l : cap_inv stale pend s -> tail_bit s o l -> succ_of o o' -> bbs !! o' = Some bb' -> captured dec code l (m_bytecodeOffset bb').
Proof using Hcode Hcl Hg.
  intros Hi Ht Hs Hb'. destruct (tail_captured _ _ _ _ _ Hi Ht) as (t & Hterm & Hc & Hnc). apply (captured_still _ _ _ t); [done|done|by eapply succ_flow].
Qed.

(** ** Propagation *)
Notation no_block := (fun _ : nat => False).
Notation no_edge := (fun _ _ : nat => False).
Definition pending (ord : nat) (succs : list nat) (o o' : nat) : Prop := o = ord /\ o' ∈ succs.
(** A head gets the bits of the tail of a predecessor. *)
Lemma head_grows ord o' succs s s' : cap_inv no_block (pending ord (o' :: succs)) s -> succ_of ord o' -> work_ok s' ->
  (forall o l, tail_bit s' o l <-> tail_bit s o l) -> (forall o l, inBB_bit s' o l <-> inBB_bit s o l) ->
  (forall o l, head_bit s' o l <-> head_bit s o l \/ (o = o' /\ tail_bit s ord l)) ->
  (forall o, o ∉ w_queue s' -> o ∉ w_queue s /\ forall l, head_bit s' o l -> head_bit s o l) ->
  cap_inv no_block (pending ord succs) s'.
Proof using Hcode Hcl Hg.
  intros Hi Hs Hw Ht Hib Hh Hq. split.
  - done.
  - intros o l. by rewrite Hib, (ci_inBB _ _ _ _ _ _ Hi).
  - intros o l [H|[-> H]]%Hh; [by apply (ci_sound _ _ _ _ _ _ Hi)|]. destruct (lookup_lt_is_Some_2 bbs o' (succ_lt _ _ Hs)) as [bb' Hb'].
    exists bb'. split; [done|]. by eapply tail_sound.
  - intros o l [H|[-> H]]%Hh; [|exists ord; by rewrite Ht]. destruct (ci_pred _ _ _ _ _ _ Hi _ _ H) as (p & Hp & Hpt). exists p. by rewrite Ht.
  - intros o l H. apply Ht in H. destruct (ci_tail _ _ _ _ _ _ Hi _ _ H) as [Hor Hc]. split; [|done]. rewrite Hh, Hib. tauto.
  - intros o l t Hnq _ Hor Hterm Hnc. destruct (Hq o Hnq) as [Hnq' Hsame]. rewrite Ht. apply (ci_current _ _ _ _ _ _ Hi _ _ t); [done|by intros []| |done|done].
    destruct Hor as [H|H]; [left; by apply Hsame|right; by rewrite <- Hib].
  - intros o o2 l Hso Hnp H. apply Ht in H. rewrite Hh. destruct (decide (o = ord /\ o2 = o')) as [[-> ->]|Hne]; [by right|left].
    apply (ci_succ _ _ _ _ _ _ Hi _ _ _ Hso); [|done]. intros [-> [->|Hin]%elem_of_cons]; [by apply Hne|]. by apply Hnp.
Qed.
Definition at_tail (s : Work) (o : nat) (tail : BitVector) : Prop := exists bb, w_bbs s !! o = Some bb /\ m_isLocalCapturedAtTail bb = tail.
Lemma wp_get_bb E o bb Q s : w_bbs s !! o = Some bb -> Q bb s -> wp E (get_bb o) Q s.
Proof. intros Hb HQ. unfold get_bb, wp. by rewrite Hb. Qed.
Lemma wp_set_bb E o bb Q s : Q tt (mk_work (<[o := bb]> (w_bbs s)) (w_queue s) (w_inQueue s)) -> wp E (set_bb o bb) Q s.
Proof. done. Qed.
(** The vectors of the blocks after one block was changed. *)
Lemma updated_bits s s' o' bb bb' : w_bbs s !! o' = Some bb -> w_bbs s' = <[o' := bb']> (w_bbs s) -> forall o l,
  (head_bit s' o l <-> if decide (o = o') then bit (m_isLocalCapturedAtHead bb') l = true else head_bit s o l) /\
  (tail_bit s' o l <-> if decide (o = o') then bit (m_isLocalCapturedAtTail bb') l = true else tail_bit s o l) /\
  (inBB_bit s' o l <-> if decide (o = o') then bit (m_isLocalCapturedInBB bb') l = true else inBB_bit s o l).
Proof.
  intros Hb He o l. unfold head_bit, tail_bit, inBB_bit. rewrite He. destruct (decide (o = o')) as [->|Hne].
  - rewrite list_lookup_insert_eq by (by eapply lookup_lt_Some). naive_solver.
  - by rewrite list_lookup_insert_ne.
Qed.
Lemma own_bits s o bb l : w_bbs s !! o = Some bb ->
  (head_bit s o l <-> bit (m_isLocalCapturedAtHead bb) l = true) /\ (tail_bit s o l <-> bit (m_isLocalCapturedAtTail bb) l = true) /\ (inBB_bit s o l <-> bit (m_isLocalCapturedInBB bb) l = true).
Proof. intros Hb. unfold head_bit, tail_bit, inBB_bit. rewrite Hb. naive_solver. Qed.
Lemma work_update s s' o bb0 bb' : work_ok s -> bbs !! o = Some bb0 -> block_like bb0 bb' -> w_bbs s' = <[o := bb']> (w_bbs s) -> queue_ok nb s' -> work_ok s'.
Proof.
  intros Hw Hb0 Hl He Hq. split; [|done]. rewrite He. rewrite <- (list_insert_id bbs o bb0) by done. apply Forall2_insert; [apply (wo_blocks _ _ _ Hw)|done].
Qed.

Lemma propagate_ok ord tail succs s : cap_inv no_block (pending ord succs) s -> at_tail s ord tail -> (forall o', o' ∈ succs -> succ_of ord o') ->
  wp never (propagate tail succs) (fun _ s' => cap_inv no_block no_edge s' /\ measure code s' <= measure code s) s.
Proof using Hcode Hcl Hg.
  revert s. induction succs as [|o' succs IH]; intros s Hi Hat Hsu; cbn [propagate].
  - apply wp_ret. split; [|done]. destruct Hi as [H1 H2 H3 H4 H5 H6 H7]. split; try done. intros o o2 l Hs _. apply H7; [done|]. by intros [_ ?%elem_of_nil].
  - pose proof (ci_work _ _ _ _ _ _ Hi) as Hw. pose proof (Hsu o' ltac:(left)) as Hs. destruct (lookup_lt_is_Some_2 bbs o' (succ_lt _ _ Hs)) as [bb0 Hb0].
    destruct (work_lookup_l _ _ _ Hw Hb0) as (bb & Hb & Hl). apply wp_bind, (wp_get_bb _ _ bb); [done|]. apply wp_bind.
    destruct Hat as (bo & Hbo & Htail). destruct (work_lookup _ _ _ Hw Hbo) as (bo0 & Hbo0 & Hlo). pose proof (li_tail _ _ _ Hlo) as Htv. rewrite Htail in Htv.
    destruct (bv_of_lor _ _ _ (li_head _ _ _ Hl) Htv) as [Hv Hvb]. set (head := zip_words Z.lor (m_isLocalCapturedAtHead bb) tail) in *.
    assert (Hle : bits_le (m_isLocalCapturedAtHead bb) head) by (intros l Hb1; by rewrite Hvb, Hb1).
    assert (Htb : forall l, tail_bit s ord l <-> bit tail l = true) by (intros l; rewrite <- Htail; apply (own_bits _ _ _ l Hbo)).
    unfold when. destruct (words_differ head (m_isLocalCapturedAtHead bb)) eqn:Ed.
    + apply wp_bind, wp_set_bb. set (s1 := mk_work _ _ _). pose proof (wo_queue _ _ _ Hw) as Hq.
      eapply wp_mono; [apply (queue_push_ok nb o' s1); [destruct Hq; by split|by apply (succ_lt ord)]|]. intros _ s2 (Hq2 & Hb2 & Hin2 & Hlen2). simpl in Hb2, Hlen2.
      pose proof (fun o l => updated_bits s s2 o' _ _ Hb Hb2 o l) as Hup.
      assert (Hi2 : cap_inv no_block (pending ord succs) s2).
      { apply (head_grows ord o' succs s); [done|done| | | | |].
        - eapply (work_update s); [done|exact Hb0| |exact Hb2|done]. apply block_like_set; [done|done|apply Hl].
        - intros o l. rewrite (proj1 (proj2 (Hup o l))). destruct (decide (o = o')) as [->|]; [|done]. symmetry. apply (own_bits _ _ _ l Hb).
        - intros o l. rewrite (proj2 (proj2 (Hup o l))). destruct (decide (o = o')) as [->|]; [|done]. symmetry. apply (own_bits _ _ _ l Hb).
        - intros o l. rewrite (proj1 (Hup o l)). destruct (decide (o = o')) as [->|]; [|naive_solver]. simpl. rewrite Hvb, orb_true_iff, Htb.
          rewrite (proj1 (own_bits _ _ _ l Hb)). naive_solver.
        - intros o Hno. rewrite Hin2 in Hno. simpl in Hno. split; [tauto|]. intros l. rewrite (proj1 (Hup o l)). rewrite decide_False by tauto. done. }
      destruct (words_differ_new num _ _ Hv (li_head _ _ _ Hl) Hle Ed) as (l & Hl1 & Hl2 & Hl3).
      eapply wp_mono; [apply IH; [exact Hi2| |intros; apply Hsu; by right]|].
      * destruct (decide (ord = o')) as [->|Hne].
        -- rewrite Hb in Hbo. injection Hbo as <-. eexists. rewrite Hb2, list_lookup_insert_eq by (by eapply lookup_lt_Some). split; [done|exact Htail].
        -- exists bo. by rewrite Hb2, list_lookup_insert_ne.
      * intros _ s3 [Hi3 Hm]. split; [done|]. etrans; [exact Hm|]. unfold measure, missing. rewrite Hb2.
        pose proof (sum_list_insert (fun bb => unset num (m_isLocalCapturedAtHead bb)) _ _ _ (set_captures head (m_isLocalCapturedAtTail bb) (m_isLocalCapturedInBB bb) bb) Hb) as Hsum.
        simpl in Hsum. pose proof (unset_new num head (m_isLocalCapturedAtHead bb) l Hle Hl1 Hl2 Hl3). lia.
    + apply wp_ret. apply (words_differ_false num) in Ed; [|done|apply Hl]. apply IH; [|by exists bo|intros; apply Hsu; by right].
      apply (head_grows ord o' succs s); try done. intros o l. split; [by left|]. intros [?|[-> Ht]]; [done|]. apply (own_bits _ _ _ l Hb). rewrite <- Ed, Hvb.
      apply Htb in Ht. by rewrite Ht, orb_true_r.
Qed.

Lemma words_grow_ok new old : bv_of num new -> bv_of num old -> bits_le old new -> words_grow new old = true.
Proof.
  intros Hn Ho Hle. apply forallb_forall. intros p Hp%list_elem_of_In. apply list_elem_of_lookup in Hp as [i Hi]. apply lookup_zip_with_Some in Hi as (w & w' & -> & Hw & Hw').
  apply orb_true_iff. right. apply Z.eqb_eq. eapply land_subset; [apply Hn|apply Ho|exact Hle|exact Hw|exact Hw'].
Qed.
(** The tail of a block becomes current. *)
Lemma tail_updated ord bb0 bb s s' : cap_inv (eq ord) no_edge s -> bbs !! ord = Some bb0 -> w_bbs s !! ord = Some bb -> block_like bb0 bb ->
  w_bbs s' = <[ord := set_captures (m_isLocalCapturedAtHead bb) (tail_of dec bb) (m_isLocalCapturedInBB bb) bb]> (w_bbs s) -> w_queue s' = w_queue s -> w_inQueue s' = w_inQueue s ->
  cap_inv no_block (pending ord (m_successors bb)) s'.
Proof using Hcode Hcl Hg.
  intros Hi Hb0 Hb Hl He Hq Hq'. pose proof (ci_work _ _ _ _ _ _ Hi) as Hw. destruct (tail_of_ok _ _ Hl) as [Hv Hvb].
  pose proof (fun o l => updated_bits s s' ord _ _ Hb He o l) as Hup. simpl in Hup.
  assert (Hh : forall o l, head_bit s' o l <-> head_bit s o l).
  { intros o l. rewrite (proj1 (Hup o l)). destruct (decide (o = ord)) as [->|]; [|done]. symmetry. apply (own_bits _ _ _ l Hb). }
  assert (Hib : forall o l, inBB_bit s' o l <-> inBB_bit s o l).
  { intros o l. rewrite (proj2 (proj2 (Hup o l))). destruct (decide (o = ord)) as [->|]; [|done]. symmetry. apply (own_bits _ _ _ l Hb). }
  assert (Hor : forall l, bit (tail_of dec bb) l = true <-> (head_bit s ord l \/ inBB_bit s ord l) /\ ~ closes dec (m_terminalNodeBcOffset bb0) l).
  { intros l. rewrite Hvb. destruct (own_bits _ _ _ l Hb) as (H1 & _ & H3). by rewrite H1, H3. }
  assert (Hgrow : forall o l, tail_bit s o l -> tail_bit s' o l).
  { intros o l Ht. rewrite (proj1 (proj2 (Hup o l))). destruct (decide (o = ord)) as [->|]; [|done]. apply Hor.
    destruct (ci_tail _ _ _ _ _ _ Hi _ _ Ht) as (? & t & (bb1 & Hb1 & <-) & ?). rewrite Hb0 in Hb1. by injection Hb1 as <-. }
  split.
  - eapply (work_update s); [done|exact Hb0| |exact He|]; [apply block_like_set; [done|apply Hl|done]|]. destruct (wo_queue _ _ _ Hw) as [H1 H2 H3]. by split; rewrite ?Hq, ?Hq'.
  - intros o l. by rewrite Hib, (ci_inBB _ _ _ _ _ _ Hi).
  - intros o l H. apply Hh in H. by apply (ci_sound _ _ _ _ _ _ Hi).
  - intros o l H. apply Hh in H. destruct (ci_pred _ _ _ _ _ _ Hi _ _ H) as (p & Hp & Hpt). exists p. auto.
  - intros o l. rewrite (proj1 (proj2 (Hup o l))), Hh, Hib. destruct (decide (o = ord)) as [->|]; [|apply (ci_tail _ _ _ _ _ _ Hi)].
    intros [? ?]%Hor. split; [done|]. exists (m_terminalNodeBcOffset bb0). split; [by exists bb0|done].
  - intros o l t Hnq _. rewrite Hh, Hib, Hq in *. intros Ho Hterm Hnc. rewrite (proj1 (proj2 (Hup o l))). destruct (decide (o = ord)) as [->|Hne].
    + apply Hor. split; [done|]. destruct Hterm as (bb1 & Hb1 & <-). rewrite Hb0 in Hb1. by injection Hb1 as <-.
    + apply (ci_current _ _ _ _ _ _ Hi _ _ t); [done|by intros ->|done|done|done].
  - intros o o' l Hs Hnp. rewrite (proj1 (proj2 (Hup o l))), Hh. destruct (decide (o = ord)) as [->|].
    + intros _. destruct Hnp. split; [done|]. destruct Hs as (bb1 & Hb1 & Hin). rewrite Hb0 in Hb1. injection Hb1 as <-. rewrite (li_same _ _ _ Hl). exact Hin.
    + intros H. apply (ci_succ _ _ _ _ _ _ Hi _ _ _ Hs); [by intros []|done].
Qed.
Lemma process_ok ord s : cap_inv (eq ord) no_edge s -> ord < nb ->
  wp never (process_bb dec ord) (fun _ s' => cap_inv no_block no_edge s' /\ measure code s' <= measure code s) s.
Proof using Hcode Hcl Hg.
  intros Hi Hlt. pose proof (ci_work _ _ _ _ _ _ Hi) as Hw. destruct (lookup_lt_is_Some_2 bbs ord Hlt) as [bb0 Hb0].
  destruct (work_lookup_l _ _ _ Hw Hb0) as (bb & Hb & Hl). unfold process_bb. apply wp_bind, (wp_get_bb _ _ bb); [done|]. cbv zeta.
  destruct (tail_of_ok _ _ Hl) as [Hv Hvb]. assert (Hle : bits_le (m_isLocalCapturedAtTail bb) (tail_of dec bb)).
  { intros l Ht. apply Hvb. destruct (own_bits _ _ _ l Hb) as (H1 & H2 & H3). apply H2 in Ht. destruct (ci_tail _ _ _ _ _ _ Hi _ _ Ht) as (Hor & t & (bb1 & Hb1 & <-) & Hnc).
    rewrite Hb0 in Hb1. injection Hb1 as <-. by rewrite <- H1, <- H3. }
  rewrite (words_grow_ok _ _ Hv (li_tail _ _ _ Hl) Hle). unfold check. apply wp_bind, wp_ret. unfold when.
  destruct (words_differ _ _) eqn:Ed.
  - apply wp_bind, wp_set_bb. set (s1 := mk_work _ _ _). assert (Hi1 : cap_inv no_block (pending ord (m_successors bb)) s1) by (by eapply tail_updated).
    eapply wp_mono; [apply (propagate_ok ord); [done| |]|].
    + eexists. simpl. rewrite list_lookup_insert_eq by (by eapply lookup_lt_Some). split; [done|done].
    + intros o' Hin. exists bb0. split; [done|]. rewrite (li_same _ _ _ Hl) in Hin. exact Hin.
    + intros _ s2 [? Hm]. split; [done|]. etrans; [exact Hm|]. unfold measure, missing. simpl.
      pose proof (sum_list_insert (fun bb => unset num (m_isLocalCapturedAtHead bb)) _ _ _ (set_captures (m_isLocalCapturedAtHead bb) (tail_of dec bb) (m_isLocalCapturedInBB bb) bb) Hb) as Hsum. simpl in Hsum. lia.
  - apply wp_ret. split; [|done]. apply (words_differ_false num) in Ed; [|done|apply Hl]. destruct Hi as [H1 H2 H3 H4 H5 H6 H7]. split; try done.
    intros o l t Hnq _ Ho Hterm Hnc. destruct (decide (o = ord)) as [->|Hne]; [|apply (H6 _ _ t); [done|by intros ->|done|done|done]].
    destruct (own_bits _ _ _ l Hb) as (Hc1 & Hc2 & Hc3). apply Hc2. rewrite <- Ed. apply Hvb. rewrite <- Hc1, <- Hc3. split; [done|].
    destruct Hterm as (bb1 & Hb1 & <-). rewrite Hb0 in Hb1. by injection Hb1 as <-.
Qed.
Lemma fixpoint_ok fuel s : cap_inv no_block no_edge s -> measure code s < fuel ->
  wp never (capture_fixpoint dec fuel) (fun _ s' => cap_inv no_block no_edge s' /\ w_queue s' = []) s.
Proof using Hcode Hcl Hg.
  revert s. induction fuel as [|fuel IH]; intros s Hi Hf; [lia|]. cbn [capture_fixpoint]. apply wp_bind, wp_get. destruct (w_queue s) as [|v q] eqn:Eq; [by apply wp_ret|].
  apply wp_bind. eapply wp_mono; [apply (pop_ok nb); [apply (wo_queue _ _ _ (ci_work _ _ _ _ _ _ Hi))|by rewrite Eq]|]. intros o s1 (Hq1 & Hb1 & Hqs & Hlt & Hno).
  assert (Hi1 : cap_inv (eq o) no_edge s1).
  { destruct Hi as [[H1 H1'] H2 H3 H4 H5 H6 H7]. unfold head_bit, tail_bit, inBB_bit in *. rewrite <- Hb1 in *. split; try done.
    intros o' l t Hnq Hne. apply H6; [|by intros []]. rewrite Hqs. intros [->|]%elem_of_cons; [by apply Hne|done]. }
  apply wp_bind. eapply wp_mono; [apply process_ok; [done|done]|]. intros _ s2 [Hi2 Hm]. apply IH; [done|]. unfold measure, missing in *. rewrite Hqs in Hf. rewrite Hb1 in Hm. simpl in *. lia.
Qed.
End fixpoint.
