(* ===== verification/CapturesProps.v ===== *)
(** * The control flow and upvalue analysis

    [PassImpl::Run] on well-formed code: it returns the blocks of the reachable code, with
    the locals that some path captures at the head and at the tail of each. *)
From S2P Require Import Prelude Compiler BitVec ControlFlow Blocks Captures.
From stdpp Require Import list sorting.
#[local] Set Default Proof Using "Type".
#[local] Notation never := (fun _ : error => False).
#[local] Notation no_block := (fun _ : nat => False).
#[local] Notation no_edge := (fun _ _ : nat => False).

Section analysis.
Context (dec : Decoder) (code : CodeBlock) (Hcode : code_ok dec code) (Hcl : closures_ok dec code) (bbs : list BasicBlockUpvalueInfo) (Hg : graph_ok dec code bbs).
Notation num := (m_stackFrameNumSlots code).
Notation nb := (length bbs).
Notation work_ok := (work_ok code bbs).
Notation cap_inv := (cap_inv dec code bbs).

(** ** The start *)
(** The first [k] blocks have their closures. *)
Record init_inv (k : nat) (s : Work) : Prop := {
  ii_work : work_ok s;
  ii_head : forall o l, ~ head_bit s o l;
  ii_tail : forall o l, ~ tail_bit s o l;
  ii_inBB : forall o l, inBB_bit s o l <-> o < k /\ created_in dec code bbs o l;
  ii_queue : forall o l, o < k -> created_in dec code bbs o l -> o ∈ w_queue s
}.
Lemma init_step k bb s bv : init_inv k s -> w_bbs s !! k = Some bb -> bv_of num bv -> (forall l, bit bv l = true <-> created_in dec code bbs k l) ->
  let s' := mk_work (<[k := set_captures (m_isLocalCapturedAtHead bb) (m_isLocalCapturedAtTail bb) bv bb]> (w_bbs s)) (w_queue s) (w_inQueue s) in
  work_ok s' /\ (forall o l, ~ head_bit s' o l) /\ (forall o l, ~ tail_bit s' o l) /\ (forall o l, inBB_bit s' o l <-> o < S k /\ created_in dec code bbs o l).
Proof.
  intros Hi Hb Hv Hbv s'. pose proof (ii_work _ _ Hi) as Hw. destruct (work_lookup _ _ _ _ _ Hw Hb) as (bb0 & Hb0 & Hl).
  assert (He : w_bbs s' = <[k := set_captures (m_isLocalCapturedAtHead bb) (m_isLocalCapturedAtTail bb) bv bb]> (w_bbs s)) by done.
  pose proof (fun o l => updated_bits s s' k _ _ Hb He o l) as Hup. simpl in Hup. split; [|split; [|split]].
  - eapply (work_update code bbs s); [done|exact Hb0| |exact He|by destruct (wo_queue _ _ _ Hw)]. split; [|apply Hl|apply Hl|done].
    pose proof (li_same _ _ _ Hl) as Hs. simpl. unfold set_captures. f_equal; by rewrite Hs.
  - intros o l. rewrite (proj1 (Hup o l)). destruct (decide (o = k)) as [->|]; [|apply (ii_head _ _ Hi)]. intros H. apply (ii_head _ _ Hi k l), (own_bits _ _ _ l Hb), H.
  - intros o l. rewrite (proj1 (proj2 (Hup o l))). destruct (decide (o = k)) as [->|]; [|apply (ii_tail _ _ Hi)]. intros H. apply (ii_tail _ _ Hi k l), (own_bits _ _ _ l Hb), H.
  - intros o l. rewrite (proj2 (proj2 (Hup o l))). destruct (decide (o = k)) as [->|]; [rewrite Hbv; split; [intros ?; split; [lia|done]|tauto]|].
    rewrite (ii_inBB _ _ Hi). split; (intros [? ?]; split; [lia|done]).
Qed.
Lemma init_ok k m s : init_inv k s -> k + m = nb -> wp never (init_captures dec code (seq k m)) (fun _ s' => init_inv nb s') s.
Proof using Hcode Hcl Hg.
  revert k s. induction m as [|m IH]; intros k s Hi Hk; cbn [seq init_captures]; [apply wp_ret; by replace nb with k by lia|].
  pose proof (ii_work _ _ Hi) as Hw. destruct (lookup_lt_is_Some_2 bbs k ltac:(lia)) as [bb0 Hb0]. destruct (work_lookup_l _ _ _ _ _ Hw Hb0) as (bb & Hb & Hl).
  destruct (go_span _ _ _ Hg _ _ Hb0) as (a & b & Hsp). pose proof (bs_le _ _ _ _ _ Hsp). pose proof (bs_in _ _ _ _ _ Hsp) as Hbn.
  assert (Hoff : m_bytecodeOffset bb = off_at dec code a /\ m_terminalNodeBcOffset bb = off_at dec code b).
  { rewrite (li_same _ _ _ Hl). simpl. by rewrite (bs_start _ _ _ _ _ Hsp), (bs_terminal _ _ _ _ _ Hsp). }
  destruct Hoff as [Hoa Hob]. apply wp_bind, (wp_get_bb _ _ bb); [done|]. rewrite Hoa, Hob.
  pose proof (off_at_grows _ _ Hcode (length (m_sbIndex code)) ltac:(lia)) as Hgr. rewrite off_at_end in Hgr.
  destruct (capture_loop_ok _ _ Hcode Hcl (S (GetCurLength dec)) a b (m_isLocalCapturedInBB bb) false) as (bv & h & Hr & Hv & Hbv & Hh); [lia|lia|lia|apply Hl|].
  rewrite Hr. apply wp_bind, wp_lift_result. apply wp_bind, wp_set_bb.
  assert (Hcr : forall l, (exists j, a <= j < b /\ creates dec (off_at dec code j) l) <-> created_in dec code bbs k l).
  { intros l. split; [intros (j & ? & ?); by exists bb0, a, b, j|]. intros (bb1 & a' & b' & j & Hb1 & Hsp1 & ? & ?). rewrite Hb0 in Hb1. injection Hb1 as <-.
    destruct (span_unique _ _ Hcode _ _ _ _ _ Hsp Hsp1) as [<- <-]. by exists j. }
  destruct (init_step k bb s bv Hi Hb Hv) as (H1 & H2 & H3 & H4).
  { intros l. rewrite Hbv, Hcr. split; [|by right]. intros [Hx|?]; [|done]. apply (own_bits _ _ _ l Hb), (ii_inBB _ _ Hi) in Hx. lia. }
  set (s1 := mk_work _ _ _) in *. apply wp_bind. unfold when. destruct h.
  - eapply wp_mono; [apply (queue_push_ok nb k s1); [apply H1|lia]|]. intros _ s2 (Hq2 & Hb2 & Hin & _). apply (IH (S k)); [|lia].
    unfold head_bit, tail_bit, inBB_bit in *. split; unfold head_bit, tail_bit, inBB_bit; rewrite ?Hb2; try done.
    + split; [rewrite Hb2; apply H1|done].
    + intros o l Ho Hc. apply Hin. destruct (decide (o = k)) as [->|]; [by right|left]. apply (ii_queue _ _ Hi o l); [lia|done].
  - apply wp_ret. apply (IH (S k)); [|lia]. split; try done. intros o l Ho Hc. destruct (decide (o = k)) as [->|].
    + exfalso. apply Hcr in Hc as (j & Hj & Hc). assert (false = true) as Hff; [apply Hh; right; by exists j, l|done].
    + apply (ii_queue _ _ Hi o l); [lia|done].
Qed.
Lemma init_cap_inv s : init_inv nb s -> cap_inv no_block no_edge s.
Proof.
  intros Hi. split.
  - apply (ii_work _ _ Hi).
  - intros o l. rewrite (ii_inBB _ _ Hi). split; [tauto|]. intros Hc. split; [|done]. destruct Hc as (bb0 & _ & _ & _ & Hb & _). by eapply lookup_lt_Some.
  - intros o l H. by apply (ii_head _ _ Hi) in H.
  - intros o l H. by apply (ii_head _ _ Hi) in H.
  - intros o l H. by apply (ii_tail _ _ Hi) in H.
  - intros o l t Hq _ [H|H] _ _; [by apply (ii_head _ _ Hi) in H|]. apply (ii_inBB _ _ Hi) in H as [Ho Hc]. destruct Hq. by apply (ii_queue _ _ Hi o l).
  - intros o o' l _ _ H. by apply (ii_tail _ _ Hi) in H.
Qed.
Lemma start_inv : Forall (fresh_block dec code) bbs -> init_inv 0 (mk_work bbs [] (replicate nb false)).
Proof.
  intros Hf. assert (Hno : forall o bb l, bbs !! o = Some bb -> bit (m_isLocalCapturedAtHead bb) l = false /\ bit (m_isLocalCapturedAtTail bb) l = false /\ bit (m_isLocalCapturedInBB bb) l = false).
  { intros o bb l Hb. pose proof (Forall_lookup_1 _ _ _ _ Hf Hb) as [H1 H2 H3 _]. by rewrite H1, H2, H3, !bit_Reset. }
  split; [split; [|split]| | | |]; simpl.
  - apply Forall2_same_length_lookup_2; [done|]. intros o bb bb' Hb Hb'. rewrite Hb in Hb'. injection Hb' as <-.
    pose proof (Forall_lookup_1 _ _ _ _ Hf Hb) as [H1 H2 H3 _]. split; rewrite ?H1, ?H2, ?H3; [destruct bb; simpl in *; by subst|apply bv_of_Reset..].
  - apply length_replicate.
  - intros o. split; [intros [? _]%lookup_replicate; done|intros ?%elem_of_nil; done].
  - constructor.
  - intros o l (bb & Hb & H). destruct (Hno o bb l Hb) as (Hc & _). simpl in Hb. congruence.
  - intros o l (bb & Hb & H). destruct (Hno o bb l Hb) as (_ & Hc & _). congruence.
  - intros o l. split; [|lia]. intros (bb & Hb & H). destruct (Hno o bb l Hb) as (_ & _ & Hc). congruence.
  - lia.
Qed.
End analysis.

(** ** At the fixpoint *)
Section result.
Context (dec : Decoder) (code : CodeBlock) (Hcode : code_ok dec code) (Hcl : closures_ok dec code) (bbs : list BasicBlockUpvalueInfo) (Hg : graph_ok dec code bbs).
Context (s : Work) (Hi : cap_inv dec code bbs no_block no_edge s) (Hq : w_queue s = []).
Notation num := (m_stackFrameNumSlots code).
Notation off_at := (off_at dec code).

Lemma tail_current o l t : head_bit s o l \/ inBB_bit s o l -> term_of bbs o t -> ~ closes dec t l -> tail_bit s o l.
Proof using Hi Hq. intros. apply (ci_current _ _ _ _ _ _ Hi _ _ t); try done; [rewrite Hq; apply not_elem_of_nil|by intros []]. Qed.
(** Every path is found. *)
Lemma captured_found l off : captured dec code l off -> forall ord bb0 a b i, at_block dec code bbs off ord bb0 a b i ->
  head_bit s ord l \/ exists j, a <= j < i /\ creates dec (off_at j) l.
Proof using Hcode Hcl Hg Hi Hq.
  intros Hc. induction Hc as [off off' Hr Hcr Hf|off off' Hc IH Hnc Hf]; intros ord' bb' a' b' i' Hat'.
  - destruct (reachable_block _ _ Hcode _ Hg _ Hr) as (ord & bb & a & b & i & Hat). pose proof (creates_inside _ _ Hcode Hcl _ Hg _ _ _ _ _ _ _ Hat Hcr) as Hlt.
    destruct (flow_block _ _ Hcode _ Hg _ _ _ _ _ _ _ Hat Hf) as [[_ Hat2]|[-> _]]; [|lia].
    destruct (at_block_unique _ _ Hcode _ Hg _ _ _ _ _ _ _ _ _ _ _ Hat2 Hat') as (-> & -> & -> & -> & ->). destruct Hat as (_ & _ & Hi' & ->). right. exists i. split; [lia|done].
  - destruct (reachable_block _ _ Hcode _ Hg _ (captured_reachable _ _ _ _ Hc)) as (ord & bb & a & b & i & Hat). specialize (IH _ _ _ _ _ Hat).
    destruct (flow_block _ _ Hcode _ Hg _ _ _ _ _ _ _ Hat Hf) as [[_ Hat2]|(-> & ord2 & bb2 & a2 & b2 & Hsu & Hat2)];
      destruct (at_block_unique _ _ Hcode _ Hg _ _ _ _ _ _ _ _ _ _ _ Hat2 Hat') as (-> & -> & -> & -> & ->).
    + destruct IH as [?|(j & Hj & ?)]; [by left|right; exists j; split; [lia|done]].
    + left. destruct Hat as (Hb & Hs & _ & ->). assert (Hso : succ_of bbs ord ord2) by (by exists bb). apply (ci_succ _ _ _ _ _ _ Hi _ _ _ Hso); [by intros []|].
      apply (tail_current _ _ (off_at b)); [|exists bb; split; [done|apply (bs_terminal _ _ _ _ _ Hs)]|done].
      destruct IH as [?|(j & Hj & ?)]; [by left|right]. apply (ci_inBB _ _ _ _ _ _ Hi). by exists bb, a, b, j.
Qed.
Lemma head_exact o bb0 l : bbs !! o = Some bb0 -> head_bit s o l <-> captured dec code l (m_bytecodeOffset bb0).
Proof using Hcode Hcl Hg Hi Hq.
  intros Hb. split.
  - intros H. destruct (ci_sound _ _ _ _ _ _ Hi _ _ H) as (bb1 & Hb1 & Hc). rewrite Hb in Hb1. by injection Hb1 as <-.
  - intros Hc. destruct (at_start _ _ _ Hg _ _ Hb) as (a & b & Hat). destruct (captured_found _ _ Hc _ _ _ _ _ Hat) as [?|(j & Hj & _)]; [done|lia].
Qed.
Lemma tail_exact o bb0 l : bbs !! o = Some bb0 -> tail_bit s o l <-> captured dec code l (m_terminalNodeBcOffset bb0) /\ ~ closes dec (m_terminalNodeBcOffset bb0) l.
Proof using Hcode Hcl Hg Hi Hq.
  intros Hb. split.
  - intros H. destruct (tail_captured _ _ Hcode Hcl _ Hg _ _ _ _ _ Hi H) as (t & (bb1 & Hb1 & <-) & Hc). rewrite Hb in Hb1. by injection Hb1 as <-.
  - intros [Hc Hnc]. destruct (go_span _ _ _ Hg _ _ Hb) as (a & b & Hs). pose proof (bs_le _ _ _ _ _ Hs).
    apply (tail_current _ _ (m_terminalNodeBcOffset bb0)); [|by exists bb0|done].
    destruct (captured_found _ _ Hc o bb0 a b b) as [?|(j & Hj & ?)]; [|by left|right].
    + split; [done|]. split; [done|]. split; [lia|apply (bs_terminal _ _ _ _ _ Hs)].
    + apply (ci_inBB _ _ _ _ _ _ Hi). by exists bb0, a, b, j.
Qed.

Lemma forallb_every {A} (f : A -> bool) (l : list A) : (forall i x, l !! i = Some x -> f x = true) -> forallb f l = true.
Proof. intros H. apply forallb_forall. intros x Hx%list_elem_of_In. apply list_elem_of_lookup in Hx as [i Hx]. eauto. Qed.
Lemma bool_iff (b c : bool) : (b = true <-> c = true) -> eqb b c = true.
Proof. destruct b, c; naive_solver. Qed.
Lemma at_fixpoint_ok : at_fixpoint dec code (w_bbs s) = true.
Proof using Hcode Hcl Hg Hi Hq.
  pose proof (ci_work _ _ _ _ _ _ Hi) as Hw. unfold at_fixpoint. apply forallb_every. intros i [o bb]. rewrite list_lookup_imap. intros (bb2 & Hb & [= -> ->])%fmap_Some.
  destruct (work_lookup _ _ _ _ _ Hw Hb) as (bb0 & Hb0 & Hl). rewrite !andb_true_iff. split; [split|]; apply forallb_every; intros j l Hl'.
  - apply list_elem_of_lookup_2, elem_of_seq in Hl'. pose proof (cl_frame _ _ Hcl). pose proof (limit_closes dec bb2 l ltac:(lia)) as Hlim. destruct (own_bits _ _ _ l Hb) as (H1 & H2 & H3).
    assert (Hterm : term_of bbs i (m_terminalNodeBcOffset bb2)) by (exists bb0; split; [done|by rewrite (li_same _ _ _ Hl)]).
    destruct (_ <? _)%Z; [apply bool_iff; rewrite orb_true_iff, <- H1, <- H2, <- H3; split|].
    + intros Hor. apply (tail_current _ _ _ Hor Hterm). by apply Hlim.
    + intros Ht. by apply (ci_tail _ _ _ _ _ _ Hi).
    + apply negb_true_iff, not_true_iff_false. rewrite <- H2. intros Ht. destruct (ci_tail _ _ _ _ _ _ Hi _ _ Ht) as (_ & t & (bb1 & Hb1 & <-) & Hnc).
      rewrite Hb0 in Hb1. injection Hb1 as <-. destruct Hterm as (bb1 & Hb1 & He). rewrite Hb0 in Hb1. injection Hb1 as <-. rewrite He in Hnc. by apply Hlim in Hnc.
  - assert (Hs : succ_of bbs i l) by (exists bb0; split; [done|]; apply list_elem_of_lookup_2 in Hl'; by rewrite (li_same _ _ _ Hl) in Hl').
    destruct (lookup_lt_is_Some_2 bbs l (succ_lt _ _ _ Hg _ _ Hs)) as [bb1 Hb1]. destruct (work_lookup_l _ _ _ _ _ Hw Hb1) as (bb' & Hb' & _). rewrite Hb'.
    apply forallb_every. intros k v _. apply implb_true_iff. intros Ht. apply (own_bits _ _ _ v Hb'). apply (ci_succ _ _ _ _ _ _ Hi _ _ _ Hs); [by intros []|]. by apply (own_bits _ _ _ v Hb).
  - apply implb_true_iff. intros Hh. apply (own_bits _ _ _ l Hb) in Hh. destruct (ci_pred _ _ _ _ _ _ Hi _ _ Hh) as (p & (bp0 & Hp0 & Hin) & (bp & Hp & Ht)).
    apply existsb_exists. exists bp. split; [apply list_elem_of_In; by eapply list_elem_of_lookup_2|]. rewrite Ht, andb_true_r. apply bool_decide_eq_true.
    destruct (work_lookup _ _ _ _ _ Hw Hp) as (bp1 & Hp1 & Hlp). rewrite Hp0 in Hp1. injection Hp1 as <-. by rewrite (li_same _ _ _ Hlp).
Qed.
Lemma all_closed_ok : all_closed code (w_bbs s) = true.
Proof using Hcode Hcl Hg Hi.
  pose proof (ci_work _ _ _ _ _ _ Hi) as Hw. apply forallb_every. intros o bb Hb. destruct (work_lookup _ _ _ _ _ Hw Hb) as (bb0 & Hb0 & Hl).
  apply orb_true_iff. case_bool_decide as He; [right|by left]. apply forallb_every. intros j l _. apply negb_true_iff, not_true_iff_false. intros Ht. apply (own_bits _ _ _ l Hb) in Ht.
  destruct (tail_captured _ _ Hcode Hcl _ Hg _ _ _ _ _ Hi Ht) as (t & (bb1 & Hb1 & <-) & Hc & Hnc). rewrite Hb0 in Hb1. injection Hb1 as <-. apply Hnc, (cl_exit _ _ Hcl); [done|].
  pose proof (go_succs _ _ _ Hg _ _ Hb0) as Hsu. unfold succs_ok in Hsu. rewrite (li_same _ _ _ Hl) in He. simpl in He. rewrite He in Hsu. by apply Forall2_nil_inv_l in Hsu.
Qed.
Lemma nothing_queued : forallb negb (w_inQueue s) = true.
Proof using Hi Hq.
  apply forallb_every. intros o b Hb. destruct b; [|done]. apply (qo_in _ _ (wo_queue _ _ _ (ci_work _ _ _ _ _ _ Hi))) in Hb. rewrite Hq in Hb. by apply elem_of_nil in Hb.
Qed.
End result.

(** ** The blocks that are returned *)
Definition same_block (bb bb' : BasicBlockUpvalueInfo) : Prop :=
  m_bytecodeOffset bb' = m_bytecodeOffset bb /\ m_terminalNodeBcOffset bb' = m_terminalNodeBcOffset bb /\ m_successors bb' = m_successors bb.
Lemma span_same dec code bb bb' a b : same_block bb bb' -> block_span dec code bb a b <-> block_span dec code bb' a b.
Proof. intros (H1 & H2 & _). split; intros [Hle Hin Hs Ht Hp]; split; first [done|congruence]. Qed.
Lemma graph_same dec code bbs bbs' : Forall2 same_block bbs bbs' -> graph_ok dec code bbs -> graph_ok dec code bbs'.
Proof.
  intros HF Hg. assert (Hl : forall o bb', bbs' !! o = Some bb' -> exists bb, bbs !! o = Some bb /\ same_block bb bb') by (intros o bb' H; apply (Forall2_lookup_r _ _ _ _ _ HF H)).
  assert (Hst : forall o off, starts_at bbs o off -> starts_at bbs' o off).
  { intros o off (bb & Hb & <-). destruct (Forall2_lookup_l _ _ _ _ _ HF Hb) as (bb' & Hb' & He & _). by exists bb'. }
  split.
  - apply Hst, (go_entry _ _ _ Hg).
  - intros o bb' (bb & Hb & Hs)%Hl. destruct (go_span _ _ _ Hg _ _ Hb) as (a & b & Hsp). exists a, b. by apply (span_same _ _ bb).
  - intros o bb' (bb & Hb & Hs)%Hl. destruct Hs as [-> _]. by eapply go_reach.
  - intros o bb' (bb & Hb & Hs)%Hl. destruct Hs as (_ & Ht & Hsu). unfold succs_ok. rewrite Ht, Hsu. eapply Forall2_impl; [apply (go_succs _ _ _ Hg _ _ Hb)|]. auto.
  - intros o bb' a b (bb & Hb & Hs)%Hl Hsp. apply (span_same _ _ _ _ _ _ Hs) in Hsp. by eapply go_end.
  - intros o o2 bb' bb2' a b a2 b2 (bb & Hb & Hs)%Hl (bb2 & Hb2 & Hs2)%Hl Hsp Hsp2. apply (span_same _ _ _ _ _ _ Hs) in Hsp. apply (span_same _ _ _ _ _ _ Hs2) in Hsp2.
    by eapply go_disjoint.
Qed.

(** What the analysis says of a block. *)
Record block_result (dec : Decoder) (code : CodeBlock) (bb : BasicBlockUpvalueInfo) (a b : nat) : Prop := {
  br_index : m_bytecodeIndex bb = a;
  br_count : m_numBytecodesInBB bb = b - a + 1;
  br_head_vector : bv_of (m_stackFrameNumSlots code) (m_isLocalCapturedAtHead bb);
  br_tail_vector : bv_of (m_stackFrameNumSlots code) (m_isLocalCapturedAtTail bb);
  br_head : forall l, bit (m_isLocalCapturedAtHead bb) l = true <-> captured dec code l (off_at dec code a);
  br_tail : forall l, bit (m_isLocalCapturedAtTail bb) l = true <-> captured dec code l (off_at dec code b) /\ ~ closes dec (off_at dec code b) l
}.
Definition analyzed (dec : Decoder) (code : CodeBlock) (bbs : list BasicBlockUpvalueInfo) : Prop :=
  graph_ok dec code bbs /\ forall ord bb a b, bbs !! ord = Some bb -> block_span dec code bb a b -> block_result dec code bb a b.

Section run.
Context (dec : Decoder) (code : CodeBlock) (Hcode : code_ok dec code).
Lemma set_index_ok bb a b : block_span dec code bb a b ->
  exists bb', set_index code bb = Ok bb' /\ same_block bb bb' /\ m_bytecodeIndex bb' = a /\ m_numBytecodesInBB bb' = b - a + 1 /\
    m_isLocalCapturedAtHead bb' = m_isLocalCapturedAtHead bb /\ m_isLocalCapturedAtTail bb' = m_isLocalCapturedAtTail bb.
Proof using Hcode.
  intros Hs. pose proof (bs_le _ _ _ _ _ Hs) as Hle. pose proof (bs_in _ _ _ _ _ Hs). unfold set_index. rewrite (bs_start _ _ _ _ _ Hs), (bs_terminal _ _ _ _ _ Hs).
  rewrite !(index_of_offset _ _ Hcode) by lia. cbn [mbind result_bind]. apply Nat.leb_le in Hle. rewrite Hle. cbn [negb]. eexists. split; [done|]. split; [|done].
  split; [by rewrite (bs_start _ _ _ _ _ Hs)|]. split; [by rewrite (bs_terminal _ _ _ _ _ Hs)|done].
Qed.
Lemma set_indices_ok bbs : (forall bb, bb ∈ bbs -> exists a b, block_span dec code bb a b) ->
  exists bbs', set_indices code bbs = Ok bbs' /\ Forall2 (fun bb bb' => same_block bb bb' /\ (forall a b, block_span dec code bb a b -> m_bytecodeIndex bb' = a /\ m_numBytecodesInBB bb' = b - a + 1) /\
    m_isLocalCapturedAtHead bb' = m_isLocalCapturedAtHead bb /\ m_isLocalCapturedAtTail bb' = m_isLocalCapturedAtTail bb) bbs bbs'.
Proof using Hcode.
  induction bbs as [|bb bbs IH]; intros Hsp; [by exists []; split; [|constructor]|]. destruct (Hsp bb ltac:(left)) as (a & b & Hs).
  destruct (set_index_ok _ _ _ Hs) as (bb' & He & Hsame & Ha & Hb & Hh). destruct IH as (bbs' & He' & HF); [intros bb2 Hin; apply Hsp; by right|].
  exists (bb' :: bbs'). cbn [set_indices]. rewrite He, He'. split; [done|]. constructor; [|done]. split; [done|]. split; [|done].
  intros a' b' Hs'. by destruct (span_unique _ _ Hcode _ _ _ _ _ Hs Hs') as [<- <-].
Qed.

Lemma analysis_ok : closures_ok dec code -> exists bbs, RunControlFlowAndUpvalueAnalysis dec code = Ok bbs /\ analyzed dec code bbs.
Proof using Hcode.
  intros Hcl. destruct (GenerateBytecodeOffsetToBBMap_ok _ _ Hcode) as (bbs0 & Hgen & Hg & Hf). unfold RunControlFlowAndUpvalueAnalysis. rewrite Hgen. cbn [mbind result_bind].
  set (n := length bbs0). set (s0 := mk_work bbs0 [] (replicate n false)). unfold AnalyzeLocalCaptures. fold n. fold s0. set (fuel := S _).
  assert (Hrun : wp never (init_captures dec code (seq 0 n) ;; capture_fixpoint dec fuel) (fun _ s => cap_inv dec code bbs0 no_block no_edge s /\ w_queue s = []) s0).
  { apply wp_bind. eapply wp_mono; [apply (init_ok _ _ Hcode Hcl _ Hg); [by apply start_inv|lia]|]. intros [] s Hi. apply (fixpoint_ok _ _ Hcode Hcl _ Hg); [by apply init_cap_inv|].
    pose proof (queue_bound _ _ (wo_queue _ _ _ (ii_work _ _ _ _ _ Hi))) as Hqb. unfold measure, missing.
    pose proof (sum_list_bound (fun bb => unset (m_stackFrameNumSlots code) (m_isLocalCapturedAtHead bb)) (w_bbs s) _ (fun bb => unset_le _ _)) as Hsb.
    rewrite <- (Forall2_length _ _ _ (wo_blocks _ _ _ (ii_work _ _ _ _ _ Hi))) in Hsb. unfold fuel, n in *. lia. }
  apply wp_total in Hrun as (u & s & Hrun & Hi & Hq). rewrite Hrun. cbn [mbind result_bind].
  rewrite (nothing_queued _ _ _ _ Hi Hq), (at_fixpoint_ok _ _ Hcode Hcl _ Hg _ Hi Hq), (all_closed_ok _ _ Hcode Hcl _ Hg _ Hi). cbn [negb].
  pose proof (wo_blocks _ _ _ (ci_work _ _ _ _ _ _ Hi)) as HF.
  assert (Hsame : Forall2 same_block bbs0 (w_bbs s)) by (eapply Forall2_impl; [exact HF|]; intros bb0 bb Hl; rewrite (li_same _ _ _ Hl); done).
  pose proof (graph_same _ _ _ _ Hsame Hg) as Hg1.
  destruct (set_indices_ok (w_bbs s)) as (bbs & He & HF2); [intros bb (o & Hb)%list_elem_of_lookup; by eapply go_span|]. exists bbs. split; [done|].
  assert (Hsame2 : Forall2 same_block (w_bbs s) bbs) by (eapply Forall2_impl; [exact HF2|]; by intros ? ? [? _]).
  split; [by eapply graph_same|]. intros o bb a b Hb Hsp. destruct (Forall2_lookup_r _ _ _ _ _ HF2 Hb) as (bb1 & Hb1 & Hs1 & Hidx & Hh & Ht).
  destruct (Forall2_lookup_r _ _ _ _ _ HF Hb1) as (bb0 & Hb0 & Hl). apply (span_same _ _ _ _ _ _ Hs1) in Hsp. destruct (Hidx _ _ Hsp) as [Ha Hc].
  assert (Hsp0 : block_span dec code bb0 a b) by (apply (span_same dec code bb0 bb1); [rewrite (li_same _ _ _ Hl); done|done]).
  split; [done|done|rewrite Hh; apply Hl|rewrite Ht; apply Hl| |]; intros l; destruct (own_bits _ _ _ l Hb1) as (H1 & H2 & _).
  - rewrite Hh, <- H1, (head_exact _ _ Hcode Hcl _ Hg _ Hi Hq _ _ _ Hb0). by rewrite (bs_start _ _ _ _ _ Hsp0).
  - rewrite Ht, <- H2, (tail_exact _ _ Hcode Hcl _ Hg _ Hi Hq _ _ _ Hb0). by rewrite (bs_terminal _ _ _ _ _ Hsp0).
Qed.
End run.

(** ** What the pass returns *)
(** C14: on well-formed code the traversal returns the basic blocks of the code that can be
    reached: each reachable bytecode is in just one block, and no other is in one; the
    bytecodes of a block before its last neither branch nor stop; a block ends with a
    branch or a barrier or before a branch target; its successors, in order, are the
    blocks that start at the next bytecode, unless the last one is a barrier, and at the
    branch target, if it has one; the first block is the entry. *)
Theorem basic_blocks_exact dec code : code_ok dec code ->
  exists bbs, GenerateBytecodeOffsetToBBMap dec code = Ok bbs /\ starts_at bbs 0 0 /\
    (forall i, i < length (m_sbIndex code) -> reachable dec code (off_at dec code i) <-> exists ord bb a b, bbs !! ord = Some bb /\ block_span dec code bb a b /\ a <= i <= b) /\
    (forall ord ord' bb bb' a b a' b' i, bbs !! ord = Some bb -> bbs !! ord' = Some bb' -> block_span dec code bb a b -> block_span dec code bb' a' b' ->
       a <= i <= b -> a' <= i <= b' -> ord = ord') /\
    (forall ord bb, bbs !! ord = Some bb -> exists a b, block_span dec code bb a b /\
       Forall2 (starts_at bbs) (m_successors bb) (targets dec (off_at dec code b)) /\
       (terminal_at dec (off_at dec code b) = true \/
        exists j, j < length (m_sbIndex code) /\ BytecodeHasBranchOperand dec (off_at dec code j) = true /\ GetBranchTarget dec (off_at dec code j) = off_at dec code (S b))).
Proof.
  intros Hcode. destruct (GenerateBytecodeOffsetToBBMap_ok _ _ Hcode) as (bbs & Hrun & Hg & _). exists bbs. split; [done|]. split; [apply (go_entry _ _ _ Hg)|]. split; [|split].
  - intros i Hi. split.
    + intros Hr. destruct (reachable_block _ _ Hcode _ Hg _ Hr) as (ord & bb & a & b & j & Hb & Hs & Hj & He). pose proof (bs_in _ _ _ _ _ Hs).
      apply (off_at_inj _ _ Hcode) in He; [|lia|lia]. subst j. eauto 10.
    + intros (ord & bb & a & b & Hb & Hs & Hj). by apply (block_reachable _ _ Hcode bbs Hg _ ord bb a b i).
  - intros ord ord' bb bb' a b a' b' i Hb Hb' Hs Hs' Hi Hi'. apply (go_disjoint _ _ _ Hg _ _ _ _ _ _ _ _ Hb Hb' Hs Hs'); lia.
  - intros ord bb Hb. destruct (go_span _ _ _ Hg _ _ Hb) as (a & b & Hs). exists a, b. split; [done|]. split; [|by eapply go_end].
    rewrite <- (bs_terminal _ _ _ _ _ Hs). by eapply go_succs.
Qed.

(** C13: the analysis of captured locals ends, and is exact.  On well-formed code in which
    a closure that captures is not the last of its block, upvalues are closed by the last
    bytecode of a block and all are closed where the function is left, the pass returns
    without a failed assertion; each block has the number of its first bytecode and its
    count, and a bit at its head says that some path from the entry captures the local
    and does not close it before the block, a bit at its tail that the same holds after
    its last bytecode. *)
Theorem captures_exact dec code : code_ok dec code -> closures_ok dec code ->
  exists bbs, RunControlFlowAndUpvalueAnalysis dec code = Ok bbs /\
    forall ord bb, bbs !! ord = Some bb -> exists a b, block_span dec code bb a b /\
      m_bytecodeIndex bb = a /\ m_numBytecodesInBB bb = b - a + 1 /\
      m_length (m_isLocalCapturedAtHead bb) = m_stackFrameNumSlots code /\ m_length (m_isLocalCapturedAtTail bb) = m_stackFrameNumSlots code /\
      forall l, (bit (m_isLocalCapturedAtHead bb) l = true <-> captured dec code l (off_at dec code a)) /\
        (bit (m_isLocalCapturedAtTail bb) l = true <-> captured dec code l (off_at dec code b) /\ ~ closes dec (off_at dec code b) l).
Proof.
  intros Hcode Hcl. destruct (analysis_ok _ _ Hcode Hcl) as (bbs & Hrun & Hg & Hr). exists bbs. split; [done|]. intros ord bb Hb.
  destruct (go_span _ _ _ Hg _ _ Hb) as (a & b & Hs). destruct (Hr _ _ _ _ Hb Hs) as [H1 H2 H3 H4 H5 H6]. exists a, b. split_and!; try done; [apply H3|apply H4].
Qed.

(** ** A function

    Ten bytecodes of eight bytes: local 0 is captured, then a loop counts with local 2, the
    upvalues are closed and 0 and 2 are returned; the last one cannot be reached. *)
Record Instr : Type := mk_instr { i_barrier : bool; i_branch : option nat; i_intrinsic : Intrinsic; i_reads : list BytecodeRWCDesc; i_writes : list BytecodeRWCDesc }.
Definition local (l : nat) : BytecodeRWCDesc := mk_rwc LocalBV l 0.
Definition decoder_of (is_ : list Instr) : Decoder :=
  let at_ {A} (f : Instr -> A) (d : A) off := match is_ !! (off / 8) with Some i => f i | None => d end in
  mk_decoder (8 * length is_) (fun off => off + 8) (at_ i_barrier false) (at_ (fun i => bool_decide (is_Some (i_branch i))) false)
    (at_ (fun i => default 0 (i_branch i)) 0) (at_ i_intrinsic NoIntrinsic) (at_ i_reads []) (at_ i_writes []).
Definition code_of (num : nat) (is_ : list Instr) : CodeBlock := mk_code num ((fun i => 8 * i) <$> seq 0 (length is_)).
Definition loop_instrs : list Instr :=
  [mk_instr false None NoIntrinsic [] [local 0];
   mk_instr false None NoIntrinsic [] [local 2];
   mk_instr false None (CreateClosure [mk_uvmeta false true 0]) [mk_rwc ConstantBV 0 0] [local 1];
   mk_instr false None NoIntrinsic [] [];
   mk_instr false (Some 56) NoIntrinsic [local 2] [];
   mk_instr false None NoIntrinsic [local 1] [local 2];
   mk_instr true (Some 32) NoIntrinsic [] [];
   mk_instr false (Some 64) (UpvalueClose 0) [] [];
   mk_instr true None NoIntrinsic [local 0; local 2] [];
   mk_instr true None NoIntrinsic [local 1] []].
Definition loop_decoder : Decoder := decoder_of loop_instrs.
Definition loop_code : CodeBlock := code_of 3 loop_instrs.

Lemma below_10 (P : nat -> Prop) : Forall P (seq 0 10) -> forall i, i < 10 -> P i.
Proof. intros H i Hi. rewrite Forall_forall in H. apply H, elem_of_seq. lia. Qed.
Lemma loop_code_ok : code_ok loop_decoder loop_code.
Proof.
  split; [done| | |].
  - change (length (m_sbIndex loop_code)) with 10. apply below_10. repeat (apply Forall_cons; split; [vm_compute; split; [lia|done]|]). apply Forall_nil_2.
  - intros off [= <-]. done.
  - intros off Hin. change (m_sbIndex loop_code) with [0; 8; 16; 24; 32; 40; 48; 56; 64; 72] in *.
    rewrite !elem_of_cons in Hin. destruct Hin as [->|[->|[->|[->|[->|[->|[->|[->|[->|[->|?%elem_of_nil]]]]]]]]]]; try done; intros _; by apply (bool_decide_unpack _).
Qed.

Lemma loop_bytecode off : off ∈ m_sbIndex loop_code -> off ∈ [0; 8; 16; 24; 32; 40; 48; 56; 64; 72].
Proof. done. Qed.
#[local] Ltac each_bytecode H :=
  apply loop_bytecode in H; rewrite !elem_of_cons in H; destruct H as [->|[->|[->|[->|[->|[->|[->|[->|[->|[->|?%elem_of_nil]]]]]]]]]]; [..|done].
#[local] Ltac know_targets H := lazymatch type of H with ?x ∈ ?t => let t' := eval vm_compute in t in change (x ∈ t') in H end; rewrite ?elem_of_cons, elem_of_nil in H.
Lemma loop_creates off l : off ∈ m_sbIndex loop_code -> creates loop_decoder off l -> off = 16 /\ l = 0.
Proof.
  intros Hin (uvs & uv & He & Hu & _ & <-). each_bytecode Hin; try discriminate He. injection He as <-. by apply list_elem_of_singleton in Hu as ->.
Qed.
Lemma loop_captured l off : captured loop_decoder loop_code l off -> l = 0 /\ off ∈ [24; 32; 40; 48; 56].
Proof.
  induction 1 as [off off' _ Hcr [Hin Ht]|off off' _ [-> IH] Hncl [Hin Ht]].
  - destruct (loop_creates off l Hin Hcr) as [-> ->]. split; [done|]. apply list_elem_of_singleton in Ht as ->. left.
  - split; [done|]. rewrite !elem_of_cons in IH. destruct IH as [->|[->|[->|[->|[->|?%elem_of_nil]]]]]; [..|done].
    5: { exfalso. apply Hncl. exists 0. split; [done|lia]. }
    all: know_targets Ht; rewrite !elem_of_cons; intuition.
Qed.
Lemma loop_closures_ok : closures_ok loop_decoder loop_code.
Proof.
  split.
  - done.
  - intros off l Hin Hc. destruct (loop_creates off l Hin Hc) as [_ ->]. simpl. lia.
  - intros i l Hi Hc. pose proof (off_at_in loop_decoder loop_code i Hi) as Hin. destruct (loop_creates _ l Hin Hc) as [He _]. rewrite He.
    assert (i = 2) as -> by (apply (off_at_inj _ _ loop_code_ok); [lia|change (length (m_sbIndex loop_code)) with 10; lia|exact He]). split; [done|].
    apply (below_10 (fun j => BytecodeHasBranchOperand loop_decoder (off_at loop_decoder loop_code j) = true -> GetBranchTarget loop_decoder (off_at loop_decoder loop_code j) <> 24)).
    repeat (apply Forall_cons; split; [vm_compute; intros; done|]). apply Forall_nil_2.
  - intros off start Hin He. each_bytecode Hin; try discriminate He. done.
  - intros off l [-> Hin]%loop_captured Ht. rewrite !elem_of_cons in Hin. destruct Hin as [->|[->|[->|[->|[->|?%elem_of_nil]]]]]; done.
Qed.

Lemma loop_unreachable : ~ reachable loop_decoder loop_code 72.
Proof. intros Hr. apply rtc_inv_r in Hr as [H|(y & _ & [Hin Ht])]; [discriminate H|]. each_bytecode Hin; know_targets Ht; intuition discriminate. Qed.
Lemma loop_reachable : rtc (flow loop_decoder loop_code) 0 16.
Proof. apply (rtc_l _ _ 8); [|apply (rtc_l _ _ 16); [|apply rtc_refl]]; (split; [by apply (bool_decide_unpack _)|left]). Qed.

Lemma basic_blocks_exact_witness : exists bbs, GenerateBytecodeOffsetToBBMap loop_decoder loop_code = Ok bbs /\ starts_at bbs 0 0 /\
  ~ exists ord bb a b, bbs !! ord = Some bb /\ block_span loop_decoder loop_code bb a b /\ a <= 9 <= b.
Proof.
  destruct (basic_blocks_exact loop_decoder loop_code loop_code_ok) as (bbs & Hrun & H0 & Hreach & _). exists bbs. split; [exact Hrun|]. split; [exact H0|].
  rewrite <- (Hreach 9) by (vm_compute; lia). exact loop_unreachable.
Defined.
Lemma captures_exact_witness : exists bbs, RunControlFlowAndUpvalueAnalysis loop_decoder loop_code = Ok bbs /\
  forall ord bb, bbs !! ord = Some bb -> m_bytecodeOffset bb = 32 -> bit (m_isLocalCapturedAtHead bb) 0 = true.
Proof.
  destruct (captures_exact loop_decoder loop_code loop_code_ok loop_closures_ok) as (bbs & Hrun & Hall). exists bbs. split; [exact Hrun|].
  intros ord bb Hb Hoff. destruct (Hall ord bb Hb) as (a & b & Hs & _ & _ & _ & _ & Hbits). apply (Hbits 0). rewrite <- (bs_start _ _ _ _ _ Hs), Hoff.
  apply (captured_still _ _ _ 24).
  - apply (captured_new _ _ _ 16); [exact loop_reachable| |split; [by apply (bool_decide_unpack _)|left]].
    eexists _, _. split; [reflexivity|]. split; [left|]. by split.
  - by intros (start & H & _).
  - split; [by apply (bool_decide_unpack _)|left].
Defined.

(** What the compiler emits at the end of a method that captured a local: the upvalues are
    closed by a bytecode that does not branch, before the return.  The analysis takes no
    notice of it, and its last assertion fails. *)
Definition close_return_instrs : list Instr :=
  [mk_instr false None (CreateClosure [mk_uvmeta false true 0]) [mk_rwc ConstantBV 0 0] [local 1];
   mk_instr false None (UpvalueClose 0) [] [];
   mk_instr true None NoIntrinsic [local 1] []].
Example close_before_return_fails : RunControlFlowAndUpvalueAnalysis (decoder_of close_return_instrs) (code_of 2 close_return_instrs) =
  Err (AssertFailed "A basic block with no successors must have closed all upvalues at end!").
Proof. vm_compute. reflexivity. Qed.
(** A closure that captures, as the last bytecode before a branch target, is overlooked. *)
Definition last_closure_instrs : list Instr :=
  [mk_instr false None NoIntrinsic [] [local 0];
   mk_instr false None (CreateClosure [mk_uvmeta false true 0]) [mk_rwc ConstantBV 0 0] [local 1];
   mk_instr false (Some 0) NoIntrinsic [] [];
   mk_instr false (Some 16) NoIntrinsic [] [];
   mk_instr true None NoIntrinsic [local 0] []].
Example last_closure_overlooked :
  match RunControlFlowAndUpvalueAnalysis (decoder_of last_closure_instrs) (code_of 2 last_closure_instrs) with
  | Ok bbs => map (fun bb => (m_bytecodeOffset bb, bit (m_isLocalCapturedAtHead bb) 0)) bbs
  | Err _ => []
  end = [(0, false); (16, false); (24, false); (32, false)].
Proof. vm_compute. reflexivity. Qed.
