(* ===== verification/Liveness.v ===== *)
(** * Liveness of locals

    [drt/dfg_bytecode_liveness.cpp]: for every bytecode the locals that are live before it
    reads its inputs, and after, from the blocks of [ControlFlow.v]. *)
From S2P Require Import Prelude Compiler BitVec ControlFlow.
From stdpp Require Import list sorting.
#[local] Set Default Proof Using "Type".

(** Both vectors are of one length; [bv] only gets more bits. *)
Definition UpdateBitVectorAfterMonotonicPropagation (bv copyFrom : BitVector) : result (BitVector * bool) :=
  if negb (m_length bv =? m_length copyFrom) then Err (AssertFailed "bv.m_length == copyFrom.m_length")
  else if negb (forallb (fun p => (Z.land p.1 p.2 =? p.1)%Z) (zip (m_data bv) (m_data copyFrom)))
  then Err (AssertFailed "(bvData[i] & copyFromData[i]) == bvData[i]")
  else Ok (mk_bv (m_data copyFrom) (m_length bv), words_differ bv copyFrom).

Record BytecodeLivenessBBInfo : Type := mk_live {
  m_numBytecodes : nat;
  m_firstBytecodeIndex : nat;
  m_info : list nat;
  m_infoIndex : list nat;
  m_atHead : BitVector;
  m_atTail : BitVector;
  m_andMask : BitVector;
  m_orMask : BitVector;
  l_successors : list nat;
  m_lastChangedEpoch : nat;
  m_lastCheckedEpoch : nat;
  m_hasPredecessor : bool
}.

Section liveness.
Context (dec : Decoder) (code : CodeBlock).
Notation numLocals := (m_stackFrameNumSlots code).

(** ** Uses and definitions *)
(** The locals of the items of a bytecode. *)
Fixpoint item_locals (items : list BytecodeRWCDesc) : result (list nat) :=
  match items with
  | [] => Ok []
  | d :: items' =>
      ls ← (if IsLocal d then Ok [m_i1 d]
            else if IsRange d then (if (m_i2 d <? 0)%Z then Err (AssertFailed "item.GetRangeLength() >= 0") else Ok (seq (m_i1 d) (Z.to_nat (m_i2 d))))
            else Ok []);
      rest ← item_locals items';
      Ok (ls ++ rest)
  end.
Definition is_captured (isCaptured : list bool) (l : nat) : bool := default false (isCaptured !! l).

Definition check_slots (uvs : list UpvalueMetadata) : bool :=
  forallb (fun uv => negb (uv_isParentLocal uv) || (uv_slot uv <? numLocals)) uvs.
(** A closure uses the locals it captures, but for a reference to itself that is not
    captured yet or does not change. *)
Definition closure_uses (dest : nat) (uvs : list UpvalueMetadata) (isCaptured : list bool) : list nat :=
  concat ((fun uv =>
    if uv_isParentLocal uv then
      if uv_slot uv =? dest then (if negb (uv_isImmutable uv) && is_captured isCaptured (uv_slot uv) then [uv_slot uv] else [])
      else [uv_slot uv]
    else []) <$> uvs).
(** It defines the locals it is the first to capture. *)
Fixpoint closure_defs (uvs : list UpvalueMetadata) (isCaptured : list bool) : list nat * list bool :=
  match uvs with
  | [] => ([], isCaptured)
  | uv :: uvs' =>
      if uv_isParentLocal uv && negb (uv_isImmutable uv) && negb (is_captured isCaptured (uv_slot uv)) then
        let r := closure_defs uvs' (<[uv_slot uv := true]> isCaptured) in (uv_slot uv :: r.1, r.2)
      else closure_defs uvs' isCaptured
  end.
(** The captured locals from [start] on. *)
Definition captured_from (start : nat) (isCaptured : list bool) : list nat :=
  List.filter (fun l => is_captured isCaptured l) (seq start (numLocals - start)).

(** The uses and the definitions of a bytecode, and the captured locals after it. *)
Definition bytecode_info (off terminal : nat) (isCaptured : list bool) : result (list nat * list nat * list bool) :=
  match GetIntrinsic dec off with
  | CreateClosure uvs =>
      if negb (match GetDataFlowReadInfo dec off with [item] => IsConstant item | _ => false end)
      then Err (AssertFailed "inputs.GetDesc(0).IsConstant()")
      else
      match GetDataFlowWriteInfo dec off with
      | [item] =>
          if negb (IsLocal item) then Err (AssertFailed "item.IsLocal()")
          else if negb (m_i1 item <? numLocals) then Err (AssertFailed "destLocalOrd < numLocals")
          else if negb (check_slots uvs) then Err (AssertFailed "uvmt.m_slot < numLocals")
          else
            let dest := m_i1 item in
            let '(defs, isCaptured') := closure_defs uvs isCaptured in
            Ok (closure_uses dest uvs isCaptured, defs ++ (if is_captured isCaptured' dest then [] else [dest]), isCaptured')
      | _ => Err (AssertFailed "outputs.GetNumItems() == 1")
      end
  | UpvalueClose start =>
      if negb (off =? terminal) then Err (AssertFailed "curBytecodeOffset == bbInfo->m_terminalNodeBcOffset")
      else if negb (bool_decide (GetDataFlowReadInfo dec off = [] /\ GetDataFlowWriteInfo dec off = []))
      then Err (AssertFailed "decoder.GetDataFlowReadInfo(curBytecodeOffset).GetNumItems() == 0")
      else if negb (start <=? numLocals) then Err (AssertFailed "uvCloseStart <= numLocals")
      else
        let ls := captured_from start isCaptured in
        Ok (ls, ls, imap (fun l c => c && (l <? start)) isCaptured)
  | NoIntrinsic =>
      uses ← item_locals (GetDataFlowReadInfo dec off);
      outs ← item_locals (GetDataFlowWriteInfo dec off);
      if negb (forallb (fun l => l <? numLocals) outs) then Err (AssertFailed "localOrd < numLocals")
      else Ok (uses, List.filter (fun l => negb (is_captured isCaptured l)) outs, isCaptured)
  end.
(** [m_info] and [m_infoIndex], which starts with 0, of the bytecodes from [index] on. *)
Fixpoint gen_info (left index off terminal num : nat) (isCaptured : list bool) (info infoIndex : list nat) : result (list nat * list nat * list bool) :=
  match left with
  | O => Ok (info, infoIndex, isCaptured)
  | S left' =>
      if negb (eqb (index =? num - 1) (off =? terminal)) then Err (AssertFailed "index == m_numBytecodesInBB - 1 <=> curBytecodeOffset == bbInfo->m_terminalNodeBcOffset")
      else
        '(uses, defs, isCaptured) ← bytecode_info off terminal isCaptured;
        gen_info left' (S index) (GetNextBytecodePosition dec off) terminal num isCaptured (info ++ uses ++ defs)
          (infoIndex ++ [length (info ++ uses); length (info ++ uses ++ defs)])
  end.

(** ** Blocks *)
(** The slots of [m_info] from [cur] to [end_], written by [f]. *)
Fixpoint apply_slots (f : nat -> BitVector -> result BitVector) (slots : list nat) (bv : BitVector) : result BitVector :=
  match slots with [] => Ok bv | l :: slots' => bv ← f l bv; apply_slots f slots' bv end.
Definition slots_between (info infoIndex : list nat) (k : nat) : result (list nat) :=
  match infoIndex !! k, infoIndex !! S k with
  | Some cur, Some end_ =>
      if negb ((end_ <=? length info) && (cur <=? end_)) then Err (AssertFailed "endIndex <= m_info.size() && curIndex <= endIndex")
      else Ok (take (end_ - cur) (drop cur info))
  | _, _ => Err (UndefinedBehaviour "m_infoIndex")
  end.
Definition after_defs (info infoIndex : list nat) (index : nat) (bv : BitVector) : result BitVector :=
  slots ← slots_between info infoIndex (index * 2 + 1); apply_slots ClearBit slots bv.
Definition before_uses (info infoIndex : list nat) (index : nat) (bv : BitVector) : result BitVector :=
  slots ← slots_between info infoIndex (index * 2); apply_slots SetBit slots bv.
Fixpoint head_loop (info infoIndex : list nat) (left : nat) (bv : BitVector) : result BitVector :=
  match left with
  | O => Ok bv
  | S index => bv ← after_defs info infoIndex index bv; bv ← before_uses info infoIndex index bv; head_loop info infoIndex index bv
  end.
Definition ComputeHeadBasedOnTail (info infoIndex : list nat) (num : nat) (tail : BitVector) : result BitVector := head_loop info infoIndex num tail.
Definition ComputeHeadBasedOnTailFast (bb : BytecodeLivenessBBInfo) : BitVector :=
  zip_words Z.lor (zip_words Z.land (m_atTail bb) (m_andMask bb)) (m_orMask bb).

(** The constructor. *)
Definition new_info (bb : BasicBlockUpvalueInfo) : result BytecodeLivenessBBInfo :=
  let num := m_numBytecodesInBB bb in
  if negb (0 <? num) then Err (AssertFailed "m_numBytecodesInBB > 0")
  else
    let isCaptured := (fun l => bit (m_isLocalCapturedAtHead bb) l) <$> seq 0 numLocals in
    '(info, infoIndex, isCaptured) ← gen_info num 0 (m_bytecodeOffset bb) (m_terminalNodeBcOffset bb) num isCaptured [] [0];
    if negb (forallb (fun l => l <? numLocals) info) then Err (AssertFailed "val < numLocals")
    else if negb (forallb (fun l => eqb (is_captured isCaptured l) (bit (m_isLocalCapturedAtTail bb) l)) (seq 0 numLocals))
    then Err (AssertFailed "isCaptured[localOrd] <=> bbInfo->m_isLocalCapturedAtTail.IsSet(localOrd)")
    else
      let empty := Reset numLocals in
      andMask ← ComputeHeadBasedOnTail info infoIndex num (SetAllOne empty);
      orMask ← ComputeHeadBasedOnTail info infoIndex num empty;
      if negb (forallb (fun l => implb (bit orMask l) (bit andMask l)) (seq 0 numLocals)) then Err (AssertFailed "m_orMask.IsSet(i) => m_andMask.IsSet(i)")
      else Ok (mk_live num (m_bytecodeIndex bb) info infoIndex empty empty andMask orMask [] 0 0 false).
Fixpoint new_infos (bbs : list BasicBlockUpvalueInfo) : result (list BytecodeLivenessBBInfo) :=
  match bbs with [] => Ok [] | bb :: bbs' => i ← new_info bb; is_ ← new_infos bbs'; Ok (i :: is_) end.

Definition set_state (head tail : BitVector) (changed checked : nat) (bb : BytecodeLivenessBBInfo) : BytecodeLivenessBBInfo :=
  mk_live (m_numBytecodes bb) (m_firstBytecodeIndex bb) (m_info bb) (m_infoIndex bb) head tail (m_andMask bb) (m_orMask bb)
    (l_successors bb) changed checked (m_hasPredecessor bb).
Definition set_edges (succs : list nat) (hasPred : bool) (bb : BytecodeLivenessBBInfo) : BytecodeLivenessBBInfo :=
  mk_live (m_numBytecodes bb) (m_firstBytecodeIndex bb) (m_info bb) (m_infoIndex bb) (m_atHead bb) (m_atTail bb) (m_andMask bb) (m_orMask bb)
    succs (m_lastChangedEpoch bb) (m_lastCheckedEpoch bb) hasPred.

(** ** The fixpoint *)
Record Epochs : Type := mk_epochs { e_bbs : list BytecodeLivenessBBInfo; e_currentEpoch : nat }.
Notation E := (Prelude.M Epochs).
Definition get_info (ord : nat) : E BytecodeLivenessBBInfo := fun s =>
  match e_bbs s !! ord with Some bb => Ok (bb, s) | None => Err (UndefinedBehaviour "no such block") end.
Definition put_info (ord : nat) (bb : BytecodeLivenessBBInfo) : E unit := modify (fun s => mk_epochs (<[ord := bb]> (e_bbs s)) (e_currentEpoch s)).
Definition next_epoch : E nat := fun s => Ok (S (e_currentEpoch s), mk_epochs (e_bbs s) (S (e_currentEpoch s))).
(** The union of the heads of the successors. *)
Fixpoint union_heads (succs : list nat) (tmpBv : BitVector) : E BitVector :=
  match succs with
  | [] => mret tmpBv
  | ord :: succs' =>
      succ ← get_info ord;
      check (m_length (m_atHead succ) =? m_length tmpBv) (AssertFailed "succ->m_atHead.m_length == tmpBv.m_length") ;;
      union_heads succs' (zip_words Z.lor tmpBv (m_atHead succ))
  end.
Fixpoint should_check (succs : list nat) (lastChecked : nat) : E bool :=
  match succs with
  | [] => mret false
  | ord :: succs' => succ ← get_info ord; if lastChecked <? m_lastChangedEpoch succ then mret true else should_check succs' lastChecked
  end.
(** One block; it tells whether another round is needed. *)
Definition visit_bb (isFirstIteration : bool) (ord : nat) : E bool :=
  bb ← get_info ord;
  shouldCheck ← should_check (l_successors bb) (m_lastCheckedEpoch bb);
  if negb (shouldCheck || isFirstIteration) then mret false
  else
    checked ← next_epoch;
    put_info ord (set_state (m_atHead bb) (m_atTail bb) (m_lastChangedEpoch bb) checked bb) ;;
    tmpBv ← union_heads (l_successors bb) (Reset numLocals);
    '(tail, tailChanged) ← lift_result (UpdateBitVectorAfterMonotonicPropagation (m_atTail bb) tmpBv);
    let bb := set_state (m_atHead bb) tail (m_lastChangedEpoch bb) checked bb in
    put_info ord bb ;;
    if negb (tailChanged || isFirstIteration) then mret false
    else
      '(head, headChanged) ← lift_result (UpdateBitVectorAfterMonotonicPropagation (m_atHead bb) (ComputeHeadBasedOnTailFast bb));
      slow ← lift_result (ComputeHeadBasedOnTail (m_info bb) (m_infoIndex bb) (m_numBytecodes bb) tail);
      check (negb (words_differ slow head)) (AssertFailed "tmpBv.m_data[i] == bb->m_atHead.m_data[i]") ;;
      put_info ord (set_state head tail (m_lastChangedEpoch bb) checked bb) ;;
      if (headChanged : bool) then
        changed ← next_epoch;
        put_info ord (set_state head tail changed checked bb) ;;
        mret (m_hasPredecessor bb)
      else mret false.
Fixpoint visit_bbs (isFirstIteration : bool) (ords : list nat) : E bool :=
  match ords with
  | [] => mret false
  | ord :: ords' => more ← visit_bb isFirstIteration ord; rest ← visit_bbs isFirstIteration ords'; mret (more || rest)
  end.
Fixpoint liveness_fixpoint (fuel : nat) (isFirstIteration : bool) (n : nat) : E unit :=
  match fuel with
  | O => fail OutOfFuel
  | S fuel' => more ← visit_bbs isFirstIteration (seq 0 n); if (more : bool) then liveness_fixpoint fuel' false n else mret tt
  end.
Definition live_at_fixpoint (bbs : list BytecodeLivenessBBInfo) : bool :=
  forallb (fun bb =>
    forallb (fun l => eqb (existsb (fun ord => match bbs !! ord with Some succ => bit (m_atHead succ) l | None => false end) (l_successors bb))
                          (bit (m_atTail bb) l)) (seq 0 numLocals) &&
    match ComputeHeadBasedOnTail (m_info bb) (m_infoIndex bb) (m_numBytecodes bb) (m_atTail bb) with
    | Ok head => forallb (fun l => eqb (bit head l) (bit (m_atHead bb) l)) (seq 0 numLocals)
    | Err _ => false
    end) bbs.

(** ** The result *)
Record BytecodeLiveness : Type := mk_result { m_beforeUse : list BitVector; m_afterUse : list BitVector }.
Definition no_vector : BitVector := mk_bv [] 0.
(** From the last bytecode of a block to the first: [next] is the vector before the next
    bytecode, or at the tail. *)
Fixpoint per_bytecode (bb : BytecodeLivenessBBInfo) (left : nat) (next : BitVector) (r : BytecodeLiveness) : result BytecodeLiveness :=
  match left with
  | O => Ok r
  | S index =>
      afterUse ← after_defs (m_info bb) (m_infoIndex bb) index next;
      beforeUse ← before_uses (m_info bb) (m_infoIndex bb) index afterUse;
      let i := m_firstBytecodeIndex bb + index in
      if negb (bool_decide (m_length <$> m_beforeUse r !! i = Some 0)) then Err (AssertFailed "r.m_beforeUse[bytecodeIndex].m_length == 0")
      else per_bytecode bb index beforeUse (mk_result (<[i := beforeUse]> (m_beforeUse r)) (<[i := afterUse]> (m_afterUse r)))
  end.
Definition ComputePerBytecodeLiveness (bb : BytecodeLivenessBBInfo) (r : BytecodeLiveness) : result BytecodeLiveness :=
  if negb (m_firstBytecodeIndex bb + m_numBytecodes bb <=? length (m_beforeUse r)) then Err (AssertFailed "m_firstBytecodeIndex + m_numBytecodesInBB <= r.m_beforeUse.size()")
  else
    r ← per_bytecode bb (m_numBytecodes bb) (m_atTail bb) r;
    match m_beforeUse r !! m_firstBytecodeIndex bb with
    | Some first => if forallb (fun l => eqb (bit first l) (bit (m_atHead bb) l)) (seq 0 numLocals) then Ok r
                    else Err (AssertFailed "r.m_beforeUse[m_firstBytecodeIndex].IsSet(localOrd) <=> m_atHead.IsSet(localOrd)")
    | None => Err (UndefinedBehaviour "r.m_beforeUse[m_firstBytecodeIndex]")
    end.
Fixpoint all_bytecodes (bbs : list BytecodeLivenessBBInfo) (r : BytecodeLiveness) : result BytecodeLiveness :=
  match bbs with [] => Ok r | bb :: bbs' => r ← ComputePerBytecodeLiveness bb r; all_bytecodes bbs' r end.
(** The bytecodes of no block have neither vector yet. *)
Definition fill_dead (bvs : list BitVector) : list BitVector := (fun bv => if m_length bv =? 0 then Reset numLocals else bv) <$> bvs.

(** The blocks by their first bytecode, the last first. *)
Definition starts_later (a b : nat * BasicBlockUpvalueInfo) : Prop := m_bytecodeIndex b.2 <= m_bytecodeIndex a.2.
#[local] Instance starts_later_dec : RelDecision starts_later.
Proof. intros a b. unfold starts_later. apply _. Defined.
Definition reverse_order (bbs : list BasicBlockUpvalueInfo) : list (nat * BasicBlockUpvalueInfo) :=
  merge_sort starts_later (imap pair bbs).
Definition position (sorted : list (nat * BasicBlockUpvalueInfo)) (ord : nat) : option nat := fst <$> list_find (fun b => b.1 = ord) sorted.
Fixpoint positions (sorted : list (nat * BasicBlockUpvalueInfo)) (ords : list nat) : result (list nat) :=
  match ords with
  | [] => Ok []
  | ord :: ords' =>
      match position sorted ord with
      | None => Err (AssertFailed "bbInfoMap.count(bbUvInfo->m_successors[succOrd])")
      | Some p => ps ← positions sorted ords'; Ok (p :: ps)
      end
  end.
Fixpoint all_positions (sorted bbs : list (nat * BasicBlockUpvalueInfo)) : result (list (list nat)) :=
  match bbs with
  | [] => Ok []
  | bb :: bbs' => ps ← positions sorted (m_successors bb.2); pss ← all_positions sorted bbs'; Ok (ps :: pss)
  end.
Definition link_infos (infos : list BytecodeLivenessBBInfo) (succs : list (list nat)) : list BytecodeLivenessBBInfo :=
  imap (fun i bb => set_edges (default [] (succs !! i)) (bool_decide (i ∈ concat succs)) bb) infos.
Fixpoint descending (l : list nat) : bool :=
  match l with a :: (b :: _) as l' => (b <? a) && descending l' | _ => true end.

Definition ComputeBytecodeLiveness (bbs : list BasicBlockUpvalueInfo) : result BytecodeLiveness :=
  let sorted := reverse_order bbs in
  if negb (descending ((fun b => m_bytecodeIndex b.2) <$> sorted)) then Err (AssertFailed "bbInReverseOrder[i]->m_bytecodeIndex > bbInReverseOrder[i + 1]->m_bytecodeIndex")
  else
    infos ← new_infos (snd <$> sorted);
    succs ← all_positions sorted sorted;
    let n := length infos in
    '(_, s) ← liveness_fixpoint (2 + n * numLocals) true n (mk_epochs (link_infos infos succs) 1);
    if negb (live_at_fixpoint (e_bbs s)) then Err (AssertFailed "tmpBv.IsSet(i) <=> bb->m_atTail.IsSet(i)")
    else
      let num := length (m_sbIndex code) in
      r ← all_bytecodes (e_bbs s) (mk_result (replicate num no_vector) (replicate num no_vector));
      Ok (mk_result (fill_dead (m_beforeUse r)) (fill_dead (m_afterUse r))).
End liveness.
