(* ===== verification/LiveInfo.v ===== *)
(** * The uses and definitions of a block

    The flat table of a block in [drt/dfg_bytecode_liveness.cpp] holds for each bytecode the
    locals it uses and those it defines; going through it backwards is the transfer function
    of the block, and two masks compute the same. *)
From S2P Require Import Prelude Compiler BitVec ControlFlow Liveness.
From stdpp Require Import list.
#[local] Set Default Proof Using "Type".

(** ** The table *)
Notation access := (list nat * list nat)%type.
Definition flat (uds : list access) : list nat := concat ((fun ud => ud.1 ++ ud.2) <$> uds).
(** [m_infoIndex] after the bytecodes [uds]. *)
Fixpoint idx_from (base : nat) (uds : list access) : list nat :=
  match uds with [] => [] | (u, d) :: uds' => (base + length u) :: (base + length (u ++ d)) :: idx_from (base + length (u ++ d)) uds' end.
Definition idx (uds : list access) : list nat := 0 :: idx_from 0 uds.

Lemma flat_app a b : flat (a ++ b) = flat a ++ flat b.
Proof. unfold flat. by rewrite fmap_app, concat_app. Qed.
Lemma flat_cons u d a : flat ((u, d) :: a) = u ++ d ++ flat a.
Proof. unfold flat. rewrite fmap_cons. simpl. by rewrite <- app_assoc. Qed.
Lemma flat_one u d : flat [(u, d)] = u ++ d.
Proof. unfold flat. simpl. by rewrite app_nil_r. Qed.
Lemma length_idx_from base uds : length (idx_from base uds) = 2 * length uds.
Proof. revert base. induction uds as [|[u d] uds IH]; intros base; simpl; [done|]. rewrite IH. lia. Qed.
Lemma idx_from_app base a b : idx_from base (a ++ b) = idx_from base a ++ idx_from (base + length (flat a)) b.
Proof.
  revert base. induction a as [|[u d] a IH]; intros base; simpl; [by rewrite Nat.add_0_r|]. rewrite IH. do 4 f_equal. rewrite flat_cons, !length_app. lia.
Qed.
Lemma idx_snoc uds u d : idx (uds ++ [(u, d)]) = idx uds ++ [length (flat uds ++ u); length (flat uds ++ u ++ d)].
Proof. unfold idx. rewrite idx_from_app. simpl. by rewrite !length_app. Qed.
Lemma flat_snoc uds u d : flat (uds ++ [(u, d)]) = flat uds ++ u ++ d.
Proof. by rewrite flat_app, flat_one. Qed.
(** The entries of the [k]-th bytecode. *)
Lemma idx_lookup a u d b :
  let uds := a ++ (u, d) :: b in
  idx uds !! (length a * 2) = Some (length (flat a)) /\ idx uds !! (length a * 2 + 1) = Some (length (flat a ++ u)) /\
  idx uds !! (length a * 2 + 2) = Some (length (flat a ++ u ++ d)).
Proof.
  intros uds. unfold uds, idx. rewrite idx_from_app. simpl idx_from.
  assert (Hlast : (0 :: idx_from 0 a) !! (length a * 2) = Some (length (flat a))).
  { clear. induction a as [|[u d] a IH] using rev_ind; [done|]. rewrite length_app. fold (idx a) in *. fold (idx (a ++ [(u, d)])). rewrite idx_snoc, flat_snoc.
    rewrite lookup_app_r; unfold idx; simpl; rewrite length_idx_from; [|lia]. replace (_ - _) with 1 by lia. done. }
  change (0 :: idx_from 0 a ++ ?l) with ((0 :: idx_from 0 a) ++ l).
  pose proof (length_idx_from 0 a) as Hlen. split; [|split].
  - rewrite lookup_app_l; [done|]. simpl. lia.
  - rewrite lookup_app_r by (simpl; lia). simpl length. replace (length a * 2 + 1 - S (length (idx_from 0 a))) with 0 by lia. simpl. by rewrite length_app.
  - rewrite lookup_app_r by (simpl; lia). simpl length. replace (length a * 2 + 2 - S (length (idx_from 0 a))) with 1 by lia. simpl. by rewrite !length_app.
Qed.
Lemma slots_at uds k u d : uds !! k = Some (u, d) ->
  slots_between (flat uds) (idx uds) (k * 2) = Ok u /\ slots_between (flat uds) (idx uds) (k * 2 + 1) = Ok d.
Proof.
  intros Hk. apply list_elem_of_split_length in Hk as (a & b & -> & ->). destruct (idx_lookup a u d b) as (H1 & H2 & H3). unfold slots_between.
  replace (S (length a * 2)) with (length a * 2 + 1) by lia. replace (S (length a * 2 + 1)) with (length a * 2 + 2) by lia. rewrite H1, H2, H3.
  assert (Hf : flat (a ++ (u, d) :: b) = flat a ++ u ++ d ++ flat b) by (by rewrite flat_app, flat_cons).
  rewrite Hf, !length_app. split.
  - rewrite (proj2 (Nat.leb_le _ _)) by lia. rewrite (proj2 (Nat.leb_le _ _)) by lia. cbn [negb andb]. f_equal.
    rewrite drop_app_length. replace (length (flat a) + length u - length (flat a)) with (length u) by lia. apply take_app_length.
  - rewrite (proj2 (Nat.leb_le _ _)) by lia. rewrite (proj2 (Nat.leb_le _ _)) by lia. cbn [negb andb]. f_equal.
    rewrite (app_assoc (flat a)). rewrite (drop_app_length' (flat a ++ u)) by (by rewrite length_app). apply take_app_length'. lia.
Qed.

(** ** Going through the table *)
(** Whether [l] is live before the bytecodes if it is ([t]) after them. *)
Fixpoint back (uds : list access) (l : nat) (t : bool) : bool :=
  match uds with [] => t | (u, d) :: uds' => bool_decide (l ∈ u) || (negb (bool_decide (l ∈ d)) && back uds' l t) end.
Lemma back_app a b l t : back (a ++ b) l t = back a l (back b l t).
Proof. induction a as [|[u d] a IH]; simpl; [done|by rewrite IH]. Qed.
Lemma back_mono uds l t t' : (t = true -> t' = true) -> back uds l t = true -> back uds l t' = true.
Proof.
  intros H. induction uds as [|[u d] uds IH]; simpl; [done|]. rewrite !orb_true_iff, !andb_true_iff. tauto.
Qed.
(** The masks: one for what passes through the block, one for what is used in it. *)
Lemma back_masks uds l t : back uds l t = (t && back uds l true) || back uds l false.
Proof.
  destruct t; simpl; [|done]. destruct (back uds l false) eqn:E; [|by rewrite orb_false_r]. rewrite orb_true_r. by apply (back_mono _ _ false).
Qed.

Section vectors.
Context (num : nat).
Definition slots_in (uds : list access) : Prop := Forall (fun ud => Forall (fun l => l < num) ud.1 /\ Forall (fun l => l < num) ud.2) uds.

Lemma flat_slots uds : slots_in uds -> Forall (fun l => l < num) (flat uds).
Proof. induction 1 as [|[u d] uds [Hu Hd] _ IH]; [constructor|]. rewrite flat_cons. by repeat apply Forall_app_2. Qed.
Lemma apply_slots_ok f v slots bv : (forall l bv, bv_ok bv -> l < m_length bv -> exists bv', f l bv = Ok bv' /\ bv_ok bv' /\ m_length bv' = m_length bv /\ forall l', bit bv' l' = if decide (l' = l) then v else bit bv l') ->
  Forall (fun l => l < num) slots -> bv_of num bv ->
  exists bv', apply_slots f slots bv = Ok bv' /\ bv_of num bv' /\ forall l, bit bv' l = if decide (l ∈ slots) then v else bit bv l.
Proof.
  intros Hf Hs. revert bv. induction Hs as [|l slots Hl Hs IH]; intros bv Hbv.
  - exists bv. split; [done|]. split; [done|]. intros l. rewrite decide_False; [done|apply not_elem_of_nil].
  - destruct Hbv as [Ho Hlen]. destruct (Hf l bv Ho ltac:(lia)) as (bv1 & He & Ho1 & Hl1 & Hb1). destruct (IH bv1) as (bv' & He' & Hv' & Hb'); [split; [done|congruence]|].
    exists bv'. cbn [apply_slots]. rewrite He. split; [exact He'|]. split; [done|]. intros l'. rewrite Hb', Hb1.
    destruct (decide (l' ∈ l :: slots)) as [Hin|Hnin], (decide (l' ∈ slots)) as [Hin2|Hnin2]; try done.
    + apply elem_of_cons in Hin as [->|]; [by rewrite decide_True|done].
    + destruct Hnin. by right.
    + rewrite decide_False; [done|]. intros ->. apply Hnin. left.
Qed.
Lemma after_defs_ok uds k u d bv : uds !! k = Some (u, d) -> slots_in uds -> bv_of num bv ->
  exists bv', after_defs (flat uds) (idx uds) k bv = Ok bv' /\ bv_of num bv' /\ forall l, bit bv' l = negb (bool_decide (l ∈ d)) && bit bv l.
Proof.
  intros Hk Hs Hv. destruct (slots_at _ _ _ _ Hk) as [_ Hd]. unfold after_defs. rewrite Hd. cbn [mbind result_bind].
  pose proof (Forall_lookup_1 _ _ _ _ Hs Hk) as [_ Hds]. destruct (apply_slots_ok ClearBit false d bv ClearBit_spec Hds Hv) as (bv' & He & Hv' & Hb). exists bv'.
  split; [done|]. split; [done|]. intros l. rewrite Hb. case_bool_decide; case_decide; done.
Qed.
Lemma before_uses_ok uds k u d bv : uds !! k = Some (u, d) -> slots_in uds -> bv_of num bv ->
  exists bv', before_uses (flat uds) (idx uds) k bv = Ok bv' /\ bv_of num bv' /\ forall l, bit bv' l = bool_decide (l ∈ u) || bit bv l.
Proof.
  intros Hk Hs Hv. destruct (slots_at _ _ _ _ Hk) as [Hu _]. unfold before_uses. rewrite Hu. cbn [mbind result_bind].
  pose proof (Forall_lookup_1 _ _ _ _ Hs Hk) as [Hus _]. destruct (apply_slots_ok SetBit true u bv SetBit_spec Hus Hv) as (bv' & He & Hv' & Hb). exists bv'.
  split; [done|]. split; [done|]. intros l. rewrite Hb. case_bool_decide; case_decide; done.
Qed.
Lemma head_loop_ok uds k bv : k <= length uds -> slots_in uds -> bv_of num bv ->
  exists h, head_loop (flat uds) (idx uds) k bv = Ok h /\ bv_of num h /\ forall l, bit h l = back (take k uds) l (bit bv l).
Proof.
  intros Hk Hs. revert bv Hk. induction k as [|k IH]; intros bv Hk Hv; [by exists bv|]. destruct (lookup_lt_is_Some_2 uds k ltac:(lia)) as [[u d] Hud]. cbn [head_loop].
  destruct (after_defs_ok _ _ _ _ _ Hud Hs Hv) as (bv1 & He1 & Hv1 & Hb1). rewrite He1. cbn [mbind result_bind].
  destruct (before_uses_ok _ _ _ _ _ Hud Hs Hv1) as (bv2 & He2 & Hv2 & Hb2). rewrite He2. cbn [mbind result_bind].
  destruct (IH bv2 ltac:(lia) Hv2) as (h & He & Hh & Hb). exists h. split; [done|]. split; [done|]. intros l. rewrite Hb, (take_S_r _ _ (u, d)), back_app by done. simpl. by rewrite Hb2, Hb1.
Qed.
Lemma head_based_on_tail uds bv : slots_in uds -> bv_of num bv ->
  exists h, ComputeHeadBasedOnTail (flat uds) (idx uds) (length uds) bv = Ok h /\ bv_of num h /\ forall l, bit h l = back uds l (bit bv l).
Proof. intros Hs Hv. destruct (head_loop_ok uds (length uds) bv) as (h & ? & ? & Hb); [done|done|done|]. exists h. rewrite firstn_all in Hb. done. Qed.
End vectors.
