(* ===== verification/LiveSpec.v ===== *)
(** * What liveness means

    Which locals a bytecode uses and defines depends on what is captured there; a local is
    live where some path leads to a use before any definition.  The constructor of
    [BytecodeLivenessBBInfo] builds the table of exactly these uses and definitions. *)
From S2P Require Import Prelude Compiler BitVec ControlFlow Blocks Captures CapturesProps Liveness LiveInfo.
From stdpp Require Import list.
#[local] Set Default Proof Using "Type".

(** ** The specification *)
Definition locals_of (items : list BytecodeRWCDesc) : list nat :=
  concat ((fun d => if IsLocal d then [m_i1 d] else if IsRange d then seq (m_i1 d) (Z.to_nat (m_i2 d)) else []) <$> items).
(** The local a closure is stored in. *)
Definition dest_of (dec : Decoder) (off : nat) : nat := match GetDataFlowWriteInfo dec off with [item] => m_i1 item | _ => 0 end.
Definition used (dec : Decoder) (code : CodeBlock) (off l : nat) : Prop :=
  match GetIntrinsic dec off with
  | CreateClosure uvs => exists uv, uv ∈ uvs /\ uv_isParentLocal uv = true /\ uv_slot uv = l /\
      (l <> dest_of dec off \/ uv_isImmutable uv = false /\ captured dec code l off)
  | UpvalueClose start => start <= l /\ captured dec code l off
  | NoIntrinsic => l ∈ locals_of (GetDataFlowReadInfo dec off)
  end.
Definition defined (dec : Decoder) (code : CodeBlock) (off l : nat) : Prop :=
  match GetIntrinsic dec off with
  | CreateClosure _ => ~ captured dec code l off /\ (creates dec off l \/ l = dest_of dec off)
  | UpvalueClose start => start <= l /\ captured dec code l off
  | NoIntrinsic => l ∈ locals_of (GetDataFlowWriteInfo dec off) /\ ~ captured dec code l off
  end.
Inductive live (dec : Decoder) (code : CodeBlock) (l : nat) : nat -> Prop :=
  | live_used off : used dec code off l -> live dec code l off
  | live_passes off off' : flow dec code off off' -> live dec code l off' -> ~ defined dec code off l -> live dec code l off.

(** What the bytecodes say they access. *)
Definition items_ok (code : CodeBlock) (items : list BytecodeRWCDesc) : Prop :=
  Forall (fun d => IsRange d = true -> (0 <= m_i2 d)%Z) items /\ Forall (fun l => l < m_stackFrameNumSlots code) (locals_of items).
Definition access_ok (dec : Decoder) (code : CodeBlock) (off : nat) : Prop :=
  match GetIntrinsic dec off with
  | CreateClosure uvs =>
      (exists input, GetDataFlowReadInfo dec off = [input] /\ IsConstant input = true) /\
      (exists item, GetDataFlowWriteInfo dec off = [item] /\ IsLocal item = true /\ m_i1 item < m_stackFrameNumSlots code) /\
      Forall (fun uv => uv_isParentLocal uv = true -> uv_slot uv < m_stackFrameNumSlots code) uvs
  | UpvalueClose start => GetDataFlowReadInfo dec off = [] /\ GetDataFlowWriteInfo dec off = [] /\ start <= m_stackFrameNumSlots code
  | NoIntrinsic => items_ok code (GetDataFlowReadInfo dec off) /\ items_ok code (GetDataFlowWriteInfo dec off)
  end.
Definition accesses_ok (dec : Decoder) (code : CodeBlock) : Prop := forall off, off ∈ m_sbIndex code -> access_ok dec code off.

(** ** The table of a block *)
Section info.
Context (dec : Decoder) (code : CodeBlock).
Notation num := (m_stackFrameNumSlots code).
Notation captured := (captured dec code).
(** The array of flags says what is captured at an offset. *)
Definition flags_at (off : nat) (isCaptured : list bool) : Prop :=
  length isCaptured = num /\ forall l, l < num -> is_captured isCaptured l = true <-> captured l off.
(** An entry of the table. *)
Definition access_at (off : nat) (ud : list nat * list nat) : Prop :=
  (forall l, l ∈ ud.1 <-> used dec code off l) /\ (forall l, l ∈ ud.2 <-> defined dec code off l) /\ Forall (fun l => l < num) ud.1 /\ Forall (fun l => l < num) ud.2.

Lemma item_locals_ok items : items_ok code items -> item_locals items = Ok (locals_of items).
Proof.
  intros [Hr _]. induction items as [|d items IH]; [done|]. apply Forall_cons in Hr as [Hd Hr]. cbn [item_locals]. unfold locals_of. rewrite fmap_cons. simpl concat. fold (locals_of items).
  rewrite (IH Hr). destruct (IsLocal d); [done|]. destruct (IsRange d); [|done]. specialize (Hd eq_refl). destruct (Z.ltb_spec (m_i2 d) 0); [lia|done].
Qed.
Lemma closure_defs_ok uvs isCaptured : Forall (fun uv => uv_isParentLocal uv = true -> uv_slot uv < length isCaptured) uvs ->
  length (closure_defs uvs isCaptured).2 = length isCaptured /\
  (forall l, l ∈ (closure_defs uvs isCaptured).1 <-> is_captured isCaptured l = false /\ exists uv, uv ∈ uvs /\ captures uv = true /\ uv_slot uv = l) /\
  (forall l, is_captured (closure_defs uvs isCaptured).2 l = true <-> is_captured isCaptured l = true \/ exists uv, uv ∈ uvs /\ captures uv = true /\ uv_slot uv = l).
Proof.
  intros Hs. revert isCaptured Hs. induction uvs as [|uv uvs IH]; intros isCaptured Hs.
  - split; [done|]. split; intros l; simpl; [rewrite elem_of_nil|]; (split; [tauto|]).
    + by intros (_ & uv & ?%elem_of_nil & _).
    + by intros [?|(uv & ?%elem_of_nil & _)].
  - apply Forall_cons in Hs as [Hu Hs]. cbn [closure_defs].
    replace (uv_isParentLocal uv && negb (uv_isImmutable uv)) with (captures uv) by (unfold captures; apply andb_comm).
    assert (Hx : forall l, (exists y, y ∈ uv :: uvs /\ captures y = true /\ uv_slot y = l) <-> (captures uv = true /\ uv_slot uv = l) \/ exists y, y ∈ uvs /\ captures y = true /\ uv_slot y = l).
    { intros l. apply (exists_cons (fun uv => captures uv = true /\ uv_slot uv = l)). }
    setoid_rewrite Hx. destruct (captures uv) eqn:Ec; [destruct (is_captured isCaptured (uv_slot uv)) eqn:Ei|]; simpl.
    + destruct (IH isCaptured Hs) as (H1 & H2 & H3). split; [done|]. split; intros l; [rewrite H2|rewrite H3]; (split; [tauto|]).
      * intros [Hn [[_ <-]|?]]; [congruence|tauto].
      * intros [?|[[_ <-]|?]]; tauto.
    + assert (Hpl : uv_isParentLocal uv = true) by (unfold captures in Ec; by apply andb_true_iff in Ec as [_ ?]).
      specialize (Hu Hpl). assert (Hset : forall l, is_captured (<[uv_slot uv := true]> isCaptured) l = true <-> l = uv_slot uv \/ is_captured isCaptured l = true).
      { intros l. unfold is_captured. destruct (decide (l = uv_slot uv)) as [->|Hne]; [rewrite list_lookup_insert_eq by done; simpl; tauto|rewrite list_lookup_insert_ne by done; tauto]. }
      destruct (IH (<[uv_slot uv := true]> isCaptured)) as (H1 & H2 & H3); [by rewrite length_insert|]. split; [by rewrite H1, length_insert|]. split; intros l.
      * rewrite elem_of_cons, H2, <- !not_true_iff_false, Hset. split.
        -- intros [->|[Hn ?]]; [split; [by rewrite Ei|left; done]|]. split; [tauto|by right].
        -- intros [Hn [[_ <-]|?]]; [by left|]. destruct (decide (l = uv_slot uv)) as [->|]; [by left|right]. split; [tauto|done].
      * rewrite H3, Hset. split; [intros [[->|?]|?]; tauto|intros [?|[[_ <-]|?]]; tauto].
    + destruct (IH isCaptured Hs) as (H1 & H2 & H3). split; [done|]. split; intros l; [rewrite H2|rewrite H3]; (split; [tauto|]).
      * intros [Hn [[? _]|?]]; [done|tauto].
      * intros [?|[[? _]|?]]; [tauto|done|tauto].
Qed.
Lemma closure_uses_ok uvs dest isCaptured l : l ∈ closure_uses dest uvs isCaptured <->
  exists uv, uv ∈ uvs /\ uv_isParentLocal uv = true /\ uv_slot uv = l /\ (l <> dest \/ uv_isImmutable uv = false /\ is_captured isCaptured l = true).
Proof.
  induction uvs as [|uv uvs IH]; [split; [intros ?%elem_of_nil; done|by intros (uv & ?%elem_of_nil & _)]|].
  rewrite (exists_cons (fun uv => uv_isParentLocal uv = true /\ uv_slot uv = l /\ (l <> dest \/ uv_isImmutable uv = false /\ is_captured isCaptured l = true))), <- IH.
  unfold closure_uses at 1. rewrite fmap_cons. simpl concat. fold (closure_uses dest uvs isCaptured). rewrite elem_of_app. f_equiv.
  destruct (uv_isParentLocal uv); [|split; [intros ?%elem_of_nil; done|by intros [? _]]]. destruct (Nat.eqb_spec (uv_slot uv) dest) as [He|Hne].
  - destruct (negb (uv_isImmutable uv) && is_captured isCaptured (uv_slot uv)) eqn:Eb.
    + rewrite list_elem_of_singleton. apply andb_true_iff in Eb as [Hi%negb_true_iff Hc]. split; [intros ->; auto|]. by intros (_ & -> & _).
    + split; [intros ?%elem_of_nil; done|]. intros (_ & <- & [?|[Hi Hc]]); [done|]. by rewrite Hi, Hc in Eb.
  - rewrite list_elem_of_singleton. split; [intros ->; auto|]. by intros (_ & -> & _).
Qed.
End info.

Lemma is_captured_lt flags l : is_captured flags l = true -> l < length flags.
Proof. unfold is_captured. destruct (flags !! l) eqn:E; [by apply lookup_lt_Some in E|done]. Qed.
Lemma elem_list_filter {A} (f : A -> bool) (l : list A) x : x ∈ List.filter f l <-> x ∈ l /\ f x = true.
Proof. by rewrite !list_elem_of_In, List.filter_In. Qed.

Section block_info.
Context (dec : Decoder) (code : CodeBlock) (Hcode : code_ok dec code) (Hcl : closures_ok dec code) (Hac : accesses_ok dec code).
Context (bbs : list BasicBlockUpvalueInfo) (Hg : graph_ok dec code bbs).
Notation num := (m_stackFrameNumSlots code).
Notation off_at := (off_at dec code).
Notation captured := (captured dec code).
Notation flags_at := (flags_at dec code).

Lemma captured_lt l off : captured l off -> l < num.
Proof using Hcode Hcl.
  induction 1 as [off off' Hr Hc _|]; [|done]. apply (cl_slot _ _ Hcl off); [|done]. by apply (reachable_in _ _ Hcode).
Qed.
(** Inside a block only the bytecode before decides. *)
Lemma captured_next ord bb a b i l : at_block dec code bbs (off_at i) ord bb a b i -> i < b ->
  captured l (off_at (S i)) <-> captured l (off_at i) \/ creates dec (off_at i) l.
Proof using Hcode Hcl Hg.
  intros Hat Hi. assert (Hnext : at_block dec code bbs (off_at (S i)) ord bb a b (S i)) by (destruct Hat as (? & ? & ? & _); split; [done|]; split; [done|]; split; [lia|done]).
  pose proof Hat as (Hb & Hs & Hai & _). split.
  - assert (Hpred : forall off, reachable dec code off -> flow dec code off (off_at (S i)) -> off = off_at i).
    { intros off Hr Hf. destruct (reachable_block _ _ Hcode _ Hg _ Hr) as (ord2 & bb2 & a2 & b2 & i2 & Hat2).
      destruct (flow_block _ _ Hcode _ Hg _ _ _ _ _ _ _ Hat2 Hf) as [[_ Hn]|(_ & ord3 & bb3 & a3 & b3 & _ & Hn)];
        destruct (at_block_unique _ _ Hcode _ Hg _ _ _ _ _ _ _ _ _ _ _ Hnext Hn) as (He1 & He2 & He3 & He4 & He5).
      - injection He5 as ->. by destruct Hat2 as (_ & _ & _ & ->).
      - lia. }
    intros Hc. inversion Hc as [off off' Hr Hcr Hf|off off' Hc' Hnc Hf]; subst off'.
    + right. by rewrite <- (Hpred off Hr Hf).
    + left. by rewrite <- (Hpred off (captured_reachable _ _ _ _ Hc') Hf).
  - intros [Hc|Hc].
    + apply (captured_walk _ _ Hcode Hcl bb a b i); [done|done|lia|lia].
    + apply (created_walk _ _ Hcode Hcl _ Hg ord bb a b i); [done|done|done|lia|lia].
Qed.

(** The captured locals after a bytecode. *)
Definition flags_after (off : nat) (flags : list bool) : Prop :=
  length flags = num /\ forall l, l < num -> is_captured flags l = true <-> (captured l off \/ creates dec off l) /\ ~ closes dec off l.
Definition info_spec (off : nat) (r : result (list nat * list nat * list bool)) : Prop :=
  exists u d flags, r = Ok (u, d, flags) /\ access_at dec code off (u, d) /\ flags_after off flags.

Lemma flags_iff off flags l : flags_at off flags -> is_captured flags l = true <-> captured l off.
Proof using Hcode Hcl.
  intros [Hl Hf]. destruct (decide (l < num)) as [|Hge]; [by apply Hf|]. split; [intros H%is_captured_lt; lia|intros H%captured_lt; lia].
Qed.
Lemma flags_false off flags l : flags_at off flags -> is_captured flags l = false <-> ~ captured l off.
Proof using Hcode Hcl. intros H. rewrite <- (flags_iff _ _ l H). symmetry. apply not_true_iff_false. Qed.

Lemma close_info off terminal start flags : flags_at off flags -> GetIntrinsic dec off = UpvalueClose start -> access_ok dec code off -> off = terminal ->
  info_spec off (bytecode_info dec code off terminal flags).
Proof using Hcode Hcl.
  intros Hfl He Ha ->. unfold bytecode_info. unfold access_ok in Ha. rewrite He in *. destruct Ha as (Hr & Hw & Hst). rewrite Nat.eqb_refl, bool_decide_true by done.
  apply Nat.leb_le in Hst as Hst'. rewrite Hst'. cbn [negb]. pose proof Hfl as [Hlen _].
  assert (Hin : forall l, l ∈ captured_from code start flags <-> start <= l /\ captured l terminal).
  { intros l. unfold captured_from. rewrite elem_list_filter, elem_of_seq, (flags_iff _ _ l Hfl). split; [intros [? ?]; split; [lia|done]|].
    intros [? Hc]. pose proof (captured_lt _ _ Hc). split; [lia|done]. }
  assert (Hlt : Forall (fun l => l < num) (captured_from code start flags)) by (apply Forall_forall; intros l [_ Hc%captured_lt]%Hin; done).
  do 3 eexists. split; [done|]. split; [|split].
  - split; [|split; [|split; done]]; intros l; simpl; rewrite Hin; [unfold used|unfold defined]; by rewrite He.
  - by rewrite length_imap.
  - intros l Hl. assert (Hc : is_captured (imap (fun l c => c && (l <? start)) flags) l = is_captured flags l && (l <? start)).
    { unfold is_captured. rewrite list_lookup_imap. by destruct (flags !! l). }
    rewrite Hc, andb_true_iff, Nat.ltb_lt, (flags_iff _ _ l Hfl). unfold creates, closes. rewrite He. split.
    + intros [? ?]. split; [by left|]. intros (start' & [= <-] & ?). lia.
    + intros [[?|(? & ? & ? & _)] Hn]; [|done]. split; [done|]. destruct (decide (l < start)); [done|]. destruct Hn. exists start. split; [done|lia].
Qed.
Lemma plain_info off terminal flags : flags_at off flags -> GetIntrinsic dec off = NoIntrinsic -> access_ok dec code off ->
  info_spec off (bytecode_info dec code off terminal flags).
Proof using Hcode Hcl.
  intros Hfl He Ha. unfold bytecode_info. unfold access_ok in Ha. rewrite He in *. destruct Ha as [Hr Hw]. rewrite (item_locals_ok _ _ Hr). cbn [mbind result_bind].
  rewrite (item_locals_ok _ _ Hw). cbn [mbind result_bind]. destruct Hr as [_ Hr], Hw as [_ Hw].
  assert (Hall : forallb (fun l => l <? num) (locals_of (GetDataFlowWriteInfo dec off)) = true).
  { apply forallb_every. intros i l Hl. apply Nat.ltb_lt. by apply (Forall_lookup_1 _ _ _ _ Hw Hl). }
  rewrite Hall. cbn [negb].
  assert (Hd : forall l, l ∈ List.filter (fun l => negb (is_captured flags l)) (locals_of (GetDataFlowWriteInfo dec off)) <-> l ∈ locals_of (GetDataFlowWriteInfo dec off) /\ ~ captured l off).
  { intros l. by rewrite elem_list_filter, negb_true_iff, (flags_false _ _ l Hfl). }
  do 3 eexists. split; [done|]. split; [|split; [apply Hfl|]].
  - split; [|split; [|split; [done|]]]; simpl.
    + intros l. unfold used. by rewrite He.
    + intros l. rewrite Hd. unfold defined. by rewrite He.
    + apply Forall_forall. intros l [Hl _]%Hd. rewrite Forall_forall in Hw. by apply Hw.
  - intros l Hl. rewrite (flags_iff _ _ l Hfl). unfold creates, closes. rewrite He. split; [intros ?; split; [by left|by intros (? & ? & _)]|]. intros [[?|(? & ? & ? & _)] _]; done.
Qed.
Lemma closure_info off terminal uvs flags : flags_at off flags -> GetIntrinsic dec off = CreateClosure uvs -> access_ok dec code off ->
  info_spec off (bytecode_info dec code off terminal flags).
Proof using Hcode Hcl.
  intros Hfl He Ha. unfold bytecode_info. unfold access_ok in Ha. rewrite He in *. destruct Ha as ((input & Hr & Hk) & (item & Hw & Hlo & Hit) & Huv).
  rewrite Hr, Hw, Hk, Hlo. apply Nat.ltb_lt in Hit as Hit'. rewrite Hit'. cbn [negb].
  assert (Hcs : check_slots code uvs = true).
  { apply forallb_every. intros i uv Hi. pose proof (Forall_lookup_1 _ _ _ _ Huv Hi) as Hu. destruct (uv_isParentLocal uv) eqn:Ep; [|done]. simpl. apply Nat.ltb_lt. by apply Hu. }
  rewrite Hcs. cbn [negb]. pose proof Hfl as [Hlen _]. destruct (closure_defs_ok uvs flags) as (H1 & H2 & H3); [by rewrite Hlen|].
  destruct (closure_defs uvs flags) as [defs flags'] eqn:Ed. simpl in H1, H2, H3.
  assert (Hcr : forall l, (exists uv, uv ∈ uvs /\ captures uv = true /\ uv_slot uv = l) <-> creates dec off l).
  { intros l. unfold creates. rewrite He. naive_solver. }
  assert (Hdest : dest_of dec off = m_i1 item) by (unfold dest_of; by rewrite Hw).
  assert (Hfl' : forall l, is_captured flags' l = true <-> captured l off \/ creates dec off l) by (intros l; by rewrite H3, Hcr, (flags_iff _ _ l Hfl)).
  do 3 eexists. split; [done|]. split; [|split; [congruence|]].
  - assert (Hd : forall l, l ∈ defs ++ (if is_captured flags' (m_i1 item) then [] else [m_i1 item]) <-> defined dec code off l).
    { intros l. unfold defined. rewrite He, elem_of_app, H2, Hcr, (flags_false _ _ l Hfl), Hdest.
      destruct (is_captured flags' (m_i1 item)) eqn:Ef; [|apply not_true_iff_false in Ef]; rewrite Hfl' in Ef; [rewrite elem_of_nil|rewrite list_elem_of_singleton]; split.
      - intros [[? ?]|[]]; split; [done|by left].
      - intros [Hn [?|Hl]]; left; split; try done. rewrite Hl in *. tauto.
      - intros [[? ?]| ->]; [split; [done|by left]|]. split; [tauto|by right].
      - intros [Hn [?|Hl]]; [left; done|by right]. }
    split; [|split; [exact Hd|split]].
    + intros l. simpl. rewrite closure_uses_ok, <- Hdest. unfold used. rewrite He. by setoid_rewrite (flags_iff _ _ l Hfl).
    + apply Forall_forall. intros l (uv & Hin & Hp & <- & _)%closure_uses_ok. rewrite Forall_forall in Huv. by apply Huv.
    + apply Forall_forall. intros l Hl%Hd. unfold defined in Hl. rewrite He in Hl. destruct Hl as [_ [Hc| ->]]; [|by rewrite Hdest].
      apply Hcr in Hc as (uv & Hin & Hc & <-). rewrite Forall_forall in Huv. apply Huv; [done|]. unfold captures in Hc. by apply andb_true_iff in Hc as [_ ?].
  - intros l Hl. rewrite Hfl'. split; [|tauto]. intros Hor. split; [done|]. intros (start & Hs & _). congruence.
Qed.
Lemma bytecode_info_ok bb a b i flags : block_span dec code bb a b -> a <= i <= b -> flags_at (off_at i) flags ->
  info_spec (off_at i) (bytecode_info dec code (off_at i) (off_at b) flags).
Proof using Hcode Hcl Hac.
  intros Hs Hi Hfl. pose proof (bs_in _ _ _ _ _ Hs). pose proof (Hac (off_at i) (off_at_in dec code i ltac:(lia))) as Ha. destruct (GetIntrinsic dec (off_at i)) as [uvs|start|] eqn:Ei.
  - by eapply closure_info.
  - eapply close_info; [done|done|done|]. apply (cl_close _ _ Hcl) in Ei; [|apply off_at_in; lia]. destruct (decide (i = b)) as [->|]; [done|].
    rewrite (bs_plain _ _ _ _ _ Hs) in Ei by lia. done.
  - by apply plain_info.
Qed.
End block_info.

(** ** The constructor *)
Section constructor.
Context (dec : Decoder) (code : CodeBlock) (Hcode : code_ok dec code) (Hcl : closures_ok dec code) (Hac : accesses_ok dec code).
Context (bbs : list BasicBlockUpvalueInfo) (Han : analyzed dec code bbs).
Notation num := (m_stackFrameNumSlots code).
Notation off_at := (off_at dec code).
Notation flags_at := (flags_at dec code).

Definition table_ok (a b : nat) (uds : list (list nat * list nat)) : Prop :=
  length uds = b - a + 1 /\ forall k ud, uds !! k = Some ud -> access_at dec code (off_at (a + k)) ud.
Lemma gen_info_ok ord bb a b i uds0 flags : bbs !! ord = Some bb -> block_span dec code bb a b -> a <= i <= b -> flags_at (off_at i) flags ->
  length uds0 = i - a -> (forall k ud, uds0 !! k = Some ud -> access_at dec code (off_at (a + k)) ud) ->
  exists uds flags', gen_info dec code (b - i + 1) (i - a) (off_at i) (off_at b) (b - a + 1) flags (flat uds0) (idx uds0) = Ok (flat uds, idx uds, flags') /\
    table_ok a b uds /\ flags_after dec code (off_at b) flags'.
Proof using Hcode Hcl Hac Han.
  intros Hb Hs. destruct Han as [Hg _]. pose proof (bs_in _ _ _ _ _ Hs). remember (b - i) as m eqn:Hm. revert i uds0 flags Hm.
  induction m as [|m IH]; intros i uds0 flags Hm Hi Hfl Hlen Hall.
  all: destruct (bytecode_info_ok _ _ Hcode Hcl Hac bb a b i flags Hs Hi Hfl) as (u & d & flags1 & Hinfo & Hacc & Hfa).
  all: assert (Hall' : forall k ud, (uds0 ++ [(u, d)]) !! k = Some ud -> access_at dec code (off_at (a + k)) ud)
    by (intros k ud [Hk|[-> ->]]%list_lookup_snoc_Some; [by apply Hall|rewrite Hlen; by replace (a + (i - a)) with i by lia]).
  all: rewrite Nat.add_1_r; cbn [gen_info].
  - assert (i = b) as -> by lia. replace (b - a + 1 - 1) with (b - a) by lia. rewrite !Nat.eqb_refl. cbn [eqb negb]. rewrite Hinfo. cbn [mbind result_bind gen_info].
    exists (uds0 ++ [(u, d)]), flags1. rewrite flat_snoc, idx_snoc. split; [done|]. split; [|done]. split; [rewrite length_app; simpl; lia|done].
  - replace (i - a =? b - a + 1 - 1) with false by (symmetry; apply Nat.eqb_neq; lia).
    replace (off_at i =? off_at b) with false by (symmetry; apply Nat.eqb_neq; intros He%(off_at_inj _ _ Hcode); lia).
    cbn [eqb negb]. rewrite Hinfo. cbn [mbind result_bind]. rewrite (next_off_at _ _ Hcode) by lia.
    destruct (IH (S i) (uds0 ++ [(u, d)]) flags1) as (uds & flags' & Hr & Ht & Hf); [lia|lia| |rewrite length_app; simpl; lia|done|].
    + destruct Hfa as [Hl Hf]. split; [done|]. intros l Hlt. rewrite (Hf l Hlt).
      assert (Hat : at_block dec code bbs (off_at i) ord bb a b i) by done. rewrite (captured_next _ _ Hcode Hcl _ Hg _ _ _ _ _ l Hat) by lia.
      split; [tauto|]. intros ?. split; [done|]. eapply (inside_not_closes _ _ Hcl); [done|lia].
    + exists uds, flags'. split; [|done]. rewrite flat_snoc, idx_snoc in Hr. replace (S (i - a)) with (S i - a) by lia. replace (m + 1) with (S m) in Hr by lia. exact Hr.
Qed.

(** What the constructor leaves in the object. *)
Record info_ok (a b : nat) (uds : list (list nat * list nat)) (bb : BytecodeLivenessBBInfo) : Prop := {
  io_table : table_ok a b uds;
  io_first : m_firstBytecodeIndex bb = a;
  io_count : m_numBytecodes bb = length uds;
  io_info : m_info bb = flat uds;
  io_index : m_infoIndex bb = idx uds;
  io_and : bv_of num (m_andMask bb);
  io_or : bv_of num (m_orMask bb);
  io_and_bits : forall l, l < num -> bit (m_andMask bb) l = back uds l true;
  io_or_bits : forall l, bit (m_orMask bb) l = back uds l false
}.
Lemma table_slots a b uds : table_ok a b uds -> slots_in num uds.
Proof. intros [_ Ha]. apply Forall_lookup. intros k ud Hk. apply (Ha _ _ Hk). Qed.
Lemma new_info_ok ord bb a b : bbs !! ord = Some bb -> block_span dec code bb a b ->
  exists uds info, new_info dec code bb = Ok info /\ info_ok a b uds info /\
    m_atHead info = Reset num /\ m_atTail info = Reset num /\ m_lastChangedEpoch info = 0 /\ m_lastCheckedEpoch info = 0.
Proof using Hcode Hcl Hac Han.
  intros Hb Hs. pose proof (proj2 Han _ _ _ _ Hb Hs) as Hr. pose proof (bs_le _ _ _ _ _ Hs). unfold new_info. rewrite (br_count _ _ _ _ _ Hr), (br_index _ _ _ _ _ Hr).
  rewrite (proj2 (Nat.ltb_lt 0 (b - a + 1))) by lia. cbn [negb]. set (flags := (fun l => bit (m_isLocalCapturedAtHead bb) l) <$> seq 0 num).
  assert (Hflag : forall l, l < num -> is_captured flags l = bit (m_isLocalCapturedAtHead bb) l).
  { intros l Hl. unfold is_captured, flags. rewrite list_lookup_fmap, lookup_seq_lt by done. done. }
  assert (Hfl : flags_at (off_at a) flags).
  { split; [unfold flags; by rewrite length_fmap, length_seq|]. intros l Hl. rewrite (Hflag l Hl). apply (br_head _ _ _ _ _ Hr). }
  destruct (gen_info_ok ord bb a b a [] flags Hb Hs ltac:(lia) Hfl ltac:(simpl; lia)) as (uds & flags' & Hgen & Ht & Hfa); [by intros k ud|].
  rewrite (bs_start _ _ _ _ _ Hs), (bs_terminal _ _ _ _ _ Hs). rewrite Nat.sub_diag in Hgen. change (flat []) with (@nil nat) in Hgen. change (idx []) with [0] in Hgen. rewrite Hgen.
  cbn [mbind result_bind]. pose proof (table_slots _ _ _ Ht) as Hsl.
  assert (Hall : forallb (fun l => l <? num) (flat uds) = true).
  { apply forallb_every. intros i l Hl. apply Nat.ltb_lt. by apply (Forall_lookup_1 _ _ _ _ (flat_slots _ _ Hsl) Hl). }
  rewrite Hall. cbn [negb].
  assert (Heq : forallb (fun l => eqb (is_captured flags' l) (bit (m_isLocalCapturedAtTail bb) l)) (seq 0 num) = true).
  { apply forallb_forall. intros l Hl%in_seq. apply bool_iff. rewrite (proj2 Hfa l) by lia. rewrite (br_tail _ _ _ _ _ Hr). split; [|tauto]. intros [[?|Hc] ?]; [done|].
    exfalso. pose proof (creates_inside _ _ Hcode Hcl _ (proj1 Han) (off_at b) ord bb a b b l) as Hlt. assert (b < b); [|lia]. apply Hlt; [|done]. split; [done|]. split; [done|]. split; [lia|done]. }
  rewrite Heq. cbn [negb]. destruct Ht as [Hlen Hacc]. rewrite <- Hlen.
  pose proof (bv_of_Reset num) as Hz. assert (Hones : bv_of num (SetAllOne (Reset num))).
  { split; [apply SetAllOne_ok, Reset_ok|]. unfold SetAllOne. simpl. by destruct (GetAllocLength num). }
  destruct (head_based_on_tail num uds _ Hsl Hones) as (am & Ham & Hamv & Hamb). rewrite Ham. cbn [mbind result_bind].
  destruct (head_based_on_tail num uds _ Hsl Hz) as (om & Hom & Homv & Homb). rewrite Hom. cbn [mbind result_bind].
  assert (Hab : forall l, l < num -> bit am l = back uds l true) by (intros l Hl; rewrite Hamb, bit_SetAllOne; done).
  assert (Hob : forall l, bit om l = back uds l false) by (intros l; by rewrite Homb, bit_Reset).
  assert (Himp : forallb (fun l => implb (bit om l) (bit am l)) (seq 0 num) = true).
  { apply forallb_forall. intros l Hl%in_seq. apply implb_true_iff. rewrite Hob, Hab by lia. by apply back_mono. }
  rewrite Himp. cbn [negb]. exists uds. eexists. split; [done|]. split; [by split|done].
Qed.
End constructor.
