(* ===== verification/LiveLoop.v ===== *)
(** * The fixpoint of the liveness analysis

    The rounds over the blocks, with their epochs: they end, and the heads and tails of the
    blocks are then the least solution of the flow equations. *)
From S2P Require Import Prelude Compiler BitVec ControlFlow Blocks Captures CapturesProps Liveness LiveInfo LiveSpec.
From stdpp Require Import list.
#[local] Set Default Proof Using "Type".
#[local] Notation never := (fun _ : error => False).

(** A block as the loop sees it. *)
Record Vertex : Type := mk_vertex { x_first : nat; x_last : nat; x_uds : list (list nat * list nat); x_succs : list nat; x_pred : bool }.

Definition hd_bit (s : Epochs) (i l : nat) : Prop := exists bb, e_bbs s !! i = Some bb /\ bit (m_atHead bb) l = true.
Definition tl_bit (s : Epochs) (i l : nat) : Prop := exists bb, e_bbs s !! i = Some bb /\ bit (m_atTail bb) l = true.

Section loop.
Context (dec : Decoder) (code : CodeBlock) (graph : list Vertex).
Notation num := (m_stackFrameNumSlots code).
Context (Hsuccs : forall i x j, graph !! i = Some x -> j ∈ x_succs x -> exists y, graph !! j = Some y /\ x_pred y = true).
(** What is closed under the flow equations contains the solution. *)
Context (L : nat -> nat -> Prop).
Context (HL : forall i x l t, graph !! i = Some x -> back (x_uds x) l t = true -> (t = true -> exists j, j ∈ x_succs x /\ L j l) -> L i l).

Record vertex_ok (x : Vertex) (bb : BytecodeLivenessBBInfo) : Prop := {
  vo_info : info_ok dec code (x_first x) (x_last x) (x_uds x) bb;
  vo_succs : l_successors bb = x_succs x;
  vo_pred : m_hasPredecessor bb = x_pred x;
  vo_head : bv_of num (m_atHead bb);
  vo_tail : bv_of num (m_atTail bb)
}.
Record loop_inv (done : nat -> Prop) (s : Epochs) : Prop := {
  lv_blocks : Forall2 vertex_ok graph (e_bbs s);
  lv_sound : forall i l, hd_bit s i l -> L i l;
  lv_tail : forall i x l, graph !! i = Some x -> tl_bit s i l -> exists j, j ∈ x_succs x /\ hd_bit s j l;
  lv_head : forall i x bb l, graph !! i = Some x -> e_bbs s !! i = Some bb -> done i -> bit (m_atHead bb) l = back (x_uds x) l (bit (m_atTail bb) l);
  lv_le : forall i x bb l, graph !! i = Some x -> e_bbs s !! i = Some bb -> bit (m_atHead bb) l = true -> back (x_uds x) l (bit (m_atTail bb) l) = true;
  lv_current : forall i x j, graph !! i = Some x -> done i -> j ∈ x_succs x -> (forall l, hd_bit s j l -> tl_bit s i l) \/
    exists bb bb', e_bbs s !! i = Some bb /\ e_bbs s !! j = Some bb' /\ m_lastCheckedEpoch bb < m_lastChangedEpoch bb';
  lv_epoch : forall i bb, e_bbs s !! i = Some bb -> m_lastCheckedEpoch bb <= e_currentEpoch s /\ m_lastChangedEpoch bb <= e_currentEpoch s
}.
Definition unset_heads (s : Epochs) : nat := sum_list_with (fun bb => unset num (m_atHead bb)) (e_bbs s).

Lemma wp_get_info E o bb Q s : e_bbs s !! o = Some bb -> Q bb s -> wp E (get_info o) Q s.
Proof. intros Hb HQ. unfold get_info, wp. by rewrite Hb. Qed.
Lemma wp_put_info E o bb Q s : Q tt (mk_epochs (<[o := bb]> (e_bbs s)) (e_currentEpoch s)) -> wp E (put_info o bb) Q s.
Proof. done. Qed.
Lemma wp_next_epoch E Q s : Q (S (e_currentEpoch s)) (mk_epochs (e_bbs s) (S (e_currentEpoch s))) -> wp E next_epoch Q s.
Proof. done. Qed.

Lemma union_heads_ok succs tmp s : (forall j, j ∈ succs -> exists bb, e_bbs s !! j = Some bb /\ bv_of num (m_atHead bb)) -> bv_of num tmp ->
  wp never (union_heads succs tmp) (fun bv s' => s' = s /\ bv_of num bv /\ forall l, bit bv l = true <-> bit tmp l = true \/ exists j, j ∈ succs /\ hd_bit s j l) s.
Proof.
  revert tmp. induction succs as [|j succs IH]; intros tmp Hs Hv; cbn [union_heads].
  - apply wp_ret. split; [done|]. split; [done|]. intros l. split; [by left|]. intros [?|(j & ?%elem_of_nil & _)]; done.
  - destruct (Hs j ltac:(left)) as (bb & Hb & Hbv). apply wp_bind, (wp_get_info _ _ bb); [done|]. destruct (bv_of_lor _ _ _ Hv Hbv) as [Ho Hbit].
    rewrite (bf_length _ _ Hbv), (bf_length _ _ Hv), Nat.eqb_refl. unfold check. apply wp_bind, wp_ret.
    eapply wp_mono; [apply IH; [intros j' Hj'; apply Hs; by right|done]|]. intros bv s' (-> & Hbv' & Hb'). split; [done|]. split; [done|]. intros l.
    rewrite Hb', Hbit, orb_true_iff, (exists_cons (fun j => hd_bit s j l)).
    assert (Hhd : hd_bit s j l <-> bit (m_atHead bb) l = true) by (unfold hd_bit; rewrite Hb; naive_solver). rewrite Hhd. tauto.
Qed.
Lemma should_check_ok succs checked s : (forall j, j ∈ succs -> is_Some (e_bbs s !! j)) ->
  wp never (should_check succs checked) (fun b s' => s' = s /\ (b = true <-> exists j, j ∈ succs /\ exists bb, e_bbs s !! j = Some bb /\ checked < m_lastChangedEpoch bb)) s.
Proof.
  induction succs as [|j succs IH]; intros Hs; cbn [should_check].
  - apply wp_ret. split; [done|]. split; [done|]. by intros (j & ?%elem_of_nil & _).
  - destruct (Hs j ltac:(left)) as [bb Hb]. apply wp_bind, (wp_get_info _ _ bb); [done|].
    pose proof (exists_cons (fun j => exists bb, e_bbs s !! j = Some bb /\ checked < m_lastChangedEpoch bb) j succs) as Hx.
    destruct (Nat.ltb_spec checked (m_lastChangedEpoch bb)) as [Hlt|Hge].
    + apply wp_ret. split; [done|]. rewrite Hx. split; [|done]. intros _. left. by exists bb.
    + eapply wp_mono; [apply IH; intros j' Hj'; apply Hs; by right|]. intros b s' [-> Hb']. split; [done|]. rewrite Hx, Hb'. split; [by right|].
      intros [(bb' & Hb2 & ?)|?]; [|done]. rewrite Hb in Hb2. injection Hb2 as <-. lia.
Qed.
Lemma update_bits_ok bv new : bv_of num bv -> bv_of num new -> bits_le bv new ->
  UpdateBitVectorAfterMonotonicPropagation bv new = Ok (new, words_differ bv new).
Proof.
  intros Hb Hn Hle. unfold UpdateBitVectorAfterMonotonicPropagation. rewrite (bf_length _ _ Hb), (bf_length _ _ Hn), Nat.eqb_refl. cbn [negb].
  assert (Hf : forallb (fun p => (Z.land p.1 p.2 =? p.1)%Z) (zip (m_data bv) (m_data new)) = true).
  { apply forallb_every. intros i p Hp. apply lookup_zip_with_Some in Hp as (w & w' & -> & Hw & Hw'). apply Z.eqb_eq. simpl. rewrite Z.land_comm.
    eapply land_subset; [apply Hn|apply Hb|exact Hle|exact Hw'|exact Hw]. }
  rewrite Hf. cbn [negb]. do 2 f_equal. destruct Hn as [_ Hl], new as [data len]. simpl in *. by subst len.
Qed.
Lemma words_differ_sym a b : words_differ a b = words_differ b a.
Proof. unfold words_differ. f_equal. apply bool_decide_ext. naive_solver. Qed.
(** The masks compute the head. *)
Lemma fast_ok x bb tail : vertex_ok x bb -> bv_of num tail ->
  let head := zip_words Z.lor (zip_words Z.land tail (m_andMask bb)) (m_orMask bb) in
  bv_of num head /\ forall l, bit head l = back (x_uds x) l (bit tail l).
Proof.
  intros Hv Ht head. pose proof (vo_info _ _ Hv) as Hio. destruct (bv_of_land _ _ _ Ht (io_and _ _ _ _ _ _ Hio)) as [Ha Hab]. destruct (bv_of_lor _ _ _ Ha (io_or _ _ _ _ _ _ Hio)) as [Ho Hob].
  split; [done|]. intros l. unfold head. rewrite Hob, Hab, (io_or_bits _ _ _ _ _ _ Hio), (back_masks _ l (bit tail l)). destruct (bit tail l) eqn:Et; [|done].
  rewrite (io_and_bits _ _ _ _ _ _ Hio); [done|by apply (bit_lt _ tail)].
Qed.
Lemma slow_ok x bb tail : vertex_ok x bb -> bv_of num tail ->
  exists h, ComputeHeadBasedOnTail (m_info bb) (m_infoIndex bb) (m_numBytecodes bb) tail = Ok h /\ bv_of num h /\ forall l, bit h l = back (x_uds x) l (bit tail l).
Proof.
  intros Hv Ht. pose proof (vo_info _ _ Hv) as Hio. rewrite (io_info _ _ _ _ _ _ Hio), (io_index _ _ _ _ _ _ Hio), (io_count _ _ _ _ _ _ Hio).
  apply head_based_on_tail; [|done]. eapply table_slots, Hio.
Qed.

(** ** One block *)
Lemma loop_lookup done s i x : loop_inv done s -> graph !! i = Some x -> exists bb, e_bbs s !! i = Some bb /\ vertex_ok x bb.
Proof. intros Hi Hx. destruct (Forall2_lookup_l _ _ _ _ _ (lv_blocks _ _ Hi) Hx) as (bb & ? & ?). eauto. Qed.
Lemma vertex_set x bb head tail changed checked : vertex_ok x bb -> bv_of num head -> bv_of num tail -> vertex_ok x (set_state head tail changed checked bb).
Proof. intros [[H1 H2 H3 H4 H5 H6 H7 H8 H9] Hs Hp _ _] Hh Ht. split; [by split|done..]. Qed.
Lemma state_bits s s' o bb bb' : e_bbs s !! o = Some bb -> e_bbs s' = <[o := bb']> (e_bbs s) -> forall i l,
  (hd_bit s' i l <-> if decide (i = o) then bit (m_atHead bb') l = true else hd_bit s i l) /\
  (tl_bit s' i l <-> if decide (i = o) then bit (m_atTail bb') l = true else tl_bit s i l).
Proof.
  intros Hb He i l. unfold hd_bit, tl_bit. rewrite He. destruct (decide (i = o)) as [->|Hne].
  - rewrite list_lookup_insert_eq by (by eapply lookup_lt_Some). naive_solver.
  - by rewrite list_lookup_insert_ne.
Qed.
Lemma own_state s o bb l : e_bbs s !! o = Some bb -> (hd_bit s o l <-> bit (m_atHead bb) l = true) /\ (tl_bit s o l <-> bit (m_atTail bb) l = true).
Proof. intros Hb. unfold hd_bit, tl_bit. rewrite Hb. naive_solver. Qed.

(** The new state of a block that was visited. *)
Record new_state (s : Epochs) (x : Vertex) (bb : BytecodeLivenessBBInfo) (head tail : BitVector) (changed checked epoch : nat) : Prop := {
  ns_head_vector : bv_of num head;
  ns_tail_vector : bv_of num tail;
  ns_tail : forall l, bit tail l = true <-> exists j, j ∈ x_succs x /\ hd_bit s j l;
  ns_head : forall l, bit head l = back (x_uds x) l (bit tail l);
  ns_grows : bits_le (m_atHead bb) head;
  ns_checked : checked = S (e_currentEpoch s) /\ checked <= epoch;
  ns_changed : m_lastChangedEpoch bb <= changed /\ changed <= epoch /\ (head = m_atHead bb \/ checked < changed)
}.
Section visited.
Context (done : nat -> Prop) (s : Epochs) (ord : nat) (x : Vertex) (bb : BytecodeLivenessBBInfo) (head tail : BitVector) (changed checked epoch : nat).
Context (Hi : loop_inv done s) (Hx : graph !! ord = Some x) (Hb : e_bbs s !! ord = Some bb) (Hns : new_state s x bb head tail changed checked epoch).
Let s' : Epochs := mk_epochs (<[ord := set_state head tail changed checked bb]> (e_bbs s)) epoch.

Lemma visited_head i l : hd_bit s' i l <-> if decide (i = ord) then bit head l = true else hd_bit s i l.
Proof using Hb. by apply (state_bits s s' ord bb (set_state head tail changed checked bb) Hb). Qed.
Lemma visited_tail i l : tl_bit s' i l <-> if decide (i = ord) then bit tail l = true else tl_bit s i l.
Proof using Hb. by apply (state_bits s s' ord bb (set_state head tail changed checked bb) Hb). Qed.
Lemma visited_grows i l : hd_bit s i l -> hd_bit s' i l.
Proof using Hb Hns. intros H. apply visited_head. destruct (decide (i = ord)) as [->|]; [|done]. apply (ns_grows _ _ _ _ _ _ _ _ Hns). by apply (own_state _ _ _ _ Hb). Qed.
Lemma visited_block i bi : e_bbs s' !! i = Some bi -> (i = ord /\ bi = set_state head tail changed checked bb) \/ (i <> ord /\ e_bbs s !! i = Some bi).
Proof using Hb. simpl. intros [[<- [<- _]]|[Hne H]]%list_lookup_insert_Some; [by left|right]. done. Qed.
Lemma visited_same i : i <> ord -> e_bbs s' !! i = e_bbs s !! i.
Proof. intros H. simpl. by rewrite list_lookup_insert_ne. Qed.
Lemma visited_own : e_bbs s' !! ord = Some (set_state head tail changed checked bb).
Proof using Hb. simpl. apply list_lookup_insert_eq. by eapply lookup_lt_Some. Qed.
(** An edge to the block: the head is as before, or changed later than it was looked at. *)
Lemma visited_edge i y : graph !! i = Some y -> done i \/ i = ord -> ord ∈ x_succs y -> i <> ord ->
  (forall l, hd_bit s' ord l -> tl_bit s' i l) \/ exists bi bb', e_bbs s' !! i = Some bi /\ e_bbs s' !! ord = Some bb' /\ m_lastCheckedEpoch bi < m_lastChangedEpoch bb'.
Proof using Hi Hb Hns.
  intros Hy [Hd| ->] Hin Hne; [|done]. destruct (loop_lookup _ _ _ _ Hi Hy) as (bi & Hbi & _). destruct (ns_changed _ _ _ _ _ _ _ _ Hns) as (Hc1 & Hc2 & Hc3).
  destruct (ns_checked _ _ _ _ _ _ _ _ Hns) as [Hk1 Hk2]. pose proof (lv_epoch _ _ Hi _ _ Hbi) as [Hei _].
  destruct (lv_current _ _ Hi _ _ _ Hy Hd Hin) as [Hl|(b1 & b2 & Hb1 & Hb2 & Hlt)].
  - destruct Hc3 as [Hsame|Hlater].
    + left. intros l. rewrite visited_head, visited_tail, decide_True, decide_False by done. rewrite Hsame. intros H. apply Hl. by apply (own_state _ _ _ _ Hb).
    + right. exists bi, (set_state head tail changed checked bb). rewrite visited_same by done. split; [done|]. split; [apply visited_own|]. simpl. lia.
  - right. exists bi, (set_state head tail changed checked bb). rewrite visited_same by done. split; [done|]. split; [apply visited_own|].
    rewrite Hb in Hb2. injection Hb2 as <-. rewrite Hbi in Hb1. injection Hb1 as <-. simpl. lia.
Qed.
Lemma visited_inv : loop_inv (fun i => done i \/ i = ord) s'.
Proof using Hi Hx Hb Hns HL.
  destruct (loop_lookup _ _ _ _ Hi Hx) as (bb1 & Hb1 & Hv). rewrite Hb in Hb1. injection Hb1 as <-. split.
  - simpl. rewrite <- (list_insert_id graph ord x) by done. apply Forall2_insert; [apply (lv_blocks _ _ Hi)|]. apply vertex_set; [done|apply Hns|apply Hns].
  - intros i l. rewrite visited_head. destruct (decide (i = ord)) as [->|]; [|apply (lv_sound _ _ Hi)]. rewrite (ns_head _ _ _ _ _ _ _ _ Hns). intros H. apply (HL _ _ _ _ Hx H).
    intros (j & Hj & Hh)%(ns_tail _ _ _ _ _ _ _ _ Hns). exists j. split; [done|by apply (lv_sound _ _ Hi)].
  - intros i y l Hy. rewrite visited_tail. destruct (decide (i = ord)) as [->|].
    + rewrite Hx in Hy. injection Hy as <-. intros (j & Hj & Hh)%(ns_tail _ _ _ _ _ _ _ _ Hns). exists j. split; [done|by apply visited_grows].
    + intros H. destruct (lv_tail _ _ Hi _ _ _ Hy H) as (j & Hj & Hh). exists j. split; [done|by apply visited_grows].
  - intros i y bi l Hy [[-> ->]|[Hne Hbi]]%visited_block Hd.
    + rewrite Hx in Hy. injection Hy as <-. apply (ns_head _ _ _ _ _ _ _ _ Hns).
    + apply (lv_head _ _ Hi i); [done|done|]. by destruct Hd.
  - intros i y bi l Hy [[-> ->]|[Hne Hbi]]%visited_block; [|by apply (lv_le _ _ Hi i)]. rewrite Hx in Hy. injection Hy as <-. simpl. by rewrite (ns_head _ _ _ _ _ _ _ _ Hns).
  - intros i y j Hy Hd Hj. destruct (decide (i = ord)) as [->|Hio]; [|destruct (decide (j = ord)) as [->|Hjo]; [by apply (visited_edge i y)|]].
    + rewrite Hx in Hy. injection Hy as <-. destruct (ns_changed _ _ _ _ _ _ _ _ Hns) as (_ & _ & [Hsame|Hlater]).
      * left. intros l. rewrite visited_head, visited_tail, (decide_True _ _ eq_refl). intros H. apply (ns_tail _ _ _ _ _ _ _ _ Hns). exists j. split; [done|].
        destruct (decide (j = ord)) as [->|]; [|done]. apply (own_state _ _ _ _ Hb). by rewrite <- Hsame.
      * destruct (decide (j = ord)) as [->|Hjo].
        -- right. exists (set_state head tail changed checked bb), (set_state head tail changed checked bb). split; [apply visited_own|]. split; [apply visited_own|done].
        -- left. intros l. rewrite visited_head, visited_tail, decide_False, decide_True by done. intros H. apply (ns_tail _ _ _ _ _ _ _ _ Hns). by exists j.
    + destruct (lv_current _ _ Hi _ _ _ Hy ltac:(by destruct Hd) Hj) as [Hl|Hr].
      * left. intros l. rewrite visited_head, visited_tail, !decide_False by done. apply Hl.
      * right. by rewrite !visited_same by done.
  - intros i bi [[-> ->]|[Hne Hbi]]%visited_block; simpl; destruct (ns_changed _ _ _ _ _ _ _ _ Hns) as (_ & ? & _); destruct (ns_checked _ _ _ _ _ _ _ _ Hns) as [? ?]; [lia|].
    pose proof (lv_epoch _ _ Hi _ _ Hbi). lia.
Qed.
Lemma visited_unset : unset_heads s' <= unset_heads s /\ (head <> m_atHead bb -> unset_heads s' < unset_heads s).
Proof using Hi Hx Hb Hns.
  destruct (loop_lookup _ _ _ _ Hi Hx) as (bb1 & Hb1 & Hv). rewrite Hb in Hb1. injection Hb1 as <-. unfold unset_heads. simpl.
  pose proof (sum_list_insert (fun bb => unset num (m_atHead bb)) _ _ _ (set_state head tail changed checked bb) Hb) as Hsum. simpl in Hsum.
  pose proof (ns_grows _ _ _ _ _ _ _ _ Hns) as Hle. split; [pose proof (unset_mono num _ _ Hle); lia|]. intros Hne.
  destruct (words_differ head (m_atHead bb)) eqn:Ed; [|by apply (words_differ_false num) in Ed; [|apply Hns|apply Hv]].
  destruct (words_differ_new num _ _ (ns_head_vector _ _ _ _ _ _ _ _ Hns) (vo_head _ _ Hv) Hle Ed) as (l & Hl1 & Hl2 & Hl3). pose proof (unset_new num _ _ l Hle Hl1 Hl2 Hl3). lia.
Qed.
End visited.

(** What one visit does. *)
Record visit_post (ord : nat) (x : Vertex) (s : Epochs) (done : nat -> Prop) (more : bool) (s' : Epochs) : Prop := {
  vp_inv : loop_inv (fun i => done i \/ i = ord) s';
  vp_grows : forall i l, hd_bit s i l -> hd_bit s' i l;
  vp_tails : forall i l, i <> ord -> tl_bit s' i l <-> tl_bit s i l;
  vp_current : forall j l, j ∈ x_succs x -> hd_bit s j l -> tl_bit s' ord l;
  vp_quiet : more = false -> forall i y l, graph !! i = Some y -> x_pred y = true -> hd_bit s' i l -> hd_bit s i l;
  vp_unset : unset_heads s' + (if more then 1 else 0) <= unset_heads s
}.
Lemma visited_post done s ord x bb head tail changed checked epoch more : loop_inv done s -> graph !! ord = Some x -> e_bbs s !! ord = Some bb ->
  new_state s x bb head tail changed checked epoch -> (more = true -> head <> m_atHead bb) -> (more = false -> head = m_atHead bb \/ x_pred x = false) ->
  visit_post ord x s done more (mk_epochs (<[ord := set_state head tail changed checked bb]> (e_bbs s)) epoch).
Proof using HL.
  intros Hi Hx Hb Hns Hmore Hquiet. destruct (visited_unset done s ord x bb head tail changed checked epoch Hi Hx Hb Hns) as [Hu Hu']. split.
  - by eapply visited_inv.
  - intros i l. by eapply visited_grows.
  - intros i l Hne. rewrite visited_tail by done. by rewrite decide_False.
  - intros j l Hj Hh. rewrite visited_tail, decide_True by done. apply (ns_tail _ _ _ _ _ _ _ _ Hns). by exists j.
  - intros Hm i y l Hy Hp. rewrite visited_head by done. destruct (decide (i = ord)) as [->|]; [|done]. rewrite Hx in Hy. injection Hy as <-.
    destruct (Hquiet Hm) as [->|Hf]; [|congruence]. intros H. by apply (own_state _ _ _ _ Hb).
  - destruct more; [|lia]. specialize (Hu' (Hmore eq_refl)). lia.
Qed.
(** A block that need not be looked at. *)
Lemma skipped_post done s ord x : loop_inv done s -> graph !! ord = Some x -> done ord -> (forall j l, j ∈ x_succs x -> hd_bit s j l -> tl_bit s ord l) ->
  visit_post ord x s done false s.
Proof.
  intros Hi Hx Hd Hc. split; try done; [|lia]. destruct Hi as [H1 H2 H3 H4 H5 H6 H7]. split; try done.
  - intros i y bb l Hy Hb [Hdi| ->]; by eapply H4.
  - intros i y j Hy [Hdi| ->]; by eapply H6.
Qed.

Lemma visit_bb_ok first done ord x s : loop_inv done s -> graph !! ord = Some x -> (first = false -> done ord) ->
  wp never (visit_bb code first ord) (fun more s' => visit_post ord x s done more s') s.
Proof using HL Hsuccs.
  intros Hi Hx Hfirst. destruct (loop_lookup _ _ _ _ Hi Hx) as (bb & Hb & Hv). pose proof (vo_succs _ _ Hv) as Hsu.
  assert (Hsome : forall j, j ∈ x_succs x -> exists bj, e_bbs s !! j = Some bj /\ bv_of num (m_atHead bj)).
  { intros j Hj. destruct (Hsuccs _ _ _ Hx Hj) as (y & Hy & _). destruct (loop_lookup _ _ _ _ Hi Hy) as (bj & Hbj & Hvj). exists bj. split; [done|apply Hvj]. }
  unfold visit_bb. apply wp_bind, (wp_get_info _ _ bb); [done|]. rewrite Hsu. apply wp_bind. eapply wp_mono; [apply should_check_ok|].
  { intros j Hj. destruct (Hsome j Hj) as (bj & Hbj & _). by exists bj. }
  intros b s1 [-> Hcheck]. destruct (b || first) eqn:Ebf; cbn [negb].
  2: { apply wp_ret. apply orb_false_iff in Ebf as [-> ->]. apply skipped_post; [done|done|by apply Hfirst|]. intros j l Hj.
       destruct (lv_current _ _ Hi _ _ _ Hx (Hfirst eq_refl) Hj) as [Hl|(b1 & b2 & Hb1 & Hb2 & Hlt)]; [apply Hl|].
       rewrite Hb in Hb1. injection Hb1 as <-. exfalso. assert (false = true) as Hff; [|done]. apply Hcheck. exists j. split; [done|]. by exists b2. }
  apply wp_bind, wp_next_epoch. apply wp_bind, wp_put_info. simpl e_bbs. simpl e_currentEpoch.
  set (checked := S (e_currentEpoch s)). set (s2 := mk_epochs _ _).
  assert (Hhd2 : forall i l, hd_bit s2 i l <-> hd_bit s i l).
  { intros i l. rewrite (proj1 (state_bits s s2 ord bb _ Hb eq_refl i l)). destruct (decide (i = ord)) as [->|]; [|done]. symmetry. apply (own_state _ _ _ _ Hb). }
  apply wp_bind. eapply wp_mono; [apply union_heads_ok; [|apply bv_of_Reset]|].
  { intros j Hj. destruct (decide (j = ord)) as [->|Hne].
    - eexists. split; [apply list_lookup_insert_eq; by eapply lookup_lt_Some|]. apply Hv.
    - simpl. rewrite list_lookup_insert_ne by done. by apply Hsome. }
  intros tail s3 (-> & Htv & Htb).
  assert (Htail : forall l, bit tail l = true <-> exists j, j ∈ x_succs x /\ hd_bit s j l).
  { intros l. rewrite Htb, bit_Reset. setoid_rewrite Hhd2. split; [by intros [?|?]|by right]. }
  assert (Htle : bits_le (m_atTail bb) tail).
  { intros l H. apply Htail. apply (lv_tail _ _ Hi _ _ _ Hx). by apply (own_state _ _ _ _ Hb). }
  rewrite (update_bits_ok _ _ (vo_tail _ _ Hv) Htv Htle). apply wp_bind, wp_lift_result. apply wp_bind, wp_put_info. simpl e_bbs. simpl e_currentEpoch. rewrite list_insert_insert_eq.
  destruct (words_differ (m_atTail bb) tail || first) eqn:Etf; cbn [negb].
  2: { apply wp_ret. apply orb_false_iff in Etf as [Et ->]. apply (words_differ_false num) in Et; [|apply Hv|done]. apply visited_post; [done|done|done| |done|by left].
       split; try done; [apply Hv| |by intros l|].
       - intros l. rewrite <- Et. by apply (lv_head _ _ Hi ord); [| |apply Hfirst].
       - unfold checked. pose proof (lv_epoch _ _ Hi _ _ Hb). split; [done|]. split; [lia|by left]. }
  destruct (fast_ok x bb tail Hv Htv) as [Hhv Hhb]. change (ComputeHeadBasedOnTailFast _) with (zip_words Z.lor (zip_words Z.land tail (m_andMask bb)) (m_orMask bb)).
  set (head := zip_words Z.lor _ _) in *. change (m_atHead (set_state _ _ _ _ bb)) with (m_atHead bb).
  assert (Hhle : bits_le (m_atHead bb) head).
  { intros l H. rewrite Hhb. apply (lv_le _ _ Hi ord x) in H; [|done|done]. by apply (back_mono _ _ (bit (m_atTail bb) l)); [apply Htle|]. }
  rewrite (update_bits_ok _ _ (vo_head _ _ Hv) Hhv Hhle). apply wp_bind, wp_lift_result.
  destruct (slow_ok x bb tail Hv Htv) as (slow & Hslow & Hsv & Hsb). apply wp_bind. change (ComputeHeadBasedOnTail _ _ _ tail) with (ComputeHeadBasedOnTail (m_info bb) (m_infoIndex bb) (m_numBytecodes bb) tail).
  rewrite Hslow. apply wp_lift_result. assert (slow = head) as -> by (apply (words_same num); [done|done|]; intros l _; by rewrite Hsb, Hhb).
  rewrite words_differ_refl. unfold check. cbn [negb]. apply wp_bind, wp_ret. apply wp_bind, wp_put_info. simpl e_bbs. simpl e_currentEpoch. rewrite list_insert_insert_eq.
  assert (Hns : forall changed epoch, m_lastChangedEpoch bb <= changed -> checked <= epoch -> changed <= epoch -> head = m_atHead bb \/ checked < changed ->
    new_state s x bb head tail changed checked epoch) by (intros; by split).
  pose proof (lv_epoch _ _ Hi _ _ Hb) as [He1 He2]. destruct (words_differ (m_atHead bb) head) eqn:Eh.
  - apply wp_bind, wp_next_epoch. apply wp_bind, wp_put_info. simpl e_bbs. simpl e_currentEpoch. rewrite list_insert_insert_eq. apply wp_ret.
    change (m_hasPredecessor (set_state _ _ _ _ bb)) with (m_hasPredecessor bb). rewrite (vo_pred _ _ Hv).
    assert (Hne : head <> m_atHead bb) by (intros He; by rewrite He, words_differ_refl in Eh).
    apply (visited_post done s ord x bb head tail (S (S (e_currentEpoch s))) checked); [done|done|done|apply Hns; unfold checked; lia|done|by right].
  - apply wp_ret. apply (words_differ_false num) in Eh; [|apply Hv|done].
    apply (visited_post done s ord x bb head tail (m_lastChangedEpoch bb) checked); [done|done|done|apply Hns; unfold checked; try lia; by left|done|by left].
Qed.

(** ** The rounds *)
Record round_post (ords : list nat) (s : Epochs) (done : nat -> Prop) (more : bool) (s' : Epochs) : Prop := {
  rp_inv : loop_inv (fun i => done i \/ i ∈ ords) s';
  rp_tails : forall i l, i ∉ ords -> tl_bit s' i l <-> tl_bit s i l;
  rp_current : more = false -> forall i x j l, i ∈ ords -> graph !! i = Some x -> j ∈ x_succs x -> hd_bit s' j l -> tl_bit s' i l;
  rp_quiet : more = false -> forall i y l, graph !! i = Some y -> x_pred y = true -> hd_bit s' i l -> hd_bit s i l;
  rp_unset : unset_heads s' + (if more then 1 else 0) <= unset_heads s
}.
Lemma loop_inv_ext (done done' : nat -> Prop) s : (forall i, done i <-> done' i) -> loop_inv done s -> loop_inv done' s.
Proof. intros H [H1 H2 H3 H4 H5 H6 H7]. split; try done; intros i; intros; [eapply H4|eapply H6]; try done; by apply H. Qed.
Lemma visit_bbs_ok first ords done s : loop_inv done s -> NoDup ords -> (forall i, i ∈ ords -> is_Some (graph !! i)) -> (first = false -> forall i, i ∈ ords -> done i) ->
  wp never (visit_bbs code first ords) (fun more s' => round_post ords s done more s') s.
Proof using HL Hsuccs.
  revert done s. induction ords as [|ord ords IH]; intros done s Hi Hnd Hin Hf; cbn [visit_bbs].
  - apply wp_ret. split; try done; [|by intros _ i x j l ?%elem_of_nil|lia]. eapply loop_inv_ext; [|done]. intros i. rewrite elem_of_nil. tauto.
  - apply NoDup_cons in Hnd as [Hno Hnd]. destruct (Hin ord ltac:(left)) as [x Hx]. apply wp_bind.
    eapply wp_mono; [apply (visit_bb_ok first done ord x); [done|done|intros ->; apply Hf; [done|left]]|]. intros more s1 Hv. apply wp_bind.
    eapply wp_mono; [apply (IH (fun i => done i \/ i = ord)); [apply Hv|done|intros i Hi'; apply Hin; by right|]|].
    { intros Hff i Hi'. left. apply (Hf Hff). by right. }
    intros rest s2 Hr. apply wp_ret. split.
    + eapply loop_inv_ext; [|apply Hr]. intros i. rewrite elem_of_cons. tauto.
    + intros i l Hi'. apply not_elem_of_cons in Hi' as [Hne Hi']. by rewrite (rp_tails _ _ _ _ _ Hr) , (vp_tails _ _ _ _ _ _ Hv).
    + intros [Hm1 Hm2]%orb_false_iff i y j l Hi' Hy Hj Hh. apply elem_of_cons in Hi' as [->|Hi']; [|by eapply (rp_current _ _ _ _ _ Hr)].
      rewrite Hx in Hy. injection Hy as <-. apply (rp_tails _ _ _ _ _ Hr); [done|]. apply (vp_current _ _ _ _ _ _ Hv j); [done|].
      destruct (Hsuccs _ _ _ Hx Hj) as (y & Hy & Hp). apply (vp_quiet _ _ _ _ _ _ Hv Hm1 j y); [done|done|]. by apply (rp_quiet _ _ _ _ _ Hr Hm2 j y).
    + intros [Hm1 Hm2]%orb_false_iff i y l Hy Hp Hh. apply (vp_quiet _ _ _ _ _ _ Hv Hm1 i y); [done|done|]. by apply (rp_quiet _ _ _ _ _ Hr Hm2 i y).
    + pose proof (vp_unset _ _ _ _ _ _ Hv). pose proof (rp_unset _ _ _ _ _ Hr). destruct more, rest; simpl in *; lia.
Qed.

(** The flow equations. *)
Definition solved (s : Epochs) : Prop :=
  Forall2 vertex_ok graph (e_bbs s) /\ (forall i l, hd_bit s i l -> L i l) /\
  forall i x bb, graph !! i = Some x -> e_bbs s !! i = Some bb -> forall l,
    bit (m_atHead bb) l = back (x_uds x) l (bit (m_atTail bb) l) /\ (bit (m_atTail bb) l = true <-> exists j, j ∈ x_succs x /\ hd_bit s j l).
Lemma liveness_fixpoint_ok fuel first done s : loop_inv done s -> (first = false -> forall i, i < length graph -> done i) -> unset_heads s < fuel ->
  wp never (liveness_fixpoint code fuel first (length graph)) (fun _ s' => solved s') s.
Proof using HL Hsuccs.
  revert first done s. induction fuel as [|fuel IH]; intros first done s Hi Hf Hu; [lia|]. cbn [liveness_fixpoint]. apply wp_bind.
  eapply wp_mono; [apply (visit_bbs_ok first (seq 0 (length graph)) done s Hi); [apply NoDup_seq| |]|].
  { intros i Hin%elem_of_seq. apply lookup_lt_is_Some_2. lia. }
  { intros Hff i Hin%elem_of_seq. apply (Hf Hff). lia. }
  intros more s' Hr. pose proof (rp_unset _ _ _ _ _ Hr) as Hu'. destruct more.
  - apply (IH false (fun i => done i \/ i ∈ seq 0 (length graph))); [apply Hr| |lia]. intros _ i Hlt. right. apply elem_of_seq. lia.
  - apply wp_ret. pose proof (rp_inv _ _ _ _ _ Hr) as Hi'. split; [apply Hi'|]. split; [apply (lv_sound _ _ Hi')|]. intros i x bb Hx Hb l.
    assert (Hin : i ∈ seq 0 (length graph)) by (apply elem_of_seq; apply lookup_lt_Some in Hx; lia).
    split; [by apply (lv_head _ _ Hi' i); [| |right]|]. rewrite <- (proj2 (own_state _ _ _ l Hb)). split; [by apply (lv_tail _ _ Hi')|].
    intros (j & Hj & Hh). by apply (rp_current _ _ _ _ _ Hr eq_refl i x j).
Qed.
End loop.
