(* ===== verification/LiveProps.v ===== *)
(** * The graph of the liveness analysis, and its solution

    The blocks in the order the analysis visits them, the objects it makes for them, and why
    the solution of the flow equations on this graph is liveness. *)
From S2P Require Import Prelude Compiler BitVec ControlFlow Blocks Captures CapturesProps Liveness LiveInfo LiveSpec LiveLoop.
From stdpp Require Import list sorting.
#[local] Set Default Proof Using "Type".
#[local] Notation never := (fun _ : error => False).

(** ** The order of the blocks *)
#[local] Instance later_total : Total starts_later.
Proof. intros a b. unfold starts_later. lia. Qed.
#[local] Instance later_trans : Transitive starts_later.
Proof. intros a b c. unfold starts_later. lia. Qed.
Lemma descending_ok l : StronglySorted (fun a b : nat => b <= a) l -> NoDup l -> descending l = true.
Proof.
  induction l as [|a [|b l] IH]; intros Hs Hnd; [done|done|]. cbn [descending]. rewrite andb_true_iff. apply NoDup_cons in Hnd as [Hna Hnd]. apply StronglySorted_inv in Hs as [Hs Hall]. split.
  - apply Nat.ltb_lt. apply Forall_inv in Hall. assert (a <> b) by (intros ->; apply Hna; left). lia.
  - by apply IH.
Qed.

Section order.
Context (dec : Decoder) (code : CodeBlock) (Hcode : code_ok dec code) (bbs : list BasicBlockUpvalueInfo) (Han : analyzed dec code bbs).
Notation sorted := (reverse_order bbs).

Lemma sorted_elem o bb : (o, bb) ∈ sorted <-> bbs !! o = Some bb.
Proof.
  unfold reverse_order. rewrite merge_sort_Permutation, list_elem_of_lookup. setoid_rewrite list_lookup_imap. split.
  - intros (i & (bb' & Hb & [= -> ->])%fmap_Some). done.
  - intros Hb. exists o. by rewrite Hb.
Qed.
Lemma sorted_lookup_block p o bb : sorted !! p = Some (o, bb) -> bbs !! o = Some bb.
Proof. intros H. apply sorted_elem. by eapply list_elem_of_lookup_2. Qed.
Lemma imap_pair_fst {A} (l : list A) : (imap pair l).*1 = seq 0 (length l).
Proof.
  apply list_eq. intros i. rewrite list_lookup_fmap, list_lookup_imap. destruct (l !! i) as [x|] eqn:E; simpl.
  - symmetry. apply lookup_seq. split; [done|by eapply lookup_lt_Some].
  - symmetry. apply lookup_seq_ge. by apply lookup_ge_None.
Qed.
Lemma sorted_nodup : NoDup sorted.*1.
Proof. unfold reverse_order. rewrite merge_sort_Permutation, imap_pair_fst. apply NoDup_seq. Qed.
Lemma order_inj p p' o bb bb' : sorted !! p = Some (o, bb) -> sorted !! p' = Some (o, bb') -> p = p'.
Proof.
  intros H H'. apply (NoDup_lookup (sorted.*1) p p' o sorted_nodup); rewrite list_lookup_fmap; [by rewrite H|by rewrite H'].
Qed.
(** Distinct blocks start at distinct bytecodes. *)
Lemma sorted_descending : descending ((fun b => m_bytecodeIndex b.2) <$> sorted) = true.
Proof using Hcode Han.
  destruct Han as [Hg Hr]. apply descending_ok.
  - apply (StronglySorted_fmap _ starts_later (fun a b => b <= a)); [by intros|]. apply StronglySorted_merge_sort; apply _.
  - apply NoDup_alt. intros p p' i. rewrite !list_lookup_fmap. intros ([o bb] & Hp & ->)%fmap_Some ([o' bb'] & Hp' & He)%fmap_Some. simpl in He.
    apply sorted_lookup_block in Hp as Hb. apply sorted_lookup_block in Hp' as Hb'.
    destruct (go_span _ _ _ Hg _ _ Hb) as (a & b & Hs), (go_span _ _ _ Hg _ _ Hb') as (a' & b' & Hs').
    rewrite (br_index _ _ _ _ _ (Hr _ _ _ _ Hb Hs)), (br_index _ _ _ _ _ (Hr _ _ _ _ Hb' Hs')) in He. subst a'.
    pose proof (bs_le _ _ _ _ _ Hs). pose proof (bs_le _ _ _ _ _ Hs').
    assert (o = o') as <- by (apply (go_disjoint _ _ _ Hg _ _ _ _ _ _ _ _ Hb Hb' Hs Hs'); lia). by eapply order_inj.
Qed.

(** The blocks that the successors have in this order. *)
Definition at_position (o p : nat) : Prop := exists bb, sorted !! p = Some (o, bb).
Lemma position_ok o : o < length bbs -> exists p, position sorted o = Some p /\ at_position o p.
Proof.
  intros Ho. destruct (lookup_lt_is_Some_2 _ _ Ho) as [bb Hb]. apply sorted_elem in Hb. unfold position.
  destruct (list_find_elem_of (fun b => b.1 = o) sorted _ Hb eq_refl) as [[p [o' bb']] Hf]. rewrite Hf. apply list_find_Some in Hf as (Hp & He & _). simpl in He. subst o'.
  exists p. split; [done|by exists bb'].
Qed.
Lemma positions_ok ords : Forall (fun o => o < length bbs) ords -> exists ps, positions sorted ords = Ok ps /\ Forall2 at_position ords ps.
Proof.
  induction 1 as [|o ords Ho _ (ps & IH & HF)]; [by exists []; split; [|constructor]|]. destruct (position_ok o Ho) as (p & Hp & Hat). exists (p :: ps).
  cbn [positions]. rewrite Hp, IH. split; [done|by constructor].
Qed.
Lemma succs_bound o bb : bbs !! o = Some bb -> Forall (fun o => o < length bbs) (m_successors bb).
Proof using Han. intros Hb. apply Forall_forall. intros o' Hin. apply (succ_lt dec code bbs (proj1 Han) o). by exists bb. Qed.
Lemma all_positions_ok l : (forall x, x ∈ l -> bbs !! x.1 = Some x.2) -> exists pss, all_positions sorted l = Ok pss /\ Forall2 (fun x ps => Forall2 at_position (m_successors x.2) ps) l pss.
Proof using Han.
  induction l as [|x l IH]; intros Hl; [by exists []; split; [|constructor]|]. destruct IH as (pss & IH & HF); [intros y Hy; apply Hl; by right|].
  destruct (positions_ok (m_successors x.2)) as (ps & Hps & HFp); [apply (succs_bound x.1), Hl; left|]. exists (ps :: pss). cbn [all_positions]. rewrite Hps, IH. split; [done|by constructor].
Qed.
End order.

(** ** The graph of the loop *)
Section graph.
Context (dec : Decoder) (code : CodeBlock) (Hcode : code_ok dec code) (Hcl : closures_ok dec code) (Hac : accesses_ok dec code).
Context (bbs : list BasicBlockUpvalueInfo) (Han : analyzed dec code bbs).
Notation num := (m_stackFrameNumSlots code).
Notation off_at := (off_at dec code).
Notation sorted := (reverse_order bbs).

Record vertex_for (x : nat * BasicBlockUpvalueInfo) (ps : list nat) (v : Vertex) : Prop := {
  vf_block : bbs !! x.1 = Some x.2;
  vf_span : block_span dec code x.2 (x_first v) (x_last v);
  vf_table : table_ok dec code (x_first v) (x_last v) (x_uds v);
  vf_succs : x_succs v = ps
}.
Definition fresh_info (v : Vertex) (bb : BytecodeLivenessBBInfo) : Prop :=
  info_ok dec code (x_first v) (x_last v) (x_uds v) bb /\ m_atHead bb = Reset num /\ m_atTail bb = Reset num /\ m_lastChangedEpoch bb = 0 /\ m_lastCheckedEpoch bb = 0.
Lemma new_infos_ok l pss f : (forall x, x ∈ l -> bbs !! x.1 = Some x.2) -> length pss = length l ->
  exists infos vs, new_infos dec code (snd <$> l) = Ok infos /\ Forall2 fresh_info vs infos /\ length vs = length l /\
    forall p x ps, l !! p = Some x -> pss !! p = Some ps -> exists v, vs !! p = Some v /\ vertex_for x ps v /\ x_pred v = f p.
Proof using Hcode Hcl Hac Han.
  revert pss f. induction l as [|x l IH]; intros pss f Hl Hlen; destruct pss as [|ps pss]; try done; [by exists [], []; repeat split; [constructor|]|].
  pose proof (Hl x ltac:(left)) as Hb. destruct (go_span _ _ _ (proj1 Han) _ _ Hb) as (a & b & Hs).
  destruct (new_info_ok _ _ Hcode Hcl Hac _ Han _ _ _ _ Hb Hs) as (uds & info & Hi & Hio & Hrest).
  destruct (IH pss (fun p => f (S p))) as (infos & vs & Hr & HF & Hlv & Hv); [intros y Hy; apply Hl; by right|by injection Hlen|].
  exists (info :: infos), (mk_vertex a b uds ps (f 0) :: vs). cbn [fmap list_fmap new_infos]. rewrite Hi. cbn [mbind result_bind]. rewrite Hr. split; [done|].
  split; [constructor; [done|done]|]. split; [simpl; by rewrite Hlv|]. intros [|p] y qs; simpl; [|apply Hv]. intros [= <-] [= <-]. eexists. split; [done|].
  split; [|done]. split; [done|done|apply Hio|done].
Qed.

(** Liveness at the start of the block at a position. *)
Definition live_start (graph : list Vertex) (p l : nat) : Prop := exists v, graph !! p = Some v /\ live dec code l (off_at (x_first v)).
Lemma back_live a b uds k l t : table_ok dec code a b uds -> b < length (m_sbIndex code) -> (forall i, a <= i < b -> terminal_at dec (off_at i) = false) -> a <= b ->
  (t = true -> exists off', flow dec code (off_at b) off' /\ live dec code l off') -> k <= length uds ->
  back (drop k uds) l t = true -> k < length uds -> live dec code l (off_at (a + k)).
Proof using Hcode.
  intros [Hlen Hacc] Hb Hp Hab Ht. intros Hk. remember (length uds - k) as m eqn:Hm. revert k Hm Hk. induction m as [|m IH]; intros k Hm Hk Hback Hlt; [lia|].
  destruct (lookup_lt_is_Some_2 uds k Hlt) as [[u d] Hud]. rewrite (drop_S _ _ _ Hud) in Hback. simpl in Hback. destruct (Hacc _ _ Hud) as (Hu & Hd & _). simpl in Hu, Hd.
  apply orb_true_iff in Hback as [Hin|[Hnd Hrest]%andb_true_iff]; [apply live_used, Hu; by apply bool_decide_eq_true in Hin|].
  apply negb_true_iff, bool_decide_eq_false in Hnd. rewrite Hd in Hnd. destruct (decide (S k = length uds)) as [He|Hne].
  - rewrite He, drop_ge in Hrest by done. simpl in Hrest. destruct (Ht Hrest) as (off' & Hf & Hl). replace (a + k) with b by lia. apply (live_passes _ _ _ _ off'); [done|done|].
    by replace b with (a + k) by lia.
  - apply (live_passes _ _ _ _ (off_at (a + S k))); [|apply IH; [lia|lia|done|lia]|done]. rewrite Nat.add_succ_r. apply (flow_plain _ _ Hcode); [lia|apply Hp; lia|done].
Qed.
Lemma live_back a b uds l t : table_ok dec code a b uds -> b < length (m_sbIndex code) -> (forall i, a <= i < b -> terminal_at dec (off_at i) = false) -> a <= b ->
  forall k, k < length uds -> (exists off', flow dec code (off_at (a + k)) off' /\ ~ defined dec code (off_at (a + k)) l /\
     (S k = length uds -> t = true) /\ (S k < length uds -> back (drop (S k) uds) l t = true)) \/ used dec code (off_at (a + k)) l -> back (drop k uds) l t = true.
Proof.
  intros [Hlen Hacc] Hb Hp Hab k Hk H. destruct (lookup_lt_is_Some_2 uds k Hk) as [[u d] Hud]. rewrite (drop_S _ _ _ Hud). simpl. destruct (Hacc _ _ Hud) as (Hu & Hd & _). simpl in Hu, Hd.
  apply orb_true_iff. destruct H as [(off' & _ & Hnd & H1 & H2)|Hus]; [right|left; by apply bool_decide_eq_true, Hu].
  apply andb_true_iff. split; [apply negb_true_iff, bool_decide_eq_false; by rewrite Hd|]. destruct (decide (S k = length uds)) as [He|]; [|apply H2; lia].
  rewrite He, drop_ge by done. by apply H1.
Qed.

(** The vertices of the blocks, and the objects they start as. *)
Record graph_of (vs : list Vertex) (infos : list BytecodeLivenessBBInfo) : Prop := {
  gf_length : length vs = length sorted;
  gf_vertex : forall p v, vs !! p = Some v -> exists o bb, sorted !! p = Some (o, bb) /\ block_span dec code bb (x_first v) (x_last v) /\
    table_ok dec code (x_first v) (x_last v) (x_uds v) /\ Forall2 (at_position bbs) (m_successors bb) (x_succs v);
  gf_pred : forall p v j, vs !! p = Some v -> j ∈ x_succs v -> exists v', vs !! j = Some v' /\ x_pred v' = true;
  gf_start : loop_inv dec code vs (live_start vs) (fun _ => False) (mk_epochs infos 1)
}.
Lemma fresh_linked v bb ps f : fresh_info v bb -> x_succs v = ps -> x_pred v = f ->
  vertex_ok dec code v (set_edges ps f bb) /\ m_atHead (set_edges ps f bb) = Reset num /\ m_atTail (set_edges ps f bb) = Reset num /\
  m_lastChangedEpoch (set_edges ps f bb) = 0 /\ m_lastCheckedEpoch (set_edges ps f bb) = 0.
Proof.
  intros ([H1 H2 H3 H4 H5 H6 H7 H8 H9] & Hh & Ht & Hc & Hk) Hs Hp. split; [|done].
  split; [by split|by symmetry|by symmetry|simpl; rewrite Hh; apply bv_of_Reset|simpl; rewrite Ht; apply bv_of_Reset].
Qed.
Lemma start_loop_inv vs infos : Forall2 (fun v bb => vertex_ok dec code v bb /\ m_atHead bb = Reset num /\ m_atTail bb = Reset num /\
    m_lastChangedEpoch bb = 0 /\ m_lastCheckedEpoch bb = 0) vs infos -> loop_inv dec code vs (live_start vs) (fun _ => False) (mk_epochs infos 1).
Proof.
  intros HF.
  assert (Hbits : forall i bb, infos !! i = Some bb -> m_atHead bb = Reset num /\ m_atTail bb = Reset num /\ m_lastChangedEpoch bb = 0 /\ m_lastCheckedEpoch bb = 0).
  { intros i bb Hb. destruct (Forall2_lookup_r _ _ _ _ _ HF Hb) as (v & _ & _ & H). done. }
  split; simpl.
  - eapply Forall2_impl; [exact HF|]. by intros v bb [? _].
  - intros i l (bb & Hb & Hl). simpl in Hb. destruct (Hbits _ _ Hb) as (Hh & _). by rewrite Hh, bit_Reset in Hl.
  - intros i v l _ (bb & Hb & Hl). simpl in Hb. destruct (Hbits _ _ Hb) as (_ & Ht & _). by rewrite Ht, bit_Reset in Hl.
  - done.
  - intros i v bb l _ Hb Hl. destruct (Hbits _ _ Hb) as (Hh & _). by rewrite Hh, bit_Reset in Hl.
  - done.
  - intros i bb Hb. destruct (Hbits _ _ Hb) as (_ & _ & -> & ->). lia.
Qed.
Lemma graph_ok_start : exists infos pss vs, new_infos dec code (snd <$> sorted) = Ok infos /\ all_positions sorted sorted = Ok pss /\
  length infos = length vs /\ graph_of vs (link_infos infos pss).
Proof using Hcode Hcl Hac Han.
  destruct (all_positions_ok dec code bbs Han sorted) as (pss & Hpss & HFp); [intros [o bb] Hin; by apply sorted_elem|].
  destruct (new_infos_ok sorted pss (fun p => bool_decide (p ∈ concat pss))) as (infos & vs & Hinfos & HFi & Hlen & Hv);
    [intros [o bb] Hin; by apply sorted_elem|symmetry; by eapply Forall2_length|].
  exists infos, pss, vs. split; [done|]. split; [done|]. split; [symmetry; by eapply Forall2_length|].
  assert (Hat : forall p v, vs !! p = Some v -> exists o bb ps, sorted !! p = Some (o, bb) /\ pss !! p = Some ps /\
    vertex_for (o, bb) ps v /\ x_pred v = bool_decide (p ∈ concat pss) /\ Forall2 (at_position bbs) (m_successors bb) ps).
  { intros p v Hp. destruct (lookup_lt_is_Some_2 sorted p) as [[o bb] Hb]; [rewrite <- Hlen; by eapply lookup_lt_Some|].
    destruct (Forall2_lookup_l _ _ _ _ _ HFp Hb) as (ps & Hps & HF). destruct (Hv _ _ _ Hb Hps) as (v' & Hv' & Hvf & Hpr).
    rewrite Hp in Hv'. injection Hv' as <-. by exists o, bb, ps. }
  split; [done| | |].
  - intros p v Hp. destruct (Hat p v Hp) as (o & bb & ps & Hb & _ & [Hb' Hs Ht Hsu] & _ & HF). exists o, bb. rewrite Hsu. done.
  - intros p v j Hp Hj. destruct (Hat p v Hp) as (o & bb & ps & Hb & Hps & [_ _ _ Hsu] & _ & HF). rewrite Hsu in Hj.
    pose proof Hj as Hj'. apply list_elem_of_lookup in Hj' as [k Hk]. destruct (Forall2_lookup_r _ _ _ _ _ HF Hk) as (o' & _ & bb' & Hb').
    destruct (lookup_lt_is_Some_2 vs j) as [v' Hv']; [rewrite Hlen; by eapply lookup_lt_Some|]. exists v'. split; [done|].
    destruct (Hat j v' Hv') as (_ & _ & _ & _ & _ & _ & -> & _). apply bool_decide_eq_true, list_elem_of_In, in_concat.
    exists ps. split; apply list_elem_of_In; [by eapply list_elem_of_lookup_2|done].
  - apply start_loop_inv. apply Forall2_same_length_lookup. unfold link_infos. rewrite length_imap. split; [by eapply Forall2_length|].
    intros p v bb Hp. rewrite list_lookup_imap. intros (info & Hinfo & ->)%fmap_Some.
    destruct (Hat p v Hp) as (o & bb0 & ps & _ & Hps & [_ _ _ Hsu] & Hpr & _). rewrite Hps. cbn [default from_option id].
    apply fresh_linked; [|done|done]. by eapply Forall2_lookup_lr.
Qed.
End graph.

(** ** The solution is liveness *)
Section solution.
Context (dec : Decoder) (code : CodeBlock) (Hcode : code_ok dec code) (Hcl : closures_ok dec code) (Hac : accesses_ok dec code).
Context (bbs : list BasicBlockUpvalueInfo) (Han : analyzed dec code bbs) (vs : list Vertex) (infos : list BytecodeLivenessBBInfo).
Context (Hgr : graph_of dec code bbs vs infos).
Notation num := (m_stackFrameNumSlots code).
Notation off_at := (off_at dec code).
Notation sorted := (reverse_order bbs).
Notation live := (live dec code).

Lemma vertex_block p v : vs !! p = Some v -> exists o bb, bbs !! o = Some bb /\ sorted !! p = Some (o, bb) /\ block_span dec code bb (x_first v) (x_last v) /\
  table_ok dec code (x_first v) (x_last v) (x_uds v) /\ Forall2 (at_position bbs) (m_successors bb) (x_succs v).
Proof using Hgr.
  intros Hv. destruct (gf_vertex _ _ _ _ _ Hgr p v Hv) as (o & bb & Hs & Hsp & Ht & HF). exists o, bb. split; [by eapply sorted_lookup_block|done].
Qed.
(** A successor of a block in the graph is where control goes from its last bytecode. *)
Lemma succ_start p v j l : vs !! p = Some v -> j ∈ x_succs v -> live_start dec code vs j l ->
  exists off', flow dec code (off_at (x_last v)) off' /\ live l off'.
Proof using Hgr Han.
  intros Hv Hj (v' & Hv' & Hl). destruct (vertex_block p v Hv) as (o & bb & Hb & _ & Hsp & _ & HF). destruct (vertex_block j v' Hv') as (o' & bb' & Hb' & Hs' & Hsp' & _).
  apply list_elem_of_lookup in Hj as [k Hk]. destruct (Forall2_lookup_r _ _ _ _ _ HF Hk) as (o2 & Ho2 & bb2 & Hat). rewrite Hs' in Hat. injection Hat as <- <-.
  destruct (Forall2_lookup_l _ _ _ _ _ (go_succs _ _ _ (proj1 Han) _ _ Hb) Ho2) as (off' & Hoff & bb3 & Hb3 & Hst). rewrite Hb' in Hb3. injection Hb3 as <-.
  exists off'. rewrite <- Hst at 2. rewrite (bs_start _ _ _ _ _ Hsp'). split; [|done]. split; [apply off_at_in, Hsp|].
  rewrite <- (bs_terminal _ _ _ _ _ Hsp). by eapply list_elem_of_lookup_2.
Qed.
(** Where control goes from the last bytecode of a block is the start of a successor. *)
Lemma succ_vertex p v off' : vs !! p = Some v -> flow dec code (off_at (x_last v)) off' ->
  exists j v', j ∈ x_succs v /\ vs !! j = Some v' /\ off' = off_at (x_first v') /\ 0 < length (x_uds v').
Proof using Hgr Han Hcode.
  intros Hv Hf. destruct (vertex_block p v Hv) as (o & blk & Hblk & _ & Hsp & _ & HF). pose proof (bs_le _ _ _ _ _ Hsp).
  assert (Hat : at_block dec code bbs (off_at (x_last v)) o blk (x_first v) (x_last v) (x_last v)) by (split; [done|]; split; [done|]; split; [lia|done]).
  destruct (flow_block _ _ Hcode _ (proj1 Han) _ _ _ _ _ _ _ Hat Hf) as [[Hlt _]|(_ & o' & blk' & a' & b' & Hin & Hat')]; [lia|].
  apply list_elem_of_lookup in Hin as [q Hq]. destruct (Forall2_lookup_l _ _ _ _ _ HF Hq) as (j & Hj & blk2 & Hpos).
  destruct (lookup_lt_is_Some_2 vs j) as [v' Hv']; [rewrite (gf_length _ _ _ _ _ Hgr); by eapply lookup_lt_Some|].
  destruct (vertex_block j v' Hv') as (o2 & blk3 & Hblk3 & Hs3 & Hsp' & Htab' & _). rewrite Hpos in Hs3. injection Hs3 as <- <-.
  destruct Hat' as (Hblk' & Hsp2 & _ & Hoff). rewrite Hblk3 in Hblk'. injection Hblk' as <-. destruct (span_unique _ _ Hcode _ _ _ _ _ Hsp' Hsp2) as [Ha _].
  pose proof (proj1 Htab'). exists j, v'. split; [by eapply list_elem_of_lookup_2|]. split; [done|]. split; [by rewrite Ha|lia].
Qed.
Lemma live_start_closed p v l t : vs !! p = Some v -> back (x_uds v) l t = true -> (t = true -> exists j, j ∈ x_succs v /\ live_start dec code vs j l) -> live_start dec code vs p l.
Proof using Hgr Han Hcode.
  intros Hv Hb Ht. exists v. split; [done|]. destruct (vertex_block p v Hv) as (o & bb & _ & _ & Hsp & Htab & _). pose proof (bs_le _ _ _ _ _ Hsp).
  pose proof (back_live dec code Hcode (x_first v) (x_last v) (x_uds v) 0 l t Htab (bs_in _ _ _ _ _ Hsp) (bs_plain _ _ _ _ _ Hsp)) as H'. rewrite Nat.add_0_r, drop_0 in H'.
  pose proof (proj1 Htab). apply H'; [done| |lia|done|lia]. intros (j & Hj & Hl)%Ht. by eapply succ_start.
Qed.

Context (s : Epochs) (Hsol : solved dec code vs (live_start dec code vs) s).
Lemma solved_block p v : vs !! p = Some v -> exists bb, e_bbs s !! p = Some bb /\ vertex_ok dec code v bb /\
  (forall l, bit (m_atHead bb) l = back (x_uds v) l (bit (m_atTail bb) l)) /\ (forall l, bit (m_atTail bb) l = true <-> exists j, j ∈ x_succs v /\ hd_bit s j l).
Proof using Hsol.
  intros Hv. destruct Hsol as (HF & _ & Heq). destruct (Forall2_lookup_l _ _ _ _ _ HF Hv) as (bb & Hb & Hvo). exists bb. split; [done|]. split; [done|].
  split; intros l; by apply (Heq p).
Qed.
(** Before each bytecode the equations say what is live. *)
Lemma back_sound p v bb k l : vs !! p = Some v -> e_bbs s !! p = Some bb -> k < length (x_uds v) ->
  back (drop k (x_uds v)) l (bit (m_atTail bb) l) = true -> live l (off_at (x_first v + k)).
Proof using Hgr Han Hcode Hsol.
  intros Hv Hb Hk. destruct (vertex_block p v Hv) as (o & blk & _ & _ & Hsp & Htab & _). destruct (solved_block p v Hv) as (bb' & Hb' & _ & _ & Ht).
  rewrite Hb in Hb'. injection Hb' as <-. intros Hback.
  apply (back_live dec code Hcode _ (x_last v) (x_uds v) k l (bit (m_atTail bb) l) Htab (bs_in _ _ _ _ _ Hsp) (bs_plain _ _ _ _ _ Hsp) (bs_le _ _ _ _ _ Hsp)); [|lia|done|done].
  intros (j & Hj & Hh)%Ht. apply (succ_start p v j); [done|done|]. by apply Hsol.
Qed.
Lemma back_complete l off : live l off -> forall p v bb k, vs !! p = Some v -> e_bbs s !! p = Some bb -> k < length (x_uds v) -> off = off_at (x_first v + k) ->
  back (drop k (x_uds v)) l (bit (m_atTail bb) l) = true.
Proof using Hgr Han Hcode Hsol.
  induction 1 as [off Hu|off off' Hf _ IH Hnd]; intros p v bb k Hv Hb Hk ->; destruct (vertex_block p v Hv) as (o & blk & Hblk & _ & Hsp & Htab & HF);
    apply (live_back dec code _ _ _ l (bit (m_atTail bb) l) Htab (bs_in _ _ _ _ _ Hsp) (bs_plain _ _ _ _ _ Hsp) (bs_le _ _ _ _ _ Hsp) k Hk); [by right|].
  left. exists off'. split; [done|]. split; [done|]. pose proof (proj1 Htab) as Hlen. pose proof (bs_le _ _ _ _ _ Hsp).
  assert (Hat : at_block dec code bbs (off_at (x_first v + k)) o blk (x_first v) (x_last v) (x_first v + k)) by (split; [done|]; split; [done|]; split; [lia|done]).
  destruct (flow_block _ _ Hcode _ (proj1 Han) _ _ _ _ _ _ _ Hat Hf) as [[Hlt (_ & _ & _ & Hoff)]|(He & o' & blk' & a' & b' & Hin & Hat')].
  - split; [lia|]. intros _. apply (IH p v bb (S k)); [done|done|lia|]. rewrite Hoff. f_equal. lia.
  - split; [|lia]. intros _. destruct (solved_block p v Hv) as (bb1 & Hb1 & _ & _ & Ht). rewrite Hb in Hb1. injection Hb1 as <-. apply Ht.
    rewrite He in Hf. destruct (succ_vertex p v off' Hv Hf) as (j & v' & Hj & Hv' & -> & Hpos). exists j. split; [done|].
    destruct (solved_block j v' Hv') as (bb' & Hb' & _ & Hh & _). exists bb'. split; [done|]. rewrite Hh.
    pose proof (IH j v' bb' 0 Hv' Hb' Hpos) as H'. rewrite drop_0, Nat.add_0_r in H'. by apply H'.
Qed.
Lemma before_exact p v bb k l : vs !! p = Some v -> e_bbs s !! p = Some bb -> k < length (x_uds v) ->
  back (drop k (x_uds v)) l (bit (m_atTail bb) l) = true <-> live l (off_at (x_first v + k)).
Proof using Hgr Han Hcode Hsol. intros Hv Hb Hk. split; [by eapply back_sound|]. intros Hl. by apply (back_complete l _ Hl p v bb k). Qed.
(** After it: what is live at some next bytecode. *)
Lemma next_exact p v bb k l : vs !! p = Some v -> e_bbs s !! p = Some bb -> k < length (x_uds v) ->
  back (drop (S k) (x_uds v)) l (bit (m_atTail bb) l) = true <-> exists off', flow dec code (off_at (x_first v + k)) off' /\ live l off'.
Proof using Hgr Han Hcode Hsol.
  intros Hv Hb Hk. destruct (vertex_block p v Hv) as (o & blk & Hblk & _ & Hsp & Htab & HF). pose proof (proj1 Htab) as Hlen. pose proof (bs_le _ _ _ _ _ Hsp). pose proof (bs_in _ _ _ _ _ Hsp).
  destruct (decide (S k = length (x_uds v))) as [He|Hne].
  - rewrite He, drop_ge by done. simpl. replace (x_first v + k) with (x_last v) by lia. destruct (solved_block p v Hv) as (bb1 & Hb1 & _ & _ & Ht).
    rewrite Hb in Hb1. injection Hb1 as <-. rewrite Ht. split.
    + intros (j & Hj & Hh). apply (succ_start p v j); [done|done|by apply Hsol].
    + intros (off' & Hf & Hl). destruct (succ_vertex p v off' Hv Hf) as (j & v' & Hj & Hv' & -> & Hpos). exists j. split; [done|].
      destruct (solved_block j v' Hv') as (bb' & Hb' & _ & Hh & _). exists bb'. split; [done|]. rewrite Hh.
      pose proof (before_exact j v' bb' 0 l Hv' Hb' Hpos) as H'. rewrite drop_0, Nat.add_0_r in H'. by apply H'.
  - rewrite (before_exact p v bb (S k) l) by (done || lia). replace (x_first v + S k) with (S (x_first v + k)) by lia. split.
    + intros Hl. exists (off_at (S (x_first v + k))). split; [|done]. apply (span_flow _ _ Hcode blk (x_first v) (x_last v)); [done|lia].
    + intros (off' & Hf & Hl). apply (flow_plain _ _ Hcode) in Hf as ->; [done|lia|apply (bs_plain _ _ _ _ _ Hsp); lia].
Qed.
End solution.
