(* ===== verification/LiveResult.v ===== *)
(** * The liveness of locals is exact

    [ComputeBytecodeLiveness] on the result of the control flow analysis returns, and a bit
    says exactly that the local is live at the bytecode. *)
From S2P Require Import Prelude Compiler BitVec ControlFlow Blocks Captures CapturesProps Liveness LiveInfo LiveSpec LiveLoop LiveProps.
From stdpp Require Import list sorting.
#[local] Set Default Proof Using "Type".
#[local] Notation never := (fun _ : error => False).

(** ** The vectors of one block *)
Section vectors.
Context (dec : Decoder) (code : CodeBlock).
Notation num := (m_stackFrameNumSlots code).

(** What the result holds for the [k]-th bytecode of a block. *)
Definition before_vector (v : Vertex) (bb : BytecodeLivenessBBInfo) (k : nat) (bv : BitVector) : Prop :=
  bv_of num bv /\ forall l, bit bv l = back (drop k (x_uds v)) l (bit (m_atTail bb) l).
Definition after_vector (v : Vertex) (bb : BytecodeLivenessBBInfo) (k : nat) (bv : BitVector) : Prop :=
  bv_of num bv /\ forall l, bit bv l = match x_uds v !! k with Some ud => negb (bool_decide (l ∈ ud.2)) | None => true end && back (drop (S k) (x_uds v)) l (bit (m_atTail bb) l).
Definition entry_ok (v : Vertex) (bb : BytecodeLivenessBBInfo) (r : BytecodeLiveness) (k : nat) : Prop :=
  exists bf af, m_beforeUse r !! (x_first v + k) = Some bf /\ m_afterUse r !! (x_first v + k) = Some af /\ before_vector v bb k bf /\ after_vector v bb k af.
Definition in_vertex (v : Vertex) (i : nat) : Prop := x_first v <= i < x_first v + length (x_uds v).
Definition same_shape (r r' : BytecodeLiveness) : Prop :=
  length (m_beforeUse r') = length (m_beforeUse r) /\ length (m_afterUse r') = length (m_afterUse r).
Definition same_entry (r r' : BytecodeLiveness) (i : nat) : Prop := m_beforeUse r' !! i = m_beforeUse r !! i /\ m_afterUse r' !! i = m_afterUse r !! i.

Lemma per_bytecode_ok v bb : vertex_ok dec code v bb -> forall k next r, k <= length (x_uds v) -> before_vector v bb k next ->
  length (m_beforeUse r) = length (m_afterUse r) -> x_first v + k <= length (m_beforeUse r) ->
  (forall i, x_first v <= i < x_first v + k -> m_beforeUse r !! i = Some no_vector) ->
  exists r', per_bytecode bb k next r = Ok r' /\ same_shape r r' /\ (forall j, j < k -> entry_ok v bb r' j) /\
    (forall i, ~ x_first v <= i < x_first v + k -> same_entry r r' i).
Proof.
  intros Hv. pose proof (vo_info _ _ _ _ Hv) as Hio. pose proof (table_slots _ _ _ _ _ (io_table _ _ _ _ _ _ Hio)) as Hsl.
  induction k as [|k IH]; intros next r Hk [Hnv Hnb] Hlen Hin Hno; cbn [per_bytecode]; [by exists r; split_and!; try done; lia|].
  destruct (lookup_lt_is_Some_2 (x_uds v) k ltac:(lia)) as [[u d] Hud]. rewrite (io_info _ _ _ _ _ _ Hio), (io_index _ _ _ _ _ _ Hio), (io_first _ _ _ _ _ _ Hio).
  destruct (after_defs_ok _ _ _ _ _ _ Hud Hsl Hnv) as (af & He1 & Haf & Hafb). rewrite He1. cbn [mbind result_bind].
  destruct (before_uses_ok _ _ _ _ _ _ Hud Hsl Haf) as (bf & He2 & Hbf & Hbfb). rewrite He2. cbn [mbind result_bind].
  rewrite (Hno (x_first v + k)) by lia. cbn [fmap option_fmap option_map m_length no_vector]. rewrite bool_decide_true by done. cbn [negb].
  set (r1 := mk_result _ _). assert (Hbefore : before_vector v bb k bf).
  { split; [done|]. intros l. rewrite Hbfb, Hafb, Hnb, (drop_S _ _ _ Hud). done. }
  assert (Hafter : after_vector v bb k af) by (split; [done|]; intros l; by rewrite Hafb, Hnb, Hud).
  destruct (IH bf r1) as (r' & Hr & [Hs1 Hs2] & Hent & Hsame); [lia|done|unfold r1; simpl; by rewrite !length_insert|unfold r1; simpl; rewrite length_insert; lia| |].
  { intros i Hi. unfold r1. simpl. rewrite list_lookup_insert_ne by lia. apply Hno. lia. }
  exists r'. split; [exact Hr|]. split; [split; [rewrite Hs1|rewrite Hs2]; unfold r1; simpl; apply length_insert|]. split.
  - intros j Hj. destruct (decide (j = k)) as [->|]; [|apply Hent; lia]. destruct (Hsame (x_first v + k) ltac:(lia)) as [H1 H2].
    exists bf, af. rewrite H1, H2. unfold r1. simpl. rewrite !list_lookup_insert_eq by lia. done.
  - intros i Hi. destruct (Hsame i ltac:(lia)) as [H1 H2]. unfold same_entry. rewrite H1, H2. unfold r1. simpl. by rewrite !list_lookup_insert_ne by lia.
Qed.

(** A block of the solution. *)
Definition settled (v : Vertex) (bb : BytecodeLivenessBBInfo) : Prop :=
  vertex_ok dec code v bb /\ 0 < length (x_uds v) /\ forall l, bit (m_atHead bb) l = back (x_uds v) l (bit (m_atTail bb) l).
Lemma block_vectors_ok v bb r : settled v bb -> length (m_beforeUse r) = length (m_afterUse r) -> x_first v + length (x_uds v) <= length (m_beforeUse r) ->
  (forall i, in_vertex v i -> m_beforeUse r !! i = Some no_vector) ->
  exists r', ComputePerBytecodeLiveness code bb r = Ok r' /\ same_shape r r' /\ (forall k, k < length (x_uds v) -> entry_ok v bb r' k) /\
    (forall i, ~ in_vertex v i -> same_entry r r' i).
Proof.
  intros (Hv & Hpos & Hhead) Hlen Hin Hno. pose proof (vo_info _ _ _ _ Hv) as Hio. unfold ComputePerBytecodeLiveness.
  rewrite (io_first _ _ _ _ _ _ Hio), (io_count _ _ _ _ _ _ Hio), (proj2 (Nat.leb_le _ _)) by done. cbn [negb].
  destruct (per_bytecode_ok v bb Hv (length (x_uds v)) (m_atTail bb) r) as (r' & Hr & Hs & Hent & Hsame); [done| |done|done|done|].
  { split; [apply Hv|]. intros l. by rewrite drop_ge by done. }
  rewrite Hr. cbn [mbind result_bind]. destruct (Hent 0 Hpos) as (bf & af & Hbf & _ & [_ Hb] & _). rewrite Nat.add_0_r in Hbf. rewrite Hbf.
  assert (Hall : forallb (fun l => eqb (bit bf l) (bit (m_atHead bb) l)) (seq 0 num) = true).
  { apply forallb_forall. intros l _. rewrite Hb, Hhead, drop_0. apply eqb_reflx. }
  rewrite Hall. by exists r'.
Qed.

Definition disjoint_vertices (vs : list Vertex) : Prop := forall p q v w i, vs !! p = Some v -> vs !! q = Some w -> in_vertex v i -> in_vertex w i -> p = q.
Lemma all_vectors_ok vs bbs r : Forall2 settled vs bbs -> disjoint_vertices vs -> length (m_beforeUse r) = length (m_afterUse r) ->
  (forall v, v ∈ vs -> x_first v + length (x_uds v) <= length (m_beforeUse r) /\ forall i, in_vertex v i -> m_beforeUse r !! i = Some no_vector) ->
  exists r', all_bytecodes code bbs r = Ok r' /\ same_shape r r' /\
    (forall p v bb k, vs !! p = Some v -> bbs !! p = Some bb -> k < length (x_uds v) -> entry_ok v bb r' k) /\
    (forall i, (forall v, v ∈ vs -> ~ in_vertex v i) -> same_entry r r' i).
Proof.
  intros HF. revert r. induction HF as [|v bb vs bbs Hs HF IH]; intros r Hd Hlen Hno; cbn [all_bytecodes]; [by exists r; split_and!|].
  destruct (Hno v ltac:(left)) as [Hin Hnov]. destruct (block_vectors_ok v bb r Hs Hlen Hin Hnov) as (r1 & Hr1 & Hsh1 & Hent1 & Hsame1). rewrite Hr1. cbn [mbind result_bind].
  pose proof Hsh1 as [Hb1 Ha1].
  assert (Hout : forall w i, w ∈ vs -> in_vertex w i -> ~ in_vertex v i).
  { intros w i [q Hq]%list_elem_of_lookup Hw Hv. by specialize (Hd 0 (S q) v w i eq_refl Hq Hv Hw). }
  destruct (IH r1) as (r' & Hr' & Hsh' & Hent' & Hsame').
  - intros p q w x i Hp Hq Hw Hx. specialize (Hd (S p) (S q) w x i Hp Hq Hw Hx). lia.
  - congruence.
  - intros w Hw. destruct (Hno w ltac:(by right)) as [Hwin Hwno]. split; [by rewrite Hb1|]. intros i Hi. rewrite (proj1 (Hsame1 i (Hout w i Hw Hi))). by apply Hwno.
  - exists r'. split; [done|]. split; [destruct Hsh' as [? ?]; split; congruence|]. split.
    + intros [|p] w cc k; simpl; [|apply Hent']. intros [= <-] [= <-] Hk. destruct (Hent1 k Hk) as (bf & af & Hbf & Haf & H).
      destruct (Hsame' (x_first v + k)) as [H1 H2]; [intros w Hw Hi; apply (Hout w _ Hw Hi); unfold in_vertex; lia|]. exists bf, af. by rewrite H1, H2.
    + intros i Hi. destruct (Hsame' i ltac:(intros w Hw; apply Hi; by right)) as [H1 H2]. destruct (Hsame1 i ltac:(apply Hi; left)) as [H3 H4]. split; congruence.
Qed.
End vectors.

(** ** The whole analysis *)
Section result.
Context (dec : Decoder) (code : CodeBlock) (Hcode : code_ok dec code) (Hcl : closures_ok dec code) (Hac : accesses_ok dec code).
Context (bbs : list BasicBlockUpvalueInfo) (Han : analyzed dec code bbs) (vs : list Vertex) (infos : list BytecodeLivenessBBInfo).
Context (Hgr : graph_of dec code bbs vs infos) (s : Epochs) (Hsol : solved dec code vs (live_start dec code vs) s).
Notation num := (m_stackFrameNumSlots code).
Notation n := (length (m_sbIndex code)).
Notation off_at := (off_at dec code).

Lemma settled_blocks : Forall2 (settled dec code) vs (e_bbs s).
Proof using Hgr Hsol.
  apply Forall2_same_length_lookup. split; [eapply Forall2_length, Hsol|]. intros p v bb Hv Hb.
  destruct (solved_block _ _ _ _ Hsol p v Hv) as (bb' & Hb' & Hvo & Hh & _). rewrite Hb in Hb'. injection Hb' as <-.
  destruct (vertex_block _ _ _ _ _ Hgr p v Hv) as (o & blk & _ & _ & Hsp & Htab & _). split; [done|]. split; [rewrite (proj1 Htab); lia|done].
Qed.
Lemma fixpoint_checked : live_at_fixpoint code (e_bbs s) = true.
Proof using Hgr Hsol.
  apply forallb_every. intros p bb Hb. destruct (Forall2_lookup_r _ _ _ _ _ settled_blocks Hb) as (v & Hv & Hvo & _ & Hh).
  destruct (solved_block _ _ _ _ Hsol p v Hv) as (bb' & Hb' & _ & _ & Ht). rewrite Hb in Hb'. injection Hb' as <-. apply andb_true_iff. split.
  - apply forallb_forall. intros l _. apply bool_iff. rewrite Ht, List.existsb_exists, (vo_succs _ _ _ _ Hvo). split.
    + intros (j & Hj%list_elem_of_In & Hl). exists j. split; [done|]. destruct (e_bbs s !! j) as [bb'|] eqn:E; [by exists bb'|done].
    + intros (j & Hj & bb' & Hb' & Hl). exists j. split; [by apply list_elem_of_In|]. by rewrite Hb'.
  - destruct (slow_ok _ _ _ _ _ Hvo (vo_tail _ _ _ _ Hvo)) as (h & He & _ & Hbit). rewrite He. apply forallb_forall. intros l _. rewrite Hbit, Hh. apply eqb_reflx.
Qed.
Lemma vertex_range p v i : vs !! p = Some v -> in_vertex v i <-> x_first v <= i <= x_last v.
Proof using Hgr.
  intros Hv. destruct (vertex_block _ _ _ _ _ Hgr p v Hv) as (o & blk & _ & _ & Hsp & [Hlen _] & _). pose proof (bs_le _ _ _ _ _ Hsp). unfold in_vertex. lia.
Qed.
Lemma vertices_disjoint : disjoint_vertices vs.
Proof using Hgr Han.
  intros p q v w i Hp Hq Hv%(vertex_range p) Hw%(vertex_range q); [|done|done]. destruct (vertex_block _ _ _ _ _ Hgr p v Hp) as (o & bb & Hb & Hs & Hsp & _).
  destruct (vertex_block _ _ _ _ _ Hgr q w Hq) as (o' & bb' & Hb' & Hs' & Hsp' & _).
  assert (o = o') as <- by (apply (go_disjoint _ _ _ (proj1 Han) _ _ _ _ _ _ _ _ Hb Hb' Hsp Hsp'); lia). by eapply (order_inj bbs).
Qed.
(** The blocks hold what can be reached. *)
Lemma reachable_vertex i : i < n -> reachable dec code (off_at i) <-> exists p v, vs !! p = Some v /\ in_vertex v i.
Proof using Hgr Han Hcode.
  intros Hi. split.
  - intros Hr. destruct (reachable_block _ _ Hcode _ (proj1 Han) _ Hr) as (o & bb & a & b & k & Hb & Hsp & Hk & He). pose proof (bs_in _ _ _ _ _ Hsp).
    apply (off_at_inj _ _ Hcode) in He; [|lia|lia]. subst k. apply sorted_elem, list_elem_of_lookup in Hb as [p Hp].
    destruct (lookup_lt_is_Some_2 vs p) as [v Hv]; [rewrite (gf_length _ _ _ _ _ Hgr); by eapply lookup_lt_Some|]. exists p, v. split; [done|].
    destruct (vertex_block _ _ _ _ _ Hgr p v Hv) as (o' & bb' & _ & Hs' & Hsp' & _). rewrite Hp in Hs'. injection Hs' as <- <-.
    destruct (span_unique _ _ Hcode _ _ _ _ _ Hsp Hsp') as [-> ->]. by apply (vertex_range p).
  - intros (p & v & Hv & Hin%(vertex_range p)); [|done]. destruct (vertex_block _ _ _ _ _ Hgr p v Hv) as (o & bb & Hb & _ & Hsp & _).
    apply (block_reachable _ _ Hcode bbs (proj1 Han) _ o bb (x_first v) (x_last v) i). done.
Qed.

(** What an entry of the result says. *)
Definition entry_exact (i : nat) (bf af : BitVector) : Prop := bv_of num bf /\ bv_of num af /\
  forall l, (bit bf l = true <-> reachable dec code (off_at i) /\ live dec code l (off_at i)) /\
    (bit af l = true <-> reachable dec code (off_at i) /\ ~ defined dec code (off_at i) l /\ exists off', flow dec code (off_at i) off' /\ live dec code l off').
Lemma entry_live p v bb k bf af : vs !! p = Some v -> e_bbs s !! p = Some bb -> k < length (x_uds v) ->
  before_vector code v bb k bf -> after_vector code v bb k af -> entry_exact (x_first v + k) bf af.
Proof using Hgr Han Hcode Hsol.
  intros Hv Hb Hk [Hbv Hbits] [Hav Habits]. split; [done|]. split; [done|].
  destruct (vertex_block _ _ _ _ _ Hgr p v Hv) as (o & blk & _ & _ & Hsp & Htab & _). pose proof (proj1 Htab). pose proof (bs_le _ _ _ _ _ Hsp). pose proof (bs_in _ _ _ _ _ Hsp).
  assert (Hr : reachable dec code (off_at (x_first v + k))) by (apply reachable_vertex; [lia|]; exists p, v; split; [done|unfold in_vertex; lia]).
  destruct (lookup_lt_is_Some_2 (x_uds v) k Hk) as [[u d] Hud]. destruct (proj2 Htab _ _ Hud) as (_ & Hd & _). simpl in Hd. intros l. split.
  - rewrite Hbits, (before_exact _ _ Hcode _ Han _ _ Hgr _ Hsol p v bb k l Hv Hb Hk). tauto.
  - rewrite Habits, Hud, andb_true_iff, negb_true_iff, bool_decide_eq_false, (next_exact _ _ Hcode _ Han _ _ Hgr _ Hsol p v bb k l Hv Hb Hk). simpl. rewrite Hd. tauto.
Qed.
Lemma fill_dead_lookup l i bv : l !! i = Some bv -> fill_dead code l !! i = Some (if m_length bv =? 0 then Reset num else bv).
Proof. intros H. unfold fill_dead. by rewrite list_lookup_fmap, H. Qed.
Lemma fill_bits bv : bv_of num bv -> bv_of num (if m_length bv =? 0 then Reset num else bv) /\ forall l, bit (if m_length bv =? 0 then Reset num else bv) l = bit bv l.
Proof.
  intros Hv. destruct (Nat.eqb_spec (m_length bv) 0) as [H0|]; [|done]. split; [apply bv_of_Reset|]. intros l. rewrite bit_Reset.
  destruct (bit bv l) eqn:E; [|done]. apply (bit_lt _ _ _ Hv) in E. rewrite <- (bf_length _ _ Hv) in E. lia.
Qed.
Lemma vectors_exact : exists r, all_bytecodes code (e_bbs s) (mk_result (replicate n no_vector) (replicate n no_vector)) = Ok r /\
  length (m_beforeUse r) = n /\ length (m_afterUse r) = n /\
  forall i, i < n -> exists bf af, fill_dead code (m_beforeUse r) !! i = Some bf /\ fill_dead code (m_afterUse r) !! i = Some af /\ entry_exact i bf af.
Proof using Hgr Han Hcode Hsol.
  set (r0 := mk_result _ _). destruct (all_vectors_ok dec code vs (e_bbs s) r0 settled_blocks vertices_disjoint) as (r & Hr & [Hl1 Hl2] & Hent & Hsame).
  { unfold r0. simpl. by rewrite !length_replicate. }
  { intros v [p Hp]%list_elem_of_lookup. destruct (vertex_block _ _ _ _ _ Hgr p v Hp) as (o & bb & _ & _ & Hsp & Htab & _).
    pose proof (proj1 Htab). pose proof (bs_in _ _ _ _ _ Hsp). pose proof (bs_le _ _ _ _ _ Hsp). unfold r0. simpl. rewrite length_replicate. split; [lia|].
    intros i Hi%(vertex_range p); [|done]. apply lookup_replicate_2. lia. }
  unfold r0 in Hl1, Hl2. simpl in Hl1, Hl2. rewrite length_replicate in Hl1, Hl2. exists r. split_and!; [done|done|done|]. intros i Hi.
  destruct (decide (Exists (fun v => in_vertex v i) vs)) as [He|Hne].
  - apply Exists_exists in He as (v & [p Hp]%list_elem_of_lookup & Hin). destruct (Forall2_lookup_l _ _ _ _ _ settled_blocks Hp) as (bb & Hb & _).
    destruct (Hent p v bb (i - x_first v) Hp Hb) as (bf & af & Hbf & Haf & Hb1 & Ha1); [unfold in_vertex in Hin; lia|].
    assert (Hi' : x_first v + (i - x_first v) = i) by (unfold in_vertex in Hin; lia). rewrite Hi' in Hbf, Haf.
    destruct (fill_bits bf (proj1 Hb1)) as [Hf1 Hf2], (fill_bits af (proj1 Ha1)) as [Hf3 Hf4].
    eexists _, _. split; [by apply fill_dead_lookup|]. split; [by apply fill_dead_lookup|]. split; [done|]. split; [done|]. intros l. rewrite Hf2, Hf4.
    rewrite <- Hi'. apply (entry_live p v bb (i - x_first v) bf af); [done|done|unfold in_vertex in Hin; lia|done|done].
  - destruct (Hsame i) as [H1 H2]; [intros v Hv Hin; apply Hne, Exists_exists; by exists v|]. unfold r0 in H1, H2. simpl in H1, H2.
    rewrite lookup_replicate_2 in H1, H2 by done. exists (Reset num), (Reset num).
    split; [by apply (fill_dead_lookup _ _ no_vector)|]. split; [by apply (fill_dead_lookup _ _ no_vector)|]. split; [apply bv_of_Reset|]. split; [apply bv_of_Reset|].
    assert (Hno : ~ reachable dec code (off_at i)).
    { intros (p & v & Hv & Hin)%reachable_vertex; [|done]. apply Hne, Exists_exists. exists v. split; [by eapply list_elem_of_lookup_2|done]. }
    intros l. rewrite !bit_Reset. split; (split; [done|]); intros [? _]; done.
Qed.
End result.

(** ** What the analysis returns *)
(** C12: the liveness analysis ends, and is exact.  On well-formed code on which the
    analysis of captured locals is exact, and whose bytecodes access locals of the frame,
    the pass returns without a failed assertion two vectors for each bytecode: the one
    before it has the locals that are live there, the one after it those that it does not
    define and that are live at a bytecode control can go to next; for a bytecode that
    cannot be reached both are empty.  The bytecode that closes a captured local counts as a
    use of it. *)
Theorem bytecode_liveness_exact dec code : code_ok dec code -> closures_ok dec code -> accesses_ok dec code ->
  exists bbs r, RunControlFlowAndUpvalueAnalysis dec code = Ok bbs /\ ComputeBytecodeLiveness dec code bbs = Ok r /\
    length (m_beforeUse r) = length (m_sbIndex code) /\ length (m_afterUse r) = length (m_sbIndex code) /\
    forall i, i < length (m_sbIndex code) -> exists bf af, m_beforeUse r !! i = Some bf /\ m_afterUse r !! i = Some af /\
      m_length bf = m_stackFrameNumSlots code /\ m_length af = m_stackFrameNumSlots code /\
      forall l, (bit bf l = true <-> reachable dec code (off_at dec code i) /\ live dec code l (off_at dec code i)) /\
        (bit af l = true <-> reachable dec code (off_at dec code i) /\ ~ defined dec code (off_at dec code i) l /\
           exists off', flow dec code (off_at dec code i) off' /\ live dec code l off').
Proof.
  intros Hcode Hcl Hac. destruct (analysis_ok _ _ Hcode Hcl) as (bbs & Hrun & Han). exists bbs.
  destruct (graph_ok_start _ _ Hcode Hcl Hac _ Han) as (infos & pss & vs & Hinfos & Hpss & Hlen & Hgr).
  assert (Hlen2 : length (link_infos infos pss) = length infos) by apply length_imap.
  assert (Hrounds : wp never (liveness_fixpoint code (2 + length infos * m_stackFrameNumSlots code) true (length vs))
    (fun _ s => solved dec code vs (live_start dec code vs) s) (mk_epochs (link_infos infos pss) 1)).
  { apply (liveness_fixpoint_ok dec code vs (gf_pred _ _ _ _ _ Hgr) (live_start dec code vs)) with (done := fun _ => False); [|apply Hgr|done|].
    - by apply (live_start_closed _ _ Hcode _ Han _ _ Hgr).
    - pose proof (sum_list_bound (fun bb => unset (m_stackFrameNumSlots code) (m_atHead bb)) (link_infos infos pss) _ (fun bb => unset_le _ _)) as Hsb.
      unfold unset_heads. simpl e_bbs. lia. }
  apply wp_total in Hrounds as (u & s & Hs & Hsol). destruct (vectors_exact _ _ Hcode _ Han _ _ Hgr s Hsol) as (r & Hr & Hl1 & Hl2 & Hexact).
  exists (mk_result (fill_dead code (m_beforeUse r)) (fill_dead code (m_afterUse r))). split; [done|]. split.
  - unfold ComputeBytecodeLiveness. rewrite (sorted_descending _ _ Hcode _ Han). cbn [negb]. rewrite Hinfos. cbn [mbind result_bind]. rewrite Hpss. cbn [mbind result_bind].
    rewrite Hlen, <- Hlen in Hs. rewrite Hs. cbn [mbind result_bind]. rewrite (fixpoint_checked _ _ _ _ _ Hgr _ Hsol). cbn [negb]. by rewrite Hr.
  - cbn [m_beforeUse m_afterUse]. unfold fill_dead. rewrite !length_fmap. split; [done|]. split; [done|]. intros i Hi. destruct (Hexact i Hi) as (bf & af & Hb & Ha & Hbv & Hav & H).
    exists bf, af. split_and!; [done|done|apply Hbv|apply Hav|done].
Qed.

(** ** The function of the control flow analysis *)
Lemma loop_accesses_ok : accesses_ok loop_decoder loop_code.
Proof.
  intros off H. apply loop_bytecode in H. rewrite !elem_of_cons in H. destruct H as [->|[->|[->|[->|[->|[->|[->|[->|[->|[->|?%elem_of_nil]]]]]]]]]]; [..|done].
  3: { split; [by eexists|]. split; [eexists; split; [done|]; split; [done|simpl; lia]|]. apply Forall_singleton. simpl. lia. }
  7: { split; [done|]. split; [done|simpl; lia]. }
  all: split; (split; [apply Forall_forall; simpl; intros d; rewrite ?elem_of_cons, elem_of_nil; intuition (subst; done)|]); by apply (bool_decide_unpack _).
Qed.
Lemma bytecode_liveness_exact_witness : exists bbs r, RunControlFlowAndUpvalueAnalysis loop_decoder loop_code = Ok bbs /\
  ComputeBytecodeLiveness loop_decoder loop_code bbs = Ok r /\
  (forall bf, m_beforeUse r !! 2 = Some bf -> bit bf 0 = true) /\ (forall bf l, m_beforeUse r !! 9 = Some bf -> bit bf l = false).
Proof.
  destruct (bytecode_liveness_exact loop_decoder loop_code loop_code_ok loop_closures_ok loop_accesses_ok) as (bbs & r & Hrun & Hlive & _ & _ & Hall).
  exists bbs, r. split; [exact Hrun|]. split; [exact Hlive|]. split.
  - intros bf Hbf. destruct (Hall 2 ltac:(vm_compute; lia)) as (bf' & af & Hb & _ & _ & _ & H). rewrite Hbf in Hb. injection Hb as <-. apply (H 0). split; [exact loop_reachable|].
    apply live_used. eexists. split; [left|]. split; [done|]. split; [done|]. by left.
  - intros bf l Hbf. destruct (Hall 9 ltac:(vm_compute; lia)) as (bf' & af & Hb & _ & _ & _ & H). rewrite Hbf in Hb. injection Hb as <-. apply not_true_is_false.
    intros [Hr _]%(proj1 (H l)). exact (loop_unreachable Hr).
Defined.
Example loop_live :
  match RunControlFlowAndUpvalueAnalysis loop_decoder loop_code with
  | Ok bbs => match ComputeBytecodeLiveness loop_decoder loop_code bbs with
              | Ok r => map (fun bf => List.filter (bit bf) [0; 1; 2]) (m_beforeUse r)
              | Err _ => []
              end
  | Err _ => []
  end = [[]; [0]; [0; 2]; [0; 1; 2]; [0; 1; 2]; [0; 1]; [0; 1; 2]; [0; 2]; [0; 2]; []].
Proof. vm_compute. reflexivity. Qed.
